(* ===== verification/_CoqProject ===== *)
-Q . S2P
Prelude.v
Memory.v
CType.v
VmInstr.v
Floats.v
CArith.v
VmRun.v
VmProps.v
VmMove.v
VmCalls.v
VmImage.v
VmImageProps.v
VmLink.v
VmLinkProps.v
Strings.v
Hash.v
HashProps.v
HashFree.v
Strtab.v
Symbol.v
Typetree.v
TypetreeProps.v
TypetreeSpec.v
Symtab.v
SymtabProps.v
SymtabSpec.v
Token.v
Lexer.v
LexerProps.v
LexerSafe.v
LexerSpec.v
Input.v
InputProps.v
InputSpec.v
Ir.v
Liveness.v
Optimize.v
IrSem.v
LivenessProps.v
OptimizeProps.v
SolverProps.v
OptimizeRuns.v
OptimizeSpec.v
VmGen.v
VmGenSem.v
VmGenProps.v
VmGenCode.v
VmGenSpec.v
VmGenNode.v
Macro.v
MacroProps.v
MacroExpand.v
Immediate.v
Directive.v
CondExpr.v
CondExprParse.v
Preproc.v
MacroSpec.v
PpQueue.v
CondGroups.v
DirectiveSpec.v
PreprocSpec.v
Cfg.v
Eval.v
Assign.v
EvalProps.v
EvalSem.v
EvalOps.v
EvalSpec.v
Parser.v
Expression.v
Initializer.v
Declaration.v
Statement.v
Grammar.v
Syntax.v
ParseProps.v
ParseRules.v
ParseSpec.v
GrammarSpec.v
