(* ===== verification/Prelude.v ===== *)
(** * Verification of the kcs scripting C compiler

    kcs compiles C (a front end derived from lacc) to the code of a stack
    machine and runs it at once, or saves it in [.lkx] files and loads it
    again; it can also emit x86-64 code.  This library models the compiler from
    the bytes of a source file to the execution of the machine code, and proves
    what makes its parts correct.

    ** The program and its model

    - src/preprocessor: characters to tokens.  Token is the table of tokens,
      Lexer the tokenizer (tokenize.c), Input the reading of files and lines
      (input.c), Macro the macro processor (macro.c), Directive the directives
      and the expressions of [#if] (directive.c), Preproc the rest
      (preprocess.c), with the queue from which the parser is served.  They rest
      on Strings (include/lacc/string.h, util/string.c), Hash
      (include/lacc/hash.h, util/hash.c) and Strtab (preprocessor/strtab.c).
    - src/parser: tokens to a flow graph of three-address code per function.
      CType is [Type] and its predicates (include/lacc/type.h), Typetree the
      table behind it (parser/typetree.c), Symbol the record of
      include/lacc/symbol.h, Symtab the namespaces with their scopes,
      declarations and generated symbols (parser/symtab.c), a client of Hash and
      Typetree.  Ir is the flow graph (include/lacc/ir.h), Cfg the graphs while
      they are built (parse.c), Immediate the values of constants, Eval and
      Assign the evaluator (eval.c).  Parser is the state of the grammar,
      Expression, Initializer, Declaration and Statement the rules of the files
      of these names, Grammar ties them ([parse], parse.c).
    - src/optimizer: Liveness (liveness.c) and Optimize (optimize.c and
      transform.c), definition by definition.
    - src/backend/vm: VmInstr is the instruction (vminstr.h), VmGen the code
      generator of vminstr.c, from flow graphs and initial values to
      instructions, VmLink its linker and jump threading, VmImage the writer and
      the loader of saved modules (vmsevelir.c, vmimplir.c), VmRun the
      interpreter (vmrunlir.c), one definition per case of its dispatch table.

    ** How it is modelled

    Code that can fail returns an [outcome] (this file): [Ok], [Exit] for a
    failed assertion or a diagnosed error, [Undef] where C gives no meaning.
    Integers are [Z] with their wrap-around written out ([wrap_u], [wrap_s],
    [conv]); host memory is a finite map from addresses to bytes (Memory); heap
    objects with pointers between them (the nodes of hash tables, macros, the
    blocks of a flow graph, symbols, types) are entries of stores addressed by
    number, so that aliasing is as in the code.  The evaluator computes in the
    monad [E] over the state of Cfg, the grammar in [P], which adds the source
    of tokens (an interface, [TokenSource]) and the static variables of the
    rules; rules that call each other in a cycle do so through the record
    [grammar].
    Floating-point values are the pairs of Floats; CArith is the arithmetic of C
    on the integer types.
    A loop or recursion without a bound of its own takes fuel, and running out
    of it is a value of its own, never a result; theorems give the fuel that is
    enough: the number of bytes for the loader, 64 passes per block and one
    more for the data-flow solver, the number of stores more for the loop of
    the optimizer, the number of instructions for the threading of one jump, the
    number of blocks that are not yet colored and one more for the code
    generator, the tokens of a line for the loops of the preprocessor, the
    size of an expression for the loops and the nesting of its rules.  [depth]
    bounds the nesting of types (and of macro expansions).
    What the program gets from outside (builtin functions, host addresses, the
    files that [fopen] finds, the meaning of operators on bytes in IrSem) is a
    parameter with named laws.

    ** What is proved

    - The hash table refines a finite map, whatever the sequence of operations,
      with the free list and the chains of nodes as in the code: HashProps (the
      representation invariant and the operations), HashFree, Strtab
      ([hash_refines_map],
      [str_register_interns], [str_cat_correct]); strings compare by their
      characters ([str_cmp_equal]).
    - Tokenizer: LexerProps has the lemmas, on literals too, LexerSafe which
      lines can be taken apart, LexerSpec the theorems: longest identifiers and
      operators, integer constants, string literals as they were printed.
    - Files: InputProps follows a line through the buffer, InputSpec shows that
      reading in pieces gives the lines of the text, what bounds them, and that
      each can be tokenized.
    - Macros: MacroProps (the store of macros), MacroExpand (rescanning as the
      relation of the C standard, and the text of arguments), MacroSpec the
      theorems: the table is a map, object-like macros are expanded as the
      standard says, and which macros are expanded without end.
    - Directives: CondExpr is C's grammar and meaning of [#if] expressions,
      with the operators of directive.c on values, CondExprParse shows that
      directive.c computes it, CondGroups that of a group of sections the right
      one is processed; DirectiveSpec has the theorems.
    - Preprocessor: PpQueue (what its operations leave alone, and the queue of
      tokens), PreprocSpec the theorems on what the parser is given, and texts
      that are read otherwise than in C.
    - Types: TypetreeProps and TypetreeSpec show the layout of every struct the
      operations can build, the usual arithmetic conversions against the C
      standard, pointers and targets, and where the code fails.
    - Symbol table: SymtabProps shows that a namespace with its lazily made and
      emptied hash tables is a stack of finite maps, and carries the invariant
      (every symbol has one owner, names are bound to symbols of their
      namespace) through every operation, SymtabSpec has the theorems: lexical
      scoping, no use of freed symbols in any reachable state, what a
      declaration binds, that the back end is given the symbols it has output
      for, and where the table fails.
    - Evaluation: EvalProps is what evaluation may change ([emitted]) and the
      folding of constants, EvalSem the triples [gives] on emitted code, EvalOps
      each operator on integers; EvalSpec has whole expressions, the theorems
      ([integer_code_correct], [constants_folded]) and what eval.c gets wrong.
    - Grammar: Syntax has expressions as trees with their tokens, their
      precedence and the calls of the evaluator that belong to each node;
      ParseProps relates rules to computations of the evaluator by the tokens
      they take, ParseRules does so for every construct of expression.c, and
      ParseSpec has the theorems: the parser does what the tree says
      ([expression_parsed]) and, for integer expressions, emits code with the
      value of C ([expression_compiled]); its instances read a text through the
      preprocessor.  GrammarSpec takes whole programs from their text
      through every stage to their result, and shows what the grammar gets
      wrong.
    - Optimizer: IrSem gives runs to flow graphs; LivenessProps relates memories
      that agree on live symbols; OptimizeProps is the correctness of each
      transformation on a block, SolverProps the termination of the solver,
      OptimizeRuns their composition over a flow graph, OptimizeSpec the
      theorems with their instances and the programs the optimizer breaks.
    - Interpreter: VmProps (what instructions leave of memory, operators,
      branches; the machine of the instances), VmMove
      (conversions, variables, stores), VmCalls (calls, jump tables, setjmp and
      longjmp).
    - Code generator: VmGenSem gives the operators their C meaning on bytes and
      says which assignments are covered; VmGenProps is the simulation between
      the interpreter and IrSem, instruction by instruction, with the storage of
      used-up temporaries left open; VmGenCode carries it through every function
      that emits code, the peepholes included; VmGenSpec has the theorem
      ([gen_code_correct]), an instance, and the programs that are compiled
      wrongly.  VmGenNode is the walk over the blocks, and the places of
      locals.
    - Modules: VmImageProps (the loader reads back what the writer wrote and
      rejects a file that is cut inside a record; what it loads of a function
      behaves as the saved code with its globals moved).
    - Linker: VmLinkProps (a jump lands behind its label; jump threading ends and
      keeps every run, unless jumps form a cycle or a conditional jump leads to
      the next instruction).

    ** What is not modelled

    The x86-64 backend with its calling convention, the builtin functions of the
    machine (calls into the C library), the dump of code, the output of graphs,
    the driver, and the runtime library and extensions that scripts call
    (src/_extdll, the big integers: mostly third-party code).  Printing and
    debugging output and warnings are left out throughout.
    The grammar is modelled completely.  Its general theorems cover expressions
    other than calls, compound literals, [_Alignof] and [sizeof] of a type;
    declarations, initializers and statements have executable definitions and
    instances.  Generated code is shown right for assignments of integers and
    pointers inside a block; calls, bit-fields, structs, floating-point
    operands, jumps between blocks and initial values are generated by the same
    definitions but not covered by that theorem. *)

From stdpp Require Import base list gmap numbers strings.
From Stdlib Require Import ZArith Lia.

Local Open Scope Z_scope.

(** ** Outcomes of C code

    [Ok] is normal completion; [Exit] is a diagnosed failure (a failed
    [assert], or [error(...)] followed by [exit(1)]: both print a message
    and leave with status 1, see [__kcc_assert] in src/src/kcsutil.c);
    [Undef] is a computation to which C gives no meaning. *)

Inductive outcome (A : Type) : Type :=
  | Ok (a : A)
  | Exit (msg : string)
  | Undef (why : string).
Arguments Ok {A} a.
Arguments Exit {A} msg.
Arguments Undef {A} why.

#[export] Instance outcome_ret : MRet outcome := @Ok.
#[export] Instance outcome_bind : MBind outcome := λ A B f m,
  match m with Ok a => f a | Exit e => Exit e | Undef e => Undef e end.

(** [assert(b)] and the reading of an optional result. *)
Definition c_assert (b : bool) : outcome unit :=
  if b then Ok tt else Exit "assertion failed".

Definition defined {A} (why : string) (o : option A) : outcome A :=
  match o with Some a => Ok a | None => Undef why end.

Lemma bind_ok {A B} (a : A) (f : A → outcome B) : (Ok a ≫= f) = f a.
Proof. reflexivity. Qed.

Lemma bind_ok_inv {A B} (m : outcome A) (f : A → outcome B) b :
  m ≫= f = Ok b → ∃ a, m = Ok a ∧ f a = Ok b.
Proof. destruct m; simpl; intros H; try discriminate. by eexists. Qed.

Lemma defined_ok_inv {A} why (o : option A) a : defined why o = Ok a → o = Some a.
Proof. destruct o; simpl; congruence. Qed.

Lemma c_assert_ok_inv b u : c_assert b = Ok u → b = true.
Proof. by destruct b. Qed.

(** Decompose a hypothesis that a sequence of monadic steps is [Ok]. *)
Ltac ok_inv :=
  repeat match goal with
  | H : (_ ≫= _) = Ok _ |- _ =>
      let a := fresh "a" in let Ha := fresh "Ha" in
      apply bind_ok_inv in H as (a & Ha & H)
  | H : defined _ _ = Ok _ |- _ => apply defined_ok_inv in H
  | H : c_assert _ = Ok _ |- _ => apply c_assert_ok_inv in H
  | H : Ok _ = Ok _ |- _ => injection H as H
  | H : Exit _ = Ok _ |- _ => discriminate H
  | H : Undef _ = Ok _ |- _ => discriminate H
  end.

(** Membership in a concrete list, by computation. *)
Ltac in_list := apply (bool_decide_eq_true_1 _); vm_compute; reflexivity.

(** ** Machine integers

    A [w]-bit value is an integer; [wrap_u] and [wrap_s] are conversion to
    the unsigned and to the signed [w]-bit type. *)

Definition wrap_u (w z : Z) : Z := z mod 2 ^ w.
Definition wrap_s (w z : Z) : Z := (z + 2 ^ (w - 1)) mod 2 ^ w - 2 ^ (w - 1).

(** Congruence modulo [2^w]. *)
Definition eqm (w a b : Z) : Prop := wrap_u w a = wrap_u w b.

#[export] Instance eqm_equiv w : Equivalence (eqm w).
Proof. split; unfold eqm; repeat intro; congruence. Qed.

#[export] Instance eqm_add w : Proper (eqm w ==> eqm w ==> eqm w) Z.add.
Proof.
  intros a a' Ha b b' Hb. unfold eqm, wrap_u in *.
  by rewrite (Zplus_mod a), (Zplus_mod a'), Ha, Hb.
Qed.
#[export] Instance eqm_sub w : Proper (eqm w ==> eqm w ==> eqm w) Z.sub.
Proof.
  intros a a' Ha b b' Hb. unfold eqm, wrap_u in *.
  by rewrite (Zminus_mod a), (Zminus_mod a'), Ha, Hb.
Qed.
#[export] Instance eqm_mul w : Proper (eqm w ==> eqm w ==> eqm w) Z.mul.
Proof.
  intros a a' Ha b b' Hb. unfold eqm, wrap_u in *.
  by rewrite (Zmult_mod a), (Zmult_mod a'), Ha, Hb.
Qed.
#[export] Instance eqm_opp w : Proper (eqm w ==> eqm w) Z.opp.
Proof. intros a b H. change (eqm w (0 - a) (0 - b)). by rewrite H. Qed.

#[export] Instance wrap_u_proper w : Proper (eqm w ==> eq) (wrap_u w).
Proof. intros a b H. exact H. Qed.
#[export] Instance wrap_s_proper w : Proper (eqm w ==> eq) (wrap_s w).
Proof.
  intros a b H. unfold wrap_s. fold (wrap_u w (a + 2 ^ (w - 1))).
  by rewrite H.
Qed.

Lemma pow2_pos w : 0 ≤ w → 0 < 2 ^ w.
Proof. intros. by apply Z.pow_pos_nonneg. Qed.

Lemma pow2_split w : 0 < w → 2 ^ w = 2 * 2 ^ (w - 1).
Proof. intros. rewrite <-Z.pow_succ_r by lia. f_equal; lia. Qed.

Lemma wrap_u_range w z : 0 ≤ w → 0 ≤ wrap_u w z < 2 ^ w.
Proof. intros. apply Z.mod_pos_bound, pow2_pos; lia. Qed.

Lemma wrap_s_range w z : 0 < w → - 2 ^ (w - 1) ≤ wrap_s w z < 2 ^ (w - 1).
Proof.
  intros. unfold wrap_s. rewrite (pow2_split w) by lia.
  pose proof (pow2_pos (w - 1)).
  pose proof (Z.mod_pos_bound (z + 2 ^ (w - 1)) (2 * 2 ^ (w - 1))). lia.
Qed.

Lemma wrap_u_small w z : 0 ≤ z < 2 ^ w → wrap_u w z = z.
Proof. apply Z.mod_small. Qed.

Lemma wrap_s_small w z : 0 < w → - 2 ^ (w - 1) ≤ z < 2 ^ (w - 1) → wrap_s w z = z.
Proof.
  intros. unfold wrap_s. rewrite Z.mod_small; [lia|].
  rewrite (pow2_split w) by lia. lia.
Qed.

Lemma eqm_wrap_u w z : 0 ≤ w → eqm w (wrap_u w z) z.
Proof. intros. apply wrap_u_small, wrap_u_range; lia. Qed.

Lemma eqm_mult w z k : 0 ≤ w → eqm w (z + k * 2 ^ w) z.
Proof. intros. unfold eqm, wrap_u. apply Z_mod_plus_full. Qed.

Lemma eqm_wrap_s w z : 0 < w → eqm w (wrap_s w z) z.
Proof.
  intros. unfold wrap_s. fold (wrap_u w (z + 2 ^ (w - 1))).
  rewrite eqm_wrap_u by lia. by replace (z + 2 ^ (w - 1) - 2 ^ (w - 1)) with z by lia.
Qed.

(** Congruence at a width implies congruence at every smaller one. *)
Lemma eqm_le w w' a b : 0 ≤ w ≤ w' → eqm w' a b → eqm w a b.
Proof.
  intros Hw H. unfold eqm, wrap_u in *.
  assert (Hd : (2 ^ w | 2 ^ w')).
  { exists (2 ^ (w' - w)). rewrite <-Z.pow_add_r by lia. f_equal; lia. }
  rewrite <-(Z.mod_mod_divide a _ _ Hd), <-(Z.mod_mod_divide b _ _ Hd).
  by rewrite H.
Qed.

Lemma wrap_u_wrap_u w w' z : 0 ≤ w ≤ w' → wrap_u w (wrap_u w' z) = wrap_u w z.
Proof. intros. apply (eqm_le w w'); [done|]. apply eqm_wrap_u; lia. Qed.

Create Rewrite HintDb wrap.
#[export] Hint Rewrite wrap_u_wrap_u using lia : wrap.

(** ** Integer types of the C implementation (LP64, two's complement) *)

Inductive ity : Set := I8 | I16 | I32 | I64 | U8 | U16 | U32 | U64.
#[export] Instance ity_eq_dec : EqDecision ity.
Proof. solve_decision. Defined.

Definition isize (t : ity) : nat :=
  match t with I8 | U8 => 1 | I16 | U16 => 2 | I32 | U32 => 4 | I64 | U64 => 8 end.
Definition iwidth (t : ity) : Z :=
  match t with I8 | U8 => 8 | I16 | U16 => 16 | I32 | U32 => 32 | I64 | U64 => 64 end.
Definition isigned (t : ity) : bool :=
  match t with I8 | I16 | I32 | I64 => true | _ => false end.

(** Conversion of an integer value to type [t]. *)
Definition conv (t : ity) (z : Z) : Z :=
  if isigned t then wrap_s (iwidth t) z else wrap_u (iwidth t) z.

Definition in_range (t : ity) (z : Z) : bool :=
  if isigned t then (- 2 ^ (iwidth t - 1) <=? z) && (z <? 2 ^ (iwidth t - 1))
  else (0 <=? z) && (z <? 2 ^ iwidth t).

(** The integer promotions. *)
Definition promote (t : ity) : ity :=
  match t with I8 | I16 | U8 | U16 => I32 | t => t end.

Lemma iwidth_isize t : iwidth t = 8 * Z.of_nat (isize t).
Proof. by destruct t. Qed.
Lemma iwidth_pos t : 8 ≤ iwidth t ≤ 64.
Proof. destruct t; simpl; lia. Qed.

#[export] Instance conv_proper t : Proper (eqm (iwidth t) ==> eq) (conv t).
Proof. intros a b H. unfold conv. destruct (isigned t); by rewrite H. Qed.

Lemma eqm_conv t z : eqm (iwidth t) (conv t z) z.
Proof.
  pose proof (iwidth_pos t). unfold conv.
  destruct (isigned t); [apply eqm_wrap_s | apply eqm_wrap_u]; lia.
Qed.

Lemma in_range_spec t z : in_range t z = true ↔
  (if isigned t then - 2 ^ (iwidth t - 1) else 0) ≤ z <
  (if isigned t then 2 ^ (iwidth t - 1) else 2 ^ iwidth t).
Proof. unfold in_range. destruct (isigned t); rewrite andb_true_iff, Z.leb_le, Z.ltb_lt; lia. Qed.

Lemma conv_range t z : in_range t (conv t z) = true.
Proof.
  apply in_range_spec. pose proof (iwidth_pos t). unfold conv.
  destruct (isigned t); [apply wrap_s_range | apply wrap_u_range]; lia.
Qed.

Lemma conv_small t z : in_range t z = true → conv t z = z.
Proof.
  rewrite in_range_spec. pose proof (iwidth_pos t). unfold conv.
  destruct (isigned t); intros; [apply wrap_s_small | apply wrap_u_small]; lia.
Qed.

Lemma conv_conv t t' z : iwidth t ≤ iwidth t' → conv t (conv t' z) = conv t z.
Proof.
  intros. apply conv_proper. apply (eqm_le _ (iwidth t')); [|apply eqm_conv].
  pose proof (iwidth_pos t); lia.
Qed.

Lemma conv_conv_same t z : conv t (conv t z) = conv t z.
Proof. apply conv_small, conv_range. Qed.

Lemma conv_u64 t z : conv t (wrap_u 64 z) = conv t z.
Proof. apply (conv_conv t U64). pose proof (iwidth_pos t); simpl; lia. Qed.
#[export] Hint Rewrite conv_u64 conv_conv_same : wrap.

(** ** Bytes, least significant first *)

Fixpoint le_enc (n : nat) (z : Z) : list Z :=
  match n with O => [] | S n => z mod 256 :: le_enc n (z / 256) end.
Fixpoint le_dec (l : list Z) : Z :=
  match l with [] => 0 | b :: l => b + 256 * le_dec l end.

Definition is_byte (b : Z) : Prop := 0 ≤ b < 256.

Lemma length_le_enc n z : length (le_enc n z) = n.
Proof. revert z. induction n; intros; simpl; auto. Qed.

Lemma le_enc_bytes n z : Forall is_byte (le_enc n z).
Proof.
  revert z. induction n; intros; simpl; constructor; auto.
  apply Z.mod_pos_bound; lia.
Qed.

Lemma le_dec_enc n z : le_dec (le_enc n z) = wrap_u (8 * Z.of_nat n) z.
Proof.
  revert z. induction n as [|n IH]; intros z; simpl.
  - unfold wrap_u. by rewrite Z.mod_1_r.
  - rewrite IH. unfold wrap_u.
    replace (8 * Z.of_nat (S n)) with (8 + 8 * Z.of_nat n) by lia.
    rewrite Z.pow_add_r by lia. change (2 ^ 8) with 256.
    rewrite Z.rem_mul_r; [done|lia|]. apply pow2_pos; lia.
Qed.

Lemma le_enc_proper n a b : eqm (8 * Z.of_nat n) a b → le_enc n a = le_enc n b.
Proof.
  revert a b. induction n as [|n IH]; intros a b H; [done|].
  unfold eqm, wrap_u in H. replace (8 * Z.of_nat (S n)) with (8 + 8 * Z.of_nat n) in H by lia.
  rewrite Z.pow_add_r in H by lia. change (2 ^ 8) with 256 in H.
  pose proof (pow2_pos (8 * Z.of_nat n) ltac:(lia)).
  rewrite !Z.rem_mul_r in H by lia.
  pose proof (Z.mod_pos_bound a 256 ltac:(lia)). pose proof (Z.mod_pos_bound b 256 ltac:(lia)).
  simpl. assert (a mod 256 = b mod 256 ∧ (a / 256) mod 2 ^ (8 * Z.of_nat n) = (b / 256) mod 2 ^ (8 * Z.of_nat n))
    as [-> Hd] by lia. f_equal. by apply IH.
Qed.

Lemma le_enc_dec l : Forall is_byte l → le_enc (length l) (le_dec l) = l.
Proof.
  induction 1 as [|b l Hb _ IH]; simpl; [done|]. unfold is_byte in Hb.
  rewrite (Z.mul_comm 256), Z_mod_plus_full, Z.mod_small by lia.
  rewrite Z.div_add, Z.div_small by lia. by rewrite Z.add_0_l, IH.
Qed.

Lemma le_dec_range l : Forall is_byte l → 0 ≤ le_dec l < 2 ^ (8 * Z.of_nat (length l)).
Proof.
  induction 1 as [|b l Hb _ IH]; simpl; [lia|]. unfold is_byte in Hb.
  replace (8 * Z.of_nat (S (length l))) with (8 + 8 * Z.of_nat (length l)) by lia.
  rewrite Z.pow_add_r by lia. lia.
Qed.

Lemma le_dec_app l k :
  le_dec (l ++ k) = le_dec l + 2 ^ (8 * Z.of_nat (length l)) * le_dec k.
Proof.
  induction l as [|b l IH]; simpl; [lia|]. rewrite IH.
  replace (8 * Z.of_nat (S (length l))) with (8 + 8 * Z.of_nat (length l)) by lia.
  rewrite Z.pow_add_r by lia. lia.
Qed.

Lemma le_dec_take n l : (n ≤ length l)%nat →
  eqm (8 * Z.of_nat n) (le_dec (take n l)) (le_dec l).
Proof.
  intros. rewrite <-(take_drop n l) at 2. rewrite le_dec_app, length_take_le by done.
  rewrite (Z.mul_comm (2 ^ _)). symmetry. apply eqm_mult. lia.
Qed.

(** ** C strings as lists of byte values *)

Definition byte_of_ascii (c : Ascii.ascii) : Z := Z.of_N (Ascii.N_of_ascii c).
Fixpoint cstr (s : string) : list Z :=
  match s with EmptyString => [] | String c s => byte_of_ascii c :: cstr s end.
