(* ===== verification/Memory.v ===== *)
(** * Host memory

    The virtual machine reads and writes host memory through raw pointers
    ([stack + sp], the operands of VM_DEREF and VM_DEPOP, jump buffers, string
    literals).  Memory is a finite map from addresses to byte values whose
    domain is what is allocated; an access outside it is undefined. *)

From stdpp Require Import base list gmap numbers.
From Stdlib Require Import ZArith Lia.
From S2P Require Import Prelude.

Local Open Scope Z_scope.

Abbreviation mem := (gmap Z Z).

Fixpoint mread (m : mem) (a : Z) (n : nat) : option (list Z) :=
  match n with
  | O => Some []
  | S n => b ← m !! a; bs ← mread m (a + 1) n; Some (b :: bs)
  end.

Fixpoint mwrite (m : mem) (a : Z) (bs : list Z) : option mem :=
  match bs with
  | [] => Some m
  | b :: bs => _ ← m !! a; mwrite (<[a:=b]> m) (a + 1) bs
  end.

(** All of [[a, a + n)] is allocated. *)
Definition mapped (m : mem) (a : Z) (n : nat) : Prop :=
  ∀ x, a ≤ x < a + Z.of_nat n → is_Some (m !! x).

(** Typed accesses: [*(t * )a] and [*(t * )a = v]. *)
Definition mload (m : mem) (a : Z) (t : ity) : option Z :=
  bs ← mread m a (isize t); Some (conv t (le_dec bs)).

Definition mstore (m : mem) (a : Z) (t : ity) (v : Z) : option mem :=
  mwrite m a (le_enc (isize t) v).

(** [memcpy]/[memmove]: the source is read before the target is written, as
    [memmove] requires; the callers of [memcpy] pass disjoint regions. *)
Definition mcopy (m : mem) (dst src : Z) (n : nat) : option mem :=
  bs ← mread m src n; mwrite m dst bs.

(** A block of consecutive bytes. *)
Fixpoint mblock (a : Z) (bs : list Z) : mem :=
  match bs with [] => ∅ | b :: bs => <[a:=b]> (mblock (a + 1) bs) end.

(** ** Reading and writing *)

Lemma mread_length m a n bs : mread m a n = Some bs → length bs = n.
Proof.
  revert a bs. induction n as [|n IH]; simpl; intros a bs H; simplify_option_eq; auto.
  simpl. f_equal. eauto.
Qed.

Lemma mread_mapped m a n : mapped m a n ↔ is_Some (mread m a n).
Proof.
  revert a. induction n as [|n IH]; intros a; simpl.
  { split; [by eexists | intros _ x Hx; lia]. }
  split.
  - intros H. destruct (H a) as [b Hb]; [lia|]. rewrite Hb. simpl.
    destruct (proj1 (IH (a + 1))) as [bs Hbs].
    + intros x Hx. apply H. lia.
    + rewrite Hbs. simpl. by eexists.
  - intros [bs H] x Hx. simplify_option_eq.
    destruct (decide (x = a)) as [->|]; [by eexists|].
    apply (proj2 (IH (a + 1))); [by eexists|lia].
Qed.

Lemma mread_lookup m a n bs x :
  mread m a n = Some bs → a ≤ x < a + Z.of_nat n → m !! x = bs !! Z.to_nat (x - a).
Proof.
  revert a bs. induction n as [|n IH]; simpl; intros a bs H Hx; [lia|].
  simplify_option_eq. destruct (decide (x = a)) as [->|Hne].
  - by replace (Z.to_nat (a - a)) with O by lia.
  - replace (Z.to_nat (x - a)) with (S (Z.to_nat (x - (a + 1)))) by lia.
    simpl. eapply IH; [done|lia].
Qed.

Lemma mread_ext m m' a n :
  (∀ x, a ≤ x < a + Z.of_nat n → m !! x = m' !! x) → mread m a n = mread m' a n.
Proof.
  revert a. induction n as [|n IH]; simpl; intros a H; [done|].
  rewrite (H a) by lia. destruct (m' !! a); simpl; [|done].
  rewrite IH; [done|]. intros. apply H. lia.
Qed.

Lemma mread_app m a n k :
  mread m a (n + k) =
  (bs ← mread m a n; cs ← mread m (a + Z.of_nat n) k; Some (bs ++ cs)).
Proof.
  revert a. induction n as [|n IH]; intros a; simpl.
  - rewrite Z.add_0_r. by destruct (mread m a k).
  - destruct (m !! a); simpl; [|done]. rewrite IH.
    destruct (mread m (a + 1) n); simpl; [|done].
    replace (a + 1 + Z.of_nat n) with (a + Z.of_nat (S n)) by lia.
    by destruct (mread m (a + Z.of_nat (S n)) k).
Qed.

Lemma mread_take m a n k bs :
  mread m a (n + k) = Some bs → mread m a n = Some (take n bs).
Proof.
  rewrite mread_app. intros H. simplify_option_eq.
  rewrite take_app_length'; [done|]. symmetry. by eapply mread_length.
Qed.

Lemma mread_block a bs : mread (mblock a bs) a (length bs) = Some bs.
Proof.
  revert a. induction bs as [|b bs IH]; intros a; simpl; [done|].
  rewrite lookup_insert_eq. simpl.
  rewrite (mread_ext _ (mblock (a + 1) bs)), IH; [done|].
  intros x Hx. rewrite lookup_insert_ne; [done|lia].
Qed.

Lemma mwrite_mapped m a bs : mapped m a (length bs) → is_Some (mwrite m a bs).
Proof.
  revert m a. induction bs as [|b bs IH]; intros m a H; simpl; [by eexists|].
  destruct (H a) as [c Hc]; [simpl; lia|]. rewrite Hc. simpl.
  apply IH. intros x Hx. destruct (decide (x = a)) as [->|].
  - rewrite lookup_insert_eq. by eexists.
  - rewrite lookup_insert_ne by done. apply H. simpl. lia.
Qed.

(** The master lemma: what a write leaves at every address. *)
Lemma lookup_mwrite m a bs m' x :
  mwrite m a bs = Some m' →
  m' !! x = if decide (a ≤ x < a + Z.of_nat (length bs))
            then bs !! Z.to_nat (x - a) else m !! x.
Proof.
  revert m a. induction bs as [|b bs IH]; simpl; intros m a H.
  { injection H as <-. case_decide; [lia|done]. }
  apply bind_Some in H as (c & _ & H). rewrite (IH _ _ H).
  destruct (decide (x = a)) as [->|Hne].
  - rewrite decide_False by lia. rewrite decide_True by lia.
    rewrite lookup_insert_eq. by replace (Z.to_nat (a - a)) with O by lia.
  - rewrite lookup_insert_ne by done.
    destruct (decide (a ≤ x < a + Z.of_nat (S (length bs)))).
    + rewrite decide_True by lia.
      by replace (Z.to_nat (x - a)) with (S (Z.to_nat (x - (a + 1)))) by lia.
    + by rewrite decide_False by lia.
Qed.

Lemma mwrite_outside m a bs m' x :
  mwrite m a bs = Some m' → (x < a ∨ a + Z.of_nat (length bs) ≤ x) → m' !! x = m !! x.
Proof. intros H Hx. rewrite (lookup_mwrite _ _ _ _ _ H). by rewrite decide_False by lia. Qed.

Lemma mwrite_inside m a bs m' x :
  mwrite m a bs = Some m' → a ≤ x < a + Z.of_nat (length bs) →
  m' !! x = bs !! Z.to_nat (x - a).
Proof. intros H Hx. rewrite (lookup_mwrite _ _ _ _ _ H). by rewrite decide_True. Qed.

Lemma mwrite_is_Some m a bs m' x :
  mwrite m a bs = Some m' → is_Some (m !! x) → is_Some (m' !! x).
Proof.
  intros H Hx. rewrite (lookup_mwrite _ _ _ _ _ H). case_decide; [|done].
  apply lookup_lt_is_Some. lia.
Qed.

Lemma mwrite_mapped_stable m a bs m' b n :
  mwrite m a bs = Some m' → mapped m b n → mapped m' b n.
Proof. intros H Hm x Hx. eapply mwrite_is_Some; eauto. Qed.

Lemma mread_mwrite_disj m a bs m' b n :
  mwrite m a bs = Some m' →
  b + Z.of_nat n ≤ a ∨ a + Z.of_nat (length bs) ≤ b →
  mread m' b n = mread m b n.
Proof. intros H Hd. apply mread_ext. intros. eapply mwrite_outside; [done|lia]. Qed.

Lemma mread_mwrite_same m a bs m' :
  mwrite m a bs = Some m' → mread m' a (length bs) = Some bs.
Proof.
  intros H.
  rewrite (mread_ext _ (mblock a bs)); [apply mread_block|].
  intros x Hx. rewrite (mwrite_inside _ _ _ _ _ H Hx). symmetry.
  apply (mread_lookup _ a (length bs)); [apply mread_block|done].
Qed.

(** ** Typed accesses *)

Lemma mapped_sub m a n b k :
  mapped m a n → a ≤ b → b + Z.of_nat k ≤ a + Z.of_nat n → mapped m b k.
Proof. intros H ?? x Hx. apply H. lia. Qed.

Lemma mload_mapped m a t : mapped m a (isize t) → is_Some (mload m a t).
Proof.
  intros H. unfold mload. apply mread_mapped in H as [bs ->]. by eexists.
Qed.

Lemma mstore_mapped m a t v : mapped m a (isize t) → is_Some (mstore m a t v).
Proof. intros H. apply mwrite_mapped. by rewrite length_le_enc. Qed.

Lemma mstore_mapped_stable m a t v m' b n :
  mstore m a t v = Some m' → mapped m b n → mapped m' b n.
Proof. apply mwrite_mapped_stable. Qed.

Lemma mload_mstore_disj m a t v m' b t' :
  mstore m a t v = Some m' →
  b + Z.of_nat (isize t') ≤ a ∨ a + Z.of_nat (isize t) ≤ b →
  mload m' b t' = mload m b t'.
Proof.
  intros H Hd. unfold mload. erewrite mread_mwrite_disj; [done|exact H|].
  by rewrite length_le_enc.
Qed.

Lemma mload_ext m m' a t :
  (∀ x, a ≤ x < a + Z.of_nat (isize t) → m !! x = m' !! x) → mload m a t = mload m' a t.
Proof. intros H. unfold mload. by rewrite (mread_ext m m'). Qed.

(** A narrower load at the same address sees the value modulo its width. *)
Lemma mload_narrow m a t t' v :
  (isize t ≤ isize t')%nat → mload m a t' = Some v → mload m a t = Some (conv t v).
Proof.
  intros Hle H. unfold mload in *. simplify_option_eq.
  match goal with H : mread _ _ _ = Some ?l |- _ => rename H into Hr; rename l into bs end.
  pose proof (mread_length _ _ _ _ Hr) as Hl.
  replace (isize t') with (isize t + (isize t' - isize t))%nat in Hr by lia.
  rewrite (mread_take _ _ _ _ _ Hr). simpl. f_equal.
  rewrite conv_conv by (rewrite !iwidth_isize; lia).
  apply conv_proper. rewrite iwidth_isize. apply le_dec_take. lia.
Qed.

Lemma mload_mstore_same m a t v m' :
  mstore m a t v = Some m' → mload m' a t = Some (conv t v).
Proof.
  intros H. unfold mload. apply mread_mwrite_same in H. rewrite length_le_enc in H.
  rewrite H. simpl. rewrite le_dec_enc. f_equal. apply conv_proper.
  rewrite iwidth_isize. apply eqm_wrap_u. lia.
Qed.

Lemma mload_mstore_narrow m a t t' v m' :
  (isize t' ≤ isize t)%nat → mstore m a t v = Some m' → mload m' a t' = Some (conv t' v).
Proof.
  intros Hle H. rewrite (mload_narrow _ _ t' t (conv t v)); [|done|by eapply mload_mstore_same].
  rewrite conv_conv; [done|]. rewrite !iwidth_isize. lia.
Qed.

Lemma mload_conv m a t v : mload m a t = Some v → conv t v = v.
Proof. intros H. unfold mload in H. simplify_option_eq. apply conv_conv_same. Qed.

(** ** Byte values

    The invariant of a memory: every address holds a byte. *)

Definition mem_ok (m : mem) : Prop := ∀ a b, m !! a = Some b → is_byte b.

Lemma mread_bytes m a n bs : mem_ok m → mread m a n = Some bs → Forall is_byte bs.
Proof.
  intros Hm. revert a bs. induction n as [|n IH]; simpl; intros a bs H.
  - by simplify_eq.
  - simplify_option_eq. constructor; eauto.
Qed.

Lemma mwrite_ok m a bs m' : mem_ok m → Forall is_byte bs → mwrite m a bs = Some m' → mem_ok m'.
Proof.
  intros Hm Hb H x b Hx. rewrite (lookup_mwrite _ _ _ _ _ H) in Hx. case_decide.
  - by eapply Forall_lookup_1.
  - by eapply Hm.
Qed.

Lemma mstore_ok m a t v m' : mem_ok m → mstore m a t v = Some m' → mem_ok m'.
Proof. intros Hm. apply mwrite_ok; [done|]. apply le_enc_bytes. Qed.

Lemma mcopy_ok m d s n m' : mem_ok m → mcopy m d s n = Some m' → mem_ok m'.
Proof.
  unfold mcopy. intros Hm H. simplify_option_eq. eapply mwrite_ok; [done| |done].
  by eapply mread_bytes.
Qed.

Lemma mwrite_dom m a bs m' : mwrite m a bs = Some m' → dom m' = dom m.
Proof.
  revert m a. induction bs as [|b bs IH]; simpl; intros m a H; [congruence|].
  apply bind_Some in H as (c & Hc & H). rewrite (IH _ _ H).
  apply dom_insert_lookup_L. by eexists.
Qed.

Lemma mblock_ok a bs : Forall is_byte bs → mem_ok (mblock a bs).
Proof.
  intros H. revert a. induction H as [|b bs Hb HF IH]; intros a x c Hx; simpl in Hx.
  - by rewrite lookup_empty in Hx.
  - destruct (decide (x = a)) as [->|].
    + rewrite lookup_insert_eq in Hx. by simplify_eq.
    + rewrite lookup_insert_ne in Hx by done. by eapply IH.
Qed.

(** A word is its low half and its high half. *)
Lemma mload_u64_halves m a lo hi : mem_ok m →
  mload m a U32 = Some lo → mload m (a + 4) U32 = Some hi →
  mload m a U64 = Some (lo + 2 ^ 32 * hi).
Proof.
  intros Hm Hlo Hhi. unfold mload in *. simpl isize in *.
  apply bind_Some in Hlo as (l & Hl & Hlo). apply bind_Some in Hhi as (h & Hh & Hhi).
  change 8%nat with (4 + 4)%nat. rewrite (mread_app m a 4 4), Hl.
  cbn [mbind option_bind]. change (Z.of_nat 4) with 4. rewrite Hh.
  cbn [mbind option_bind]. f_equal. injection Hlo as <-. injection Hhi as <-.
  pose proof (le_dec_range _ (mread_bytes _ _ _ _ Hm Hl)) as Rl.
  pose proof (le_dec_range _ (mread_bytes _ _ _ _ Hm Hh)) as Rh.
  rewrite le_dec_app. rewrite (mread_length _ _ _ _ Hl) in *. rewrite (mread_length _ _ _ _ Hh) in *.
  change (8 * Z.of_nat 4) with 32 in *.
  rewrite (conv_small U32 (le_dec l)), (conv_small U32 (le_dec h))
    by (apply in_range_spec; simpl; lia).
  apply conv_small, in_range_spec. simpl in *. lia.
Qed.

(** The high half of a word, as the next 32 bits. *)
Lemma mload_u64_high m a v : mem_ok m → mload m a U64 = Some v →
  mload m (a + 4) U32 = Some (v / 2 ^ 32).
Proof.
  intros Hm H. unfold mload in *. simpl isize in *.
  apply bind_Some in H as (bs & Hbs & H). injection H as <-.
  pose proof (mread_length _ _ _ _ Hbs) as Hl.
  change 8%nat with (4 + 4)%nat in Hbs. rewrite (mread_app m a 4 4) in Hbs.
  apply bind_Some in Hbs as (l & Hl1 & Hbs). apply bind_Some in Hbs as (h & Hh & Hbs).
  injection Hbs as <-. change (Z.of_nat 4) with 4 in Hh. rewrite Hh.
  cbn [mbind option_bind]. f_equal.
  pose proof (le_dec_range _ (mread_bytes _ _ _ _ Hm Hl1)) as Rl.
  pose proof (le_dec_range _ (mread_bytes _ _ _ _ Hm Hh)) as Rh.
  rewrite le_dec_app. rewrite (mread_length _ _ _ _ Hl1) in *.
  rewrite (mread_length _ _ _ _ Hh) in *. change (8 * Z.of_nat 4) with 32 in *.
  rewrite (conv_small U64) by (apply in_range_spec; simpl in *; lia).
  rewrite (conv_small U32) by (apply in_range_spec; simpl; lia).
  rewrite Z.mul_comm, Z.div_add, (Z.div_small (le_dec l)) by lia. lia.
Qed.
