(* ===== verification/CType.v ===== *)
(** * The type representation (include/lacc/type.h)

    The 32-bit [Type] value: the enumeration of types, the bit-field record,
    the classification macros and the static basic types.  Types whose [ref]
    is not zero refer to the type table of src/parser/typetree.c. *)

From stdpp Require Import base numbers decidable.
From Stdlib Require Import ZArith Lia.
From S2P Require Import Prelude.

Local Open Scope Z_scope.

(** [enum type].  The member is an 8-bit signed field; [T_OTHER] is a value
    that is no enumerator, such as the [-1] of [get_type_placeholder]. *)
Inductive etype : Set :=
  | T_VOID | T_BOOL | T_CHAR | T_SHORT | T_INT | T_LONG | T_FLOAT | T_DOUBLE
  | T_LDOUBLE | T_POINTER | T_FUNCTION | T_ARRAY | T_STRUCT | T_UNION
  | T_OTHER (z : Z).
#[export] Instance etype_eq_dec : EqDecision etype.
Proof. solve_decision. Defined.

Definition etype_code (e : etype) : Z :=
  match e with
  | T_VOID => 0 | T_BOOL => 1 | T_CHAR => 2 | T_SHORT => 3 | T_INT => 4
  | T_LONG => 5 | T_FLOAT => 6 | T_DOUBLE => 7 | T_LDOUBLE => 8
  | T_POINTER => 9 | T_FUNCTION => 10 | T_ARRAY => 11 | T_STRUCT => 12
  | T_UNION => 13 | T_OTHER z => z
  end.

Definition etype_of_code (z : Z) : etype :=
  match z with
  | 0 => T_VOID | 1 => T_BOOL | 2 => T_CHAR | 3 => T_SHORT | 4 => T_INT
  | 5 => T_LONG | 6 => T_FLOAT | 7 => T_DOUBLE | 8 => T_LDOUBLE
  | 9 => T_POINTER | 10 => T_FUNCTION | 11 => T_ARRAY | 12 => T_STRUCT
  | 13 => T_UNION | _ => T_OTHER z
  end.

(** The members of [Type]. *)
Record ctype : Set := Ctype {
  t_type : etype;
  t_unsigned : bool;
  t_const : bool;
  t_volatile : bool;
  t_restrict : bool;
  t_pointer : bool;
  t_pointer_const : bool;
  t_pointer_volatile : bool;
  t_pointer_restrict : bool;
  t_ref : Z
}.
#[export] Instance ctype_eq_dec : EqDecision ctype.
Proof. solve_decision. Defined.

(** The classification macros. *)
Definition type_of (t : ctype) : etype := if t_pointer t then T_POINTER else t_type t.

Definition type_is (e : etype) (t : ctype) : bool := bool_decide (type_of t = e).
Definition between (lo hi : etype) (t : ctype) : bool :=
  (etype_code lo <=? etype_code (type_of t)) && (etype_code (type_of t) <=? etype_code hi).

Definition is_function : ctype → bool := type_is T_FUNCTION.
Definition is_object (t : ctype) : bool := negb (is_function t).
Definition is_struct : ctype → bool := type_is T_STRUCT.
Definition is_union : ctype → bool := type_is T_UNION.
Definition is_struct_or_union (t : ctype) : bool := is_struct t || is_union t.
Definition is_bool : ctype → bool := type_is T_BOOL.
Definition is_char : ctype → bool := type_is T_CHAR.
Definition is_short : ctype → bool := type_is T_SHORT.
Definition is_int : ctype → bool := type_is T_INT.
Definition is_long : ctype → bool := type_is T_LONG.
Definition is_integer : ctype → bool := between T_BOOL T_LONG.
Definition is_unsigned (t : ctype) : bool :=
  (negb (t_pointer t) && t_unsigned t) || is_bool t.
Definition is_signed (t : ctype) : bool := negb (is_unsigned t) && is_integer t.
Definition is_pointer : ctype → bool := type_is T_POINTER.
Definition is_real : ctype → bool := between T_FLOAT T_LDOUBLE.
Definition is_float : ctype → bool := type_is T_FLOAT.
Definition is_double : ctype → bool := type_is T_DOUBLE.
Definition is_long_double : ctype → bool := type_is T_LDOUBLE.
Definition is_arithmetic : ctype → bool := between T_BOOL T_LDOUBLE.
Definition is_scalar : ctype → bool := between T_BOOL T_POINTER.
Definition is_void : ctype → bool := type_is T_VOID.
Definition is_array : ctype → bool := type_is T_ARRAY.
Definition is_aggregate (t : ctype) : bool := is_array t || is_struct_or_union t.
Definition is_const (t : ctype) : bool :=
  if t_pointer t then t_pointer_const t else t_const t.
Definition is_volatile (t : ctype) : bool :=
  if t_pointer t then t_pointer_volatile t else t_volatile t.
Definition is_restrict (t : ctype) : bool :=
  if t_pointer t then t_pointer_restrict t else t_restrict t.

(** [{ .type = e, .is_unsigned = u }]. *)
Definition basic_type (e : etype) (u : bool) : ctype :=
  Ctype e u false false false false false false false 0.

Definition basic_type__void := basic_type T_VOID false.
Definition basic_type__bool := basic_type T_BOOL false.
Definition basic_type__char := basic_type T_CHAR false.
Definition basic_type__short := basic_type T_SHORT false.
Definition basic_type__int := basic_type T_INT false.
Definition basic_type__long := basic_type T_LONG false.
Definition basic_type__unsigned_char := basic_type T_CHAR true.
Definition basic_type__unsigned_short := basic_type T_SHORT true.
Definition basic_type__unsigned_int := basic_type T_INT true.
Definition basic_type__unsigned_long := basic_type T_LONG true.
Definition basic_type__float := basic_type T_FLOAT false.
Definition basic_type__double := basic_type T_DOUBLE false.
Definition basic_type__long_double := basic_type T_LDOUBLE false.

(** The integer type of the machine that a C integer type denotes. *)
Definition ity_of (t : ctype) : option ity :=
  match type_of t with
  | T_BOOL => Some U8
  | T_CHAR => Some (if is_unsigned t then U8 else I8)
  | T_SHORT => Some (if is_unsigned t then U16 else I16)
  | T_INT => Some (if is_unsigned t then U32 else I32)
  | T_LONG => Some (if is_unsigned t then U64 else I64)
  | T_POINTER => Some U64
  | _ => None
  end.

Lemma etype_of_code_code e : (∀ z, e ≠ T_OTHER z) → etype_of_code (etype_code e) = e.
Proof. destruct e; intros H; try done. by destruct (H z). Qed.
