(* ===== verification/VmInstr.v ===== *)
(** * Virtual machine code (src/backend/vm/vminstr.h)

    Opcodes, operand types, the [vm_code] record with its operand union, and
    the [PAD8] macro of include/kcs.h. *)

From stdpp Require Import base list numbers decidable strings.
From Stdlib Require Import ZArith Lia.
From S2P Require Import Prelude CType.

Local Open Scope Z_scope.

(** [enum vm_opcode]. *)
Inductive opcode : Set :=
  | VM_NOP | VM_LABEL | VM_HALT | VM_STORE | VM_FZERO | VM_CALL | VM_RET | VM_CLUP
  | VM_CLPOP | VM_ENTER | VM_DEREF | VM_CAST | VM_ALLOCA | VM_JMP | VM_JZ | VM_JNZ
  | VM_PUSH | VM_POP | VM_DEPOP | VM_NOT | VM_NEG | VM_ADD | VM_SUB | VM_MUL | VM_DIV
  | VM_MOD | VM_AND | VM_OR | VM_XOR | VM_SHL | VM_SHR | VM_EQ | VM_NE | VM_GE | VM_GT
  | VM_LE | VM_LT | VM_INC | VM_DEC | VM_JMPTBL | VM_TBL_ENTRY | VM_GLOBAL | VM_REFLIB
  | VM_SAVE_RETVAL | VM_SETJMP | VM_LONGJMP.
#[export] Instance opcode_eq_dec : EqDecision opcode.
Proof. solve_decision. Defined.

(** [enum vm_optype]. *)
Inductive optype : Set :=
  | VMOP_NONE | VMOP_LABEL | VMOP_INT8 | VMOP_INT16 | VMOP_INT32 | VMOP_INT64
  | VMOP_UINT8 | VMOP_UINT16 | VMOP_UINT32 | VMOP_UINT64 | VMOP_FLT | VMOP_DBL
  | VMOP_LDBL | VMOP_CHARP | VMOP_VARI | VMOP_VARU | VMOP_VARFL | VMOP_VAROBJ
  | VMOP_ADDR | VMOP_FUNCNAME | VMOP_FUNCADDR | VMOP_BUILTIN.
#[export] Instance optype_eq_dec : EqDecision optype.
Proof. solve_decision. Defined.

(** The enumerators in order; the position is the value. *)
Definition opcodes : list opcode :=
  [VM_NOP; VM_LABEL; VM_HALT; VM_STORE; VM_FZERO; VM_CALL; VM_RET; VM_CLUP;
   VM_CLPOP; VM_ENTER; VM_DEREF; VM_CAST; VM_ALLOCA; VM_JMP; VM_JZ; VM_JNZ;
   VM_PUSH; VM_POP; VM_DEPOP; VM_NOT; VM_NEG; VM_ADD; VM_SUB; VM_MUL; VM_DIV;
   VM_MOD; VM_AND; VM_OR; VM_XOR; VM_SHL; VM_SHR; VM_EQ; VM_NE; VM_GE; VM_GT;
   VM_LE; VM_LT; VM_INC; VM_DEC; VM_JMPTBL; VM_TBL_ENTRY; VM_GLOBAL; VM_REFLIB;
   VM_SAVE_RETVAL; VM_SETJMP; VM_LONGJMP].

Definition optypes : list optype :=
  [VMOP_NONE; VMOP_LABEL; VMOP_INT8; VMOP_INT16; VMOP_INT32; VMOP_INT64;
   VMOP_UINT8; VMOP_UINT16; VMOP_UINT32; VMOP_UINT64; VMOP_FLT; VMOP_DBL;
   VMOP_LDBL; VMOP_CHARP; VMOP_VARI; VMOP_VARU; VMOP_VARFL; VMOP_VAROBJ;
   VMOP_ADDR; VMOP_FUNCNAME; VMOP_FUNCADDR; VMOP_BUILTIN].

Fixpoint index_of {A} `{EqDecision A} (x : A) (l : list A) : nat :=
  match l with [] => O | y :: l => if decide (x = y) then O else S (index_of x l) end.

Definition opcode_code (o : opcode) : Z := Z.of_nat (index_of o opcodes).
Definition optype_code (o : optype) : Z := Z.of_nat (index_of o optypes).
Definition opcode_of_code (z : Z) : option opcode :=
  if z <? 0 then None else opcodes !! Z.to_nat z.
Definition optype_of_code (z : Z) : option optype :=
  if z <? 0 then None else optypes !! Z.to_nat z.

(** The machine integer an operand type stands for; None for the others. *)
Definition int_optype (o : optype) : option ity :=
  match o with
  | VMOP_INT8 => Some I8 | VMOP_INT16 => Some I16 | VMOP_INT32 => Some I32
  | VMOP_INT64 => Some I64 | VMOP_UINT8 => Some U8 | VMOP_UINT16 => Some U16
  | VMOP_UINT32 => Some U32 | VMOP_UINT64 => Some U64 | _ => None
  end.

(** [struct vm_address]; [func] is the index of the resolved builtin, None
    for a null function pointer. *)
Record vm_address : Set := VmAddress {
  a_name : list Z;
  a_global : bool;
  a_index : Z;
  a_base : Z;
  a_offset : Z;
  a_size : Z;
  a_func : option Z
}.
#[export] Instance vm_address_eq_dec : EqDecision vm_address.
Proof. solve_decision. Defined.

(** A zero-initialised address. *)
Definition addr0 : vm_address := VmAddress [] false 0 0 0 0 None.

(** [union vm_imm]: the bits of a number (the members [byte], [word], [dword],
    [qword], [f], [d] and [ld] overlay each other), or a string, which is
    always a pointer [prog->global + index] into the string area. *)
Inductive vm_imm : Set :=
  | ImmBits (bits : Z)
  | ImmStr (index : Z).
#[export] Instance vm_imm_eq_dec : EqDecision vm_imm.
Proof. solve_decision. Defined.

(** The operand union [d] of [struct vm_code], as its active member.
    [DNone] is an instruction whose initialiser names no member. *)
Inductive payload : Set :=
  | DNone
  | DLabel (lindex : Z)
  | DSize (size : Z)
  | DName (name : list Z)
  | DCast (src dst : ctype)
  | DAddr (addr : vm_address)
  | DImm (imm : vm_imm).
#[export] Instance payload_eq_dec : EqDecision payload.
Proof. solve_decision. Defined.

(** [struct vm_code]. *)
Record vm_code : Set := VmCode {
  c_index : Z;
  c_opcode : opcode;
  c_type : optype;
  c_d : payload
}.
#[export] Instance vm_code_eq_dec : EqDecision vm_code.
Proof. solve_decision. Defined.

(** [(struct vm_code){ .opcode = o, .type = t, .d = d }]. *)
Definition mkcode (o : opcode) (t : optype) (d : payload) : vm_code := VmCode 0 o t d.

(** Reads of a member of the union; reading another member than the active
    one is outside the model. *)
Definition d_addr (c : vm_code) : outcome vm_address :=
  match c_d c with DAddr a => Ok a | _ => Undef "union member addr" end.
Definition d_size (c : vm_code) : outcome Z :=
  match c_d c with DSize n => Ok n | _ => Undef "union member size" end.
Definition d_imm (c : vm_code) : outcome vm_imm :=
  match c_d c with DImm i => Ok i | _ => Undef "union member imm" end.
Definition d_cast (c : vm_code) : outcome (ctype * ctype) :=
  match c_d c with DCast s d => Ok (s, d) | _ => Undef "union member cast" end.

(** [PAD_N] and [PAD8] of kcs.h; [%] is the C remainder. *)
Definition pad_n (size n : Z) : Z :=
  if size <? n then n else size + Z.rem (n - Z.rem size n) n.
Definition pad8 (size : Z) : Z := pad_n size 8.

(** ** Lemmas *)

Lemma index_of_lookup {A} `{EqDecision A} (x : A) l : x ∈ l → l !! index_of x l = Some x.
Proof.
  induction l as [|y l IH]; intros Hx; [by apply not_elem_of_nil in Hx|].
  simpl. destruct (decide (x = y)) as [->|]; [done|].
  apply elem_of_cons in Hx as [?|?]; [done|]. by apply IH.
Qed.

Lemma opcode_of_code_code o : opcode_of_code (opcode_code o) = Some o.
Proof. by destruct o. Qed.
Lemma optype_of_code_code o : optype_of_code (optype_code o) = Some o.
Proof. by destruct o. Qed.
Lemma opcode_code_byte o : 0 ≤ opcode_code o < 256.
Proof. destruct o; vm_compute; split; congruence. Qed.
Lemma optype_code_byte o : 0 ≤ optype_code o < 256.
Proof. destruct o; vm_compute; split; congruence. Qed.

Lemma pad8_spec n : 0 ≤ n →
  8 ≤ pad8 n ∧ n ≤ pad8 n ∧ pad8 n < n + 8 + (if n =? 0 then 1 else 0) ∧ pad8 n mod 8 = 0.
Proof.
  intros Hn. unfold pad8, pad_n. rewrite (Z.rem_mod_nonneg n 8) by lia.
  pose proof (Z.mod_pos_bound n 8 ltac:(lia)) as Hb.
  rewrite Z.rem_mod_nonneg by lia.
  destruct (Z.ltb_spec n 8), (Z.eqb_spec n 0); repeat split; try lia;
    Z.div_mod_to_equations; lia.
Qed.

Lemma pad8_small n : n ≤ 8 → pad8 n = 8.
Proof.
  intros. unfold pad8, pad_n. destruct (Z.ltb_spec n 8); [done|].
  by assert (n = 8) as -> by lia.
Qed.

Lemma pad8_aligned n : 8 ≤ n → n mod 8 = 0 → pad8 n = n.
Proof.
  intros. unfold pad8, pad_n. destruct (Z.ltb_spec n 8); [lia|].
  rewrite (Z.rem_mod_nonneg n 8) by lia. rewrite H0. rewrite Z.sub_0_r. simpl.
  change (Z.rem 8 8) with 0. lia.
Qed.
