(* ===== verification/Floats.v ===== *)
(** * Floating-point arithmetic of the C implementation

    The virtual machine computes on [float], [double] and x87 [long double]
    stack slots.  [FloatArith] is the interface its definitions use, on bit
    patterns; [ieee_floats] implements it with the IEEE-754 operations of
    SpecFloat, rounding to nearest even. *)

From stdpp Require Import base numbers decidable.
From Stdlib Require Import ZArith Lia.
From Corelib Require Import SpecFloat.
From S2P Require Import Prelude.

Local Open Scope Z_scope.

Inductive fty : Set := F32 | F64 | F80.
#[export] Instance fty_eq_dec : EqDecision fty.
Proof. solve_decision. Defined.

(** Bytes that a value of the type transfers to or from memory. *)
Definition fsize (f : fty) : nat := match f with F32 => 4 | F64 => 8 | F80 => 10 end.

Inductive arith : Set := AAdd | ASub | AMul | ADiv.
Inductive cmpop : Set := CEq | CNe | CGe | CGt | CLe | CLt.

Class FloatArith : Type := {
  (** [a op b] on two values of one type *)
  fop : fty → arith → Z → Z → Z;
  fcmp : fty → cmpop → Z → Z → bool;
  fneg : fty → Z → Z;
  (** conversion of an integer value, rounded *)
  f_of_z : fty → Z → Z;
  (** truncation toward zero; None for an infinity or a NaN *)
  f_to_z : fty → Z → option Z;
  (** conversion from one type to another *)
  f_cvt : fty → fty → Z → Z
}.

(** Conversion to an integer type: undefined when the truncated value does
    not fit. *)
Definition f_to_int `{FloatArith} (f : fty) (t : ity) (bits : Z) : option Z :=
  z ← f_to_z f bits; if in_range t z then Some z else None.

(** ** The IEEE instance *)

Definition f_prec (f : fty) : Z := match f with F32 => 24 | F64 => 53 | F80 => 64 end.
Definition f_emax (f : fty) : Z := match f with F32 => 128 | F64 => 1024 | F80 => 16384 end.
(** Width of the exponent field and of the stored significand. *)
Definition f_ew (f : fty) : Z := match f with F32 => 8 | F64 => 11 | F80 => 15 end.
Definition f_mw (f : fty) : Z := match f with F32 => 23 | F64 => 52 | F80 => 64 end.
Definition f_emin (f : fty) : Z := 3 - f_emax f - f_prec f.

Definition f_decode (f : fty) (bits : Z) : spec_float :=
  let m := bits mod 2 ^ f_mw f in
  let e := (bits / 2 ^ f_mw f) mod 2 ^ f_ew f in
  let s := Z.odd (bits / 2 ^ (f_mw f + f_ew f)) in
  (* the fraction, without the explicit integer bit of the x87 format *)
  let frac := m mod 2 ^ (f_prec f - 1) in
  if e =? 2 ^ f_ew f - 1 then if frac =? 0 then S754_infinity s else S754_nan
  else if e =? 0 then
    match m with Zpos p => S754_finite s p (f_emin f) | _ => S754_zero s end
  else
    match frac + 2 ^ (f_prec f - 1) with
    | Zpos p => S754_finite s p (e + f_emin f - 1)
    | _ => S754_nan
    end.

Definition f_pack (f : fty) (s : bool) (e m : Z) : Z :=
  (if s then 2 ^ (f_mw f + f_ew f) else 0) + e * 2 ^ f_mw f + m.

Definition f_encode (f : fty) (x : spec_float) : Z :=
  let int_bit := match f with F80 => 2 ^ 63 | _ => 0 end in
  match x with
  | S754_zero s => f_pack f s 0 0
  | S754_infinity s => f_pack f s (2 ^ f_ew f - 1) int_bit
  | S754_nan => f_pack f false (2 ^ f_ew f - 1) (int_bit + 2 ^ (f_prec f - 2))
  | S754_finite s m e =>
      if Zpos m <? 2 ^ (f_prec f - 1) then f_pack f s 0 (Zpos m)
      else f_pack f s (e - f_emin f + 1) (int_bit + Zpos m mod 2 ^ (f_prec f - 1))
  end.

Definition f_round (f : fty) (m e : Z) (s : bool) : spec_float :=
  binary_normalize (f_prec f) (f_emax f) m e s.

Definition ieee_op (f : fty) (o : arith) : spec_float → spec_float → spec_float :=
  match o with
  | AAdd => SFadd (f_prec f) (f_emax f)
  | ASub => SFsub (f_prec f) (f_emax f)
  | AMul => SFmul (f_prec f) (f_emax f)
  | ADiv => SFdiv (f_prec f) (f_emax f)
  end.

Definition ieee_cmp (o : cmpop) (x y : spec_float) : bool :=
  match SFcompare x y, o with
  | Some Eq, (CEq | CGe | CLe) => true
  | Some Lt, (CNe | CLe | CLt) => true
  | Some Gt, (CNe | CGe | CGt) => true
  | None, CNe => true
  | _, _ => false
  end.

Definition ieee_trunc (x : spec_float) : option Z :=
  match x with
  | S754_zero _ => Some 0
  | S754_finite s m e =>
      let a := if 0 <=? e then Zpos m * 2 ^ e else Zpos m / 2 ^ (- e) in
      Some (if s then - a else a)
  | _ => None
  end.

Definition ieee_cvt (f g : fty) (x : spec_float) : spec_float :=
  match x with
  | S754_finite s m e => f_round g (if s then Zneg m else Zpos m) e s
  | x => x
  end.

#[export] Instance ieee_floats : FloatArith := {|
  fop f o a b := f_encode f (ieee_op f o (f_decode f a) (f_decode f b));
  fcmp f o a b := ieee_cmp o (f_decode f a) (f_decode f b);
  fneg f a := Z.lxor a (2 ^ (f_mw f + f_ew f));
  f_of_z f z := f_encode f (f_round f z 0 false);
  f_to_z f a := ieee_trunc (f_decode f a);
  f_cvt f g a := f_encode g (ieee_cvt f g (f_decode f a))
|}.

(** Known bit patterns. *)
Example double_one : f_of_z F64 1 = 0x3FF0000000000000.
Proof. vm_compute. reflexivity. Qed.
Example double_third :
  fop F64 ADiv (f_of_z F64 1) (f_of_z F64 3) = 0x3FD5555555555555.
Proof. vm_compute. reflexivity. Qed.
Example float_u64max : f_of_z F32 (2 ^ 64 - 1) = 0x5F800000.
Proof. vm_compute. reflexivity. Qed.
Example ldouble_minus_two : f_of_z F80 (-2) = 0xC0008000000000000000.
Proof. vm_compute. reflexivity. Qed.
Example double_to_float : f_cvt F64 F32 (f_of_z F64 16777217) = f_of_z F32 16777216.
Proof. vm_compute. reflexivity. Qed.
