(* ===== verification/CArith.v ===== *)
(** * Integer operations of C

    The operators that src/backend/vm/vmrunlir.c applies to two operands of
    one integer type, with the integer promotions, wrap-around of unsigned
    types and undefined behaviour of signed ones written out. *)

From stdpp Require Import base numbers decidable strings.
From Stdlib Require Import ZArith Lia.
From S2P Require Import Prelude Floats.

Local Open Scope Z_scope.

Inductive bitop : Set := BAnd | BOr | BXor.
(** [IArith] and [ICmp] exist for floating types too. *)
Inductive binop : Set :=
  | IArith (o : arith)
  | IMod
  | IBit (o : bitop)
  | ICmp (o : cmpop).

Definition z_cmp (o : cmpop) (a b : Z) : bool :=
  match o with
  | CEq => a =? b | CNe => negb (a =? b) | CGe => b <=? a
  | CGt => b <? a | CLe => a <=? b | CLt => a <? b
  end.

Definition z_bit (o : bitop) : Z → Z → Z :=
  match o with BAnd => Z.land | BOr => Z.lor | BXor => Z.lxor end.

(** The result [z] of an operation computed in the (promoted) type [t]. *)
Definition c_result (t : ity) (z : Z) : outcome Z :=
  if isigned t then (if in_range t z then Ok z else Undef "signed overflow")
  else Ok (conv t z).

Definition c_arith (o : arith) (t : ity) (a b : Z) : outcome Z :=
  match o with
  | AAdd => c_result t (a + b)
  | ASub => c_result t (a - b)
  | AMul => c_result t (a * b)
  | ADiv => if b =? 0 then Undef "division by zero" else c_result t (Z.quot a b)
  end.

(** [a o b] for two values [a], [b] of type [t]: the value has type
    [promote t], or [int] for a comparison. *)
Definition c_binop (o : binop) (t : ity) (a b : Z) : outcome Z :=
  match o with
  | IArith o => c_arith o (promote t) a b
  | IMod =>
      if b =? 0 then Undef "division by zero"
      else _ ← c_result (promote t) (Z.quot a b); Ok (Z.rem a b)
  | IBit o => Ok (z_bit o a b)
  | ICmp o => Ok (Z.b2z (z_cmp o a b))
  end.

Definition c_neg (t : ity) (a : Z) : outcome Z := c_result (promote t) (- a).
Definition c_not (t : ity) (a : Z) : outcome Z := Ok (conv (promote t) (Z.lnot a)).

(** Shift of a value of type [t] by an [int].  A count outside the width of
    the promoted type is undefined; GCC defines [<<] on negative values and
    on overflow as a shift of the two's complement pattern. *)
Definition c_shl (t : ity) (a n : Z) : outcome Z :=
  if (0 <=? n) && (n <? iwidth (promote t)) then Ok (conv (promote t) (Z.shiftl a n))
  else Undef "shift count".
Definition c_shr (t : ity) (a n : Z) : outcome Z :=
  if (0 <=? n) && (n <? iwidth (promote t)) then Ok (Z.shiftr a n)
  else Undef "shift count".

(** [x & 0xFF], [x & 0xFFFF], [x & 0xFFFFFFFF] or no mask, by operand width. *)
Definition mask_of (t : ity) (z : Z) : Z :=
  if iwidth t =? 64 then z else Z.land z (Z.ones (iwidth t)).

(** ** Lemmas *)

Lemma conv_mask t z : conv t (mask_of t z) = conv t z.
Proof.
  unfold mask_of. pose proof (iwidth_pos t). destruct (Z.eqb_spec (iwidth t) 64); [done|].
  rewrite Z.land_ones by lia. apply conv_proper. apply eqm_wrap_u. lia.
Qed.

Lemma c_result_ok t z r : c_result t z = Ok r → r = conv t z.
Proof.
  unfold c_result. destruct (isigned t); intros H; [|congruence].
  destruct (in_range t z) eqn:E; [|done]. injection H as <-. by rewrite conv_small.
Qed.

Lemma c_result_in_range t z r : c_result t z = Ok r → in_range t r = true.
Proof. intros H. rewrite (c_result_ok _ _ _ H). apply conv_range. Qed.

(** A bitwise operation stays inside the range of its operand type. *)
Lemma bits_range_u w a b o : 0 ≤ w → 0 ≤ a < 2 ^ w → 0 ≤ b < 2 ^ w → 0 ≤ z_bit o a b < 2 ^ w.
Proof.
  intros Hw Ha Hb.
  assert (Hab : 0 ≤ z_bit o a b).
  { destruct o; simpl; [apply Z.land_nonneg|apply Z.lor_nonneg|apply Z.lxor_nonneg]; lia. }
  split; [done|].
  destruct (decide (z_bit o a b = 0)) as [->|]; [by apply pow2_pos|].
  apply Z.log2_lt_pow2; [lia|].
  assert (Hl : ∀ x, 0 ≤ x < 2 ^ w → x = 0 ∨ Z.log2 x < w).
  { intros x Hx. destruct (decide (x = 0)); [by left|right]. apply Z.log2_lt_pow2; lia. }
  destruct (Hl a Ha) as [->|La], (Hl b Hb) as [->|Lb]; destruct o; simpl in *;
    rewrite ?Z.land_0_l, ?Z.land_0_r, ?Z.lor_0_l, ?Z.lor_0_r, ?Z.lxor_0_l, ?Z.lxor_0_r in *;
    try lia.
  - pose proof (Z.log2_land a b). lia.
  - rewrite Z.log2_lor by lia. lia.
  - pose proof (Z.log2_lxor a b). lia.
Qed.

Lemma testbit_sign_range w a : 0 < w →
  - 2 ^ (w - 1) ≤ a < 2 ^ (w - 1) ↔ (∀ i, w - 1 ≤ i → Z.testbit a i = (a <? 0)).
Proof.
  intros Hw. split.
  - intros Ha i Hi. destruct (Z.ltb_spec a 0).
    + replace a with (Z.lnot (Z.pred (- a))) by (unfold Z.lnot; lia).
      rewrite Z.lnot_spec by lia. apply negb_true_iff.
      rewrite <-(Z.mod_small (Z.pred (- a)) (2 ^ (w - 1))) by lia.
      by apply Z.mod_pow2_bits_high; lia.
    + rewrite <-(Z.mod_small a (2 ^ (w - 1))) by lia.
      by apply Z.mod_pow2_bits_high; lia.
  - intros H. destruct (Z.ltb_spec a 0).
    + assert (Hs : Z.shiftr a (w - 1) = -1).
      { apply Z.bits_inj'. intros n Hn. rewrite Z.shiftr_spec, Z.bits_m1 by lia.
        apply H. lia. }
      rewrite Z.shiftr_div_pow2 in Hs by lia. pose proof (pow2_pos (w - 1)).
      pose proof (Z.div_mod a (2 ^ (w - 1)) ltac:(lia)).
      pose proof (Z.mod_pos_bound a (2 ^ (w - 1)) ltac:(lia)). nia.
    + assert (Hs : Z.shiftr a (w - 1) = 0).
      { apply Z.bits_inj'. intros n Hn. rewrite Z.shiftr_spec, Z.bits_0 by lia.
        apply H. lia. }
      rewrite Z.shiftr_div_pow2 in Hs by lia. pose proof (pow2_pos (w - 1)).
      pose proof (Z.div_mod a (2 ^ (w - 1)) ltac:(lia)).
      pose proof (Z.mod_pos_bound a (2 ^ (w - 1)) ltac:(lia)). nia.
Qed.

Lemma bits_range_s w a b o : 0 < w →
  - 2 ^ (w - 1) ≤ a < 2 ^ (w - 1) → - 2 ^ (w - 1) ≤ b < 2 ^ (w - 1) →
  - 2 ^ (w - 1) ≤ z_bit o a b < 2 ^ (w - 1).
Proof.
  intros Hw Ha Hb. rewrite testbit_sign_range in Ha, Hb |- * by done.
  intros i Hi. specialize (Ha i Hi). specialize (Hb i Hi).
  assert (Hs : (z_bit o a b <? 0) = match o with
    BAnd => (a <? 0) && (b <? 0) | BOr => (a <? 0) || (b <? 0)
    | BXor => xorb (a <? 0) (b <? 0) end).
  { assert (Hneg : ∀ x, (x <? 0) = true ↔ x < 0) by (intros; apply Z.ltb_lt).
    apply eq_iff_eq_true. destruct o; simpl.
    - by rewrite andb_true_iff, !Hneg, Z.land_neg.
    - by rewrite orb_true_iff, !Hneg, Z.lor_neg.
    - rewrite Hneg. pose proof (Z.lxor_nonneg a b).
      destruct (Z.ltb_spec a 0), (Z.ltb_spec b 0); simpl; split; intros; lia. }
  rewrite Hs. destruct o; simpl;
    rewrite ?Z.land_spec, ?Z.lor_spec, ?Z.lxor_spec; by rewrite Ha, Hb.
Qed.

Lemma z_bit_in_range o t a b :
  in_range t a = true → in_range t b = true → in_range t (z_bit o a b) = true.
Proof.
  rewrite !in_range_spec. pose proof (iwidth_pos t).
  destruct (isigned t); [apply bits_range_s | apply bits_range_u]; lia.
Qed.

Lemma promote_range t a : in_range t a = true → in_range (promote t) a = true.
Proof. rewrite !in_range_spec. destruct t; simpl; lia. Qed.
