(* ===== verification/VmRun.v ===== *)
(** * The virtual machine interpreter (src/backend/vm/vmrunlir.c)

    [run_vm_by_lir] executes one instruction at a time; [step] is one turn of
    its dispatch loop and [run] the loop, on [fuel] turns.  The byte stack, its
    stack pointer and frame pointers are kept as in the code: [sp], [bp] and
    [gp] are offsets from the host address [e_stack] of the stack.  One
    definition [vm_*] models each case of the dispatch table. *)

From stdpp Require Import base list gmap numbers decidable strings.
From Stdlib Require Import ZArith Lia.
From S2P Require Import Prelude Memory CType Floats CArith VmInstr.

Local Open Scope Z_scope.

(** What the interpreter is run on: [prog->exec], the host addresses of the
    stack and of [prog->global], and the builtin functions with the values of
    their pointers (kcsbltin is another library). *)
Record vm_env : Type := VmEnv {
  e_exec : list vm_code;
  e_stack : Z;
  e_global : Z;
  e_builtin : Z → mem → Z → outcome (mem * Z);
  e_func_ptr : Z → Z
}.

(** The local variables of [run_vm_by_lir]; [retsize] starts uninitialised. *)
Record vm_state : Type := VmState {
  s_mem : mem;
  s_ip : Z;
  s_sp : Z;
  s_bp : Z;
  s_gp : Z;
  s_retval : Z;
  s_retsize : option Z
}.

Definition set_mem (m : mem) (s : vm_state) : vm_state :=
  VmState m (s_ip s) (s_sp s) (s_bp s) (s_gp s) (s_retval s) (s_retsize s).
Definition set_ip (ip : Z) (s : vm_state) : vm_state :=
  VmState (s_mem s) ip (s_sp s) (s_bp s) (s_gp s) (s_retval s) (s_retsize s).
Definition set_sp (sp : Z) (s : vm_state) : vm_state :=
  VmState (s_mem s) (s_ip s) sp (s_bp s) (s_gp s) (s_retval s) (s_retsize s).
Definition set_bp (bp : Z) (s : vm_state) : vm_state :=
  VmState (s_mem s) (s_ip s) (s_sp s) bp (s_gp s) (s_retval s) (s_retsize s).
Definition set_retval (v : Z) (s : vm_state) : vm_state :=
  VmState (s_mem s) (s_ip s) (s_sp s) (s_bp s) (s_gp s) v (s_retsize s).
Definition set_retsize (n : Z) (s : vm_state) : vm_state :=
  VmState (s_mem s) (s_ip s) (s_sp s) (s_bp s) (s_gp s) (s_retval s) (Some n).
(** [++ip] *)
Definition next (s : vm_state) : vm_state := set_ip (s_ip s + 1) s.

Section Interp.
Context `{FA : FloatArith} (E : vm_env).

(** ** Host memory accesses *)

Definition rd (t : ity) (a : Z) (s : vm_state) : outcome Z :=
  defined "read outside memory" (mload (s_mem s) a t).
Definition wr (t : ity) (a v : Z) (s : vm_state) : outcome vm_state :=
  m ← defined "write outside memory" (mstore (s_mem s) a t v); Ok (set_mem m s).
Definition rdf (f : fty) (a : Z) (s : vm_state) : outcome Z :=
  bs ← defined "read outside memory" (mread (s_mem s) a (fsize f)); Ok (le_dec bs).
Definition wrf (f : fty) (a v : Z) (s : vm_state) : outcome vm_state :=
  m ← defined "write outside memory" (mwrite (s_mem s) a (le_enc (fsize f) v));
  Ok (set_mem m s).
(** [memcpy], [memmove] and [memset] with an [int] size. *)
Definition copy (dst src size : Z) (s : vm_state) : outcome vm_state :=
  if size <? 0 then Undef "negative size"
  else m ← defined "copy outside memory" (mcopy (s_mem s) dst src (Z.to_nat size));
       Ok (set_mem m s).
Definition zero (dst size : Z) (s : vm_state) : outcome vm_state :=
  if size <? 0 then Undef "negative size"
  else m ← defined "write outside memory"
             (mwrite (s_mem s) dst (replicate (Z.to_nat size) 0));
       Ok (set_mem m s).

(** ** The stack macros *)

Definition at_sp (o : Z) (s : vm_state) : Z := e_stack E + s_sp s + o.

Definition PUSHI (v : Z) (s : vm_state) : outcome vm_state :=
  s' ← wr U64 (at_sp 0 s) v s; Ok (set_sp (s_sp s + 8) s').
Definition PUSHIT (t : ity) (v : Z) (s : vm_state) : outcome vm_state :=
  PUSHI (conv t v) s.
Definition PUSHF (f : fty) (v : Z) (s : vm_state) : outcome vm_state :=
  s' ← wrf f (at_sp 0 s) v s;
  Ok (set_sp (s_sp s + (if decide (f = F80) then 16 else 8)) s').

(** [POPI] into a local variable: the value and the new state. *)
Definition POPI (t : ity) (s : vm_state) : outcome (Z * vm_state) :=
  v ← rd t (at_sp (-8) s) s; Ok (conv t (mask_of t v), set_sp (s_sp s - 8) s).
(** [POPI] into the memory at [a]. *)
Definition POPI_to (a : Z) (t : ity) (s : vm_state) : outcome vm_state :=
  '(v, s) ← POPI t s; wr t a v s.
Definition POPF (f : fty) (s : vm_state) : outcome (Z * vm_state) :=
  let n := if decide (f = F80) then 16 else 8 in
  v ← rdf f (at_sp (- n) s) s; Ok (v, set_sp (s_sp s - n) s).
Definition POPF_to (a : Z) (f : fty) (s : vm_state) : outcome vm_state :=
  '(v, s) ← POPF f s; wrf f a v s.
Definition POPA (s : vm_state) : outcome (Z * vm_state) := POPI U64 s.

Definition TOPI (t : ity) (s : vm_state) : outcome Z :=
  v ← rd t (at_sp (-8) s) s; Ok (conv t (mask_of t v)).
Definition set_TOPI (v : Z) (s : vm_state) : outcome vm_state := wr U64 (at_sp (-8) s) v s.

Definition STOREI (a : Z) (t : ity) (s : vm_state) : outcome vm_state :=
  v ← rd U64 (at_sp (-8) s) s; wr t a (conv t (mask_of t v)) s.
Definition STOREF (a : Z) (f : fty) (s : vm_state) : outcome vm_state :=
  v ← rdf f (at_sp (if decide (f = F80) then -16 else -8) s) s; wrf f a v s.

(** [NULLCHK(addr)]: prints the registers and leaves. *)
Definition NULLCHK (addr : Z) : outcome unit :=
  if (addr <? 0x1000) && (0 <=? addr) then Exit "Oops, null-pointer access." else Ok tt.

Definition DEREFI (t : ity) (s : vm_state) : outcome vm_state :=
  '(addr, s) ← POPA s; _ ← NULLCHK addr; v ← rd t addr s; PUSHI v s.
Definition DEREFF (f : fty) (s : vm_state) : outcome vm_state :=
  '(addr, s) ← POPA s; _ ← NULLCHK addr; v ← rdf f addr s; PUSHF f v s.

Definition NEGI (t : ity) (s : vm_state) : outcome vm_state :=
  v ← TOPI t s; r ← c_neg t v; set_TOPI r s.
Definition NEGF (f : fty) (s : vm_state) : outcome vm_state :=
  let a := at_sp (if decide (f = F80) then -16 else -8) s in
  v ← rdf f a s; wrf f a (fneg f v) s.

Definition OP2I (o : binop) (t : ity) (s : vm_state) : outcome vm_state :=
  '(v2, s) ← POPI t s; v1 ← TOPI t s; r ← c_binop o t v1 v2; set_TOPI r s.
Definition OP2F (o : arith) (f : fty) (s : vm_state) : outcome vm_state :=
  '(v2, s) ← POPF f s;
  let a := at_sp (if decide (f = F80) then -16 else -8) s in
  v1 ← rdf f a s; wrf f a (fop f o v1 v2) s.
(** [OP2DC] and [OP2LDC]: the result goes to the word at [sp - 8], also for
    [long double], whose first operand starts at [sp - 16]. *)
Definition OP2DC (o : cmpop) (f : fty) (s : vm_state) : outcome vm_state :=
  '(v2, s) ← POPF f s;
  v1 ← rdf f (at_sp (if decide (f = F80) then -16 else -8) s) s;
  set_TOPI (Z.b2z (fcmp f o v1 v2)) s.

(** [OP2S]: the count is popped as an [int32_t] under the mask of the type. *)
Definition OP2S (sh : ity → Z → Z → outcome Z) (t : ity) (s : vm_state) : outcome vm_state :=
  v2 ← rd I32 (at_sp (-8) s) s;
  let v2 := conv I32 (mask_of t v2) in
  '(v1, s) ← POPI t (set_sp (s_sp s - 8) s);
  r ← sh t v1 v2; PUSHI r s.

Definition float_optype (o : optype) : option fty :=
  match o with VMOP_FLT => Some F32 | VMOP_DBL => Some F64 | VMOP_LDBL => Some F80
  | _ => None end.

(** [stack + gbp + index] for [gbp = is_global ? gp : bp]. *)
Definition gbp (a : vm_address) (s : vm_state) : Z :=
  if a_global a then s_gp s else s_bp s.
Definition at_var (a : vm_address) (s : vm_state) : Z :=
  e_stack E + gbp a s + a_index a.

(** ** Stores *)

Definition vm_store (c : vm_code) (s : vm_state) : outcome vm_state :=
  a ← d_addr c;
  s ← match int_optype (c_type c), float_optype (c_type c) with
      | Some t, _ => STOREI (at_var a s) t s
      | _, Some f => STOREF (at_var a s) f s
      | _, _ =>
          if decide (c_type c = VMOP_CHARP) then STOREI (at_var a s) U64 s
          else copy (at_var a s) (at_sp 0 s) (a_size a) s
      end;
  Ok (next s).

Definition vm_fzero (c : vm_code) (s : vm_state) : outcome vm_state :=
  a ← d_addr c;
  s ← (if 8 <? a_size a then zero (at_var a s) (a_size a) s
       else match a_size a with
            | 1 => wr U8 (at_var a s) 0 s
            | 2 => wr U16 (at_var a s) 0 s
            | 4 => wr U32 (at_var a s) 0 s
            | 8 => wr U64 (at_var a s) 0 s
            | _ => Ok s
            end);
  Ok (next s).

(** ** Calls and frames *)

Definition vm_call (c : vm_code) (s : vm_state) : outcome vm_state :=
  match c_type c with
  | VMOP_FUNCADDR =>
      a ← d_addr c; s' ← PUSHI (s_ip s + 1) s; Ok (set_ip (a_index a) s')
  | VMOP_ADDR =>
      a ← d_addr c; s' ← PUSHI (s_ip s + 1) s;
      f ← rd U64 (at_var a s') s'; Ok (set_ip (conv I64 f) s')
  | VMOP_BUILTIN =>
      a ← d_addr c;
      match a_func a with
      | None => Exit "Oops, function is not available."
      | Some f =>
          '(m, n) ← e_builtin E f (s_mem s) (s_sp s);
          Ok (next (set_sp (s_sp s + n) (set_retsize n (set_mem m s))))
      end
  | VMOP_FUNCNAME => Exit "Oops, function is not available."
  | _ => Ok s
  end.

(** The result of a call is moved to the new top of the stack: one word, or a
    whole object when it is larger. *)
Definition move_result (dst src size : Z) (s : vm_state) : outcome vm_state :=
  if 8 <? size then copy dst src size s else v ← rd U64 src s; wr U64 dst v s.

Definition vm_ret (c : vm_code) (s : vm_state) : outcome vm_state :=
  size ← d_size c;
  let size := pad8 size in
  let vp := conv I32 (s_sp s - size) in
  let s := set_sp (s_bp s) s in
  '(bp, s) ← POPI U64 s; let s := set_bp (conv I64 bp) s in
  '(ip, s) ← POPI U64 s; let s := set_ip (conv I64 ip) s in
  s ← move_result (at_sp 0 s) (e_stack E + vp) size s;
  Ok (set_retsize size (set_sp (s_sp s + size) s)).

Definition vm_clup (c : vm_code) (s : vm_state) : outcome vm_state :=
  size ← d_size c;
  _ ← c_assert (0 <? size);
  retsize ← defined "retsize is not set" (s_retsize s);
  let vp := conv I32 (s_sp s - retsize) in
  let s := set_sp (vp - size) s in
  s ← move_result (at_sp 0 s) (e_stack E + vp) retsize s;
  Ok (next (set_sp (s_sp s + retsize) s)).

Definition vm_clpop (c : vm_code) (s : vm_state) : outcome vm_state :=
  size ← d_size c; _ ← c_assert (0 <? size); Ok (next (set_sp (s_sp s - size) s)).

Definition vm_enter (c : vm_code) (s : vm_state) : outcome vm_state :=
  size ← d_size c;
  s ← PUSHI (s_bp s) s;
  let s := set_bp (s_sp s) s in
  Ok (next (set_sp (s_sp s + size) s)).

(** ** Loads *)

Definition vm_deref (c : vm_code) (s : vm_state) : outcome vm_state :=
  s ← match int_optype (c_type c), float_optype (c_type c) with
      | Some t, _ => DEREFI t s
      | _, Some f => DEREFF f s
      | _, _ =>
          a ← d_addr c;
          '(addr, s) ← POPA s;
          s ← copy (at_sp 0 s) addr (a_size a) s;
          Ok (set_sp (s_sp s + pad8 (a_size a)) s)
      end;
  Ok (next s).

(** An object is pushed in a block of [pad8 size] bytes. *)
Definition push_obj (a : vm_address) (s : vm_state) : outcome vm_state :=
  s ← copy (at_sp 0 s) (at_var a s) (a_size a) s;
  Ok (set_sp (s_sp s + pad8 (a_size a)) s).

Definition push_var (sgn : bool) (a : vm_address) (s : vm_state) : outcome vm_state :=
  match a_size a with
  | 1 => v ← rd (if sgn then I8 else U8) (at_var a s) s; PUSHI v s
  | 2 => v ← rd (if sgn then I16 else U16) (at_var a s) s; PUSHI v s
  | 4 => v ← rd (if sgn then I32 else U32) (at_var a s) s; PUSHI v s
  | 8 => v ← rd (if sgn then I64 else U64) (at_var a s) s; PUSHI v s
  | _ => push_obj a s
  end.

Definition push_float (a : vm_address) (s : vm_state) : outcome vm_state :=
  match a_size a with
  | 4 => v ← rdf F32 (at_var a s) s; PUSHF F32 v s
  | 8 => v ← rdf F64 (at_var a s) s; PUSHF F64 v s
  | 16 => v ← rdf F80 (at_var a s) s; PUSHF F80 v s
  | _ => Ok s
  end.

(** The bits of an immediate operand. *)
Definition imm_bits (c : vm_code) : outcome Z :=
  i ← d_imm c;
  match i with ImmBits b => Ok b | ImmStr i => Ok (e_global E + i) end.

Definition vm_push (c : vm_code) (s : vm_state) : outcome vm_state :=
  s ← match c_type c with
      | VMOP_VARI => a ← d_addr c; push_var true a s
      | VMOP_VARU => a ← d_addr c; push_var false a s
      | VMOP_VAROBJ => a ← d_addr c; push_obj a s
      | VMOP_VARFL => a ← d_addr c; push_float a s
      | VMOP_FLT => b ← imm_bits c; PUSHF F32 b s
      | VMOP_DBL => b ← imm_bits c; PUSHF F64 b s
      | VMOP_LDBL => b ← imm_bits c; PUSHF F80 b s
      | VMOP_CHARP => b ← imm_bits c; PUSHI b s
      | VMOP_ADDR => a ← d_addr c; PUSHI (at_var a s) s
      | VMOP_FUNCADDR => a ← d_addr c; PUSHI (a_index a) s
      | VMOP_BUILTIN =>
          a ← d_addr c; PUSHI (from_option (e_func_ptr E) 0 (a_func a)) s
      | o => match int_optype o with
             | Some t => b ← imm_bits c; PUSHIT t b s
             | None => Ok s
             end
      end;
  Ok (next s).

(** ** Pops *)

Definition vm_pop (c : vm_code) (s : vm_state) : outcome vm_state :=
  s ← match c_type c with
      | VMOP_NONE => size ← d_size c; Ok (set_sp (s_sp s - size) s)
      | o =>
          a ← d_addr c;
          match int_optype o, float_optype o with
          | Some t, _ => POPI_to (at_var a s) t s
          | _, Some f => POPF_to (at_var a s) f s
          | _, _ =>
              if decide (o = VMOP_CHARP) then POPI_to (at_var a s) U64 s
              else let s := set_sp (s_sp s - pad8 (a_size a)) s in
                   copy (at_var a s) (at_sp 0 s) (a_size a) s
          end
      end;
  Ok (next s).

Definition vm_depop (c : vm_code) (s : vm_state) : outcome vm_state :=
  a ← d_addr c;
  p ← rd U64 (e_stack E + gbp a s + a_base a) s;
  _ ← NULLCHK p;
  let p := p + a_offset a in
  s ← match int_optype (c_type c), float_optype (c_type c) with
      | Some t, _ => POPI_to p t s
      | _, Some f => POPF_to p f s
      | _, _ =>
          if decide (c_type c = VMOP_CHARP) then POPI_to p U64 s
          else let s := set_sp (s_sp s - pad8 (a_size a)) s in
               copy p (at_sp 0 s) (a_size a) s
      end;
  Ok (next s).

(** ** Conversions *)

(** [CAST_FROM(type)]: [ts] and [tu] are [type] and [unsigned type].  The two
    arms of the macro, for an unsigned and for a signed target, have the same
    text.  Only the low bytes of the word are written. *)
Definition cast_from (ts tu : ity) (src dst : ctype) (s : vm_state) : outcome vm_state :=
  v ← rd U64 (at_sp (-8) s) s;
  let from := if is_signed src then conv ts v else conv tu v in
  match type_of dst with
  | T_BOOL => wr U8 (at_sp (-8) s) (if v =? 0 then 0 else 1) s
  | T_CHAR => wr U8 (at_sp (-8) s) from s
  | T_SHORT => wr U16 (at_sp (-8) s) from s
  | T_INT => wr U32 (at_sp (-8) s) from s
  | T_LONG => wr U64 (at_sp (-8) s) from s
  | T_FLOAT => wrf F32 (at_sp (-8) s) (f_of_z F32 v) s
  | T_DOUBLE => wrf F64 (at_sp (-8) s) (f_of_z F64 v) s
  | T_LDOUBLE =>
      s' ← wrf F80 (at_sp (-8) s) (f_of_z F80 v) s; Ok (set_sp (s_sp s + 8) s')
  | _ => Ok s
  end.

Definition float_to_int (t : ity) (f : fty) (a : Z) (s : vm_state) : outcome vm_state :=
  v ← rdf f a s;
  z ← defined "float conversion out of range" (f_to_int f t v);
  wr t a z s.
Definition float_cvt (f g : fty) (a : Z) (s : vm_state) : outcome vm_state :=
  v ← rdf f a s; wrf g a (f_cvt f g v) s.

Definition cast_from_float (dst : ctype) (s : vm_state) : outcome vm_state :=
  let a := at_sp (-8) s in
  match type_of dst with
  | T_BOOL | T_CHAR => float_to_int U8 F32 a s
  | T_SHORT => float_to_int U16 F32 a s
  | T_INT => float_to_int U32 F32 a s
  | T_LONG => float_to_int U64 F32 a s
  | T_DOUBLE => float_cvt F32 F64 a s
  (* the operand is read as a [double] here *)
  | T_LDOUBLE => s' ← float_cvt F64 F80 a s; Ok (set_sp (s_sp s + 8) s')
  | _ => Ok s
  end.

Definition cast_from_double (dst : ctype) (s : vm_state) : outcome vm_state :=
  let a := at_sp (-8) s in
  match type_of dst with
  | T_BOOL | T_CHAR => float_to_int U8 F64 a s
  | T_SHORT => float_to_int U16 F64 a s
  | T_INT => float_to_int U32 F64 a s
  | T_LONG => float_to_int U64 F64 a s
  | T_FLOAT => float_cvt F64 F32 a s
  | T_LDOUBLE => s' ← float_cvt F64 F80 a s; Ok (set_sp (s_sp s + 8) s')
  | _ => Ok s
  end.

Definition cast_from_ldouble (dst : ctype) (s : vm_state) : outcome vm_state :=
  let a := at_sp (-16) s in
  s ← match type_of dst with
      (* the operand is read as a [double] in the integer cases *)
      | T_BOOL | T_CHAR => float_to_int U8 F64 a s
      | T_SHORT => float_to_int U16 F64 a s
      | T_INT => float_to_int U32 F64 a s
      | T_LONG => float_to_int U64 F64 a s
      | T_FLOAT => float_cvt F80 F32 a s
      | T_DOUBLE => float_cvt F80 F64 a s
      | _ => Ok s
      end;
  Ok (set_sp (s_sp s - 8) s).

Definition vm_cast (c : vm_code) (s : vm_state) : outcome vm_state :=
  '(src, dst) ← d_cast c;
  s ← match type_of src with
      | T_BOOL | T_CHAR => cast_from I8 U8 src dst s
      | T_SHORT => cast_from I16 U16 src dst s
      | T_INT => cast_from I32 U32 src dst s
      | T_LONG => cast_from I64 U64 src dst s
      | T_FLOAT => cast_from_float dst s
      | T_DOUBLE => cast_from_double dst s
      | T_LDOUBLE => cast_from_ldouble dst s
      | _ => Ok s
      end;
  Ok (next s).

(** ** Jumps *)

Definition vm_jmp (c : vm_code) (s : vm_state) : outcome vm_state :=
  a ← d_addr c; Ok (set_ip (s_ip s + a_index a) s).

Definition vm_jz (c : vm_code) (s : vm_state) : outcome vm_state :=
  '(cond, s) ← POPI U64 s;
  if cond =? 0 then vm_jmp c s else Ok (next s).

Definition vm_jnz (c : vm_code) (s : vm_state) : outcome vm_state :=
  '(cond, s) ← POPI U64 s;
  if cond =? 0 then Ok (next s) else vm_jmp c s.

(** [base[ip]] *)
Definition fetch (ip : Z) : outcome vm_code :=
  if ip <? 0 then Undef "instruction pointer"
  else defined "instruction pointer" (e_exec E !! Z.to_nat ip).

Definition vm_jmptbl (s : vm_state) : outcome vm_state :=
  '(index, s) ← POPI U32 s;
  let s := set_ip (s_ip s + conv U32 (index + 1)) s in
  entry ← fetch (s_ip s);
  vm_jmp entry s.

(** ** Operators *)

Definition vm_not (c : vm_code) (s : vm_state) : outcome vm_state :=
  s ← match int_optype (c_type c) with
      | Some t => '(v, s) ← POPI t s; r ← c_not t v; PUSHI r s
      | None => Ok s
      end;
  Ok (next s).

Definition vm_neg (c : vm_code) (s : vm_state) : outcome vm_state :=
  s ← match int_optype (c_type c), float_optype (c_type c) with
      | Some t, _ => NEGI t s
      | _, Some f => NEGF f s
      | _, _ => Ok s
      end;
  Ok (next s).

(** The cases of one operator: the integer types, then the floating ones
    where the operator has them; other operand types do nothing. *)
Definition vm_arith (o : arith) (c : vm_code) (s : vm_state) : outcome vm_state :=
  s ← match int_optype (c_type c), float_optype (c_type c) with
      | Some t, _ => OP2I (IArith o) t s
      | _, Some f => OP2F o f s
      | _, _ => Ok s
      end;
  Ok (next s).
Definition vm_cmp (o : cmpop) (c : vm_code) (s : vm_state) : outcome vm_state :=
  s ← match int_optype (c_type c), float_optype (c_type c) with
      | Some t, _ => OP2I (ICmp o) t s
      | _, Some f => OP2DC o f s
      | _, _ => Ok s
      end;
  Ok (next s).
Definition vm_intop (o : binop) (c : vm_code) (s : vm_state) : outcome vm_state :=
  s ← match int_optype (c_type c) with Some t => OP2I o t s | None => Ok s end;
  Ok (next s).
Definition vm_shift (sh : ity → Z → Z → outcome Z) (c : vm_code) (s : vm_state) :
    outcome vm_state :=
  s ← match int_optype (c_type c) with Some t => OP2S sh t s | None => Ok s end;
  Ok (next s).

Definition vm_add := vm_arith AAdd.
Definition vm_sub := vm_arith ASub.
Definition vm_mul := vm_arith AMul.
Definition vm_div := vm_arith ADiv.
Definition vm_mod := vm_intop IMod.
Definition vm_and := vm_intop (IBit BAnd).
Definition vm_or := vm_intop (IBit BOr).
Definition vm_xor := vm_intop (IBit BXor).
Definition vm_shl := vm_shift c_shl.
Definition vm_shr := vm_shift c_shr.
Definition vm_eq := vm_cmp CEq.
Definition vm_ne := vm_cmp CNe.
Definition vm_ge := vm_cmp CGe.
Definition vm_gt := vm_cmp CGt.
Definition vm_le := vm_cmp CLe.
Definition vm_lt := vm_cmp CLt.

(** [++TOPIV(int32_t)] and [--TOPIV(int32_t)]: the low half of the word. *)
Definition incdec (d : Z) (s : vm_state) : outcome vm_state :=
  v ← rd I32 (at_sp (-8) s) s;
  r ← c_result I32 (v + d);
  s ← wr I32 (at_sp (-8) s) r s; Ok (next s).
Definition vm_inc := incdec 1.
Definition vm_dec := incdec (-1).

Definition vm_save_retval (s : vm_state) : outcome vm_state :=
  v ← rd U64 (at_sp (-8) s) s; Ok (next (set_retval (conv I64 v) s)).

Definition vm_setjmp (s : vm_state) : outcome vm_state :=
  buf ← rd U64 (at_sp (-8) s) s;
  let s := next s in
  s ← wr I64 buf (s_ip s) s;
  s ← wr I64 (buf + 8) (s_bp s) s;
  s ← wr I64 (buf + 16) (s_sp s) s;
  wr U64 (at_sp (-8) s) 0 s.

Definition vm_longjmp (s : vm_state) : outcome vm_state :=
  buf ← rd U64 (at_sp (-8) s) s;
  r ← rd U64 (at_sp (-16) s) s;
  ip ← rd I64 buf s;
  bp ← rd I64 (buf + 8) s;
  sp ← rd I64 (buf + 16) s;
  PUSHI (conv I64 r) (set_sp sp (set_bp bp (set_ip ip s))).

(** ** The dispatch loop *)

Inductive vm_next : Type :=
  | Running (s : vm_state)
  | Halted (retval : Z).

Definition running (s : outcome vm_state) : outcome vm_next := s ← s; Ok (Running s).

(** One turn: fetch the instruction and jump to its case.  The last opcodes
    of the table share the label of VM_HALT; the [int] result of the function
    is the low half of [retval]. *)
Definition exec_code (c : vm_code) (s : vm_state) : outcome vm_next :=
  match c_opcode c with
  | VM_NOP => running (Ok (next s))
  | VM_LABEL => Exit "assertion failed"
  | VM_HALT | VM_TBL_ENTRY | VM_GLOBAL | VM_REFLIB => Ok (Halted (conv I32 (s_retval s)))
  | VM_STORE => running (vm_store c s)
  | VM_FZERO => running (vm_fzero c s)
  | VM_CALL => running (vm_call c s)
  | VM_RET => running (vm_ret c s)
  | VM_CLUP => running (vm_clup c s)
  | VM_CLPOP => running (vm_clpop c s)
  | VM_ENTER => running (vm_enter c s)
  | VM_DEREF => running (vm_deref c s)
  | VM_CAST => running (vm_cast c s)
  | VM_ALLOCA => running (Ok (next s))
  | VM_JMP => running (vm_jmp c s)
  | VM_JZ => running (vm_jz c s)
  | VM_JNZ => running (vm_jnz c s)
  | VM_PUSH => running (vm_push c s)
  | VM_POP => running (vm_pop c s)
  | VM_DEPOP => running (vm_depop c s)
  | VM_NOT => running (vm_not c s)
  | VM_NEG => running (vm_neg c s)
  | VM_ADD => running (vm_add c s)
  | VM_SUB => running (vm_sub c s)
  | VM_MUL => running (vm_mul c s)
  | VM_DIV => running (vm_div c s)
  | VM_MOD => running (vm_mod c s)
  | VM_AND => running (vm_and c s)
  | VM_OR => running (vm_or c s)
  | VM_XOR => running (vm_xor c s)
  | VM_SHL => running (vm_shl c s)
  | VM_SHR => running (vm_shr c s)
  | VM_EQ => running (vm_eq c s)
  | VM_NE => running (vm_ne c s)
  | VM_GE => running (vm_ge c s)
  | VM_GT => running (vm_gt c s)
  | VM_LE => running (vm_le c s)
  | VM_LT => running (vm_lt c s)
  | VM_INC => running (vm_inc s)
  | VM_DEC => running (vm_dec s)
  | VM_JMPTBL => running (vm_jmptbl s)
  | VM_SAVE_RETVAL => running (vm_save_retval s)
  | VM_SETJMP => running (vm_setjmp s)
  | VM_LONGJMP => running (vm_longjmp s)
  end.

Definition step (s : vm_state) : outcome vm_next := c ← fetch (s_ip s); exec_code c s.

(** [fuel] turns of the loop; None when it is still running. *)
Fixpoint run (fuel : nat) (s : vm_state) : option (outcome Z) :=
  match fuel with
  | O => None
  | S fuel =>
      match step s with
      | Ok (Running s) => run fuel s
      | Ok (Halted r) => Some (Ok r)
      | Exit e => Some (Exit e)
      | Undef e => Some (Undef e)
      end
  end.

(** The prologue of [run_vm_by_lir]. *)
Definition start_state (m : mem) (ip bp : Z) : vm_state :=
  VmState m ip bp bp (bp + 8) 0 None.

End Interp.

Definition SIZE_OF_VM_STACK : Z := 16 * 1024 * 1024.

(** [vm_run_lir_impl]: where the frames start in a stack whose first [gsize]
    bytes are a copy of the global area. *)
Definition stack_base (gsize : Z) : Z := pad_n (gsize + 1) 16.

(** [vm_run_lir_impl]: the program runs on a zeroed stack whose first bytes
    are a copy of the global area [global]; [host] is the other memory of the
    process. *)
Definition vm_run_lir_impl `{FloatArith} (E : vm_env) (fuel : nat) (entry : Z)
    (global : list Z) (host : mem) : option (outcome Z) :=
  let gsize := Z.of_nat (length global) in
  let stack := mblock (e_stack E) (global ++ replicate (Z.to_nat (SIZE_OF_VM_STACK + 1)) 0) in
  run E fuel (start_state (stack ∪ host) entry (stack_base gsize)).
