(* ===== verification/VmProps.v ===== *)
(** * A small concrete machine

    A stack of a few 64-bit words at a fixed address, used by the closed
    instances of the theorems about the interpreter. *)

From stdpp Require Import base list gmap numbers decidable strings.
From Stdlib Require Import ZArith Lia.
From stdpp Require Import base list gmap numbers decidable strings relations.
From S2P Require Import Prelude Memory CType Floats CArith VmInstr VmRun.

Local Open Scope Z_scope.

(** The stack is at 4096, the string area at 65536; no builtin functions. *)
Definition demo_env (p : list vm_code) : vm_env :=
  VmEnv p 4096 65536 (λ _ _ _, Undef "no builtin functions") (λ _, 0).

(** Memory with the words [ws] on the stack and [free] more bytes, and a state
    whose stack pointer is above [ws]. *)
Definition demo_mem (ws : list Z) (free : nat) : mem :=
  mblock 4096 (concat (le_enc 8 <$> ws) ++ replicate free 0).
Definition demo (ws : list Z) : vm_state :=
  VmState (demo_mem ws 64) 0 (8 * Z.of_nat (length ws)) 0 8 0 None.

(** A local variable at [index] of [size] bytes. *)
Definition demo_addr (index size : Z) : vm_address := VmAddress [] false index 0 0 size None.

Lemma demo_mem_ok ws n : mem_ok (demo_mem ws n).
Proof.
  apply mblock_ok. apply Forall_app. split.
  - apply Forall_concat, Forall_fmap, Forall_true. intros z. apply le_enc_bytes.
  - apply Forall_replicate. unfold is_byte. lia.
Qed.

(** Facts about a concrete memory by computation. *)
Lemma mapped_compute m a n : bool_decide (is_Some (mread m a n)) = true → mapped m a n.
Proof. intros H. apply mread_mapped. by apply bool_decide_eq_true in H. Qed.

Definition byte_b (b : Z) : bool := (0 <=? b) && (b <? 256).

Lemma mem_ok_compute (m : mem) :
  forallb (λ kv, byte_b kv.2) (map_to_list m) = true → mem_ok m.
Proof.
  intros H a b Hab. apply elem_of_map_to_list in Hab.
  rewrite forallb_forall in H. apply list_elem_of_In in Hab. specialize (H _ Hab).
  unfold byte_b in H. simpl in H. unfold is_byte. lia.
Qed.

Ltac demo_compute :=
  lazymatch goal with
  | |- mapped _ _ _ => apply mapped_compute; vm_compute; reflexivity
  | |- mem_ok _ => apply mem_ok_compute; vm_compute; reflexivity
  | |- ∀ _, _ => fail
  | |- ∃ _, _ => fail
  | |- _ ∨ _ => vm_compute; first [left; congruence | right; congruence | lia]
  | |- _ => first [vm_compute; congruence | vm_compute; reflexivity | vm_compute; lia]
  end.

(** The state after one instruction. *)
Definition after (E : vm_env) (c : vm_code) (s : vm_state) : vm_state :=
  match exec_code E c s with Ok (Running s') => s' | _ => s end.

Lemma after_running E c s s' : exec_code E c s = Ok (Running s') → after E c s = s'.
Proof. unfold after. by intros ->. Qed.

(** * The memory invariant of the interpreter

    Every instruction keeps the set of allocated addresses and the fact that
    each of them holds a byte, whatever the program does: it completes, or
    stops at an access outside memory. *)

Definition inv (m m' : mem) : Prop := dom m' = dom m ∧ (mem_ok m → mem_ok m').

#[export] Instance inv_preorder : PreOrder inv.
Proof.
  split; [split; auto|]. intros m1 m2 m3 [H1 H2] [H3 H4]. split; [congruence|auto].
Qed.

(** What a partial computation leaves in memory, without or with a result. *)
Definition keeps (m : mem) (o : outcome vm_state) : Prop :=
  ∀ s', o = Ok s' → inv m (s_mem s').
Definition keeps_v {A} (m : mem) (o : outcome (A * vm_state)) : Prop :=
  ∀ a s', o = Ok (a, s') → inv m (s_mem s').

Create HintDb keeps.

Lemma keeps_ok m s : inv m (s_mem s) → keeps m (Ok s).
Proof. intros H s' [= <-]. done. Qed.
Lemma keeps_exit m e : keeps m (Exit e).
Proof. intros s' H. discriminate H. Qed.
Lemma keeps_undef m e : keeps m (Undef e).
Proof. intros s' H. discriminate H. Qed.
Lemma keeps_v_ok {A} m (a : A) s : inv m (s_mem s) → keeps_v m (Ok (a, s)).
Proof. intros H a' s' [= <- <-]. done. Qed.

Lemma keeps_bind {A} m (o : outcome A) f : (∀ a, keeps m (f a)) → keeps m (o ≫= f).
Proof. intros H s' Ho. ok_inv. by eapply H. Qed.
Lemma keeps_v_bind {A B} m (o : outcome A) (f : A → outcome (B * vm_state)) :
  (∀ a, keeps_v m (f a)) → keeps_v m (o ≫= f).
Proof. intros H b s' Ho. ok_inv. by eapply H. Qed.
Lemma keeps_seq m o f : keeps m o → (∀ s, keeps (s_mem s) (f s)) → keeps m (o ≫= f).
Proof. intros Ho Hf s' H. ok_inv. etrans; [by eapply Ho|by eapply Hf]. Qed.
Lemma keeps_seq_v {A} m (o : outcome (A * vm_state)) f :
  keeps_v m o → (∀ a s, keeps (s_mem s) (f (a, s))) → keeps m (o ≫= f).
Proof.
  intros Ho Hf s' H. ok_inv. match goal with a : A * vm_state |- _ => destruct a end.
  etrans; [by eapply Ho|by eapply Hf].
Qed.

Section Keeps.
Context `{FA : FloatArith} (E : vm_env).
Implicit Types s : vm_state.

Lemma keeps_wr t a v s : keeps (s_mem s) (wr t a v s).
Proof.
  intros s' H. unfold wr in H. ok_inv. subst s'. simpl. split.
  - by eapply mwrite_dom.
  - intros Hm. by eapply mstore_ok.
Qed.
Lemma keeps_wrf f a v s : keeps (s_mem s) (wrf f a v s).
Proof.
  intros s' H. unfold wrf in H. ok_inv. subst s'. simpl. split.
  - by eapply mwrite_dom.
  - intros Hm. eapply mwrite_ok; [done|apply le_enc_bytes|done].
Qed.
Lemma keeps_copy d r n s : keeps (s_mem s) (copy d r n s).
Proof.
  intros s' H. unfold copy in H. destruct (n <? 0); [done|]. ok_inv. subst s'. simpl. split.
  - unfold mcopy in *. simplify_option_eq. by eapply mwrite_dom.
  - intros Hm. by eapply mcopy_ok.
Qed.
Lemma keeps_zero d n s : keeps (s_mem s) (zero d n s).
Proof.
  intros s' H. unfold zero in H. destruct (n <? 0); [done|]. ok_inv. subst s'. simpl. split.
  - by eapply mwrite_dom.
  - intros Hm. eapply mwrite_ok; [done| |done]. apply Forall_replicate. unfold is_byte. lia.
Qed.

(** The memory is the only component of the state the invariant reads, so the
    hints are stated for every state with memory [m]. *)
Lemma keeps_set m s o : s_mem s = m → keeps (s_mem s) o → keeps m o.
Proof. by intros <-. Qed.
Lemma keeps_v_set {A} m s (o : outcome (A * vm_state)) :
  s_mem s = m → keeps_v (s_mem s) o → keeps_v m o.
Proof. by intros <-. Qed.

Ltac keeps_step :=
  lazymatch goal with
  | |- keeps _ (Ok _) => apply keeps_ok; simpl; reflexivity
  | |- keeps_v _ (Ok _) => apply keeps_v_ok; simpl; reflexivity
  | |- keeps _ (Exit _) => apply keeps_exit
  | |- keeps _ (Undef _) => apply keeps_undef
  | |- keeps _ (?o ≫= _) =>
      lazymatch type of o with
      | outcome vm_state => apply keeps_seq; [|intros ?]
      | outcome (_ * vm_state) => apply keeps_seq_v; [|intros ? ?]
      | _ => apply keeps_bind; intros ?
      end
  | |- keeps_v _ (_ ≫= _) => apply keeps_v_bind; intros ?
  | |- keeps _ (match ?x with _ => _ end) => destruct x
  | |- keeps _ (_ ?s) => apply (keeps_set _ s); [reflexivity|solve [eauto with keeps]]
  | |- keeps_v _ (_ ?s) => apply (keeps_v_set _ s); [reflexivity|solve [eauto with keeps]]
  end.
Ltac keeps_tac := repeat (keeps_step; simpl).

#[local] Hint Resolve keeps_wr keeps_wrf keeps_copy keeps_zero : keeps.

Lemma keeps_PUSHI v s : keeps (s_mem s) (PUSHI E v s).
Proof. unfold PUSHI. keeps_tac. Qed.
Lemma keeps_PUSHF f v s : keeps (s_mem s) (PUSHF E f v s).
Proof. unfold PUSHF. keeps_tac. Qed.
Lemma keeps_POPI t s : keeps_v (s_mem s) (POPI E t s).
Proof. unfold POPI. keeps_tac. Qed.
Lemma keeps_POPF f s : keeps_v (s_mem s) (POPF E f s).
Proof. unfold POPF. keeps_tac. Qed.
#[local] Hint Resolve keeps_PUSHI keeps_PUSHF keeps_POPI keeps_POPF : keeps.

Lemma keeps_POPI_to a t s : keeps (s_mem s) (POPI_to E a t s).
Proof. unfold POPI_to. keeps_tac. Qed.
Lemma keeps_POPF_to a f s : keeps (s_mem s) (POPF_to E a f s).
Proof. unfold POPF_to. keeps_tac. Qed.
#[local] Hint Resolve keeps_POPI_to keeps_POPF_to : keeps.
Lemma keeps_OP2I o t s : keeps (s_mem s) (OP2I E o t s).
Proof. unfold OP2I, set_TOPI. keeps_tac. Qed.
Lemma keeps_OP2F o f s : keeps (s_mem s) (OP2F E o f s).
Proof. unfold OP2F. keeps_tac. Qed.
Lemma keeps_OP2DC o f s : keeps (s_mem s) (OP2DC E o f s).
Proof. unfold OP2DC, set_TOPI. keeps_tac. Qed.
Lemma keeps_OP2S sh t s : keeps (s_mem s) (OP2S E sh t s).
Proof. unfold OP2S. keeps_tac. Qed.
Lemma keeps_STOREI a t s : keeps (s_mem s) (STOREI E a t s).
Proof. unfold STOREI. keeps_tac. Qed.
Lemma keeps_STOREF a f s : keeps (s_mem s) (STOREF E a f s).
Proof. unfold STOREF. keeps_tac. Qed.
Lemma keeps_DEREFI t s : keeps (s_mem s) (DEREFI E t s).
Proof. unfold DEREFI, POPA. keeps_tac. Qed.
Lemma keeps_DEREFF f s : keeps (s_mem s) (DEREFF E f s).
Proof. unfold DEREFF, POPA. keeps_tac. Qed.
Lemma keeps_NEGI t s : keeps (s_mem s) (NEGI E t s).
Proof. unfold NEGI, set_TOPI. keeps_tac. Qed.
Lemma keeps_NEGF f s : keeps (s_mem s) (NEGF E f s).
Proof. unfold NEGF. keeps_tac. Qed.
Lemma keeps_move_result d r n s : keeps (s_mem s) (move_result d r n s).
Proof. unfold move_result. keeps_tac. Qed.
Lemma keeps_push_obj a s : keeps (s_mem s) (push_obj E a s).
Proof. unfold push_obj. keeps_tac. Qed.
Lemma keeps_float_to_int t f a s : keeps (s_mem s) (float_to_int t f a s).
Proof. unfold float_to_int. keeps_tac. Qed.
Lemma keeps_float_cvt f g a s : keeps (s_mem s) (float_cvt f g a s).
Proof. unfold float_cvt. keeps_tac. Qed.
#[local] Hint Resolve keeps_OP2I keeps_OP2F keeps_OP2DC keeps_OP2S keeps_STOREI keeps_STOREF
  keeps_DEREFI keeps_DEREFF keeps_NEGI keeps_NEGF keeps_move_result keeps_push_obj
  keeps_float_to_int keeps_float_cvt : keeps.
Lemma keeps_push_var b a s : keeps (s_mem s) (push_var E b a s).
Proof. unfold push_var. keeps_tac. Qed.
Lemma keeps_push_float a s : keeps (s_mem s) (push_float E a s).
Proof. unfold push_float. keeps_tac. Qed.
Lemma keeps_cast_from t u x y s : keeps (s_mem s) (cast_from E t u x y s).
Proof. unfold cast_from. keeps_tac. Qed.
Lemma keeps_cast_from_float y s : keeps (s_mem s) (cast_from_float E y s).
Proof. unfold cast_from_float. keeps_tac. Qed.
Lemma keeps_cast_from_double y s : keeps (s_mem s) (cast_from_double E y s).
Proof. unfold cast_from_double. keeps_tac. Qed.
Lemma keeps_cast_from_ldouble y s : keeps (s_mem s) (cast_from_ldouble E y s).
Proof. unfold cast_from_ldouble. keeps_tac. Qed.
#[local] Hint Resolve keeps_push_var keeps_push_float keeps_cast_from
  keeps_cast_from_float keeps_cast_from_double keeps_cast_from_ldouble : keeps.
(** What a builtin function may do to memory: it writes bytes to addresses
    that are allocated. *)
Hypothesis builtin_keeps : ∀ i m sp m' n, e_builtin E i m sp = Ok (m', n) → inv m m'.

Lemma keeps_vm_call c s : keeps (s_mem s) (vm_call E c s).
Proof.
  unfold vm_call. destruct (c_type c); try solve [keeps_tac].
  apply keeps_bind. intros a. destruct (a_func a) as [f|]; [|apply keeps_exit].
  intros s' H. apply bind_ok_inv in H as ([m' n] & Hb & [= <-]).
  by eapply builtin_keeps.
Qed.
Lemma keeps_vm_jmp c s : keeps (s_mem s) (vm_jmp c s).
Proof. unfold vm_jmp. keeps_tac. Qed.
#[local] Hint Resolve keeps_vm_call keeps_vm_jmp : keeps.

Lemma exec_code_keeps c s s' :
  exec_code E c s = Ok (Running s') → inv (s_mem s) (s_mem s').
Proof.
  assert (Hr : ∀ o, keeps (s_mem s) o → running o = Ok (Running s') → inv (s_mem s) (s_mem s')).
  { intros o Ho H. unfold running in H. ok_inv. simplify_eq. by apply Ho. }
  unfold exec_code. destruct (c_opcode c); try discriminate; apply Hr;
    unfold vm_store, vm_fzero, vm_ret, vm_clup, vm_clpop, vm_enter, vm_deref, vm_cast,
      vm_jz, vm_jnz, vm_push, PUSHIT, vm_pop, vm_depop, vm_not, vm_neg,
      vm_add, vm_sub, vm_mul, vm_div, vm_mod, vm_and, vm_or, vm_xor, vm_shl, vm_shr,
      vm_eq, vm_ne, vm_ge, vm_gt, vm_le, vm_lt, vm_arith, vm_cmp, vm_intop, vm_shift,
      vm_inc, vm_dec, incdec, vm_jmptbl, vm_save_retval, vm_setjmp, vm_longjmp, POPA;
    keeps_tac.
Qed.

End Keeps.

(** * Properties of the interpreter

    Functional correctness of the integer operators on stack words, the
    calling protocol, conversions, jump tables and [setjmp]/[longjmp]. *)

(** [m'] is [m] with the 64-bit word [v] at [a]. *)
Definition upd64 (m m' : mem) (a v : Z) : Prop :=
  mload m' a U64 = Some (wrap_u 64 v) ∧
  ∀ x, ¬ (a ≤ x < a + 8) → m' !! x = m !! x.

(** The opcodes of the two-operand integer operators (shifts apart). *)
Definition int_binop_of (o : opcode) : option binop :=
  match o with
  | VM_ADD => Some (IArith AAdd) | VM_SUB => Some (IArith ASub)
  | VM_MUL => Some (IArith AMul) | VM_DIV => Some (IArith ADiv)
  | VM_MOD => Some IMod
  | VM_AND => Some (IBit BAnd) | VM_OR => Some (IBit BOr) | VM_XOR => Some (IBit BXor)
  | VM_EQ => Some (ICmp CEq) | VM_NE => Some (ICmp CNe) | VM_GE => Some (ICmp CGe)
  | VM_GT => Some (ICmp CGt) | VM_LE => Some (ICmp CLe) | VM_LT => Some (ICmp CLt)
  | _ => None
  end.

(** A 64-bit word that represents its value at type [t]: the value extended to
    64 bits by its sign or by zeros. *)
Definition canonical (t : ity) (v : Z) : Prop := v = wrap_u 64 (conv t v).

Section Props.
Context `{FA : FloatArith} (E : vm_env).
Implicit Types s : vm_state.

(** The 64-bit word at offset [o] from the stack pointer. *)
Definition word s (o : Z) : option Z := mload (s_mem s) (at_sp E o s) U64.

Definition vstep s s' : Prop := step E s = Ok (Running s').

(** ** Words *)

Lemma mload_is_mapped m a t v : mload m a t = Some v → mapped m a (isize t).
Proof.
  unfold mload. intros H. apply mread_mapped.
  destruct (mread m a (isize t)); [by eexists|done].
Qed.

Lemma upd64_store m a t v : mapped m a (isize t) → ∃ m', mstore m a t v = Some m' ∧
  ∀ x, ¬ (a ≤ x < a + Z.of_nat (isize t)) → m' !! x = m !! x.
Proof.
  intros H. destruct (mstore_mapped m a t v H) as [m' Hm]. exists m'. split; [done|].
  intros x Hx. eapply mwrite_outside; [exact Hm|]. rewrite length_le_enc. lia.
Qed.

Lemma store_upd64 m a v : mapped m a 8 → ∃ m', mstore m a U64 v = Some m' ∧ upd64 m m' a v.
Proof.
  intros H. destruct (upd64_store m a U64 v H) as (m' & Hm & Ho).
  exists m'. repeat split; [done| |done]. by rewrite (mload_mstore_same _ _ _ _ _ Hm).
Qed.

Lemma mload_outside m m' a n b t :
  (∀ x, ¬ (a ≤ x < a + n) → m' !! x = m !! x) →
  b + Z.of_nat (isize t) ≤ a ∨ a + n ≤ b → mload m' b t = mload m b t.
Proof.
  intros H Hd. unfold mload. rewrite (mread_ext m' m b); [done|].
  intros x Hx. apply H. lia.
Qed.

Lemma rd_mload t a s v : mload (s_mem s) a t = Some v → rd t a s = Ok v.
Proof. intros H. unfold rd. by rewrite H. Qed.

Lemma rd_narrow t a s v : mload (s_mem s) a U64 = Some v → rd t a s = Ok (conv t v).
Proof.
  intros H. apply rd_mload. eapply mload_narrow; [|exact H]. destruct t; simpl; lia.
Qed.

Lemma POPI_word t s v : word s (-8) = Some v →
  POPI E t s = Ok (conv t v, set_sp (s_sp s - 8) s).
Proof.
  intros H. unfold POPI. rewrite (rd_narrow _ _ _ v) by done. simpl.
  by rewrite conv_mask, conv_conv_same.
Qed.

Lemma TOPI_word t s v : word s (-8) = Some v → TOPI E t s = Ok (conv t v).
Proof.
  intros H. unfold TOPI. rewrite (rd_narrow _ _ _ v) by done. simpl.
  by rewrite conv_mask, conv_conv_same.
Qed.

Lemma wr_word s a v : mapped (s_mem s) a 8 →
  ∃ m', wr U64 a v s = Ok (set_mem m' s) ∧ upd64 (s_mem s) m' a v.
Proof.
  intros H. destruct (store_upd64 _ _ v H) as (m' & Hm & Hu).
  exists m'. split; [|done]. unfold wr. by rewrite Hm.
Qed.

Lemma PUSHI_word s v : mapped (s_mem s) (at_sp E 0 s) 8 →
  ∃ m', PUSHI E v s = Ok (set_sp (s_sp s + 8) (set_mem m' s)) ∧
        upd64 (s_mem s) m' (at_sp E 0 s) v.
Proof.
  intros H. destruct (wr_word s _ v H) as (m' & Hm & Hu).
  exists m'. split; [|done]. unfold PUSHI. by rewrite Hm.
Qed.

Lemma word_set_sp s o n : word (set_sp (s_sp s + n) s) o = word s (n + o).
Proof. unfold word, at_sp. simpl. f_equal. lia. Qed.

Lemma word_set_sp_sub s o n : word (set_sp (s_sp s - n) s) o = word s (o - n).
Proof. unfold word, at_sp. simpl. f_equal. lia. Qed.

(** ** Integer operators *)

Lemma OP2I_word o t s va vb :
  word s (-16) = Some va → word s (-8) = Some vb →
  match c_binop o t (conv t va) (conv t vb) with
  | Ok r => ∃ m', OP2I E o t s = Ok (set_sp (s_sp s - 8) (set_mem m' s)) ∧
                  upd64 (s_mem s) m' (at_sp E (-16) s) r
  | Exit e => OP2I E o t s = Exit e
  | Undef e => OP2I E o t s = Undef e
  end.
Proof.
  intros Ha Hb. unfold OP2I. rewrite (POPI_word _ _ vb) by done. simpl.
  rewrite (TOPI_word _ _ va) by (by rewrite word_set_sp_sub). simpl.
  destruct (c_binop o t (conv t va) (conv t vb)) as [r| |]; simpl; [|done|done].
  unfold set_TOPI. destruct (wr_word (set_sp (s_sp s - 8) s)
    (at_sp E (-8) (set_sp (s_sp s - 8) s)) r) as (m' & Hm & Hu).
  { apply (mload_is_mapped _ _ U64 va). rewrite <-Ha.
    change (word (set_sp (s_sp s - 8) s) (-8) = word s (-16)). by rewrite word_set_sp_sub. }
  exists m'. split; [by rewrite Hm|].
  replace (at_sp E (-16) s) with (at_sp E (-8) (set_sp (s_sp s - 8) s)); [done|].
  unfold at_sp. simpl. lia.
Qed.

Lemma exec_int_binop o c s t :
  int_binop_of (c_opcode c) = Some o → int_optype (c_type c) = Some t →
  exec_code E c s = running (s ← OP2I E o t s; Ok (next s)).
Proof.
  intros Ho Ht. unfold exec_code.
  destruct (c_opcode c); simplify_eq/=;
    unfold vm_add, vm_sub, vm_mul, vm_div, vm_mod, vm_and, vm_or, vm_xor,
      vm_eq, vm_ne, vm_ge, vm_gt, vm_le, vm_lt, vm_arith, vm_cmp, vm_intop;
    by rewrite Ht.
Qed.

(** C20: The two-operand integer instructions (VM_ADD .. VM_LT except the
    shifts) with an integer operand type [t], executed on two stack words,
    replace them by the result of the C operation on the words converted to
    [t], extended to 64 bits, and touch no other byte; where C leaves the
    operation undefined, so does the machine. *)
Theorem int_binop_correct o c s t va vb :
  int_binop_of (c_opcode c) = Some o → int_optype (c_type c) = Some t →
  word s (-16) = Some va → word s (-8) = Some vb →
  match c_binop o t (conv t va) (conv t vb) with
  | Ok r => ∃ m', exec_code E c s = Ok (Running (next (set_sp (s_sp s - 8) (set_mem m' s)))) ∧
                  upd64 (s_mem s) m' (at_sp E (-16) s) r
  | Exit e => exec_code E c s = Exit e
  | Undef e => exec_code E c s = Undef e
  end.
Proof.
  intros Ho Ht Ha Hb. rewrite (exec_int_binop _ _ _ _ Ho Ht).
  pose proof (OP2I_word o t s va vb Ha Hb) as H.
  destruct (c_binop o t (conv t va) (conv t vb)) as [r|e|e]; [|by rewrite H..].
  destruct H as (m' & H & Hu). exists m'. by rewrite H.
Qed.

Lemma shift_count t v : 
  conv I32 (mask_of t (conv I32 v)) =
  if decide (iwidth t < 32) then wrap_u (iwidth t) v else conv I32 v.
Proof.
  pose proof (iwidth_pos t). unfold mask_of. case_decide.
  - destruct (Z.eqb_spec (iwidth t) 64); [lia|]. rewrite Z.land_ones by lia.
    fold (wrap_u (iwidth t) (conv I32 v)).
    assert (Hc : wrap_u (iwidth t) (conv I32 v) = wrap_u (iwidth t) v).
    { apply (eqm_le _ 32); [lia|]. apply (eqm_conv I32). }
    rewrite Hc. apply (conv_small I32). apply in_range_spec. simpl.
    pose proof (wrap_u_range (iwidth t) v ltac:(lia)).
    assert (2 ^ iwidth t ≤ 2 ^ 16) by (apply Z.pow_le_mono_r; destruct t; simpl in *; lia).
    lia.
  - destruct (Z.eqb_spec (iwidth t) 64); [apply (conv_conv_same I32)|].
    rewrite Z.land_ones by lia. rewrite <-(conv_conv_same I32 v) at 2.
    apply (conv_proper I32). apply (eqm_le _ (iwidth t)); [simpl; lia|].
    apply eqm_wrap_u. lia.
Qed.

Lemma exec_shift (left : bool) c s t :
  c_opcode c = (if left then VM_SHL else VM_SHR) → int_optype (c_type c) = Some t →
  exec_code E c s = running (s ← OP2S E (if left then c_shl else c_shr) t s; Ok (next s)).
Proof.
  intros Ho Ht. unfold exec_code. rewrite Ho. destruct left; unfold vm_shl, vm_shr, vm_shift; by rewrite Ht.
Qed.

Lemma OP2S_word sh t s va vb r : word s (-16) = Some va → word s (-8) = Some vb →
  sh t (conv t va) (if decide (iwidth t < 32) then wrap_u (iwidth t) vb else conv I32 vb) = Ok r →
  ∃ m', OP2S E sh t s = Ok (set_sp (s_sp s - 8) (set_mem m' s)) ∧ upd64 (s_mem s) m' (at_sp E (-16) s) r.
Proof.
  intros Ha Hb Hr. unfold OP2S. rewrite (rd_narrow _ _ _ vb) by done. simpl.
  rewrite shift_count. rewrite (POPI_word _ _ va) by (by rewrite word_set_sp_sub). simpl. rewrite Hr. simpl.
  destruct (PUSHI_word (set_sp (s_sp s - 8 - 8) s) r) as (m' & Hm & Hu).
  { apply (mload_is_mapped _ _ U64 va). rewrite <-Ha. unfold word, at_sp. simpl. f_equal. lia. }
  exists m'. simpl in Hm. replace (set_sp (s_sp s - 8 - 8) (set_sp (s_sp s - 8) s))
    with (set_sp (s_sp s - 8 - 8) s) by done. rewrite Hm. split.
  - f_equal. unfold set_sp, set_mem. simpl. f_equal. lia.
  - replace (at_sp E (-16) s) with (at_sp E 0 (set_sp (s_sp s - 8 - 8) s)); [done|].
    unfold at_sp. simpl. lia.
Qed.

(** VM_SHL and VM_SHR with an integer operand type [t] shift the second
    stack word, converted to [t], by the top word taken as an [int] (as an
    unsigned count of the same width when [t] is narrower than [int]), and
    leave the result extended to 64 bits; a count outside the width of the
    promoted type is undefined. *)
Theorem shift_correct (left : bool) c s t va vb :
  c_opcode c = (if left then VM_SHL else VM_SHR) → int_optype (c_type c) = Some t →
  word s (-16) = Some va → word s (-8) = Some vb →
  let n := if decide (iwidth t < 32) then wrap_u (iwidth t) vb else conv I32 vb in
  match (if left then c_shl else c_shr) t (conv t va) n with
  | Ok r => ∃ m', exec_code E c s = Ok (Running (next (set_sp (s_sp s - 8) (set_mem m' s)))) ∧
                  upd64 (s_mem s) m' (at_sp E (-16) s) r
  | Exit e => exec_code E c s = Exit e
  | Undef e => exec_code E c s = Undef e
  end.
Proof.
  intros Ho Ht Ha Hb n. rewrite (exec_shift left c s t Ho Ht).
  destruct ((if left then c_shl else c_shr) t (conv t va) n) as [r|e|e] eqn:Hr.
  - destruct (OP2S_word _ t s va vb r Ha Hb Hr) as (m' & H & Hu). exists m'. by rewrite H.
  - unfold OP2S. rewrite (rd_narrow _ _ _ vb) by done. simpl. rewrite shift_count. fold n.
    rewrite (POPI_word _ _ va) by (by rewrite word_set_sp_sub). simpl. by rewrite Hr.
  - unfold OP2S. rewrite (rd_narrow _ _ _ vb) by done. simpl. rewrite shift_count. fold n.
    rewrite (POPI_word _ _ va) by (by rewrite word_set_sp_sub). simpl. by rewrite Hr.
Qed.

(** Results of integer operators are canonical at the promoted type. *)
Lemma canonical_wrap t v : in_range t v = true → canonical t (wrap_u 64 v).
Proof.
  intros H. unfold canonical. by rewrite conv_u64, (conv_small t v).
Qed.

Lemma canonical_zero t v : canonical t v → v = 0 ↔ conv t v = 0.
Proof.
  intros H. unfold canonical in H. split.
  - intros ->. apply conv_small, in_range_spec. destruct t; simpl; lia.
  - intros Hz. rewrite Hz in H. rewrite H. by rewrite wrap_u_small by lia.
Qed.

(** Operator results are canonical at the result type. *)
Lemma binop_canonical o t a b r :
  in_range t a = true → in_range t b = true → c_binop o t a b = Ok r →
  canonical (match o with ICmp _ => I32 | _ => promote t end) (wrap_u 64 r) ∧
  (wrap_u 64 r = 0 ↔ r = 0).
Proof.
  intros Ha Hb Hr.
  assert (Hin : in_range (match o with ICmp _ => I32 | _ => promote t end) r = true).
  { destruct o as [o| |o|o]; simpl in Hr.
    - destruct o; simpl in Hr; try (by eapply c_result_in_range).
      destruct (b =? 0); [done|]. by eapply c_result_in_range.
    - destruct (Z.eqb_spec b 0); [done|]. ok_inv. subst r.
      pose proof (promote_range _ _ Ha) as Hpa. pose proof (promote_range _ _ Hb) as Hpb.
      rewrite in_range_spec in Hpa, Hpb |- *.
      pose proof (Z.rem_bound_pos_pos a b). pose proof (Z.rem_bound_neg_pos a b).
      pose proof (Z.rem_bound_pos_neg a b). pose proof (Z.rem_bound_neg_neg a b).
      destruct (isigned (promote t)); lia.
    - injection Hr as <-. apply promote_range. by apply z_bit_in_range.
    - injection Hr as <-. by destruct (z_cmp o a b). }
  split; [by apply canonical_wrap|].
  rewrite canonical_zero by (by apply canonical_wrap).
  by rewrite conv_u64, conv_small.
Qed.

(** ** Branches *)

Lemma fetch_step s c s' : fetch E (s_ip s) = Ok c → exec_code E c s = Ok (Running s') →
  vstep s s'.
Proof. intros Hc He. unfold vstep, step. by rewrite Hc. Qed.

Lemma jnz_word s j a v :
  c_opcode j = VM_JNZ → c_d j = DAddr a → word s (-8) = Some v → conv U64 v = v →
  exec_code E j s = Ok (Running
    (set_ip (s_ip s + (if v =? 0 then 1 else a_index a)) (set_sp (s_sp s - 8) s))).
Proof.
  intros Hj Ha Hv Hc. unfold exec_code. rewrite Hj. unfold vm_jnz.
  rewrite (POPI_word U64 _ v) by done. simpl. rewrite Hc.
  destruct (v =? 0); [done|]. unfold vm_jmp, d_addr. by rewrite Ha.
Qed.

(** A two-operand integer instruction followed by VM_JNZ pops both words
    and branches exactly when the C value of the expression is not zero,
    although VM_JNZ tests all 64 bits of the word and not its type. *)
Theorem binop_branch o c j a s t va vb r :
  fetch E (s_ip s) = Ok c → fetch E (s_ip s + 1) = Ok j →
  int_binop_of (c_opcode c) = Some o → int_optype (c_type c) = Some t →
  c_opcode j = VM_JNZ → c_d j = DAddr a →
  word s (-16) = Some va → word s (-8) = Some vb →
  c_binop o t (conv t va) (conv t vb) = Ok r →
  ∃ s1 s2, vstep s s1 ∧ vstep s1 s2 ∧
    s_ip s2 = s_ip s + 1 + (if r =? 0 then 1 else a_index a) ∧
    s_sp s2 = s_sp s - 16 ∧ s_bp s2 = s_bp s.
Proof.
  intros Hc Hj Ho Ht Hjo Hja Hva Hvb Hr.
  pose proof (exec_int_binop o c s t Ho Ht) as He.
  pose proof (OP2I_word o t s va vb Hva Hvb) as Hw. rewrite Hr in Hw.
  destruct Hw as (m' & Hw & Hm & _). rewrite Hw in He. simpl in He.
  set (s1 := next (set_sp (s_sp s - 8) (set_mem m' s))) in *.
  assert (Hw1 : word s1 (-8) = Some (wrap_u 64 r)).
  { rewrite <-Hm. unfold word, at_sp. simpl. f_equal. lia. }
  pose proof (jnz_word s1 j a _ Hjo Hja Hw1) as Hjnz.
  destruct (binop_canonical o t _ _ r (conv_range t va) (conv_range t vb) Hr) as [_ Hz].
  exists s1. eexists. split; [by eapply fetch_step|]. split.
  { eapply fetch_step; [exact Hj|]. apply Hjnz. apply conv_u64. }
  simpl. repeat split; [|lia].
  destruct (Z.eqb_spec (wrap_u 64 r) 0), (Z.eqb_spec r 0); tauto.
Qed.

(** VM_INC and VM_DEC act on the low half of a word only: on the word
    that represents the [int] -1, VM_INC followed by VM_JNZ takes the branch,
    although the value of the expression ([-1 + 1]) is zero. *)
Theorem inc_branch_wrong s i j a :
  fetch E (s_ip s) = Ok i → fetch E (s_ip s + 1) = Ok j →
  c_opcode i = VM_INC → c_opcode j = VM_JNZ → c_d j = DAddr a →
  mem_ok (s_mem s) → word s (-8) = Some (wrap_u 64 (-1)) →
  ∃ s1 s2, vstep s s1 ∧ vstep s1 s2 ∧
    rd I32 (at_sp E (-8) s1) s1 = Ok 0 ∧ s_ip s2 = s_ip s + 1 + a_index a.
Proof.
  intros Hi Hj Hio Hjo Hja Hok Hw.
  assert (Hm : mapped (s_mem s) (at_sp E (-8) s) 8) by (by eapply (mload_is_mapped _ _ U64)).
  destruct (upd64_store (s_mem s) (at_sp E (-8) s) I32 0) as (m' & Hs & Ho).
  { eapply mapped_sub; [exact Hm|lia|simpl; lia]. }
  set (s1 := next (set_mem m' s)).
  assert (H1 : exec_code E i s = Ok (Running s1)).
  { unfold exec_code. rewrite Hio. unfold vm_inc, incdec.
    rewrite (rd_narrow _ _ _ _ Hw). cbn [mbind outcome_bind].
    replace (c_result I32 (conv I32 (wrap_u 64 (-1)) + 1)) with (Ok 0) by reflexivity.
    cbn [mbind outcome_bind]. unfold wr. by rewrite Hs. }
  assert (Hw1 : word s1 (-8) = Some (0 + 2 ^ 32 * (2 ^ 32 - 1))).
  { unfold word. change (s_mem s1) with m'. change (at_sp E (-8) s1) with (at_sp E (-8) s).
    apply mload_u64_halves; [by eapply mstore_ok| |].
    - by rewrite (mload_mstore_narrow _ _ _ U32 _ _ ltac:(done) Hs).
    - rewrite (mload_outside (s_mem s) m' (at_sp E (-8) s) 4) by (done || right; lia).
      apply (mload_u64_high _ _ _ Hok Hw). }
  exists s1. eexists. split; [by eapply fetch_step|]. split.
  { eapply fetch_step; [exact Hj|].
    apply (jnz_word s1 j a _ Hjo Hja Hw1). reflexivity. }
  split; [|done]. rewrite (rd_narrow _ _ _ _ Hw1). reflexivity.
Qed.

End Props.

(** ** Instances on a concrete machine *)

(** [(short)5 * (short)-7], then [1 << 35] in a [long]. *)
Lemma int_binop_correct_witness :
  ∃ m', exec_code (demo_env []) (mkcode VM_MUL VMOP_INT16 DNone) (demo [5; wrap_u 64 (-7)]) =
      Ok (Running (next (set_sp 8 (set_mem m' (demo [5; wrap_u 64 (-7)]))))) ∧
    upd64 (s_mem (demo [5; wrap_u 64 (-7)])) m' 4096 (-35).
Proof.
  exact (int_binop_correct (demo_env []) (IArith AMul) (mkcode VM_MUL VMOP_INT16 DNone)
    (demo [5; wrap_u 64 (-7)]) I16 5 (wrap_u 64 (-7)) eq_refl eq_refl
    ltac:(vm_compute; reflexivity) ltac:(vm_compute; reflexivity)).
Defined.

Lemma shift_correct_witness :
  ∃ m', exec_code (demo_env []) (mkcode VM_SHL VMOP_INT64 DNone) (demo [1; 35]) =
      Ok (Running (next (set_sp 8 (set_mem m' (demo [1; 35]))))) ∧
    upd64 (s_mem (demo [1; 35])) m' 4096 (2 ^ 35).
Proof.
  exact (shift_correct (demo_env []) true (mkcode VM_SHL VMOP_INT64 DNone) (demo [1; 35])
    I64 1 35 eq_refl eq_refl ltac:(vm_compute; reflexivity) ltac:(vm_compute; reflexivity)).
Defined.

Lemma binop_branch_witness :
  let c := mkcode VM_SUB VMOP_INT32 DNone in
  let j := mkcode VM_JNZ VMOP_NONE (DAddr (demo_addr 7 0)) in
  ∃ s1 s2, vstep (demo_env [c; j]) (demo [3; 5]) s1 ∧ vstep (demo_env [c; j]) s1 s2 ∧
    s_ip s2 = 8 ∧ s_sp s2 = 0 ∧ s_bp s2 = 0.
Proof.
  intros c j.
  exact (binop_branch (demo_env [c; j]) (IArith ASub) c j (demo_addr 7 0) (demo [3; 5])
    I32 3 5 (-2) eq_refl eq_refl eq_refl eq_refl eq_refl eq_refl
    ltac:(vm_compute; reflexivity) ltac:(vm_compute; reflexivity) eq_refl).
Defined.

(** [int x = -1; if (x + 1) ...] *)
Lemma inc_branch_wrong_witness :
  let i := mkcode VM_INC VMOP_INT32 DNone in
  let j := mkcode VM_JNZ VMOP_NONE (DAddr (demo_addr 7 0)) in
  ∃ s1 s2, vstep (demo_env [i; j]) (demo [wrap_u 64 (-1)]) s1 ∧
    vstep (demo_env [i; j]) s1 s2 ∧
    rd I32 (at_sp (demo_env [i; j]) (-8) s1) s1 = Ok 0 ∧ s_ip s2 = 8.
Proof.
  intros i j.
  exact (inc_branch_wrong (demo_env [i; j]) (demo [wrap_u 64 (-1)]) i j (demo_addr 7 0)
    eq_refl eq_refl eq_refl eq_refl eq_refl (demo_mem_ok _ _)
    ltac:(vm_compute; reflexivity)).
Defined.
