(* ===== verification/VmMove.v ===== *)
(** * Data movement in the interpreter

    Integer conversions, pushes and pops of variables, stores and zero-filling:
    what each instruction leaves in memory and on the stack. *)

From stdpp Require Import base list gmap numbers decidable strings.
From Stdlib Require Import ZArith Lia.
From S2P Require Import Prelude Memory CType Floats CArith VmInstr VmRun VmProps.

Local Open Scope Z_scope.

(** Conversion of an integer value to the integer type [dst] of C. *)
Definition c_int_cast (dst : ctype) (x : Z) : Z :=
  if is_bool dst then Z.b2z (negb (x =? 0))
  else from_option (λ t, conv t x) x (ity_of dst).

(** The bytes [[a, a + n)] are all that [m'] has different from [m]. *)
Definition only (m m' : mem) (a n : Z) : Prop := ∀ x, ¬ (a ≤ x < a + n) → m' !! x = m !! x.

Lemma only_refl m a n : only m m a n.
Proof. intros x _. done. Qed.
Lemma only_le m m' a n b k : only m m' b k → a ≤ b → b + k ≤ a + n → only m m' a n.
Proof. intros H ?? x Hx. apply H. lia. Qed.
Lemma only_trans m1 m2 m3 a n : only m1 m2 a n → only m2 m3 a n → only m1 m3 a n.
Proof. intros H1 H2 x Hx. by rewrite H2, H1. Qed.
Lemma only_load m m' a n b t : only m m' a n →
  b + Z.of_nat (isize t) ≤ a ∨ a + n ≤ b → mload m' b t = mload m b t.
Proof. intros H Hd. by eapply mload_outside. Qed.
Lemma only_mwrite m a bs m' : mwrite m a bs = Some m' → only m m' a (Z.of_nat (length bs)).
Proof. intros H x Hx. eapply mwrite_outside; [done|lia]. Qed.
Lemma only_mstore m a t v m' : mstore m a t v = Some m' → only m m' a (Z.of_nat (isize t)).
Proof. intros H. apply only_mwrite in H. by rewrite length_le_enc in H. Qed.
Lemma upd64_only m m' a v : upd64 m m' a v → only m m' a 8.
Proof. by intros [_ H]. Qed.

Lemma ity_of_signed t k : is_integer t = true → ity_of t = Some k → is_signed t = isigned k.
Proof.
  unfold is_signed, ity_of, is_unsigned, is_bool, type_is.
  intros Hi. rewrite Hi. destruct t as [e u c v r p pc pv pr f].
  unfold type_of; simpl in *. destruct p; [by intros; simplify_eq/=|].
  destruct e, u; simpl; intros; by simplify_eq.
Qed.

Section Move.
Context `{FA : FloatArith} (E : vm_env).
Implicit Types s : vm_state.

(** ** Integer conversions *)

(** Dependencies of [wr]: a store into the top word. *)
Lemma wr_top s t v w : word E s (-8) = Some w → ∃ m',
  wr t (at_sp E (-8) s) v s = Ok (set_mem m' s) ∧
  only (s_mem s) m' (at_sp E (-8) s) 8 ∧
  mload m' (at_sp E (-8) s) t = Some (conv t v).
Proof.
  intros H. destruct (upd64_store (s_mem s) (at_sp E (-8) s) t v) as (m' & Hm & _).
  { eapply mapped_sub; [by eapply (mload_is_mapped _ _ U64)|lia|]. destruct t; simpl; lia. }
  exists m'. unfold wr. rewrite Hm. split; [done|]. split; [|by eapply mload_mstore_same].
  eapply only_le; [by eapply only_mstore|lia|]. destruct t; simpl; lia.
Qed.

Lemma cast_from_int ts tu src dst kd s v :
  is_integer dst = true → ity_of dst = Some kd → word E s (-8) = Some v →
  let x := if is_signed src then conv ts v else conv tu v in
  ∃ m', cast_from E ts tu src dst s = Ok (set_mem m' s) ∧
    only (s_mem s) m' (at_sp E (-8) s) 8 ∧
    mload m' (at_sp E (-8) s) kd = Some (if is_bool dst then if v =? 0 then 0 else 1 else conv kd x).
Proof.
  intros Hi Hd Hw x. unfold cast_from, rd.
  change (mload (s_mem s) (at_sp E (-8) s) U64) with (word E s (-8)).
  rewrite Hw. cbn [defined mbind outcome_bind]. fold x.
  unfold ity_of, is_unsigned, is_bool, type_is in *.
  assert (Hn : ∀ t, isize t = isize kd → ∀ y, ∃ m', wr t (at_sp E (-8) s) y s = Ok (set_mem m' s) ∧
    only (s_mem s) m' (at_sp E (-8) s) 8 ∧ mload m' (at_sp E (-8) s) kd = Some (conv kd y)).
  { intros t Hs y. destruct (wr_top s t y v Hw) as (m' & H1 & H2 & H3).
    exists m'. split; [done|]. split; [done|].
    rewrite (mload_narrow m' _ kd t _ ltac:(lia) H3). f_equal. apply conv_conv.
    rewrite !iwidth_isize. lia. }
  destruct dst as [e u cc vv r p pc pv pr f]. unfold type_of in *; simpl in *.
  destruct p; [done|].
  destruct e; simpl in *; try done; destruct u; simplify_eq/=;
    try (apply (Hn U8 eq_refl)); try (apply (Hn U16 eq_refl));
    try (apply (Hn U32 eq_refl)); try (apply (Hn U64 eq_refl));
    destruct (Hn U8 eq_refl (if v =? 0 then 0 else 1)) as (m' & H1 & H2 & H3);
    exists m'; rewrite H3; destruct (v =? 0); done.
Qed.

Lemma vm_cast_int c s src dst ks kd v :
  c_d c = DCast src dst → is_integer src = true → ity_of src = Some ks →
  is_integer dst = true → ity_of dst = Some kd → word E s (-8) = Some v →
  ∃ m', vm_cast E c s = Ok (next (set_mem m' s)) ∧
    only (s_mem s) m' (at_sp E (-8) s) 8 ∧
    mload m' (at_sp E (-8) s) kd = Some (if is_bool dst then if v =? 0 then 0 else 1 else conv kd (conv ks v)).
Proof.
  intros Hc Hsi Hs Hdi Hd Hw. pose proof (ity_of_signed _ _ Hsi Hs) as Hsg.
  assert (Hf : ∃ ts tu, (if isigned ks then ts else tu) = ks ∧ vm_cast E c s =
    (s ← cast_from E ts tu src dst s; Ok (next s))).
  { unfold vm_cast, d_cast. rewrite Hc. cbn [mbind outcome_bind].
    unfold ity_of in Hs. unfold is_integer, between, is_unsigned in *.
    destruct src as [e u cc vv r p pc pv pr f]. unfold type_of in *; simpl in *.
    destruct p; [done|].
    destruct e; simpl in *; try done; destruct u; simplify_eq/=; eexists _, _; by split. }
  destruct Hf as (ts & tu & Hk & Hv).
  destruct (cast_from_int ts tu src dst kd s v Hdi Hd Hw) as (m' & H1 & H2 & H3).
  exists m'. rewrite Hv, H1. split; [done|]. split; [done|]. rewrite H3, Hsg.
  replace (if isigned ks then conv ts v else conv tu v) with (conv ks v); [done|].
  destruct (isigned ks); by rewrite Hk.
Qed.

(** VM_CAST between two integer types leaves on top of the stack a word
    whose low bytes, read at the target type, are the value of the C
    conversion of the operand, and changes nothing else; for a target [_Bool]
    the operand word has to represent its value. *)
Theorem cast_int_correct c s src dst ks kd v :
  c_opcode c = VM_CAST → c_d c = DCast src dst →
  is_integer src = true → ity_of src = Some ks →
  is_integer dst = true → ity_of dst = Some kd →
  word E s (-8) = Some v → (is_bool dst = true → canonical ks v) →
  ∃ m', exec_code E c s = Ok (Running (next (set_mem m' s))) ∧
    only (s_mem s) m' (at_sp E (-8) s) 8 ∧
    mload m' (at_sp E (-8) s) kd = Some (c_int_cast dst (conv ks v)).
Proof.
  intros Ho Hc Hsi Hs Hdi Hd Hw Hb.
  destruct (vm_cast_int c s src dst ks kd v Hc Hsi Hs Hdi Hd Hw) as (m' & H1 & H2 & H3).
  exists m'. unfold exec_code. rewrite Ho, H1. split; [done|]. split; [done|].
  rewrite H3. f_equal. unfold c_int_cast. rewrite Hd. simpl. destruct (is_bool dst); [|done].
  destruct (Z.eqb_spec v 0) as [Hv0|Hnz], (Z.eqb_spec (conv ks v) 0) as [Hz|Hz]; try done.
  - destruct Hz. by apply (canonical_zero ks v (Hb eq_refl)).
  - destruct Hnz. by apply (canonical_zero ks v (Hb eq_refl)).
Qed.

(** ** Pushing a word *)

(** [m'] is [m] after [v] is pushed in state [s]. *)
Definition pushed s (v : Z) (m' : mem) : Prop :=
  mstore (s_mem s) (at_sp E 0 s) U64 v = Some m'.

Lemma PUSHI_pushed s v : mapped (s_mem s) (at_sp E 0 s) 8 →
  ∃ m', PUSHI E v s = Ok (set_sp (s_sp s + 8) (set_mem m' s)) ∧ pushed s v m'.
Proof.
  intros H. destruct (mstore_mapped _ _ U64 v H) as [m' Hm].
  exists m'. split; [|done]. unfold PUSHI, wr. by rewrite Hm.
Qed.

Lemma pushed_only s v m' : pushed s v m' → only (s_mem s) m' (at_sp E 0 s) 8.
Proof. apply only_mstore. Qed.

Lemma pushed_word s s1 v : s_sp s1 = s_sp s + 8 → pushed s v (s_mem s1) →
  word E s1 (-8) = Some (wrap_u 64 v).
Proof.
  intros Hs H. unfold word. replace (at_sp E (-8) s1) with (at_sp E 0 s)
    by (unfold at_sp; rewrite Hs; lia).
  by rewrite (mload_mstore_same _ _ _ _ _ H).
Qed.

(** VM_PUSH of an integer constant. *)
Lemma exec_push_imm c s t b :
  c_opcode c = VM_PUSH → int_optype (c_type c) = Some t → c_d c = DImm (ImmBits b) →
  mapped (s_mem s) (at_sp E 0 s) 8 →
  ∃ m', exec_code E c s = Ok (Running (next (set_sp (s_sp s + 8) (set_mem m' s)))) ∧
    pushed s (conv t b) m'.
Proof.
  intros Ho Ht Hd Hm. destruct (PUSHI_pushed s (conv t b) Hm) as (m' & H & Hu).
  exists m'. split; [|done].
  assert (Hv : vm_push E c s = (s ← PUSHIT E t b s; Ok (next s))).
  { unfold vm_push, imm_bits, d_imm. rewrite Hd. cbn [mbind outcome_bind].
    destruct (c_type c); simplify_eq/=; reflexivity. }
  unfold exec_code. rewrite Ho. rewrite Hv. unfold PUSHIT. by rewrite H.
Qed.

(** The operand type that VM_PUSH gives to a variable of integer type [t]. *)
Definition var_optype (t : ity) : optype := if isigned t then VMOP_VARI else VMOP_VARU.

(** VM_PUSH of an integer variable. *)
Lemma exec_push_var c s t a v :
  c_opcode c = VM_PUSH → c_type c = var_optype t → c_d c = DAddr a →
  a_size a = Z.of_nat (isize t) → mload (s_mem s) (at_var E a s) t = Some v →
  mapped (s_mem s) (at_sp E 0 s) 8 →
  ∃ m', exec_code E c s = Ok (Running (next (set_sp (s_sp s + 8) (set_mem m' s)))) ∧
    pushed s v m'.
Proof.
  intros Ho Ht Hd Hsz Hv Hm. destruct (PUSHI_pushed s v Hm) as (m' & H & Hu).
  exists m'. split; [|done].
  assert (Hp : push_var E (isigned t) a s = PUSHI E v s).
  { unfold push_var. rewrite Hsz. unfold rd. destruct t; simpl in *; by rewrite Hv. }
  unfold exec_code, vm_push, d_addr. rewrite Ho, Ht, Hd. cbn [mbind outcome_bind].
  unfold var_optype. destruct t; simpl in *; rewrite Hp, H; reflexivity.
Qed.

(** VM_POP of a word into an integer variable. *)
Lemma exec_pop_var c s t a v :
  c_opcode c = VM_POP → int_optype (c_type c) = Some t → c_d c = DAddr a →
  word E s (-8) = Some v → mapped (s_mem s) (at_var E a s) (isize t) →
  ∃ m', exec_code E c s = Ok (Running (next (set_sp (s_sp s - 8) (set_mem m' s)))) ∧
    mstore (s_mem s) (at_var E a s) t v = Some m'.
Proof.
  intros Ho Ht Hd Hw Hm. destruct (mstore_mapped _ _ t (conv t v) Hm) as [m' Hs].
  assert (Hsv : mstore (s_mem s) (at_var E a s) t v = Some m').
  { rewrite <-Hs. unfold mstore. f_equal. apply le_enc_proper.
    rewrite <-iwidth_isize. symmetry. apply eqm_conv. }
  exists m'. split; [|done].
  assert (Hv : vm_pop E c s = (s ← POPI_to E (at_var E a s) t s; Ok (next s))).
  { unfold vm_pop, d_addr. rewrite Hd. destruct (c_type c); simplify_eq/=; reflexivity. }
  unfold exec_code. rewrite Ho. rewrite Hv. unfold POPI_to.
  rewrite (POPI_word E t s v Hw). cbn [mbind outcome_bind]. unfold wr.
  change (s_mem (set_sp (s_sp s - 8) s)) with (s_mem s).
  by rewrite Hs.
Qed.

(** VM_STORE of the top word into an integer variable. *)
Lemma exec_store_var c s t a v :
  c_opcode c = VM_STORE → int_optype (c_type c) = Some t → c_d c = DAddr a →
  word E s (-8) = Some v → mapped (s_mem s) (at_var E a s) (isize t) →
  ∃ m', exec_code E c s = Ok (Running (next (set_mem m' s))) ∧
    mstore (s_mem s) (at_var E a s) t v = Some m'.
Proof.
  intros Ho Ht Hd Hw Hm. destruct (mstore_mapped _ _ t (conv t v) Hm) as [m' Hs].
  assert (Hsv : mstore (s_mem s) (at_var E a s) t v = Some m').
  { rewrite <-Hs. unfold mstore. f_equal. apply le_enc_proper.
    rewrite <-iwidth_isize. symmetry. apply eqm_conv. }
  exists m'. split; [|done].
  unfold exec_code, vm_store, d_addr. rewrite Ho, Hd, Ht. cbn [mbind outcome_bind].
  unfold STOREI. rewrite (rd_mload _ _ _ v) by done. cbn [mbind outcome_bind].
  rewrite conv_mask. unfold wr. by rewrite Hs.
Qed.

(** ** Variables *)

(** VM_PUSH of an integer variable followed by VM_POP into another one is
    the assignment of C: the target, read at its type, holds the value of the
    source converted to that type; the stack pointer is back where it was and
    only the target and the free stack word are written. *)
Theorem assign_var_correct s c1 c2 a b t t' v :
  c_opcode c1 = VM_PUSH → c_type c1 = var_optype t → c_d c1 = DAddr a →
  c_opcode c2 = VM_POP → int_optype (c_type c2) = Some t' → c_d c2 = DAddr b →
  a_size a = Z.of_nat (isize t) → mload (s_mem s) (at_var E a s) t = Some v →
  mapped (s_mem s) (at_sp E 0 s) 8 → mapped (s_mem s) (at_var E b s) (isize t') →
  ∃ s1 s2, exec_code E c1 s = Ok (Running s1) ∧ exec_code E c2 s1 = Ok (Running s2) ∧
    s_ip s2 = s_ip s + 2 ∧ s_sp s2 = s_sp s ∧ s_bp s2 = s_bp s ∧
    mload (s_mem s2) (at_var E b s) t' = Some (conv t' v) ∧
    (∀ x, ¬ (at_sp E 0 s ≤ x < at_sp E 8 s) →
          ¬ (at_var E b s ≤ x < at_var E b s + Z.of_nat (isize t')) →
          s_mem s2 !! x = s_mem s !! x).
Proof.
  intros Ho1 Ht1 Hd1 Ho2 Ht2 Hd2 Hsz Hv Hm Hmb.
  destruct (exec_push_var c1 s t a v Ho1 Ht1 Hd1 Hsz Hv Hm) as (m1 & H1 & Hp).
  set (s1 := next (set_sp (s_sp s + 8) (set_mem m1 s))) in *.
  assert (Hw : word E s1 (-8) = Some (wrap_u 64 v)) by (by apply (pushed_word s)).
  assert (Hb : mapped (s_mem s1) (at_var E b s1) (isize t'))
    by (by eapply mstore_mapped_stable).
  destruct (exec_pop_var c2 s1 t' b _ Ho2 Ht2 Hd2 Hw Hb) as (m2 & H2 & Hs).
  do 2 eexists. split; [exact H1|]. split; [exact H2|]. simpl.
  repeat split; try lia.
  - rewrite <-(conv_u64 t' v). exact (mload_mstore_same _ _ _ _ _ Hs).
  - intros x Hx Hbx. rewrite (only_mstore _ _ _ _ _ Hs) by exact Hbx.
    apply (pushed_only _ _ _ Hp). unfold at_sp in *. lia.
Qed.

(** Storing the value that is there changes nothing. *)
Lemma mstore_same m a t v : mem_ok m → mload m a t = Some v → mstore m a t v = Some m.
Proof.
  intros Hok H. unfold mload in H. apply bind_Some in H as (bs & Hbs & H). injection H as <-.
  assert (He : le_enc (isize t) (conv t (le_dec bs)) = bs).
  { rewrite <-(le_enc_dec bs) at 2 by (by eapply mread_bytes).
    rewrite (mread_length _ _ _ _ Hbs). apply le_enc_proper.
    rewrite <-iwidth_isize. apply eqm_conv. }
  destruct (mstore_mapped m a t (conv t (le_dec bs))) as [m' Hm].
  { apply mread_mapped. by eexists. }
  rewrite Hm. f_equal. unfold mstore in Hm. rewrite He in Hm.
  apply map_eq. intros x. rewrite (lookup_mwrite _ _ _ _ _ Hm). case_decide; [|done].
  symmetry. apply (mread_lookup _ a (isize t)); [done|].
  by rewrite (mread_length _ _ _ _ Hbs) in *.
Qed.

(** The peephole of emit_vm_load: replacing VM_POP x; VM_PUSH x by VM_STORE x
    leaves the same memory, stack and frame, when the word on the stack
    represents a value of the type of x and x does not overlap the word. *)
Theorem store_peephole s pop push st a t v :
  c_opcode pop = VM_POP → int_optype (c_type pop) = Some t → c_d pop = DAddr a →
  c_opcode push = VM_PUSH → c_type push = var_optype t → c_d push = DAddr a →
  c_opcode st = VM_STORE → int_optype (c_type st) = Some t → c_d st = DAddr a →
  a_size a = Z.of_nat (isize t) → mem_ok (s_mem s) →
  mapped (s_mem s) (at_var E a s) (isize t) →
  (at_var E a s + Z.of_nat (isize t) ≤ at_sp E (-8) s ∨ at_sp E 0 s ≤ at_var E a s) →
  word E s (-8) = Some v → canonical t v →
  ∃ s1 s2 s3, exec_code E pop s = Ok (Running s1) ∧ exec_code E push s1 = Ok (Running s2) ∧
    exec_code E st s = Ok (Running s3) ∧
    s_mem s2 = s_mem s3 ∧ s_sp s2 = s_sp s3 ∧ s_bp s2 = s_bp s3 ∧
    s_ip s2 = s_ip s + 2 ∧ s_ip s3 = s_ip s + 1.
Proof.
  intros Ho1 Ht1 Hd1 Ho2 Ht2 Hd2 Ho3 Ht3 Hd3 Hsz Hok Hmap Hdis Hw Hc.
  destruct (exec_pop_var pop s t a v Ho1 Ht1 Hd1 Hw Hmap) as (m1 & H1 & Hs1).
  destruct (exec_store_var st s t a v Ho3 Ht3 Hd3 Hw Hmap) as (m3 & H3 & Hs3).
  rewrite Hs1 in Hs3. injection Hs3 as <-.
  set (s1 := next (set_sp (s_sp s - 8) (set_mem m1 s))) in *.
  assert (Ha : at_sp E 0 s1 = at_sp E (-8) s) by (unfold at_sp; simpl; lia).
  assert (Hw1 : mload m1 (at_sp E (-8) s) U64 = Some v).
  { rewrite (only_load _ _ _ _ _ U64 (only_mstore _ _ _ _ _ Hs1)); [exact Hw|].
    unfold at_sp in *. simpl isize. lia. }
  destruct (exec_push_var push s1 t a (conv t v) Ho2 Ht2 Hd2 Hsz) as (m2 & H2 & Hp2).
  { exact (mload_mstore_same _ _ _ _ _ Hs1). }
  { rewrite Ha. by apply (mload_is_mapped _ _ U64 v). }
  do 3 eexists. split; [exact H1|]. split; [exact H2|]. split; [exact H3|]. simpl.
  repeat split; try lia. red in Hp2. simpl in Hp2. rewrite Ha in Hp2.
  assert (Hst : mstore m1 (at_sp E (-8) s) U64 (conv t v) = Some m1).
  { assert (He : mstore m1 (at_sp E (-8) s) U64 (conv t v) = mstore m1 (at_sp E (-8) s) U64 v).
    { rewrite Hc at 2. unfold mstore. f_equal. apply le_enc_proper. symmetry. by apply eqm_wrap_u. }
    rewrite He. apply mstore_same; [|done]. by eapply mstore_ok. }
  rewrite Hst in Hp2. by injection Hp2.
Qed.

(** ** Zero filling *)

Lemma mwrite_zero s a t : mapped (s_mem s) a (isize t) → ∃ m',
  wr t a 0 s = Ok (set_mem m' s) ∧ mwrite (s_mem s) a (replicate (isize t) 0) = Some m'.
Proof.
  intros H. destruct (mstore_mapped _ _ t 0 H) as [m' Hm].
  exists m'. unfold wr. rewrite Hm. split; [done|]. rewrite <-Hm. unfold mstore.
  by destruct t.
Qed.

(** VM_FZERO with a size of 1, 2, 4 or at least 8 bytes sets exactly these
    bytes of the variable to zero. *)
Theorem fzero_correct c s a :
  c_opcode c = VM_FZERO → c_d c = DAddr a →
  a_size a ∈ [1; 2; 4; 8] ∨ 8 < a_size a →
  mapped (s_mem s) (at_var E a s) (Z.to_nat (a_size a)) →
  ∃ m', exec_code E c s = Ok (Running (next (set_mem m' s))) ∧
    only (s_mem s) m' (at_var E a s) (a_size a) ∧
    ∀ x, at_var E a s ≤ x < at_var E a s + a_size a → m' !! x = Some 0.
Proof.
  intros Ho Hd Hsz Hm.
  assert (H : ∃ m', vm_fzero E c s = Ok (next (set_mem m' s)) ∧
    mwrite (s_mem s) (at_var E a s) (replicate (Z.to_nat (a_size a)) 0) = Some m').
  { unfold vm_fzero, d_addr. rewrite Hd. cbn [mbind outcome_bind].
    destruct (Z.ltb_spec 8 (a_size a)) as [Hl|Hl].
    - unfold zero. destruct (Z.ltb_spec (a_size a) 0); [lia|].
      destruct (mwrite_mapped (s_mem s) (at_var E a s) (replicate (Z.to_nat (a_size a)) 0))
        as [m' Hm']; [by rewrite length_replicate|].
      exists m'. by rewrite Hm'.
    - destruct Hsz as [Hsz|]; [|lia].
      repeat (apply elem_of_cons in Hsz as [Hsz|Hsz]); try (by apply not_elem_of_nil in Hsz);
        rewrite Hsz in *; [destruct (mwrite_zero s _ U8 Hm) as (m' & H1 & H2)
        |destruct (mwrite_zero s _ U16 Hm) as (m' & H1 & H2)
        |destruct (mwrite_zero s _ U32 Hm) as (m' & H1 & H2)
        |destruct (mwrite_zero s _ U64 Hm) as (m' & H1 & H2)];
        exists m'; by rewrite H1. }
  destruct H as (m' & H1 & H2). exists m'.
  split; [unfold exec_code; by rewrite Ho, H1|].
  assert (Hn : Z.of_nat (length (replicate (Z.to_nat (a_size a)) 0)) = a_size a).
  { rewrite length_replicate. rewrite Z2Nat.id; [done|].
    destruct Hsz as [Hsz|]; [|lia].
    repeat (apply elem_of_cons in Hsz as [->|Hsz]; [lia|]). by apply not_elem_of_nil in Hsz. }
  split.
  - rewrite <-Hn. by apply only_mwrite.
  - intros x Hx. rewrite (mwrite_inside _ _ _ _ _ H2) by lia.
    apply lookup_replicate_2. lia.
Qed.

(** VM_FZERO with a size of 3, 5, 6 or 7 bytes writes nothing: a variable of
    such a size (or a run of them that emit_vm_fill_zero has merged) keeps its
    contents. *)
Theorem fzero_skips_odd_sizes c s a :
  c_opcode c = VM_FZERO → c_d c = DAddr a → a_size a ∈ [3; 5; 6; 7] →
  exec_code E c s = Ok (Running (next s)).
Proof.
  intros Ho Hd Hsz. unfold exec_code, vm_fzero, d_addr. rewrite Ho, Hd. cbn [mbind outcome_bind].
  repeat (apply elem_of_cons in Hsz as [->|Hsz]; [done|]). by apply not_elem_of_nil in Hsz.
Qed.

End Move.

(** ** Instances on a concrete machine *)

(** The cast of the [int] 511 to [char]. *)
Lemma cast_int_correct_witness :
  let c := mkcode VM_CAST VMOP_NONE (DCast basic_type__int basic_type__char) in
  ∃ m', exec_code (demo_env []) c (demo [511]) = Ok (Running (next (set_mem m' (demo [511])))) ∧
    only (s_mem (demo [511])) m' 4096 8 ∧ mload m' 4096 I8 = Some (-1).
Proof.
  intros c.
  exact (cast_int_correct (demo_env []) c (demo [511]) basic_type__int basic_type__char
    I32 I8 511 eq_refl eq_refl eq_refl eq_refl eq_refl eq_refl ltac:(vm_compute; reflexivity)
    ltac:(discriminate)).
Defined.

(** [int a; short b; b = a]: the variables are the first two words. *)
Definition demo_vars : vm_state := demo [65537; 0].

Lemma assign_var_correct_witness :
  let push := mkcode VM_PUSH VMOP_VARI (DAddr (demo_addr 0 4)) in
  let pop := mkcode VM_POP VMOP_INT16 (DAddr (demo_addr 8 2)) in
  ∃ s1 s2, exec_code (demo_env []) push demo_vars = Ok (Running s1) ∧
    exec_code (demo_env []) pop s1 = Ok (Running s2) ∧
    s_sp s2 = 16 ∧ mload (s_mem s2) 4104 I16 = Some 1.
Proof.
  intros push pop.
  destruct (assign_var_correct (demo_env []) demo_vars push pop (demo_addr 0 4)
    (demo_addr 8 2) I32 I16 65537) as (s1 & s2 & H1 & H2 & _ & H3 & _ & H4 & _);
    try demo_compute.
  exists s1, s2. split; [exact H1|]. split; [exact H2|]. split; [exact H3|exact H4].
Defined.

Lemma store_peephole_witness :
  let x := DAddr (demo_addr 0 2) in
  let v := wrap_u 64 (-5) in
  ∃ s1 s2 s3, exec_code (demo_env []) (mkcode VM_POP VMOP_INT16 x) (demo [0; v]) = Ok (Running s1) ∧
    exec_code (demo_env []) (mkcode VM_PUSH VMOP_VARI x) s1 = Ok (Running s2) ∧
    exec_code (demo_env []) (mkcode VM_STORE VMOP_INT16 x) (demo [0; v]) = Ok (Running s3) ∧
    s_mem s2 = s_mem s3.
Proof.
  intros x v.
  destruct (store_peephole (demo_env []) (demo [0; v]) (mkcode VM_POP VMOP_INT16 x)
    (mkcode VM_PUSH VMOP_VARI x) (mkcode VM_STORE VMOP_INT16 x) (demo_addr 0 2) I16 v)
    as (s1 & s2 & s3 & H1 & H2 & H3 & H4 & _); try demo_compute.
  exists s1, s2, s3. split; [exact H1|]. split; [exact H2|]. split; [exact H3|exact H4].
Defined.

Lemma fzero_correct_witness :
  let c := mkcode VM_FZERO VMOP_NONE (DAddr (demo_addr 8 4)) in
  ∃ m', exec_code (demo_env []) c (demo [1; -1]) = Ok (Running (next (set_mem m' (demo [1; -1])))) ∧
    only (s_mem (demo [1; -1])) m' 4104 4 ∧ ∀ x, 4104 ≤ x < 4108 → m' !! x = Some 0.
Proof.
  intros c.
  apply (fzero_correct (demo_env []) c (demo [1; -1]) (demo_addr 8 4) eq_refl eq_refl).
  - left. right. right. left.
  - demo_compute.
Defined.

Lemma fzero_skips_odd_sizes_witness :
  let c := mkcode VM_FZERO VMOP_NONE (DAddr (demo_addr 8 3)) in
  exec_code (demo_env []) c (demo [1; -1]) = Ok (Running (next (demo [1; -1]))).
Proof.
  intros c.
  apply (fzero_skips_odd_sizes (demo_env []) c (demo [1; -1]) (demo_addr 8 3) eq_refl eq_refl).
  left.
Defined.

(** ** Observable differences *)

(** What a program returns that leaves the word on top of its stack: it saves
    it as the exit status and halts. *)
Definition demo_run (p : list vm_code) (ws : list Z) : option (outcome Z) :=
  run (demo_env (p ++ [mkcode VM_SAVE_RETVAL VMOP_NONE DNone; mkcode VM_HALT VMOP_NONE DNone]))
    20 (demo ws).

(** [int i = 65536; short s; s = i ? ..]: VM_STORE keeps the unconverted word,
    VM_POP and VM_PUSH do not, and VM_JNZ sees the difference. *)
Example store_peephole_observable :
  let s := DAddr (demo_addr 0 2) in
  let cast := mkcode VM_CAST VMOP_NONE (DCast basic_type__int basic_type__short) in
  let test := [mkcode VM_JNZ VMOP_NONE (DAddr (demo_addr 3 0));
               mkcode VM_PUSH VMOP_INT32 (DImm (ImmBits 0));
               mkcode VM_JMP VMOP_NONE (DAddr (demo_addr 2 0));
               mkcode VM_PUSH VMOP_INT32 (DImm (ImmBits 1))] in
  demo_run ([cast; mkcode VM_POP VMOP_INT16 s; mkcode VM_PUSH VMOP_VARI s] ++ test) [0; 65536] =
    Some (Ok 0) ∧
  demo_run ([cast; mkcode VM_STORE VMOP_INT16 s] ++ test) [0; 65536] = Some (Ok 1).
Proof. split; vm_compute; reflexivity. Qed.

(** [(double)-1] is computed from the word as an unsigned number. *)
Example cast_negative_to_double :
  let c := mkcode VM_CAST VMOP_NONE (DCast basic_type__int basic_type__double) in
  mload (s_mem (after (demo_env []) c (demo [wrap_u 64 (-1)]))) 4096 U64 =
    Some (f_of_z F64 18446744073709551616) ∧
  f_of_z F64 (-1) ≠ f_of_z F64 18446744073709551616.
Proof. split; [vm_compute; reflexivity|vm_compute; congruence]. Qed.
