(* ===== verification/VmCalls.v ===== *)
(** * Calls, jump tables and non-local jumps of the interpreter

    The frame protocol of VM_CALL, VM_ENTER, VM_RET and VM_CLUP, the dispatch of
    VM_JMPTBL, and VM_SETJMP with VM_LONGJMP. *)

From stdpp Require Import base list gmap numbers decidable strings.
From Stdlib Require Import ZArith Lia.
From S2P Require Import Prelude Memory CType Floats CArith VmInstr VmRun VmProps VmMove.

Local Open Scope Z_scope.

Section Calls.
Context `{FA : FloatArith} (E : vm_env).
Implicit Types s : vm_state.

(** ** Moving a result *)

Lemma mcopy_mapped m d r n : mapped m r n → mapped m d n → is_Some (mcopy m d r n).
Proof.
  intros Hr Hd. unfold mcopy. apply mread_mapped in Hr as [bs Hbs]. rewrite Hbs. simpl.
  apply mwrite_mapped. by rewrite (mread_length _ _ _ _ Hbs).
Qed.

Lemma mcopy_spec m d r n m' : mcopy m d r n = Some m' →
  only m m' d (Z.of_nat n) ∧ mread m' d n = mread m r n.
Proof.
  unfold mcopy. intros H. apply bind_Some in H as (bs & Hbs & H).
  pose proof (mread_length _ _ _ _ Hbs) as Hl. split.
  - rewrite <-Hl. by eapply only_mwrite.
  - rewrite Hbs, <-Hl. by eapply mread_mwrite_same.
Qed.

(** A word or an object is moved as the bytes that it is made of. *)
Lemma move_result_copies s d r n : 8 < n ∨ n = 8 → mem_ok (s_mem s) →
  mapped (s_mem s) r (Z.to_nat n) → mapped (s_mem s) d (Z.to_nat n) →
  ∃ m', move_result d r n s = Ok (set_mem m' s) ∧ only (s_mem s) m' d n ∧
    mread m' d (Z.to_nat n) = mread (s_mem s) r (Z.to_nat n).
Proof.
  intros Hn Hok Hr Hd. destruct (mcopy_mapped _ _ _ _ Hr Hd) as [m' Hm].
  exists m'. destruct (mcopy_spec _ _ _ _ _ Hm) as [Ho Hrd].
  rewrite Z2Nat.id in Ho by lia. split; [|done].
  unfold move_result. destruct (Z.ltb_spec 8 n).
  - unfold copy. destruct (Z.ltb_spec n 0); [lia|]. by rewrite Hm.
  - assert (n = 8) as -> by lia. change (Z.to_nat 8) with 8%nat in *.
    unfold mcopy in Hm. apply bind_Some in Hm as (bs & Hbs & Hm).
    unfold rd, mload. change (isize U64) with 8%nat. rewrite Hbs.
    cbn [mbind option_bind outcome_bind defined].
    unfold wr, mstore. change (isize U64) with 8%nat.
    replace (le_enc 8 (conv U64 (le_dec bs))) with bs; [by rewrite Hm|].
    rewrite <-(le_enc_dec bs) at 1 by (by eapply mread_bytes).
    rewrite (mread_length _ _ _ _ Hbs). apply le_enc_proper. symmetry.
    apply (eqm_conv U64).
Qed.

(** ** The frame protocol *)

Lemma pad8_cases n : 0 ≤ n → 8 < pad8 n ∨ pad8 n = 8.
Proof. intros H. pose proof (pad8_spec n H). lia. Qed.

Lemma exec_call c s a : c_opcode c = VM_CALL → c_type c = VMOP_FUNCADDR → c_d c = DAddr a →
  mapped (s_mem s) (at_sp E 0 s) 8 →
  ∃ m', exec_code E c s =
      Ok (Running (set_ip (a_index a) (set_sp (s_sp s + 8) (set_mem m' s)))) ∧
    pushed E s (s_ip s + 1) m'.
Proof.
  intros Ho Ht Hd Hm. destruct (PUSHI_pushed E s (s_ip s + 1) Hm) as (m' & H & Hp).
  exists m'. split; [|done]. unfold exec_code, vm_call, d_addr. rewrite Ho, Ht, Hd.
  cbn [mbind outcome_bind]. by rewrite H.
Qed.

Lemma exec_enter c s n : c_opcode c = VM_ENTER → c_d c = DSize n →
  mapped (s_mem s) (at_sp E 0 s) 8 →
  ∃ m', exec_code E c s = Ok (Running
      (next (set_sp (s_sp s + 8 + n) (set_bp (s_sp s + 8) (set_mem m' s))))) ∧
    pushed E s (s_bp s) m'.
Proof.
  intros Ho Hd Hm. destruct (PUSHI_pushed E s (s_bp s) Hm) as (m' & H & Hp).
  exists m'. split; [|done]. unfold exec_code, vm_enter, d_size. rewrite Ho, Hd.
  cbn [mbind outcome_bind]. by rewrite H.
Qed.

Lemma exec_ret c s size ip bp :
  c_opcode c = VM_RET → c_d c = DSize size → 0 ≤ size → mem_ok (s_mem s) →
  mload (s_mem s) (e_stack E + s_bp s - 8) U64 = Some (wrap_u 64 bp) →
  mload (s_mem s) (e_stack E + s_bp s - 16) U64 = Some (wrap_u 64 ip) →
  in_range I64 ip = true → in_range I64 bp = true →
  in_range I32 (s_sp s - pad8 size) = true →
  mapped (s_mem s) (at_sp E (- pad8 size) s) (Z.to_nat (pad8 size)) →
  mapped (s_mem s) (e_stack E + s_bp s - 16) (Z.to_nat (pad8 size)) →
  ∃ m', exec_code E c s = Ok (Running (VmState m' ip (s_bp s - 16 + pad8 size) bp (s_gp s)
      (s_retval s) (Some (pad8 size)))) ∧
    only (s_mem s) m' (e_stack E + s_bp s - 16) (pad8 size) ∧
    mread m' (e_stack E + s_bp s - 16) (Z.to_nat (pad8 size)) =
    mread (s_mem s) (at_sp E (- pad8 size) s) (Z.to_nat (pad8 size)).
Proof.
  intros Ho Hd Hsz Hok Hbp Hip Rip Rbp Rvp Msrc Mdst.
  unfold exec_code, vm_ret, d_size. rewrite Ho, Hd. cbn [mbind outcome_bind].
  set (n := pad8 size) in *.
  rewrite (POPI_word E U64 (set_sp (s_bp s) s) (wrap_u 64 bp))
    by (rewrite <-Hbp; unfold word, at_sp; simpl; f_equal; lia).
  cbn [mbind outcome_bind].
  set (s2 := set_bp _ _).
  rewrite (POPI_word E U64 s2 (wrap_u 64 ip))
    by (rewrite <-Hip; unfold word, at_sp; simpl; f_equal; lia).
  cbn [mbind outcome_bind].
  set (s3 := set_ip _ _).
  destruct (move_result_copies s3 (e_stack E + s_bp s - 16) (at_sp E (- n) s) n)
    as (m' & Hmv & Ho' & Hrd); [by apply pad8_cases|done..|].
  exists m'. rewrite (conv_small I32 (s_sp s - n)) by done.
  replace (at_sp E 0 s3) with (e_stack E + s_bp s - 16) by (unfold at_sp; simpl; lia).
  replace (e_stack E + (s_sp s - n)) with (at_sp E (- n) s) by (unfold at_sp; lia).
  rewrite Hmv. cbn [mbind outcome_bind]. split; [|done].
  unfold running. cbn [mbind outcome_bind].
  assert (Hc : ∀ x, in_range I64 x = true → conv I64 (conv U64 (wrap_u 64 x)) = x).
  { intros x Hx. rewrite (conv_conv I64 U64) by done. rewrite conv_u64. by apply conv_small. }
  assert (Hs3 : s3 = VmState (s_mem s) ip (s_bp s - 8 - 8) bp (s_gp s) (s_retval s) (s_retsize s)).
  { unfold s3, s2. by rewrite !Hc by done. }
  clearbody s3. subst s3. unfold set_retsize, set_sp, set_mem. cbn [s_mem s_ip s_sp s_bp s_gp
    s_retval s_retsize]. by replace (s_bp s - 8 - 8 + n) with (s_bp s - 16 + n) by lia.
Qed.

(** C21: A call returns: when VM_CALL and VM_ENTER have run and the body reaches
    VM_RET with its frame pointer and the two saved words intact, execution goes
    on after the VM_CALL with the frame pointer of the caller, the stack pointer
    of the caller advanced by the padded size of the result, and the bytes of
    the result on top; no other byte changes. *)
Theorem call_returns s call enter ret a n size :
  c_opcode call = VM_CALL → c_type call = VMOP_FUNCADDR → c_d call = DAddr a →
  c_opcode enter = VM_ENTER → c_d enter = DSize n →
  c_opcode ret = VM_RET → c_d ret = DSize size → 0 ≤ size →
  mapped (s_mem s) (at_sp E 0 s) (Z.to_nat (8 + pad8 size)) →
  in_range I64 (s_ip s + 1) = true → in_range I64 (s_bp s) = true →
  ∃ s1 s2, exec_code E call s = Ok (Running s1) ∧ s_ip s1 = a_index a ∧
    exec_code E enter s1 = Ok (Running s2) ∧
    s_bp s2 = s_sp s + 16 ∧ s_sp s2 = s_sp s + 16 + n ∧ s_ip s2 = a_index a + 1 ∧
    ∀ s3, mem_ok (s_mem s3) → s_bp s3 = s_bp s2 →
      (∀ x, at_sp E 0 s ≤ x < at_sp E 16 s → s_mem s3 !! x = s_mem s2 !! x) →
      mapped (s_mem s3) (at_sp E 0 s) (Z.to_nat (pad8 size)) →
      mapped (s_mem s3) (at_sp E (- pad8 size) s3) (Z.to_nat (pad8 size)) →
      in_range I32 (s_sp s3 - pad8 size) = true →
      ∃ s4, exec_code E ret s3 = Ok (Running s4) ∧
        s_ip s4 = s_ip s + 1 ∧ s_bp s4 = s_bp s ∧ s_sp s4 = s_sp s + pad8 size ∧
        s_retsize s4 = Some (pad8 size) ∧
        mread (s_mem s4) (at_sp E (- pad8 size) s4) (Z.to_nat (pad8 size)) =
        mread (s_mem s3) (at_sp E (- pad8 size) s3) (Z.to_nat (pad8 size)) ∧
        only (s_mem s3) (s_mem s4) (at_sp E 0 s) (pad8 size).
Proof.
  intros Hco Hct Hcd Heo Hed Hro Hrd Hsz Hm Rip Rbp.
  pose proof (pad8_spec size Hsz) as (Hp & _).
  destruct (exec_call call s a Hco Hct Hcd) as (m1 & H1 & P1).
  { eapply mapped_sub; [exact Hm|lia|lia]. }
  set (s1 := set_ip _ _) in H1.
  assert (A1 : at_sp E 0 s1 = at_sp E 8 s) by (unfold at_sp; simpl; lia).
  destruct (exec_enter enter s1 n Heo Hed) as (m2 & H2 & P2).
  { rewrite A1. eapply mstore_mapped_stable; [exact P1|].
    eapply mapped_sub; [exact Hm|unfold at_sp; lia|unfold at_sp; lia]. }
  exists s1. eexists. split; [exact H1|]. split; [done|]. split; [exact H2|].
  simpl. split; [lia|]. split; [lia|]. split; [done|].
  intros s3 Hok Hbp Hfr Md Ms Rvp.
  assert (B : e_stack E + s_bp s3 - 16 = at_sp E 0 s) by (rewrite Hbp; unfold at_sp; simpl; lia).
  red in P2. rewrite A1 in P2. simpl in P2.
  destruct (exec_ret ret s3 size (s_ip s + 1) (s_bp s) Hro Hrd Hsz Hok) as (m4 & H4 & O4 & R4).
  - replace (e_stack E + s_bp s3 - 8) with (at_sp E 8 s) by (unfold at_sp in *; lia).
    erewrite (mload_ext (s_mem s3) m2); [exact (mload_mstore_same _ _ _ _ _ P2)|].
    intros x Hx. apply Hfr. unfold at_sp in *. simpl in Hx. lia.
  - rewrite B. erewrite (mload_ext (s_mem s3) m2).
    + rewrite (mload_mstore_disj _ _ _ _ _ _ _ P2) by (unfold at_sp; simpl; lia).
      exact (mload_mstore_same _ _ _ _ _ P1).
    + intros x Hx. apply Hfr. unfold at_sp in *. simpl in Hx. lia.
  - done.
  - done.
  - done.
  - done.
  - by rewrite B.
  - eexists. split; [exact H4|]. simpl. rewrite B in *. repeat split; try done; try lia.
    rewrite <-R4. f_equal. unfold at_sp in *. simpl. lia.
Qed.

(** After a call whose result takes [r] bytes, VM_CLUP removes the [n] bytes
    of arguments below the result and keeps the bytes of the result on top. *)
Theorem clup_correct c s n r :
  c_opcode c = VM_CLUP → c_d c = DSize n → 0 < n → s_retsize s = Some r → 8 < r ∨ r = 8 →
  mem_ok (s_mem s) → in_range I32 (s_sp s - r) = true →
  mapped (s_mem s) (at_sp E (- r - n) s) (Z.to_nat (r + n)) →
  ∃ m', exec_code E c s = Ok (Running (next (set_sp (s_sp s - n) (set_mem m' s)))) ∧
    only (s_mem s) m' (at_sp E (- r - n) s) r ∧
    mread m' (at_sp E (- r - n) s) (Z.to_nat r) =
    mread (s_mem s) (at_sp E (- r) s) (Z.to_nat r).
Proof.
  intros Ho Hd Hn Hr Hr8 Hok Rvp Hm. unfold exec_code, vm_clup, d_size. rewrite Ho, Hd, Hr.
  cbn [mbind outcome_bind defined]. unfold c_assert.
  destruct (Z.ltb_spec 0 n); [|lia]. cbn [mbind outcome_bind].
  rewrite (conv_small I32) by done.
  destruct (move_result_copies (set_sp (s_sp s - r - n) s) (at_sp E (- r - n) s)
    (at_sp E (- r) s) r Hr8 Hok) as (m' & H1 & H2 & H3).
  { eapply mapped_sub; [exact Hm|unfold at_sp; lia|unfold at_sp; lia]. }
  { eapply mapped_sub; [exact Hm|unfold at_sp; lia|unfold at_sp; lia]. }
  exists m'. split; [|done].
  replace (at_sp E 0 (set_sp (s_sp s - r - n) s)) with (at_sp E (- r - n) s)
    by (unfold at_sp; simpl; lia).
  replace (e_stack E + (s_sp s - r)) with (at_sp E (- r) s) by (unfold at_sp; lia).
  rewrite H1. cbn [mbind outcome_bind]. unfold running. cbn [mbind outcome_bind].
  do 2 f_equal. unfold next, set_ip, set_sp, set_mem. simpl. f_equal. lia.
Qed.

(** ** Jump tables *)

(** VM_JMPTBL pops an index and jumps through the table entry at that
    position after the instruction; entry offsets are relative to the entry. *)
Theorem jmptbl_dispatch c s i e a :
  c_opcode c = VM_JMPTBL → word E s (-8) = Some i → 0 ≤ i < 2 ^ 32 - 1 →
  fetch E (s_ip s + 1 + i) = Ok e → c_d e = DAddr a →
  exec_code E c s = Ok (Running (set_ip (s_ip s + 1 + i + a_index a) (set_sp (s_sp s - 8) s))).
Proof.
  intros Ho Hw Hi Hf Hd. unfold exec_code, vm_jmptbl. rewrite Ho.
  rewrite (POPI_word E U32 s i Hw). cbn [mbind outcome_bind].
  rewrite (conv_small U32 i) by (apply in_range_spec; simpl; lia).
  rewrite (conv_small U32 (i + 1)) by (apply in_range_spec; simpl; lia).
  simpl s_ip. replace (s_ip s + (i + 1)) with (s_ip s + 1 + i) by lia.
  rewrite Hf. cbn [mbind outcome_bind]. unfold vm_jmp, d_addr. rewrite Hd. reflexivity.
Qed.

(** ** Non-local jumps *)

Lemma wr_i64 s a v : mapped (s_mem s) a 8 →
  ∃ m', wr I64 a v s = Ok (set_mem m' s) ∧ mstore (s_mem s) a I64 v = Some m'.
Proof.
  intros H. destruct (mstore_mapped (s_mem s) a I64 v H) as [m' Hm].
  exists m'. unfold wr. by rewrite Hm.
Qed.

(** VM_SETJMP writes the three registers to the buffer and 0 over its address. *)
Lemma exec_setjmp c s buf :
  c_opcode c = VM_SETJMP → word E s (-8) = Some buf → mapped (s_mem s) buf 24 →
  (buf + 24 ≤ at_sp E (-8) s ∨ at_sp E 0 s ≤ buf) →
  in_range I64 (s_ip s + 1) = true → in_range I64 (s_bp s) = true →
  in_range I64 (s_sp s) = true →
  ∃ m', exec_code E c s = Ok (Running (next (set_mem m' s))) ∧
    mload m' (at_sp E (-8) s) U64 = Some 0 ∧
    mload m' buf I64 = Some (s_ip s + 1) ∧ mload m' (buf + 8) I64 = Some (s_bp s) ∧
    mload m' (buf + 16) I64 = Some (s_sp s).
Proof.
  intros Ho Hw Hm Hd R1 R2 R3.
  assert (Mt : mapped (s_mem s) (at_sp E (-8) s) 8) by (by apply (mload_is_mapped _ _ U64 buf)).
  destruct (wr_i64 (next s) buf (s_ip s + 1)) as (m1 & W1 & S1).
  { eapply mapped_sub; [exact Hm|lia|lia]. }
  destruct (wr_i64 (set_mem m1 (next s)) (buf + 8) (s_bp s)) as (m2 & W2 & S2).
  { eapply mapped_sub; [eapply mstore_mapped_stable; [exact S1|exact Hm]|lia|lia]. }
  destruct (wr_i64 (set_mem m2 (next s)) (buf + 16) (s_sp s)) as (m3 & W3 & S3).
  { eapply mapped_sub; [eapply mstore_mapped_stable; [exact S2|];
      eapply mstore_mapped_stable; [exact S1|exact Hm]|lia|lia]. }
  destruct (mstore_mapped m3 (at_sp E (-8) s) U64 0) as [m4 S4].
  { eapply mstore_mapped_stable; [exact S3|]. eapply mstore_mapped_stable; [exact S2|].
    by eapply mstore_mapped_stable. }
  exists m4. unfold at_sp in *. split.
  - unfold exec_code, vm_setjmp. rewrite Ho.
    rewrite (rd_mload U64 _ s buf) by exact Hw. cbn [mbind outcome_bind].
    change (s_ip (next s)) with (s_ip s + 1). rewrite W1. cbn [mbind outcome_bind].
    change (set_mem m1 (next s)) with (set_mem m1 (next s)) in W2. simpl s_bp. rewrite W2.
    cbn [mbind outcome_bind]. simpl s_sp.
    change (set_mem m2 (set_mem m1 (next s))) with (set_mem m2 (next s)). rewrite W3.
    unfold wr. unfold at_sp. simpl. by rewrite S4.
  - simpl in S2, S3. split; [by rewrite (mload_mstore_same _ _ _ _ _ S4)|].
    rewrite !(mload_mstore_disj _ _ _ _ _ _ I64 S4) by (simpl; lia).
    rewrite (mload_mstore_same _ _ _ _ _ S3).
    rewrite !(mload_mstore_disj _ _ _ _ _ _ I64 S3) by (simpl; lia).
    rewrite (mload_mstore_same _ _ _ _ _ S2).
    rewrite (mload_mstore_disj _ _ _ _ _ _ I64 S2) by (simpl; lia).
    rewrite (mload_mstore_same _ _ _ _ _ S1).
    by rewrite !conv_small.
Qed.

Lemma exec_longjmp c s buf r ip bp sp :
  c_opcode c = VM_LONGJMP → word E s (-8) = Some buf → word E s (-16) = Some r →
  mload (s_mem s) buf I64 = Some ip → mload (s_mem s) (buf + 8) I64 = Some bp →
  mload (s_mem s) (buf + 16) I64 = Some sp → mapped (s_mem s) (e_stack E + sp) 8 →
  ∃ m', exec_code E c s =
      Ok (Running (VmState m' ip (sp + 8) bp (s_gp s) (s_retval s) (s_retsize s))) ∧
    mstore (s_mem s) (e_stack E + sp) U64 (conv I64 r) = Some m'.
Proof.
  intros Ho Hw Hr H1 H2 H3 Hm.
  destruct (PUSHI_pushed E (set_sp sp (set_bp bp (set_ip ip s))) (conv I64 r)) as (m' & Hp & Hs).
  { unfold at_sp. simpl. by rewrite Z.add_0_r. }
  exists m'. split.
  - unfold exec_code, vm_longjmp. rewrite Ho.
    rewrite (rd_mload U64 _ s buf Hw). cbn [mbind outcome_bind].
    rewrite (rd_mload U64 _ s r Hr). cbn [mbind outcome_bind].
    rewrite (rd_mload I64 _ s ip H1). cbn [mbind outcome_bind].
    rewrite (rd_mload I64 _ s bp H2). cbn [mbind outcome_bind].
    rewrite (rd_mload I64 _ s sp H3). cbn [mbind outcome_bind].
    by rewrite Hp.
  - red in Hs. unfold at_sp in Hs. simpl in Hs. by rewrite Z.add_0_r in Hs.
Qed.

(** C37: VM_LONGJMP through a buffer that VM_SETJMP has filled and that is intact
    goes back to the instruction after the VM_SETJMP, with its frame pointer and
    the value [r] on top of the stack (0 when [r] is 0); the stack is then one
    word deeper than after the direct return, whose result replaces the
    argument. *)
Theorem longjmp_returns_to_setjmp sj lj s buf :
  c_opcode sj = VM_SETJMP → c_opcode lj = VM_LONGJMP →
  word E s (-8) = Some buf → mapped (s_mem s) buf 24 →
  (buf + 24 ≤ at_sp E (-8) s ∨ at_sp E 0 s ≤ buf) →
  in_range I64 (s_ip s + 1) = true → in_range I64 (s_bp s) = true →
  in_range I64 (s_sp s) = true →
  ∃ s1, exec_code E sj s = Ok (Running s1) ∧
    s_ip s1 = s_ip s + 1 ∧ s_sp s1 = s_sp s ∧ word E s1 (-8) = Some 0 ∧
    ∀ s2 r, word E s2 (-8) = Some buf → word E s2 (-16) = Some r →
      (∀ x, buf ≤ x < buf + 24 → s_mem s2 !! x = s_mem s1 !! x) →
      mapped (s_mem s2) (at_sp E 0 s) 8 →
      ∃ s3, exec_code E lj s2 = Ok (Running s3) ∧
        s_ip s3 = s_ip s1 ∧ s_bp s3 = s_bp s1 ∧ s_sp s3 = s_sp s1 + 8 ∧
        word E s3 (-8) = Some (wrap_u 64 r).
Proof.
  intros Ho1 Ho2 Hw Hm Hd R1 R2 R3.
  destruct (exec_setjmp sj s buf Ho1 Hw Hm Hd R1 R2 R3) as (m1 & H1 & T1 & L1 & L2 & L3).
  eexists. split; [exact H1|]. split; [done|]. split; [done|]. split; [exact T1|].
  intros s2 r Hw2 Hr Hf Hmap. simpl in Hf.
  destruct (exec_longjmp lj s2 buf r (s_ip s + 1) (s_bp s) (s_sp s) Ho2 Hw2 Hr)
    as (m3 & H3 & S3).
  1-3: rewrite (mload_ext _ m1); [done|]; intros x Hx; apply Hf; simpl in Hx; lia.
  { unfold at_sp in Hmap. by rewrite Z.add_0_r in Hmap. }
  eexists. split; [exact H3|]. simpl. repeat split; try done.
  unfold word, at_sp. simpl. replace (e_stack E + (s_sp s + 8) + -8) with (e_stack E + s_sp s) by lia.
  rewrite (mload_mstore_same _ _ _ _ _ S3). f_equal.
  change (wrap_u 64) with (conv U64).
  apply conv_proper. apply (eqm_conv I64).
Qed.

End Calls.

(** ** Instances on a concrete machine *)

Definition demo_call := mkcode VM_CALL VMOP_FUNCADDR (DAddr (demo_addr 5 0)).
Definition demo_enter := mkcode VM_ENTER VMOP_NONE (DSize 8).
Definition demo_ret := mkcode VM_RET VMOP_NONE (DSize 4).

(** A function whose only local variable is its result. *)
Lemma call_returns_witness :
  let E := demo_env [] in
  let s := demo [7; 8] in
  let s2 := after E demo_enter (after E demo_call s) in
  ∃ s4, exec_code E demo_ret s2 = Ok (Running s4) ∧ s_ip s4 = 1 ∧ s_bp s4 = 0 ∧ s_sp s4 = 24.
Proof.
  intros E s s2. subst E s.
  edestruct (call_returns (demo_env []) (demo [7; 8]) demo_call demo_enter demo_ret
    (demo_addr 5 0) 8 4) as (s1' & s2' & H1 & _ & H2 & _ & _ & _ & H); try demo_compute.
  assert (Hs : s2 = s2') by (unfold s2; by rewrite (after_running _ _ _ _ H1), (after_running _ _ _ _ H2)).
  destruct (H s2) as (s4 & H4 & R1 & R2 & R3 & _); try demo_compute.
  - by rewrite Hs.
  - intros. by rewrite Hs.
  - exists s4. split; [exact H4|]. rewrite R1, R2, R3.
    split; [vm_compute; reflexivity|]. split; vm_compute; reflexivity.
Defined.

Lemma clup_correct_witness :
  ∃ m', exec_code (demo_env []) (mkcode VM_CLUP VMOP_NONE (DSize 16))
      (set_retsize 8 (demo [5; 6; 42])) =
      Ok (Running (next (set_sp 8 (set_mem m' (set_retsize 8 (demo [5; 6; 42])))))) ∧
    mread m' 4096 8 = Some (le_enc 8 42).
Proof.
  destruct (clup_correct (demo_env []) (mkcode VM_CLUP VMOP_NONE (DSize 16))
    (set_retsize 8 (demo [5; 6; 42])) 16 8) as (m' & H1 & _ & H3); try demo_compute.
  exists m'. split; [exact H1|]. etrans; [exact H3|]. vm_compute. reflexivity.
Defined.

Lemma jmptbl_dispatch_witness :
  let e := mkcode VM_TBL_ENTRY VMOP_NONE (DAddr (demo_addr 10 0)) in
  let c := mkcode VM_JMPTBL VMOP_NONE DNone in
  exec_code (demo_env [c; e; e]) c (demo [1]) =
  Ok (Running (set_ip 12 (set_sp 0 (demo [1])))).
Proof.
  intros e c. apply (jmptbl_dispatch (demo_env [c; e; e]) c (demo [1]) 1 e (demo_addr 10 0));
    try demo_compute. lia.
Defined.

(** The jump buffer is the three words below the stack pointer. *)
Lemma longjmp_returns_to_setjmp_witness :
  let E := demo_env [] in
  let sj := mkcode VM_SETJMP VMOP_NONE DNone in
  let lj := mkcode VM_LONGJMP VMOP_NONE DNone in
  let s1 := after E sj (demo [0; 0; 0; 4096]) in
  let s2 := VmState (default ∅ (mwrite (s_mem s1) (4096 + 32) (le_enc 8 5 ++ le_enc 8 4096)))
              9 48 8 8 0 None in
  ∃ s3, exec_code E lj s2 = Ok (Running s3) ∧
    s_ip s3 = 1 ∧ s_bp s3 = 0 ∧ s_sp s3 = 40 ∧ word E s3 (-8) = Some 5.
Proof.
  intros E sj lj s1 s2. subst E.
  destruct (longjmp_returns_to_setjmp (demo_env []) sj lj (demo [0; 0; 0; 4096]) 4096)
    as (s1' & H1 & _ & _ & _ & H); try demo_compute.
  assert (Hs : s1 = s1') by (unfold s1; by rewrite (after_running _ _ _ _ H1)).
  assert (Hm2 : mwrite (s_mem s1) (4096 + 32) (le_enc 8 5 ++ le_enc 8 4096) = Some (s_mem s2))
    by (vm_compute; reflexivity).
  destruct (H s2 5) as (s3 & H3 & R1 & R2 & R3 & R4); try demo_compute.
  - intros x Hx. rewrite <-Hs. apply (mwrite_outside _ _ _ _ x Hm2). lia.
  - exists s3. split; [exact H3|]. rewrite R1, R2, R3, <-Hs.
    split; [vm_compute; reflexivity|]. split; [vm_compute; reflexivity|].
    split; [vm_compute; reflexivity|]. etrans; [exact R4|]. vm_compute. reflexivity.
Defined.
