(* ===== verification/VmImage.v ===== *)
(** * Saved modules (src/backend/vm/vmsevelir.c and vmimplir.c)

    The byte format of [.lkx] files: [serialize_lir] writes the instructions of
    a program, [vm_load_module] reads a module into the program being linked.
    A file is the list of its bytes. *)

From stdpp Require Import base list numbers decidable strings.
From Stdlib Require Import ZArith Lia.
From S2P Require Import Prelude CType Floats CArith VmInstr.

Local Open Scope Z_scope.

(** [printf("%a")] and [scanf("%f")] of the three floating types: every value
    but the NaNs is read back as it was printed. *)
Class FloatText : Type := {
  print_a : fty → Z → list Z;
  scan_f : fty → list Z → Z;
  scan_print : ∀ f b, 0 ≤ b < 2 ^ (8 * Z.of_nat (fsize f)) → f_encode f (f_decode f b) = b →
    f_decode f b ≠ SpecFloat.S754_nan → scan_f f (print_a f b) = b;
  print_chars : ∀ f b, Forall (λ c, 0 < c < 256) (print_a f b);
  print_length : ∀ f b, (length (print_a f b) < 32)%nat
}.

(** [struct vm_label]; the labels and the globals of a [struct vm_context]. *)
Record vm_label : Set := VmLabel { l_index : Z; l_name : list Z }.

Definition s_magic : list Z := cstr "KC$$".
Definition s_setup_global : list Z := cstr "_setup_global".
Definition s_local : list Z := cstr ".L$".

(** ** The serializer *)

Definition sel_put_code_byte (v : Z) : list Z := [Z.land v 0xFF].
Definition sel_put_code_word (v : Z) : list Z :=
  [Z.land (Z.shiftr v 8) 0xFF; Z.land v 0xFF].
Definition sel_put_code_dword (v : Z) : list Z :=
  [Z.land (Z.shiftr v 24) 0xFF; Z.land (Z.shiftr v 16) 0xFF;
   Z.land (Z.shiftr v 8) 0xFF; Z.land v 0xFF].
Definition sel_put_code_qword (v : Z) : list Z :=
  [Z.land (Z.shiftr v 56) 0xFF; Z.land (Z.shiftr v 48) 0xFF;
   Z.land (Z.shiftr v 40) 0xFF; Z.land (Z.shiftr v 32) 0xFF;
   Z.land (Z.shiftr v 24) 0xFF; Z.land (Z.shiftr v 16) 0xFF;
   Z.land (Z.shiftr v 8) 0xFF; Z.land v 0xFF].
Definition sel_put_string (s : list Z) : list Z := s ++ [0].

Definition sel_put_magic_number : list Z :=
  sel_put_code_byte (opcode_code VM_LABEL) ++ sel_put_string s_magic.
Definition sel_put_global (name : list Z) : list Z :=
  sel_put_code_byte (opcode_code VM_GLOBAL) ++ sel_put_string name.

Definition sel_put_address_index (a : vm_address) : list Z :=
  sel_put_code_dword (wrap_u 32 (a_index a)).
Definition sel_put_address (a : vm_address) : list Z :=
  sel_put_code_byte (if a_global a then 1 else 0) ++
  sel_put_code_dword (wrap_u 32 (a_size a)) ++
  sel_put_code_dword (wrap_u 32 (a_base a)) ++
  sel_put_code_dword (wrap_u 32 (a_offset a)) ++
  (if a_global a then sel_put_global (a_name a) else []).

Definition flag (b : bool) (v : Z) : Z := if b then v else 0.
Definition type_bits (t : ctype) : Z :=
  Z.lor (flag (t_unsigned t) 0x80) (Z.lor (flag (t_const t) 0x40)
  (Z.lor (flag (t_volatile t) 0x20) (Z.lor (flag (t_restrict t) 0x10)
  (Z.lor (flag (t_pointer t) 0x08) (Z.lor (flag (t_pointer_const t) 0x04)
  (Z.lor (flag (t_pointer_volatile t) 0x02) (flag (t_pointer_restrict t) 0x01))))))).
Definition sel_put_type (t : ctype) : list Z :=
  sel_put_code_byte (type_bits t) ++ sel_put_code_byte (etype_code (t_type t)).

(** What the serializer reads of the program: the names of the labels and the
    area [prog->global] that holds the string literals. *)
Record image_env : Type := ImageEnv { i_labels : list (list Z); i_area : list Z }.

(** [get_vm_label_name] *)
Definition get_vm_label_name (N : image_env) (index : Z) : outcome (list Z) :=
  if index <? 0 then Ok s_local else defined "label index" (i_labels N !! Z.to_nat index).

(** The C string at the front of a list of bytes. *)
Fixpoint c_string (l : list Z) : option (list Z) :=
  match l with
  | [] => None
  | c :: l => if c =? 0 then Some [] else s ← c_string l; Some (c :: s)
  end.
Definition string_at (N : image_env) (index : Z) : outcome (list Z) :=
  if index <? 0 then Undef "string index"
  else defined "unterminated string" (c_string (drop (Z.to_nat index) (i_area N))).

Definition d_lindex (c : vm_code) : outcome Z :=
  match c_d c with DLabel i => Ok i | _ => Undef "union member lindex" end.
Definition d_name (c : vm_code) : outcome (list Z) :=
  match c_d c with DName n => Ok n | _ => Undef "union member name" end.
Definition d_bits (c : vm_code) : outcome Z :=
  match c_d c with DImm (ImmBits b) => Ok b | _ => Undef "union member imm" end.
Definition d_str (c : vm_code) : outcome Z :=
  match c_d c with DImm (ImmStr i) => Ok i | _ => Undef "union member imm.str" end.

Section Save.
Context `{FT : FloatText} (N : image_env).

Definition save_type (c : vm_code) : list Z := sel_put_code_byte (optype_code (c_type c)).

Definition save_push (c : vm_code) : outcome (list Z) :=
  match c_type c with
  | VMOP_ADDR | VMOP_VARI | VMOP_VARU | VMOP_VAROBJ | VMOP_VARFL
  | VMOP_FUNCADDR | VMOP_BUILTIN => a ← d_addr c; Ok (sel_put_address a)
  | VMOP_FUNCNAME => a ← d_addr c; Ok (sel_put_string (a_name a))
  | VMOP_CHARP => i ← d_str c; s ← string_at N i; Ok (sel_put_string s)
  | VMOP_FLT => b ← d_bits c; Ok (sel_put_string (print_a F32 b))
  | VMOP_DBL => b ← d_bits c; Ok (sel_put_string (print_a F64 b))
  | VMOP_LDBL => b ← d_bits c; Ok (sel_put_string (print_a F80 b))
  | VMOP_INT8 | VMOP_UINT8 => b ← d_bits c; Ok (sel_put_code_byte (wrap_u 8 b))
  | VMOP_INT16 | VMOP_UINT16 => b ← d_bits c; Ok (sel_put_code_word (wrap_u 16 b))
  | VMOP_INT32 | VMOP_UINT32 => b ← d_bits c; Ok (sel_put_code_dword (wrap_u 32 b))
  | VMOP_INT64 | VMOP_UINT64 => b ← d_bits c; Ok (sel_put_code_qword (wrap_u 64 b))
  | VMOP_NONE | VMOP_LABEL => Exit "assertion failed"
  end.

(** One turn of the loop of [serialize_lir]. *)
Definition serialize_code (c : vm_code) : outcome (list Z) :=
  let put (o : outcome (list Z)) : outcome (list Z) :=
    bs ← o; Ok (sel_put_code_byte (opcode_code (c_opcode c)) ++ bs) in
  match c_opcode c with
  | VM_NOP | VM_HALT | VM_ALLOCA | VM_INC | VM_DEC | VM_JMPTBL | VM_SAVE_RETVAL => put (Ok [])
  | VM_LABEL =>
      put (i ← d_lindex c; n ← get_vm_label_name N i;
           Ok (sel_put_string (if decide (head n = Some 46) then s_local else n)))
  | VM_STORE | VM_FZERO | VM_DEREF | VM_DEPOP =>
      put (a ← d_addr c; Ok (save_type c ++ sel_put_address a))
  | VM_CALL =>
      put (a ← d_addr c;
           Ok (save_type c ++ (if decide (c_type c = VMOP_ADDR) then sel_put_address a
                               else sel_put_string (a_name a))))
  | VM_RET | VM_CLUP | VM_CLPOP | VM_ENTER =>
      put (n ← d_size c; Ok (sel_put_code_dword (wrap_u 32 n)))
  | VM_CAST => put ('(src, dst) ← d_cast c; Ok (sel_put_type src ++ sel_put_type dst))
  | VM_JMP | VM_JZ | VM_JNZ | VM_TBL_ENTRY => put (a ← d_addr c; Ok (sel_put_address_index a))
  | VM_PUSH => put (bs ← save_push c; Ok (save_type c ++ bs))
  | VM_POP =>
      put (if decide (c_type c = VMOP_NONE)
           then n ← d_size c; Ok (save_type c ++ sel_put_code_dword (wrap_u 32 n))
           else a ← d_addr c; Ok (save_type c ++ sel_put_address a))
  | VM_NOT | VM_NEG | VM_ADD | VM_SUB | VM_MUL | VM_DIV | VM_MOD | VM_AND | VM_OR | VM_XOR
  | VM_SHL | VM_SHR | VM_EQ | VM_NE | VM_GE | VM_GT | VM_LE | VM_LT => put (Ok (save_type c))
  | VM_REFLIB => put (n ← d_name c; Ok (sel_put_string n))
  | VM_GLOBAL | VM_SETJMP | VM_LONGJMP => Exit "assertion failed"
  end.

Fixpoint serialize_codes (l : list vm_code) : outcome (list Z) :=
  match l with
  | [] => Ok []
  | c :: l => bs ← serialize_code c; bs' ← serialize_codes l; Ok (bs ++ bs')
  end.

Definition serialize_lir (code : list vm_code) : outcome (list Z) :=
  bs ← serialize_codes code; Ok (sel_put_magic_number ++ bs).

End Save.

(** ** The loader *)

(** Reading the file: a value and the bytes left. *)
Definition parser (A : Type) : Type := list Z → outcome (A * list Z).

Definition vm_fgetc : parser Z := λ i,
  match i with
  | [] => Exit "Import filed with unexpected file termination."
  | b :: i => Ok (b, i)
  end.
Definition vm_load_byte : parser Z := λ i, '(b, i) ← vm_fgetc i; Ok (Z.land b 0xFF, i).
Definition vm_load_word : parser Z := λ i,
  '(b1, i) ← vm_fgetc i; '(b0, i) ← vm_fgetc i;
  Ok (Z.lor (Z.shiftl (Z.land b1 0xFF) 8) (Z.land b0 0xFF), i).
Definition vm_load_dword : parser Z := λ i,
  '(b3, i) ← vm_fgetc i; '(b2, i) ← vm_fgetc i;
  '(b1, i) ← vm_fgetc i; '(b0, i) ← vm_fgetc i;
  Ok (Z.lor (Z.shiftl (Z.land b3 0xFF) 24) (Z.lor (Z.shiftl (Z.land b2 0xFF) 16)
     (Z.lor (Z.shiftl (Z.land b1 0xFF) 8) (Z.land b0 0xFF))), i).
Definition vm_load_qword : parser Z := λ i,
  '(b7, i) ← vm_fgetc i; '(b6, i) ← vm_fgetc i;
  '(b5, i) ← vm_fgetc i; '(b4, i) ← vm_fgetc i;
  '(b3, i) ← vm_fgetc i; '(b2, i) ← vm_fgetc i;
  '(b1, i) ← vm_fgetc i; '(b0, i) ← vm_fgetc i;
  Ok (Z.lor (Z.shiftl (Z.land b7 0xFF) 56) (Z.lor (Z.shiftl (Z.land b6 0xFF) 48)
     (Z.lor (Z.shiftl (Z.land b5 0xFF) 40) (Z.lor (Z.shiftl (Z.land b4 0xFF) 32)
     (Z.lor (Z.shiftl (Z.land b3 0xFF) 24) (Z.lor (Z.shiftl (Z.land b2 0xFF) 16)
     (Z.lor (Z.shiftl (Z.land b1 0xFF) 8) (Z.land b0 0xFF))))))), i).

Definition vm_load_type : parser optype := λ i,
  '(b, i) ← vm_load_byte i;
  t ← defined "operand type outside its enumeration" (optype_of_code b); Ok (t, i).
(** The conversion of the [uint32_t] to [int]. *)
Definition vm_load_size : parser Z := λ i, '(v, i) ← vm_load_dword i; Ok (conv I32 v, i).
Definition vm_load_address_index : parser Z := vm_load_size.

Definition s_dash : list Z := cstr "-".
Definition vm_load_address (global_base : Z) : parser vm_address := λ i,
  '(g, i) ← vm_load_byte i;
  '(size, i) ← vm_load_size i;
  '(base, i) ← vm_load_size i;
  '(offset, i) ← vm_load_size i;
  base ← (if g =? 0 then Ok base else c_result I32 (base + global_base));
  index ← c_result I32 (base + offset);
  Ok (VmAddress s_dash (negb (g =? 0)) index base offset size None, i).

(** [vm_load_label] into a buffer of 1024 bytes: the bytes up to a 0. *)
Fixpoint load_chars (i : list Z) : outcome (list Z * list Z) :=
  match i with
  | [] => Exit "Import filed with unexpected file termination."
  | c :: i => if c =? 0 then Ok ([], i) else '(s, i) ← load_chars i; Ok (c :: s, i)
  end.
Definition vm_load_label : parser (list Z) := λ i,
  '(s, i) ← load_chars i;
  if decide (length s < 1024)%nat then Ok (s, i) else Undef "buffer overflow".

Definition vm_load_cast_type (uninit_ref : Z) : parser ctype := λ i,
  '(bits, i) ← vm_load_byte i;
  '(e, i) ← vm_load_byte i;
  let bit v := Z.land bits v =? v in
  Ok (Ctype (etype_of_code (conv I8 e)) (bit 0x80) (bit 0x40) (bit 0x20) (bit 0x10)
        (bit 0x08) (bit 0x04) (bit 0x02) (bit 0x01) uninit_ref, i).

(** The state of the linker: the labels, globals, imports and string area of
    [vm_ctx] and [vm_prog], the two code arrays, the static flag [is_global]
    and the size of the global variables (src/parser/symtab.c). *)
Record lstate : Type := LState {
  ls_labels : list vm_label;
  ls_globals : list vm_label;
  ls_imports : list (list Z);
  ls_area : list Z;
  ls_gindex : Z;
  ls_code : list vm_code;
  ls_glbl : list vm_code;
  ls_is_global : bool;
  ls_gsize : Z
}.

Definition PUSH_CODE (c : vm_code) (s : lstate) : lstate :=
  let '(LState labels globals imports area gi code glbl g n) := s in
  if g then LState labels globals imports area gi code (glbl ++ [c]) g n
  else LState labels globals imports area gi (code ++ [c]) glbl g n.
Definition set_is_global (g : bool) (s : lstate) : lstate :=
  let '(LState labels globals imports area gi code glbl _ n) := s in
  LState labels globals imports area gi code glbl g n.
Definition push_label (name : list Z) (s : lstate) : lstate :=
  let '(LState labels globals imports area gi code glbl g n) := s in
  LState (labels ++ [VmLabel (-1) name]) globals imports area gi code glbl g n.
Definition push_global (name : list Z) (base : Z) (s : lstate) : lstate :=
  let '(LState labels globals imports area gi code glbl g n) := s in
  LState labels (globals ++ [VmLabel base name]) imports area gi code glbl g n.

(** [add_import_module]: a name is kept once. *)
Definition add_import_module (name : list Z) (s : lstate) : lstate :=
  let '(LState labels globals imports area gi code glbl g n) := s in
  if decide (name ∈ imports) then s
  else LState labels globals (imports ++ [name]) area gi code glbl g n.

(** [add_global_variable_size] *)
Definition add_global_variable_size (size : Z) (s : lstate) : outcome lstate :=
  let '(LState labels globals imports area gi code glbl g n) := s in
  if 0 <? size then n ← c_result I32 (n + pad8 size);
    Ok (LState labels globals imports area gi code glbl g n)
  else Ok s.

(** [memcpy(prog->global + index, buf, len)] for a string and its 0. *)
Definition area_write (l : list Z) (index : Z) (bs : list Z) : outcome (list Z) :=
  if (0 <=? index) && (index + Z.of_nat (length bs) <=? Z.of_nat (length l))
  then Ok (take (Z.to_nat index) l ++ bs ++ drop (Z.to_nat index + length bs) l)
  else Undef "write outside the global area".
Definition push_string (str : list Z) (s : lstate) : outcome (Z * lstate) :=
  let '(LState labels globals imports area gi code glbl g n) := s in
  area ← area_write area gi (str ++ [0]);
  Ok (gi, LState labels globals imports area (gi + Z.of_nat (length str) + 1) code glbl g n).

(** Addresses of which only one member is initialised. *)
Definition addr_named (name : list Z) : vm_address := VmAddress name false 0 0 0 0 None.
Definition addr_at (index : Z) : vm_address := VmAddress [] false index 0 0 0 None.

Section Load.
(** [uninit_ref] is what the uninitialised [ref] of a loaded type holds. *)
Context `{FT : FloatText} (uninit_ref global_base : Z).

Definition load_addr_code (op : opcode) (t : optype) (s : lstate) (i : list Z) :
    outcome (lstate * list Z) :=
  '(a, i) ← vm_load_address global_base i; Ok (PUSH_CODE (mkcode op t (DAddr a)) s, i).

Definition load_push (s : lstate) (i : list Z) : outcome (lstate * list Z) :=
  '(t, i) ← vm_load_type i;
  let imm (bits : Z) := PUSH_CODE (mkcode VM_PUSH t (DImm (ImmBits bits))) s in
  match t with
  | VMOP_ADDR | VMOP_VARI | VMOP_VARU | VMOP_VAROBJ | VMOP_VARFL => load_addr_code VM_PUSH t s i
  | VMOP_FUNCNAME =>
      '(buf, i) ← vm_load_label i;
      Ok (PUSH_CODE (mkcode VM_PUSH VMOP_FUNCNAME (DAddr (addr_named buf))) s, i)
  | VMOP_CHARP =>
      '(buf, i) ← vm_load_label i;
      '(index, s) ← push_string buf s;
      Ok (PUSH_CODE (mkcode VM_PUSH VMOP_CHARP (DImm (ImmStr index))) s, i)
  | VMOP_FLT => '(buf, i) ← vm_load_label i; Ok (imm (scan_f F32 buf), i)
  | VMOP_DBL => '(buf, i) ← vm_load_label i; Ok (imm (scan_f F64 buf), i)
  | VMOP_LDBL => '(buf, i) ← vm_load_label i; Ok (imm (scan_f F80 buf), i)
  | VMOP_FUNCADDR | VMOP_BUILTIN =>
      (* the instruction is pushed here, then the uninitialised [code] *)
      '(s, i) ← load_addr_code VM_PUSH t s i; Undef "uninitialised instruction"
  | VMOP_INT8 | VMOP_UINT8 => '(v, i) ← vm_load_byte i; Ok (imm v, i)
  | VMOP_INT16 | VMOP_UINT16 => '(v, i) ← vm_load_word i; Ok (imm v, i)
  | VMOP_INT32 | VMOP_UINT32 => '(v, i) ← vm_load_dword i; Ok (imm v, i)
  | VMOP_INT64 | VMOP_UINT64 => '(v, i) ← vm_load_qword i; Ok (imm v, i)
  | VMOP_NONE | VMOP_LABEL => Exit "Import filed with invalid module file"
  end.

(** One turn of the loop of [vm_load_module] after the opcode; [added] is
    [global_added]. *)
Definition load_record (op : opcode) (added : Z) (s : lstate) (i : list Z) :
    outcome (Z * lstate * list Z) :=
  let keep (o : outcome (lstate * list Z)) : outcome (Z * lstate * list Z) :=
    '(s, i) ← o; Ok (added, s, i) in
  match op with
  | VM_NOP | VM_INC | VM_DEC | VM_JMPTBL =>
      keep (Ok (PUSH_CODE (mkcode op VMOP_NONE DNone) s, i))
  | VM_LABEL =>
      keep ('(buf, i) ← vm_load_label i;
        if decide (buf = s_magic) then Ok (s, i)
        else if decide (head buf = Some 46) then
          Ok (PUSH_CODE (mkcode VM_LABEL VMOP_LABEL (DLabel (-1))) s, i)
        else if decide (buf = s_setup_global) then Ok (set_is_global true s, i)
        else
          let index := Z.of_nat (length (ls_labels s)) in
          let s := push_label buf (set_is_global false s) in
          Ok (PUSH_CODE (mkcode VM_LABEL VMOP_LABEL (DLabel index)) s, i))
  | VM_HALT | VM_ALLOCA => keep (Ok (s, i))
  | VM_STORE | VM_FZERO | VM_DEREF | VM_DEPOP =>
      keep ('(t, i) ← vm_load_type i; load_addr_code op t s i)
  | VM_CALL =>
      keep ('(t, i) ← vm_load_type i;
        if decide (t = VMOP_ADDR) then load_addr_code op t s i
        else '(buf, i) ← vm_load_label i;
          let t := match t with VMOP_FUNCADDR | VMOP_BUILTIN => VMOP_FUNCNAME | _ => t end in
          Ok (PUSH_CODE (mkcode op t (DAddr (addr_named buf))) s, i))
  | VM_RET | VM_CLUP | VM_CLPOP | VM_ENTER =>
      '(size, i) ← vm_load_size i;
      if ls_is_global s then Ok (size, s, i)
      else Ok (added, PUSH_CODE (mkcode op VMOP_NONE (DSize size)) s, i)
  | VM_CAST =>
      keep ('(src, i) ← vm_load_cast_type uninit_ref i;
        '(dst, i) ← vm_load_cast_type uninit_ref i;
        Ok (PUSH_CODE (mkcode op VMOP_NONE (DCast src dst)) s, i))
  | VM_JMP | VM_JZ | VM_JNZ | VM_TBL_ENTRY =>
      keep ('(index, i) ← vm_load_address_index i;
        Ok (PUSH_CODE (mkcode op VMOP_NONE (DAddr (addr_at index))) s, i))
  | VM_PUSH => keep (load_push s i)
  | VM_POP =>
      keep ('(t, i) ← vm_load_type i;
        if decide (t = VMOP_NONE) then
          '(n, i) ← vm_load_size i; Ok (PUSH_CODE (mkcode op t (DSize n)) s, i)
        else load_addr_code op t s i)
  | VM_NOT | VM_NEG | VM_ADD | VM_SUB | VM_MUL | VM_DIV | VM_MOD | VM_AND | VM_OR | VM_XOR
  | VM_SHL | VM_SHR | VM_EQ | VM_NE | VM_GE | VM_GT | VM_LE | VM_LT =>
      keep ('(t, i) ← vm_load_type i; Ok (PUSH_CODE (mkcode op t DNone) s, i))
  | VM_GLOBAL => keep ('(buf, i) ← vm_load_label i; Ok (push_global buf global_base s, i))
  | VM_REFLIB => keep ('(buf, i) ← vm_load_label i; Ok (add_import_module buf s, i))
  | VM_SAVE_RETVAL | VM_SETJMP | VM_LONGJMP => Exit "Import filed with invalid module file"
  end.

(** The loop; None when [fuel] turns do not reach the end of the file. *)
Fixpoint load_loop (fuel : nat) (added : Z) (s : lstate) (i : list Z) :
    option (outcome (Z * lstate)) :=
  match fuel with
  | O => None
  | S fuel =>
      match i with
      | [] => Some (Ok (added, s))
      | b :: i =>
          match opcode_of_code b with
          | None => Some (Exit "Import filed with invalid module file")
          | Some op =>
              match load_record op added s i with
              | Ok (added, s, i) => load_loop fuel added s i
              | Exit e => Some (Exit e)
              | Undef e => Some (Undef e)
              end
          end
      end
  end.

End Load.

(** [vm_load_module]: each record takes at least one byte, so one turn per
    byte and a last one are enough. *)
Definition vm_load_module `{FT : FloatText} (uninit_ref : Z) (s : lstate) (file : list Z) :
    option (outcome lstate) :=
  match load_loop uninit_ref (ls_gsize s) (S (length file)) 0 s file with
  | Some o => Some ('(added, s) ← o; add_global_variable_size added s)
  | None => None
  end.
