(* ===== verification/VmImageProps.v ===== *)
(** * Saved modules: the round trip, cut files, and relocation

    [import_code] says what importing one instruction of a saved program does to
    the linker; the loader does exactly that on what the serializer writes, it
    rejects files that end inside a record, and what it loads behaves as what was
    saved with the global variables moved. *)

From stdpp Require Import base list numbers decidable strings.
From Stdlib Require Import ZArith Lia.
From stdpp Require Import base list gmap numbers decidable strings.
From S2P Require Import Prelude CType Floats CArith VmInstr VmImage Memory VmRun VmProps.

Local Open Scope Z_scope.

(** ** Reading back *)

Definition reads {A} (p : parser A) (bs : list Z) (v : A) : Prop :=
  ∀ rest, p (bs ++ rest) = Ok (v, rest).

Lemma byte_join k v : 0 ≤ k →
  Z.lor (Z.shiftl (Z.land (Z.land (Z.shiftr v k) 0xFF) 0xFF) k) (v mod 2 ^ k) = v mod 2 ^ (k + 8).
Proof.
  intros Hk. change 0xFF with (Z.ones 8). apply Z.bits_inj'. intros n Hn.
  rewrite Z.lor_spec, Z.shiftl_spec, !Z.land_spec, !Z.testbit_mod_pow2 by lia.
  destruct (Z.ltb_spec n k).
  - rewrite (Z.testbit_neg_r _ (n - k)) by lia. simpl.
    by rewrite (proj2 (Z.ltb_lt n (k + 8))) by lia.
  - rewrite Z.shiftr_spec by lia. replace (n - k + k) with n by lia.
    rewrite !Z.testbit_ones_nonneg by lia. simpl. rewrite orb_false_r.
    destruct (Z.ltb_spec (n - k) 8), (Z.ltb_spec n (k + 8)); try lia;
      by rewrite ?andb_true_r, ?andb_false_r.
Qed.

Lemma low_byte v : Z.land (Z.land v 0xFF) 0xFF = v mod 2 ^ 8.
Proof. change 0xFF with (Z.ones 8). rewrite !Z.land_ones by lia. by rewrite Zmod_mod. Qed.

Ltac join_bytes v := cbn [mbind outcome_bind vm_fgetc app]; rewrite (low_byte v);
  rewrite (byte_join 8) by lia.

Lemma reads_byte v : 0 ≤ v < 256 → reads vm_load_byte (sel_put_code_byte v) v.
Proof.
  intros Hv rest. unfold vm_load_byte. simpl. rewrite low_byte. by rewrite Z.mod_small.
Qed.
Lemma reads_word v : 0 ≤ v < 2 ^ 16 → reads vm_load_word (sel_put_code_word v) v.
Proof.
  intros Hv rest. unfold vm_load_word, sel_put_code_word. join_bytes v.
  by rewrite (Z.mod_small v (2 ^ (8 + 8))).
Qed.
Lemma reads_dword v : 0 ≤ v < 2 ^ 32 → reads vm_load_dword (sel_put_code_dword v) v.
Proof.
  intros Hv rest. unfold vm_load_dword, sel_put_code_dword. join_bytes v.
  change 16 with (8 + 8). rewrite (byte_join (8 + 8)) by lia.
  change 24 with (8 + 8 + 8). rewrite (byte_join (8 + 8 + 8)) by lia.
  by rewrite (Z.mod_small v (2 ^ (8 + 8 + 8 + 8))).
Qed.
Lemma reads_qword v : 0 ≤ v < 2 ^ 64 → reads vm_load_qword (sel_put_code_qword v) v.
Proof.
  intros Hv rest. unfold vm_load_qword, sel_put_code_qword. join_bytes v.
  change 16 with (8 + 8). rewrite (byte_join (8 + 8)) by lia.
  change 24 with (8 + 8 + 8). rewrite (byte_join (8 + 8 + 8)) by lia.
  change 32 with (8 + 8 + 8 + 8). rewrite (byte_join (8 + 8 + 8 + 8)) by lia.
  change 40 with (8 + 8 + 8 + 8 + 8). rewrite (byte_join (8 + 8 + 8 + 8 + 8)) by lia.
  change 48 with (8 + 8 + 8 + 8 + 8 + 8). rewrite (byte_join (8 + 8 + 8 + 8 + 8 + 8)) by lia.
  change 56 with (8 + 8 + 8 + 8 + 8 + 8 + 8).
  rewrite (byte_join (8 + 8 + 8 + 8 + 8 + 8 + 8)) by lia.
  by rewrite (Z.mod_small v (2 ^ (8 + 8 + 8 + 8 + 8 + 8 + 8 + 8))).
Qed.

Lemma reads_bind {A B} (p : parser A) (f : A → parser B) bs v bs' w :
  reads p bs v → reads (f v) bs' w →
  reads (λ i, '(a, i) ← p i; f a i) (bs ++ bs') w.
Proof. intros H H' rest. rewrite <-app_assoc, H. apply H'. Qed.

Lemma reads_type t : reads vm_load_type (sel_put_code_byte (optype_code t)) t.
Proof.
  intros rest. unfold vm_load_type. rewrite reads_byte by apply optype_code_byte.
  cbn [mbind outcome_bind]. by rewrite optype_of_code_code.
Qed.

Lemma reads_size v : in_range I32 v = true → reads vm_load_size (sel_put_code_dword (wrap_u 32 v)) v.
Proof.
  intros Hv rest. unfold vm_load_size. rewrite reads_dword by (apply wrap_u_range; lia).
  cbn [mbind outcome_bind]. f_equal. f_equal. rewrite <-(conv_small I32 v) at 2 by done.
  apply conv_proper. apply eqm_wrap_u. simpl. lia.
Qed.

(** A name in the file: no 0 byte, and shorter than the buffer. *)
Definition name_ok (n : list Z) : bool :=
  forallb (λ c, (0 <? c) && (c <? 256)) n && (length n <? 1024)%nat.

Lemma reads_label n : name_ok n = true → reads vm_load_label (sel_put_string n) n.
Proof.
  unfold name_ok. rewrite andb_true_iff, Nat.ltb_lt. intros [Hc Hl] rest.
  unfold vm_load_label, sel_put_string. rewrite <-app_assoc.
  assert (H : load_chars (n ++ [0] ++ rest) = Ok (n, rest)).
  { clear Hl. induction n as [|c n IH]; [done|]. simpl in *.
    apply andb_true_iff in Hc as [Hc Hn]. destruct (Z.eqb_spec c 0); [lia|].
    rewrite IH by done. done. }
  rewrite H. cbn [mbind outcome_bind]. by rewrite decide_True.
Qed.

(** A type as the loader leaves it: without its [ref]. *)
Definition set_ref (r : Z) (t : ctype) : ctype :=
  Ctype (t_type t) (t_unsigned t) (t_const t) (t_volatile t) (t_restrict t) (t_pointer t)
    (t_pointer_const t) (t_pointer_volatile t) (t_pointer_restrict t) r.

Definition type_ok (t : ctype) : bool :=
  bool_decide (etype_of_code (etype_code (t_type t)) = t_type t) &&
  in_range I8 (etype_code (t_type t)).

Lemma land_byte z : 0 ≤ Z.land z 0xFF < 256.
Proof. change 0xFF with (Z.ones 8). rewrite Z.land_ones by lia. apply Z.mod_pos_bound. lia. Qed.

Lemma reads_cast_type u t : type_ok t = true → reads (vm_load_cast_type u) (sel_put_type t) (set_ref u t).
Proof.
  unfold type_ok. rewrite andb_true_iff, bool_decide_eq_true. intros [He Hr] rest.
  unfold vm_load_cast_type, sel_put_type. rewrite <-app_assoc.
  rewrite reads_byte; cycle 1.
  { destruct t as [e [] [] [] [] [] [] [] [] r]; vm_compute; split; congruence. }
  cbn [mbind outcome_bind]. unfold vm_load_byte, sel_put_code_byte.
  cbn [mbind outcome_bind vm_fgetc app].
  set (b := Z.land _ _). assert (Hb : conv I8 b = etype_code (t_type t)).
  { unfold b. change 0xFF with (Z.ones 8). rewrite !Z.land_ones by lia. rewrite ?Zmod_mod.
    etrans; [|by apply conv_small]. apply conv_proper. apply (eqm_wrap_u 8); lia. }
  rewrite Hb, He. unfold set_ref.
  by destruct t as [e [] [] [] [] [] [] [] [] r].
Qed.

(** An address as the loader leaves it: relocated and without its name. *)
Definition relocate_addr (gb : Z) (a : vm_address) : vm_address :=
  let base := a_base a + (if a_global a then gb else 0) in
  VmAddress s_dash (a_global a) (base + a_offset a) base (a_offset a) (a_size a) None.

Definition addr_ok (gb : Z) (a : vm_address) : bool :=
  in_range I32 (a_size a) && in_range I32 (a_base a) && in_range I32 (a_offset a) &&
  in_range I32 (a_base (relocate_addr gb a)) && in_range I32 (a_index (relocate_addr gb a)) &&
  (negb (a_global a) || name_ok (a_name a)).

Definition global_record (a : vm_address) : list Z :=
  if a_global a then sel_put_global (a_name a) else [].

Lemma c_result_small t v : in_range t v = true → c_result t v = Ok v.
Proof. intros H. unfold c_result. rewrite H, conv_small by done. by destruct (isigned t). Qed.

Lemma reads_address gb a rest : addr_ok gb a = true →
  vm_load_address gb (sel_put_address a ++ rest) = Ok (relocate_addr gb a, global_record a ++ rest).
Proof.
  unfold addr_ok. rewrite !andb_true_iff. intros [[[[[Hs Hb] Ho] Hrb] Hri] _].
  unfold vm_load_address, sel_put_address. rewrite <-!app_assoc.
  rewrite reads_byte by (destruct (a_global a); lia). cbn [mbind outcome_bind].
  rewrite reads_size by done. cbn [mbind outcome_bind].
  rewrite reads_size by done. cbn [mbind outcome_bind].
  rewrite reads_size by done. cbn [mbind outcome_bind].
  unfold relocate_addr in *. simpl in Hrb, Hri. fold (global_record a).
  destruct (a_global a); cbn [Z.eqb negb].
  - rewrite c_result_small by done. cbn [mbind outcome_bind].
    rewrite c_result_small by done. done.
  - rewrite Z.add_0_r in *. cbn [mbind outcome_bind]. rewrite c_result_small by done. done.
Qed.

(** ** What importing an instruction does *)

(** The diagnosis of [vm_fgetc] at the end of the file. *)
Abbreviation file_ended := (Exit "Import filed with unexpected file termination.") (only parsing).

Section loading.
Context `{FT : FloatText} (N : image_env) (uninit_ref gb : Z).

(** The globals of the module are recorded with its base. *)
Definition note_global (a : vm_address) (s : lstate) : lstate :=
  if a_global a then push_global (a_name a) gb s else s.

(** The operand of an instruction as it is loaded, by the part of it that the
    file keeps; None for the instructions that are not simply pushed. *)
Definition import_payload (c : vm_code) : option payload :=
  match c_opcode c, c_d c with
  | (VM_JMP | VM_JZ | VM_JNZ | VM_TBL_ENTRY), DAddr a => Some (DAddr (addr_at (a_index a)))
  | VM_CALL, DAddr a =>
      Some (DAddr (if decide (c_type c = VMOP_ADDR) then relocate_addr gb a else addr_named (a_name a)))
  | VM_PUSH, DAddr a =>
      Some (DAddr (if decide (c_type c = VMOP_FUNCNAME) then addr_named (a_name a) else relocate_addr gb a))
  | VM_PUSH, DImm (ImmBits b) =>
      Some (DImm (ImmBits (match int_optype (c_type c) with Some t => wrap_u (iwidth t) b | None => b end)))
  | (VM_STORE | VM_FZERO | VM_DEREF | VM_DEPOP | VM_POP), DAddr a => Some (DAddr (relocate_addr gb a))
  | VM_POP, DSize n => Some (DSize n)
  | VM_CAST, DCast src dst => Some (DCast (set_ref uninit_ref src) (set_ref uninit_ref dst))
  | (VM_NOP | VM_INC | VM_DEC | VM_JMPTBL | VM_NOT | VM_NEG | VM_ADD | VM_SUB | VM_MUL | VM_DIV
    | VM_MOD | VM_AND | VM_OR | VM_XOR | VM_SHL | VM_SHR | VM_EQ | VM_NE | VM_GE | VM_GT
    | VM_LE | VM_LT), _ => Some DNone
  | _, _ => None
  end.

(** The operand type: the calls of known functions are resolved again by name,
    and the instructions whose type is not saved have none. *)
Definition import_optype (c : vm_code) : optype :=
  match c_opcode c, c_type c with
  | VM_CALL, (VMOP_FUNCADDR | VMOP_BUILTIN) => VMOP_FUNCNAME
  | (VM_NOP | VM_INC | VM_DEC | VM_JMPTBL | VM_JMP | VM_JZ | VM_JNZ | VM_TBL_ENTRY | VM_CAST), _ =>
      VMOP_NONE
  | _, t => t
  end.

(** The name that a label has in the file. *)
Definition label_name (i : Z) : list Z :=
  match get_vm_label_name N i with
  | Ok n => if decide (head n = Some 46) then s_local else n
  | _ => []
  end.

(** The address whose global variable is recorded after the instruction. *)
Definition noted_address (c : vm_code) : vm_address :=
  match c_opcode c, c_d c with
  | (VM_STORE | VM_FZERO | VM_DEREF | VM_DEPOP | VM_POP), DAddr a => a
  | VM_CALL, DAddr a => if decide (c_type c = VMOP_ADDR) then a else addr0
  | VM_PUSH, DAddr a => if decide (c_type c = VMOP_FUNCNAME) then addr0 else a
  | _, _ => addr0
  end.

Definition import_code (c : vm_code) (as_ : Z * lstate) : outcome (Z * lstate) :=
  let '(added, s) := as_ in
  match c_opcode c, c_d c with
  | (VM_HALT | VM_ALLOCA), _ => Ok (added, s)
  | VM_LABEL, DLabel i =>
      let n := label_name i in
      if decide (n = s_local) then
        Ok (added, PUSH_CODE (mkcode VM_LABEL VMOP_LABEL (DLabel (-1))) s)
      else if decide (n = s_setup_global) then Ok (added, set_is_global true s)
      else Ok (added, PUSH_CODE (mkcode VM_LABEL VMOP_LABEL (DLabel (Z.of_nat (length (ls_labels s)))))
                 (push_label n (set_is_global false s)))
  | (VM_RET | VM_CLUP | VM_CLPOP | VM_ENTER), DSize n =>
      if ls_is_global s then Ok (n, s)
      else Ok (added, PUSH_CODE (mkcode (c_opcode c) VMOP_NONE (DSize n)) s)
  | VM_PUSH, DImm (ImmStr i) =>
      str ← string_at N i; '(index, s) ← push_string str s;
      Ok (added, PUSH_CODE (mkcode VM_PUSH VMOP_CHARP (DImm (ImmStr index))) s)
  | VM_REFLIB, DName n => Ok (added, add_import_module n s)
  | _, _ =>
      match import_payload c with
      | Some d => Ok (added, note_global (noted_address c)
                               (PUSH_CODE (mkcode (c_opcode c) (import_optype c) d) s))
      | None => Exit "Import filed with invalid module file"
      end
  end.

Fixpoint import_codes (l : list vm_code) (as_ : Z * lstate) : outcome (Z * lstate) :=
  match l with [] => Ok as_ | c :: l => as_ ← import_code c as_; import_codes l as_ end.

(** ** The instructions that can be saved *)

Definition float_ok (f : fty) (b : Z) : bool :=
  (0 <=? b) && (b <? 2 ^ (8 * Z.of_nat (fsize f))) &&
  bool_decide (f_encode f (f_decode f b) = b) && match f_decode f b with SpecFloat.S754_nan => false | _ => true end.

Definition string_ok (i : Z) : bool :=
  match string_at N i with Ok s => name_ok s | _ => false end.

Definition savable (c : vm_code) : bool :=
  match c_opcode c, c_d c with
  | VM_LABEL, DLabel i =>
      match get_vm_label_name N i with
      | Ok n => name_ok n && bool_decide (n ≠ s_magic)
      | _ => false
      end
  | (VM_STORE | VM_FZERO | VM_DEREF | VM_DEPOP), DAddr a => addr_ok gb a
  | VM_POP, DAddr a => addr_ok gb a && bool_decide (c_type c ≠ VMOP_NONE)
  | VM_POP, DSize n => in_range I32 n && bool_decide (c_type c = VMOP_NONE)
  | VM_CALL, DAddr a => if decide (c_type c = VMOP_ADDR) then addr_ok gb a else name_ok (a_name a)
  | (VM_RET | VM_CLUP | VM_CLPOP | VM_ENTER), DSize n => in_range I32 n
  | VM_CAST, DCast src dst => type_ok src && type_ok dst
  | (VM_JMP | VM_JZ | VM_JNZ | VM_TBL_ENTRY), DAddr a => in_range I32 (a_index a)
  | VM_PUSH, DAddr a =>
      match c_type c with
      | VMOP_ADDR | VMOP_VARI | VMOP_VARU | VMOP_VAROBJ | VMOP_VARFL => addr_ok gb a
      | VMOP_FUNCNAME => name_ok (a_name a)
      | _ => false
      end
  | VM_PUSH, DImm (ImmBits b) =>
      match c_type c with
      | VMOP_FLT => float_ok F32 b | VMOP_DBL => float_ok F64 b | VMOP_LDBL => float_ok F80 b
      | t => bool_decide (int_optype t ≠ None)
      end
  | VM_PUSH, DImm (ImmStr i) => bool_decide (c_type c = VMOP_CHARP) && string_ok i
  | VM_REFLIB, DName n => name_ok n
  | (VM_NOP | VM_HALT | VM_ALLOCA | VM_INC | VM_DEC | VM_JMPTBL | VM_NOT | VM_NEG | VM_ADD
    | VM_SUB | VM_MUL | VM_DIV | VM_MOD | VM_AND | VM_OR | VM_XOR | VM_SHL | VM_SHR | VM_EQ
    | VM_NE | VM_GE | VM_GT | VM_LE | VM_LT), _ => true
  | _, _ => false
  end.

(** ** What the loader consumes *)

(** The parser depends on the bytes that it consumes only, and stops with the
    diagnosis of [vm_fgetc] when some of them are missing. *)
Definition exact {A} (p : parser A) : Prop :=
  ∀ i a j, p i = Ok (a, j) → ∃ used, i = used ++ j ∧ (∀ rest, p (used ++ rest) = Ok (a, rest)) ∧
    ∀ x y, used = x ++ y → y ≠ [] → p x = file_ended.

Lemma exact_ret {A} (a : A) : exact (λ i, Ok (a, i)).
Proof.
  intros i b j [= <- <-]. exists []. split; [done|]. split; [done|].
  intros x y H Hy. symmetry in H. by apply app_nil in H as [_ ?].
Qed.
Lemma exact_exit {A} e : exact (λ _, Exit e : outcome (A * list Z)).
Proof. intros i a j H. discriminate H. Qed.
Lemma exact_undef {A} e : exact (λ _, Undef e : outcome (A * list Z)).
Proof. intros i a j H. discriminate H. Qed.
Lemma exact_lift {A B} (o : outcome A) (f : A → parser B) :
  (∀ a, exact (f a)) → exact (λ i, a ← o; f a i).
Proof. intros Hf. destruct o as [a|e|e]; [apply Hf|apply exact_exit|apply exact_undef]. Qed.

Lemma exact_bind {A B} (p : parser A) (f : A → parser B) :
  exact p → (∀ a, exact (f a)) → exact (λ i, '(a, i) ← p i; f a i).
Proof.
  intros Hp Hf i b k H. apply bind_ok_inv in H as ([a j] & Ha & H).
  destruct (Hp i a j Ha) as (u & -> & Hu & Hux). destruct (Hf a j b k H) as (v & -> & Hv & Hvx).
  exists (u ++ v). rewrite <-app_assoc. split; [done|]. split.
  { intros rest. rewrite <-app_assoc, Hu. exact (Hv rest). }
  intros x y Hxy Hy. apply app_eq_inv in Hxy as [(z & -> & Hz)|(z & -> & Hz)].
  - destruct z as [|c z].
    + specialize (Hu []). rewrite !app_nil_r in Hu. rewrite Hu. cbn [mbind outcome_bind].
      subst y. exact (Hvx [] v eq_refl Hy).
    + by rewrite (Hux x (c :: z)).
  - rewrite Hu. cbn [mbind outcome_bind]. exact (Hvx z y Hz Hy).
Qed.

Lemma exact_fgetc : exact vm_fgetc.
Proof.
  intros [|c i] b j H; [done|]. injection H as <- <-. exists [c]. split; [done|]. split; [done|].
  intros [|d x] y Hxy Hy; [done|]. injection Hxy as _ Hxy. symmetry in Hxy.
  by apply app_nil in Hxy as [_ ?].
Qed.

Create HintDb exact.
#[local] Hint Resolve exact_fgetc : exact.
Ltac exact_step :=
  first [solve [eauto with exact]
    |apply exact_ret|apply exact_exit|apply exact_undef
    |apply exact_lift; intros ?|apply exact_bind; [|intros ?]
    |match goal with
     | |- context [match ?x with _ => _ end] => is_var x; destruct x
     | |- context [if decide ?P then _ else _] => destruct (decide P)
     | |- context [if ls_is_global ?s then _ else _] => destruct (ls_is_global s)
     end].
Ltac exact_tac := cbv zeta; repeat exact_step.

Lemma exact_byte : exact vm_load_byte.
Proof. unfold vm_load_byte. exact_tac. Qed.
Lemma exact_word : exact vm_load_word.
Proof. unfold vm_load_word. exact_tac. Qed.
Lemma exact_dword : exact vm_load_dword.
Proof. unfold vm_load_dword. exact_tac. Qed.
Lemma exact_qword : exact vm_load_qword.
Proof. unfold vm_load_qword. exact_tac. Qed.
#[local] Hint Resolve exact_byte exact_word exact_dword exact_qword : exact.
Lemma exact_type : exact vm_load_type.
Proof. unfold vm_load_type. exact_tac. Qed.
Lemma exact_size : exact vm_load_size.
Proof. unfold vm_load_size. exact_tac. Qed.
Lemma exact_cast_type : exact (vm_load_cast_type uninit_ref).
Proof. unfold vm_load_cast_type. exact_tac. Qed.
#[local] Hint Resolve exact_type exact_size exact_cast_type : exact.
Lemma exact_address : exact (vm_load_address gb).
Proof. unfold vm_load_address. exact_tac. Qed.
Lemma exact_chars : exact load_chars.
Proof.
  intros i. induction i as [|c i IH]; intros n j H; [done|]. simpl in H.
  destruct (c =? 0) eqn:Hc.
  { injection H as <- <-. exists [c]. split; [done|]. split; [intros; simpl; by rewrite Hc|].
    intros [|d x] y Hxy Hy; [done|]. injection Hxy as _ Hxy. symmetry in Hxy.
    by apply app_nil in Hxy as [_ ?]. }
  apply bind_ok_inv in H as ([s k] & Ha & H). injection H as <- <-.
  destruct (IH s k Ha) as (u & -> & Hu & Hux). exists (c :: u). split; [done|]. split.
  - intros rest. simpl. by rewrite Hc, Hu.
  - intros [|d x] y Hxy Hy; [done|]. injection Hxy as <- Hxy. simpl. by rewrite Hc, (Hux x y).
Qed.
#[local] Hint Resolve exact_address exact_chars : exact.
Lemma exact_label : exact vm_load_label.
Proof. unfold vm_load_label. exact_tac. Qed.
#[local] Hint Resolve exact_label : exact.

Lemma exact_addr_code op t s : exact (load_addr_code gb op t s).
Proof. unfold load_addr_code. exact_tac. Qed.
#[local] Hint Resolve exact_addr_code : exact.
Lemma exact_push s : exact (load_push gb s).
Proof. unfold load_push. exact_tac. Qed.
#[local] Hint Resolve exact_push : exact.
Lemma exact_record op added s : exact (load_record uninit_ref gb op added s).
Proof. unfold load_record, vm_load_address_index. exact_tac. Qed.

Lemma load_record_shrinks op added s i added' s' j :
  load_record uninit_ref gb op added s i = Ok (added', s', j) → (length j ≤ length i)%nat.
Proof.
  intros H. apply exact_record in H as (u & -> & _). rewrite length_app. lia.
Qed.

(** More fuel than bytes changes nothing. *)
Lemma load_loop_fuel n k added s i : (length i < n)%nat → (length i < k)%nat →
  load_loop uninit_ref gb n added s i = load_loop uninit_ref gb k added s i.
Proof.
  revert k added s i. induction n as [|n IH]; intros k added s i Hn Hk; [lia|].
  destruct k as [|k]; [lia|]. simpl. destruct i as [|b i]; [done|].
  destruct (opcode_of_code b) as [op|]; [|done].
  destruct (load_record uninit_ref gb op added s i) as [[[a' s'] j]|e|e] eqn:Hr; [|done|done].
  apply load_record_shrinks in Hr. simpl in *. apply IH; lia.
Qed.

(** ** The round trip *)

Definition module_loop (added : Z) (s : lstate) (i : list Z) : option (outcome (Z * lstate)) :=
  load_loop uninit_ref gb (S (length i)) added s i.

Definition continue (o : outcome (Z * lstate)) (rest : list Z) : option (outcome (Z * lstate)) :=
  match o with
  | Ok (added, s) => module_loop added s rest
  | Exit e => Some (Exit e)
  | Undef e => Some (Undef e)
  end.

Lemma load_loop_cons n added s b i :
  load_loop uninit_ref gb (S n) added s (b :: i) =
  match opcode_of_code b with
  | None => Some (Exit "Import filed with invalid module file")
  | Some op =>
      match load_record uninit_ref gb op added s i with
      | Ok (added, s, i) => load_loop uninit_ref gb n added s i
      | Exit e => Some (Exit e)
      | Undef e => Some (Undef e)
      end
  end.
Proof. reflexivity. Qed.

Lemma module_record op added s i :
  module_loop added s (sel_put_code_byte (opcode_code op) ++ i) =
  match load_record uninit_ref gb op added s i with
  | Ok (added, s, j) => module_loop added s j
  | Exit e => Some (Exit e)
  | Undef e => Some (Undef e)
  end.
Proof.
  unfold module_loop, sel_put_code_byte.
  assert (Hop : Z.land (opcode_code op) 0xFF = opcode_code op) by (by destruct op).
  rewrite Hop. cbn [app length]. rewrite load_loop_cons, opcode_of_code_code.
  destruct (load_record uninit_ref gb op added s i) as [[[a' s'] j]|e|e] eqn:Hr; [|done|done].
  apply load_record_shrinks in Hr. apply load_loop_fuel; simpl; lia.
Qed.

Lemma module_global added s a rest : negb (a_global a) || name_ok (a_name a) = true →
  module_loop added s (global_record a ++ rest) = module_loop added (note_global a s) rest.
Proof.
  unfold global_record, note_global. destruct (a_global a); [|done]. intros Hn. simpl in Hn.
  unfold sel_put_global. rewrite <-app_assoc, module_record.
  unfold load_record. rewrite reads_label by done. reflexivity.
Qed.

Lemma addr_ok_name a : addr_ok gb a = true → negb (a_global a) || name_ok (a_name a) = true.
Proof. unfold addr_ok. rewrite !andb_true_iff. tauto. Qed.

(** [c] is written, and what is written is loaded as [import_code] says. *)
Definition transfers (c : vm_code) : Prop :=
  ∃ bs, serialize_code N c = Ok bs ∧
    ∀ added s rest, module_loop added s (bs ++ rest) = continue (import_code c (added, s)) rest.

(** One record: its opcode, then what [load_record] makes of the rest. *)
Ltac record := intros; rewrite <-app_assoc, module_record; unfold load_record, save_type;
  cbn [c_opcode c_type]; rewrite <-?app_assoc.
Ltac transfer := eexists; split; [reflexivity|]; record.

Lemma load_addr_transfers op t s a rest : addr_ok gb a = true →
  load_addr_code gb op t s (sel_put_address a ++ rest) =
  Ok (PUSH_CODE (mkcode op t (DAddr (relocate_addr gb a))) s, global_record a ++ rest).
Proof. intros Ha. unfold load_addr_code. by rewrite reads_address. Qed.

Lemma transfers_addr i op t a :
  op ∈ [VM_STORE; VM_FZERO; VM_DEREF; VM_DEPOP] → addr_ok gb a = true →
  transfers (VmCode i op t (DAddr a)).
Proof.
  intros Hop Ha. pose proof (addr_ok_name a Ha).
  repeat (apply elem_of_cons in Hop as [->|Hop];
    [transfer; rewrite reads_type; cbn [mbind outcome_bind]; rewrite load_addr_transfers by done;
     by apply module_global|]).
  by apply not_elem_of_nil in Hop.
Qed.

Lemma transfers_call i t a :
  (if decide (t = VMOP_ADDR) then addr_ok gb a else name_ok (a_name a)) = true →
  transfers (VmCode i VM_CALL t (DAddr a)).
Proof.
  intros Ha. transfer. rewrite reads_type. cbn [mbind outcome_bind].
  unfold import_code, import_payload, noted_address, import_optype. cbn [c_opcode c_type c_d].
  destruct (decide (t = VMOP_ADDR)) as [->|Hne].
  - rewrite load_addr_transfers by done. apply module_global. by apply addr_ok_name.
  - rewrite reads_label by done. cbn [mbind outcome_bind].
    destruct t; reflexivity.
Qed.

Lemma transfers_label i t l : savable (VmCode i VM_LABEL t (DLabel l)) = true →
  transfers (VmCode i VM_LABEL t (DLabel l)).
Proof.
  unfold savable. cbn [c_opcode c_d].
  destruct (get_vm_label_name N l) as [n| |] eqn:Hn; [|done|done].
  rewrite andb_true_iff, bool_decide_eq_true. intros [Hok Hm].
  eexists. split.
  { unfold serialize_code, d_lindex. cbn [c_opcode c_d mbind outcome_bind].
    rewrite Hn. reflexivity. }
  record. unfold import_code, label_name. cbn [c_opcode c_d]. rewrite Hn.
  set (n' := if decide (head n = Some 46) then s_local else n).
  assert (Hn' : name_ok n' = true) by (unfold n'; case_decide; [done|done]).
  assert (Hh : head n' = Some 46 ↔ n' = s_local).
  { unfold n'. case_decide; [done|]. split; [done|]. by intros ->. }
  assert (Hm' : n' ≠ s_magic) by (unfold n'; case_decide; done).
  clearbody n'. rewrite reads_label by done. cbn [mbind outcome_bind].
  rewrite (decide_False (P := n' = s_magic)) by done.
  destruct (decide (head n' = Some 46)) as [Hd|Hd].
  - rewrite (decide_True (P := n' = s_local)) by (by apply Hh). reflexivity.
  - rewrite (decide_False (P := n' = s_local)) by (intros He; by apply Hd, Hh).
    destruct (decide (n' = s_setup_global)); reflexivity.
Qed.

Lemma transfers_size i op t n :
  op ∈ [VM_RET; VM_CLUP; VM_CLPOP; VM_ENTER] → in_range I32 n = true →
  transfers (VmCode i op t (DSize n)).
Proof.
  intros Hop Hn.
  repeat (apply elem_of_cons in Hop as [->|Hop];
    [transfer; rewrite reads_size by done; cbn [mbind outcome_bind];
     unfold import_code; cbn [c_opcode c_d]; destruct (ls_is_global s); reflexivity|]).
  by apply not_elem_of_nil in Hop.
Qed.

Lemma transfers_jump i op t a :
  op ∈ [VM_JMP; VM_JZ; VM_JNZ; VM_TBL_ENTRY] → in_range I32 (a_index a) = true →
  transfers (VmCode i op t (DAddr a)).
Proof.
  intros Hop Ha.
  repeat (apply elem_of_cons in Hop as [->|Hop];
    [transfer; unfold vm_load_address_index, sel_put_address_index;
     rewrite reads_size by done; reflexivity|]).
  by apply not_elem_of_nil in Hop.
Qed.

Lemma transfers_cast i t src dst : type_ok src && type_ok dst = true →
  transfers (VmCode i VM_CAST t (DCast src dst)).
Proof.
  rewrite andb_true_iff. intros [Hs Hd]. transfer.
  rewrite reads_cast_type by done. cbn [mbind outcome_bind].
  rewrite reads_cast_type by done. reflexivity.
Qed.

Lemma transfers_pop i t d : savable (VmCode i VM_POP t d) = true →
  transfers (VmCode i VM_POP t d).
Proof.
  unfold savable. cbn [c_opcode c_d c_type].
  destruct d as [| |n| | |a|]; try discriminate;
    rewrite andb_true_iff, bool_decide_eq_true; intros [Hok Ht].
  - subst t. transfer. rewrite reads_type. cbn [mbind outcome_bind].
    rewrite decide_True by done. rewrite reads_size by done. reflexivity.
  - eexists. split.
    { unfold serialize_code. cbn [c_opcode c_type d_addr c_d mbind outcome_bind].
      rewrite decide_False by done. reflexivity. }
    record. rewrite reads_type. cbn [mbind outcome_bind].
    rewrite decide_False by done. rewrite load_addr_transfers by done.
    apply module_global. by apply addr_ok_name.
Qed.

Lemma transfers_push_addr i t a : savable (VmCode i VM_PUSH t (DAddr a)) = true →
  transfers (VmCode i VM_PUSH t (DAddr a)).
Proof.
  unfold savable. cbn [c_opcode c_d c_type].
  destruct t; intros Ha; try discriminate;
    transfer; unfold load_push; rewrite reads_type; cbn [mbind outcome_bind];
    [rewrite load_addr_transfers by done; apply module_global; by apply addr_ok_name..
    |rewrite reads_label by done; reflexivity].
Qed.

Lemma name_ok_print f b : name_ok (print_a f b) = true.
Proof.
  unfold name_ok. rewrite andb_true_iff, Nat.ltb_lt. split.
  - apply forallb_forall. intros c Hc. apply list_elem_of_In in Hc.
    pose proof (print_chars f b) as H. rewrite Forall_forall in H. specialize (H c Hc).
    rewrite andb_true_iff, !Z.ltb_lt. lia.
  - pose proof (print_length f b). lia.
Qed.

Lemma scan_print_ok f b : float_ok f b = true → scan_f f (print_a f b) = b.
Proof.
  unfold float_ok. rewrite !andb_true_iff, bool_decide_eq_true, Z.leb_le, Z.ltb_lt.
  intros [[H0 H1] H2]. apply scan_print; [done|done|]. by destruct (f_decode f b).
Qed.

Lemma transfers_push_imm i t b : savable (VmCode i VM_PUSH t (DImm (ImmBits b))) = true →
  transfers (VmCode i VM_PUSH t (DImm (ImmBits b))).
Proof.
  unfold savable. cbn [c_opcode c_d c_type].
  destruct t; intros Ha; try discriminate;
    transfer; unfold load_push; rewrite reads_type; cbn [mbind outcome_bind];
    first [rewrite reads_byte by (apply (wrap_u_range 8); lia)
          |rewrite reads_word by (apply wrap_u_range; lia)
          |rewrite reads_dword by (apply wrap_u_range; lia)
          |rewrite reads_qword by (apply wrap_u_range; lia)
          |rewrite reads_label by apply name_ok_print]; cbn [mbind outcome_bind];
    rewrite ?scan_print_ok by done; reflexivity.
Qed.

Lemma transfers_push_str i t j : savable (VmCode i VM_PUSH t (DImm (ImmStr j))) = true →
  transfers (VmCode i VM_PUSH t (DImm (ImmStr j))).
Proof.
  unfold savable, string_ok. cbn [c_opcode c_d c_type].
  rewrite andb_true_iff, bool_decide_eq_true. intros [-> Hs].
  destruct (string_at N j) as [str| |] eqn:Hj; [|done|done].
  eexists. split.
  { unfold serialize_code, save_push, d_str. cbn [c_opcode c_d c_type mbind outcome_bind].
    rewrite Hj. reflexivity. }
  record. unfold load_push, import_code. cbn [c_opcode c_d]. rewrite reads_type.
  cbn [mbind outcome_bind]. rewrite reads_label by done. rewrite Hj.
  cbn [mbind outcome_bind]. destruct (push_string str s) as [[j' s']| |]; reflexivity.
Qed.

(** Instructions without an operand, or with their operand type only. *)
Lemma transfers_plain i op t d :
  op ∈ [VM_NOP; VM_HALT; VM_ALLOCA; VM_INC; VM_DEC; VM_JMPTBL; VM_NOT; VM_NEG; VM_ADD; VM_SUB;
    VM_MUL; VM_DIV; VM_MOD; VM_AND; VM_OR; VM_XOR; VM_SHL; VM_SHR; VM_EQ; VM_NE; VM_GE; VM_GT;
    VM_LE; VM_LT] →
  transfers (VmCode i op t d).
Proof.
  intros Hop.
  repeat (apply elem_of_cons in Hop as [->|Hop];
    [transfer; rewrite ?reads_type; by destruct d|]).
  by apply not_elem_of_nil in Hop.
Qed.

Lemma transfers_reflib i t n : name_ok n = true → transfers (VmCode i VM_REFLIB t (DName n)).
Proof. intros Hn. transfer. rewrite reads_label by done. reflexivity. Qed.

Lemma savable_transfers c : savable c = true → transfers c.
Proof.
  destruct c as [i op t d]. intros Hs.
  destruct op; try (apply transfers_plain; in_list);
    destruct d as [|l|n|n|src dst|a|[b|j]]; try discriminate Hs;
    first [exact (transfers_label _ _ _ Hs)
          |apply transfers_addr; [in_list|exact Hs]
          |exact (transfers_call _ _ _ Hs)
          |apply transfers_size; [in_list|exact Hs]
          |apply transfers_jump; [in_list|exact Hs]
          |exact (transfers_cast _ _ _ _ Hs)
          |exact (transfers_pop _ _ _ Hs)
          |exact (transfers_push_addr _ _ _ Hs)
          |exact (transfers_push_imm _ _ _ Hs)
          |exact (transfers_push_str _ _ _ Hs)
          |exact (transfers_reflib _ _ _ Hs)].
Qed.

Lemma codes_transfer l : Forall (λ c, savable c = true) l →
  ∃ bs, serialize_codes N l = Ok bs ∧
    ∀ added s, module_loop added s bs = Some (import_codes l (added, s)).
Proof.
  induction 1 as [|c l Hc _ (bs' & Hs' & Hl')]; [by exists []|].
  destruct (savable_transfers c Hc) as (bs & Hs & Hl).
  exists (bs ++ bs'). split; [simpl; by rewrite Hs, Hs'|].
  intros added s. rewrite Hl. cbn [import_codes].
  destruct (import_code c (added, s)) as [[a' s']| |]; [apply Hl'|reflexivity..].
Qed.

(** ** Cut files *)

(** One record after the other: each is an opcode and what [load_record] takes. *)
Inductive loaded : Z → lstate → list (list Z) → Z → lstate → Prop :=
| loaded_nil added s : loaded added s [] added s
| loaded_cons added s b op r added1 s1 rs added2 s2 :
    opcode_of_code b = Some op →
    load_record uninit_ref gb op added s r = Ok (added1, s1, []) →
    loaded added1 s1 rs added2 s2 →
    loaded added s ((b :: r) :: rs) added2 s2.

Lemma module_loop_cons added s b i :
  module_loop added s (b :: i) =
  match opcode_of_code b with
  | None => Some (Exit "Import filed with invalid module file")
  | Some op =>
      match load_record uninit_ref gb op added s i with
      | Ok (added, s, j) => module_loop added s j
      | Exit e => Some (Exit e)
      | Undef e => Some (Undef e)
      end
  end.
Proof.
  unfold module_loop. cbn [length]. rewrite load_loop_cons.
  destruct (opcode_of_code b) as [op|]; [|done].
  destruct (load_record uninit_ref gb op added s i) as [[[a' s'] j]|e|e] eqn:Hr; [|done|done].
  apply load_record_shrinks in Hr. apply load_loop_fuel; simpl; lia.
Qed.

Lemma loaded_prefix added s rs added' s' rest : loaded added s rs added' s' →
  module_loop added s (concat rs ++ rest) = module_loop added' s' rest.
Proof.
  induction 1 as [|added s b op r added1 s1 rs added2 s2 Hb Hr _ IH]; [done|].
  apply exact_record in Hr as (u & -> & Hu & _). rewrite app_nil_r.
  cbn [concat app]. rewrite <-app_assoc, module_loop_cons, Hb.
  rewrite Hu. exact IH.
Qed.

Lemma loaded_cut added s rs1 r rs2 added' s' x y :
  loaded added s (rs1 ++ r :: rs2) added' s' → r = x ++ y → x ≠ [] → y ≠ [] →
  module_loop added s (concat rs1 ++ x) = Some file_ended.
Proof.
  intros Hl -> Hx Hy. remember (rs1 ++ (x ++ y) :: rs2) as rs eqn:Hrs. revert rs1 Hrs.
  induction Hl as [|added s b op r added1 s1 rs added2 s2 Hb Hr Hl IH]; intros rs1 Hrs.
  { by destruct rs1. }
  apply exact_record in Hr as (u & Hru & Hu & Hcut). rewrite app_nil_r in Hru. subst u.
  destruct rs1 as [|r1 rs1]; simpl in Hrs; injection Hrs as Hr1 Hrs.
  - destruct x as [|c x]; [done|]. injection Hr1 as <- Hr1. cbn [concat app].
    rewrite module_loop_cons, Hb, (Hcut x y Hr1 Hy). done.
  - subst r1. cbn [concat app]. rewrite <-app_assoc, module_loop_cons, Hb, Hu.
    by apply IH.
Qed.

Lemma module_loop_loaded n added s i added' s' : (length i < n)%nat →
  module_loop added s i = Some (Ok (added', s')) →
  ∃ rs, concat rs = i ∧ loaded added s rs added' s'.
Proof.
  revert added s i. induction n as [|n IH]; intros added s i Hn H; [lia|].
  destruct i as [|b i].
  { injection H as <- <-. exists []. split; [done|constructor]. }
  rewrite module_loop_cons in H. destruct (opcode_of_code b) as [op|] eqn:Hb; [|done].
  destruct (load_record uninit_ref gb op added s i) as [[[a1 s1] j]|e|e] eqn:Hr; [|done|done].
  apply exact_record in Hr as (u & -> & Hu & _). simpl in Hn. rewrite length_app in Hn.
  destruct (IH a1 s1 j ltac:(lia) H) as (rs & <- & Hl). exists ((b :: u) :: rs).
  split; [done|]. econstructor; [exact Hb| |exact Hl]. specialize (Hu []).
  by rewrite app_nil_r in Hu.
Qed.

End loading.

(** The loader does to the linker what importing the instructions one by one does. *)
Lemma module_transfer `{FT : FloatText} (N : image_env) uninit_ref s codes :
  Forall (λ c, savable N (ls_gsize s) c = true) codes →
  ∃ bs, serialize_lir N codes = Ok bs ∧
    vm_load_module uninit_ref s bs =
    Some ('(added, s') ← import_codes N uninit_ref (ls_gsize s) codes (0, s);
          add_global_variable_size added s').
Proof.
  intros Hs. destruct (codes_transfer N uninit_ref (ls_gsize s) codes Hs) as (bs & Hb & Hl).
  exists (sel_put_magic_number ++ bs). unfold serialize_lir. rewrite Hb. split; [done|].
  unfold vm_load_module.
  change (load_loop uninit_ref (ls_gsize s) (S (length (sel_put_magic_number ++ bs))) 0 s
    (sel_put_magic_number ++ bs)) with
    (module_loop uninit_ref (ls_gsize s) 0 s (sel_put_magic_number ++ bs)).
  unfold sel_put_magic_number. rewrite <-app_assoc, module_record. unfold load_record.
  rewrite reads_label by done. cbn [mbind outcome_bind].
  rewrite (decide_True (P := s_magic = s_magic)) by done. cbn [mbind outcome_bind].
  rewrite Hl. reflexivity.
Qed.

(** C17: Round trip: a program whose instructions can be saved is written, and
    loading the file does to the linker what importing the instructions one by
    one does: it relocates global variables, resolves calls by name, gives the
    labels new numbers and copies the string literals. *)
Theorem load_serialize `{FT : FloatText} (N : image_env) uninit_ref s codes :
  Forall (λ c, savable N (ls_gsize s) c = true) codes →
  ∃ bs, serialize_lir N codes = Ok bs ∧
    vm_load_module uninit_ref s bs =
    Some ('(added, s') ← import_codes N uninit_ref (ls_gsize s) codes (0, s);
          add_global_variable_size added s').
Proof. exact (module_transfer N uninit_ref s codes). Qed.

(** C38: A module that loads is a sequence of records, each an opcode and exactly
    the bytes that its loader takes, and a file cut inside any of them is
    rejected with the diagnosis of an unexpected end: no instruction is made up
    from missing bytes. *)
Theorem truncated_module_rejected `{FT : FloatText} u ls file ls' :
  vm_load_module u ls file = Some (Ok ls') →
  ∃ rs added s, file = concat rs ∧ loaded u (ls_gsize ls) 0 ls rs added s ∧
    add_global_variable_size added s = Ok ls' ∧
    ∀ rs1 r rs2 x y, rs = rs1 ++ r :: rs2 → r = x ++ y → x ≠ [] → y ≠ [] →
      vm_load_module u ls (concat rs1 ++ x) = Some file_ended.
Proof.
  intros H. unfold vm_load_module in H.
  change (load_loop _ _ _ _ _ _) with (module_loop u (ls_gsize ls) 0 ls file) in H.
  destruct (module_loop u (ls_gsize ls) 0 ls file) as [[[added s]|e|e]|] eqn:Hm;
    [|done..]. injection H as H.
  destruct (module_loop_loaded u (ls_gsize ls) (S (length file)) 0 ls file added s) as (rs & <- & Hl);
    [lia|done|].
  exists rs, added, s. split; [done|]. split; [done|]. split; [done|].
  intros rs1 r rs2 x y -> Hr Hx Hy. unfold vm_load_module.
  change (load_loop _ _ _ _ _ _) with (module_loop u (ls_gsize ls) 0 ls (concat rs1 ++ x)).
  by rewrite (loaded_cut u (ls_gsize ls) 0 ls rs1 r rs2 added s x y).
Qed.

(** ** Instances *)

(** A text of floating values for closed instances: the digits of the bits. *)
Fixpoint digits (n : nat) (z : Z) : list Z :=
  match n with O => [] | S n => 65 + z mod 16 :: digits n (z / 16) end.
Fixpoint undigits (l : list Z) : Z :=
  match l with [] => 0 | c :: l => (c - 65) + 16 * undigits l end.

Lemma undigits_digits n z : 0 ≤ z < 16 ^ Z.of_nat n → undigits (digits n z) = z.
Proof.
  revert z. induction n as [|n IH]; intros z Hz; simpl; [simpl in Hz; lia|].
  rewrite Nat2Z.inj_succ, Z.pow_succ_r in Hz by lia.
  rewrite IH by (split; [apply Z.div_pos; lia|apply Z.div_lt_upper_bound; lia]).
  pose proof (Z.div_mod z 16). lia.
Qed.

Lemma digits_chars n z : Forall (λ c, 0 < c < 256) (digits n z).
Proof.
  revert z. induction n as [|n IH]; intros z; simpl; constructor; [|done].
  pose proof (Z.mod_pos_bound z 16). lia.
Qed.

Lemma length_digits n z : length (digits n z) = n.
Proof. revert z. induction n; intros; simpl; auto. Qed.

#[export, refine] Instance digits_text : FloatText :=
  {| print_a f b := digits 20 b; scan_f f l := undigits l |}.
Proof.
  - intros f b Hb _ _. apply undigits_digits. split; [lia|].
    assert (2 ^ (8 * Z.of_nat (fsize f)) ≤ 16 ^ Z.of_nat 20) by (destruct f; vm_compute; congruence).
    lia.
  - intros f b. apply digits_chars.
  - intros f b. rewrite length_digits. lia.
Defined.

(** A module with a global variable, a string, a function and a call of it. *)
Definition demo_image : image_env := ImageEnv [cstr "f"; s_setup_global] (cstr "hi" ++ [0]).
Definition demo_global : vm_address := VmAddress (cstr "g") true 4 0 4 4 None.
Definition demo_module : list vm_code :=
  [mkcode VM_LABEL VMOP_LABEL (DLabel 0);
   mkcode VM_ENTER VMOP_NONE (DSize 8);
   mkcode VM_PUSH VMOP_CHARP (DImm (ImmStr 0));
   mkcode VM_PUSH VMOP_DBL (DImm (ImmBits (f_of_z F64 3)));
   mkcode VM_PUSH VMOP_INT32 (DImm (ImmBits (-1)));
   mkcode VM_POP VMOP_INT32 (DAddr demo_global);
   mkcode VM_CALL VMOP_FUNCADDR (DAddr (VmAddress (cstr "f") false 0 0 0 0 None));
   mkcode VM_RET VMOP_NONE (DSize 4);
   mkcode VM_LABEL VMOP_LABEL (DLabel 1);
   mkcode VM_ENTER VMOP_NONE (DSize 8)].
Definition demo_linker : lstate := LState [] [] [] (replicate 16 0) 0 [] [] false 32.

Lemma load_serialize_witness :
  ∃ bs s, serialize_lir demo_image demo_module = Ok bs ∧
    vm_load_module 0 demo_linker bs = Some (Ok s) ∧
    ls_gsize s = 40 ∧ ls_globals s = [VmLabel 32 (cstr "g")] ∧
    take 3 (ls_area s) = cstr "hi" ++ [0] ∧
    nth_error (ls_code s) 5 =
      Some (mkcode VM_POP VMOP_INT32 (DAddr (VmAddress s_dash true 36 32 4 4 None))).
Proof.
  destruct (load_serialize demo_image 0 demo_linker demo_module) as (bs & H1 & H2).
  { repeat constructor. }
  eexists bs, _. split; [exact H1|]. split; [etrans; [exact H2|]; vm_compute; reflexivity|].
  repeat split; vm_compute; reflexivity.
Defined.

(** The records of the module above. *)
Lemma truncated_module_rejected_witness :
  ∃ file ls', vm_load_module 0 demo_linker file = Some (Ok ls') ∧
    ∃ rs added s, file = concat rs ∧ loaded 0 32 0 demo_linker rs added s ∧
    add_global_variable_size added s = Ok ls' ∧
    ∀ rs1 r rs2 x y, rs = rs1 ++ r :: rs2 → r = x ++ y → x ≠ [] → y ≠ [] →
      vm_load_module 0 demo_linker (concat rs1 ++ x) = Some file_ended.
Proof.
  destruct (module_transfer demo_image 0 demo_linker demo_module) as (bs & H1 & H2).
  { repeat constructor. }
  destruct (import_codes demo_image 0 (ls_gsize demo_linker) demo_module (0, demo_linker))
    as [[added s]| |] eqn:Hi; [|vm_compute in Hi; discriminate Hi..].
  exists bs. eexists. split.
  - etrans; [exact H2|]. vm_compute in Hi. injection Hi as <- <-. vm_compute. reflexivity.
  - eapply (truncated_module_rejected 0 demo_linker bs). etrans; [exact H2|].
    vm_compute in Hi. injection Hi as <- <-. vm_compute. reflexivity.
Defined.

(** * Relocation of loaded code

    The instructions that the loader relocates by the base of a module's global
    variables behave as the saved ones do when the globals start there. *)

Definition set_gp (g : Z) (s : vm_state) : vm_state :=
  VmState (s_mem s) (s_ip s) (s_sp s) (s_bp s) g (s_retval s) (s_retsize s).

(** The instructions whose operand the loader relocates keep the invariant of
    the code generator that the index is the base plus the offset; that of a
    jump is the distance of its target. *)
Definition index_ok (c : vm_code) : bool :=
  match c_opcode c, c_d c with
  | (VM_JMP | VM_JZ | VM_JNZ | VM_TBL_ENTRY), _ => true
  | _, DAddr a => a_index a =? a_base a + a_offset a
  | _, _ => true
  end.

(** A call of a function is resolved by its name, not relocated. *)
Definition plain_import (c : vm_code) : bool :=
  match c_opcode c with VM_CALL => bool_decide (c_type c = VMOP_ADDR) | _ => true end.

Section Reloc.
Context `{FA : FloatArith} (E : vm_env).
Implicit Types s : vm_state.

(** The second computation is the first one with another [gp]; neither
    changes it. *)
Definition same (g0 g1 : Z) (o1 o2 : outcome vm_state) : Prop :=
  o2 = (s ← o1; Ok (set_gp g1 s)) ∧ ∀ s, o1 = Ok s → s_gp s = g0.
Definition same_v {A} (g0 g1 : Z) (o1 o2 : outcome (A * vm_state)) : Prop :=
  o2 = ('(a, s) ← o1; Ok (a, set_gp g1 s)) ∧ ∀ a s, o1 = Ok (a, s) → s_gp s = g0.

Lemma same_ok g0 g1 s : s_gp s = g0 → same g0 g1 (Ok s) (Ok (set_gp g1 s)).
Proof. split; [done|]. intros s' [= <-]. done. Qed.
Lemma same_v_ok {A} g0 g1 (a : A) s : s_gp s = g0 → same_v g0 g1 (Ok (a, s)) (Ok (a, set_gp g1 s)).
Proof. split; [done|]. intros a' s' [= <- <-]. done. Qed.
Lemma same_exit g0 g1 e : same g0 g1 (Exit e) (Exit e).
Proof. split; [done|]. intros s' H. discriminate H. Qed.
Lemma same_undef g0 g1 e : same g0 g1 (Undef e) (Undef e).
Proof. split; [done|]. intros s' H. discriminate H. Qed.
Lemma same_bind {A} g0 g1 (o : outcome A) f h :
  (∀ a, same g0 g1 (f a) (h a)) → same g0 g1 (o ≫= f) (o ≫= h).
Proof. intros H. destruct o; [apply H|apply same_exit|apply same_undef]. Qed.
Lemma same_v_bind {A B} g0 g1 (o : outcome A) (f h : A → outcome (B * vm_state)) :
  (∀ a, same_v g0 g1 (f a) (h a)) → same_v g0 g1 (o ≫= f) (o ≫= h).
Proof. intros H. destruct o; [apply H|split; [done|intros ? ? He; discriminate He]..]. Qed.
Lemma same_seq g0 g1 o1 o2 f h : same g0 g1 o1 o2 →
  (∀ s, s_gp s = g0 → same g0 g1 (f s) (h (set_gp g1 s))) → same g0 g1 (o1 ≫= f) (o2 ≫= h).
Proof.
  intros [-> Hg] H. destruct o1 as [s| |]; [|apply same_exit|apply same_undef].
  apply H. by apply Hg.
Qed.
Lemma same_seq_v {A} g0 g1 (o1 o2 : outcome (A * vm_state)) f h : same_v g0 g1 o1 o2 →
  (∀ a s, s_gp s = g0 → same g0 g1 (f (a, s)) (h (a, set_gp g1 s))) → same g0 g1 (o1 ≫= f) (o2 ≫= h).
Proof.
  intros [-> Hg] H. destruct o1 as [[a s]| |]; [|apply same_exit|apply same_undef].
  apply H. by eapply Hg.
Qed.

Lemma same_wr g1 t a v s : same (s_gp s) g1 (wr t a v s) (wr t a v (set_gp g1 s)).
Proof.
  unfold wr. simpl. destruct (mstore _ _ _ _); simpl; [by apply same_ok|apply same_undef].
Qed.
Lemma same_wrf g1 f a v s : same (s_gp s) g1 (wrf f a v s) (wrf f a v (set_gp g1 s)).
Proof.
  unfold wrf. simpl. destruct (mwrite _ _ _); simpl; [by apply same_ok|apply same_undef].
Qed.
Lemma same_copy g1 d r n s : same (s_gp s) g1 (copy d r n s) (copy d r n (set_gp g1 s)).
Proof.
  unfold copy. simpl. destruct (n <? 0); [apply same_undef|].
  destruct (mcopy _ _ _ _); simpl; [by apply same_ok|apply same_undef].
Qed.
Lemma same_zero g1 d n s : same (s_gp s) g1 (zero d n s) (zero d n (set_gp g1 s)).
Proof.
  unfold zero. simpl. destruct (n <? 0); [apply same_undef|].
  destruct (mwrite _ _ _); simpl; [by apply same_ok|apply same_undef].
Qed.

Lemma same_at g0 g1 o1 o2 s : s_gp s = g0 → same (s_gp s) g1 o1 o2 → same g0 g1 o1 o2.
Proof. by intros <-. Qed.
Lemma same_v_at {A} g0 g1 (o1 o2 : outcome (A * vm_state)) s :
  s_gp s = g0 → same_v (s_gp s) g1 o1 o2 → same_v g0 g1 o1 o2.
Proof. by intros <-. Qed.

Create HintDb same.
#[local] Hint Resolve same_wr same_wrf same_copy same_zero : same.

Ltac same_step :=
  lazymatch goal with
  | |- same _ _ (Ok _) _ => apply same_ok; simpl; solve [done|assumption]
  | |- same_v _ _ (Ok _) _ => apply same_v_ok; simpl; solve [done|assumption]
  | |- same _ _ (Exit _) _ => apply same_exit
  | |- same _ _ (Undef _) _ => apply same_undef
  | |- same _ _ (?o ≫= _) _ =>
      lazymatch type of o with
      | outcome vm_state => apply same_seq; [|intros ? ?]
      | outcome (_ * vm_state) => apply same_seq_v; [|intros ? ? ?]
      | _ => apply same_bind; intros ?
      end
  | |- same_v _ _ (_ ≫= _) _ => apply same_v_bind; intros ?
  | |- same _ _ (match ?x with _ => _ end) (match ?y with _ => _ end) =>
      change y with x; destruct x
  | |- same _ _ (_ ?s) _ => apply (same_at _ _ _ _ s); [solve [done|assumption]|solve [eauto with same]]
  | |- same_v _ _ (_ ?s) _ => apply (same_v_at _ _ _ _ s); [solve [done|assumption]|solve [eauto with same]]
  end.
Ltac same_tac := repeat same_step.

Lemma same_PUSHI g1 v s : same (s_gp s) g1 (PUSHI E v s) (PUSHI E v (set_gp g1 s)).
Proof. unfold PUSHI. same_tac. Qed.
Lemma same_PUSHF g1 f v s : same (s_gp s) g1 (PUSHF E f v s) (PUSHF E f v (set_gp g1 s)).
Proof. unfold PUSHF. same_tac. Qed.
Lemma same_POPI g1 t s : same_v (s_gp s) g1 (POPI E t s) (POPI E t (set_gp g1 s)).
Proof. unfold POPI. same_tac. Qed.
Lemma same_POPF g1 f s : same_v (s_gp s) g1 (POPF E f s) (POPF E f (set_gp g1 s)).
Proof. unfold POPF. same_tac. Qed.
#[local] Hint Resolve same_PUSHI same_PUSHF same_POPI same_POPF : same.
Lemma same_POPI_to g1 a t s : same (s_gp s) g1 (POPI_to E a t s) (POPI_to E a t (set_gp g1 s)).
Proof. unfold POPI_to. same_tac. Qed.
Lemma same_POPF_to g1 a f s : same (s_gp s) g1 (POPF_to E a f s) (POPF_to E a f (set_gp g1 s)).
Proof. unfold POPF_to. same_tac. Qed.
Lemma same_STOREI g1 a t s : same (s_gp s) g1 (STOREI E a t s) (STOREI E a t (set_gp g1 s)).
Proof. unfold STOREI. same_tac. Qed.
Lemma same_STOREF g1 a f s : same (s_gp s) g1 (STOREF E a f s) (STOREF E a f (set_gp g1 s)).
Proof. unfold STOREF. same_tac. Qed.
Lemma same_DEREFI g1 t s : same (s_gp s) g1 (DEREFI E t s) (DEREFI E t (set_gp g1 s)).
Proof. unfold DEREFI, POPA. same_tac. Qed.
Lemma same_DEREFF g1 f s : same (s_gp s) g1 (DEREFF E f s) (DEREFF E f (set_gp g1 s)).
Proof. unfold DEREFF, POPA. same_tac. Qed.
Lemma same_NEGI g1 t s : same (s_gp s) g1 (NEGI E t s) (NEGI E t (set_gp g1 s)).
Proof. unfold NEGI, set_TOPI. same_tac. Qed.
Lemma same_NEGF g1 f s : same (s_gp s) g1 (NEGF E f s) (NEGF E f (set_gp g1 s)).
Proof. unfold NEGF. same_tac. Qed.
Lemma same_OP2I g1 o t s : same (s_gp s) g1 (OP2I E o t s) (OP2I E o t (set_gp g1 s)).
Proof. unfold OP2I, set_TOPI. same_tac. Qed.
Lemma same_OP2F g1 o f s : same (s_gp s) g1 (OP2F E o f s) (OP2F E o f (set_gp g1 s)).
Proof. unfold OP2F. same_tac. Qed.
Lemma same_OP2DC g1 o f s : same (s_gp s) g1 (OP2DC E o f s) (OP2DC E o f (set_gp g1 s)).
Proof. unfold OP2DC, set_TOPI. same_tac. Qed.
Lemma same_OP2S g1 sh t s : same (s_gp s) g1 (OP2S E sh t s) (OP2S E sh t (set_gp g1 s)).
Proof. unfold OP2S. same_tac. Qed.
Lemma same_move_result g1 d r n s : same (s_gp s) g1 (move_result d r n s) (move_result d r n (set_gp g1 s)).
Proof. unfold move_result. same_tac. Qed.
Lemma same_float_to_int g1 t f a s : same (s_gp s) g1 (float_to_int t f a s) (float_to_int t f a (set_gp g1 s)).
Proof. unfold float_to_int. same_tac. Qed.
Lemma same_float_cvt g1 f g a s : same (s_gp s) g1 (float_cvt f g a s) (float_cvt f g a (set_gp g1 s)).
Proof. unfold float_cvt. same_tac. Qed.
#[local] Hint Resolve same_POPI_to same_POPF_to same_STOREI same_STOREF same_DEREFI same_DEREFF
  same_NEGI same_NEGF same_OP2I same_OP2F same_OP2DC same_OP2S same_move_result
  same_float_to_int same_float_cvt : same.
Lemma same_cast_from g1 ts tu x y s : same (s_gp s) g1 (cast_from E ts tu x y s) (cast_from E ts tu x y (set_gp g1 s)).
Proof. unfold cast_from. same_tac. Qed.
Lemma same_cast_from_float g1 y s : same (s_gp s) g1 (cast_from_float E y s) (cast_from_float E y (set_gp g1 s)).
Proof. unfold cast_from_float. same_tac. Qed.
Lemma same_cast_from_double g1 y s : same (s_gp s) g1 (cast_from_double E y s) (cast_from_double E y (set_gp g1 s)).
Proof. unfold cast_from_double. same_tac. Qed.
Lemma same_cast_from_ldouble g1 y s : same (s_gp s) g1 (cast_from_ldouble E y s) (cast_from_ldouble E y (set_gp g1 s)).
Proof. unfold cast_from_ldouble. same_tac. Qed.
#[local] Hint Resolve same_cast_from same_cast_from_float same_cast_from_double same_cast_from_ldouble : same.

(** ** The relocated instruction *)

Section Shift.
Variables (gb g0 : Z) (a : vm_address).
Let a' := relocate_addr gb a.
Hypothesis Ha : a_index a = a_base a + a_offset a.

Lemma at_var_shift s1 s2 : s_gp s1 = g0 → s2 = set_gp (g0 + gb) s1 → at_var E a s2 = at_var E a' s1.
Proof.
  intros Hs ->. unfold at_var, gbp, a', relocate_addr. simpl. destruct (a_global a); simpl; lia.
Qed.

Lemma base_shift s : s_gp s = g0 →
  e_stack E + gbp a (set_gp (g0 + gb) s) + a_base a = e_stack E + gbp a' s + a_base a'.
Proof. intros Hs. unfold gbp, a', relocate_addr. simpl. destruct (a_global a); simpl; lia. Qed.

(** Bring the addresses of both sides together. *)
Ltac shift :=
  match goal with
  | |- same _ _ ?X ?Y =>
      match X with context [at_var E a' ?s1] =>
        match Y with context [at_var E a ?s2] =>
          replace (at_var E a s2) with (at_var E a' s1)
            by (symmetry; apply at_var_shift; [simpl; solve [done|assumption]|reflexivity])
        end
      end
  | |- same _ _ _ ?Y =>
      match Y with context [e_stack E + gbp a (set_gp _ ?s) + a_base a] =>
        rewrite (base_shift s) by assumption
      end
  end.
Ltac shift_tac := repeat first [shift|same_step].

Lemma same_push_obj s : s_gp s = g0 →
  same g0 (g0 + gb) (push_obj E a' s) (push_obj E a (set_gp (g0 + gb) s)).
Proof. intros Hs. unfold push_obj. shift_tac. Qed.
Lemma same_push_var b s : s_gp s = g0 →
  same g0 (g0 + gb) (push_var E b a' s) (push_var E b a (set_gp (g0 + gb) s)).
Proof.
  intros Hs. unfold push_var. change (a_size a') with (a_size a).
  shift_tac; by apply same_push_obj.
Qed.
Lemma same_push_float s : s_gp s = g0 →
  same g0 (g0 + gb) (push_float E a' s) (push_float E a (set_gp (g0 + gb) s)).
Proof. intros Hs. unfold push_float. change (a_size a') with (a_size a). shift_tac. Qed.

Lemma d_addr_DAddr i op t b : d_addr (VmCode i op t (DAddr b)) = Ok b.
Proof. reflexivity. Qed.

Ltac addr_instr := intros Hs; rewrite !d_addr_DAddr; cbn [mbind outcome_bind c_type];
  try change (a_size a') with (a_size a); shift_tac.

Lemma same_store i op t s : s_gp s = g0 →
  same g0 (g0 + gb) (vm_store E (mkcode op t (DAddr a')) s)
    (vm_store E (VmCode i op t (DAddr a)) (set_gp (g0 + gb) s)).
Proof. unfold vm_store, mkcode. addr_instr. Qed.
Lemma same_fzero i op t s : s_gp s = g0 →
  same g0 (g0 + gb) (vm_fzero E (mkcode op t (DAddr a')) s)
    (vm_fzero E (VmCode i op t (DAddr a)) (set_gp (g0 + gb) s)).
Proof. unfold vm_fzero, mkcode. addr_instr. Qed.
Lemma same_deref i op t s : s_gp s = g0 →
  same g0 (g0 + gb) (vm_deref E (mkcode op t (DAddr a')) s)
    (vm_deref E (VmCode i op t (DAddr a)) (set_gp (g0 + gb) s)).
Proof. unfold vm_deref, mkcode, POPA. addr_instr. Qed.
Lemma same_pop i op t s : s_gp s = g0 → t ≠ VMOP_NONE →
  same g0 (g0 + gb) (vm_pop E (mkcode op t (DAddr a')) s)
    (vm_pop E (VmCode i op t (DAddr a)) (set_gp (g0 + gb) s)).
Proof.
  intros Hs Ht. revert Hs. unfold vm_pop, mkcode.
  destruct t; try done; addr_instr.
Qed.
Lemma same_depop i op t s : s_gp s = g0 →
  same g0 (g0 + gb) (vm_depop E (mkcode op t (DAddr a')) s)
    (vm_depop E (VmCode i op t (DAddr a)) (set_gp (g0 + gb) s)).
Proof. unfold vm_depop, mkcode. addr_instr. Qed.
Lemma same_call i op s : s_gp s = g0 →
  same g0 (g0 + gb) (vm_call E (mkcode op VMOP_ADDR (DAddr a')) s)
    (vm_call E (VmCode i op VMOP_ADDR (DAddr a)) (set_gp (g0 + gb) s)).
Proof. unfold vm_call, mkcode. cbn [c_type]. addr_instr. Qed.

Lemma same_push i t s : s_gp s = g0 →
  t ∈ [VMOP_ADDR; VMOP_VARI; VMOP_VARU; VMOP_VAROBJ; VMOP_VARFL] →
  same g0 (g0 + gb) (vm_push E (mkcode VM_PUSH t (DAddr a')) s)
    (vm_push E (VmCode i VM_PUSH t (DAddr a)) (set_gp (g0 + gb) s)).
Proof.
  intros Hs Ht. revert Hs. unfold vm_push, mkcode. cbn [c_type].
  repeat (apply elem_of_cons in Ht as [->|Ht];
    [addr_instr; first [by apply same_push_var|by apply same_push_obj|by apply same_push_float]|]);
    try (by apply not_elem_of_nil in Ht).
Qed.

End Shift.

(** ** The other instructions *)

Lemma same_running g0 g1 o1 o2 : same g0 g1 o1 o2 →
  running o2 = (n ← running o1; Ok (match n with Running s => Running (set_gp g1 s) | n => n end)).
Proof. intros [-> _]. by destruct o1. Qed.

Lemma same_jmp g1 c c' a s : c_d c = DAddr a → c_d c' = DAddr (addr_at (a_index a)) →
  same (s_gp s) g1 (vm_jmp c' s) (vm_jmp c (set_gp g1 s)).
Proof. intros H H'. unfold vm_jmp, d_addr. rewrite H, H'. by apply same_ok. Qed.
#[local] Hint Resolve same_jmp : same.

Lemma same_jz g1 c c' a s : c_d c = DAddr a → c_d c' = DAddr (addr_at (a_index a)) →
  same (s_gp s) g1 (vm_jz E c' s) (vm_jz E c (set_gp g1 s)).
Proof.
  intros H H'. unfold vm_jz. same_tac.
Qed.
Lemma same_jnz g1 c c' a s : c_d c = DAddr a → c_d c' = DAddr (addr_at (a_index a)) →
  same (s_gp s) g1 (vm_jnz E c' s) (vm_jnz E c (set_gp g1 s)).
Proof.
  intros H H'. unfold vm_jnz. same_tac.
Qed.

Lemma same_cast g1 i t src dst u s :
  same (s_gp s) g1 (vm_cast E (mkcode VM_CAST VMOP_NONE (DCast (set_ref u src) (set_ref u dst))) s)
    (vm_cast E (VmCode i VM_CAST t (DCast src dst)) (set_gp g1 s)).
Proof.
  unfold vm_cast, d_cast, mkcode. cbn [c_d mbind outcome_bind].
  change (type_of (set_ref u src)) with (type_of src).
  unfold cast_from, cast_from_float, cast_from_double, cast_from_ldouble.
  change (type_of (set_ref u dst)) with (type_of dst).
  change (is_signed (set_ref u src)) with (is_signed src).
  same_tac.
Qed.

Lemma same_push_imm g1 i t b s : (int_optype t ≠ None ∨ t ∈ [VMOP_FLT; VMOP_DBL; VMOP_LDBL]) →
  same (s_gp s) g1
    (vm_push E (mkcode VM_PUSH t (DImm (ImmBits
       (match int_optype t with Some k => wrap_u (iwidth k) b | None => b end)))) s)
    (vm_push E (VmCode i VM_PUSH t (DImm (ImmBits b))) (set_gp g1 s)).
Proof.
  intros Ht. unfold vm_push, imm_bits, d_imm, mkcode. cbn [c_d c_type mbind outcome_bind].
  assert (Hc : ∀ k, conv k (wrap_u (iwidth k) b) = conv k b).
  { intros k. apply conv_proper, eqm_wrap_u. pose proof (iwidth_pos k). lia. }
  destruct t; simpl in Ht; try (destruct Ht as [Ht|Ht];
    [by destruct Ht|by (repeat (apply elem_of_cons in Ht as [?|Ht]; [done|]); apply not_elem_of_nil in Ht)]);
    cbn [int_optype]; unfold PUSHIT; rewrite ?Hc; same_tac.
Qed.

Lemma payload_relocated (N : image_env) u gb c d s :
  savable N gb c = true → index_ok c = true → plain_import c = true →
  import_payload u gb c = Some d →
  exec_code E c (set_gp (s_gp s + gb) s) =
  (n ← exec_code E (mkcode (c_opcode c) (import_optype c) d) s;
   Ok (match n with Running s' => Running (set_gp (s_gp s + gb) s') | n => n end)).
Proof.
  destruct c as [i op t p]. unfold index_ok, plain_import, import_payload, import_optype.
  cbn [c_opcode c_type c_d]. intros Hs Hi Hp Hd.
  assert (Hg : s_gp s = s_gp s) by done.
  assert (Ha : ∀ a, p = DAddr a → match op with VM_JMP | VM_JZ | VM_JNZ | VM_TBL_ENTRY => False | _ => True end →
    a_index a = a_base a + a_offset a).
  { intros a -> Hop. destruct op; try done; lia. }
  destruct op; try discriminate; destruct p as [|l|n|n|src dst|a|[b|j]]; simplify_eq/=;
    try reflexivity; unfold exec_code; cbn [c_opcode mkcode];
    try (apply (same_running (s_gp s))).
  all: unfold savable in Hs; cbn [c_opcode c_type c_d] in Hs.
  all: lazymatch goal with
    | |- same _ _ (vm_store _ _ _) _ => apply same_store; first [done|by apply Ha]
    | |- same _ _ (vm_fzero _ _ _) _ => apply same_fzero; first [done|by apply Ha]
    | |- same _ _ (vm_deref _ _ _) _ => apply same_deref; first [done|by apply Ha]
    | |- same _ _ (vm_depop _ _ _) _ => apply same_depop; first [done|by apply Ha]
    | |- same _ _ (vm_call _ _ _) _ =>
        apply bool_decide_eq_true in Hp; subst t; apply same_call; first [done|by apply Ha]
    | |- same _ _ (vm_cast _ _ _) _ => apply same_cast
    | |- same _ _ (vm_jz _ _ _) _ => by eapply same_jz
    | |- same _ _ (vm_jnz _ _ _) _ => by eapply same_jnz
    | |- same _ _ (vm_pop _ _ _) (vm_pop _ (VmCode _ _ _ (DAddr _)) _) =>
        apply andb_true_iff in Hs as [_ Hs]; apply bool_decide_eq_true in Hs;
        apply same_pop; first [done|by apply Ha]
    | |- same _ _ _ (vm_push _ (VmCode _ _ _ (DAddr _)) _) =>
        destruct t; try discriminate Hs;
        first [rewrite decide_False by done; apply same_push; [by apply Ha|done|in_list]
              |unfold vm_push; cbn [mkcode c_type int_optype]; same_tac]
    | |- same _ _ _ (vm_push _ (VmCode _ _ _ (DImm _)) _) =>
        apply same_push_imm; destruct t; try discriminate Hs;
        first [left; discriminate|right; in_list]
    | |- _ =>
        unfold vm_pop, vm_not, vm_neg, vm_add, vm_sub, vm_mul, vm_div, vm_mod, vm_and, vm_or,
          vm_xor, vm_shl, vm_shr, vm_eq, vm_ne, vm_ge, vm_gt, vm_le, vm_lt, vm_arith, vm_cmp,
          vm_intop, vm_shift, vm_inc, vm_dec, incdec, vm_jmptbl, vm_jmp;
        cbn [mkcode c_type]; try (apply andb_true_iff in Hs as [_ Hs];
          apply bool_decide_eq_true in Hs; subst t); same_tac
    end.
Qed.

Lemma sizes_relocated i op t n gb s : op ∈ [VM_RET; VM_CLUP; VM_CLPOP; VM_ENTER] →
  exec_code E (VmCode i op t (DSize n)) (set_gp (s_gp s + gb) s) =
  (n ← exec_code E (mkcode op VMOP_NONE (DSize n)) s;
   Ok (match n with Running s' => Running (set_gp (s_gp s + gb) s') | n => n end)).
Proof.
  intros Hop. assert (Hg : s_gp s = s_gp s) by done.
  repeat (apply elem_of_cons in Hop as [->|Hop];
    [unfold exec_code; cbn [c_opcode mkcode]; apply (same_running (s_gp s));
     unfold vm_ret, vm_clup, vm_clpop, vm_enter, d_size; cbn [c_d mbind outcome_bind mkcode];
     same_tac|]).
  by apply not_elem_of_nil in Hop.
Qed.

End Reloc.

(** ** A loaded module *)

Section Loaded.
Context `{FT : FloatText} `{FA : FloatArith} (E : vm_env) (N : image_env) (u gb : Z).

(** The loaded instruction does what the saved one does in a program whose
    global variables start [gb] bytes further; a call of a function keeps its
    name for the linker. *)
Definition moved (c c' : vm_code) : Prop :=
  c_opcode c' = c_opcode c ∧
  if plain_import c then
    ∀ s, exec_code E c (set_gp (s_gp s + gb) s) =
      (n ← exec_code E c' s;
       Ok (match n with Running s' => Running (set_gp (s_gp s + gb) s') | n => n end))
  else ∃ a, c_d c = DAddr a ∧ c_d c' = DAddr (addr_named (a_name a)).

(** The instructions of which the loader pushes one for each record: neither
    the initialisation of globals nor a string literal, which is copied. *)
Definition one_to_one (c : vm_code) : bool :=
  match c_opcode c, c_d c with
  | VM_LABEL, DLabel i => bool_decide (label_name N i ≠ s_setup_global)
  | (VM_HALT | VM_ALLOCA | VM_REFLIB), _ | VM_PUSH, DImm (ImmStr _) => false
  | _, _ => true
  end.

Definition relocatable (c : vm_code) : Prop :=
  savable N gb c = true ∧ index_ok c = true ∧ one_to_one c = true.

Lemma PUSH_CODE_function c s : ls_is_global s = false →
  ls_code (PUSH_CODE c s) = ls_code s ++ [c] ∧ ls_is_global (PUSH_CODE c s) = false.
Proof. destruct s. simpl. by intros ->. Qed.

Lemma note_global_keeps a s :
  ls_code (note_global gb a s) = ls_code s ∧
  ls_is_global (note_global gb a s) = ls_is_global s.
Proof. unfold note_global. by destruct (a_global a), s. Qed.

Lemma moved_size i op t n : op ∈ [VM_RET; VM_CLUP; VM_CLPOP; VM_ENTER] →
  moved (VmCode i op t (DSize n)) (mkcode op VMOP_NONE (DSize n)).
Proof.
  intros Hop. assert (Hp : plain_import (VmCode i op t (DSize n)) = true).
  { repeat (apply elem_of_cons in Hop as [->|Hop]; [done|]). by apply not_elem_of_nil in Hop. }
  split; [done|]. rewrite Hp. intros s. by apply sizes_relocated.
Qed.

Lemma moved_label i t l d : moved (VmCode i VM_LABEL t d) (mkcode VM_LABEL VMOP_LABEL (DLabel l)).
Proof. by split. Qed.

Lemma moved_payload c d : savable N gb c = true → index_ok c = true →
  import_payload u gb c = Some d → moved c (mkcode (c_opcode c) (import_optype c) d).
Proof.
  intros Hs Hi Hd. split; [done|]. destruct (plain_import c) eqn:Hp.
  - intros s. by apply (payload_relocated E N u).
  - destruct c as [i op t p]. unfold plain_import in Hp. cbn [c_opcode c_type] in Hp.
    destruct op; try discriminate Hp. apply bool_decide_eq_false in Hp.
    destruct p; try discriminate Hd. unfold import_payload in Hd. cbn [c_opcode c_type c_d] in Hd.
    rewrite decide_False in Hd by done. injection Hd as <-. by eexists.
Qed.

(** Importing such an instruction pushes one that has moved. *)
Definition pushes_moved (c : vm_code) : Prop :=
  ∀ added s, ls_is_global s = false → ∃ c' s',
    import_code N u gb c (added, s) = Ok (added, s') ∧ ls_code s' = ls_code s ++ [c'] ∧
    ls_is_global s' = false ∧ moved c c'.

Lemma pushes_payload c d : savable N gb c = true → index_ok c = true →
  (∀ added s, import_code N u gb c (added, s) =
     Ok (added, note_global gb (noted_address c) (PUSH_CODE (mkcode (c_opcode c) (import_optype c) d) s))) →
  import_payload u gb c = Some d → pushes_moved c.
Proof.
  intros Hs Hi Hc Hd added s Hg.
  destruct (PUSH_CODE_function (mkcode (c_opcode c) (import_optype c) d) s Hg) as [Hp Hq].
  destruct (note_global_keeps (noted_address c) (PUSH_CODE (mkcode (c_opcode c) (import_optype c) d) s))
    as [Hn Hm].
  eexists _, _. split; [apply Hc|]. rewrite Hn, Hm. split; [exact Hp|]. split; [exact Hq|].
  by apply moved_payload.
Qed.

Lemma pushes_size i op t n : op ∈ [VM_RET; VM_CLUP; VM_CLPOP; VM_ENTER] →
  pushes_moved (VmCode i op t (DSize n)).
Proof.
  intros Hop added s Hg. pose proof (moved_size i op t n Hop) as Hm.
  destruct (PUSH_CODE_function (mkcode op VMOP_NONE (DSize n)) s Hg) as [Hp Hq].
  eexists _, _. split; [|by split_and!].
  unfold import_code. cbn [c_opcode c_d]. rewrite Hg.
  repeat (apply elem_of_cons in Hop as [->|Hop]; [done|]). by apply not_elem_of_nil in Hop.
Qed.

Lemma pushes_label i t l : label_name N l ≠ s_setup_global →
  pushes_moved (VmCode i VM_LABEL t (DLabel l)).
Proof.
  intros Hl added s Hg. unfold import_code. cbn [c_opcode c_d].
  rewrite (decide_False (P := _ = s_setup_global)) by exact Hl.
  case_decide; (eexists _, _; split; [reflexivity|]).
  - destruct (PUSH_CODE_function (mkcode VM_LABEL VMOP_LABEL (DLabel (-1))) s Hg) as [Hp Hq].
    split; [exact Hp|]. split; [exact Hq|]. apply moved_label.
  - set (s1 := push_label _ _). assert (Hs1 : ls_code s1 = ls_code s ∧ ls_is_global s1 = false)
      by (by destruct s). destruct Hs1 as [Hc1 Hg1].
    destruct (PUSH_CODE_function (mkcode VM_LABEL VMOP_LABEL
      (DLabel (Z.of_nat (length (ls_labels s))))) s1 Hg1) as [Hp Hq].
    rewrite Hc1 in Hp. split; [exact Hp|]. split; [exact Hq|]. apply moved_label.
Qed.

Lemma relocatable_pushes c : relocatable c → pushes_moved c.
Proof.
  intros (Hs & Hi & Ho). destruct (import_payload u gb c) as [d|] eqn:Hd.
  - apply (pushes_payload c d); [done..| |done]. intros added s. unfold import_code. rewrite Hd.
    clear Hi. destruct c as [i op t p]. unfold one_to_one, import_payload in *.
    cbn [c_opcode c_d c_type] in *.
    destruct op; try discriminate; destruct p as [| | | | | |[]]; try discriminate; reflexivity.
  - clear Hi. destruct c as [i op t p]. unfold one_to_one, import_payload, savable in *.
    cbn [c_opcode c_d c_type] in *.
    destruct op; try discriminate; destruct p as [|l|n|n|src dst|a|[b|j]]; try discriminate;
      first [apply pushes_label; by apply bool_decide_eq_true in Ho|apply pushes_size; in_list].
Qed.

Lemma imported_codes codes added s : Forall relocatable codes → ls_is_global s = false →
  ∃ codes' s', import_codes N u gb codes (added, s) = Ok (added, s') ∧
    ls_code s' = ls_code s ++ codes' ∧ Forall2 moved codes codes'.
Proof.
  intros Hc. revert s. induction Hc as [|c codes Hc _ IH]; intros s Hg.
  { exists [], s. rewrite app_nil_r. split; [done|]. by split. }
  destruct (relocatable_pushes c Hc added s Hg) as (c' & s1 & H1 & Hp & Hg1 & Hm).
  destruct (IH s1 Hg1) as (codes' & s' & H2 & Hs' & Hf).
  exists (c' :: codes'), s'. cbn [import_codes]. rewrite H1. cbn [mbind outcome_bind].
  split; [exact H2|]. rewrite Hs', Hp, <-app_assoc. split; [done|]. by constructor.
Qed.

End Loaded.

(** C23: Relocation: the functions of a module are written and loaded, one
    instruction for each, and every loaded instruction does, in every state,
    what the saved one does in a program whose global variables start at the
    base that the loader gives to the module; the calls of functions keep their
    names for the linker. *)
Theorem relocation_correct `{FT : FloatText} `{FA : FloatArith} (E : vm_env) (N : image_env) u ls codes :
  ls_is_global ls = false → Forall (relocatable N (ls_gsize ls)) codes →
  ∃ bs ls' codes', serialize_lir N codes = Ok bs ∧ vm_load_module u ls bs = Some (Ok ls') ∧
    ls_code ls' = ls_code ls ++ codes' ∧ Forall2 (moved E (ls_gsize ls)) codes codes'.
Proof.
  intros Hg Hc. destruct (module_transfer N u ls codes) as (bs & Hb & Hl).
  { eapply Forall_impl; [exact Hc|]. by intros c (? & _). }
  destruct (imported_codes E N u (ls_gsize ls) codes 0 ls Hc Hg) as (codes' & ls' & Hi & Hs & Hf).
  exists bs, ls', codes'. split; [exact Hb|]. rewrite Hl, Hi. cbn [mbind outcome_bind].
  split; [by destruct ls'|]. by split.
Qed.

(** A function that reads the global variable at offset 4, tests it and calls
    [f], loaded behind 32 bytes of other globals. *)
Definition demo_function : list vm_code :=
  [mkcode VM_LABEL VMOP_LABEL (DLabel 0);
   mkcode VM_ENTER VMOP_NONE (DSize 8);
   mkcode VM_PUSH VMOP_VARI (DAddr demo_global);
   mkcode VM_JZ VMOP_NONE (DAddr (addr_at 2));
   mkcode VM_CALL VMOP_FUNCADDR (DAddr (VmAddress (cstr "f") false 0 0 0 0 None));
   mkcode VM_RET VMOP_NONE (DSize 4)].

Lemma relocation_correct_witness :
  ∃ bs ls' codes', serialize_lir demo_image demo_function = Ok bs ∧
    vm_load_module 0 demo_linker bs = Some (Ok ls') ∧ ls_code ls' = [] ++ codes' ∧
    Forall2 (moved (demo_env []) 32) demo_function codes'.
Proof.
  apply (relocation_correct (demo_env []) demo_image 0 demo_linker demo_function eq_refl).
  repeat constructor.
Defined.
