(* ===== verification/VmLink.v ===== *)
(** * The linker (src/backend/vm/vminstr.c)

    Numbering of the instructions, resolution of labels, functions and global
    variables, and the threading of jumps: [update_label_index],
    [reassign_label_index] and [jump_optimization].  The array [exec] of the
    code points to the instructions that are no labels, in order; the model
    works on these instructions, and [put_back] writes them into the array
    [code] that they are part of. *)

From stdpp Require Import base list numbers decidable strings.
From Stdlib Require Import ZArith Lia.
From S2P Require Import Prelude VmInstr VmImage.

Local Open Scope Z_scope.

Definition is_label (c : vm_code) : bool := bool_decide (c_opcode c = VM_LABEL).
Definition exec_of (code : list vm_code) : list vm_code :=
  filter (λ c, negb (is_label c) = true) code.

Definition set_index (i : Z) (c : vm_code) : vm_code :=
  VmCode i (c_opcode c) (c_type c) (c_d c).
Definition set_type (t : optype) (c : vm_code) : vm_code :=
  VmCode (c_index c) (c_opcode c) t (c_d c).
Definition set_opcode (o : opcode) (c : vm_code) : vm_code :=
  VmCode (c_index c) o (c_type c) (c_d c).
Definition set_addr (a : vm_address) (c : vm_code) : vm_code :=
  VmCode (c_index c) (c_opcode c) (c_type c) (DAddr a).
Definition set_a_index (i : Z) (a : vm_address) : vm_address :=
  VmAddress (a_name a) (a_global a) i (a_base a) (a_offset a) (a_size a) (a_func a).
Definition set_a_func (f : option Z) (a : vm_address) : vm_address :=
  VmAddress (a_name a) (a_global a) (a_index a) (a_base a) (a_offset a) (a_size a) f.

(** [get_vm_label]: the first label with the name. *)
Fixpoint get_vm_label (labels : list vm_label) (name : list Z) : option vm_label :=
  match labels with
  | [] => None
  | l :: labels => if decide (l_name l = name) then Some l else get_vm_label labels name
  end.

(** [get_global_offset]: 0 for a name that is not there. *)
Definition get_global_offset (globals : list vm_label) (name : list Z) : Z :=
  from_option l_index 0 (get_vm_label globals name).

(** [label->index = index] for the label at [lindex]. *)
Definition set_label (labels : list vm_label) (lindex index : Z) : outcome (list vm_label) :=
  l ← defined "label index" (labels !! Z.to_nat lindex);
  Ok (<[Z.to_nat lindex := VmLabel index (l_name l)]> labels).

(** The loop of [update_label_index] from instruction number [index] on. *)
Fixpoint update_labels (index : Z) (labels : list vm_label) (code : list vm_code) :
    outcome (list vm_label * list vm_code) :=
  match code with
  | [] => Ok (labels, [])
  | c :: code =>
      if is_label c then
        lindex ← d_lindex c;
        labels ← (if 0 <=? lindex then set_label labels lindex index else Ok labels);
        '(labels, code) ← update_labels index labels code;
        Ok (labels, set_index index c :: code)
      else
        '(labels, code) ← update_labels (index + 1) labels code;
        Ok (labels, set_index index c :: code)
  end.
Definition update_label_index (labels : list vm_label) (code : list vm_code) :
    outcome (list vm_label * list vm_code) := update_labels 0 labels code.

(** What the linker knows: the labels, the globals of the loaded modules and
    the builtin functions by number. *)
Record link_env : Type := LinkEnv {
  k_labels : list vm_label;
  k_globals : list vm_label;
  k_builtin : Z → option Z
}.

Section Link.
Context (K : link_env).

Definition add_global (c : vm_code) : outcome vm_code :=
  a ← d_addr c;
  Ok (if a_global a
      then set_addr (set_a_index (a_index a + get_global_offset (k_globals K) (a_name a)) a) c
      else c).

Definition has_var_operand (t : optype) : bool :=
  bool_decide (t ∈ [VMOP_ADDR; VMOP_VARI; VMOP_VARU; VMOP_VAROBJ; VMOP_VARFL]).

(** The case of VM_CALL, into which the case of VM_PUSH falls. *)
Definition link_function (c : vm_code) : outcome vm_code :=
  if decide (c_type c = VMOP_FUNCNAME) then
    a ← d_addr c;
    match get_vm_label (k_labels K) (a_name a) with
    | None => Ok c
    | Some l =>
        if l_index l <? 0 then
          if decide (c_opcode c = VM_PUSH) then
            Exit "Storing a built-in function into a variable is not allowed"
          else Ok (set_addr (set_a_func (k_builtin K (- l_index l)) a) (set_type VMOP_BUILTIN c))
        else Ok (set_addr (set_a_index (l_index l) a) (set_type VMOP_FUNCADDR c))
    end
  else Ok c.

(** One turn of the loop of [reassign_label_index], for [exec[i]]. *)
Definition link_code (i : Z) (c : vm_code) : outcome vm_code :=
  match c_opcode c with
  | VM_JMP | VM_JZ | VM_JNZ | VM_TBL_ENTRY =>
      a ← d_addr c;
      if a_index a =? 0 then
        match get_vm_label (k_labels K) (a_name a) with
        | None => Exit "assertion failed"
        | Some l => _ ← c_assert (0 <? l_index l);
            Ok (set_addr (set_a_index (l_index l - i) a) c)
        end
      else Ok c
  | VM_STORE | VM_FZERO | VM_DEREF | VM_DEPOP => add_global c
  | VM_POP => if decide (c_type c = VMOP_NONE) then Ok c else add_global c
  | VM_PUSH =>
      c ← (if has_var_operand (c_type c) then add_global c else Ok c);
      c ← (if decide (c_type c = VMOP_ADDR) then
             a ← d_addr c;
             Ok (if a_global a && bool_decide (is_Some (get_vm_label (k_labels K) (a_name a)))
                 then set_type VMOP_FUNCNAME c else c)
           else Ok c);
      link_function c
  | VM_CALL => link_function c
  | _ => Ok c
  end.

Fixpoint link_codes (i : Z) (exec : list vm_code) : outcome (list vm_code) :=
  match exec with
  | [] => Ok []
  | c :: exec => c ← link_code i c; exec ← link_codes (i + 1) exec; Ok (c :: exec)
  end.

End Link.

(** ** Jump threading *)

(** [array_get(&vm_prog.exec, i)] *)
Definition exec_get (exec : list vm_code) (i : Z) : outcome vm_code :=
  if i <? 0 then Undef "instruction index"
  else defined "instruction index" (exec !! Z.to_nat i).

(** The inner loop: follow the jumps from [index], whose instruction is [dst];
    the result is the last index and whether a jump was followed.  None when
    [fuel] turns are not enough. *)
Fixpoint chase (fuel : nat) (exec : list vm_code) (index : Z) (dst : vm_code) (moved : bool) :
    option (outcome (Z * bool)) :=
  match fuel with
  | O => None
  | S fuel =>
      if decide (c_opcode dst = VM_JMP) then
        match d_addr dst with
        | Ok a =>
            let index := index + a_index a in
            if Z.of_nat (length exec) <=? index then Some (Ok (index, true))
            else match exec_get exec index with
                 | Ok dst => chase fuel exec index dst true
                 | Exit e => Some (Exit e)
                 | Undef e => Some (Undef e)
                 end
        | Exit e => Some (Exit e)
        | Undef e => Some (Undef e)
        end
      else Some (Ok (index, moved))
  end.

Definition is_jump (o : opcode) : bool :=
  match o with VM_JMP | VM_JZ | VM_JNZ => true | _ => false end.

(** One turn of the loop for [exec[i]]. *)
Definition thread_jump (fuel : nat) (exec : list vm_code) (i : Z) (c : vm_code) :
    option (outcome vm_code) :=
  if is_jump (c_opcode c) then
    match d_addr c with
    | Ok a =>
        let index := i + a_index a in
        if index <? Z.of_nat (length exec) then
          match exec_get exec index with
          | Ok dst =>
              match chase fuel exec index dst false with
              | Some (Ok (index, moved)) =>
                  let a := if moved : bool then set_a_index (index - i) a else a in
                  let c := set_addr a c in
                  Some (Ok (if a_index a =? 1 then set_opcode VM_NOP c else c))
              | Some (Exit e) => Some (Exit e)
              | Some (Undef e) => Some (Undef e)
              | None => None
              end
          | Exit e => Some (Exit e)
          | Undef e => Some (Undef e)
          end
        else Some (Ok c)
    | Exit e => Some (Exit e)
    | Undef e => Some (Undef e)
    end
  else Some (Ok c).

(** The outer loop from [i] on, for [n] more instructions. *)
Fixpoint thread_from (fuel n : nat) (i : Z) (exec : list vm_code) :
    option (outcome (list vm_code)) :=
  match n with
  | O => Some (Ok exec)
  | S n =>
      match exec_get exec i with
      | Ok c =>
          match thread_jump fuel exec i c with
          | Some (Ok c) => thread_from fuel n (i + 1) (<[Z.to_nat i := c]> exec)
          | Some (Exit e) => Some (Exit e)
          | Some (Undef e) => Some (Undef e)
          | None => None
          end
      | Exit e => Some (Exit e)
      | Undef e => Some (Undef e)
      end
  end.
Definition jump_optimization (fuel : nat) (exec : list vm_code) : option (outcome (list vm_code)) :=
  thread_from fuel (length exec) 0 exec.

(** The instructions of [exec] back at their places in [code]. *)
Fixpoint put_back (code exec : list vm_code) : list vm_code :=
  match code with
  | [] => []
  | c :: code =>
      if is_label c then c :: put_back code exec
      else match exec with
           | [] => c :: put_back code []
           | c' :: exec => c' :: put_back code exec
           end
  end.

(** [reassign_label_index] on the program [code]: the labels and the code. *)
Definition reassign_label_index (fuel : nat) (labels globals : list vm_label)
    (builtin : Z → option Z) (code : list vm_code) :
    option (outcome (list vm_label * list vm_code)) :=
  match update_label_index labels code with
  | Ok (labels, code) =>
      match link_codes (LinkEnv labels globals builtin) 0 (exec_of code) with
      | Ok exec =>
          match jump_optimization fuel exec with
          | Some (Ok exec) => Some (Ok (labels, put_back code exec))
          | Some (Exit e) => Some (Exit e)
          | Some (Undef e) => Some (Undef e)
          | None => None
          end
      | Exit e => Some (Exit e)
      | Undef e => Some (Undef e)
      end
  | Exit e => Some (Exit e)
  | Undef e => Some (Undef e)
  end.
