(* ===== verification/VmLinkProps.v ===== *)
(** * The linker: labels, resolution of names, and jump threading

    The labels get the number of the instruction that follows them; a jump by
    name lands there; threading the jumps keeps what a program computes, and
    ends when no cycle consists of jumps only. *)

From stdpp Require Import base list gmap numbers decidable strings relations.
From Stdlib Require Import ZArith Lia.
From S2P Require Import Prelude Memory CType Floats CArith VmInstr VmRun VmProps VmImage VmLink.

Local Open Scope Z_scope.

(** ** Numbering *)

Lemma exec_of_app l k : exec_of (l ++ k) = exec_of l ++ exec_of k.
Proof. apply filter_app. Qed.
Lemma exec_of_label c l : is_label c = true → exec_of (c :: l) = exec_of l.
Proof. intros H. unfold exec_of. rewrite filter_cons_False; [done|]. by rewrite H. Qed.
Lemma exec_of_code c l : is_label c = false → exec_of (c :: l) = c :: exec_of l.
Proof. intros H. unfold exec_of. rewrite filter_cons_True; [done|]. by rewrite H. Qed.

Definition has_lindex (k : Z) (c : vm_code) : Prop := is_label c = true ∧ c_d c = DLabel k.
#[export] Instance has_lindex_dec k c : Decision (has_lindex k c).
Proof. unfold has_lindex. apply _. Defined.

(** A label that is not set later on keeps its entry. *)
Lemma update_labels_keeps i labels code labels' code' k :
  update_labels i labels code = Ok (labels', code') →
  0 ≤ k → Forall (λ c, ¬ has_lindex k c) code → labels' !! Z.to_nat k = labels !! Z.to_nat k.
Proof.
  revert i labels code'. induction code as [|c code IH]; intros i labels code' H Hk Hf; simpl in H.
  { by simplify_eq. }
  apply Forall_cons in Hf as [Hc Hf]. destruct (is_label c) eqn:Hl; ok_inv.
  - match goal with a : _ * _ |- _ => destruct a end. ok_inv. simplify_eq.
    match goal with H : update_labels _ _ _ = _ |- _ => apply IH in H as ->; [|done|done] end.
    match goal with H : d_lindex c = Ok ?l |- _ => rename H into Hd; rename l into li end.
    assert (Hne : li ≠ k).
    { intros ->. apply Hc. split; [done|]. unfold d_lindex in Hd. destruct (c_d c); congruence. }
    destruct (Z.leb_spec 0 li) as [Hge|]; [|by ok_inv; simplify_eq].
    unfold set_label in *. ok_inv. simplify_eq. apply list_lookup_insert_ne. lia.
  - match goal with a : _ * _ |- _ => destruct a end. ok_inv. simplify_eq. eauto.
Qed.

(** The entry of a label after the numbering: the name is the same and the
    index is the number of instructions before the label. *)
Lemma update_labels_spec i labels pre L post k labels' code' :
  update_labels i labels (pre ++ L :: post) = Ok (labels', code') →
  0 ≤ k → has_lindex k L → Forall (λ c, ¬ has_lindex k c) post →
  (∃ l, labels !! Z.to_nat k = Some l ∧
   labels' !! Z.to_nat k = Some (VmLabel (i + Z.of_nat (length (exec_of pre))) (l_name l))).
Proof.
  revert i labels code'. induction pre as [|c pre IH]; intros i labels code' H Hk HL Hf; simpl in H.
  - destruct HL as [Hl Hd]. rewrite Hl in H. unfold d_lindex in H. rewrite Hd in H. simpl in H.
    destruct (Z.leb_spec 0 k); [|lia]. ok_inv. match goal with a : _ * _ |- _ => destruct a end.
    ok_inv. simplify_eq.
    match goal with H : update_labels _ _ _ = _ |- _ =>
      rewrite (update_labels_keeps _ _ _ _ _ k H) by done end.
    unfold set_label in *. ok_inv. simplify_eq. eexists. split; [done|].
    rewrite list_lookup_insert_eq by (eapply lookup_lt_Some; done).
    simpl. by rewrite Z.add_0_r.
  - destruct (is_label c) eqn:Hl; ok_inv; match goal with a : _ * _ |- _ => destruct a end;
      ok_inv; simplify_eq.
    + match goal with H : update_labels _ _ _ = _ |- _ =>
        apply IH in H as (l & Hll & H'); [|done|done|done] end.
      rewrite exec_of_label by done.
      match goal with H : (if 0 <=? ?li then _ else _) = Ok _ |- _ => destruct (0 <=? li) end;
        unfold set_label in *; ok_inv; simplify_eq; [|by eexists].
      match goal with H : d_lindex c = Ok ?li |- _ =>
        destruct (decide (Z.to_nat li = Z.to_nat k)) as [He|]; [rewrite He in *|] end.
      * rewrite list_lookup_insert_eq in Hll by (eapply lookup_lt_Some; done). simplify_eq.
        eexists. split; [done|]. done.
      * rewrite list_lookup_insert_ne in Hll by done. by eexists.
    + match goal with H : update_labels _ _ _ = _ |- _ =>
        apply IH in H as (l & Hll & H'); [|done|done|done] end.
      rewrite exec_of_code by done. eexists. split; [done|]. rewrite H'. do 2 f_equal. simpl. lia.
Qed.

(** The instructions are numbered from 0 in the order of [exec]. *)
Lemma update_labels_exec i labels code labels' code' (n : nat) c :
  update_labels i labels code = Ok (labels', code') →
  exec_of code !! n = Some c → exec_of code' !! n = Some (set_index (i + Z.of_nat n) c).
Proof.
  revert i labels code' n. induction code as [|d code IH]; intros i labels code' n H Hn; simpl in H.
  { done. }
  destruct (is_label d) eqn:Hl; ok_inv; match goal with a : _ * _ |- _ => destruct a end;
    ok_inv; simplify_eq.
  - rewrite exec_of_label in Hn by done. rewrite exec_of_label by done. eauto.
  - rewrite exec_of_code in Hn by done. rewrite exec_of_code by done.
    destruct n as [|n]; simpl in *; [by rewrite Z.add_0_r; simplify_eq|].
    erewrite IH by done. do 2 f_equal. lia.
Qed.

(** ** Jumps by name *)

Lemma update_labels_names i labels code labels' code' :
  update_labels i labels code = Ok (labels', code') → l_name <$> labels' = l_name <$> labels.
Proof.
  revert i labels code'. induction code as [|c code IH]; intros i labels code' H; simpl in H.
  { by simplify_eq. }
  destruct (is_label c); ok_inv; match goal with a : _ * _ |- _ => destruct a end;
    ok_inv; simplify_eq;
    match goal with H : update_labels _ _ _ = _ |- _ => apply IH in H as -> end; [|done].
  match goal with H : (if 0 <=? ?li then _ else _) = Ok _ |- _ => destruct (0 <=? li) end;
    unfold set_label in *; ok_inv; simplify_eq; [|done].
  rewrite list_fmap_insert. simpl. apply list_insert_id. rewrite list_lookup_fmap.
  match goal with H : labels !! _ = Some _ |- _ => by rewrite H end.
Qed.

(** The first label with a name is the one found. *)
Lemma get_vm_label_first labels (k : nat) l :
  labels !! k = Some l → (∀ j l', (j < k)%nat → labels !! j = Some l' → l_name l' ≠ l_name l) →
  get_vm_label labels (l_name l) = Some l.
Proof.
  revert k. induction labels as [|x labels IH]; intros k Hk Hf; [done|].
  simpl. destruct (decide (l_name x = l_name l)) as [He|Hne].
  - destruct k as [|k]; simpl in Hk; [done|]. destruct (Hf 0%nat x); [lia|done|done].
  - destruct k as [|k]; simpl in Hk; [congruence|]. apply (IH k); [done|].
    intros j l' Hj Hl'. apply (Hf (S j)); [lia|done].
Qed.

Lemma link_codes_lookup K i exec exec' (n : nat) c :
  link_codes K i exec = Ok exec' → exec !! n = Some c →
  ∃ c', exec' !! n = Some c' ∧ link_code K (i + Z.of_nat n) c = Ok c'.
Proof.
  revert i exec' n. induction exec as [|d exec IH]; intros i exec' n H Hn; [done|].
  simpl in H. ok_inv. simplify_eq. destruct n as [|n]; simpl in *.
  - simplify_eq. rewrite Z.add_0_r. by eexists.
  - match goal with H : link_codes _ _ _ = _ |- _ => apply (IH _ _ n) in H as (c' & H1 & H2); [|done] end.
    exists c'. split; [done|]. by replace (i + Z.of_nat (S n)) with (i + 1 + Z.of_nat n) by lia.
Qed.

Definition jump_by_name (o : opcode) : bool :=
  match o with VM_JMP | VM_JZ | VM_JNZ | VM_TBL_ENTRY => true | _ => false end.

(** C25: After the numbering and the resolution of names, a jump (or a table
    entry) at [exec[i]] that names the first label called so jumps, relative to
    itself, to the instruction that follows this label. *)
Theorem jump_lands_after_label labels pre L post k l labels' code' globals builtin exec
    (i : nat) c a :
  update_label_index labels (pre ++ L :: post) = Ok (labels', code') →
  0 ≤ k → has_lindex k L → Forall (λ c, ¬ has_lindex k c) post →
  labels !! Z.to_nat k = Some l →
  (∀ j l', (j < Z.to_nat k)%nat → labels !! j = Some l' → l_name l' ≠ l_name l) →
  exec_of (pre ++ L :: post) !! i = Some c → jump_by_name (c_opcode c) = true →
  c_d c = DAddr a → a_index a = 0 → a_name a = l_name l → exec_of pre ≠ [] →
  link_codes (LinkEnv labels' globals builtin) 0 (exec_of code') = Ok exec →
  ∃ c', exec !! i = Some c' ∧ c_opcode c' = c_opcode c ∧
    c_d c' = DAddr (set_a_index (Z.of_nat (length (exec_of pre)) - Z.of_nat i) a).
Proof.
  intros Hu Hk HL Hpost Hl Hfirst Hi Ho Hd Hz Hn Hpre Hlink.
  destruct (update_labels_spec _ _ _ _ _ _ _ _ Hu Hk HL Hpost) as (l0 & Hl0 & Hl').
  assert (l0 = l) as -> by congruence. simpl in Hl'.
  set (idx := Z.of_nat (length (exec_of pre))) in *.
  assert (Hidx : 0 < idx) by (unfold idx; destruct (exec_of pre); [done|simpl; lia]).
  pose proof (update_labels_exec _ _ _ _ _ _ _ Hu Hi) as Hi'.
  destruct (link_codes_lookup _ _ _ _ _ _ Hlink Hi') as (c' & Hc' & Hlc).
  pose proof (update_labels_names _ _ _ _ _ Hu) as Hnames.
  assert (Hg : get_vm_label labels' (l_name l) = Some (VmLabel idx (l_name l))).
  { apply (get_vm_label_first labels' (Z.to_nat k) (VmLabel idx (l_name l)) Hl').
    intros j l'' Hj Hj'. assert (Hjn : (l_name <$> labels) !! j = Some (l_name l'')).
    { rewrite <-Hnames, list_lookup_fmap, Hj'. done. }
    rewrite list_lookup_fmap in Hjn. apply fmap_Some in Hjn as (l3 & Hl3 & ->).
    by apply (Hfirst j). }
  exists c'. split; [done|]. unfold link_code in Hlc. simpl in Hlc.
  assert (Hres : c' = set_addr (set_a_index (idx - Z.of_nat i) a) (set_index (Z.of_nat i) c)).
  { destruct (c_opcode c); try discriminate Ho; unfold d_addr in Hlc; simpl in Hlc;
      rewrite Hd in Hlc; simpl in Hlc; rewrite Hz in Hlc; simpl in Hlc;
      rewrite Hn, Hg in Hlc; simpl in Hlc; unfold c_assert in Hlc;
      destruct (Z.ltb_spec 0 idx); try lia; simpl in Hlc; by injection Hlc. }
  by rewrite Hres.
Qed.

(** ** Instance *)

(** [f: enter; jmp L; nop; L: ret] *)
Definition demo_code : list vm_code :=
  [mkcode VM_ENTER VMOP_NONE (DSize 0);
   mkcode VM_JMP VMOP_NONE (DAddr (addr_named (cstr "L")));
   mkcode VM_NOP VMOP_NONE DNone;
   mkcode VM_LABEL VMOP_LABEL (DLabel 1);
   mkcode VM_RET VMOP_NONE (DSize 0)].

Lemma jump_lands_after_label_witness :
  let labels := [VmLabel (-1) (cstr "f"); VmLabel (-1) (cstr "L")] in
  let labels' := [VmLabel (-1) (cstr "f"); VmLabel 3 (cstr "L")] in
  let code' := match update_label_index labels demo_code with Ok (_, c) => c | _ => [] end in
  let exec := match link_codes (LinkEnv labels' [] (λ _, None)) 0 (exec_of code') with
              | Ok e => e | _ => [] end in
  ∃ c', exec !! 1%nat = Some c' ∧ c_opcode c' = VM_JMP ∧
    c_d c' = DAddr (set_a_index 2 (addr_named (cstr "L"))).
Proof.
  intros labels labels' code' exec.
  apply (jump_lands_after_label labels (take 3 demo_code) (mkcode VM_LABEL VMOP_LABEL (DLabel 1))
    [mkcode VM_RET VMOP_NONE (DSize 0)] 1 (VmLabel (-1) (cstr "L")) labels' code' [] (λ _, None)
    exec 1 (mkcode VM_JMP VMOP_NONE (DAddr (addr_named (cstr "L")))) (addr_named (cstr "L")));
    try reflexivity; try lia.
  - done.
  - repeat constructor. by intros [H _].
  - intros j l' Hj Hl'. destruct j as [|j]; [|simpl in Hj; lia]. injection Hl' as <-. discriminate.
  - discriminate.
Defined.

(** * Jump threading

    [jump_optimization] ends, and keeps what the program computes, when no cycle
    of the program consists of jumps only and no conditional jump leads, itself
    or through jumps, to the next instruction; neither holds otherwise. *)

(** The jumps of a program. *)
Definition jmp_to (exec : list vm_code) (i j : Z) : Prop :=
  ∃ c a, exec_get exec i = Ok c ∧ c_opcode c = VM_JMP ∧ c_d c = DAddr a ∧ j = i + a_index a.
Abbreviation reach exec := (rtc (jmp_to exec)).

(** What the optimisation may make of the instruction [c] at [j]. *)
Definition threaded (exec : list vm_code) (j : Z) (c c' : vm_code) : Prop :=
  c' = c ∨
  is_jump (c_opcode c) = true ∧
  ∃ a k, c_d c = DAddr a ∧ reach exec (j + a_index a) k ∧
    c_d c' = DAddr (set_a_index (k - j) a) ∧
    (c_opcode c' = c_opcode c ∨ (c_opcode c' = VM_NOP ∧ k = j + 1 ∧ ∀ m, ¬ jmp_to exec k m)).

Definition all_threaded (exec exec' : list vm_code) : Prop :=
  length exec' = length exec ∧
  ∀ j c, exec_get exec j = Ok c → ∃ c', exec_get exec' j = Ok c' ∧ threaded exec j c c'.

Lemma exec_get_ok exec i c : exec_get exec i = Ok c ↔ 0 ≤ i ∧ exec !! Z.to_nat i = Some c.
Proof.
  unfold exec_get. destruct (Z.ltb_spec i 0); [split; [done|lia]|].
  destruct (exec !! Z.to_nat i) as [d|]; simpl; split; [|intros [_ ?]|done|intros [_ ?]]; try done.
  - intros [= ->]. done.
  - by simplify_eq.
Qed.

Lemma exec_get_same_length exec exec' i c : length exec' = length exec →
  exec_get exec' i = Ok c → ∃ c0, exec_get exec i = Ok c0.
Proof.
  intros Hl H. apply exec_get_ok in H as [Hi H]. apply lookup_lt_Some in H.
  destruct (lookup_lt_is_Some_2 exec (Z.to_nat i)) as [c0 Hc]; [lia|].
  exists c0. by apply exec_get_ok.
Qed.

(** A jump of the optimised program is a path of jumps of the original. *)
Lemma threaded_reach exec exec' i j : all_threaded exec exec' →
  jmp_to exec' i j → tc (jmp_to exec) i j.
Proof.
  intros [Hl Ht] (c' & a & Hc & Ho & Hd & ->).
  destruct (exec_get_same_length _ _ _ _ Hl Hc) as [c0 Hc0].
  destruct (Ht _ _ Hc0) as (c1 & Hc1 & Hth). rewrite Hc in Hc1. injection Hc1 as <-.
  destruct Hth as [->|(Hj & a0 & k & Hd0 & Hr & Hd' & Ho')].
  - apply tc_once. by exists c0, a.
  - destruct Ho' as [Ho'|[Ho' _]]; [|congruence].
    rewrite Hd in Hd'. injection Hd' as ->. simpl. replace (i + (k - i)) with k by lia.
    eapply tc_rtc_r; [apply tc_once|exact Hr]. exists c0, a0. split; [done|]. split; [congruence|done].
Qed.

Lemma chase_reach fuel exec exec' index dst moved index' moved' :
  all_threaded exec exec' → exec_get exec' index = Ok dst →
  chase fuel exec' index dst moved = Some (Ok (index', moved')) →
  reach exec index index' ∧ (moved' = false → index' = index).
Proof.
  intros Ht. revert index dst moved. induction fuel as [|fuel IH]; intros index dst moved Hg H; [done|].
  simpl in H. destruct (decide (c_opcode dst = VM_JMP)) as [Ho|]; [|by simplify_eq].
  unfold d_addr in H. destruct (c_d dst) as [| | | | |a|] eqn:Hd; try done.
  assert (Hone : reach exec index (index + a_index a)).
  { apply tc_rtc. eapply threaded_reach; [done|]. by exists dst, a. }
  destruct (Z.of_nat (length exec') <=? index + a_index a); [by simplify_eq|].
  destruct (exec_get exec' (index + a_index a)) as [d| |] eqn:Hg'; try done.
  assert (Hm : moved' = true).
  { clear -H. revert H. generalize (index + a_index a). revert d.
    induction fuel as [|fuel IH]; intros d z H; [done|]. simpl in H.
    repeat case_match; simplify_eq; eauto. }
  apply IH in H as [H1 _]; [|done]. split; [by etrans|]. by rewrite Hm.
Qed.

(** It stops at an instruction that is no jump, or behind the program. *)
Lemma chase_end fuel exec index dst moved index' moved' : exec_get exec index = Ok dst →
  chase fuel exec index dst moved = Some (Ok (index', moved')) → ∀ d, exec_get exec index' = Ok d → c_opcode d ≠ VM_JMP.
Proof.
  revert index dst moved. induction fuel as [|fuel IH]; intros index dst moved Hg H d Hd; [done|]. cbn [chase] in H.
  destruct (decide (c_opcode dst = VM_JMP)); [|injection H as <- _; congruence].
  destruct (d_addr dst) as [a| |]; [|done..].
  destruct (Z.leb_spec (Z.of_nat (length exec)) (index + a_index a)).
  - injection H as <- _. apply exec_get_ok in Hd as [? Hd]. apply lookup_lt_Some in Hd. lia.
  - destruct (exec_get exec (index + a_index a)) as [x| |] eqn:Hx; [|done..]. exact (IH _ _ _ Hx H d Hd).
Qed.

Lemma thread_jump_threaded fuel exec exec' i c c' :
  all_threaded exec exec' → exec_get exec' i = Ok c → exec_get exec i = Ok c →
  exec_get exec' (i + 1) = exec_get exec (i + 1) →
  thread_jump fuel exec' i c = Some (Ok c') → threaded exec i c c'.
Proof.
  intros Ht Hg Hg0 Hnext H. unfold thread_jump in H.
  destruct (is_jump (c_opcode c)) eqn:Hj; [|left; by simplify_eq].
  unfold d_addr in H. destruct (c_d c) as [| | | | |a|] eqn:Hd; try done.
  destruct (Z.ltb_spec (i + a_index a) (Z.of_nat (length exec'))); [|left; by simplify_eq].
  destruct (exec_get exec' (i + a_index a)) as [dst| |] eqn:Hdst; try done.
  destruct (chase fuel exec' (i + a_index a) dst false) as [[[index moved]| |]|] eqn:Hch; try done.
  pose proof (chase_end _ _ _ _ _ _ _ Hdst Hch) as Hend.
  apply (chase_reach _ exec) in Hch as [Hr Hm]; [|done|done].
  right. split; [done|]. exists a, index. split; [done|]. split; [done|].
  assert (Ha : (if moved then set_a_index (index - i) a else a) = set_a_index (index - i) a).
  { destruct moved; [done|]. rewrite Hm by done. destruct a; unfold set_a_index; simpl. f_equal. lia. }
  rewrite Ha in H. injection H as <-. simpl.
  destruct (Z.eqb_spec (index - i) 1); simpl; (split; [done|]); [right|by left].
  assert (index = i + 1) as -> by lia. split; [done|]. split; [done|]. intros m (d & b & Hgd & Ho & _).
  by apply (Hend d); [rewrite Hnext|].
Qed.

Lemma exec_get_insert exec (i : Z) c j : 0 ≤ i < Z.of_nat (length exec) →
  exec_get (<[Z.to_nat i := c]> exec) j = if decide (j = i) then Ok c else exec_get exec j.
Proof.
  intros Hi. unfold exec_get. case_decide as Hj.
  - subst j. destruct (Z.ltb_spec i 0); [lia|]. by rewrite list_lookup_insert_eq by lia.
  - destruct (Z.ltb_spec j 0); [done|]. by rewrite list_lookup_insert_ne by lia.
Qed.

(** What is left to do is still as in the original program. *)
Lemma thread_from_threaded fuel n i exec exec0 exec' :
  all_threaded exec0 exec → 0 ≤ i → (∀ j, i ≤ j → exec_get exec j = exec_get exec0 j) →
  thread_from fuel n i exec = Some (Ok exec') → all_threaded exec0 exec'.
Proof.
  revert i exec. induction n as [|n IH]; intros i exec Ht Hi Hs H; simpl in H; [by simplify_eq|].
  destruct (exec_get exec i) as [c| |] eqn:Hg; try done.
  destruct (thread_jump fuel exec i c) as [[c'| |]|] eqn:Hj; try done.
  assert (Hb : 0 ≤ i < Z.of_nat (length exec)).
  { apply exec_get_ok in Hg as [_ Hg]. apply lookup_lt_Some in Hg. lia. }
  pose proof Hg as Hg0. rewrite Hs in Hg0 by lia.
  pose proof (thread_jump_threaded _ exec0 _ _ _ _ Ht Hg Hg0 (Hs (i + 1) ltac:(lia)) Hj) as Hth.
  apply IH in H; [done| |lia|].
  - destruct Ht as [Hl Ht]. split; [by rewrite length_insert|]. intros j d Hd.
    rewrite exec_get_insert by done. case_decide as Hji; [|by apply Ht].
    subst j. rewrite Hg0 in Hd. injection Hd as <-. by exists c'.
  - intros j Hji. rewrite exec_get_insert by done. case_decide; [lia|]. apply Hs. lia.
Qed.

Lemma jump_optimization_threaded fuel exec exec' :
  jump_optimization fuel exec = Some (Ok exec') → all_threaded exec exec'.
Proof.
  intros H. eapply (thread_from_threaded _ _ 0 exec exec); [|lia|done|exact H].
  split; [done|]. intros j c Hc. exists c. split; [done|]. by left.
Qed.

(** The programs for which threading is right: the operands of jumps are
    addresses in the program or behind it, jumps alone make no cycle, and no
    conditional jump leads, directly or over jumps, to the instruction behind
    it. *)
Record threadable (exec : list vm_code) : Prop := Threadable {
  th_operands i c : exec_get exec i = Ok c → is_jump (c_opcode c) = true → ∃ a, c_d c = DAddr a ∧ 0 ≤ i + a_index a;
  th_acyclic i : ¬ tc (jmp_to exec) i i;
  th_conditions i c a : exec_get exec i = Ok c → c_opcode c ∈ [VM_JZ; VM_JNZ] → c_d c = DAddr a →
    reach exec (i + a_index a) (i + 1) → ∃ k, jmp_to exec (i + 1) k
}.

(** Then no conditional jump becomes an empty instruction. *)
Definition keeps_conditions (exec exec' : list vm_code) : Prop :=
  ∀ j c c', exec_get exec j = Ok c → exec_get exec' j = Ok c' →
    c_opcode c ∈ [VM_JZ; VM_JNZ] → c_opcode c' ≠ VM_NOP.
Lemma threadable_keeps exec exec' : threadable exec → all_threaded exec exec' → keeps_conditions exec exec'.
Proof.
  intros Hw [_ Ht] j c c' Hc Hc' Ho Hn. destruct (Ht j c Hc) as (c1 & Hc1 & Hth). rewrite Hc' in Hc1. injection Hc1 as <-.
  assert (Hne : c_opcode c ≠ VM_NOP) by (intros He; rewrite He in Ho; by apply (bool_decide_eq_true_2 _) in Ho).
  destruct Hth as [->|(_ & a & k & Hd & Hr & _ & [Heq|(_ & -> & Hend)])]; [congruence..|].
  destruct (th_conditions _ Hw j c a Hc Ho Hd Hr) as [k Hk]. by apply (Hend k).
Qed.

(** ** Simulation *)

Definition with_exec (p : list vm_code) (E : vm_env) : vm_env :=
  VmEnv p (e_stack E) (e_global E) (e_builtin E) (e_func_ptr E).

Section Sim.
Context `{FA : FloatArith} (E : vm_env) (exec' : list vm_code).
Let E' := with_exec exec' E.
Hypothesis Ht : all_threaded (e_exec E) exec'.
Hypothesis Hc : keeps_conditions (e_exec E) exec'.

(** The optimised program is as far, or ahead by jumps. *)
Definition ahead (s s' : vm_state) : Prop :=
  s' = set_ip (s_ip s') s ∧ reach (e_exec E) (s_ip s) (s_ip s').


Lemma fetch_ok (F : vm_env) i c : fetch F i = Ok c ↔ exec_get (e_exec F) i = Ok c.
Proof.
  unfold fetch, exec_get. destruct (i <? 0); [done|].
  destruct (e_exec F !! Z.to_nat i); done.
Qed.

Lemma set_ip_ip s : set_ip (s_ip s) s = s.
Proof. by destruct s. Qed.
Lemma set_ip_set_ip i j s : set_ip i (set_ip j s) = set_ip i s.
Proof. by destruct s. Qed.

(** An instruction other than VM_JMPTBL does not look at the program. *)
Lemma exec_code_env c s : c_opcode c ≠ VM_JMPTBL → exec_code E' c s = exec_code E c s.
Proof. intros H. unfold exec_code. destruct (c_opcode c); done. Qed.

Lemma ahead_set_ip s i j : reach (e_exec E) i j → ahead (set_ip i s) (set_ip j s).
Proof. intros H. split; [by rewrite set_ip_set_ip|done]. Qed.

Lemma vm_jmp_ok c s s1 : vm_jmp c s = Ok s1 → ∃ a, c_d c = DAddr a ∧ s1 = set_ip (s_ip s + a_index a) s.
Proof. unfold vm_jmp, d_addr. destruct (c_d c); intros H; try done. simpl in H. simplify_eq. by eexists. Qed.

(** A jump through an instruction and through its optimised version. *)
Lemma vm_jmp_threaded c c' s s1 : threaded (e_exec E) (s_ip s) c c' →
  vm_jmp c s = Ok s1 → ∃ s1', vm_jmp c' s = Ok s1' ∧ ahead s1 s1'.
Proof.
  intros Hth H. apply vm_jmp_ok in H as (a & Hd & ->).
  destruct Hth as [->|(_ & a' & k & Hd' & Hr & Hd1 & _)].
  - unfold vm_jmp, d_addr. rewrite Hd. eexists. split; [done|]. by apply ahead_set_ip.
  - rewrite Hd in Hd'. injection Hd' as <-. unfold vm_jmp, d_addr. rewrite Hd1.
    eexists. split; [done|]. apply ahead_set_ip. simpl. by replace (s_ip s + (k - s_ip s)) with k by lia.
Qed.

Lemma ahead_refl s : ahead s s.
Proof. split; [by rewrite set_ip_ip|done]. Qed.

(** One turn on the same state. *)
Lemma exec_threaded c c' s : threaded (e_exec E) (s_ip s) c c' →
  fetch E (s_ip s) = Ok c → fetch E' (s_ip s) = Ok c' →
  match exec_code E c s with
  | Ok (Running s1) => ∃ s1', exec_code E' c' s = Ok (Running s1') ∧ ahead s1 s1'
  | Ok (Halted r) => exec_code E' c' s = Ok (Halted r)
  | Exit e => exec_code E' c' s = Exit e
  | Undef _ => True
  end.
Proof.
  intros Hth Hf Hf'. apply fetch_ok in Hf. apply fetch_ok in Hf'. simpl in Hf'.
  destruct (decide (c_opcode c = VM_JMPTBL)) as [Ho|Ho].
  { assert (c' = c) as -> by (destruct Hth as [?|[Hj _]]; [done|by rewrite Ho in Hj]).
    unfold exec_code. rewrite Ho. unfold vm_jmptbl.
    change (POPI E' U32 s) with (POPI E U32 s).
    destruct (POPI E U32 s) as [[i s1]| |]; cbn [mbind outcome_bind running]; [|done|done].
    set (s2 := set_ip _ s1).
    destruct (fetch E (s_ip s2)) as [e|m|m] eqn:He; cbn [mbind outcome_bind];
      [| |done].
    - apply fetch_ok in He. destruct (proj2 Ht _ _ He) as (e' & He' & Hte).
      rewrite (proj2 (fetch_ok E' _ e') He'). cbn [mbind outcome_bind].
      destruct (vm_jmp e s2) as [s3|m|m] eqn:Hv; cbn [mbind outcome_bind].
      + destruct (vm_jmp_threaded e e' s2 s3 Hte Hv) as (s3' & -> & Ha).
        eexists. by split.
      + unfold vm_jmp, d_addr in Hv. by destruct (c_d e).
      + done.
    - unfold fetch in He. destruct (s_ip s2 <? 0); [done|].
      by destruct (e_exec E !! Z.to_nat (s_ip s2)). }
  destruct Hth as [->|(Hj & a & k & Hd & Hr & Hd' & Ho')].
  { rewrite exec_code_env by done. destruct (exec_code E c s) as [[s1|r]| |]; [|done..].
    exists s1. split; [done|apply ahead_refl]. }
  assert (Hjmp : ∀ t, s_ip t = s_ip s → ∃ t', vm_jmp c' t = Ok t' ∧
    ∀ t1, vm_jmp c t = Ok t1 → ahead t1 t').
  { intros t Hip. unfold vm_jmp, d_addr. rewrite Hd, Hd'. eexists. split; [done|].
    intros t1 [= <-]. apply ahead_set_ip. simpl. rewrite Hip.
    by replace (s_ip s + (k - s_ip s)) with k by lia. }
  destruct (c_opcode c) eqn:Hop; try discriminate Hj; destruct Ho' as [Ho'|(Ho' & -> & _)].
  - (* VM_JMP *)
    unfold exec_code. rewrite Hop, Ho'. destruct (Hjmp s eq_refl) as (t' & -> & Ha).
    destruct (vm_jmp c s) as [t1| |] eqn:Hv; simpl; [|unfold vm_jmp, d_addr in Hv; by rewrite Hd in Hv|done].
    exists t'. split; [done|]. by apply Ha.
  - (* VM_JMP to the next instruction *)
    unfold exec_code. rewrite Hop, Ho'. unfold vm_jmp, d_addr. rewrite Hd. simpl.
    eexists. split; [done|]. by apply ahead_set_ip.
  - (* VM_JZ *)
    unfold exec_code. rewrite Hop, Ho'. unfold vm_jz.
    change (POPI E' U64 s) with (POPI E U64 s).
    destruct (POPI E U64 s) as [[v s1]| |] eqn:Hp; cbn [mbind outcome_bind running]; [|done|done].
    assert (Hip : s_ip s1 = s_ip s) by (unfold POPI in Hp; ok_inv; by simplify_eq).
    destruct (v =? 0); cbn [mbind outcome_bind]; [|eexists; split; [done|apply ahead_refl]].
    destruct (Hjmp s1 Hip) as (t' & -> & Ha).
    destruct (vm_jmp c s1) as [t1| |] eqn:Hv; simpl; [|unfold vm_jmp, d_addr in Hv; by rewrite Hd in Hv|done].
    exists t'. split; [done|]. by apply Ha.
  - exfalso. apply (Hc _ c c' Hf Hf'); [rewrite Hop; in_list|done].
  - (* VM_JNZ *)
    unfold exec_code. rewrite Hop, Ho'. unfold vm_jnz.
    change (POPI E' U64 s) with (POPI E U64 s).
    destruct (POPI E U64 s) as [[v s1]| |] eqn:Hp; cbn [mbind outcome_bind running]; [|done|done].
    assert (Hip : s_ip s1 = s_ip s) by (unfold POPI in Hp; ok_inv; by simplify_eq).
    destruct (v =? 0); cbn [mbind outcome_bind]; [eexists; split; [done|apply ahead_refl]|].
    destruct (Hjmp s1 Hip) as (t' & -> & Ha).
    destruct (vm_jmp c s1) as [t1| |] eqn:Hv; simpl; [|unfold vm_jmp, d_addr in Hv; by rewrite Hd in Hv|done].
    exists t'. split; [done|]. by apply Ha.
  - exfalso. apply (Hc _ c c' Hf Hf'); [rewrite Hop; in_list|done].
Qed.

Lemma run_more (F : vm_env) n s o : run F n s = Some o → run F (S n) s = Some o.
Proof.
  revert s. induction n as [|n IH]; intros s H; [done|].
  cbn [run] in H. change (match step F s with
    | Ok (Running s) => run F (S n) s | Ok (Halted r) => Some (Ok r)
    | Exit e => Some (Exit e) | Undef e => Some (Undef e) end = Some o).
  destruct (step F s) as [[s1|r]| |]; auto.
Qed.

Lemma step_jmp s m : jmp_to (e_exec E) (s_ip s) m → step E s = Ok (Running (set_ip m s)).
Proof.
  intros (c & a & Hg & Ho & Hd & ->). unfold step. rewrite (proj2 (fetch_ok E _ c) Hg).
  cbn [mbind outcome_bind]. unfold exec_code. rewrite Ho. unfold vm_jmp, d_addr. by rewrite Hd.
Qed.

Lemma run_ahead n s s' o : ahead s s' → run E n s = Some o → (∀ e, o ≠ Undef e) →
  run E' n s' = Some o.
Proof.
  revert s s' o. induction n as [|n IH]; intros s s' o [Hs Hr] H Hu; [done|].
  apply rtc_inv in Hr as [He|(m & Hm & Hr)].
  - rewrite <-He, set_ip_ip in Hs. subst s'. cbn [run] in H |- *. unfold step in H |- *.
    destruct (fetch E (s_ip s)) as [c|e|e] eqn:Hf; cbn [mbind outcome_bind] in H;
      [|unfold fetch in Hf; destruct (s_ip s <? 0); [done|]; by destruct (e_exec E !! Z.to_nat (s_ip s))
       |injection H as <-; by destruct (Hu e)].
    destruct (proj2 Ht _ _ (proj1 (fetch_ok E _ c) Hf)) as (c' & Hc' & Hth).
    pose proof (proj2 (fetch_ok E' _ c') Hc') as Hf'. rewrite Hf'. cbn [mbind outcome_bind].
    pose proof (exec_threaded c c' s Hth Hf Hf') as Hx.
    destruct (exec_code E c s) as [[s1|r]|e|e].
    + destruct Hx as (s1' & -> & Ha). by eapply IH.
    + by rewrite Hx.
    + by rewrite Hx.
    + injection H as <-. by destruct (Hu e).
  - cbn [run] in H. rewrite (step_jmp s m Hm) in H. apply run_more.
    eapply IH; [|exact H|done]. split; [|done].
    by rewrite Hs, set_ip_set_ip.
Qed.

End Sim.

(** ** Termination *)

Lemma chase_self fuel exec i c a moved :
  exec_get exec i = Ok c → c_opcode c = VM_JMP → c_d c = DAddr a → a_index a = 0 →
  chase fuel exec i c moved = None.
Proof.
  intros Hg Ho Hd Hz. revert moved. induction fuel as [|fuel IH]; intros moved; [done|].
  cbn [chase]. rewrite decide_True by done. unfold d_addr. rewrite Hd, Hz, Z.add_0_r.
  pose proof Hg as Hl. apply exec_get_ok in Hl as [Hi Hl]. apply lookup_lt_Some in Hl.
  destruct (Z.leb_spec (Z.of_nat (length exec)) i); [lia|]. by rewrite Hg.
Qed.

(** Jump threading never returns on a program with a jump to itself (the
    code of [for (;;);]), whatever the number of turns of its inner loop. *)
Theorem self_jump_never_returns fuel exec i c a exec' :
  exec_get exec i = Ok c → c_opcode c = VM_JMP → c_d c = DAddr a → a_index a = 0 →
  jump_optimization fuel exec ≠ Some (Ok exec').
Proof.
  intros Hg Ho Hd Hz. unfold jump_optimization.
  pose proof Hg as Hl. apply exec_get_ok in Hl as [Hi Hl]. apply lookup_lt_Some in Hl.
  assert (Hgen : ∀ n k e, exec_get e i = Ok c → 0 ≤ k ≤ i → i < k + Z.of_nat n →
    i < Z.of_nat (length e) → thread_from fuel n k e ≠ Some (Ok exec')).
  { induction n as [|n IH]; intros k e He Hk Hn Hle; [lia|]. cbn [thread_from].
    destruct (exec_get e k) as [d| |] eqn:Hgk; try done.
    destruct (decide (k = i)) as [->|Hne].
    - rewrite He in Hgk. injection Hgk as <-.
      unfold thread_jump. rewrite Ho. simpl. unfold d_addr. rewrite Hd, Hz, Z.add_0_r.
      destruct (Z.ltb_spec i (Z.of_nat (length e))); [|lia].
      rewrite He. by rewrite (chase_self fuel e i c a false).
    - destruct (thread_jump fuel e k d) as [[d'| |]|]; try done.
      apply IH; [|lia|lia|by rewrite length_insert].
      rewrite exec_get_insert by lia. by rewrite decide_False by done. }
  apply Hgen; [done|lia|lia|lia].
Qed.

(** *** Chains of jumps *)

Lemma jmp_to_dec exec i : {j | jmp_to exec i j} + {∀ j, ¬ jmp_to exec i j}.
Proof.
  destruct (exec_get exec i) as [c| |] eqn:Hc; [|right; intros ? (? & ? & ? & _); congruence..].
  destruct (decide (c_opcode c = VM_JMP)) as [Ho|Ho]; [|right; intros ? (? & ? & ? & ? & _); congruence].
  destruct (c_d c) as [| | | | |a|] eqn:Hd; try (right; intros ? (? & ? & ? & ? & ? & _); congruence).
  left. exists (i + a_index a), c, a. done.
Defined.

Section chains.
Context (exec : list vm_code).
Hypothesis Hcyc : ∀ i, ¬ tc (jmp_to exec) i i.

(** The positions of [n] jumps in a row from [i]. *)
Inductive chain : nat → Z → list Z → Prop :=
  | chain_nil i : chain O i []
  | chain_cons n i j l : jmp_to exec i j → chain n j l → chain (S n) i (i :: l).

Lemma chain_reach n i l k : chain n i l → k ∈ l → reach exec i k.
Proof.
  induction 1 as [|n i j l Hj _ IH]; intros Hk; [by apply elem_of_nil in Hk|].
  apply elem_of_cons in Hk as [->|Hk]; [done|]. eapply rtc_l; [exact Hj|auto].
Qed.
Lemma chain_nodup n i l : chain n i l → NoDup l ∧ length l = n ∧ ∀ k, k ∈ l → 0 ≤ k < Z.of_nat (length exec).
Proof.
  induction 1 as [i|n i j l Hj Hc (Hn & Hl & Hr)].
  - split; [constructor|]. split; [done|]. intros k Hk. by apply elem_of_nil in Hk.
  - split; [|split].
    + constructor; [|done]. intros Hi. apply (Hcyc i). eapply tc_rtc_r; [by apply tc_once|]. by eapply chain_reach.
    + cbn. by rewrite Hl.
    + intros k [->|Hk]%elem_of_cons; [|auto]. destruct Hj as (c & a & Hg & _). apply exec_get_ok in Hg as [? Hg].
      apply lookup_lt_Some in Hg. lia.
Qed.
(** There are no more of them than instructions. *)
Lemma chain_bound n i l : chain n i l → (n ≤ length exec)%nat.
Proof.
  intros (Hn & <- & Hr)%chain_nodup.
  assert (Hs : Z.to_nat <$> l ⊆+ seq 0 (length exec)).
  { apply NoDup_submseteq.
    - apply NoDup_fmap_2_strong; [|done]. intros x y Hx%Hr Hy%Hr. lia.
    - intros k (x & -> & Hx%Hr)%list_elem_of_fmap. apply elem_of_seq. lia. }
  apply submseteq_length in Hs. by rewrite length_fmap, length_seq in Hs.
Qed.

(** How many jumps there are in a row, up to [n]. *)
Fixpoint rank_within (n : nat) (i : Z) : nat :=
  match n with
  | O => O
  | S n => match jmp_to_dec exec i with inleft (j ↾ _) => S (rank_within n j) | inright _ => O end
  end.
Lemma jmp_to_det i j k : jmp_to exec i j → jmp_to exec i k → j = k.
Proof. intros (c & a & Hc & _ & Hd & ->) (c' & a' & Hc' & _ & Hd' & ->). congruence. Qed.
Lemma rank_within_jmp n i j : jmp_to exec i j → rank_within (S n) i = S (rank_within n j).
Proof.
  intros Hj. cbn [rank_within]. destruct (jmp_to_dec exec i) as [[k Hk]|Hn]; [by rewrite (jmp_to_det i j k)|by destruct (Hn j)].
Qed.
Lemma rank_within_end n i : (∀ j, ¬ jmp_to exec i j) → rank_within n i = O.
Proof. intros Hn. destruct n; [done|]. cbn [rank_within]. destruct (jmp_to_dec exec i) as [[k Hk]|]; [by destruct (Hn k)|done]. Qed.
Lemma rank_within_chain n i : ∃ l, chain (rank_within n i) i l.
Proof.
  revert i. induction n as [|n IH]; intros i; [exists []; constructor|].
  destruct (jmp_to_dec exec i) as [[j Hj]|Hn].
  - rewrite (rank_within_jmp n i j Hj). destruct (IH j) as [l Hl]. exists (i :: l). by econstructor.
  - rewrite rank_within_end by done. exists []. constructor.
Qed.
Lemma rank_within_stable n i : (rank_within n i < n)%nat → rank_within (S n) i = rank_within n i.
Proof.
  revert i. induction n as [|n IH]; intros i Hi; [lia|].
  destruct (jmp_to_dec exec i) as [[j Hj]|Hn]; [|by rewrite !rank_within_end].
  rewrite (rank_within_jmp n i j Hj) in Hi. rewrite !(rank_within_jmp _ i j Hj). f_equal. apply IH. lia.
Qed.

Definition rank (i : Z) : nat := rank_within (S (length exec)) i.
Lemma rank_le i : (rank i ≤ length exec)%nat.
Proof. destruct (rank_within_chain (S (length exec)) i) as [l Hl]. by eapply chain_bound. Qed.
Lemma rank_decreases i j : jmp_to exec i j → (rank j < rank i)%nat.
Proof.
  intros Hj. pose proof (rank_le i) as Hi. unfold rank in *. rewrite (rank_within_jmp _ i j Hj) in Hi.
  rewrite (rank_within_jmp _ i j Hj), rank_within_stable by lia. lia.
Qed.
Lemma rank_tc i j : tc (jmp_to exec) i j → (rank j < rank i)%nat.
Proof. induction 1 as [i j H|i j k H _ IH]; apply rank_decreases in H; lia. Qed.
End chains.

(** *** Threading succeeds *)

Section succeeds.
Context (exec : list vm_code) (Hw : threadable exec).
Abbreviation fuel := (S (length exec)).

Lemma reach_nonneg i j : reach exec i j → 0 ≤ i → 0 ≤ j.
Proof.
  induction 1 as [|i k j Hk _ IH]; [done|]. intros Hi. apply IH. destruct Hk as (c & a & Hc & Ho & Hd & ->).
  destruct (th_operands _ Hw i c Hc) as (b & Hb & Hpos); [by rewrite Ho|]. congruence.
Qed.
(** The jumps of a threaded program have operands, too. *)
Lemma threaded_operand exec' i c : all_threaded exec exec' → exec_get exec' i = Ok c → is_jump (c_opcode c) = true →
  ∃ a, c_d c = DAddr a ∧ 0 ≤ i + a_index a.
Proof.
  intros [Hl Ht] Hc Hj. destruct (exec_get_same_length _ _ _ _ Hl Hc) as [c0 Hc0].
  destruct (Ht _ _ Hc0) as (c1 & Hc1 & Hth). rewrite Hc in Hc1. injection Hc1 as <-.
  destruct Hth as [->|(Hj0 & a & k & Hd & Hr & Hd' & _)]; [by apply (th_operands _ Hw i c0)|].
  exists (set_a_index (k - i) a). split; [done|]. cbn [a_index set_a_index].
  destruct (th_operands _ Hw i c0 Hc0 Hj0) as (b & Hb & Hpos). apply reach_nonneg in Hr; [lia|congruence].
Qed.

Lemma exec_get_in (e : list vm_code) i : 0 ≤ i < Z.of_nat (length e) → ∃ c, exec_get e i = Ok c.
Proof.
  intros Hi. destruct (lookup_lt_is_Some_2 e (Z.to_nat i)) as [c Hc]; [lia|]. exists c. apply exec_get_ok. split; [lia|done].
Qed.

Lemma chase_ok n exec' index dst moved : all_threaded exec exec' → exec_get exec' index = Ok dst → (rank exec index < n)%nat →
  ∃ r, chase n exec' index dst moved = Some (Ok r).
Proof.
  intros Ht. revert index dst moved. induction n as [|n IH]; intros index dst moved Hg Hn; [lia|].
  cbn [chase]. destruct (decide (c_opcode dst = VM_JMP)) as [Ho|]; [|by eexists].
  destruct (threaded_operand exec' index dst Ht Hg) as (a & Ha & Hpos); [by rewrite Ho|]. unfold d_addr. rewrite Ha.
  destruct (Z.leb_spec (Z.of_nat (length exec')) (index + a_index a)); [by eexists|].
  destruct (exec_get_in exec' (index + a_index a)) as [d Hd]; [lia|]. rewrite Hd. apply IH; [done|].
  assert (Hr : tc (jmp_to exec) index (index + a_index a)) by (eapply threaded_reach; [done|]; by exists dst, a).
  apply (rank_tc exec (th_acyclic _ Hw)) in Hr. lia.
Qed.

Lemma thread_jump_ok exec' i c : all_threaded exec exec' → exec_get exec' i = Ok c → ∃ c', thread_jump fuel exec' i c = Some (Ok c').
Proof.
  intros Ht Hc. unfold thread_jump. destruct (is_jump (c_opcode c)) eqn:Hj; [|by eexists].
  destruct (threaded_operand exec' i c Ht Hc Hj) as (a & Ha & Hpos). unfold d_addr. rewrite Ha.
  destruct (Z.ltb_spec (i + a_index a) (Z.of_nat (length exec'))); [|by eexists].
  destruct (exec_get_in exec' (i + a_index a)) as [d Hd]; [lia|]. rewrite Hd.
  destruct (chase_ok fuel exec' (i + a_index a) d false Ht Hd) as [[index moved] ->]; [|by eexists].
  pose proof (rank_le exec (th_acyclic _ Hw) (i + a_index a)). lia.
Qed.

Lemma thread_from_ok n i exec' : all_threaded exec exec' → 0 ≤ i → i + Z.of_nat n = Z.of_nat (length exec) →
  (∀ j, i ≤ j → exec_get exec' j = exec_get exec j) → ∃ exec1, thread_from fuel n i exec' = Some (Ok exec1).
Proof.
  revert i exec'. induction n as [|n IH]; intros i exec' Ht Hi Hn Hs; [by eexists|].
  cbn [thread_from]. pose proof (proj1 Ht) as Hl. destruct (exec_get_in exec' i) as [c Hc]; [lia|]. rewrite Hc.
  destruct (thread_jump_ok exec' i c Ht Hc) as [c' Hj]. rewrite Hj.
  assert (Hone : thread_from fuel 1 i exec' = Some (Ok (<[Z.to_nat i := c']> exec'))).
  { cbn [thread_from]. by rewrite Hc, Hj. }
  apply IH; [by eapply thread_from_threaded|lia|lia|].
  intros j Hji. rewrite exec_get_insert by lia. case_decide; [lia|]. apply Hs. lia.
Qed.
End succeeds.

(** C19: Jump threading ends, and keeps what a program computes.  Where the
    operands of jumps are addresses in the program, no cycle consists of
    jumps only, and no conditional jump leads to the instruction behind it, it
    succeeds, with as many turns of the inner loop as there are instructions and
    one more; and every run of the original program that halts, or stops with
    a diagnosed error, gives the same result in the optimised program, within
    the same number of instructions. *)
Theorem jump_optimization_correct `{FA : FloatArith} E : threadable (e_exec E) →
  ∃ exec', jump_optimization (S (length (e_exec E))) (e_exec E) = Some (Ok exec') ∧
    ∀ n s o, run E n s = Some o → (∀ e, o ≠ Undef e) → run (with_exec exec' E) n s = Some o.
Proof.
  intros Hw. assert (Ht : all_threaded (e_exec E) (e_exec E)).
  { split; [done|]. intros j c Hc. exists c. split; [done|]. by left. }
  destruct (thread_from_ok (e_exec E) Hw (length (e_exec E)) 0 (e_exec E) Ht) as [exec' He]; [done|lia|done|].
  exists exec'. split; [exact He|]. intros n s o Hr Hu.
  pose proof (jump_optimization_threaded _ _ _ He) as Hth.
  apply (run_ahead E exec') with (s := s); [done|by apply threadable_keeps|apply ahead_refl|done|done].
Qed.

(** A conditional jump to the next instruction becomes VM_NOP, which leaves
    on the stack the condition that the jump would have popped. *)
Theorem cond_jump_to_next_leaks `{FA : FloatArith} (E : vm_env) fuel c d a s v exec' s' :
  e_exec E = [c; d] → c_opcode c ∈ [VM_JZ; VM_JNZ] → c_d c = DAddr a → a_index a = 1 →
  is_jump (c_opcode d) = false →
  jump_optimization (S fuel) (e_exec E) = Some (Ok exec') →
  s_ip s = 0 → mload (s_mem s) (at_sp E (-8) s) U64 = Some v →
  step E s = Ok (Running s') →
  ∃ s1, step (with_exec exec' E) s = Ok (Running s1) ∧ s_ip s1 = s_ip s' ∧
    s_sp s1 = s_sp s' + 8.
Proof.
  intros He Ho Hd Ha Hnj Hj Hip Hv Hs.
  assert (Hc : is_jump (c_opcode c) = true).
  { repeat (apply elem_of_cons in Ho as [->|Ho]; [done|]). by apply not_elem_of_nil in Ho. }
  assert (Hdo : c_opcode d ≠ VM_JMP) by (by destruct (c_opcode d)).
  assert (H1 : thread_jump (S fuel) [c; d] 0 c = Some (Ok (set_opcode VM_NOP (set_addr a c)))).
  { unfold thread_jump, d_addr. rewrite Hc, Hd, Ha. change (0 + 1) with 1.
    change (1 <? Z.of_nat (length [c; d])) with true. change (exec_get [c; d] 1) with (Ok d).
    cbn [chase]. rewrite decide_False by done. by rewrite Ha. }
  assert (H2 : ∀ e, thread_jump (S fuel) e 1 d = Some (Ok d)) by (intros e; unfold thread_jump; by rewrite Hnj).
  assert (exec' = [set_opcode VM_NOP (set_addr a c); d]) as ->.
  { rewrite He in Hj. unfold jump_optimization in Hj. cbn [thread_from length] in Hj.
    change (exec_get [c; d] 0) with (Ok c) in Hj. cbv beta iota in Hj. rewrite H1 in Hj.
    set (c' := set_opcode _ _) in *. change (0 + 1) with 1 in Hj.
    change (<[Z.to_nat 0 := c']> [c; d]) with [c'; d] in Hj.
    change (exec_get [c'; d] 1) with (Ok d) in Hj. cbv beta iota in Hj. rewrite H2 in Hj.
    by injection Hj. }
  assert (Hf : fetch E (s_ip s) = Ok c) by (apply fetch_ok, exec_get_ok; by rewrite Hip, He).
  assert (Hw : POPI E U64 s = Ok (conv U64 (mask_of U64 v), set_sp (s_sp s - 8) s)).
  { unfold POPI, rd. by rewrite Hv. }
  assert (Hs' : s_ip s' = 1 ∧ s_sp s' = s_sp s - 8).
  { unfold step in Hs. rewrite Hf in Hs. cbn [mbind outcome_bind] in Hs. unfold exec_code in Hs.
    repeat (apply elem_of_cons in Ho as [Ho|Ho]); [rewrite Ho in Hs..|by apply not_elem_of_nil in Ho];
      unfold vm_jz, vm_jnz in Hs; rewrite Hw in Hs; cbn [mbind outcome_bind running] in Hs;
      unfold vm_jmp, d_addr in Hs; rewrite Hd in Hs; cbn [mbind outcome_bind] in Hs;
      destruct (_ =? 0); injection Hs as <-; simpl; rewrite ?Ha, Hip; done. }
  exists (next s). split; [|simpl; rewrite Hip; lia].
  unfold step. rewrite (proj2 (fetch_ok _ _ (set_opcode VM_NOP (set_addr a c)))); [done|].
  by rewrite Hip.
Qed.

(** ** Instances *)

(** A jump over a jump, and a conditional one: [jmp 2; halt; jmp 1; push 0;
    jz 2; jmp 4; jmp 1; push 7; save_retval; halt]. *)
Definition demo_jumps : list vm_code :=
  [mkcode VM_JMP VMOP_NONE (DAddr (addr_at 2));
   mkcode VM_HALT VMOP_NONE DNone;
   mkcode VM_JMP VMOP_NONE (DAddr (addr_at 1));
   mkcode VM_PUSH VMOP_INT32 (DImm (ImmBits 0));
   mkcode VM_JZ VMOP_NONE (DAddr (addr_at 2));
   mkcode VM_JMP VMOP_NONE (DAddr (addr_at 4));
   mkcode VM_JMP VMOP_NONE (DAddr (addr_at 1));
   mkcode VM_PUSH VMOP_INT32 (DImm (ImmBits 7));
   mkcode VM_SAVE_RETVAL VMOP_NONE DNone;
   mkcode VM_HALT VMOP_NONE DNone].

(** All jumps lead forward, so there is no cycle. *)
Lemma forward_acyclic exec : (∀ i j, jmp_to exec i j → i < j) → ∀ i, ¬ tc (jmp_to exec) i i.
Proof.
  intros Hf i Hc. assert (Hlt : ∀ x y, tc (jmp_to exec) x y → x < y).
  { induction 1 as [x y Hxy|x y z Hxy _ IH]; apply Hf in Hxy; lia. }
  apply Hlt in Hc. lia.
Qed.
Lemma forward_reach exec i j : (∀ i j, jmp_to exec i j → i < j) → reach exec i j → i ≤ j.
Proof. intros Hf. induction 1 as [|x y z Hxy _ IH]; [lia|]. apply Hf in Hxy. lia. Qed.

Definition forward (exec : list vm_code) : bool :=
  forallb (λ c, negb (is_jump (c_opcode c)) || match c_d c with DAddr a => 1 <? a_index a | _ => false end
                || bool_decide (c_opcode c = VM_JMP) && match c_d c with DAddr a => 0 <? a_index a | _ => false end) exec.
Lemma forward_operand exec i c : forward exec = true → exec_get exec i = Ok c → is_jump (c_opcode c) = true →
  0 ≤ i ∧ ∃ a, c_d c = DAddr a ∧ 0 < a_index a ∧ (c_opcode c ≠ VM_JMP → 1 < a_index a).
Proof.
  unfold forward. rewrite forallb_forall. intros Hf Hc Hj. apply exec_get_ok in Hc as [Hi Hc]. split; [done|].
  apply list_elem_of_lookup_2, list_elem_of_In, Hf in Hc. rewrite Hj in Hc. cbn [negb orb] in Hc.
  destruct (c_d c) as [| | | | |a|]; try (by rewrite andb_false_r in Hc). exists a. split; [done|].
  apply orb_prop in Hc as [Hc|[Ho Hc]%andb_prop]; [apply Z.ltb_lt in Hc; lia|].
  apply bool_decide_eq_true in Ho. apply Z.ltb_lt in Hc. split; [lia|done].
Qed.
Lemma forward_threadable exec : forward exec = true → threadable exec.
Proof.
  intros Hf. assert (Hj : ∀ i j, jmp_to exec i j → i < j).
  { intros i j (c & a & Hc & Ho & Hd & ->). destruct (forward_operand exec i c Hf Hc) as (_ & b & Hb & Hpos & _); [by rewrite Ho|].
    assert (a = b) as -> by congruence. lia. }
  split.
  - intros i c Hc Ho. destruct (forward_operand exec i c Hf Hc Ho) as (Hi & a & Hd & Hpos & _). exists a. split; [done|lia].
  - by apply forward_acyclic.
  - intros i c a Hc Ho Hd Hr. exfalso. apply (forward_reach _ _ _ Hj) in Hr.
    destruct (forward_operand exec i c Hf Hc) as (_ & b & Hb & _ & Hgt).
    { repeat (apply elem_of_cons in Ho as [->|Ho]; [done|]). by apply elem_of_nil in Ho. }
    assert (a = b) as -> by congruence. assert (c_opcode c ≠ VM_JMP) as Hne.
    { intros E. rewrite E in Ho. by apply (bool_decide_eq_true_2 _) in Ho. }
    apply Hgt in Hne. lia.
Qed.

Lemma jump_optimization_correct_witness : ∃ exec',
  jump_optimization 11 demo_jumps = Some (Ok exec') ∧
  nth_error exec' 4 = Some (mkcode VM_JZ VMOP_NONE (DAddr (addr_at 3))) ∧
  run (with_exec exec' (demo_env demo_jumps)) 8 (demo []) = Some (Ok 7).
Proof.
  destruct (jump_optimization_correct (demo_env demo_jumps)) as (exec' & He & Hr).
  - apply forward_threadable. reflexivity.
  - exists exec'. split; [exact He|]. split; [|apply Hr; [vm_compute; reflexivity|discriminate]].
    vm_compute in He. injection He as <-. reflexivity.
Defined.

Lemma self_jump_never_returns_witness :
  let p := [mkcode VM_ENTER VMOP_NONE (DSize 0); mkcode VM_JMP VMOP_NONE (DAddr (addr_at 0))] in
  jump_optimization 1000 p ≠ Some (Ok p).
Proof.
  intros p. exact (self_jump_never_returns 1000 p 1 (mkcode VM_JMP VMOP_NONE (DAddr (addr_at 0)))
    (addr_at 0) p eq_refl eq_refl eq_refl eq_refl).
Defined.

Lemma cond_jump_to_next_leaks_witness :
  let c := mkcode VM_JNZ VMOP_NONE (DAddr (addr_at 1)) in
  let d := mkcode VM_HALT VMOP_NONE DNone in
  let exec' := match jump_optimization 2 [c; d] with Some (Ok e) => e | _ => [] end in
  ∃ s1, step (with_exec exec' (demo_env [c; d])) (demo [5]) = Ok (Running s1) ∧
    s_ip s1 = 1 ∧ s_sp s1 = 8.
Proof.
  intros c d exec'.
  exact (cond_jump_to_next_leaks (demo_env [c; d]) 1 c d (addr_at 1) (demo [5]) 5 exec'
    (set_ip 1 (set_sp 0 (demo [5]))) eq_refl ltac:(in_list) eq_refl eq_refl eq_refl eq_refl eq_refl
    ltac:(vm_compute; reflexivity) ltac:(vm_compute; reflexivity)).
Defined.
