(* ===== verification/Strings.v ===== *)
(** * Strings of the compiler (include/lacc/string.h, src/util/string.c)

    The 16-byte [String] union, its construction, comparison and printing.
    A character is its byte, [0 .. 255]; a buffer is the list of its bytes.
    The buffers a [String] points to are not written after they are filled,
    so a [String] carries the bytes themselves. *)

From stdpp Require Import base list numbers strings.
From Stdlib Require Import ZArith Lia.
From S2P Require Import Prelude.

Local Open Scope Z_scope.

Definition SHORT_STRING_LEN : Z := 14.

(** The union, told apart by [len] as everywhere in the code: below
    [SHORT_STRING_LEN], [chars] are the 14 bytes of [a.str]; from there on,
    the bytes of the buffer [p.str] points to. *)
Record kstring : Set := KString { s_len : Z; s_chars : list Z }.
#[export] Instance kstring_eq_dec : EqDecision kstring.
Proof. solve_decision. Defined.

(** [String s = {0}]. *)
Definition str_zero : kstring := KString 0 (replicate 14 0).

(** [str_raw], with the [len] characters that may be read behind it. *)
Definition str_raw (s : kstring) : list Z := take (Z.to_nat (s_len s)) (s_chars s).

(** [memcpy] of [src] to the start of a buffer. *)
Definition memcpy_at (dst src : list Z) : list Z := src ++ drop (length src) dst.

(** The strings allocated by [dup_string], most recent first. *)
Definition free_list := list (list Z).

Definition dup_string (fl : free_list) (str : list Z) : free_list * list Z :=
  ((str ++ [0]) :: fl, str ++ [0]).

(** [clear_string_all]: the new list and the buffers handed to [free]. *)
Definition clear_string_all (fl : free_list) : free_list * list (list Z) := ([], fl).

(** [str_init] of a C string with the bytes [str] before its terminator. *)
Definition str_init (fl : free_list) (str : list Z) : free_list * kstring :=
  let len := wrap_u 16 (Z.of_nat (length str)) in
  if len <? SHORT_STRING_LEN then
    (fl, KString len (memcpy_at (s_chars str_zero) (take (Z.to_nat len) str)))
  else
    let '(fl, p) := dup_string fl str in (fl, KString len p).

(** [memcmp], by the sign of its result. *)
Fixpoint memcmp (n : nat) (a b : list Z) : Z :=
  match n, a, b with
  | S n, x :: a, y :: b => if x =? y then memcmp n a b else if x <? y then -1 else 1
  | _, _, _ => 0
  end.

(** The two eightbytes of a short [String]. *)
Definition eightbytes (s : kstring) : Z * Z :=
  let bytes := le_enc 2 (s_len s) ++ s_chars s in
  (le_dec (take 8 bytes), le_dec (take 8 (drop 8 bytes))).

Definition str_cmp (s1 s2 : kstring) : Z :=
  if negb (s_len s1 =? s_len s2) then 1
  else if s_len s1 <? SHORT_STRING_LEN then
    let '(a0, a1) := eightbytes s1 in
    let '(b0, b1) := eightbytes s2 in
    if negb (a0 =? b0) || negb (a1 =? b1) then 1 else 0
  else memcmp (Z.to_nat (s_len s1)) (s_chars s1) (s_chars s2).

(** ** Printing *)

(** [isprint] of the C locale. *)
Definition isprint (c : Z) : bool := (32 <=? c) && (c <=? 126).

(** The [%03o] conversion of a byte. *)
Definition octal3 (c : Z) : list Z :=
  [48 + (c / 64) mod 8; 48 + (c / 8) mod 8; 48 + c mod 8].

(** The characters [printchar] writes; its result is their number. *)
Definition printchar (c : Z) : list Z :=
  if isprint c && negb (c =? 34) && negb (c =? 92) then [c]
  else match c with
       | 8 => [92; 98] | 9 => [92; 116] | 10 => [92; 110] | 12 => [92; 102]
       | 13 => [92; 114] | 92 => [92; 92] | 34 => [92; 34]
       | _ => 92 :: octal3 c
       end.

Definition fprintstr (s : kstring) : list Z :=
  34 :: mjoin (printchar <$> str_raw s) ++ [34].

(** ** Well-formed strings *)

(** What every constructor ensures: the unused bytes of a short string are
    zero, and a long one has its characters behind the pointer. *)
Definition wf_string (s : kstring) : Prop :=
  0 ≤ s_len s < 2 ^ 16 ∧ Forall is_byte (s_chars s) ∧
  if s_len s <? SHORT_STRING_LEN then
    s_chars s = str_raw s ++ replicate (14 - Z.to_nat (s_len s)) 0
    ∧ length (s_chars s) = 14%nat
  else s_len s ≤ Z.of_nat (length (s_chars s)).

Lemma length_str_raw s : wf_string s → length (str_raw s) = Z.to_nat (s_len s).
Proof.
  intros (Hl & _ & Hc). unfold str_raw, SHORT_STRING_LEN in *. rewrite length_take.
  destruct (Z.ltb_spec (s_len s) 14); [destruct Hc as [_ Hc]|]; lia.
Qed.

Lemma wf_str_zero : wf_string str_zero.
Proof.
  split; [simpl; lia|]. split; [apply Forall_replicate; done|]. by split.
Qed.

Lemma Forall_is_byte_zero n : Forall is_byte (replicate n 0).
Proof. apply Forall_replicate. done. Qed.

Lemma wf_short l : (length l < 14)%nat → Forall is_byte l →
  wf_string (KString (Z.of_nat (length l)) (memcpy_at (s_chars str_zero) l)).
Proof.
  intros Hl Hb. split; [simpl; lia|].
  change (s_chars (KString _ ?c)) with c. unfold memcpy_at.
  change (s_chars str_zero) with (replicate 14 0). rewrite drop_replicate.
  split; [apply Forall_app_2; [done|apply Forall_is_byte_zero]|].
  unfold str_raw. simpl. rewrite Nat2Z.id, take_app_length.
  destruct (Z.ltb_spec (Z.of_nat (length l)) SHORT_STRING_LEN); unfold SHORT_STRING_LEN in *; [|lia].
  split; [done|]. rewrite length_app, length_replicate. lia.
Qed.

Lemma raw_short l : str_raw (KString (Z.of_nat (length l)) (memcpy_at (s_chars str_zero) l)) = l.
Proof. unfold str_raw, memcpy_at. simpl. by rewrite Nat2Z.id, take_app_length. Qed.

Lemma memcmp_eq n a b : (n ≤ length a)%nat → (n ≤ length b)%nat →
  memcmp n a b = 0 ↔ take n a = take n b.
Proof.
  revert a b. induction n as [|n IH]; intros [|x a] [|y b] Ha Hb; simpl in *; try lia; try done.
  destruct (Z.eqb_spec x y) as [->|Hn].
  - rewrite IH by lia. split; [by intros ->|congruence].
  - destruct (x <? y); split; intros H; try lia; congruence.
Qed.

Lemma le_dec_inj a b : length a = length b → Forall is_byte a → Forall is_byte b →
  le_dec a = le_dec b → a = b.
Proof. intros Hl Ha Hb H. rewrite <-(le_enc_dec a), <-(le_enc_dec b) by done. by rewrite H, Hl. Qed.

Lemma eightbytes_inj s t : s_len s = s_len t → length (s_chars s) = 14%nat →
  length (s_chars t) = 14%nat → Forall is_byte (s_chars s) → Forall is_byte (s_chars t) →
  eightbytes s = eightbytes t → s_chars s = s_chars t.
Proof.
  intros Hl Hs Ht Bs Bt. unfold eightbytes. rewrite Hl.
  pose proof (length_le_enc 2 (s_len t)) as Hp. pose proof (le_enc_bytes 2 (s_len t)) as Bp.
  revert Hp Bp. generalize (le_enc 2 (s_len t)). intros p Hp Bp.
  intros [= H1 H2].
  apply le_dec_inj in H1; [|by rewrite !length_take, !length_app, Hs, Ht
    |apply Forall_take, Forall_app; done|apply Forall_take, Forall_app; done].
  apply le_dec_inj in H2; [|by rewrite !length_take, !length_drop, !length_app, Hs, Ht
    |apply Forall_take, Forall_drop, Forall_app; done|apply Forall_take, Forall_drop, Forall_app; done].
  rewrite (take_ge (drop 8 (p ++ s_chars s))) in H2 by (rewrite length_drop, length_app; lia).
  rewrite (take_ge (drop 8 (p ++ s_chars t))) in H2 by (rewrite length_drop, length_app; lia).
  apply (app_inv_head p). by rewrite <-(take_drop 8 (p ++ s_chars s)), H1, H2, take_drop.
Qed.

(** Equality of strings, as [str_cmp] decides it. *)
Lemma str_cmp_raw s t : wf_string s → wf_string t →
  str_cmp s t = 0 ↔ str_raw s = str_raw t.
Proof.
  intros Ws Wt. pose proof (length_str_raw s Ws) as Ls. pose proof (length_str_raw t Wt) as Lt.
  destruct Ws as (Hs & Bs & Cs), Wt as (Ht & Bt & Ct). unfold str_cmp.
  destruct (Z.eqb_spec (s_len s) (s_len t)) as [Hl|Hl]; cbn [negb].
  2: { split; [done|]. intros He. rewrite He in Ls. lia. }
  rewrite <-Hl in Ct. destruct (Z.ltb_spec (s_len s) SHORT_STRING_LEN) as [H14|H14].
  - destruct Cs as [Cs Ks], Ct as [Ct Kt].
    transitivity (eightbytes s = eightbytes t).
    + destruct (eightbytes s) as [a0 a1], (eightbytes t) as [b0 b1].
      destruct (Z.eqb_spec a0 b0), (Z.eqb_spec a1 b1); cbn [negb orb];
        (split; [intros; by subst|]); by intros [= ? ?].
    + split; intros H; [|unfold eightbytes; by rewrite Hl, Cs, Ct, H].
      apply eightbytes_inj in H; try done. unfold str_raw. by rewrite Hl, H.
  - rewrite memcmp_eq by lia. unfold str_raw. by rewrite Hl.
Qed.

(** ** Properties *)

(** [str_cmp] is 0 exactly on strings with the same characters, for the
    strings the constructors build. *)
Theorem str_cmp_equal s t : wf_string s → wf_string t →
  str_cmp s t = 0 ↔ str_raw s = str_raw t.
Proof. apply str_cmp_raw. Qed.
Lemma str_cmp_equal_witness :
  let s := snd (str_init [] (cstr "main"%string)) in
  let t := snd (str_init [] (cstr "a_longer_identifier"%string)) in
  str_cmp s s = 0 ∧ str_cmp t t = 0 ∧ str_raw s ≠ str_raw t ∧
  (str_cmp s t = 0 ↔ str_raw s = str_raw t).
Proof.
  split; [reflexivity|]. split; [reflexivity|]. split; [discriminate|].
  apply str_cmp_equal.
  - vm_compute. split; [split; [discriminate|reflexivity]|].
    split; [repeat constructor; discriminate|split; reflexivity].
  - vm_compute. split; [split; [discriminate|reflexivity]|].
    split; [repeat constructor; discriminate|discriminate].
Defined.

(** [str_init] keeps the characters of every C string shorter than 64 kB
    and builds a well-formed string. *)
Theorem str_init_raw fl l : Z.of_nat (length l) < 2 ^ 16 → Forall is_byte l →
  str_raw (snd (str_init fl l)) = l ∧ wf_string (snd (str_init fl l)).
Proof.
  intros Hl Hb. unfold str_init. rewrite wrap_u_small by lia. rewrite Nat2Z.id, firstn_all.
  destruct (Z.ltb_spec (Z.of_nat (length l)) SHORT_STRING_LEN) as [H|H]; simpl;
    unfold SHORT_STRING_LEN in *.
  - split; [apply raw_short|]. apply wf_short; [lia|done].
  - unfold str_raw. simpl. rewrite Nat2Z.id, take_app_length. split; [done|].
    split; [simpl; lia|]. split; [apply Forall_app_2; [done|repeat constructor; done]|].
    simpl. destruct (Z.ltb_spec (Z.of_nat (length l)) SHORT_STRING_LEN) as [H'|];
      unfold SHORT_STRING_LEN in *; [lia|]. rewrite length_app. simpl. lia.
Qed.
Lemma str_init_raw_witness :
  str_raw (snd (str_init [] (cstr "__builtin_alloca"%string))) = cstr "__builtin_alloca"%string ∧
  wf_string (snd (str_init [] (cstr "__builtin_alloca"%string))).
Proof. apply str_init_raw; [reflexivity|vm_compute; repeat constructor; discriminate]. Defined.
