(* ===== verification/Hash.v ===== *)
(** * Hash tables (include/lacc/hash.h, src/util/hash.c)

    A chained table whose first entries sit in the slot array, with the
    entries given up by deletions on a free list behind the overflow slot.
    The entries are records of an explicit heap: slot [i] of [tab->table] has
    the location [i], the overflow slot the location [capacity], and [calloc]
    gives fresh locations. *)

From stdpp Require Import base list gmap numbers strings.
From Stdlib Require Import ZArith Lia.
From S2P Require Import Prelude Strings.

Local Open Scope Z_scope.

(** [tab->key] and [tab->add]; elements are values. *)
Class HashOps (A : Type) := {
  hash_key : A → kstring;
  hash_add : A → A
}.

(** What the table relies on, for the elements it is given ([elem_ok]): keys
    are well-formed strings and the element that [add] builds has the same
    key. *)
Class HashLaws (A : Type) `{HashOps A} := {
  elem_ok : A → Prop;
  elem_key x : elem_ok x → wf_string (hash_key x);
  key_wf_add x : elem_ok x → wf_string (hash_key (hash_add x));
  key_add x : elem_ok x → str_raw (hash_key (hash_add x)) = str_raw (hash_key x)
}.

Inductive hash_op : Set := HASH_LOOKUP | HASH_INSERT | HASH_REMOVE.
#[export] Instance hash_op_eq_dec : EqDecision hash_op.
Proof. solve_decision. Defined.

Section hash.
Context {A : Type} `{HashOps A}.

Record hash_entry : Type := HashEntry {
  e_data : option A;
  e_hash : Z;
  e_next : option nat
}.

Record hash_table : Type := HashTable {
  capacity : nat;
  table : gmap nat hash_entry
}.

(** The zeroed entry of [calloc] and [memset]. *)
Definition entry_zero : hash_entry := HashEntry None 0 None.

(** Reading and writing an entry through a pointer. *)
Definition get (tab : hash_table) (l : nat) : outcome hash_entry :=
  defined "access to no entry" (table tab !! l).
Definition set (tab : hash_table) (l : nat) (e : hash_entry) : hash_table :=
  HashTable (capacity tab) (<[l := e]> (table tab)).
Definition set_next (e : hash_entry) (n : option nat) : hash_entry :=
  HashEntry (e_data e) (e_hash e) n.
Definition set_data (e : hash_entry) (d : option A) : hash_entry :=
  HashEntry d (e_hash e) (e_next e).
Definition set_hash (e : hash_entry) (h : Z) : hash_entry :=
  HashEntry (e_data e) h (e_next e).

(** [djb2_hash]; [char] is signed. *)
Definition djb2_step (hash c : Z) : Z :=
  wrap_u 64 (wrap_u 64 (Z.shiftl hash 5) + hash + conv I8 c).
Definition djb2_hash (str : kstring) : Z := foldl djb2_step 5381 (str_raw str).

Definition hash_alloc_entry (tab : hash_table) : outcome (hash_table * nat) :=
  ovf ← get tab (capacity tab);
  match e_next ovf with
  | Some ref =>
      r ← get tab ref;
      let tab := set tab (capacity tab) (set_next ovf (e_next r)) in
      Ok (set tab ref entry_zero, ref)
  | None =>
      let ref := fresh (dom (table tab)) in
      Ok (set tab ref entry_zero, ref)
  end.

Definition hash_free_entry (tab : hash_table) (ref : nat) : outcome hash_table :=
  ovf ← get tab (capacity tab);
  r ← get tab ref;
  let tab := set tab ref (set_next r (e_next ovf)) in
  ovf ← get tab (capacity tab);
  Ok (set tab (capacity tab) (set_next ovf (Some ref))).

(** The loop of [hash_walk]: the table, [pre] and [ref] at its end. *)
Fixpoint walk_loop (fuel : nat) (tab : hash_table) (op : hash_op) (hash : Z) (key : kstring)
    (pre ref : option nat) : outcome (hash_table * option nat * option nat) :=
  match fuel with
  | O => Undef "endless chain"
  | S fuel =>
      match ref with
      | None => Ok (tab, pre, None)
      | Some l =>
          e ← get tab l;
          match e_data e with
          | None => Ok (tab, pre, Some l)
          | Some d =>
              if (e_hash e =? hash) && (str_cmp (hash_key d) key =? 0)
              then Ok (tab, pre, Some l)
              else
                tab ← (if bool_decide (e_next e = None) && bool_decide (op = HASH_INSERT) then
                         '(tab, n) ← hash_alloc_entry tab;
                         e ← get tab l;
                         Ok (set tab l (set_next e (Some n)))
                       else Ok tab);
                e ← get tab l;
                walk_loop fuel tab op hash key (Some l) (e_next e)
          end
      end
  end.

(** The result of [hash_walk]: no entry, an entry of the table, or the static
    copy of a deleted entry. *)
Inductive walk_result : Type :=
  | W_null
  | W_entry (l : nat)
  | W_deleted (d : option A) (h : Z).

Definition walk_remove (tab : hash_table) (pre : option nat) (ref : nat) :
    outcome (hash_table * walk_result) :=
  e ← get tab ref;
  match e_data e with
  | None =>
      _ ← c_assert (bool_decide (pre = None));
      _ ← c_assert (e_hash e =? 0);
      Ok (tab, W_null)
  | Some d =>
      tab' ← match pre with
             | None =>
                 match e_next e with
                 | Some n =>
                     en ← get tab n;
                     hash_free_entry (set tab ref en) n
                 | None => Ok (set tab ref entry_zero)
                 end
             | Some p =>
                 ep ← get tab p;
                 hash_free_entry (set tab p (set_next ep (e_next e))) ref
             end;
      Ok (tab', W_deleted (Some d) (e_hash e))
  end.

Definition hash_walk (tab : hash_table) (op : hash_op) (key : kstring) :
    outcome (hash_table * walk_result) :=
  let hash := djb2_hash key in
  let pos := Z.to_nat (hash mod Z.of_nat (capacity tab)) in
  '(tab, pre, ref) ← walk_loop (S (S (size (table tab)))) tab op hash key None (Some pos);
  match op, ref with
  | HASH_INSERT, None => Undef "access to no entry"
  | HASH_INSERT, Some l =>
      e ← get tab l;
      _ ← c_assert (bool_decide (e_data e = None) || (e_hash e =? hash));
      Ok (set tab l (set_hash e hash), W_entry l)
  | HASH_REMOVE, Some l => walk_remove tab pre l
  | _, Some l => Ok (tab, W_entry l)
  | _, None => Ok (tab, W_null)
  end.

Definition hash_init (cap : nat) : outcome hash_table :=
  _ ← c_assert (bool_decide (0 < cap)%nat);
  Ok (HashTable cap (list_to_map ((λ i, (i, entry_zero)) <$> seq 0 (cap + 1)))).

Definition hash_insert (tab : hash_table) (val : A) : outcome (hash_table * A) :=
  '(tab, r) ← hash_walk tab HASH_INSERT (hash_key val);
  match r with
  | W_entry l =>
      e ← get tab l;
      match e_data e with
      | Some d => Ok (tab, d)
      | None => let d := hash_add val in Ok (set tab l (set_data e (Some d)), d)
      end
  | _ => Undef "no entry"
  end.

Definition hash_lookup (tab : hash_table) (key : kstring) : outcome (option A) :=
  '(tab, r) ← hash_walk tab HASH_LOOKUP key;
  match r with
  | W_entry l => e ← get tab l; Ok (e_data e)
  | _ => Ok None
  end.

(** [hash_remove], with the element handed to [tab->del]. *)
Definition hash_remove (tab : hash_table) (key : kstring) : outcome (hash_table * option A) :=
  '(tab, r) ← hash_walk tab HASH_REMOVE key;
  match r with
  | W_null => Ok (tab, None)
  | W_entry l => e ← get tab l; Ok (tab, e_data e)
  | W_deleted d _ => Ok (tab, d)
  end.

(** [hash_chain_clear]: the last entry of the chain and the elements handed
    to [del], in order. *)
Fixpoint hash_chain_clear (fuel : nat) (tab : hash_table) (ref : nat) :
    outcome (nat * list A) :=
  match fuel with
  | O => Undef "endless chain"
  | S fuel =>
      e ← get tab ref;
      match e_data e with
      | None => Exit "assertion failed"
      | Some d =>
          match e_next e with
          | Some n => '(last, ds) ← hash_chain_clear fuel tab n; Ok (last, ds ++ [d])
          | None => Ok (ref, [d])
          end
      end
  end.

(** One round of the loop of [hash_clear]. *)
Definition clear_slot (tab : hash_table) (i : nat) : outcome (hash_table * list A) :=
  e ← get tab i;
  match e_data e with
  | None => Ok (tab, [])
  | Some d =>
      match e_next e with
      | None => Ok (tab, [d])
      | Some n =>
          '(last, ds) ← hash_chain_clear (S (size (table tab))) tab n;
          ovf ← get tab (capacity tab);
          el ← get tab last;
          let tab := set tab last (set_next el (e_next ovf)) in
          ovf ← get tab (capacity tab);
          let tab := set tab (capacity tab) (set_next ovf (Some n)) in
          Ok (tab, d :: ds)
      end
  end.

Fixpoint clear_slots (tab : hash_table) (ixs : list nat) : outcome (hash_table * list A) :=
  match ixs with
  | [] => Ok (tab, [])
  | i :: ixs =>
      '(tab, ds) ← clear_slot tab i;
      '(tab, ds') ← clear_slots tab ixs;
      Ok (tab, ds ++ ds')
  end.

Definition hash_clear (tab : hash_table) : outcome (hash_table * list A) :=
  '(tab, ds) ← clear_slots tab (seq 0 (capacity tab));
  Ok (foldl (λ tab i, set tab i entry_zero) tab (seq 0 (capacity tab)), ds).

(** [hash_chain_free]: frees the entries behind [ref]; the elements handed to
    [del], in order.  [del] gets NULL from an overflow slot, and ignores it. *)
Fixpoint hash_chain_free (fuel : nat) (tab : hash_table) (ref : nat) :
    outcome (hash_table * list A) :=
  match fuel with
  | O => Undef "endless chain"
  | S fuel =>
      e ← get tab ref;
      '(tab, ds) ← match e_next e with
                   | Some n =>
                       '(tab, ds) ← hash_chain_free fuel tab n;
                       _ ← get tab n;
                       Ok (HashTable (capacity tab) (delete n (table tab)), ds)
                   | None => Ok (tab, [])
                   end;
      Ok (tab, ds ++ from_option (λ d, [d]) [] (e_data e))
  end.

Fixpoint destroy_slots (tab : hash_table) (ixs : list nat) : outcome (hash_table * list A) :=
  match ixs with
  | [] => Ok (tab, [])
  | i :: ixs =>
      e ← get tab i;
      '(tab, ds) ← match e_data e with
                   | Some _ => hash_chain_free (S (size (table tab))) tab i
                   | None => _ ← c_assert (bool_decide (e_next e = None)); Ok (tab, [])
                   end;
      '(tab, ds') ← destroy_slots tab ixs;
      Ok (tab, ds ++ ds')
  end.

(** [hash_destroy]: what is left of the heap, and the elements handed to
    [tab->del]. *)
Definition hash_destroy (tab : hash_table) : outcome (gmap nat hash_entry * list A) :=
  '(tab, ds) ← destroy_slots tab (seq 0 (capacity tab));
  '(tab, _) ← hash_chain_free (S (size (table tab))) tab (capacity tab);
  Ok (foldl (λ h i, delete i h) (table tab) (seq 0 (capacity tab + 1)), ds).

End hash.
Arguments hash_entry A : clear implicits.
Arguments hash_table A : clear implicits.
