(* ===== verification/HashProps.v ===== *)
(** * The representation of hash tables

    The shape of the heap behind a [hash_table] and the map it stores: every
    entry of the heap has one owner, a bucket, the free list or the overflow
    slot; the invariant, and how the walk, the allocation and the release of
    an entry act on it. *)

From stdpp Require Import base list gmap numbers strings.
From Stdlib Require Import ZArith Lia.
From S2P Require Import Prelude Strings Hash.

Local Open Scope Z_scope.

Inductive owner : Set := O_bucket (i : nat) | O_free | O_overflow | O_held.
#[export] Instance owner_eq_dec : EqDecision owner.
Proof. solve_decision. Defined.

Section rep.
Context {A : Type} `{HL : HashLaws A}.
Implicit Types (tab : hash_table A) (h : gmap nat (hash_entry A)) (es : list (nat * A))
  (bs : list (list (nat * A))) (own : gmap nat owner).

Definition raw_key (d : A) : list Z := str_raw (hash_key d).
Definition slot_of tab (key : kstring) : nat :=
  Z.to_nat (djb2_hash key mod Z.of_nat (capacity tab)).

(** A chain of entries with data, and a chain of free entries. *)
Inductive seg h : option nat → list (nat * A) → Prop :=
  | seg_nil : seg h None []
  | seg_cons l d nx es :
      h !! l = Some (HashEntry (Some d) (djb2_hash (hash_key d)) nx) →
      seg h nx es → seg h (Some l) ((l, d) :: es).
Inductive fchain h : option nat → list nat → Prop :=
  | fchain_nil : fchain h None []
  | fchain_cons l e ls : h !! l = Some e → fchain h (e_next e) ls → fchain h (Some l) (l :: ls).

Definition bucket h (i : nat) es : Prop :=
  match es with [] => h !! i = Some entry_zero | _ => seg h (Some i) es end.

Record bucket_ok tab own (i : nat) es : Prop := {
  bo_bucket : bucket (table tab) i es;
  bo_own l : own !! l = Some (O_bucket i) ↔ l = i ∨ l ∈ es.*1;
  bo_locs : NoDup es.*1;
  bo_keys : NoDup (raw_key <$> es.*2);
  bo_wf : Forall (λ d, wf_string (hash_key d) ∧ slot_of tab (hash_key d) = i) es.*2
}.

(** The invariant, with the first [n] slots given up. *)
Record rep (n : nat) tab bs (fl : list nat) own : Prop := {
  rep_cap : (0 < capacity tab)%nat;
  rep_len : length bs = capacity tab;
  rep_dom l : is_Some (table tab !! l) ↔ is_Some (own !! l);
  rep_lt l i : own !! l = Some (O_bucket i) → (i < capacity tab)%nat;
  rep_bucket i es : bs !! i = Some es → (n ≤ i)%nat → bucket_ok tab own i es;
  rep_stale i l : (i < n)%nat → (i < capacity tab)%nat →
    own !! l = Some (O_bucket i) ↔ l = i;
  rep_free : ∃ o, table tab !! capacity tab = Some o ∧ fchain (table tab) (e_next o) fl;
  rep_free_nodup : NoDup fl;
  rep_free_own l : own !! l = Some O_free ↔ l ∈ fl;
  rep_overflow l : own !! l = Some O_overflow ↔ l = capacity tab
}.

(** The table stores the map [m] from keys to elements, and its heap holds
    nothing else. *)
Definition represents tab (m : gmap (list Z) A) : Prop :=
  ∃ bs fl own, rep 0 tab bs fl own ∧ (∀ l, own !! l ≠ Some O_held) ∧
    ∀ k d, m !! k = Some d ↔ ∃ i es, bs !! i = Some es ∧ d ∈ es.*2 ∧ raw_key d = k.

(** ** Chains *)

Lemma seg_frame h h' o es : (∀ l, l ∈ es.*1 → h' !! l = h !! l) → seg h o es → seg h' o es.
Proof.
  intros He H1. induction H1 as [|l d nx es Hl _ IH]; [constructor|econstructor].
  - rewrite He; [done|simpl; by left].
  - apply IH. intros l' Hl'. apply He. simpl. by right.
Qed.

Lemma fchain_frame h h' o ls : (∀ l, l ∈ ls → h' !! l = h !! l) → fchain h o ls → fchain h' o ls.
Proof.
  intros He H1. induction H1 as [|l e ls Hl _ IH]; [constructor|econstructor].
  - rewrite He; [done|by left].
  - apply IH. intros l' Hl'. apply He. by right.
Qed.

Lemma bucket_frame h h' i es : (∀ l, l = i ∨ l ∈ es.*1 → h' !! l = h !! l) →
  bucket h i es → bucket h' i es.
Proof.
  intros He. destruct es as [|x es]; simpl.
  - intros H1. rewrite He; [done|by left].
  - apply seg_frame. intros l Hl. apply He. by right.
Qed.

Lemma seg_lookup h o es l d : seg h o es → (l, d) ∈ es →
  ∃ nx, h !! l = Some (HashEntry (Some d) (djb2_hash (hash_key d)) nx).
Proof.
  induction 1 as [|l' d' nx es Hl _ IH]; [by intros ?%elem_of_nil|].
  intros [[= -> ->]|?]%elem_of_cons; eauto.
Qed.

Lemma seg_head h o x es : seg h o (x :: es) → o = Some x.1.
Proof. by inversion 1. Qed.

Lemma seg_cons_inv h o l d es : seg h o ((l, d) :: es) → o = Some l ∧
  ∃ nx, h !! l = Some (HashEntry (Some d) (djb2_hash (hash_key d)) nx) ∧ seg h nx es.
Proof. inversion 1; subst; eauto. Qed.

(** Append an entry, unlink an entry. *)
Lemma seg_snoc h o es l d nx n dn :
  seg h o (es ++ [(l, d)]) → NoDup ((es ++ [(l, d)]).*1) → n ∉ (es ++ [(l, d)]).*1 →
  h !! l = Some (HashEntry (Some d) (djb2_hash (hash_key d)) nx) →
  seg (<[n := HashEntry (Some dn) (djb2_hash (hash_key dn)) None]>
        (<[l := HashEntry (Some d) (djb2_hash (hash_key d)) (Some n)]> h))
      o (es ++ [(l, d); (n, dn)]).
Proof.
  revert o. induction es as [|[l' d'] es IH]; simpl; intros o Hs Hnd Hn Hl.
  - apply seg_cons_inv in Hs as (-> & nx' & Hl' & _).
    apply not_elem_of_cons in Hn as [Hn _].
    econstructor; [by rewrite lookup_insert_ne, lookup_insert_eq|].
    econstructor; [by rewrite lookup_insert_eq|constructor].
  - apply seg_cons_inv in Hs as (-> & nx' & Hl' & Hs).
    apply NoDup_cons in Hnd as [Hl1 Hnd]. apply not_elem_of_cons in Hn as [Hn1 Hn2].
    econstructor; [|by apply IH].
    rewrite !lookup_insert_ne; [done| |done].
    intros ->. apply Hl1. rewrite fmap_app. apply elem_of_app. right. by left.
Qed.

Lemma seg_unlink h o es p dp l d es2 ep e :
  seg h o (es ++ (p, dp) :: (l, d) :: es2) → NoDup ((es ++ (p, dp) :: (l, d) :: es2).*1) →
  h !! p = Some ep → h !! l = Some e →
  seg (<[p := set_next ep (e_next e)]> h) o (es ++ (p, dp) :: es2).
Proof.
  revert o. induction es as [|[l' d'] es IH]; simpl; intros o Hs Hnd Hp Hl.
  - apply seg_cons_inv in Hs as (-> & nx' & Hp' & Hs).
    apply seg_cons_inv in Hs as (-> & nx & Hl' & Hs).
    rewrite Hp in Hp'. rewrite Hl in Hl'. injection Hp' as ->. injection Hl' as ->. simpl.
    econstructor; [by rewrite lookup_insert_eq|].
    eapply seg_frame; [|exact Hs]. intros l0 Hl0. apply lookup_insert_ne. intros ->.
    apply NoDup_cons in Hnd as [Hnd _]. apply Hnd. by right.
  - apply seg_cons_inv in Hs as (-> & nx' & Hl' & Hs).
    apply NoDup_cons in Hnd as [Hl1 Hnd]. econstructor; [|by apply IH].
    rewrite lookup_insert_ne; [done|]. intros ->. apply Hl1.
    rewrite fmap_app. apply elem_of_app. right. by left.
Qed.

(** ** The walk *)

Definition last_pre (pre : option nat) es : option nat :=
  match last es.*1 with Some p => Some p | None => pre end.

Lemma last_pre_cons pre l d es : last_pre (Some l) es = last_pre pre ((l, d) :: es).
Proof. unfold last_pre. rewrite fmap_cons, last_cons. simpl. by destruct (last es.*1). Qed.

Lemma hit_spec d key : wf_string (hash_key d) → wf_string key →
  (djb2_hash (hash_key d) =? djb2_hash key) && (str_cmp (hash_key d) key =? 0)
  = bool_decide (raw_key d = str_raw key).
Proof.
  intros Hd Hk. pose proof (str_cmp_raw _ _ Hd Hk) as Hc.
  apply eq_true_iff_eq. rewrite andb_true_iff, !Z.eqb_eq, bool_decide_eq_true, Hc.
  split; [by intros [_ ?]|]. intros He. split; [|done]. unfold djb2_hash, raw_key in *. by rewrite He.
Qed.

Definition miss (key : kstring) es : Prop :=
  Forall (λ d, wf_string (hash_key d) ∧ raw_key d ≠ str_raw key) es.*2.

Lemma walk_found fuel tab op key pre o es l d es2 :
  seg (table tab) o (es ++ (l, d) :: es2) → wf_string key → miss key es →
  wf_string (hash_key d) → raw_key d = str_raw key → (length es < fuel)%nat →
  walk_loop fuel tab op (djb2_hash key) key pre o = Ok (tab, last_pre pre es, Some l).
Proof.
  intros Hs Hk. revert fuel pre o Hs. induction es as [|[l' d'] es IH];
    simpl; intros [|fuel] pre o Hs Hm Hd He Hf; try lia; simpl.
  - apply seg_cons_inv in Hs as (-> & nx & Hl & _). unfold get. rewrite Hl.
    cbn [mbind outcome_bind defined e_data e_hash].
    rewrite hit_spec by done. by rewrite bool_decide_true.
  - apply seg_cons_inv in Hs as (-> & nx & Hl & Hs). unfold get. rewrite Hl.
    cbn [mbind outcome_bind defined e_data e_hash e_next].
    inversion Hm as [|? ? [Hw Hne] Hm']; subst.
    rewrite hit_spec by done. rewrite (bool_decide_false (raw_key _ = _)) by done.
    assert (Hnx : bool_decide (nx = None) = false).
    { apply bool_decide_eq_false. destruct es as [|[? ?] ?]; simpl in Hs;
        apply seg_head in Hs; by subst. }
    rewrite Hnx. cbn [andb mbind outcome_bind]. rewrite Hl.
    cbn [mbind outcome_bind defined e_next]. rewrite (IH _ (Some l')) by (done || lia).
    by rewrite (last_pre_cons pre l' d').
Qed.

Lemma walk_absent fuel tab op key pre o es :
  seg (table tab) o es → wf_string key → miss key es → op ≠ HASH_INSERT →
  (length es < fuel)%nat →
  walk_loop fuel tab op (djb2_hash key) key pre o = Ok (tab, last_pre pre es, None).
Proof.
  intros Hs Hk Hm Hop. revert fuel pre. induction Hs as [|l d nx es Hl Hs IH];
    intros [|fuel] pre Hf; simpl in Hf; try lia; simpl; [done|].
  unfold get. rewrite Hl. cbn [mbind outcome_bind defined e_data e_hash e_next].
  inversion Hm as [|? ? [Hw Hne] Hm']; subst.
  rewrite hit_spec by done. rewrite (bool_decide_false (raw_key _ = _)) by done.
  rewrite (bool_decide_false (op = _)) by done. rewrite andb_false_r.
  cbn [mbind outcome_bind]. rewrite Hl. cbn [mbind outcome_bind defined e_next].
  rewrite IH by (done || lia). by rewrite (last_pre_cons pre l d).
Qed.

Lemma walk_insert fuel tab tab' n key pre o es l d nx :
  seg (table tab) o (es ++ [(l, d)]) → wf_string key → miss key (es ++ [(l, d)]) →
  hash_alloc_entry tab = Ok (tab', n) → n ≠ l → table tab' !! n = Some entry_zero →
  table tab' !! l = Some (HashEntry (Some d) (djb2_hash (hash_key d)) nx) →
  (S (length es) < fuel)%nat →
  walk_loop fuel tab HASH_INSERT (djb2_hash key) key pre o =
    Ok (set tab' l (HashEntry (Some d) (djb2_hash (hash_key d)) (Some n)), Some l, Some n).
Proof.
  intros Hs Hk Hm Ha Hn H0 Hl'. revert fuel pre o Hs Hm.
  induction es as [|[l1 d1] es IH]; simpl; intros [|fuel] pre o Hs Hm Hf; try lia; simpl.
  - apply seg_cons_inv in Hs as (-> & nx1 & Hl & Hs).
    assert (nx1 = None) as -> by (by inversion Hs).
    unfold get. rewrite Hl. cbn [mbind outcome_bind defined e_data e_hash e_next].
    inversion Hm as [|? ? [Hw Hne] Hm']; subst.
    rewrite hit_spec by done. rewrite (bool_decide_false (raw_key _ = _)) by done. rewrite !bool_decide_true by done.
    cbn [andb]. rewrite Ha. cbn [mbind outcome_bind]. rewrite Hl'.
    cbn [mbind outcome_bind defined]. unfold set at 2. cbn [table].
    rewrite lookup_insert_eq. cbn [mbind outcome_bind defined set_next e_next e_data e_hash].
    destruct fuel as [|fuel]; [lia|]. cbn [walk_loop]. unfold get. cbn [set table].
    rewrite lookup_insert_ne, H0 by done. done.
  - apply seg_cons_inv in Hs as (-> & nx1 & Hl & Hs). unfold get. rewrite Hl.
    cbn [mbind outcome_bind defined e_data e_hash e_next].
    inversion Hm as [|? ? [Hw Hne] Hm']; subst.
    rewrite hit_spec by done. rewrite (bool_decide_false (raw_key d1 = _)) by done.
    assert (Hnx : bool_decide (nx1 = None) = false).
    { apply bool_decide_eq_false. destruct es as [|[? ?] ?]; simpl in Hs;
        apply seg_head in Hs; by subst. }
    rewrite Hnx. cbn [andb mbind outcome_bind]. rewrite Hl.
    cbn [mbind outcome_bind defined e_next]. rewrite (IH fuel (Some l1)) by (done || lia). done.
Qed.

(** ** Allocation and release of an entry *)

Lemma rep_bucket_lt n tab bs fl own i es : rep n tab bs fl own → bs !! i = Some es →
  (i < capacity tab)%nat.
Proof. intros HR Hi. rewrite <-(rep_len _ _ _ _ _ HR). by eapply lookup_lt_Some. Qed.

(** Another heap and other owners with the same buckets. *)
Lemma bucket_ok_frame tab tab' own own' i es :
  capacity tab' = capacity tab →
  (∀ l, own !! l = Some (O_bucket i) → table tab' !! l = table tab !! l) →
  (∀ l, own' !! l = Some (O_bucket i) ↔ own !! l = Some (O_bucket i)) →
  bucket_ok tab own i es → bucket_ok tab' own' i es.
Proof.
  intros Hc Ht Ho [Hb Hown Hl Hk Hw]. split; [| |done..|].
  - eapply bucket_frame; [|exact Hb]. intros l Hin. by apply Ht, Hown.
  - intros l. by rewrite Ho.
  - unfold slot_of in *. by rewrite Hc.
Qed.

Definition plain (o : option owner) : Prop :=
  match o with Some (O_bucket _) | Some O_overflow => False | _ => True end.

Lemma plain_insert own x a o : plain (own !! x) → plain (Some a) → ¬ plain (Some o) →
  ∀ l, <[x := a]> own !! l = Some o ↔ own !! l = Some o.
Proof.
  intros Hx Ha Ho l. destruct (decide (l = x)) as [->|Hl].
  - rewrite lookup_insert_eq. split; [by intros [= ->]|]. intros Hx'. by rewrite Hx' in Hx.
  - by rewrite lookup_insert_ne.
Qed.

(** An entry outside the buckets changes hands. *)
Lemma rep_move n tab bs fl own tab' fl' x a :
  rep n tab bs fl own → capacity tab' = capacity tab →
  plain (own !! x) → plain (Some a) →
  (∀ l, l ≠ x → l ≠ capacity tab → table tab' !! l = table tab !! l) →
  is_Some (table tab' !! x) →
  (∃ o, table tab' !! capacity tab = Some o ∧ fchain (table tab') (e_next o) fl') →
  NoDup fl' → (∀ l, <[x := a]> own !! l = Some O_free ↔ l ∈ fl') →
  rep n tab' bs fl' (<[x := a]> own).
Proof.
  intros HR Hc Hx Ha Hsame Hsx Hfree Hnd Hfo.
  assert (Hb : ∀ i l, <[x := a]> own !! l = Some (O_bucket i) ↔ own !! l = Some (O_bucket i))
    by (intros; apply plain_insert; simpl; tauto).
  assert (Hov : ∀ l, <[x := a]> own !! l = Some O_overflow ↔ own !! l = Some O_overflow)
    by (intros; apply plain_insert; simpl; tauto).
  split; rewrite ?Hc; try done; try apply HR.
  - intros l. destruct (decide (l = x)) as [->|Hl]; [by rewrite lookup_insert_eq; split; eauto|].
    rewrite lookup_insert_ne by done. destruct (decide (l = capacity tab)) as [->|Hl'].
    + destruct Hfree as (o & -> & _). pose proof (proj2 (rep_overflow _ _ _ _ _ HR _) eq_refl) as ->.
      by split; eauto.
    + rewrite Hsame by done. apply HR.
  - intros l i Hi. apply Hb in Hi. by apply HR in Hi.
  - intros i es Hi Hn. apply (bucket_ok_frame tab tab' own);
      [done| |done|by apply (rep_bucket _ _ _ _ _ HR)]. intros l Hl. apply Hsame; intros ->; [by rewrite Hl in Hx|].
    pose proof (proj2 (rep_overflow _ _ _ _ _ HR _) eq_refl). congruence.
  - intros i l H1 H2. rewrite Hb. by apply HR.
  - intros l. rewrite Hov. apply HR.
Qed.

Lemma get_ok tab l e : table tab !! l = Some e → get tab l = Ok e.
Proof. intros Hl. unfold get. by rewrite Hl. Qed.

Lemma free_owner n tab bs fl own l : rep n tab bs fl own → l ∈ fl →
  own !! l = Some O_free ∧ l ≠ capacity tab.
Proof.
  intros HR Hl. apply (rep_free_own _ _ _ _ _ HR) in Hl. split; [done|]. intros ->.
  pose proof (proj2 (rep_overflow _ _ _ _ _ HR _) eq_refl). congruence.
Qed.

Lemma alloc_spec n tab bs fl own : rep n tab bs fl own →
  ∃ tab' x fl', hash_alloc_entry tab = Ok (tab', x) ∧ table tab' !! x = Some entry_zero ∧
    capacity tab' = capacity tab ∧ rep n tab' bs fl' (<[x := O_held]> own) ∧
    (∀ l, l ≠ x → l ≠ capacity tab → table tab' !! l = table tab !! l) ∧ plain (own !! x).
Proof.
  intros HR. destruct (rep_free _ _ _ _ _ HR) as (o & Ho & Hf).
  unfold hash_alloc_entry. rewrite (get_ok _ _ _ Ho). cbn [mbind outcome_bind].
  pose proof (proj2 (rep_overflow _ _ _ _ _ HR _) eq_refl) as Hov.
  destruct (e_next o) as [x|] eqn:Hn; inversion Hf as [|? e ls Hx Hf']; subst.
  - rewrite (get_ok _ _ _ Hx). cbn [mbind outcome_bind].
    pose proof (rep_free_nodup _ _ _ _ _ HR) as [Hxl Hnd]%NoDup_cons.
    destruct (free_owner _ _ _ _ _ x HR ltac:(by left)) as [Hxo Hxc].
    eexists _, _, ls. split; [done|]. cbn [set table capacity].
    rewrite lookup_insert_eq. split; [done|]. split; [done|]. rewrite Hxo.
    assert (Hsame : ∀ l, l ≠ x → l ≠ capacity tab → (<[x:=entry_zero]>
      (<[capacity tab:=set_next o (e_next e)]> (table tab))) !! l = table tab !! l)
      by (intros; by rewrite !lookup_insert_ne).
    split; [|done]. apply (rep_move n tab bs (x :: ls)); cbn [set table capacity]; try done.
    + by rewrite Hxo. + rewrite lookup_insert_eq; eauto.
    + exists (set_next o (e_next e)). rewrite lookup_insert_ne, lookup_insert_eq by done.
      split; [done|]. eapply fchain_frame; [|exact Hf']. intros l Hl.
      destruct (free_owner _ _ _ _ _ l HR ltac:(by right)). apply Hsame; [|done]. by intros ->.
    + intros l. pose proof (rep_free_own _ _ _ _ _ HR l) as Hl. rewrite elem_of_cons in Hl.
      destruct (decide (l = x)) as [->|]; [by rewrite lookup_insert_eq|].
      rewrite lookup_insert_ne by done. rewrite Hl. clear -n0. tauto.
  - set (x := fresh (dom (table tab))).
    assert (Hx : table tab !! x = None) by (apply not_elem_of_dom, is_fresh).
    assert (Hxo : own !! x = None).
    { apply eq_None_not_Some. rewrite <-(rep_dom _ _ _ _ _ HR), Hx. by intros [? ?]. }
    eexists _, _, []. split; [done|]. cbn [set table capacity]. rewrite lookup_insert_eq.
    split; [done|]. split; [done|]. rewrite Hxo.
    split; [|split; [intros; by apply lookup_insert_ne|done]].
    apply (rep_move n tab bs []); cbn [set table capacity]; try done.
    + by rewrite Hxo.
    + intros l ? ?. by apply lookup_insert_ne.
    + rewrite lookup_insert_eq; eauto.
    + exists o. rewrite lookup_insert_ne by congruence. rewrite Hn. split; [done|constructor].
    + constructor.
    + intros l. rewrite <-(rep_free_own _ _ _ _ _ HR l).
      destruct (decide (l = x)) as [->|]; [by rewrite lookup_insert_eq, Hxo|by rewrite lookup_insert_ne].
Qed.

(** [hash_free_entry] of an entry in hand. *)
Lemma free_spec n tab bs fl own x : rep n tab bs fl own → own !! x = Some O_held →
  ∃ tab', hash_free_entry tab x = Ok tab' ∧ capacity tab' = capacity tab ∧
    rep n tab' bs (x :: fl) (<[x := O_free]> own) ∧
    (∀ l, l ≠ x → l ≠ capacity tab → table tab' !! l = table tab !! l).
Proof.
  intros HR Hx. destruct (rep_free _ _ _ _ _ HR) as (o & Ho & Hf).
  pose proof (proj2 (rep_overflow _ _ _ _ _ HR _) eq_refl) as Hov.
  destruct (proj2 (rep_dom _ _ _ _ _ HR x) ltac:(eauto)) as [r Hr].
  unfold hash_free_entry. rewrite (get_ok _ _ _ Ho), bind_ok, (get_ok _ _ _ Hr), bind_ok.
  assert (Hxc : x ≠ capacity tab) by congruence.
  assert (Ho' : table (set tab x (set_next r (e_next o))) !! capacity tab = Some o)
    by (cbn; by rewrite lookup_insert_ne).
  change (capacity (set _ _ _)) with (capacity tab).
  rewrite (get_ok _ _ _ Ho'), bind_ok. eexists. split; [done|]. split; [done|].
  assert (Hsame : ∀ l, l ≠ x → l ≠ capacity tab →
    table (set (set tab x (set_next r (e_next o))) (capacity tab) (set_next o (Some x))) !! l
    = table tab !! l) by (intros; cbn; by rewrite !lookup_insert_ne).
  assert (Hxf : x ∉ fl) by (intros Hin; destruct (free_owner _ _ _ _ _ x HR Hin); congruence).
  split; [|done]. apply (rep_move n tab bs fl); try done.
  - by rewrite Hx.
  - cbn. rewrite lookup_insert_ne, lookup_insert_eq by done; eauto.
  - exists (set_next o (Some x)). cbn. rewrite lookup_insert_eq. split; [done|].
    econstructor; [by rewrite lookup_insert_ne, lookup_insert_eq|]. cbn.
    eapply fchain_frame; [|exact Hf]. intros l Hl.
    destruct (free_owner _ _ _ _ _ l HR Hl). apply Hsame; [|done]. by intros ->.
  - constructor; [done|apply HR].
  - intros l. rewrite elem_of_cons, <-(rep_free_own _ _ _ _ _ HR l).
    destruct (decide (l = x)) as [->|]; [rewrite lookup_insert_eq; by split; eauto|].
    rewrite lookup_insert_ne by done. tauto.
Qed.

End rep.

(** * Correctness of the hash table

    The operations of src/util/hash.c implement a finite map from keys to
    elements: what each returns and stores on every branch, that the walks end
    and read no dead entry, and that the heap behind the table neither leaks
    nor is used after release. *)

Section props.
Context {A : Type} `{HL : HashLaws A}.
Implicit Types (tab : hash_table A) (h : gmap nat (hash_entry A)) (es : list (nat * A))
  (bs : list (list (nat * A))) (own : gmap nat owner) (m : gmap (list Z) A).

Lemma is_Some_insert {X} (h : gmap nat X) x a l : is_Some (h !! x) →
  is_Some (<[x := a]> h !! l) ↔ is_Some (h !! l).
Proof.
  intros Hx. destruct (decide (l = x)) as [->|].
  - rewrite lookup_insert_eq. split; eauto.
  - by rewrite lookup_insert_ne.
Qed.
Lemma is_Some_insert2 {X} (h : gmap nat X) x a b l :
  is_Some (<[x := a]> h !! l) ↔ is_Some (<[x := b]> h !! l).
Proof.
  destruct (decide (l = x)) as [->|].
  - rewrite !lookup_insert_eq. split; eauto.
  - by rewrite !lookup_insert_ne.
Qed.

Definition mine (i : nat) (o : option owner) : Prop := o = Some (O_bucket i) ∨ o = Some O_held.
#[local] Instance mine_dec i o : Decision (mine i o).
Proof. unfold mine. apply _. Defined.

(** Replacing the entries of one bucket. *)
Lemma rep_set_bucket n tab bs fl own i es tab' own' :
  rep n tab bs fl own → (n ≤ i)%nat → (i < capacity tab)%nat →
  capacity tab' = capacity tab →
  (∀ l, is_Some (table tab' !! l) ↔ is_Some (own' !! l)) →
  (∀ l, ¬ mine i (own !! l) → table tab' !! l = table tab !! l ∧ own' !! l = own !! l) →
  (∀ l, mine i (own !! l) → mine i (own' !! l)) →
  bucket_ok tab' own' i es → rep n tab' (<[i := es]> bs) fl own'.
Proof.
  intros HR Hni Hi Hc Hdom Hsame Hmine Hb.
  assert (Ho : ∀ o, ¬ mine i (Some o) → ∀ l, own' !! l = Some o ↔ own !! l = Some o).
  { intros o Hno l. destruct (own !! l) as [o1|] eqn:E.
    - destruct (decide (mine i (Some o1))) as [Hm|Hm].
      + pose proof (Hmine l) as Hm'. rewrite E in Hm'. specialize (Hm' Hm).
        split; [intros E'; by rewrite E' in Hm'|intros [= ->]; done].
      + destruct (Hsame l) as [_ ->]; [by rewrite E|]. by rewrite E.
    - destruct (Hsame l) as [_ ->]; [rewrite E; by intros [?|?]|]. by rewrite E. }
  assert (Hov : ¬ mine i (Some O_overflow)) by by intros [?|?].
  assert (Hfr : ¬ mine i (Some O_free)) by by intros [?|?].
  split; rewrite ?Hc; try done; try apply (rep_cap _ _ _ _ _ HR);
    try apply (rep_free_nodup _ _ _ _ _ HR).
  - rewrite length_insert. apply (rep_len _ _ _ _ _ HR).
  - intros l j Hj. destruct (decide (j = i)) as [->|Hj']; [done|].
    apply Ho in Hj; [by apply HR in Hj|]. intros [?|?]; congruence.
  - intros j es' Hj Hn. destruct (decide (j = i)) as [->|Hj'].
    + rewrite list_lookup_insert_eq in Hj by (rewrite (rep_len _ _ _ _ _ HR); done).
      by injection Hj as <-.
    + rewrite list_lookup_insert_ne in Hj by done.
      assert (Hnj : ¬ mine i (Some (O_bucket j))) by (intros [?|?]; congruence).
      apply (bucket_ok_frame tab tab' own); [done| |by apply Ho|by apply (rep_bucket _ _ _ _ _ HR)].
      intros l Hl. apply Hsame. by rewrite Hl.
  - intros j l H1 H2. rewrite Ho; [by apply (rep_stale _ _ _ _ _ HR)|]. intros [?|?]; [|done].
    assert (j = i) by congruence. lia.
  - destruct (rep_free _ _ _ _ _ HR) as (o & Hco & Hf). exists o.
    assert (Hcov : own !! capacity tab = Some O_overflow) by by apply (rep_overflow _ _ _ _ _ HR).
    destruct (Hsame (capacity tab)) as [-> _]; [by rewrite Hcov|]. split; [done|].
    eapply fchain_frame; [|exact Hf]. intros l Hl. apply Hsame.
    apply (rep_free_own _ _ _ _ _ HR) in Hl. by rewrite Hl.
  - intros l. rewrite Ho by done. apply (rep_free_own _ _ _ _ _ HR).
  - intros l. rewrite Ho by done. apply (rep_overflow _ _ _ _ _ HR).
Qed.

(** The elements stored in the buckets, as a map. *)
Definition stores bs m : Prop :=
  ∀ k d, m !! k = Some d ↔ ∃ i es, bs !! i = Some es ∧ d ∈ es.*2 ∧ raw_key d = k.

Lemma slot_of_raw tab key key' : str_raw key = str_raw key' → slot_of tab key = slot_of tab key'.
Proof. unfold slot_of, djb2_hash. by intros ->. Qed.

Lemma slot_of_lt n tab bs fl own key : rep n tab bs fl own → (slot_of tab key < capacity tab)%nat.
Proof.
  intros HR. pose proof (rep_cap _ _ _ _ _ HR). unfold slot_of.
  pose proof (Z.mod_pos_bound (djb2_hash key) (Z.of_nat (capacity tab))). lia.
Qed.

Lemma bucket_at n tab bs fl own key : rep n tab bs fl own → ∃ es, bs !! slot_of tab key = Some es.
Proof.
  intros HR. apply lookup_lt_is_Some_2. rewrite (rep_len _ _ _ _ _ HR). by eapply slot_of_lt.
Qed.

(** The bucket of a key decides what the map holds. *)
Lemma stores_bucket n tab bs fl own m key es : rep n tab bs fl own → stores bs m → n = 0%nat →
  bs !! slot_of tab key = Some es →
  ∀ d, m !! str_raw key = Some d ↔ d ∈ es.*2 ∧ raw_key d = str_raw key.
Proof.
  intros HR Hst -> Hes d. rewrite (Hst _ d). split.
  - intros (i & es' & Hi & Hd & Hk). split; [|done].
    assert (i = slot_of tab key) as ->; [|congruence].
    pose proof (rep_bucket _ _ _ _ _ HR i es' Hi ltac:(lia)) as [_ _ _ _ Hw].
    rewrite Forall_forall in Hw. destruct (Hw d Hd) as [_ <-]. by apply slot_of_raw.
  - intros [Hd Hk]. eauto.
Qed.

Lemma find_key tab i es key : Forall (λ d, wf_string (hash_key d) ∧ slot_of tab (hash_key d) = i) es.*2 →
  miss key es ∨ ∃ es1 l d es2, es = es1 ++ (l, d) :: es2 ∧ miss key es1 ∧
    wf_string (hash_key d) ∧ raw_key d = str_raw key.
Proof.
  induction es as [|[l d] es IH]; simpl; intros Hw; [left; constructor|].
  inversion Hw as [|? ? [Hd _] Hw']; subst.
  destruct (decide (raw_key d = str_raw key)) as [He|He].
  - right. exists [], l, d, es. split; [done|]. split; [constructor|done].
  - destruct (IH Hw') as [Hm|(es1 & l1 & d1 & es2 & -> & Hm & Hd1 & He1)].
    + left. by constructor.
    + right. exists ((l, d) :: es1), l1, d1, es2. split; [done|]. split; [by constructor|done].
Qed.

Lemma miss_none bs m tab fl own key es : rep 0 tab bs fl own → stores bs m →
  bs !! slot_of tab key = Some es → miss key es → m !! str_raw key = None.
Proof.
  intros HR Hst Hes Hm. apply eq_None_not_Some. intros [d Hd].
  apply (stores_bucket _ _ _ _ _ _ _ _ HR Hst eq_refl Hes) in Hd as [Hd Hk].
  unfold miss in Hm. rewrite Forall_forall in Hm. by destruct (Hm d Hd).
Qed.

Lemma hit_some bs m tab fl own key es1 l d es2 : rep 0 tab bs fl own → stores bs m →
  bs !! slot_of tab key = Some (es1 ++ (l, d) :: es2) → raw_key d = str_raw key →
  m !! str_raw key = Some d.
Proof.
  intros HR Hst Hes Hk. apply (stores_bucket _ _ _ _ _ _ _ _ HR Hst eq_refl Hes).
  split; [|done]. rewrite fmap_app. apply elem_of_app. right. by left.
Qed.

(** The walk has enough fuel: a chain has no more entries than the heap. *)
Lemma chain_length (X : Type) (h : gmap nat X) (ls : list nat) :
  NoDup ls → (∀ l, l ∈ ls → is_Some (h !! l)) → (length ls ≤ size h)%nat.
Proof.
  intros Hnd Hin. rewrite <-(size_list_to_set (C:=gset nat)) by done. rewrite <-size_dom.
  apply subseteq_size. intros l Hl%elem_of_list_to_set. by apply elem_of_dom, Hin.
Qed.

Lemma bucket_length n tab bs fl own i es : rep n tab bs fl own → bucket_ok tab own i es →
  (length es ≤ size (table tab))%nat.
Proof.
  intros HR Hb. rewrite <-(length_fmap fst). apply chain_length; [apply Hb|].
  intros l Hl. apply (rep_dom _ _ _ _ _ HR). exists (O_bucket i). apply Hb. by right.
Qed.

(** ** Lookup *)

Lemma lookup_spec tab m key : represents tab m → wf_string key →
  hash_lookup tab key = Ok (m !! str_raw key).
Proof.
  intros (bs & fl & own & HR & _ & Hst) Hk. destruct (bucket_at _ _ _ _ _ key HR) as [es Hes].
  pose proof (rep_bucket _ _ _ _ _ HR _ _ Hes ltac:(lia)) as Hb.
  pose proof (bucket_length _ _ _ _ _ _ _ HR Hb) as Hlen.
  unfold hash_lookup, hash_walk. fold (slot_of tab key).
  destruct (find_key _ _ es key (bo_wf _ _ _ _ Hb)) as [Hm|(es1 & l & d & es2 & -> & Hm & Hd & He)].
  - rewrite (miss_none _ _ _ _ _ _ _ HR Hst Hes Hm). destruct es as [|x es].
    + destruct Hb as [Hb _ _ _ _]. simpl in Hb. cbn [walk_loop].
      rewrite (get_ok _ _ _ Hb). cbn [mbind outcome_bind entry_zero e_data].
      by rewrite (get_ok _ _ _ Hb).
    + rewrite (walk_absent _ _ _ _ _ _ (x :: es)); try done; [apply Hb|lia].
  - rewrite (hit_some _ _ _ _ _ _ _ _ _ _ HR Hst Hes He).
    assert (Hs : seg (table tab) (Some (slot_of tab key)) (es1 ++ (l, d) :: es2))
      by (destruct Hb as [Hb _ _ _ _]; by destruct es1).
    rewrite length_app in Hlen. simpl in Hlen.
    rewrite (walk_found _ _ _ _ _ _ es1 l d es2) by (done || lia).
    cbn [mbind outcome_bind].
    destruct (seg_lookup _ _ _ l d Hs) as [nx Hl]; [apply elem_of_app; right; by left|].
    by rewrite (get_ok _ _ _ Hl).
Qed.

(** ** Insertion *)

Lemma stores_set bs m i es' m' : (i < length bs)%nat →
  (∀ k d, m' !! k = Some d ↔ (d ∈ es'.*2 ∧ raw_key d = k) ∨
     ∃ j es, j ≠ i ∧ bs !! j = Some es ∧ d ∈ es.*2 ∧ raw_key d = k) →
  stores (<[i := es']> bs) m'.
Proof.
  intros Hi Hm k d. rewrite Hm. split.
  - intros [[? ?]|(j & es & Hj & Hes & ? & ?)].
    + exists i, es'. by rewrite list_lookup_insert_eq.
    + exists j, es. by rewrite list_lookup_insert_ne.
  - intros (j & es & Hj & ? & ?). destruct (decide (j = i)) as [->|Hne].
    + rewrite list_lookup_insert_eq in Hj by done. injection Hj as <-. by left.
    + rewrite list_lookup_insert_ne in Hj by done. right. eauto 10.
Qed.

Lemma stores_split bs m i es k d : stores bs m → bs !! i = Some es →
  m !! k = Some d ↔ (d ∈ es.*2 ∧ raw_key d = k) ∨
     ∃ j es, j ≠ i ∧ bs !! j = Some es ∧ d ∈ es.*2 ∧ raw_key d = k.
Proof.
  intros Hst Hi. rewrite (Hst k d). split.
  - intros (j & es' & Hj & ? & ?). destruct (decide (j = i)) as [->|Hne]; [|right; eauto 10].
    left. split; congruence.
  - intros [[? ?]|(j & es' & ? & ? & ? & ?)]; eauto 10.
Qed.

Lemma hash_insert_new tab val tab2 pre x : table tab2 !! x = Some entry_zero →
  walk_loop (S (S (size (table tab)))) tab HASH_INSERT (djb2_hash (hash_key val)) (hash_key val)
    None (Some (slot_of tab (hash_key val))) = Ok (tab2, pre, Some x) →
  hash_insert tab val =
    Ok (set tab2 x (HashEntry (Some (hash_add val)) (djb2_hash (hash_key val)) None), hash_add val).
Proof.
  intros Hx Hw. unfold hash_insert, hash_walk. fold (slot_of tab (hash_key val)).
  rewrite Hw, bind_ok, (get_ok _ _ _ Hx), bind_ok.
  cbn [entry_zero e_data c_assert mbind outcome_bind orb]. rewrite bool_decide_true by done.
  cbn [c_assert mbind outcome_bind orb]. unfold get at 1. cbn [set table].
  rewrite lookup_insert_eq. cbn. unfold set. cbn. by rewrite insert_insert_eq.
Qed.

Lemma hash_insert_hit tab val pre l d nx :
  table tab !! l = Some (HashEntry (Some d) (djb2_hash (hash_key d)) nx) →
  raw_key d = raw_key val →
  walk_loop (S (S (size (table tab)))) tab HASH_INSERT (djb2_hash (hash_key val)) (hash_key val)
    None (Some (slot_of tab (hash_key val))) = Ok (tab, pre, Some l) →
  hash_insert tab val = Ok (tab, d).
Proof.
  intros Hl Hk Hw. unfold hash_insert, hash_walk. fold (slot_of tab (hash_key val)).
  rewrite Hw, bind_ok, (get_ok _ _ _ Hl), bind_ok.
  assert (Hh : djb2_hash (hash_key val) = djb2_hash (hash_key d))
    by (unfold djb2_hash, raw_key in *; by rewrite Hk).
  cbn [e_data e_hash]. rewrite Hh, Z.eqb_refl, orb_true_r. cbn [c_assert mbind outcome_bind].
  assert (Hs : set tab l (set_hash (HashEntry (Some d) (djb2_hash (hash_key d)) nx)
    (djb2_hash (hash_key d))) = tab).
  { unfold set, set_hash. cbn. rewrite insert_id by done. by destruct tab. }
  by rewrite Hs, (get_ok _ _ _ Hl).
Qed.

Lemma insert_new_Some (m : gmap (list Z) A) k0 w k d : m !! k0 = None →
  <[k0 := w]> m !! k = Some d ↔ (w = d ∧ k0 = k) ∨ m !! k = Some d.
Proof.
  intros Hn. rewrite lookup_insert_Some. split; [tauto|].
  intros [[-> ->]|Hd]; [by left|]. right. split; [|done]. intros ->. congruence.
Qed.

(** The bucket with the new element at its end. *)
Lemma stores_insert bs m fl own tab v es x : rep 0 tab bs fl own → stores bs m →
  bs !! slot_of tab (hash_key v) = Some es → miss (hash_key v) es → elem_ok v →
  stores (<[slot_of tab (hash_key v) := es ++ [(x, hash_add v)]]> bs)
    (<[raw_key v := hash_add v]> m).
Proof.
  intros HR Hst Hes Hm Hv. pose proof (miss_none _ _ _ _ _ _ _ HR Hst Hes Hm) as Hnone.
  apply (stores_set bs m); [by eapply lookup_lt_Some|]. intros k d.
  rewrite insert_new_Some by done. rewrite (stores_split bs m _ es k d Hst Hes).
  rewrite fmap_app, elem_of_app. cbn [fmap list_fmap snd]. rewrite list_elem_of_singleton.
  assert (Hk : raw_key (hash_add v) = raw_key v) by by apply key_add.
  assert (Hd : (d = hash_add v ∧ raw_key d = k) ↔ (hash_add v = d ∧ raw_key v = k))
    by (split; [intros [-> <-]|intros [<- <-]]; by rewrite Hk).
  tauto.
Qed.

Lemma bucket_ok_insert tab tab' own own' v es x :
  bucket_ok tab own (slot_of tab (hash_key v)) es → miss (hash_key v) es →
  elem_ok v → capacity tab' = capacity tab →
  bucket (table tab') (slot_of tab (hash_key v)) (es ++ [(x, hash_add v)]) →
  x ∉ es.*1 →
  (∀ l, own' !! l = Some (O_bucket (slot_of tab (hash_key v))) ↔
        own !! l = Some (O_bucket (slot_of tab (hash_key v))) ∨ l = x) →
  bucket_ok tab' own' (slot_of tab (hash_key v)) (es ++ [(x, hash_add v)]).
Proof.
  intros [Hb Ho Hl Hk Hw] Hm Hv Hc Hb' Hx Ho'.
  assert (Hkv : raw_key (hash_add v) = raw_key v) by by apply key_add.
  split; [done| | | |]; rewrite ?fmap_app; cbn [fmap list_fmap fst snd].
  - intros l. rewrite Ho', Ho, elem_of_app, list_elem_of_singleton. tauto.
  - apply NoDup_app. split; [done|]. split; [|apply NoDup_singleton].
    intros y Hy ->%list_elem_of_singleton. done.
  - apply NoDup_app. split; [done|]. split; [|apply NoDup_singleton].
    intros y Hy ->%list_elem_of_singleton. apply list_elem_of_fmap in Hy as (d & Hd & Hin).
    unfold miss in Hm. rewrite Forall_forall in Hm. destruct (Hm d Hin) as [_ Hne].
    apply Hne. rewrite <-Hd. done.
  - unfold slot_of in *. rewrite Hc. apply Forall_app_2; [done|]. constructor; [|constructor].
    split; [by apply key_wf_add|]. f_equal. f_equal. unfold djb2_hash, raw_key in *. by rewrite Hkv.
Qed.

Lemma hash_of_add v : elem_ok v →
  djb2_hash (hash_key v) = djb2_hash (hash_key (hash_add v)).
Proof. intros. unfold djb2_hash. by rewrite key_add. Qed.

(** What insertion returns and stores. *)
Definition insert_result m (v : A) : A * gmap (list Z) A :=
  match m !! raw_key v with
  | Some d => (d, m)
  | None => (hash_add v, <[raw_key v := hash_add v]> m)
  end.

Lemma insert_empty tab bs fl own m v : rep 0 tab bs fl own → (∀ l, own !! l ≠ Some O_held) →
  stores bs m → elem_ok v → bs !! slot_of tab (hash_key v) = Some [] →
  ∃ tab', hash_insert tab v = Ok (tab', hash_add v) ∧
    represents tab' (<[raw_key v := hash_add v]> m).
Proof.
  intros HR Hh Hst Hv Hes. pose proof (elem_key v Hv) as Hkv. set (i := slot_of tab (hash_key v)) in *.
  pose proof (rep_bucket _ _ _ _ _ HR _ _ Hes ltac:(lia)) as Hb.
  pose proof (rep_bucket_lt _ _ _ _ _ _ _ HR Hes) as Hi.
  assert (Hz : table tab !! i = Some entry_zero) by apply (bo_bucket _ _ _ _ Hb).
  assert (Hio : own !! i = Some (O_bucket i)) by (apply Hb; by left).
  assert (Hm : miss (hash_key v) []) by constructor.
  eexists. split.
  { apply (hash_insert_new tab v tab None i Hz). fold i. cbn [walk_loop].
    by rewrite (get_ok _ _ _ Hz). }
  exists (<[i := [] ++ [(i, hash_add v)]]> bs), fl, own. split; [|split; [done|by eapply stores_insert]].
  apply (rep_set_bucket 0 tab bs fl own); try done; try lia.
  - intros l. cbn. rewrite is_Some_insert by eauto. apply HR.
  - intros l Hl. split; [|done]. cbn. apply lookup_insert_ne. intros <-. apply Hl. by left.
  - apply (bucket_ok_insert tab _ own); try done; [|by intros ?%elem_of_nil|].
    + cbn. econstructor; [|constructor]. by rewrite lookup_insert_eq, <-hash_of_add.
    + fold i. intros l. split; [by left|]. by intros [?| ->].
Qed.

Lemma insert_chain tab bs fl own m v es l d : rep 0 tab bs fl own →
  (∀ l, own !! l ≠ Some O_held) → stores bs m → elem_ok v →
  bs !! slot_of tab (hash_key v) = Some (es ++ [(l, d)]) → miss (hash_key v) (es ++ [(l, d)]) →
  ∃ tab', hash_insert tab v = Ok (tab', hash_add v) ∧
    represents tab' (<[raw_key v := hash_add v]> m).
Proof.
  intros HR Hh Hst Hv Hes Hm. pose proof (elem_key v Hv) as Hkv. set (i := slot_of tab (hash_key v)) in *.
  pose proof (rep_bucket _ _ _ _ _ HR _ _ Hes ltac:(lia)) as Hb.
  pose proof (rep_bucket_lt _ _ _ _ _ _ _ HR Hes) as Hi.
  pose proof (bucket_length _ _ _ _ _ _ _ HR Hb) as Hlen. rewrite length_app in Hlen. simpl in Hlen.
  assert (Hs : seg (table tab) (Some i) (es ++ [(l, d)]))
    by (destruct Hb as [Hb _ _ _ _]; by destruct es).
  destruct (seg_lookup _ _ _ l d Hs) as [nx Hl]; [apply elem_of_app; right; by left|].
  destruct (alloc_spec _ _ _ _ _ HR) as (tab1 & x & fl1 & Ha & Hx & Hc & HR1 & Hsame & Hpl).
  assert (Hbk : ∀ l', l' ∈ (es ++ [(l, d)]).*1 → own !! l' = Some (O_bucket i))
    by (intros; apply Hb; by right).
  assert (Hlin : l ∈ (es ++ [(l, d)]).*1)
    by (rewrite fmap_app; apply elem_of_app; right; by left).
  assert (Hkeep : ∀ l', l' ∈ (es ++ [(l, d)]).*1 → l' ≠ x ∧ table tab1 !! l' = table tab !! l').
  { intros l' Hl'. pose proof (Hbk l' Hl') as Ho.
    assert (Hlx : l' ≠ x) by (intros ->; by rewrite Ho in Hpl). split; [done|].
    apply Hsame; [done|]. intros ->.
    pose proof (proj2 (rep_overflow _ _ _ _ _ HR _) eq_refl). congruence. }
  destruct (Hkeep l Hlin) as [Hlx Hl1]. rewrite Hl in Hl1.
  eexists. split.
  { eapply (hash_insert_new tab v); [|eapply (walk_insert _ tab tab1 x _ _ _ es l d nx); try done; lia].
    cbn. by rewrite lookup_insert_ne. }
  exists (<[i := (es ++ [(l, d)]) ++ [(x, hash_add v)]]> bs), fl1, (<[x := O_bucket i]> own).
  split; [|split; [|by eapply stores_insert]].
  2: { intros l'. rewrite lookup_insert_Some. intros [[_ ?]|[_ ?]]; [done|by eapply Hh]. }
  assert (Hmx : ∀ l', ¬ mine i (<[x := O_held]> own !! l') → l' ≠ x ∧ l' ≠ l).
  { intros l' Hl'. split; intros ->; apply Hl'; [right; by rewrite lookup_insert_eq|].
    left. rewrite lookup_insert_ne by done. by apply Hbk. }
  apply (rep_set_bucket 0 tab1 bs fl1 (<[x := O_held]> own)); try done; rewrite ?Hc; try lia.
  - intros l'. cbn. pose proof (rep_dom _ _ _ _ _ HR1 l') as Hd.
    rewrite !is_Some_insert by (rewrite ?is_Some_insert; eauto). rewrite Hd.
    apply is_Some_insert2.
  - intros l' Hl'. destruct (Hmx l' Hl'). cbn. by rewrite !lookup_insert_ne.
  - intros l' [Hl'|Hl']; [left|]; apply lookup_insert_Some in Hl' as [[<- ?]|[? Hl']]; try done.
    + by rewrite lookup_insert_ne.
    + left. by rewrite lookup_insert_eq.
    + by apply Hh in Hl'.
  - apply (bucket_ok_insert tab _ own); try done.
    + cbn. rewrite <-app_assoc. cbn [app].
      rewrite hash_of_add by done. destruct es as [|y es]; [|cbn [app bucket]; rewrite app_comm_cons].
      all: eapply seg_snoc; [eapply seg_frame; [|exact Hs]; intros; by apply Hkeep|by apply Hb| |done].
      all: intros Hin; by apply Hkeep in Hin as [? _].
    + intros Hin. by apply Hkeep in Hin as [? _].
    + intros l'. destruct (decide (l' = x)) as [->|].
      * rewrite lookup_insert_eq. tauto.
      * rewrite lookup_insert_ne by done. tauto.
Qed.

Lemma insert_spec tab m v : represents tab m → elem_ok v →
  ∃ tab', hash_insert tab v = Ok (tab', fst (insert_result m v)) ∧
    represents tab' (snd (insert_result m v)).
Proof.
  intros Hr Hv. pose proof (elem_key v Hv) as Hkv. pose proof Hr as (bs & fl & own & HR & Hh & Hst).
  destruct (bucket_at _ _ _ _ _ (hash_key v) HR) as [es Hes].
  pose proof (rep_bucket _ _ _ _ _ HR _ _ Hes ltac:(lia)) as Hb.
  pose proof (bucket_length _ _ _ _ _ _ _ HR Hb) as Hlen. unfold insert_result.
  destruct (find_key _ _ es (hash_key v) (bo_wf _ _ _ _ Hb)) as [Hm|(es1 & l & d & es2 & -> & Hm & Hd & He)].
  - unfold raw_key at 1 3. rewrite (miss_none _ _ _ _ _ _ _ HR Hst Hes Hm). simpl.
    destruct es as [|[l d] es _] using rev_ind; [by eapply insert_empty|by eapply insert_chain].
  - unfold raw_key at 1 3. rewrite (hit_some _ _ _ _ _ _ _ _ _ _ HR Hst Hes He). simpl.
    exists tab. split; [|done]. rewrite length_app in Hlen. simpl in Hlen.
    assert (Hs : seg (table tab) (Some (slot_of tab (hash_key v))) (es1 ++ (l, d) :: es2))
      by (destruct Hb as [Hb _ _ _ _]; by destruct es1).
    destruct (seg_lookup _ _ _ l d Hs) as [nx Hl]; [apply elem_of_app; right; by left|].
    eapply hash_insert_hit; [done..|]. apply (walk_found _ _ _ _ _ _ es1 l d es2); done || lia.
Qed.

(** ** Removal *)

Lemma stores_delete tab fl own bs m i es es' ds1 d ds2 : rep 0 tab bs fl own → stores bs m →
  bs !! i = Some es →
  NoDup (raw_key <$> es.*2) → es.*2 = ds1 ++ d :: ds2 → es'.*2 = ds1 ++ ds2 →
  stores (<[i := es']> bs) (delete (raw_key d) m).
Proof.
  intros HR Hst Hi Hnd He He'. rewrite He, fmap_app, fmap_cons in Hnd.
  apply NoDup_app in Hnd as (_ & Hn1 & [Hn2 _]%NoDup_cons).
  assert (Hin : ∀ k d', (d' ∈ es'.*2 ∧ raw_key d' = k) ↔
    (d' ∈ es.*2 ∧ raw_key d' = k) ∧ raw_key d ≠ k).
  { intros k d'. rewrite He, He', !elem_of_app, elem_of_cons. split; [|intros [[[?|[->|?]] ?] ?]; tauto].
    intros [[Hd|Hd] <-]; (split; [tauto|]); intros Hk.
    - apply (Hn1 (raw_key d')); [by apply list_elem_of_fmap_2|]. rewrite Hk. by left.
    - apply Hn2. rewrite Hk. by apply list_elem_of_fmap_2. }
  apply (stores_set bs m); [by eapply lookup_lt_Some|]. intros k d'.
  rewrite lookup_delete_Some, (stores_split bs m i es k d' Hst Hi), Hin.
  split; [tauto|]. intros [[? ?]|Ho]; [tauto|]. split; [|by right]. intros <-.
  destruct Ho as (j & es0 & Hj & Hes0 & Hd0 & Hk). apply Hj.
  pose proof (rep_bucket _ _ _ _ _ HR _ _ Hes0 ltac:(lia)) as [_ _ _ _ Hw0].
  pose proof (rep_bucket _ _ _ _ _ HR _ _ Hi ltac:(lia)) as [_ _ _ _ Hw].
  rewrite Forall_forall in Hw0, Hw. destruct (Hw0 d' Hd0) as [_ <-].
  destruct (Hw d) as [_ <-]; [rewrite He; apply elem_of_app; right; by left|].
  by apply slot_of_raw.
Qed.

(** Taking the location [y] of the element [d] out of a bucket. *)
Lemma remove_entry tab bs fl own i es es' ls1 y ls2 ds1 d ds2 tab1 :
  rep 0 tab bs fl own → (∀ l, own !! l ≠ Some O_held) → bs !! i = Some es →
  es.*1 = ls1 ++ y :: ls2 → es'.*1 = ls1 ++ ls2 → es.*2 = ds1 ++ d :: ds2 → es'.*2 = ds1 ++ ds2 →
  y ≠ i → capacity tab1 = capacity tab →
  (∀ l, own !! l ≠ Some (O_bucket i) → table tab1 !! l = table tab !! l) →
  (∀ l, is_Some (table tab1 !! l) ↔ is_Some (table tab !! l)) →
  bucket (table tab1) i es' → ∃ tab', hash_free_entry tab1 y = Ok tab' ∧
    rep 0 tab' (<[i := es']> bs) (y :: fl) (<[y := O_free]> own).
Proof.
  intros HR Hh Hes Hl Hl' Hd Hd' Hyi Hc Hsame Hdom Hb'.
  pose proof (rep_bucket _ _ _ _ _ HR _ _ Hes ltac:(lia)) as [Hb Ho Hnl Hnk Hw].
  assert (Hyo : own !! y = Some (O_bucket i)).
  { apply Ho. right. rewrite Hl. apply elem_of_app. right. by left. }
  assert (HR1 : rep 0 tab1 (<[i := es']> bs) fl (<[y := O_held]> own)).
  { apply (rep_set_bucket 0 tab bs fl own); try done; [lia|by eapply rep_bucket_lt| | | |].
    - intros l. rewrite Hdom, (rep_dom _ _ _ _ _ HR). symmetry. apply is_Some_insert. eauto.
    - intros l Hlm. assert (l ≠ y) by (intros ->; apply Hlm; by left).
      split; [apply Hsame; intros ?; apply Hlm; by left|by apply lookup_insert_ne].
    - intros l Hlm. destruct (decide (l = y)) as [->|]; [right; by rewrite lookup_insert_eq|].
      by rewrite lookup_insert_ne.
    - rewrite Hl in Ho, Hnl. apply NoDup_app in Hnl as (Hn1 & Hn2 & [Hn3 Hn4]%NoDup_cons).
      split; rewrite ?Hl', ?Hd'; [done| | | |].
      + intros l. destruct (decide (l = y)) as [->|].
        * rewrite lookup_insert_eq. split; [done|]. intros [?|[?|?]%elem_of_app]; [done| |done].
          by destruct (Hn2 y); [|left].
        * rewrite lookup_insert_ne, Ho, !elem_of_app, elem_of_cons by done. tauto.
      + apply NoDup_app. split; [done|]. split; [|done]. intros z Hz Hz'. apply (Hn2 z Hz). by right.
      + rewrite Hd, fmap_app, fmap_cons in Hnk. rewrite fmap_app.
        apply NoDup_app in Hnk as (Hk1 & Hk2 & [Hk3 Hk4]%NoDup_cons).
        apply NoDup_app. split; [done|]. split; [|done]. intros z Hz Hz'. apply (Hk2 z Hz). by right.
      + unfold slot_of in *. rewrite Hc. rewrite Hd in Hw.
        apply Forall_app in Hw as [Hw1 [_ Hw2]%Forall_cons]. by apply Forall_app. }
  destruct (free_spec _ _ _ _ _ y HR1) as (tab' & Hf & _ & HR' & _); [by rewrite lookup_insert_eq|].
  exists tab'. split; [done|]. by rewrite insert_insert_eq in HR'.
Qed.

Lemma remove_only tab bs fl own m i l d :
  rep 0 tab bs fl own → (∀ l, own !! l ≠ Some O_held) → stores bs m → bs !! i = Some [(l, d)] →
  represents (set tab i entry_zero) (delete (raw_key d) m).
Proof.
  intros HR Hh Hst Hes. pose proof (rep_bucket _ _ _ _ _ HR _ _ Hes ltac:(lia)) as [Hb Ho Hnl Hnk Hw].
  pose proof (rep_bucket_lt _ _ _ _ _ _ _ HR Hes) as Hi.
  exists (<[i := []]> bs), fl, own. split; [|split; [done|]].
  - assert (Hl : l = i) by (apply seg_head in Hb; by injection Hb). subst l.
    assert (Hio : own !! i = Some (O_bucket i)) by (apply Ho; by left).
    apply (rep_set_bucket 0 tab bs fl own); try done; try lia.
    + intros l. cbn. rewrite is_Some_insert; [apply (rep_dom _ _ _ _ _ HR)|].
      apply (rep_dom _ _ _ _ _ HR). eauto.
    + intros l Hl. split; [|done]. cbn. apply lookup_insert_ne. intros <-. apply Hl. by left.
    + split; try (by constructor); [by cbn; rewrite lookup_insert_eq|].
      intros l. rewrite Ho. cbn. rewrite list_elem_of_singleton. pose proof (not_elem_of_nil l). tauto.
  - by apply (stores_delete tab fl own bs m i [(l, d)] [] [] d []).
Qed.

Lemma remove_first tab bs fl own m i l d n d2 es :
  rep 0 tab bs fl own → (∀ l, own !! l ≠ Some O_held) → stores bs m →
  bs !! i = Some ((l, d) :: (n, d2) :: es) →
  ∃ en tab', get tab n = Ok en ∧ hash_free_entry (set tab i en) n = Ok tab' ∧
    represents tab' (delete (raw_key d) m).
Proof.
  intros HR Hh Hst Hes. pose proof (rep_bucket _ _ _ _ _ HR _ _ Hes ltac:(lia)) as [Hb Ho Hnl Hnk Hw].
  cbn in Hb. apply seg_cons_inv in Hb as ([= <-] & nx & Hi & Hs).
  apply seg_cons_inv in Hs as (-> & nx2 & Hn & Hs). eexists.
  cbn in Hnl. apply NoDup_cons in Hnl as [Hni [Hnn _]%NoDup_cons].
  apply not_elem_of_cons in Hni as [Hni Hie].
  destruct (remove_entry tab bs fl own i ((i, d) :: (n, d2) :: es) ((i, d2) :: es) [i] n es.*1 [] d (d2 :: es.*2)
    (set tab i (HashEntry (Some d2) (djb2_hash (hash_key d2)) nx2))) as (tab' & Hf & HR'); try done.
  - intros l Hl. cbn. apply lookup_insert_ne. intros <-. apply Hl, Ho. by left.
  - intros l. cbn. apply is_Some_insert. eauto.
  - cbn. econstructor; [by rewrite lookup_insert_eq|]. eapply seg_frame; [|exact Hs].
    intros l Hl. apply lookup_insert_ne. by intros ->.
  - exists tab'. split; [by apply get_ok|]. split; [exact Hf|]. eexists _, _, _. split; [exact HR'|].
    split; [|by apply (stores_delete tab fl own bs m i ((i, d) :: (n, d2) :: es) _ [] d (d2 :: es.*2))].
    intros l. rewrite lookup_insert_Some. intros [[_ ?]|[_ ?]]; [done|by eapply Hh].
Qed.

Lemma remove_later tab bs fl own m i es1 p dp l d es2 :
  rep 0 tab bs fl own → (∀ l, own !! l ≠ Some O_held) → stores bs m →
  bs !! i = Some (es1 ++ (p, dp) :: (l, d) :: es2) →
  ∃ ep e tab', get tab p = Ok ep ∧ get tab l = Ok e ∧
    hash_free_entry (set tab p (set_next ep (e_next e))) l = Ok tab' ∧
    represents tab' (delete (raw_key d) m).
Proof.
  intros HR Hh Hst Hes. pose proof (rep_bucket _ _ _ _ _ HR _ _ Hes ltac:(lia)) as [Hb Ho Hnl Hnk Hw].
  assert (Hs : seg (table tab) (Some i) (es1 ++ (p, dp) :: (l, d) :: es2)) by by destruct es1.
  destruct (seg_lookup _ _ _ p dp Hs) as [nxp Hp]; [apply elem_of_app; right; by left|].
  destruct (seg_lookup _ _ _ l d Hs) as [nx Hl]; [apply elem_of_app; right; right; by left|].
  pose proof (seg_unlink _ _ _ _ _ _ _ _ _ _ Hs Hnl Hp Hl) as Hs'.
  assert (Hli : l ≠ i).
  { intros ->. destruct es1 as [|[l1 d1] es1]; simpl in Hs, Hnl;
      apply seg_head in Hs as [= ->]; apply NoDup_cons in Hnl as [Hnl _]; apply Hnl; simpl.
    - by left.
    - rewrite fmap_app. apply elem_of_app. right. right. by left. }
  eexists _, _. destruct (remove_entry tab bs fl own i
    (es1 ++ (p, dp) :: (l, d) :: es2) (es1 ++ (p, dp) :: es2)
    (es1.*1 ++ [p]) l es2.*1 (es1.*2 ++ [dp]) d es2.*2
    (set tab p (set_next (HashEntry (Some dp) (djb2_hash (hash_key dp)) nxp) nx)))
    as (tab' & Hf & HR'); rewrite ?fmap_app, <-?app_assoc; try done.
  - intros l' Hl'. cbn. apply lookup_insert_ne. intros <-. apply Hl', Ho. right.
    rewrite fmap_app. apply elem_of_app. right. by left.
  - intros l'. cbn. apply is_Some_insert. eauto.
  - by destruct es1.
  - exists tab'. split; [by apply get_ok|]. split; [by apply get_ok|]. split; [exact Hf|].
    eexists _, _, _. split; [exact HR'|].
    split; [|apply (stores_delete tab fl own bs m i (es1 ++ (p, dp) :: (l, d) :: es2) _
      (es1.*2 ++ [dp]) d es2.*2); try done;
      by rewrite fmap_app, <-app_assoc].
    intros l'. rewrite lookup_insert_Some. intros [[_ ?]|[_ ?]]; [done|by eapply Hh].
Qed.

Lemma remove_spec tab m key : represents tab m → wf_string key →
  ∃ tab', hash_remove tab key = Ok (tab', m !! str_raw key) ∧
    represents tab' (delete (str_raw key) m).
Proof.
  intros Hr Hk. pose proof Hr as (bs & fl & own & HR & Hh & Hst).
  destruct (bucket_at _ _ _ _ _ key HR) as [es Hes].
  pose proof (rep_bucket _ _ _ _ _ HR _ _ Hes ltac:(lia)) as Hb.
  pose proof (bucket_length _ _ _ _ _ _ _ HR Hb) as Hlen.
  unfold hash_remove, hash_walk. fold (slot_of tab key).
  destruct (find_key _ _ es key (bo_wf _ _ _ _ Hb)) as [Hm|(es1 & l & d & es2 & -> & Hm & Hd & He)].
  - pose proof (miss_none _ _ _ _ _ _ _ HR Hst Hes Hm) as Hnone. exists tab.
    rewrite Hnone, delete_id by done. split; [|done]. destruct es as [|x es].
    + destruct Hb as [Hb _ _ _ _]. simpl in Hb. cbn [walk_loop].
      rewrite (get_ok _ _ _ Hb). cbn [mbind outcome_bind entry_zero e_data].
      unfold walk_remove. by rewrite (get_ok _ _ _ Hb).
    + by rewrite (walk_absent _ _ _ _ _ _ (x :: es)) by (done || apply Hb || lia).
  - rewrite (hit_some _ _ _ _ _ _ _ _ _ _ HR Hst Hes He), <-He.
    assert (Hs : seg (table tab) (Some (slot_of tab key)) (es1 ++ (l, d) :: es2))
      by (destruct Hb as [Hb _ _ _ _]; by destruct es1).
    rewrite length_app in Hlen. simpl in Hlen.
    rewrite (walk_found _ _ _ _ _ _ es1 l d es2) by (done || lia).
    cbn [mbind outcome_bind]. unfold walk_remove.
    destruct es1 as [|[p dp] es1 _] using rev_ind; cbn [app] in *.
    + apply seg_cons_inv in Hs as ([= <-] & nx & Hl & Hs). rewrite (get_ok _ _ _ Hl).
      cbn [mbind outcome_bind e_data last_pre e_next last fmap list_fmap].
      destruct es2 as [|[n d2] es2].
      * inversion Hs; subst. eexists. split; [done|]. by eapply remove_only.
      * apply seg_head in Hs. subst nx. cbn [fst].
        destruct (remove_first _ _ _ _ _ _ _ _ _ _ _ HR Hh Hst Hes) as (en & tab' & Hg & Hf & Hr').
        exists tab'. by rewrite Hg, bind_ok, Hf.
    + rewrite <-app_assoc in Hes. cbn [app] in Hes.
      destruct (remove_later _ _ _ _ _ _ _ _ _ _ _ _ HR Hh Hst Hes) as (ep & e & tab' & Hp & Hl & Hf & Hr').
      destruct (seg_lookup _ _ _ l d Hs) as [nx Hl2]; [apply elem_of_app; right; by left|].
      rewrite (get_ok _ _ _ Hl2) in Hl |- *. injection Hl as <-.
      unfold last_pre. rewrite fmap_app. cbn [fmap list_fmap fst]. rewrite last_snoc.
      cbn [mbind outcome_bind e_data]. exists tab'. by rewrite Hp, bind_ok, Hf.
Qed.

End props.
