(* ===== verification/HashFree.v ===== *)
(** * Creating, clearing and destroying hash tables

    [hash_init], [hash_clear] and [hash_destroy] of src/util/hash.c: an empty
    table, every element finalised once, and no entry left behind. *)

From stdpp Require Import base list gmap numbers strings.
From Stdlib Require Import ZArith Lia.
From S2P Require Import Prelude Strings Hash HashProps.

Local Open Scope Z_scope.

Section free.
Context {A : Type} `{HL : HashLaws A}.
Implicit Types (tab : hash_table A) (h : gmap nat (hash_entry A)) (es : list (nat * A))
  (bs : list (list (nat * A))) (own : gmap nat owner) (m : gmap (list Z) A).

(** ** Fresh tables *)

Lemma lookup_seq_map {X} (f : nat → X) n l :
  (list_to_map ((λ i, (i, f i)) <$> seq 0 n) : gmap nat X) !! l =
  if decide (l < n)%nat then Some (f l) else None.
Proof.
  assert (Hnd : NoDup (((λ i, (i, f i)) <$> seq 0 n).*1)).
  { rewrite <-list_fmap_compose. unfold compose. simpl. rewrite list_fmap_id. apply NoDup_seq. }
  case_decide as Hl.
  - apply elem_of_list_to_map_1; [done|]. apply list_elem_of_fmap. exists l.
    split; [done|]. apply elem_of_seq. lia.
  - apply not_elem_of_list_to_map_1. rewrite <-list_fmap_compose. unfold compose. simpl.
    rewrite list_fmap_id, elem_of_seq. lia.
Qed.

(** The shape of a table whose buckets are all empty. *)
Lemma rep_empty tab fl own : (0 < capacity tab)%nat →
  (∀ i, (i < capacity tab)%nat → table tab !! i = Some entry_zero) →
  (∀ l, is_Some (table tab !! l) ↔ is_Some (own !! l)) →
  (∀ l i, own !! l = Some (O_bucket i) ↔ l = i ∧ (i < capacity tab)%nat) →
  (∃ o, table tab !! capacity tab = Some o ∧ fchain (table tab) (e_next o) fl) →
  NoDup fl → (∀ l, own !! l = Some O_free ↔ l ∈ fl) →
  (∀ l, own !! l = Some O_overflow ↔ l = capacity tab) →
  rep 0 tab (replicate (capacity tab) []) fl own.
Proof.
  intros Hc Hz Hd Hb Hf Hnd Hfo Hov. split; try done.
  - by rewrite length_replicate.
  - intros l i Hi. by apply Hb in Hi as [_ ?].
  - intros i es Hi _. apply lookup_replicate in Hi as [-> Hi]. split; try constructor.
    + by apply Hz.
    + intros Hl. apply Hb in Hl as [? _]. by left.
    + intros [->|?%elem_of_nil]; [by apply Hb|done].
  - intros. lia.
Qed.

Lemma stores_empty n : stores (replicate n []) (∅ : gmap (list Z) A).
Proof.
  intros k d. rewrite lookup_empty. split; [done|]. intros (i & es & Hi & Hd & _).
  apply lookup_replicate in Hi as [-> _]. by apply elem_of_nil in Hd.
Qed.

Lemma init_spec cap : (0 < cap)%nat → ∃ tab : hash_table A,
  hash_init cap = Ok tab ∧ capacity tab = cap ∧ represents tab ∅.
Proof.
  intros Hc. unfold hash_init. rewrite bool_decide_true by done. eexists. split; [done|].
  split; [done|]. set (tab := HashTable _ _).
  set (own := list_to_map ((λ i, (i, if decide (i < cap)%nat then O_bucket i else O_overflow))
    <$> seq 0 (cap + 1)) : gmap nat owner).
  assert (Ho : ∀ l o, own !! l = Some o ↔ (l < cap + 1)%nat ∧
    (if decide (l < cap)%nat then O_bucket l else O_overflow) = o).
  { intros l o. unfold own. rewrite lookup_seq_map. case_decide.
    - split; [by intros [= <-]|by intros [_ <-]].
    - split; [done|intros [? _]; lia]. }
  exists (replicate (capacity tab) []), [], own. split; [|split; [|apply stores_empty]].
  2: { intros l [_ Hl]%Ho. by case_decide. }
  apply rep_empty; cbn [tab capacity table]; [done| | | | |constructor| |].
  - intros i Hi. rewrite lookup_seq_map. by rewrite decide_True by lia.
  - intros l. rewrite lookup_seq_map. unfold own. rewrite lookup_seq_map.
    case_decide; [|done]. split; intros _; by eexists.
  - intros l i. rewrite Ho. case_decide.
    + split; [intros [_ [= <-]]; done|intros [-> ?]; split; [lia|done]].
    + split; [by intros [_ ?]|intros [-> ?]; lia].
  - exists entry_zero. rewrite lookup_seq_map, decide_True by lia. split; [done|constructor].
  - intros l. rewrite Ho, elem_of_nil. case_decide; split; try done; by intros [_ ?].
  - intros l. rewrite Ho. case_decide.
    + split; [by intros [_ ?]|intros ->; lia].
    + split; [intros [? _]; lia|intros ->; split; [lia|done]].
Qed.

(** ** Giving up a bucket *)

(** The entries of a bucket behind its slot become free, or are released. *)
Lemma rep_retire i tab bs fl own es tab' fl' own' (a : option owner) :
  rep i tab bs fl own → bs !! i = Some es → capacity tab' = capacity tab →
  a = None ∨ a = Some O_free →
  (∀ l, own' !! l = if decide (l ∈ tail es.*1) then a else own !! l) →
  (∀ l, l ∉ tail es.*1 → l ≠ capacity tab → table tab' !! l = table tab !! l) →
  (∀ l, is_Some (table tab' !! l) ↔ is_Some (own' !! l)) →
  (∃ o, table tab' !! capacity tab = Some o ∧ fchain (table tab') (e_next o) fl') →
  NoDup fl' → (∀ l, own' !! l = Some O_free ↔ l ∈ fl') → rep (S i) tab' bs fl' own'.
Proof.
  intros HR Hes Hc Ha Hown' Hsame Hdom Hfree Hnd Hfo.
  pose proof (rep_bucket _ _ _ _ _ HR _ _ Hes ltac:(lia)) as [Hb Ho Hnl _ _].
  assert (Htail : ∀ l, l ∈ tail es.*1 → own !! l = Some (O_bucket i) ∧ l ≠ i).
  { intros l Hl. destruct es as [|[l0 d] es]; [by apply elem_of_nil in Hl|]. cbn in Hl.
    split; [apply Ho; right; by right|]. apply seg_head in Hb as [= <-].
    apply NoDup_cons in Hnl as [Hnl _]. by intros ->. }
  assert (Hkeep : ∀ o l, o ≠ O_bucket i → o ≠ O_free → own' !! l = Some o ↔ own !! l = Some o).
  { intros o l H1 H2. rewrite Hown'. case_decide as Hl; [|done].
    destruct (Htail l Hl) as [-> _]. split; [destruct Ha as [->| ->]; congruence|congruence]. }
  assert (Hi : ∀ l, own' !! l = Some (O_bucket i) ↔ l = i).
  { intros l. rewrite Hown'. case_decide as Hl.
    - split; [destruct Ha as [->| ->]; done|]. by destruct (Htail l Hl).
    - rewrite Ho. split; [|by left]. intros [?|Hin]; [done|].
      destruct es as [|[l0 d] es]; [by apply elem_of_nil in Hin|].
      apply seg_head in Hb as [= <-]. apply elem_of_cons in Hin as [?|?]; done. }
  split; rewrite ?Hc; try done; [apply (rep_cap _ _ _ _ _ HR)|apply (rep_len _ _ _ _ _ HR)| | | |].
  - intros l j Hj. destruct (decide (j = i)) as [->|Hji]; [by eapply rep_bucket_lt|].
    apply Hkeep in Hj; [by apply HR in Hj|congruence|done].
  - intros j es' Hj Hle. apply (bucket_ok_frame tab tab' own);
      [done| | |apply (rep_bucket _ _ _ _ _ HR); [done|lia]].
    + intros l Hl. apply Hsame.
      * intros Hin. destruct (Htail l Hin) as [Hl' _]. rewrite Hl in Hl'. injection Hl'. lia.
      * intros ->. pose proof (proj2 (rep_overflow _ _ _ _ _ HR _) eq_refl). congruence.
    + intros l. apply Hkeep; [intros [=]; lia|done].
  - intros j l Hj Hjc. destruct (decide (j = i)) as [->|Hji]; [apply Hi|].
    rewrite Hkeep by (try done; congruence). apply (rep_stale _ _ _ _ _ HR); lia.
  - intros l. rewrite Hkeep by done. apply (rep_overflow _ _ _ _ _ HR).
Qed.

(** [hash_chain_clear] walks a chain to its end. *)
Lemma chain_clear_spec fuel tab n d es : seg (table tab) (Some n) ((n, d) :: es) →
  (length es < fuel)%nat →
  hash_chain_clear fuel tab n = Ok (from_option id n (last es.*1), reverse (d :: es.*2)).
Proof.
  revert n d es. induction fuel as [|fuel IH]; intros n d es Hs Hf; [lia|].
  apply seg_cons_inv in Hs as (_ & nx & Hn & Hs). cbn [hash_chain_clear].
  rewrite (get_ok _ _ _ Hn), bind_ok. cbn [e_data e_next].
  destruct es as [|[n' d'] es]; [by inversion Hs; subst|]. simpl in Hf.
  pose proof (seg_head _ _ _ _ Hs) as ->. cbn [fst] in *. rewrite (IH n' d' es) by (done || lia).
  rewrite bind_ok, !fmap_cons, last_cons, (reverse_cons _ d). cbn [fst snd].
  by destruct (last es.*1).
Qed.

(** A chain of entries put in front of the free list. *)
Lemma fchain_append h o es l d el fl v :
  seg h o (es ++ [(l, d)]) → NoDup (es ++ [(l, d)]).*1 → h !! l = Some el →
  fchain h v fl → l ∉ fl → fchain (<[l := set_next el v]> h) o (es.*1 ++ l :: fl).
Proof.
  intros Hs Hnd Hl Hv Hlf. revert o Hs Hnd. induction es as [|[l' d'] es IH]; intros o Hs Hnd; cbn in *.
  - apply seg_cons_inv in Hs as (-> & _ & _ & _).
    econstructor; [by rewrite lookup_insert_eq|]. cbn. eapply fchain_frame; [|exact Hv].
    intros y Hy. apply lookup_insert_ne. by intros ->.
  - apply seg_cons_inv in Hs as (-> & nx & Hl' & Hs). apply NoDup_cons in Hnd as [Hne Hnd].
    econstructor; [rewrite lookup_insert_ne; [done|]|by apply IH].
    intros ->. apply Hne. rewrite fmap_app. apply elem_of_app. right. by left.
Qed.

(** What clearing and destroying a bucket hand to [del], in order. *)
Definition dropped es : list A :=
  match es with [] => [] | (_, d) :: es => d :: reverse es.*2 end.

Definition retired own (a : option owner) (ls : list nat) : gmap nat owner :=
  match a with
  | Some o => foldr (λ l own, <[l := o]> own) own ls
  | None => foldr delete own ls
  end.

Lemma lookup_retired own a ls l :
  retired own a ls !! l = if decide (l ∈ ls) then a else own !! l.
Proof.
  destruct a as [o|]; (induction ls as [|l' ls IH]; cbn; [by rewrite decide_False by by intros ?%elem_of_nil|]).
  all: destruct (decide (l = l')) as [->|Hl].
  1, 3: rewrite decide_True by (by left); by rewrite ?lookup_insert_eq, ?lookup_delete_eq.
  all: rewrite ?lookup_insert_ne, ?lookup_delete_ne by done; cbn in IH; rewrite IH.
  all: destruct (decide (l ∈ ls)); [rewrite decide_True by (by right); done|].
  all: rewrite decide_False; [done|]; by intros [?|?]%elem_of_cons.
Qed.

Lemma clear_slot_spec i tab bs fl own es :
  rep i tab bs fl own → bs !! i = Some es →
  ∃ tab' fl', clear_slot tab i = Ok (tab', dropped es) ∧ capacity tab' = capacity tab ∧
    rep (S i) tab' bs fl' (retired own (Some O_free) (tail es.*1)).
Proof.
  intros HR Hes. pose proof (rep_bucket _ _ _ _ _ HR _ _ Hes ltac:(lia)) as Hbk.
  pose proof (bucket_length _ _ _ _ _ _ _ HR Hbk) as Hlen. destruct Hbk as [Hb Ho Hnl _ _].
  destruct (rep_free _ _ _ _ _ HR) as (o & Hco & Hfc).
  assert (Hstay : tail es.*1 = [] → rep (S i) tab bs fl (retired own (Some O_free) (tail es.*1))).
  { intros Ht. rewrite Ht. apply (rep_retire i tab bs fl own es tab fl _ None); try done.
    - by left. - intros l. rewrite Ht. by rewrite decide_False by by intros ?%elem_of_nil.
    - apply (rep_dom _ _ _ _ _ HR). - by exists o. - apply (rep_free_nodup _ _ _ _ _ HR).
    - apply (rep_free_own _ _ _ _ _ HR). }
  unfold clear_slot. destruct es as [|[l d] es].
  { rewrite (get_ok _ _ _ Hb), bind_ok. cbn [entry_zero e_data].
    exists tab, fl. split; [done|]. split; [done|]. by apply Hstay. }
  apply seg_cons_inv in Hb as ([= <-] & nx & Hi & Hs). rewrite (get_ok _ _ _ Hi), bind_ok.
  cbn [e_data e_next]. destruct es as [|[n d2] es]; 
    [inversion Hs; subst; exists tab, fl; split; [done|]; split; [done|]; by apply Hstay|].
  pose proof (seg_head _ _ _ _ Hs) as ->. cbn [fst dropped length] in *.
  rewrite (chain_clear_spec _ tab n d2 es) by (done || lia). rewrite bind_ok, (get_ok _ _ _ Hco), bind_ok.
  set (lst := from_option id n (last es.*1)). cbn [fmap list_fmap fst tail] in Hnl |- *.
  apply NoDup_cons in Hnl as [Hin Hnl].
  assert (Hsp : ∃ es0 dl, (n, d2) :: es = es0 ++ [(lst, dl)]).
  { destruct es as [|[l1 d1] es _] using rev_ind; [by exists [], d2|].
    exists ((n, d2) :: es), d1. unfold lst. rewrite fmap_app. cbn [fmap list_fmap fst].
    by rewrite last_snoc. }
  destruct Hsp as (es0 & dl & Hsp). rewrite Hsp in Hs.
  destruct (seg_lookup _ _ _ lst dl Hs) as [nl Hll]; [apply elem_of_app; right; by left|].
  assert (Hown : ∀ l, l ∈ (n :: es.*1) → own !! l = Some (O_bucket i))
    by (intros; apply Ho; right; by right).
  assert (Hnf : ∀ l, l ∈ (n :: es.*1) → (l ∉ fl) ∧ l ≠ capacity tab).
  { intros l Hl. pose proof (Hown l Hl) as Hlo. split.
    - intros [? _]%(free_owner _ _ _ _ _ l HR). congruence.
    - intros ->. pose proof (proj2 (rep_overflow _ _ _ _ _ HR _) eq_refl). congruence. }
  assert (Hlst : lst ∈ (n :: es.*1)).
  { change (n :: es.*1) with (((n, d2) :: es).*1). rewrite Hsp, fmap_app. apply elem_of_app. right. by left. }
  destruct (Hnf lst Hlst) as [Hlf Hlc]. rewrite (get_ok _ _ _ Hll), bind_ok.
  assert (Hco' : table (set tab lst (set_next (HashEntry (Some dl) (djb2_hash (hash_key dl)) nl) (e_next o)))
    !! capacity tab = Some o) by (cbn; by rewrite lookup_insert_ne).
  change (capacity (set _ _ _)) with (capacity tab). rewrite (get_ok _ _ _ Hco'), bind_ok.
  eexists _, (es0.*1 ++ lst :: fl). split; [done|]. split; [done|].
  assert (Hfl : es0.*1 ++ lst :: fl = (n :: es.*1) ++ fl).
  { change (n :: es.*1) with (((n, d2) :: es).*1). by rewrite Hsp, fmap_app, <-app_assoc. }
  apply (rep_retire i tab bs fl own _ _ _ _ (Some O_free) HR Hes); try done; [by right| | | | | |].
  - intros l. apply lookup_retired.
  - intros l Hl Hlc'. cbn in Hl |- *. rewrite !lookup_insert_ne; [done| |done]. by intros <-.
  - intros l. cbn. rewrite !is_Some_insert by (rewrite ?is_Some_insert; eauto).
    rewrite (rep_dom _ _ _ _ _ HR). pose proof (lookup_retired own (Some O_free) (n :: es.*1) l) as Hr.
    cbn in Hr. rewrite Hr. case_decide as Hl; [|done]. rewrite (Hown l Hl). split; eauto.
  - exists (set_next o (Some n)). cbn. rewrite lookup_insert_eq. split; [done|].
    eapply fchain_frame; [|eapply (fchain_append _ _ es0 lst dl _ fl (e_next o) Hs); try done].
    + intros l. rewrite Hfl, elem_of_app. intros [Hl|Hl]; apply lookup_insert_ne; intros <-.
      * by destruct (Hnf _ Hl). * by destruct (free_owner _ _ _ _ _ _ HR Hl).
    + by rewrite <-Hsp.
  - rewrite Hfl. apply NoDup_app. split; [done|]. split; [|apply (rep_free_nodup _ _ _ _ _ HR)].
    intros l Hl. by apply Hnf.
  - intros l. rewrite Hfl, elem_of_app, lookup_retired. rewrite <-(rep_free_own _ _ _ _ _ HR l).
    case_decide; [split; [by left|done]|tauto].
Qed.

Definition no_held own : Prop := ∀ l, own !! l ≠ Some O_held.

Lemma retired_no_held own a ls : no_held own → a ≠ Some O_held → no_held (retired own a ls).
Proof. intros Hh Ha l. rewrite lookup_retired. by case_decide. Qed.

Definition dropped_all bs : list A := mjoin (dropped <$> bs).

Lemma clear_slots_spec k i tab bs fl own : rep i tab bs fl own → no_held own →
  (i + k = capacity tab)%nat → ∃ tab' fl' own',
    clear_slots tab (seq i k) = Ok (tab', dropped_all (drop i bs)) ∧
    capacity tab' = capacity tab ∧ rep (capacity tab) tab' bs fl' own' ∧ no_held own'.
Proof.
  revert i tab fl own. induction k as [|k IH]; intros i tab fl own HR Hh Hik.
  - replace i with (capacity tab) in * by lia. exists tab, fl, own.
    rewrite drop_ge by (rewrite (rep_len _ _ _ _ _ HR); lia). done.
  - destruct (lookup_lt_is_Some_2 bs i) as [es Hes]; [rewrite (rep_len _ _ _ _ _ HR); lia|].
    destruct (clear_slot_spec _ _ _ _ _ _ HR Hes) as (tab1 & fl1 & Hc & Hcap & HR1).
    destruct (IH (S i) tab1 fl1 _ HR1) as (tab2 & fl2 & own2 & Hc2 & Hcap2 & HR2 & Hh2);
      [by apply retired_no_held|lia|].
    exists tab2, fl2, own2. rewrite Hcap in *. split; [|by rewrite Hcap2]. cbn [seq clear_slots].
    rewrite Hc, bind_ok, Hc2, bind_ok. by rewrite (drop_S bs es i Hes).
Qed.

Lemma zero_slots l tab :
  capacity (foldl (λ tab i, set tab i entry_zero) tab l) = capacity tab ∧
  ∀ x, table (foldl (λ tab i, set tab i entry_zero) tab l) !! x =
       if decide (x ∈ l) then Some entry_zero else table tab !! x.
Proof.
  revert tab. induction l as [|i l IH]; intros tab; cbn.
  - split; [done|]. intros x. by rewrite decide_False by by intros ?%elem_of_nil.
  - destruct (IH (set tab i entry_zero)) as [Hc Ht]. split; [done|]. intros x. rewrite Ht.
    destruct (decide (x ∈ l)); [by rewrite decide_True by (by right)|].
    destruct (decide (x = i)) as [->|Hx].
    + rewrite decide_True by (by left). cbn. by rewrite lookup_insert_eq.
    + rewrite decide_False by (by intros [?|?]%elem_of_cons). cbn. by rewrite lookup_insert_ne.
Qed.

(** ** The elements of the map, each once *)

Lemma dropped_elements es : dropped es ≡ₚ es.*2.
Proof. destruct es as [|[l d] es]; [done|]. cbn. by rewrite reverse_Permutation. Qed.

Definition elements_of bs : list A := mjoin ((λ es : list (nat * A), es.*2) <$> bs).

Lemma elements_nodup tab bs fl own : rep 0 tab bs fl own → NoDup (raw_key <$> elements_of bs).
Proof.
  intros HR.
  assert (Hb : ∀ i es, bs !! i = Some es → NoDup (raw_key <$> es.*2) ∧
    ∀ d, d ∈ es.*2 → slot_of tab (hash_key d) = i).
  { intros i es Hi. destruct (rep_bucket _ _ _ _ _ HR i es Hi ltac:(lia)) as [_ _ _ Hk Hw].
    split; [done|]. rewrite Forall_forall in Hw. intros d Hd. by apply Hw. }
  clear HR. assert (Hg : ∀ off bs, (∀ i es, bs !! i = Some es → NoDup (raw_key <$> es.*2) ∧
    ∀ d, d ∈ es.*2 → slot_of tab (hash_key d) = (off + i)%nat) →
    NoDup (raw_key <$> elements_of bs)); [|by apply (Hg 0%nat)].
  clear bs Hb. intros off bs. revert off. induction bs as [|es bs IH]; intros off Hb; [constructor|].
  unfold elements_of. cbn. rewrite fmap_app. apply NoDup_app. destruct (Hb 0%nat es eq_refl) as [Hk Hs].
  split; [done|]. split.
  - intros k Hk1 Hk2. apply list_elem_of_fmap in Hk1 as (d1 & -> & Hd1).
    apply list_elem_of_fmap in Hk2 as (d2 & Hkk & Hd2).
    apply list_elem_of_join in Hd2 as (ds & Hd2 & Hds).
    apply list_elem_of_fmap in Hds as (es2 & -> & Hes2).
    apply list_elem_of_lookup in Hes2 as [j Hj]. destruct (Hb (S j) es2 Hj) as [_ Hs2].
    pose proof (Hs d1 Hd1). pose proof (Hs2 d2 Hd2).
    pose proof (slot_of_raw tab (hash_key d1) (hash_key d2) Hkk). lia.
  - apply (IH (S off)). intros j es2 Hj. replace (S off + j)%nat with (off + S j)%nat by lia.
    by apply (Hb (S j)).
Qed.

Lemma elements_perm tab bs fl own m : rep 0 tab bs fl own → stores bs m →
  dropped_all bs ≡ₚ (map_to_list m).*2.
Proof.
  intros HR Hst. transitivity (elements_of bs).
  { unfold dropped_all, elements_of. clear. induction bs as [|es bs IH]; [done|]. cbn.
    by rewrite dropped_elements, IH. }
  apply NoDup_Permutation.
  - apply (NoDup_fmap_1 raw_key). by eapply elements_nodup.
  - apply NoDup_fmap_2_strong; [|apply NoDup_map_to_list].
    intros [k1 d1] [k2 d2] H1%elem_of_map_to_list H2%elem_of_map_to_list He. cbn in He. subst d2.
    apply Hst in H1 as (_ & _ & _ & _ & <-). by apply Hst in H2 as (_ & _ & _ & _ & <-).
  - intros d. unfold elements_of. rewrite list_elem_of_join, list_elem_of_fmap. split.
    + intros (ds & Hd & Hds). apply list_elem_of_fmap in Hds as (es & -> & Hes).
      apply list_elem_of_lookup in Hes as [i Hi]. exists (raw_key d, d). split; [done|].
      apply elem_of_map_to_list. apply Hst. eauto.
    + intros ([k d'] & -> & Hk%elem_of_map_to_list). apply Hst in Hk as (i & es & Hi & Hd & _).
      exists es.*2. split; [done|]. apply list_elem_of_fmap. exists es. split; [done|].
      by eapply list_elem_of_lookup_2.
Qed.

Lemma clear_spec tab m : represents tab m → ∃ tab' ds, hash_clear tab = Ok (tab', ds) ∧
  represents tab' ∅ ∧ ds ≡ₚ (map_to_list m).*2.
Proof.
  intros (bs & fl & own & HR & Hh & Hst).
  destruct (clear_slots_spec (capacity tab) 0 _ _ _ _ HR Hh eq_refl)
    as (tab1 & fl1 & own1 & Hc & Hcap & HR1 & Hh1).
  unfold hash_clear. rewrite Hc, bind_ok, drop_0. eexists _, _. split; [done|].
  split; [|by eapply elements_perm].
  destruct (zero_slots (seq 0 (capacity tab1)) tab1) as [Hc2 Ht2].
  set (tab2 := foldl _ _ _) in *. exists (replicate (capacity tab2) []), fl1, own1.
  split; [|split; [done|apply stores_empty]]. rewrite <-Hcap in *.
  assert (Hsl : ∀ l, l ∈ seq 0 (capacity tab1) → own1 !! l = Some (O_bucket l)).
  { intros l Hl%elem_of_seq. apply (rep_stale _ _ _ _ _ HR1); lia. }
  assert (Hns : ∀ l o, own1 !! l = Some o → (∀ j, o ≠ O_bucket j) → table tab2 !! l = table tab1 !! l).
  { intros l o Hl Ho. rewrite Ht2, decide_False; [done|]. intros Hin. rewrite (Hsl l Hin) in Hl.
    injection Hl as <-. by apply (Ho l). }
  assert (Hov : own1 !! capacity tab1 = Some O_overflow) by by apply (rep_overflow _ _ _ _ _ HR1).
  apply rep_empty; rewrite ?Hc2.
  - apply (rep_cap _ _ _ _ _ HR1).
  - intros i Hi. rewrite Ht2, decide_True; [done|]. apply elem_of_seq. lia.
  - intros l. rewrite <-(rep_dom _ _ _ _ _ HR1), Ht2. case_decide as Hl; [|done].
    split; [|by eauto]. intros _. apply (rep_dom _ _ _ _ _ HR1). eauto.
  - intros l i. split.
    + intros Hl. pose proof (rep_lt _ _ _ _ _ HR1 _ _ Hl). split; [|done].
      by apply (rep_stale _ _ _ _ _ HR1 i).
    + intros [-> Hi]. by apply (rep_stale _ _ _ _ _ HR1).
  - destruct (rep_free _ _ _ _ _ HR1) as (o & Ho & Hf). exists o.
    rewrite (Hns _ _ Hov) by done. split; [done|]. eapply fchain_frame; [|exact Hf].
    intros l Hl. apply (rep_free_own _ _ _ _ _ HR1) in Hl. by apply (Hns _ _ Hl).
  - apply (rep_free_nodup _ _ _ _ _ HR1).
  - apply (rep_free_own _ _ _ _ _ HR1).
  - apply (rep_overflow _ _ _ _ _ HR1).
Qed.

(** ** Destruction *)

Definition free_all tab (ls : list nat) : hash_table A :=
  HashTable (capacity tab) (foldr delete (table tab) ls).
Definition data_of h (ls : list nat) : list A := omap (λ l, h !! l ≫= e_data) ls.

Lemma lookup_free_all tab ls l :
  table (free_all tab ls) !! l = if decide (l ∈ ls) then None else table tab !! l.
Proof.
  induction ls as [|l' ls IH]; cbn; [by rewrite decide_False by by intros ?%elem_of_nil|].
  destruct (decide (l = l')) as [->|Hl].
  - rewrite decide_True by (by left). by rewrite lookup_delete_eq.
  - rewrite lookup_delete_ne by done. cbn in IH. rewrite IH.
    destruct (decide (l ∈ ls)); [by rewrite decide_True by (by right)|].
    rewrite decide_False; [done|]. by intros [?|?]%elem_of_cons.
Qed.

Lemma seg_fchain h o es : seg h o es → fchain h o es.*1 ∧ data_of h es.*1 = es.*2.
Proof.
  induction 1 as [|l d nx es Hl _ [IH1 IH2]]; [split; [constructor|done]|]. cbn. split.
  - by econstructor.
  - unfold data_of. cbn. rewrite Hl. cbn. f_equal. done.
Qed.

Lemma chain_free_spec fuel tab l ls : fchain (table tab) (Some l) (l :: ls) → NoDup (l :: ls) →
  (length ls < fuel)%nat →
  hash_chain_free fuel tab l = Ok (free_all tab ls, reverse (data_of (table tab) (l :: ls))).
Proof.
  revert l ls. induction fuel as [|fuel IH]; intros l ls Hc Hnd Hf; [lia|].
  inversion Hc as [|? e ? Hl Hc']; subst. cbn [hash_chain_free].
  rewrite (get_ok _ _ _ Hl), bind_ok. apply NoDup_cons in Hnd as [Hll Hnd].
  inversion Hc' as [Hn|n en ls' Hn Hc'' Hnx]; subst.
  - rewrite bind_ok. unfold data_of, free_all. cbn. rewrite Hl. cbn.
    destruct tab. by destruct (e_data e).
  - pose proof Hnd as [Hnl' Hnd']%NoDup_cons. simpl in Hf.
    rewrite (IH n ls') by (rewrite <-?Hnx in *; done || lia). rewrite bind_ok.
    assert (Hg : table (free_all tab ls') !! n = Some en)
      by (rewrite lookup_free_all, decide_False by done; done).
    rewrite (get_ok _ _ _ Hg), !bind_ok. f_equal. f_equal.
    unfold data_of. cbn [omap list_omap]. rewrite Hl. cbn [mbind option_bind].
    destruct (e_data e); cbn [from_option]; [by rewrite reverse_cons|by rewrite app_nil_r].
Qed.

Lemma destroy_slot_spec i tab bs fl own es : rep i tab bs fl own → bs !! i = Some es →
  ∃ ds, (e ← get tab i;
    match e_data e with
    | Some _ => hash_chain_free (S (size (table tab))) tab i
    | None => _ ← c_assert (bool_decide (e_next e = None)); Ok (tab, [])
    end) = Ok (free_all tab (tail es.*1), ds) ∧ ds ≡ₚ dropped es ∧
    rep (S i) (free_all tab (tail es.*1)) bs fl (retired own None (tail es.*1)).
Proof.
  intros HR Hes. pose proof (rep_bucket _ _ _ _ _ HR _ _ Hes ltac:(lia)) as Hbk.
  pose proof (bucket_length _ _ _ _ _ _ _ HR Hbk) as Hlen. destruct Hbk as [Hb Ho Hnl _ _].
  assert (Hnt : ∀ l o, l ∈ tail es.*1 → own !! l = Some o → o = O_bucket i).
  { intros l o Hl Hlo. assert (Hin : l = i ∨ l ∈ es.*1).
    { right. destruct es as [|[l0 d] es]; [done|by right]. }
    apply Ho in Hin. congruence. }
  assert (Hkeep : ∀ l o, own !! l = Some o → o ≠ O_bucket i →
    table (free_all tab (tail es.*1)) !! l = table tab !! l).
  { intros l o Hl Hne. rewrite lookup_free_all, decide_False; [done|].
    intros Hin. by apply Hne, (Hnt l). }
  assert (Hrep : rep (S i) (free_all tab (tail es.*1)) bs fl (retired own None (tail es.*1))).
  { apply (rep_retire i tab bs fl own es _ fl _ None HR Hes); try done.
    - by left.
    - intros l. apply lookup_retired.
    - intros l Hl _. by rewrite lookup_free_all, decide_False.
    - intros l. rewrite lookup_free_all, lookup_retired. case_decide; [done|].
      apply (rep_dom _ _ _ _ _ HR).
    - destruct (rep_free _ _ _ _ _ HR) as (o & Hco & Hf). exists o.
      rewrite (Hkeep _ O_overflow) by (done || by apply (rep_overflow _ _ _ _ _ HR)).
      split; [done|]. eapply fchain_frame; [|exact Hf]. intros l Hl.
      apply (rep_free_own _ _ _ _ _ HR) in Hl. by apply (Hkeep _ O_free).
    - apply (rep_free_nodup _ _ _ _ _ HR).
    - intros l. rewrite lookup_retired, <-(rep_free_own _ _ _ _ _ HR). case_decide as Hl; [|done].
      split; [done|]. intros Hlo. by apply (Hnt l) in Hlo. }
  destruct es as [|[l d] es].
  - exists []. split; [|done]. rewrite (get_ok _ _ _ Hb), bind_ok.
    cbn [entry_zero e_data e_next]. rewrite bool_decide_true by done. by destruct tab.
  - exists (reverse (d :: es.*2)). split; [|split; [|done]].
    + pose proof (seg_fchain _ _ _ Hb) as [Hfc Hdat]. apply seg_cons_inv in Hb as ([= <-] & nx & Hi & Hs).
      rewrite (get_ok _ _ _ Hi), bind_ok. cbn [e_data]. cbn [fmap list_fmap fst length tail] in *.
      rewrite (chain_free_spec _ tab i es.*1) by (try done; rewrite length_fmap; lia).
      by rewrite Hdat.
    + change (reverse (d :: es.*2) ≡ₚ d :: reverse es.*2). by rewrite !reverse_Permutation.
Qed.

Lemma destroy_slots_spec k i tab bs fl own : rep i tab bs fl own → no_held own →
  (i + k = capacity tab)%nat → ∃ tab' ds own',
    destroy_slots tab (seq i k) = Ok (tab', ds) ∧ ds ≡ₚ dropped_all (drop i bs) ∧
    capacity tab' = capacity tab ∧ rep (capacity tab) tab' bs fl own' ∧ no_held own'.
Proof.
  revert i tab own. induction k as [|k IH]; intros i tab own HR Hh Hik.
  - replace i with (capacity tab) in * by lia. exists tab, [], own.
    rewrite drop_ge by (rewrite (rep_len _ _ _ _ _ HR); lia). done.
  - destruct (lookup_lt_is_Some_2 bs i) as [es Hes]; [rewrite (rep_len _ _ _ _ _ HR); lia|].
    destruct (destroy_slot_spec _ _ _ _ _ _ HR Hes) as (ds & Hd & Hp & HR1).
    destruct (IH (S i) _ _ HR1) as (tab2 & ds2 & own2 & Hd2 & Hp2 & Hcap2 & HR2 & Hh2);
      [by apply retired_no_held|cbn; lia|].
    exists tab2, (ds ++ ds2), own2. split.
    + cbn [seq destroy_slots]. destruct (get tab i) as [e| |]; cbn [mbind outcome_bind] in Hd |- *;
        [|discriminate..]. by rewrite Hd, bind_ok, Hd2.
    + split; [|done]. rewrite (drop_S bs es i Hes). unfold dropped_all in *. cbn. by rewrite Hp, Hp2.
Qed.

Lemma lookup_delete_slots l (h : gmap nat (hash_entry A)) x :
  foldl (λ h i, delete i h) h l !! x = if decide (x ∈ l) then None else h !! x.
Proof.
  revert h. induction l as [|i l IH]; intros h; cbn; [by rewrite decide_False by by intros ?%elem_of_nil|].
  rewrite IH. destruct (decide (x ∈ l)); [by rewrite decide_True by (by right)|].
  destruct (decide (x = i)) as [->|Hx].
  - rewrite decide_True by (by left). apply lookup_delete_eq.
  - rewrite lookup_delete_ne, decide_False; [done| |done]. by intros [?|?]%elem_of_cons.
Qed.

(** Nothing is left of the heap, and every element is finalised once. *)
Lemma destroy_spec tab m : represents tab m → ∃ ds, hash_destroy tab = Ok (∅, ds) ∧
  ds ≡ₚ (map_to_list m).*2.
Proof.
  intros (bs & fl & own & HR & Hh & Hst).
  destruct (destroy_slots_spec (capacity tab) 0 _ _ _ _ HR Hh eq_refl)
    as (tab1 & ds & own1 & Hd & Hp & Hcap & HR1 & Hh1).
  unfold hash_destroy. rewrite Hd, bind_ok. exists ds. split.
  2: { rewrite Hp, drop_0. by eapply elements_perm. }
  destruct (rep_free _ _ _ _ _ HR1) as (o & Ho & Hf).
  assert (Hcf : ∀ l, l ∈ fl → l ≠ capacity tab1) by (intros l Hl; by eapply free_owner).
  pose proof (rep_free_nodup _ _ _ _ _ HR1) as Hnd.
  assert (Hlen : (length fl ≤ size (table tab1))%nat).
  { apply chain_length; [done|]. intros l Hl. apply (rep_dom _ _ _ _ _ HR1).
    apply (rep_free_own _ _ _ _ _ HR1) in Hl. eauto. }
  rewrite (chain_free_spec _ tab1 (capacity tab1) fl); [|by econstructor| |lia].
  2: { constructor; [|done]. intros Hl. by apply (Hcf _ Hl). }
  rewrite bind_ok. f_equal. f_equal. apply map_eq. intros l.
  rewrite lookup_delete_slots, lookup_empty. case_decide as Hl; [done|].
  rewrite lookup_free_all. case_decide as Hlf; [done|].
  apply eq_None_not_Some. rewrite (rep_dom _ _ _ _ _ HR1). intros [[i| | |] Hlo].
  - pose proof (rep_lt _ _ _ _ _ HR1 _ _ Hlo) as Hi. apply Hl, elem_of_seq. cbn.
    apply (rep_stale _ _ _ _ _ HR1) in Hlo; lia.
  - by apply Hlf, (rep_free_own _ _ _ _ _ HR1).
  - apply (rep_overflow _ _ _ _ _ HR1) in Hlo as ->. apply Hl, elem_of_seq. cbn. lia.
  - by apply Hh1 in Hlo.
Qed.

End free.
