(* ===== verification/Strtab.v ===== *)
(** * The string table (src/preprocessor/strtab.c)

    Long strings are interned in a [hash_table] whose elements are the
    [String] objects themselves; this file is the client of the interface
    [HashOps]/[HashLaws], and states the correctness of the hash table as a
    refinement of a finite map. *)

From stdpp Require Import base list gmap numbers strings.
From Stdlib Require Import ZArith Lia.
From S2P Require Import Prelude Strings Hash HashProps HashFree.

Local Open Scope Z_scope.

Definition STRTAB_SIZE : nat := 1024.

(** [str_hash_add]: a copy of the characters, terminated.  Elements are long
    strings. *)
Definition str_hash_add (s : kstring) : kstring :=
  KString (s_len s) (take (Z.to_nat (s_len s)) (s_chars s) ++ [0]).
Definition str_hash_key (s : kstring) : kstring := s.

#[export] Instance strtab_ops : HashOps kstring := {
  hash_key := str_hash_key;
  hash_add := str_hash_add
}.

(** [strtab] with [initialized], and [catbuf] with its length [catlen]. *)
Record strtab : Type := Strtab {
  st_table : option (hash_table kstring);
  st_catbuf : list Z
}.
Definition strtab_start : strtab := Strtab None [].

(** [strtab_reset]: what is left of the heap of the table, and the new
    state. *)
Definition strtab_reset (st : strtab) : outcome (strtab * gmap nat (hash_entry kstring)) :=
  h ← match st_table st with
      | Some tab => '(h, _) ← hash_destroy tab; Ok h
      | None => Ok ∅
      end;
  Ok (strtab_start, h).

(** [str_register]; [str] are the bytes from the pointer on.  A length of 64
    kB and a few bytes wraps to that of a short string, whose characters
    would be read from the bytes of the pointer. *)
Definition str_register (st : strtab) (str : list Z) (len : Z) : outcome (strtab * kstring) :=
  if len <? SHORT_STRING_LEN then
    Ok (st, KString len (memcpy_at (s_chars str_zero) (take (Z.to_nat len) str)))
  else
    tab ← match st_table st with Some tab => Ok tab | None => hash_init STRTAB_SIZE end;
    let l := wrap_u 16 len in
    if l <? SHORT_STRING_LEN then Undef "the bytes of a pointer read as characters"
    else
      '(tab, ref) ← hash_insert tab (KString l str);
      Ok (Strtab (Some tab) (st_catbuf st), ref).

Definition str_cat (st : strtab) (a b : kstring) : outcome (strtab * kstring) :=
  let len := s_len a + s_len b in
  let buf := memcpy_at (st_catbuf st) (str_raw a ++ str_raw b) in
  str_register (Strtab (st_table st) buf) buf len.

(** ** The interface of the hash table *)

Definition long_string (s : kstring) : Prop := wf_string s ∧ SHORT_STRING_LEN ≤ s_len s.

Lemma long_raw s : long_string s → take (Z.to_nat (s_len s)) (s_chars s ++ [0]) = str_raw s.
Proof.
  intros [Hw Hl]. pose proof (length_str_raw s Hw) as Hr. unfold str_raw in *.
  rewrite length_take in Hr. rewrite take_app_le by lia. done.
Qed.

Lemma add_raw s : long_string s → str_raw (str_hash_add s) = str_raw s.
Proof.
  intros [Hw Hl]. pose proof (length_str_raw s Hw) as Hr. unfold str_raw in *. cbn.
  rewrite take_app_le by lia. apply take_ge. lia.
Qed.

Lemma add_long s : long_string s → long_string (str_hash_add s).
Proof.
  intros [Hw Hl]. pose proof (length_str_raw s Hw) as Hr. destruct Hw as (Hlen & Hb & Hc).
  split; [|done]. split; [done|]. cbn. split.
  - apply Forall_app_2; [by apply Forall_take|repeat constructor; done].
  - destruct (Z.ltb_spec (s_len s) SHORT_STRING_LEN); [lia|].
    fold (str_raw s). rewrite length_app, Hr. simpl. lia.
Qed.

#[export, program] Instance strtab_laws : HashLaws kstring := { elem_ok := long_string }.
Next Obligation. by intros x [? _]. Qed.
Next Obligation. intros x Hx. by apply add_long. Qed.
Next Obligation. intros x Hx. by apply add_raw. Qed.

(** ** The hash table as a finite map *)

Section refinement.
Context {A : Type} `{HL : HashLaws A}.

Inductive hash_cmd : Type :=
  | C_insert (v : A)
  | C_lookup (key : kstring)
  | C_remove (key : kstring)
  | C_clear.

Definition option_elems (o : option A) : list A := from_option (λ d, [d]) [] o.

(** A command on the table: the elements it returns or hands to [del]. *)
Definition hash_do (tab : hash_table A) (c : hash_cmd) : outcome (hash_table A * list A) :=
  match c with
  | C_insert v => '(tab, d) ← hash_insert tab v; Ok (tab, [d])
  | C_lookup key => o ← hash_lookup tab key; Ok (tab, option_elems o)
  | C_remove key => '(tab, o) ← hash_remove tab key; Ok (tab, option_elems o)
  | C_clear => hash_clear tab
  end.
(** The command on the map it stands for. *)
Definition map_do (m : gmap (list Z) A) (c : hash_cmd) : gmap (list Z) A * list A :=
  match c with
  | C_insert v => (snd (insert_result m v), [fst (insert_result m v)])
  | C_lookup key => (m, option_elems (m !! str_raw key))
  | C_remove key => (delete (str_raw key) m, option_elems (m !! str_raw key))
  | C_clear => (∅, (map_to_list m).*2)
  end.

Fixpoint hash_run (tab : hash_table A) (cs : list hash_cmd) : outcome (hash_table A * list (list A)) :=
  match cs with
  | [] => Ok (tab, [])
  | c :: cs => '(tab, r) ← hash_do tab c; '(tab, rs) ← hash_run tab cs; Ok (tab, r :: rs)
  end.
Fixpoint map_run (m : gmap (list Z) A) (cs : list hash_cmd) : gmap (list Z) A * list (list A) :=
  match cs with
  | [] => (m, [])
  | c :: cs => let '(m, r) := map_do m c in let '(m, rs) := map_run m cs in (m, r :: rs)
  end.

Definition cmd_ok (c : hash_cmd) : Prop :=
  match c with
  | C_insert v => elem_ok v
  | C_lookup key | C_remove key => wf_string key
  | C_clear => True
  end.

Lemma hash_do_spec tab m c : represents tab m → cmd_ok c →
  ∃ tab' r, hash_do tab c = Ok (tab', r) ∧ represents tab' (fst (map_do m c)) ∧
    r ≡ₚ snd (map_do m c).
Proof.
  intros Hr Hc. destruct c as [v|key|key|]; cbn [hash_do map_do cmd_ok fst snd] in *.
  - destruct (insert_spec tab m v Hr Hc) as (tab' & -> & Hr'). eexists _, _.
    split; [done|]. by split.
  - rewrite (lookup_spec tab m key Hr Hc). eexists _, _. split; [done|]. by split.
  - destruct (remove_spec tab m key Hr Hc) as (tab' & -> & Hr'). eexists _, _.
    split; [done|]. by split.
  - destruct (clear_spec tab m Hr) as (tab' & ds & -> & ? & ?). eauto.
Qed.

Lemma hash_run_spec tab m cs : represents tab m → Forall cmd_ok cs →
  ∃ tab' rs, hash_run tab cs = Ok (tab', rs) ∧ represents tab' (fst (map_run m cs)) ∧
    Forall2 Permutation rs (snd (map_run m cs)).
Proof.
  intros Hr Hcs. revert tab m Hr. induction Hcs as [|c cs Hc _ IH]; intros tab m Hr; cbn [hash_run map_run fst snd].
  - exists tab, []. split; [done|]. split; [done|constructor].
  - destruct (hash_do_spec tab m c Hr Hc) as (tab1 & r & -> & Hr1 & Hp).
    destruct (map_do m c) as [m1 r1]. destruct (IH tab1 m1 Hr1) as (tab2 & rs & Hrun & Hr2 & Hps).
    cbn [mbind outcome_bind]. rewrite Hrun. destruct (map_run m1 cs) as [m2 rs2].
    exists tab2, (r :: rs). split; [done|]. split; [done|]. by constructor.
Qed.

(** C2: from creation to destruction the hash table answers every sequence of
    insertions, lookups, removals and clears as a finite map from keys to
    elements does, ends every walk, reads no dead entry, finalises every
    element left exactly once and leaves no entry allocated. *)
Theorem hash_refines_map cap cs : (0 < cap)%nat → Forall cmd_ok cs →
  ∃ tab0 tab rs ds, hash_init cap = Ok tab0 ∧ hash_run tab0 cs = Ok (tab, rs) ∧
    Forall2 Permutation rs (snd (map_run ∅ cs)) ∧
    hash_destroy tab = Ok (∅, ds) ∧ ds ≡ₚ (map_to_list (fst (map_run ∅ cs))).*2.
Proof.
  intros Hcap Hcs. destruct (init_spec cap Hcap) as (tab0 & Hi & _ & Hr0).
  destruct (hash_run_spec tab0 ∅ cs Hr0 Hcs) as (tab & rs & Hrun & Hr & Hp).
  destruct (destroy_spec tab _ Hr) as (ds & Hd & Hpd). exists tab0, tab, rs, ds. done.
Qed.

End refinement.
Arguments hash_cmd A : clear implicits.

Definition long_demo (c : Z) : kstring := KString 15 (replicate 15 c ++ [0]).
Lemma long_demo_ok c : is_byte c → long_string (long_demo c).
Proof.
  intros Hc. split; [|done]. split; [done|].
  split; [|done]. apply Forall_app_2; [by apply Forall_replicate|repeat constructor; done].
Qed.

Lemma hash_refines_map_witness :
  let cs := [C_insert (long_demo 97); C_insert (long_demo 98); C_insert (long_demo 97);
             C_remove (long_demo 98); C_lookup (long_demo 98); C_lookup (long_demo 97)] in
  snd (map_run ∅ cs) = [[long_demo 97]; [long_demo 98]; [long_demo 97]; [long_demo 98]; [];
                        [long_demo 97]] ∧
  ∃ tab0 tab rs ds, hash_init 1 = Ok tab0 ∧ hash_run tab0 cs = Ok (tab, rs) ∧
    Forall2 Permutation rs (snd (map_run ∅ cs)) ∧
    hash_destroy tab = Ok (∅, ds) ∧ ds ≡ₚ (map_to_list (fst (map_run ∅ cs))).*2.
Proof.
  split; [vm_compute; reflexivity|]. apply hash_refines_map; [lia|].
  assert (Ha : long_string (long_demo 97)) by (apply long_demo_ok; done).
  assert (Hb : long_string (long_demo 98)) by (apply long_demo_ok; done).
  repeat (apply Forall_cons; split);
    [exact Ha|exact Hb|exact Ha|apply Hb|apply Hb|apply Ha|constructor].
Defined.

(** ** Interning *)

(** The [String] that a sequence of characters is registered as. *)
Definition intern (l : list Z) : kstring :=
  if Z.of_nat (length l) <? SHORT_STRING_LEN
  then KString (Z.of_nat (length l)) (memcpy_at (s_chars str_zero) l)
  else KString (Z.of_nat (length l)) (l ++ [0]).

(** Every stored string is the interned one. *)
Definition strtab_ok (st : strtab) : Prop :=
  Forall is_byte (st_catbuf st) ∧
  match st_table st with
  | None => True
  | Some tab => ∃ m, represents tab m ∧ ∀ k d, m !! k = Some d → d = intern k
  end.

Lemma intern_raw l : str_raw (intern l) = l.
Proof.
  unfold intern. destruct (_ <? _); [apply raw_short|]. unfold str_raw. cbn.
  by rewrite Nat2Z.id, take_app_length.
Qed.

Lemma intern_wf l : Z.of_nat (length l) < 2 ^ 16 → Forall is_byte l → wf_string (intern l).
Proof.
  intros Hl Hb. unfold intern. destruct (Z.ltb_spec (Z.of_nat (length l)) SHORT_STRING_LEN) as [H|H].
  - apply wf_short; [|done]. unfold SHORT_STRING_LEN in H. lia.
  - split; [cbn; lia|]. cbn [s_len s_chars]. split; [apply Forall_app_2; [done|repeat constructor; done]|].
    destruct (Z.ltb_spec (Z.of_nat (length l)) SHORT_STRING_LEN); [lia|]. rewrite length_app. simpl. lia.
Qed.

Lemma table_of st : strtab_ok st → ∃ tab m,
  match st_table st with Some tab => Ok tab | None => hash_init STRTAB_SIZE end = Ok tab ∧
  represents tab m ∧ ∀ k d, m !! k = Some d → d = intern k.
Proof.
  unfold strtab_ok. destruct (st_table st) as [tab|].
  - intros (_ & m & Hr & Hm). by exists tab, m.
  - intros _. destruct (init_spec STRTAB_SIZE) as (tab & Hi & _ & Hr); [unfold STRTAB_SIZE; lia|].
    exists tab, ∅. split; [done|]. split; [done|]. intros k d. by rewrite lookup_empty.
Qed.

Lemma register_long st str l : strtab_ok st → Forall is_byte str →
  SHORT_STRING_LEN ≤ l < 2 ^ 16 → l ≤ Z.of_nat (length str) →
  ∃ tab', (tab ← match st_table st with Some tab => Ok tab | None => hash_init STRTAB_SIZE end;
           hash_insert tab (KString l str)) = Ok (tab', intern (take (Z.to_nat l) str)) ∧
    strtab_ok (Strtab (Some tab') (st_catbuf st)).
Proof.
  intros Hst Hb Hl Hlen. destruct (table_of st Hst) as (tab & m & -> & Hr & Hm).
  set (k := take (Z.to_nat l) str).
  assert (H14 : SHORT_STRING_LEN = 14) by done.
  assert (Hk : Z.of_nat (length k) = l) by (unfold k; rewrite length_take; lia).
  assert (Hls : long_string (KString l str)).
  { split; [|cbn; lia]. split; [unfold SHORT_STRING_LEN in *; cbn; lia|]. split; [done|]. cbn.
    destruct (Z.ltb_spec l SHORT_STRING_LEN); [lia|done]. }
  assert (Hkey : raw_key (KString l str) = k) by done.
  assert (Hadd : str_hash_add (KString l str) = intern k).
  { unfold intern, str_hash_add. cbn [s_len s_chars]. fold k. rewrite Hk.
    destruct (Z.ltb_spec l SHORT_STRING_LEN); [lia|done]. }
  destruct (insert_spec (HL:=strtab_laws) tab m (KString l str) Hr Hls) as (tab' & Hi & Hr').
  unfold insert_result in Hi, Hr'. rewrite Hkey in Hi, Hr'.
  exists tab'. rewrite bind_ok, Hi. destruct (m !! k) as [d|] eqn:Hmk; cbn [fst snd] in *.
  - rewrite (Hm _ _ Hmk). split; [done|]. split; [apply Hst|]. exists m. done.
  - change (hash_add (KString l str)) with (str_hash_add (KString l str)) in *. rewrite Hadd in *.
    split; [done|]. split; [apply Hst|]. exists (<[k := intern k]> m). split; [done|].
    intros k' d. rewrite lookup_insert_Some. intros [[<- <-]|[_ ?]]; [done|by apply Hm].
Qed.

Lemma register_ok st str len : strtab_ok st → Forall is_byte str →
  0 ≤ len < 2 ^ 16 → len ≤ Z.of_nat (length str) →
  ∃ st', str_register st str len = Ok (st', intern (take (Z.to_nat len) str)) ∧ strtab_ok st'.
Proof.
  intros Hst Hb Hl Hlen. unfold str_register.
  assert (Hk : Z.of_nat (length (take (Z.to_nat len) str)) = len) by (rewrite length_take; lia).
  destruct (Z.ltb_spec len SHORT_STRING_LEN) as [H|H].
  - exists st. split; [|done]. unfold intern. rewrite Hk. by rewrite (proj2 (Z.ltb_lt _ _) H).
  - destruct (register_long st str len Hst Hb) as (tab' & Hr & Hst'); [lia..|].
    rewrite wrap_u_small by lia. destruct (Z.ltb_spec len SHORT_STRING_LEN); [lia|].
    eexists. split; [|exact Hst'].
    destruct (match st_table st with Some tab => _ | None => _ end) as [tab| |]; try discriminate.
    cbn [mbind outcome_bind] in Hr |- *. by rewrite Hr.
Qed.

(** Registering a text shorter than 64 kB gives the one [String] of its
    characters, whatever was registered before, and keeps the table so. *)
Theorem str_register_interns st str len : strtab_ok st → Forall is_byte str →
  0 ≤ len < 2 ^ 16 → len ≤ Z.of_nat (length str) →
  ∃ st', str_register st str len = Ok (st', intern (take (Z.to_nat len) str)) ∧ strtab_ok st' ∧
    str_raw (intern (take (Z.to_nat len) str)) = take (Z.to_nat len) str.
Proof.
  intros Hst Hb Hl Hlen. destruct (register_ok st str len Hst Hb Hl Hlen) as (st' & Hr & Hst').
  exists st'. split; [done|]. split; [done|apply intern_raw].
Qed.
Lemma str_register_interns_witness :
  let s := cstr "__builtin_va_arg(" in
  ∃ st', str_register strtab_start s 16 = Ok (st', intern (take 16 s)) ∧ strtab_ok st' ∧
    str_raw (intern (take (Z.to_nat 16) s)) = take (Z.to_nat 16) s.
Proof.
  apply (str_register_interns strtab_start (cstr "__builtin_va_arg(") 16);
    [split; [constructor|exact I]|vm_compute; repeat constructor; discriminate|lia|vm_compute; discriminate].
Defined.

(** the length of a registered text is kept modulo 65536: a longer text
    is registered as a proper prefix of itself. *)
Theorem str_register_truncates st str len : strtab_ok st → Forall is_byte str →
  2 ^ 16 + SHORT_STRING_LEN ≤ len < 2 ^ 17 → len = Z.of_nat (length str) →
  ∃ st' s, str_register st str len = Ok (st', s) ∧ str_raw s = take (Z.to_nat (len - 2 ^ 16)) str ∧
    str_raw s ≠ str.
Proof.
  intros Hst Hb Hl Hlen. unfold str_register, SHORT_STRING_LEN in *.
  destruct (Z.ltb_spec len 14); [lia|].
  assert (Hw : wrap_u 16 len = len - 2 ^ 16).
  { unfold wrap_u. symmetry. apply (Z.mod_unique _ _ 1); lia. }
  rewrite Hw. destruct (Z.ltb_spec (len - 2 ^ 16) 14); [lia|].
  destruct (register_long st str (len - 2 ^ 16) Hst Hb) as (tab' & Hr & Hst');
    [unfold SHORT_STRING_LEN; lia|lia|].
  eexists _, _. split; [|split; [apply intern_raw|]].
  - destruct (match st_table st with Some tab => _ | None => _ end) as [tab| |]; try discriminate.
    cbn [mbind outcome_bind] in Hr |- *. by rewrite Hr.
  - rewrite intern_raw. intros He. apply (f_equal length) in He. rewrite length_take in He. lia.
Qed.
Lemma str_register_truncates_witness :
  let s := replicate (Z.to_nat 65550) 97 in
  ∃ st' t, str_register strtab_start s 65550 = Ok (st', t) ∧
    str_raw t = take (Z.to_nat (65550 - 2 ^ 16)) s ∧ str_raw t ≠ s.
Proof.
  apply (str_register_truncates strtab_start (replicate (Z.to_nat 65550) 97) 65550);
    [split; [constructor|exact I]|apply Forall_replicate; done|unfold SHORT_STRING_LEN; lia|rewrite length_replicate; lia].
Defined.

(** [str_cat] registers the concatenation. *)
Theorem str_cat_correct st a b : strtab_ok st → wf_string a → wf_string b →
  s_len a + s_len b < 2 ^ 16 →
  ∃ st', str_cat st a b = Ok (st', intern (str_raw a ++ str_raw b)) ∧ strtab_ok st'.
Proof.
  intros Hst Ha Hb Hl. pose proof (length_str_raw a Ha) as La. pose proof (length_str_raw b Hb) as Lb.
  destruct Ha as (Ra & Ba & _), Hb as (Rb & Bb & _).
  set (k := str_raw a ++ str_raw b).
  assert (Hk : Z.of_nat (length k) = s_len a + s_len b) by (unfold k; rewrite length_app; lia).
  assert (Bk : Forall is_byte k) by (apply Forall_app_2; by apply Forall_take).
  unfold str_cat. fold k.
  assert (Bc : Forall is_byte (memcpy_at (st_catbuf st) k))
    by (apply Forall_app_2; [done|apply Forall_drop, Hst]).
  destruct (register_ok (Strtab (st_table st) (memcpy_at (st_catbuf st) k))
    (memcpy_at (st_catbuf st) k) (s_len a + s_len b)) as (st' & Hr & Hst');
    [by split; [|apply Hst]|done|lia|unfold memcpy_at; rewrite length_app; lia|].
  exists st'. split; [|done]. rewrite Hr. unfold memcpy_at.
  by rewrite <-Hk, Nat2Z.id, take_app_length.
Qed.
Lemma str_cat_correct_witness :
  let a := intern (cstr "L__unnamed_") in let b := intern (cstr "constant_12") in
  ∃ st', str_cat strtab_start a b = Ok (st', intern (str_raw a ++ str_raw b)) ∧ strtab_ok st'.
Proof.
  apply (str_cat_correct strtab_start (intern (cstr "L__unnamed_")) (intern (cstr "constant_12")));
    [split; [constructor|exact I]| | |vm_compute; reflexivity];
    (apply intern_wf; [vm_compute; reflexivity|vm_compute; repeat constructor; discriminate]).
Defined.
