(* ===== verification/Symbol.v ===== *)
(** * Symbols (include/lacc/symbol.h)

    The kinds of symbols and their record.  A pointer to a symbol is the
    number of its entry in a store of symbols. *)

From stdpp Require Import base list gmap numbers.
From Stdlib Require Import ZArith.
From S2P Require Import Prelude CType Strings.

Local Open Scope Z_scope.

Inductive symtype : Set :=
  | SYM_DEFINITION | SYM_TENTATIVE | SYM_DECLARATION | SYM_TYPEDEF
  | SYM_STRING_VALUE | SYM_CONSTANT | SYM_LABEL | SYM_TABLE | SYM_TABLE_ENTRY
  | SYM_TAG.
#[export] Instance symtype_eq_dec : EqDecision symtype.
Proof. solve_decision. Defined.

Inductive linkage : Set := LINK_NONE | LINK_INTERN | LINK_EXTERN.
#[export] Instance linkage_eq_dec : EqDecision linkage.
Proof. solve_decision. Defined.

(** Pointers to symbols. *)
Definition symref : Set := N.

(** The active member of the union [value]; a block is a number, as in Ir. *)
Inductive symvalue : Set :=
  | NoValue
  | ConstantValue (constant : Z)
  | StringValue (string : kstring)
  | VlaAddress (vla_address : symref)
  | LabelValue (label : N).

(** [struct symbol]. *)
Record symbol : Set := Symbol {
  sym_name : kstring;
  sym_type : ctype;
  sym_symtype : symtype;
  sym_linkage : linkage;
  sym_referenced : Z;
  sym_slot : Z;
  sym_index : Z;
  sym_n : Z;
  sym_depth : Z;
  sym_stack_offset : Z;
  sym_global_offset : Z;
  sym_value : symvalue
}.
