(* ===== verification/Typetree.v ===== *)
(** * The type table (src/parser/typetree.c)

    Types that do not fit the 32-bit [Type] live in a table that only grows;
    a [Type] refers to its entry by a 16-bit number.  The table is threaded
    through the operations; an operation that walks nested types takes the
    depth it may recurse to as fuel. *)

From stdpp Require Import base list numbers strings.
From Stdlib Require Import ZArith Lia.
From S2P Require Import Prelude CType Strings Symbol.

Local Open Scope Z_scope.

Definition LONGLONG_MAX : Z := 2 ^ 63 - 1.

(** [size_t] arithmetic. *)
Definition addz (a b : Z) : Z := wrap_u 64 (a + b).
Definition subz (a b : Z) : Z := wrap_u 64 (a - b).
Definition mulz (a b : Z) : Z := wrap_u 64 (a * b).
Definition modz (a b : Z) : outcome Z :=
  if b =? 0 then Undef "division by zero" else Ok (a mod b).

Record member : Set := Member {
  m_name : kstring;
  m_type : ctype;
  m_offset : Z;
  m_field_width : Z;
  m_field_offset : Z;
  m_field_backing : Z;
  m_sym : option symref
}.
#[export] Instance member_eq_dec : EqDecision member.
Proof. solve_decision. Defined.

Record typetree : Set := Typetree {
  tt_type : etype;
  tt_unsigned : bool;
  tt_const : bool;
  tt_volatile : bool;
  tt_restrict : bool;
  tt_vararg : bool;
  tt_flexible : bool;
  tt_vla : bool;
  tt_incomplete : bool;
  tt_size : Z;
  tt_vlen : option symref;
  tt_members : list member;
  tt_next : ctype;
  tt_tag : option symref
}.

Abbreviation typetab := (list typetree).

(** [Type type = {0}] and [struct typetree t = {0}]. *)
Definition type_zero : ctype := basic_type__void.
Definition typetree_zero (e : etype) : typetree :=
  Typetree e false false false false false false false false 0 None [] type_zero None.

(** ** Fields *)

Definition tt_set_members (t : typetree) (l : list member) : typetree :=
  Typetree (tt_type t) (tt_unsigned t) (tt_const t) (tt_volatile t) (tt_restrict t) (tt_vararg t)
    (tt_flexible t) (tt_vla t) (tt_incomplete t) (tt_size t) (tt_vlen t) l (tt_next t) (tt_tag t).
Definition tt_set_size (t : typetree) (n : Z) : typetree :=
  Typetree (tt_type t) (tt_unsigned t) (tt_const t) (tt_volatile t) (tt_restrict t) (tt_vararg t)
    (tt_flexible t) (tt_vla t) (tt_incomplete t) n (tt_vlen t) (tt_members t) (tt_next t) (tt_tag t).
Definition tt_set_next (t : typetree) (n : ctype) : typetree :=
  Typetree (tt_type t) (tt_unsigned t) (tt_const t) (tt_volatile t) (tt_restrict t) (tt_vararg t)
    (tt_flexible t) (tt_vla t) (tt_incomplete t) (tt_size t) (tt_vlen t) (tt_members t) n (tt_tag t).
Definition tt_set_incomplete (t : typetree) (b : bool) : typetree :=
  Typetree (tt_type t) (tt_unsigned t) (tt_const t) (tt_volatile t) (tt_restrict t) (tt_vararg t)
    (tt_flexible t) (tt_vla t) b (tt_size t) (tt_vlen t) (tt_members t) (tt_next t) (tt_tag t).
Definition tt_set_flexible (t : typetree) (b : bool) : typetree :=
  Typetree (tt_type t) (tt_unsigned t) (tt_const t) (tt_volatile t) (tt_restrict t) (tt_vararg t)
    b (tt_vla t) (tt_incomplete t) (tt_size t) (tt_vlen t) (tt_members t) (tt_next t) (tt_tag t).
Definition tt_set_vararg (t : typetree) (b : bool) : typetree :=
  Typetree (tt_type t) (tt_unsigned t) (tt_const t) (tt_volatile t) (tt_restrict t) b
    (tt_flexible t) (tt_vla t) (tt_incomplete t) (tt_size t) (tt_vlen t) (tt_members t) (tt_next t) (tt_tag t).
Definition tt_set_vla (t : typetree) (b : bool) (vlen : option symref) : typetree :=
  Typetree (tt_type t) (tt_unsigned t) (tt_const t) (tt_volatile t) (tt_restrict t) (tt_vararg t)
    (tt_flexible t) b (tt_incomplete t) (tt_size t) vlen (tt_members t) (tt_next t) (tt_tag t).
Definition tt_set_quals (t : typetree) (c v : bool) : typetree :=
  Typetree (tt_type t) (tt_unsigned t) c v (tt_restrict t) (tt_vararg t)
    (tt_flexible t) (tt_vla t) (tt_incomplete t) (tt_size t) (tt_vlen t) (tt_members t) (tt_next t) (tt_tag t).
Definition tt_set_tag (t : typetree) (tag : option symref) : typetree :=
  Typetree (tt_type t) (tt_unsigned t) (tt_const t) (tt_volatile t) (tt_restrict t) (tt_vararg t)
    (tt_flexible t) (tt_vla t) (tt_incomplete t) (tt_size t) (tt_vlen t) (tt_members t) (tt_next t) tag.

(** ** The table *)

Definition get_typetree_handle (ts : typetab) (ref : Z) : outcome typetree :=
  _ ← c_assert (0 <? ref);
  _ ← c_assert (ref <=? Z.of_nat (length ts));
  defined "no entry" (ts !! Z.to_nat (ref - 1)).

(** Writing through the handle of an entry. *)
Definition put (ts : typetab) (ref : Z) (t : typetree) : typetab :=
  <[Z.to_nat (ref - 1) := t]> ts.

Definition get_type_handle (ts : typetab) (ref : Z) : outcome ctype :=
  t ← get_typetree_handle ts ref;
  match tt_type t with
  | T_POINTER =>
      let n := tt_next t in
      if t_pointer n then Exit "assertion failed"
      else Ok (Ctype (t_type n) (t_unsigned n) (t_const n) (t_volatile n) (t_restrict n)
                 true (tt_const t) (tt_volatile t) (tt_restrict t) (t_ref n))
  | e =>
      let r := match e with T_FUNCTION | T_ARRAY | T_STRUCT | T_UNION => ref | _ => 0 end in
      Ok (Ctype e (tt_unsigned t) (tt_const t) (tt_volatile t) (tt_restrict t)
            false false false false r)
  end.

(** [type_create]; [ref] is a 16-bit field. *)
Definition type_create (ts : typetab) (tt : etype) : typetab * ctype :=
  let ts := ts ++ [typetree_zero tt] in
  (ts, Ctype tt false false false false false false false false
         (wrap_s 16 (Z.of_nat (length ts)))).

(** [clear_types(NULL)]: the empty table and the arrays of members handed to
    [free]. *)
Definition clear_types (ts : typetab) : typetab * list (list member) := ([], tt_members <$> ts).

Definition set_ref (t : ctype) (r : Z) : ctype :=
  Ctype (t_type t) (t_unsigned t) (t_const t) (t_volatile t) (t_restrict t) (t_pointer t)
    (t_pointer_const t) (t_pointer_volatile t) (t_pointer_restrict t) r.
Definition set_pointer (t : ctype) (b : bool) : ctype :=
  Ctype (t_type t) (t_unsigned t) (t_const t) (t_volatile t) (t_restrict t) b
    (t_pointer_const t) (t_pointer_volatile t) (t_pointer_restrict t) (t_ref t).

Definition is_type_placeholder (t : ctype) : bool := etype_code (t_type t) =? -1.
Definition get_type_placeholder : ctype := basic_type (T_OTHER (-1)) false.

Definition remove_qualifiers (t : ctype) : ctype :=
  if t_pointer t then
    Ctype (t_type t) (t_unsigned t) (t_const t) (t_volatile t) (t_restrict t) true
      false false false (t_ref t)
  else
    Ctype (t_type t) (t_unsigned t) false false false false
      (t_pointer_const t) (t_pointer_volatile t) (t_pointer_restrict t) (t_ref t).

Definition type_set_const (t : ctype) : ctype :=
  if t_pointer t then
    Ctype (t_type t) (t_unsigned t) (t_const t) (t_volatile t) (t_restrict t) true
      true (t_pointer_volatile t) (t_pointer_restrict t) (t_ref t)
  else
    Ctype (t_type t) (t_unsigned t) true (t_volatile t) (t_restrict t) false
      (t_pointer_const t) (t_pointer_volatile t) (t_pointer_restrict t) (t_ref t).
Definition type_set_volatile (t : ctype) : ctype :=
  if t_pointer t then
    Ctype (t_type t) (t_unsigned t) (t_const t) (t_volatile t) (t_restrict t) true
      (t_pointer_const t) true (t_pointer_restrict t) (t_ref t)
  else
    Ctype (t_type t) (t_unsigned t) (t_const t) true (t_restrict t) false
      (t_pointer_const t) (t_pointer_volatile t) (t_pointer_restrict t) (t_ref t).
Definition type_set_restrict (t : ctype) : outcome ctype :=
  if negb (is_pointer t) then Exit "Cannot apply 'restrict' qualifier to non-pointer types."
  else if t_pointer t then
    Ok (Ctype (t_type t) (t_unsigned t) (t_const t) (t_volatile t) (t_restrict t) true
      (t_pointer_const t) (t_pointer_volatile t) true (t_ref t))
  else
    Ok (Ctype (t_type t) (t_unsigned t) (t_const t) (t_volatile t) true false
      (t_pointer_const t) (t_pointer_volatile t) (t_pointer_restrict t) (t_ref t)).
Definition type_apply_qualifiers (t other : ctype) : outcome ctype :=
  let t := if is_const other then type_set_const t else t in
  let t := if is_volatile other then type_set_volatile t else t in
  if is_restrict other then type_set_restrict t else Ok t.

(** ** Sizes and members *)

Definition out_of_depth {A} : outcome A := Undef "recursion too deep".

Fixpoint size_of (fuel : nat) (ts : typetab) (t : ctype) : outcome Z :=
  match fuel with
  | O => out_of_depth
  | S fuel =>
      match type_of t with
      | T_BOOL | T_CHAR => Ok 1
      | T_SHORT => Ok 2
      | T_INT | T_FLOAT => Ok 4
      | T_LONG | T_DOUBLE | T_POINTER => Ok 8
      | T_LDOUBLE => Ok 16
      | T_STRUCT | T_UNION => t ← get_typetree_handle ts (t_ref t); Ok (tt_size t)
      | T_ARRAY =>
          t ← get_typetree_handle ts (t_ref t);
          n ← size_of fuel ts (tt_next t);
          Ok (mulz (tt_size t) n)
      | _ => Ok 0
      end
  end.

Definition nmembers (ts : typetab) (t : ctype) : outcome Z :=
  t ← get_typetree_handle ts (t_ref t); Ok (Z.of_nat (length (tt_members t))).

Definition get_member (ts : typetab) (t : ctype) (n : Z) : outcome member :=
  _ ← c_assert (0 <=? n);
  t ← get_typetree_handle ts (t_ref t);
  _ ← c_assert (n <? Z.of_nat (length (tt_members t)));
  defined "no member" (tt_members t !! Z.to_nat n).

Definition type_deref (ts : typetab) (t : ctype) : outcome ctype :=
  _ ← c_assert (is_pointer t);
  if t_pointer t then Ok (set_pointer (remove_qualifiers t) false)
  else get_type_handle ts (t_ref t).

Definition type_next (ts : typetab) (t : ctype) : outcome ctype :=
  if is_pointer t then type_deref ts t
  else
    _ ← c_assert (is_function t || is_array t);
    t ← get_typetree_handle ts (t_ref t); Ok (tt_next t).

(** The loop of [type_alignment] over the members. *)
Fixpoint max_alignment (al : ctype → outcome Z) (l : list member) (m : Z) : outcome Z :=
  match l with
  | [] => Ok m
  | mem :: l => d ← al (m_type mem); max_alignment al l (if m <? d then d else m)
  end.

Fixpoint type_alignment (fuel : nat) (ts : typetab) (t : ctype) : outcome Z :=
  match fuel with
  | O => out_of_depth
  | S fuel =>
      _ ← c_assert (is_object t);
      match type_of t with
      | T_ARRAY => n ← type_next ts t; type_alignment fuel ts n
      | T_STRUCT | T_UNION =>
          s ← get_typetree_handle ts (t_ref t);
          m ← max_alignment (type_alignment fuel ts) (tt_members s) 0;
          _ ← c_assert (negb (m =? 0));
          Ok m
      | _ => size_of (S fuel) ts t
      end
  end.

Definition is_flexible (ts : typetab) (t : ctype) : outcome bool :=
  if is_struct_or_union t then t ← get_typetree_handle ts (t_ref t); Ok (tt_flexible t)
  else Ok false.

(** [find_type_member], with the index it may store. *)
Fixpoint find_member (l : list member) (name : kstring) (i : Z) : option (Z * member) :=
  match l with
  | [] => None
  | m :: l => if str_cmp name (m_name m) =? 0 then Some (i, m) else find_member l name (i + 1)
  end.
Definition find_type_member (ts : typetab) (t : ctype) (name : kstring) :
    outcome (option (Z * member)) :=
  _ ← c_assert (is_struct_or_union t || is_function t);
  t ← get_typetree_handle ts (t_ref t);
  Ok (find_member (tt_members t) name 0).

Definition dots : kstring := snd (str_init [] (cstr "...")).

(** The part of [add_member] that updates a struct or union: flexible array
    members, the size limit and the new size. *)
Definition grow_aggregate (fuel : nat) (ts : typetab) (parent : ctype) (t : typetree) (m : member) :
    outcome typetree :=
  n ← size_of fuel ts (m_type m);
  t ← (if n =? 0 then
         if is_array (m_type m) && negb (tt_flexible t) then Ok (tt_set_flexible t true)
         else Exit "Member has incomplete type."
       else Ok t);
  fl ← is_flexible ts (m_type m);
  t ← (if (fl : bool) then
         if is_struct parent then Exit "Cannot add flexible struct member."
         else Ok (tt_set_flexible t true)
       else Ok t);
  if subz LONGLONG_MAX (m_offset m) <? n then Exit "Object is too large."
  else if tt_size t <? addz (m_offset m) n then Ok (tt_set_size t (addz (m_offset m) n))
  else Ok t.

(** [add_member]; the result is whether a member was added ([NULL] for the
    ellipsis). *)
Definition add_member (fuel : nat) (ts : typetab) (parent : ctype) (m : member) :
    outcome (typetab * bool) :=
  _ ← c_assert (is_struct_or_union parent || is_function parent);
  t ← get_typetree_handle ts (t_ref parent);
  if str_cmp (m_name m) dots =? 0 then
    _ ← c_assert (negb (tt_vararg t));
    _ ← c_assert (is_function parent);
    _ ← c_assert (negb (tt_incomplete t));
    Ok (put ts (t_ref parent) (tt_set_vararg t true), false)
  else
    dup ← (if negb (s_len (m_name m) =? 0) then find_type_member ts parent (m_name m)
           else Ok None) : outcome (option (Z * member));
    match dup with
    | Some _ => Exit "Member already exists."
    | None =>
        let t := tt_set_members t (tt_members t ++ [m]) in
        let ts := put ts (t_ref parent) t in
        t ← (if is_struct_or_union parent then grow_aggregate fuel ts parent t m
             else Ok (tt_set_incomplete t (is_type_placeholder (m_type m))));
        Ok (put ts (t_ref parent) t, true)
    end.

Definition backing_type_from_bits (bits : Z) : outcome ctype :=
  match bits with
  | 8 => Ok basic_type__char
  | 16 => Ok basic_type__short
  | 32 => Ok basic_type__int
  | 64 => Ok basic_type__long
  | _ => Exit "assertion failed"
  end.

(** [adjust_member_alignment]: the padded table and the offset. *)
Definition adjust_member_alignment (fuel : nat) (ts : typetab) (parent t : ctype) :
    outcome (typetab * Z) :=
  _ ← c_assert (is_struct_or_union parent);
  if is_struct parent then
    p ← get_typetree_handle ts (t_ref parent);
    align ← type_alignment fuel ts t;
    r ← modz (tt_size p) align;
    if negb (r =? 0) then
      let size := addz (tt_size p) (subz align r) in
      r ← modz size align;
      _ ← c_assert (r =? 0);
      Ok (put ts (t_ref parent) (tt_set_size p size), size)
    else Ok (ts, tt_size p)
  else Ok (ts, 0).

(** [type_add_member]. *)
Definition type_add_member (fuel : nat) (ts : typetab) (parent : ctype) (name : kstring) (t : ctype) :
    outcome (typetab * bool) :=
  _ ← c_assert (is_struct_or_union parent || is_function parent);
  '(ts, offset) ← (if negb (is_function parent) then adjust_member_alignment fuel ts parent t
                   else Ok (ts, 0));
  add_member fuel ts parent (Member name t offset 0 0 0 None).

(** The new backing of the fields that share the last slot. *)
Fixpoint widen_slot (l : list member) (offset backing : Z) : list member :=
  match l with
  | [] => []
  | m :: l =>
      if negb (m_field_width m =? 0) && (m_offset m =? offset)
      then Member (m_name m) (m_type m) (m_offset m) (m_field_width m) (m_field_offset m) backing (m_sym m)
             :: widen_slot l offset backing
      else m :: l
  end.

(** [pack_field_member]: the members of the struct, the field and whether it
    was packed. *)
Definition pack_field_member (t : typetree) (field : member) : typetree * member * bool :=
  match last (tt_members t) with
  | None => (t, field, false)
  | Some l =>
      if m_field_width l =? 0 then (t, field, false)
      else
        let bits := m_field_offset l + m_field_width l + m_field_width field in
        let fo := wrap_s 16 (m_field_offset l + m_field_width l) in
        if bits <=? m_field_backing l then
          (t, Member (m_name field) (m_type field) (m_offset l) (m_field_width field) fo
                (m_field_backing l) (m_sym field), true)
        else if bits <=? m_field_backing field then
          (tt_set_members t (reverse (widen_slot (reverse (tt_members t)) (m_offset l)
                                        (m_field_backing field))),
           Member (m_name field) (m_type field) (m_offset l) (m_field_width field) fo
             (m_field_backing field) (m_sym field), true)
        else (t, field, false)
  end.

(** [reset_field_alignment], given the call of [type_add_field]. *)
Definition reset_field_alignment (fuel : nat)
    (add_field : typetab → ctype → kstring → ctype → Z → outcome typetab)
    (ts : typetab) (t clear : ctype) : outcome typetab :=
  _ ← c_assert (is_struct t);
  s ← get_typetree_handle ts (t_ref t);
  match last (tt_members s) with
  | None => Ok ts
  | Some m =>
      clear_size ← size_of fuel ts clear;
      let clear_bits := wrap_s 32 (Z.shiftl clear_size 3) in
      ts ← (if m_field_width m =? 0 then Ok ts
            else
              let bits := m_field_offset m + m_field_width m in
              backing ← backing_type_from_bits (m_field_backing m);
              if m_field_backing m <=? clear_bits then
                _ ← c_assert (bits <=? m_field_backing m);
                if negb (bits =? m_field_backing m)
                then add_field ts t str_zero backing (m_field_backing m - bits) else Ok ts
              else if clear_bits <? bits then
                let r := Z.rem bits clear_bits in
                if negb (r =? 0) then add_field ts t str_zero backing r else Ok ts
              else add_field ts t str_zero backing (clear_bits - bits));
      s ← get_typetree_handle ts (t_ref t);
      if tt_size s <? clear_size then Ok (put ts (t_ref t) (tt_set_size s clear_size))
      else
        r ← modz (tt_size s) clear_size;
        if negb (r =? 0) then Ok (put ts (t_ref t) (tt_set_size s (addz (tt_size s) r))) else Ok ts
  end.

(** [type_add_field]; it calls itself through [reset_field_alignment], [rec]
    deep. *)
Fixpoint type_add_field (rec fuel : nat) (ts : typetab) (parent : ctype) (name : kstring)
    (t : ctype) (width : Z) : outcome typetab :=
  match rec with
  | O => out_of_depth
  | S rec =>
      _ ← c_assert (is_struct_or_union parent);
      _ ← c_assert (is_integer t);
      n ← size_of fuel ts t;
      if (Z.shiftl n 3 <? width) || (is_bool t && (1 <? width)) then
        Exit "Width of bit-field exceeds width of type."
      else if negb (s_len name =? 0) && (width =? 0) then Exit "Zero length field."
      else if is_union parent && (s_len name =? 0) then Ok ts
      else
        let m := Member name t 0 (wrap_s 16 width) 0 (wrap_s 16 (Z.shiftl n 3)) None in
        '(ts, m) ← (if is_struct parent then
                      s ← get_typetree_handle ts (t_ref parent);
                      let '(s, m, packed) := pack_field_member s m in
                      let ts := put ts (t_ref parent) s in
                      if packed then Ok (ts, m)
                      else
                        '(ts, offset) ← adjust_member_alignment fuel ts parent t;
                        Ok (ts, Member name t offset (m_field_width m) 0 (m_field_backing m) None)
                    else Ok (ts, m));
        if width =? 0 then
          reset_field_alignment fuel (type_add_field rec fuel) ts parent t
        else '(ts, _) ← add_member fuel ts parent m; Ok ts
  end.

(** [type_add_anonymous_member]. *)
Fixpoint add_members (fuel : nat) (ts : typetab) (parent : ctype) (l : list member) (offset : Z) :
    outcome typetab :=
  match l with
  | [] => Ok ts
  | m :: l =>
      '(ts, _) ← add_member fuel ts parent
        (Member (m_name m) (m_type m) (addz (m_offset m) offset) (m_field_width m)
           (m_field_offset m) (m_field_backing m) (m_sym m));
      add_members fuel ts parent l offset
  end.
Fixpoint add_members_again (fuel : nat) (ts : typetab) (parent : ctype) (l : list member) :
    outcome typetab :=
  match l with
  | [] => Ok ts
  | m :: l =>
      '(ts, _) ← type_add_member fuel ts parent (m_name m) (m_type m);
      add_members_again fuel ts parent l
  end.
Definition type_add_anonymous_member (fuel : nat) (ts : typetab) (parent t : ctype) : outcome typetab :=
  _ ← c_assert (is_struct_or_union parent);
  _ ← c_assert (is_struct_or_union t);
  s ← get_typetree_handle ts (t_ref t);
  if is_struct parent && is_union t then
    '(ts, offset) ← adjust_member_alignment fuel ts parent t;
    add_members fuel ts parent (tt_members s) offset
  else if is_union parent && is_struct t then add_members fuel ts parent (tt_members s) 0
  else add_members_again fuel ts parent (tt_members s).

(** [remove_anonymous_fields]: the members kept and the largest alignment;
    the loop runs from the last member to the first. *)
Fixpoint remove_anonymous (fuel : nat) (ts : typetab) (l : list member) (maxalign : Z) :
    outcome (list member * Z) :=
  match l with
  | [] => Ok ([], maxalign)
  | m :: l =>
      if s_len (m_name m) =? 0 then remove_anonymous fuel ts l maxalign
      else
        align ← type_alignment fuel ts (m_type m);
        '(l, a) ← remove_anonymous fuel ts l (Z.max maxalign align);
        Ok (m :: l, a)
  end.
Definition remove_anonymous_fields (fuel : nat) (ts : typetab) (t : typetree) :
    outcome (typetree * Z) :=
  '(l, a) ← remove_anonymous fuel ts (reverse (tt_members t)) 0;
  Ok (tt_set_members t (reverse l), a).

Definition type_seal (fuel : nat) (ts : typetab) (t : ctype) : outcome typetab :=
  s ← get_typetree_handle ts (t_ref t);
  if bool_decide (tt_type s = T_FUNCTION) then Ok (put ts (t_ref t) (tt_set_incomplete s false))
  else
    _ ← c_assert (is_struct_or_union t);
    '(s, align) ← remove_anonymous_fields fuel ts s;
    if align =? 0 then Exit "Struct or union has no named members."
    else
      let r := tt_size s mod align in
      let s := if negb (r =? 0) then tt_set_size s (addz (tt_size s) (subz align r)) else s in
      Ok (put ts (t_ref t) s).

(** ** Constructors *)

Definition type_create_pointer (ts : typetab) (next : ctype) : outcome (typetab * ctype) :=
  if t_pointer next then
    let '(ts, t) := type_create ts T_POINTER in
    h ← get_typetree_handle ts (t_ref t);
    let h := tt_set_quals h (is_const next) (is_volatile next) in
    let next := set_pointer (remove_qualifiers next) false in
    Ok (put ts (t_ref t) (tt_set_next h next), t)
  else Ok (ts, set_pointer next true).

Definition type_create_function (ts : typetab) (next : ctype) : outcome (typetab * ctype) :=
  let '(ts, t) := type_create ts T_FUNCTION in
  h ← get_typetree_handle ts (t_ref t);
  Ok (put ts (t_ref t) (tt_set_incomplete (tt_set_next h next) true), t).

Definition type_create_array (fuel : nat) (ts : typetab) (next : ctype) (count : Z) :
    outcome (typetab * ctype) :=
  n ← size_of fuel ts next;
  if LONGLONG_MAX <? mulz count n then Exit "Array is too large."
  else
    let '(ts, t) := type_create ts T_ARRAY in
    h ← get_typetree_handle ts (t_ref t);
    Ok (put ts (t_ref t) (tt_set_next (tt_set_size h count) next), t).

Definition type_create_incomplete (ts : typetab) (next : ctype) : outcome (typetab * ctype) :=
  let '(ts, t) := type_create ts T_ARRAY in
  h ← get_typetree_handle ts (t_ref t);
  Ok (put ts (t_ref t) (tt_set_incomplete (tt_set_next h next) true), t).

Definition type_create_vla (fuel : nat) (ts : typetab) (next : ctype) (count : symref) :
    outcome (typetab * ctype) :=
  '(ts, t) ← type_create_array fuel ts next 0;
  h ← get_typetree_handle ts (t_ref t);
  Ok (put ts (t_ref t) (tt_set_vla h true (Some count)), t).

(** [type_copy_incomplete]. *)
Definition type_copy_incomplete (ts : typetab) (t : ctype) : outcome (typetab * ctype) :=
  let '(ts, tp) := type_create ts (t_type t) in
  let tp := Ctype (t_type tp) (t_unsigned t) (t_const t) (t_volatile t) (t_restrict t) (t_pointer t)
              (t_pointer_const t) (t_pointer_volatile t) (t_pointer_restrict t) (t_ref tp) in
  tb ← get_typetree_handle ts (t_ref t);
  _ ← get_typetree_handle ts (t_ref tp);
  Ok (put ts (t_ref tp) (tt_set_incomplete tb true), tp).

Definition set_array_length (ts : typetab) (t : ctype) (length : Z) : outcome typetab :=
  _ ← c_assert (is_array t);
  h ← get_typetree_handle ts (t_ref t);
  _ ← c_assert (tt_incomplete h);
  Ok (put ts (t_ref t) (tt_set_incomplete (tt_set_size h length) false)).

(** [type_patch_declarator]: replace the [void] at the end of [head]. *)
Fixpoint type_patch_declarator (fuel : nat) (ts : typetab) (head target : ctype) :
    outcome (typetab * ctype) :=
  match fuel with
  | O => out_of_depth
  | S fuel =>
      if is_void head then Ok (ts, target)
      else if is_pointer head then
        next ← type_next ts head;
        '(ts, next) ← type_patch_declarator fuel ts next target;
        '(ts, next) ← type_create_pointer ts next;
        next ← type_apply_qualifiers next head;
        Ok (ts, next)
      else
        _ ← c_assert (is_function head || is_array head);
        t ← get_typetree_handle ts (t_ref head);
        '(ts, n) ← type_patch_declarator fuel ts (tt_next t) target;
        t ← get_typetree_handle ts (t_ref head);
        Ok (put ts (t_ref head) (tt_set_next t n), head)
  end.

(** [type_clean_prototype]; the loop over the members re-reads the table. *)
Fixpoint clean_members (clean : typetab → ctype → outcome typetab) (ts : typetab) (ref : Z)
    (n : nat) (i : nat) : outcome typetab :=
  match n with
  | O => Ok ts
  | S n =>
      t ← get_typetree_handle ts ref;
      m ← defined "no member" (tt_members t !! i);
      let m' := Member (m_name m) (m_type m) (m_offset m) (m_field_width m) (m_field_offset m)
                  (m_field_backing m) None in
      ts ← clean (put ts ref (tt_set_members t (<[i := m']> (tt_members t)))) (m_type m);
      clean_members clean ts ref n (S i)
  end.
Fixpoint type_clean_prototype (fuel : nat) (ts : typetab) (t : ctype) : outcome typetab :=
  match fuel with
  | O => out_of_depth
  | S fuel =>
      match type_of t with
      | T_POINTER => n ← type_next ts t; type_clean_prototype fuel ts n
      | T_ARRAY =>
          h ← get_typetree_handle ts (t_ref t);
          let ts := if tt_vla h then put ts (t_ref t) (tt_set_vla h true None) else ts in
          type_clean_prototype fuel ts (tt_next h)
      | T_STRUCT | T_UNION =>
          h ← get_typetree_handle ts (t_ref t);
          match tt_tag h with
          | Some _ => Ok ts
          | None => clean_members (type_clean_prototype fuel) ts (t_ref t) (length (tt_members h)) 0
          end
      | T_FUNCTION =>
          h ← get_typetree_handle ts (t_ref t);
          clean_members (type_clean_prototype fuel) ts (t_ref t) (length (tt_members h)) 0
      | _ => Ok ts
      end
  end.

(** [type_set_tag] of a symbol [tag] whose kind is [st]. *)
Definition type_set_tag (ts : typetab) (t : ctype) (tag : symref) (st : symtype) : outcome typetab :=
  _ ← c_assert (bool_decide (st = SYM_TAG) || bool_decide (st = SYM_TYPEDEF));
  if t_ref t =? 0 then Ok ts
  else
    h ← get_typetree_handle ts (t_ref t);
    if bool_decide (tt_tag h = None) || negb (bool_decide (st = SYM_TYPEDEF))
    then Ok (put ts (t_ref t) (tt_set_tag h (Some tag))) else Ok ts.

(** ** Questions *)

Definition is_vararg (ts : typetab) (t : ctype) : outcome bool :=
  _ ← c_assert (is_function t);
  h ← get_typetree_handle ts (t_ref t); Ok (tt_vararg h).

Fixpoint is_vla (fuel : nat) (ts : typetab) (t : ctype) : outcome bool :=
  match fuel with
  | O => out_of_depth
  | S fuel =>
      if is_array t then
        h ← get_typetree_handle ts (t_ref t);
        if tt_vla h then Ok true else is_vla fuel ts (tt_next h)
      else Ok false
  end.

Fixpoint is_variably_modified (fuel : nat) (ts : typetab) (t : ctype) : outcome bool :=
  match fuel with
  | O => out_of_depth
  | S fuel =>
      match type_of t with
      | T_POINTER => n ← type_next ts t; is_variably_modified fuel ts n
      | T_ARRAY => is_vla (S fuel) ts t
      | _ => Ok false
      end
  end.

Definition is_complete (ts : typetab) (t : ctype) : outcome bool :=
  match type_of t with
  | T_ARRAY | T_FUNCTION => h ← get_typetree_handle ts (t_ref t); Ok (negb (tt_incomplete h))
  | _ => Ok true
  end.

Definition type_array_len (ts : typetab) (t : ctype) : outcome Z :=
  _ ← c_assert (is_array t);
  h ← get_typetree_handle ts (t_ref t); Ok (tt_size h).

Definition type_vla_length (fuel : nat) (ts : typetab) (t : ctype) : outcome (option symref) :=
  v ← is_vla fuel ts t;
  _ ← c_assert v;
  h ← get_typetree_handle ts (t_ref t); Ok (tt_vlen h).

(** ** Equality *)

(** The scalar part of [typetree_equal]. *)
Definition typetree_head_equal (a b : typetree) : bool :=
  bool_decide (tt_type a = tt_type b) && (tt_size a =? tt_size b)
  && Bool.eqb (tt_unsigned a) (tt_unsigned b) && Bool.eqb (tt_vararg a) (tt_vararg b)
  && Bool.eqb (tt_flexible a) (tt_flexible b) && Bool.eqb (tt_vla a) (tt_vla b)
  && Bool.eqb (tt_incomplete a) (tt_incomplete b).

Fixpoint members_equal (eq : ctype → ctype → outcome bool) (fn : bool) (la lb : list member) :
    outcome bool :=
  match la, lb with
  | ma :: la, mb :: lb =>
      b ← eq (m_type ma) (m_type mb);
      if negb b then Ok false
      else if fn then members_equal eq fn la lb
      else
        _ ← c_assert (m_offset ma =? m_offset mb);
        if negb (str_cmp (m_name ma) (m_name mb) =? 0) then Ok false
        else members_equal eq fn la lb
  | _, _ => Ok true
  end.

Definition typetree_equal (eq : ctype → ctype → outcome bool) (a b : typetree) : outcome bool :=
  if negb (typetree_head_equal a b) then Ok false
  else if negb (length (tt_members a) =? length (tt_members b))%nat then Ok false
  else members_equal eq (bool_decide (tt_type a = T_FUNCTION)) (tt_members a) (tt_members b).

Fixpoint type_equal (fuel : nat) (ts : typetab) (a b : ctype) : outcome bool :=
  match fuel with
  | O => out_of_depth
  | S fuel =>
      if bool_decide (a = b) then Ok true
      else if negb (bool_decide (t_type a = t_type b)) || negb (Bool.eqb (t_unsigned a) (t_unsigned b))
      then Ok false
      else if negb (Bool.eqb (t_ref a =? 0) (t_ref b =? 0)) then Ok false
      else if negb (t_ref a =? 0) && negb (t_ref b =? 0) then
        ta ← get_typetree_handle ts (t_ref a);
        tb ← get_typetree_handle ts (t_ref b);
        typetree_equal (type_equal fuel ts) ta tb
      else Ok true
  end.

(** ** Conversions *)

(** [size_of] of an arithmetic type does not read the table. *)
Definition promote_integer (t : ctype) : outcome ctype :=
  _ ← c_assert (is_integer t);
  n ← size_of 1 [] t;
  Ok (if n <? 4 then basic_type__int else t).

Definition usual_arithmetic_conversion (t1 t2 : ctype) : outcome ctype :=
  _ ← c_assert (is_arithmetic t1);
  _ ← c_assert (is_arithmetic t2);
  res ← (if is_long_double t1 || is_long_double t2 then Ok basic_type__long_double
         else if is_double t1 || is_double t2 then Ok basic_type__double
         else if is_float t1 || is_float t2 then Ok basic_type__float
         else
           t1 ← promote_integer t1;
           t2 ← promote_integer t2;
           n1 ← size_of 1 [] t1;
           n2 ← size_of 1 [] t2;
           if n2 <? n1 then Ok t1
           else if n1 <? n2 then Ok t2
           else Ok (if is_unsigned t1 then t1 else t2));
  Ok (remove_qualifiers res).

Fixpoint is_compatible (fuel : nat) (ts : typetab) (l r : ctype) : outcome bool :=
  match fuel with
  | O => out_of_depth
  | S fuel =>
      if negb (bool_decide (type_of l = type_of r)) || negb (Bool.eqb (is_const l) (is_const r))
         || negb (Bool.eqb (is_volatile l) (is_volatile r))
         || negb (Bool.eqb (is_restrict l) (is_restrict r)) then Ok false
      else
        match type_of l with
        | T_BOOL | T_CHAR | T_SHORT | T_INT | T_LONG | T_FLOAT | T_DOUBLE | T_LDOUBLE => Ok true
        | T_POINTER =>
            ln ← type_next ts l; rn ← type_next ts r; is_compatible fuel ts ln rn
        | T_ARRAY =>
            s1 ← type_array_len ts l;
            s2 ← type_array_len ts r;
            if (s1 =? 0) || (s2 =? 0) || (s1 =? s2) then
              ln ← type_next ts l; rn ← type_next ts r; is_compatible fuel ts ln rn
            else Ok false
        | T_FUNCTION =>
            ln ← type_next ts l; rn ← type_next ts r;
            e ← type_equal fuel ts ln rn;
            if negb e then Ok false
            else
              cl ← is_complete ts l;
              cr ← is_complete ts r;
              if negb cl || negb cr then Ok true else type_equal fuel ts l r
        | _ => type_equal fuel ts l r
        end
  end.

Definition is_compatible_unqualified (fuel : nat) (ts : typetab) (l r : ctype) : outcome bool :=
  is_compatible fuel ts (remove_qualifiers l) (remove_qualifiers r).
