(* ===== verification/TypetreeProps.v ===== *)
(** * The layout of structs

    The invariant that [type_add_member] and [type_add_field] maintain on a
    struct under construction: its members occupy disjoint, increasing ranges
    of bits inside its size, every ordinary member is aligned, and every field
    lies inside its backing integer; and what [type_seal] makes of it. *)

From stdpp Require Import base list numbers sorting.
From Stdlib Require Import ZArith Lia.
From S2P Require Import Prelude CType Strings Symbol Typetree.

Local Open Scope Z_scope.

(** ** The table *)

Lemma handle_inv ts ref t : get_typetree_handle ts ref = Ok t →
  0 < ref ≤ Z.of_nat (length ts) ∧ ts !! Z.to_nat (ref - 1) = Some t.
Proof.
  unfold get_typetree_handle. intros H. ok_inv.
  rewrite Z.ltb_lt in *. rewrite Z.leb_le in *. done.
Qed.

Lemma handle_ok ts ref t : 0 < ref → ts !! Z.to_nat (ref - 1) = Some t →
  get_typetree_handle ts ref = Ok t.
Proof.
  intros Hr Ht. pose proof (lookup_lt_Some _ _ _ Ht). unfold get_typetree_handle.
  rewrite (proj2 (Z.ltb_lt _ _) Hr), (proj2 (Z.leb_le _ _)) by lia. cbn. by rewrite Ht.
Qed.

Lemma handle_put ts ref t t' : get_typetree_handle ts ref = Ok t →
  get_typetree_handle (put ts ref t') ref = Ok t'.
Proof.
  intros [Hr Ht]%handle_inv. apply handle_ok; [lia|]. unfold put.
  apply list_lookup_insert_eq. by eapply lookup_lt_Some.
Qed.

Lemma put_put ts ref t t' : put (put ts ref t) ref t' = put ts ref t'.
Proof. apply list_insert_insert_eq. Qed.

(** Two tables that differ in one entry at most. *)
Definition agree (ref : Z) (ts ts' : typetab) : Prop :=
  length ts' = length ts ∧ ∀ r, r ≠ ref → get_typetree_handle ts' r = get_typetree_handle ts r.

Lemma agree_refl ref ts : agree ref ts ts.
Proof. done. Qed.
Lemma agree_trans ref ts ts' ts'' : agree ref ts ts' → agree ref ts' ts'' → agree ref ts ts''.
Proof. intros [H1 H2] [H3 H4]. split; [congruence|]. intros r Hr. rewrite H4, H2 by done. done. Qed.
Lemma agree_put ref ts t : 0 < ref → agree ref ts (put ts ref t).
Proof.
  intros Hp. split; [apply length_insert|]. intros r Hr. unfold get_typetree_handle, put.
  rewrite length_insert. destruct (Z.ltb_spec 0 r); [|done]. cbn.
  destruct (r <=? Z.of_nat (length ts)); [|done]. cbn.
  by rewrite list_lookup_insert_ne by lia.
Qed.

Lemma handle_pos ts ref t : get_typetree_handle ts ref = Ok t → 0 < ref.
Proof. intros [? _]%handle_inv. lia. Qed.

(** ** Sizes that do not depend on an entry *)

(** Whether computing the size or the alignment of [t] reads the entry
    [ref]. *)
Fixpoint touches (fuel : nat) (ts : typetab) (ref : Z) (t : ctype) : bool :=
  match fuel with
  | O => false
  | S fuel =>
      match type_of t with
      | T_ARRAY =>
          (t_ref t =? ref) || match get_typetree_handle ts (t_ref t) with
                              | Ok h => touches fuel ts ref (tt_next h)
                              | _ => false
                              end
      | T_STRUCT | T_UNION =>
          (t_ref t =? ref) || match get_typetree_handle ts (t_ref t) with
                              | Ok h => existsb (λ m, touches fuel ts ref (m_type m)) (tt_members h)
                              | _ => false
                              end
      | _ => false
      end
  end.

Lemma size_of_agree fuel ref ts ts' t : agree ref ts ts' → touches fuel ts ref t = false →
  size_of fuel ts' t = size_of fuel ts t.
Proof.
  intros Ha. revert t. induction fuel as [|fuel IH]; intros t Ht; [done|]. cbn in Ht |- *.
  destruct (type_of t); try done; apply orb_false_iff in Ht as [Hr%Z.eqb_neq Ht];
    rewrite (proj2 Ha _ Hr); destruct (get_typetree_handle ts (t_ref t)); try done.
  cbn. by rewrite IH.
Qed.

Lemma max_alignment_ext (f g : ctype → outcome Z) l m :
  (∀ x, x ∈ l → f (m_type x) = g (m_type x)) → max_alignment f l m = max_alignment g l m.
Proof.
  revert m. induction l as [|x l IH]; intros m He; cbn; [done|].
  rewrite He by (by left). destruct (g (m_type x)); try done. cbn. apply IH.
  intros y Hy. apply He. by right.
Qed.

Lemma existsb_false {A} (f : A → bool) l : existsb f l = false → ∀ x, x ∈ l → f x = false.
Proof.
  intros He x Hx. destruct (f x) eqn:Ef; [|done].
  assert (existsb f l = true) by (apply existsb_exists; exists x; by rewrite <-list_elem_of_In).
  congruence.
Qed.

Lemma alignment_agree fuel ref ts ts' t : agree ref ts ts' → touches fuel ts ref t = false →
  type_alignment fuel ts' t = type_alignment fuel ts t.
Proof.
  intros Ha. revert t. induction fuel as [|fuel IH]; intros t Ht; [done|].
  pose proof (size_of_agree (S fuel) _ _ _ t Ha Ht) as Hs. cbn [touches type_alignment] in *.
  destruct (c_assert (is_object t)); try done. cbn [mbind outcome_bind].
  destruct (type_of t) eqn:Et; try done; apply orb_false_iff in Ht as [Hr%Z.eqb_neq Ht].
  1: { unfold type_next. assert (Hp : is_pointer t = false) by (unfold is_pointer, type_is; by rewrite Et).
       rewrite Hp, (proj2 Ha _ Hr). destruct (c_assert (is_function t || is_array t)); try done.
       cbn [mbind outcome_bind]. destruct (get_typetree_handle ts (t_ref t)) as [h| |]; try done.
       cbn [mbind outcome_bind]. by apply IH. }
  all: rewrite (proj2 Ha _ Hr); destruct (get_typetree_handle ts (t_ref t)) as [h| |]; try done.
  all: cbn [mbind outcome_bind].
  all: by rewrite (max_alignment_ext _ (type_alignment fuel ts)) by
         (intros x Hx; apply IH; exact (existsb_false _ _ Ht x Hx)).
Qed.

(** Alignments are those of the basic types. *)
Definition is_align (a : Z) : Prop := a = 0 ∨ a = 1 ∨ a = 2 ∨ a = 4 ∨ a = 8 ∨ a = 16.

Lemma max_alignment_is (f : ctype → outcome Z) l m a : is_align m →
  (∀ x d, x ∈ l → f (m_type x) = Ok d → is_align d) → max_alignment f l m = Ok a → is_align a.
Proof.
  revert m. induction l as [|x l IH]; intros m Hm Hf H; cbn in H; [by injection H as <-|].
  apply bind_ok_inv in H as (d & Hd & H). apply (IH _) in H; [done| |intros y e Hy; apply Hf; by right].
  pose proof (Hf x d ltac:(by left) Hd). by destruct (m <? d).
Qed.

Lemma alignment_is fuel ts t a : type_alignment fuel ts t = Ok a → is_align a.
Proof.
  revert t a. induction fuel as [|fuel IH]; intros t a H; [done|]. cbn [type_alignment] in H.
  apply bind_ok_inv in H as ([] & _ & H). unfold is_align. cbn [size_of] in H.
  destruct (type_of t) eqn:Et; try (injection H as <-; lia).
  - apply bind_ok_inv in H as (n & _ & H). by apply IH in H.
  - ok_inv. subst. apply max_alignment_is in Ha0; [done|by left|]. intros x d _. apply IH.
  - ok_inv. subst. apply max_alignment_is in Ha0; [done|by left|]. intros x d _. apply IH.
Qed.

(** ** The invariant *)

Section layout.
Variable fuel : nat.

(** The size of a member's type, 0 if there is none. *)
Definition msize (ts : typetab) (m : member) : Z :=
  match size_of fuel ts (m_type m) with Ok n => n | _ => 0 end.

(** The bits a member occupies. *)
Definition start_bit (m : member) : Z := 8 * m_offset m + m_field_offset m.
Definition end_bit (ts : typetab) (m : member) : Z :=
  if m_field_width m =? 0 then 8 * (m_offset m + msize ts m)
  else start_bit m + m_field_width m.

Definition is_backing (b : Z) : Prop := b = 8 ∨ b = 16 ∨ b = 32 ∨ b = 64.

(** An ordinary member is aligned; a field lies in its backing integer. *)
Definition member_ok (ts : typetab) (ref size : Z) (m : member) : Prop :=
  touches fuel ts ref (m_type m) = false ∧ 0 ≤ m_offset m ∧ 0 ≤ msize ts m ∧
  end_bit ts m ≤ 8 * size ∧
  if m_field_width m =? 0 then
    m_field_offset m = 0 ∧
    ∃ a, type_alignment fuel ts (m_type m) = Ok a ∧ 0 < a ∧ (a | m_offset m)
  else
    0 < m_field_width m ∧ 0 ≤ m_field_offset m ∧
    m_field_offset m + m_field_width m ≤ m_field_backing m ∧ is_backing (m_field_backing m) ∧
    8 * m_offset m + m_field_backing m ≤ 8 * size.

Definition before (ts : typetab) (m m' : member) : Prop := end_bit ts m ≤ start_bit m'.

(** The struct with the number [ref] is well laid out. *)
Record layout_ok (ts : typetab) (ref : Z) (t : typetree) : Prop := {
  lo_handle : get_typetree_handle ts ref = Ok t;
  lo_type : tt_type t = T_STRUCT;
  lo_size : 0 ≤ tt_size t;
  lo_members : Forall (member_ok ts ref (tt_size t)) (tt_members t);
  lo_sorted : StronglySorted (before ts) (tt_members t)
}.

Definition is_struct_ref (t : ctype) (ref : Z) : Prop :=
  type_of t = T_STRUCT ∧ t_ref t = ref.

Lemma msize_agree ref ts ts' m : agree ref ts ts' → touches fuel ts ref (m_type m) = false →
  msize ts' m = msize ts m.
Proof. intros Ha Ht. unfold msize. by rewrite (size_of_agree _ _ _ _ _ Ha Ht). Qed.

Lemma touches_agree f ref ts ts' t : agree ref ts ts' → touches f ts ref t = false →
  touches f ts' ref t = false.
Proof.
  intros Ha. revert t. induction f as [|f IH]; intros t Ht; [done|]. cbn in Ht |- *.
  destruct (type_of t); try done; apply orb_false_iff in Ht as [Hr Ht]; rewrite Hr; cbn;
    apply Z.eqb_neq in Hr; rewrite (proj2 Ha _ Hr); destruct (get_typetree_handle ts (t_ref t)); try done.
  1: by apply IH.
  all: apply not_true_iff_false; rewrite existsb_exists; intros (x & Hx & Hx').
  all: rewrite <-list_elem_of_In in Hx; pose proof (existsb_false _ _ Ht x Hx) as Hf;
    cbn in Hf; apply IH in Hf; congruence.
Qed.

Lemma end_bit_agree ref ts ts' m : agree ref ts ts' → touches fuel ts ref (m_type m) = false →
  end_bit ts' m = end_bit ts m.
Proof. intros Ha Ht. unfold end_bit. by rewrite (msize_agree _ _ _ _ Ha Ht). Qed.

(** Another table and a larger size. *)
Lemma member_ok_agree ref ts ts' size size' m : agree ref ts ts' → size ≤ size' →
  member_ok ts ref size m → member_ok ts' ref size' m.
Proof.
  intros Ha Hs (Ht & Ho & Hn & He & Hc). unfold member_ok.
  rewrite (end_bit_agree _ _ _ _ Ha Ht), (msize_agree _ _ _ _ Ha Ht).
  rewrite (alignment_agree _ _ _ _ _ Ha Ht).
  split; [by eapply touches_agree|]. split; [done|]. split; [done|]. split; [lia|].
  destruct (m_field_width m =? 0); [done|]. destruct Hc as (? & ? & ? & ? & ?).
  split; [done|]. split; [done|]. split; [done|]. split; [done|lia].
Qed.

Lemma sorted_agree ref ts ts' l : agree ref ts ts' →
  Forall (λ m, touches fuel ts ref (m_type m) = false) l →
  StronglySorted (before ts) l → StronglySorted (before ts') l.
Proof.
  intros Ha Hf Hs. induction Hs as [|m l Hs IH Hm]; [constructor|].
  apply Forall_cons in Hf as [Ht Hf]. constructor; [by apply IH|].
  eapply Forall_impl; [exact Hm|]. intros m' Hm'. unfold before in *.
  by rewrite (end_bit_agree _ _ _ _ Ha Ht).
Qed.

Lemma members_touch ts ref size l : Forall (member_ok ts ref size) l →
  Forall (λ m, touches fuel ts ref (m_type m) = false) l.
Proof. intros H. eapply Forall_impl; [exact H|]. by intros m (? & _). Qed.

(** The same members in another table, with a larger size. *)
Lemma layout_resize ts ts' ref t t' : layout_ok ts ref t → agree ref ts ts' →
  get_typetree_handle ts' ref = Ok t' → tt_type t' = T_STRUCT →
  tt_members t' = tt_members t → tt_size t ≤ tt_size t' → layout_ok ts' ref t'.
Proof.
  intros [Hh Ht Hs Hm Hso] Ha Hh' Ht' Hmem Hs'. split; [done|done|lia| |]; rewrite Hmem.
  - eapply Forall_impl; [exact Hm|]. intros m. apply member_ok_agree; [done|lia].
  - eapply sorted_agree; [done|by eapply members_touch|done].
Qed.

(** One more member. *)
Lemma layout_append ts ts' ref t t' m : layout_ok ts ref t → agree ref ts ts' →
  get_typetree_handle ts' ref = Ok t' → tt_type t' = T_STRUCT →
  tt_members t' = tt_members t ++ [m] → tt_size t ≤ tt_size t' →
  member_ok ts' ref (tt_size t') m → Forall (λ m', end_bit ts m' ≤ start_bit m) (tt_members t) →
  layout_ok ts' ref t'.
Proof.
  intros [Hh Ht Hs Hm Hso] Ha Hh' Ht' Hmem Hs' Hok Hb.
  pose proof (members_touch _ _ _ _ Hm) as Htouch. split; [done|done|lia| |]; rewrite Hmem.
  - apply Forall_app_2; [|by constructor]. eapply Forall_impl; [exact Hm|].
    intros m'. apply member_ok_agree; [done|lia].
  - apply StronglySorted_app_2; [|by eapply sorted_agree|by repeat constructor].
    intros x y Hx Hy%list_elem_of_singleton. subst y. rewrite Forall_forall in Hb, Htouch.
    unfold before. rewrite (end_bit_agree _ _ _ _ Ha (Htouch x Hx)). by apply Hb.
Qed.

(** ** Adding members *)

Lemma struct_flags parent ref : is_struct_ref parent ref →
  is_struct parent = true ∧ is_struct_or_union parent = true ∧ is_function parent = false ∧
  is_union parent = false.
Proof.
  intros [Ht _]. unfold is_struct_or_union, is_struct, is_union, is_function, type_is.
  by rewrite Ht.
Qed.

(** The padding in front of a member. *)
Lemma adjust_ok ts ref t parent ty ts' off : layout_ok ts ref t → is_struct_ref parent ref →
  tt_size t < 2 ^ 62 → touches fuel ts ref ty = false →
  adjust_member_alignment fuel ts parent ty = Ok (ts', off) →
  agree ref ts ts' ∧ ∃ t' a, layout_ok ts' ref t' ∧ tt_members t' = tt_members t ∧
    tt_size t' = off ∧ tt_size t ≤ off ∧ type_alignment fuel ts ty = Ok a ∧ 0 < a ∧ (a | off) ∧
    off < tt_size t + a.
Proof.
  intros HL Hp Hmax Hty H. destruct (struct_flags _ _ Hp) as (Hs & Hsu & _). destruct Hp as [_ Href].
  unfold adjust_member_alignment in H. rewrite Hsu, Hs, Href, (lo_handle _ _ _ HL) in H.
  cbn [c_assert mbind outcome_bind] in H. apply bind_ok_inv in H as (a & Ha & H).
  pose proof (alignment_is _ _ _ _ Ha) as Hal. unfold modz in H.
  destruct (Z.eqb_spec a 0) as [->|Ha0]; [done|]. cbn [mbind outcome_bind] in H.
  assert (Hap : 0 < a ≤ 16) by (unfold is_align in Hal; lia).
  pose proof (Z.mod_pos_bound (tt_size t) a ltac:(lia)) as Hm.
  pose proof (lo_size _ _ _ HL) as Hsz. pose proof (handle_pos _ _ _ (lo_handle _ _ _ HL)) as Hpos.
  destruct (Z.eqb_spec (tt_size t mod a) 0) as [Hr|Hr]; cbn [negb] in H.
  - injection H as <- <-. split; [apply agree_refl|]. exists t, a.
    repeat (split; [try done; try lia|]); [by apply Z.mod_divide|lia].
  - unfold subz, addz in H. rewrite (wrap_u_small 64 (a - _)) in H by lia.
    rewrite wrap_u_small in H by lia. cbn [mbind outcome_bind] in H.
    set (off' := tt_size t + (a - tt_size t mod a)) in *.
    apply bind_ok_inv in H as ([] & Hc & H). apply c_assert_ok_inv, Z.eqb_eq in Hc.
    injection H as <- <-. split; [by apply agree_put|].
    exists (tt_set_size t off'), a. split.
    { eapply layout_resize; [exact HL|by apply agree_put|by eapply handle_put, (lo_handle _ _ _ HL)
      |apply (lo_type _ _ _ HL)|done|cbn; unfold off'; lia]. }
    split; [done|]. split; [done|]. split; [unfold off'; lia|]. split; [done|]. split; [lia|].
    split; [apply Z.mod_divide; [lia|done]|unfold off'; lia].
Qed.

Lemma grow_ok ts parent t m t' n : grow_aggregate fuel ts parent t m = Ok t' →
  size_of fuel ts (m_type m) = Ok n → 0 ≤ n → 0 ≤ m_offset m < 2 ^ 63 →
  tt_members t' = tt_members t ∧ tt_type t' = tt_type t ∧
  tt_size t' = Z.max (tt_size t) (m_offset m + n).
Proof.
  intros H Hn Hn0 Ho. unfold grow_aggregate in H. rewrite Hn, bind_ok in H.
  apply bind_ok_inv in H as (t1 & H1 & H). apply bind_ok_inv in H as (fl & _ & H).
  apply bind_ok_inv in H as (t2 & H2 & H).
  assert (Ht1 : tt_members t1 = tt_members t ∧ tt_type t1 = tt_type t ∧ tt_size t1 = tt_size t).
  { destruct (n =? 0); [destruct (is_array (m_type m) && negb (tt_flexible t)); [|done]|];
      injection H1 as <-; done. }
  assert (Ht2 : tt_members t2 = tt_members t1 ∧ tt_type t2 = tt_type t1 ∧ tt_size t2 = tt_size t1).
  { destruct fl; [destruct (is_struct parent); [done|]|]; injection H2 as <-; done. }
  destruct Ht1 as (Hm1 & Hy1 & Hs1), Ht2 as (Hm2 & Hy2 & Hs2).
  unfold subz, addz, LONGLONG_MAX in H. rewrite (wrap_u_small 64 (2 ^ 63 - 1 - _)) in H by lia.
  destruct (Z.ltb_spec (2 ^ 63 - 1 - m_offset m) n); [done|].
  rewrite wrap_u_small in H by lia.
  destruct (Z.ltb_spec (tt_size t2) (m_offset m + n)); injection H as <-; cbn;
    (split; [congruence|]; split; [congruence|]); lia.
Qed.

Lemma add_member_ok ts ref t parent m ts' b n : get_typetree_handle ts ref = Ok t →
  tt_type t = T_STRUCT → is_struct_ref parent ref →
  touches fuel ts ref (m_type m) = false → size_of fuel ts (m_type m) = Ok n → 0 ≤ n →
  0 ≤ m_offset m < 2 ^ 63 → add_member fuel ts parent m = Ok (ts', b) →
  agree ref ts ts' ∧ ∃ t', get_typetree_handle ts' ref = Ok t' ∧ tt_type t' = T_STRUCT ∧
    tt_members t' = tt_members t ++ [m] ∧ tt_size t' = Z.max (tt_size t) (m_offset m + n).
Proof.
  intros Hh Htt Hp Hty Hn Hn0 Ho H. destruct (struct_flags _ _ Hp) as (Hs & Hsu & Hfn & _).
  destruct Hp as [_ Href]. pose proof (handle_pos _ _ _ Hh) as Hpos.
  unfold add_member in H. rewrite Hsu, Hfn, Href, Hh in H. cbn [c_assert mbind outcome_bind orb] in H.
  destruct (str_cmp (m_name m) dots =? 0).
  { apply bind_ok_inv in H as ([] & _ & H). done. }
  apply bind_ok_inv in H as ([d|] & _ & H); [done|].
  apply bind_ok_inv in H as (t' & Hg & H). injection H as <- <-.
  assert (Ha : agree ref ts (put ts ref (tt_set_members t (tt_members t ++ [m])))) by by apply agree_put.
  apply (grow_ok _ _ _ _ _ n) in Hg as (Hm & Hy & Hz);
    [|by rewrite (size_of_agree _ _ _ _ _ Ha Hty)|done|done].
  rewrite put_put. split; [by apply agree_put|]. exists t'. split; [by eapply handle_put|].
  split; [by rewrite Hy|]. done.
Qed.

(** [type_add_member] of a struct. *)
Lemma type_add_member_ok ts ref t parent name ty ts' b n : layout_ok ts ref t →
  is_struct_ref parent ref → tt_size t < 2 ^ 62 → touches fuel ts ref ty = false →
  size_of fuel ts ty = Ok n → 0 ≤ n → type_add_member fuel ts parent name ty = Ok (ts', b) →
  agree ref ts ts' ∧ ∃ t' a off, layout_ok ts' ref t' ∧ type_alignment fuel ts ty = Ok a ∧
    tt_size t ≤ off < tt_size t + a ∧ (a | off) ∧
    tt_members t' = tt_members t ++ [Member name ty off 0 0 0 None] ∧ tt_size t' = off + n.
Proof.
  intros HL Hp Hmax Hty Hn Hn0 H. unfold type_add_member in H.
  destruct (struct_flags _ _ Hp) as (Hs & Hsu & Hfn & _). rewrite Hsu, Hfn in H.
  cbn [c_assert mbind outcome_bind orb negb] in H. apply bind_ok_inv in H as ([ts1 off] & Hadj & H).
  destruct (adjust_ok _ _ _ _ _ _ _ HL Hp Hmax Hty Hadj)
    as (Ha1 & t1 & a & HL1 & Hm1 & Hs1 & Hle & Hal & Hap & Hdiv & Hlt).
  pose proof (lo_size _ _ _ HL) as Hs0. pose proof (alignment_is _ _ _ _ Hal) as Hai.
  assert (Hty1 : touches fuel ts1 ref ty = false) by by eapply touches_agree.
  assert (Hn1 : size_of fuel ts1 ty = Ok n) by by rewrite (size_of_agree _ _ _ _ _ Ha1 Hty).
  assert (Hoff : 0 ≤ off < 2 ^ 63) by (unfold is_align in Hai; lia).
  set (m := Member name ty off 0 0 0 None) in *.
  destruct (add_member_ok _ _ _ _ m _ _ n (lo_handle _ _ _ HL1) (lo_type _ _ _ HL1) Hp Hty1 Hn1 Hn0 Hoff H)
    as (Ha2 & t2 & Hh2 & Hy2 & Hm2 & Hs2).
  assert (Ha : agree ref ts ts') by by eapply agree_trans.
  split; [done|]. exists t2, a, off. rewrite Hm1 in Hm2. split; [|split; [done|]; split; [lia|];
    split; [done|]; split; [done|]; cbn in Hs2; lia].
  assert (Hn2 : msize ts' m = n).
  { unfold msize. cbn. by rewrite (size_of_agree _ _ _ _ _ Ha Hty), Hn. }
  eapply layout_append; [exact HL|exact Ha|done|done|exact Hm2|cbn in Hs2; lia| |].
  - split; [by eapply touches_agree|]. split; [cbn; lia|]. split; [lia|]. cbn in Hs2.
    split; [unfold end_bit; cbn [m_field_width m m_offset]; rewrite Hn2; cbn; lia|]. cbn.
    split; [done|]. exists a. split; [|done]. by rewrite (alignment_agree _ _ _ _ _ Ha Hty).
  - eapply Forall_impl; [apply (lo_members _ _ _ HL)|]. intros m' (_ & _ & _ & He & _).
    unfold start_bit. cbn. lia.
Qed.

(** ** Adding fields *)

(** The type code is one of the enumerators. *)
Definition enumerated (ty : ctype) : Prop := ∀ z, type_of ty ≠ T_OTHER z.

Lemma integer_size ty : is_integer ty = true → enumerated ty → ∃ n, (n = 1 ∨ n = 2 ∨ n = 4 ∨ n = 8) ∧
  (∀ f ts, size_of (S f) ts ty = Ok n ∧ type_alignment (S f) ts ty = Ok n) ∧
  ∀ f ts ref, touches f ts ref ty = false.
Proof.
  unfold is_integer, between, enumerated. intros [H1 H2]%andb_prop Hen. apply Z.leb_le in H1, H2.
  assert (Ho : is_object ty = true).
  { unfold is_object, is_function, type_is. apply negb_true_iff, bool_decide_eq_false.
    intros He. by rewrite He in H2. }
  assert (Ht : ∃ n, (n = 1 ∨ n = 2 ∨ n = 4 ∨ n = 8) ∧ ∀ f ts, size_of (S f) ts ty = Ok n).
  { cbn [size_of]. destruct (type_of ty); cbn in H1, H2; try (exfalso; eapply Hen; reflexivity); try lia; eexists; (split; [|done]); lia. }
  destruct Ht as (n & Hn & Hs). exists n. split; [done|]. split.
  - intros f ts. split; [apply Hs|]. specialize (Hs f ts). cbn [type_alignment size_of] in *.
    rewrite Ho. cbn [c_assert mbind outcome_bind].
    destruct (type_of ty); cbn in H1, H2; try (exfalso; eapply Hen; reflexivity); try lia; done.
  - intros [|f] ts ref; [done|]. cbn. destruct (type_of ty); cbn in H1, H2; try (exfalso; eapply Hen; reflexivity); try lia; done.
Qed.

(** The same member with another backing. *)
Definition rebacked (o b : Z) (m m' : member) : Prop :=
  m' = m ∨ m_field_width m ≠ 0 ∧ m_offset m = o ∧
    m' = Member (m_name m) (m_type m) (m_offset m) (m_field_width m) (m_field_offset m) b (m_sym m).

Lemma widen_slot_rebacked l o b : Forall2 (rebacked o b) l (widen_slot l o b).
Proof.
  induction l as [|m l IH]; cbn; [constructor|].
  destruct (Z.eqb_spec (m_field_width m) 0), (Z.eqb_spec (m_offset m) o); cbn.
  3: { constructor; [by right|done]. }
  all: constructor; [by left|]; clear; induction l; constructor; auto; by left.
Qed.

Lemma rebacked_bits ts o b m m' : rebacked o b m m' →
  start_bit m' = start_bit m ∧ end_bit ts m' = end_bit ts m ∧ m_name m' = m_name m ∧
  m_type m' = m_type m.
Proof. intros [->|(_ & _ & ->)]; done. Qed.

(** The slot chosen for a field. *)
Lemma pack_ok ts ref t f s m packed : layout_ok ts ref t → m_field_width f < 2 ^ 15 →
  pack_field_member t f = (s, m, packed) →
  if packed then
    ∃ l, last (tt_members t) = Some l ∧ m_field_width l ≠ 0 ∧
      tt_type s = tt_type t ∧ tt_size s = tt_size t ∧
      m = Member (m_name f) (m_type f) (m_offset l) (m_field_width f)
            (m_field_offset l + m_field_width l) (m_field_backing m) (m_sym f) ∧
      ((m_field_backing m = m_field_backing l ∧ s = t) ∨
       (m_field_backing m = m_field_backing f ∧
        Forall2 (rebacked (m_offset l) (m_field_backing m)) (tt_members t) (tt_members s))) ∧
      m_field_offset l + m_field_width l + m_field_width f ≤ m_field_backing m
  else s = t ∧ m = f.
Proof.
  intros HL Hw H. unfold pack_field_member in H. destruct (last (tt_members t)) as [l|] eqn:El;
    [|by injection H as <- <- <-].
  destruct (Z.eqb_spec (m_field_width l) 0) as [Hl|Hl]; [by injection H as <- <- <-|].
  pose proof (lo_members _ _ _ HL) as Hm. rewrite Forall_forall in Hm.
  destruct (Hm l ltac:(by apply last_Some_elem_of)) as (_ & _ & _ & _ & Hlk).
  destruct (Z.eqb_spec (m_field_width l) 0); [done|]. destruct Hlk as (Hl1 & Hl2 & Hl3 & Hl4 & _).
  unfold is_backing in Hl4. rewrite wrap_s_small in H by lia.
  destruct (Z.leb_spec (m_field_offset l + m_field_width l + m_field_width f) (m_field_backing l)).
  { injection H as <- <- <-. exists l. cbn. repeat (split; [done|]). split; [by left|done]. }
  destruct (Z.leb_spec (m_field_offset l + m_field_width l + m_field_width f) (m_field_backing f)).
  2: { by injection H as <- <- <-. }
  injection H as <- <- <-. exists l. cbn. repeat (split; [done|]). split; [|done].
  right. split; [done|]. rewrite <-(reverse_involutive (tt_members t)) at 1.
  apply Forall2_reverse, widen_slot_rebacked.
Qed.

Lemma sorted_same_bits ts ts' l l' :
  Forall2 (λ x y, start_bit y = start_bit x ∧ end_bit ts' y = end_bit ts x) l l' →
  StronglySorted (before ts) l → StronglySorted (before ts') l'.
Proof.
  induction 1 as [|x y l l' [Hs He] Hl IH]; intros Hso; [constructor|].
  apply StronglySorted_inv in Hso as [Hso Hx]. constructor; [by apply IH|].
  clear IH Hso. induction Hl as [|x' y' l l' [Hs' He'] Hl IH]; [constructor|].
  apply Forall_cons in Hx as [Hx1 Hx]. constructor; [|by apply IH].
  unfold before in *. by rewrite He, Hs'.
Qed.

(** What may happen to the members when the field [m] joins their slot. *)
Definition slot_update (size : Z) (m x y : member) : Prop :=
  y = x ∨ ∃ b, rebacked (m_offset m) b x y ∧ is_backing b ∧
    m_field_offset m + m_field_width m ≤ b ∧ 8 * m_offset m + b ≤ 8 * size.

Lemma slot_update_ok ts ts' ref size size' m x y : slot_update size' m x y → agree ref ts ts' →
  size ≤ size' → 0 ≤ m_field_width m → end_bit ts x ≤ start_bit m → member_ok ts ref size x →
  member_ok ts' ref size' y ∧ start_bit y = start_bit x ∧ end_bit ts' y = end_bit ts x.
Proof.
  intros Hu Ha Hs Hw He Hok. pose proof Hok as (Ht & _).
  pose proof (member_ok_agree _ _ _ _ _ _ Ha Hs Hok) as Hok'.
  pose proof (end_bit_agree _ _ _ _ Ha Ht) as Hee.
  destruct Hu as [->|(b & [->|(Hx & Ho & ->)] & Hb & Hmb & Hbs)]; [done|done|].
  change (end_bit ts' (Member _ _ _ _ _ b _)) with (end_bit ts' x). split; [|done].
  destruct Hok' as (H1 & H2 & H3 & H4 & H5). split; [done|]. split; [done|]. split; [done|].
  split; [done|]. cbn. destruct (Z.eqb_spec (m_field_width x) 0); [done|].
  destruct H5 as (H5 & H6 & H7 & H8 & H9). split; [done|]. split; [done|].
  unfold end_bit, start_bit in He. destruct (Z.eqb_spec (m_field_width x) 0); [done|].
  split; [lia|]. split; [done|lia].
Qed.

(** A field behind the others, in a slot of theirs or in its own. *)
Lemma layout_field ts ts' ref t t' l0 m n : layout_ok ts ref t → agree ref ts ts' →
  get_typetree_handle ts' ref = Ok t' → tt_type t' = T_STRUCT →
  Forall2 (slot_update (tt_size t') m) (tt_members t) l0 →
  tt_members t' = l0 ++ [m] → tt_size t ≤ tt_size t' →
  touches fuel ts ref (m_type m) = false → size_of fuel ts (m_type m) = Ok n → 0 ≤ n →
  Forall (λ x, end_bit ts x ≤ start_bit m) (tt_members t) → 0 ≤ m_offset m → 0 ≤ m_field_offset m →
  0 < m_field_width m → m_field_offset m + m_field_width m ≤ m_field_backing m →
  is_backing (m_field_backing m) → 8 * m_offset m + m_field_backing m ≤ 8 * tt_size t' →
  layout_ok ts' ref t'.
Proof.
  intros HL Ha Hh' Ht' Hl0 Hmem Hsz Hty Hn Hn0 Hbef Ho Hfo Hw Hb Hbk Hend.
  pose proof (lo_size _ _ _ HL) as Hs0.
  assert (Hall : Forall2 (λ x y, member_ok ts' ref (tt_size t') y ∧ start_bit y = start_bit x ∧
    end_bit ts' y = end_bit ts x) (tt_members t) l0).
  { pose proof (lo_members _ _ _ HL) as Hm. clear Hmem HL.
    induction Hl0 as [|x y l l' Hxy Hl IH]; [constructor|].
    apply Forall_cons in Hm as [Hx Hm]. apply Forall_cons in Hbef as [Hbx Hbef].
    constructor; [|by apply IH]. eapply (slot_update_ok ts ts' ref (tt_size t)); (done || lia). }
  split; [done|done|lia| |]; rewrite Hmem.
  - apply Forall_app_2.
    + clear -Hall. induction Hall as [|x y l l' [H _] _ IH]; by constructor.
    + apply Forall_singleton. split; [by eapply touches_agree|]. split; [done|].
      rewrite (msize_agree _ _ _ _ Ha Hty). unfold msize. rewrite Hn. split; [done|].
      unfold end_bit, start_bit. destruct (Z.eqb_spec (m_field_width m) 0); [lia|].
      split; [lia|done].
  - apply StronglySorted_app_2; [| |by repeat constructor].
    + intros x y Hx Hy%list_elem_of_singleton. subst y.
      apply list_elem_of_lookup in Hx as [i Hx].
      destruct (Forall2_lookup_r _ _ _ _ _ Hall Hx) as (x0 & Hx0 & _ & _ & He).
      unfold before. rewrite He. rewrite Forall_lookup in Hbef. by apply (Hbef i).
    + eapply sorted_same_bits; [|apply (lo_sorted _ _ _ HL)]. eapply Forall2_impl; [exact Hall|].
      by intros x y (_ & ? & ?).
Qed.

Hypothesis fuel_pos : (0 < fuel)%nat.

Lemma integer_facts ty : is_integer ty = true → enumerated ty → ∃ n, (n = 1 ∨ n = 2 ∨ n = 4 ∨ n = 8) ∧
  (∀ ts, size_of fuel ts ty = Ok n) ∧ (∀ ts, type_alignment fuel ts ty = Ok n) ∧
  ∀ ts ref, touches fuel ts ref ty = false.
Proof.
  intros Hi He. destruct (integer_size ty Hi He) as (n & Hn & Hs & Ht). exists n.
  destruct fuel as [|f]; [lia|]. split; [done|]. split; [apply Hs|]. split; [apply Hs|]. apply Ht.
Qed.

Lemma before_size ts ref t m : layout_ok ts ref t → 8 * tt_size t ≤ start_bit m →
  Forall (λ x, end_bit ts x ≤ start_bit m) (tt_members t).
Proof.
  intros HL Hm. eapply Forall_impl; [apply (lo_members _ _ _ HL)|]. intros x (_ & _ & _ & He & _). lia.
Qed.

Lemma before_last ts ref t l m : layout_ok ts ref t → last (tt_members t) = Some l →
  m_field_width l ≠ 0 → m_offset m = m_offset l →
  m_field_offset m = m_field_offset l + m_field_width l →
  Forall (λ x, end_bit ts x ≤ start_bit m) (tt_members t).
Proof.
  intros HL Hl Hw Ho Hf. apply last_Some in Hl as [ms Hms].
  pose proof (lo_sorted _ _ _ HL) as Hso. pose proof (lo_members _ _ _ HL) as Hm. rewrite Hms in *.
  assert (Hend : end_bit ts l = start_bit m).
  { unfold end_bit. destruct (Z.eqb_spec (m_field_width l) 0); [done|]. unfold start_bit. lia. }
  apply StronglySorted_app in Hso as (Hlast & _ & _). apply Forall_app_2.
  - apply Forall_forall. intros x Hx. specialize (Hlast x l Hx ltac:(by left)). unfold before in Hlast.
    apply Forall_app in Hm as [_ Hml]. apply Forall_singleton in Hml as (_ & _ & _ & _ & Hk).
    destruct (Z.eqb_spec (m_field_width l) 0); [done|]. unfold start_bit in *. lia.
  - apply Forall_singleton. lia.
Qed.

Lemma add_packed ts ref t parent f ts' b s m n : layout_ok ts ref t → is_struct_ref parent ref →
  tt_size t < 2 ^ 62 → (n = 1 ∨ n = 2 ∨ n = 4 ∨ n = 8) →
  (∀ ts, size_of fuel ts (m_type f) = Ok n) → (∀ ts ref, touches fuel ts ref (m_type f) = false) →
  0 < m_field_width f < 2 ^ 15 → m_field_backing f = 8 * n → pack_field_member t f = (s, m, true) →
  add_member fuel (put ts ref s) parent m = Ok (ts', b) →
  agree ref ts ts' ∧ ∃ t', layout_ok ts' ref t' ∧ tt_size t ≤ tt_size t' ≤ tt_size t + 32 ∧
    length (tt_members t') = S (length (tt_members t)).
Proof.
  intros HL Hp Hmax Hn Hsz Hto Hw Hfb Hpack H.
  destruct (pack_ok _ _ _ _ _ _ _ HL (proj2 Hw) Hpack) as (l & Hl & Hlw & Hty & Hss & Hm & Hcase & Hfit).
  pose proof (handle_pos _ _ _ (lo_handle _ _ _ HL)) as Hpos.
  pose proof (lo_members _ _ _ HL) as Hms. rewrite Forall_forall in Hms.
  destruct (Hms l ltac:(by apply last_Some_elem_of)) as (_ & Hlo & _ & _ & Hlk).
  destruct (Z.eqb_spec (m_field_width l) 0); [done|]. destruct Hlk as (Hl1 & Hl2 & Hl3 & Hl4 & Hl5).
  assert (Hmo : m_offset m = m_offset l ∧ m_type m = m_type f ∧ m_field_width m = m_field_width f ∧
    m_field_offset m = m_field_offset l + m_field_width l) by by rewrite Hm.
  destruct Hmo as (Hmo & Hmt & Hmw & Hmf). unfold is_backing in Hl4.
  destruct (add_member_ok (put ts ref s) ref s parent m ts' b n)
    as (Ha & t' & Hh' & Ht' & Hmem & Hsz'); try done.
  { by eapply handle_put, (lo_handle _ _ _ HL). } { rewrite Hty. apply (lo_type _ _ _ HL). }
  { by rewrite Hmt. } { by rewrite Hmt. } { lia. } { lia. }
  assert (Ha' : agree ref ts ts') by (eapply agree_trans; [by apply agree_put|done]).
  assert (Hlen : length (tt_members s) = length (tt_members t)).
  { destruct Hcase as [[_ ->]|[_ Hf2]]; [done|]. symmetry. by eapply Forall2_length. }
  split; [done|]. exists t'. split; [|split; [lia|rewrite Hmem, length_app, Hlen; simpl; lia]].
  apply (layout_field ts ts' ref t t' (tt_members s) m n); rewrite ?Hmt, ?Hmw; try done; try lia.
  - destruct Hcase as [[_ ->]|[Hb Hf2]].
    + apply Forall2_same_length_lookup_2; [done|]. intros i x y Hx Hy. left. congruence.
    + eapply Forall2_impl; [exact Hf2|]. intros x y Hxy. right. exists (m_field_backing m).
      rewrite Hmo. split; [done|]. unfold is_backing. lia.
  - by eapply before_last.
  - destruct Hcase as [[-> _]|[-> _]]; unfold is_backing; lia.
Qed.

Lemma add_unpacked ts ref t parent name ty w n ts1 off ts' b : layout_ok ts ref t →
  is_struct_ref parent ref → tt_size t < 2 ^ 62 → (n = 1 ∨ n = 2 ∨ n = 4 ∨ n = 8) →
  (∀ ts, size_of fuel ts ty = Ok n) → (∀ ts ref, touches fuel ts ref ty = false) →
  0 < w ≤ 8 * n → adjust_member_alignment fuel ts parent ty = Ok (ts1, off) →
  add_member fuel ts1 parent (Member name ty off w 0 (8 * n) None) = Ok (ts', b) →
  agree ref ts ts' ∧ ∃ t', layout_ok ts' ref t' ∧ tt_size t ≤ tt_size t' ≤ tt_size t + 32 ∧
    length (tt_members t') = S (length (tt_members t)).
Proof.
  intros HL Hp Hmax Hn Hsz Hto Hw Hadj H.
  destruct (adjust_ok _ _ _ _ _ _ _ HL Hp Hmax (Hto _ _) Hadj)
    as (Ha1 & t1 & a & HL1 & Hm1 & Hs1 & Hle & Hal & Hap & Hdiv & Hlt).
  pose proof (alignment_is _ _ _ _ Hal) as Hai. unfold is_align in Hai.
  pose proof (lo_size _ _ _ HL) as Hs0.
  destruct (add_member_ok _ _ _ _ (Member name ty off w 0 (8 * n) None) _ _ n
    (lo_handle _ _ _ HL1) (lo_type _ _ _ HL1) Hp (Hto _ _) (Hsz _) ltac:(lia) ltac:(cbn; lia) H)
    as (Ha2 & t' & Hh' & Ht' & Hmem & Hsz'). cbn in Hsz'.
  assert (Ha : agree ref ts ts') by by eapply agree_trans.
  split; [done|]. exists t'. split; [|split; [lia|rewrite Hmem, length_app, Hm1; simpl; lia]].
  apply (layout_field ts1 ts' ref t1 t' (tt_members t1) (Member name ty off w 0 (8 * n) None) n);
    cbn; try done; try lia; try apply Hto; try apply Hsz.
  - apply Forall2_same_length_lookup_2; [done|]. intros i x y Hx Hy. left. congruence.
  - apply (before_size ts1 ref); [done|]. unfold start_bit. cbn. lia.
  - unfold is_backing. lia.
Qed.

(** The layout is kept, the size grows by [k] at most. *)
Definition grown (ts : typetab) (ref : Z) (t : typetree) (ts' : typetab) (k : Z) : Prop :=
  agree ref ts ts' ∧ ∃ t', layout_ok ts' ref t' ∧ tt_size t ≤ tt_size t' ≤ tt_size t + k ∧
    (length (tt_members t) ≤ length (tt_members t'))%nat.

Lemma grown_refl ts ref t k : layout_ok ts ref t → 0 ≤ k → grown ts ref t ts k.
Proof. intros HL Hk. split; [apply agree_refl|]. exists t. split; [done|]. split; lia. Qed.

Lemma grown_trans ts ref t ts1 ts2 k k1 k2 : grown ts ref t ts1 k1 → k1 + k2 ≤ k →
  (∀ t1, layout_ok ts1 ref t1 → tt_size t ≤ tt_size t1 ≤ tt_size t + k1 → grown ts1 ref t1 ts2 k2) →
  grown ts ref t ts2 k.
Proof.
  intros [Ha (t1 & HL1 & Hs1 & Hl1)] Hk H. destruct (H t1 HL1 Hs1) as [Ha2 (t2 & HL2 & Hs2 & Hl2)].
  split; [by eapply agree_trans|]. exists t2. split; [done|]. split; lia.
Qed.

Lemma backing_type b ty : is_backing b → backing_type_from_bits b = Ok ty →
  is_integer ty = true ∧ enumerated ty.
Proof.
  unfold is_backing. intros [->|[->|[->| ->]]] H; cbn in H; injection H as <-;
    (split; [done|by intros z [=]]).
Qed.

(** The adjustment of the size after a field of width 0. *)
Lemma reset_size ts ref t parent n ts' : layout_ok ts ref t → is_struct_ref parent ref →
  tt_size t < 2 ^ 62 → (n = 1 ∨ n = 2 ∨ n = 4 ∨ n = 8) →
  (s ← get_typetree_handle ts (t_ref parent);
   if tt_size s <? n then Ok (put ts (t_ref parent) (tt_set_size s n))
   else
     r ← modz (tt_size s) n;
     if negb (r =? 0) then Ok (put ts (t_ref parent) (tt_set_size s (addz (tt_size s) r))) else Ok ts)
  = Ok ts' → grown ts ref t ts' 8.
Proof.
  intros HL [_ Href] Hmax Hn H. pose proof (handle_pos _ _ _ (lo_handle _ _ _ HL)) as Hpos.
  pose proof (lo_size _ _ _ HL) as Hs0.
  rewrite Href, (lo_handle _ _ _ HL), bind_ok in H.
  assert (Hput : ∀ k, tt_size t ≤ k ≤ tt_size t + 8 → grown ts ref t (put ts ref (tt_set_size t k)) 8).
  { intros k Hk. split; [by apply agree_put|]. exists (tt_set_size t k). split; [|done].
    eapply layout_resize; [exact HL|by apply agree_put|by eapply handle_put, (lo_handle _ _ _ HL)
      |apply (lo_type _ _ _ HL)|done|cbn; lia]. }
  destruct (Z.ltb_spec (tt_size t) n); [injection H as <-; apply Hput; lia|].
  unfold modz in H. destruct (Z.eqb_spec n 0); [lia|]. cbn [mbind outcome_bind] in H.
  pose proof (Z.mod_pos_bound (tt_size t) n ltac:(lia)).
  destruct (negb _); injection H as <-; [|by apply grown_refl].
  unfold addz. rewrite wrap_u_small by lia. apply Hput. lia.
Qed.

(** What a call of [type_add_field] nested [rec] deep keeps. *)
Definition field_spec (rec : nat) : Prop := ∀ ts ref t parent name ty width ts', layout_ok ts ref t →
  is_struct_ref parent ref → tt_size t + 64 * Z.of_nat rec < 2 ^ 62 → enumerated ty → 0 ≤ width →
  type_add_field rec fuel ts parent name ty width = Ok ts' →
  grown ts ref t ts' (64 * Z.of_nat rec).

Lemma reset_ok rec ts ref t parent ty ts' : field_spec rec → layout_ok ts ref t →
  is_struct_ref parent ref → tt_size t + 64 * Z.of_nat rec + 8 < 2 ^ 62 → is_integer ty = true →
  enumerated ty → reset_field_alignment fuel (type_add_field rec fuel) ts parent ty = Ok ts' →
  grown ts ref t ts' (64 * Z.of_nat rec + 8).
Proof.
  intros IH HL Hp Hmax Hi Hen H. destruct (struct_flags _ _ Hp) as (Hs & _).
  destruct (integer_facts ty Hi Hen) as (n & Hn & Hsz & _ & Hto). pose proof Hp as [_ Href].
  unfold reset_field_alignment in H. rewrite Hs, Href, (lo_handle _ _ _ HL), bind_ok in H.
  cbn [c_assert mbind outcome_bind] in H.
  destruct (last (tt_members t)) as [l|] eqn:El; [|injection H as <-; apply grown_refl; [done|lia]].
  rewrite Hsz, bind_ok in H. apply bind_ok_inv in H as (ts1 & H1 & H). rewrite <-Href in H.
  apply (grown_trans ts ref t ts1 ts' _ (64 * Z.of_nat rec) 8); [|lia|].
  2: { intros t1 HL1 Hs1. eapply (reset_size ts1 ref t1 parent n); try done. lia. }
  assert (Hsame : grown ts ref t ts (64 * Z.of_nat rec)) by (apply grown_refl; [done|lia]).
  destruct (Z.eqb_spec (m_field_width l) 0) as [Hw|Hw]; [by injection H1 as <-|].
  pose proof (lo_members _ _ _ HL) as Hm. rewrite Forall_forall in Hm.
  destruct (Hm l ltac:(by apply last_Some_elem_of)) as (_ & _ & _ & _ & Hk).
  destruct (Z.eqb_spec (m_field_width l) 0); [done|]. destruct Hk as (Hk1 & Hk2 & Hk3 & Hk4 & _).
  cbv zeta in H1. apply bind_ok_inv in H1 as (bt & Hb & H1).
  destruct (backing_type _ _ Hk4 Hb) as (_ & Hbe).
  assert (Hcb : wrap_s 32 (Z.shiftl n 3) = 8 * n) by (destruct Hn as [->|[->|[->| ->]]]; done).
  rewrite Hcb in H1.
  destruct (Z.leb_spec (m_field_backing l) (8 * n)); [|destruct (Z.ltb_spec (8 * n) (m_field_offset l + m_field_width l))].
  - apply bind_ok_inv in H1 as ([] & _ & H1).
    destruct (negb _); [|by injection H1 as <-]. eapply IH; [..|exact H1]; try done; lia.
  - pose proof (Z.rem_bound_pos (m_field_offset l + m_field_width l) (8 * n) ltac:(lia) ltac:(lia)).
    destruct (negb _); [|by injection H1 as <-]. eapply IH; [..|exact H1]; try done; lia.
  - eapply IH; [..|exact H1]; try done; lia.
Qed.

Lemma type_add_field_ok rec : field_spec rec.
Proof.
  induction rec as [|rec IH]; intros ts ref t parent name ty width ts' HL Hp Hmax Hen Hw H; [done|].
  destruct (struct_flags _ _ Hp) as (Hs & Hsu & _ & Hu). cbn [type_add_field] in H. rewrite Hsu in H.
  cbn [c_assert mbind outcome_bind] in H. apply bind_ok_inv in H as ([] & Hi & H).
  apply c_assert_ok_inv in Hi. destruct (integer_facts ty Hi Hen) as (n & Hn & Hsz & _ & Hto).
  rewrite Hsz, bind_ok, Hu in H. cbn [andb] in H.
  assert (Hsh : Z.shiftl n 3 = 8 * n) by (destruct Hn as [->|[->|[->| ->]]]; done). rewrite Hsh in H.
  destruct (Z.ltb_spec (8 * n) width) as [|Hwn]; [done|]. cbn [orb] in H.
  destruct (is_bool ty && (1 <? width)); [done|].
  destruct (negb (s_len name =? 0) && (width =? 0)); [done|].
  pose proof Hp as [_ Href]. rewrite Hs, Href, (lo_handle _ _ _ HL) in H. cbv zeta in H.
  rewrite (wrap_s_small 16 width), (wrap_s_small 16 (8 * n)) in H by lia.
  cbn [mbind outcome_bind] in H. set (f := Member name ty 0 width 0 (8 * n) None) in *.
  destruct (pack_field_member t f) as [[s m] packed] eqn:Hpack.
  pose proof (pack_ok ts ref t f s m packed HL ltac:(cbn; lia) Hpack) as Hpk.
  destruct packed; cbn [mbind outcome_bind] in H.
  - destruct (Z.eqb_spec width 0) as [->|Hw0].
    + assert (s = t) as ->.
      { destruct Hpk as (l & Hl & Hlw & _). unfold pack_field_member in Hpack. rewrite Hl in Hpack.
        destruct (Z.eqb_spec (m_field_width l) 0); [done|].
        pose proof (lo_members _ _ _ HL) as Hm. rewrite Forall_forall in Hm.
        destruct (Hm l ltac:(by apply last_Some_elem_of)) as (_ & _ & _ & _ & Hk).
        destruct (Z.eqb_spec (m_field_width l) 0); [done|]. cbn [f m_field_width] in Hpack.
        rewrite Z.add_0_r in Hpack. destruct (Z.leb_spec (m_field_offset l + m_field_width l) (m_field_backing l));
          [by injection Hpack|lia]. }
      assert (Hputt : put ts ref t = ts).
      { apply list_insert_id. by apply handle_inv, (lo_handle _ _ _ HL). }
      rewrite Hputt in H. eapply grown_trans; [apply (grown_refl ts ref t 0)|..]; [done|done| |].
      2: { intros t1 HL1 Hs1. eapply (reset_ok rec ts ref t1); try done. lia. }
      lia.
    + apply bind_ok_inv in H as ([ts2 b] & Hadd & H). injection H as <-.
      destruct (add_packed ts ref t parent f ts2 b s m n) as (Ha & t' & HL' & Hs' & Hl'); try done.
      { lia. } { cbn. lia. }
      split; [done|]. exists t'. split; [done|]. split; lia.
  - destruct Hpk as [-> ->].
    assert (Hputt : put ts ref t = ts).
    { apply list_insert_id. by apply handle_inv, (lo_handle _ _ _ HL). }
    rewrite Hputt in H. apply bind_ok_inv in H as ([ts1 m1] & H1 & H).
    apply bind_ok_inv in H1 as ([ts1' off] & Hadj & H1). injection H1 as <- <-.
    destruct (Z.eqb_spec width 0) as [->|Hw0].
    + destruct (adjust_ok _ _ _ _ _ _ _ HL Hp ltac:(lia) (Hto _ _) Hadj)
        as (Ha1 & t1 & a & HL1 & Hm1 & Hs1 & Hle & Hal & Hap & _ & Hlt).
      pose proof (alignment_is _ _ _ _ Hal) as Hai. unfold is_align in Hai.
      apply (grown_trans ts ref t ts1' ts' _ 16 (64 * Z.of_nat rec + 8)); [|lia|].
      * split; [done|]. exists t1. split; [done|]. rewrite Hm1. split; lia.
      * intros t2 HL2 Hs2. eapply (reset_ok rec ts1' ref t2); try done. lia.
    + apply bind_ok_inv in H as ([ts2 b] & Hadd & H). injection H as <-.
      destruct (add_unpacked ts ref t parent name ty width n ts1' off ts2 b) as (Ha & t' & HL' & Hs' & Hl');
        try done; [lia|lia|].
      split; [done|]. exists t'. split; [done|]. split; lia.
Qed.

(** ** Sealing *)

Definition named (m : member) : Prop := s_len (m_name m) ≠ 0.
#[local] Instance named_dec m : Decision (named m).
Proof. unfold named. apply _. Defined.

Definition is_max (f : ctype → outcome Z) (l : list member) (a0 a : Z) : Prop :=
  (∀ m, m ∈ l → ∃ d, f (m_type m) = Ok d ∧ d ≤ a) ∧ a0 ≤ a ∧
  (a = a0 ∨ ∃ m, m ∈ l ∧ f (m_type m) = Ok a).

Lemma remove_anonymous_spec ts l a0 l' a : remove_anonymous fuel ts l a0 = Ok (l', a) →
  l' = filter named l ∧ is_max (type_alignment fuel ts) l' a0 a.
Proof.
  revert a0 l' a. induction l as [|m l IH]; intros a0 l' a H; cbn [remove_anonymous] in H.
  - injection H as <- <-. split; [done|]. split; [by intros m ?%elem_of_nil|]. split; [lia|by left].
  - rewrite filter_cons. destruct (Z.eqb_spec (s_len (m_name m)) 0) as [Hn|Hn].
    + rewrite decide_False by (unfold named; lia). by apply IH.
    + rewrite decide_True by done. apply bind_ok_inv in H as (d & Hd & H).
      apply bind_ok_inv in H as ([l1 a1] & H1 & H). injection H as <- <-.
      apply IH in H1 as (-> & Hle & Hge & Hat). split; [done|]. split; [|split; [lia|]].
      * intros x [->|Hx]%elem_of_cons; [exists d; split; [done|lia]|by apply Hle].
      * destruct Hat as [->|(x & Hx & Hxa)]; [|right; exists x; split; [by right|done]].
        destruct (Z.max_spec a0 d) as [[_ ->]|[_ ->]]; [right; exists m; split; [by left|done]|by left].
Qed.

Lemma max_alignment_spec f l a0 a : is_max f l a0 a → max_alignment f l a0 = Ok a.
Proof.
  revert a0. induction l as [|m l IH]; intros a0 (Hle & Hge & Hat); cbn.
  - destruct Hat as [->|(x & ?%elem_of_nil & _)]; done.
  - destruct (Hle m ltac:(by left)) as (d & Hd & Hda). rewrite Hd, bind_ok. apply IH.
    split; [intros x Hx; apply Hle; by right|]. destruct (Z.ltb_spec a0 d) as [Hlt|Hlt]; (split; [lia|]).
    + destruct Hat as [->|(x & [->|Hx]%elem_of_cons & Hxa)]; [lia| |right; eauto]. left. congruence.
    + destruct Hat as [->|(x & [->|Hx]%elem_of_cons & Hxa)]; [by left| |right; eauto]. left.
      assert (a = d) by congruence. lia.
Qed.

Lemma is_max_reverse f l a0 a : is_max f l a0 a → is_max f (reverse l) a0 a.
Proof.
  intros (Hle & Hge & Hat). split; [intros m Hm; apply Hle; by apply elem_of_reverse|].
  split; [done|]. destruct Hat as [?|(m & Hm & ?)]; [by left|right].
  exists m. by rewrite elem_of_reverse.
Qed.

Lemma sorted_filter {A} (R : A → A → Prop) (P : A → Prop) `{∀ x, Decision (P x)} l :
  StronglySorted R l → StronglySorted R (filter P l).
Proof.
  induction 1 as [|x l Hl IH Hx]; [constructor|]. rewrite filter_cons. case_decide; [|done].
  constructor; [done|]. apply Forall_forall. intros y [_ Hy]%list_elem_of_filter.
  rewrite Forall_forall in Hx. by apply Hx.
Qed.

Lemma filter_reverse_named l : reverse (filter named (reverse l)) = filter named l.
Proof.
  induction l as [|m l IH]; [done|]. rewrite reverse_cons, filter_app, reverse_app, IH, !filter_cons.
  by destruct (decide (named m)).
Qed.

Lemma seal_ok ts ref t parent ts' : layout_ok ts ref t → is_struct_ref parent ref →
  tt_size t < 2 ^ 62 → type_seal fuel ts parent = Ok ts' →
  agree ref ts ts' ∧ ∃ t' a, layout_ok ts' ref t' ∧ tt_members t' = filter named (tt_members t) ∧
    0 < a ∧ is_max (type_alignment fuel ts) (tt_members t') 0 a ∧
    (a | tt_size t') ∧ tt_size t ≤ tt_size t' < tt_size t + a.
Proof.
  intros HL Hp Hmax H. destruct (struct_flags _ _ Hp) as (_ & Hsu & _). destruct Hp as [_ Href].
  pose proof (handle_pos _ _ _ (lo_handle _ _ _ HL)) as Hpos. pose proof (lo_size _ _ _ HL) as Hs0.
  unfold type_seal in H. rewrite Hsu, Href, (lo_handle _ _ _ HL), bind_ok, (lo_type _ _ _ HL) in H.
  cbn in H. apply bind_ok_inv in H as ([s a] & Hr & H).
  unfold remove_anonymous_fields in Hr. apply bind_ok_inv in Hr as ([l a1] & Hr & He).
  injection He as <- <-. apply remove_anonymous_spec in Hr as (-> & Hm).
  rewrite filter_reverse_named in H. destruct (Z.eqb_spec a1 0) as [|Ha0]; [done|]. cbn in H.
  apply is_max_reverse in Hm. rewrite filter_reverse_named in Hm.
  assert (Ha : 0 < a1 ≤ 16).
  { destruct Hm as (_ & _ & [->|(x & _ & Hx)]); [done|].
    apply alignment_is in Hx. unfold is_align in Hx. lia. }
  pose proof (Z.mod_pos_bound (tt_size t) a1 ltac:(lia)) as Hb.
  assert (Hlay : ∀ k, tt_size t ≤ k →
    layout_ok (put ts ref (tt_set_size (tt_set_members t (filter named (tt_members t))) k)) ref
      (tt_set_size (tt_set_members t (filter named (tt_members t))) k)).
  { intros k Hk. assert (Hag : ∀ t', agree ref ts (put ts ref t')) by (intros; by apply agree_put).
    split; [by eapply handle_put, (lo_handle _ _ _ HL)|apply (lo_type _ _ _ HL)|cbn; lia|cbn|cbn].
    - apply Forall_forall. intros m [_ Hin]%list_elem_of_filter.
      pose proof (lo_members _ _ _ HL) as Hall. rewrite Forall_forall in Hall.
      eapply member_ok_agree; [apply Hag| |by apply Hall]. done.
    - apply sorted_filter. eapply sorted_agree; [apply Hag| |apply (lo_sorted _ _ _ HL)].
      eapply members_touch, (lo_members _ _ _ HL). }
  split; [destruct (negb _); injection H as <-; by apply agree_put|].
  destruct (Z.eqb_spec (tt_size t mod a1) 0) as [Hz|Hz]; cbn in H; injection H as <-.
  - eexists _, a1. split; [exact (Hlay (tt_size t) ltac:(lia))|]. split; [done|]. split; [lia|].
    split; [done|]. split; [by apply Z.mod_divide; [lia|]|cbn; lia].
  - unfold addz, subz. rewrite (wrap_u_small 64 (a1 - _)), wrap_u_small by lia.
    eexists _, a1. split; [exact (Hlay (tt_size t + (a1 - tt_size t mod a1)) ltac:(lia))|].
    split; [done|]. split; [lia|]. split; [done|]. split; [|cbn; lia]. cbn.
    exists (tt_size t / a1 + 1). pose proof (Z.div_mod (tt_size t) a1 ltac:(lia)). lia.
Qed.

End layout.
