(* ===== verification/TypetreeSpec.v ===== *)
(** * Correctness of the type operations

    The layout of every struct the parser can build, the usual arithmetic
    conversions against the C standard, pointers and their targets, and the
    places where src/parser/typetree.c does not do what it means to. *)

From stdpp Require Import base list numbers sorting relations strings.
From Stdlib Require Import ZArith Lia.
From S2P Require Import Prelude CType Strings Symbol Typetree TypetreeProps.

Local Open Scope Z_scope.

(** ** Structs *)

(** The struct is smaller than 2^61 bytes. *)
Definition small (ts : typetab) (parent : ctype) : Prop :=
  ∃ t, get_typetree_handle ts (t_ref parent) = Ok t ∧ tt_size t < 2 ^ 61.

(** A member declaration: an ordinary member, of a complete type that does
    not contain the struct itself, or a bit-field. *)
Inductive struct_step (fuel : nat) (parent : ctype) : typetab → typetab → Prop :=
  | step_member ts name ty n ts' b :
      small ts parent → touches fuel ts (t_ref parent) ty = false →
      size_of fuel ts ty = Ok n → 0 ≤ n →
      type_add_member fuel ts parent name ty = Ok (ts', b) → struct_step fuel parent ts ts'
  | step_field ts name ty width ts' :
      small ts parent → enumerated ty → 0 ≤ width →
      type_add_field 3 fuel ts parent name ty width = Ok ts' → struct_step fuel parent ts ts'.

Lemma create_struct ts ts' parent : type_create ts T_STRUCT = (ts', parent) →
  Z.of_nat (length ts) < 2 ^ 15 - 1 →
  is_struct_ref parent (t_ref parent) ∧ t_ref parent = Z.of_nat (length ts) + 1 ∧
  get_typetree_handle ts' (t_ref parent) = Ok (typetree_zero T_STRUCT).
Proof.
  intros [= <- <-] Hl. cbn [t_ref]. rewrite length_app. cbn [length].
  rewrite wrap_s_small by lia. split; [done|]. split; [lia|]. apply handle_ok; [lia|].
  replace (Z.to_nat (Z.of_nat (length ts + 1) - 1)) with (length ts) by lia.
  by rewrite lookup_app_r, Nat.sub_diag by lia.
Qed.

Lemma zero_layout fuel ts ref : get_typetree_handle ts ref = Ok (typetree_zero T_STRUCT) →
  layout_ok fuel ts ref (typetree_zero T_STRUCT).
Proof. intros Hh. split; try done; constructor. Qed.

Lemma step_layout fuel parent ts ts' t : (0 < fuel)%nat → is_struct_ref parent (t_ref parent) →
  struct_step fuel parent ts ts' → layout_ok fuel ts (t_ref parent) t →
  ∃ t', layout_ok fuel ts' (t_ref parent) t'.
Proof.
  intros Hf Hp Hs HL.
  assert (Hsm : small ts parent → tt_size t < 2 ^ 61).
  { intros (t0 & Ht0 & Hlt). rewrite (lo_handle _ _ _ _ HL) in Ht0. by injection Ht0 as <-. }
  destruct Hs as [ts name ty n ts' b Hsmall Hto Hn Hn0 H|ts name ty w ts' Hsmall Hen Hw H].
  - destruct (type_add_member_ok _ _ _ _ _ _ _ _ _ n HL Hp ltac:(pose proof (Hsm Hsmall); lia) Hto Hn Hn0 H)
      as (_ & t' & _ & _ & HL' & _). eauto.
  - destruct (type_add_field_ok fuel Hf 3 _ _ _ _ _ _ _ _ HL Hp ltac:(pose proof (Hsm Hsmall); lia) Hen Hw H)
      as (_ & t' & HL' & _). eauto.
Qed.

(** C10: the layout of every struct built from member and bit-field
    declarations and sealed: its members occupy disjoint, increasing ranges of
    bits inside its size, ordinary members are aligned, each field fits its
    backing integer, and the size is a multiple of the alignment, which is the
    largest of the members'. *)
Theorem struct_layout fuel ts0 ts1 ts2 ts3 parent :
  (0 < fuel)%nat → type_create ts0 T_STRUCT = (ts1, parent) → Z.of_nat (length ts0) < 2 ^ 15 - 1 →
  rtc (struct_step fuel parent) ts1 ts2 → small ts2 parent → type_seal fuel ts2 parent = Ok ts3 →
  ∃ t a, get_typetree_handle ts3 (t_ref parent) = Ok t ∧
    StronglySorted (λ m m', end_bit fuel ts3 m ≤ start_bit m') (tt_members t) ∧
    Forall (member_ok fuel ts3 (t_ref parent) (tt_size t)) (tt_members t) ∧
    Forall named (tt_members t) ∧
    type_alignment (S fuel) ts3 parent = Ok a ∧ 0 < a ∧ (a | tt_size t).
Proof.
  intros Hf Hc Hl Hsteps Hsmall Hseal.
  destruct (create_struct _ _ _ Hc Hl) as (Hp & _ & Hh).
  assert (HL2 : ∃ t, layout_ok fuel ts2 (t_ref parent) t).
  { assert (HL1 : ∃ t, layout_ok fuel ts1 (t_ref parent) t) by (eexists; by apply zero_layout).
    clear Hc Hh Hsmall Hseal. induction Hsteps as [|ts ts' ts'' Hs _ IH]; [done|].
    destruct HL1 as [t HL]. apply IH. by eapply step_layout. }
  destruct HL2 as [t HL]. destruct Hsmall as (t0 & Ht0 & Hlt).
  rewrite (lo_handle _ _ _ _ HL) in Ht0. injection Ht0 as <-.
  destruct (seal_ok fuel Hf _ _ _ _ _ HL Hp ltac:(lia) Hseal)
    as (Ha & t' & a & HL' & Hm & Hap & Hmax & Hdiv & _).
  exists t', a. split; [apply (lo_handle _ _ _ _ HL')|].
  split; [apply (lo_sorted _ _ _ _ HL')|]. split; [apply (lo_members _ _ _ _ HL')|].
  split; [rewrite Hm; apply Forall_forall; by intros m [? _]%list_elem_of_filter|].
  split; [|done]. destruct Hp as [Hty _]. cbn [type_alignment].
  assert (Ho : is_object parent = true) by (unfold is_object, is_function, type_is; by rewrite Hty).
  rewrite Ho, Hty, (lo_handle _ _ _ _ HL'). cbn [c_assert mbind outcome_bind].
  rewrite (max_alignment_spec fuel Hf _ _ _ a).
  - cbn. by destruct (Z.eqb_spec a 0); [lia|].
  - destruct Hmax as (Hle & Hge & Hat).
    pose proof (members_touch _ _ _ _ _ (lo_members _ _ _ _ HL)) as Ht2. rewrite Forall_forall in Ht2.
    assert (Hag : ∀ m, m ∈ tt_members t' → type_alignment fuel ts3 (m_type m) = type_alignment fuel ts2 (m_type m)).
    { intros m Hin. apply (alignment_agree _ (t_ref parent)); [done|]. apply Ht2.
      rewrite Hm in Hin. by apply list_elem_of_filter in Hin as [_ ?]. }
    split; [intros m Hin; rewrite (Hag m Hin); by apply Hle|]. split; [done|].
    destruct Hat as [?|(m & Hin & Hma)]; [by left|right]. exists m. by rewrite (Hag m Hin).
Qed.

(** struct { char tag; int a : 20; short b : 10; : 0; int *next; }. *)
Definition demo_name (s : string) : kstring := snd (str_init [] (cstr s)).
Definition demo_struct : ctype := Ctype T_STRUCT false false false false false false false false 1.
Definition demo_ptr : ctype := set_pointer basic_type__int true.
Definition ok_or {A} (d : A) (o : outcome A) : A := match o with Ok a => a | _ => d end.
Definition demo_ts1 := fst (type_create [] T_STRUCT).
Definition demo_ts2 := fst (ok_or ([], true) (type_add_member 3 demo_ts1 demo_struct (demo_name "tag") basic_type__char)).
Definition demo_ts3 := ok_or [] (type_add_field 3 3 demo_ts2 demo_struct (demo_name "a") basic_type__int 20).
Definition demo_ts4 := ok_or [] (type_add_field 3 3 demo_ts3 demo_struct (demo_name "b") basic_type__short 10).
Definition demo_ts5 := ok_or [] (type_add_field 3 3 demo_ts4 demo_struct str_zero basic_type__int 0).
Definition demo_ts6 := fst (ok_or ([], true) (type_add_member 3 demo_ts5 demo_struct (demo_name "next") demo_ptr)).
Definition demo_ts7 := ok_or [] (type_seal 3 demo_ts6 demo_struct).

Example demo_offsets :
  match get_typetree_handle demo_ts7 1 with
  | Ok t => (tt_size t, (λ m, (m_offset m, m_field_offset m, m_field_width m, m_field_backing m)) <$> tt_members t)
  | _ => (0, [])
  end = (16, [(0, 0, 0, 0); (4, 0, 20, 32); (4, 20, 10, 32); (8, 0, 0, 0)]).
Proof. vm_compute. reflexivity. Qed.

Ltac small_now := eexists; split; [vm_compute; reflexivity|vm_compute; reflexivity].

Lemma struct_layout_witness :
  ∃ t a, get_typetree_handle demo_ts7 (t_ref demo_struct) = Ok t ∧
    StronglySorted (λ m m', end_bit 3 demo_ts7 m ≤ start_bit m') (tt_members t) ∧
    Forall (member_ok 3 demo_ts7 (t_ref demo_struct) (tt_size t)) (tt_members t) ∧
    Forall named (tt_members t) ∧
    type_alignment 4 demo_ts7 demo_struct = Ok a ∧ 0 < a ∧ (a | tt_size t).
Proof.
  apply (struct_layout 3 [] demo_ts1 demo_ts6 demo_ts7 demo_struct);
    [lia|reflexivity|reflexivity| |small_now|vm_compute; reflexivity].
  eapply rtc_l; [eapply (step_member 3 demo_struct demo_ts1 (demo_name "tag") basic_type__char 1 demo_ts2 true);
    [small_now|reflexivity|reflexivity|lia|vm_compute; reflexivity]|].
  eapply rtc_l; [eapply (step_field 3 demo_struct demo_ts2 (demo_name "a") basic_type__int 20 demo_ts3);
    [small_now|by intros z [=]|lia|vm_compute; reflexivity]|].
  eapply rtc_l; [eapply (step_field 3 demo_struct demo_ts3 (demo_name "b") basic_type__short 10 demo_ts4);
    [small_now|by intros z [=]|lia|vm_compute; reflexivity]|].
  eapply rtc_l; [eapply (step_field 3 demo_struct demo_ts4 str_zero basic_type__int 0 demo_ts5);
    [small_now|by intros z [=]|lia|vm_compute; reflexivity]|].
  eapply rtc_l; [eapply (step_member 3 demo_struct demo_ts5 (demo_name "next") demo_ptr 8 demo_ts6 true);
    [small_now|reflexivity|reflexivity|lia|vm_compute; reflexivity]|].
  apply rtc_refl.
Defined.

(** An ordinary member goes to the first aligned offset behind the struct
    as it is, and the struct ends where the member does. *)
Theorem type_add_member_places fuel ts ref t parent name ty ts' b n a :
  layout_ok fuel ts ref t → is_struct_ref parent ref → tt_size t < 2 ^ 62 →
  touches fuel ts ref ty = false → size_of fuel ts ty = Ok n → 0 ≤ n →
  type_alignment fuel ts ty = Ok a → type_add_member fuel ts parent name ty = Ok (ts', b) →
  ∃ t' off, get_typetree_handle ts' ref = Ok t' ∧
    tt_members t' = tt_members t ++ [Member name ty off 0 0 0 None] ∧ tt_size t' = off + n ∧
    tt_size t ≤ off ∧ (a | off) ∧ ∀ k, tt_size t ≤ k → (a | k) → off ≤ k.
Proof.
  intros HL Hp Hmax Hto Hn Hn0 Ha H.
  destruct (type_add_member_ok _ _ _ _ _ _ _ _ _ n HL Hp Hmax Hto Hn Hn0 H)
    as (_ & t' & a' & off & HL' & Ha' & Hoff & Hdiv & Hm & Hs).
  assert (a' = a) as -> by congruence. exists t', off. split; [apply (lo_handle _ _ _ _ HL')|].
  split; [done|]. split; [done|]. split; [lia|]. split; [done|].
  intros k Hk [q ->]. destruct Hdiv as [q' ->].
  destruct (Z.le_gt_cases q' q); [nia|]. assert ((q + 1) * a ≤ q' * a) by nia. lia.
Qed.
Lemma type_add_member_places_witness :
  ∃ t' off, get_typetree_handle demo_ts2 1 = Ok t' ∧
    tt_members t' = tt_members (typetree_zero T_STRUCT) ++ [Member (demo_name "tag") basic_type__char off 0 0 0 None] ∧
    tt_size t' = off + 1 ∧ 0 ≤ off ∧ (1 | off) ∧ ∀ k, 0 ≤ k → (1 | k) → off ≤ k.
Proof.
  apply (type_add_member_places 3 demo_ts1 1 (typetree_zero T_STRUCT) demo_struct (demo_name "tag")
    basic_type__char demo_ts2 true 1 1); try (vm_compute; reflexivity); [|split; reflexivity|lia].
  apply zero_layout. reflexivity.
Defined.

(** ** Conversions *)

(** The usual arithmetic conversions of two promoted integer types (C11
    6.3.1.8), where the rank of a type is its width. *)
Definition unsigned_of (t : ity) : ity :=
  match t with I8 => U8 | I16 => U16 | I32 => U32 | I64 => U64 | t => t end.
Definition common_type (a b : ity) : ity :=
  if bool_decide (a = b) then a
  else if Bool.eqb (isigned a) (isigned b) then if iwidth a <? iwidth b then b else a
  else
    let '(u, s) := if isigned a then (b, a) else (a, b) in
    if iwidth s <=? iwidth u then u
    else if iwidth u <? iwidth s then s
    else unsigned_of s.

Definition unqualified (t : ctype) : Prop :=
  is_const t = false ∧ is_volatile t = false ∧ is_restrict t = false.

Definition real_type (t1 t2 : ctype) : option ctype :=
  if is_long_double t1 || is_long_double t2 then Some basic_type__long_double
  else if is_double t1 || is_double t2 then Some basic_type__double
  else if is_float t1 || is_float t2 then Some basic_type__float
  else None.

(** What is known of an integer type that is promoted. *)
Lemma promote_spec t : is_integer t = true → enumerated t → ∃ i t',
  ity_of t = Some i ∧ promote_integer t = Ok t' ∧ ity_of t' = Some (promote i) ∧
  size_of 1 [] t' = Ok (iwidth (promote i) / 8) ∧ is_unsigned t' = negb (isigned (promote i)).
Proof.
  unfold is_integer, between, enumerated, promote_integer, ity_of, is_unsigned, is_bool, type_is.
  intros [H1 H2]%andb_prop Hen. apply Z.leb_le in H1, H2.
  unfold is_integer, between. rewrite (proj2 (Z.leb_le _ _) H1), (proj2 (Z.leb_le _ _) H2).
  cbn [size_of c_assert mbind outcome_bind andb].
  unfold type_of in *. destruct t as [e u c v r p pc pv pr ref]; cbn in *.
  destruct p; [cbn in *; lia|].
  destruct e; cbn in H1, H2; try lia; try (exfalso; eapply Hen; reflexivity);
    destruct u; eexists _, _; repeat split.
Qed.

(** C35: the usual arithmetic conversions are those of the C standard, and the
    result carries no qualifier. *)
Theorem usual_arithmetic_conversion_correct t1 t2 : is_arithmetic t1 = true → is_arithmetic t2 = true →
  enumerated t1 → enumerated t2 → ∃ r, usual_arithmetic_conversion t1 t2 = Ok r ∧ unqualified r ∧
    match real_type t1 t2 with
    | Some rt => r = rt
    | None => ∃ i1 i2, ity_of t1 = Some i1 ∧ ity_of t2 = Some i2 ∧
        ity_of r = Some (common_type (promote i1) (promote i2))
    end.
Proof.
  intros H1 H2 He1 He2. unfold usual_arithmetic_conversion, real_type. rewrite H1, H2.
  cbn [c_assert mbind outcome_bind].
  destruct (is_long_double t1 || is_long_double t2) eqn:L; [by eexists|].
  destruct (is_double t1 || is_double t2) eqn:D; [by eexists|].
  destruct (is_float t1 || is_float t2) eqn:F; [by eexists|].
  assert (Hint : ∀ t, is_arithmetic t = true → enumerated t → is_long_double t = false →
    is_double t = false → is_float t = false → is_integer t = true).
  { intros t Ht He. unfold is_arithmetic, is_integer, is_long_double, is_double, is_float, type_is, between in *.
    apply andb_prop in Ht as [Ha Hb]. rewrite Ha. unfold enumerated in He.
    destruct (type_of t); try done; try (by destruct (He z)). }
  apply orb_false_iff in L as [L1 L2], D as [D1 D2], F as [F1 F2].
  destruct (promote_spec t1) as (i1 & p1 & Hi1 & Hp1 & Hq1 & Hs1 & Hu1); [by apply Hint|done|].
  destruct (promote_spec t2) as (i2 & p2 & Hi2 & Hp2 & Hq2 & Hs2 & Hu2); [by apply Hint|done|].
  rewrite Hp1, bind_ok, Hp2, bind_ok, Hs1, bind_ok, Hs2, bind_ok, Hu1.
  assert (Hrq : ∀ t, unqualified (remove_qualifiers t) ∧ ity_of (remove_qualifiers t) = ity_of t).
  { intros [e u c v r p pc pv pr ref]. unfold unqualified, ity_of, type_of, is_unsigned, is_bool, type_is, type_of.
    by destruct p. }
  assert (Hfin : ∀ p i, ity_of p = Some i → i = common_type (promote i1) (promote i2) →
    ∃ r, (res ← Ok p; Ok (remove_qualifiers res)) = Ok r ∧ unqualified r ∧
      ∃ i1' i2', ity_of t1 = Some i1' ∧ ity_of t2 = Some i2' ∧
        ity_of r = Some (common_type (promote i1') (promote i2'))).
  { intros p i Hp ->. exists (remove_qualifiers p). split; [done|]. destruct (Hrq p) as [? Hr].
    split; [done|]. exists i1, i2. by rewrite Hr, Hp. }
  destruct i1, i2; cbn -[mbind ity_of] in *; first [by eapply Hfin|idtac].
Qed.
Lemma usual_arithmetic_conversion_correct_witness :
  ∃ r, usual_arithmetic_conversion (type_set_const basic_type__long) basic_type__unsigned_int = Ok r ∧
    unqualified r ∧
    match real_type (type_set_const basic_type__long) basic_type__unsigned_int with
    | Some rt => r = rt
    | None => ∃ i1 i2, ity_of (type_set_const basic_type__long) = Some i1 ∧
        ity_of basic_type__unsigned_int = Some i2 ∧
        ity_of r = Some (common_type (promote i1) (promote i2))
    end.
Proof.
  apply usual_arithmetic_conversion_correct; [reflexivity|reflexivity|by intros z [=]|by intros z [=]].
Defined.

(** ** Pointers *)

Definition without_restrict (t : ctype) : ctype :=
  Ctype (t_type t) (t_unsigned t) (t_const t) (t_volatile t) (t_restrict t) (t_pointer t)
    (t_pointer_const t) (t_pointer_volatile t) false (t_ref t).
Definition no_pointer_qualifiers (t : ctype) : Prop :=
  t_pointer t = false →
  t_pointer_const t = false ∧ t_pointer_volatile t = false ∧ t_pointer_restrict t = false.

(** The target of a pointer to a type is that type, except that a
    [restrict] on the target is lost; no older entry of the table changes. *)
Theorem deref_pointer ts t ts' p : type_create_pointer ts t = Ok (ts', p) →
  Z.of_nat (length ts) < 2 ^ 15 - 1 → no_pointer_qualifiers t →
  type_deref ts' p = Ok (without_restrict t) ∧ is_pointer p = true ∧ ts `prefix_of` ts'.
Proof.
  intros H Hl Hq. unfold type_create_pointer in H. destruct t as [e u c v r pt pc pv pr ref].
  cbn [t_pointer] in H. destruct pt.
  - set (ts1 := ts ++ [typetree_zero T_POINTER]).
    assert (Hlen : Z.of_nat (length ts1) = Z.of_nat (length ts) + 1) by (unfold ts1; rewrite length_app; simpl; lia).
    unfold type_create in H. fold ts1 in H. cbn [t_ref] in H. rewrite wrap_s_small in H by lia.
    assert (Hg : get_typetree_handle ts1 (Z.of_nat (length ts1)) = Ok (typetree_zero T_POINTER)).
    { apply handle_ok; [lia|]. replace (Z.to_nat (Z.of_nat (length ts1) - 1)) with (length ts) by lia.
      unfold ts1. by rewrite lookup_app_r, Nat.sub_diag by lia. }
    rewrite Hg, bind_ok in H. injection H as <- <-. cbn.
    split; [|split; [done|]].
    + unfold type_deref. cbn. unfold get_type_handle. by rewrite (handle_put _ _ _ _ Hg).
    + unfold put. replace (Z.to_nat (Z.of_nat (length ts1) - 1)) with (length ts + 0)%nat by lia.
      unfold ts1. rewrite insert_app_r. by eexists.
  - injection H as <- <-. split; [|split; [done|done]]. destruct (Hq eq_refl) as (H1 & H2 & H3).
    cbn in *. by subst.
Qed.
(** int *restrict const. *)
Definition demo_restrict : ctype := Ctype T_INT false false false false true true false true 0.
Lemma deref_pointer_witness :
  let r := ok_or ([], type_zero) (type_create_pointer [] demo_restrict) in
  type_deref (fst r) (snd r) = Ok (without_restrict demo_restrict) ∧ is_pointer (snd r) = true ∧
  [] `prefix_of` fst r.
Proof.
  apply (deref_pointer [] demo_restrict); [reflexivity|reflexivity|by intros [=]].
Defined.

(** ** Where the equality of types fails *)

(** Two distinct types [struct list { struct list *next; }]. *)
Definition self_struct (ref : Z) : typetree :=
  tt_set_size (tt_set_members (typetree_zero T_STRUCT)
    [Member (demo_name "next") (Ctype T_STRUCT false false false false true false false false ref)
       0 0 0 0 None]) 8.
Definition self_types : typetab := [self_struct 1; self_struct 2].
Definition self_type (ref : Z) : ctype := Ctype T_STRUCT false false false false false false false false ref.

Lemma self_recursion fuel p : type_equal fuel self_types
  (Ctype T_STRUCT false false false false p false false false 1)
  (Ctype T_STRUCT false false false false p false false false 2) = out_of_depth.
Proof.
  revert p. induction fuel as [|fuel IH]; intros p; [done|].
  cbn [type_equal]. rewrite bool_decide_false by by intros [=].
  cbn [t_type t_unsigned t_ref]. rewrite bool_decide_true by done.
  change (get_typetree_handle self_types 1) with (Ok (self_struct 1)).
  change (get_typetree_handle self_types 2) with (Ok (self_struct 2)).
  cbn [negb orb andb Bool.eqb Z.eqb mbind outcome_bind].
  unfold typetree_equal. change (typetree_head_equal (self_struct 1) (self_struct 2)) with true.
  cbn [negb tt_members self_struct tt_set_size tt_set_members length Nat.eqb members_equal m_type].
  by rewrite IH.
Qed.

(** Comparing two distinct struct types that point to themselves and have
    the same members recurses without end: no depth is enough. *)
Theorem type_equal_diverges fuel :
  type_equal fuel self_types (self_type 1) (self_type 2) = out_of_depth.
Proof. apply self_recursion. Qed.

(** [type_equal] takes a basic type for the pointer to it, and two arrays
    of the same length for equal whatever their elements. *)
Theorem type_equal_ignores_structure fuel ts t :
  (t_ref t = 0 → t_pointer t = false → type_equal (S fuel) ts t (set_pointer t true) = Ok true) ∧
  (∀ r1 r2 h e1 e2, r1 ≠ 0 → r2 ≠ 0 → tt_members h = [] →
     get_typetree_handle ts r1 = Ok (tt_set_next h e1) →
     get_typetree_handle ts r2 = Ok (tt_set_next h e2) →
     type_equal (S fuel) ts (set_ref t r1) (set_ref t r2) = Ok true).
Proof.
  split.
  - intros Hr Hp. cbn. destruct (bool_decide (t = set_pointer t true)); [done|].
    rewrite bool_decide_true by done. rewrite Hr, eqb_reflx. done.
  - intros r1 r2 h e1 e2 H1 H2 Hm Hh1 Hh2. cbn.
    destruct (bool_decide (set_ref t r1 = set_ref t r2)); [done|].
    rewrite bool_decide_true by done. rewrite eqb_reflx.
    rewrite (proj2 (Z.eqb_neq _ _) H1), (proj2 (Z.eqb_neq _ _) H2), Hh1, Hh2. cbn.
    unfold typetree_equal, typetree_head_equal. cbn. rewrite bool_decide_true by done.
    by rewrite Z.eqb_refl, !eqb_reflx, Hm.
Qed.
Lemma type_equal_ignores_structure_witness :
  let a := tt_set_size (typetree_zero T_ARRAY) 3 in
  let ts := [tt_set_next a basic_type__int; tt_set_next a basic_type__char] in
  type_equal 1 ts basic_type__int (set_pointer basic_type__int true) = Ok true ∧
  type_equal 1 ts (set_ref (basic_type T_ARRAY false) 1) (set_ref (basic_type T_ARRAY false) 2) = Ok true.
Proof.
  split.
  - apply (type_equal_ignores_structure 0 _ basic_type__int); reflexivity.
  - eapply (type_equal_ignores_structure 0 _ (basic_type T_ARRAY false));
      [discriminate|discriminate| |reflexivity|reflexivity]. reflexivity.
Defined.

(** ** Where the layout is not that of C *)

Fixpoint build (fuel : nat) (ts : typetab) (parent : ctype) (l : list (string * ctype * option Z)) :
    outcome typetab :=
  match l with
  | [] => Ok ts
  | (n, ty, None) :: l =>
      '(ts, _) ← type_add_member fuel ts parent (demo_name n) ty; build fuel ts parent l
  | (n, ty, Some w) :: l =>
      ts ← type_add_field 3 fuel ts parent (demo_name n) ty w; build fuel ts parent l
  end.

Definition offsets (ts : typetab) (ref : Z) : list (Z * Z) :=
  match get_typetree_handle ts ref with
  | Ok t => (λ m, (m_offset m, m_field_width m)) <$> tt_members t
  | _ => []
  end.

(** a field of width 0 does not align what follows it: in
    [struct { int x; char a : 3; int : 0; char b; }] the member [b] has the
    offset 6, which is no multiple of the size of [int]. *)
Theorem zero_width_misaligned :
  (ts ← build 3 demo_ts1 demo_struct
          [("x"%string, basic_type__int, None); ("a"%string, basic_type__char, Some 3);
           (""%string, basic_type__int, Some 0); ("b"%string, basic_type__char, None)];
   Ok (last (offsets ts 1))) = Ok (Some (6, 0)).
Proof. vm_compute. reflexivity. Qed.

(** the bit-fields of an anonymous struct become ordinary members:
    [struct { struct { int a : 3; int b : 5; }; }] has two whole [int]
    members. *)
Theorem anonymous_struct_loses_fields :
  let '(ts, inner) := type_create [] T_STRUCT in
  (ts ← build 3 ts inner [("a"%string, basic_type__int, Some 3); ("b"%string, basic_type__int, Some 5)];
   let '(ts, outer) := type_create ts T_STRUCT in
   ts ← type_add_anonymous_member 3 ts outer inner;
   Ok (offsets ts (t_ref inner), offsets ts (t_ref outer)))
  = Ok ([(0, 3); (0, 5)], [(0, 0); (4, 0)]).
Proof. vm_compute. reflexivity. Qed.
