(* ===== verification/Symtab.v ===== *)
(** * The symbol table (src/parser/symtab.c, symtab.h)

    Symbols live in a store of their own; a namespace lists its symbols and
    keeps a stack of scopes, each with a hash table that is made, or emptied,
    only when the first symbol is added to it.  [symtab] is the state of the
    static variables of symtab.c with the store of symbols and the type table
    it changes; the size of the global area is in VmImage. *)

From stdpp Require Import base list gmap numbers decidable strings.
From Stdlib Require Import ZArith Lia.
From S2P Require Import Prelude CType CArith Strings Hash Symbol Typetree.

Local Open Scope Z_scope.

Definition PREFIX_TEMPORARY : list Z := [46; 116].
Definition PREFIX_UNNAMED : list Z := [46; 117].
Definition PREFIX_CONSTANT : list Z := [46; 67].
Definition PREFIX_STRING : list Z := [46; 76; 67].
Definition PREFIX_LABEL : list Z := [46; 76].
Definition PREFIX_TABLE : list Z := [46; 84].

(** [str_init] of a name; the copies of long names are kept to the end of the
    program. *)
Definition str_of (l : list Z) : kstring := snd (str_init [] l).

(** ** Names *)

(** [%d] of a number that is not negative. *)
Fixpoint decimal (fuel : nat) (n : Z) : list Z :=
  match fuel with
  | O => []
  | S fuel => (if n <? 10 then [] else decimal fuel (n / 10)) ++ [48 + n mod 10]
  end.
Definition print_d (n : Z) : list Z := if n <? 0 then 45 :: decimal 11 (- n) else decimal 11 n.

Definition sym_name (y : symbol) : outcome (list Z) :=
  let raw := str_raw (Symbol.sym_name y) in
  if sym_n y =? 0 then Ok raw
  else if 100 <? Z.of_nat (length raw) then Exit "Symbol name exceeds limit."
  else
    match raw with
    | 46 :: _ => Ok (raw ++ print_d (sym_n y))
    | _ => Ok (raw ++ [46] ++ print_d (sym_n y))
    end.
Definition is_temporary (y : symbol) : bool := bool_decide (str_raw (Symbol.sym_name y) = PREFIX_TEMPORARY).

(** ** Scopes and namespaces *)

(** A [struct symbol *] as an element of a hash table: the name of a symbol
    that a table refers to is not written any more, so it goes with the
    pointer ([sym_hash_key]). *)
Record sym_entry : Set := SymEntry { se_name : kstring; se_sym : symref }.
Definition sym_hash_key (e : sym_entry) : kstring := se_name e.
#[export] Instance sym_entry_ops : HashOps sym_entry := {
  hash_key := sym_hash_key;
  hash_add := id
}.

Inductive scope_state : Set := SCOPE_CREATED | SCOPE_DIRTY | SCOPE_INITIALIZED.
#[export] Instance scope_state_eq_dec : EqDecision scope_state.
Proof. solve_decision. Defined.

(** A zeroed [struct hash_table], whose [table] is NULL, is [None]. *)
Definition symbols_table : Type := option (hash_table sym_entry).

Record scope : Type := Scope { sc_table : symbols_table; sc_state : scope_state }.

(** [struct namespace]: [ns_scope] holds the entries of the array that were
    ever written, [ns_len] is its length. *)
Record namespace : Type := Namespace {
  ns_symbol : list symref;
  ns_scope : list scope;
  ns_len : nat;
  max_scope_depth : nat;
  ns_cursor : nat
}.
Definition namespace_zero : namespace := Namespace [] [] 0 0 0.

Inductive nsid : Set := NS_IDENT | NS_LABEL | NS_TAG.
#[export] Instance nsid_eq_dec : EqDecision nsid.
Proof. solve_decision. Defined.

(** The static [n] of each function that numbers symbols. *)
Inductive counter : Set :=
  | N_ADD | N_TEMPORARY | N_UNNAMED | N_LABEL | N_CONSTANT | N_STRING | N_TABLE.
#[export] Instance counter_eq_dec : EqDecision counter.
Proof. solve_decision. Defined.

Inductive decltype : Set := DECL_NORMAL | DECL_FUNCBODY.
#[export] Instance decltype_eq_dec : EqDecision decltype.
Proof. solve_decision. Defined.

Record symtab : Type := Symtab {
  sb_symbols : gmap symref symbol;
  sb_types : typetab;
  temporaries : list symref;
  string_types : list (Z * ctype);
  decl_memcpy : option symref;
  functions : symbols_table;
  functions_init : bool;
  ns_of : nsid → namespace;
  sb_n : counter → Z;
  sb_errors : list (list Z)
}.
Definition symtab_start : symtab :=
  Symtab ∅ [] [] [] None None false (λ _, namespace_zero) (λ _, 0) [].

Definition set_store (x : gmap symref symbol) (s : symtab) : symtab :=
  Symtab x (sb_types s) (temporaries s) (string_types s) (decl_memcpy s) (functions s)
    (functions_init s) (ns_of s) (sb_n s) (sb_errors s).
Definition set_types (x : typetab) (s : symtab) : symtab :=
  Symtab (sb_symbols s) x (temporaries s) (string_types s) (decl_memcpy s) (functions s)
    (functions_init s) (ns_of s) (sb_n s) (sb_errors s).
Definition set_temporaries (x : list symref) (s : symtab) : symtab :=
  Symtab (sb_symbols s) (sb_types s) x (string_types s) (decl_memcpy s) (functions s)
    (functions_init s) (ns_of s) (sb_n s) (sb_errors s).
Definition set_string_types (x : list (Z * ctype)) (s : symtab) : symtab :=
  Symtab (sb_symbols s) (sb_types s) (temporaries s) x (decl_memcpy s) (functions s)
    (functions_init s) (ns_of s) (sb_n s) (sb_errors s).
Definition set_memcpy (x : option symref) (s : symtab) : symtab :=
  Symtab (sb_symbols s) (sb_types s) (temporaries s) (string_types s) x (functions s)
    (functions_init s) (ns_of s) (sb_n s) (sb_errors s).
Definition set_functions (x : symbols_table) (init : bool) (s : symtab) : symtab :=
  Symtab (sb_symbols s) (sb_types s) (temporaries s) (string_types s) (decl_memcpy s) x
    init (ns_of s) (sb_n s) (sb_errors s).
Definition set_ns (id : nsid) (x : namespace) (s : symtab) : symtab :=
  Symtab (sb_symbols s) (sb_types s) (temporaries s) (string_types s) (decl_memcpy s) (functions s)
    (functions_init s) (λ i, if decide (i = id) then x else ns_of s i) (sb_n s) (sb_errors s).
Definition set_n (c : counter) (x : Z) (s : symtab) : symtab :=
  Symtab (sb_symbols s) (sb_types s) (temporaries s) (string_types s) (decl_memcpy s) (functions s)
    (functions_init s) (ns_of s) (λ i, if decide (i = c) then x else sb_n s i) (sb_errors s).
Definition report (name : list Z) (s : symtab) : symtab :=
  Symtab (sb_symbols s) (sb_types s) (temporaries s) (string_types s) (decl_memcpy s) (functions s)
    (functions_init s) (ns_of s) (sb_n s) (sb_errors s ++ [name]).

Definition ns_set_symbol (x : list symref) (ns : namespace) : namespace :=
  Namespace x (ns_scope ns) (ns_len ns) (max_scope_depth ns) (ns_cursor ns).
Definition ns_set_scope (x : list scope) (ns : namespace) : namespace :=
  Namespace (ns_symbol ns) x (ns_len ns) (max_scope_depth ns) (ns_cursor ns).
Definition ns_set_len (n : nat) (ns : namespace) : namespace :=
  Namespace (ns_symbol ns) (ns_scope ns) n (max_scope_depth ns) (ns_cursor ns).
Definition ns_set_cursor (n : nat) (ns : namespace) : namespace :=
  Namespace (ns_symbol ns) (ns_scope ns) (ns_len ns) (max_scope_depth ns) n.

(** ** Symbols of the store *)

Definition get_sym (s : symtab) (r : symref) : outcome symbol :=
  defined "access to a freed symbol" (sb_symbols s !! r).
Definition put_sym (r : symref) (y : symbol) (s : symtab) : symtab :=
  set_store (<[r := y]> (sb_symbols s)) s.

Definition with_type (t : ctype) (y : symbol) : symbol :=
  Symbol (Symbol.sym_name y) t (sym_symtype y) (sym_linkage y) (sym_referenced y) (sym_slot y)
    (sym_index y) (sym_n y) (sym_depth y) (sym_stack_offset y) (sym_global_offset y) (sym_value y).
Definition with_symtype (t : symtype) (y : symbol) : symbol :=
  Symbol (Symbol.sym_name y) (sym_type y) t (sym_linkage y) (sym_referenced y) (sym_slot y)
    (sym_index y) (sym_n y) (sym_depth y) (sym_stack_offset y) (sym_global_offset y) (sym_value y).
Definition with_linkage (l : linkage) (y : symbol) : symbol :=
  Symbol (Symbol.sym_name y) (sym_type y) (sym_symtype y) l (sym_referenced y) (sym_slot y)
    (sym_index y) (sym_n y) (sym_depth y) (sym_stack_offset y) (sym_global_offset y) (sym_value y).
Definition with_referenced (y : symbol) : symbol :=
  Symbol (Symbol.sym_name y) (sym_type y) (sym_symtype y) (sym_linkage y) 1 (sym_slot y)
    (sym_index y) (sym_n y) (sym_depth y) (sym_stack_offset y) (sym_global_offset y) (sym_value y).
Definition with_depth (d : Z) (y : symbol) : symbol :=
  Symbol (Symbol.sym_name y) (sym_type y) (sym_symtype y) (sym_linkage y) (sym_referenced y) (sym_slot y)
    (sym_index y) (sym_n y) d (sym_stack_offset y) (sym_global_offset y) (sym_value y).

(** A symbol as [calloc] or [memset] and [alloc_sym] leave it. *)
Definition blank_symbol : symbol :=
  Symbol str_zero type_zero SYM_DEFINITION LINK_NONE 0 0 0 0 0 0 (-1) NoValue.
(** The symbols that [sym_add] and the [sym_create] functions fill in; [n] and
    [depth] are 16-bit fields. *)
Definition new_symbol (name : kstring) (t : ctype) (st : symtype) (l : linkage) (n depth : Z)
    (v : symvalue) : symbol :=
  Symbol name t st l 0 0 0 (conv I16 n) (conv I16 depth) 0 (-1) v.

Definition alloc_sym (s : symtab) : outcome (symtab * symref) :=
  match last (temporaries s) with
  | Some r =>
      _ ← get_sym s r;
      Ok (put_sym r blank_symbol (set_temporaries (removelast (temporaries s)) s), r)
  | None =>
      let r := fresh (dom (sb_symbols s)) in Ok (put_sym r blank_symbol s, r)
  end.

(** [++n] on a static counter. *)
Definition next_n (c : counter) (s : symtab) : outcome (symtab * Z) :=
  n ← c_result I32 (sb_n s c + 1); Ok (set_n c n s, n).

(** ** Hash tables of symbols; [hash_walk] divides by the capacity *)

Definition table_lookup (t : symbols_table) (name : kstring) : outcome (option sym_entry) :=
  match t with Some tab => hash_lookup tab name | None => Undef "division by zero" end.
Definition table_insert (t : symbols_table) (e : sym_entry) : outcome symbols_table :=
  match t with
  | Some tab => '(tab, _) ← hash_insert tab e; Ok (Some tab)
  | None => Exit "assertion failed"
  end.
Definition table_clear (t : symbols_table) : outcome symbols_table :=
  match t with
  | Some tab => '(tab, _) ← hash_clear tab; Ok (Some tab)
  | None => Exit "assertion failed"
  end.
(** The table is freed and zeroed. *)
Definition table_destroy (t : symbols_table) : outcome symbols_table :=
  match t with
  | Some tab => _ ← hash_destroy tab; Ok None
  | None => Exit "assertion failed"
  end.
Definition table_init (cap : nat) : outcome symbols_table := tab ← hash_init cap; Ok (Some tab).

Definition sym_lookup_function (s : symtab) (name : kstring) : outcome (symtab * option symref) :=
  s ← (if functions_init s then Ok s
       else tab ← table_init 1024; Ok (set_functions tab true s));
  e ← table_lookup (functions s) name;
  Ok (s, option_map se_sym e).

(** [symtab_reset_buffers]. *)
Definition symtab_reset_buffers (s : symtab) : outcome symtab :=
  let reset id s := set_ns id (ns_set_cursor 0 (ns_of s id)) s in
  let s := reset NS_LABEL (reset NS_IDENT (reset NS_TAG s)) in
  let s := set_string_types [] (set_memcpy None s) in
  tab ← table_clear (functions s);
  Ok (set_functions tab (functions_init s) s).

(** [free] of the symbols of a list. *)
Fixpoint free_all (s : symtab) (l : list symref) : outcome symtab :=
  match l with
  | [] => Ok s
  | r :: l => _ ← get_sym s r; free_all (set_store (delete r (sb_symbols s)) s) l
  end.

Definition symtab_finalize (s : symtab) : outcome symtab :=
  s ← free_all s (temporaries s);
  let s := set_string_types [] (set_temporaries [] s) in
  if functions_init s then
    tab ← table_destroy (functions s); Ok (set_functions tab (functions_init s) s)
  else Ok s.

(** ** Scopes *)

(** [current_scope_hash_cap]. *)
Definition hash_cap : list nat := [256; 16; 128; 64; 32; 16]%nat.
Definition current_scope_hash_cap (ns : namespace) : outcome nat :=
  _ ← c_assert (negb (ns_len ns =? 0)%nat);
  if (ns_len ns <? length hash_cap)%nat
  then defined "beyond the array" (hash_cap !! (ns_len ns - 1)%nat)
  else Ok 8%nat.

Definition current_scope_depth (ns : namespace) : outcome Z :=
  _ ← c_assert (negb (ns_len ns =? 0)%nat);
  Ok (Z.of_nat (ns_len ns) - 1).

Definition push_scope_ns (ns : namespace) : outcome namespace :=
  if (ns_len ns <? max_scope_depth ns)%nat then
    sc ← defined "beyond the array" (ns_scope ns !! ns_len ns);
    let sc := match sc_state sc with
              | SCOPE_INITIALIZED => Scope (sc_table sc) SCOPE_DIRTY
              | _ => sc
              end in
    Ok (ns_set_len (S (ns_len ns)) (ns_set_scope (<[ns_len ns := sc]> (ns_scope ns)) ns))
  else
    Ok (Namespace (ns_symbol ns) (take (ns_len ns) (ns_scope ns) ++ [Scope None SCOPE_CREATED])
          (S (ns_len ns)) (S (max_scope_depth ns)) (ns_cursor ns)).
Definition push_scope (s : symtab) (id : nsid) : outcome symtab :=
  ns ← push_scope_ns (ns_of s id); Ok (set_ns id ns s).

(** The loop of [pop_scope] over the scopes that were ever pushed. *)
Fixpoint destroy_scopes (l : list scope) : outcome unit :=
  match l with
  | [] => Ok tt
  | sc :: l =>
      _ ← (if bool_decide (sc_state sc = SCOPE_CREATED) then Ok None
           else table_destroy (sc_table sc));
      destroy_scopes l
  end.

(** Its loop over the symbols; an undefined label is reported. *)
Fixpoint free_symbols (id : nsid) (s : symtab) (l : list symref) : outcome symtab :=
  match l with
  | [] => Ok s
  | r :: l =>
      y ← get_sym s r;
      s ← (if bool_decide (id = NS_LABEL) && bool_decide (sym_symtype y = SYM_TENTATIVE) then
             n ← sym_name y; Ok (report n s)
           else Ok s);
      free_symbols id (set_store (delete r (sb_symbols s)) s) l
  end.

Definition pop_scope (s : symtab) (id : nsid) : outcome symtab :=
  let ns := ns_of s id in
  _ ← c_assert (negb (ns_len ns =? 0)%nat);
  if (ns_len ns =? 1)%nat then
    _ ← destroy_scopes (take (max_scope_depth ns) (ns_scope ns));
    let ns := Namespace (ns_symbol ns) [] 0 0 (ns_cursor ns) in
    s ← free_symbols id (set_ns id ns s) (ns_symbol ns);
    let s := set_ns id (ns_set_symbol [] ns) s in
    if bool_decide (id = NS_IDENT) then symtab_reset_buffers s else Ok s
  else Ok (set_ns id (ns_set_len (ns_len ns - 1) ns) s).

(** The loop of [sym_lookup], from scope [i - 1] down. *)
Fixpoint lookup_scopes (scopes : list scope) (i : nat) (name : kstring) : outcome (option sym_entry) :=
  match i with
  | O => Ok None
  | S i =>
      sc ← defined "beyond the array" (scopes !! i);
      match sc_state sc with
      | SCOPE_INITIALIZED =>
          e ← table_lookup (sc_table sc) name;
          match e with Some e => Ok (Some e) | None => lookup_scopes scopes i name end
      | _ => lookup_scopes scopes i name
      end
  end.
Definition sym_lookup (s : symtab) (id : nsid) (name : kstring) : outcome (symtab * option symref) :=
  e ← lookup_scopes (ns_scope (ns_of s id)) (ns_len (ns_of s id)) name;
  match e with
  | Some e => y ← get_sym s (se_sym e); Ok (put_sym (se_sym e) (with_referenced y) s, Some (se_sym e))
  | None => Ok (s, None)
  end.

(** The innermost scope, made ready for a symbol. *)
Definition ready_scope (ns : namespace) : outcome symbols_table :=
  sc ← defined "outside of the array"
         (match ns_len ns with O => None | S i => ns_scope ns !! i end);
  match sc_state sc with
  | SCOPE_CREATED => cap ← current_scope_hash_cap ns; table_init cap
  | SCOPE_DIRTY => table_clear (sc_table sc)
  | SCOPE_INITIALIZED => Ok (sc_table sc)
  end.
Definition sym_make_visible (s : symtab) (id : nsid) (r : symref) : outcome symtab :=
  let ns := ns_of s id in
  tab ← ready_scope ns;
  y ← get_sym s r;
  tab ← table_insert tab (SymEntry (Symbol.sym_name y) r);
  Ok (set_ns id (ns_set_scope (<[(ns_len ns - 1)%nat := Scope tab SCOPE_INITIALIZED]> (ns_scope ns)) ns) s).

(** ** Declarations *)

Section symtab.
(** The depth to which types are compared. *)
Variable depth : nat.

(** The type of a string literal, from the cache or new. *)
Fixpoint cached_type (l : list (Z * ctype)) (len : Z) : option ctype :=
  match l with
  | [] => None
  | (n, t) :: l => if n =? len then Some t else cached_type l len
  end.
Definition get_string_type (s : symtab) (len : Z) : outcome (symtab * ctype) :=
  match cached_type (string_types s) len with
  | Some t => Ok (s, t)
  | None =>
      '(ts, t) ← type_create_array depth (sb_types s) basic_type__char len;
      Ok (set_string_types (string_types s ++ [(len, t)]) (set_types ts s), t)
  end.

(** The part of [sym_apply_type] before the final comparison; the flag tells
    whether it returned. *)
Definition complete_type (s : symtab) (r : symref) (t : ctype) : outcome (symtab * bool) :=
  y ← get_sym s r;
  let ts := sb_types s in
  fn ← (if is_function (sym_type y) && is_function t then
          n1 ← type_next ts (sym_type y); n2 ← type_next ts t; type_equal depth ts n1 n2
        else Ok false);
  if (fn : bool) then
    c1 ← is_complete ts (sym_type y);
    c2 ← is_complete ts t;
    replace ← (if negb c1 then Ok true
               else if (c2 : bool) then is_compatible depth ts (sym_type y) t else Ok false);
    if (replace : bool) then Ok (put_sym r (with_type t y) s, false) else Ok (s, negb c2)
  else if is_array (sym_type y) && is_array t then
    n1 ← type_next ts (sym_type y);
    n2 ← type_next ts t;
    e ← type_equal depth ts n1 n2;
    if negb e then Ok (s, false)
    else
      c1 ← is_complete ts (sym_type y);
      c2 ← is_complete ts t;
      if negb c1 && (c2 : bool) then
        len ← type_array_len ts t;
        ts ← set_array_length ts (sym_type y) len;
        Ok (set_types ts s, false)
      else Ok (s, negb c2)
  else Ok (s, false).

Definition sym_apply_type (s : symtab) (r : symref) (t : ctype) : outcome symtab :=
  '(s, returned) ← complete_type s r t;
  if (returned : bool) then Ok s
  else
    y ← get_sym s r;
    e ← type_equal depth (sb_types s) (sym_type y) t;
    if (e : bool) then Ok s else Exit "declared with different types".

(** The first switch of [sym_redeclare]. *)
Definition redeclare_linkage (s : symtab) (r : symref) (id : nsid) (st : symtype) (lk : linkage) :
    outcome symtab :=
  y ← get_sym s r;
  match lk with
  | LINK_INTERN =>
      if bool_decide (sym_linkage y = LINK_EXTERN) then Exit "previously defined non-static"
      else Ok (put_sym r (with_linkage LINK_INTERN y) s)
  | LINK_EXTERN =>
      if bool_decide (sym_linkage y = LINK_INTERN)
         && (bool_decide (st = SYM_DEFINITION) || bool_decide (st = SYM_TENTATIVE))
      then Exit "previously declared static" else Ok s
  | LINK_NONE =>
      d ← current_scope_depth (ns_of s id);
      if (wrap_u 32 (sym_depth y) =? d) && negb (sym_depth y =? 0) then Exit "Duplicate definition"
      else Ok s
  end.

(** A tentative definition or declaration of a symbol. *)
Definition redeclare_object (s : symtab) (r : symref) (t : ctype) (dt : decltype) : outcome symtab :=
  y ← get_sym s r;
  if bool_decide (sym_symtype y = SYM_DEFINITION) then
    e ← type_equal depth (sb_types s) (sym_type y) t;
    if negb e then Exit "redeclared with different type"
    else if is_function (sym_type y) && bool_decide (dt = DECL_FUNCBODY)
    then Exit "The function already has a body"
    else Ok s
  else sym_apply_type s r t.

Definition sym_redeclare (s : symtab) (r : symref) (id : nsid) (t : ctype) (st : symtype)
    (lk : linkage) (dt : decltype) : outcome symtab :=
  s ← redeclare_linkage s r id st lk;
  y ← get_sym s r;
  match st with
  | SYM_TENTATIVE =>
      redeclare_object
        (if bool_decide (sym_symtype y = SYM_DECLARATION)
         then put_sym r (with_symtype SYM_TENTATIVE y) s else s) r t dt
  | SYM_DECLARATION => redeclare_object s r t dt
  | SYM_DEFINITION => sym_apply_type (put_sym r (with_symtype SYM_DEFINITION y) s) r t
  | SYM_TAG | SYM_TYPEDEF | SYM_CONSTANT =>
      e ← (if bool_decide (sym_symtype y = st) then type_equal depth (sb_types s) (sym_type y) t
           else Ok false);
      if (e : bool) then Ok s else Exit "Conflicting declaration"
  | SYM_LABEL | SYM_STRING_VALUE => Exit "assertion failed"
  | SYM_TABLE | SYM_TABLE_ENTRY => Ok s
  end.

(** The registration of a new symbol, the end of [sym_add]. *)
Definition sym_register (s : symtab) (id : nsid) (name : kstring) (t : ctype) (st : symtype)
    (lk : linkage) (d : Z) : outcome (symtab * symref) :=
  '(s, r) ← alloc_sym s;
  '(s, n) ← (if bool_decide (lk = LINK_INTERN) && negb (conv I16 d =? 0) then next_n N_ADD s
             else Ok (s, 0));
  let s := put_sym r (new_symbol name t st lk n d NoValue) s in
  let s := if bool_decide (decl_memcpy s = None) && (str_cmp (str_of (cstr "memcpy")) name =? 0)
           then set_memcpy (Some r) s else s in
  s ← (if bool_decide (st = SYM_TAG) || bool_decide (st = SYM_TYPEDEF) then
         ts ← type_set_tag (sb_types s) t r st; Ok (set_types ts s)
       else Ok s);
  let s := set_ns id (ns_set_symbol (ns_symbol (ns_of s id) ++ [r]) (ns_of s id)) s in
  s ← sym_make_visible s id r;
  s ← (if negb (bool_decide (st = SYM_TYPEDEF)) && is_function t then
         tab ← table_insert (functions s) (SymEntry name r);
         Ok (set_functions tab (functions_init s) s)
       else Ok s);
  Ok (s, r).

(** A function that was declared before, in a scope that may be gone. *)
Definition resolve_function (s : symtab) (id : nsid) (r : symref) (t : ctype) (d : Z) : outcome symtab :=
  s ← sym_apply_type s r t;
  s ← sym_make_visible s id r;
  y ← get_sym s r;
  Ok (if d <? wrap_u 32 (sym_depth y) then put_sym r (with_depth (conv I16 d) y) s else s).

Definition sym_add (s : symtab) (id : nsid) (name : kstring) (t : ctype) (st : symtype)
    (lk : linkage) (dt : decltype) : outcome (symtab * symref) :=
  _ ← c_assert (negb (bool_decide (st = SYM_LABEL)));
  _ ← c_assert (negb (bool_decide (st = SYM_TAG)) || bool_decide (id = NS_TAG));
  '(s, found) ← sym_lookup s id name;
  d ← current_scope_depth (ns_of s id);
  match found with
  | None =>
      if negb (bool_decide (st = SYM_TYPEDEF)) && is_function t then
        _ ← c_assert (bool_decide (id = NS_IDENT));
        '(s, fn) ← sym_lookup_function s name;
        match fn with
        | Some r => s ← resolve_function s id r t d; Ok (s, r)
        | None => sym_register s id name t st lk d
        end
      else sym_register s id name t st lk d
  | Some r =>
      y ← get_sym s r;
      if ((d =? 0) || bool_decide (lk = LINK_EXTERN)) && (sym_depth y =? 0) then
        s ← sym_redeclare s r id t st lk dt; Ok (s, r)
      else sym_register s id name t st lk d
  end.

(** ** Generated symbols *)

(** The symbol of a [sym_create] function, and its place in [ns_ident]. *)
Definition sym_create (s : symtab) (c : counter) (name : list Z) (t : ctype) (st : symtype)
    (lk : linkage) (v : symvalue) : outcome (symtab * symref) :=
  '(s, r) ← alloc_sym s;
  '(s, n) ← next_n c s;
  Ok (put_sym r (new_symbol (str_of name) t st lk n 0 v) s, r).
Definition list_symbol (r : symref) (s : symtab) : symtab :=
  set_ns NS_IDENT (ns_set_symbol (ns_symbol (ns_of s NS_IDENT) ++ [r]) (ns_of s NS_IDENT)) s.

Definition sym_create_temporary (s : symtab) (t : ctype) : outcome (symtab * symref) :=
  sym_create s N_TEMPORARY PREFIX_TEMPORARY t SYM_DEFINITION LINK_NONE NoValue.
Definition sym_create_unnamed (s : symtab) (t : ctype) : outcome (symtab * symref) :=
  d ← current_scope_depth (ns_of s NS_IDENT);
  '(s, r) ← sym_create s N_UNNAMED PREFIX_UNNAMED t SYM_DEFINITION
              (if d =? 0 then LINK_INTERN else LINK_NONE) NoValue;
  Ok (list_symbol r s, r).
Definition sym_create_label (s : symtab) : outcome (symtab * symref) :=
  sym_create s N_LABEL PREFIX_LABEL basic_type__void SYM_LABEL LINK_INTERN NoValue.
Definition sym_create_constant (s : symtab) (t : ctype) (val : Z) : outcome (symtab * symref) :=
  '(s, r) ← sym_create s N_CONSTANT PREFIX_CONSTANT t SYM_CONSTANT LINK_INTERN (ConstantValue val);
  Ok (list_symbol r s, r).
Definition sym_create_string (s : symtab) (str : kstring) : outcome (symtab * symref) :=
  '(s, t) ← get_string_type s (s_len str + 1);
  '(s, r) ← sym_create s N_STRING PREFIX_STRING t SYM_STRING_VALUE LINK_INTERN (StringValue str);
  Ok (list_symbol r s, r).
Definition sym_create_table (s : symtab) : outcome (symtab * symref) :=
  '(s, r) ← sym_create s N_TABLE PREFIX_TABLE type_zero SYM_TABLE LINK_INTERN NoValue;
  Ok (list_symbol r s, r).
Definition sym_create_table_entry (s : symtab) (base : symref) : outcome (symtab * symref) :=
  '(s, r) ← alloc_sym s;
  b ← get_sym s base;
  _ ← c_assert (bool_decide (sym_symtype b = SYM_LABEL));
  n ← sym_name b;
  let s := put_sym r (new_symbol (str_of n) basic_type__void SYM_TABLE_ENTRY LINK_INTERN 0 0 NoValue) s in
  Ok (list_symbol r s, r).

Definition sym_discard (s : symtab) (r : symref) : symtab :=
  set_temporaries (temporaries s ++ [r]) s.

(** ** Declarations left for the back end *)

Definition yielded (s : symtab) (r : symref) (y : symbol) : bool :=
  match sym_symtype y with
  | SYM_TENTATIVE | SYM_STRING_VALUE => true
  | SYM_CONSTANT => is_real (sym_type y)
  | SYM_DECLARATION =>
      bool_decide (sym_linkage y = LINK_EXTERN)
      && (negb (sym_referenced y =? 0) || bool_decide (decl_memcpy s = Some r))
  | _ => false
  end.
(** The loop of [yield_declaration] over the symbols from the cursor on. *)
Fixpoint yield_from (s : symtab) (l : list symref) (cursor : nat) : outcome (nat * option symref) :=
  match l with
  | [] => Ok (cursor, None)
  | r :: l =>
      y ← get_sym s r;
      if yielded s r y then Ok (S cursor, Some r) else yield_from s l (S cursor)
  end.
Definition yield_declaration (s : symtab) (id : nsid) : outcome (symtab * option symref) :=
  let ns := ns_of s id in
  '(cursor, o) ← yield_from s (drop (ns_cursor ns) (ns_symbol ns)) (ns_cursor ns);
  Ok (set_ns id (ns_set_cursor cursor ns) s, o).

End symtab.
