(* ===== verification/SymtabProps.v ===== *)
(** * Scopes as environments

    A namespace stands for a list of finite maps from names to symbols, the
    innermost first: what the lazily made and emptied hash tables of its scopes
    hold, and what pushing, popping, binding and looking up do to it. *)

From stdpp Require Import base list gmap numbers decidable strings.
From Stdlib Require Import ZArith Lia.
From S2P Require Import Prelude CType CArith Strings Hash HashProps HashFree Symbol Typetree Symtab.

Local Open Scope Z_scope.

#[export, program] Instance sym_entry_laws : HashLaws sym_entry := {
  elem_ok e := wf_string (se_name e)
}.
Next Obligation. done. Qed.
Next Obligation. done. Qed.
Next Obligation. done. Qed.

(** ** Environments *)

Abbreviation bindings := (gmap (list Z) symref).

Fixpoint env_lookup (env : list bindings) (k : list Z) : option symref :=
  match env with
  | [] => None
  | m :: env => match m !! k with Some r => Some r | None => env_lookup env k end
  end.

(** A name that is bound in a scope keeps its symbol. *)
Definition bind (m : bindings) (k : list Z) (r : symref) : bindings :=
  match m !! k with Some _ => m | None => <[k := r]> m end.
Definition env_bind (env : list bindings) (k : list Z) (r : symref) : list bindings :=
  match env with [] => [] | m :: env => bind m k r :: env end.

Lemma env_lookup_bind m env k r : m !! k = None → env_lookup (env_bind (m :: env) k r) k = Some r.
Proof. intros Hm. cbn. unfold bind. by rewrite Hm, lookup_insert_eq. Qed.

Lemma env_lookup_bind_other m env k k' r : k' ≠ k →
  env_lookup (env_bind (m :: env) k r) k' = env_lookup (m :: env) k'.
Proof. intros Hk. cbn. unfold bind. destruct (m !! k); [done|]. by rewrite lookup_insert_ne. Qed.

Lemma bind_lookup_Some m k r k' r' : bind m k r !! k' = Some r' →
  m !! k' = Some r' ∨ (k' = k ∧ r' = r).
Proof.
  unfold bind. destruct (m !! k) eqn:E; [by left|].
  rewrite lookup_insert_Some. intros [[? ?]|[_ ?]]; [right|left]; by subst.
Qed.

Lemma env_lookup_elem env k r : env_lookup env k = Some r → ∃ m, m ∈ env ∧ m !! k = Some r.
Proof.
  induction env as [|m env IH]; cbn; [done|]. destruct (m !! k) eqn:E.
  - intros [= <-]. exists m. split; [constructor|done].
  - intros H. destruct (IH H) as (m' & ? & ?). exists m'. by split; [constructor|].
Qed.

(** ** Tables and scopes *)

Definition table_holds (t : symbols_table) (m : bindings) : Prop :=
  ∃ tab me, t = Some tab ∧ represents tab me ∧ m = se_sym <$> me.

Definition scope_holds (sc : scope) (m : bindings) : Prop :=
  match sc_state sc with
  | SCOPE_CREATED => m = ∅
  | SCOPE_DIRTY => m = ∅ ∧ ∃ m', table_holds (sc_table sc) m'
  | SCOPE_INITIALIZED => table_holds (sc_table sc) m
  end.
Definition scope_ok (sc : scope) : Prop := ∃ m, scope_holds sc m.

Record ns_holds (ns : namespace) (env : list bindings) : Prop := {
  nh_max : length (ns_scope ns) = max_scope_depth ns;
  nh_len : ns_len ns = length env;
  nh_le : (ns_len ns ≤ max_scope_depth ns)%nat;
  nh_scopes : Forall2 scope_holds (reverse (take (ns_len ns) (ns_scope ns))) env;
  nh_stale : Forall scope_ok (drop (ns_len ns) (ns_scope ns))
}.

Lemma table_lookup_ok t m name : table_holds t m → wf_string name →
  ∃ e, table_lookup t name = Ok e ∧ option_map se_sym e = m !! str_raw name.
Proof.
  intros (tab & me & -> & Hr & ->) Hw. exists (me !! str_raw name). split.
  - by apply lookup_spec.
  - rewrite lookup_fmap. by destruct (me !! str_raw name).
Qed.

Lemma table_insert_ok t m name r : table_holds t m → wf_string name →
  ∃ t', table_insert t (SymEntry name r) = Ok t' ∧ table_holds t' (bind m (str_raw name) r).
Proof.
  intros (tab & me & -> & Hr & ->) Hw.
  destruct (insert_spec (HL := sym_entry_laws) tab me (SymEntry name r) Hr Hw) as (tab' & Hi & Hr'). unfold table_insert.
  rewrite Hi. exists (Some tab'). split; [done|]. eexists tab', _. split; [done|]. split; [exact Hr'|].
  unfold insert_result, bind, raw_key. cbn [hash_key hash_add sym_entry_ops sym_hash_key se_name].
  rewrite lookup_fmap. destruct (me !! str_raw name); [done|]. cbn. by rewrite fmap_insert.
Qed.

Lemma table_clear_ok t m : table_holds t m → ∃ t', table_clear t = Ok t' ∧ table_holds t' ∅.
Proof.
  intros (tab & me & -> & Hr & ->). destruct (clear_spec tab me Hr) as (tab' & ds & Hc & Hr' & _).
  unfold table_clear. rewrite Hc. exists (Some tab'). split; [done|]. exists tab', ∅. done.
Qed.

Lemma table_init_ok cap : (0 < cap)%nat → ∃ t, table_init cap = Ok t ∧ table_holds t ∅.
Proof.
  intros Hc. destruct (init_spec (A := sym_entry) cap Hc) as (tab & Hi & _ & Hr). unfold table_init.
  rewrite Hi. exists (Some tab). split; [done|]. by exists tab, ∅.
Qed.

Lemma table_destroy_ok t m : table_holds t m → table_destroy t = Ok None.
Proof.
  intros (tab & me & -> & Hr & _). destruct (destroy_spec tab me Hr) as (ds & Hd & _).
  unfold table_destroy. by rewrite Hd.
Qed.

Lemma hash_cap_ok ns : ns_len ns ≠ 0%nat → ∃ cap, current_scope_hash_cap ns = Ok cap ∧ (0 < cap)%nat.
Proof.
  intros Hn. unfold current_scope_hash_cap. rewrite (proj2 (Nat.eqb_neq _ _) Hn). cbn [negb c_assert mbind outcome_bind].
  destruct (Nat.ltb_spec (ns_len ns) (length hash_cap)) as [Hl|].
  - destruct (lookup_lt_is_Some_2 hash_cap (ns_len ns - 1)) as [c Hc]; [lia|]. rewrite Hc. exists c.
    split; [done|]. assert (Hall : Forall (λ c, 0 < c)%nat hash_cap) by (repeat constructor; lia).
    by apply (Forall_lookup_1 _ _ _ _ Hall Hc).
  - exists 8%nat. split; [done|lia].
Qed.

(** ** Operations of a namespace *)

Lemma holds_length ns env : ns_holds ns env → length (ns_scope ns) = max_scope_depth ns ∧
  ns_len ns = length env ∧ (length env ≤ max_scope_depth ns)%nat.
Proof. intros [? Hl ? _ _]. rewrite <-Hl. done. Qed.

Lemma namespace_zero_holds : ns_holds namespace_zero [].
Proof. split; done. Qed.

Lemma holds_same ns ns' env : ns_scope ns' = ns_scope ns → ns_len ns' = ns_len ns →
  max_scope_depth ns' = max_scope_depth ns → ns_holds ns env → ns_holds ns' env.
Proof. intros H1 H2 H3 [? ? ? ? ?]. split; by rewrite ?H1, ?H2, ?H3. Qed.

(** The innermost scope. *)
Lemma holds_inner ns m env : ns_holds ns (m :: env) → ∃ sc, ns_len ns = S (length env) ∧
  ns_scope ns !! length env = Some sc ∧ scope_holds sc m ∧
  Forall2 scope_holds (reverse (take (length env) (ns_scope ns))) env.
Proof.
  intros [Hm Hl Hle Hs _]. cbn in Hl. rewrite Hl in Hs.
  destruct (lookup_lt_is_Some_2 (ns_scope ns) (length env)) as [sc Hsc]; [lia|].
  rewrite (take_S_r _ _ _ Hsc), reverse_app in Hs. cbn in Hs. inversion Hs; subst. by exists sc.
Qed.

Lemma lookup_scopes_ok name env scopes : wf_string name →
  Forall2 scope_holds (reverse (take (length env) scopes)) env → (length env ≤ length scopes)%nat →
  ∃ e, lookup_scopes scopes (length env) name = Ok e ∧
    option_map se_sym e = env_lookup env (str_raw name).
Proof.
  intros Hw. induction env as [|m env IH]; intros Hs Hl; cbn in Hl |- *; [by exists None|].
  destruct (lookup_lt_is_Some_2 scopes (length env)) as [sc Hsc]; [lia|].
  cbn [length] in Hs. rewrite (take_S_r _ _ _ Hsc), reverse_app in Hs. cbn in Hs.
  inversion_clear Hs as [|? ? ? ? Hh Hs']. rewrite Hsc. cbn.
  destruct (IH Hs' ltac:(lia)) as (e & He & Henv). unfold scope_holds in Hh.
  destruct (sc_state sc).
  - subst m. rewrite lookup_empty. eauto.
  - destruct Hh as [-> _]. rewrite lookup_empty. eauto.
  - destruct (table_lookup_ok _ _ name Hh Hw) as (e' & -> & He'). cbn. rewrite <-He'.
    destruct e' as [e'|]; cbn; eauto.
Qed.

Lemma push_ok ns env : ns_holds ns env → ∃ ns', push_scope_ns ns = Ok ns' ∧ ns_holds ns' (∅ :: env) ∧
  ns_symbol ns' = ns_symbol ns ∧ ns_cursor ns' = ns_cursor ns.
Proof.
  intros [Hm Hl Hle Hs Ht]. unfold push_scope_ns.
  destruct (Nat.ltb_spec (ns_len ns) (max_scope_depth ns)) as [Hlt|Hge].
  - destruct (lookup_lt_is_Some_2 (ns_scope ns) (ns_len ns)) as [sc Hsc]; [lia|]. rewrite Hsc. cbn.
    eexists. split; [done|]. split; [|done]. set (sc' := match sc_state sc with SCOPE_INITIALIZED => _ | _ => sc end).
    rewrite (drop_S _ _ _ Hsc) in Ht. apply Forall_cons in Ht as [Hsc0 Ht].
    assert (Hh : scope_holds sc' ∅).
    { destruct Hsc0 as [m0 Hm0]. unfold sc', scope_holds in *. destruct (sc_state sc) eqn:E; cbn; rewrite ?E; [done| |by eauto].
      split; [done|]. by destruct Hm0. }
    split; cbn -[reverse take drop]; [by rewrite length_insert|lia|lia| |].
    + rewrite (take_S_r _ _ sc'), reverse_app by (apply list_lookup_insert_eq; lia).
      cbn. constructor; [done|]. by rewrite take_insert_ge.
    + by rewrite drop_insert_lt by lia.
  - eexists. split; [done|]. split; [|done]. rewrite take_ge by lia. rewrite take_ge in Hs by lia.
    split; cbn -[reverse take drop]; [rewrite length_app; cbn; lia|lia|lia| |].
    + rewrite take_ge by (rewrite length_app; cbn; lia). rewrite reverse_app. cbn. by constructor.
    + rewrite drop_ge; [done|]. rewrite length_app. cbn. lia.
Qed.

Lemma pop_ok ns m env : ns_holds ns (m :: env) → ns_holds (ns_set_len (ns_len ns - 1) ns) env.
Proof.
  intros Hn. destruct (holds_inner ns m env Hn) as (sc & Hl & Hsc & Hh & Hs). destruct Hn as [Hm _ Hle _ Ht].
  rewrite Hl in *. split; cbn -[reverse take drop]; [done|lia|lia| |].
  - by rewrite Nat.sub_0_r.
  - rewrite Nat.sub_0_r, (drop_S _ _ _ Hsc). constructor; [by exists m|done].
Qed.

Lemma ready_ok ns m env : ns_holds ns (m :: env) → ∃ t, ready_scope ns = Ok t ∧ table_holds t m.
Proof.
  intros Hn. destruct (holds_inner ns m env Hn) as (sc & Hl & Hsc & Hh & _). unfold ready_scope.
  rewrite Hl, Hsc. cbn. unfold scope_holds in Hh. destruct (sc_state sc).
  - subst m. destruct (hash_cap_ok ns) as (cap & -> & Hc); [lia|]. cbn. by apply table_init_ok.
  - destruct Hh as [-> [m' Hm']]. by apply (table_clear_ok _ m').
  - eauto.
Qed.

(** Storing a table in the innermost scope. *)
Lemma store_ok ns m m' env t : ns_holds ns (m :: env) → table_holds t m' →
  ns_holds (ns_set_scope (<[(ns_len ns - 1)%nat := Scope t SCOPE_INITIALIZED]> (ns_scope ns)) ns) (m' :: env).
Proof.
  intros Hn Ht. destruct (holds_inner ns m env Hn) as (sc & Hl & Hsc & Hh & Hs). destruct Hn as [Hm _ Hle _ Hst].
  split; cbn -[reverse take drop]; rewrite ?Hl, ?Nat.sub_0_r; cbn [Nat.sub]; rewrite ?Nat.sub_0_r;
    [by rewrite length_insert|done|lia| |].
  - rewrite (take_S_r _ _ (Scope t SCOPE_INITIALIZED)), reverse_app
      by (apply list_lookup_insert_eq; eapply lookup_lt_Some, Hsc).
    cbn. constructor; [done|]. by rewrite take_insert_ge.
  - rewrite drop_insert_lt by lia. by rewrite <-Hl.
Qed.

Lemma destroy_scopes_ok l : Forall scope_ok l → destroy_scopes l = Ok tt.
Proof.
  induction 1 as [|sc l [m Hm] _ IH]; [done|]. cbn. unfold scope_holds in Hm. destruct (sc_state sc); cbn.
  - done.
  - destruct Hm as [_ [m' Hm']]. by rewrite (table_destroy_ok _ _ Hm').
  - by rewrite (table_destroy_ok _ _ Hm).
Qed.

Lemma holds_all_ok ns env : ns_holds ns env → Forall scope_ok (take (max_scope_depth ns) (ns_scope ns)).
Proof.
  intros [Hm Hl Hle Hs Ht]. rewrite take_ge by lia. rewrite <-(take_drop (ns_len ns) (ns_scope ns)).
  apply Forall_app. split; [|done]. rewrite <-Forall_reverse.
  apply (Forall2_Forall_l _ _ _ _ Hs), Forall_true. intros m sc Hh. by exists m.
Qed.

(** * The invariant of the symbol table

    Every symbol has one owner, a namespace or the list of temporaries; names
    are bound to symbols of their namespace; and what each operation of
    symtab.c does to the environments of the namespaces. *)

(** ** The invariant *)

Definition owned (s : symtab) : list symref :=
  ns_symbol (ns_of s NS_IDENT) ++ ns_symbol (ns_of s NS_LABEL) ++ ns_symbol (ns_of s NS_TAG)
  ++ temporaries s.

Definition named (s : symtab) (r : symref) (k : list Z) : Prop :=
  ∃ y, sb_symbols s !! r = Some y ∧ str_raw (Symbol.sym_name y) = k.

Record symtab_ok (s : symtab) (envs : nsid → list bindings) : Prop := {
  so_ns id : ns_holds (ns_of s id) (envs id);
  so_bound id m k r : m ∈ envs id → m !! k = Some r →
    r ∈ ns_symbol (ns_of s id) ∧ named s r k;
  so_wf r y : sb_symbols s !! r = Some y → wf_string (Symbol.sym_name y);
  so_alive r : r ∈ owned s → is_Some (sb_symbols s !! r);
  so_owned : NoDup (owned s);
  so_functions : if functions_init s
    then ∃ fm, table_holds (functions s) fm ∧
           ∀ k r, fm !! k = Some r → r ∈ ns_symbol (ns_of s NS_IDENT) ∧ named s r k
    else functions s = None
}.

Definition env_set (envs : nsid → list bindings) (id : nsid) (env : list bindings) :
    nsid → list bindings :=
  λ i, if decide (i = id) then env else envs i.

Lemma env_set_eq envs id env : env_set envs id env id = env.
Proof. unfold env_set. by rewrite decide_True. Qed.
Lemma env_set_ne envs id id' env : id' ≠ id → env_set envs id env id' = envs id'.
Proof. unfold env_set. intros. by rewrite decide_False. Qed.
Lemma ns_of_set s id ns : ns_of (set_ns id ns s) id = ns.
Proof. cbn. by rewrite decide_True. Qed.
Lemma ns_of_set_ne s id id' ns : id' ≠ id → ns_of (set_ns id ns s) id' = ns_of s id'.
Proof. cbn. intros. by rewrite decide_False. Qed.

Lemma symtab_start_ok : symtab_ok symtab_start (λ _, []).
Proof.
  split.
  - intros id. apply namespace_zero_holds.
  - intros id m k r H. by apply elem_of_nil in H.
  - done.
  - intros r H. by apply elem_of_nil in H.
  - constructor.
  - done.
Qed.

Lemma listed_owned s id r : r ∈ ns_symbol (ns_of s id) → r ∈ owned s.
Proof. unfold owned. rewrite !elem_of_app. destruct id; auto. Qed.

(** ** Updates that keep names and owners *)

Definition touched (s s' : symtab) : Prop :=
  (∀ r, Symbol.sym_name <$> (sb_symbols s' !! r) = Symbol.sym_name <$> (sb_symbols s !! r)) ∧
  (∀ id, ns_of s' id = ns_of s id) ∧ temporaries s' = temporaries s ∧
  functions s' = functions s ∧ functions_init s' = functions_init s.

Lemma touched_refl s : touched s s.
Proof. done. Qed.
Lemma touched_trans s1 s2 s3 : touched s1 s2 → touched s2 s3 → touched s1 s3.
Proof.
  intros (A1 & B1 & C1 & D1 & E1) (A2 & B2 & C2 & D2 & E2).
  split; [|split; [|split; [|split]]]; intros; etrans; eauto.
Qed.
Lemma touched_types s ts : touched s (set_types ts s).
Proof. done. Qed.
Lemma touched_put s r y y' : sb_symbols s !! r = Some y →
  Symbol.sym_name y' = Symbol.sym_name y → touched s (put_sym r y' s).
Proof.
  intros Hy Hn. split; [|done]. intros r'. cbn. destruct (decide (r = r')) as [<-|H].
  - rewrite lookup_insert_eq, Hy. cbn. by rewrite Hn.
  - by rewrite lookup_insert_ne.
Qed.

Lemma touched_named s s' r k : touched s s' → named s r k → named s' r k.
Proof.
  intros (A & _) (y & Hy & Hk). specialize (A r). rewrite Hy in A.
  destruct (sb_symbols s' !! r) as [y'|] eqn:E; [|done]. injection A as A. exists y'.
  split; [done|]. by rewrite A.
Qed.

Lemma touched_ok s s' envs : touched s s' → symtab_ok s envs → symtab_ok s' envs.
Proof.
  intros Ht [Hns Hb Hw Ha Ho Hf]. pose proof Ht as (A & B & C & D & E).
  assert (Hown : owned s' = owned s) by (unfold owned; by rewrite !B, C).
  split.
  - intros id. by rewrite B.
  - intros id m k r Hm Hk. rewrite B. destruct (Hb id m k r Hm Hk). split; [done|]. eapply touched_named; done.
  - intros r y Hy. specialize (A r). rewrite Hy in A.
    destruct (sb_symbols s !! r) as [y0|] eqn:E0; [|done]. injection A as A. rewrite A. by eapply Hw.
  - intros r Hr. rewrite Hown in Hr. specialize (A r). destruct (Ha r Hr) as [y Hy]. rewrite Hy in A.
    by destruct (sb_symbols s' !! r).
  - by rewrite Hown.
  - rewrite D, E. destruct (functions_init s); [|done]. destruct Hf as (fm & Hfm & Hall).
    exists fm. split; [done|]. intros k r Hk. rewrite B. destruct (Hall k r Hk). split; [done|].
    eapply touched_named; done.
Qed.

(** ** Lookup, pushing, popping and binding *)

Lemma sym_lookup_ok s envs id name : symtab_ok s envs → wf_string name →
  ∃ s', sym_lookup s id name = Ok (s', env_lookup (envs id) (str_raw name)) ∧ touched s s'.
Proof.
  intros Hok Hw. destruct (so_ns _ _ Hok id) as [Hm Hl Hle Hs _]. unfold sym_lookup.
  rewrite Hl in *. destruct (lookup_scopes_ok name (envs id) (ns_scope (ns_of s id)) Hw Hs) as (e & -> & He); [lia|].
  cbn. rewrite <-He. destruct e as [e|]; cbn in *; [|exists s; by split].
  symmetry in He. apply env_lookup_elem in He as (m & Hin & Hm').
  destruct (so_bound _ _ Hok id m _ _ Hin Hm') as [_ (y & Hy & _)]. unfold get_sym. rewrite Hy. cbn.
  eexists. split; [done|]. by eapply touched_put.
Qed.

(** A namespace whose list of symbols is kept. *)
Lemma set_ns_ok s envs id ns env : symtab_ok s envs → ns_holds ns env →
  ns_symbol ns = ns_symbol (ns_of s id) →
  (∀ m k r, m ∈ env → m !! k = Some r → r ∈ ns_symbol (ns_of s id) ∧ named s r k) →
  symtab_ok (set_ns id ns s) (env_set envs id env).
Proof.
  intros Hok Hns Hsym Hb. assert (Hall : ∀ i, ns_symbol (ns_of (set_ns id ns s) i) = ns_symbol (ns_of s i)).
  { intros i. cbn. by destruct (decide (i = id)) as [->|]. }
  assert (Hown : owned (set_ns id ns s) = owned s) by (unfold owned; by rewrite !Hall).
  destruct Hok as [Hn Hbd Hw Ha Ho Hf]. split.
  - intros i. unfold env_set. cbn. by destruct (decide (i = id)).
  - intros i m k r. rewrite Hall. unfold env_set. destruct (decide (i = id)) as [->|]; [apply Hb|apply Hbd].
  - done.
  - intros r. rewrite Hown. apply Ha.
  - by rewrite Hown.
  - rewrite Hall. apply Hf.
Qed.

Lemma push_scope_ok s envs id : symtab_ok s envs → ∃ s', push_scope s id = Ok s' ∧
  symtab_ok s' (env_set envs id (∅ :: envs id)).
Proof.
  intros Hok. destruct (push_ok _ _ (so_ns _ _ Hok id)) as (ns & Hp & Hh & Hsym & _). unfold push_scope.
  rewrite Hp. eexists. split; [done|]. apply set_ns_ok; [done..|].
  intros m k r Hm Hk. apply elem_of_cons in Hm as [->|Hm]; [by rewrite lookup_empty in Hk|].
  by eapply so_bound.
Qed.

Lemma pop_scope_inner s envs id m env : symtab_ok s envs → envs id = m :: env → env ≠ [] →
  ∃ s', pop_scope s id = Ok s' ∧ symtab_ok s' (env_set envs id env).
Proof.
  intros Hok He Hne. pose proof (so_ns _ _ Hok id) as Hn. rewrite He in Hn.
  destruct (holds_inner _ _ _ Hn) as (sc & Hl & _). unfold pop_scope.
  assert (Hl2 : (2 ≤ ns_len (ns_of s id))%nat) by (destruct env; [done|cbn in Hl; lia]).
  destruct (Nat.eqb_spec (ns_len (ns_of s id)) 0) as [|_]; [lia|].
  destruct (Nat.eqb_spec (ns_len (ns_of s id)) 1) as [|_]; [lia|]. eexists. split; [done|].
  apply set_ns_ok; [done|by eapply pop_ok|done|].
  intros m' k r Hm Hk. eapply so_bound; [done| |done]. rewrite He. by constructor.
Qed.

Lemma sym_make_visible_ok s envs id m env r k : symtab_ok s envs → envs id = m :: env →
  r ∈ ns_symbol (ns_of s id) → named s r k →
  ∃ s', sym_make_visible s id r = Ok s' ∧ symtab_ok s' (env_set envs id (env_bind (envs id) k r)) ∧
    (∀ i, ns_symbol (ns_of s' i) = ns_symbol (ns_of s i)) ∧ sb_symbols s' = sb_symbols s ∧
    temporaries s' = temporaries s ∧ functions s' = functions s ∧ functions_init s' = functions_init s.
Proof.
  intros Hok He Hr Hk. pose proof (so_ns _ _ Hok id) as Hn. rewrite He in Hn.
  destruct (ready_ok _ _ _ Hn) as (t & Ht & Hth). pose proof Hk as (y & Hy & Hyk).
  destruct (table_insert_ok t m (Symbol.sym_name y) r Hth (so_wf _ _ Hok _ _ Hy)) as (t' & Hi & Hth').
  unfold sym_make_visible, get_sym. rewrite Ht, Hy. cbn [mbind outcome_bind defined]. rewrite Hi. cbn [mbind outcome_bind].
  eexists. split; [done|]. rewrite Hyk in Hth'. split.
  - apply set_ns_ok; [done| |done|].
    + rewrite He. by eapply store_ok.
    + rewrite He. cbn. intros m' k' r' Hm Hk'. apply elem_of_cons in Hm as [->|Hm].
      * apply bind_lookup_Some in Hk' as [Hk'|[-> ->]]; [|done]. eapply so_bound; [done| |done]. rewrite He. constructor.
      * eapply so_bound; [done| |done]. rewrite He. by constructor.
  - split; [|done]. intros i. cbn. by destruct (decide (i = id)) as [->|].
Qed.

(** ** Allocation and listing *)

Lemma put_unowned_ok s envs r y : symtab_ok s envs → r ∉ owned s →
  wf_string (Symbol.sym_name y) → symtab_ok (put_sym r y s) envs.
Proof.
  intros Hok Hr Hy. assert (Hn : ∀ r' k, r' ∈ owned s → named s r' k → named (put_sym r y s) r' k).
  { intros r' k Hr' (y' & Hy' & Hk). exists y'. split; [|done]. cbn. rewrite lookup_insert_ne; [done|].
    by intros ->. }
  destruct Hok as [Hns Hb Hw Ha Ho Hf]. split; [done| | | |done|].
  - intros id m k r' Hm Hk. destruct (Hb id m k r' Hm Hk) as [Hl ?]. split; [done|].
    apply Hn; [by eapply listed_owned|done].
  - intros r' y'. cbn. rewrite lookup_insert_Some. intros [[_ <-]|[_ H]]; [done|by eapply Hw].
  - intros r' Hr'. cbn. apply lookup_insert_is_Some. destruct (decide (r = r')); [by left|right]. eauto.
  - cbn. destruct (functions_init s); [|done]. destruct Hf as (fm & Hfm & Hall). exists fm. split; [done|].
    intros k r' Hk. destruct (Hall k r' Hk) as [Hl ?]. split; [done|]. apply Hn; [by eapply listed_owned|done].
Qed.

Lemma alloc_ok s envs : symtab_ok s envs → ∃ s' r, alloc_sym s = Ok (s', r) ∧ symtab_ok s' envs ∧
  (r ∉ owned s') ∧ is_Some (sb_symbols s' !! r) ∧ (∀ i, ns_of s' i = ns_of s i) ∧
  sb_types s' = sb_types s ∧ functions s' = functions s ∧ functions_init s' = functions_init s.
Proof.
  intros Hok. unfold alloc_sym. destruct (last (temporaries s)) as [r|] eqn:El.
  - apply last_Some in El as [l El].
    destruct (so_alive _ _ Hok r) as [y Hy];
      [unfold owned; rewrite El, !elem_of_app; set_solver|]. unfold get_sym. rewrite Hy. cbn [mbind outcome_bind defined].
    eexists _, _. split; [done|]. rewrite El, removelast_last.
    assert (Hperm : owned s ≡ₚ r :: owned (set_temporaries l s)).
    { unfold owned. cbn. rewrite El. by rewrite <-!Permutation_middle, app_nil_r. }
    assert (Hr : r ∉ owned (set_temporaries l s)).
    { pose proof (so_owned _ _ Hok) as Hnd. rewrite Hperm in Hnd. by apply NoDup_cons in Hnd as [? _]. }
    split; [|split; [done|split; [|done]]].
    + apply put_unowned_ok; [|done|apply wf_str_zero]. destruct Hok as [Hns Hb Hw Ha Ho Hf].
      split; try done.
      * intros r' Hr'. apply Ha. rewrite Hperm. by right.
      * rewrite Hperm in Ho. by apply NoDup_cons in Ho as [_ ?].
    + cbn. rewrite lookup_insert_eq. done.
  - eexists _, _. split; [done|]. set (r := fresh _).
    assert (Hr : r ∉ dom (sb_symbols s)) by apply is_fresh. apply not_elem_of_dom in Hr.
    assert (Ho : r ∉ owned s).
    { intros Ho. apply (so_alive _ _ Hok) in Ho as [y Hy]. by rewrite Hr in Hy. }
    split; [by apply put_unowned_ok; [| |apply wf_str_zero]|]. split; [done|]. split; [|done].
    cbn. rewrite lookup_insert_eq. done.
Qed.

Definition add_listed (id : nsid) (r : symref) (s : symtab) : symtab :=
  set_ns id (ns_set_symbol (ns_symbol (ns_of s id) ++ [r]) (ns_of s id)) s.

Lemma owned_listed id r s : owned (add_listed id r s) ≡ₚ r :: owned s.
Proof.
  unfold owned, add_listed. destruct id; rewrite ns_of_set, !ns_of_set_ne by done;
    cbn [ns_symbol ns_set_symbol temporaries set_ns]; rewrite <-(app_assoc _ [r]); cbn [app];
    by rewrite <-!Permutation_middle.
Qed.

Lemma listed_mono id r s i r' : r' ∈ ns_symbol (ns_of s i) → r' ∈ ns_symbol (ns_of (add_listed id r s) i).
Proof. cbn. destruct (decide (i = id)) as [->|]; [|done]. cbn. rewrite elem_of_app. auto. Qed.

Lemma add_listed_ok s envs id r : symtab_ok s envs → r ∉ owned s → is_Some (sb_symbols s !! r) →
  symtab_ok (add_listed id r s) envs.
Proof.
  intros [Hns Hb Hw Ha Ho Hf] Hr Hs. split.
  - intros i. cbn. destruct (decide (i = id)) as [->|]; [|done]. by eapply holds_same; [..|apply Hns].
  - intros i m k r' Hm Hk. destruct (Hb i m k r' Hm Hk). split; [by apply listed_mono|done].
  - done.
  - intros r'. rewrite owned_listed, elem_of_cons. intros [->|H]; [done|by apply Ha].
  - rewrite owned_listed. by apply NoDup_cons.
  - cbn -[add_listed]. unfold add_listed at 1. cbn. destruct (functions_init s); [|done].
    destruct Hf as (fm & Hfm & Hall). exists fm. split; [done|]. intros k r' Hk.
    destruct (Hall k r' Hk). split; [by apply (listed_mono id r s NS_IDENT)|done].
Qed.

Lemma sym_lookup_function_ok s envs name : symtab_ok s envs → wf_string name →
  ∃ s' o, sym_lookup_function s name = Ok (s', o) ∧ symtab_ok s' envs ∧
    s' = set_functions (functions s') true s ∧
    ∀ r, o = Some r → r ∈ ns_symbol (ns_of s NS_IDENT) ∧ named s r (str_raw name).
Proof.
  intros Hok Hw. pose proof (so_functions _ _ Hok) as Hf. unfold sym_lookup_function.
  assert (H : ∃ s0 fm, (if functions_init s then Ok s
      else tab ← table_init 1024; Ok (set_functions tab true s)) = Ok s0 ∧
      s0 = set_functions (functions s0) true s ∧ table_holds (functions s0) fm ∧
      ∀ k r, fm !! k = Some r → r ∈ ns_symbol (ns_of s NS_IDENT) ∧ named s r k).
  { destruct (functions_init s) eqn:E.
    - destruct Hf as (fm & Hfm & Hall). exists s, fm. split; [done|]. split; [|done].
      rewrite <-E. by destruct s.
    - destruct (table_init_ok 1024) as (t & Ht & Hth); [lia|]. rewrite Ht. eexists _, ∅. split; [done|].
      split; [done|]. split; [done|]. intros k r. by rewrite lookup_empty. }
  destruct H as (s0 & fm & -> & Hs0 & Hfm & Hall). cbn [mbind outcome_bind].
  destruct (table_lookup_ok _ _ name Hfm Hw) as (e & -> & He). cbn [mbind outcome_bind].
  eexists _, _. split; [done|]. split; [|split; [done|]].
  - rewrite Hs0. destruct Hok as [Hns Hb Hwf Ha Ho _]. split; try done. cbn. eauto.
  - intros r Hr. rewrite Hr in He. symmetry in He. by apply Hall.
Qed.

(** ** Declarations *)

Section declarations.
Variable depth : nat.

Lemma complete_type_touched s r t s' b : complete_type depth s r t = Ok (s', b) → touched s s'.
Proof.
  unfold complete_type, get_sym. intros H. apply bind_ok_inv in H as (y & Hy & H). apply defined_ok_inv in Hy.
  apply bind_ok_inv in H as (fn & _ & H). destruct fn.
  - ok_inv. destruct a1; ok_inv; simplify_eq; [|done]. by eapply touched_put.
  - destruct (_ && _); ok_inv; [|by simplify_eq]. destruct (negb a1); ok_inv; [by simplify_eq|].
    destruct (negb a2 && a3); ok_inv; simplify_eq; [|done]. apply touched_types.
Qed.

Lemma sym_apply_type_touched s r t s' : sym_apply_type depth s r t = Ok s' → touched s s'.
Proof.
  unfold sym_apply_type. intros H. apply bind_ok_inv in H as ([s1 b] & H1 & H).
  apply complete_type_touched in H1. destruct b; ok_inv; [by subst|]. by destruct a0; ok_inv; subst.
Qed.

Lemma redeclare_linkage_touched s r id st lk s' : redeclare_linkage s r id st lk = Ok s' → touched s s'.
Proof.
  unfold redeclare_linkage, get_sym. intros H. ok_inv. destruct lk.
  - ok_inv. destruct (_ && _) in H; ok_inv. by subst.
  - destruct (bool_decide _) in H; ok_inv. subst. by eapply touched_put.
  - destruct (_ && _) in H; ok_inv. by subst.
Qed.

Lemma redeclare_object_touched s r t dt s' : redeclare_object depth s r t dt = Ok s' → touched s s'.
Proof.
  unfold redeclare_object, get_sym. intros H. ok_inv. destruct (bool_decide _) in H.
  - ok_inv. destruct (negb _) in H; ok_inv. destruct (_ && _) in H; ok_inv. by subst.
  - by apply sym_apply_type_touched in H.
Qed.

Lemma sym_redeclare_touched s r id t st lk dt s' :
  sym_redeclare depth s r id t st lk dt = Ok s' → touched s s'.
Proof.
  unfold sym_redeclare, get_sym. intros H. apply bind_ok_inv in H as (s1 & H1 & H).
  apply redeclare_linkage_touched in H1. apply bind_ok_inv in H as (y & Hy & H). apply defined_ok_inv in Hy.
  eapply touched_trans; [exact H1|]. assert (Hp : ∀ x, touched s1 (put_sym r (with_symtype x y) s1))
    by (intros x; by eapply touched_put).
  destruct st; ok_inv; try (by subst); try by (destruct a; ok_inv; subst).
  - eapply touched_trans; [apply (Hp SYM_DEFINITION)|]. by eapply sym_apply_type_touched.
  - apply redeclare_object_touched in H. eapply touched_trans; [|exact H]. by destruct (bool_decide _).
  - by eapply redeclare_object_touched.
Qed.

Lemma type_table_ok s envs ts : symtab_ok s envs → symtab_ok (set_types ts s) envs.
Proof. apply touched_ok, touched_types. Qed.

(** The insertion in the table of functions. *)
Lemma function_insert_ok s envs name r t' : symtab_ok s envs → wf_string name →
  r ∈ ns_symbol (ns_of s NS_IDENT) → named s r (str_raw name) →
  table_insert (functions s) (SymEntry name r) = Ok t' →
  symtab_ok (set_functions t' (functions_init s) s) envs.
Proof.
  intros Hok Hw Hr Hn Hi. pose proof (so_functions _ _ Hok) as Hf.
  destruct (functions_init s) eqn:E; [|by rewrite Hf in Hi].
  destruct Hf as (fm & Hfm & Hall). destruct (table_insert_ok _ _ name r Hfm Hw) as (t2 & Hi2 & Hth).
  rewrite Hi in Hi2. injection Hi2 as <-. destruct Hok as [Hns Hb Hwf Ha Ho _]. split; try done.
  cbn. eexists. split; [exact Hth|]. intros k r' Hk. apply bind_lookup_Some in Hk as [Hk|[-> ->]]; eauto.
Qed.

Lemma next_n_touched c s s' n : next_n c s = Ok (s', n) → touched s s'.
Proof. unfold next_n. intros H. ok_inv. by simplify_eq. Qed.

(** What [sym_add] leaves behind when it registers a new symbol. *)
Lemma sym_register_ok s envs id m env name t st lk d s' r : symtab_ok s envs → wf_string name →
  envs id = m :: env → id = NS_IDENT ∨ is_function t = false →
  sym_register s id name t st lk d = Ok (s', r) →
  symtab_ok s' (env_set envs id (env_bind (envs id) (str_raw name) r)) ∧
  named s' r (str_raw name) ∧ ∀ i, ¬ (r ∈ ns_symbol (ns_of s i)).
Proof.
  intros Hok Hw He Hid H. unfold sym_register in H.
  destruct (alloc_ok s envs Hok) as (s1 & r1 & Hal & Hok1 & Hr1 & Hs1 & Hns1 & _ & _ & _).
  rewrite Hal in H. cbn [mbind outcome_bind] in H. apply bind_ok_inv in H as ([s2 n] & H2 & H).
  assert (T2 : touched s1 s2) by (destruct (_ && _) in H2; [by eapply next_n_touched|ok_inv; by simplify_eq]).
  set (y := new_symbol name t st lk n d NoValue) in H. set (s3 := put_sym r1 y s2) in H.
  assert (Hown2 : owned s2 = owned s1) by (destruct T2 as (_ & B & C & _); unfold owned; by rewrite !B, C).
  assert (Hok3 : symtab_ok s3 envs).
  { apply put_unowned_ok; [by eapply touched_ok|by rewrite Hown2|exact Hw]. }
  set (b := bool_decide (decl_memcpy s3 = None) && _) in H. set (s4 := if b then _ else s3) in H.
  assert (H4 : touched s3 s4 ∧ sb_symbols s4 = sb_symbols s3) by (unfold s4; by destruct b).
  destruct H4 as [T4 Hst4]. apply bind_ok_inv in H as (s5 & H5 & H).
  assert (Hok5 : symtab_ok s5 envs ∧ sb_symbols s5 = sb_symbols s4 ∧ owned s5 = owned s1).
  { assert (Hown4 : owned s4 = owned s1) by (unfold s4; destruct b; exact Hown2).
    destruct (bool_decide (st = SYM_TAG) || _) in H5; ok_inv; subst s5; (split; [|done]);
      [apply type_table_ok|]; by eapply touched_ok. }
  destruct Hok5 as (Hok5 & Hst5 & Hown5).
  assert (Hs5 : sb_symbols s5 !! r1 = Some y) by (rewrite Hst5, Hst4; apply lookup_insert_eq).
  fold (add_listed id r1 s5) in H. set (s6 := add_listed id r1 s5) in H.
  assert (Hok6 : symtab_ok s6 envs) by (apply add_listed_ok; [done|by rewrite Hown5|by eexists]).
  assert (Hl6 : r1 ∈ ns_symbol (ns_of s6 id)).
  { unfold s6, add_listed. rewrite ns_of_set. cbn. rewrite elem_of_app. right. by constructor. }
  assert (Hn6 : named s6 r1 (str_raw name)) by (by exists y).
  destruct (sym_make_visible_ok s6 envs id m env r1 _ Hok6 He Hl6 Hn6) as (s7 & H7 & Hok7 & Hsym7 & Hst7 & _).
  rewrite H7 in H. cbn [mbind outcome_bind] in H. apply bind_ok_inv in H as (s8 & H8 & H).
  assert (Hn7 : named s7 r1 (str_raw name)) by (exists y; by rewrite Hst7).
  assert (Hok8 : symtab_ok s8 (env_set envs id (env_bind (envs id) (str_raw name) r1)) ∧ sb_symbols s8 = sb_symbols s7).
  { destruct (negb _ && is_function t) eqn:Ef in H8; ok_inv; subst s8; [|done]. split; [|done].
    apply andb_prop in Ef as [_ Ef]. destruct Hid as [->|Hid]; [|congruence].
    eapply function_insert_ok; [done|done| |done|done]. by rewrite Hsym7. }
  ok_inv. simplify_eq. split; [apply Hok8|]. split.
  - exists y. by rewrite (proj2 Hok8), Hst7.
  - intros i Hi. apply Hr1. eapply listed_owned. by rewrite Hns1.
Qed.
Lemma depth_ok ns env d : ns_holds ns env → current_scope_depth ns = Ok d →
  ∃ m env', env = m :: env' ∧ d = Z.of_nat (length env').
Proof.
  intros Hn Hd. destruct (holds_length _ _ Hn) as (_ & Hl & _). unfold current_scope_depth in Hd.
  rewrite Hl in Hd. destruct env as [|m env]; cbn in Hd; [done|]. injection Hd as <-. exists m, env.
  split; [done|lia].
Qed.
Lemma depth_of ns m env : ns_holds ns (m :: env) → current_scope_depth ns = Ok (Z.of_nat (length env)).
Proof.
  intros Hn. destruct (holds_length _ _ Hn) as (_ & Hl & _). unfold current_scope_depth.
  rewrite Hl. cbn [length]. cbn -[Z.of_nat]. f_equal. lia.
Qed.

Lemma resolve_function_ok s envs id m env name r t d s' : symtab_ok s envs → envs id = m :: env →
  r ∈ ns_symbol (ns_of s id) → named s r (str_raw name) →
  resolve_function depth s id r t d = Ok s' →
  named s' r (str_raw name) ∧ symtab_ok s' (env_set envs id (env_bind (envs id) (str_raw name) r)).
Proof.
  intros Hok He Hr Hn H. unfold resolve_function in H. apply bind_ok_inv in H as (s1 & H1 & H).
  apply sym_apply_type_touched in H1. pose proof (touched_ok _ _ _ H1 Hok) as Hok1.
  pose proof (touched_named _ _ _ _ H1 Hn) as Hn1. rewrite <-(proj1 (proj2 H1)) in Hr.
  destruct (sym_make_visible_ok s1 envs id m env r _ Hok1 He Hr Hn1) as (s2 & H2 & Hok2 & _ & Hst & _).
  rewrite H2 in H. cbn [mbind outcome_bind] in H. unfold get_sym in H. ok_inv.
  assert (Ht : touched s2 s') by (destruct (d <? _) in H; subst s'; [by eapply touched_put|done]).
  split; [|by eapply touched_ok]. apply (touched_named s2); [done|].
  destruct Hn1 as (y & Hy & Hk). exists y. by rewrite Hst.
Qed.

(** What [sym_add] leaves behind: the name is bound to the symbol it returns,
    in an enclosing scope or in the innermost one. *)
Lemma sym_add_ok s envs id name t st lk dt s' r : symtab_ok s envs → wf_string name →
  id = NS_IDENT ∨ is_function t = false →
  sym_add depth s id name t st lk dt = Ok (s', r) →
  named s' r (str_raw name) ∧
  (env_lookup (envs id) (str_raw name) = Some r ∧ symtab_ok s' envs ∨
   symtab_ok s' (env_set envs id (env_bind (envs id) (str_raw name) r))).
Proof.
  intros Hok Hw Hid H. unfold sym_add in H. apply bind_ok_inv in H as (_ & _ & H).
  apply bind_ok_inv in H as (_ & _ & H).
  destruct (sym_lookup_ok s envs id name Hok Hw) as (s1 & Hl & Ht1). rewrite Hl in H.
  cbn [mbind outcome_bind] in H. pose proof (touched_ok _ _ _ Ht1 Hok) as Hok1.
  apply bind_ok_inv in H as (d & Hd & H).
  destruct (depth_ok _ _ _ (so_ns _ _ Hok1 id) Hd) as (m & env & He & _).
  assert (Hreg : ∀ s2, symtab_ok s2 envs → sym_register s2 id name t st lk d = Ok (s', r) →
    named s' r (str_raw name) ∧ symtab_ok s' (env_set envs id (env_bind (envs id) (str_raw name) r))).
  { intros s2 Hok2 H2. destruct (sym_register_ok s2 envs id m env name t st lk d s' r Hok2 Hw He Hid H2) as (? & ? & _).
    done. }
  destruct (env_lookup (envs id) (str_raw name)) as [r0|] eqn:E.
  - apply bind_ok_inv in H as (y & Hy & H). destruct (((d =? 0) || _) && _) in H.
    + apply bind_ok_inv in H as (s2 & H2 & H). injection H as -> ->. apply sym_redeclare_touched in H2.
      apply env_lookup_elem in E as (m' & Hm' & Hk). destruct (so_bound _ _ Hok1 id m' _ _ Hm' Hk) as [_ Hn].
      split; [by eapply touched_named|]. left. split; [done|]. by eapply touched_ok.
    + destruct (Hreg s1 Hok1 H). auto.
  - destruct (negb _ && is_function t) in H.
    + apply bind_ok_inv in H as (u & Hu & H). apply c_assert_ok_inv, bool_decide_eq_true_1 in Hu. subst id.
      destruct (sym_lookup_function_ok s1 envs name Hok1 Hw) as (s2 & o & Hf & Hok2 & Hs2 & Ho).
      rewrite Hf in H. cbn [mbind outcome_bind] in H. destruct o as [r1|].
      * apply bind_ok_inv in H as (s3 & H3 & H). injection H as -> ->. destruct (Ho r eq_refl) as [Hr Hn].
        rewrite Hs2 in Hok2, H3. eapply resolve_function_ok in H3 as [? ?]; [|done..]. auto.
      * destruct (Hreg s2 Hok2 H). auto.
    + destruct (Hreg s1 Hok1 H). auto.
Qed.
End declarations.

(** ** Leaving the last scope *)

(** Everything but the symbols and the reports is the same. *)
Definition same_tables (s s' : symtab) : Prop :=
  (∀ id, ns_of s' id = ns_of s id) ∧ temporaries s' = temporaries s ∧
  functions s' = functions s ∧ functions_init s' = functions_init s.

(** The symbols of a list are freed, once each; only an overlong name of an
    undefined label stops it. *)
Lemma free_symbols_ok id l s : NoDup l → (∀ r, r ∈ l → is_Some (sb_symbols s !! r)) →
  (∃ s', free_symbols id s l = Ok s' ∧ same_tables s s' ∧
     ∀ r, sb_symbols s' !! r = if decide (r ∈ l) then None else sb_symbols s !! r) ∨
  ∃ msg, free_symbols id s l = Exit msg.
Proof.
  revert s. induction l as [|r l IH]; intros s Hnd Hal; cbn [free_symbols].
  { left. exists s. split; [done|]. split; [done|]. intros r. by rewrite decide_False by apply not_elem_of_nil. }
  apply NoDup_cons in Hnd as [Hr Hnd]. destruct (Hal r) as [y Hy]; [constructor|].
  unfold get_sym. rewrite Hy. cbn [mbind outcome_bind defined].
  assert (Hrep : (∃ s1, (if bool_decide (id = NS_LABEL) && bool_decide (sym_symtype y = SYM_TENTATIVE)
      then n ← sym_name y; Ok (report n s) else Ok s) = Ok s1 ∧ same_tables s s1 ∧ sb_symbols s1 = sb_symbols s)
    ∨ ∃ msg, (if bool_decide (id = NS_LABEL) && bool_decide (sym_symtype y = SYM_TENTATIVE)
      then n ← sym_name y; Ok (report n s) else Ok s) = Exit msg).
  { destruct (bool_decide (id = NS_LABEL) && _); [|left; by exists s]. unfold sym_name.
    destruct (_ =? 0); [left; by eexists|]. destruct (_ <? _); [right; by eexists|]. left.
    destruct (str_raw _) as [|c raw]; [by eexists|]. by repeat case_match; eexists. }
  destruct Hrep as [(s1 & -> & (H1 & H2 & H3 & H4) & Hst)|(msg & ->)]; cbn [mbind outcome_bind]; [|right; by exists msg].
  destruct (IH (set_store (delete r (sb_symbols s1)) s1) Hnd) as [(s2 & Hf & (A & B & C & D) & Hs2)|?]; [|left|by right].
  - intros r' Hr'. cbn. rewrite Hst, lookup_delete_ne by (by intros ->). apply Hal. by constructor.
  - exists s2. split; [done|]. split.
    + split; [|split; [|split]]; intros; [rewrite A|rewrite B|rewrite C|rewrite D]; cbn; auto.
    + intros r'. rewrite Hs2. cbn. rewrite Hst. destruct (decide (r' = r)) as [->|Hne].
      * rewrite lookup_delete_eq, (decide_True _ _ (list_elem_of_here r l)). by destruct (decide _).
      * rewrite lookup_delete_ne by done. destruct (decide (r' ∈ l)).
        -- by rewrite decide_True by (by constructor).
        -- rewrite decide_False; [done|]. by intros [?|?]%elem_of_cons.
Qed.

(** The owners of the other namespaces. *)
Lemma owned_other s id id' r : NoDup (owned s) → id' ≠ id → r ∈ ns_symbol (ns_of s id') →
  ¬ (r ∈ ns_symbol (ns_of s id)).
Proof.
  unfold owned. rewrite !NoDup_app. intros Hnd Hne H1 H2. destruct Hnd as (_ & HA & _ & HB & _ & HC & _).
  assert (HA' := HA r). assert (HB' := HB r). rewrite !elem_of_app in HA'. rewrite !elem_of_app in HB'.
  destruct id, id'; naive_solver.
Qed.
Lemma owned_temporary s id r : NoDup (owned s) → r ∈ temporaries s → ¬ (r ∈ ns_symbol (ns_of s id)).
Proof.
  unfold owned. rewrite !NoDup_app. intros Hnd H1 H2. destruct Hnd as (_ & HA & _ & HB & _ & HC & _).
  assert (HA' := HA r). assert (HB' := HB r). rewrite !elem_of_app in HA'. rewrite !elem_of_app in HB'.
  destruct id; naive_solver.
Qed.
Lemma owned_symbols s id : NoDup (owned s) → NoDup (ns_symbol (ns_of s id)).
Proof. unfold owned. rewrite !NoDup_app. intros (HA & _ & HB & _ & HC & _). by destruct id. Qed.

Lemma sublist_owned s s' : NoDup (owned s) →
  (∀ id, ns_symbol (ns_of s' id) `sublist_of` ns_symbol (ns_of s id)) → temporaries s' = temporaries s →
  NoDup (owned s').
Proof.
  intros Hnd Hs Ht. eapply sublist_NoDup; [exact Hnd|]. unfold owned. rewrite Ht.
  repeat apply sublist_app; try done.
Qed.

(** A namespace whose symbols were freed. *)
Lemma emptied_ok s s' envs id : symtab_ok s envs →
  ns_holds (ns_of s' id) [] → ns_symbol (ns_of s' id) = [] →
  (∀ i, i ≠ id → ns_holds (ns_of s' i) (envs i) ∧ ns_symbol (ns_of s' i) = ns_symbol (ns_of s i)) →
  temporaries s' = temporaries s →
  (∀ r, sb_symbols s' !! r = if decide (r ∈ ns_symbol (ns_of s id)) then None else sb_symbols s !! r) →
  (if functions_init s' then
     table_holds (functions s') ∅ ∨ id ≠ NS_IDENT ∧ functions s' = functions s ∧ functions_init s = true
   else functions s' = None) →
  symtab_ok s' (env_set envs id []).
Proof.
  intros Hok Hh He Ho Ht Hst Hf. pose proof (so_owned _ _ Hok) as Hnd.
  assert (Hnamed : ∀ i r k, i ≠ id → r ∈ ns_symbol (ns_of s i) → named s r k → named s' r k).
  { intros i r k Hi Hr (y & Hy & Hk). exists y. split; [|done]. rewrite Hst, decide_False; [done|].
    by eapply owned_other. }
  assert (Hsub : ∀ i, ns_symbol (ns_of s' i) `sublist_of` ns_symbol (ns_of s i)).
  { intros i. destruct (decide (i = id)) as [->|Hi]; [rewrite He; apply sublist_nil_l|].
    by rewrite (proj2 (Ho i Hi)). }
  split.
  - intros i. unfold env_set. destruct (decide (i = id)) as [->|Hi]; [done|by apply Ho].
  - intros i m k r. unfold env_set. destruct (decide (i = id)) as [->|Hi]; [by intros ?%elem_of_nil|].
    intros Hm Hk. destruct (so_bound _ _ Hok i m k r Hm Hk) as [Hr Hn]. rewrite (proj2 (Ho i Hi)).
    split; [done|by eapply Hnamed].
  - intros r y. rewrite Hst. destruct (decide _); [done|]. apply (so_wf _ _ Hok).
  - intros r Hr. assert (Hno : ¬ (r ∈ ns_symbol (ns_of s id)) ∧ r ∈ owned s).
    { assert (H : (∃ i, i ≠ id ∧ r ∈ ns_symbol (ns_of s i)) ∨ r ∈ temporaries s).
      { unfold owned in Hr. rewrite !elem_of_app, Ht in Hr.
        assert (Hi : ∀ i, r ∈ ns_symbol (ns_of s' i) → i ≠ id ∧ r ∈ ns_symbol (ns_of s i)).
        { intros i Hi. destruct (decide (i = id)) as [->|Hne]; [rewrite He in Hi; by apply elem_of_nil in Hi|].
          by rewrite <-(proj2 (Ho i Hne)). }
        destruct Hr as [H|[H|[H|H]]]; [left; eexists; apply Hi; exact H..|by right]. }
      destruct H as [(i & Hi & Hr')|Hr'].
      - split; [by eapply owned_other|by eapply listed_owned].
      - split; [by apply owned_temporary|]. unfold owned. rewrite !elem_of_app. auto. }
    rewrite Hst, decide_False by apply Hno. apply (so_alive _ _ Hok), Hno.
  - by eapply sublist_owned.
  - destruct (functions_init s'); [|done]. destruct Hf as [Hf|(Hi & -> & Hinit)].
    + exists ∅. split; [done|]. intros k r. by rewrite lookup_empty.
    + pose proof (so_functions _ _ Hok) as Hfs. rewrite Hinit in Hfs. destruct Hfs as (fm & Hfm & Hall).
      exists fm. split; [done|]. intros k r Hk. destruct (Hall k r Hk) as [Hr Hn].
      rewrite (proj2 (Ho NS_IDENT (not_eq_sym Hi))). split; [done|]. eapply Hnamed; [|done..]. by apply not_eq_sym.
Qed.

Lemma reset_buffers_ok s t : table_clear (functions s) = Ok t → ∃ s', symtab_reset_buffers s = Ok s' ∧
  (∀ i, ns_of s' i = ns_set_cursor 0 (ns_of s i)) ∧ sb_symbols s' = sb_symbols s ∧
  temporaries s' = temporaries s ∧ functions s' = t ∧ functions_init s' = functions_init s.
Proof.
  intros Ht. unfold symtab_reset_buffers. cbn [functions set_string_types set_memcpy set_ns].
  rewrite Ht. eexists. split; [done|]. split; [|done]. by intros [].
Qed.

Lemma pop_scope_last s envs id m : symtab_ok s envs → envs id = [m] →
  (∃ s', pop_scope s id = Ok s' ∧ symtab_ok s' (env_set envs id []) ∧ ns_symbol (ns_of s' id) = [] ∧
     ∀ r, sb_symbols s' !! r = if decide (r ∈ ns_symbol (ns_of s id)) then None else sb_symbols s !! r) ∨
  ∃ msg, pop_scope s id = Exit msg.
Proof.
  intros Hok He. pose proof (so_ns _ _ Hok id) as Hn. destruct (holds_length _ _ Hn) as (_ & Hl & _).
  rewrite He in Hl. unfold pop_scope. rewrite Hl. cbn [length Nat.eqb negb c_assert mbind outcome_bind].
  rewrite (destroy_scopes_ok _ (holds_all_ok _ _ Hn)). cbn [mbind outcome_bind].
  set (ns0 := Namespace _ [] 0 0 _). set (s1 := set_ns id ns0 s).
  change (ns_symbol ns0) with (ns_symbol (ns_of s id)).
  destruct (free_symbols_ok id (ns_symbol (ns_of s id)) s1) as [(s2 & Hf & (A & B & C & D) & Hst)|[msg Hx]].
  { apply owned_symbols, (so_owned _ _ Hok). }
  { intros r Hr. apply (so_alive _ _ Hok). by eapply listed_owned. }
  2: { right. exists msg. by rewrite Hx. }
  rewrite Hf. cbn [mbind outcome_bind]. set (s3 := set_ns id (ns_set_symbol [] ns0) s2).
  assert (H3 : ns_of s3 id = ns_set_symbol [] ns0 ∧ ∀ i, i ≠ id → ns_of s3 i = ns_of s i).
  { split; [apply ns_of_set|]. intros i Hi. unfold s3. rewrite ns_of_set_ne, A by done. by apply ns_of_set_ne. }
  destruct H3 as [H3 H3o].
  assert (Hzero : ∀ n, ns_holds (ns_set_cursor n (ns_set_symbol [] ns0)) []) by (intros n; split; done).
  destruct (bool_decide (id = NS_IDENT)) eqn:Ei.
  - apply bool_decide_eq_true_1 in Ei. pose proof (so_functions _ _ Hok) as Hfs.
    assert (Hfs3 : functions s3 = functions s) by exact C.
    destruct (functions_init s) eqn:Einit.
    2: { rewrite Hfs in Hfs3. right. eexists. unfold symtab_reset_buffers.
      cbn [functions set_string_types set_memcpy set_ns]. rewrite Hfs3. done. }
    destruct Hfs as (fm & Hfm & _). rewrite <-Hfs3 in Hfm. destruct (table_clear_ok _ _ Hfm) as (t & Ht & Hth). left.
    destruct (reset_buffers_ok s3 t Ht) as (s4 & Hr & A4 & S4 & T4 & F4 & I4). exists s4. split; [done|].
    assert (Hst4 : ∀ r, sb_symbols s4 !! r = if decide (r ∈ ns_symbol (ns_of s id)) then None else sb_symbols s !! r)
      by (intros r; rewrite S4; apply Hst).
    split; [|split; [by rewrite A4, H3|exact Hst4]].
    apply emptied_ok with (s := s); [done|rewrite A4, H3; apply Hzero|by rewrite A4, H3| |by rewrite T4|exact Hst4|].
    + intros i Hi. rewrite A4, H3o by done. split; [|done]. eapply holds_same; [..|apply (so_ns _ _ Hok)]; done.
    + rewrite I4. change (functions_init s3) with (functions_init s2). rewrite D. cbn. rewrite Einit. left. by rewrite F4.
  - left. eexists. split; [done|]. split; [|split; [by rewrite H3|exact Hst]].
    apply emptied_ok with (s := s); [done|rewrite H3; split; done|by rewrite H3| |done|exact Hst|].
    + intros i Hi. rewrite H3o by done. split; [apply (so_ns _ _ Hok)|done].
    + cbn. rewrite C, D. cbn. pose proof (so_functions _ _ Hok) as Hfs.
      destruct (functions_init s) eqn:Einit; [|done]. right. by apply bool_decide_eq_false_1 in Ei.
Qed.

(** ** Generated symbols *)

Lemma decimal_bytes fuel n : 0 ≤ n → Forall is_byte (decimal fuel n) ∧ (length (decimal fuel n) ≤ fuel)%nat.
Proof.
  revert n. induction fuel as [|fuel IH]; intros n Hn; [by split|]. cbn.
  destruct (IH (n / 10)) as [Hb Hl]; [by apply Z.div_pos|].
  assert (0 ≤ n mod 10 < 10) by (apply Z.mod_pos_bound; lia).
  destruct (n <? 10); (split; [apply Forall_app_2; [done|repeat constructor; unfold is_byte; lia]|]);
    rewrite ?length_app; cbn; lia.
Qed.
Lemma print_d_bytes n : Forall is_byte (print_d n) ∧ (length (print_d n) ≤ 12)%nat.
Proof.
  unfold print_d. destruct (Z.ltb_spec n 0).
  - destruct (decimal_bytes 11 (- n)) as [Hb Hl]; [lia|]. split; [|cbn [length]; lia]. by constructor.
  - destruct (decimal_bytes 11 n) as [Hb Hl]; [lia|]. split; [done|lia].
Qed.

Lemma wf_raw y : wf_string y → Forall is_byte (str_raw y) ∧ Z.of_nat (length (str_raw y)) < 2 ^ 16.
Proof.
  intros Hw. pose proof (length_str_raw y Hw) as Hl. destruct Hw as (Hr & Hb & _).
  split; [by apply Forall_take|]. lia.
Qed.

Lemma sym_name_bytes y n : wf_string (Symbol.sym_name y) → sym_name y = Ok n →
  Forall is_byte n ∧ Z.of_nat (length n) < 2 ^ 16.
Proof.
  intros Hw. destruct (wf_raw _ Hw) as [Hb Hl]. unfold sym_name. destruct (_ =? 0); [by intros [= <-]|].
  destruct (Z.ltb_spec 100 (Z.of_nat (length (str_raw (Symbol.sym_name y))))) as [|H100]; [done|].
  set (p := print_d (sym_n y)). assert (Hp : Forall is_byte p ∧ (length p ≤ 12)%nat) by apply print_d_bytes.
  destruct Hp as [Hpb Hpl]. revert Hb H100. generalize (str_raw (Symbol.sym_name y)). intros raw Hb H100 Hn.
  assert (Hcase : n = raw ++ p ∨ n = raw ++ [46] ++ p).
  { destruct raw as [|c raw]; [injection Hn as <-; by right|]. clear -Hn. revert Hn. by repeat case_match; intros [= <-]; auto. }
  destruct Hcase as [->| ->]; rewrite ?length_app; cbn [length];
    (split; [repeat apply Forall_app_2; try done; repeat constructor; done|lia]).
Qed.

(** A symbol that is filled in, owned by nobody yet. *)
Lemma sym_create_ok s envs c name t st lk v s' r : symtab_ok s envs → wf_string (str_of name) →
  sym_create s c name t st lk v = Ok (s', r) →
  symtab_ok s' envs ∧ (r ∉ owned s') ∧ is_Some (sb_symbols s' !! r).
Proof.
  intros Hok Hw H. unfold sym_create in H.
  destruct (alloc_ok s envs Hok) as (s1 & r1 & Hal & Hok1 & Hr1 & _). rewrite Hal in H. cbn [mbind outcome_bind] in H.
  apply bind_ok_inv in H as ([s2 n] & H2 & H). injection H as <- <-.
  pose proof (next_n_touched _ _ _ _ H2) as Ht.
  assert (Hown : owned s2 = owned s1) by (destruct Ht as (_ & B & C & _); unfold owned; by rewrite !B, C).
  assert (Hr : r1 ∉ owned s2) by by rewrite Hown.
  split; [apply put_unowned_ok; [by eapply touched_ok|done|exact Hw]|]. split; [done|].
  cbn. rewrite lookup_insert_eq. by eexists.
Qed.

Lemma list_symbol_ok s envs r : symtab_ok s envs → r ∉ owned s → is_Some (sb_symbols s !! r) →
  symtab_ok (list_symbol r s) envs.
Proof. apply add_listed_ok. Qed.

Lemma get_string_type_touched depth s len s' t : get_string_type depth s len = Ok (s', t) → touched s s'.
Proof.
  unfold get_string_type. destruct (cached_type _ _); intros H; [by simplify_eq|].
  apply bind_ok_inv in H as ([ts t'] & _ & H). by injection H as <- <-.
Qed.

Lemma sym_create_table_entry_ok s envs base s' r : symtab_ok s envs →
  sym_create_table_entry s base = Ok (s', r) → symtab_ok s' envs.
Proof.
  intros Hok H. unfold sym_create_table_entry in H.
  destruct (alloc_ok s envs Hok) as (s1 & r1 & Hal & Hok1 & Hr1 & _). rewrite Hal in H. cbn [mbind outcome_bind] in H.
  unfold get_sym in H. apply bind_ok_inv in H as (b & Hb & H). apply defined_ok_inv in Hb.
  apply bind_ok_inv in H as (_ & _ & H). apply bind_ok_inv in H as (n & Hn & H). injection H as <- <-.
  destruct (sym_name_bytes b n (so_wf _ _ Hok1 _ _ Hb) Hn) as [Hbn Hln].
  apply list_symbol_ok.
  - apply put_unowned_ok; [done|done|]. by apply str_init_raw.
  - done.
  - cbn. rewrite lookup_insert_eq. by eexists.
Qed.

Lemma sym_discard_ok s envs r : symtab_ok s envs → r ∉ owned s → is_Some (sb_symbols s !! r) →
  symtab_ok (sym_discard s r) envs.
Proof.
  intros [Hns Hb Hw Ha Ho Hf] Hr Hs.
  assert (Hp : owned (sym_discard s r) ≡ₚ r :: owned s).
  { unfold owned, sym_discard. cbn. by rewrite <-!Permutation_middle, app_nil_r. }
  split; try done.
  - intros r'. rewrite Hp, elem_of_cons. intros [->|H]; [done|by apply Ha].
  - rewrite Hp. by apply NoDup_cons.
Qed.

Lemma yield_declaration_ok s envs id s' o : symtab_ok s envs → yield_declaration s id = Ok (s', o) →
  symtab_ok s' (env_set envs id (envs id)).
Proof.
  intros Hok H. unfold yield_declaration in H. apply bind_ok_inv in H as ([c o'] & _ & H). injection H as <- <-.
  apply set_ns_ok; [done| |done|].
  - eapply holds_same; [..|apply (so_ns _ _ Hok)]; done.
  - apply (so_bound _ _ Hok).
Qed.
