(* ===== verification/SymtabSpec.v ===== *)
(** * Theorems about the symbol table

    Scopes behave as lexical environments; every sequence of operations keeps
    each symbol allocated for as long as something refers to it; what adding a
    symbol binds, what is handed to the back end, and where names go wrong. *)

From stdpp Require Import base list gmap numbers decidable strings.
From Stdlib Require Import ZArith Lia.
From S2P Require Import Prelude CType CArith Strings Hash HashProps HashFree Symbol Typetree Symtab SymtabProps.

Local Open Scope Z_scope.

#[export] Instance symtab_ok_proper :
  Proper (eq ==> pointwise_relation nsid eq ==> iff) symtab_ok.
Proof.
  assert (H : ∀ s f g, (∀ id, f id = g id) → symtab_ok s f → symtab_ok s g).
  { intros s f g Hfg [Hns Hb Hw Ha Ho Hf]. split; try done.
    - intros id. by rewrite <-Hfg.
    - intros id m k r. rewrite <-Hfg. apply Hb. }
  intros s ? <- f g Hfg. split; apply H; intros id; by rewrite Hfg.
Qed.

Lemma env_set_set envs id a b : pointwise_relation nsid eq (env_set (env_set envs id a) id b) (env_set envs id b).
Proof. intros i. unfold env_set. by destruct (decide (i = id)). Qed.
Lemma env_set_same envs id : pointwise_relation nsid eq (env_set envs id (envs id)) envs.
Proof. intros i. unfold env_set. by destruct (decide (i = id)) as [->|]. Qed.

(** ** Scopes *)

Inductive scope_cmd : Type :=
  | K_push
  | K_pop
  | K_visible (r : symref) (k : list Z)
  | K_lookup (name : kstring).

(** The commands on a namespace; the results of the lookups, in order. *)
Fixpoint scope_run (s : symtab) (id : nsid) (cs : list scope_cmd) :
    outcome (symtab * list (option symref)) :=
  match cs with
  | [] => Ok (s, [])
  | K_push :: cs => s ← push_scope s id; scope_run s id cs
  | K_pop :: cs => s ← pop_scope s id; scope_run s id cs
  | K_visible r _ :: cs => s ← sym_make_visible s id r; scope_run s id cs
  | K_lookup name :: cs =>
      '(s, o) ← sym_lookup s id name; '(s, out) ← scope_run s id cs; Ok (s, o :: out)
  end.
(** The commands on an environment; the last scope is not popped. *)
Fixpoint env_run (env : list bindings) (cs : list scope_cmd) :
    option (list bindings * list (option symref)) :=
  match cs with
  | [] => Some (env, [])
  | K_push :: cs => env_run (∅ :: env) cs
  | K_pop :: cs => match env with _ :: m :: env => env_run (m :: env) cs | _ => None end
  | K_visible r k :: cs => match env with [] => None | _ => env_run (env_bind env k r) cs end
  | K_lookup name :: cs =>
      '(env', out) ← env_run env cs; Some (env', env_lookup env (str_raw name) :: out)
  end.

Definition cmd_ok (s : symtab) (id : nsid) (c : scope_cmd) : Prop :=
  match c with
  | K_visible r k => r ∈ ns_symbol (ns_of s id) ∧ named s r k
  | K_lookup name => wf_string name
  | _ => True
  end.

Lemma cmd_ok_mono s s' id c : (∀ r k, named s r k → named s' r k) →
  ns_symbol (ns_of s' id) = ns_symbol (ns_of s id) → cmd_ok s id c → cmd_ok s' id c.
Proof. intros Hn Hl. destruct c; try done. cbn. rewrite Hl. intros [? ?]. auto. Qed.

Lemma push_same s id s' : push_scope s id = Ok s' →
  sb_symbols s' = sb_symbols s ∧ ns_symbol (ns_of s' id) = ns_symbol (ns_of s id).
Proof.
  unfold push_scope, push_scope_ns. intros H. apply bind_ok_inv in H as (ns & Hp & H). injection H as <-.
  split; [done|]. rewrite ns_of_set. destruct (_ <? _)%nat; ok_inv; by subst.
Qed.

Lemma pop_same s envs id m m' env s' : symtab_ok s envs → envs id = m :: m' :: env → pop_scope s id = Ok s' →
  sb_symbols s' = sb_symbols s ∧ ns_symbol (ns_of s' id) = ns_symbol (ns_of s id).
Proof.
  intros Hok He. destruct (holds_length _ _ (so_ns _ _ Hok id)) as (_ & Hl & _). rewrite He in Hl.
  unfold pop_scope. rewrite Hl. cbn [length Nat.eqb negb c_assert mbind outcome_bind].
  intros H. injection H as <-. split; [done|]. by rewrite ns_of_set.
Qed.

Lemma scope_run_ok s envs id cs env out : symtab_ok s envs → Forall (cmd_ok s id) cs →
  env_run (envs id) cs = Some (env, out) →
  ∃ s', scope_run s id cs = Ok (s', out) ∧ symtab_ok s' (env_set envs id env).
Proof.
  intros Hok Hcs. revert s envs out Hok Hcs. induction cs as [|c cs IH]; intros s envs out Hok Hcs Hrun.
  { injection Hrun as <- <-. exists s. split; [done|]. by rewrite env_set_same. }
  apply Forall_cons in Hcs as [Hc Hcs].
  assert (Hstep : ∀ s1 env1 out1, symtab_ok s1 (env_set envs id env1) → (∀ r k, named s r k → named s1 r k) →
    ns_symbol (ns_of s1 id) = ns_symbol (ns_of s id) → env_run env1 cs = Some (env, out1) →
    ∃ s', scope_run s1 id cs = Ok (s', out1) ∧ symtab_ok s' (env_set envs id env)).
  { intros s1 env1 out1 Hok1 Hn Hl Hr. destruct (IH s1 (env_set envs id env1) out1) as (s' & ? & Hok').
    - done.
    - eapply Forall_impl; [exact Hcs|]. intros c' Hc'. by eapply cmd_ok_mono.
    - by rewrite env_set_eq.
    - exists s'. rewrite env_set_set in Hok'. done. }
  assert (Hkeep : ∀ s1, sb_symbols s1 = sb_symbols s → ∀ r k, named s r k → named s1 r k)
    by (intros s1 Hs r k (y & ? & ?); exists y; by rewrite Hs).
  destruct c as [| |r k|name]; cbn [scope_run env_run cmd_ok] in *.
  - destruct (push_scope_ok s envs id Hok) as (s1 & Hp & Hok1). rewrite Hp. cbn [mbind outcome_bind].
    destruct (push_same _ _ _ Hp). eapply Hstep; eauto.
  - destruct (envs id) as [|m [|m' env']] eqn:He; [done..|].
    destruct (pop_scope_inner s envs id m (m' :: env') Hok He ltac:(done)) as (s1 & Hp & Hok1).
    rewrite Hp. cbn [mbind outcome_bind]. destruct (pop_same _ _ _ _ _ _ _ Hok He Hp). eapply Hstep; eauto.
  - destruct Hc as [Hr Hn]. destruct (envs id) as [|m env'] eqn:He; [done|].
    destruct (sym_make_visible_ok s envs id m env' r k Hok He Hr Hn) as (s1 & Hv & Hok1 & Hl & Hs & _).
    rewrite Hv. cbn [mbind outcome_bind]. rewrite He in Hok1. eapply Hstep; eauto.
  - destruct (sym_lookup_ok s envs id name Hok Hc) as (s1 & Hl & Ht). rewrite Hl. cbn [mbind outcome_bind].
    destruct (env_run (envs id) cs) as [[env1 out1]|] eqn:Hr; [|done]. injection Hrun as -> <-.
    destruct (Hstep s1 (envs id) out1) as (s' & -> & Hok'); [|by intros; eapply touched_named|by rewrite (proj1 (proj2 Ht))|done|].
    + rewrite env_set_same. by eapply touched_ok.
    + exists s'. by split.
Qed.

(** C12: pushing and popping scopes, adding symbols to the innermost one and
    looking names up, with hash tables that are made or emptied only when a
    symbol is added, behaves as an environment of finite maps does: a lookup
    finds the innermost binding, and leaving a scope restores the bindings
    outside. *)
Theorem scopes_are_environments s envs id cs env out : symtab_ok s envs → Forall (cmd_ok s id) cs →
  env_run (envs id) cs = Some (env, out) →
  ∃ s', scope_run s id cs = Ok (s', out) ∧ symtab_ok s' (env_set envs id env).
Proof. apply scope_run_ok. Qed.

(** Two symbols [x] of the identifiers, in no scope yet. *)
Definition demo_x : symbol := new_symbol (str_of (cstr "x")) basic_type__int SYM_DEFINITION LINK_NONE 0 0 NoValue.
Definition demo_symtab : symtab :=
  add_listed NS_IDENT 9%N (put_sym 9%N demo_x (add_listed NS_IDENT 7%N (put_sym 7%N demo_x symtab_start))).

Lemma str_of_wf l : Z.of_nat (length l) < 2 ^ 16 → Forall is_byte l →
  str_raw (str_of l) = l ∧ wf_string (str_of l).
Proof. apply str_init_raw. Qed.

Lemma demo_symtab_ok : symtab_ok demo_symtab (λ _, []).
Proof.
  assert (Hw : wf_string (Symbol.sym_name demo_x)) by (apply str_of_wf; [done|repeat constructor; done]).
  assert (H7 : symtab_ok (add_listed NS_IDENT 7%N (put_sym 7%N demo_x symtab_start)) (λ _, [])).
  { apply add_listed_ok; [|apply not_elem_of_nil|by eexists].
    apply put_unowned_ok; [apply symtab_start_ok|apply not_elem_of_nil|exact Hw]. }
  apply add_listed_ok; [|change (9%N ∉ [7%N]); by rewrite list_elem_of_singleton|by eexists].
  apply put_unowned_ok; [exact H7|change (9%N ∉ [7%N]); by rewrite list_elem_of_singleton|exact Hw].
Qed.

Lemma demo_visible : cmd_ok demo_symtab NS_IDENT (K_visible 7%N (cstr "x")) ∧
  cmd_ok demo_symtab NS_IDENT (K_visible 9%N (cstr "x")) ∧ wf_string (str_of (cstr "x")).
Proof.
  split; [|split].
  - split; [by apply list_elem_of_lookup; exists 0%nat|by eexists].
  - split; [by apply list_elem_of_lookup; exists 1%nat|by eexists].
  - apply str_of_wf; [done|repeat constructor; done].
Qed.

Lemma scopes_are_environments_witness :
  let x := cstr "x" in
  let cs := [K_push; K_visible 7%N x; K_push; K_lookup (str_of x); K_visible 9%N x; K_lookup (str_of x);
             K_pop; K_lookup (str_of x); K_push; K_lookup (str_of x); K_visible 9%N x; K_lookup (str_of x)] in
  ∃ env s', scope_run demo_symtab NS_IDENT cs = Ok (s', [Some 7; Some 9; Some 7; Some 7; Some 9]%N) ∧
    symtab_ok s' (env_set (λ _, []) NS_IDENT env).
Proof.
  eexists. apply (scopes_are_environments demo_symtab (λ _, []) NS_IDENT).
  - apply demo_symtab_ok.
  - destruct demo_visible as (H7 & H9 & Hw).
    repeat (apply Forall_cons; split); try exact I; try exact Hw; try exact H7; try exact H9. apply Forall_nil. exact I.
  - vm_compute. reflexivity.
Defined.

(** ** Every sequence of operations *)

Inductive sym_op : Type :=
  | Op_push (id : nsid)
  | Op_pop (id : nsid)
  | Op_lookup (id : nsid) (name : kstring)
  | Op_add (id : nsid) (name : kstring) (t : ctype) (st : symtype) (lk : linkage) (dt : decltype)
  | Op_visible (id : nsid) (r : symref)
  | Op_temporary (t : ctype)
  | Op_unnamed (t : ctype)
  | Op_label
  | Op_constant (t : ctype) (val : Z)
  | Op_string (str : kstring)
  | Op_table
  | Op_table_entry (base : symref)
  | Op_discard (r : symref)
  | Op_types (ts : typetab)
  | Op_yield (id : nsid).

Section operations.
Variable depth : nat.

Definition sym_exec (op : sym_op) (s : symtab) : outcome symtab :=
  match op with
  | Op_push id => push_scope s id
  | Op_pop id => pop_scope s id
  | Op_lookup id name => '(s, _) ← sym_lookup s id name; Ok s
  | Op_add id name t st lk dt => '(s, _) ← sym_add depth s id name t st lk dt; Ok s
  | Op_visible id r => sym_make_visible s id r
  | Op_temporary t => '(s, _) ← sym_create_temporary s t; Ok s
  | Op_unnamed t => '(s, _) ← sym_create_unnamed s t; Ok s
  | Op_label => '(s, _) ← sym_create_label s; Ok s
  | Op_constant t v => '(s, _) ← sym_create_constant s t v; Ok s
  | Op_string str => '(s, _) ← sym_create_string depth s str; Ok s
  | Op_table => '(s, _) ← sym_create_table s; Ok s
  | Op_table_entry base => '(s, _) ← sym_create_table_entry s base; Ok s
  | Op_discard r => Ok (sym_discard s r)
  | Op_types ts => Ok (set_types ts s)
  | Op_yield id => '(s, _) ← yield_declaration s id; Ok s
  end.

(** What the parser passes: names of the string table, functions in the
    identifiers only, symbols of the namespace, and back to the temporaries
    only what is in no list. *)
Definition op_ok (s : symtab) (op : sym_op) : Prop :=
  match op with
  | Op_lookup _ name => wf_string name
  | Op_add id name t _ _ _ => wf_string name ∧ (id = NS_IDENT ∨ is_function t = false)
  | Op_visible id r => r ∈ ns_symbol (ns_of s id)
  | Op_discard r => ¬ (r ∈ owned s) ∧ is_Some (sb_symbols s !! r)
  | _ => True
  end.

Inductive reachable : symtab → Prop :=
  | reach_start : reachable symtab_start
  | reach_step op s s' : reachable s → op_ok s op → sym_exec op s = Ok s' → reachable s'.

Lemma prefix_wf l : Forall is_byte l → (length l < 14)%nat → wf_string (str_of l).
Proof. intros Hb Hl. apply str_of_wf; [lia|done]. Qed.

Lemma created_ok s envs c name t st lk v s' r : symtab_ok s envs → Forall is_byte name → (length name < 14)%nat →
  sym_create s c name t st lk v = Ok (s', r) → symtab_ok s' envs ∧ symtab_ok (list_symbol r s') envs.
Proof.
  intros Hok Hb Hl H. destruct (sym_create_ok _ _ _ _ _ _ _ _ _ _ Hok (prefix_wf _ Hb Hl) H) as (? & ? & ?).
  split; [done|]. by apply list_symbol_ok.
Qed.

Lemma exec_add_ok s envs id name t st lk dt s' : symtab_ok s envs → op_ok s (Op_add id name t st lk dt) →
  sym_exec (Op_add id name t st lk dt) s = Ok s' → ∃ envs', symtab_ok s' envs'.
Proof.
  intros Hok [Hw Hid] H. cbn [sym_exec] in H. apply bind_ok_inv in H as ([s1 r] & H & H1). injection H1 as <-.
  destruct (sym_add_ok _ _ _ _ _ _ _ _ _ _ _ Hok Hw Hid H) as (_ & [[_ ?]|?]); eauto.
Qed.

(** Popping the innermost scope, the last one or not. *)
Lemma pop_cases s envs id : symtab_ok s envs → ns_len (ns_of s id) ≠ 0%nat →
  (∃ s' envs', pop_scope s id = Ok s' ∧ symtab_ok s' envs') ∨ ∃ msg, pop_scope s id = Exit msg.
Proof.
  intros Hok Hn. destruct (holds_length _ _ (so_ns _ _ Hok id)) as (_ & Hl & _).
  destruct (envs id) as [|m [|m' env]] eqn:He; [done|..].
  - destruct (pop_scope_last s envs id m Hok He) as [(s' & Hp & Hok' & _)|?]; [left; eauto|by right].
  - destruct (pop_scope_inner s envs id m (m' :: env) Hok He ltac:(done)) as (s' & Hp & Hok'). left. eauto.
Qed.

(** The operations that make a symbol of their own. *)
Definition creates (op : sym_op) : bool :=
  match op with
  | Op_temporary _ | Op_unnamed _ | Op_label | Op_constant _ _ | Op_string _ | Op_table | Op_table_entry _ => true
  | _ => false
  end.
Ltac result_inv H :=
  let s1 := fresh "s1" in let r1 := fresh "r1" in let H1 := fresh "H1" in
  apply bind_ok_inv in H as ([s1 r1] & H & H1); injection H1 as <-; try injection H1 as <-.

Lemma exec_create_ok s envs op s' : symtab_ok s envs → creates op = true → sym_exec op s = Ok s' →
  symtab_ok s' envs.
Proof.
  intros Hok Hc H.
  assert (Hone : ∀ s0 c name t st lk v s1 r, symtab_ok s0 envs → Forall is_byte name → (length name < 14)%nat →
    sym_create s0 c name t st lk v = Ok (s1, r) → symtab_ok s1 envs ∧ symtab_ok (list_symbol r s1) envs)
    by (intros; by eapply created_ok).
  assert (Hb : Forall is_byte PREFIX_TEMPORARY ∧ Forall is_byte PREFIX_UNNAMED ∧ Forall is_byte PREFIX_CONSTANT ∧
    Forall is_byte PREFIX_STRING ∧ Forall is_byte PREFIX_LABEL ∧ Forall is_byte PREFIX_TABLE)
    by (repeat split; repeat constructor; done).
  destruct Hb as (Bt & Bu & Bc & Bs & Bl & Ba). destruct op; try discriminate Hc; cbn [sym_exec] in H; result_inv H.
  - eapply Hone; [exact Hok|exact Bt|cbn; lia|exact H].
  - unfold sym_create_unnamed in H. apply bind_ok_inv in H as (d & _ & H). result_inv H.
    eapply Hone; [exact Hok|exact Bu|cbn; lia|exact H].
  - eapply Hone; [exact Hok|exact Bl|cbn; lia|exact H].
  - unfold sym_create_constant in H. result_inv H. eapply Hone; [exact Hok|exact Bc|cbn; lia|exact H].
  - unfold sym_create_string in H. apply bind_ok_inv in H as ([s2 t] & Hs & H). apply get_string_type_touched in Hs.
    result_inv H. eapply Hone; [by eapply touched_ok|exact Bs|cbn; lia|exact H].
  - unfold sym_create_table in H. result_inv H. eapply Hone; [exact Hok|exact Ba|cbn; lia|exact H].
  - by eapply sym_create_table_entry_ok.
Qed.

Lemma exec_visible_ok s envs id r s' : symtab_ok s envs → r ∈ ns_symbol (ns_of s id) →
  sym_make_visible s id r = Ok s' → ∃ envs', symtab_ok s' envs'.
Proof.
  intros Hok Hr H. destruct (so_alive _ _ Hok r) as [y Hy]; [by eapply listed_owned|].
  destruct (envs id) as [|m env] eqn:He.
  - destruct (holds_length _ _ (so_ns _ _ Hok id)) as (_ & Hl & _). rewrite He in Hl.
    unfold sym_make_visible, ready_scope in H. rewrite Hl in H. done.
  - destruct (sym_make_visible_ok s envs id m env r _ Hok He Hr (ex_intro _ y (conj Hy eq_refl))) as (s2 & Hv & ? & _).
    rewrite Hv in H. injection H as <-. eauto.
Qed.

Lemma exec_ok s envs op s' : symtab_ok s envs → op_ok s op → sym_exec op s = Ok s' →
  ∃ envs', symtab_ok s' envs'.
Proof.
  intros Hok Hop H. destruct (creates op) eqn:Hc; [exists envs; by eapply exec_create_ok|].
  destruct op; try discriminate Hc; cbn [op_ok] in Hop.
  - destruct (push_scope_ok s envs id Hok) as (s2 & Hp & ?). cbn [sym_exec] in H. rewrite Hp in H.
    injection H as <-. eauto.
  - cbn [sym_exec] in H. destruct (decide (ns_len (ns_of s id) = 0%nat)) as [E|E].
    + unfold pop_scope in H. by rewrite E in H.
    + destruct (pop_cases s envs id Hok E) as [(s2 & envs' & Hp & ?)|[msg Hp]]; rewrite Hp in H; [|done].
      injection H as <-. eauto.
  - destruct (sym_lookup_ok s envs id name Hok Hop) as (s2 & Hl & Ht). cbn [sym_exec] in H. rewrite Hl in H.
    injection H as <-. exists envs. by eapply touched_ok.
  - by eapply exec_add_ok.
  - by eapply exec_visible_ok.
  - cbn [sym_exec] in H. injection H as <-. exists envs. destruct Hop. by apply sym_discard_ok.
  - cbn [sym_exec] in H. injection H as <-. exists envs. by apply type_table_ok.
  - cbn [sym_exec] in H. result_inv H. eexists. by eapply yield_declaration_ok.
Qed.

Lemma reachable_ok s : reachable s → ∃ envs, symtab_ok s envs.
Proof.
  induction 1 as [|op s s' _ [envs Hok] Hop H]; [exists (λ _, []); apply symtab_start_ok|].
  by eapply exec_ok.
Qed.

(** C13: whatever the parser does with the symbol table, no symbol has two
    owners, no symbol that a namespace, a scope or the list of temporaries
    refers to is freed, every lookup succeeds without touching a freed symbol or
    an uninitialised table and finds a symbol with that name, and leaving a
    scope, the last one included, frees nothing twice. *)
Theorem symtab_safe s : reachable s →
  NoDup (owned s) ∧ (∀ r, r ∈ owned s → is_Some (sb_symbols s !! r)) ∧
  (∀ id name, wf_string name → ∃ s' o, sym_lookup s id name = Ok (s', o) ∧
     ∀ r, o = Some r → r ∈ ns_symbol (ns_of s id) ∧ named s r (str_raw name)) ∧
  (∀ id, ns_len (ns_of s id) ≠ 0%nat →
     (∃ s', pop_scope s id = Ok s' ∧ reachable s') ∨ ∃ msg, pop_scope s id = Exit msg).
Proof.
  intros Hr. destruct (reachable_ok s Hr) as [envs Hok].
  split; [apply (so_owned _ _ Hok)|]. split; [apply (so_alive _ _ Hok)|]. split.
  - intros id name Hw. destruct (sym_lookup_ok s envs id name Hok Hw) as (s' & Hl & _). eexists _, _. split; [done|].
    intros r Hr'. apply env_lookup_elem in Hr' as (m & Hm & Hk). by eapply so_bound.
  - intros id Hn. destruct (pop_cases s envs id Hok Hn) as [(s' & envs' & Hp & _)|?]; [left|by right].
    exists s'. split; [done|]. by eapply (reach_step (Op_pop id)).
Qed.

End operations.

Fixpoint after_ops (depth : nat) (ops : list sym_op) (s : symtab) : outcome symtab :=
  match ops with [] => Ok s | op :: ops => s ← sym_exec depth op s; after_ops depth ops s end.
Lemma reachable_ops depth ops s s' : reachable depth s → Forall (λ op, ∀ s, op_ok s op) ops →
  after_ops depth ops s = Ok s' → reachable depth s'.
Proof.
  intros Hr Hops. revert s Hr. induction Hops as [|op ops Hop _ IH]; intros s Hr H; cbn in H; [by injection H as <-|].
  apply bind_ok_inv in H as (s1 & H1 & H). apply (IH s1); [|done]. by eapply reach_step.
Qed.

(** A file with [int x], a block with a label and another [x]. *)
Definition demo_ops : list sym_op :=
  [Op_push NS_IDENT; Op_add NS_IDENT (str_of (cstr "x")) basic_type__int SYM_TENTATIVE LINK_EXTERN DECL_NORMAL;
   Op_push NS_IDENT; Op_label; Op_add NS_IDENT (str_of (cstr "x")) basic_type__char SYM_DEFINITION LINK_NONE DECL_NORMAL;
   Op_pop NS_IDENT].
Definition demo_state : symtab := match after_ops 3 demo_ops symtab_start with Ok s => s | _ => symtab_start end.
Lemma demo_reached : reachable 3 demo_state.
Proof.
  apply (reachable_ops 3 demo_ops symtab_start); [constructor| |vm_compute; reflexivity].
  assert (Hw : wf_string (str_of (cstr "x"))) by (apply str_of_wf; [done|repeat constructor; done]).
  repeat (apply Forall_cons; split); try (intros s; exact I); try (intros s; split; [exact Hw|by right]).
  apply Forall_nil. exact I.
Qed.
Lemma symtab_safe_witness :
  ns_symbol (ns_of demo_state NS_IDENT) = [0; 2]%N ∧
  NoDup (owned demo_state) ∧ (∀ r, r ∈ owned demo_state → is_Some (sb_symbols demo_state !! r)) ∧
  (∀ id name, wf_string name → ∃ s' o, sym_lookup demo_state id name = Ok (s', o) ∧
     ∀ r, o = Some r → r ∈ ns_symbol (ns_of demo_state id) ∧ named demo_state r (str_raw name)) ∧
  (∀ id, ns_len (ns_of demo_state id) ≠ 0%nat →
     (∃ s', pop_scope demo_state id = Ok s' ∧ reachable 3 s') ∨ ∃ msg, pop_scope demo_state id = Exit msg).
Proof. split; [vm_compute; reflexivity|]. apply (symtab_safe 3 demo_state), demo_reached. Defined.

(** ** Declarations *)

Section declare.
Variable depth : nat.

(** A symbol that is added successfully has the name it was added under,
    and the name is bound to it: it was found in an enclosing scope and
    completed there, or it is bound in the innermost scope, unless that scope
    binds the name already. *)
Theorem sym_add_binds s envs id name t st lk dt s' r : symtab_ok s envs → wf_string name →
  id = NS_IDENT ∨ is_function t = false →
  sym_add depth s id name t st lk dt = Ok (s', r) →
  named s' r (str_raw name) ∧
  ((∃ m env, envs id = m :: env ∧ (m !! str_raw name = None ∨ m !! str_raw name = Some r)) →
   ∃ s'', sym_lookup s' id name = Ok (s'', Some r)).
Proof.
  intros Hok Hw Hid H. destruct (sym_add_ok _ _ _ _ _ _ _ _ _ _ _ Hok Hw Hid H) as [Hn Hcase].
  split; [done|]. intros (m & env & He & Hm). destruct Hcase as [[Hl Hok']|Hok'].
  - destruct (sym_lookup_ok s' envs id name Hok' Hw) as (s'' & Hl' & _). rewrite Hl in Hl'. eauto.
  - destruct (sym_lookup_ok s' _ id name Hok' Hw) as (s'' & Hl' & _). rewrite env_set_eq, He in Hl'.
    exists s''. rewrite Hl'. repeat f_equal. destruct Hm as [Hm|Hm]; [by apply env_lookup_bind|].
    cbn. unfold bind. by rewrite Hm, Hm.
Qed.

(** A new local variable is registered, whatever its name. *)
Lemma register_local s envs m env name t d : symtab_ok s envs → wf_string name → envs NS_IDENT = m :: env →
  is_function t = false → ∃ s' r, sym_register s NS_IDENT name t SYM_DEFINITION LINK_NONE d = Ok (s', r).
Proof.
  intros Hok Hw He Hf. destruct (alloc_ok s envs Hok) as (s1 & r & Hal & Hok1 & Hr & Hs & Hns & _).
  unfold sym_register. rewrite Hal. cbn [mbind outcome_bind].
  change (bool_decide (LINK_NONE = LINK_INTERN) && _) with false. cbn iota beta.
  change (bool_decide (SYM_DEFINITION = SYM_TAG) || bool_decide (SYM_DEFINITION = SYM_TYPEDEF)) with false. cbn iota beta.
  cbn [mbind outcome_bind]. rewrite Hf, andb_false_r. set (y := new_symbol name t SYM_DEFINITION LINK_NONE 0 d NoValue).
  set (b := bool_decide (decl_memcpy (put_sym r y s1) = None) && _).
  set (s2 := if b then set_memcpy (Some r) (put_sym r y s1) else put_sym r y s1).
  assert (Hok2 : symtab_ok s2 envs ∧ owned s2 = owned s1 ∧ sb_symbols s2 !! r = Some y).
  { assert (Hp : symtab_ok (put_sym r y s1) envs) by (by apply put_unowned_ok).
    unfold s2. destruct b; (split; [|split; [done|apply lookup_insert_eq]]); [|done].
    by eapply touched_ok; [|exact Hp]. }
  destruct Hok2 as (Hok2 & Hown & Hs2). fold (add_listed NS_IDENT r s2).
  assert (Hok3 : symtab_ok (add_listed NS_IDENT r s2) envs) by (apply add_listed_ok; [done|by rewrite Hown|by eexists]).
  destruct (sym_make_visible_ok _ envs NS_IDENT m env r (str_raw name) Hok3 He) as (s4 & Hv & _).
  { unfold add_listed. rewrite ns_of_set. cbn. rewrite elem_of_app. right. by constructor. }
  { by exists y. }
  rewrite Hv. cbn [mbind outcome_bind]. eauto.
Qed.

(** Declaring a variable in a block again in the same block is not
    diagnosed: a second symbol is registered, and the name keeps denoting the
    first one.  The error "Duplicate definition" is behind a test that only
    symbols of file scope pass, and asks for a symbol of another scope. *)
Theorem duplicate_local_accepted s envs m m' env name t r0 y0 : symtab_ok s envs → wf_string name →
  envs NS_IDENT = m :: m' :: env → is_function t = false →
  m !! str_raw name = Some r0 → sb_symbols s !! r0 = Some y0 →
  ∃ s' r s'', sym_add depth s NS_IDENT name t SYM_DEFINITION LINK_NONE DECL_NORMAL = Ok (s', r) ∧
    r ≠ r0 ∧ named s' r (str_raw name) ∧ sym_lookup s' NS_IDENT name = Ok (s'', Some r0).
Proof.
  intros Hok Hw He Hf Hm Hy0. destruct (sym_lookup_ok s envs NS_IDENT name Hok Hw) as (s1 & Hl & Ht).
  rewrite He in Hl. cbn [env_lookup] in Hl. rewrite Hm in Hl. pose proof (touched_ok _ _ _ Ht Hok) as Hok1.
  pose proof (so_ns _ _ Hok1 NS_IDENT) as Hn. rewrite He in Hn.
  destruct (register_local s1 envs m (m' :: env) name t (Z.of_nat (length (m' :: env))) Hok1 Hw He Hf) as (s2 & r & Hr).
  destruct (sym_register_ok s1 envs NS_IDENT m (m' :: env) name t SYM_DEFINITION LINK_NONE _ s2 r
    Hok1 Hw He (or_introl eq_refl) Hr) as (Hok2 & Hn2 & Hnew).
  destruct (sym_lookup_ok s2 _ NS_IDENT name Hok2 Hw) as (s3 & Hl2 & _).
  rewrite env_set_eq, He in Hl2. cbn [env_bind env_lookup] in Hl2. unfold bind in Hl2. rewrite Hm, Hm in Hl2.
  exists s2, r, s3. split; [|split; [|by split]].
  - unfold sym_add. cbn [c_assert mbind outcome_bind negb bool_decide_true].
    change (negb (bool_decide (SYM_DEFINITION = SYM_LABEL))) with true.
    change (negb (bool_decide (SYM_DEFINITION = SYM_TAG)) || _) with true. cbn [c_assert mbind outcome_bind].
    rewrite Hl. cbn [mbind outcome_bind]. rewrite (depth_of _ _ _ Hn). cbn [mbind outcome_bind].
    destruct (touched_named s s1 r0 (str_raw (Symbol.sym_name y0)) Ht) as (y1 & Hy1 & _); [by exists y0|].
    unfold get_sym. rewrite Hy1. cbn [defined mbind outcome_bind].
    destruct (Z.eqb_spec (Z.of_nat (length (m' :: env))) 0); [cbn in *; lia|]. cbn [orb].
    change (bool_decide (LINK_NONE = LINK_EXTERN)) with false. cbn [andb]. exact Hr.
  - intros ->. apply (Hnew NS_IDENT). rewrite <-He in Hn.
    apply (so_bound _ _ Hok1 NS_IDENT m (str_raw name) r0); [rewrite He; constructor|done].
Qed.
End declare.


(** A block in which [x] is bound to the symbol 7. *)
Definition demo_scopes : list scope_cmd := [K_push; K_push; K_visible 7%N (cstr "x")].
Definition demo_block : symtab :=
  match scope_run demo_symtab NS_IDENT demo_scopes with Ok (s, _) => s | _ => demo_symtab end.
Lemma demo_block_ok :
  symtab_ok demo_block (env_set (λ _, []) NS_IDENT [<[cstr "x" := 7%N]> ∅; ∅]).
Proof.
  destruct (scope_run_ok demo_symtab (λ _, []) NS_IDENT demo_scopes [<[cstr "x" := 7%N]> ∅; ∅] []) as (s' & Hr & Hok).
  - apply demo_symtab_ok.
  - destruct demo_visible as (H7 & _). repeat (apply Forall_cons; split); try exact I; try exact H7. by apply Forall_nil.
  - vm_compute. reflexivity.
  - unfold demo_block. by rewrite Hr.
Qed.

Lemma sym_add_binds_witness :
  let r := sym_add 3 demo_block NS_IDENT (str_of (cstr "y")) basic_type__int SYM_DEFINITION LINK_NONE DECL_NORMAL in
  match r with
  | Ok (s', r) => named s' r (cstr "y") ∧
      ((∃ (m : bindings) env, [<[cstr "x" := 7%N]> ∅; ∅] = m :: env ∧ (m !! cstr "y" = None ∨ m !! cstr "y" = Some r)) →
       ∃ s'', sym_lookup s' NS_IDENT (str_of (cstr "y")) = Ok (s'', Some r))
  | _ => False
  end.
Proof.
  destruct (sym_add 3 demo_block NS_IDENT (str_of (cstr "y")) basic_type__int SYM_DEFINITION LINK_NONE DECL_NORMAL)
    as [[s' r]|msg|why] eqn:E; [|vm_compute in E; discriminate E..].
  apply (sym_add_binds 3 demo_block _ NS_IDENT (str_of (cstr "y")) basic_type__int SYM_DEFINITION LINK_NONE DECL_NORMAL
    s' r demo_block_ok); [|by left|exact E].
  apply str_of_wf; [done|repeat constructor; done].
Defined.

Lemma duplicate_local_accepted_witness :
  let x := str_of (cstr "x") in
  ∃ s' r s'', sym_add 3 demo_block NS_IDENT x basic_type__int SYM_DEFINITION LINK_NONE DECL_NORMAL = Ok (s', r) ∧
    r ≠ 7%N ∧ named s' r (str_raw x) ∧ sym_lookup s' NS_IDENT x = Ok (s'', Some 7%N).
Proof.
  apply (duplicate_local_accepted 3 demo_block _ (<[cstr "x" := 7%N]> ∅) ∅ [] (str_of (cstr "x"))
    basic_type__int 7%N demo_x demo_block_ok).
  - apply demo_visible.
  - reflexivity.
  - reflexivity.
  - vm_compute. reflexivity.
  - vm_compute. reflexivity.
Defined.

(** ** What is handed to the back end *)

(** The loop [while ((sym = yield_declaration(&ns_ident)) != NULL)] of
    [process_file]: the symbols that the back end gets. *)
Fixpoint declare_all (fuel : nat) (s : symtab) (id : nsid) : outcome (symtab * list symref) :=
  match fuel with
  | O => Undef "endless loop"
  | S fuel =>
      '(s, o) ← yield_declaration s id;
      match o with Some r => '(s, l) ← declare_all fuel s id; Ok (s, r :: l) | None => Ok (s, []) end
  end.

(** The symbols that an object file has to name although no definition of the
    parser does: objects without an initializer, string literals,
    floating-point constants, and what is imported, if it is used or if the code
    generator may call it ([memcpy]). *)
Inductive needs_output (s : symtab) (r : symref) : symbol → Prop :=
  | needs_tentative y : sym_symtype y = SYM_TENTATIVE → needs_output s r y
  | needs_string y : sym_symtype y = SYM_STRING_VALUE → needs_output s r y
  | needs_constant y : sym_symtype y = SYM_CONSTANT →
      etype_code T_FLOAT ≤ etype_code (type_of (sym_type y)) ≤ etype_code T_LDOUBLE → needs_output s r y
  | needs_import y : sym_symtype y = SYM_DECLARATION → sym_linkage y = LINK_EXTERN →
      sym_referenced y ≠ 0 ∨ decl_memcpy s = Some r → needs_output s r y.

Lemma is_real_spec t : is_real t = true ↔ etype_code T_FLOAT ≤ etype_code (type_of t) ≤ etype_code T_LDOUBLE.
Proof. unfold is_real, between. rewrite andb_true_iff, !Z.leb_le. done. Qed.
Lemma listed_nodup s envs id : symtab_ok s envs → NoDup (ns_symbol (ns_of s id)).
Proof.
  intros Hok. pose proof (so_owned _ _ Hok) as H. unfold owned in H. rewrite !NoDup_app in H. destruct id; tauto.
Qed.

Lemma yielded_spec s r y : yielded s r y = true ↔ needs_output s r y.
Proof.
  unfold yielded. split.
  - destruct (sym_symtype y) eqn:Et; try discriminate; intros H.
    + by apply needs_tentative.
    + apply andb_prop in H as [Hl H]. apply bool_decide_eq_true in Hl. apply needs_import; [done|done|].
      apply orb_prop in H as [H|H]; [left; intros E; by rewrite E in H|right; by apply bool_decide_eq_true in H].
    + by apply needs_string.
    + apply needs_constant; [done|]. by apply is_real_spec.
  - destruct 1 as [y Et|y Et|y Et Hr|y Et Hl H]; rewrite Et; [done|done| |].
    + by apply is_real_spec.
    + apply andb_true_intro. split; [by apply bool_decide_eq_true|]. apply orb_true_intro.
      destruct H as [H|H]; [left; by apply negb_true_iff, Z.eqb_neq|right; by apply bool_decide_eq_true].
Qed.

Definition pending (s : symtab) (r : symref) : bool :=
  match sb_symbols s !! r with Some y => yielded s r y | None => false end.

Lemma pending_same s s' r : sb_symbols s' = sb_symbols s → decl_memcpy s' = decl_memcpy s → pending s' r = pending s r.
Proof. intros H1 H2. unfold pending, yielded. by rewrite H1, H2. Qed.

(** One call: the next pending symbol, or the end of the list. *)
Lemma yield_from_ok s l c : (∀ r, r ∈ l → is_Some (sb_symbols s !! r)) → ∃ c' o, yield_from s l c = Ok (c', o) ∧
  match o with
  | None => filter (λ r, pending s r) l = [] ∧ c' = (c + length l)%nat
  | Some r => ∃ l', filter (λ r, pending s r) l = r :: filter (λ r, pending s r) l' ∧
      (c < c')%nat ∧ drop (c' - c) l = l' ∧ (c' - c ≤ length l)%nat
  end.
Proof.
  revert c. induction l as [|r l IH]; intros c Hal; cbn [yield_from]; [exists c, None; split_and!; try done; cbn; lia|].
  destruct (Hal r) as [y Hy]; [constructor|]. unfold get_sym. rewrite Hy. cbn [defined mbind outcome_bind].
  assert (Hp : pending s r = yielded s r y) by (unfold pending; by rewrite Hy).
  destruct (yielded s r y) eqn:E.
  - exists (S c), (Some r). split; [done|]. exists l. rewrite filter_cons_True by (by rewrite Hp).
    split; [done|]. split; [lia|]. replace (S c - c)%nat with 1%nat by lia. cbn. split; [done|lia].
  - rewrite filter_cons_False by (rewrite Hp; by intros []). destruct (IH (S c)) as (c' & o & -> & Ho); [intros; apply Hal; by constructor|].
    exists c', o. split; [done|]. destruct o as [r'|]; [|destruct Ho; split; [done|cbn; lia]].
    destruct Ho as (l' & Hf & Hc & Hd & Hl).
    exists l'. split; [done|]. split; [lia|]. replace (c' - c)%nat with (S (c' - S c)) by lia. cbn. split; [done|lia].
Qed.

Lemma declare_all_ok fuel s id l : drop (ns_cursor (ns_of s id)) (ns_symbol (ns_of s id)) = l →
  (length l < fuel)%nat → (∀ r, r ∈ l → is_Some (sb_symbols s !! r)) →
  ∃ s', declare_all fuel s id = Ok (s', filter (λ r, pending s r) l) ∧
    drop (ns_cursor (ns_of s' id)) (ns_symbol (ns_of s' id)) = [].
Proof.
  revert s l. induction fuel as [|fuel IH]; intros s l Hl Hf Hal; [lia|]. cbn [declare_all].
  unfold yield_declaration. rewrite Hl.
  destruct (yield_from_ok s l (ns_cursor (ns_of s id)) Hal) as (c' & o & -> & Ho). cbn [mbind outcome_bind].
  destruct o as [r|].
  - destruct Ho as (l' & Hfil & Hc & Hd & Hle). set (s' := set_ns id _ s). destruct (IH s' l') as (s1 & -> & Hend).
    + unfold s'. rewrite ns_of_set. cbn. rewrite <-Hd, <-Hl, drop_drop. f_equal. lia.
    + rewrite <-Hd, length_drop. lia.
    + intros r' Hr'. apply Hal. rewrite <-Hd in Hr'. eapply subseteq_drop; exact Hr'.
    + exists s1. cbn [mbind outcome_bind]. by rewrite Hfil.
  - destruct Ho as [-> ->]. eexists. split; [done|]. rewrite ns_of_set. cbn.
    rewrite <-drop_drop, Hl. by apply drop_ge.
Qed.

(** C34: the loop of the driver over [yield_declaration] ends and gives the back
    end exactly the symbols listed since the last call that have to be in the
    output ([needs_output]), each once, in the order in which they were listed;
    behind it, [yield_declaration] returns NULL until more are listed. *)
Theorem yield_declaration_complete depth s id : reachable depth s →
  let listed := drop (ns_cursor (ns_of s id)) (ns_symbol (ns_of s id)) in
  ∃ s' l, declare_all (S (length listed)) s id = Ok (s', l) ∧ NoDup l ∧ l `sublist_of` listed ∧
    (∀ r, r ∈ l ↔ r ∈ listed ∧ ∃ y, sb_symbols s !! r = Some y ∧ needs_output s r y) ∧
    (∃ s'', yield_declaration s' id = Ok (s'', None)).
Proof.
  intros Hr listed. destruct (reachable_ok depth s Hr) as [envs Hok].
  assert (Hlisted : ∀ r, r ∈ listed → r ∈ ns_symbol (ns_of s id)) by (intros r H; eapply subseteq_drop; exact H).
  destruct (declare_all_ok (S (length listed)) s id listed) as (s' & Hd & Hend); [done|lia| |].
  { intros r H. by apply (so_alive _ _ Hok), (listed_owned s id), Hlisted. }
  exists s', (filter (λ r, pending s r) listed). split; [exact Hd|]. split; [|split; [apply sublist_filter|split]].
  - apply NoDup_filter. eapply sublist_NoDup; [|apply sublist_drop]. by eapply listed_nodup.
  - intros r. rewrite list_elem_of_filter. unfold pending. split.
    + intros [Hp Hin]. split; [done|]. destruct (sb_symbols s !! r) as [y|]; [|done]. exists y. split; [done|].
      apply yielded_spec. by destruct (yielded s r y).
    + intros [Hin (y & Hy & Hn)]. rewrite Hy. split; [|done]. apply yielded_spec in Hn. by rewrite Hn.
  - eexists. unfold yield_declaration. rewrite Hend. cbn [yield_from mbind outcome_bind]. reflexivity.
Qed.
Lemma demo_declared :
  match declare_all (S (length (drop (ns_cursor (ns_of demo_state NS_IDENT)) (ns_symbol (ns_of demo_state NS_IDENT))))) demo_state NS_IDENT with
  | Ok (_, l) => Some l | _ => None
  end = Some [0%N].
Proof. vm_compute. reflexivity. Qed.
Lemma yield_declaration_complete_witness : ∃ s' l,
  declare_all (S (length (drop (ns_cursor (ns_of demo_state NS_IDENT)) (ns_symbol (ns_of demo_state NS_IDENT))))) demo_state NS_IDENT =
    Ok (s', l) ∧ l = [0%N].
Proof.
  destruct (yield_declaration_complete 3 demo_state NS_IDENT demo_reached) as (s' & l & Hd & _ & _ & _ & _).
  exists s', l. split; [exact Hd|]. pose proof demo_declared as H. rewrite Hd in H. by injection H.
Defined.

(** ** Names of labels *)

Fixpoint create_labels (n : nat) (s : symtab) : outcome (symtab * list symref) :=
  match n with
  | O => Ok (s, [])
  | S n =>
      '(s, r) ← sym_create_label s;
      '(s, rs) ← create_labels n s;
      Ok (s, r :: rs)
  end.

(** The [n]-th label. *)
Definition label_symbol (n : Z) : symbol :=
  new_symbol (str_of PREFIX_LABEL) basic_type__void SYM_LABEL LINK_INTERN n 0 NoValue.

Lemma alloc_keeps s envs s' r : symtab_ok s envs → alloc_sym s = Ok (s', r) →
  (∀ r' y, ¬ (r' ∈ owned s) → sb_symbols s !! r' = Some y → r' ≠ r ∧ ¬ (r' ∈ owned s') ∧ sb_symbols s' !! r' = Some y) ∧
  sb_n s' = sb_n s.
Proof.
  intros Hok. unfold alloc_sym. destruct (last (temporaries s)) as [r1|] eqn:El; intros H; ok_inv; simplify_eq.
  - apply last_Some in El as [l El]. split; [|done]. intros r' y Hr' Hy.
    assert (Hne : r' ≠ r). { intros ->. apply Hr'. unfold owned. rewrite El, !elem_of_app, list_elem_of_singleton. auto. }
    split; [done|]. split.
    + intros Ho. apply Hr'. unfold owned in *. cbn in Ho. rewrite El in Ho |- *. rewrite removelast_last in Ho.
      rewrite !elem_of_app in *. tauto.
    + cbn. by rewrite lookup_insert_ne.
  - split; [|done]. intros r' y Hr' Hy. assert (Hne : r' ≠ fresh (dom (sb_symbols s))).
    { intros ->. pose proof (is_fresh (dom (sb_symbols s))) as Hf. apply not_elem_of_dom in Hf. by rewrite Hf in Hy. }
    split; [done|]. split; [done|]. cbn. by rewrite lookup_insert_ne.
Qed.

Lemma create_label_ok s envs : symtab_ok s envs → - 2 ^ 31 ≤ sb_n s N_LABEL + 1 < 2 ^ 31 →
  ∃ s' r, sym_create_label s = Ok (s', r) ∧ symtab_ok s' envs ∧ sb_n s' N_LABEL = sb_n s N_LABEL + 1 ∧
    ¬ (r ∈ owned s') ∧ sb_symbols s' !! r = Some (label_symbol (sb_n s N_LABEL + 1)) ∧
    ∀ r' y, ¬ (r' ∈ owned s) → sb_symbols s !! r' = Some y →
      r' ≠ r ∧ ¬ (r' ∈ owned s') ∧ sb_symbols s' !! r' = Some y.
Proof.
  intros Hok Hn. destruct (alloc_ok s envs Hok) as (s1 & r & Hal & Hok1 & Hr & _).
  destruct (alloc_keeps _ _ _ _ Hok Hal) as [Hkeep Hcnt].
  unfold sym_create_label, sym_create, next_n. rewrite Hal. cbn [mbind outcome_bind]. rewrite Hcnt.
  unfold c_result. cbn [isigned]. rewrite (proj2 (in_range_spec I32 _)) by (cbn; lia). cbn [mbind outcome_bind].
  eexists _, r. split; [done|]. split; [|split; [done|split; [done|split]]].
  - apply put_unowned_ok; [eapply touched_ok; [|exact Hok1]; done|done|]. apply (str_of_wf PREFIX_LABEL); [done|repeat constructor; done].
  - apply lookup_insert_eq.
  - intros r' y Hr' Hy. destruct (Hkeep r' y Hr' Hy) as (? & ? & ?). split; [done|]. split; [done|].
    cbn. by rewrite lookup_insert_ne.
Qed.

Lemma create_labels_ok n s envs : symtab_ok s envs → - 2 ^ 31 ≤ sb_n s N_LABEL →
  sb_n s N_LABEL + Z.of_nat n < 2 ^ 31 →
  ∃ s' rs, create_labels n s = Ok (s', rs) ∧ length rs = n ∧ NoDup rs ∧
    (∀ i r, rs !! i = Some r → sb_symbols s' !! r = Some (label_symbol (sb_n s N_LABEL + Z.of_nat i + 1))) ∧
    ∀ r y, ¬ (r ∈ owned s) → sb_symbols s !! r = Some y → ¬ (r ∈ rs) ∧ sb_symbols s' !! r = Some y.
Proof.
  revert s. induction n as [|n IH]; intros s Hok Hlo Hhi; cbn [create_labels].
  { exists s, []. split; [done|]. split; [done|]. split; [constructor|]. split; [done|].
    intros r y _ Hy. by split; [apply not_elem_of_nil|]. }
  destruct (create_label_ok s envs Hok) as (s1 & r & -> & Hok1 & Hc & Hr & Hs1 & Hkeep); [lia|].
  destruct (IH s1 Hok1) as (s2 & rs & Hrun & Hlen & Hnd & Hat & Hold); [lia..|].
  cbn [mbind outcome_bind]. rewrite Hrun. cbn [mbind outcome_bind]. exists s2, (r :: rs).
  destruct (Hold r _ Hr Hs1) as [Hfresh Hr2]. split; [done|]. split; [by cbn; rewrite Hlen|].
  split; [by apply NoDup_cons|]. split.
  - intros [|i] r' Hi; cbn in Hi.
    + injection Hi as <-. rewrite Hr2. do 2 f_equal. lia.
    + rewrite (Hat i r' Hi), Hc. do 2 f_equal. lia.
  - intros r' y Hr' Hy. destruct (Hkeep r' y Hr' Hy) as (Hne & Ho & Hy1). destruct (Hold r' y Ho Hy1) as [Hni ?].
    split; [|done]. rewrite elem_of_cons. tauto.
Qed.

Lemma wrap_s_period a : wrap_s 16 (a + Z.of_nat 0 + 1) = wrap_s 16 (a + 65536 + 1).
Proof.
  unfold wrap_s. f_equal. rewrite <-(Z_mod_plus_full (a + Z.of_nat 0 + 1 + 2 ^ (16 - 1)) 1 (2 ^ 16)).
  f_equal. cbn. lia.
Qed.

(** Labels are numbered in a 16-bit member, so in a program with more than
    65536 of them two distinct labels have the same name; the back ends tell
    labels apart by their names. *)
Theorem label_names_repeat depth s n : reachable depth s → - 2 ^ 31 ≤ sb_n s N_LABEL →
  sb_n s N_LABEL + Z.of_nat n < 2 ^ 31 → 65536 < Z.of_nat n →
  ∃ s' rs, create_labels n s = Ok (s', rs) ∧ NoDup rs ∧
    ∃ i j r1 r2 y1 y2, i ≠ j ∧ rs !! i = Some r1 ∧ rs !! j = Some r2 ∧
      sb_symbols s' !! r1 = Some y1 ∧ sb_symbols s' !! r2 = Some y2 ∧ sym_name y1 = sym_name y2.
Proof.
  intros Hr Hlo Hhi Hn. destruct (reachable_ok depth s Hr) as [envs Hok].
  destruct (create_labels_ok n s envs Hok Hlo Hhi) as (s' & rs & Hrun & Hlen & Hnd & Hat & _).
  exists s', rs. split; [done|]. split; [done|].
  destruct (lookup_lt_is_Some_2 rs 0) as [r1 H1]; [lia|].
  destruct (lookup_lt_is_Some_2 rs (Z.to_nat 65536)) as [r2 H2]; [lia|].
  apply Hat in H1 as Hy1. apply Hat in H2 as Hy2. rewrite Z2Nat.id in Hy2 by lia.
  exists 0%nat, (Z.to_nat 65536), r1, r2. eexists _, _. split; [intros H; lia|]. do 4 (split; [eassumption|]).
  f_equal. unfold label_symbol, new_symbol. f_equal. unfold conv. cbn [isigned iwidth]. apply wrap_s_period.
Qed.
Lemma label_names_repeat_witness : ∃ s' rs, create_labels (Z.to_nat 65537) symtab_start = Ok (s', rs) ∧ NoDup rs ∧
  ∃ i j r1 r2 y1 y2, i ≠ j ∧ rs !! i = Some r1 ∧ rs !! j = Some r2 ∧
    sb_symbols s' !! r1 = Some y1 ∧ sb_symbols s' !! r2 = Some y2 ∧ sym_name y1 = sym_name y2.
Proof.
  apply (label_names_repeat 3 symtab_start (Z.to_nat 65537)); [constructor|cbn; lia|rewrite Z2Nat.id by lia; cbn; lia|
    rewrite Z2Nat.id by lia; lia].
Defined.

(** ** Functions *)

Section functions.
Variable depth : nat.

Lemma type_equal_refl d ts t : type_equal (S d) ts t t = Ok true.
Proof. cbn. by rewrite bool_decide_true. Qed.

Lemma function_next ts t h : is_function t = true → get_typetree_handle ts (t_ref t) = Ok h →
  type_next ts t = Ok (tt_next h) ∧ is_complete ts t = Ok (negb (tt_incomplete h)).
Proof.
  intros Hf Hh. apply bool_decide_eq_true_1 in Hf. unfold type_next, is_complete, is_pointer, is_function, is_array, type_is.
  rewrite Hf, Hh. done.
Qed.

Lemma is_compatible_refl ts t h : is_function t = true → get_typetree_handle ts (t_ref t) = Ok h →
  is_compatible (S (S depth)) ts t t = Ok true.
Proof.
  intros Hf Hh. destruct (function_next ts t h Hf Hh) as [Hn Hc]. apply bool_decide_eq_true_1 in Hf.
  cbn [is_compatible]. rewrite bool_decide_true, !eqb_reflx by done. cbn [negb orb].
  rewrite Hf, Hn, Hc. cbn [mbind outcome_bind]. rewrite !type_equal_refl. cbn [mbind outcome_bind negb].
  by destruct (tt_incomplete h).
Qed.

Lemma complete_same s r y t h : is_function t = true → get_typetree_handle (sb_types s) (t_ref t) = Ok h →
  sb_symbols s !! r = Some y → sym_type y = t →
  ∃ s', sym_apply_type (S (S depth)) s r t = Ok s' ∧ touched s s'.
Proof.
  intros Hf Hh Hy Ht. destruct (function_next _ t h Hf Hh) as [Hn Hc].
  assert (H : complete_type (S (S depth)) s r t = Ok (put_sym r (with_type t y) s, false)).
  { unfold complete_type, get_sym. rewrite Hy. cbn [defined mbind outcome_bind]. rewrite Ht, Hf. cbn [andb].
    rewrite Hn. cbn [mbind outcome_bind]. rewrite type_equal_refl. cbn [mbind outcome_bind]. rewrite Hc.
    cbn [mbind outcome_bind]. rewrite (is_compatible_refl _ t h Hf Hh). by destruct (tt_incomplete h). }
  exists (put_sym r (with_type t y) s). split; [|by eapply touched_put].
  unfold sym_apply_type. rewrite H. cbn [mbind outcome_bind]. unfold get_sym. cbn [sb_symbols put_sym set_store].
  rewrite lookup_insert_eq. cbn [defined mbind outcome_bind with_type sym_type]. by rewrite type_equal_refl.
Qed.

(** A function that was declared in a scope that has been left is still the
    same symbol when it is declared again with its type, and becomes visible
    where it is declared. *)
Theorem forward_declared_function s envs m env fm name t h st lk dt r y : symtab_ok s envs → wf_string name →
  envs NS_IDENT = m :: env → env_lookup (m :: env) (str_raw name) = None →
  functions_init s = true → table_holds (functions s) fm → fm !! str_raw name = Some r →
  sb_symbols s !! r = Some y → sym_type y = t →
  is_function t = true → get_typetree_handle (sb_types s) (t_ref t) = Ok h →
  st = SYM_DECLARATION ∨ st = SYM_DEFINITION ∨ st = SYM_TENTATIVE →
  ∃ s' s'', sym_add (S (S depth)) s NS_IDENT name t st lk dt = Ok (s', r) ∧
    sym_lookup s' NS_IDENT name = Ok (s'', Some r).
Proof.
  intros Hok Hw He Hnone Hinit Hfm Hr Hy Ht Hf Hh Hst.
  destruct (sym_lookup_ok s envs NS_IDENT name Hok Hw) as (s1 & Hl & _). rewrite He, Hnone in Hl.
  assert (s1 = s) as ->.
  { unfold sym_lookup in Hl. apply bind_ok_inv in Hl as ([e|] & _ & Hl); ok_inv; simplify_eq; done. }
  assert (Hlf : sym_lookup_function s name = Ok (s, Some r)).
  { unfold sym_lookup_function. rewrite Hinit. cbn [mbind outcome_bind].
    destruct (table_lookup_ok _ _ name Hfm Hw) as (e & -> & Hse). cbn [mbind outcome_bind]. by rewrite Hse, Hr. }
  destruct (complete_same s r y t h Hf Hh Hy Ht) as (s2 & Ha & Ht2). pose proof (touched_ok _ _ _ Ht2 Hok) as Hok2.
  assert (Hown : r ∈ ns_symbol (ns_of s NS_IDENT) ∧ named s r (str_raw name)).
  { pose proof (so_functions _ _ Hok) as Hfs. rewrite Hinit in Hfs. destruct Hfs as (fm' & Hfm' & Hall). apply Hall.
    destruct (table_lookup_ok _ _ name Hfm Hw) as (e & He1 & Hse).
    destruct (table_lookup_ok _ _ name Hfm' Hw) as (e' & He2 & Hse'). rewrite He1 in He2. injection He2 as <-.
    by rewrite <-Hse', Hse. }
  destruct Hown as [Hlist Hn]. rewrite <-(proj1 (proj2 Ht2)) in Hlist. apply (touched_named _ s2) in Hn; [|done].
  destruct (sym_make_visible_ok s2 envs NS_IDENT m env r _ Hok2 He Hlist Hn) as (s3 & Hv & Hok3 & _ & Hs3 & _).
  pose proof Hn as (y2 & Hy2 & _). pose proof (so_ns _ _ Hok NS_IDENT) as Hns. rewrite He in Hns.
  assert (Hres : ∃ s4, resolve_function (S (S depth)) s NS_IDENT r t (Z.of_nat (length env)) = Ok s4 ∧ touched s3 s4).
  { unfold resolve_function. rewrite Ha. cbn [mbind outcome_bind]. rewrite Hv. cbn [mbind outcome_bind].
    unfold get_sym. rewrite Hs3, Hy2. cbn [defined mbind outcome_bind]. eexists. split; [done|].
    destruct (_ <? _); [|done]. eapply touched_put; [by rewrite Hs3|done]. }
  destruct Hres as (s4 & Hres & Ht4).
  destruct (sym_lookup_ok s4 _ NS_IDENT name (touched_ok _ _ _ Ht4 Hok3) Hw) as (s5 & Hl5 & _).
  rewrite env_set_eq, He, env_lookup_bind in Hl5 by (cbn in Hnone; by destruct (m !! str_raw name)).
  exists s4, s5. split; [|done]. unfold sym_add.
  assert (Hst' : bool_decide (st = SYM_LABEL) = false ∧ bool_decide (st = SYM_TAG) = false ∧ bool_decide (st = SYM_TYPEDEF) = false)
    by (by destruct Hst as [->|[->| ->]]).
  destruct Hst' as (-> & -> & ->). cbn [negb orb c_assert mbind outcome_bind]. rewrite Hl. cbn [mbind outcome_bind].
  rewrite (depth_of _ _ _ Hns). cbn [mbind outcome_bind]. rewrite Hf. cbn [andb bool_decide_true].
  rewrite bool_decide_true by done. cbn [c_assert mbind outcome_bind]. rewrite Hlf. cbn [mbind outcome_bind]. by rewrite Hres.
Qed.
End functions.

(** [int f()], declared in a block that has been left. *)
Definition demo_f_type : ctype := snd (type_create [] T_FUNCTION).
Definition demo_f_tree : typetree := tt_set_incomplete (tt_set_next (typetree_zero T_FUNCTION) basic_type__int) true.
Definition demo_f : symbol := new_symbol (str_of (cstr "f")) demo_f_type SYM_DECLARATION LINK_EXTERN 0 2 NoValue.
Definition demo_functions : symbols_table :=
  match (t ← table_init 1024; table_insert t (SymEntry (str_of (cstr "f")) 7%N)) with Ok t => t | _ => None end.
Definition demo_left : symtab :=
  set_functions demo_functions true
    (add_listed NS_IDENT 7%N (put_sym 7%N demo_f (set_types [demo_f_tree] symtab_start))).
Definition demo_file : symtab := match push_scope demo_left NS_IDENT with Ok s => s | _ => demo_left end.

Lemma demo_f_wf : wf_string (str_of (cstr "f")).
Proof. apply str_of_wf; [done|repeat constructor; done]. Qed.
Lemma demo_functions_hold : table_holds demo_functions (<[cstr "f" := 7%N]> ∅).
Proof.
  destruct (table_init_ok 1024) as (t & Ht & Hth); [lia|].
  destruct (table_insert_ok t ∅ (str_of (cstr "f")) 7%N Hth demo_f_wf) as (t' & Ht' & Hth').
  unfold demo_functions. rewrite Ht. cbn [mbind outcome_bind]. rewrite Ht'. exact Hth'.
Qed.
Lemma demo_file_ok : symtab_ok demo_file (env_set (λ _, []) NS_IDENT [∅]).
Proof.
  assert (H : symtab_ok (add_listed NS_IDENT 7%N (put_sym 7%N demo_f (set_types [demo_f_tree] symtab_start))) (λ _, [])).
  { apply add_listed_ok; [|apply not_elem_of_nil|by eexists].
    apply put_unowned_ok; [apply type_table_ok, symtab_start_ok|apply not_elem_of_nil|exact demo_f_wf]. }
  assert (Hl : symtab_ok demo_left (λ _, [])).
  { destruct H as [Hns Hb Hw Ha Ho _]. split; [exact Hns|exact Hb|exact Hw|exact Ha|exact Ho|].
    exists (<[cstr "f" := 7%N]> ∅). split; [exact demo_functions_hold|]. intros k r Hk.
    apply lookup_insert_Some in Hk as [[<- <-]|[_ Hk]]; [|by rewrite lookup_empty in Hk].
    split; [by apply list_elem_of_lookup; exists 0%nat|by eexists]. }
  destruct (push_scope_ok _ _ NS_IDENT Hl) as (s' & Hp & Hok). unfold demo_file. by rewrite Hp.
Qed.

Lemma forward_declared_function_witness :
  ∃ s' s'', sym_add 2 demo_file NS_IDENT (str_of (cstr "f")) demo_f_type SYM_DECLARATION LINK_EXTERN DECL_FUNCBODY
      = Ok (s', 7%N) ∧ sym_lookup s' NS_IDENT (str_of (cstr "f")) = Ok (s'', Some 7%N).
Proof.
  apply (forward_declared_function 0 demo_file _ ∅ [] (<[cstr "f" := 7%N]> ∅) (str_of (cstr "f")) demo_f_type demo_f_tree
    SYM_DECLARATION LINK_EXTERN DECL_FUNCBODY 7%N demo_f demo_file_ok demo_f_wf).
  - reflexivity.
  - reflexivity.
  - reflexivity.
  - exact demo_functions_hold.
  - reflexivity.
  - reflexivity.
  - reflexivity.
  - reflexivity.
  - reflexivity.
  - left. reflexivity.
Defined.

(** ** A second compilation *)

Lemma free_all_ok l s : NoDup l → (∀ r, r ∈ l → is_Some (sb_symbols s !! r)) →
  ∃ s', free_all s l = Ok s' ∧ functions s' = functions s ∧ functions_init s' = functions_init s.
Proof.
  revert s. induction l as [|r l IH]; intros s Hnd Hal; cbn [free_all]; [by exists s|].
  apply NoDup_cons in Hnd as [Hr Hnd]. destruct (Hal r) as [y Hy]; [constructor|]. unfold get_sym. rewrite Hy.
  cbn [defined mbind outcome_bind]. apply (IH (set_store (delete r (sb_symbols s)) s) Hnd).
  intros r' Hr'. cbn. rewrite lookup_delete_ne by (by intros ->). apply Hal. by constructor.
Qed.

(** [symtab_finalize] frees the table of functions and zeroes it, and leaves
    [functions_init] set: in the next compilation of the process, looking up
    the first function divides by the capacity 0. *)
Theorem finalized_table_is_used s envs : symtab_ok s envs → functions_init s = true →
  ∃ s', symtab_finalize s = Ok s' ∧ ∀ name, sym_lookup_function s' name = Undef "division by zero".
Proof.
  intros Hok Hinit. pose proof (so_functions _ _ Hok) as Hfs. rewrite Hinit in Hfs. destruct Hfs as (fm & Hfm & _).
  destruct (free_all_ok (temporaries s) s) as (s1 & H1 & Hf & Hi).
  { pose proof (so_owned _ _ Hok) as Hnd. unfold owned in Hnd. rewrite !NoDup_app in Hnd. apply Hnd. }
  { intros r Hr. apply (so_alive _ _ Hok). unfold owned. rewrite !elem_of_app. auto. }
  unfold symtab_finalize. rewrite H1. cbn [mbind outcome_bind functions functions_init set_string_types set_temporaries].
  rewrite Hi, Hinit, Hf, (table_destroy_ok _ _ Hfm). eexists. split; [done|]. done.
Qed.
Lemma finalized_table_is_used_witness :
  ∃ s', symtab_finalize demo_file = Ok s' ∧ ∀ name, sym_lookup_function s' name = Undef "division by zero".
Proof. apply (finalized_table_is_used demo_file _ demo_file_ok). reflexivity. Defined.
