(* ===== verification/Token.v ===== *)
(** * Tokens (include/lacc/token.h, the table of preprocessor/tokenize.c)

    The enumeration of token types, the token record and the table that gives
    each type, and each character, its token. *)

From stdpp Require Import base list numbers strings.
From Stdlib Require Import ZArith Lia.
From S2P Require Import Prelude CType Strings.

Local Open Scope Z_scope.

(** The byte of a character literal. *)
Notation "'ch' s" := ltac:(let x := eval vm_compute in (nth 0 (cstr s) 0) in exact x)
  (at level 9, only parsing).

Inductive token_type : Set :=
  | END | AUTO | BREAK | CASE | CHAR | CONST | CONTINUE | DEFAULT | DO | DOUBLE | NEWLINE
  | ELSE | ENUM | EXTERN | FLOAT | FOR | GOTO | IF | INT | LONG | REGISTER | RETURN | SHORT
  | SIGNED | SIZEOF | STATIC | STRUCT | SWITCH | TYPEDEF | UNION | UNSIGNED | VOID | INLINE
  | NOT | VOLATILE | HASH | DOLLAR | MODULO | AND | WHILE | OPEN_PAREN | CLOSE_PAREN | STAR
  | PLUS | COMMA | MINUS | DOT | SLASH | RESTRICT | ALIGNOF | BOOL | NORETURN
  | STATIC_ASSERT | COLON | SEMICOLON | LT | ASSIGN | GT | QUESTION | AMPERSAND
  | LOGICAL_OR | LOGICAL_AND | LEQ | GEQ | EQ | NEQ | ARROW | INCREMENT | DECREMENT
  | LSHIFT | RSHIFT | MUL_ASSIGN | DIV_ASSIGN | MOD_ASSIGN | PLUS_ASSIGN | MINUS_ASSIGN
  | LSHIFT_ASSIGN | RSHIFT_ASSIGN | AND_ASSIGN | XOR_ASSIGN | OR_ASSIGN | TOKEN_PASTE
  | DOTS | OPEN_BRACKET | BACKSLASH | CLOSE_BRACKET | XOR | BACKTICK | OPEN_CURLY | OR
  | CLOSE_CURLY | NEG | NUMBER | IDENTIFIER | STRING | PARAM | PREP_NUMBER | PREP_CHAR
  | PREP_STRING.

(** The value of the enumerator; for single characters, their code. *)
Definition token_code (t : token_type) : Z :=
  match t with
  | END => 0 | AUTO => 1 | BREAK => 2 | CASE => 3 | CHAR => 4 | CONST => 5 | CONTINUE => 6
  | DEFAULT => 7 | DO => 8 | DOUBLE => 9 | NEWLINE => 10 | ELSE => 11 | ENUM => 12
  | EXTERN => 13 | FLOAT => 14 | FOR => 15 | GOTO => 16 | IF => 17 | INT => 18 | LONG => 19
  | REGISTER => 20 | RETURN => 21 | SHORT => 22 | SIGNED => 23 | SIZEOF => 24
  | STATIC => 25 | STRUCT => 26 | SWITCH => 27 | TYPEDEF => 28 | UNION => 29
  | UNSIGNED => 30 | VOID => 31 | INLINE => 32 | NOT => 33 | VOLATILE => 34 | HASH => 35
  | DOLLAR => 36 | MODULO => 37 | AND => 38 | WHILE => 39 | OPEN_PAREN => 40
  | CLOSE_PAREN => 41 | STAR => 42 | PLUS => 43 | COMMA => 44 | MINUS => 45 | DOT => 46
  | SLASH => 47 | RESTRICT => 48 | ALIGNOF => 49 | BOOL => 50 | NORETURN => 51
  | STATIC_ASSERT => 56 | COLON => 58 | SEMICOLON => 59 | LT => 60 | ASSIGN => 61
  | GT => 62 | QUESTION => 63 | AMPERSAND => 64 | LOGICAL_OR => 65 | LOGICAL_AND => 66
  | LEQ => 67 | GEQ => 68 | EQ => 69 | NEQ => 70 | ARROW => 71 | INCREMENT => 72
  | DECREMENT => 73 | LSHIFT => 74 | RSHIFT => 75 | MUL_ASSIGN => 76 | DIV_ASSIGN => 77
  | MOD_ASSIGN => 78 | PLUS_ASSIGN => 79 | MINUS_ASSIGN => 80 | LSHIFT_ASSIGN => 81
  | RSHIFT_ASSIGN => 82 | AND_ASSIGN => 83 | XOR_ASSIGN => 84 | OR_ASSIGN => 85
  | TOKEN_PASTE => 86 | DOTS => 87 | OPEN_BRACKET => 91 | BACKSLASH => 92
  | CLOSE_BRACKET => 93 | XOR => 94 | BACKTICK => 96 | OPEN_CURLY => 123 | OR => 124
  | CLOSE_CURLY => 125 | NEG => 126 | NUMBER => 116 | IDENTIFIER => 117 | STRING => 118
  | PARAM => 119 | PREP_NUMBER => 120 | PREP_CHAR => 121 | PREP_STRING => 122
  end.

(** The union [d] of a token: a string or the 64 bits of a [value]. *)
Inductive token_data : Set :=
  | D_string (s : kstring)
  | D_val (u : Z).

Record token : Set := Token {
  tk_token : token_type;
  leading_whitespace : Z;
  is_expandable : bool;
  disable_expand : bool;
  tk_type : ctype;
  tk_d : token_data
}.

(** [SHORT_STRING_INIT]. *)
Definition SHORT_STRING_INIT (s : list Z) : kstring :=
  KString (Z.of_nat (length s)) (memcpy_at (s_chars str_zero) s).

Definition TOK (t : token_type) (s : list Z) : token :=
  Token t 0 false false basic_type__void (D_string (SHORT_STRING_INIT s)).
Definition IDN (t : token_type) (s : list Z) : token :=
  Token t 0 true false basic_type__void (D_string (SHORT_STRING_INIT s)).
(** [{t, ws}]: the members left out are zero. *)
Definition tok_of (t : token_type) (ws : Z) : token :=
  Token t ws false false basic_type__void (D_string str_zero).
Definition tok_zero : token := tok_of END 0.

Definition basic_token : list token :=
  [ (* 0x00 *) TOK END (cstr "$"); IDN AUTO (cstr "auto"); IDN BREAK (cstr "break"); IDN CASE (cstr "case");
              IDN CHAR (cstr "char"); IDN CONST (cstr "const"); IDN CONTINUE (cstr "continue"); IDN DEFAULT (cstr "default");
   (* 0x08 *) IDN DO (cstr "do"); IDN DOUBLE (cstr "double"); TOK NEWLINE [10]; IDN ELSE (cstr "else");
              IDN ENUM (cstr "enum"); IDN EXTERN (cstr "extern"); IDN FLOAT (cstr "float"); IDN FOR (cstr "for");
   (* 0x10 *) IDN GOTO (cstr "goto"); IDN IF (cstr "if"); IDN INT (cstr "int"); IDN LONG (cstr "long");
              IDN REGISTER (cstr "register"); IDN RETURN (cstr "return"); IDN SHORT (cstr "short"); IDN SIGNED (cstr "signed");
   (* 0x18 *) IDN SIZEOF (cstr "sizeof"); IDN STATIC (cstr "static"); IDN STRUCT (cstr "struct"); IDN SWITCH (cstr "switch");
              IDN TYPEDEF (cstr "typedef"); IDN UNION (cstr "union"); IDN UNSIGNED (cstr "unsigned"); IDN VOID (cstr "void");
   (* 0x20 *) IDN INLINE (cstr "inline"); TOK NOT (cstr "!"); IDN VOLATILE (cstr "volatile"); TOK HASH (cstr "#");
              TOK DOLLAR (cstr "$"); TOK MODULO (cstr "%"); TOK AND (cstr "&"); IDN WHILE (cstr "while");
   (* 0x28 *) TOK OPEN_PAREN (cstr "("); TOK CLOSE_PAREN (cstr ")"); TOK STAR (cstr "*"); TOK PLUS (cstr "+");
              TOK COMMA (cstr ","); TOK MINUS (cstr "-"); TOK DOT (cstr "."); TOK SLASH (cstr "/");
   (* 0x30 *) IDN RESTRICT (cstr "restrict"); TOK ALIGNOF (cstr "_Alignof"); TOK BOOL (cstr "_Bool"); TOK NORETURN (cstr "_Noreturn");
              tok_zero; tok_zero; tok_zero; tok_zero;
   (* 0x38 *) IDN STATIC_ASSERT []; tok_zero; TOK COLON (cstr ":"); TOK SEMICOLON (cstr ";");
              TOK LT (cstr "<"); TOK ASSIGN (cstr "="); TOK GT (cstr ">"); TOK QUESTION (cstr "?");
   (* 0x40 *) TOK AMPERSAND (cstr "@"); TOK LOGICAL_OR (cstr "||"); TOK LOGICAL_AND (cstr "&&"); TOK LEQ (cstr "<=");
              TOK GEQ (cstr ">="); TOK EQ (cstr "=="); TOK NEQ (cstr "!="); TOK ARROW (cstr "->");
   (* 0x48 *) TOK INCREMENT (cstr "++"); TOK DECREMENT (cstr "--"); TOK LSHIFT (cstr "<<"); TOK RSHIFT (cstr ">>");
              TOK MUL_ASSIGN (cstr "*="); TOK DIV_ASSIGN (cstr "/="); TOK MOD_ASSIGN (cstr "%="); TOK PLUS_ASSIGN (cstr "+=");
   (* 0x50 *) TOK MINUS_ASSIGN (cstr "-="); TOK LSHIFT_ASSIGN (cstr "<<="); TOK RSHIFT_ASSIGN (cstr ">>="); TOK AND_ASSIGN (cstr "&=");
              TOK XOR_ASSIGN (cstr "^="); TOK OR_ASSIGN (cstr "|="); TOK TOKEN_PASTE (cstr "##"); TOK DOTS (cstr "...");
   (* 0x58 *) tok_zero; tok_zero; tok_zero; TOK OPEN_BRACKET (cstr "[");
              TOK BACKSLASH [92]; TOK CLOSE_BRACKET (cstr "]"); TOK XOR (cstr "^"); tok_zero;
   (* 0x60 *) TOK BACKTICK (cstr "`"); tok_zero; tok_zero; tok_zero;
              tok_zero; tok_zero; tok_zero; tok_zero;
   (* 0x68 *) tok_zero; tok_zero; tok_zero; tok_zero;
              tok_zero; tok_zero; tok_zero; tok_zero;
   (* 0x70 *) tok_zero; tok_zero; tok_zero; tok_zero;
              tok_of NUMBER 0; tok_of IDENTIFIER 1; tok_of STRING 0; tok_of PARAM 0;
   (* 0x78 *) tok_of PREP_NUMBER 0; tok_of PREP_CHAR 0; tok_of PREP_STRING 0; TOK OPEN_CURLY (cstr "{");
              TOK OR (cstr "|"); TOK CLOSE_CURLY (cstr "}"); TOK NEG (cstr "~"); tok_zero
].

(** [basic_token[i]]. *)
Definition basic_token_at (i : Z) : outcome token :=
  if i <? 0 then Undef "index below basic_token"
  else defined "index beyond basic_token" (basic_token !! Z.to_nat i).
(** [basic_token[t]] for an enumerator. *)
Definition basic (t : token_type) : token :=
  default tok_zero (basic_token !! Z.to_nat (token_code t)).

(** The string of a token that has one. *)
Definition tok_string (t : token) : outcome kstring :=
  match tk_d t with D_string s => Ok s | D_val _ => Undef "a number read as a string" end.
Definition tok_val (t : token) : outcome Z :=
  match tk_d t with D_val u => Ok u | D_string _ => Undef "a string read as a number" end.

Definition set_leading_whitespace (t : token) (ws : Z) : token :=
  Token (tk_token t) (wrap_u 16 ws) (is_expandable t) (disable_expand t) (tk_type t) (tk_d t).
Definition set_expandable (t : token) (b : bool) : token :=
  Token (tk_token t) (leading_whitespace t) b (disable_expand t) (tk_type t) (tk_d t).
Definition set_disable_expand (t : token) (b : bool) : token :=
  Token (tk_token t) (leading_whitespace t) (is_expandable t) b (tk_type t) (tk_d t).
Definition set_string (t : token) (s : kstring) : token :=
  Token (tk_token t) (leading_whitespace t) (is_expandable t) (disable_expand t) (tk_type t)
    (D_string s).
Definition set_number (t : token) (ty : ctype) (u : Z) : token :=
  Token (tk_token t) (leading_whitespace t) (is_expandable t) (disable_expand t) ty (D_val u).

(** ** Facts of the enumeration and the table *)

Lemma basic_token_code t : tk_token (basic t) = t.
Proof. destruct t; reflexivity. Qed.

Lemma token_code_inj : Inj (=) (=) token_code.
Proof.
  intros a b H. rewrite <-(basic_token_code a), <-(basic_token_code b). unfold basic.
  by rewrite H.
Qed.

#[export] Instance token_type_eq_dec : EqDecision token_type.
Proof.
  refine (λ a b, cast_if (decide (token_code a = token_code b)));
    abstract (try (intros ->; done); by apply token_code_inj || done).
Defined.

(** [a.token == t]. *)
Definition is_tok (t : token_type) (a : token) : bool := token_code (tk_token a) =? token_code t.

Lemma is_tok_spec t a : is_tok t a = true ↔ tk_token a = t.
Proof. unfold is_tok. rewrite Z.eqb_eq. split; [apply token_code_inj|by intros ->]. Qed.

Lemma token_code_range t : 0 ≤ token_code t < 127.
Proof. destruct t; cbn; lia. Qed.

(** The table has 128 entries, and its index is the code of the token. *)
Lemma basic_token_index i t : basic_token !! i = Some t → tk_token t ≠ END →
  token_code (tk_token t) = Z.of_nat i.
Proof.
  intros H Hne. assert (i < 128)%nat as Hi by (apply lookup_lt_Some in H; exact H).
  do 128 (destruct i as [|i]; [injection H as <-; done || (by destruct Hne)|]). lia.
Qed.
