(* ===== verification/Lexer.v ===== *)
(** * The tokenizer (src/preprocessor/tokenize.c)

    A position in a line is the list of the bytes from it up to the
    terminator, which is not part of the list: reading at the end of the list
    reads the terminator, and what moves past it is undefined.  Character
    classification is that of the C locale, false on bytes from 128 on.  What
    the functions change is the record [lexer]. *)

From stdpp Require Import base list numbers strings.
From Stdlib Require Import ZArith Lia.
From Corelib Require Import SpecFloat.
From S2P Require Import Prelude CType Floats Strings Hash Strtab Typetree Token.

Local Open Scope Z_scope.

(** ** Characters *)

Definition isdigit (c : Z) : bool := (48 <=? c) && (c <=? 57).
Definition isalpha (c : Z) : bool :=
  ((65 <=? c) && (c <=? 90)) || ((97 <=? c) && (c <=? 122)).
Definition isalnum (c : Z) : bool := isalpha c || isdigit c.
Definition isspace (c : Z) : bool := ((9 <=? c) && (c <=? 13)) || (c =? 32).
Definition isxdigit (c : Z) : bool :=
  isdigit c || ((65 <=? c) && (c <=? 70)) || ((97 <=? c) && (c <=? 102)).
Definition tolower (c : Z) : Z := if (65 <=? c) && (c <=? 90) then c + 32 else c.
Definition isoctal (c : Z) : bool := (48 <=? c) && (c <? 56).
Definition isident (c : Z) : bool := isalnum c || (c =? ch "_").

(** [*in] and [in[1]]. *)
Definition rd (l : list Z) : Z := match l with [] => 0 | c :: _ => c end.
Definition rd1 (l : list Z) : Z := rd (drop 1 l).
(** [in++]. *)
Definition advance (l : list Z) : outcome (list Z) :=
  match l with [] => Undef "past the end of the line" | _ :: l => Ok l end.

(** The characters before a position [r] reached from [l], [r - l]. *)
Definition upto (l r : list Z) : list Z := take (length l - length r) l.

(** The state of the tokenizer: the string table, the strings of
    [str_init], and [string_buffer] with its capacity. *)
Record lexer : Type := Lexer {
  lx_strtab : strtab;
  lx_strings : free_list;
  lx_buffer : list Z
}.
Definition lexer_start : lexer := Lexer strtab_start [] [].

Definition lex_register (lx : lexer) (str : list Z) (len : nat) : outcome (lexer * kstring) :=
  '(st, s) ← str_register (lx_strtab lx) str (Z.of_nat len);
  Ok (Lexer st (lx_strings lx) (lx_buffer lx), s).

(** ** Preprocessing numbers *)

(** The loop of [stringtonum]; [c99] is [context.standard >= STD_C99]. *)
Fixpoint scan_number (c99 : bool) (l : list Z) : list Z :=
  match l with
  | [] => []
  | c :: l' =>
    if isdigit c || (c =? ch ".") || (c =? ch "_") then scan_number c99 l'
    else if isalpha c then
      match l' with
      | s :: l'' =>
        if ((tolower c =? ch "e") || (c99 && (tolower c =? ch "p")))
           && ((s =? ch "+") || (s =? ch "-"))
        then scan_number c99 l''
        else scan_number c99 l'
      | [] => []
      end
    else l
  end.

Definition stringtonum (c99 : bool) (lx : lexer) (l : list Z) : outcome (lexer * token * list Z) :=
  let l1 := if rd l =? ch "." then drop 1 l else l in
  _ ← c_assert (isdigit (rd l1));
  let r := scan_number c99 l1 in
  '(lx, s) ← lex_register lx l (length l - length r);
  Ok (lx, set_string (tok_of PREP_NUMBER 0) s, r).

(** The enumerators of [enum suffix] that [read_integer_suffix] computes. *)
Definition SUFFIX_NONE : Z := 0.
Definition SUFFIX_U : Z := 1.
Definition SUFFIX_L : Z := 2.
Definition SUFFIX_UL : Z := Z.lor SUFFIX_U SUFFIX_L.
Definition SUFFIX_LL : Z := Z.lor (Z.shiftl SUFFIX_L 1) SUFFIX_L.
Definition SUFFIX_ULL : Z := Z.lor SUFFIX_U SUFFIX_LL.

Definition read_integer_suffix (l : list Z) : Z * list Z :=
  let '(s, l) := if tolower (rd l) =? ch "u" then (SUFFIX_U, drop 1 l) else (SUFFIX_NONE, l) in
  if tolower (rd l) =? ch "l" then
    let p := rd l in
    let s := Z.lor s SUFFIX_L in
    let l := drop 1 l in
    let '(s, l) := if rd l =? p then (Z.lor s SUFFIX_LL, drop 1 l) else (s, l) in
    if (Z.land s SUFFIX_U =? 0) && (tolower (rd l) =? ch "u")
    then (Z.lor s SUFFIX_U, drop 1 l) else (s, l)
  else (s, l).

Definition INT_MAX : Z := 2 ^ 31 - 1.
Definition UINT_MAX : Z := 2 ^ 32 - 1.

(** A value that is no enumerator leaves [type] unset. *)
Definition constant_integer_type (value suffix : Z) (is_decimal : bool) : outcome ctype :=
  if suffix =? SUFFIX_NONE then
    Ok (if value <=? INT_MAX then basic_type__int
        else if negb is_decimal && (value <=? UINT_MAX) then basic_type__unsigned_int
        else if value <=? LONGLONG_MAX then basic_type__long
        else basic_type__unsigned_long)
  else if suffix =? SUFFIX_U then
    Ok (if value <=? UINT_MAX then basic_type__unsigned_int else basic_type__unsigned_long)
  else if (suffix =? SUFFIX_L) || (suffix =? SUFFIX_LL) then
    Ok (if value <=? LONGLONG_MAX then basic_type__long else basic_type__unsigned_long)
  else if (suffix =? SUFFIX_UL) || (suffix =? SUFFIX_ULL) then Ok basic_type__unsigned_long
  else Undef "an uninitialised type".

(** ** The conversions of the C library

    On the strings of preprocessing numbers, which have no leading space or
    sign.  [width] is the number of bits of [unsigned long] of the host. *)

Definition digit_value (c : Z) : Z :=
  if isdigit c then c - 48
  else if isalpha c then tolower c - 97 + 10
  else 36.

Fixpoint scan_digits (base acc : Z) (l : list Z) : Z * list Z :=
  match l with
  | c :: l' =>
    if digit_value c <? base then scan_digits base (acc * base + digit_value c) l' else (acc, l)
  | [] => (acc, [])
  end.

(** The value, the end and [errno == ERANGE]. *)
Definition strtoul (width : Z) (l : list Z) : Z * list Z * bool :=
  let '(v, r) :=
    if (rd l =? ch "0") && (tolower (rd1 l) =? ch "x") && isxdigit (rd (drop 2 l))
    then scan_digits 16 0 (drop 2 l)
    else if rd l =? ch "0" then scan_digits 8 0 l
    else scan_digits 10 0 l in
  if v <=? 2 ^ width - 1 then (v, r, false) else (2 ^ width - 1, r, true).

(** The digits of a mantissa in [base] with the number of them behind the
    point, and whether there is a digit at all. *)
Definition scan_mantissa (base : Z) (l : list Z) : Z * nat * bool * list Z :=
  let '(m, r) := scan_digits base 0 l in
  if rd r =? ch "." then
    let '(m', r') := scan_digits base m (drop 1 r) in
    let frac := (length r - 1 - length r')%nat in
    if (length l - length r + frac =? 0)%nat then (0, 0%nat, false, l) else (m', frac, true, r')
  else (m, 0%nat, negb (length l =? length r)%nat, r).

(** An exponent part that begins with [e], or nothing. *)
Definition scan_exponent (e : Z) (l : list Z) : Z * list Z :=
  if tolower (rd l) =? e then
    let r := drop 1 l in
    let signed := (rd r =? ch "+") || (rd r =? ch "-") in
    let d := if signed then drop 1 r else r in
    if isdigit (rd d) then
      let '(v, r') := scan_digits 10 0 d in ((if rd r =? ch "-" then - v else v), r')
    else (0, l)
  else (0, l).

(** The double nearest to [num / den], from a quotient of at least 64 bits
    and a sticky bit, and whether it is that quotient. *)
Definition nearest (num den : Z) : Z * bool :=
  let k := Z.max 0 (64 + Z.log2 den - Z.log2 num) in
  let n := num * 2 ^ k in
  let sticky := if n mod den =? 0 then 0 else 1 in
  let x := f_round F64 (2 * (n / den) + sticky) (- k - 1) false in
  let exact :=
    match x with
    | S754_finite _ m e =>
        if 0 <=? e then Zpos m * 2 ^ e * den =? num else Zpos m * den =? num * 2 ^ (- e)
    | _ => false
    end in
  (f_encode F64 x, exact).

Definition DBL_INF : Z := f_encode F64 (S754_infinity false).
Definition DBL_MIN : Z := 2 ^ 52.

(** [m * base ^ e], with [ERANGE] on overflow and on an inexact result below
    the normal numbers; exponents no double has are not computed. *)
Definition scaled (base m e : Z) : Z * bool :=
  if m =? 0 then (0, false)
  else if 20000 <? e then (DBL_INF, true)
  else if Z.log2 m + 2 + 5000 <? - e then (0, true)
  else
    let '(x, exact) := if 0 <=? e then nearest (m * base ^ e) 1 else nearest m (base ^ (- e)) in
    (x, (x =? DBL_INF) || ((x <? DBL_MIN) && negb exact)).

(** [strtod], rounding correctly: the bits of the value, the end, [ERANGE]. *)
Definition strtod (l : list Z) : Z * list Z * bool :=
  let '(m, frac, some, r) := scan_mantissa 16 (drop 2 l) in
  if (rd l =? ch "0") && (tolower (rd1 l) =? ch "x") && some then
    let '(e, r) := scan_exponent (ch "p") r in
    let '(x, range) := scaled 2 m (e - 4 * Z.of_nat frac) in (x, r, range)
  else
    let '(m, frac, some, r) := scan_mantissa 10 l in
    if some then
      let '(e, r) := scan_exponent (ch "e") r in
      let '(x, range) := scaled 10 m (e - Z.of_nat frac) in (x, r, range)
    else (0, l, false).

(** ** Conversion of preprocessing tokens *)

Section conversions.
Context `{FA : FloatArith}.
(** The bits of [unsigned long] of the host. *)
Context (ulong_bits : Z).

(** One attempt to read the whole of [str] as an integer constant. *)
Definition try_integer (width : Z) (str : list Z) : outcome (option (ctype * Z)) :=
  let '(v, r, range) := strtoul width str in
  let '(suffix, r) := read_integer_suffix r in
  if negb range && (length r =? 0)%nat then
    _ ← c_assert (isdigit (rd str));
    ty ← constant_integer_type v suffix (negb (rd str =? ch "0"));
    Ok (Some (ty, v))
  else Ok None.

(** [d.val.f = (float) d.val.d] writes the lower half of the union. *)
Definition store_float (d : Z) : Z := (d / 2 ^ 32) * 2 ^ 32 + wrap_u 32 (f_cvt F64 F32 d).

Definition convert_preprocessing_number (t : token) : outcome token :=
  _ ← c_assert (is_tok PREP_NUMBER t);
  s ← tok_string t;
  let str := str_raw s in
  let tok := set_leading_whitespace (tok_of NUMBER 0) (leading_whitespace t) in
  i ← try_integer ulong_bits str;
  match i with
  | Some (ty, v) => Ok (set_number tok ty v)
  | None =>
    i ← try_integer 64 str;
    match i with
    | Some (ty, v) => Ok (set_number tok ty v)
    | None =>
      let '(d, r, range) := strtod str in
      let '(ty, v, r) :=
        match r with
        | c :: r' =>
          if (c =? ch "f") || (c =? ch "F") then (basic_type__float, store_float d, r')
          else if (c =? ch "l") || (c =? ch "L") then (basic_type__long_double, d, r')
          else (basic_type__double, d, r)
        | [] => (basic_type__double, d, r)
        end in
      if range then Exit "Numeric literal is out of range."
      else if negb (length r =? 0)%nat then Exit "Invalid numeric literal."
      else Ok (set_number tok ty v)
    end
  end.

(** The byte of the [char] that the escape sequence behind a backslash
    stands for, and the position behind it. *)
Definition convert_escape_sequence (l : list Z) : outcome (Z * list Z) :=
  match l with
  | [] => Exit "Invalid escape sequence."
  | c :: r =>
    if c =? ch "a" then Ok (7, r)
    else if c =? ch "b" then Ok (8, r)
    else if c =? ch "t" then Ok (9, r)
    else if c =? ch "n" then Ok (10, r)
    else if c =? ch "v" then Ok (11, r)
    else if c =? ch "f" then Ok (12, r)
    else if c =? ch "r" then Ok (13, r)
    else if c =? ch "?" then Ok (63, r)
    else if c =? ch "'" then Ok (39, r)
    else if c =? 34 then Ok (34, r)
    else if c =? 92 then Ok (92, r)
    else if c =? ch "x" then
      if negb (isxdigit (rd r)) || negb (isxdigit (rd1 r)) then
        Exit "Empty hexadecimal escape sequence."
      else Ok (wrap_u 8 (fst (scan_digits 16 0 (take 2 r))), drop 2 r)
    else if isoctal c then
      let i := if negb (isoctal (rd r)) then 1%nat else if negb (isoctal (rd1 r)) then 2%nat else 3%nat in
      Ok (wrap_u 8 (fst (scan_digits 8 0 (take i l))), drop i l)
    else Exit "Invalid escape sequence."
  end.

Definition convert_char (l : list Z) : outcome (Z * list Z) :=
  match l with
  | c :: r => if c =? 92 then convert_escape_sequence r else Ok (c, r)
  | [] => Undef "past the end of the string"
  end.

(** The loop of [convert_preprocessing_string] on the characters left; the
    fuel is their number. *)
Fixpoint convert_chars (n : nat) (l : list Z) : outcome (list Z) :=
  match l with
  | [] => Ok []
  | _ => match n with
         | O => Undef "not enough fuel"
         | S n => '(c, r) ← convert_char l; cs ← convert_chars n r; Ok (c :: cs)
         end
  end.

Definition tokenize_reset (lx : lexer) : lexer := Lexer (lx_strtab lx) (lx_strings lx) [].

(** [get_string_buffer]: the buffer, grown to [length] bytes. *)
Definition get_string_buffer (lx : lexer) (len : nat) : lexer :=
  Lexer (lx_strtab lx) (lx_strings lx)
    (lx_buffer lx ++ replicate (len - length (lx_buffer lx)) 0).

Definition convert_preprocessing_string (lx : lexer) (t : token) : outcome (lexer * token) :=
  s ← tok_string t;
  let raw := str_raw s in
  let lx := get_string_buffer lx (length raw) in
  cs ← convert_chars (length raw) raw;
  _ ← (if (length cs <=? length (lx_buffer lx))%nat then Ok tt else Undef "string buffer overrun");
  let buf := memcpy_at (lx_buffer lx) cs in
  '(lx, s) ← lex_register (Lexer (lx_strtab lx) (lx_strings lx) buf) buf (length cs);
  Ok (lx, set_string (tok_of STRING 0) s).

(** The conversion of the first character; the terminator of an empty
    constant, which the tokenizer does not build, is 0. *)
Definition convert_preprocessing_char (t : token) : outcome token :=
  s ← tok_string t;
  c ← match str_raw s with [] => Ok 0 | l => '(c, _) ← convert_char l; Ok c end;
  Ok (set_number (tok_of NUMBER 0) basic_type__int (wrap_u 64 (wrap_s 8 c))).

End conversions.

(** ** Literals *)

Fixpoint skip_xdigits (l : list Z) : list Z :=
  match l with c :: l' => if isxdigit c then skip_xdigits l' else l | [] => [] end.

Definition parse_escape_sequence (l : list Z) : outcome (list Z) :=
  let c := rd l in
  l ← advance l;
  if c =? ch "x" then Ok (skip_xdigits l)
  else if isoctal c then
    Ok (if isoctal (rd l) then let l := drop 1 l in if isoctal (rd l) then drop 1 l else l else l)
  else Ok l.

Definition strtochar (lx : lexer) (l : list Z) : outcome (lexer * token * list Z) :=
  _ ← c_assert (rd l =? ch "'");
  let start := drop 1 l in
  l ← (if rd start =? 92 then parse_escape_sequence (drop 1 start)
       else if negb (rd start =? ch "'") then advance start
       else Exit "Empty character constant.");
  if negb (rd l =? ch "'") then Exit "Multi-character constants are not supported."
  else
    '(lx, s) ← lex_register lx start (length start - length l);
    Ok (lx, set_string (tok_of PREP_CHAR 0) s, drop 1 l).

(** The position of the closing quote; the fuel is the number of characters
    left and one. *)
Fixpoint scan_string (n : nat) (l : list Z) : outcome (list Z) :=
  if rd l =? 34 then Ok l
  else match n with
       | O => Undef "not enough fuel"
       | S n =>
         if rd l =? 92 then l ← parse_escape_sequence (drop 1 l); scan_string n l
         else l ← advance l; scan_string n l
       end.

Definition strtostr (lx : lexer) (l : list Z) : outcome (lexer * token * list Z) :=
  _ ← c_assert (rd l =? 34);
  let start := drop 1 l in
  r ← scan_string (S (length start)) start;
  '(lx, s) ← lex_register lx start (length start - length r);
  Ok (lx, set_string (tok_of PREP_STRING 0) s, drop 1 r).

(** ** Identifiers and keywords *)

(** [M1] to [M8]: the position behind the characters [w], if they are there;
    characters behind a mismatch are not read. *)
Fixpoint M (l : list Z) (w : string) {struct w} : option (list Z) :=
  match w with
  | EmptyString => Some l
  | String c w =>
    match l with
    | x :: l => if x =? byte_of_ascii c then M l w else None
    | [] => None
    end
  end.
Definition E (l : list Z) : bool := negb (isident (rd l)).
(** [S1] to [S8]. *)
Definition S_ (l : list Z) (w : string) : bool :=
  match M l w with Some r => E r | None => false end.

(** How the switch of [strtoident] is left: [MATCH], the token of
    [_Static_assert], or [break] with [in] that many characters behind
    [start]. *)
Inductive ident_switch : Set :=
  | K_match (t : token_type)
  | K_static_assert
  | K_break (k : nat).

(** The rest of a case behind the characters [w]. *)
Definition behind (l : list Z) (w : string) (k : nat) (f : list Z → ident_switch) : ident_switch :=
  match M l w with Some r => f r | None => K_break k end.

Definition strtoident_switch (c99 : bool) (start : list Z) : ident_switch :=
  let l := drop 1 start in
  let c := rd start in
  if c =? ch "_" then
    if S_ l "Bool" then K_match BOOL
    else if S_ l "Alignof" then K_match ALIGNOF
    else if S_ l "Noreturn" then K_match NORETURN
    else behind l "Static_assert" 1 (λ _, K_static_assert)
  else if c =? ch "a" then if S_ l "uto" then K_match AUTO else K_break 1
  else if c =? ch "b" then if S_ l "reak" then K_match BREAK else K_break 1
  else if c =? ch "c" then
    if S_ l "ase" then K_match CASE
    else if S_ l "har" then K_match CHAR
    else behind l "on" 1 (λ l,
      if S_ l "st" then K_match CONST
      else if S_ l "tinue" then K_match CONTINUE else K_break 3)
  else if c =? ch "d" then
    if S_ l "efault" then K_match DEFAULT
    else behind l "o" 2 (λ l,
      if S_ l "uble" then K_match DOUBLE else if E l then K_match DO else K_break 2)
  else if c =? ch "e" then
    if S_ l "lse" then K_match ELSE
    else if S_ l "num" then K_match ENUM
    else if S_ l "xtern" then K_match EXTERN else K_break 1
  else if c =? ch "f" then
    if S_ l "loat" then K_match FLOAT else if S_ l "or" then K_match FOR else K_break 1
  else if c =? ch "g" then if S_ l "oto" then K_match GOTO else K_break 1
  else if c =? ch "i" then
    if S_ l "f" then K_match IF
    else behind l "n" 2 (λ l,
      if S_ l "t" then K_match INT
      else if c99 then if S_ l "line" then K_match INLINE else K_break 2 else K_break 2)
  else if c =? ch "l" then if S_ l "ong" then K_match LONG else K_break 1
  else if c =? ch "r" then
    behind l "e" 2 (λ l,
      if S_ l "gister" then K_match REGISTER
      else if S_ l "turn" then K_match RETURN
      else if c99 then if S_ l "strict" then K_match RESTRICT else K_break 2 else K_break 2)
  else if c =? ch "s" then
    if S_ l "hort" then K_match SHORT
    else if S_ l "witch" then K_match SWITCH
    else if rd l =? ch "i" then
      let l := drop 1 l in
      if S_ l "gned" then K_match SIGNED else if S_ l "zeof" then K_match SIZEOF else K_break 2
    else if rd l =? ch "t" then
      let l := drop 1 l in
      if S_ l "atic" then K_match STATIC else if S_ l "ruct" then K_match STRUCT else K_break 2
    else K_break 2
  else if c =? ch "t" then if S_ l "ypedef" then K_match TYPEDEF else K_break 1
  else if c =? ch "u" then
    behind l "n" 2 (λ l,
      if S_ l "ion" then K_match UNION
      else if S_ l "signed" then K_match UNSIGNED else K_break 2)
  else if c =? ch "v" then
    behind l "o" 2 (λ l,
      if S_ l "id" then K_match VOID
      else if S_ l "latile" then K_match VOLATILE else K_break 2)
  else if c =? ch "w" then if S_ l "hile" then K_match WHILE else K_break 1
  else K_break 1.

Fixpoint skip_ident (l : list Z) : list Z :=
  match l with c :: l' => if isident c then skip_ident l' else l | [] => [] end.

(** [MATCH]: the token of the table and the position behind its string. *)
Definition MATCH (start : list Z) (t : token_type) : outcome (token * list Z) :=
  s ← tok_string (basic t);
  Ok (basic t, drop (Z.to_nat (s_len s)) start).

Definition strtoident (c99 : bool) (lx : lexer) (start : list Z) :
    outcome (lexer * token * list Z) :=
  match strtoident_switch c99 start with
  | K_match t => '(tok, r) ← MATCH start t; Ok (lx, tok, r)
  | K_static_assert =>
    let '(fl, s) := str_init (lx_strings lx) (cstr "_Static_assert") in
    Ok (Lexer (lx_strtab lx) fl (lx_buffer lx), set_string (basic STATIC_ASSERT) s,
        drop (Z.to_nat (s_len s)) start)
  | K_break k =>
    let r := skip_ident (drop (k - 1) start) in
    '(lx, s) ← lex_register lx start (length start - length r);
    Ok (lx, set_expandable (set_string (tok_of IDENTIFIER 0) s) true, r)
  end.

(** ** Operators *)

(** The operator of more than one character at [start] that the switch of
    [strtoop] finds. *)
Definition strtoop_switch (start : list Z) : option token_type :=
  let c := rd start in
  let c1 := rd1 start in
  let c2 := rd (drop 2 start) in
  if c =? ch "*" then if c1 =? ch "=" then Some MUL_ASSIGN else None
  else if c =? ch "/" then if c1 =? ch "=" then Some DIV_ASSIGN else None
  else if c =? ch "%" then if c1 =? ch "=" then Some MOD_ASSIGN else None
  else if c =? ch "+" then
    if c1 =? ch "+" then Some INCREMENT else if c1 =? ch "=" then Some PLUS_ASSIGN else None
  else if c =? ch "-" then
    if c1 =? ch ">" then Some ARROW
    else if c1 =? ch "-" then Some DECREMENT
    else if c1 =? ch "=" then Some MINUS_ASSIGN else None
  else if c =? ch "<" then
    if c1 =? ch "=" then Some LEQ
    else if c1 =? ch "<" then if c2 =? ch "=" then Some LSHIFT_ASSIGN else Some LSHIFT
    else None
  else if c =? ch ">" then
    if c1 =? ch "=" then Some GEQ
    else if c1 =? ch ">" then if c2 =? ch "=" then Some RSHIFT_ASSIGN else Some RSHIFT
    else None
  else if c =? ch "&" then
    if c1 =? ch "=" then Some AND_ASSIGN else if c1 =? ch "&" then Some LOGICAL_AND else None
  else if c =? ch "^" then if c1 =? ch "=" then Some XOR_ASSIGN else None
  else if c =? ch "|" then
    if c1 =? ch "=" then Some OR_ASSIGN else if c1 =? ch "|" then Some LOGICAL_OR else None
  else if c =? ch "." then if (c1 =? ch ".") && (c2 =? ch ".") then Some DOTS else None
  else if c =? ch "=" then if c1 =? ch "=" then Some EQ else None
  else if c =? ch "!" then if c1 =? ch "=" then Some NEQ else None
  else if c =? ch "#" then if c1 =? ch "#" then Some TOKEN_PASTE else None
  else None.

Definition strtoop (start : list Z) : outcome (token * list Z) :=
  match strtoop_switch start with
  | Some t => MATCH start t
  | None =>
    t ← basic_token_at (wrap_s 8 (rd start));
    if is_tok END t then Exit "Unknown token." else Ok (t, drop 1 start)
  end.

(** ** Tokens *)

Fixpoint skip_spaces (l : list Z) : list Z :=
  match l with c :: l' => if isspace c then skip_spaces l' else l | [] => [] end.

Definition tokenize (c99 : bool) (lx : lexer) (line : list Z) : outcome (lexer * token * list Z) :=
  let l := skip_spaces line in
  let ws := Z.of_nat (length line - length l) in
  let c := rd l in
  '(lx, tok, r) ←
    (if isalpha c || (c =? ch "_") then strtoident c99 lx l
     else if c =? 0 then Ok (lx, basic END, l)
     else if isdigit c || ((c =? ch ".") && isdigit (rd1 l)) then stringtonum c99 lx l
     else if c =? 34 then strtostr lx l
     else if c =? ch "'" then strtochar lx l
     else '(tok, r) ← strtoop l; Ok (lx, tok, r));
  Ok (lx, set_leading_whitespace tok ws, r).

(** The tokens of a line up to its end, as [get_token] reads them; the fuel
    bounds their number. *)
Fixpoint tokenize_line (n : nat) (c99 : bool) (lx : lexer) (line : list Z) :
    outcome (lexer * list token) :=
  '(lx, t, r) ← tokenize c99 lx line;
  if is_tok END t then Ok (lx, [])
  else match n with
       | O => Undef "not enough fuel"
       | S n => '(lx, ts) ← tokenize_line n c99 lx r; Ok (lx, t :: ts)
       end.
