(* ===== verification/LexerProps.v ===== *)
(** * Identifiers, keywords and operators of the tokenizer

    [strtoident] finds the longest identifier and looks it up among the
    keywords; [strtoop] finds the longest operator. *)

From stdpp Require Import base list numbers strings.
From Stdlib Require Import ZArith Lia Sorting.Sorted.
From Stdlib Require Import ZArith Lia.
From S2P Require Import Prelude CType Floats Strings Hash Strtab Typetree Token Lexer.

Local Open Scope Z_scope.

(** ** Words *)

(** The identifier at the front of a position. *)
Fixpoint ident_of (l : list Z) : list Z :=
  match l with c :: l' => if isident c then c :: ident_of l' else [] | [] => [] end.

Fixpoint zleqb (a b : list Z) : bool :=
  match a, b with
  | [], [] => true
  | x :: a, y :: b => (x =? y) && zleqb a b
  | _, _ => false
  end.

Lemma zleqb_eq a b : zleqb a b = true ↔ a = b.
Proof.
  revert b. induction a as [|x a IH]; intros [|y b]; cbn; try done.
  rewrite andb_true_iff, Z.eqb_eq, IH. split; [intros [-> ->]; done|by intros [= -> ->]].
Qed.

Lemma ident_skip l : ident_of l ++ skip_ident l = l.
Proof. induction l as [|c l IH]; cbn; [done|]. destruct (isident c); cbn; [by rewrite IH|done]. Qed.

Lemma length_skip_ident l : (length (skip_ident l) ≤ length l)%nat.
Proof. rewrite <-(ident_skip l) at 2. rewrite length_app. lia. Qed.

Lemma skip_ident_rd l : isident (rd (skip_ident l)) = false.
Proof. induction l as [|c l IH]; cbn; [done|]. by destruct (isident c) eqn:Hc. Qed.

Lemma drop_ident l : drop (length (ident_of l)) l = skip_ident l.
Proof. rewrite <-(ident_skip l) at 2. by rewrite drop_app_length. Qed.

Lemma S_ident l w : forallb isident (cstr w) = true → S_ l w = zleqb (ident_of l) (cstr w).
Proof.
  revert l. unfold S_. induction w as [|c w IH]; intros l Hw; cbn in Hw |- *.
  - unfold E. destruct l as [|x l]; cbn; [done|]. by destruct (isident x).
  - apply andb_true_iff in Hw as [Hc Hw]. destruct l as [|x l]; [done|]. cbn [ident_of M].
    destruct (Z.eqb_spec x (byte_of_ascii c)) as [->|Hx].
    + rewrite Hc. cbn [zleqb]. rewrite Z.eqb_refl. cbn [andb]. by apply IH.
    + destruct (isident x); [|done]. cbn [zleqb]. by destruct (Z.eqb_spec x (byte_of_ascii c)).
Qed.

(** ** Keywords *)

(** The keywords of C89, those of C99 and the C11 words the compiler knows. *)
Definition keywords (c99 : bool) : list (list Z * token_type) :=
  [(cstr "auto", AUTO); (cstr "break", BREAK); (cstr "case", CASE); (cstr "char", CHAR);
   (cstr "const", CONST); (cstr "continue", CONTINUE); (cstr "default", DEFAULT); (cstr "do", DO);
   (cstr "double", DOUBLE); (cstr "else", ELSE); (cstr "enum", ENUM); (cstr "extern", EXTERN);
   (cstr "float", FLOAT); (cstr "for", FOR); (cstr "goto", GOTO); (cstr "if", IF);
   (cstr "int", INT); (cstr "long", LONG); (cstr "register", REGISTER); (cstr "return", RETURN);
   (cstr "short", SHORT); (cstr "signed", SIGNED); (cstr "sizeof", SIZEOF);
   (cstr "static", STATIC); (cstr "struct", STRUCT); (cstr "switch", SWITCH);
   (cstr "typedef", TYPEDEF); (cstr "union", UNION); (cstr "unsigned", UNSIGNED);
   (cstr "void", VOID); (cstr "volatile", VOLATILE); (cstr "while", WHILE);
   (cstr "_Alignof", ALIGNOF); (cstr "_Bool", BOOL); (cstr "_Noreturn", NORETURN);
   (cstr "_Static_assert", STATIC_ASSERT)] ++
  (if c99 then [(cstr "inline", INLINE); (cstr "restrict", RESTRICT)] else []).

Fixpoint lookup_word (ws : list (list Z * token_type)) (w : list Z) : option token_type :=
  match ws with
  | [] => None
  | (w', t) :: ws => if zleqb w w' then Some t else lookup_word ws w
  end.
Definition keyword_of (c99 : bool) (w : list Z) : option token_type := lookup_word (keywords c99) w.

(** What the switch finds. *)
Definition switch_ok (c99 : bool) (l : list Z) : Prop :=
  match strtoident_switch c99 l with
  | K_match t => keyword_of c99 (ident_of l) = Some t ∧ t ≠ STATIC_ASSERT
  | K_static_assert => rd l = ch "_" ∧ is_Some (M (drop 1 l) "Static_assert")
  | K_break k => keyword_of c99 (ident_of l) = None ∧ (k - 1 ≤ length (ident_of l))%nat
  end.

(** The words behind the first character [c]. *)
Definition words_behind (c : Z) : list (list Z * token_type) → list (list Z * token_type) :=
  omap (λ '(w, t), match w with x :: w => if x =? c then Some (w, t) else None | [] => None end).

Lemma lookup_word_cons ws c w : lookup_word ws (c :: w) = lookup_word (words_behind c ws) w.
Proof.
  induction ws as [|[[|x w'] t] ws IH]; cbn; [done..|]. rewrite (Z.eqb_sym c).
  destruct (x =? c); cbn; [|done]. by destruct (zleqb w w').
Qed.

Lemma lookup_word_nil_behind c ws w : words_behind c ws = [] → lookup_word ws (c :: w) = None.
Proof. intros H. by rewrite lookup_word_cons, H. Qed.

(** Evaluate the words of a goal, move the comparison of the first character
    away, and decide the comparisons of the rest. *)
Ltac eval_words :=
  repeat match goal with
  | |- context [ident_of (?c :: ?l)] => change (ident_of (c :: l)) with (c :: ident_of l)
  | |- context [cstr ?s] => let x := eval vm_compute in (cstr s) in change (cstr s) with x
  | |- context [lookup_word ?ws (?c :: ?w)] =>
      rewrite (lookup_word_cons ws c w);
      let x := eval vm_compute in (words_behind c ws) in change (words_behind c ws) with x
  end.
Ltac decide_words :=
  cbn [lookup_word zleqb length app];
  repeat match goal with
  | |- context [zleqb (ident_of ?l) ?w] =>
      let H := fresh "Hw" in
      destruct (zleqb (ident_of l) w) eqn:H;
      [apply zleqb_eq in H;
       try (match goal with HM : (∀ w', _) |- _ => exfalso; exact (HM _ H) end);
       rewrite ?H|]; cbn [zleqb]
  end;
  first [done | split; [done|cbn; lia]].

(** The rest of a case behind the characters [w]. *)
Lemma M_ident l w : forallb isident (cstr w) = true →
  match M l w with
  | Some r => ident_of l = cstr w ++ ident_of r
  | None => ∀ w', ident_of l ≠ cstr w ++ w'
  end.
Proof.
  revert l. induction w as [|c w IH]; intros l Hw; cbn in Hw |- *; [done|].
  apply andb_true_iff in Hw as [Hc Hw]. destruct l as [|x l]; [by intros w'|].
  destruct (Z.eqb_spec x (byte_of_ascii c)) as [->|Hx].
  - cbn. rewrite Hc. specialize (IH l Hw). destruct (M l w); [by rewrite IH|].
    intros w' [=]. by eapply IH.
  - intros w'. cbn. destruct (isident x); congruence.
Qed.

Lemma E_ident l : E l = zleqb (ident_of l) [].
Proof. unfold E. destruct l as [|x l]; cbn; [done|]. by destruct (isident x). Qed.

Ltac switch_case :=
  unfold switch_ok, strtoident_switch, keyword_of, behind; eval_words;
  cbn -[E M S_ ident_of lookup_word keywords cstr];
  repeat match goal with |- context [drop 0 ?l] => change (drop 0 l) with l end;
  rewrite ?S_ident by reflexivity; eval_words;
  try match goal with
  | |- context [M ?l ?w] =>
      let H := fresh "HM" in
      pose proof (M_ident l w eq_refl) as H; destruct (M l w) as [r|];
      [rewrite H; eval_words|];
      let x := eval vm_compute in (cstr w) in change (cstr w) with x in H; cbn [app] in H |- *
  end;
  rewrite ?S_ident by reflexivity; rewrite ?E_ident; eval_words; decide_words.

Lemma ident_first x l k : x ≠ k → ∀ w', ident_of (x :: l) ≠ k :: w'.
Proof. intros Hx w'. cbn. destruct (isident x); congruence. Qed.

Lemma switch_s l c99 : switch_ok c99 (ch "s" :: l).
Proof.
  destruct l as [|x l]; [destruct c99; by vm_compute|].
  destruct (Z.eq_dec x (ch "i")) as [->|Hi]; [destruct c99; switch_case|].
  destruct (Z.eq_dec x (ch "t")) as [->|Ht]; [destruct c99; switch_case|].
  pose proof (ident_first x l _ Hi) as Hi'. pose proof (ident_first x l _ Ht) as Ht'.
  apply Z.eqb_neq in Hi, Ht. unfold switch_ok, strtoident_switch. cbn [rd drop].
  rewrite Hi, Ht.
  destruct c99; switch_case.
Qed.

Lemma switch_default c l c99 : isident c = true →
  forallb (λ k, negb (c =? k)) (cstr "_abcdefgilrstuvw") = true → switch_ok c99 (c :: l).
Proof.
  intros Hc H. let x := eval vm_compute in (cstr "_abcdefgilrstuvw") in
    change (cstr "_abcdefgilrstuvw") with x in H.
  cbn [forallb] in H. rewrite !andb_true_iff, !negb_true_iff in H. destruct_and! H.
  unfold switch_ok, strtoident_switch, keyword_of. cbn [rd drop ident_of].
  repeat match goal with H : (c =? _) = false |- _ => rewrite !H end.
  rewrite Hc. split; [|cbn; lia].
  destruct c99;
    (match goal with |- lookup_word ?ws _ = _ =>
       let x := eval vm_compute in ws in change ws with x end; cbn [lookup_word zleqb];
     repeat match goal with H : (c =? _) = false |- _ => rewrite !H; clear H end; done).
Qed.

(** The switch of [strtoident] finds a keyword exactly if the longest
    identifier is one, except that it asks only for a prefix of
    [_Static_assert]. *)
Lemma switch_correct c l c99 : isident c = true → switch_ok c99 (c :: l).
Proof.
  intros Hc.
  destruct (forallb (λ k, negb (c =? k)) (cstr "_abcdefgilrstuvw")) eqn:H;
    [by apply switch_default|].
  assert (In c (cstr "_abcdefgilrstuvw")) as Hin.
  { clear Hc. induction (cstr "_abcdefgilrstuvw") as [|k ks IH]; [done|]. cbn in H.
    destruct (Z.eqb_spec c k); [by left|]. right. by apply IH. }
  vm_compute in Hin.
  repeat match type of Hin with
  | _ ∨ _ => destruct Hin as [<-|Hin]
  | False => destruct Hin
  end; try apply switch_s; destruct c99; switch_case.
Qed.

Lemma lookup_word_in ws w t : lookup_word ws w = Some t → (w, t) ∈ ws.
Proof.
  induction ws as [|[w' t'] ws IH]; cbn; [done|].
  destruct (zleqb w w') eqn:H; [|by right; apply IH].
  apply zleqb_eq in H as ->. intros [= ->]. left.
Qed.

(** The table has the spelling of every keyword but one. *)
Lemma keyword_spelling c99 w t : keyword_of c99 w = Some t → t ≠ STATIC_ASSERT →
  tk_d (basic t) = D_string (SHORT_STRING_INIT w).
Proof.
  intros H Ht. apply lookup_word_in in H.
  assert (Forall (λ '(w, t), t ≠ STATIC_ASSERT → tk_d (basic t) = D_string (SHORT_STRING_INIT w))
    (keywords c99)) as HF by (destruct c99; vm_compute; repeat constructor; done).
  rewrite Forall_forall in HF. exact (HF _ H Ht).
Qed.

Lemma keyword_static c99 : keyword_of c99 (cstr "_Static_assert") = Some STATIC_ASSERT.
Proof. by destruct c99. Qed.

Definition ident_start (c : Z) : bool := isalpha c || (c =? ch "_").

Lemma ident_start_ident c : ident_start c = true → isident c = true.
Proof. unfold ident_start, isident, isalnum. destruct (isalpha c), (isdigit c); done. Qed.

Lemma skip_ident_drop k l : (k ≤ length (ident_of l))%nat → skip_ident (drop k l) = skip_ident l.
Proof.
  revert l. induction k as [|k IH]; intros [|c l] Hk; cbn in *; try done.
  destruct (isident c); cbn in Hk; [apply IH; lia|lia].
Qed.

(** The identifier or keyword at [l], by the table. *)
Definition ident_spec (c99 : bool) (lx : lexer) (l : list Z) : outcome (lexer * token * list Z) :=
  match keyword_of c99 (ident_of l) with
  | Some STATIC_ASSERT =>
    let '(fl, s) := str_init (lx_strings lx) (ident_of l) in
    Ok (Lexer (lx_strtab lx) fl (lx_buffer lx), set_string (basic STATIC_ASSERT) s, skip_ident l)
  | Some t => Ok (lx, basic t, skip_ident l)
  | None =>
    '(lx, s) ← lex_register lx l (length (ident_of l));
    Ok (lx, set_expandable (set_string (tok_of IDENTIFIER 0) s) true, skip_ident l)
  end.

Lemma strtoident_spec c99 lx l : ident_start (rd l) = true →
  (∀ r, M l "_Static_assert" = Some r → E r = true) →
  strtoident c99 lx l = ident_spec c99 lx l.
Proof.
  intros Hs HS. destruct l as [|c l']; [done|]. cbn [rd] in Hs.
  pose proof (switch_correct c l' c99 (ident_start_ident _ Hs)) as Hsw.
  unfold switch_ok in Hsw. unfold strtoident, ident_spec.
  destruct (strtoident_switch c99 (c :: l')) as [t| |k].
  - destruct Hsw as [Hk Ht]. rewrite Hk. pose proof (keyword_spelling _ _ _ Hk Ht) as Hd.
    unfold MATCH, tok_string. rewrite Hd. cbn [mbind outcome_bind].
    change (s_len (SHORT_STRING_INIT ?w)) with (Z.of_nat (length w)).
    rewrite Nat2Z.id, drop_ident. by destruct t.
  - destruct Hsw as [Hc [r Hr]]. cbn [rd] in Hc. change (M l' "Static_assert" = Some r) in Hr. subst c.
    pose proof (M_ident l' "Static_assert" eq_refl) as Hi. rewrite Hr in Hi.
    assert (E r = true) as HE by (by apply HS).
    rewrite E_ident, zleqb_eq in HE. rewrite HE, app_nil_r in Hi.
    assert (ident_of (ch "_" :: l') = cstr "_Static_assert") as Hw
      by (cbn [ident_of]; change (isident (ch "_")) with true; cbn; by rewrite Hi).
    rewrite Hw, keyword_static. f_equal. f_equal. rewrite <-drop_ident. by rewrite Hw.
  - destruct Hsw as [Hk Hl]. rewrite Hk. rewrite skip_ident_drop by done.
    f_equal. f_equal. rewrite <-drop_ident, length_drop.
    assert (length (ident_of (c :: l')) ≤ length (c :: l'))%nat; [|lia].
    rewrite <-(ident_skip (c :: l')) at 2. rewrite length_app. lia.
Qed.

(** ** Operators *)

(** The operators and separators, longest first. *)
Definition punctuators : list (list Z * token_type) :=
  [(cstr "<<=", LSHIFT_ASSIGN); (cstr ">>=", RSHIFT_ASSIGN); (cstr "...", DOTS);
   (cstr "||", LOGICAL_OR); (cstr "&&", LOGICAL_AND); (cstr "<=", LEQ); (cstr ">=", GEQ);
   (cstr "==", EQ); (cstr "!=", NEQ); (cstr "->", ARROW); (cstr "++", INCREMENT);
   (cstr "--", DECREMENT); (cstr "<<", LSHIFT); (cstr ">>", RSHIFT); (cstr "*=", MUL_ASSIGN);
   (cstr "/=", DIV_ASSIGN); (cstr "%=", MOD_ASSIGN); (cstr "+=", PLUS_ASSIGN);
   (cstr "-=", MINUS_ASSIGN); (cstr "&=", AND_ASSIGN); (cstr "^=", XOR_ASSIGN);
   (cstr "|=", OR_ASSIGN); (cstr "##", TOKEN_PASTE);
   (cstr "!", NOT); (cstr "#", HASH); (cstr "$", DOLLAR); (cstr "%", MODULO); (cstr "&", AND);
   (cstr "(", OPEN_PAREN); (cstr ")", CLOSE_PAREN); (cstr "*", STAR); (cstr "+", PLUS);
   (cstr ",", COMMA); (cstr "-", MINUS); (cstr ".", DOT); (cstr "/", SLASH); (cstr ":", COLON);
   (cstr ";", SEMICOLON); (cstr "<", LT); (cstr "=", ASSIGN); (cstr ">", GT);
   (cstr "?", QUESTION); (cstr "@", AMPERSAND); (cstr "[", OPEN_BRACKET); ([92], BACKSLASH);
   (cstr "]", CLOSE_BRACKET); (cstr "^", XOR); (cstr "`", BACKTICK); (cstr "{", OPEN_CURLY);
   (cstr "|", OR); (cstr "}", CLOSE_CURLY); (cstr "~", NEG)].

Fixpoint prefixb (w l : list Z) : bool :=
  match w, l with
  | [], _ => true
  | x :: w, y :: l => (y =? x) && prefixb w l
  | _ :: _, [] => false
  end.

Lemma prefixb_spec w l : prefixb w l = true ↔ w `prefix_of` l.
Proof.
  revert l. induction w as [|x w IH]; intros l; cbn; [split; [intros _; apply prefix_nil|done]|].
  destruct l as [|y l]; [split; [done|by intros ?%prefix_nil_inv]|].
  rewrite andb_true_iff, Z.eqb_eq, IH. split; [intros [-> H]; by apply prefix_cons|].
  intros H. split; [symmetry; by eapply prefix_cons_inv_1|by eapply prefix_cons_inv_2].
Qed.

(** The first entry that is a prefix. *)
Fixpoint munch (ws : list (list Z * token_type)) (l : list Z) : option token_type :=
  match ws with
  | [] => None
  | (w, t) :: ws => if prefixb w l then Some t else munch ws l
  end.

Lemma munch_cons ws c l : Forall (λ p, fst p ≠ []) ws →
  munch ws (c :: l) = munch (words_behind c ws) l.
Proof.
  induction 1 as [|[[|x w] t] ws Hw _ IH]; cbn; [done..|]. rewrite (Z.eqb_sym c).
  destruct (x =? c); cbn; [|done]. by destruct (prefixb w l).
Qed.

Lemma munch_longest ws l t :
  StronglySorted (λ p q, (length (fst q) ≤ length (fst p))%nat) ws → munch ws l = Some t →
  ∃ w, (w, t) ∈ ws ∧ w `prefix_of` l ∧
    ∀ w' t', (w', t') ∈ ws → w' `prefix_of` l → (length w' ≤ length w)%nat.
Proof.
  induction 1 as [|[w u] ws Hs IH HF]; cbn; [done|]. rewrite Forall_forall in HF.
  destruct (prefixb w l) eqn:Hp.
  - intros [= ->]. exists w. split; [left|]. split; [by apply prefixb_spec|].
    intros w' t' [[= -> ->]|Hin]%elem_of_cons _; [done|]. apply (HF _ Hin).
  - intros H. destruct (IH H) as (v & Hv & Hpv & Hm). exists v. split; [by right|].
    split; [done|]. intros w' t' [[= -> ->]|Hin]%elem_of_cons Hw'; [|by eapply Hm].
    apply prefixb_spec in Hw'. congruence.
Qed.

Lemma punctuators_sorted :
  StronglySorted (λ p q, (length (fst q) ≤ length (fst p))%nat) punctuators.
Proof. vm_compute. repeat constructor; lia. Qed.

Lemma punctuator_spelling w t : (w, t) ∈ punctuators →
  tk_d (basic t) = D_string (SHORT_STRING_INIT w).
Proof.
  assert (Forall (λ '(w, t), tk_d (basic t) = D_string (SHORT_STRING_INIT w)) punctuators) as HF
    by (vm_compute; repeat constructor).
  rewrite Forall_forall in HF. apply HF.
Qed.

(** Decide the comparisons of the characters of a goal. *)
Ltac decide_chars :=
  cbn [rd drop munch prefixb andb];
  repeat match goal with
  | |- context [Zpos ?a =? Zpos ?b] =>
      let y := eval vm_compute in (Zpos a =? Zpos b) in change (Zpos a =? Zpos b) with y;
      cbn [andb]
  | |- context [?x =? Zpos ?b] =>
      is_var x; let H := fresh "Hx" in
      destruct (Z.eqb_spec x (Zpos b)) as [->|H]; cbn [andb]
  end.

Lemma strtoop_munch c l :
  c ∈ cstr "!#$%&()*+,-./:;<=>?@[]^`{|}~" ++ [92] →
  ∃ t, munch punctuators (c :: l) = Some t ∧ strtoop (c :: l) = MATCH (c :: l) t.
Proof.
  intros Hc. rewrite munch_cons by (vm_compute; repeat constructor; done).
  assert (In c (cstr "!#$%&()*+,-./:;<=>?@[]^`{|}~" ++ [92])) as Hin by by apply list_elem_of_In.
  clear Hc. vm_compute in Hin.
  repeat match type of Hin with
  | _ ∨ _ => destruct Hin as [<-|Hin]
  | False => destruct Hin
  end;
  (match goal with |- context [words_behind ?c ?ws] =>
     let x := eval vm_compute in (words_behind c ws) in change (words_behind c ws) with x end);
  first [by eexists|
    unfold strtoop, strtoop_switch, rd1; destruct l as [|x [|y l]]; [by eexists|..];
    decide_chars; by eexists].
Qed.

(** * Integer constants and string literals

    Integer constants against the grammar and the table of types of the C
    standard (6.4.4.1), and string literals against the printer of strings. *)

(** ** Digits *)

Definition value_of (base : Z) (ds : list Z) : Z :=
  foldl (λ acc c, acc * base + digit_value c) 0 ds.

Lemma scan_digits_app base ds r acc : Forall (λ c, digit_value c < base) ds →
  base ≤ digit_value (rd r) →
  scan_digits base acc (ds ++ r) = (foldl (λ acc c, acc * base + digit_value c) acc ds, r).
Proof.
  intros Hds Hr. revert acc. induction Hds as [|c ds Hc _ IH]; intros acc; cbn [app foldl].
  - destruct r as [|c r]; [done|]. cbn [scan_digits rd] in *.
    destruct (Z.ltb_spec (digit_value c) base); [lia|done].
  - cbn [scan_digits]. rewrite (proj2 (Z.ltb_lt _ _) Hc). apply IH.
Qed.

Lemma digit_value_digit c : isdigit c = true → digit_value c < 10.
Proof. unfold digit_value. intros H. rewrite H. unfold isdigit in H. lia. Qed.
Lemma digit_value_octal c : isoctal c = true → digit_value c < 8.
Proof.
  unfold digit_value, isoctal, isdigit. rewrite andb_true_iff, Z.leb_le, Z.ltb_lt. intros [H1 H2].
  rewrite (proj2 (Z.leb_le 48 c)), (proj2 (Z.leb_le c 57)) by lia. cbn. lia.
Qed.
Lemma digit_value_xdigit c : isxdigit c = true → digit_value c < 16.
Proof.
  unfold digit_value, isxdigit. destruct (isdigit c) eqn:Hd; [unfold isdigit in Hd; lia|].
  unfold isalpha, tolower. cbn [orb]. rewrite !orb_true_iff, !andb_true_iff, !Z.leb_le.
  intros [[? ?]|[? ?]].
  - rewrite (proj2 (Z.leb_le 65 c)), (proj2 (Z.leb_le c 90)) by lia. cbn. lia.
  - rewrite (proj2 (Z.leb_le 97 c)), (proj2 (Z.leb_le c 122)) by lia. rewrite orb_true_r.
    destruct (Z.leb_spec c 90); [lia|]. rewrite andb_false_r. lia.
Qed.

(** ** The integer constants of C *)

(** A constant without its suffix, whether it is decimal, and its value. *)
Inductive integer_constant : list Z → bool → Z → Prop :=
  | IC_decimal c ds :
      c ≠ ch "0" → Forall isdigit (c :: ds) →
      integer_constant (c :: ds) true (value_of 10 (c :: ds))
  | IC_octal ds :
      Forall isoctal ds → integer_constant (ch "0" :: ds) false (value_of 8 ds)
  | IC_hexadecimal x d ds :
      x = ch "x" ∨ x = ch "X" → Forall isxdigit (d :: ds) →
      integer_constant (ch "0" :: x :: d :: ds) false (value_of 16 (d :: ds)).

(** The suffixes with the enumerator for each. *)
Definition integer_suffixes : list (list Z * Z) :=
  [([], SUFFIX_NONE); (cstr "u", SUFFIX_U); (cstr "U", SUFFIX_U);
   (cstr "l", SUFFIX_L); (cstr "L", SUFFIX_L); (cstr "ll", SUFFIX_LL); (cstr "LL", SUFFIX_LL);
   (cstr "ul", SUFFIX_UL); (cstr "uL", SUFFIX_UL); (cstr "Ul", SUFFIX_UL); (cstr "UL", SUFFIX_UL);
   (cstr "lu", SUFFIX_UL); (cstr "lU", SUFFIX_UL); (cstr "Lu", SUFFIX_UL); (cstr "LU", SUFFIX_UL);
   (cstr "ull", SUFFIX_ULL); (cstr "uLL", SUFFIX_ULL); (cstr "Ull", SUFFIX_ULL);
   (cstr "ULL", SUFFIX_ULL); (cstr "llu", SUFFIX_ULL); (cstr "llU", SUFFIX_ULL);
   (cstr "LLu", SUFFIX_ULL); (cstr "LLU", SUFFIX_ULL)].

(** The types the standard lists for a suffix, [long long] being [long]. *)
Definition candidates (suffix : Z) (decimal : bool) : list ctype :=
  if suffix =? SUFFIX_NONE then
    if decimal then [basic_type__int; basic_type__long]
    else [basic_type__int; basic_type__unsigned_int; basic_type__long; basic_type__unsigned_long]
  else if suffix =? SUFFIX_U then [basic_type__unsigned_int; basic_type__unsigned_long]
  else if (suffix =? SUFFIX_L) || (suffix =? SUFFIX_LL) then
    if decimal then [basic_type__long] else [basic_type__long; basic_type__unsigned_long]
  else [basic_type__unsigned_long].

Definition represents_value (v : Z) (ty : ctype) : bool :=
  match ity_of ty with Some i => in_range i v | None => false end.

(** The type of a constant: the first of the list that can represent it. *)
Fixpoint first_type (v : Z) (tys : list ctype) : option ctype :=
  match tys with
  | [] => None
  | ty :: tys => if represents_value v ty then Some ty else first_type v tys
  end.

Lemma represents_max v : 0 ≤ v →
  represents_value v basic_type__int = (v <=? INT_MAX) ∧
  represents_value v basic_type__unsigned_int = (v <=? UINT_MAX) ∧
  represents_value v basic_type__long = (v <=? LONGLONG_MAX) ∧
  represents_value v basic_type__unsigned_long = (v <=? 2 ^ 64 - 1).
Proof.
  intros Hv.
  change (represents_value v basic_type__int) with (in_range I32 v).
  change (represents_value v basic_type__unsigned_int) with (in_range U32 v).
  change (represents_value v basic_type__long) with (in_range I64 v).
  change (represents_value v basic_type__unsigned_long) with (in_range U64 v).
  unfold in_range, INT_MAX, UINT_MAX, LONGLONG_MAX. cbn [isigned iwidth].
  repeat split; lia.
Qed.

Lemma constant_type_first v sfx k dec ty : 0 ≤ v → (sfx, k) ∈ integer_suffixes →
  first_type v (candidates k dec) = Some ty →
  constant_integer_type v k dec = Ok ty ∧ v < 2 ^ 64.
Proof.
  intros Hv Hin. apply list_elem_of_In in Hin.
  assert (In k [0; 1; 2; 3; 6; 7]) as Hk.
  { vm_compute in Hin. vm_compute.
    repeat match type of Hin with _ ∨ _ => destruct Hin as [[= <- <-]|Hin]; [tauto|] end. done. }
  destruct (represents_max v Hv) as (Ri & Ru & Rl & Rul).
  clear Hin. vm_compute in Hk.
  repeat match type of Hk with
  | _ ∨ _ => destruct Hk as [<-|Hk]
  | False => destruct Hk
  end; destruct dec; unfold constant_integer_type, candidates; 
  repeat match goal with |- context [?a =? ?b] =>
    let y := eval vm_compute in (a =? b) in change (a =? b) with y end;
  cbn [orb negb andb first_type];
  rewrite ?Ri, ?Ru, ?Rl, ?Rul; unfold INT_MAX, UINT_MAX, LONGLONG_MAX;
  repeat match goal with |- context [?a <=? ?b] => destruct (Z.leb_spec a b) end;
  intros H'; first [discriminate H'|injection H' as <-; split; [reflexivity|lia]].
Qed.

Lemma suffix_read sfx k : (sfx, k) ∈ integer_suffixes →
  read_integer_suffix sfx = (k, []) ∧ 16 ≤ digit_value (rd sfx) ∧
  rd sfx ≠ ch "x" ∧ rd sfx ≠ ch "X".
Proof.
  assert (Forall (λ '(sfx, k), read_integer_suffix sfx = (k, []) ∧ 16 ≤ digit_value (rd sfx) ∧
    rd sfx ≠ ch "x" ∧ rd sfx ≠ ch "X") integer_suffixes) as HF.
  { vm_compute. repeat constructor; discriminate. }
  rewrite Forall_forall in HF. apply HF.
Qed.

Lemma Forall_digit_values (f : Z → bool) base ds : (∀ c, f c = true → digit_value c < base) →
  Forall f ds → Forall (λ c, digit_value c < base) ds.
Proof. intros Hf HF. eapply Forall_impl; [exact HF|]. intros c Hc. apply Hf. by apply Is_true_true. Qed.

Lemma foldl_digits_nonneg base ds acc : 0 ≤ base → 0 ≤ acc → Forall (λ c, 0 ≤ digit_value c) ds →
  0 ≤ foldl (λ acc c, acc * base + digit_value c) acc ds.
Proof.
  intros Hb Ha H. revert acc Ha. induction H as [|c ds Hc _ IH]; intros acc Ha; cbn; [done|].
  apply IH. nia.
Qed.

Lemma digit_value_nonneg c : 0 ≤ digit_value c.
Proof.
  unfold digit_value, isdigit, isalpha, tolower.
  destruct (Z.leb_spec 48 c), (Z.leb_spec c 57), (Z.leb_spec 65 c), (Z.leb_spec c 90),
    (Z.leb_spec 97 c), (Z.leb_spec c 122); cbn; lia.
Qed.

Lemma value_of_nonneg base ds : 0 ≤ base → 0 ≤ value_of base ds.
Proof.
  intros. apply foldl_digits_nonneg; [done|lia|]. apply Forall_forall. intros. apply digit_value_nonneg.
Qed.

Lemma tolower_x c : (tolower c =? ch "x") = true ↔ c = ch "x" ∨ c = ch "X".
Proof.
  unfold tolower. rewrite Z.eqb_eq.
  destruct (Z.leb_spec 65 c), (Z.leb_spec c 90); cbn; lia.
Qed.

(** [strtoul] on a constant with its suffix. *)
Lemma strtoul_constant width w dec v sfx k : integer_constant w dec v →
  (sfx, k) ∈ integer_suffixes →
  strtoul width (w ++ sfx) =
    (if v <=? 2 ^ width - 1 then (v, sfx, false) else (2 ^ width - 1, sfx, true)) ∧
  isdigit (rd (w ++ sfx)) = true ∧ negb (rd (w ++ sfx) =? ch "0") = dec ∧ 0 ≤ v.
Proof.
  intros Hw Hs. destruct (suffix_read _ _ Hs) as (_ & H16 & Hx & HX). unfold strtoul.
  destruct Hw as [c ds Hc Hds|ds Hds|x d ds Hx' Hds].
  - assert (Hd : isdigit c = true) by (apply Forall_cons in Hds as [H _]; by destruct (isdigit c)).
    change (rd ((c :: ds) ++ sfx)) with c. apply Z.eqb_neq in Hc. rewrite Hc. cbn [andb].
    rewrite (scan_digits_app 10); [|by eapply Forall_digit_values; [apply digit_value_digit|]|lia].
    fold (value_of 10 (c :: ds)). split; [done|]. split; [done|]. split; [done|]. by apply value_of_nonneg.
  - change (rd ((ch "0" :: ds) ++ sfx)) with (ch "0"). rewrite Z.eqb_refl.
    assert (Hn : (tolower (rd1 ((ch "0" :: ds) ++ sfx)) =? ch "x") = false).
    { apply not_true_is_false. rewrite tolower_x. change (rd1 ((ch "0" :: ds) ++ sfx)) with (rd (ds ++ sfx)).
      destruct ds as [|d ds]; [tauto|]. apply Forall_cons in Hds as [Hd _]. cbn [app rd].
      intros [-> | ->]; done. }
    rewrite Hn. cbn [andb].
    assert (H0 : Forall isoctal (ch "0" :: ds)) by by constructor.
    rewrite (scan_digits_app 8); [|by eapply Forall_digit_values; [apply digit_value_octal|]|lia].
    cbn [foldl]. change (0 * 8 + digit_value (ch "0")) with 0. fold (value_of 8 ds).
    split; [done|]. split; [done|]. split; [done|]. by apply value_of_nonneg.
  - change (rd ((ch "0" :: x :: d :: ds) ++ sfx)) with (ch "0"). rewrite Z.eqb_refl.
    change (rd1 ((ch "0" :: x :: d :: ds) ++ sfx)) with x.
    change (drop 2 ((ch "0" :: x :: d :: ds) ++ sfx)) with ((d :: ds) ++ sfx).
    change (rd ((d :: ds) ++ sfx)) with d.
    assert (isxdigit d = true) as Hd by (apply Forall_cons in Hds as [H _]; by destruct (isxdigit d)).
    rewrite (proj2 (tolower_x x) Hx'), Hd. cbn [andb].
    rewrite (scan_digits_app 16); [|by eapply Forall_digit_values; [apply digit_value_xdigit|]|lia].
    fold (value_of 16 (d :: ds)). split; [done|]. split; [done|]. split; [done|]. by apply value_of_nonneg.
Qed.

Lemma try_constant width w dec v sfx k ty : integer_constant w dec v →
  (sfx, k) ∈ integer_suffixes → first_type v (candidates k dec) = Some ty →
  try_integer width (w ++ sfx) = Ok (if v <=? 2 ^ width - 1 then Some (ty, v) else None) ∧
  v < 2 ^ 64.
Proof.
  intros Hw Hs Hty. destruct (strtoul_constant width w dec v sfx k Hw Hs) as (Hst & Hd & Hdec & Hv).
  destruct (constant_type_first v sfx k dec ty Hv Hs Hty) as [Hc Hmax]. split; [|done].
  destruct (suffix_read _ _ Hs) as [Hr _]. unfold try_integer. rewrite Hst.
  destruct (v <=? 2 ^ width - 1); rewrite Hr; cbn [negb andb length Nat.eqb]; [|done].
  rewrite Hd, Hdec, Hc. done.
Qed.

Lemma convert_constant `{FloatArith} bits t s w dec v sfx k ty :
  tk_token t = PREP_NUMBER → tk_d t = D_string s → str_raw s = w ++ sfx →
  integer_constant w dec v → (sfx, k) ∈ integer_suffixes →
  first_type v (candidates k dec) = Some ty →
  convert_preprocessing_number bits t =
    Ok (set_number (set_leading_whitespace (tok_of NUMBER 0) (leading_whitespace t)) ty v).
Proof.
  intros Ht Hd Hr Hw Hs Hty. unfold convert_preprocessing_number, is_tok, tok_string.
  rewrite Ht, Hd. cbn [c_assert mbind outcome_bind]. rewrite Z.eqb_refl, Hr. cbn [mbind outcome_bind].
  destruct (try_constant bits w dec v sfx k ty Hw Hs Hty) as [-> _].
  destruct (try_constant 64 w dec v sfx k ty Hw Hs Hty) as [-> Hv].
  rewrite (proj2 (Z.leb_le v (2 ^ 64 - 1))) by lia.
  by destruct (v <=? 2 ^ bits - 1).
Qed.

(** ** Strings *)

(** What the printer writes for a byte is read as that byte, and passed over
    by the tokenizer, in one step. *)
Definition byte_read (c : Z) : Prop :=
  (∀ r, convert_char (printchar c ++ r) = Ok (c, r)) ∧
  (∀ n r, scan_string (S n) (printchar c ++ r) = scan_string n r) ∧
  (1 ≤ length (printchar c))%nat.

Lemma bytes_read : Forall byte_read (seqZ 0 256).
Proof.
  let x := eval vm_compute in (seqZ 0 256) in change (seqZ 0 256) with x.
  repeat (apply Forall_cons_2; [split; [intros r; reflexivity|split; [intros n r; reflexivity|cbn; lia]]|]).
  apply Forall_nil_2.
Qed.

Lemma printed_byte c : is_byte c → byte_read c.
Proof.
  intros Hc. pose proof bytes_read as H. rewrite Forall_forall in H. apply H, elem_of_seqZ.
  unfold is_byte in Hc. lia.
Qed.

Definition lexer_ok (lx : lexer) : Prop :=
  strtab_ok (lx_strtab lx) ∧ Forall is_byte (lx_buffer lx).

Lemma lexer_start_ok : lexer_ok lexer_start.
Proof. split; [split; [constructor|exact I]|constructor]. Qed.

Lemma lex_register_ok lx str n : lexer_ok lx → Forall is_byte str →
  Z.of_nat n < 2 ^ 16 → (n ≤ length str)%nat →
  ∃ lx', lex_register lx str n = Ok (lx', intern (take n str)) ∧ lexer_ok lx' ∧
    lx_buffer lx' = lx_buffer lx.
Proof.
  intros [Hst Hb] Hs Hn Hl. unfold lex_register.
  destruct (register_ok (lx_strtab lx) str (Z.of_nat n) Hst Hs) as (st' & -> & Hst'); [lia..|].
  rewrite Nat2Z.id. eexists. split; [done|]. by split.
Qed.

Definition printed (l : list Z) : list Z := mjoin (printchar <$> l).

Lemma printchar_bytes c : is_byte c → Forall is_byte (printchar c).
Proof.
  intros Hc. unfold is_byte in Hc.
  assert (Forall (λ c, Forall is_byte (printchar c)) (seqZ 0 256)) as H.
  { let x := eval vm_compute in (seqZ 0 256) in change (seqZ 0 256) with x.
    repeat (apply Forall_cons_2; [vm_compute; repeat constructor; discriminate|]).
    apply Forall_nil_2. }
  rewrite Forall_forall in H. apply H, elem_of_seqZ. lia.
Qed.

Lemma printed_bytes l : Forall is_byte l → Forall is_byte (printed l).
Proof.
  induction 1 as [|c l Hc _ IH]; cbn; [constructor|].
  apply Forall_app_2; [by apply printchar_bytes|exact IH].
Qed.

Lemma convert_printed l n : Forall is_byte l → (length l ≤ n)%nat →
  convert_chars n (printed l) = Ok l.
Proof.
  intros Hl. revert n. induction Hl as [|c l Hc _ IH]; intros n Hn; [by destruct n|].
  destruct (printed_byte c Hc) as (Hconv & _ & Hlen). destruct n as [|n]; [cbn in Hn; lia|].
  change (printed (c :: l)) with (printchar c ++ printed l). unfold convert_chars; fold convert_chars.
  rewrite Hconv. cbn [mbind outcome_bind]. rewrite IH by (cbn in Hn; lia).
  destruct (printchar c); [cbn in Hlen; lia|done].
Qed.

Lemma scan_printed l n r : Forall is_byte l → (length l ≤ n)%nat →
  scan_string n (printed l ++ 34 :: r) = Ok (34 :: r).
Proof.
  intros Hl. revert n. induction Hl as [|c l Hc _ IH]; intros n Hn; [by destruct n|].
  destruct (printed_byte c Hc) as (_ & Hscan & _). destruct n as [|n]; [cbn in Hn; lia|].
  change (printed (c :: l)) with (printchar c ++ printed l). rewrite <-app_assoc, Hscan.
  apply IH. cbn in Hn. lia.
Qed.

Lemma length_printed l : Forall is_byte l → (length l ≤ length (printed l))%nat.
Proof.
  induction 1 as [|c l Hc _ IH]; [done|]. destruct (printed_byte c Hc) as (_ & _ & H).
  change (printed (c :: l)) with (printchar c ++ printed l). rewrite length_app. cbn [length]. lia.
Qed.

Lemma tokenize_string c99 lx l r : lexer_ok lx → Forall is_byte l → Forall is_byte r →
  Z.of_nat (length (printed l)) < 2 ^ 16 →
  ∃ lx', tokenize c99 lx (34 :: printed l ++ 34 :: r) =
      Ok (lx', set_string (tok_of PREP_STRING 0) (intern (printed l)), r) ∧ lexer_ok lx'.
Proof.
  intros Hok Hl Hr Hn. unfold tokenize. cbn [skip_spaces]. change (isspace 34) with false.
  cbv iota beta. rewrite Nat.sub_diag. cbn [rd]. unfold strtostr.
  cbn -[lex_register scan_string printed].
  rewrite !drop_0. rewrite scan_printed; [|done|rewrite length_app; pose proof (length_printed l Hl); lia].
  cbn [mbind outcome_bind]. rewrite length_app, Nat.add_sub.
  destruct (lex_register_ok lx (printed l ++ 34 :: r) (length (printed l)) Hok) as (lx' & -> & Hok' & _);
    [apply Forall_app_2; [by apply printed_bytes|by constructor]|done|rewrite length_app; lia|].
  rewrite take_app_length. exists lx'. split; [|done]. cbn. done.
Qed.

Lemma convert_string lx t l : lexer_ok lx → Forall is_byte l →
  Z.of_nat (length (printed l)) < 2 ^ 16 → tk_d t = D_string (intern (printed l)) →
  ∃ lx', convert_preprocessing_string lx t =
      Ok (lx', set_string (tok_of STRING 0) (intern l)) ∧ lexer_ok lx'.
Proof.
  intros Hok Hl Hn Ht. unfold convert_preprocessing_string, tok_string. rewrite Ht.
  cbn [mbind outcome_bind]. rewrite intern_raw. pose proof (length_printed l Hl) as Hlen.
  rewrite convert_printed by done. cbn [mbind outcome_bind get_string_buffer lx_buffer lx_strtab lx_strings].
  set (b := lx_buffer lx ++ replicate (length (printed l) - length (lx_buffer lx)) 0).
  assert (Hb : (length l ≤ length b)%nat) by (unfold b; rewrite length_app, length_replicate; lia).
  assert (Bb : Forall is_byte b).
  { apply Forall_app_2; [apply Hok|apply Forall_replicate; done]. }
  rewrite (proj2 (Nat.leb_le _ _) Hb). cbn [mbind outcome_bind].
  assert (Bm : Forall is_byte (memcpy_at b l)) by (apply Forall_app_2; [done|by apply Forall_drop]).
  destruct (lex_register_ok (Lexer (lx_strtab lx) (lx_strings lx) (memcpy_at b l)) (memcpy_at b l) (length l))
    as (lx' & -> & Hok' & _); [by split; [apply Hok|]|done|lia|unfold memcpy_at; rewrite length_app; lia|].
  unfold memcpy_at. rewrite take_app_length. by exists lx'.
Qed.
