(* ===== verification/LexerSafe.v ===== *)
(** * Lines the tokenizer can take apart

    [lexable] says of a text that its literals are closed.  On such a line of
    ASCII characters the tokenizer stays within the line, and every token but
    the last takes at least one character of it. *)

From stdpp Require Import base list numbers strings.
From Stdlib Require Import ZArith Lia.
From S2P Require Import Prelude CType Floats Strings Hash Strtab Typetree Token Lexer LexerProps.

Local Open Scope Z_scope.

Definition is_quote (c : Z) : bool := (c =? 34) || (c =? ch "'").
Definition ascii (c : Z) : Prop := 0 < c < 128.

(** The text between the quotes [q]. *)
Inductive closed_body (q : Z) : list Z → Prop :=
  | CB_nil : closed_body q []
  | CB_char c b : c ≠ q → c ≠ 92 → c ≠ 0 → closed_body q b → closed_body q (c :: b)
  | CB_escape c b : c ≠ 0 → closed_body q b → closed_body q (92 :: c :: b).

Inductive lexable : list Z → Prop :=
  | LX_nil : lexable []
  | LX_char c l : is_quote c = false → ascii c → lexable l → lexable (c :: l)
  | LX_literal q b l : is_quote q = true → closed_body q b → lexable l →
      lexable (q :: b ++ q :: l).

Definition plain (w : list Z) : Prop := Forall (λ c, is_quote c = false) w.

Lemma lexable_app a b : lexable a → lexable b → lexable (a ++ b).
Proof.
  induction 1 as [|c l ? ? _ IH|q w l ? ? _ IH]; intros Hb; cbn; [done|apply LX_char; auto|].
  rewrite <-app_assoc. cbn. apply LX_literal; auto.
Qed.

Lemma lexable_char c l : lexable (c :: l) → is_quote c = false → ascii c ∧ lexable l.
Proof. inversion 1; subst; [done|congruence]. Qed.

Lemma lexable_literal q l : lexable (q :: l) → is_quote q = true →
  ∃ b r, l = b ++ q :: r ∧ closed_body q b ∧ lexable r.
Proof. inversion 1; subst; [congruence|]. intros _. by eexists _, _. Qed.

Lemma lexable_drop w r : lexable (w ++ r) → plain w → lexable r.
Proof.
  induction w as [|c w IH]; [done|]. cbn. intros H [Hc Hw]%Forall_cons. apply IH; [|done].
  by eapply lexable_char.
Qed.

Lemma lexable_snoc_inv a c : lexable (a ++ [c]) → is_quote c = false → lexable a.
Proof.
  intros H Hc. remember (a ++ [c]) as l eqn:E. revert a E.
  induction H as [|x l Hx Hax Hl IH|q b l Hq Hb Hl IH]; intros a E; [by destruct a|..].
  - destruct a as [|y a]; [constructor|]. cbn in E. injection E as -> E. apply LX_char; auto.
  - destruct l as [|z l _] using rev_ind.
    + exfalso. rewrite app_comm_cons in E. apply app_inj_tail in E as [_ ->]. congruence.
    + assert (E' : a ++ [c] = (q :: b ++ q :: l) ++ [z]) by (rewrite <-E; cbn; by rewrite <-app_assoc).
      apply app_inj_tail in E' as [-> ->]. apply LX_literal; auto.
Qed.

(** ** Literals *)

Lemma closed_char q c b : closed_body q (c :: b) → c ≠ 92 → c ≠ q ∧ c ≠ 0 ∧ closed_body q b.
Proof. inversion 1; subst; [done|congruence]. Qed.

Section literals.
Context (q : Z) (Hq : is_quote q = true).

Lemma quote_facts : q ≠ 92 ∧ q ≠ 0 ∧ isxdigit q = false ∧ isoctal q = false.
Proof.
  unfold is_quote in Hq. apply orb_true_iff in Hq as [->%Z.eqb_eq| ->%Z.eqb_eq]; done.
Qed.

Lemma skip_xdigits_closed b r : closed_body q b →
  ∃ b', skip_xdigits (b ++ q :: r) = b' ++ q :: r ∧ closed_body q b' ∧ (length b' ≤ length b)%nat.
Proof.
  destruct quote_facts as (_ & _ & Hx & _).
  induction b as [|c b IH]; intros Hb; cbn [app skip_xdigits].
  - rewrite Hx. by exists [].
  - destruct (isxdigit c) eqn:Hc; [|exists (c :: b); done].
    apply closed_char in Hb as (_ & _ & Hb); [|by intros ->].
    destruct (IH Hb) as (b' & H1 & H2 & H3). exists b'. split; [done|]. split; [done|]. cbn. lia.
Qed.

Lemma drop_octal_closed b r : closed_body q b → isoctal (rd (b ++ q :: r)) = true →
  ∃ b', drop 1 (b ++ q :: r) = b' ++ q :: r ∧ closed_body q b' ∧ (length b' ≤ length b)%nat.
Proof.
  destruct quote_facts as (_ & _ & _ & Ho). destruct b as [|c b]; cbn [app rd]; intros Hb Hc; [congruence|].
  apply closed_char in Hb as (_ & _ & Hb); [|by intros ->]. exists b. split; [done|]. split; [done|]. cbn. lia.
Qed.

Lemma parse_escape_closed c b r : c ≠ 0 → closed_body q b →
  ∃ b', parse_escape_sequence (c :: b ++ q :: r) = Ok (b' ++ q :: r) ∧ closed_body q b' ∧
    (length b' ≤ length b)%nat.
Proof.
  intros _ Hb. unfold parse_escape_sequence. cbn [rd advance mbind outcome_bind].
  destruct (c =? ch "x").
  { destruct (skip_xdigits_closed b r Hb) as (b' & -> & ? & ?). by exists b'. }
  destruct (isoctal c); [|by exists b].
  destruct (isoctal (rd (b ++ q :: r))) eqn:Ho; [|by exists b].
  destruct (drop_octal_closed b r Hb Ho) as (b1 & -> & Hb1 & Hl1).
  destruct (isoctal (rd (b1 ++ q :: r))) eqn:Ho1; [|by exists b1].
  destruct (drop_octal_closed b1 r Hb1 Ho1) as (b2 & -> & Hb2 & Hl2).
  exists b2. split; [done|]. split; [done|]. lia.
Qed.
End literals.

Lemma scan_string_closed n b r : closed_body 34 b → (length b ≤ n)%nat →
  scan_string n (b ++ 34 :: r) = Ok (34 :: r).
Proof.
  revert b. induction n as [|n IH]; intros b Hb Hn; [destruct b; [done|cbn in Hn; lia]|].
  destruct b as [|c b]; [done|]. cbn [app scan_string rd]. cbn in Hn.
  inversion Hb as [|x y Hx1 Hx2 Hx3 Hb'|x y Hx Hb']; subst.
  - apply Z.eqb_neq in Hx1, Hx2. rewrite Hx1, Hx2. cbn [advance mbind outcome_bind]. apply IH; [done|lia].
  - change (92 =? 34) with false. change (92 =? 92) with true. cbv iota.
    change (drop 1 (92 :: ?l)) with l. cbn [app].
    destruct (parse_escape_closed 34 eq_refl x y r Hx Hb') as (b' & -> & Hb2 & Hl).
    cbn [mbind outcome_bind]. apply IH; [done|]. cbn in Hn. lia.
Qed.

(** ** Tokens *)

(** A token at [l] that takes at least one character and leaves a text of the
    same kind, or a diagnosed error. *)
Definition token_safe (l : list Z) (o : outcome (lexer * token * list Z)) : Prop :=
  match o with
  | Ok (lx', t, r) => lexer_ok lx' ∧ lexable r ∧ ∃ w, l = w ++ r ∧ w ≠ []
  | Exit _ => True
  | Undef _ => False
  end.

Definition short_text (l : list Z) : Prop := Forall is_byte l ∧ Z.of_nat (length l) < 2 ^ 16.

Lemma short_text_suffix w r : short_text (w ++ r) → short_text r.
Proof.
  intros [Hb Hl]. apply Forall_app in Hb as [_ Hb]. rewrite length_app in Hl. split; [done|lia].
Qed.

(** A token that registers the text it is made of. *)
Lemma register_safe lx l str n (f : kstring → token) r w : lexer_ok lx → short_text str →
  (n ≤ length str)%nat → lexable r → l = w ++ r → w ≠ [] →
  token_safe l ('(lx, s) ← lex_register lx str n; Ok (lx, f s, r)).
Proof.
  intros Hok [Hb Hl] Hn Hr Hw Hne.
  destruct (lex_register_ok lx str n Hok Hb) as (lx' & -> & Hok' & _); [lia|done|].
  cbn. split; [done|]. split; [done|]. by exists w.
Qed.

Lemma ident_plain l : plain (ident_of l).
Proof.
  induction l as [|c l IH]; cbn; [constructor|]. destruct (isident c) eqn:Hc; [|constructor].
  constructor; [|exact IH]. unfold is_quote.
  destruct (Z.eqb_spec c 34) as [->|_]; [done|]. by destruct (Z.eqb_spec c (ch "'")) as [->|_].
Qed.

Lemma ident_lexable l : lexable l → lexable (skip_ident l).
Proof. intros H. apply (lexable_drop (ident_of l)); [by rewrite ident_skip|apply ident_plain]. Qed.

Lemma M_app l w r : M l w = Some r → l = cstr w ++ r.
Proof.
  revert l. induction w as [|c w IH]; intros l; cbn; [by intros [= ->]|].
  destruct l as [|x l]; [done|]. destruct (Z.eqb_spec x (byte_of_ascii c)) as [->|]; [|done].
  intros H%IH. by rewrite H.
Qed.

Lemma strtoident_safe c99 lx l : lexer_ok lx → short_text l → lexable l →
  ident_start (rd l) = true → token_safe l (strtoident c99 lx l).
Proof.
  intros Hok Hs Hl Hi. destruct l as [|c l]; [done|]. cbn [rd] in Hi.
  pose proof (ident_start_ident _ Hi) as Hc. pose proof (switch_correct c l c99 Hc) as Hsw.
  pose proof (ident_lexable _ Hl) as Hlr. pose proof (ident_skip (c :: l)) as Happ.
  assert (Hne : ident_of (c :: l) ≠ []) by (cbn; by rewrite Hc).
  unfold switch_ok in Hsw. unfold strtoident. destruct (strtoident_switch c99 (c :: l)) as [t| |k].
  - destruct Hsw as [Hk Ht]. unfold MATCH, tok_string. rewrite (keyword_spelling _ _ _ Hk Ht).
    cbn [mbind outcome_bind]. change (s_len (SHORT_STRING_INIT ?w)) with (Z.of_nat (length w)).
    rewrite Nat2Z.id, drop_ident. cbn. split; [done|]. split; [done|]. eexists. split; [by symmetry|done].
  - destruct Hsw as [Hc' [r Hr]]. apply M_app in Hr. change (drop 1 (c :: l)) with l in Hr. cbn [rd] in Hc'. subst c l.
    cbn [str_init]. cbn. split; [exact Hok|].
    assert (Hp : lexable r).
    { apply (lexable_drop (cstr "_Static_assert")); [exact Hl|]. vm_compute. repeat constructor. }
    split; [exact Hp|]. exists (cstr "_Static_assert"). split; [done|discriminate].
  - destruct Hsw as [_ Hk]. rewrite skip_ident_drop by done.
    apply (register_safe _ _ _ _ (λ s, set_expandable (set_string (tok_of IDENTIFIER 0) s) true) _ (ident_of (c :: l)));
      [done|done|lia|done|by symmetry|done].
Qed.

Lemma scan_number_spec n c99 l : (length l ≤ n)%nat →
  ∃ w, l = w ++ scan_number c99 l ∧ plain w.
Proof.
  revert l. induction n as [|n IH]; intros [|c l] Hn; try (by exists []; split; [done|constructor]); [cbn in Hn; lia|].
  cbn [scan_number]. cbn in Hn.
  assert (plain_c : is_quote c = false ∨ c = 34 ∨ c = ch "'").
  { unfold is_quote. destruct (Z.eqb_spec c 34), (Z.eqb_spec c (ch "'")); auto. }
  destruct plain_c as [Hc|[-> | ->]]; [|by exists []; split; [done|constructor]..].
  assert (Hone : ∃ w, c :: l = w ++ scan_number c99 l ∧ plain w).
  { destruct (IH l ltac:(lia)) as (w & Hw & Hp). exists (c :: w). split; [cbn; by rewrite <-Hw|by constructor]. }
  destruct (isdigit c || (c =? ch ".") || (c =? ch "_")); [done|].
  destruct (isalpha c); [|by exists []; split; [done|constructor]].
  destruct l as [|s l]; [exists [c]; split; [done|by repeat constructor]|].
  destruct (_ && _) eqn:He; [|done]. cbn in Hn. destruct (IH l ltac:(lia)) as (w & Hw & Hp).
  exists (c :: s :: w). split; [cbn; by rewrite <-Hw|]. repeat constructor; [done| |done].
  apply andb_true_iff in He as [_ He]. apply orb_true_iff in He as [->%Z.eqb_eq| ->%Z.eqb_eq]; done.
Qed.

Lemma stringtonum_safe c99 lx l : lexer_ok lx → short_text l → lexable l →
  isdigit (rd l) || ((rd l =? ch ".") && isdigit (rd1 l)) = true →
  token_safe l (stringtonum c99 lx l).
Proof.
  intros Hok Hs Hl Hd. unfold stringtonum.
  set (l1 := if rd l =? ch "." then drop 1 l else l).
  assert (Hl1 : isdigit (rd l1) = true ∧ ∃ p, l = p ++ l1 ∧ plain p).
  { unfold l1. destruct (Z.eqb_spec (rd l) (ch ".")) as [E|E].
    - rewrite E in Hd. cbn in Hd. split; [done|]. destruct l as [|c l]; [done|]. cbn in E. subst.
      exists [ch "."]. split; [done|by repeat constructor].
    - cbn [andb] in Hd. rewrite orb_false_r in Hd. split; [done|]. exists []. split; [done|constructor]. }
  destruct Hl1 as (H1 & p & Hp & Hpp). rewrite H1. cbn [c_assert mbind outcome_bind].
  destruct (scan_number_spec (length l1) c99 l1) as (w & Hw & Hpw); [done|].
  assert (Hpl : l = (p ++ w) ++ scan_number c99 l1) by (rewrite <-app_assoc, <-Hw; done).
  assert (Hne : w ≠ []).
  { intros ->. cbn in Hw. destruct l1 as [|c l1]; [done|]. cbn [rd] in H1.
    assert (Hlen : (length (scan_number c99 (c :: l1)) ≤ length l1)%nat).
    { cbn [scan_number]. rewrite H1. cbn [orb].
      destruct (scan_number_spec (length l1) c99 l1) as (w' & Hw' & _); [done|].
      rewrite Hw' at 2. rewrite length_app. lia. }
    rewrite <-Hw in Hlen. cbn in Hlen. lia. }
  apply (register_safe _ _ _ _ (λ s, set_string (tok_of PREP_NUMBER 0) s) _ (p ++ w)); [done|done|lia| |done|].
  - apply (lexable_drop (p ++ w)); [by rewrite <-Hpl|]. by apply Forall_app_2.
  - destruct p; [done|discriminate].
Qed.

Lemma strtostr_safe lx l : lexer_ok lx → short_text l → lexable l → rd l = 34 →
  token_safe l (strtostr lx l).
Proof.
  intros Hok Hs Hl Hq. destruct l as [|c l]; [done|]. cbn [rd] in Hq. subst c.
  destruct (lexable_literal _ _ Hl eq_refl) as (b & r & -> & Hb & Hr).
  unfold strtostr. cbn [rd]. change (34 =? 34) with true. cbn [c_assert mbind outcome_bind].
  change (drop 1 (34 :: ?l)) with l. rewrite scan_string_closed by (done || rewrite length_app; lia).
  cbn [mbind outcome_bind]. change (drop 1 (34 :: r)) with r.
  apply (register_safe _ (34 :: b ++ 34 :: r) _ _ (λ s, set_string (tok_of PREP_STRING 0) s) _ (34 :: b ++ [34]));
    [done|by eapply (short_text_suffix [34])|lia|done|cbn; by rewrite <-app_assoc|done].
Qed.

Lemma strtochar_safe lx l : lexer_ok lx → short_text l → lexable l → rd l = ch "'" →
  token_safe l (strtochar lx l).
Proof.
  intros Hok Hs Hl Hq. destruct l as [|c l]; [done|]. cbn [rd] in Hq. subst c.
  destruct (lexable_literal _ _ Hl eq_refl) as (b & r & -> & Hb & Hr).
  unfold strtochar. cbn [rd]. rewrite Z.eqb_refl. cbn [c_assert mbind outcome_bind].
  change (drop 1 (ch "'" :: ?l)) with l.
  assert (Hcont : ∀ b', closed_body (ch "'") b' → (length b' ≤ length b)%nat →
    token_safe (ch "'" :: b ++ ch "'" :: r)
      (if negb (rd (b' ++ ch "'" :: r) =? ch "'") then Exit "Multi-character constants are not supported."
       else '(lx, s) ← lex_register lx (b ++ ch "'" :: r)
              (length (b ++ ch "'" :: r) - length (b' ++ ch "'" :: r));
            Ok (lx, set_string (tok_of PREP_CHAR 0) s, drop 1 (b' ++ ch "'" :: r)))).
  { intros b' Hb' Hlen. destruct (negb _) eqn:Hn; [done|]. apply negb_false_iff, Z.eqb_eq in Hn.
    destruct b' as [|x b']; [|exfalso; cbn in Hn; apply closed_char in Hb' as (? & _ & _); [done|by rewrite Hn]].
    cbn [app]. change (drop 1 (ch "'" :: r)) with r.
    apply (register_safe _ (ch "'" :: b ++ ch "'" :: r) _ _ (λ s, set_string (tok_of PREP_CHAR 0) s) _ (ch "'" :: b ++ [ch "'"]));
      [done|by eapply (short_text_suffix [ch "'"])|lia|done|cbn; by rewrite <-app_assoc|done]. }
  destruct b as [|c b]; [done|]. cbn [app rd]. destruct (Z.eqb_spec c 92) as [->|Hc].
  - change (drop 1 (92 :: ?l)) with l. inversion Hb as [| |x y Hx Hb']; subst; [done|].
    destruct (parse_escape_closed (ch "'") eq_refl x y r Hx Hb') as (b' & Hp & Hb2 & Hlen).
    cbn [app]. rewrite Hp. cbn [mbind outcome_bind]. apply Hcont; [done|]. cbn. lia.
  - destruct (closed_char _ _ _ Hb Hc) as (Hne & _ & Hb'). apply Z.eqb_neq in Hne. rewrite Hne.
    cbn [negb advance mbind outcome_bind]. apply Hcont; [done|]. cbn. lia.
Qed.

(** The operator the switch finds is spelled at its place. *)
Lemma strtoop_switch_spelling l t : strtoop_switch l = Some t →
  ∃ w r, l = w ++ r ∧ tk_d (basic t) = D_string (SHORT_STRING_INIT w) ∧ w ≠ [] ∧ plain w.
Proof.
  unfold strtoop_switch, rd1. destruct l as [|a [|b [|c l]]]; cbn [rd drop];
    repeat match goal with
    | |- (if ?x =? ?y then _ else _) = _ → _ => destruct (Z.eqb_spec x y) as [->|_]
    | |- (if (?x =? ?y) && _ then _ else _) = _ → _ => destruct (Z.eqb_spec x y) as [->|_]; cbn [andb]
    | |- (if false then _ else _) = _ → _ => cbv iota
    end; try discriminate; intros [= <-].
  all: first [eexists [_], _; split; [reflexivity|]; split; [reflexivity|]; split; [discriminate|by repeat constructor]
    |eexists [_; _], _; split; [reflexivity|]; split; [reflexivity|]; split; [discriminate|by repeat constructor]
    |eexists [_; _; _], _; split; [reflexivity|]; split; [reflexivity|]; split; [discriminate|by repeat constructor]].
Qed.

Lemma strtoop_safe lx l : lexer_ok lx → lexable l → l ≠ [] → is_quote (rd l) = false →
  token_safe l ('(tok, r) ← strtoop l; Ok (lx, tok, r)).
Proof.
  intros Hok Hl Hne Hq. unfold strtoop. destruct (strtoop_switch l) as [t|] eqn:Hs.
  - destruct (strtoop_switch_spelling _ _ Hs) as (w & r & -> & Ht & Hw & Hp). unfold MATCH, tok_string.
    rewrite Ht. cbn [mbind outcome_bind]. change (s_len (SHORT_STRING_INIT ?w)) with (Z.of_nat (length w)).
    rewrite Nat2Z.id, drop_app_length. cbn. split; [done|].
    split; [by eapply lexable_drop|]. by exists w.
  - destruct l as [|c l]; [done|]. cbn [rd] in *. destruct (lexable_char _ _ Hl Hq) as [Ha Hl'].
    unfold ascii in Ha. rewrite wrap_s_small by (cbn; lia). unfold basic_token_at.
    destruct (Z.ltb_spec c 0); [lia|].
    destruct (lookup_lt_is_Some_2 basic_token (Z.to_nat c)) as [t Ht].
    { change (length basic_token) with 128%nat. lia. }
    rewrite Ht. cbn [defined mbind outcome_bind]. destruct (is_tok END t); [done|].
    cbn. split; [done|]. split; [done|]. by exists [c].
Qed.

Lemma skip_spaces_spec l : ∃ w, l = w ++ skip_spaces l ∧ plain w.
Proof.
  induction l as [|c l (w & Hw & Hp)]; [by exists []; split; [done|constructor]|]. cbn [skip_spaces].
  destruct (isspace c) eqn:Hc; [|by exists []; split; [done|constructor]].
  exists (c :: w). split; [cbn; by rewrite <-Hw|]. constructor; [|done].
  unfold is_quote. destruct (Z.eqb_spec c 34) as [->|_]; [done|]. by destruct (Z.eqb_spec c (ch "'")) as [->|_].
Qed.

Lemma lexable_zero l : lexable l → rd l = 0 → l = [].
Proof.
  inversion 1 as [|c k Hq Ha Hk|q b k Hq Hb Hk]; subst; [done|..]; cbn [rd]; intros ->; [unfold ascii in Ha; lia|done].
Qed.

(** The tokenizer on a line: the end of it, or a token. *)
Lemma tokenize_safe c99 lx l : lexer_ok lx → short_text l → lexable l →
  match tokenize c99 lx l with
  | Ok (lx', t, r) => lexer_ok lx' ∧ lexable r ∧ short_text r ∧
      ((tk_token t = END ∧ r = []) ∨ (length r < length l)%nat)
  | Exit _ => True
  | Undef _ => False
  end.
Proof.
  intros Hok Hs Hl. unfold tokenize. destruct (skip_spaces_spec l) as (w & Hw & Hp).
  set (k := skip_spaces l) in *. set (ws := Z.of_nat (length l - length k)).
  assert (Hk : lexable k) by (apply (lexable_drop w); [by rewrite <-Hw|done]).
  assert (Hsk : short_text k) by (apply (short_text_suffix w); by rewrite <-Hw).
  assert (Hlen : (length k ≤ length l)%nat) by (rewrite Hw, length_app; lia).
  destruct (Z.eqb_spec (rd k) 0) as [H0|H0].
  { apply lexable_zero in H0; [|done]. rewrite H0. cbn. split; [done|]. split; [constructor|].
    split; [by split; [constructor|]|]. by left. }
  assert (Hcont : ∀ o, token_safe k o →
    match '(lx, tok, r) ← o; Ok (lx, set_leading_whitespace tok ws, r) with
    | Ok (lx', t, r) => lexer_ok lx' ∧ lexable r ∧ short_text r ∧
        ((tk_token t = END ∧ r = []) ∨ (length r < length l)%nat)
    | Exit _ => True
    | Undef _ => False
    end).
  { intros [[[lx' t] r]|m|m]; cbn; [|done|done]. intros (Hok' & Hr & v & Hv & Hne).
    split; [done|]. split; [done|]. split; [apply (short_text_suffix v); by rewrite <-Hv|]. right.
    rewrite Hv, length_app in Hlen. destruct v; [done|]. cbn in Hlen. lia. }
  apply Hcont. destruct (isalpha (rd k) || (rd k =? ch "_")) eqn:Hi.
  { by apply strtoident_safe. }
  destruct (isdigit (rd k) || ((rd k =? ch ".") && isdigit (rd1 k))) eqn:Hd.
  { by apply stringtonum_safe. }
  destruct (Z.eqb_spec (rd k) 34) as [Hq|Hq]; [by apply strtostr_safe|].
  destruct (Z.eqb_spec (rd k) (ch "'")) as [Ha|Ha]; [by apply strtochar_safe|].
  apply strtoop_safe; [done|done|by intros E; rewrite E in H0|].
  unfold is_quote. apply Z.eqb_neq in Hq, Ha. by rewrite Hq, Ha.
Qed.

Lemma tokenize_line_safe n c99 lx l : lexer_ok lx → short_text l → lexable l → (length l ≤ n)%nat →
  match tokenize_line n c99 lx l with
  | Ok (lx', ts) => lexer_ok lx'
  | Exit _ => True
  | Undef _ => False
  end.
Proof.
  revert lx l. induction n as [|n IH]; intros lx l Hok Hs Hl Hn; cbn [tokenize_line];
    pose proof (tokenize_safe c99 lx l Hok Hs Hl) as Ht;
    (destruct (tokenize c99 lx l) as [[[lx' t] r]|m|m]; cbn [mbind outcome_bind]; [|done|done]);
    destruct Ht as (Hok' & Hr & Hsr & Hlen); destruct (is_tok END t) eqn:HE; try done.
  - exfalso. destruct Hlen as [[HE' _]|?]; [|lia]. apply is_tok_spec in HE'. congruence.
  - destruct Hlen as [[HE' _]|Hlen]; [apply is_tok_spec in HE'; congruence|].
    specialize (IH lx' r Hok' Hsr Hr ltac:(lia)).
    destruct (tokenize_line n c99 lx' r) as [[lx2 ts]|m|m]; cbn; done.
Qed.
