(* ===== verification/LexerSpec.v ===== *)
(** * What the tokenizer promises

    Longest identifiers and operators, the constants of C, string literals
    that come back as they were printed, and the inputs that are accepted or
    read wrongly. *)

From stdpp Require Import base list numbers strings.
From Stdlib Require Import ZArith Lia.
From S2P Require Import Prelude CType Floats Strings Hash Strtab Typetree Token Lexer LexerProps.

Local Open Scope Z_scope.

(** C22: from a letter or an underscore on, [strtoident] takes the longest
    sequence of identifier characters and gives the keyword that is spelled
    so, or an identifier with these characters; its nested switch of
    character comparisons is a table lookup.  Excepted are identifiers that
    begin with [_Static_assert]. *)
Theorem strtoident_longest_word c99 lx l : ident_start (rd l) = true →
  (∀ r, M l "_Static_assert" = Some r → E r = true) →
  strtoident c99 lx l = ident_spec c99 lx l ∧
  l = ident_of l ++ skip_ident l ∧ isident (rd (skip_ident l)) = false.
Proof.
  intros Hs HS. split; [by apply strtoident_spec|].
  split; [symmetry; apply ident_skip|apply skip_ident_rd].
Qed.
Lemma strtoident_longest_word_witness :
  keyword_of true (ident_of (cstr "continue;")) = Some CONTINUE ∧
  keyword_of true (ident_of (cstr "const_cast<")) = None ∧
  let l := cstr "const_cast<" in
  strtoident true lexer_start l = ident_spec true lexer_start l ∧
  l = ident_of l ++ skip_ident l ∧ isident (rd (skip_ident l)) = false.
Proof.
  split; [reflexivity|]. split; [reflexivity|].
  apply (strtoident_longest_word true lexer_start (cstr "const_cast<")); [reflexivity|].
  intros r H. vm_compute in H. discriminate H.
Defined.

(** C30: on every printable character that begins no identifier, number or
    literal, [strtoop] gives the token of the longest operator or separator
    at that place and the position behind it. *)
Theorem strtoop_maximal_munch l : 32 < rd l < 127 → isident (rd l) = false →
  rd l ≠ 34 → rd l ≠ ch "'" →
  ∃ w t r, (w, t) ∈ punctuators ∧ l = w ++ r ∧ strtoop l = Ok (basic t, r) ∧
    ∀ w' t', (w', t') ∈ punctuators → w' `prefix_of` l → (length w' ≤ length w)%nat.
Proof.
  intros Hr Hi Hq Ha. destruct l as [|c l]; [cbn in Hr; lia|]. cbn [rd] in *.
  assert (Hc : c ∈ cstr "!#$%&()*+,-./:;<=>?@[]^`{|}~" ++ [92]).
  { assert (Forall (λ c, isident c = false → c ≠ 34 → c ≠ ch "'" →
      c ∈ cstr "!#$%&()*+,-./:;<=>?@[]^`{|}~" ++ [92]) (seqZ 33 94)) as HF.
    { let x := eval vm_compute in (seqZ 33 94) in change (seqZ 33 94) with x.
      repeat (apply Forall_cons_2;
        [intros H1 H2 H3; first [discriminate H1|by destruct H2|by destruct H3|in_list]|]).
      apply Forall_nil_2. }
    rewrite Forall_forall in HF. apply HF; [|done..]. apply elem_of_seqZ. lia. }
  destruct (strtoop_munch c l Hc) as (t & Hm & Hs).
  destruct (munch_longest _ _ _ punctuators_sorted Hm) as (w & Hw & [r Hp] & Hmax).
  exists w, t, r. split; [done|]. split; [done|]. split; [|done].
  rewrite Hs. unfold MATCH, tok_string. rewrite (punctuator_spelling _ _ Hw).
  cbn [mbind outcome_bind]. change (s_len (SHORT_STRING_INIT w)) with (Z.of_nat (length w)).
  by rewrite Nat2Z.id, Hp, drop_app_length.
Qed.
Lemma strtoop_maximal_munch_witness :
  strtoop (cstr ">>=->") = Ok (basic RSHIFT_ASSIGN, cstr "->") ∧
  ∃ w t r, (w, t) ∈ punctuators ∧ cstr ">>=->" = w ++ r ∧
    strtoop (cstr ">>=->") = Ok (basic t, r) ∧
    ∀ w' t', (w', t') ∈ punctuators → w' `prefix_of` cstr ">>=->" → (length w' ≤ length w)%nat.
Proof.
  split; [vm_compute; reflexivity|].
  apply (strtoop_maximal_munch (cstr ">>=->")); [split; reflexivity|reflexivity|discriminate|discriminate].
Defined.

(** C24: every integer constant of C (decimal, octal or hexadecimal digits
    with any of the suffixes) becomes a number token with its value and the
    type the standard gives it, the first of the list for its suffix and base
    that can represent it, whatever the width of [unsigned long] on the
    host. *)
Theorem integer_constants `{FloatArith} bits t s w dec v sfx k ty :
  tk_token t = PREP_NUMBER → tk_d t = D_string s → str_raw s = w ++ sfx →
  integer_constant w dec v → (sfx, k) ∈ integer_suffixes →
  first_type v (candidates k dec) = Some ty →
  convert_preprocessing_number bits t =
    Ok (set_number (set_leading_whitespace (tok_of NUMBER 0) (leading_whitespace t)) ty v).
Proof. apply convert_constant. Qed.
Lemma integer_constants_witness :
  let t := set_string (tok_of PREP_NUMBER 0) (intern (cstr "0xFFFFffffu")) in
  first_type (2 ^ 32 - 1) (candidates SUFFIX_U false) = Some basic_type__unsigned_int ∧
  convert_preprocessing_number 32 t =
    Ok (set_number (set_leading_whitespace (tok_of NUMBER 0) 0) basic_type__unsigned_int (2 ^ 32 - 1)).
Proof.
  split; [reflexivity|].
  apply (integer_constants 32 (set_string (tok_of PREP_NUMBER 0) (intern (cstr "0xFFFFffffu"))) (intern (cstr "0xFFFFffffu")) (cstr "0xFFFFffff") false
    (2 ^ 32 - 1) (cstr "u") SUFFIX_U); [reflexivity..| |in_list|reflexivity].
  change (2 ^ 32 - 1) with (value_of 16 (cstr "FFFFffff")).
  apply (IC_hexadecimal (ch "x") (ch "F") (cstr "FFFffff")); [left; reflexivity|].
  vm_compute. repeat constructor.
Defined.

(** C26: the literal that [fprintstr] prints for a string is read as one
    token, and converted to a string with the same characters, whatever they
    are and whatever follows. *)
Theorem string_literal_roundtrip c99 lx s r : lexer_ok lx → wf_string s → Forall is_byte r →
  Z.of_nat (length (fprintstr s)) ≤ 2 ^ 16 →
  ∃ lx1 t lx2 u, tokenize c99 lx (fprintstr s ++ r) = Ok (lx1, t, r) ∧ tk_token t = PREP_STRING ∧
    convert_preprocessing_string lx1 t = Ok (lx2, u) ∧ tk_token u = STRING ∧
    tok_string u = Ok (intern (str_raw s)) ∧ str_raw (intern (str_raw s)) = str_raw s ∧ lexer_ok lx2.
Proof.
  intros Hok Hw Hr Hl. unfold fprintstr in *. fold (printed (str_raw s)) in *.
  assert (Hb : Forall is_byte (str_raw s)) by apply Forall_take, Hw.
  assert (Hn : Z.of_nat (length (printed (str_raw s))) < 2 ^ 16)
    by (cbn [length] in Hl; rewrite length_app in Hl; cbn [length] in Hl; lia).
  destruct (tokenize_string c99 lx (str_raw s) r Hok Hb Hr Hn) as (lx1 & Ht & Hok1).
  destruct (convert_string lx1 (set_string (tok_of PREP_STRING 0) (intern (printed (str_raw s))))
    (str_raw s) Hok1 Hb Hn eq_refl) as (lx2 & Hc & Hok2).
  exists lx1, (set_string (tok_of PREP_STRING 0) (intern (printed (str_raw s)))), lx2,
     (set_string (tok_of STRING 0) (intern (str_raw s))).
  split; [cbn [app]; rewrite <-app_assoc; exact Ht|].
  split; [done|]. split; [exact Hc|]. split; [done|]. split; [done|]. split; [apply intern_raw|done].
Qed.
Lemma string_literal_roundtrip_witness :
  let s := intern (cstr "tab" ++ [9; 0; 200; 34; 92] ++ cstr "7") in
  fprintstr s = [34] ++ cstr "tab\t\000\310" ++ [92; 34; 92; 92] ++ cstr "7" ++ [34] ∧
  ∃ lx1 t lx2 u, tokenize true lexer_start (fprintstr s ++ cstr ");") = Ok (lx1, t, cstr ");") ∧
    tk_token t = PREP_STRING ∧
    convert_preprocessing_string lx1 t = Ok (lx2, u) ∧ tk_token u = STRING ∧
    tok_string u = Ok (intern (str_raw s)) ∧ str_raw (intern (str_raw s)) = str_raw s ∧ lexer_ok lx2.
Proof.
  split; [vm_compute; reflexivity|].
  apply (string_literal_roundtrip true lexer_start (intern (cstr "tab" ++ [9; 0; 200; 34; 92] ++ cstr "7"))
    (cstr ");")).
  - apply lexer_start_ok.
  - apply intern_wf; [vm_compute; reflexivity|vm_compute; repeat constructor; discriminate].
  - vm_compute. repeat constructor; discriminate.
  - vm_compute. discriminate.
Defined.

(** ** Inputs that are read wrongly *)

(** An identifier that begins with [_Static_assert] is cut in two. *)
Theorem static_assert_prefix : ∃ lx t,
  strtoident true lexer_start (cstr "_Static_assert_all(") = Ok (lx, t, cstr "_all(") ∧
  tk_token t = STATIC_ASSERT.
Proof. eexists _, _. split; [vm_compute; reflexivity|reflexivity]. Qed.

(** The table that maps a character to its token has keywords at the codes
    of control characters, which are accepted: the byte 0x12 is [int]. *)
Theorem control_byte_is_keyword c99 lx r : tokenize c99 lx (18 :: r) = Ok (lx, basic INT, r).
Proof. unfold tokenize. cbn [skip_spaces]. change (isspace 18) with false. cbv iota. by rewrite Nat.sub_diag. Qed.

(** A byte from 128 on outside of literals indexes the table below its
    start. *)
Theorem high_byte_undefined c99 lx c r : 128 ≤ c < 256 →
  ∃ why, tokenize c99 lx (c :: r) = Undef why.
Proof.
  intros Hc. unfold tokenize. cbn [skip_spaces].
  assert (Hs : isspace c = false ∧ isalpha c = false ∧ isdigit c = false).
  { unfold isspace, isalpha, isdigit.
    destruct (Z.leb_spec c 13), (Z.leb_spec c 90), (Z.leb_spec c 122), (Z.leb_spec c 57),
      (Z.eqb_spec c 32); try lia; done. }
  destruct Hs as (Hs & Ha & Hd). rewrite Hs. cbn [rd]. rewrite Ha, Hd.
  repeat match goal with
  | |- context [c =? ?k] => rewrite (proj2 (Z.eqb_neq c k)) by lia
  end.
  cbn [orb andb]. unfold strtoop, strtoop_switch. cbn [rd].
  repeat match goal with
  | |- context [c =? ?k] => rewrite (proj2 (Z.eqb_neq c k)) by lia
  end.
  unfold basic_token_at.
  assert (Hw : wrap_s 8 c = c - 256).
  { unfold wrap_s. change (2 ^ (8 - 1)) with 128. change (2 ^ 8) with 256.
    rewrite <-(Z.mod_unique (c + 128) 256 1 (c - 128)) by lia. lia. }
  rewrite Hw, (proj2 (Z.ltb_lt _ _)) by lia. cbn [mbind outcome_bind]. by eexists.
Qed.
Lemma high_byte_undefined_witness : ∃ why, tokenize true lexer_start [195; 169] = Undef why.
Proof. apply (high_byte_undefined true lexer_start 195 [169]). lia. Defined.

(** Constants that C rejects are accepted with another type: an octal
    constant with the digit 9 and a constant beyond 64 bits are doubles. *)
Theorem invalid_constants_accepted :
  let convert s := t ← convert_preprocessing_number 64
    (set_string (tok_of PREP_NUMBER 0) (intern (cstr s))); Ok (tk_type t, tk_d t) in
  convert "09" = Ok (basic_type__double, D_val (f_of_z F64 9)) ∧
  convert "18446744073709551616" = Ok (basic_type__double, D_val (f_of_z F64 (2 ^ 64))) ∧
  convert "0xffffffffffffffff" = Ok (basic_type__unsigned_long, D_val (2 ^ 64 - 1)).
Proof. repeat split; vm_compute; reflexivity. Qed.

(** A hexadecimal escape sequence of one digit, valid in C, is rejected, and
    of more than two digits only two are read. *)
Theorem hexadecimal_escapes :
  convert_char (cstr "\x1") = Exit "Empty hexadecimal escape sequence." ∧
  convert_char (cstr "\x041") = Ok (4, cstr "1").
Proof. split; vm_compute; reflexivity. Qed.
