(* ===== verification/Input.v ===== *)
(** * Source files to lines (src/preprocessor/input.c)

    Files are read in pieces into a buffer; a line of the program is formed
    from the buffer with continuations joined, comments replaced by a blank
    and trigraphs by their character.  A position in the buffer is the list of
    the bytes from it to the end of the buffer.  The text written to [rline]
    is kept in reverse, so that its head is [ptr[-1]]; it is empty where
    [ptr[-1]] is the terminator [rline] begins with. *)

From stdpp Require Import base list numbers strings.
From Stdlib Require Import ZArith Lia.
From S2P Require Import Prelude CType Strings Hash Strtab Token Lexer.

Local Open Scope Z_scope.

Definition FILE_BUFFER_SIZE : nat := 4096.

(** ** Comments, trigraphs and literals *)

(** The continuations behind a star. *)
Fixpoint skip_splices (l : list Z) (lines : Z) : list Z * Z :=
  match l with
  | a :: b :: l' =>
    if (a =? 92) && (b =? 10) then skip_splices l' (lines + 1) else (l, lines)
  | _ => (l, lines)
  end.

(** [read_comment]: the position behind the comment, [None] for 0; the fuel
    is the number of bytes left. *)
Fixpoint read_comment (n : nat) (l : list Z) (lines : Z) : outcome (option (list Z * Z)) :=
  match n, l with
  | S n, c :: l =>
    if c =? ch "*" then
      let '(l, lines) := skip_splices l lines in
      if rd l =? ch "/" then Ok (Some (drop 1 l, lines)) else read_comment n l lines
    else if c =? 10 then read_comment n l (lines + 1)
    else if c =? 0 then Ok None
    else read_comment n l lines
  | _, _ => Undef "past the end of the buffer"
  end.

Fixpoint read_line_comment (l : list Z) (lines : Z) : outcome (option (list Z * Z)) :=
  match l with
  | [] => Undef "past the end of the buffer"
  | c :: l =>
    if c =? 92 then
      match l with
      | x :: l' => if x =? 10 then read_line_comment l' (lines + 1) else read_line_comment l lines
      | [] => Undef "past the end of the buffer"
      end
    else if c =? 10 then Ok (Some (l, lines))
    else if c =? 0 then Ok None
    else read_line_comment l lines
  end.

Definition read_trigraph (c : Z) : Z :=
  if c =? ch "=" then ch "#"
  else if c =? ch "(" then ch "["
  else if c =? ch "/" then 92
  else if c =? ch ")" then ch "]"
  else if c =? ch "'" then ch "^"
  else if c =? ch "<" then ch "{"
  else if c =? ch "!" then ch "|"
  else if c =? ch ">" then ch "}"
  else if c =? ch "-" then ch "~"
  else 0.

(** The character of the trigraph at [l], or 0. *)
Definition trigraph_at (l : list Z) : Z :=
  if (rd l =? ch "?") && (rd1 l =? ch "?") then read_trigraph (rd (drop 2 l)) else 0.

(** The number of backslashes before [ptr]. *)
Fixpoint backslashes (out : list Z) : nat :=
  match out with c :: out => if c =? 92 then S (backslashes out) else O | [] => O end.

(** The loop of [read_literal]: the position, the text and the lines behind
    the closing quote, [None] for 0. *)
Fixpoint literal_loop (n : nat) (q : Z) (l out : list Z) (lines : Z) :
    outcome (option (list Z * (list Z * Z))) :=
  match n with
  | O => Undef "not enough fuel"
  | S n =>
    match l with
    | [] => Undef "past the end of the buffer"
    | c :: l' =>
      if c =? 0 then Ok None
      else if c =? 10 then
        if rd out =? 92 then literal_loop n q l' (drop 1 out) (lines + 1)
        else Exit "Unexpected newline in literal."
      else if negb (trigraph_at l =? 0) then
        literal_loop n q (drop 3 l) (trigraph_at l :: out) lines
      else if (c =? q) && Nat.even (backslashes out) then Ok (Some (l', (c :: out, lines)))
      else literal_loop n q l' (c :: out) lines
    end
  end.

Definition read_literal (l out : list Z) (lines : Z) : outcome (option (list Z * (list Z * Z))) :=
  let q := rd l in
  _ ← c_assert ((q =? 34) || (q =? ch "'"));
  literal_loop (length l) q (drop 1 l) (q :: out) lines.

(** ** Lines *)

(** One pass of the loop of [read_line]: it goes on with the next character,
    returns a line (its position, text and lines), or returns 0. *)
Inductive line_step : Set :=
  | L_next (l out : list Z) (lines : Z)
  | L_line (l out : list Z) (lines : Z)
  | L_zero.

Definition read_line_step (l out : list Z) (lines : Z) : outcome line_step :=
  let c := rd l in
  let copy := L_next (drop 1 l) (c :: out) lines in
  if c =? 10 then Ok (L_line (drop 1 l) out (lines + 1))
  else if c =? 92 then
    if (rd1 l =? 13) && (rd (drop 2 l) =? 10) then Ok (L_next (drop 3 l) out (lines + 1))
    else if (rd1 l =? 13) || (rd1 l =? 10) then Ok (L_next (drop 2 l) out (lines + 1))
    else Ok copy
  else if c =? ch "?" then
    if negb (trigraph_at l =? 0) then Ok (L_next (drop 3 l) (trigraph_at l :: out) lines)
    else Ok copy
  else if (c =? ch "'") || (c =? 34) then
    r ← read_literal l out lines;
    Ok (match r with Some (l, (out, lines)) => L_next l out lines | None => L_zero end)
  else if (c =? ch "/") && (rd out =? ch "/") then
    r ← read_line_comment (drop 1 l) lines;
    Ok (match r with Some (l, lines) => L_line l (drop 1 out) (lines + 1) | None => L_zero end)
  else if (c =? ch "*") && (rd out =? ch "/") then
    r ← read_comment (length l) (drop 1 l) lines;
    Ok (match r with Some (l, lines) => L_next l (ch " " :: drop 1 out) lines | None => L_zero end)
  else Ok copy.

(** The loop; [lim] bytes are left at [line + len].  The position behind the
    line, its text and its lines, [None] for 0. *)
Fixpoint read_line_loop (n : nat) (lim : nat) (l out : list Z) (lines : Z) :
    outcome (option (list Z * (list Z * Z))) :=
  match n with
  | O => Undef "not enough fuel"
  | S n =>
    s ← read_line_step l out lines;
    match s with
    | L_next l out lines =>
      if (length l <=? lim)%nat then Ok None else read_line_loop n lim l out lines
    | L_line l out lines => Ok (Some (l, (reverse out, lines)))
    | L_zero => Ok None
    end
  end.

(** [read_line] on the buffer from [line] on: the number of bytes consumed,
    the line and the increase of [*linecount], or [None] for 0. *)
Definition read_line (l : list Z) (len : nat) : outcome (option (nat * list Z * Z)) :=
  r ← read_line_loop (S (length l)) (length l - len) l [] 0;
  Ok (match r with Some (l', (line, lines)) => Some ((length l - length l')%nat, line, lines) | None => None end).

(** ** Files *)

(** A stream: the bytes not read yet and its end-of-file indicator. *)
Record stream : Set := Stream { f_rest : list Z; f_eof : bool }.

Definition fread (f : stream) (n : nat) : list Z * stream :=
  (take n (f_rest f), Stream (drop n (f_rest f)) (f_eof f || (length (f_rest f) <? n)%nat)).

Record source : Set := Source {
  s_file : stream;
  s_buffer : list Z;
  s_processed : nat;
  s_read : nat;
  s_path : kstring;
  s_dirlen : nat;
  s_line : Z;
  s_is_string_stream : bool
}.
Definition s_size (s : source) : nat := length (s_buffer s).

Definition with_buffer (s : source) (f : stream) (b : list Z) (processed read : nat) : source :=
  Source f b processed read (s_path s) (s_dirlen s) (s_line s) (s_is_string_stream s).
Definition with_line (s : source) (processed : nat) (line : Z) : source :=
  Source (s_file s) (s_buffer s) processed (s_read s) (s_path s) (s_dirlen s) line
    (s_is_string_stream s).

(** Bytes written to the buffer from an index on. *)
Definition write_at (b : list Z) (i : nat) (bytes : list Z) : list Z :=
  take i b ++ bytes ++ drop (i + length bytes) b.

(** The part of the loop that reads from the file, with whether the function
    goes on and does not return [NULL]. *)
Definition fill_buffer (s : source) : outcome (source * bool) :=
  if (s_processed s =? s_read s)%nat || (s_processed s =? 0)%nat then
    if f_eof (s_file s) then
      if negb (s_is_string_stream s) && (s_processed s <? s_read s)%nat
      then Exit "Unable to process the whole input."
      else Ok (s, false)
    else
      let read := if (s_processed s =? 0)%nat then s_read s else O in
      let '(bytes, f) := fread (s_file s) (s_size s - read - 2) in
      let read' := (read + length bytes)%nat in
      let b := write_at (write_at (s_buffer s) read bytes) read' [0] in
      if f_eof f then
        if (read' =? 0)%nat then Ok (with_buffer s f b 0 read', false)
        else if s_is_string_stream s then
          Ok (with_buffer s f (write_at b read' [10; 0]) 0 (S read'), true)
        else if negb (nth (read' - 1) b 0 =? 10) then
          Ok (with_buffer s f (write_at b read' [10]) 0 read', true)
        else Ok (with_buffer s f b 0 read', true)
      else Ok (with_buffer s f b 0 read', true)
  else Ok (s, true).

(** [initial_preprocess_line]; the fuel bounds the number of passes.  The
    source is given back also where there is no line. *)
Fixpoint initial_preprocess_line (n : nat) (s : source) : outcome (source * option (list Z)) :=
  match n with
  | O => Undef "not enough fuel"
  | S n =>
    _ ← c_assert ((s_processed s <=? s_read s)%nat && (s_read s <? s_size s)%nat);
    '(s, more) ← fill_buffer s;
    if negb more then Ok (s, None)
    else
      _ ← c_assert (s_processed s <? s_read s)%nat;
      r ← read_line (drop (s_processed s) (s_buffer s)) (s_read s - s_processed s);
      match r with
      | Some (added, line, lines) =>
        Ok (with_line s (s_processed s + added) (wrap_s 32 (s_line s + lines)), Some line)
      | None =>
        if (s_processed s =? 0)%nat then
          initial_preprocess_line n
            (with_buffer s (s_file s) (s_buffer s ++ replicate FILE_BUFFER_SIZE 0) 0 (s_read s))
        else
          let rest := take (s_read s - s_processed s) (drop (s_processed s) (s_buffer s)) in
          _ ← c_assert (s_processed s <? s_read s)%nat;
          initial_preprocess_line n
            (with_buffer s (s_file s) (write_at (s_buffer s) 0 rest) 0 (length rest))
      end
  end.

(** Passes that are enough: each but the first and the last reads a byte or
    finds the end of the file. *)
Definition line_passes (s : source) : nat := (length (f_rest (s_file s)) + 4)%nat.

(** ** The stack of files *)

(** The stack has the innermost file first. *)
Record input : Set := Input {
  source_stack : list source;
  current_file_path : kstring;
  current_file_line : Z;
  stale : bool;
  search_path_list : list (list Z)
}.
Definition input_start : input := Input [] str_zero 0 false [].

Definition with_stack (i : input) (st : list source) : input :=
  Input st (current_file_path i) (current_file_line i) (stale i) (search_path_list i).
Definition with_position (i : input) (path : kstring) (line : Z) : input :=
  Input (source_stack i) path line (stale i) (search_path_list i).
Definition with_stale (i : input) (b : bool) : input :=
  Input (source_stack i) (current_file_path i) (current_file_line i) b (search_path_list i).

Definition current_file (i : input) : outcome source :=
  match source_stack i with s :: _ => Ok s | [] => Exit "assertion failed" end.

Definition push_file (i : input) (content : list Z) (path : kstring) (dirlen : nat) (string_stream : bool) :
    outcome input :=
  _ ← c_assert (negb (s_len path =? 0));
  let s := Source (Stream content false) (replicate FILE_BUFFER_SIZE 0) 0 0 path dirlen 0 string_stream in
  Ok (Input (s :: source_stack i) path 0 (stale i) (search_path_list i)).

(** [pop_file], and whether a file is left. *)
Definition pop_file (i : input) : input * bool :=
  match source_stack i with
  | _ :: st => (with_stack i st, negb (length st =? 0)%nat)
  | [] => (i, false)
  end.

Definition input_finalize (i : input) : input :=
  Input [] (current_file_path i) (current_file_line i) (stale i) [].

(** [strrchr]: the characters before the last [c]. *)
Fixpoint strrchr (l : list Z) (c : Z) : option nat :=
  match l with
  | [] => None
  | x :: l =>
    match strrchr l c with
    | Some n => Some (S n)
    | None => if x =? c then Some O else None
    end
  end.

Definition path_dirlen (path : list Z) : nat :=
  match strrchr path (ch "/") with
  | Some n => n
  | None => default O (strrchr path 92)
  end.

Definition create_path (path : list Z) (dirlen : nat) (name : list Z) : list Z :=
  take dirlen path ++ [ch "/"] ++ name.

Section files.
(** The files of the host and its standard input. *)
Context (fopen : list Z → option (list Z)) (stdin : list Z).

Definition push_registered (lx : lexer) (i : input) (path content : list Z) : outcome (lexer * input) :=
  '(lx, s) ← lex_register lx path (length path);
  i ← push_file i content s (path_dirlen path) false;
  Ok (lx, i).

(** The length of a search path without its trailing slashes. *)
Fixpoint trim_slashes (path : list Z) (dirlen : nat) : outcome nat :=
  match dirlen with
  | O => Undef "the character before the path"
  | S n =>
    if nth n path 0 =? ch "/" then
      _ ← c_assert (negb (n =? 0)%nat); trim_slashes path n
    else Ok dirlen
  end.

Fixpoint search_paths (paths : list (list Z)) (name : list Z) : outcome (option (list Z * list Z)) :=
  match paths with
  | [] => Ok None
  | path :: paths =>
    dirlen ← trim_slashes path (length path);
    let path := create_path path dirlen name in
    match fopen path with
    | Some content => Ok (Some (path, content))
    | None => search_paths paths name
    end
  end.

Definition include_system_file (lx : lexer) (i : input) (name : list Z) : outcome (lexer * input) :=
  r ← search_paths (search_path_list i) name;
  match r with
  | Some (path, content) => push_registered lx i path content
  | None => Exit "Unable to resolve include file."
  end.

Definition include_file (lx : lexer) (i : input) (name : list Z) : outcome (lexer * input) :=
  file ← current_file i;
  let path :=
    if negb (s_dirlen file =? 0)%nat && negb (rd name =? ch "/")
    then create_path (str_raw (s_path file)) (s_dirlen file) name else name in
  match fopen path with
  | Some content => push_registered lx i path content
  | None => include_system_file lx i name
  end.

Definition add_include_search_path (i : input) (path : list Z) : input :=
  Input (source_stack i) (current_file_path i) (current_file_line i) (stale i)
    (search_path_list i ++ [path]).

(** [set_input_file]; no path is the standard input. *)
Definition set_input_file (lx : lexer) (i : input) (path : option (list Z)) (string_stream : bool) :
    outcome (lexer * input) :=
  let i := with_stack i [] in
  let init str := let '(fl, s) := str_init (lx_strings lx) str in (Lexer (lx_strtab lx) fl (lx_buffer lx), s) in
  match path with
  | Some path =>
    if string_stream then
      let '(lx, s) := init (cstr "<string-stream>") in
      i ← push_file i path s 0 true; Ok (lx, i)
    else
      let '(lx, s) := init path in
      match fopen path with
      | Some content => i ← push_file i content s (path_dirlen path) false; Ok (lx, i)
      | None => Exit "Unable to open file."
      end
  | None =>
    let '(lx, s) := init (cstr "<stdin>") in
    i ← push_file i stdin s 0 false; Ok (lx, i)
  end.

End files.

Fixpoint is_directive (line : list Z) : bool :=
  match line with
  | c :: line' =>
    if (c =? ch " ") || (c =? 9) then is_directive line' else c =? ch "#"
  | [] => false
  end.

(** [getprepline]: the next line of the innermost file; [active] is
    [in_active_block()].  The fuel bounds the number of lines and files passed
    over. *)
Fixpoint getprepline (n : nat) (active : bool) (i : input) : outcome (input * option (list Z)) :=
  match n with
  | O => Undef "not enough fuel"
  | S n =>
    match source_stack i with
    | [] => Ok (i, None)
    | s :: st =>
      let i := if stale i then with_stale (with_position i (s_path s) (s_line s)) false else i in
      '(s', line) ← initial_preprocess_line (line_passes s) s;
      let i := with_position (with_stack i (s' :: st)) (current_file_path i)
        (wrap_s 32 (current_file_line i + (s_line s' - s_line s))) in
      match line with
      | None =>
        let '(i, more) := pop_file (with_stale i true) in
        if negb more then Ok (i, None)
        else if negb active then Undef "a null line"
        else getprepline n active i
      | Some line =>
        if negb active && negb (is_directive line) then getprepline n active i
        else Ok (i, Some line)
      end
    end
  end.
