(* ===== verification/InputProps.v ===== *)
(** * Reading in pieces

    A line that is complete in the buffer is the same line whatever follows
    the buffer in the file, so that the lines of a file do not depend on the
    pieces in which it is read. *)

From stdpp Require Import base list numbers strings.
From Stdlib Require Import ZArith Lia.
From S2P Require Import Prelude CType Strings Hash Strtab Token Lexer Input LexerSafe.

Local Open Scope Z_scope.

(** The result [x] of a function on a buffer with the rest [st] behind the
    terminator, and the result [y] with more text [e] before it: a position
    that was found stays the same. *)
Definition extends {A} (st e st' : list Z) (x y : outcome (option (list Z * A))) : Prop :=
  match x with
  | Ok (Some (r, a)) => ∃ d', r = d' ++ 0 :: st ∧ y = Ok (Some (d' ++ e ++ 0 :: st', a))
  | Ok None => True
  | Exit m => y = Exit m
  | Undef _ => False
  end.

(** ** Progress *)

Lemma skip_splices_length n l lines l' lines' : (length l ≤ n)%nat →
  skip_splices l lines = (l', lines') → (length l' ≤ length l)%nat.
Proof.
  revert l lines. induction n as [|n IH]; intros l lines Hn.
  - destruct l; [|cbn in Hn; lia]. by intros [= <- <-].
  - destruct l as [|a [|b l]]; [by intros [= <- <-]..|]. cbn [skip_splices].
    destruct ((a =? 92) && (b =? 10)); [|by intros [= <- <-]].
    cbn in Hn. intros H. apply IH in H; cbn; lia.
Qed.

Lemma read_comment_length n l lines r lines' :
  read_comment n l lines = Ok (Some (r, lines')) → (length r < length l)%nat.
Proof.
  revert l lines. induction n as [|n IH]; intros [|c l] lines; try done. cbn [read_comment].
  destruct (c =? ch "*").
  - destruct (skip_splices l lines) as [l1 lines1] eqn:Hs.
    apply (skip_splices_length (length l)) in Hs; [|done].
    destruct (rd l1 =? ch "/").
    + intros [= <- <-]. rewrite length_drop. cbn. lia.
    + intros H%IH. cbn. lia.
  - destruct (c =? 10); [intros H%IH; cbn; lia|]. destruct (c =? 0); [done|]. intros H%IH. cbn. lia.
Qed.

Lemma read_line_comment_length n l lines r lines' : (length l ≤ n)%nat →
  read_line_comment l lines = Ok (Some (r, lines')) → (length r < length l)%nat.
Proof.
  revert l lines. induction n as [|n IH]; intros [|c l] lines Hn; try done; [cbn in Hn; lia|].
  cbn [read_line_comment]. cbn in Hn. destruct (c =? 92).
  - destruct l as [|x l]; [done|]. cbn in Hn.
    destruct (x =? 10); intros H%IH; cbn in *; lia.
  - destruct (c =? 10); [intros [= <- <-]; cbn; lia|]. destruct (c =? 0); [done|].
    intros H%IH; cbn in *; lia.
Qed.

Lemma literal_length n q l out lines r a :
  literal_loop n q l out lines = Ok (Some (r, a)) → (length r < length l)%nat.
Proof.
  revert l out lines. induction n as [|n IH]; intros [|c l] out lines; try done. cbn [literal_loop].
  destruct (c =? 0); [done|]. destruct (c =? 10).
  { destruct (rd out =? 92); [|done]. intros H%IH. cbn. lia. }
  destruct (negb _); [intros H%IH; rewrite length_drop in H; cbn in *; lia|].
  destruct (_ && _); [intros [= <- <-]; cbn; lia|]. intros H%IH. cbn. lia.
Qed.

Lemma read_literal_length l out lines r a :
  read_literal l out lines = Ok (Some (r, a)) → (length r < length l)%nat.
Proof.
  unfold read_literal. intros H. apply bind_ok_inv in H as (u & _ & H).
  apply literal_length in H. rewrite length_drop in H. lia.
Qed.

Lemma step_length l out lines s : l ≠ [] → read_line_step l out lines = Ok s →
  match s with
  | L_next r _ _ | L_line r _ _ => (length r < length l)%nat
  | L_zero => True
  end.
Proof.
  destruct l as [|c l]; [done|]. intros _. unfold read_line_step.
  repeat match goal with
  | |- (if ?b then _ else _) = _ → _ => destruct b
  end; intros H; ok_inv; subst; rewrite ?length_drop; cbn [length];
    repeat match goal with x : option _ |- _ => destruct x | x : _ * _ |- _ => destruct x end; try done; try lia.
  - by apply read_literal_length in Ha.
  - change (drop 1 (c :: l)) with l in Ha. apply (read_line_comment_length (length l)) in Ha; lia.
  - change (drop 1 (c :: l)) with l in Ha. apply read_comment_length in Ha. lia.
Qed.

Lemma loop_length n lim l out lines r a : l ≠ [] →
  read_line_loop n lim l out lines = Ok (Some (r, a)) → (length r < length l)%nat.
Proof.
  revert l out lines. induction n as [|n IH]; intros l out lines Hl; [done|]. cbn [read_line_loop].
  intros H. apply bind_ok_inv in H as (s & Hs & H). apply step_length in Hs; [|done].
  destruct s as [l1 o1 ln1|l1 o1 ln1|]; [|by injection H as <- _|done].
  destruct (_ <=? _)%nat; [done|]. destruct (decide (l1 = [])) as [->|Hn].
  - destruct n; [done|]. apply bind_ok_inv in H as (s & Hs' & H).
    unfold read_line_step in Hs'. cbn in Hs'. injection Hs' as <-. cbn in H. by destruct lim.
  - apply IH in H; [lia|done].
Qed.

(** ** More text behind the buffer *)

Section extend.
Context (st e st' : list Z).

Lemma skip_splices_extend n d lines : (length d ≤ n)%nat →
  ∃ d' lines', skip_splices (d ++ 0 :: st) lines = (d' ++ 0 :: st, lines') ∧
    (length d' ≤ length d)%nat ∧
    (d' = [] ∨ d' = [92] ∨ skip_splices (d ++ e ++ 0 :: st') lines = (d' ++ e ++ 0 :: st', lines')).
Proof.
  revert d lines. induction n as [|n IH]; intros d lines Hn.
  { destruct d; [|cbn in Hn; lia]. exists [], lines. split; [|split; [done|by left]].
    cbn. by destruct st. }
  destruct d as [|a [|b d]].
  - exists [], lines. split; [|split; [done|by left]]. cbn. by destruct st.
  - exists [a], lines. split; [|split; [done|]].
    + cbn. by rewrite andb_false_r.
    + destruct (Z.eqb_spec a 92) as [->|Ha]; [by right; left|]. right; right. cbn.
      apply Z.eqb_neq in Ha. rewrite Ha. by destruct e.
  - cbn [app skip_splices]. destruct ((a =? 92) && (b =? 10)) eqn:Hab.
    + cbn in Hn. destruct (IH d (lines + 1)) as (d' & lines' & H1 & H2 & H3); [lia|].
      exists d', lines'. split; [done|]. split; [cbn; lia|done].
    + exists (a :: b :: d), lines. split; [done|]. split; [done|]. by right; right.
Qed.

Lemma read_comment_extend n n' d lines : (length d < n)%nat → (length d < n')%nat →
  extends st e st' (read_comment n (d ++ 0 :: st) lines) (read_comment n' (d ++ e ++ 0 :: st') lines).
Proof.
  revert n' d lines. induction n as [|n IH]; intros n' d lines Hn Hn'; [lia|].
  destruct n' as [|n']; [lia|]. destruct d as [|c d]; [done|]. cbn [app read_comment length] in Hn, Hn' |- *.
  destruct (c =? ch "*").
  - destruct (skip_splices_extend (length d) d lines) as (d' & lines' & H1 & H2 & H3); [done|].
    rewrite H1. destruct H3 as [->|[->|H3]].
    + cbn. destruct n; [lia|done].
    + cbn. destruct n as [|[|n]]; [cbn in H2; lia..|done].
    + rewrite H3. destruct d' as [|x d']; [cbn; destruct n; [lia|done]|].
      cbn [app rd]. destruct (x =? ch "/"); [by exists d'|].
      apply (IH n' (x :: d')); cbn in *; lia.
  - destruct (c =? 10); [apply IH; lia|]. destruct (c =? 0); [done|]. apply IH; lia.
Qed.

Lemma read_line_comment_extend n d lines : (length d ≤ n)%nat →
  extends st e st' (read_line_comment (d ++ 0 :: st) lines) (read_line_comment (d ++ e ++ 0 :: st') lines).
Proof.
  revert d lines. induction n as [|n IH]; intros d lines Hn; (destruct d as [|c d]; [done|]; cbn in Hn); [lia|].
  cbn [app read_line_comment]. destruct (c =? 92).
  - destruct d as [|x d]; [done|]. cbn [app]. cbn in Hn.
    destruct (x =? 10); [apply IH; lia|]. apply (IH (x :: d)). cbn. lia.
  - destruct (c =? 10); [by exists d|]. destruct (c =? 0); [done|]. apply IH. lia.
Qed.

(** A trigraph that is not complete in the buffer. *)
Lemma trigraph_extend d :
  trigraph_at (d ++ 0 :: st) = trigraph_at (d ++ e ++ 0 :: st') ∨
  trigraph_at (d ++ 0 :: st) = 0 ∧ (d = [] ∨ d = [ch "?"] ∨ d = [ch "?"; ch "?"]).
Proof.
  destruct d as [|a [|b [|c d]]]; [by right; auto|..]; [| |by left].
  - unfold trigraph_at, rd1. cbn [rd drop app]. destruct (Z.eqb_spec a (ch "?")) as [->|Ha]; [|by left].
    right. split; [done|auto].
  - unfold trigraph_at, rd1. cbn. destruct (Z.eqb_spec a (ch "?")) as [->|Ha]; [|by left].
    destruct (Z.eqb_spec b (ch "?")) as [->|Hb]; [|by left]. right. split; [done|auto].
Qed.

Lemma literal_extend n n' q d out lines : q ≠ ch "?" → (length d < n)%nat → (length d < n')%nat →
  extends st e st' (literal_loop n q (d ++ 0 :: st) out lines)
    (literal_loop n' q (d ++ e ++ 0 :: st') out lines).
Proof.
  intros Hq. revert n' d out lines. induction n as [|n IH]; intros n' d out lines Hn Hn'; [lia|].
  destruct n' as [|n']; [lia|]. destruct d as [|c d]; [done|].
  cbn [app literal_loop length] in Hn, Hn' |- *.
  destruct (c =? 0); [done|]. destruct (c =? 10) eqn:Hc.
  { destruct (rd out =? 92); [apply IH; lia|done]. }
  destruct (trigraph_extend (c :: d)) as [Ht|[Ht Hd]].
  - cbn [app] in Ht. rewrite <-Ht.
    destruct (negb (trigraph_at (c :: d ++ 0 :: st) =? 0)) eqn:Hz.
    + destruct d as [|x [|y d]].
      * unfold trigraph_at, rd1 in Hz. cbn in Hz. by destruct (c =? 63).
      * unfold trigraph_at, rd1 in Hz. cbn in Hz. by destruct (c =? 63), (x =? 63).
      * cbn [app drop]. cbn in Hn, Hn'. apply IH; lia.
    + destruct ((c =? q) && Nat.even (backslashes out)); [by exists d|]. apply IH; lia.
  - cbn [app] in Ht. rewrite Ht. change (negb (0 =? 0)) with false. cbv iota.
    apply Z.eqb_neq in Hq. rewrite Z.eqb_sym in Hq.
    destruct Hd as [?|[[= -> ->]|[= -> ->]]]; [done|..]; rewrite Hq; cbn [andb];
      cbn in Hn; (destruct n as [|[|n]]; [lia|..]); try lia; try done.
    cbn [app literal_loop]. change (trigraph_at (ch "?" :: 0 :: st)) with 0. change (negb (0 =? 0)) with false. cbv iota.
    by rewrite Hq.
Qed.

Lemma read_literal_extend d out lines : d ≠ [] → extends st e st'
  (read_literal (d ++ 0 :: st) out lines) (read_literal (d ++ e ++ 0 :: st') out lines).
Proof.
  destruct d as [|q d]; [done|]. intros _. unfold read_literal. cbn [app rd].
  destruct (Z.eqb_spec q 34) as [->|H1]; [|destruct (Z.eqb_spec q (ch "'")) as [->|H2]; [|done]];
    cbn [orb c_assert mbind outcome_bind]; change (drop 1 (?c :: ?l)) with l;
    apply literal_extend; try done; cbn; rewrite length_app; lia.
Qed.

(** A pass at [d] whose result does not depend on what follows the buffer,
    or after which the buffer does not hold the line. *)
Definition step_extends (d : list Z) (x y : outcome line_step) : Prop :=
  match x with
  | Ok (L_next l out' lines') =>
    ∃ d', l = d' ++ 0 :: st ∧ (length d' < length d)%nat ∧
      (y = Ok (L_next (d' ++ e ++ 0 :: st') out' lines') ∨
       d' = [] ∨ d' = [ch "?"])
  | Ok (L_line l out' lines') =>
    ∃ d', l = d' ++ 0 :: st ∧ y = Ok (L_line (d' ++ e ++ 0 :: st') out' lines')
  | Ok L_zero => True
  | Exit m => y = Exit m
  | Undef _ => False
  end.

Lemma step_extend d out lines : d ≠ [] →
  step_extends d (read_line_step (d ++ 0 :: st) out lines)
    (read_line_step (d ++ e ++ 0 :: st') out lines).
Proof.
  destruct d as [|c d]; [done|]. intros _. unfold read_line_step. cbn [app rd].
  destruct (c =? 10); [by exists d|]. destruct (Z.eqb_spec c 92) as [->|_].
  { destruct d as [|x [|y d]].
    - cbn. exists []. split; [done|]. split; [cbn; lia|auto].
    - unfold rd1. cbn. destruct (x =? 13), (x =? 10); cbn;
        first [exists []; split; [done|]; split; [cbn; lia|auto] | exists [x]; split; [done|]; split; [cbn; lia|auto]].
    - unfold rd1. cbn. destruct ((x =? 13) && (y =? 10)); [|destruct ((x =? 13) || (x =? 10))];
        [exists d|exists (y :: d)|exists (x :: y :: d)]; (split; [done|]; split; [cbn; lia|auto]). }
  destruct (Z.eqb_spec c (ch "?")) as [->|_].
  { destruct (trigraph_extend (ch "?" :: d)) as [Ht|[Ht Hd]]; cbn [app] in Ht; rewrite Ht.
    - destruct (negb _) eqn:Hz; [|by exists d; split; [done|]; split; [cbn; lia|auto]].
      destruct d as [|x [|y d]].
      + rewrite <-Ht in Hz. by cbn in Hz.
      + rewrite <-Ht in Hz. unfold trigraph_at, rd1 in Hz. cbn in Hz. by destruct (x =? 63).
      + exists d. split; [done|]. split; [cbn; lia|auto].
    - change (negb (0 =? 0)) with false. cbv iota.
      exists d. split; [done|]. split; [cbn; lia|].
      destruct Hd as [?|[[= ->]|[= ->]]]; [done|auto..]. }
  destruct ((c =? ch "'") || (c =? 34)).
  { pose proof (read_literal_extend (c :: d) out lines ltac:(done)) as Hl. cbn [app] in Hl.
    destruct (read_literal (c :: d ++ 0 :: st) out lines) as [[[r [o ln]]|]|m|m] eqn:Hr; cbn in Hl |- *; [|done|by rewrite Hl|done].
    destruct Hl as (d' & -> & ->). apply read_literal_length in Hr. cbn in Hr. rewrite !length_app in Hr.
    exists d'. split; [done|]. split; [cbn in *; lia|auto]. }
  destruct ((c =? ch "/") && (rd out =? ch "/")).
  { change (drop 1 (c :: ?l)) with l.
    pose proof (read_line_comment_extend (length d) d lines ltac:(done)) as Hl.
    destruct (read_line_comment (d ++ 0 :: st) lines) as [[[r ln]|]|m|m]; cbn in Hl |- *; [|done|by rewrite Hl|done].
    destruct Hl as (d' & -> & ->). by exists d'. }
  destruct ((c =? ch "*") && (rd out =? ch "/")).
  { change (drop 1 (c :: ?l)) with l.
    pose proof (read_comment_extend (length (c :: d ++ 0 :: st)) (length (c :: d ++ e ++ 0 :: st')) d lines) as Hl.
    rewrite !length_cons, !length_app in Hl. specialize (Hl ltac:(lia) ltac:(lia)).
    rewrite !length_cons, !length_app.
    destruct (read_comment _ (d ++ 0 :: st) lines) as [[[r ln]|]|m|m] eqn:Hr; cbn in Hl |- *; [|done|by rewrite Hl|done].
    destruct Hl as (d' & -> & ->). apply read_comment_length in Hr. rewrite !length_app in Hr.
    exists d'. split; [done|]. split; [cbn in *; lia|auto]. }
  exists d. split; [done|]. split; [cbn; lia|auto].
Qed.

Lemma loop_at_end n lim out lines : (length st < lim)%nat →
  read_line_loop (S n) lim (ch "?" :: 0 :: st) out lines = Ok None.
Proof.
  intros Hl. cbn [read_line_loop].
  change (read_line_step (ch "?" :: 0 :: st) out lines) with (Ok (L_next (0 :: st) (ch "?" :: out) lines)).
  cbn [mbind outcome_bind length]. by rewrite (proj2 (Nat.leb_le _ _)).
Qed.

Lemma line_loop_extend n n' d out lines : d ≠ [] → (length d < n)%nat → (length d < n')%nat →
  extends st e st' (read_line_loop n (S (length st)) (d ++ 0 :: st) out lines)
    (read_line_loop n' (S (length st')) (d ++ e ++ 0 :: st') out lines).
Proof.
  revert n' d out lines. induction n as [|n IH]; intros n' d out lines Hd Hn Hn'; [lia|].
  destruct n' as [|n']; [lia|]. cbn [read_line_loop].
  pose proof (step_extend d out lines Hd) as Hs.
  destruct (read_line_step (d ++ 0 :: st) out lines) as [[l o ln|l o ln|]|m|m]; cbn [step_extends] in Hs;
    cbn [mbind outcome_bind]; [| |done|by rewrite Hs|done].
  - destruct Hs as (d' & -> & Hl & Hs). rewrite length_app. cbn [length].
    destruct d' as [|x d'].
    { by rewrite Nat.leb_refl. }
    destruct (Nat.leb_spec (length (x :: d') + S (length st)) (S (length st))); [cbn in *; lia|].
    destruct Hs as [->|[?|[= -> ->]]]; [|done|].
    + cbn [mbind outcome_bind]. rewrite !length_app. cbn [length].
      destruct (Nat.leb_spec (S (length d') + (length e + S (length st'))) (S (length st'))); [lia|].
      apply (IH n' (x :: d')); [done|lia..].
    + cbn [length app] in *. destruct n as [|n]; [lia|]. rewrite loop_at_end by lia. done.
  - destruct Hs as (d' & -> & ->). by exists d'.
Qed.
End extend.

(** A line that is complete in the buffer [w] is the line of the whole text,
    and a failure is a failure of the whole text. *)
Lemma read_line_extend w st e st' : w ≠ [] →
  match read_line (w ++ 0 :: st) (length w) with
  | Ok (Some (k, line, lines)) =>
      (0 < k ≤ length w)%nat ∧
      read_line (w ++ e ++ 0 :: st') (length (w ++ e)) = Ok (Some (k, line, lines))
  | Ok None => True
  | Exit m => read_line (w ++ e ++ 0 :: st') (length (w ++ e)) = Exit m
  | Undef _ => False
  end.
Proof.
  intros Hw. unfold read_line.
  pose proof (line_loop_extend st e st' (S (length (w ++ 0 :: st))) (S (length (w ++ e ++ 0 :: st'))) w [] 0 Hw) as H.
  rewrite !length_app in *. cbn [length] in *. specialize (H ltac:(lia) ltac:(lia)).
  replace (length w + S (length st) - length w)%nat with (S (length st)) by lia.
  replace (length w + (length e + S (length st')) - (length w + length e))%nat with (S (length st')) by lia.
  destruct (read_line_loop _ (S (length st)) _ [] 0) as [[[r [line lines]]|]|m|m] eqn:Hr; cbn in H |- *; [|done|by rewrite H|done].
  destruct H as (d' & -> & ->). apply loop_length in Hr; [|by destruct w].
  rewrite !length_app in *. cbn [length] in *.
  split; [lia|]. cbn [mbind outcome_bind]. rewrite !length_app. cbn [length]. do 4 f_equal. lia.
Qed.

(** What is stale behind the terminator does not matter. *)
Lemma read_line_stale w st : w ≠ [] →
  read_line (w ++ 0 :: st) (length w) = Ok None → read_line (w ++ [0]) (length w) = Ok None.
Proof.
  intros Hw Hn. pose proof (read_line_extend w [] [] st Hw) as H. cbn [app] in H.
  rewrite app_nil_r, Hn in H.
  destruct (read_line (w ++ [0]) (length w)) as [[[[k line] lines]|]|m|m]; try done. by destruct H.
Qed.

(** * What a line is made of

    A line never has more characters than are read for it, the line counter
    counts the newlines that are read, and the literals of a line are
    closed. *)

(** ** The text that is read *)

Fixpoint newlines (l : list Z) : Z :=
  match l with c :: l => (if c =? 10 then 1 else 0) + newlines l | [] => 0 end.

Lemma newlines_app a b : newlines (a ++ b) = newlines a + newlines b.
Proof. induction a; cbn; lia. Qed.

(** From [l] to [r] with [size] more characters written, and the lines
    counted on the way. *)
Definition walk (l r : list Z) (size : nat) (lines lines' : Z) : Prop :=
  ∃ w, l = w ++ r ∧ (size ≤ length w)%nat ∧ ((13 ∉ l) → lines' = lines + newlines w).

Lemma walk_refl l lines : walk l l 0 lines lines.
Proof. exists []. split; [done|]. split; [done|]. cbn. lia. Qed.

Lemma walk_trans l m r a b c x y z : walk l m a x y → walk m r b y z → (c ≤ a + b)%nat →
  walk l r c x z.
Proof.
  intros (w & -> & Ha & Hx) (v & -> & Hb & Hy) Hc. exists (w ++ v). split; [by rewrite app_assoc|].
  rewrite length_app. split; [lia|]. intros Hn. rewrite newlines_app.
  rewrite Hy, Hx; [lia|done|]. intros Hin. apply Hn. by apply elem_of_app; right.
Qed.

Lemma walk_char c l size lines : (size ≤ 1)%nat →
  walk (c :: l) l size lines (if c =? 10 then lines + 1 else lines).
Proof. intros Hs. exists [c]. split; [done|]. split; [done|]. intros _. cbn. destruct (c =? 10); lia. Qed.

Lemma walk_plain c l size lines : (size ≤ 1)%nat → c ≠ 10 → walk (c :: l) l size lines lines.
Proof. intros Hs Hc. pose proof (walk_char c l size lines Hs) as H. apply Z.eqb_neq in Hc. by rewrite Hc in H. Qed.

Lemma walk_newline l lines : walk (10 :: l) l 0 lines (lines + 1).
Proof. apply (walk_char 10 l 0 lines). lia. Qed.

Lemma skip_splices_walk n l lines : (length l ≤ n)%nat →
  walk l (fst (skip_splices l lines)) 0 lines (snd (skip_splices l lines)).
Proof.
  revert l lines. induction n as [|n IH]; intros l lines Hn.
  { destruct l; [apply walk_refl|cbn in Hn; lia]. }
  destruct l as [|a [|b l]]; [apply walk_refl..|]. cbn [skip_splices].
  destruct (Z.eqb_spec a 92) as [->|_]; [|apply walk_refl].
  destruct (Z.eqb_spec b 10) as [->|_]; [|apply walk_refl]. cbn [andb]. cbn in Hn.
  eapply (walk_trans _ _ _ 0 0 0); [apply (walk_plain 92 _ 0); [lia|done]| |].
  - eapply (walk_trans _ _ _ 0 0 0); [apply walk_newline|apply IH; lia|lia].
  - lia.
Qed.

Lemma read_comment_walk n l lines r lines' :
  read_comment n l lines = Ok (Some (r, lines')) → walk l r 0 lines lines'.
Proof.
  revert l lines. induction n as [|n IH]; intros [|c l] lines; try done. cbn [read_comment].
  destruct (Z.eqb_spec c (ch "*")) as [->|_].
  - pose proof (skip_splices_walk (length l) l lines ltac:(done)) as Hs.
    destruct (skip_splices l lines) as [l1 lines1]. cbn [fst snd] in Hs.
    assert (H1 : walk (ch "*" :: l) l1 0 lines lines1)
      by (eapply (walk_trans _ _ _ 0 0 0); [apply (walk_plain (ch "*") _ 0); [lia|done]|exact Hs|lia]).
    destruct (Z.eqb_spec (rd l1) (ch "/")) as [E|_].
    + intros [= <- <-]. destruct l1 as [|x l1]; [done|]. cbn in E. subst x.
      eapply (walk_trans _ _ _ 0 0 0); [exact H1|apply (walk_plain (ch "/") _ 0); [lia|done]|lia].
    + intros H%IH. eapply (walk_trans _ _ _ 0 0 0); [exact H1|exact H|lia].
  - destruct (Z.eqb_spec c 10) as [->|Hc].
    + intros H%IH. eapply (walk_trans _ _ _ 0 0 0); [apply walk_newline|exact H|lia].
    + destruct (c =? 0); [done|]. intros H%IH.
      eapply (walk_trans _ _ _ 0 0 0); [apply (walk_plain c _ 0); [lia|done]|exact H|lia].
Qed.

Lemma read_line_comment_walk n l lines r lines' : (length l ≤ n)%nat →
  read_line_comment l lines = Ok (Some (r, lines')) → walk l r 0 lines (lines' + 1).
Proof.
  revert l lines. induction n as [|n IH]; intros [|c l] lines Hn; try done; [cbn in Hn; lia|].
  cbn [read_line_comment]. cbn in Hn. destruct (Z.eqb_spec c 92) as [->|Hc].
  - destruct l as [|x l]; [done|]. cbn in Hn. destruct (Z.eqb_spec x 10) as [->|Hx].
    + intros H%IH; [|lia]. eapply (walk_trans _ _ _ 0 0 0); [apply (walk_plain 92 _ 0); [lia|done]| |lia].
      eapply (walk_trans _ _ _ 0 0 0); [apply walk_newline|exact H|lia].
    + intros H%IH; [|cbn; lia]. eapply (walk_trans _ _ _ 0 0 0); [apply (walk_plain 92 _ 0); [lia|done]|exact H|lia].
  - destruct (Z.eqb_spec c 10) as [->|Hc']; [intros [= <- <-]; apply walk_newline|].
    destruct (c =? 0); [done|]. intros H%IH; [|lia].
    eapply (walk_trans _ _ _ 0 0 0); [apply (walk_plain c _ 0); [lia|done]|exact H|lia].
Qed.

Lemma trigraph_chars l : trigraph_at l ≠ 0 → ∃ c l', l = ch "?" :: ch "?" :: c :: l' ∧ c ≠ 10 ∧
  (trigraph_at l ≠ 10 ∧ is_quote (trigraph_at l) = false ∧ ascii (trigraph_at l)).
Proof.
  unfold trigraph_at, rd1. destruct l as [|a [|b [|c l]]]; cbn [rd drop];
    change (read_trigraph 0) with 0; try by destruct (_ && _).
  destruct (Z.eqb_spec a (ch "?")) as [->|]; [|done]. destruct (Z.eqb_spec b (ch "?")) as [->|]; [|done].
  cbn [andb]. intros H. exists c, l. split; [done|]. split; [by intros ->|]. revert H. unfold read_trigraph.
  repeat match goal with |- context [if c =? ?k then _ else _] => destruct (c =? k); [done|] end. done.
Qed.

(** ** Literals *)

(** The text of a literal, in reverse: the quotes in it are escaped. *)
Fixpoint body_ok (q : Z) (b : list Z) : Prop :=
  match b with
  | [] => True
  | c :: b => c ≠ 0 ∧ (c = q → Nat.even (backslashes b) = false) ∧ body_ok q b
  end.

Lemma closed_body_app q a b : closed_body q a → closed_body q b → closed_body q (a ++ b).
Proof. induction 1; cbn; intros; [done|apply CB_char; auto|apply CB_escape; auto]. Qed.

Lemma body_closed q b : q ≠ 92 → body_ok q b →
  if Nat.even (backslashes b) then closed_body q (reverse b)
  else ∃ b', reverse b = b' ++ [92] ∧ closed_body q b'.
Proof.
  intros Hq. induction b as [|c b IH]; intros H; [apply CB_nil|]. destruct H as (Hc & Hcq & Hb).
  specialize (IH Hb). rewrite reverse_cons. cbn [backslashes].
  destruct (Z.eqb_spec c 92) as [->|Hn].
  - rewrite Nat.even_succ, <-Nat.negb_even. destruct (Nat.even (backslashes b)); cbn [negb].
    + by exists (reverse b).
    + destruct IH as (b' & -> & Hb'). rewrite <-app_assoc. apply closed_body_app; [done|].
      cbn. apply CB_escape; [done|apply CB_nil].
  - cbn [Nat.even]. destruct (Nat.even (backslashes b)).
    + apply closed_body_app; [done|]. apply CB_char; [|done|done|apply CB_nil].
      intros ->. by specialize (Hcq eq_refl).
    + destruct IH as (b' & -> & Hb'). rewrite <-app_assoc. apply closed_body_app; [done|].
      cbn. apply CB_escape; [done|apply CB_nil].
Qed.

Lemma backslashes_app b q out : q ≠ 92 → backslashes (b ++ q :: out) = backslashes b.
Proof.
  intros Hq. induction b as [|c b IH]; cbn; [by apply Z.eqb_neq in Hq as ->|].
  destruct (c =? 92); [by rewrite IH|done].
Qed.

Lemma literal_lines n q l b out lines r o ln : is_quote q = true → body_ok q b →
  literal_loop n q l (b ++ q :: out) lines = Ok (Some (r, (o, ln))) →
  ∃ b', o = q :: b' ++ q :: out ∧ closed_body q (reverse b') ∧
    walk l r (length o - length (b ++ q :: out)) lines ln.
Proof.
  intros Hq. destruct (quote_facts q Hq) as (Hq92 & Hq0 & _).
  revert l b lines. induction n as [|n IH]; intros [|c l] b lines Hb; try done. cbn [literal_loop].
  assert (Hgo : ∀ b1 l1 lines1, walk (c :: l) l1 (length b1 - length b) lines lines1 → body_ok q b1 →
    literal_loop n q l1 (b1 ++ q :: out) lines1 = Ok (Some (r, (o, ln))) →
    ∃ b', o = q :: b' ++ q :: out ∧ closed_body q (reverse b') ∧
      walk (c :: l) r (length o - length (b ++ q :: out)) lines ln).
  { intros b1 l1 lines1 Hw Hb1 H. destruct (IH l1 b1 lines1 Hb1 H) as (b' & Ho & Hcl & Hw').
    exists b'. split; [done|]. split; [done|]. eapply walk_trans; [exact Hw|exact Hw'|].
    rewrite !length_app. lia. }
  destruct (c =? 0) eqn:H0; [done|]. apply Z.eqb_neq in H0.
  destruct (Z.eqb_spec c 10) as [->|Hc].
  { destruct (Z.eqb_spec (rd (b ++ q :: out)) 92) as [E|E]; [|done].
    destruct b as [|x b]; [done|]. cbn in E. subst x. change (drop 1 ((92 :: b) ++ q :: out)) with (b ++ q :: out).
    intros H. apply (Hgo b l (lines + 1)); [|apply Hb|done].
    replace (length b - length (92%Z :: b))%nat with 0%nat by (cbn; lia). apply walk_newline. }
  destruct (Z.eqb_spec (trigraph_at (c :: l)) 0) as [_|Ht]; cbn [negb].
  2: { destruct (trigraph_chars _ Ht) as (x & l' & Hl & Hx & Hnl & Hnq & Ha).
    rewrite Hl at 1. change (drop 3 (?a :: ?b :: ?c :: ?l)) with l.
    intros H. apply (Hgo (trigraph_at (c :: l) :: b) l' lines); [| |exact H].
    - rewrite Hl. cbn [length]. eapply (walk_trans _ _ _ 1 0); [apply walk_plain; [lia|done]| |lia].
      eapply (walk_trans _ _ _ 0 0); [apply walk_plain; [lia|done]|apply walk_plain; [lia|done]|lia].
    - split; [done|]. split; [|done]. intros E. rewrite E in Hnq. congruence. }
  rewrite backslashes_app by done.
  destruct ((c =? q) && Nat.even (backslashes b)) eqn:Hend.
  - apply andb_true_iff in Hend as [->%Z.eqb_eq He]. intros [= <- <- <-]. exists b. split; [done|].
    pose proof (body_closed q b Hq92 Hb) as Hcl. rewrite He in Hcl. split; [done|].
    apply walk_plain; [cbn; lia|done].
  - intros H. apply (Hgo (c :: b) l lines); [apply walk_plain; [cbn; lia|done]| |exact H].
    split; [done|]. split; [|done]. intros ->. by rewrite Z.eqb_refl in Hend.
Qed.

Lemma read_literal_lines l out lines r o ln : is_quote (rd l) = true →
  read_literal l out lines = Ok (Some (r, (o, ln))) →
  ∃ q b', o = q :: b' ++ q :: out ∧ is_quote q = true ∧ closed_body q (reverse b') ∧
    walk l r (length o - length out) lines ln.
Proof.
  intros Hq. destruct l as [|q l]; [done|]. cbn [rd] in Hq. unfold read_literal. cbn [rd].
  unfold is_quote in Hq. rewrite Hq. cbn [c_assert mbind outcome_bind]. change (drop 1 (q :: l)) with l.
  intros H. apply (literal_lines _ q l [] out) in H as (b' & -> & Hcl & Hw); [|done|done].
  exists q, b'. split; [done|]. split; [done|]. split; [done|].
  destruct (quote_facts q Hq) as (_ & _ & _).
  eapply (walk_trans _ _ _ 1); [apply (walk_plain q l 1); [lia|]|exact Hw|cbn; lia].
  apply orb_true_iff in Hq as [->%Z.eqb_eq| ->%Z.eqb_eq]; done.
Qed.

(** ** Lines *)

Lemma lexable_snoc l c : lexable l → is_quote c = false → ascii c → lexable (l ++ [c]).
Proof. intros Hl Hc Ha. apply lexable_app; [done|]. apply LX_char; [done|done|apply LX_nil]. Qed.

Definition step_lines (l out : list Z) (lines : Z) (s : line_step) : Prop :=
  match s with
  | L_next r o ln =>
    walk l r (length o - length out) lines ln ∧
    (lexable (reverse out) → ascii (rd l) → lexable (reverse o))
  | L_line r o ln =>
    walk l r (S (length o) - length out) lines ln ∧
    (lexable (reverse out) → lexable (reverse o))
  | L_zero => True
  end.

(** What begins with a carriage return or a newline behind a backslash. *)
Lemma splice_walk l n lines : (0 < n ≤ length l)%nat →
  ((13 ∈ l) ∨ ∃ r, l = 92 :: 10 :: r ∧ n = 2%nat) →
  walk l (drop n l) 0 lines (lines + 1).
Proof.
  intros Hn [H13|(r & -> & ->)].
  - exists (take n l). split; [by rewrite take_drop|]. split; [lia|]. intros Hno. done.
  - exists [92; 10]. split; [done|]. split; [cbn; lia|]. intros _. cbn. lia.
Qed.

Lemma rd1_elem c l k : rd1 (c :: l) = k → k ≠ 0 → ∃ r, l = k :: r.
Proof. unfold rd1. destruct l as [|x l]; cbn; [by intros <-|]. intros -> _. by exists l. Qed.

Lemma step_walks l out lines s : l ≠ [] → read_line_step l out lines = Ok s →
  step_lines l out lines s.
Proof.
  destruct l as [|c l]; [done|]. intros _. unfold read_line_step. cbn [rd].
  assert (Hcopy : is_quote c = false → c ≠ 10 →
    step_lines (c :: l) out lines (L_next (drop 1 (c :: l)) (c :: out) lines)).
  { intros Hq Hc. split; [apply walk_plain; [cbn; lia|done]|]. cbn [rd]. intros Hl Ha.
    rewrite reverse_cons. by apply lexable_snoc. }
  destruct (Z.eqb_spec c 10) as [->|H10].
  { intros [= <-]. split; [|done]. apply (walk_char 10 l _ lines). lia. }
  destruct (Z.eqb_spec c 92) as [->|_].
  { destruct ((rd1 (92 :: l) =? 13) && (rd (drop 2 (92 :: l)) =? 10)) eqn:H1.
    - intros [= <-]. apply andb_true_iff in H1 as [H1%Z.eqb_eq H2%Z.eqb_eq].
      apply rd1_elem in H1 as [r ->]; [|done]. destruct r as [|x r]; [done|].
      split; [|done]. rewrite Nat.sub_diag. apply (splice_walk (92 :: 13 :: x :: r) 3); [cbn; lia|]. left. right. left.
    - destruct ((rd1 (92 :: l) =? 13) || (rd1 (92 :: l) =? 10)) eqn:H2.
      + intros [= <-]. split; [|done]. rewrite Nat.sub_diag.
        apply orb_true_iff in H2 as [H2%Z.eqb_eq|H2%Z.eqb_eq]; apply rd1_elem in H2 as [r ->]; try done;
          (apply (splice_walk (92 :: _ :: r) 2); [cbn; lia|]); [left; right; left|right; by exists r].
      + intros [= <-]. by apply Hcopy. }
  destruct (Z.eqb_spec c (ch "?")) as [->|_].
  { destruct (Z.eqb_spec (trigraph_at (ch "?" :: l)) 0) as [_|Ht]; cbn [negb]; intros [= <-]; [by apply Hcopy|].
    destruct (trigraph_chars _ Ht) as (x & l' & Hl & Hx & Hnl & Hnq & Ha).
    split; [|intros Hlx _; rewrite reverse_cons; by apply lexable_snoc].
    injection Hl as ->. change (drop 3 (ch "?" :: ch "?" :: x :: l')) with l'.
    eapply (walk_trans _ _ _ 1 0); [apply walk_plain; [lia|done]| |cbn; lia].
    eapply (walk_trans _ _ _ 0 0 0); [apply walk_plain; [lia|done]|apply walk_plain; [lia|done]|lia]. }
  destruct ((c =? ch "'") || (c =? 34)) eqn:Hquote.
  { assert (Hq : is_quote c = true) by (unfold is_quote; by rewrite orb_comm).
    intros H. apply bind_ok_inv in H as (x & Hx & [= <-]). destruct x as [[r [o ln]]|]; [|done].
    apply read_literal_lines in Hx as (q & b & -> & Hq' & Hcl & Hw); [|done].
    split; [done|]. intros Hlx _. rewrite reverse_cons, reverse_app, reverse_cons, <-!app_assoc.
    apply lexable_app; [done|]. cbn. apply LX_literal; [done|done|apply LX_nil]. }
  assert (Hq : is_quote c = false) by (unfold is_quote; by rewrite orb_comm).
  destruct ((c =? ch "/") && (rd out =? ch "/")) eqn:Hlc.
  { apply andb_true_iff in Hlc as [->%Z.eqb_eq Ho%Z.eqb_eq]. intros H.
    apply bind_ok_inv in H as (x & Hx & [= <-]). destruct x as [[r ln]|]; [|done].
    change (drop 1 (ch "/" :: l)) with l in Hx. destruct out as [|y out]; [done|]. cbn in Ho. subst y.
    apply (read_line_comment_walk (length l)) in Hx; [|done].
    split; [|intros Hlx; rewrite reverse_cons in Hlx; by apply lexable_snoc_inv in Hlx].
    eapply (walk_trans _ _ _ 0 0); [apply (walk_plain (ch "/") l 0); [lia|done]|exact Hx|cbn; rewrite drop_0; lia]. }
  destruct ((c =? ch "*") && (rd out =? ch "/")) eqn:Hbc.
  { apply andb_true_iff in Hbc as [->%Z.eqb_eq Ho%Z.eqb_eq]. intros H.
    apply bind_ok_inv in H as (x & Hx & [= <-]). destruct x as [[r ln]|]; [|done].
    change (drop 1 (ch "*" :: l)) with l in Hx. destruct out as [|y out]; [done|]. cbn in Ho. subst y.
    apply read_comment_walk in Hx.
    split.
    - eapply (walk_trans _ _ _ 0 0); [apply (walk_plain (ch "*") l 0); [lia|done]|exact Hx|cbn; rewrite drop_0; lia].
    - intros Hlx _. rewrite reverse_cons in *. apply lexable_snoc_inv in Hlx; [|done].
      by apply lexable_snoc. }
  intros [= <-]. by apply Hcopy.
Qed.

Lemma loop_walks n st d out lines r line ln : d ≠ [] →
  read_line_loop n (S (length st)) (d ++ 0 :: st) out lines = Ok (Some (r, (line, ln))) →
  walk (d ++ 0 :: st) r (S (length line) - length out) lines ln ∧
  (lexable (reverse out) → Forall ascii d → lexable line).
Proof.
  revert d out lines. induction n as [|n IH]; intros d out lines Hd; [done|]. cbn [read_line_loop].
  intros H. apply bind_ok_inv in H as (s & Hs & H).
  pose proof (step_extend st [] [] d out lines Hd) as Hext. rewrite Hs in Hext.
  apply step_walks in Hs; [|by destruct d].
  destruct s as [l o ln1|l o ln1|]; [| |done]; cbn [step_lines step_extends] in *.
  - destruct Hext as (d' & -> & _ & _). destruct Hs as [Hw Hlx].
    rewrite length_app in H. cbn [length] in H. destruct (Nat.leb_spec (length d' + S (length st)) (S (length st))); [done|].
    assert (Hd' : d' ≠ []) by (intros ->; cbn in *; lia).
    destruct (IH d' o ln1 Hd' H) as [Hw' Hlx']. split; [eapply walk_trans; [exact Hw|exact Hw'|lia]|].
    intros Hl Ha. destruct Hw as (w & Hw & _ & _). rewrite app_assoc in Hw. apply app_inv_tail in Hw.
    subst d. apply Hlx'; [|by apply Forall_app in Ha as [_ ?]]. apply Hlx; [done|]. 
    destruct (w ++ d') as [|x k] eqn:E; [by destruct w|]. cbn. 
    by apply Forall_cons in Ha as [? _].
  - injection H as <- <- <-. destruct Hs as [Hw Hlx]. rewrite length_reverse. split; [done|].
    intros Hl _. by apply Hlx.
Qed.

(** A line that [read_line] finds in the buffer [w]. *)
Lemma read_line_walks w st k line lines : w ≠ [] →
  read_line (w ++ 0 :: st) (length w) = Ok (Some (k, line, lines)) →
  (length line < k ≤ length w)%nat ∧ ((13 ∉ w) → lines = newlines (take k w)) ∧
  (Forall ascii w → lexable line).
Proof.
  intros Hw H. pose proof (read_line_extend w st [] [] Hw) as Hk. rewrite H in Hk. destruct Hk as [Hk _].
  pose proof (read_line_extend w st [] [] Hw) as Hx. rewrite H in Hx. destruct Hx as [_ Hx].
  cbn [app] in Hx. rewrite app_nil_r in Hx. revert Hx.
  unfold read_line. rewrite length_app. cbn [length]. replace (length w + 1 - length w)%nat with 1%nat by lia.
  intros Hx. apply bind_ok_inv in Hx as (o & Ho & Hx). destruct o as [[r [line' ln]]|]; [|done].
  injection Hx as <- -> ->.
  apply (loop_walks _ []) in Ho as [(v & Hv & Hlen & Hnl) Hlx]; [|done].
  assert (Hrv : length w = (length v + length r - 1)%nat).
  { apply (f_equal length) in Hv. rewrite !length_app in Hv. cbn in Hv. lia. }
  destruct (decide (r = [])) as [->|Hr].
  { exfalso. cbn in *. lia. }
  assert (Hv' : v = take (length w + 1 - length r) w).
  { apply (f_equal (take (length v))) in Hv. rewrite take_app_length in Hv. rewrite <-Hv at 1.
    rewrite take_app_le by (destruct r; [done|]; cbn in Hrv; lia). f_equal. destruct r; [done|]. cbn in *. lia. }
  split; [destruct r; [done|]; cbn in *; lia|]. split.
  - intros H13. rewrite Hnl; [by rewrite <-Hv'|]. intros [Hin|Hin]%elem_of_app; [done|].
    apply list_elem_of_singleton in Hin. done.
  - intros Ha. apply Hlx; [apply LX_nil|done].
Qed.

(** ** Bytes *)

Lemma walk_bytes l r size x y : walk l r size x y → Forall is_byte l → Forall is_byte r.
Proof. intros (w & -> & _ & _) H. by apply Forall_app in H as [_ ?]. Qed.

Lemma trigraph_byte l : trigraph_at l ≠ 0 → is_byte (trigraph_at l).
Proof.
  intros H. destruct (trigraph_chars l H) as (_ & _ & _ & _ & _ & _ & Ha). unfold ascii, is_byte in *. lia.
Qed.

Lemma literal_bytes n q l out lines r o ln : Forall is_byte l → Forall is_byte out →
  literal_loop n q l out lines = Ok (Some (r, (o, ln))) → Forall is_byte o.
Proof.
  revert l out lines. induction n as [|n IH]; intros [|c l] out lines Hl Ho; try done. cbn [literal_loop].
  pose proof (Forall_inv Hl) as Hc. pose proof (Forall_inv_tail Hl) as Hl'.
  destruct (c =? 0); [done|]. destruct (c =? 10).
  { destruct (rd out =? 92); [|done]. apply IH; [done|by apply Forall_drop]. }
  destruct (Z.eqb_spec (trigraph_at (c :: l)) 0) as [_|Ht]; cbn [negb].
  - destruct (_ && _); [intros [= _ <- _]; by constructor|]. apply IH; [done|by constructor].
  - apply IH; [by apply Forall_drop|]. constructor; [by apply trigraph_byte|done].
Qed.

Lemma rd_byte l : Forall is_byte l → is_byte (rd l).
Proof. destruct 1; cbn; [done|done]. Qed.

Lemma step_bytes l out lines s : l ≠ [] → Forall is_byte l → Forall is_byte out →
  read_line_step l out lines = Ok s →
  match s with L_next _ o _ | L_line _ o _ => Forall is_byte o | L_zero => True end.
Proof.
  intros Hne Hl Ho. pose proof (rd_byte l Hl) as Hc. unfold read_line_step.
  repeat match goal with
  | |- (if negb (trigraph_at l =? 0) then _ else _) = _ → _ =>
      destruct (Z.eqb_spec (trigraph_at l) 0); cbn [negb]
  | |- (if ?b then _ else _) = _ → _ => destruct b
  end; intros H; ok_inv; subst; try (by constructor); try done;
    try (constructor; [by apply trigraph_byte|done]).
  - destruct a as [[r [o ln]]|]; [|done]. unfold read_literal in Ha. ok_inv.
    apply literal_bytes in Ha; [done|by apply Forall_drop|by constructor].
  - destruct a as [[r ln]|]; [|done]. by apply Forall_drop.
  - destruct a as [[r ln]|]; [|done]. constructor; [done|by apply Forall_drop].
Qed.

Lemma loop_bytes n lim l out lines r line ln : l ≠ [] → Forall is_byte l → Forall is_byte out →
  read_line_loop n lim l out lines = Ok (Some (r, (line, ln))) → Forall is_byte line.
Proof.
  revert l out lines. induction n as [|n IH]; intros l out lines Hne Hl Ho; [done|]. cbn [read_line_loop].
  intros H. apply bind_ok_inv in H as (s & Hs & H).
  pose proof (step_bytes _ _ _ _ Hne Hl Ho Hs) as Hb. apply step_walks in Hs; [|done].
  destruct s as [l1 o1 ln1|l1 o1 ln1|]; [| |done]; cbn [step_lines] in Hs.
  - destruct (Nat.leb_spec (length l1) lim) as [|Hlt]; [done|].
    apply IH in H; [done|by intros ->; cbn in Hlt; lia|by apply (walk_bytes _ _ _ _ _ (proj1 Hs))|done].
  - injection H as _ <- _. rewrite Forall_reverse. done.
Qed.

Lemma read_line_bytes w st k line lines : w ≠ [] → Forall is_byte (w ++ 0 :: st) →
  read_line (w ++ 0 :: st) (length w) = Ok (Some (k, line, lines)) → Forall is_byte line.
Proof.
  intros Hw Hb. unfold read_line. intros H. apply bind_ok_inv in H as (o & Ho & H).
  destruct o as [[r [line' ln]]|]; [|done]. injection H as _ -> _.
  apply loop_bytes in Ho; [done|by destruct w|done|constructor].
Qed.
