(* ===== verification/InputSpec.v ===== *)
(** * The lines of a file

    Reading a file in pieces gives the lines of the file read as one text;
    what the lines are made of, and that the tokenizer can take them apart. *)

From stdpp Require Import base list numbers strings.
From Stdlib Require Import ZArith Lia.
From S2P Require Import Prelude CType Strings Hash Strtab Token Lexer LexerProps LexerSafe Input InputProps.

Local Open Scope Z_scope.

(** The bytes in the buffer that are not processed, and all that is left of
    the file. *)
Definition window (s : source) : list Z :=
  take (s_read s - s_processed s) (drop (s_processed s) (s_buffer s)).
Definition pending (s : source) : list Z := window s ++ f_rest (s_file s).

(** The next line of the text [p]: the number of its bytes, the line and the
    number of lines of the file. *)
Definition next_line (p : list Z) : outcome (option (nat * list Z * Z)) :=
  match p with
  | [] => Ok None
  | _ =>
    r ← read_line (p ++ [0]) (length p);
    match r with
    | Some x => Ok (Some x)
    | None => Exit "Unable to process the whole input."
    end
  end.

(** A text that ends with a newline, as a source file does. *)
Definition ends_line (p : list Z) : Prop := p = [] ∨ last p = Some 10.

(** What holds of a source between two calls. *)
Record source_ok (s : source) : Prop := {
  ok_processed : (s_processed s ≤ s_read s)%nat;
  ok_size : (s_read s + 2 ≤ s_size s)%nat;
  ok_eof : f_eof (s_file s) = true → f_rest (s_file s) = [];
  ok_end : (0 < s_processed s < s_read s)%nat → ∃ st, drop (s_read s) (s_buffer s) = 0 :: st;
  ok_first : s_processed s = 0%nat → (s_read s + 3 ≤ s_size s)%nat;
  ok_none : f_eof (s_file s) = true → s_processed s = 0%nat → s_read s ≠ 0%nat →
    read_line (pending s ++ [0]) (length (pending s)) = Ok None;
  ok_file : s_is_string_stream s = false
}.

(** ** Writing into the buffer *)

Lemma length_write_at b i bytes : (i + length bytes ≤ length b)%nat →
  length (write_at b i bytes) = length b.
Proof. intros H. unfold write_at. rewrite !length_app, length_take, length_drop. lia. Qed.

Lemma take_write_at b i bytes : (i + length bytes ≤ length b)%nat →
  take (i + length bytes) (write_at b i bytes) = take i b ++ bytes.
Proof.
  intros H. unfold write_at. rewrite app_assoc, take_app_le, take_ge; [done|..];
    rewrite length_app, length_take; lia.
Qed.

Lemma drop_write_at b i bytes : (i + length bytes ≤ length b)%nat →
  drop (i + length bytes) (write_at b i bytes) = drop (i + length bytes) b.
Proof.
  intros H. unfold write_at. rewrite app_assoc, drop_app_ge by (rewrite length_app, length_take; lia).
  rewrite length_app, length_take.
  replace (i + length bytes - (i `min` length b + length bytes))%nat with 0%nat by lia. done.
Qed.

Lemma take_le_write_at b i j bytes : (j ≤ i)%nat → (i ≤ length b)%nat →
  take j (write_at b i bytes) = take j b.
Proof.
  intros Hj Hi. unfold write_at. rewrite take_app_le by (rewrite length_take; lia).
  rewrite take_take. f_equal. lia.
Qed.

Lemma drop_at_write_at b i bytes : (i + length bytes ≤ length b)%nat →
  drop i (write_at b i bytes) = bytes ++ drop (i + length bytes) b.
Proof.
  intros H. unfold write_at. rewrite drop_app_ge by (rewrite length_take; lia).
  rewrite length_take. replace (i - i `min` length b)%nat with 0%nat by lia. done.
Qed.

(** The buffer after a piece and its terminator are written. *)
Lemma write_piece b i bytes : (i + length bytes + 1 ≤ length b)%nat →
  let b' := write_at (write_at b i bytes) (i + length bytes) [0] in
  length b' = length b ∧ take (i + length bytes) b' = take i b ++ bytes ∧
  drop (i + length bytes) b' = 0 :: drop (i + length bytes + 1) b.
Proof.
  intros H b'. assert (H1 : length (write_at b i bytes) = length b) by (apply length_write_at; lia).
  unfold b'. split; [rewrite length_write_at, H1; [done|cbn; lia]|]. split.
  - rewrite take_le_write_at by lia. apply take_write_at. lia.
  - rewrite drop_at_write_at by (cbn; lia). cbn [length app]. f_equal.
    unfold write_at. rewrite app_assoc, drop_app_ge by (rewrite length_app, length_take; lia).
    rewrite length_app, length_take, drop_drop. f_equal. lia.
Qed.

(** ** Filling the buffer *)

Definition eof_measure (f : stream) : nat := if f_eof f then 0%nat else S (length (f_rest f)).

(** A source whose buffer holds text that may be a line. *)
Record filled (s s' : source) : Prop := {
  fl_window : (s_processed s' < s_read s')%nat;
  fl_end : ∃ st, drop (s_read s') (s_buffer s') = 0 :: st;
  fl_pending : pending s' = pending s;
  fl_size : (s_read s' + 2 ≤ s_size s')%nat;
  fl_eof : f_eof (s_file s') = true → f_rest (s_file s') = [];
  fl_line : s_line s' = s_line s;
  fl_stream : s_is_string_stream s' = false;
  fl_path : s_path s' = s_path s ∧ s_dirlen s' = s_dirlen s
}.

Lemma ends_line_nth p b n : ends_line p → p ≠ [] → take n b = p → (n ≤ length b)%nat →
  nth (n - 1) b 0 = 10.
Proof.
  intros [?|Hl] Hne Ht Hn; [done|]. rewrite last_lookup in Hl.
  assert (length p = n) as Hp by (rewrite <-Ht, length_take; lia).
  assert (n ≠ 0)%nat by (intros ->; by destruct p).
  rewrite nth_lookup. rewrite <-Ht, lookup_take in Hl.
  rewrite length_take in Hl. replace (pred (n `min` length b)) with (n - 1)%nat in Hl by lia.
  destruct (decide (n - 1 < n)%nat); [|lia]. by rewrite Hl.
Qed.

Lemma fill_read s : source_ok s → ends_line (pending s) →
  (s_processed s = s_read s ∨ s_processed s = 0%nat) → f_eof (s_file s) = false →
  ∃ s' more, fill_buffer s = Ok (s', more) ∧
    if more then filled s s' ∧ s_processed s' = 0%nat ∧
      (eof_measure (s_file s') < eof_measure (s_file s))%nat
    else pending s = [].
Proof.
  intros Hok He Hp Hf. unfold fill_buffer.
  assert ((s_processed s =? s_read s)%nat || (s_processed s =? 0)%nat = true) as ->
    by (destruct Hp as [->| ->]; rewrite Nat.eqb_refl, ?orb_true_r; done).
  rewrite Hf. set (r0 := if (s_processed s =? 0)%nat then s_read s else 0%nat).
  assert (Hw : window s = take r0 (s_buffer s)).
  { unfold window, r0. destruct (Nat.eqb_spec (s_processed s) 0) as [->|Hn].
    - by rewrite drop_0, Nat.sub_0_r.
    - destruct Hp as [->|?]; [by rewrite Nat.sub_diag|done]. }
  assert (Hr0 : (r0 + 3 ≤ s_size s)%nat).
  { unfold r0. destruct (Nat.eqb_spec (s_processed s) 0) as [H0|Hn]; [by apply (ok_first s Hok)|].
    pose proof (ok_size s Hok). pose proof (ok_processed s Hok). lia. }
  unfold fread. rewrite Hf. cbn [orb].
  set (n := (s_size s - r0 - 2)%nat). set (bytes := take n (f_rest (s_file s))).
  assert (Hlb : (length bytes ≤ n)%nat) by (unfold bytes; rewrite length_take; lia).
  assert (Hfit : (r0 + length bytes + 1 ≤ length (s_buffer s))%nat) by (unfold s_size in *; lia).
  destruct (write_piece (s_buffer s) r0 bytes Hfit) as (Hl1 & Ht1 & Hd1).
  set (b := write_at (write_at (s_buffer s) r0 bytes) (r0 + length bytes) [0]) in *.
  assert (Hpend : pending s = take (r0 + length bytes) b ++ drop n (f_rest (s_file s))).
  { unfold pending. rewrite Hw, Ht1, <-app_assoc. f_equal. unfold bytes. by rewrite take_drop. }
  assert (Hfilled : ∀ eof, ((0 < r0 + length bytes)%nat) →
    (eof = true → drop n (f_rest (s_file s)) = []) →
    filled s (with_buffer s (Stream (drop n (f_rest (s_file s))) eof) b 0 (r0 + length bytes))).
  { intros eof Hpos Heof. split; cbn; try done.
    - by eexists.
    - unfold pending, window. cbn. rewrite drop_0, Nat.sub_0_r. by symmetry.
    - unfold s_size in *. cbn. lia.
    - apply (ok_file s Hok). }
  destruct (Nat.ltb_spec (length (f_rest (s_file s))) n) as [Hlt|Hge]; cbn [f_eof].
  - assert (Hdr : drop n (f_rest (s_file s)) = []) by (apply drop_ge; lia).
    destruct (Nat.eqb_spec (r0 + length bytes) 0) as [H0|H0].
    { eexists _, false. split; [done|]. by rewrite Hpend, H0, Hdr. }
    rewrite (ok_file s Hok).
    assert (H10 : nth (r0 + length bytes - 1) b 0 = 10).
    { apply (ends_line_nth (pending s)); [done| |rewrite Hpend, Hdr, app_nil_r; done|lia].
      rewrite Hpend, Hdr, app_nil_r. intros Hnil. apply (f_equal length) in Hnil.
      rewrite length_take in Hnil. cbn in Hnil. lia. }
    rewrite H10. cbn [Z.eqb Pos.eqb negb]. eexists _, true. split; [done|].
    split; [apply (Hfilled true); [lia|done]|]. split; [done|].
    unfold eof_measure. cbn. rewrite Hf. lia.
  - assert (length bytes = n) as Hbn by (unfold bytes; rewrite length_take; lia).
    eexists _, true. split; [done|]. split; [apply (Hfilled false); [lia|done]|]. split; [done|].
    unfold eof_measure. cbn. rewrite Hf, length_drop. lia.
Qed.

Lemma fill_spec s : source_ok s → ends_line (pending s) →
  match fill_buffer s with
  | Ok (s', true) => filled s s' ∧
      ((s' = s ∧ (0 < s_processed s)%nat) ∨
       s_processed s' = 0%nat ∧ (eof_measure (s_file s') < eof_measure (s_file s))%nat)
  | Ok (s', false) => pending s = []
  | Exit m => next_line (pending s) = Exit m
  | Undef _ => False
  end.
Proof.
  intros Hok He. pose proof (ok_processed s Hok) as Hp.
  destruct (decide (s_processed s = s_read s ∨ s_processed s = 0%nat)) as [Hfill|Hno].
  - destruct (f_eof (s_file s)) eqn:Hf.
    + unfold fill_buffer.
      assert ((s_processed s =? s_read s)%nat || (s_processed s =? 0)%nat = true) as ->
        by (destruct Hfill as [->| ->]; rewrite Nat.eqb_refl, ?orb_true_r; done).
      rewrite Hf, (ok_file s Hok). cbn [negb andb]. pose proof (ok_eof s Hok Hf) as Hr.
      destruct (Nat.ltb_spec (s_processed s) (s_read s)) as [Hlt|Hge].
      * assert (H0 : s_processed s = 0%nat) by lia.
        pose proof (ok_none s Hok Hf H0 ltac:(lia)) as Hn. unfold next_line.
        destruct (pending s) as [|c p] eqn:Hpe.
        { exfalso. unfold pending, window in Hpe. apply (f_equal length) in Hpe.
          rewrite length_app, length_take, length_drop in Hpe. pose proof (ok_size s Hok).
          unfold s_size in *. cbn in Hpe. lia. }
        by rewrite Hn.
      * unfold pending, window. replace (s_read s - s_processed s)%nat with 0%nat by lia. done.
    + destruct (fill_read s Hok He Hfill Hf) as (s' & more & -> & H). destruct more; [|done].
      destruct H as (H1 & H2 & H3). split; [done|]. by right.
  - unfold fill_buffer. destruct (Nat.eqb_spec (s_processed s) (s_read s)); [tauto|].
    destruct (Nat.eqb_spec (s_processed s) 0); [tauto|]. cbn [orb].
    split; [|left; split; [done|lia]]. split; try done; try apply Hok; try lia.
Qed.

(** ** Lines *)

Lemma window_end s : (s_processed s ≤ s_read s)%nat → (s_read s ≤ s_size s)%nat →
  drop (s_processed s) (s_buffer s) = window s ++ drop (s_read s) (s_buffer s) ∧
  length (window s) = (s_read s - s_processed s)%nat.
Proof.
  intros Hp Hs. unfold window, s_size in *. split; [|rewrite length_take, length_drop; lia].
  rewrite <-(take_drop (s_read s - s_processed s) (drop (s_processed s) (s_buffer s))) at 1.
  f_equal. rewrite drop_drop. f_equal. lia.
Qed.

(** A line does not end in the buffer: it grows, or what is left of it is
    moved to its start. *)
Definition grown (s : source) : source :=
  with_buffer s (s_file s) (s_buffer s ++ replicate FILE_BUFFER_SIZE 0) 0 (s_read s).
Definition moved (s : source) : source :=
  with_buffer s (s_file s) (write_at (s_buffer s) 0 (window s)) 0 (length (window s)).

Lemma more_text s s' :
  filled s s' → read_line (drop (s_processed s') (s_buffer s')) (s_read s' - s_processed s') = Ok None →
  let s'' := if (s_processed s' =? 0)%nat then grown s' else moved s' in
  source_ok s'' ∧ pending s'' = pending s ∧ s_processed s'' = 0%nat ∧ s_file s'' = s_file s' ∧
  s_line s'' = s_line s.
Proof.
  intros Hf Hn s''. destruct (window_end s') as [Hw Hlw]; [pose proof (fl_window _ _ Hf); lia|
    pose proof (fl_size _ _ Hf); unfold s_size in *; lia|].
  destruct (fl_end _ _ Hf) as [st Hst]. rewrite Hw, <-Hlw, Hst in Hn.
  pose proof (fl_window _ _ Hf) as Hpr. pose proof (fl_size _ _ Hf) as Hsz.
  assert (Hne : window s' ≠ []) by (intros E; rewrite E in Hlw; cbn in Hlw; lia).
  apply read_line_stale in Hn; [|done].
  assert (Hpend : pending s'' = pending s ∧ s_processed s'' = 0%nat ∧ s_file s'' = s_file s' ∧
    s_line s'' = s_line s ∧ s_is_string_stream s'' = false ∧ (s_read s'' + 3 ≤ s_size s'')%nat).
  { unfold s''. destruct (Nat.eqb_spec (s_processed s') 0) as [H0|H0]; cbn -[replicate];
      (split; [|repeat (split; [done || apply Hf|]); unfold s_size in *; cbn -[replicate]]).
    - rewrite <-(fl_pending _ _ Hf). unfold pending, window. cbn -[replicate]. f_equal. rewrite H0, !drop_0, Nat.sub_0_r.
      unfold s_size in *. by rewrite take_app_le by lia.
    - rewrite length_app, length_replicate. unfold FILE_BUFFER_SIZE. lia.
    - rewrite <-(fl_pending _ _ Hf). unfold pending at 1, window at 1. cbn. rewrite drop_0, Nat.sub_0_r.
      unfold pending. f_equal. rewrite <-(Nat.add_0_l (length (window s'))) at 1.
      rewrite take_write_at; [done|]. unfold s_size in *. lia.
    - rewrite length_write_at by (unfold s_size in *; lia). lia. }
  destruct Hpend as (Hp & H0 & Hfile & Hl & Hss & H3).
  split; [|done]. split; try done; try lia.
  - rewrite Hfile. apply (fl_eof _ _ Hf).
  - intros Heof _ _. rewrite Hp, <-(fl_pending _ _ Hf). unfold pending.
    rewrite Hfile in Heof. rewrite (fl_eof _ _ Hf Heof), app_nil_r. done.
Qed.

Definition passes_needed (s : source) : nat :=
  ((if (s_processed s =? 0) || (s_processed s =? s_read s) then 1 else 2) +
   eof_measure (s_file s))%nat.

Lemma line_read_ok s s' k line : filled s s' → (0 < k ≤ length (window s'))%nat →
  source_ok (with_line s' (s_processed s' + k) line).
Proof.
  intros Hf Hk. destruct (window_end s') as [Hw Hlw]; [pose proof (fl_window _ _ Hf); lia|
    pose proof (fl_size _ _ Hf); unfold s_size in *; lia|].
  split; cbn; try lia.
  - apply (fl_size _ _ Hf).
  - apply (fl_eof _ _ Hf).
  - intros _. apply (fl_end _ _ Hf).
  - apply (fl_stream _ _ Hf).
Qed.

Lemma line_read_pending s s' k line : filled s s' → (0 < k ≤ length (window s'))%nat →
  pending (with_line s' (s_processed s' + k) line) = drop k (pending s).
Proof.
  intros Hf Hk. rewrite <-(fl_pending _ _ Hf). unfold pending at 2. rewrite drop_app_le by lia.
  unfold pending. cbn. f_equal. unfold window. cbn.
  rewrite skipn_firstn_comm, drop_drop. f_equal. lia.
Qed.

Lemma initial_line_spec n s : source_ok s → ends_line (pending s) → (passes_needed s ≤ n)%nat →
  match next_line (pending s) with
  | Ok None => ∃ s', initial_preprocess_line n s = Ok (s', None)
  | Ok (Some (k, line, lines)) =>
      ∃ s', initial_preprocess_line n s = Ok (s', Some line) ∧ source_ok s' ∧
        pending s' = drop k (pending s) ∧ s_line s' = wrap_s 32 (s_line s + lines)
  | Exit m => initial_preprocess_line n s = Exit m
  | Undef _ => False
  end.
Proof.
  revert s. induction n as [|n IH]; intros s Hok He Hn; [unfold passes_needed in Hn; destruct (_ || _); lia|].
  cbn [initial_preprocess_line].
  rewrite (proj2 (Nat.leb_le _ _) (ok_processed s Hok)).
  rewrite (proj2 (Nat.ltb_lt (s_read s) (s_size s))) by (pose proof (ok_size s Hok); lia).
  cbn [andb c_assert mbind outcome_bind].
  pose proof (fill_spec s Hok He) as Hfill.
  destruct (fill_buffer s) as [[s' []]|m|m]; cbn [mbind outcome_bind negb] in *; [| |by rewrite Hfill|done].
  2: { rewrite Hfill. cbn. by eexists. }
  destruct Hfill as [Hf Hmeas]. rewrite (proj2 (Nat.ltb_lt _ _) (fl_window _ _ Hf)). cbn [c_assert mbind outcome_bind].
  destruct (window_end s') as [Hw Hlw]; [pose proof (fl_window _ _ Hf); lia|
    pose proof (fl_size _ _ Hf); unfold s_size in *; lia|].
  destruct (fl_end _ _ Hf) as [st Hst]. pose proof (fl_window _ _ Hf) as Hpr.
  assert (Hne : window s' ≠ []) by (intros E; rewrite E in Hlw; cbn in Hlw; lia).
  pose proof (read_line_extend (window s') st (f_rest (s_file s')) [] Hne) as Hx.
  rewrite <-Hst, <-Hw, Hlw in Hx.
  assert (Hnext : next_line (pending s) =
    r ← read_line (pending s' ++ [0]) (length (pending s'));
    match r with Some x => Ok (Some x) | None => Exit "Unable to process the whole input." end).
  { rewrite <-(fl_pending _ _ Hf). unfold pending. destruct (window s'); [done|]. done. }
  unfold pending in Hnext at 2 3. rewrite <-app_assoc in Hnext.
  destruct (read_line (drop (s_processed s') (s_buffer s')) (s_read s' - s_processed s'))
    as [[[[k line] lines]|]|m|m] eqn:Hr; cbn [mbind outcome_bind].
  - destruct Hx as [Hk Hx]. rewrite Hnext, Hx. cbn [mbind outcome_bind].
    eexists. split; [by rewrite (fl_line _ _ Hf)|]. split; [|split; [|done]].
    + apply (line_read_ok s s' k _ Hf). lia.
    + apply (line_read_pending s s' k _ Hf). lia.
  - destruct (more_text s s' Hf Hr) as (Hok'' & Hp'' & H0'' & Hf'' & Hl'').
    set (s'' := if (s_processed s' =? 0)%nat then grown s' else moved s') in *.
    assert (Hrun : (if (s_processed s' =? 0)%nat then initial_preprocess_line n (grown s')
      else initial_preprocess_line n (moved s')) = initial_preprocess_line n s'')
      by (unfold s''; by destruct (s_processed s' =? 0)%nat).
    specialize (IH s'' Hok''). rewrite Hp'', Hl'' in IH.
    assert (Hn'' : (passes_needed s'' ≤ n)%nat).
    { unfold passes_needed in *. rewrite H0'', Hf''. cbn [Nat.eqb orb]. cbv iota.
      destruct Hmeas as [[-> Hpos]|[_ Hm]]; [|destruct ((s_processed s =? 0) || _)%nat; lia].
      destruct (Nat.eqb_spec (s_processed s) 0), (Nat.eqb_spec (s_processed s) (s_read s)); cbn [orb] in Hn; lia. }
    specialize (IH He Hn''). unfold grown, moved, window in Hrun.
    destruct (s_processed s' =? 0)%nat; [|cbn [c_assert mbind outcome_bind]]; by rewrite Hrun.
  - by rewrite Hnext, Hx.
  - done.
Qed.

Lemma passes_enough s : (passes_needed s ≤ line_passes s)%nat.
Proof.
  unfold passes_needed, line_passes, eof_measure. destruct (_ || _), (f_eof (s_file s)); lia.
Qed.

(** ** Whole files *)

(** The lines of a source with their line numbers, read one after the other;
    the fuel bounds their number. *)
Fixpoint read_source (n : nat) (s : source) : outcome (list (list Z * Z)) :=
  '(s, o) ← initial_preprocess_line (line_passes s) s;
  match o with
  | None => Ok []
  | Some line =>
    match n with
    | O => Undef "not enough fuel"
    | S n => ls ← read_source n s; Ok ((line, s_line s) :: ls)
    end
  end.

(** The lines of a text behind line [no]. *)
Fixpoint text_lines (n : nat) (p : list Z) (no : Z) : outcome (list (list Z * Z)) :=
  o ← next_line p;
  match o with
  | None => Ok []
  | Some (k, line, lines) =>
    match n with
    | O => Undef "not enough fuel"
    | S n =>
      let no := wrap_s 32 (no + lines) in
      ls ← text_lines n (drop k p) no; Ok ((line, no) :: ls)
    end
  end.

Lemma next_line_facts p k line lines : next_line p = Ok (Some (k, line, lines)) →
  (length line < k ≤ length p)%nat ∧ ((13 ∉ p) → lines = newlines (take k p)) ∧
  (Forall ascii p → lexable line).
Proof.
  intros H. destruct p as [|c p]; [done|].
  unfold next_line in H. apply bind_ok_inv in H as ([x|] & Hr & [= ->]).
  by apply (read_line_walks (c :: p) []).
Qed.

Lemma next_line_bytes p k line lines : Forall ascii p → next_line p = Ok (Some (k, line, lines)) →
  Forall is_byte line.
Proof.
  intros Ha H. destruct p as [|c p]; [done|].
  unfold next_line in H. apply bind_ok_inv in H as ([x|] & Hr & [= ->]).
  apply (read_line_bytes (c :: p) []) in Hr; [done|done|].
  apply Forall_app_2; [|by repeat constructor].
  eapply Forall_impl; [exact Ha|]. unfold ascii, is_byte. intros. lia.
Qed.

Lemma ends_line_drop k p : ends_line p → ends_line (drop k p).
Proof.
  intros [->|H]; [left; by rewrite drop_nil|]. destruct (decide (drop k p = [])) as [E|E]; [by left|]. right.
  rewrite <-(take_drop k p), last_app in H. destruct (last (drop k p)) eqn:Hl; [done|].
  by apply last_None in Hl.
Qed.

Lemma next_line_defined p : ∀ why, next_line p ≠ Undef why.
Proof.
  intros why. destruct p as [|c p]; [done|].
  assert (Hd : ∀ m, read_line ((c :: p) ++ [0]) (length (c :: p)) ≠ Undef m).
  { intros m E. pose proof (read_line_extend (c :: p) [] [] [] ltac:(done)) as H. by rewrite E in H. }
  unfold next_line. destruct (read_line ((c :: p) ++ [0]) (length (c :: p))) as [[x|]|m|m]; try done.
Qed.

Lemma read_source_lines n s : source_ok s → ends_line (pending s) → (length (pending s) ≤ n)%nat →
  read_source n s = text_lines n (pending s) (s_line s) ∧
  ∀ why, text_lines n (pending s) (s_line s) ≠ Undef why.
Proof.
  revert s. induction n as [|n IH]; intros s Hok He Hn;
    pose proof (initial_line_spec (line_passes s) s Hok He (passes_enough s)) as H;
    cbn [read_source text_lines];
    (destruct (next_line (pending s)) as [[[[k line] lines]|]|m|m] eqn:Hl;
      [| |by rewrite H|by destruct (next_line_defined (pending s) m)]).
  - destruct (next_line_facts _ _ _ _ Hl) as [Hk _]. destruct H as (s' & -> & _ & _ & _). lia.
  - destruct H as (s' & ->). done.
  - destruct (next_line_facts _ _ _ _ Hl) as [Hk _].
    destruct H as (s' & -> & Hok' & Hp' & Hline). cbn [mbind outcome_bind].
    destruct (IH s' Hok') as [IH1 IH2];
      [rewrite Hp'; by apply ends_line_drop|rewrite Hp', length_drop; lia|].
    rewrite IH1, Hp', Hline in *.
    split; [done|]. intros why. destruct (text_lines n _ _) as [ls|m|m]; cbn; [done|done|].
    intros [= <-]. by destruct (IH2 m).
  - destruct H as (s' & ->). done.
Qed.

(** The source of a file that was just opened. *)
Definition opened (content : list Z) (path : kstring) (dirlen : nat) : source :=
  Source (Stream content false) (replicate FILE_BUFFER_SIZE 0) 0 0 path dirlen 0 false.

Lemma opened_ok content path dirlen :
  source_ok (opened content path dirlen) ∧ pending (opened content path dirlen) = content.
Proof.
  split; [|done]. split; try done; unfold s_size; cbn -[replicate]; intros;
    rewrite ?length_replicate; unfold FILE_BUFFER_SIZE; lia.
Qed.

(** ** Theorems *)

(** C16: the lines of a file that ends with a newline, read through a buffer
    that is filled, moved and grown as needed, are the lines of its text as a
    whole, with the same line numbers and the same errors; no line depends on
    where the pieces end, and reading it always ends. *)
Theorem buffered_reading content path dirlen : ends_line content →
  let n := length content in
  read_source n (opened content path dirlen) = text_lines n content 0 ∧
  ∀ why, text_lines n content 0 ≠ Undef why.
Proof.
  intros He n. destruct (opened_ok content path dirlen) as [Hok Hp].
  destruct (read_source_lines n (opened content path dirlen) Hok) as [H1 H2]; rewrite ?Hp; [done|done|].
  rewrite Hp in *. done.
Qed.
Lemma buffered_reading_witness :
  let content := replicate 5000 (ch "x") ++ [ch ";"; 92; 10] ++ cstr "y /* 1" ++ [10] ++ cstr "2 */z" ++ [10] in
  text_lines 6 content 0 =
    Ok [(replicate 5000 (ch "x") ++ cstr ";y  z", 3)] ∧
  let n := length content in
  read_source n (opened content str_zero 0) = text_lines n content 0 ∧
  ∀ why, text_lines n content 0 ≠ Undef why.
Proof.
  split; [vm_compute; reflexivity|].
  apply (buffered_reading (replicate 5000 (ch "x") ++ [ch ";"; 92; 10] ++ cstr "y /* 1" ++ [10] ++ cstr "2 */z" ++ [10])
    str_zero 0). right. vm_compute. reflexivity.
Defined.

(** C18: every line of an ASCII text can be taken apart by the tokenizer: the
    literals in it are closed, whatever comments, continuations, trigraphs
    and escapes it is made of, no character behind the line is read, and the
    tokens come to an end, or to a diagnosed error. *)
Theorem lines_tokenize_safely c99 lx p k line lines : Forall ascii p → lexer_ok lx →
  next_line p = Ok (Some (k, line, lines)) → Z.of_nat (length line) < 2 ^ 16 →
  match tokenize_line (length line) c99 lx line with
  | Ok (lx', _) => lexer_ok lx'
  | Exit _ => True
  | Undef _ => False
  end.
Proof.
  intros Ha Hok Hl Hs. destruct (next_line_facts _ _ _ _ Hl) as (_ & _ & Hlx).
  pose proof (next_line_bytes _ _ _ _ Ha Hl) as Hb.
  apply tokenize_line_safe; [done|by split|by apply Hlx|done].
Qed.

(** C36: a line has fewer characters than are read for it, so that [rline],
    which has room for one more than the buffer holds, is not overrun; and the
    line counter counts the newlines that are read, in comments, literals and
    continuations too. *)
Theorem line_fits_and_counts p k line lines : next_line p = Ok (Some (k, line, lines)) →
  (length line < k ≤ length p)%nat ∧ ((13 ∉ p) → lines = newlines (take k p)).
Proof. intros H. destruct (next_line_facts _ _ _ _ H) as (H1 & H2 & _). done. Qed.

Definition demo_text : list Z :=
  cstr "s = " ++ [34] ++ cstr "/*\" ++ [34; 92; 10] ++ cstr "x" ++ [34] ++ cstr "; // don't" ++ [10].

Lemma lines_tokenize_safely_witness :
  next_line demo_text = Ok (Some (24%nat, cstr "s = " ++ [34] ++ cstr "/*\" ++ [34] ++ cstr "x" ++ [34] ++ cstr "; ", 2)) ∧
  let line := cstr "s = " ++ [34] ++ cstr "/*\" ++ [34] ++ cstr "x" ++ [34] ++ cstr "; " in
  match tokenize_line (length line) true lexer_start line with
  | Ok (lx', _) => lexer_ok lx'
  | Exit _ => True
  | Undef _ => False
  end.
Proof.
  split; [vm_compute; reflexivity|].
  apply (lines_tokenize_safely true lexer_start demo_text 24 _ 2);
    [vm_compute; repeat constructor|apply lexer_start_ok|vm_compute; reflexivity|vm_compute; reflexivity].
Defined.

Lemma line_fits_and_counts_witness :
  let line := cstr "s = " ++ [34] ++ cstr "/*\" ++ [34] ++ cstr "x" ++ [34] ++ cstr "; " in
  (length line < 24 ≤ length demo_text)%nat ∧ ((13 ∉ demo_text) → 2 = newlines (take 24 demo_text)).
Proof. apply line_fits_and_counts. vm_compute. reflexivity. Defined.

(** A file whose last line has no newline is never read to its end: the
    newline that is supplied replaces the terminator of the buffer and is not
    counted as read. *)
Theorem missing_newline_fails :
  initial_preprocess_line 10 (opened (cstr "int x;") str_zero 0) =
    Exit "Unable to process the whole input.".
Proof. vm_compute. reflexivity. Qed.

(** The end of an included file inside a group that is skipped: the missing
    line is examined for a directive. *)
Theorem unterminated_group_dereferences_null :
  let inner := opened [] str_zero 0 in
  let outer := opened (cstr "int y;" ++ [10]) str_zero 0 in
  getprepline 5 false (with_stack input_start [inner; outer]) = Undef "a null line".
Proof. vm_compute. reflexivity. Qed.

(** Behind a trigraph for a backslash a newline ends the line, though a
    continuation is meant; in a literal it is one. *)
Theorem trigraph_continuation :
  next_line (cstr "a ??/" ++ [10] ++ cstr "b" ++ [10]) = Ok (Some (6%nat, cstr "a \", 1)) ∧
  next_line ([34] ++ cstr "a??/" ++ [10] ++ cstr "b" ++ [34; 10]) = Ok (Some (9%nat, [34] ++ cstr "ab" ++ [34], 2)).
Proof. split; vm_compute; reflexivity. Qed.
