(* ===== verification/Ir.v ===== *)
(** * The intermediate representation (include/lacc/ir.h)

    Three-address code in basic blocks.  A pointer to a block is a number in a
    store of blocks, a pointer to a symbol a number in a store of symbols. *)

From stdpp Require Import base list gmap numbers strings.
From Stdlib Require Import ZArith Lia.
From S2P Require Import Prelude CType Strings Symbol Typetree.

Local Open Scope Z_scope.

Inductive var_kind : Set := DIRECT | ADDRESS | DEREF | IMMEDIATE.
#[export] Instance var_kind_eq_dec : EqDecision var_kind.
Proof. solve_decision. Defined.

(** [struct var]; [v_imm] are the bits of [imm]. *)
Record var : Set := Var {
  v_kind : var_kind;
  v_type : ctype;
  v_symbol : option symref;
  v_offset : Z;
  v_field_width : Z;
  v_field_offset : Z;
  v_lvalue : bool;
  v_imm : Z
}.
#[export] Instance var_eq_dec : EqDecision var.
Proof. solve_decision. Defined.

Definition is_field (v : var) : bool := negb (v_field_width v =? 0).
Definition is_constant (v : var) : bool :=
  bool_decide (v_kind v = IMMEDIATE) ||
  (bool_decide (v_kind v = DEREF) && bool_decide (v_symbol v = None)).

Inductive optype : Set :=
  | IR_OP_CAST | IR_OP_CALL | IR_OP_VA_ARG | IR_OP_NOT | IR_OP_NEG | IR_OP_ADD
  | IR_OP_SUB | IR_OP_MUL | IR_OP_DIV | IR_OP_MOD | IR_OP_AND | IR_OP_OR
  | IR_OP_XOR | IR_OP_SHL | IR_OP_SHR | IR_OP_EQ | IR_OP_NE | IR_OP_GE
  | IR_OP_GT.
#[export] Instance optype_eq_dec : EqDecision optype.
Proof. solve_decision. Defined.

Record expression : Set := Expression {
  ex_op : optype;
  ex_type : ctype;
  ex_l : var;
  ex_r : var
}.

Definition has_side_effects (e : expression) : bool :=
  match ex_op e with IR_OP_CALL | IR_OP_VA_ARG => true | _ => false end.

(** Whether the operation reads the second operand. *)
Definition binary (o : optype) : bool :=
  match o with
  | IR_OP_CAST | IR_OP_NOT | IR_OP_NEG | IR_OP_CALL | IR_OP_VA_ARG => false
  | _ => true
  end.

Inductive sttype : Set := IR_EXPR | IR_PARAM | IR_VA_START | IR_ASSIGN | IR_VLA_ALLOC.
#[export] Instance sttype_eq_dec : EqDecision sttype.
Proof. solve_decision. Defined.

(** [struct statement]; [st_out] is a set of bits. *)
Record statement : Set := Statement {
  st_st : sttype;
  st_out : Z;
  st_t : var;
  st_expr : expression
}.

Definition bref : Set := N.

Record jump_pair : Set := JumpPair {
  jp_value : Z;
  jp_label : bref;
  jp_symbol : symref
}.

Inductive color : Set := WHITE | BLACK.
#[export] Instance color_eq_dec : EqDecision color.
Proof. solve_decision. Defined.

Record block : Set := Block {
  b_label : option symref;
  b_code : list statement;
  b_expr : expression;
  b_jump0 : option bref;
  b_jump1 : option bref;
  b_has_jump_table : bool;
  b_table_offset : var;
  b_jump_table : list jump_pair;
  b_body : option bref;
  b_has_return_value : bool;
  b_has_init_value : bool;
  b_color : color;
  b_in : Z;
  b_out : Z
}.

Definition set_code (b : block) (c : list statement) : block :=
  Block (b_label b) c (b_expr b) (b_jump0 b) (b_jump1 b) (b_has_jump_table b) (b_table_offset b)
    (b_jump_table b) (b_body b) (b_has_return_value b) (b_has_init_value b) (b_color b) (b_in b) (b_out b).
Definition set_live (b : block) (c : list statement) (i o : Z) : block :=
  Block (b_label b) c (b_expr b) (b_jump0 b) (b_jump1 b) (b_has_jump_table b) (b_table_offset b)
    (b_jump_table b) (b_body b) (b_has_return_value b) (b_has_init_value b) (b_color b) i o.
Definition set_color (b : block) (c : color) : block :=
  Block (b_label b) (b_code b) (b_expr b) (b_jump0 b) (b_jump1 b) (b_has_jump_table b)
    (b_table_offset b) (b_jump_table b) (b_body b) (b_has_return_value b) (b_has_init_value b) c (b_in b) (b_out b).
Definition set_jump (b : block) (i : bool) (j : bref) : block :=
  Block (b_label b) (b_code b) (b_expr b) (if i then b_jump0 b else Some j)
    (if i then Some j else b_jump1 b) (b_has_jump_table b) (b_table_offset b) (b_jump_table b)
    (b_body b) (b_has_return_value b) (b_has_init_value b) (b_color b) (b_in b) (b_out b).
Definition set_st (s : statement) (k : sttype) : statement :=
  Statement k (st_out s) (st_t s) (st_expr s).
Definition set_target (s : statement) (t : var) : statement :=
  Statement (st_st s) (st_out s) t (st_expr s).
Definition set_out (s : statement) (o : Z) : statement :=
  Statement (st_st s) o (st_t s) (st_expr s).

(** The stores behind the pointers. *)
Abbreviation blocks := (gmap bref block).
Abbreviation symbols := (gmap symref symbol).

Definition get_block (bs : blocks) (b : bref) : outcome block := defined "no block" (bs !! b).
Definition get_symbol (ys : symbols) (s : option symref) : outcome symbol :=
  match s with
  | None => Undef "null symbol"
  | Some s => defined "no symbol" (ys !! s)
  end.

(** [is_identity], with the depth of [type_equal]. *)
Definition is_identity (fuel : nat) (ts : typetab) (e : expression) : outcome bool :=
  if bool_decide (ex_op e = IR_OP_CAST) then type_equal fuel ts (ex_type e) (v_type (ex_l e))
  else Ok false.
