(* ===== verification/Liveness.v ===== *)
(** * Live variables (src/optimizer/liveness.c)

    The 64-bit sets of symbols read and written by a statement, and the
    transfer function of a block. *)

From stdpp Require Import base list gmap numbers strings.
From Stdlib Require Import ZArith Lia.
From S2P Require Import Prelude CType Strings Symbol Typetree Ir.

Local Open Scope Z_scope.

(** [0xFFFFFFFFFFFFFFFFul] and [1ul << (index - 1)]. *)
Definition all_bits : Z := 2 ^ 64 - 1.
Definition bit_of (y : symbol) : outcome Z :=
  if (1 <=? sym_index y) && (sym_index y <=? 64) then Ok (Z.shiftl 1 (sym_index y - 1))
  else Undef "shift out of range".

Definition set_def_bit (ys : symbols) (v : var) : outcome Z :=
  match v_kind v with
  | DIRECT =>
      y ← get_symbol ys (v_symbol v);
      if is_scalar (sym_type y) && negb (sym_index y =? 0) then bit_of y else Ok 0
  | _ => Ok 0
  end.

Definition set_use_bit (ys : symbols) (v : var) : outcome Z :=
  match v_kind v with
  | DEREF => Ok all_bits
  | DIRECT | ADDRESS =>
      y ← get_symbol ys (v_symbol v);
      if is_object (sym_type y) then
        _ ← c_assert (negb (sym_index y =? 0)); bit_of y
      else Ok 0
  | IMMEDIATE =>
      match v_symbol v with
      | None => Ok 0
      | Some s =>
          y ← get_symbol ys (Some s);
          _ ← c_assert (bool_decide (sym_symtype y = SYM_STRING_VALUE)
                        || bool_decide (sym_symtype y = SYM_CONSTANT));
          _ ← c_assert (negb (sym_index y =? 0));
          bit_of y
      end
  end.

Definition use (ys : symbols) (e : expression) : outcome Z :=
  r ← (if binary (ex_op e) then set_use_bit ys (ex_r e) else Ok 0);
  l ← set_use_bit ys (ex_l e);
  Ok (Z.lor r l).

(** [is_or_has_pointer], [fuel] structs deep. *)
Fixpoint any_member (f : ctype → outcome bool) (l : list member) : outcome bool :=
  match l with
  | [] => Ok false
  | m :: l => b ← f (m_type m); if b : bool then Ok true else any_member f l
  end.
Fixpoint is_or_has_pointer (fuel : nat) (ts : typetab) (t : ctype) : outcome bool :=
  match fuel with
  | O => out_of_depth
  | S fuel =>
      if is_pointer t then Ok true
      else if is_struct_or_union t then
        h ← get_typetree_handle ts (t_ref t);
        any_member (is_or_has_pointer fuel ts) (tt_members h)
      else Ok false
  end.

Definition set_kind (v : var) (k : var_kind) : var :=
  Var k (v_type v) (v_symbol v) (v_offset v) (v_field_width v) (v_field_offset v) (v_lvalue v) (v_imm v).

Section liveness.
Variable fuel : nat.
Variable ts : typetab.
Variable ys : symbols.

Definition uses (s : statement) : outcome Z :=
  r ← use ys (st_expr s);
  match st_st s with
  | IR_ASSIGN =>
      if bool_decide (v_kind (st_t s) = DEREF) && negb (bool_decide (v_symbol (st_t s) = None)) then
        u ← set_use_bit ys (set_kind (st_t s) DIRECT); Ok (Z.lor r u)
      else Ok r
  | IR_PARAM =>
      p ← is_or_has_pointer fuel ts (ex_type (st_expr s));
      Ok (if p : bool then Z.lor r all_bits else r)
  | _ => Ok r
  end.

Definition def (s : statement) : outcome Z :=
  match st_st s with IR_ASSIGN => set_def_bit ys (st_t s) | _ => Ok 0 end.

(** [(out & ~def(s)) | uses(s)]. *)
Definition transfer (s : statement) (out : Z) : outcome Z :=
  d ← def s; u ← uses s; Ok (Z.lor (Z.ldiff out d) u).

(** The loop over the statements from the last to the first: their new
    [out] sets and the set in front of them. *)
Fixpoint flow (code : list statement) (out : Z) : outcome (list statement * Z) :=
  match code with
  | [] => Ok ([], out)
  | s :: code =>
      '(code, o) ← flow code out;
      i ← transfer s o;
      Ok (set_out s o :: code, i)
  end.

(** The liveness transferred from the targets of a block. *)
Definition out_of_jumps (bs : blocks) (b : block) : outcome Z :=
  match b_jump0 b with
  | None => Ok 0
  | Some j0 =>
      t0 ← get_block bs j0;
      match b_jump1 b with
      | None => Ok (b_in t0)
      | Some j1 => t1 ← get_block bs j1; Ok (Z.lor (b_in t0) (b_in t1))
      end
  end.

(** What is live behind the last statement: a branch and a return read
    [expr]. *)
Definition exit_live (b : block) (out : Z) : outcome Z :=
  if negb (bool_decide (b_jump1 b = None)) || b_has_return_value b then
    u ← use ys (b_expr b); Ok (Z.lor out u)
  else Ok out.

Definition live_variable_analysis (bs : blocks) (r : bref) : outcome (blocks * Z) :=
  b ← get_block bs r;
  out ← out_of_jumps bs b;
  e ← exit_live b out;
  '(code, i) ← flow (b_code b) e;
  Ok (<[r := set_live b code i out]> bs, if i =? b_in b then 0 else 1).

End liveness.
