(* ===== verification/Optimize.v ===== *)
(** * The optimizer (src/optimizer/optimize.c, src/optimizer/transform.c)

    Serialization of the flow graph, enumeration of the symbols, the iterative
    data-flow solver, and the two transformations: dead stores and chained
    assignments.  Loops without a bound of their own take fuel. *)

From stdpp Require Import base list gmap numbers strings.
From Stdlib Require Import ZArith Lia.
From S2P Require Import Prelude CType Strings Symbol Typetree Ir Liveness.

Local Open Scope Z_scope.

Definition endless {A} : outcome A := Undef "loop out of fuel".

Section optimize.
Variable fuel : nat.
Variable ts : typetab.
(** [optimization_level]. *)
Variable level : Z.

(** ** The flow graph *)

(** [serialize_basic_blocks]: the blocks and [blocklist]. *)
Fixpoint serialize_basic_blocks (n : nat) (bs : blocks) (vl : list bref) (r : bref) :
    outcome (blocks * list bref) :=
  match n with
  | O => endless
  | S n =>
      b ← get_block bs r;
      match b_color b with
      | BLACK => Ok (bs, vl)
      | WHITE =>
          let bs := <[r := set_color b BLACK]> bs in
          let vl := vl ++ [r] in
          match b_jump0 b with
          | None => Ok (bs, vl)
          | Some j0 =>
              '(bs, vl) ← serialize_basic_blocks n bs vl j0;
              match b_jump1 b with
              | None => Ok (bs, vl)
              | Some j1 => serialize_basic_blocks n bs vl j1
              end
          end
      end
  end.

(** [initialize_dataflow]. *)
Definition clear_block (b : block) : block :=
  set_live b ((λ s, set_out s 0) <$> b_code b) 0 0.
Fixpoint initialize_dataflow (bs : blocks) (vl : list bref) : outcome blocks :=
  match vl with
  | [] => Ok bs
  | r :: vl => b ← get_block bs r; initialize_dataflow (<[r := clear_block b]> bs) vl
  end.

Definition color_white (bs : blocks) (r : bref) : outcome blocks :=
  b ← get_block bs r; Ok (<[r := set_color b WHITE]> bs).

(** The [do]-loop of [skip_empty_blocks] for the target [i]. *)
Definition target (b : block) (i : bool) : option bref := if i then b_jump1 b else b_jump0 b.
Fixpoint skip_loop (n : nat) (bs : blocks) (r : bref) (i : bool) : outcome blocks :=
  match n with
  | O => endless
  | S n =>
      b ← get_block bs r;
      match target b i with
      | None => Undef "null block"
      | Some j =>
          next ← get_block bs j;
          match b_code next, b_jump0 next, b_jump1 next with
          | [], Some k, None => skip_loop n (<[r := set_jump b i k]> bs) r i
          | _, _, _ => Ok bs
          end
      end
  end.
Definition skip_empty_blocks (n : nat) (bs : blocks) (r : bref) : outcome blocks :=
  b ← get_block bs r;
  match b_jump0 b with
  | None => Ok bs
  | Some _ =>
      bs ← skip_loop n bs r false;
      b ← get_block bs r;
      match b_jump1 b with None => Ok bs | Some _ => skip_loop n bs r true end
  end.

(** ** Symbols *)

Definition set_index (y : symbol) (i : Z) : symbol :=
  Symbol (sym_name y) (sym_type y) (sym_symtype y) (sym_linkage y) (sym_referenced y) (sym_slot y)
    i (sym_n y) (sym_depth y) (sym_stack_offset y) (sym_global_offset y) (sym_value y).

(** [count_symbol]: the symbols, the vl [symbols] and the count. *)
Definition count_symbol (ys : symbols) (vl : list symref) (s : option symref) :
    outcome (symbols * list symref * Z) :=
  match s with
  | None => Ok (ys, vl, 0)
  | Some r =>
      y ← get_symbol ys s;
      if is_object (sym_type y) then
        if sym_index y =? 0 then
          let len := Z.of_nat (length vl) in
          if len <? 64 then Ok (<[r := set_index y (len + 1)]> ys, vl ++ [r], 1)
          else Ok (ys, vl, 0)
        else Ok (ys, vl, 0)
      else
        _ ← c_assert (sym_index y =? 0); Ok (ys, vl, 0)
  end.

Definition count_expression (ys : symbols) (vl : list symref) (e : expression) :
    outcome (symbols * list symref * Z) :=
  '(ys, vl, n) ← (if binary (ex_op e) then count_symbol ys vl (v_symbol (ex_r e))
                    else Ok (ys, vl, 0));
  '(ys, vl, k) ← count_symbol ys vl (v_symbol (ex_l e));
  Ok (ys, vl, n + k).

Fixpoint count_code (ys : symbols) (vl : list symref) (code : list statement) :
    outcome (symbols * list symref * Z) :=
  match code with
  | [] => Ok (ys, vl, 0)
  | s :: code =>
      '(ys, vl, n) ← count_expression ys vl (st_expr s);
      '(ys, vl, k) ← (if bool_decide (st_st s = IR_ASSIGN)
                        then count_symbol ys vl (v_symbol (st_t s)) else Ok (ys, vl, 0));
      '(ys, vl, m) ← count_code ys vl code;
      Ok (ys, vl, n + k + m)
  end.

Definition enumerate_used_symbols (ys : symbols) (vl : list symref) (b : block) :
    outcome (symbols * list symref * Z) :=
  '(ys, vl, n) ← count_code ys vl (b_code b);
  '(ys, vl, k) ← (if b_has_return_value b || negb (bool_decide (b_jump1 b = None))
                    then count_expression ys vl (b_expr b) else Ok (ys, vl, 0));
  Ok (ys, vl, n + k).

Fixpoint enumerate_all (ys : symbols) (bs : blocks) (vl : list symref) (rs : list bref) :
    outcome (symbols * list symref * Z) :=
  match rs with
  | [] => Ok (ys, vl, 0)
  | r :: rs =>
      b ← get_block bs r;
      '(ys, vl, n) ← enumerate_used_symbols ys vl b;
      '(ys, vl, k) ← enumerate_all ys bs vl rs;
      Ok (ys, vl, n + k)
  end.

Fixpoint reset_symbol_indexes (ys : symbols) (vl : list symref) : outcome symbols :=
  match vl with
  | [] => Ok ys
  | r :: vl =>
      y ← get_symbol ys (Some r);
      _ ← c_assert (negb (sym_index y =? 0));
      reset_symbol_indexes (<[r := set_index y 0]> ys) vl
  end.

(** ** The solver *)

(** [traverse] of a callback that changes the blocks. *)
Fixpoint traverse (f : blocks → bref → outcome (blocks * Z)) (bs : blocks) (rs : list bref) :
    outcome (blocks * Z) :=
  match rs with
  | [] => Ok (bs, 0)
  | r :: rs => '(bs, n) ← f bs r; '(bs, k) ← traverse f bs rs; Ok (bs, n + k)
  end.

Fixpoint execute_iterative_dataflow (n : nat) (f : blocks → bref → outcome (blocks * Z))
    (bs : blocks) (rs : list bref) : outcome blocks :=
  match n with
  | O => endless
  | S n =>
      '(bs, changes) ← traverse f bs rs;
      if changes =? 0 then Ok bs else execute_iterative_dataflow n f bs rs
  end.

Definition is_live_after (ys : symbols) (s : option symref) (st : statement) : outcome bool :=
  y ← get_symbol ys s;
  if negb (level =? 0) && is_object (sym_type y) then
    _ ← c_assert (negb (sym_index y =? 0));
    b ← bit_of y;
    Ok (negb (Z.land (st_out st) b =? 0))
  else Ok true.

(** ** Transformations *)

Definition is_dead_store (ys : symbols) (s : statement) : outcome bool :=
  if bool_decide (st_st s = IR_ASSIGN) && bool_decide (v_kind (st_t s) = DIRECT) then
    l ← is_live_after ys (v_symbol (st_t s)) s;
    y ← get_symbol ys (v_symbol (st_t s));
    Ok (negb l && bool_decide (sym_linkage y = LINK_NONE))
  else Ok false.

(** The loop of [dead_store_elimination]: the new code and the count. *)
Fixpoint eliminate (ys : symbols) (code : list statement) : outcome (list statement * Z) :=
  match code with
  | [] => Ok ([], 0)
  | s :: code =>
      dead ← is_dead_store ys s;
      '(code, c) ← eliminate ys code;
      Ok (if dead : bool then
            (if has_side_effects (st_expr s) then set_st s IR_EXPR :: code else code, c + 1)
          else (s :: code, c))
  end.
Definition dead_store_elimination (ys : symbols) (bs : blocks) (r : bref) : outcome (blocks * Z) :=
  b ← get_block bs r;
  '(code, c) ← eliminate ys (b_code b);
  Ok (<[r := set_code b code]> bs, c).

Definition var_equal (a b : var) : outcome bool :=
  e ← type_equal fuel ts (v_type a) (v_type b);
  Ok (e && bool_decide (v_symbol a = v_symbol b) && bool_decide (v_kind a = v_kind b)
      && (v_field_width a =? v_field_width b) && (v_field_offset a =? v_field_offset b)
      && (v_offset a =? v_offset b)).

Definition can_merge (ys : symbols) (s1 s2 : statement) : outcome bool :=
  if negb (bool_decide (st_st s1 = IR_ASSIGN)) then Ok false
  else if negb (bool_decide (st_st s2 = IR_ASSIGN)) then Ok false
  else
    i ← is_identity fuel ts (st_expr s2);
    if negb i then Ok false
    else
      e ← var_equal (st_t s1) (ex_l (st_expr s2));
      if negb e then Ok false
      else
        e ← type_equal fuel ts (v_type (st_t s1)) (v_type (st_t s2));
        if negb e then Ok false
        else if negb (bool_decide (v_kind (st_t s1) = DIRECT)) then Ok false
        else
          y ← get_symbol ys (v_symbol (st_t s1));
          if negb (bool_decide (sym_linkage y = LINK_NONE)) then Ok false
          else l ← is_live_after ys (v_symbol (st_t s1)) s2; Ok (negb l).

(** The loop of [merge_chained_assignment], from the statement [s1]. *)
Fixpoint merge (ys : symbols) (s1 : statement) (code : list statement) : outcome (list statement) :=
  match code with
  | [] => Ok [s1]
  | s2 :: code =>
      m ← can_merge ys s1 s2;
      if m : bool then merge ys (set_target s1 (st_t s2)) code
      else code ← merge ys s2 code; Ok (s1 :: code)
  end.
Definition merge_chained_assignment (ys : symbols) (bs : blocks) (r : bref) : outcome (blocks * Z) :=
  b ← get_block bs r;
  match b_code b with
  | s1 :: ((_ :: _) as code) =>
      code ← merge ys s1 code; Ok (<[r := set_code b code]> bs, 0)
  | _ => Ok (bs, 0)
  end.

(** ** The whole *)

(** The [do]-loop of [optimize]. *)
Fixpoint optimize_loop (n : nat) (ys : symbols) (bs : blocks) (rs : list bref) : outcome blocks :=
  match n with
  | O => endless
  | S n =>
      bs ← execute_iterative_dataflow (S n) (live_variable_analysis fuel ts ys) bs rs;
      '(bs, c) ← traverse (dead_store_elimination ys) bs rs;
      '(bs, d) ← traverse (merge_chained_assignment ys) bs rs;
      if c + d =? 0 then Ok bs else optimize_loop n ys bs rs
  end.

Definition lift (f : blocks → bref → outcome blocks) (bs : blocks) (r : bref) : outcome (blocks * Z) :=
  bs ← f bs r; Ok (bs, 0).

(** [optimize] of the function [symbol] whose first block is [body]. *)
Definition optimize (n : nat) (ys : symbols) (bs : blocks) (symbol : option symref) (body : bref) :
    outcome (symbols * blocks) :=
  y ← get_symbol ys symbol;
  if (level =? 0) || negb (is_function (sym_type y)) then Ok (ys, bs)
  else
    '(bs, rs) ← serialize_basic_blocks n bs [] body;
    '(bs, _) ← traverse (lift (skip_empty_blocks n)) bs rs;
    '(ys, vl, syms) ← enumerate_all ys bs [] rs;
    bs ← (if syms <? 64 then
            bs ← initialize_dataflow bs rs;
            optimize_loop n ys bs rs
          else Ok bs);
    ys ← reset_symbol_indexes ys vl;
    '(bs, _) ← traverse (lift color_white) bs rs;
    Ok (ys, bs).

End optimize.
