(* ===== verification/IrSem.v ===== *)
(** * Meaning of the intermediate representation

    The specification the optimizer is held to, read off the comments of
    include/lacc/ir.h: a value is a list of bytes, a symbol has a place in
    memory, and a function runs from block to block.  Reading and writing
    bit-fields, the operators, the tests of branches and the called functions
    are the [machine].  [IR_VA_START], [IR_VLA_ALLOC], [va_arg] and jump tables
    have no meaning here: a run that meets one has no result. *)

From stdpp Require Import base list gmap numbers strings.
From Stdlib Require Import ZArith Lia.
From S2P Require Import Prelude Memory CType Strings Symbol Typetree Ir Liveness.

Local Open Scope Z_scope.

Record machine : Type := Machine {
  addr : symref → Z;
  operate : expression → list Z → list Z → option (list Z);
  extract_bits : var → list Z → list Z;
  insert_bits : var → list Z → list Z → list Z;
  test : expression → list Z → bool;
  callee : mem → list Z → ctype → list (ctype * list Z) → option (mem * list Z)
}.

(** Memory and the parameters pushed for the next call. *)
Definition state : Type := mem * list (ctype * list Z).

Section semantics.
Variable fuel : nat.
Variable ts : typetab.
Variable ys : symbols.
Variable M : machine.

Definition bytes_of (t : ctype) : option nat :=
  match size_of fuel ts t with Ok n => Some (Z.to_nat n) | _ => None end.

(** The address of the storage a variable stands for. *)
Definition location (m : mem) (v : var) : option Z :=
  match v_kind v, v_symbol v with
  | DIRECT, Some s => Some (addr M s + v_offset v)
  | DEREF, Some s => p ← mread m (addr M s) 8; Some (wrap_u 64 (le_dec p + v_offset v))
  | DEREF, None => Some (wrap_u 64 (v_imm v + v_offset v))
  | _, _ => None
  end.

Definition fetch (m : mem) (a : Z) (v : var) : option (list Z) :=
  n ← bytes_of (v_type v);
  bs ← mread m a n;
  Some (if is_field v then extract_bits M v bs else bs).

Definition is_string (s : symref) : bool :=
  match ys !! s with Some y => bool_decide (sym_symtype y = SYM_STRING_VALUE) | None => false end.

Definition eval (m : mem) (v : var) : option (list Z) :=
  match v_kind v, v_symbol v with
  | ADDRESS, Some s => Some (le_enc 8 (addr M s + v_offset v))
  | ADDRESS, None => None
  | IMMEDIATE, Some s =>
      if is_string s then
        if is_pointer (v_type v) then Some (le_enc 8 (addr M s + v_offset v))
        else fetch m (addr M s + v_offset v) v
      else n ← bytes_of (v_type v); Some (le_enc n (v_imm v))
  | IMMEDIATE, None => n ← bytes_of (v_type v); Some (le_enc n (v_imm v))
  | _, _ => a ← location m v; fetch m a v
  end.

(** [t = bs]; a bit-field keeps the other bits of its storage. *)
Definition store (m : mem) (t : var) (bs : list Z) : option mem :=
  a ← location m t;
  n ← bytes_of (v_type t);
  old ← mread m a n;
  let new := if is_field t then insert_bits M t old bs else bs in
  if decide (length new = n) then mwrite m a new else None.

Definition compute (σ : state) (e : expression) : option (state * list Z) :=
  let '(m, ps) := σ in
  match ex_op e with
  | IR_OP_VA_ARG => None
  | IR_OP_CALL =>
      f ← eval m (ex_l e);
      '(m, v) ← callee M m f (ex_type e) ps;
      Some ((m, []), v)
  | _ =>
      l ← eval m (ex_l e);
      r ← (if binary (ex_op e) then eval m (ex_r e) else Some []);
      v ← operate M e l r;
      Some ((m, ps), v)
  end.

Definition exec (σ : state) (s : statement) : option state :=
  match st_st s with
  | IR_EXPR => '(σ, _) ← compute σ (st_expr s); Some σ
  | IR_PARAM =>
      '(σ, v) ← compute σ (st_expr s);
      Some (σ.1, σ.2 ++ [(ex_type (st_expr s), v)])
  | IR_ASSIGN => '(σ, v) ← compute σ (st_expr s); m ← store σ.1 (st_t s) v; Some (m, σ.2)
  | IR_VA_START | IR_VLA_ALLOC => None
  end.

Fixpoint exec_code (σ : state) (code : list statement) : option state :=
  match code with
  | [] => Some σ
  | s :: code => σ ← exec σ s; exec_code σ code
  end.

(** How a block ends: in a return, or at the next block. *)
Definition leave (σ : state) (b : block) : option (mem * (option (list Z) + bref)) :=
  match b_jump0 b, b_jump1 b with
  | None, _ =>
      if b_has_return_value b then
        '(σ, v) ← compute σ (b_expr b);
        if decide (σ.2 = []) then Some (σ.1, inl (Some v)) else None
      else if decide (σ.2 = []) then Some (σ.1, inl None) else None
  | Some j0, None => if decide (σ.2 = []) then Some (σ.1, inr j0) else None
  | Some j0, Some j1 =>
      '(σ, v) ← compute σ (b_expr b);
      if decide (σ.2 = []) then
        Some (σ.1, inr (if test M (b_expr b) v then j1 else j0))
      else None
  end.

Definition exec_block (m : mem) (b : block) : option (mem * (option (list Z) + bref)) :=
  if b_has_jump_table b then None else σ ← exec_code (m, []) (b_code b); leave σ b.

(** [n] blocks of a function: its memory at the end and what it returns. *)
Fixpoint run (n : nat) (bs : blocks) (r : bref) (m : mem) : option (mem * option (list Z)) :=
  match n with
  | O => None
  | S n =>
      b ← bs !! r;
      '(m, k) ← exec_block m b;
      match k with inl v => Some (m, v) | inr r => run n bs r m end
  end.

(** ** What the optimizer may assume *)

(** Parameters through which the callee may reach the locals. *)
Definition reaching (ps : list (ctype * list Z)) : bool :=
  existsb (λ p, negb (match is_or_has_pointer fuel ts p.1 with Ok false => true | _ => false end)) ps.

(** The storage of the local symbols that are not in the set [L]. *)
Definition hidden (L a : Z) : Prop := ∃ s y n,
  ys !! s = Some y ∧ sym_linkage y = LINK_NONE ∧ 1 ≤ sym_index y ≤ 64 ∧
  Z.testbit L (sym_index y - 1) = false ∧ bytes_of (sym_type y) = Some n ∧
  addr M s ≤ a < addr M s + Z.of_nat n.

(** Two memories that differ in hidden bytes only. *)
Definition agree (L : Z) (m m' : mem) : Prop :=
  dom m = dom m' ∧ ∀ a, ¬ hidden L a → m !! a = m' !! a.

(** Two states that agree; behind parameters that reach the locals, nothing
    is hidden. *)
Definition sagree (L : Z) (σ σ' : state) : Prop :=
  σ.2 = σ'.2 ∧ agree (if reaching σ.2 then all_bits else L) σ.1 σ'.1.

(** An access stays inside the symbol it names. *)
Definition inside (s : symref) (o : Z) (t : ctype) : Prop := ∃ y n k,
  ys !! s = Some y ∧ bytes_of (sym_type y) = Some n ∧ bytes_of t = Some k ∧
  0 ≤ o ∧ o + Z.of_nat k ≤ Z.of_nat n.

Definition access_ok (v : var) : Prop :=
  match v_kind v, v_symbol v with
  | DIRECT, Some s => inside s (v_offset v) (v_type v)
  | DEREF, Some s => ∃ y n, ys !! s = Some y ∧ bytes_of (sym_type y) = Some n ∧ (8 ≤ n)%nat
  | IMMEDIATE, Some s =>
      is_string s = true → is_pointer (v_type v) = false → inside s (v_offset v) (v_type v)
  | _, _ => True
  end.

(** A direct store to a scalar symbol writes all of it. *)
Definition whole (t : var) : Prop :=
  v_kind t = DIRECT → ∀ s y, v_symbol t = Some s → ys !! s = Some y →
  is_scalar (sym_type y) = true → 1 ≤ sym_index y →
  v_offset t = 0 ∧ is_field t = false ∧ bytes_of (v_type t) = bytes_of (sym_type y).

Definition expr_ok (e : expression) : Prop :=
  access_ok (ex_l e) ∧ (binary (ex_op e) = true → access_ok (ex_r e)).
Definition statement_ok (s : statement) : Prop :=
  expr_ok (st_expr s) ∧ (st_st s = IR_ASSIGN → access_ok (st_t s) ∧ whole (st_t s)).
Definition block_ok (b : block) : Prop :=
  Forall statement_ok (b_code b) ∧ expr_ok (b_expr b).

(** The machine: symbols have their own storage and their own index; the
    bytes of a bit-field's storage change one by one; and a function that gets
    no pointer neither sees nor changes the caller's locals. *)
Record lawful : Prop := Lawful {
  places : ∀ s y n s' y' n' a,
    ys !! s = Some y → bytes_of (sym_type y) = Some n → addr M s ≤ a < addr M s + Z.of_nat n →
    ys !! s' = Some y' → bytes_of (sym_type y') = Some n' → addr M s' ≤ a < addr M s' + Z.of_nat n' →
    s = s';
  indexes : ∀ s y s' y',
    ys !! s = Some y → ys !! s' = Some y' → 1 ≤ sym_index y → sym_index y = sym_index y' → s = s';
  insert_local : ∀ v old old' new i,
    length old = length old' → old !! i = old' !! i →
    insert_bits M v old new !! i = insert_bits M v old' new !! i;
  insert_length : ∀ v old old' new,
    length old = length old' → length (insert_bits M v old new) = length (insert_bits M v old' new);
  frame : ∀ m m' f t ps m1 v,
    reaching ps = false → agree 0 m m' → callee M m f t ps = Some (m1, v) →
    ∃ m1', callee M m' f t ps = Some (m1', v) ∧ dom m1 = dom m ∧ dom m1' = dom m' ∧
      (∀ a, hidden 0 a → m1 !! a = m !! a ∧ m1' !! a = m' !! a) ∧
      (∀ a, ¬ hidden 0 a → m1 !! a = m1' !! a)
}.

End semantics.
