(* ===== verification/LivenessProps.v ===== *)
(** * Live variables: what the analysis guarantees

    The sets of bits as sets, memories that agree on the live symbols, and
    the execution of one statement in two such memories. *)

From stdpp Require Import base list gmap numbers strings.
From Stdlib Require Import ZArith Lia.
From S2P Require Import Prelude Memory CType Strings Symbol Typetree Ir Liveness IrSem.

Local Open Scope Z_scope.

(** ** Sets of bits *)

Definition bits (a b : Z) : Prop := ∀ i, 0 ≤ i → Z.testbit a i = true → Z.testbit b i = true.

Lemma bits_refl a : bits a a.
Proof. by intros i. Qed.
Lemma bits_trans a b c : bits a b → bits b c → bits a c.
Proof. intros H K i Hi Ha. auto. Qed.
Lemma bits_0 a : bits 0 a.
Proof. intros i _ H. by rewrite Z.testbit_0_l in H. Qed.
Lemma bits_lor a b c : bits (Z.lor a b) c ↔ bits a c ∧ bits b c.
Proof.
  split.
  - intros H. split; intros i Hi Hb; apply H; try done; rewrite Z.lor_spec, Hb; [done|by rewrite orb_comm].
  - intros [H K] i Hi. rewrite Z.lor_spec, orb_true_iff. intros [?|?]; auto.
Qed.
Lemma bits_lor_l a b : bits a (Z.lor a b).
Proof. intros i Hi H. by rewrite Z.lor_spec, H. Qed.
Lemma bits_lor_r a b : bits b (Z.lor a b).
Proof. intros i Hi H. by rewrite Z.lor_spec, H, orb_comm. Qed.
Lemma bits_ldiff a b d : bits a b → bits (Z.ldiff a d) (Z.ldiff b d).
Proof.
  intros H i Hi. rewrite !Z.ldiff_spec, !andb_true_iff. intros [? ?]. auto.
Qed.
Lemma bits_lor_mono a b c d : bits a b → bits c d → bits (Z.lor a c) (Z.lor b d).
Proof. intros H K i Hi. rewrite !Z.lor_spec, !orb_true_iff. intros [?|?]; auto. Qed.

Lemma testbit_all i : 0 ≤ i < 64 → Z.testbit all_bits i = true.
Proof. intros. change all_bits with (Z.ones 64). apply Z.ones_spec_low. lia. Qed.
Lemma testbit_bit_of y b i : bit_of y = Ok b → 0 ≤ i →
  Z.testbit b i = bool_decide (i = sym_index y - 1) ∧ 1 ≤ sym_index y ≤ 64.
Proof.
  unfold bit_of. destruct ((1 <=? sym_index y) && _) eqn:E; [|done]. intros H Hi.
  apply andb_true_iff in E as [E1%Z.leb_le E2%Z.leb_le]. injection H as <-. split; [|lia].
  rewrite Z.shiftl_1_l, Z.pow2_bits_eqb by lia. case_bool_decide; [subst; apply Z.eqb_refl|].
  apply Z.eqb_neq. congruence.
Qed.

Lemma bit_of_live y b L : bit_of y = Ok b → bits b L → Z.testbit L (sym_index y - 1) = true.
Proof.
  intros H HL. destruct (decide (1 ≤ sym_index y)) as [Hi|Hi].
  - apply HL; [lia|]. destruct (testbit_bit_of _ _ (sym_index y - 1) H) as [-> _]; [lia|].
    by apply bool_decide_eq_true_2.
  - unfold bit_of in H. destruct (Z.leb_spec 1 (sym_index y)); [lia|done].
Qed.

Create HintDb bits.
(** The lemmas that take sets of bits apart. *)
#[export] Hint Resolve bits_refl bits_0 bits_lor_l bits_lor_r bits_ldiff bits_lor_mono : bits.

Section agreement.
Context {fuel : nat} {ts : typetab} {ys : symbols} {M : machine}.
Context (HM : lawful fuel ts ys M).

Local Abbreviation hidden := (hidden fuel ts ys M).
Local Abbreviation agree := (agree fuel ts ys M).
Local Abbreviation sagree := (sagree fuel ts ys M).
Local Abbreviation bytes_of := (bytes_of fuel ts).

(** ** Memories that agree *)

Lemma hidden_mono L L' a : bits L' L → hidden L a → hidden L' a.
Proof.
  intros HL (s & y & n & ? & ? & Hi & Hb & ? & ?). exists s, y, n. repeat split; try done; try lia.
  destruct (Z.testbit L' (sym_index y - 1)) eqn:E; [|done].
  apply HL in E; [congruence|lia].
Qed.

Lemma hidden_all a : ¬ hidden all_bits a.
Proof. intros (s & y & n & ? & ? & Hi & Hb & ?). rewrite testbit_all in Hb by lia. done. Qed.

#[export] Instance agree_equiv L : Equivalence (agree L).
Proof.
  split; [intros m; by split| |].
  - intros m m' [Hd H]. split; [done|]. intros a Ha. symmetry. auto.
  - intros m m' m'' [Hd H] [Hd' H']. split; [congruence|]. intros a Ha. rewrite H by done. auto.
Qed.

Lemma agree_mono L L' m m' : bits L' L → agree L m m' → agree L' m m'.
Proof. intros HL [Hd H]. split; [done|]. intros a Ha. apply H. eauto using hidden_mono. Qed.

Lemma agree_all m m' : agree all_bits m m' → m = m'.
Proof. intros [_ H]. apply map_eq. intros a. apply H, hidden_all. Qed.

Lemma sagree_refl L σ : sagree L σ σ.
Proof. split; [done|]. reflexivity. Qed.
Lemma sagree_trans L σ σ' σ'' : sagree L σ σ' → sagree L σ' σ'' → sagree L σ σ''.
Proof. intros [E H] [E' H']. split; [congruence|]. rewrite <-E in H'. by etrans. Qed.
Lemma sagree_mono L L' σ σ' : bits L' L → sagree L σ σ' → sagree L' σ σ'.
Proof.
  intros HL [E H]. split; [done|]. destruct (reaching fuel ts σ.2); [done|].
  by eapply agree_mono.
Qed.
Lemma sagree_nil L m m' : agree L m m' → sagree L (m, []) (m', []).
Proof. by split. Qed.
Lemma agree_of_sagree L σ σ' : bits L all_bits → sagree L σ σ' → agree L σ.1 σ'.1.
Proof. intros HL [E H]. destruct (reaching fuel ts σ.2); [|done]. by eapply agree_mono. Qed.

(** Reading where nothing is hidden, and where a live symbol is. *)
Lemma agree_read L m m' a n :
  agree L m m' → (∀ x, a ≤ x < a + Z.of_nat n → ¬ hidden L x) → mread m a n = mread m' a n.
Proof. intros [_ H] Hx. apply mread_ext. auto. Qed.

Lemma live_visible L s y n x :
  ys !! s = Some y → bytes_of (sym_type y) = Some n → Z.testbit L (sym_index y - 1) = true →
  addr M s ≤ x < addr M s + Z.of_nat n → ¬ hidden L x.
Proof.
  intros Hy Hn Hb Hx (s' & y' & n' & Hy' & _ & _ & Hb' & Hn' & Hx').
  pose proof (places _ _ _ _ HM _ _ _ _ _ _ _ Hy Hn Hx Hy' Hn' Hx') as <-. congruence.
Qed.

Lemma inside_visible L s y o t k :
  ys !! s = Some y → inside fuel ts ys s o t → Z.testbit L (sym_index y - 1) = true →
  bytes_of t = Some k → ∀ x, addr M s + o ≤ x < addr M s + o + Z.of_nat k → ¬ hidden L x.
Proof.
  intros Hy (y' & n & k' & Hy' & Hn & Hk' & Ho & Hok) Hb Hk x Hx.
  eapply (live_visible L s y n); try done; [congruence|].
  assert (k' = k) as -> by congruence. assert (y' = y) as -> by congruence. lia.
Qed.

(** What [set_use_bit] of a direct access makes live. *)
Lemma use_direct L v s u :
  v_kind v = DIRECT → v_symbol v = Some s → set_use_bit ys v = Ok u → bits u L →
  ∃ y, ys !! s = Some y ∧ (is_object (sym_type y) = true → Z.testbit L (sym_index y - 1) = true).
Proof.
  unfold set_use_bit. intros -> -> H Hu. ok_inv. simpl in Ha. ok_inv. exists a. split; [done|].
  intros Ho. rewrite Ho in H. ok_inv. eauto using bit_of_live.
Qed.

Lemma bytes_function t n : is_object t = false → bytes_of t = Some n → n = O.
Proof.
  unfold IrSem.bytes_of, is_object, is_function, type_is. rewrite negb_false_iff, bool_decide_eq_true.
  intros Ht. destruct fuel; simpl; [done|]. rewrite Ht. by intros [= <-].
Qed.

(** A direct access is to visible storage. *)
Lemma direct_visible L v s u k :
  v_kind v = DIRECT → v_symbol v = Some s → set_use_bit ys v = Ok u → bits u L →
  inside fuel ts ys s (v_offset v) (v_type v) → bytes_of (v_type v) = Some k →
  ∀ x, addr M s + v_offset v ≤ x < addr M s + v_offset v + Z.of_nat k → ¬ hidden L x.
Proof.
  intros Hv Hs Hu HL Hin Hk x Hx. destruct (use_direct L v s u Hv Hs Hu HL) as (y & Hy & Hb).
  destruct (is_object (sym_type y)) eqn:Ho; [by eapply inside_visible; eauto|].
  destruct Hin as (y' & n & k' & Hy' & Hn & Hk' & Ho1 & Ho2).
  assert (y' = y) as -> by congruence. assert (k' = k) as -> by congruence.
  apply (bytes_function _ _ Ho) in Hn. lia.
Qed.

Lemma fetch_agree L m m' a v :
  agree L m m' →
  (∀ k x, bytes_of (v_type v) = Some k → a ≤ x < a + Z.of_nat k → ¬ hidden L x) →
  fetch fuel ts M m a v = fetch fuel ts M m' a v.
Proof.
  intros HA Hx. unfold fetch. destruct (bytes_of (v_type v)) as [k|] eqn:Hk; [|done].
  cbn [mbind option_bind]. rewrite (agree_read L m m') by eauto. done.
Qed.

(** ** The execution of a statement in memories that agree *)

Lemma eval_agree L m m' v u :
  access_ok fuel ts ys v → set_use_bit ys v = Ok u → bits u L → agree L m m' →
  eval fuel ts ys M m v = eval fuel ts ys M m' v.
Proof.
  intros Hok Hu HL HA. unfold eval. destruct (v_kind v) eqn:Hv.
  - unfold location. rewrite Hv. destruct (v_symbol v) as [s|] eqn:Hs; [|done].
    cbn [mbind option_bind]. apply (fetch_agree L); [done|]. intros k x Hk.
    unfold access_ok in Hok. rewrite Hv, Hs in Hok. by eapply direct_visible.
  - by destruct (v_symbol v).
  - unfold set_use_bit in Hu. rewrite Hv in Hu. injection Hu as <-.
    apply (agree_mono _ _ _ _ HL), agree_all in HA. by subst.
  - unfold set_use_bit in Hu. rewrite Hv in Hu. destruct (v_symbol v) as [s|] eqn:Hs; [|done].
    destruct (is_string ys s) eqn:Hstr; [|done]. destruct (is_pointer (v_type v)) eqn:Hp; [done|].
    apply (fetch_agree L); [done|]. intros k x Hk Hx. ok_inv. simpl in Ha. ok_inv.
    unfold access_ok in Hok. rewrite Hv, Hs in Hok. specialize (Hok Hstr Hp).
    eapply (inside_visible L s); eauto using bit_of_live.
Qed.

(** The variable a store through a pointer reads. *)
Definition target_use (t : var) : outcome Z :=
  if bool_decide (v_kind t = DEREF) && negb (bool_decide (v_symbol t = None))
  then set_use_bit ys (set_kind t DIRECT) else Ok 0.

Lemma location_agree L m m' t u :
  access_ok fuel ts ys t → target_use t = Ok u → bits u L → agree L m m' →
  location M m t = location M m' t.
Proof.
  intros Hok Hu HL HA. unfold location. destruct (v_kind t) eqn:Hv; try done.
  destruct (v_symbol t) as [s|] eqn:Hs; [|done].
  unfold target_use in Hu. rewrite Hv, Hs in Hu. cbn [bool_decide andb negb] in Hu.
  rewrite !bool_decide_true, bool_decide_false in Hu by done. simpl in Hu.
  rewrite (agree_read L m m'); [done|done|]. intros x Hx.
  unfold access_ok in Hok. rewrite Hv, Hs in Hok. destruct Hok as (y & n & Hy & Hn & H8).
  destruct (use_direct L (set_kind t DIRECT) s u) as (y' & Hy' & Hb); try done.
  assert (y' = y) as -> by congruence.
  destruct (is_object (sym_type y)) eqn:Ho; [|apply (bytes_function _ _ Ho) in Hn; lia].
  eapply (live_visible L s y n); eauto. lia.
Qed.

(** ** Stores *)

Lemma store_inv m t bs m1 : store fuel ts M m t bs = Some m1 → ∃ a n old,
  let new := if is_field t then insert_bits M t old bs else bs in
  location M m t = Some a ∧ bytes_of (v_type t) = Some n ∧ mread m a n = Some old ∧
  length new = n ∧ mwrite m a new = Some m1.
Proof.
  unfold store. intros H. apply bind_Some in H as (a & Ha & H).
  apply bind_Some in H as (n & Hn & H). apply bind_Some in H as (old & Hold & H).
  case_decide; [|done]. by exists a, n, old.
Qed.

(** What a store makes visible, it has written. *)
Lemma def_covers L L' t d x :
  set_def_bit ys t = Ok d → bits (Z.ldiff L' d) L → whole fuel ts ys t →
  hidden L x → ¬ hidden L' x →
  is_field t = false ∧
  ∀ m a k, location M m t = Some a → bytes_of (v_type t) = Some k → a ≤ x < a + Z.of_nat k.
Proof.
  intros Hd HL Hw (s & y & n & Hy & Hlk & Hi & Hb & Hn & Hx) HL'.
  assert (HbL' : Z.testbit L' (sym_index y - 1) = true).
  { destruct (Z.testbit L' _) eqn:E; [done|]. exfalso. apply HL'. exists s, y, n. eauto 10. }
  assert (Hbd : Z.testbit d (sym_index y - 1) = true).
  { destruct (Z.testbit d _) eqn:E; [done|]. rewrite (HL (sym_index y - 1)) in Hb; [done|lia|].
    by rewrite Z.ldiff_spec, HbL', E. }
  unfold set_def_bit in Hd. destruct (v_kind t) eqn:Hk;
    try (injection Hd as <-; by rewrite Z.testbit_0_l in Hbd).
  destruct (v_symbol t) as [s2|] eqn:Hs; [|done]. ok_inv. simpl in Ha. ok_inv.
  destruct (is_scalar (sym_type a) && _) eqn:E;
    [|injection Hd as <-; by rewrite Z.testbit_0_l in Hbd].
  apply andb_true_iff in E as [Hsc _].
  destruct (testbit_bit_of _ _ (sym_index y - 1) Hd) as [Hbit Hi2]; [lia|].
  rewrite Hbit in Hbd. apply bool_decide_eq_true in Hbd.
  assert (s = s2) as <- by (eapply (indexes _ _ _ _ HM s y s2 a); eauto; lia).
  assert (a = y) as -> by congruence.
  destruct (Hw Hk s y Hs Ha Hsc ltac:(lia)) as (Ho & Hf & Hsize). split; [done|].
  intros m a0 k Hloc Hkk. unfold location in Hloc. rewrite Hk, Hs in Hloc.
  injection Hloc as <-. assert (k = n) as -> by congruence. lia.
Qed.

Lemma store_agree L L' m m' t bs m1 u d :
  access_ok fuel ts ys t → whole fuel ts ys t → target_use t = Ok u → bits u L →
  set_def_bit ys t = Ok d → bits (Z.ldiff L' d) L → agree L m m' →
  store fuel ts M m t bs = Some m1 →
  ∃ m1', store fuel ts M m' t bs = Some m1' ∧ agree L' m1 m1'.
Proof.
  intros Hok Hw Hu HuL Hd HL HA H.
  destruct (store_inv _ _ _ _ H) as (a & n & old & Ha & Hn & Hold & Hlen & Hm1).
  pose proof (location_agree L m m' t u Hok Hu HuL HA) as Hloc.
  destruct HA as [Hdom HA].
  assert (∃ old', mread m' a n = Some old') as [old' Hold'].
  { apply mread_mapped. intros x Hx. apply elem_of_dom. rewrite <-Hdom. apply elem_of_dom.
    apply (proj2 (mread_mapped m a n)); [by eexists|done]. }
  pose proof (mread_length _ _ _ _ Hold) as Hl. pose proof (mread_length _ _ _ _ Hold') as Hl'.
  set (new' := if is_field t then insert_bits M t old' bs else bs).
  assert (Hlen' : length new' = n).
  { unfold new'. rewrite <-Hlen. destruct (is_field t); [|done].
    apply (insert_length _ _ _ _ HM). congruence. }
  assert (is_Some (mwrite m' a new')) as [m1' Hm1'].
  { apply mwrite_mapped. rewrite Hlen'. apply mread_mapped. by eexists. }
  exists m1'. split.
  { unfold store. rewrite <-Hloc, Ha. cbn [mbind option_bind]. rewrite Hn. cbn [mbind option_bind].
    rewrite Hold'. cbn [mbind option_bind]. by rewrite decide_True. }
  split; [by rewrite (mwrite_dom _ _ _ _ Hm1), (mwrite_dom _ _ _ _ Hm1')|].
  intros x Hx. rewrite (lookup_mwrite _ _ _ _ x Hm1), (lookup_mwrite _ _ _ _ x Hm1'), Hlen, Hlen'.
  assert (Hcov : hidden L x → is_field t = false ∧ a ≤ x < a + Z.of_nat n).
  { intros Hh. destruct (def_covers L L' t d x Hd HL Hw Hh Hx) as [Hf Hr]. eauto. }
  case_decide as Hin.
  - unfold new'. destruct (is_field t) eqn:Hf; [|done].
    apply (insert_local _ _ _ _ HM); [congruence|].
    rewrite <-(mread_lookup _ _ _ _ x Hold Hin), <-(mread_lookup _ _ _ _ x Hold' Hin).
    apply HA. intros Hh. by destruct (Hcov Hh).
  - apply HA. intros Hh. by destruct (Hcov Hh).
Qed.

(** A direct store to a local symbol outside of the live set is invisible. *)
Lemma store_dead L m t bs m1 s y :
  v_kind t = DIRECT → v_symbol t = Some s → ys !! s = Some y → sym_linkage y = LINK_NONE →
  1 ≤ sym_index y ≤ 64 → Z.testbit L (sym_index y - 1) = false →
  access_ok fuel ts ys t → store fuel ts M m t bs = Some m1 → agree L m m1.
Proof.
  intros Hk Hs Hy Hlk Hi Hb Hok H.
  destruct (store_inv _ _ _ _ H) as (a & n & old & Ha & Hn & Hold & Hlen & Hm1).
  split; [by rewrite (mwrite_dom _ _ _ _ Hm1)|]. intros x Hx.
  symmetry. apply (mwrite_outside _ _ _ _ _ Hm1). rewrite Hlen.
  destruct (decide (x < a ∨ a + Z.of_nat n ≤ x)) as [|Hin]; [done|]. exfalso. apply Hx.
  unfold access_ok in Hok. rewrite Hk, Hs in Hok. destruct Hok as (y' & n' & k & Hy' & Hn' & Hk' & ? & ?).
  assert (y' = y) as -> by congruence. assert (k = n) as -> by congruence.
  unfold location in Ha. rewrite Hk, Hs in Ha. injection Ha as <-.
  exists s, y, n'. repeat split; try done; lia.
Qed.

(** ** Expressions and statements *)

Lemma agree_callee L m m' f t ps m1 v :
  reaching fuel ts ps = false → agree L m m' → callee M m f t ps = Some (m1, v) →
  ∃ m1', callee M m' f t ps = Some (m1', v) ∧ agree L m1 m1'.
Proof.
  intros Hps HA H. pose proof (agree_mono L 0 _ _ (bits_0 L) HA) as H0. destruct HA as [Hdom HA].
  destruct (frame _ _ _ _ HM _ _ _ _ _ _ _ Hps H0 H) as (m1' & H' & Hd & Hd' & Hh & Hv).
  exists m1'. split; [done|]. split; [congruence|]. intros a Ha.
  destruct (decide (m1 !! a = m1' !! a)) as [|Hne]; [done|].
  assert (Hx : ¬ ¬ hidden 0 a) by (intros Hx; auto).
  exfalso. apply Hx. intros Hx'. apply Hne. destruct (Hh a Hx') as [-> ->]. auto.
Qed.

Lemma compute_agree L σ σ' e u σ1 v :
  expr_ok fuel ts ys e → use ys e = Ok u → bits u L → bits L all_bits → sagree L σ σ' →
  compute fuel ts ys M σ e = Some (σ1, v) →
  ∃ σ1', compute fuel ts ys M σ' e = Some (σ1', v) ∧ sagree L σ1 σ1'.
Proof.
  intros [Hl Hr] Hu HuL HLa HS H. unfold use in Hu.
  apply bind_ok_inv in Hu as (ur & Hur & Hu). apply bind_ok_inv in Hu as (ul & Hul & Hu).
  injection Hu as <-. apply bits_lor in HuL as [HurL HulL].
  pose proof (agree_of_sagree L _ _ HLa HS) as HA.
  destruct σ as [m ps], σ' as [m' ps']. destruct HS as [Eps HS]. simpl in Eps, HS, HA. subst ps'.
  unfold compute in H |- *.
  rewrite <-(eval_agree L m m' (ex_l e) ul Hl Hul HulL HA).
  destruct (ex_op e) eqn:Hop; try done; simpl binary in *; cbn beta iota in *.
  2: { apply bind_Some in H as (f & Hf & H). apply bind_Some in H as ([m1 v1] & Hc & H).
    injection H as <- <-. rewrite Hf. cbn [mbind option_bind].
    destruct (reaching fuel ts ps) eqn:Hps.
    - apply agree_all in HS as <-. rewrite Hc. eexists. split; [done|]. apply sagree_refl.
    - destruct (agree_callee L m m' f (ex_type e) ps m1 v1 Hps HS Hc) as (m1' & -> & HA1).
      eexists. split; [done|]. by apply sagree_nil. }
  all: apply bind_Some in H as (l & El & H); apply bind_Some in H as (r & Er & H);
    apply bind_Some in H as (w & Hop' & H); injection H as <- <-; rewrite El; cbn [mbind option_bind].
  all: try (rewrite <-(eval_agree L m m' (ex_r e) ur (Hr eq_refl) Hur HurL HA));
    first [rewrite Er | injection Er as <-]; cbn [mbind option_bind]; rewrite Hop'; cbn [mbind option_bind];
    eexists; (split; [done|]); by split.
Qed.

Lemma reaching_app ps q : reaching fuel ts (ps ++ [q]) = reaching fuel ts ps || reaching fuel ts [q].
Proof. unfold reaching. by rewrite existsb_app. Qed.

(** A live set behind a statement and the one the analysis puts in front. *)
Definition flows (s : statement) (L' L : Z) : Prop :=
  ∃ i, transfer fuel ts ys s L' = Ok i ∧ bits i L.

Lemma flows_inv s L' L : flows s L' L → ∃ d u,
  def ys s = Ok d ∧ uses fuel ts ys s = Ok u ∧ bits (Z.ldiff L' d) L ∧ bits u L.
Proof.
  intros (i & Hi & HL). unfold transfer in Hi. ok_inv. subst i. apply bits_lor in HL as [? ?].
  exists a, a0. auto.
Qed.

Lemma uses_inv s u L : uses fuel ts ys s = Ok u → bits u L → ∃ e,
  use ys (st_expr s) = Ok e ∧ bits e L ∧
  match st_st s with
  | IR_ASSIGN => ∃ t, target_use (st_t s) = Ok t ∧ bits t L
  | IR_PARAM => ∃ p : bool, is_or_has_pointer fuel ts (ex_type (st_expr s)) = Ok p ∧
                            (p = true → bits all_bits L)
  | _ => True
  end.
Proof.
  unfold uses, target_use. intros H HL. apply bind_ok_inv in H as (e & He & H). exists e. split; [done|].
  destruct (st_st s).
  - injection H as <-. auto.
  - apply bind_ok_inv in H as (p & Hp & H). injection H as <-. destruct p.
    + apply bits_lor in HL as [? ?]. split; [done|]. by exists true.
    + split; [done|]. by exists false.
  - injection H as <-. auto.
  - destruct (bool_decide (v_kind (st_t s) = DEREF) && _).
    + apply bind_ok_inv in H as (t & Ht & H). injection H as <-. apply bits_lor in HL as [? ?]. eauto.
    + injection H as <-. eauto using bits_0.
  - injection H as <-. auto.
Qed.

Lemma exec_agree L L' σ σ' s σ1 :
  statement_ok fuel ts ys s → flows s L' L → bits L all_bits → sagree L σ σ' →
  exec fuel ts ys M σ s = Some σ1 →
  ∃ σ1', exec fuel ts ys M σ' s = Some σ1' ∧ sagree L' σ1 σ1'.
Proof.
  intros [He Ht] HF HLa HS H. destruct (flows_inv _ _ _ HF) as (d & u & Hd & Hu & HL & HuL).
  destruct (uses_inv _ _ _ Hu HuL) as (ue & Hue & HueL & Hk). clear HF Hu u HuL.
  unfold exec in H |- *. unfold def in Hd. destruct (st_st s) eqn:Hst; try done;
    apply bind_Some in H as ([σ2 v] & Hc & H);
    destruct (compute_agree L _ _ _ _ _ _ He Hue HueL HLa HS Hc) as (σ2' & -> & HS2);
    cbn [mbind option_bind].
  - injection H as <-. exists σ2'. split; [done|]. injection Hd as <-. rewrite Z.ldiff_0_r in HL.
    by eapply sagree_mono.
  - injection H as <-. eexists. split; [done|]. destruct Hk as (p & Hp & Hall).
    injection Hd as <-. rewrite Z.ldiff_0_r in HL. destruct HS2 as [E HS2].
    split; [cbn [snd]; by rewrite E|]. cbn [fst snd]. rewrite reaching_app.
    destruct (reaching fuel ts σ2.2); [done|]. simpl. rewrite Hp. destruct p; simpl.
    + by apply (agree_mono L); [apply Hall|].
    + by eapply agree_mono.
  - apply bind_Some in H as (m & Hm & H). injection H as <-.
    destruct Hk as (t & Htu & HtL). destruct (Ht eq_refl) as [Hok Hw]. destruct HS2 as [E HS2].
    destruct (reaching fuel ts σ2.2) eqn:Hrch.
    + apply agree_all in HS2. rewrite <-HS2, Hm. eexists. split; [done|].
      split; [done|]. reflexivity.
    + destruct (store_agree L L' _ _ _ _ _ _ _ Hok Hw Htu HtL Hd HL HS2 Hm) as (m1' & -> & HA).
      eexists. split; [done|]. split; [done|]. simpl. by rewrite Hrch.
Qed.

(** The annotations of the statements from [L] to [E]. *)
Fixpoint valid (L : Z) (code : list statement) (E : Z) : Prop :=
  match code with
  | [] => bits E L
  | s :: code => flows s (st_out s) L ∧ bits (st_out s) all_bits ∧ valid (st_out s) code E
  end.

Lemma exec_code_agree code L E σ σ' σ1 :
  Forall (statement_ok fuel ts ys) code → valid L code E → bits L all_bits → sagree L σ σ' →
  exec_code fuel ts ys M σ code = Some σ1 →
  ∃ σ1', exec_code fuel ts ys M σ' code = Some σ1' ∧ sagree E σ1 σ1'.
Proof.
  intros Hok. revert L σ σ'. induction Hok as [|s code Hs Hok IH]; simpl; intros L σ σ' Hv HLa HS H.
  - injection H as <-. exists σ'. split; [done|]. by eapply sagree_mono.
  - destruct Hv as (HF & Hb & Hv). apply bind_Some in H as (σ2 & H2 & H).
    destruct (exec_agree L (st_out s) σ σ' s σ2 Hs HF HLa HS H2) as (σ2' & -> & HS2).
    cbn [mbind option_bind]. eauto.
Qed.

(** ** Blocks and runs *)

Lemma leave_agree L σ σ' b u m k :
  expr_ok fuel ts ys (b_expr b) →
  (negb (bool_decide (b_jump1 b = None)) || b_has_return_value b = true → use ys (b_expr b) = Ok u ∧ bits u L) →
  bits L all_bits → sagree L σ σ' → leave fuel ts ys M σ b = Some (m, k) →
  ∃ m', leave fuel ts ys M σ' b = Some (m', k) ∧ agree L m m'.
Proof.
  intros He Hu HLa HS H. pose proof (agree_of_sagree _ _ _ HLa HS) as HA. pose proof HS as [E _].
  assert (Hc : negb (bool_decide (b_jump1 b = None)) || b_has_return_value b = true →
    ∀ σ1 v, compute fuel ts ys M σ (b_expr b) = Some (σ1, v) →
    ∃ σ1', compute fuel ts ys M σ' (b_expr b) = Some (σ1', v) ∧ σ1.2 = σ1'.2 ∧ agree L σ1.1 σ1'.1).
  { intros Hb σ1 v Hc. destruct (Hu Hb) as [Hu1 Hu2].
    destruct (compute_agree _ _ _ _ _ _ _ He Hu1 Hu2 HLa HS Hc) as (σ1' & ? & HS1).
    exists σ1'. split; [done|]. split; [apply HS1|]. by apply agree_of_sagree. }
  unfold leave in H |- *. destruct (b_jump0 b) as [j0|]; [destruct (b_jump1 b) as [j1|] eqn:Hj|].
  - apply bind_Some in H as ([σ1 v] & H1 & H).
    destruct (Hc eq_refl _ _ H1) as (σ1' & -> & E1 & HA1). cbn [mbind option_bind].
    rewrite <-E1. case_decide; [|done]. injection H as <- <-. eauto.
  - rewrite <-E. case_decide; [|done]. injection H as <- <-. eauto.
  - destruct (b_has_return_value b).
    + apply bind_Some in H as ([σ1 v] & H1 & H).
      destruct (Hc ltac:(by rewrite orb_true_r) _ _ H1) as (σ1' & -> & E1 & HA1).
      cbn [mbind option_bind]. rewrite <-E1. case_decide; [|done]. injection H as <- <-. eauto.
    + rewrite <-E. case_decide; [|done]. injection H as <- <-. eauto.
Qed.
End agreement.
