(* ===== verification/OptimizeProps.v ===== *)
(** * Correctness of the transformations (src/optimizer/transform.c)

    Removing dead stores and merging chained assignments, in code whose
    annotations are valid: the new code runs wherever the old one does, and
    the two memories agree on what is live at the end. *)

From stdpp Require Import base list gmap numbers strings.
From Stdlib Require Import ZArith Lia.
From S2P Require Import Prelude Memory CType Strings Symbol Typetree Ir Liveness Optimize IrSem LivenessProps.

Local Open Scope Z_scope.

Definition is_call (s : statement) : bool := bool_decide (ex_op (st_expr s) = IR_OP_CALL).

(** Whether parameters may be waiting for their call behind a statement. *)
Definition pending (p : bool) (s : statement) : bool :=
  bool_decide (st_st s = IR_PARAM) || (p && negb (is_call s)).

Section transformations.
Context (fuel : nat) (ts : typetab) (level : Z) (ys : symbols) (M : machine).
Context (HM : lawful fuel ts ys M).

Local Abbreviation agree := (agree fuel ts ys M).
Local Abbreviation sagree := (sagree fuel ts ys M).
Local Abbreviation flows := (flows (fuel:=fuel) (ts:=ts) (ys:=ys)).
Local Abbreviation valid := (valid (fuel:=fuel) (ts:=ts) (ys:=ys)).
Local Abbreviation statement_ok := (statement_ok fuel ts ys).
Local Abbreviation bytes_of := (bytes_of fuel ts).
Local Abbreviation exec := (exec fuel ts ys M).
Local Abbreviation exec_code := (exec_code fuel ts ys M).

(** A cast between equal types of equal sizes keeps the bytes. *)
Definition keeps_identity : Prop := ∀ e v w,
  is_identity fuel ts e = Ok true → bytes_of (ex_type e) = bytes_of (v_type (ex_l e)) →
  operate M e v [] = Some w → w = v.

(** ** Local symbols that are not live *)

Definition dead_in (s : symref) (L : Z) : Prop := ∃ y,
  ys !! s = Some y ∧ sym_linkage y = LINK_NONE ∧ 1 ≤ sym_index y ≤ 64 ∧
  Z.testbit L (sym_index y - 1) = false.

Lemma not_live_after s st :
  is_live_after level ys (Some s) st = Ok false → ∃ y,
  ys !! s = Some y ∧ 1 ≤ sym_index y ≤ 64 ∧ Z.testbit (st_out st) (sym_index y - 1) = false.
Proof.
  unfold is_live_after. intros H. apply bind_ok_inv in H as (y & Hy & H). simpl in Hy. ok_inv.
  destruct (negb (level =? 0) && is_object (sym_type y)); [|done].
  apply bind_ok_inv in H as (u & _ & H). apply bind_ok_inv in H as (b & Hb & H). injection H as H.
  apply negb_false_iff, Z.eqb_eq in H. exists y. split; [done|].
  assert (Hi : 1 ≤ sym_index y ≤ 64).
  { unfold bit_of in Hb. destruct (Z.leb_spec 1 (sym_index y)), (Z.leb_spec (sym_index y) 64); (done || lia). }
  split; [done|]. destruct (testbit_bit_of _ _ (sym_index y - 1) Hb) as [Hbit _]; [lia|].
  apply (f_equal (λ z, Z.testbit z (sym_index y - 1))) in H.
  by rewrite Z.land_spec, Hbit, bool_decide_true, andb_true_r, Z.testbit_0_l in H.
Qed.

Lemma is_dead_store_inv s :
  is_dead_store level ys s = Ok true → ∃ x,
  st_st s = IR_ASSIGN ∧ v_kind (st_t s) = DIRECT ∧ v_symbol (st_t s) = Some x ∧ dead_in x (st_out s).
Proof.
  unfold is_dead_store. destruct (bool_decide (st_st s = _) && _) eqn:E; [|done].
  apply andb_true_iff in E as [E1%bool_decide_eq_true E2%bool_decide_eq_true].
  intros H. apply bind_ok_inv in H as (l & Hl & H). apply bind_ok_inv in H as (y & Hy & H).
  injection H as H. apply andb_true_iff in H as [Hn%negb_true_iff Hlk%bool_decide_eq_true]. subst l.
  destruct (v_symbol (st_t s)) as [x|]; [|done]. simpl in Hy. ok_inv. exists x.
  destruct (not_live_after _ _ Hl) as (y' & Hy' & Hi & Hb). assert (y' = y) as -> by congruence.
  repeat split; try done. by exists y.
Qed.

(** The bit a direct store defines is the one of its symbol. *)
Lemma def_of_dead t x d L L' :
  v_kind t = DIRECT → v_symbol t = Some x → dead_in x L' → set_def_bit ys t = Ok d →
  bits L' L → bits L' (Z.ldiff L d).
Proof.
  intros Hk Hs (y & Hy & _ & Hi & Hb) Hd HL i Hi0 HL'.
  rewrite Z.ldiff_spec, (HL i Hi0 HL'). simpl. apply negb_true_iff.
  unfold set_def_bit in Hd. rewrite Hk, Hs in Hd. ok_inv. simpl in Ha. ok_inv.
  assert (a = y) as -> by congruence.
  destruct (is_scalar (sym_type y) && _); [|injection Hd as <-; apply Z.testbit_0_l].
  destruct (testbit_bit_of _ _ i Hd Hi0) as [-> _]. apply bool_decide_eq_false. congruence.
Qed.

(** A set without the dead symbol survives the store to it. *)
Lemma flows_dead t x d L L' :
  v_kind t = DIRECT → v_symbol t = Some x → dead_in x L' → set_def_bit ys t = Ok d →
  bits (Z.ldiff L' d) L → bits L' L.
Proof.
  intros Hk Hs Hdead Hd HL.
  eapply bits_trans; [|exact HL]. eapply (def_of_dead t x d L' L'); eauto using bits_refl.
Qed.

Lemma store_dead_in m t bs m1 x L :
  v_kind t = DIRECT → v_symbol t = Some x → dead_in x L → access_ok fuel ts ys t →
  store fuel ts M m t bs = Some m1 → agree L m m1.
Proof. intros Hk Hs (y & Hy & Hlk & Hi & Hb). by eapply store_dead. Qed.

Lemma flows_mono s L' L L2 : flows s L' L → bits L L2 → flows s L' L2.
Proof. intros (i & Hi & HL) HL2. exists i. split; [done|]. by eapply bits_trans. Qed.

Lemma valid_mono code L L2 E : valid L code E → bits L L2 → valid L2 code E.
Proof.
  destruct code; simpl; [by apply bits_trans|]. intros (? & ? & ?) ?. eauto using flows_mono.
Qed.

(** ** Computing without a call *)

Lemma compute_pure σ e σ1 v :
  has_side_effects e = false → compute fuel ts ys M σ e = Some (σ1, v) → σ1 = σ.
Proof.
  destruct σ as [m ps]. unfold compute, has_side_effects. intros He H.
  destruct (ex_op e); try done; repeat (apply bind_Some in H as (? & _ & H)); by injection H as <- _.
Qed.

Lemma compute_params σ s σ1 v p :
  (p = false → σ.2 = []) → compute fuel ts ys M σ (st_expr s) = Some (σ1, v) →
  p && negb (is_call s) = false → σ1.2 = [].
Proof.
  intros Hp H Hc. destruct (has_side_effects (st_expr s)) eqn:He.
  - destruct σ as [m ps]. unfold compute in H. unfold has_side_effects in He.
    destruct (ex_op (st_expr s)); try done.
    apply bind_Some in H as (? & _ & H). apply bind_Some in H as ([??] & _ & H). by injection H as <- _.
  - rewrite (compute_pure _ _ _ _ He H). apply Hp. unfold is_call in Hc.
    unfold has_side_effects in He. destruct (ex_op (st_expr s)); try done;
      rewrite bool_decide_false, andb_true_r in Hc by done; done.
Qed.

Lemma exec_pending σ s σ1 p :
  (p = false → σ.2 = []) → exec σ s = Some σ1 → pending p s = false → σ1.2 = [].
Proof.
  unfold pending. intros Hp H [Hs Hc]%orb_false_iff. unfold IrSem.exec in H.
  destruct (st_st s); try done; apply bind_Some in H as ([σ2 v] & H2 & H);
    pose proof (compute_params _ _ _ _ _ Hp H2 Hc) as E.
  - by injection H as <-.
  - apply bind_Some in H as (m & _ & H). by injection H as <-.
Qed.

(** ** Dead stores *)

(** No store is removed between a parameter and its call. *)
Fixpoint quiet (p : bool) (code : list statement) : Prop :=
  match code with
  | [] => True
  | s :: code =>
      (is_dead_store level ys s = Ok true → p && negb (is_call s) = false) ∧ quiet (pending p s) code
  end.

Lemma flows_expr s L' L : st_st s = IR_ASSIGN → flows s L' L → bits L' L → flows (set_st s IR_EXPR) L' L.
Proof.
  intros Hs HF HL. destruct (flows_inv _ _ _ HF) as (d & u & Hd & Hu & _ & HuL).
  destruct (uses_inv _ _ _ Hu HuL) as (e & He & HeL & _).
  exists (Z.lor L' e). split; [|by apply bits_lor].
  unfold transfer, def, uses, set_st. simpl. rewrite He. cbn [mbind outcome_bind]. by rewrite Z.ldiff_0_r.
Qed.

(** A dead store without its store: what it computes, and what it leaves. *)
Lemma exec_dead s σ σ1 p L :
  is_dead_store level ys s = Ok true → p && negb (is_call s) = false → (p = false → σ.2 = []) →
  statement_ok s → flows s (st_out s) L → exec σ s = Some σ1 →
  bits (st_out s) L ∧
  ∃ σ2 v, compute fuel ts ys M σ (st_expr s) = Some (σ2, v) ∧ sagree (st_out s) σ1 σ2.
Proof.
  intros Hdead Hp Hσ [_ Hok] HF H. destruct (is_dead_store_inv _ Hdead) as (x & Hs & Hk & Hx & Hdx).
  destruct (Hok Hs) as [Hacc _]. destruct (flows_inv _ _ _ HF) as (d & u & Hd & _ & HL & _).
  unfold def in Hd. rewrite Hs in Hd. split; [by eapply flows_dead|].
  unfold IrSem.exec in H. rewrite Hs in H. apply bind_Some in H as ([σ2 v] & Hc & H).
  apply bind_Some in H as (m & Hm & H). injection H as <-. exists σ2, v. split; [done|].
  pose proof (compute_params _ _ _ _ _ Hσ Hc Hp) as E. split; [done|]. cbn [fst snd]. rewrite E. simpl.
  symmetry. by eapply store_dead_in.
Qed.

Lemma eliminate_correct code code' c p L E σ σ1 :
  eliminate level ys code = Ok (code', c) → Forall statement_ok code → valid L code E → quiet p code →
  bits L all_bits → (p = false → σ.2 = []) → exec_code σ code = Some σ1 →
  ∃ σ1', exec_code σ code' = Some σ1' ∧ sagree E σ1 σ1'.
Proof.
  revert code' c p L σ σ1. induction code as [|s code IH]; intros code' c p L σ σ1 He Hok Hv Hq HLa Hσ H.
  { injection He as <- <-. injection H as <-. exists σ. split; [done|]. apply sagree_refl. }
  cbn [eliminate] in He. apply bind_ok_inv in He as (dead & Hd & He).
  apply bind_ok_inv in He as ([code1 c1] & He & Hr). injection Hr as Hr.
  inversion Hok as [|?? Hs Hok']; subst. destruct Hv as (HF & Hb & Hv). destruct Hq as [Hq1 Hq].
  cbn [IrSem.exec_code] in H. apply bind_Some in H as (σ2 & H2 & H).
  pose proof (exec_pending _ _ _ _ Hσ H2) as Hσ2. destruct dead.
  - destruct (exec_dead s σ σ2 p L Hd (Hq1 Hd) Hσ Hs HF H2) as (HL & σ3 & v & Hc & HS).
    pose proof (compute_params _ _ _ _ _ Hσ Hc (Hq1 Hd)) as Hσ3.
    destruct (exec_code_agree HM code _ _ _ _ _ Hok' Hv Hb HS H) as (σ4 & H4 & HS4).
    destruct (IH code1 c1 _ (st_out s) σ3 σ4 He Hok' Hv Hq Hb (λ _, Hσ3) H4) as (σ5 & H5 & HS5).
    exists σ5. split; [|by eapply sagree_trans].
    destruct (has_side_effects (st_expr s)) eqn:Hse; injection Hr as <- <-; simpl.
    + unfold IrSem.exec at 1. simpl. by rewrite Hc.
    + by rewrite <-(compute_pure _ _ _ _ Hse Hc).
  - injection Hr as <- <-. simpl. rewrite H2. cbn [mbind option_bind]. eauto.
Qed.

Lemma eliminate_valid code code' c L E :
  eliminate level ys code = Ok (code', c) → Forall statement_ok code → valid L code E →
  Forall statement_ok code' ∧ valid L code' E.
Proof.
  revert code' c L. induction code as [|s code IH]; intros code' c L He Hok Hv.
  { simpl in He. by injection He as <- <-. }
  cbn [eliminate] in He. apply bind_ok_inv in He as (dead & Hd & He).
  apply bind_ok_inv in He as ([code1 c1] & He & Hr). injection Hr as Hr.
  inversion Hok as [|?? Hs Hok']; subst. destruct Hv as (HF & Hb & Hv).
  destruct (IH _ _ _ He Hok' Hv) as [Hok1 Hv1]. destruct dead; [|by injection Hr as <- <-; split; [constructor|]].
  destruct (is_dead_store_inv _ Hd) as (x & Hst & Hk & Hx & Hdx).
  destruct (flows_inv _ _ _ HF) as (d & u & Hd' & _ & HL & _). unfold def in Hd'. rewrite Hst in Hd'.
  assert (HLs : bits (st_out s) L) by (by eapply flows_dead).
  destruct (has_side_effects (st_expr s)); injection Hr as <- <-; (split; [|try by eapply valid_mono]).
  - constructor; [|done]. destruct Hs as [He1 _]. split; [done|]. done.
  - split; [|by split]. by apply flows_expr.
  - done.
Qed.

(** ** Chained assignments *)

(** When [s1: t1 = e; s2: t2 = t1] may become [t2 = e]: [t1] is not a
    bit-field, the sizes are equal, and [t2] is not a store through [t1]. *)
Definition mergeable (s1 s2 : statement) : Prop :=
  is_field (st_t s1) = false ∧
  bytes_of (v_type (ex_l (st_expr s2))) = bytes_of (v_type (st_t s1)) ∧
  bytes_of (ex_type (st_expr s2)) = bytes_of (v_type (st_t s1)) ∧
  (v_kind (st_t s2) = DEREF → v_symbol (st_t s2) ≠ v_symbol (st_t s1)).

(** What the loop merges is mergeable, and no parameter waits. *)
Fixpoint safe_merge (p : bool) (s1 : statement) (code : list statement) : Prop :=
  match code with
  | [] => True
  | s2 :: code =>
      (can_merge fuel ts level ys s1 s2 = Ok true →
        p && negb (is_call s1) = false ∧ mergeable s1 s2 ∧
        safe_merge p (set_target s1 (st_t s2)) code) ∧
      (can_merge fuel ts level ys s1 s2 = Ok false → safe_merge (pending p s1) s2 code)
  end.

Lemma can_merge_inv s1 s2 :
  can_merge fuel ts level ys s1 s2 = Ok true → ∃ x,
  st_st s1 = IR_ASSIGN ∧ st_st s2 = IR_ASSIGN ∧ is_identity fuel ts (st_expr s2) = Ok true ∧
  var_equal fuel ts (st_t s1) (ex_l (st_expr s2)) = Ok true ∧
  v_kind (st_t s1) = DIRECT ∧ v_symbol (st_t s1) = Some x ∧ dead_in x (st_out s2).
Proof.
  unfold can_merge. intros H.
  destruct (bool_decide (st_st s1 = IR_ASSIGN)) eqn:E1; [|done].
  destruct (bool_decide (st_st s2 = IR_ASSIGN)) eqn:E2; [|done]. simpl in H.
  apply bind_ok_inv in H as (i & Hi & H). destruct i; [|done]. simpl in H.
  apply bind_ok_inv in H as (e & He & H). destruct e; [|done]. simpl in H.
  apply bind_ok_inv in H as (e2 & He2 & H). destruct e2; [|done]. simpl in H.
  destruct (bool_decide (v_kind (st_t s1) = DIRECT)) eqn:Ek; [|done]. simpl in H.
  apply bind_ok_inv in H as (y & Hy & H).
  destruct (bool_decide (sym_linkage y = LINK_NONE)) eqn:El; [|done]. simpl in H.
  apply bind_ok_inv in H as (l & Hl & H). injection H as H. destruct l; [done|].
  apply bool_decide_eq_true in E1, E2, Ek, El.
  destruct (v_symbol (st_t s1)) as [x|] eqn:Hx; [|done]. simpl in Hy. ok_inv. exists x.
  destruct (not_live_after _ _ Hl) as (y' & Hy' & Hi' & Hb). assert (y' = y) as -> by congruence.
  repeat split; try done. by exists y.
Qed.

Lemma var_equal_inv a b :
  var_equal fuel ts a b = Ok true → v_symbol a = v_symbol b ∧ v_kind a = v_kind b ∧
  v_field_width a = v_field_width b ∧ v_offset a = v_offset b.
Proof.
  unfold var_equal. intros H. apply bind_ok_inv in H as (e & _ & H). injection H as H.
  rewrite !andb_true_iff in H. destruct H as [[[[[_ ?] ?] ?] _] ?].
  rewrite !bool_decide_eq_true, !Z.eqb_eq in *. auto.
Qed.

(** The pointer of a store does not use another symbol's bit. *)
Lemma target_use_other t x y d L :
  v_kind t ≠ DEREF ∨ v_symbol t ≠ Some x → ys !! x = Some y → 1 ≤ sym_index y →
  target_use (ys:=ys) t = Ok d → bits d L → bits d (Z.ldiff L (2 ^ (sym_index y - 1))).
Proof.
  intros Ht Hy Hiy Hd HL i Hi Hbd. rewrite Z.ldiff_spec, (HL i Hi Hbd). simpl. apply negb_true_iff.
  rewrite Z.pow2_bits_eqb by lia. apply Z.eqb_neq. intros Heq.
  unfold target_use in Hd. destruct (bool_decide (v_kind t = DEREF)) eqn:Ek;
    [|injection Hd as <-; by rewrite Z.testbit_0_l in Hbd].
  apply bool_decide_eq_true in Ek. destruct Ht as [?|Ht]; [done|].
  destruct (v_symbol t) as [s|] eqn:Es; [|injection Hd as <-; by rewrite Z.testbit_0_l in Hbd].
  simpl in Hd. unfold set_use_bit, set_kind in Hd. simpl in Hd. rewrite ?Es in Hd. ok_inv. simpl in Ha. ok_inv.
  destruct (is_object (sym_type a)); [|injection Hd as <-; by rewrite Z.testbit_0_l in Hbd].
  ok_inv. destruct (testbit_bit_of _ _ i Hd Hi) as [Hb Hia]. rewrite Hb in Hbd.
  apply bool_decide_eq_true in Hbd. apply Ht. f_equal.
  eapply (indexes _ _ _ _ HM s a x y); eauto; lia.
Qed.

Lemma bits_without x y L L' :
  ys !! x = Some y → 1 ≤ sym_index y → Z.testbit L' (sym_index y - 1) = false →
  bits L' L → bits L' (Z.ldiff L (2 ^ (sym_index y - 1))).
Proof.
  intros Hy Hi Hb HL i Hi0 H. rewrite Z.ldiff_spec, (HL i Hi0 H). simpl. apply negb_true_iff.
  rewrite Z.pow2_bits_eqb by lia. apply Z.eqb_neq. congruence.
Qed.

(** The value the copy reads is the value just stored. *)
Lemma copy_reads m t1 v m1 σ2 w s2 ps :
  keeps_identity → store fuel ts M m t1 v = Some m1 → is_field t1 = false → v_kind t1 = DIRECT →
  is_identity fuel ts (st_expr s2) = Ok true → var_equal fuel ts t1 (ex_l (st_expr s2)) = Ok true →
  bytes_of (v_type (ex_l (st_expr s2))) = bytes_of (v_type t1) →
  bytes_of (ex_type (st_expr s2)) = bytes_of (v_type t1) →
  compute fuel ts ys M (m1, ps) (st_expr s2) = Some (σ2, w) → σ2 = (m1, ps) ∧ w = v.
Proof.
  intros HI Hst Hf Hk Hid Hve Hsz1 Hsz2 Hc.
  destruct (store_inv _ _ _ _ Hst) as (a & n & old & Ha & Hn & Hold & Hlen & Hm1).
  rewrite Hf in Hlen, Hm1. destruct (var_equal_inv _ _ Hve) as (Es & Ek & Ew & Eo).
  assert (Hop : ex_op (st_expr s2) = IR_OP_CAST).
  { unfold is_identity in Hid. case_bool_decide; done. }
  unfold compute in Hc. rewrite Hop in Hc. cbn [binary] in Hc.
  apply bind_Some in Hc as (l & Hl & Hc). cbn [mbind option_bind] in Hc.
  apply bind_Some in Hc as (w' & Hw & Hc). injection Hc as <- <-. split; [done|].
  apply HI in Hw; [|done|congruence]. subst w'.
  unfold eval in Hl. rewrite <-Ek, Hk in Hl. cbn beta iota in Hl.
  assert (Hloc : location M m1 (ex_l (st_expr s2)) = Some a).
  { unfold location in Ha |- *. rewrite <-Ek, <-Es, <-Eo, Hk in *. done. }
  rewrite Hloc in Hl. cbn [mbind option_bind] in Hl. unfold fetch in Hl.
  rewrite Hsz1, Hn in Hl. cbn [mbind option_bind] in Hl. rewrite <-Hlen in Hl.
  rewrite (mread_mwrite_same _ _ _ _ Hm1) in Hl. cbn [mbind option_bind] in Hl.
  unfold is_field in Hl, Hf. rewrite <-Ew, Hf in Hl. congruence.
Qed.

Lemma bits_ldiff_l a d : bits (Z.ldiff a d) a.
Proof. intros i Hi. rewrite Z.ldiff_spec, andb_true_iff. by intros [? _]. Qed.

Lemma target_kept s1 s2 x : v_symbol (st_t s1) = Some x → mergeable s1 s2 →
  v_kind (st_t s2) ≠ DEREF ∨ v_symbol (st_t s2) ≠ Some x.
Proof.
  intros Hx (_ & _ & _ & Hd). destruct (decide (v_kind (st_t s2) = DEREF)); [right|by left].
  rewrite <-Hx. auto.
Qed.

(** One merge. *)
Lemma exec_merged s1 s2 p L1 σ σ1 σ2 :
  keeps_identity → can_merge fuel ts level ys s1 s2 = Ok true → mergeable s1 s2 →
  p && negb (is_call s1) = false → (p = false → σ.2 = []) →
  statement_ok s1 → statement_ok s2 → flows s2 (st_out s2) L1 → bits L1 all_bits →
  bits (st_out s2) all_bits → exec σ s1 = Some σ1 → exec σ1 s2 = Some σ2 →
  ∃ σ2', exec σ (set_target s1 (st_t s2)) = Some σ2' ∧ sagree (st_out s2) σ2 σ2'.
Proof.
  intros HI Hc Hm Hp Hσ [_ Hok1] [_ Hok2] HF HL1 Hb H1 H2.
  destruct (can_merge_inv _ _ Hc) as (x & Hs1 & Hs2 & Hid & Hve & Hk & Hx & y & Hy & Hlk & Hi & Hbit).
  pose proof (target_kept _ _ _ Hx Hm) as Hother. destruct Hm as (Hf & Hz1 & Hz2 & _).
  destruct (Hok1 Hs1) as [Hacc1 _]. destruct (Hok2 Hs2) as [Hacc2 Hw2].
  destruct (flows_inv _ _ _ HF) as (d & u & Hd & Hu & HL & HuL). unfold def in Hd. rewrite Hs2 in Hd.
  destruct (uses_inv _ _ _ Hu HuL) as (_ & _ & _ & Ht). rewrite Hs2 in Ht. destruct Ht as (t & Ht & HtL).
  unfold IrSem.exec in H1, H2 |- *. rewrite Hs1 in H1. rewrite Hs2 in H2. cbn [set_target st_st st_t st_expr].
  rewrite Hs1. apply bind_Some in H1 as ([[ma psa] v] & Hca & H1). rewrite Hca. cbn [mbind option_bind].
  apply bind_Some in H1 as (m1 & Hm1 & H1). injection H1 as <-. cbn [fst snd] in *.
  pose proof (compute_params _ _ _ _ _ Hσ Hca Hp) as E. cbn [snd] in E. subst psa.
  apply bind_Some in H2 as ([σ2c w] & Hcb & H2).
  destruct (copy_reads _ _ _ _ _ _ _ _ HI Hm1 Hf Hk Hid Hve Hz1 Hz2 Hcb) as [-> ->].
  apply bind_Some in H2 as (m2 & Hm2 & H2). injection H2 as <-. cbn [fst snd] in *.
  assert (HA : agree (Z.ldiff all_bits (2 ^ (sym_index y - 1))) m1 ma).
  { symmetry. eapply store_dead; eauto. rewrite Z.ldiff_spec, Z.pow2_bits_true by lia.
    by rewrite andb_false_r. }
  destruct (store_agree HM (Z.ldiff all_bits (2 ^ (sym_index y - 1))) (st_out s2) m1 ma (st_t s2) v
    m2 t d Hacc2 Hw2 Ht) as (m2' & -> & HA2); try done.
  - eapply target_use_other; eauto; [lia|]. by eapply bits_trans.
  - eapply bits_trans; [apply bits_ldiff_l|]. eapply bits_without; eauto. lia.
  - eexists. split; [done|]. by apply sagree_nil.
Qed.

(** The merged statement makes live what the two did. *)
Lemma flows_merged s1 s2 L L1 :
  can_merge fuel ts level ys s1 s2 = Ok true → mergeable s1 s2 →
  flows s1 L1 L → flows s2 (st_out s2) L1 →
  flows (set_target s1 (st_t s2)) (st_out s2) L.
Proof.
  intros Hc Hm HF1 HF2.
  destruct (can_merge_inv _ _ Hc) as (x & Hs1 & Hs2 & _ & _ & Hk & Hx & Hdx).
  pose proof (target_kept _ _ _ Hx Hm) as Hother.
  destruct (flows_inv _ _ _ HF1) as (d1 & u1 & Hd1 & Hu1 & HL1 & HuL1).
  destruct (flows_inv _ _ _ HF2) as (d2 & u2 & Hd2 & Hu2 & HL2 & HuL2).
  destruct (uses_inv _ _ _ Hu1 HuL1) as (e & He & HeL & _).
  destruct (uses_inv _ _ _ Hu2 HuL2) as (_ & _ & _ & Ht). rewrite Hs2 in Ht. destruct Ht as (t & Ht & HtL).
  unfold def in Hd1, Hd2. rewrite Hs1 in Hd1. rewrite Hs2 in Hd2.
  assert (Hkeep : ∀ K, bits K L1 → dead_in x K → bits K L).
  { intros K HK HxK. eapply bits_trans; [|exact HL1]. by eapply def_of_dead. }
  assert (Hsub : ∀ K K', bits K K' → dead_in x K' → dead_in x K).
  { intros K K' HK (y & Hy & Hlk & Hi & Hb). exists y. repeat split; try done; try lia.
    destruct (Z.testbit K (sym_index y - 1)) eqn:E; [|done]. apply HK in E; [congruence|lia]. }
  assert (Htx : bits t L).
  { apply Hkeep; [done|]. pose proof Hdx as (y & Hy & Hlk & Hi & Hb). exists y. repeat split; try done; try lia.
    destruct (Z.testbit t (sym_index y - 1)) eqn:E; [|done].
    apply (target_use_other _ _ y t t Hother Hy ltac:(lia) Ht (bits_refl t)) in E; [|lia].
    rewrite Z.ldiff_spec, Z.pow2_bits_true, andb_false_r in E by lia. done. }
  exists (Z.lor (Z.ldiff (st_out s2) d2) (Z.lor e t)). split.
  - unfold transfer, def, uses, set_target. cbn [st_st st_t st_expr]. rewrite Hs1, Hd2.
    cbn [mbind outcome_bind]. rewrite He. cbn [mbind outcome_bind].
    unfold target_use in Ht. destruct (bool_decide (v_kind (st_t s2) = DEREF) && _).
    + rewrite Ht. done.
    + injection Ht as <-. by rewrite Z.lor_0_r.
  - rewrite !bits_lor. split; [|done]. apply Hkeep; [done|]. eapply Hsub; [apply bits_ldiff_l|done].
Qed.

Lemma merge_correct s1 code code' p L L1 E σ σ1 :
  keeps_identity → merge fuel ts level ys s1 code = Ok code' → statement_ok s1 →
  Forall statement_ok code → flows s1 L1 L → bits L1 all_bits → valid L1 code E →
  safe_merge p s1 code → (p = false → σ.2 = []) → exec_code σ (s1 :: code) = Some σ1 →
  ∃ σ1', exec_code σ code' = Some σ1' ∧ sagree E σ1 σ1'.
Proof.
  intros HI. revert s1 code' p L L1 σ σ1.
  induction code as [|s2 code IH]; intros s1 code' p L L1 σ σ1 Hm Hok1 Hok HF HL1 Hv Hsafe Hσ H.
  { injection Hm as <-. exists σ1. split; [done|]. apply sagree_refl. }
  cbn [merge] in Hm. apply bind_ok_inv in Hm as (c & Hc & Hm). destruct Hsafe as [Hs1 Hs2].
  inversion Hok as [|?? Hok2 Hok']; subst. destruct Hv as (HF2 & Hb & Hv). destruct c.
  - destruct (Hs1 Hc) as (Hp & Hmg & Hsafe). cbn [IrSem.exec_code] in H.
    apply bind_Some in H as (σa & Ha & H). apply bind_Some in H as (σb & Hb2 & H).
    destruct (exec_merged _ _ _ _ _ _ _ HI Hc Hmg Hp Hσ Hok1 Hok2 HF2 HL1 Hb Ha Hb2) as (σb' & Hb' & HS).
    destruct (exec_code_agree HM code _ _ _ _ _ Hok' Hv Hb HS H) as (σ2 & H2 & HS2).
    destruct (IH (set_target s1 (st_t s2)) code' p L (st_out s2) σ σ2) as (σ3 & H3 & HS3); try done.
    + destruct Hok1 as [He1 _], Hok2 as [_ Ht2]. split; [done|]. intros _.
      destruct (can_merge_inv _ _ Hc) as (? & _ & Hst2 & _). auto.
    + by eapply flows_merged.
    + cbn [IrSem.exec_code]. rewrite Hb'. done.
    + exists σ3. split; [done|]. by eapply sagree_trans.
  - apply bind_ok_inv in Hm as (code1 & Hm & Hr). injection Hr as <-.
    cbn [IrSem.exec_code] in H |- *. apply bind_Some in H as (σa & Ha & H). rewrite Ha.
    cbn [mbind option_bind].
    apply (IH s2 code1 (pending p s1) L1 (st_out s2) σa σ1 Hm Hok2 Hok' HF2 Hb Hv (Hs2 Hc)); [|done].
    intros Hp. by eapply exec_pending.
Qed.

(** The merged code has valid annotations, though [merge] does not write
    them. *)
Lemma merge_valid s1 code code' p L L1 E :
  merge fuel ts level ys s1 code = Ok code' → statement_ok s1 → Forall statement_ok code →
  flows s1 L1 L → bits L1 all_bits → valid L1 code E → safe_merge p s1 code →
  Forall statement_ok code' ∧
  ∃ code2, (λ s, set_out s 0) <$> code2 = (λ s, set_out s 0) <$> code' ∧ valid L code2 E.
Proof.
  revert s1 code' p L L1.
  induction code as [|s2 code IH]; intros s1 code' p L L1 Hm Hok1 Hok HF HL1 Hv Hsafe.
  { injection Hm as <-. split; [by apply Forall_singleton|]. exists [set_out s1 L1]. split; [done|].
    split; [|by split]. destruct s1. exact HF. }
  cbn [merge] in Hm. apply bind_ok_inv in Hm as (c & Hc & Hm). destruct Hsafe as [Hs1 Hs2].
  inversion Hok as [|?? Hok2 Hok']; subst. destruct Hv as (HF2 & Hb & Hv). destruct c.
  - destruct (Hs1 Hc) as (Hp & Hmg & Hsafe).
    apply (IH (set_target s1 (st_t s2)) code' p L (st_out s2)); try done; [|by eapply flows_merged].
    destruct Hok1 as [He1 _], Hok2 as [_ Ht2]. split; [done|]. intros _.
    destruct (can_merge_inv _ _ Hc) as (? & _ & Hst2 & _). auto.
  - apply bind_ok_inv in Hm as (code1 & Hm & Hr). injection Hr as <-.
    destruct (IH s2 code1 (pending p s1) L1 (st_out s2) Hm Hok2 Hok' HF2 Hb Hv (Hs2 Hc))
      as (Hok1' & code2 & He & Hv2).
    split; [by constructor|]. exists (set_out s1 L1 :: code2). split; [rewrite !fmap_cons, He; by destruct s1|].
    split; [|by split]. destruct s1. exact HF.
Qed.

(** ** The number of stores *)

Definition stores (code : list statement) : nat :=
  length (filter (λ s, st_st s = IR_ASSIGN) code).

Lemma stores_cons s code : stores (s :: code) = ((if decide (st_st s = IR_ASSIGN) then 1 else 0) + stores code)%nat.
Proof. unfold stores. rewrite filter_cons. by destruct (decide _). Qed.

Lemma eliminate_stores code code' c :
  eliminate level ys code = Ok (code', c) →
  Z.of_nat (stores code) = Z.of_nat (stores code') + c ∧ 0 ≤ c.
Proof.
  revert code' c. induction code as [|s code IH]; intros code' c H; simpl in H.
  { by injection H as <- <-. }
  apply bind_ok_inv in H as (dead & Hd & H). apply bind_ok_inv in H as ([code1 c1] & Hc & H).
  specialize (IH _ _ Hc). rewrite stores_cons. destruct dead.
  - destruct (is_dead_store_inv _ Hd) as (x & Hst & _). rewrite decide_True by done.
    destruct (has_side_effects _); injection H as <- <-; [|lia].
    rewrite stores_cons, decide_False by done. lia.
  - injection H as <- <-. rewrite stores_cons. lia.
Qed.

Lemma merge_stores s1 code code' :
  merge fuel ts level ys s1 code = Ok code' → (stores code' ≤ stores (s1 :: code))%nat.
Proof.
  revert s1 code'. induction code as [|s2 code IH]; intros s1 code' H; cbn [merge] in H.
  { by injection H as <-. }
  apply bind_ok_inv in H as (c & _ & H). destruct c.
  - specialize (IH _ _ H). rewrite !stores_cons in *. simpl in IH.
    destruct (decide (st_st s2 = IR_ASSIGN)); lia.
  - apply bind_ok_inv in H as (code1 & Hm & H). injection H as <-. specialize (IH _ _ Hm).
    rewrite stores_cons, (stores_cons s1). lia.
Qed.
End transformations.
