(* ===== verification/SolverProps.v ===== *)
(** * The iterative solver (src/optimizer/optimize.c)

    [execute_iterative_dataflow] with [live_variable_analysis] ends on every
    flow graph, in at most [64 * blocks + 1] passes, and leaves annotations
    that another pass would not change; such annotations are valid. *)

From stdpp Require Import base list gmap numbers strings.
From Stdlib Require Import ZArith Lia.
From S2P Require Import Prelude CType Strings Symbol Typetree Ir Liveness Optimize IrSem LivenessProps.

Local Open Scope Z_scope.

(** A block without what the analysis writes into it. *)
Definition erase (s : statement) : statement := set_out s 0.

Lemma erase_cons s code s' code' :
  erase <$> s :: code = erase <$> s' :: code' → erase s = erase s' ∧ erase <$> code = erase <$> code'.
Proof. rewrite !fmap_cons. generalize (erase s), (erase s'). by intros ?? [= -> ->]. Qed.

(** ** Sums *)

Lemma sum_list_le {A} (f g : A → nat) l :
  (∀ x, x ∈ l → f x ≤ g x)%nat → (sum_list_with f l ≤ sum_list_with g l)%nat.
Proof.
  induction l as [|x l IH]; intros H; simpl; [done|].
  pose proof (H x ltac:(left)). specialize (IH (λ y Hy, H y (list_elem_of_further _ _ _ Hy))). lia.
Qed.

Lemma sum_list_lt {A} (f g : A → nat) l x :
  (∀ x, x ∈ l → f x ≤ g x)%nat → x ∈ l → (f x < g x)%nat → (sum_list_with f l < sum_list_with g l)%nat.
Proof.
  intros H Hx Hlt. induction Hx as [x l|x y l Hx IH]; simpl.
  - pose proof (sum_list_le f g l (λ y Hy, H y (list_elem_of_further _ _ _ Hy))). lia.
  - pose proof (H y ltac:(left)). specialize (IH (λ z Hz, H z (list_elem_of_further _ _ _ Hz)) Hlt). lia.
Qed.

(** The number of the 64 symbols outside a set. *)
Definition room (L : Z) : nat := sum_list_with (λ i, if Z.testbit L i then 0%nat else 1%nat) (seqZ 0 64).

Lemma room_le a b : bits a b → (room b ≤ room a)%nat.
Proof.
  intros H. apply sum_list_le. intros i Hi%elem_of_seqZ.
  destruct (Z.testbit a i) eqn:E; [rewrite (H i); [done|lia|done]|]. destruct (Z.testbit b i); lia.
Qed.

Lemma room_lt a b : bits a b → bits b all_bits → a ≠ b → (room b < room a)%nat.
Proof.
  intros H Hall Hne. assert (∃ i, 0 ≤ i < 64 ∧ Z.testbit a i = false ∧ Z.testbit b i = true) as (i & Hi & Ha & Hb).
  { destruct (decide (Forall (λ i, Z.testbit b i = true → Z.testbit a i = true) (seqZ 0 64))) as [HF|HF].
    - exfalso. apply Hne. apply Z.bits_inj'. intros i Hi. rewrite Forall_forall in HF.
      destruct (Z.testbit b i) eqn:Eb.
      + apply HF; [|done]. apply elem_of_seqZ. split; [done|].
        pose proof (Hall i Hi Eb) as E. destruct (Z.lt_ge_cases i 64) as [|Hge]; [lia|].
        change all_bits with (Z.ones 64) in E. by rewrite Z.ones_spec_high in E by lia.
      + destruct (Z.testbit a i) eqn:Ea; [|done]. by rewrite (H i Hi Ea) in Eb.
    - apply not_Forall_Exists in HF; [|solve_decision]. apply Exists_exists in HF as (i & Hi%elem_of_seqZ & Hb).
      exists i. split; [lia|]. simpl in Hb.
      destruct (Z.testbit a i), (Z.testbit b i); first [done | exfalso; apply Hb; done]. }
  apply (sum_list_lt _ _ _ i).
  - intros j Hj%elem_of_seqZ. destruct (Z.testbit a j) eqn:E; [rewrite (H j); [done|lia|done]|].
    destruct (Z.testbit b j); lia.
  - apply elem_of_seqZ. lia.
  - rewrite Ha, Hb. lia.
Qed.

Lemma room_64 L : (room L ≤ 64)%nat.
Proof.
  unfold room. etrans; [apply (sum_list_le _ (λ _, 1%nat))|].
  - intros i _. destruct (Z.testbit L i); lia.
  - vm_compute. lia.
Qed.

(** Sets that only grow ([d = true]) or only shrink, and the steps left to
    them. *)
Definition rel (d : bool) (a b : Z) : Prop := if d then bits a b else bits b a.
Definition spare (d : bool) (L : Z) : nat := if d then room L else (64 - room L)%nat.

Lemma rel_refl d a : rel d a a.
Proof. destruct d; apply bits_refl. Qed.
Lemma rel_trans d a b c : rel d a b → rel d b c → rel d a c.
Proof. destruct d; simpl; eauto using bits_trans. Qed.
Lemma spare_le d a b : rel d a b → (spare d b ≤ spare d a)%nat.
Proof. destruct d; cbn [rel spare]; intros H%room_le; lia. Qed.
Lemma spare_lt d a b : rel d a b → bits a all_bits → bits b all_bits → a ≠ b → (spare d b < spare d a)%nat.
Proof.
  destruct d; cbn [rel spare]; intros H Ha Hb Hne; [by apply room_lt|].
  pose proof (room_lt b a H Ha (not_eq_sym Hne)). pose proof (room_64 b). lia.
Qed.
Lemma spare_64 d L : (spare d L ≤ 64)%nat.
Proof. destruct d; cbn [spare]; [apply room_64|lia]. Qed.

Section solver.
Context (fuel : nat) (ts : typetab) (ys : symbols).

Local Abbreviation transfer := (transfer fuel ts ys).
Local Abbreviation flow := (flow fuel ts ys).
Local Abbreviation analysis := (live_variable_analysis fuel ts ys).
Local Abbreviation valid := (valid (fuel:=fuel) (ts:=ts) (ys:=ys)).

(** ** One statement *)

Lemma transfer_erase s s' o : erase s = erase s' → transfer s o = transfer s' o.
Proof.
  intros H. assert (E : set_out (erase s) (st_out s') = s').
  { rewrite H. by destruct s'. }
  rewrite <-E. by destruct s.
Qed.

Lemma set_use_bit_all v u : set_use_bit ys v = Ok u → bits u all_bits.
Proof.
  assert (Hb : ∀ y b, bit_of y = Ok b → bits b all_bits).
  { intros y b H i Hi Hbit. destruct (testbit_bit_of _ _ _ H Hi) as [E ?]. rewrite E in Hbit.
    apply bool_decide_eq_true in Hbit. apply testbit_all. lia. }
  unfold set_use_bit. intros H. destruct (v_kind v); [| |injection H as <-; apply bits_refl|].
  1, 2: ok_inv; destruct (is_object (sym_type a)); [ok_inv; eauto|injection H as <-; apply bits_0].
  destruct (v_symbol v); [ok_inv; eauto|injection H as <-; apply bits_0].
Qed.

Lemma use_all e u : use ys e = Ok u → bits u all_bits.
Proof.
  unfold use. intros H. apply bind_ok_inv in H as (r & Hr & H). apply bind_ok_inv in H as (l & Hl & H).
  injection H as <-. apply bits_lor. split; [|by eapply set_use_bit_all].
  destruct (binary (ex_op e)); [by eapply set_use_bit_all|]. injection Hr as <-. apply bits_0.
Qed.

Lemma uses_all s u : uses fuel ts ys s = Ok u → bits u all_bits.
Proof.
  unfold uses. intros H. apply bind_ok_inv in H as (r & Hr & H). apply use_all in Hr.
  destruct (st_st s); try (by injection H as <-).
  - apply bind_ok_inv in H as (p & _ & H). injection H as <-. destruct p; [|done].
    apply bits_lor. split; [done|apply bits_refl].
  - destruct (bool_decide (v_kind (st_t s) = DEREF) && _); [|by injection H as <-].
    apply bind_ok_inv in H as (t & Ht & H). injection H as <-. apply bits_lor.
    split; [done|by eapply set_use_bit_all].
Qed.

(** Where a transfer is defined, it is defined for every set, grows with it
    and stays in the 64 bits. *)
Lemma transfer_total s o i o' : transfer s o = Ok i →
  ∃ i', transfer s o' = Ok i' ∧ (bits o o' → bits i i') ∧ (bits o' all_bits → bits i' all_bits).
Proof.
  unfold Liveness.transfer. intros H. ok_inv. subst i.
  eexists. rewrite Ha. cbn [mbind outcome_bind]. rewrite Ha0. cbn [mbind outcome_bind].
  split; [done|]. split; [auto with bits|]. intros Ho. apply bits_lor. split.
  - intros j Hj. rewrite Z.ldiff_spec, andb_true_iff. intros [? _]. auto.
  - by eapply uses_all.
Qed.

(** ** The statements of a block *)

Definition ready_code (code : list statement) : Prop := Forall (λ s, ∃ i, transfer s 0 = Ok i) code.

Lemma ready_code_erase code code' :
  erase <$> code = erase <$> code' → ready_code code → ready_code code'.
Proof.
  intros H HR. revert code' H. induction HR as [|s code [i Hi] _ IH]; intros [|s' code'] H; try done.
  - constructor.
  - apply erase_cons in H as [H0 H1]. constructor; [|by apply IH]. exists i. rewrite <-Hi. symmetry.
    by apply transfer_erase.
Qed.

Lemma flow_total code o : ready_code code → ∃ code' i, flow code o = Ok (code', i) ∧
  erase <$> code' = erase <$> code ∧ (bits o all_bits → bits i all_bits ∧ valid i code' o).
Proof.
  induction 1 as [|s code [i0 Hi0] _ IH]; simpl.
  - exists [], o. split; [done|]. split; [done|]. intros; split; [done|apply bits_refl].
  - destruct IH as (code' & k & -> & He & Hv). cbn [mbind outcome_bind].
    destruct (transfer_total s 0 i0 k Hi0) as (i & Hi & _ & Hall). rewrite Hi. cbn [mbind outcome_bind].
    eexists _, i. split; [done|]. split; [by rewrite !fmap_cons, He|]. intros Ho. destruct (Hv Ho) as [Hk Hvk].
    split; [auto|]. split; [|by split]. exists i. split; [|apply bits_refl].
    rewrite <-Hi. by apply transfer_erase.
Qed.

Lemma flow_mono code code2 o o2 c i c2 i2 :
  ready_code code → erase <$> code = erase <$> code2 → bits o o2 →
  flow code o = Ok (c, i) → flow code2 o2 = Ok (c2, i2) → bits i i2.
Proof.
  intros HR. revert code2 c i c2 i2. induction HR as [|s code [i0 Hi0] HR IH];
    intros [|s2 code2] c i c2 i2 He Ho H H2; try done.
  - injection H as _ <-. by injection H2 as _ <-.
  - simpl in H, H2. apply bind_ok_inv in H as ([c' k] & Hf & H).
    apply bind_ok_inv in H2 as ([c2' k2] & Hf2 & H2).
    apply bind_ok_inv in H as (j & Hj & H). injection H as _ <-.
    apply bind_ok_inv in H2 as (j2 & Hj2 & H2). injection H2 as _ <-.
    apply erase_cons in He as [Hs He]. assert (Hk : bits k k2) by (by apply (IH code2 c' k c2' k2)).
    rewrite <-(transfer_erase s s2 _ Hs) in Hj2.
    destruct (transfer_total s k j k2 Hj) as (i' & Hi' & Hm & _).
    rewrite Hi' in Hj2. injection Hj2 as <-. auto.
Qed.

(** The annotations are a fixpoint: the flow through annotated code writes the
    same annotations. *)
Lemma flow_again code o code' i : flow code o = Ok (code', i) → flow code' o = Ok (code', i).
Proof.
  revert code' i. induction code as [|s code IH]; intros code' i H; simpl in H.
  - by injection H as <- <-.
  - apply bind_ok_inv in H as ([c k] & Hf & H). apply bind_ok_inv in H as (j & Hj & H).
    injection H as <- <-. simpl. rewrite (IH _ _ Hf). cbn [mbind outcome_bind].
    rewrite (transfer_erase _ s), Hj; done.
Qed.

(** ** The blocks *)

Definition ready_block (bs : blocks) (rs : list bref) (b : block) : Prop :=
  ready_code (b_code b) ∧ (∃ e, exit_live ys b 0 = Ok e) ∧
  (∀ j, b_jump0 b = Some j → j ∈ rs) ∧ (∀ j, b_jump1 b = Some j → j ∈ rs).

(** Every symbol in use has its number, and every jump has its target. *)
Definition ready (bs : blocks) (rs : list bref) : Prop :=
  ∀ r, r ∈ rs → ∃ b, bs !! r = Some b ∧ ready_block bs rs b.

(** One more visit changes nothing. *)
Definition solved (bs : blocks) (r : bref) : Prop := analysis bs r = Ok (bs, 0).

Lemma exit_live_total b o e o' : exit_live ys b o = Ok e →
  ∃ e', exit_live ys b o' = Ok e' ∧ (bits o o' → bits e e') ∧ (bits o' all_bits → bits e' all_bits).
Proof.
  unfold exit_live. destruct (negb _ || _).
  - intros H. apply bind_ok_inv in H as (u & Hu & H). injection H as <-. rewrite Hu.
    eexists. split; [done|]. split; [auto with bits|]. intros. apply bits_lor. split; [done|by eapply use_all].
  - intros [= <-]. exists o'. auto.
Qed.

Lemma exit_live_clear b b' o : clear_block b = clear_block b' → exit_live ys b o = exit_live ys b' o.
Proof. destruct b, b'. unfold clear_block, set_live, exit_live. simpl. intros [=]. by subst. Qed.

Lemma code_clear b b' : clear_block b = clear_block b' → erase <$> b_code b = erase <$> b_code b'.
Proof. destruct b, b'. unfold clear_block, set_live. simpl. by intros [=]. Qed.

Lemma jumps_clear b b' : clear_block b = clear_block b' → b_jump0 b = b_jump0 b' ∧ b_jump1 b = b_jump1 b'.
Proof. destruct b, b'. unfold clear_block, set_live. simpl. by intros [=]. Qed.

Lemma clear_set_live b code i o : erase <$> code = erase <$> b_code b →
  clear_block (set_live b code i o) = clear_block b.
Proof. destruct b. unfold clear_block, set_live. simpl. change (λ s, set_out s 0) with erase. by intros ->. Qed.

(** What a visit makes of a block. *)
Definition visit (bs : blocks) (b b' : block) : Prop := ∃ o e code i,
  out_of_jumps bs b = Ok o ∧ exit_live ys b o = Ok e ∧ flow (b_code b) e = Ok (code, i) ∧
  b' = set_live b code i o.

(** The sets in front of the blocks. *)
Definition fronts (bs : blocks) : gmap bref Z := b_in <$> bs.
Definition fronts_le (rs : list bref) (bs bs' : blocks) : Prop := ∀ r b b',
  r ∈ rs → bs !! r = Some b → bs' !! r = Some b' → bits (b_in b) (b_in b').
Definition fronts_all (rs : list bref) (bs : blocks) : Prop :=
  ∀ r b, r ∈ rs → bs !! r = Some b → bits (b_in b) all_bits.

Lemma out_of_jumps_total rs bs b :
  ready bs rs → ready_block bs rs b → fronts_all rs bs → ∃ o, out_of_jumps bs b = Ok o ∧ bits o all_bits.
Proof.
  intros HR (_ & _ & H0 & H1) Hall. unfold out_of_jumps, get_block.
  destruct (b_jump0 b) as [j0|]; [|eexists; split; [done|apply bits_0]].
  destruct (HR j0 (H0 _ eq_refl)) as (t0 & E0 & _). rewrite E0. simpl.
  destruct (b_jump1 b) as [j1|]; [|eexists; split; [done|]; by eapply Hall; [apply H0|]].
  destruct (HR j1 (H1 _ eq_refl)) as (t1 & E1 & _). rewrite E1. simpl.
  eexists. split; [done|]. apply bits_lor.
  split; (eapply Hall; [|done]); [by apply H0|by apply H1].
Qed.

Lemma out_of_jumps_mono rs bs bs' b b' o o' :
  ready_block bs rs b → clear_block b = clear_block b' → fronts_le rs bs bs' →
  out_of_jumps bs b = Ok o → out_of_jumps bs' b' = Ok o' → bits o o'.
Proof.
  intros (_ & _ & H0 & H1) He Hle. destruct (jumps_clear _ _ He) as [E0 E1].
  unfold out_of_jumps, get_block. rewrite <-E0, <-E1.
  destruct (b_jump0 b) as [j0|]; [|intros [= <-] _; apply bits_0].
  specialize (H0 _ eq_refl).
  destruct (b_jump1 b) as [j1|]; intros H H'; ok_inv; subst.
  - apply bits_lor_mono; (eapply Hle; [|done|done]); [done|by apply H1].
  - by eapply Hle.
Qed.

Lemma out_of_jumps_fronts bs bs' b : fronts bs = fronts bs' → out_of_jumps bs b = out_of_jumps bs' b.
Proof.
  intros H. assert (Hj : ∀ j, b_in <$> bs !! j = b_in <$> bs' !! j).
  { intros j. unfold fronts in H. rewrite <-!lookup_fmap. by rewrite H. }
  unfold out_of_jumps, get_block. destruct (b_jump0 b) as [j0|]; [|done].
  pose proof (Hj j0) as H0. destruct (bs !! j0), (bs' !! j0); try done; simpl in *.
  injection H0 as ->. destruct (b_jump1 b) as [j1|]; [|done].
  pose proof (Hj j1) as H1. destruct (bs !! j1), (bs' !! j1); try done; simpl in *. by injection H1 as ->.
Qed.

Lemma visit_total rs bs b :
  ready bs rs → ready_block bs rs b → fronts_all rs bs →
  ∃ b', visit bs b b' ∧ clear_block b' = clear_block b ∧ bits (b_in b') all_bits.
Proof.
  intros HR HB Hall. destruct (out_of_jumps_total rs bs b HR HB Hall) as (o & Ho & Hoa).
  destruct HB as (Hc & (e0 & He0) & _).
  destruct (exit_live_total b 0 e0 o He0) as (e & He & _ & Hea).
  destruct (flow_total (b_code b) e Hc) as (code & i & Hf & Herase & Hv).
  exists (set_live b code i o). split; [by exists o, e, code, i|]. split; [by apply clear_set_live|].
  apply Hv. auto.
Qed.

Lemma visit_mono rs bs bs' b b' c c' :
  ready_block bs rs b → clear_block b = clear_block b' → fronts_le rs bs bs' →
  visit bs b c → visit bs' b' c' → bits (b_in c) (b_in c').
Proof.
  intros HB He Hle (o & e & code & i & Ho & Hx & Hf & ->) (o' & e' & code' & i' & Ho' & Hx' & Hf' & ->).
  simpl. pose proof (out_of_jumps_mono _ _ _ _ _ _ _ HB He Hle Ho Ho') as Hoo.
  rewrite <-(exit_live_clear b b' _ He) in Hx'.
  destruct (exit_live_total b o e o' Hx) as (e2 & He2 & Hm & _). rewrite Hx' in He2. injection He2 as <-.
  destruct HB as (Hc & _). eapply flow_mono; [exact Hc|by apply code_clear|by apply Hm|done|done].
Qed.

Lemma visit_again bs b c : visit bs b c → visit bs c c.
Proof.
  intros (o & e & code & i & Ho & Hx & Hf & ->). exists o, e, code, i.
  split; [done|]. split; [done|]. split; [by eapply flow_again|]. done.
Qed.

(** ** Passes *)

Lemma ready_block_clear bs bs' rs b b' :
  clear_block b = clear_block b' → ready_block bs rs b → ready_block bs' rs b'.
Proof.
  intros He (Hc & (e & Hx) & H0 & H1). destruct (jumps_clear _ _ He) as [E0 E1].
  unfold ready_block. rewrite <-E0, <-E1. split; [by eapply ready_code_erase, Hc; apply code_clear|].
  split; [|done]. exists e. by rewrite <-(exit_live_clear b b' _ He).
Qed.

Definition fronts_rel (d : bool) (rs : list bref) (bs bs' : blocks) : Prop := ∀ r b b',
  r ∈ rs → bs !! r = Some b → bs' !! r = Some b' → rel d (b_in b) (b_in b').

Lemma visit_rel d rs bs bs' b b' c c' :
  ready_block bs rs b → clear_block b = clear_block b' → fronts_rel d rs bs bs' →
  visit bs b c → visit bs' b' c' → rel d (b_in c) (b_in c').
Proof.
  intros HB He Hle Hv Hv'. destruct d; simpl.
  - by apply (visit_mono rs bs bs' b b').
  - apply (visit_mono rs bs' bs b' b); try done; [by eapply ready_block_clear|].
    intros r x y Hr Hx Hy. by apply (Hle r y x).
Qed.

(** Between two passes: from here the sets only grow, or only shrink. *)
Record growing (d : bool) (rs : list bref) (bs : blocks) : Prop := Growing {
  g_ready : ready bs rs;
  g_all : fronts_all rs bs;
  g_post : ∀ r b b', r ∈ rs → bs !! r = Some b → visit bs b b' → rel d (b_in b) (b_in b')
}.

Definition measure (d : bool) (rs : list bref) (bs : blocks) : nat :=
  sum_list_with (λ r, match bs !! r with Some b => spare d (b_in b) | None => O end) rs.

Definition shape (bs : blocks) : blocks := clear_block <$> bs.

Lemma shape_lookup bs bs' r b : shape bs = shape bs' → bs !! r = Some b →
  ∃ b', bs' !! r = Some b' ∧ clear_block b' = clear_block b.
Proof.
  intros H Hb. assert (E : shape bs !! r = shape bs' !! r) by (by rewrite H).
  unfold shape in E. rewrite !lookup_fmap, Hb in E. simpl in E.
  destruct (bs' !! r) as [b'|]; [|done]. exists b'. split; [done|]. simpl in E. congruence.
Qed.

Lemma ready_shape bs bs' rs : shape bs = shape bs' → ready bs rs → ready bs' rs.
Proof.
  intros H HR r Hr. destruct (HR r Hr) as (b & Hb & HB).
  destruct (shape_lookup _ _ _ _ H Hb) as (b' & Hb' & He). exists b'. split; [done|].
  by eapply ready_block_clear.
Qed.

Lemma shape_insert bs r b c : bs !! r = Some b → clear_block c = clear_block b →
  shape (<[r := c]> bs) = shape bs.
Proof. intros Hb Hc. unfold shape. rewrite fmap_insert, Hc, <-fmap_insert. by rewrite insert_id. Qed.

Lemma analysis_visit bs r b c : bs !! r = Some b → visit bs b c →
  analysis bs r = Ok (<[r := c]> bs, if b_in c =? b_in b then 0 else 1).
Proof.
  intros Hb (o & e & code & i & Ho & Hx & Hf & ->). unfold live_variable_analysis, get_block.
  rewrite Hb. cbn [defined mbind outcome_bind]. rewrite Ho. cbn [mbind outcome_bind].
  rewrite Hx. cbn [mbind outcome_bind]. by rewrite Hf.
Qed.

Lemma visit_fronts bs bs' b c : fronts bs = fronts bs' → visit bs b c → visit bs' b c.
Proof.
  intros H (o & e & code & i & Ho & Hx). exists o, e, code, i. by rewrite <-(out_of_jumps_fronts _ _ _ H).
Qed.

Lemma visit_solved bs r b : bs !! r = Some b → visit bs b b → solved bs r.
Proof.
  intros Hb Hv. unfold solved. rewrite (analysis_visit bs r b b Hb Hv), Z.eqb_refl.
  by rewrite insert_id.
Qed.

Lemma solved_visit bs r : solved bs r → ∃ b, bs !! r = Some b ∧ visit bs b b.
Proof.
  unfold solved, live_variable_analysis, get_block. intros H.
  apply bind_ok_inv in H as (b & Hb & H). apply defined_ok_inv in Hb. exists b. split; [done|].
  apply bind_ok_inv in H as (o & Ho & H). apply bind_ok_inv in H as (e & He & H).
  apply bind_ok_inv in H as ([code i] & Hf & H). injection H as H _.
  exists o, e, code, i. split; [done|]. split; [done|]. split; [done|].
  apply (f_equal (lookup r)) in H. rewrite lookup_insert_eq, Hb in H. by injection H.
Qed.

(** A visit keeps the invariant and makes progress or changes no set. *)
Lemma visit_growing d rs bs r :
  growing d rs bs → r ∈ rs → ∃ bs' n, analysis bs r = Ok (bs', n) ∧ growing d rs bs' ∧
  shape bs' = shape bs ∧ (measure d rs bs' ≤ measure d rs bs)%nat ∧ 0 ≤ n ∧
  (n ≠ 0 → (measure d rs bs' < measure d rs bs)%nat) ∧
  (n = 0 → fronts bs' = fronts bs ∧ ∀ q, q = r ∨ solved bs q → solved bs' q).
Proof.
  intros [HR Hall Hpost] Hr. destruct (HR r Hr) as (b & Hb & HB).
  destruct (visit_total rs bs b HR HB Hall) as (c & Hv & Hc & Hca).
  pose proof (Hpost r b c Hr Hb Hv) as Hgrow. pose proof (shape_insert bs r b c Hb Hc) as Hsh.
  assert (Hle : fronts_rel d rs bs (<[r := c]> bs)).
  { intros q b1 b2 Hq H1 H2. destruct (decide (q = r)) as [->|Hne].
    - rewrite lookup_insert_eq in H2. by simplify_eq.
    - rewrite lookup_insert_ne in H2 by done. simplify_eq. apply rel_refl. }
  exists (<[r := c]> bs), (if b_in c =? b_in b then 0 else 1).
  split; [by apply analysis_visit|]. split; [|split; [done|]].
  - split.
    + by eapply ready_shape.
    + intros q b1 Hq H1. destruct (decide (q = r)) as [->|Hne].
      * rewrite lookup_insert_eq in H1. by simplify_eq.
      * rewrite lookup_insert_ne in H1 by done. by eapply Hall.
    + intros q b1 b2 Hq H1 H2. destruct (decide (q = r)) as [->|Hne].
      * rewrite lookup_insert_eq in H1. injection H1 as <-.
        by apply (visit_rel d rs bs (<[r := c]> bs) b c c b2 HB (eq_sym Hc) Hle Hv H2).
      * rewrite lookup_insert_ne in H1 by done. destruct (HR q Hq) as (b3 & H3 & HB3).
        assert (b3 = b1) as -> by congruence.
        destruct (visit_total rs bs b1 HR HB3 Hall) as (c1 & Hv1 & _).
        eapply rel_trans; [by eapply Hpost|].
        by apply (visit_rel d rs bs (<[r := c]> bs) b1 b1 c1 b2 HB3 eq_refl Hle Hv1 H2).
  - assert (Hpt : ∀ q, q ∈ rs → (match <[r := c]> bs !! q with Some b => spare d (b_in b) | None => O end ≤
      match bs !! q with Some b => spare d (b_in b) | None => O end)%nat).
    { intros q Hq. destruct (decide (q = r)) as [->|Hne].
      - rewrite lookup_insert_eq, Hb. by apply spare_le.
      - by rewrite lookup_insert_ne by done. }
    split; [by apply sum_list_le|]. split; [destruct (_ =? _); lia|].
    destruct (Z.eqb_spec (b_in c) (b_in b)) as [Heq|Hne].
    + split; [by intros []|]. intros _. assert (HF : fronts (<[r := c]> bs) = fronts bs).
      { unfold fronts. rewrite fmap_insert, Heq, <-fmap_insert. by rewrite insert_id. }
      split; [done|]. intros q Hq. destruct (decide (q = r)) as [->|Hne].
      * apply (visit_solved _ r c); [by rewrite lookup_insert_eq|].
        apply (visit_fronts bs); [done|]. by eapply visit_again.
      * destruct Hq as [->|Hq]; [done|]. destruct (solved_visit _ _ Hq) as (b' & Hb' & Hv').
        apply (visit_solved _ q b'); [by rewrite lookup_insert_ne by done|]. by apply (visit_fronts bs).
    + split; [|lia]. intros _. apply (sum_list_lt _ _ _ r); [done|done|].
      rewrite lookup_insert_eq, Hb. apply spare_lt; [done|by eapply Hall|done|]. congruence.
Qed.

Lemma traverse_growing d rs l bs :
  growing d rs bs → (∀ r, r ∈ l → r ∈ rs) → ∃ bs' n, traverse analysis bs l = Ok (bs', n) ∧
  growing d rs bs' ∧ shape bs' = shape bs ∧ (measure d rs bs' ≤ measure d rs bs)%nat ∧ 0 ≤ n ∧
  (n ≠ 0 → (measure d rs bs' < measure d rs bs)%nat) ∧
  (n = 0 → ∀ q, q ∈ l ∨ solved bs q → solved bs' q).
Proof.
  revert bs. induction l as [|r l IH]; intros bs HG Hl; simpl.
  - exists bs, 0. split; [done|]. split; [done|]. split; [done|]. split; [done|]. split; [done|].
    split; [done|]. intros _ q [Hq|]; [by apply not_elem_of_nil in Hq|done].
  - destruct (visit_growing d rs bs r HG (Hl r ltac:(left))) as (bs1 & n & -> & HG1 & Hs1 & Hm1 & Hn & Hlt1 & Hz1).
    cbn [mbind outcome_bind].
    destruct (IH bs1 HG1 (λ q Hq, Hl q (list_elem_of_further _ _ _ Hq)))
      as (bs2 & k & -> & HG2 & Hs2 & Hm2 & Hk & Hlt2 & Hz2).
    exists bs2, (n + k). split; [done|]. split; [done|]. split; [congruence|]. split; [lia|].
    split; [lia|]. split.
    + intros Hnk. destruct (decide (n = 0)); [|specialize (Hlt1 ltac:(done)); lia].
      specialize (Hlt2 ltac:(lia)). lia.
    + intros Hnk q Hq. assert (n = 0) as E1 by lia. assert (k = 0) as E2 by lia.
      destruct (Hz1 E1) as [_ Hq1]. apply Hz2; [done|].
      destruct Hq as [Hq|Hq]; [|right; auto]. apply elem_of_cons in Hq as [->|Hq]; auto.
Qed.

Lemma iterate_growing d rs n bs :
  growing d rs bs → (measure d rs bs < n)%nat → ∃ bs',
  execute_iterative_dataflow n analysis bs rs = Ok bs' ∧ growing d rs bs' ∧ shape bs' = shape bs ∧
  ∀ r, r ∈ rs → solved bs' r.
Proof.
  revert bs. induction n as [|n IH]; intros bs HG Hn; [lia|]. cbn [execute_iterative_dataflow].
  destruct (traverse_growing d rs rs bs HG (λ _ H, H)) as (bs1 & k & -> & HG1 & Hs & Hm & Hk & Hlt & Hz).
  cbn [mbind outcome_bind]. destruct (Z.eqb_spec k 0) as [->|Hne].
  - exists bs1. split; [done|]. split; [done|]. split; [done|]. auto.
  - specialize (Hlt Hne). destruct (IH bs1 HG1 ltac:(lia)) as (bs2 & H2 & HG2 & Hs2 & Hsol).
    exists bs2. split; [done|]. split; [done|]. split; [congruence|done].
Qed.

Lemma measure_64 (d : bool) rs bs : (measure d rs bs ≤ 64 * length rs)%nat.
Proof.
  unfold measure. induction rs as [|r rs IH]; simpl; [lia|].
  destruct (bs !! r); [pose proof (spare_64 d (b_in b)); lia|lia].
Qed.

(** From empty sets the iteration starts. *)
Lemma cleared_growing rs bs :
  ready bs rs → (∀ r b, r ∈ rs → bs !! r = Some b → b_in b = 0) → growing true rs bs.
Proof.
  intros HR H0. split; [done| |].
  - intros r b Hr Hb. rewrite (H0 r b Hr Hb). apply bits_0.
  - intros r b b' Hr Hb _. rewrite (H0 r b Hr Hb). apply bits_0.
Qed.

(** A solved block is validly annotated, up to what is live at its end. *)
Lemma solved_valid (d : bool) bs rs r b : growing d rs bs → r ∈ rs → bs !! r = Some b → solved bs r →
  ∃ o e, out_of_jumps bs b = Ok o ∧ exit_live ys b o = Ok e ∧ valid (b_in b) (b_code b) e ∧
         bits e all_bits ∧ bits (b_in b) all_bits.
Proof.
  intros [HR Hall _] Hr Hb Hs. destruct (solved_visit _ _ Hs) as (b' & Hb' & o & e & code & i & Ho & Hx & Hf & E).
  assert (b' = b) as -> by congruence. exists o, e. split; [done|]. split; [done|].
  destruct (HR r Hr) as (b2 & Hb2 & HB). assert (b2 = b) as -> by congruence.
  destruct (out_of_jumps_total rs bs b HR HB Hall) as (o' & Ho' & Hoa).
  assert (o' = o) as -> by congruence. destruct HB as (Hc & (e0 & He0) & _).
  destruct (exit_live_total b 0 e0 o He0) as (e' & He' & _ & Hea). assert (e' = e) as -> by congruence.
  destruct (flow_total (b_code b) e Hc) as (code' & i' & Hf' & _ & Hv). rewrite Hf in Hf'.
  injection Hf' as <- <-. assert (b_code b = code ∧ b_in b = i) as [-> ->] by (by rewrite E).
  split; [by apply Hv; auto|]. split; [auto|]. by apply Hv; auto.
Qed.

(** What a visit computes is inside any valid annotation. *)
Lemma flow_valid code code2 o c i L : ready_code code → erase <$> code2 = erase <$> code →
  valid L code2 o → flow code o = Ok (c, i) → bits i L.
Proof.
  intros HR. revert code2 c i L. induction HR as [|s code [i0 Hi0] HR IH]; intros [|s2 code2] c i L He Hv H; try done.
  - by injection H as _ <-.
  - apply erase_cons in He as [Hs He]. destruct Hv as ((j & Hj & HjL) & _ & Hv).
    cbn [Liveness.flow] in H. apply bind_ok_inv in H as ([c' k] & Hf & H).
    apply bind_ok_inv in H as (j2 & Hj2 & H). injection H as _ <-.
    pose proof (IH code2 c' k _ He Hv Hf) as Hk. rewrite <-(transfer_erase s2 s _ Hs) in Hj2.
    destruct (transfer_total s2 k j2 (st_out s2) Hj2) as (j3 & Hj3 & Hm & _).
    assert (j3 = j) as -> by congruence. eapply bits_trans; [|done]. auto.
Qed.
End solver.
