(* ===== verification/OptimizeRuns.v ===== *)
(** * A machine and functions to run the optimizer on

    A concrete instance of the [machine] of IrSem, shown to be lawful, and
    the flow graphs on which the theorems of OptimizeSpec are instantiated. *)

From stdpp Require Import base list gmap numbers strings.
From Stdlib Require Import ZArith Lia.
From S2P Require Import Prelude Memory CType Strings Symbol Typetree Ir Liveness Optimize IrSem LivenessProps OptimizeProps SolverProps.

Local Open Scope Z_scope.

(** ** Bit-fields, byte by byte *)

Definition field_mask (v : var) : Z := Z.shiftl (Z.ones (v_field_width v)) (v_field_offset v).
Definition demo_insert (v : var) (old new : list Z) : list Z :=
  imap (λ i b, Z.lor (Z.ldiff b (Z.shiftr (field_mask v) (8 * Z.of_nat i) mod 256))
    (Z.shiftr (Z.land (Z.shiftl (le_dec new) (v_field_offset v)) (field_mask v)) (8 * Z.of_nat i) mod 256)) old.
Definition demo_extract (v : var) (bs : list Z) : list Z :=
  le_enc (length bs) (Z.land (Z.shiftr (le_dec bs) (v_field_offset v)) (Z.ones (v_field_width v))).

(** Identity casts and addition are all the functions below use. *)
Definition demo_operate (e : expression) (l r : list Z) : option (list Z) :=
  match ex_op e with
  | IR_OP_CAST => Some l
  | IR_OP_ADD => Some (le_enc (length l) (le_dec l + le_dec r))
  | _ => None
  end.

Definition demo_machine (callee : mem → list Z → ctype → list (ctype * list Z) → option (mem * list Z)) :
  machine := Machine (λ s, 4096 + 16 * Z.of_N s) demo_operate demo_extract demo_insert
    (λ _ v, existsb (λ b, negb (b =? 0)) v) callee.

(** ** Symbols *)

Definition pointer_to (t : ctype) : ctype :=
  Ctype (t_type t) (t_unsigned t) false false false true false false false 0.
Definition basic_type__function : ctype := basic_type T_FUNCTION false.

Definition demo_symbol (t : ctype) (l : linkage) (i : Z) : symbol :=
  Symbol str_zero t SYM_DEFINITION l 0 0 i 0 0 0 0 NoValue.

(** [int x, y, t, z;] [extern int f(void);] [int *g;], with these numbers
    and indexes. *)
Definition demo_symbols (ix iy it iz ig : Z) : symbols := list_to_map [
  (1%N, demo_symbol basic_type__int LINK_NONE ix);
  (2%N, demo_symbol basic_type__int LINK_NONE iy);
  (3%N, demo_symbol basic_type__int LINK_NONE it);
  (4%N, demo_symbol basic_type__int LINK_NONE iz);
  (5%N, demo_symbol basic_type__function LINK_EXTERN 0);
  (6%N, demo_symbol (pointer_to basic_type__int) LINK_EXTERN ig) ].

Definition direct (s : symref) (t : ctype) : var := Var DIRECT t (Some s) 0 0 0 true 0.
Definition address (s : symref) (t : ctype) : var := Var ADDRESS (pointer_to t) (Some s) 0 0 0 false 0.
Definition immediate (z : Z) : var := Var IMMEDIATE basic_type__int None 0 0 0 false z.
Definition as_expr (v : var) : expression := Expression IR_OP_CAST (v_type v) v v.
Definition call_of (f : symref) : expression :=
  Expression IR_OP_CALL basic_type__int (address f basic_type__function) (immediate 0).
Definition plus (a b : var) : expression := Expression IR_OP_ADD basic_type__int a b.
Definition assign (t : var) (e : expression) : statement := Statement IR_ASSIGN 0 t e.

Definition demo_block (code : list statement) (e : expression) (j0 j1 : option bref) (ret : bool) : block :=
  Block (Some 0%N) code e j0 j1 false (immediate 0) [] None ret false WHITE 0 0.

Definition vx := direct 1%N basic_type__int.
Definition vy := direct 2%N basic_type__int.
Definition vt := direct 3%N basic_type__int.
Definition vz := direct 4%N basic_type__int.

(** [x = 5; z = 7; t = x + 1; y = t;] and, in the next block, [return y;]. *)
Definition demo_block1 : block :=
  demo_block [assign vx (as_expr (immediate 5)); assign vz (as_expr (immediate 7));
              assign vt (plus vx (immediate 1)); assign vy (as_expr vt)]
    (as_expr (immediate 0)) (Some 2%N) None false.
Definition demo_block2 : block := demo_block [] (as_expr vy) None None true.
Definition demo_graph : blocks := list_to_map [(1%N, demo_block1); (2%N, demo_block2)].

(** The places of the symbols. *)
Definition demo_memory : mem := mblock 4096 (replicate 128 0).

(** ** The laws *)

Definition quiet_callee (m : mem) (f : list Z) (t : ctype) (ps : list (ctype * list Z)) :
    option (mem * list Z) := Some (m, [0; 0; 0; 0]).

Lemma demo_lawful :
  lawful 4 [] (demo_symbols 1 2 3 4 0) (demo_machine quiet_callee).
Proof.
  assert (Hsize : map_Forall (λ _ y, ∀ n, bytes_of 4 [] (sym_type y) = Some n → (n ≤ 8)%nat)
    (demo_symbols 1 2 3 4 0)).
  { apply (map_Forall_impl (λ _ y, default 0%nat (bytes_of 4 [] (sym_type y)) ≤ 8)%nat).
    - apply (bool_decide_eq_true_1 _). vm_compute. reflexivity.
    - intros _ y Hy n Hn. by rewrite Hn in Hy. }
  assert (Hidx : map_Forall (λ s y, map_Forall (λ s' y', 1 ≤ sym_index y → sym_index y = sym_index y' → s = s')
    (demo_symbols 1 2 3 4 0)) (demo_symbols 1 2 3 4 0)).
  { apply (bool_decide_eq_true_1 _). vm_compute. reflexivity. }
  split.
  - intros s y n s' y' n' a Hy Hn Ha Hy' Hn' Ha'. specialize (Hsize s y Hy n Hn) as Hs.
    specialize (Hsize s' y' Hy' n' Hn') as Hs'. simpl in Ha, Ha'. lia.
  - intros s y s' y' Hy Hy'. by apply (Hidx s y Hy s' y').
  - intros v old old' new i Hl Hi. simpl. unfold demo_insert. by rewrite !list_lookup_imap, Hi.
  - intros v old old' new Hl. simpl. unfold demo_insert. by rewrite !length_imap.
  - intros m m' f t ps m1 v _ [Hd Hm] [= <- <-]. exists m'. split; [done|]. split; [done|]. split; [done|].
    split; [done|]. done.
Qed.

Lemma demo_identity : keeps_identity 4 [] (demo_machine quiet_callee).
Proof.
  intros e v w Hi _ Hop. simpl in Hop. unfold demo_operate in Hop. unfold is_identity in Hi.
  case_bool_decide as He; [|done]. rewrite He in Hop. congruence.
Qed.

(** * One round of the optimizer preserves every run

    The analysis, the removal of dead stores and the merging of chained
    assignments put together over a flow graph. *)

(** A traversal whose callback changes its own block only. *)
Lemma traverse_pointwise (R : block → block → Prop) f rs bs bs' n :
  (∀ bs r bs' n, f bs r = Ok (bs', n) → ∃ b b', bs !! r = Some b ∧ R b b' ∧ bs' = <[r := b']> bs) →
  NoDup rs → traverse f bs rs = Ok (bs', n) →
  (∀ r, r ∈ rs → ∃ b b', bs !! r = Some b ∧ bs' !! r = Some b' ∧ R b b') ∧
  (∀ r, r ∉ rs → bs' !! r = bs !! r).
Proof.
  intros Hf Hnd. revert bs n. induction Hnd as [|r rs Hr Hnd IH]; intros bs n H; simpl in H.
  - injection H as <- _. split; [|done]. intros r Hr. by apply not_elem_of_nil in Hr.
  - apply bind_ok_inv in H as ([bs1 k] & H1 & H). apply bind_ok_inv in H as ([bs2 j] & H2 & H).
    injection H as -> _. destruct (Hf _ _ _ _ H1) as (b & b' & Hb & HR & ->).
    destruct (IH _ _ H2) as [Hin Hout]. split.
    + intros q Hq. apply elem_of_cons in Hq as [->|Hq].
      * exists b, b'. split; [done|]. split; [|done]. by rewrite (Hout r Hr), lookup_insert_eq.
      * destruct (Hin q Hq) as (c & c' & Hc & Hc' & HRc).
        rewrite lookup_insert_ne in Hc by congruence. eauto.
    + intros q Hq. rewrite not_elem_of_cons in Hq. destruct Hq as [Hne Hq].
      rewrite (Hout q Hq). by apply lookup_insert_ne.
Qed.

Section runs.
Context (fuel : nat) (ts : typetab) (level : Z) (ys : symbols) (M : machine).
Context (HM : lawful fuel ts ys M) (HI : keeps_identity fuel ts M).

Local Abbreviation agree := (agree fuel ts ys M).
Local Abbreviation sagree := (sagree fuel ts ys M).
Local Abbreviation valid := (valid (fuel:=fuel) (ts:=ts) (ys:=ys)).
Local Abbreviation exec_code := (exec_code fuel ts ys M).
Local Abbreviation run := (run fuel ts ys M).

(** ** Flow graphs with annotations *)

Definition annotated_block (bs : blocks) (rs : list bref) (b : block) (o e : Z) : Prop :=
  block_ok fuel ts ys b ∧
  (∀ j, b_jump0 b = Some j → j ∈ rs) ∧ (∀ j, b_jump1 b = Some j → j ∈ rs) ∧
  out_of_jumps bs b = Ok o ∧ exit_live ys b o = Ok e ∧ valid (b_in b) (b_code b) e ∧
  bits e all_bits ∧ bits (b_in b) all_bits.

Definition annotated (bs : blocks) (rs : list bref) : Prop :=
  ∀ r, r ∈ rs → ∃ b o e, bs !! r = Some b ∧ annotated_block bs rs b o e.

Lemma solved_annotated d bs rs :
  growing fuel ts ys d rs bs → (∀ r, r ∈ rs → solved fuel ts ys bs r) →
  (∀ r b, r ∈ rs → bs !! r = Some b → block_ok fuel ts ys b) → annotated bs rs.
Proof.
  intros HG Hs Hok r Hr. destruct (g_ready _ _ _ _ _ _ HG r Hr) as (b & Hb & HB).
  destruct (solved_valid _ _ _ d bs rs r b HG Hr Hb (Hs r Hr)) as (o & e & ? & ? & ? & ? & ?).
  exists b, o, e. split; [done|]. destruct HB as (_ & _ & ? & ?).
  split; [by eapply Hok|]. done.
Qed.

(** ** Blocks with the same exits *)

Definition same_exit (b b' : block) : Prop :=
  b_expr b' = b_expr b ∧ b_jump0 b' = b_jump0 b ∧ b_jump1 b' = b_jump1 b ∧
  b_has_jump_table b' = b_has_jump_table b ∧ b_has_return_value b' = b_has_return_value b.

Lemma leave_exit σ b b' : same_exit b b' → leave fuel ts ys M σ b' = leave fuel ts ys M σ b.
Proof. intros (He & H0 & H1 & _ & Hr). unfold leave. by rewrite He, H0, H1, Hr. Qed.

(** The new code does what the old one did, up to what is dead at its end. *)
Definition refines (e : Z) (b b' : block) : Prop := ∀ m σ1,
  exec_code (m, []) (b_code b) = Some σ1 →
  ∃ σ1', exec_code (m, []) (b_code b') = Some σ1' ∧ sagree e σ1 σ1'.

Lemma out_of_jumps_jump bs b o m k r :
  out_of_jumps bs b = Ok o → ∀ σ, leave fuel ts ys M σ b = Some (m, k) → k = inr r →
  ∃ t, bs !! r = Some t ∧ bits (b_in t) o ∧ (b_jump0 b = Some r ∨ b_jump1 b = Some r).
Proof.
  unfold out_of_jumps, leave, get_block. intros Ho σ H ->.
  destruct (b_jump0 b) as [j0|].
  - apply bind_ok_inv in Ho as (t0 & H0 & Ho). apply defined_ok_inv in H0.
    destruct (b_jump1 b) as [j1|].
    + apply bind_ok_inv in Ho as (t1 & H1 & Ho). apply defined_ok_inv in H1. injection Ho as <-.
      apply bind_Some in H as ([σ1 v] & _ & H). case_decide; [|done]. injection H as _ H.
      destruct (test M (b_expr b) v); subst r; [exists t1|exists t0]; auto with bits.
    + injection Ho as <-. case_decide; [|done]. injection H as _ <-. exists t0. auto with bits.
  - destruct (b_has_return_value b).
    + apply bind_Some in H as ([σ1 v] & _ & H). by case_decide.
    + by case_decide.
Qed.

Lemma exit_live_bits b o e : exit_live ys b o = Ok e → bits o e ∧
  (negb (bool_decide (b_jump1 b = None)) || b_has_return_value b = true →
   ∃ u, use ys (b_expr b) = Ok u ∧ bits u e).
Proof.
  unfold exit_live. destruct (negb _ || _).
  - intros H. apply bind_ok_inv in H as (u & Hu & H). injection H as <-. split; [auto with bits|].
    intros _. exists u. auto with bits.
  - intros [= <-]. split; [apply bits_refl|done].
Qed.

Lemma exec_block_refines bs rs b b' o e m m' m1 k :
  annotated_block bs rs b o e → same_exit b b' → refines e b b' → agree (b_in b) m m' →
  exec_block fuel ts ys M m b = Some (m1, k) →
  ∃ m1', exec_block fuel ts ys M m' b' = Some (m1', k) ∧ agree o m1 m1' ∧
  (∀ r, k = inr r → r ∈ rs ∧ ∃ t, bs !! r = Some t ∧ bits (b_in t) o).
Proof.
  intros ([Hok Hex] & Hj0 & Hj1 & Ho & He & Hv & Hea & Hia) HE HR HA H.
  unfold exec_block in H |- *. rewrite (proj1 (proj2 (proj2 (proj2 HE)))).
  destruct (b_has_jump_table b); [done|]. apply bind_Some in H as (σ1 & H1 & H).
  destruct (exec_code_agree HM _ _ _ _ _ _ Hok Hv Hia (sagree_nil _ _ _ HA) H1) as (σ2 & H2 & HS2).
  destruct (HR m' σ2 H2) as (σ3 & H3 & HS3). rewrite H3. cbn [mbind option_bind].
  rewrite (leave_exit _ b b' HE). destruct (exit_live_bits _ _ _ He) as [Hoe Hu].
  assert (Hue : ∃ u, negb (bool_decide (b_jump1 b = None)) || b_has_return_value b = true →
    use ys (b_expr b) = Ok u ∧ bits u e).
  { destruct (negb _ || _); [destruct (Hu eq_refl) as (u & ? & ?); by exists u|by exists 0]. }
  destruct Hue as [u Hue].
  destruct (leave_agree HM e σ1 σ3 b u m1 k Hex Hue Hea (sagree_trans _ _ _ _ HS2 HS3) H) as (m1' & -> & HA1).
  exists m1'. split; [done|]. split; [by eapply agree_mono|]. intros r Hr.
  destruct (out_of_jumps_jump bs b o m1 k r Ho σ1 H Hr) as (t & Ht & Hto & [?|?]);
    (split; [auto|eauto]).
Qed.

(** Where every block is refined, every run is. *)
Lemma run_refines bs bs' rs :
  annotated bs rs →
  (∀ r b o e, r ∈ rs → bs !! r = Some b → annotated_block bs rs b o e →
    ∃ b', bs' !! r = Some b' ∧ same_exit b b' ∧ refines e b b') →
  ∀ n r b m m' m1 v, r ∈ rs → bs !! r = Some b → agree (b_in b) m m' →
  run n bs r m = Some (m1, v) → ∃ m1', run n bs' r m' = Some (m1', v) ∧ agree 0 m1 m1'.
Proof.
  intros HA HR n. induction n as [|n IH]; intros r b m m' m1 v Hr Hb Hm H; [done|].
  destruct (HA r Hr) as (b0 & o & e & Hb0 & HB). assert (b0 = b) as -> by congruence.
  destruct (HR r b o e Hr Hb HB) as (b' & Hb' & HE & HRb). simpl in H |- *. rewrite Hb in H.
  rewrite Hb'. cbn [mbind option_bind] in H |- *. apply bind_Some in H as ([m2 k] & H2 & H).
  destruct (exec_block_refines bs rs b b' o e m m' m2 k HB HE HRb Hm H2) as (m2' & -> & HA2 & Hk).
  cbn [mbind option_bind]. destruct k as [v'|q].
  - injection H as <- <-. exists m2'. split; [done|]. eapply agree_mono; [|done]. apply bits_0.
  - destruct (Hk q eq_refl) as (Hq & t & Ht & Hto). apply (IH q t m2 m2'); try done.
    by eapply agree_mono.
Qed.

(** ** Annotations do not matter to a run *)

Lemma exec_code_erase code code' σ : erase <$> code = erase <$> code' → exec_code σ code = exec_code σ code'.
Proof.
  revert code' σ. induction code as [|s code IH]; intros [|s' code'] σ H; try done.
  apply erase_cons in H as [Hs H]. cbn [IrSem.exec_code].
  assert (E : exec fuel ts ys M σ s = exec fuel ts ys M σ s').
  { destruct s, s'. unfold erase, set_out in Hs. simpl in Hs. by injection Hs as -> -> ->. }
  rewrite E. destruct (exec fuel ts ys M σ s'); simpl; auto.
Qed.

Lemma exit_clear b b' : clear_block b = clear_block b' → same_exit b b'.
Proof. destruct b, b'. unfold clear_block, set_live, same_exit. simpl. by intros [=]. Qed.

Lemma run_shape n bs bs' r m : shape bs = shape bs' → run n bs r m = run n bs' r m.
Proof.
  intros H. revert r m. induction n as [|n IH]; intros r m; simpl; [done|].
  destruct (bs !! r) as [b|] eqn:Hb.
  - destruct (shape_lookup _ _ _ _ H Hb) as (b' & -> & He). cbn [mbind option_bind].
    assert (E : exec_block fuel ts ys M m b = exec_block fuel ts ys M m b').
    { pose proof (exit_clear _ _ (eq_sym He)) as HE. unfold exec_block.
      rewrite (proj1 (proj2 (proj2 (proj2 HE)))), (exec_code_erase _ _ _ (code_clear _ _ (eq_sym He))).
      destruct (b_has_jump_table b); [done|]. destruct (exec_code _ (b_code b')); [|done].
      cbn [mbind option_bind]. by rewrite (leave_exit _ b b' HE). }
    rewrite E. destruct (exec_block fuel ts ys M m b') as [[m1 [v|q]]|]; simpl; auto.
  - destruct (bs' !! r) as [b'|] eqn:Hb'; [|done].
    destruct (shape_lookup _ _ _ _ (eq_sym H) Hb') as (b & Hb2 & _). congruence.
Qed.

Lemma statements_ok_erase code code' : erase <$> code' = erase <$> code →
  Forall (statement_ok fuel ts ys) code → Forall (statement_ok fuel ts ys) code'.
Proof.
  intros E HF. revert code' E. induction HF as [|s code Hs _ IH]; intros [|s' code'] E; try done.
  apply erase_cons in E as [Es E]. constructor; [|by apply IH].
  destruct s, s'. unfold erase, set_out in Es. simpl in Es. by injection Es as -> -> ->.
Qed.

Lemma block_ok_shape (bs bs' : blocks) (rs : list bref) : shape bs = shape bs' →
  (∀ r b, r ∈ rs → bs !! r = Some b → block_ok fuel ts ys b) →
  ∀ r b, r ∈ rs → bs' !! r = Some b → block_ok fuel ts ys b.
Proof.
  intros H Hok r b' Hr Hb'. destruct (shape_lookup _ _ _ _ (eq_sym H) Hb') as (b & Hb & He).
  destruct (Hok r b Hr Hb) as [Hc Hx]. split.
  - by eapply statements_ok_erase, Hc; apply code_clear.
  - by destruct (exit_clear _ _ He) as [-> _].
Qed.

(** ** Dead stores over the flow graph *)

Definition all_quiet (bs : blocks) (rs : list bref) : Prop :=
  ∀ r b, r ∈ rs → bs !! r = Some b → quiet level ys false (b_code b).

Definition eliminated (b b' : block) : Prop := ∃ code c,
  eliminate level ys (b_code b) = Ok (code, c) ∧ b' = set_code b code.

Lemma dead_store_elimination_block bs r bs' n :
  dead_store_elimination level ys bs r = Ok (bs', n) →
  ∃ b b', bs !! r = Some b ∧ eliminated b b' ∧ bs' = <[r := b']> bs.
Proof.
  unfold dead_store_elimination, get_block. intros H. apply bind_ok_inv in H as (b & Hb & H).
  apply defined_ok_inv in Hb. apply bind_ok_inv in H as ([code c] & Hc & H). injection H as <- _.
  exists b, (set_code b code). split; [done|]. split; [|done]. by exists code, c.
Qed.

Lemma out_of_jumps_same (bs bs' : blocks) (rs : list bref) b b' :
  (∀ j, b_jump0 b = Some j → j ∈ rs) → (∀ j, b_jump1 b = Some j → j ∈ rs) →
  (∀ r c, r ∈ rs → bs !! r = Some c → ∃ c', bs' !! r = Some c' ∧ b_in c' = b_in c) →
  same_exit b b' → ∀ o, out_of_jumps bs b = Ok o → out_of_jumps bs' b' = Ok o.
Proof.
  intros H0 H1 Hin (_ & E0 & E1 & _) o. unfold out_of_jumps, get_block. rewrite E0, E1.
  destruct (b_jump0 b) as [j0|]; [|done]. intros H.
  apply bind_ok_inv in H as (t0 & Ht0 & H). apply defined_ok_inv in Ht0.
  destruct (Hin j0 t0 (H0 _ eq_refl) Ht0) as (c0 & Hc0 & Ec0). rewrite Hc0. cbn [defined mbind outcome_bind].
  destruct (b_jump1 b) as [j1|]; [|by rewrite Ec0].
  apply bind_ok_inv in H as (t1 & Ht1 & H). apply defined_ok_inv in Ht1.
  destruct (Hin j1 t1 (H1 _ eq_refl) Ht1) as (c1 & Hc1 & Ec1). rewrite Hc1. cbn [defined mbind outcome_bind].
  by rewrite Ec0, Ec1.
Qed.

Lemma exit_live_same b b' o : same_exit b b' → exit_live ys b' o = exit_live ys b o.
Proof. intros (He & _ & H1 & _ & Hr). unfold exit_live. by rewrite He, H1, Hr. Qed.

Lemma exit_set_code b code : same_exit b (set_code b code).
Proof. by destruct b. Qed.

Lemma elimination_graph (bs bs' : blocks) (rs : list bref) c :
  annotated bs rs → all_quiet bs rs → NoDup rs →
  traverse (dead_store_elimination level ys) bs rs = Ok (bs', c) →
  annotated bs' rs ∧ ∀ n r m m1 v, r ∈ rs → run n bs r m = Some (m1, v) →
    ∃ m1', run n bs' r m = Some (m1', v) ∧ agree 0 m1 m1'.
Proof.
  intros HA HQ Hnd H.
  destruct (traverse_pointwise eliminated _ _ _ _ _ dead_store_elimination_block Hnd H) as [Hin _].
  assert (Hfr : ∀ r b, r ∈ rs → bs !! r = Some b → ∃ b', bs' !! r = Some b' ∧ b_in b' = b_in b).
  { intros r b Hr Hb. destruct (Hin r Hr) as (b0 & b' & Hb0 & Hb' & code & k & _ & ->).
    assert (b0 = b) as -> by congruence. by eexists. }
  split.
  - intros r Hr. destruct (HA r Hr) as (b & o & e & Hb & [Hok Hex] & Hj0 & Hj1 & Ho & He & Hv & Hea & Hia).
    destruct (Hin r Hr) as (b0 & b' & Hb0 & Hb' & code & k & Hel & ->).
    assert (b0 = b) as -> by congruence. pose proof (exit_set_code b code) as HE.
    destruct (eliminate_valid _ _ _ _ _ _ _ _ _ Hel Hok Hv) as [Hok' Hv'].
    exists (set_code b code), o, e. split; [done|].
    split; [by split|]. split; [done|]. split; [done|]. split; [by eapply out_of_jumps_same|].
    split; [by rewrite (exit_live_same b)|]. done.
  - intros n r m m1 v Hr Hrun. destruct (HA r Hr) as (b & _ & _ & Hb & _).
    apply (run_refines bs bs' rs HA) with (r := r) (b := b) (m := m); try done.
    clear n r m m1 v b Hr Hrun Hb.
    intros r b o e Hr Hb ([Hok Hex] & Hj0 & Hj1 & Ho & He & Hv & Hea & Hia).
    destruct (Hin r Hr) as (b0 & b' & Hb0 & Hb' & code & k & Hel & ->).
    assert (b0 = b) as -> by congruence. exists (set_code b code). split; [done|].
    split; [apply exit_set_code|]. intros m σ1 Hx.
    eapply eliminate_correct; eauto.
Qed.

(** ** Merging over the flow graph *)

Definition all_safe (bs : blocks) (rs : list bref) : Prop :=
  ∀ r b s1 code, r ∈ rs → bs !! r = Some b → b_code b = s1 :: code →
  safe_merge fuel ts level ys false s1 code.

Definition merged (b b' : block) : Prop :=
  ∃ code, b' = set_code b code ∧
  match b_code b with
  | [] => code = []
  | s1 :: rest => merge fuel ts level ys s1 rest = Ok code
  end.

Lemma set_code_id b : set_code b (b_code b) = b.
Proof. by destruct b. Qed.

Lemma merge_chained_block bs r bs' n :
  merge_chained_assignment fuel ts level ys bs r = Ok (bs', n) →
  ∃ b b', bs !! r = Some b ∧ merged b b' ∧ bs' = <[r := b']> bs.
Proof.
  unfold merge_chained_assignment, get_block. intros H. apply bind_ok_inv in H as (b & Hb & H).
  apply defined_ok_inv in Hb. exists b.
  destruct (b_code b) as [|s1 [|s2 code]] eqn:Hc.
  - injection H as <- _. exists b. split; [done|]. split; [|by rewrite insert_id].
    exists (b_code b). rewrite set_code_id. split; [done|]. by rewrite Hc.
  - injection H as <- _. exists b. split; [done|]. split; [|by rewrite insert_id].
    exists (b_code b). rewrite set_code_id. split; [done|]. by rewrite Hc.
  - apply bind_ok_inv in H as (code' & Hm & H). injection H as <- _.
    exists (set_code b code'). split; [done|]. split; [|done]. exists code'. split; [done|]. rewrite Hc. exact Hm.
Qed.

(** Annotated up to the sets stored in the statements. *)
Definition covered (bs : blocks) (rs : list bref) : Prop := ∀ r, r ∈ rs → ∃ b o e code,
  bs !! r = Some b ∧ erase <$> code = erase <$> b_code b ∧
  annotated_block bs rs (set_code b code) o e.

Lemma merge_block b code o e bs rs :
  annotated_block bs rs b o e → (∀ s1 rest, b_code b = s1 :: rest → safe_merge fuel ts level ys false s1 rest) →
  merged b (set_code b code) → ∃ code2, erase <$> code2 = erase <$> code ∧
  Forall (statement_ok fuel ts ys) code ∧ valid (b_in b) code2 e ∧ refines e b (set_code b code).
Proof.
  intros ([Hok Hex] & _ & _ & _ & _ & Hv & Hea & Hia) Hs (code' & E & Hm).
  assert (code' = code) as -> by (by apply (f_equal b_code) in E). clear E.
  destruct (b_code b) as [|s1 rest] eqn:Hc.
  - subst code. exists []. split; [done|]. split; [done|]. split; [done|].
    intros m σ1. rewrite Hc. intros [= <-]. exists (m, []). split; [done|]. apply sagree_refl.
  - inversion Hok as [|?? Hok1 Hok']; subst. destruct Hv as (HF & Hb & Hv).
    destruct (merge_valid _ _ _ _ M HM _ _ _ _ _ _ _ Hm Hok1 Hok' HF Hb Hv (Hs _ _ eq_refl))
      as (Hok2 & code2 & He & Hv2).
    exists code2. split; [done|]. split; [done|]. split; [done|].
    intros m σ1. rewrite Hc. intros Hx.
    by eapply (merge_correct fuel ts level ys M HM _ _ code false (b_in b) (st_out s1) e (m, [])); eauto.
Qed.

Lemma merge_graph (bs bs' : blocks) (rs : list bref) c :
  annotated bs rs → all_safe bs rs → NoDup rs →
  traverse (merge_chained_assignment fuel ts level ys) bs rs = Ok (bs', c) →
  covered bs' rs ∧ ∀ n r m m1 v, r ∈ rs → run n bs r m = Some (m1, v) →
    ∃ m1', run n bs' r m = Some (m1', v) ∧ agree 0 m1 m1'.
Proof.
  intros HA HS Hnd H.
  destruct (traverse_pointwise merged _ _ _ _ _ merge_chained_block Hnd H) as [Hin _].
  assert (Hfr : ∀ r b, r ∈ rs → bs !! r = Some b → ∃ b', bs' !! r = Some b' ∧ b_in b' = b_in b).
  { intros r b Hr Hb. destruct (Hin r Hr) as (b0 & b' & Hb0 & Hb' & code & -> & _).
    assert (b0 = b) as -> by congruence. by eexists. }
  assert (Hb : ∀ r b o e, r ∈ rs → bs !! r = Some b → annotated_block bs rs b o e → ∃ code code2,
    bs' !! r = Some (set_code b code) ∧ erase <$> code2 = erase <$> code ∧
    Forall (statement_ok fuel ts ys) code ∧ valid (b_in b) code2 e ∧ refines e b (set_code b code)).
  { intros r b o e Hr Hb HB. destruct (Hin r Hr) as (b0 & b' & Hb0 & Hb' & code & -> & Hm).
    assert (b0 = b) as -> by congruence.
    destruct (merge_block b code o e bs rs HB) as (code2 & ? & ? & ? & ?); [by intros; eapply HS|by exists code|].
    exists code, code2. auto. }
  split.
  - intros r Hr. destruct (HA r Hr) as (b & o & e & Hbr & HB).
    destruct (Hb r b o e Hr Hbr HB) as (code & code2 & Hb' & He2 & Hok2 & Hv2 & _).
    destruct HB as ([Hok Hex] & Hj0 & Hj1 & Ho & He & Hv & Hea & Hia).
    pose proof (exit_set_code b code2) as HE.
    exists (set_code b code), o, e, code2. split; [done|]. split; [done|].
    split; [split; [|done]|].
    { by apply (statements_ok_erase code). }
    split; [done|]. split; [done|]. split; [by eapply (out_of_jumps_same bs bs' rs b)|].
    split; [by rewrite <-He; apply (exit_live_same b (set_code b code2))|]. done.
  - intros n r m m1 v Hr Hrun. destruct (HA r Hr) as (b & _ & _ & Hbr & _).
    apply (run_refines bs bs' rs HA) with (r := r) (b := b) (m := m); try done.
    clear n r m m1 v b Hr Hrun Hbr. intros r b o e Hr Hbr HB.
    destruct (Hb r b o e Hr Hbr HB) as (code & code2 & Hb' & _ & _ & _ & HR).
    exists (set_code b code). split; [done|]. split; [apply exit_set_code|done].
Qed.

(** After a merge the sets only shrink. *)
Lemma valid_ready code L E : valid L code E → ready_code fuel ts ys code.
Proof.
  revert L. induction code as [|s code IH]; intros L; simpl; [constructor|].
  intros ((i & Hi & _) & _ & Hv). constructor; [|by eapply IH].
  destruct (transfer_total _ _ _ _ _ _ 0 Hi) as (i' & Hi' & _). eauto.
Qed.

Lemma covered_growing bs rs : covered bs rs → growing fuel ts ys false rs bs.
Proof.
  intros HC. split.
  - intros r Hr. destruct (HC r Hr) as (b & o & e & code & Hb & He & _ & Hj0 & Hj1 & Ho & Hx & Hv & _).
    exists b. split; [done|]. split; [|split; [|done]].
    + eapply ready_code_erase; [exact He|]. by eapply valid_ready.
    + destruct (exit_live_total _ _ _ _ 0 Hx) as (e' & He' & _). by exists e'.
  - intros r b Hr Hb. destruct (HC r Hr) as (b' & o & e & code & Hb' & _ & HB).
    assert (b' = b) as -> by congruence. apply HB.
  - intros r b b2 Hr Hb (o2 & e2 & code2 & i & Ho2 & Hx2 & Hf & ->).
    destruct (HC r Hr) as (b' & o & e & code & Hb' & He & _ & Hj0 & Hj1 & Ho & Hx & Hv & Hea & Hia).
    assert (b' = b) as -> by congruence. simpl.
    change (out_of_jumps bs (set_code b code)) with (out_of_jumps bs b) in Ho.
    assert (o2 = o) as -> by congruence.
    change (exit_live ys (set_code b code) o) with (exit_live ys b o) in Hx.
    assert (e2 = e) as -> by congruence.
    eapply (flow_valid _ _ _ (b_code b) code); try done.
    eapply ready_code_erase; [exact He|]. by eapply valid_ready.
Qed.

(** ** The loop *)

Definition all_stores (rs : list bref) (bs : blocks) : nat :=
  sum_list_with (λ r, match bs !! r with Some b => stores (b_code b) | None => O end) rs.

Lemma stores_erase code code' : erase <$> code = erase <$> code' → stores code = stores code'.
Proof.
  revert code'. induction code as [|s code IH]; intros [|s' code'] H; try done.
  apply erase_cons in H as [Hs H]. rewrite !stores_cons, (IH _ H).
  assert (st_st s = st_st s') as ->; [|done]. destruct s, s'. unfold erase, set_out in Hs. simpl in Hs.
  by injection Hs.
Qed.

Lemma all_stores_shape rs bs bs' : shape bs = shape bs' → (all_stores rs bs ≤ all_stores rs bs')%nat.
Proof.
  intros H. apply sum_list_le. intros r _. destruct (bs !! r) as [b|] eqn:Hb; [|lia].
  destruct (shape_lookup _ _ _ _ H Hb) as (b' & -> & He).
  by rewrite (stores_erase _ _ (code_clear _ _ (eq_sym He))).
Qed.

(** A removed store is a store less. *)
Lemma traverse_stores rs : ∀ (bs bs' : blocks) c, NoDup rs →
  traverse (dead_store_elimination level ys) bs rs = Ok (bs', c) →
  Z.of_nat (all_stores rs bs) = Z.of_nat (all_stores rs bs') + c ∧ 0 ≤ c.
Proof.
  intros bs bs' c Hnd. revert bs c. induction Hnd as [|r rs Hr Hnd IH]; intros bs c H; simpl in H.
  { injection H as <- <-. done. }
  apply bind_ok_inv in H as ([bs1 k] & H1 & H). apply bind_ok_inv in H as ([bs2 j] & H2 & H).
  injection H as -> <-. specialize (IH _ _ H2).
  destruct (traverse_pointwise eliminated _ _ _ _ _ dead_store_elimination_block Hnd H2) as [_ Hout].
  unfold dead_store_elimination, get_block in H1. apply bind_ok_inv in H1 as (b & Hb & H1).
  apply defined_ok_inv in Hb. apply bind_ok_inv in H1 as ([code n] & He & H1). injection H1 as <- <-.
  apply eliminate_stores in He. simpl. rewrite (Hout r Hr), lookup_insert_eq, Hb.
  assert (E : all_stores rs (<[r := set_code b code]> bs) = all_stores rs bs).
  { clear - Hr. unfold all_stores. induction rs as [|q rs IH]; simpl; [done|].
    rewrite not_elem_of_cons in Hr. destruct Hr as [Hne Hr].
    by rewrite lookup_insert_ne, IH by done. }
  fold (all_stores rs bs). fold (all_stores rs bs'). simpl. lia.
Qed.

Lemma traverse_merge_stores (rs : list bref) : ∀ (bs bs' : blocks) c, NoDup rs →
  traverse (merge_chained_assignment fuel ts level ys) bs rs = Ok (bs', c) →
  (all_stores rs bs' ≤ all_stores rs bs)%nat.
Proof.
  intros bs bs' c Hnd H.
  destruct (traverse_pointwise merged _ _ _ _ _ merge_chained_block Hnd H) as [Hin _].
  apply sum_list_le. intros r Hr. destruct (Hin r Hr) as (b & b' & -> & -> & code & -> & Hm).
  simpl. destruct (b_code b); [by subst|]. by apply merge_stores in Hm.
Qed.

Lemma traverse_merge_count rs : ∀ (bs bs' : blocks) c,
  traverse (merge_chained_assignment fuel ts level ys) bs rs = Ok (bs', c) → c = 0.
Proof.
  intros bs bs' c. revert bs c. induction rs as [|r rs IH]; intros bs c H; simpl in H.
  { by injection H as _ <-. }
  apply bind_ok_inv in H as ([bs1 k] & H1 & H). apply bind_ok_inv in H as ([bs2 j] & H2 & H).
  injection H as -> <-. rewrite (IH _ _ H2).
  unfold merge_chained_assignment in H1. apply bind_ok_inv in H1 as (b & _ & H1).
  destruct (b_code b) as [|s1 [|s2 code]]; try (by injection H1 as _ <-).
  apply bind_ok_inv in H1 as (code' & _ & H1). by injection H1 as _ <-.
Qed.

(** In every round the passes are defined, no store is removed between a
    parameter and its call, and what is merged is mergeable. *)
Fixpoint safe_rounds (n : nat) (bs : blocks) (rs : list bref) : Prop :=
  match n with
  | O => True
  | S n => ∀ bs1,
      execute_iterative_dataflow (S n) (live_variable_analysis fuel ts ys) bs rs = Ok bs1 →
      all_quiet bs1 rs ∧ ∃ bs2 c, traverse (dead_store_elimination level ys) bs1 rs = Ok (bs2, c) ∧
      all_safe bs2 rs ∧ ∃ bs3 d, traverse (merge_chained_assignment fuel ts level ys) bs2 rs = Ok (bs3, d) ∧
      (c + d ≠ 0 → safe_rounds n bs3 rs)
  end.

Definition same_runs (bs bs' : blocks) (rs : list bref) : Prop := ∀ n r m m1 v,
  r ∈ rs → run n bs r m = Some (m1, v) → ∃ m1', run n bs' r m = Some (m1', v) ∧ agree 0 m1 m1'.

Lemma same_runs_trans bs1 bs2 bs3 rs : same_runs bs1 bs2 rs → same_runs bs2 bs3 rs → same_runs bs1 bs3 rs.
Proof.
  intros H12 H23 n r m m1 v Hr H1. destruct (H12 n r m m1 v Hr H1) as (m2 & H2 & HA).
  destruct (H23 n r m m2 v Hr H2) as (m3 & H3 & HA'). exists m3. split; [done|]. by etrans.
Qed.

Lemma same_runs_shape bs bs' rs : shape bs = shape bs' → same_runs bs bs' rs.
Proof. intros H n r m m1 v Hr. rewrite (run_shape _ _ _ _ _ H). intros ->. by exists m1. Qed.

Lemma optimize_loop_runs d n bs rs :
  NoDup rs → growing fuel ts ys d rs bs →
  (∀ r b, r ∈ rs → bs !! r = Some b → block_ok fuel ts ys b) →
  safe_rounds n bs rs → (64 * length rs + all_stores rs bs < n)%nat →
  ∃ bs', optimize_loop fuel ts level n ys bs rs = Ok bs' ∧ same_runs bs bs' rs.
Proof.
  intros Hnd. revert d bs. induction n as [|n IH]; intros d bs HG Hok Hsafe Hn; [lia|].
  assert (Hm : (measure d rs bs < S n)%nat) by (pose proof (measure_64 d rs bs); lia).
  destruct (iterate_growing fuel ts ys d rs (S n) bs HG Hm) as (bs1 & H1 & HG1 & Hsh & Hsol).
  destruct (Hsafe bs1 H1) as (Hq & bs2 & c & H2 & Hs2 & bs3 & k & H3 & Hrest).
  cbn [optimize_loop]. rewrite H1. cbn [mbind outcome_bind]. rewrite H2. cbn [mbind outcome_bind].
  rewrite H3. cbn [mbind outcome_bind].
  pose proof (block_ok_shape bs bs1 rs (eq_sym Hsh) Hok) as Hok1.
  pose proof (solved_annotated d bs1 rs HG1 Hsol Hok1) as HA1.
  destruct (elimination_graph bs1 bs2 rs c HA1 Hq Hnd H2) as [HA2 HR2].
  destruct (merge_graph bs2 bs3 rs k HA2 Hs2 Hnd H3) as [HC3 HR3].
  assert (HR : same_runs bs bs3 rs).
  { eapply same_runs_trans; [apply same_runs_shape; by symmetry|]. by eapply same_runs_trans. }
  pose proof (traverse_merge_count _ _ _ _ H3) as Hk. destruct (Z.eqb_spec (c + k) 0) as [|Hne]; [by exists bs3|].
  destruct (IH false bs3) as (bs' & Hl & HRl).
  - by apply covered_growing.
  - intros r b Hr Hb. destruct (HC3 r Hr) as (b' & o & e & code & Hb' & He & [Hoc Hoe] & _).
    assert (b' = b) as -> by congruence. split; [|done]. by apply (statements_ok_erase code).
  - by apply Hrest.
  - pose proof (all_stores_shape rs _ _ Hsh). pose proof (traverse_stores rs _ _ _ Hnd H2).
    pose proof (traverse_merge_stores rs _ _ _ Hnd H3). lia.
  - exists bs'. split; [done|]. by eapply same_runs_trans.
Qed.
End runs.
