(* ===== verification/OptimizeSpec.v ===== *)
(** * What the optimizer does (src/optimizer)

    The theorems on the analysis and the loop of transformations, with their
    instances, and the programs the optimizer breaks. *)

From stdpp Require Import base list gmap numbers strings.
From Stdlib Require Import ZArith Lia.
From S2P Require Import Prelude Memory CType Strings Symbol Typetree Ir Liveness Optimize IrSem LivenessProps OptimizeProps SolverProps OptimizeRuns.

Local Open Scope Z_scope.

(** ** The analysis *)

(** C31: From empty sets, the iteration of live_variable_analysis over a flow
    graph ends within 64 passes per block and one more, changes nothing but the
    sets, and leaves sets that another visit of any block would not change. *)
Theorem dataflow_solves fuel ts ys bs rs :
  ready fuel ts ys bs rs → (∀ r b, r ∈ rs → bs !! r = Some b → b_in b = 0) →
  ∃ bs', execute_iterative_dataflow (S (64 * length rs)) (live_variable_analysis fuel ts ys) bs rs = Ok bs' ∧
    shape bs' = shape bs ∧ ∀ r, r ∈ rs → live_variable_analysis fuel ts ys bs' r = Ok (bs', 0).
Proof.
  intros HR H0.
  destruct (iterate_growing fuel ts ys true rs (S (64 * length rs)) bs (cleared_growing _ _ _ _ _ HR H0))
    as (bs' & H & _ & Hs & Hsol); [pose proof (measure_64 true rs bs); lia|].
  exists bs'. done.
Qed.

(** C29: Live variables are all that matters: in a solved flow graph, two runs
    from memories that differ only in local symbols not live at the block
    return the same value and end in memories that differ only in local symbols. *)
Theorem live_variables_sound fuel ts ys M bs rs d r b n m m' m1 v :
  lawful fuel ts ys M → growing fuel ts ys d rs bs →
  (∀ r, r ∈ rs → live_variable_analysis fuel ts ys bs r = Ok (bs, 0)) →
  (∀ r b, r ∈ rs → bs !! r = Some b → block_ok fuel ts ys b) →
  r ∈ rs → bs !! r = Some b → agree fuel ts ys M (b_in b) m m' →
  run fuel ts ys M n bs r m = Some (m1, v) →
  ∃ m1', run fuel ts ys M n bs r m' = Some (m1', v) ∧ agree fuel ts ys M 0 m1 m1'.
Proof.
  intros HM HG Hsol Hok Hr Hb HA H.
  eapply (run_refines fuel ts ys M HM bs bs rs); try done.
  - by eapply solved_annotated.
  - intros q c o e Hq Hc _. exists c. split; [done|]. split; [done|].
    intros m2 σ Hx. exists σ. split; [done|]. apply sagree_refl.
Qed.

(** ** The transformations *)

(** C11: The loop of optimize (analysis, dead stores, chained assignments until
    nothing changes) ends, and the code it leaves does what the original does:
    every run of the original has a run that returns the same value and ends in
    a memory that differs only in the local symbols. *)
Theorem optimize_loop_correct fuel ts level ys M bs rs n :
  lawful fuel ts ys M → keeps_identity fuel ts M → NoDup rs →
  ready fuel ts ys bs rs → (∀ r b, r ∈ rs → bs !! r = Some b → b_in b = 0) →
  (∀ r b, r ∈ rs → bs !! r = Some b → block_ok fuel ts ys b) →
  safe_rounds fuel ts level ys n bs rs → (64 * length rs + all_stores rs bs < n)%nat →
  ∃ bs', optimize_loop fuel ts level n ys bs rs = Ok bs' ∧
    ∀ k r m m1 v, r ∈ rs → run fuel ts ys M k bs r m = Some (m1, v) →
    ∃ m1', run fuel ts ys M k bs' r m = Some (m1', v) ∧ agree fuel ts ys M 0 m1 m1'.
Proof.
  intros HM HI Hnd HR H0 Hok Hsafe Hn.
  by apply (optimize_loop_runs fuel ts level ys M HM HI true); [|apply cleared_growing| | |].
Qed.

(** ** The instance *)

Definition demo_ys : symbols := demo_symbols 1 2 3 4 0.
Definition demo_blocks : list bref := [1%N; 2%N].

(** Case analysis over the blocks of a concrete graph. *)
Ltac each_block :=
  match goal with
  | Hr : _ ∈ _ :: _ |- _ => apply elem_of_cons in Hr as [->|Hr]; [|each_block]
  | Hr : _ ∈ [] |- _ => by apply not_elem_of_nil in Hr
  | Hr : _ ∈ demo_blocks |- _ => unfold demo_blocks in Hr; each_block
  end.
Ltac the_block :=
  match goal with H : _ !! _ = Some _ |- _ => vm_compute in H; injection H as <- end.

Lemma demo_ready : ready 4 [] demo_ys demo_graph demo_blocks.
Proof.
  intros r Hr. each_block.
  - eexists. split; [reflexivity|]. split.
    + repeat (apply Forall_cons; split; [by eexists|]). by apply Forall_nil.
    + split; [by eexists|]. split; [|done]. intros j [= <-]. in_list.
  - eexists. split; [reflexivity|]. split; [by apply Forall_nil|].
    split; [by eexists|]. split; done.
Qed.

Lemma demo_cleared r b : r ∈ demo_blocks → demo_graph !! r = Some b → b_in b = 0.
Proof. intros Hr Hb. each_block; by the_block. Qed.

Lemma demo_inside s y : demo_ys !! s = Some y → inside 4 [] demo_ys s 0 (sym_type y).
Proof.
  intros Hy. destruct (bytes_of 4 [] (sym_type y)) as [n|] eqn:Hn.
  - exists y, n, n. repeat split; try done; lia.
  - exfalso. revert Hn. assert (H : map_Forall (λ _ y, bytes_of 4 [] (sym_type y) ≠ None) demo_ys).
    { apply (bool_decide_eq_true_1 _). vm_compute. reflexivity. }
    by apply (H s y).
Qed.

Lemma demo_block_cases r b : r ∈ demo_blocks → demo_graph !! r = Some b → b = demo_block1 ∨ b = demo_block2.
Proof. intros Hr Hb. each_block; injection Hb as <-; auto. Qed.

Lemma demo_access s : s ∈ [1%N; 2%N; 3%N; 4%N] → access_ok 4 [] demo_ys (direct s basic_type__int).
Proof.
  intros Hs. each_block; [apply (demo_inside 1%N _ eq_refl)|apply (demo_inside 2%N _ eq_refl)
    |apply (demo_inside 3%N _ eq_refl)|apply (demo_inside 4%N _ eq_refl)].
Qed.

Lemma demo_assign s e : s ∈ [1%N; 2%N; 3%N; 4%N] → expr_ok 4 [] demo_ys e →
  statement_ok 4 [] demo_ys (assign (direct s basic_type__int) e).
Proof.
  intros Hs He. split; [done|]. intros _. split; [by apply demo_access|].
  intros _ s' y [= <-] Hy _ _. each_block; the_block; done.
Qed.

Lemma demo_ok r b : r ∈ demo_blocks → demo_graph !! r = Some b → block_ok 4 [] demo_ys b.
Proof.
  assert (He : ∀ v, access_ok 4 [] demo_ys v → expr_ok 4 [] demo_ys (as_expr v)) by (intros; by split).
  assert (Hi : ∀ z, access_ok 4 [] demo_ys (immediate z)) by done.
  intros Hr Hb. destruct (demo_block_cases r b Hr Hb) as [-> | ->]; split; simpl.
  - repeat (apply Forall_cons; split); try (apply demo_assign; [in_list|]); try apply He; try done.
    + split; [|done]. apply demo_access. in_list.
    + apply demo_access. in_list.
  - by apply He.
  - done.
  - apply He, demo_access. in_list.
Qed.

(** One round of a concrete graph. *)
Ltac demo_round :=
  let bs1 := fresh "bs" in let H := fresh "H" in
  intros bs1 H; vm_compute in H; injection H as <-;
  split; [intros r b Hr Hb; each_block; the_block; vm_compute; repeat split; intros; discriminate|];
  eexists _, _; split; [vm_compute; reflexivity|];
  split; [intros r b s1 code Hr Hb Hc; each_block; the_block; simpl in Hc; try discriminate;
          injection Hc as <- <-; vm_compute; repeat split; intros; try discriminate; repeat split; intros;
          try discriminate|];
  eexists _, _; split; [vm_compute; reflexivity|].

Lemma demo_safe : safe_rounds 4 [] 1 demo_ys 140 demo_graph demo_blocks.
Proof.
  change 140%nat with (S (S 138)). demo_round. intros _. demo_round. intros H. by destruct H.
Qed.

(** What a run returns. *)
Definition result {A B} (o : option (A * B)) : option B := snd <$> o.
Lemma result_run {A B} (o : option (A * B)) v : result o = Some v → ∃ m, o = Some (m, v).
Proof. destruct o as [[m w]|]; simpl; intros [= <-]. by exists m. Qed.

Lemma demo_run : ∃ m1,
  run 4 [] demo_ys (demo_machine quiet_callee) 2 demo_graph 1%N demo_memory = Some (m1, Some [6; 0; 0; 0]).
Proof. apply result_run. vm_compute. reflexivity. Qed.

(** The instances of the theorems. *)
Lemma dataflow_solves_witness : ∃ bs',
  execute_iterative_dataflow 129 (live_variable_analysis 4 [] demo_ys) demo_graph demo_blocks = Ok bs' ∧
  shape bs' = shape demo_graph ∧ ∀ r, r ∈ demo_blocks → live_variable_analysis 4 [] demo_ys bs' r = Ok (bs', 0).
Proof. exact (dataflow_solves 4 [] demo_ys demo_graph demo_blocks demo_ready demo_cleared). Defined.

(** [x] is not live at the beginning: what it holds does not matter. *)
Lemma demo_agree : agree 4 [] demo_ys (demo_machine quiet_callee) 0 demo_memory (<[4112 := 9]> demo_memory).
Proof.
  split.
  - symmetry. apply dom_insert_lookup_L. by eexists.
  - intros a Ha. destruct (decide (a = 4112)) as [->|Hne].
    + exfalso. apply Ha. exists 1%N, (demo_symbol basic_type__int LINK_NONE 1), 4%nat.
      repeat split; try done.
    + by rewrite lookup_insert_ne.
Qed.

Lemma live_variables_sound_witness : ∃ bs m1,
  run 4 [] demo_ys (demo_machine quiet_callee) 2 bs 1%N (<[4112 := 9]> demo_memory) = Some (m1, Some [6; 0; 0; 0]).
Proof.
  destruct (iterate_growing 4 [] demo_ys true demo_blocks 129 demo_graph
    (cleared_growing _ _ _ _ _ demo_ready demo_cleared)) as (bs & H & HG & Hsh & Hsol);
    [by pose proof (measure_64 true demo_blocks demo_graph); simpl in *; lia|].
  assert (Hrun : ∃ m1, run 4 [] demo_ys (demo_machine quiet_callee) 2 bs 1%N demo_memory = Some (m1, Some [6; 0; 0; 0])).
  { rewrite (run_shape _ _ _ _ _ _ _ _ _ Hsh). exact demo_run. }
  assert (Hin : ∃ b, bs !! 1%N = Some b ∧ b_in b = 0).
  { vm_compute in H. injection H as <-. eexists. split; vm_compute; reflexivity. }
  destruct Hrun as (m1 & Hrun), Hin as (b & Hb & Hin). exists bs.
  destruct (live_variables_sound 4 [] demo_ys (demo_machine quiet_callee) bs demo_blocks true 1%N b 2
    demo_memory (<[4112 := 9]> demo_memory) m1 (Some [6; 0; 0; 0])) as (m1' & H1 & _);
    [exact demo_lawful|exact HG|exact Hsol| |in_list|exact Hb| |exact Hrun|].
  - exact (block_ok_shape _ _ _ _ _ _ (eq_sym Hsh) demo_ok).
  - rewrite Hin. exact demo_agree.
  - exists m1'. exact H1.
Defined.

Lemma optimize_loop_correct_witness : ∃ bs' m1,
  optimize_loop 4 [] 1 140 demo_ys demo_graph demo_blocks = Ok bs' ∧
  run 4 [] demo_ys (demo_machine quiet_callee) 2 bs' 1%N demo_memory = Some (m1, Some [6; 0; 0; 0]).
Proof.
  destruct (optimize_loop_correct 4 [] 1 demo_ys (demo_machine quiet_callee) demo_graph demo_blocks 140)
    as (bs' & H & HR); [exact demo_lawful|exact demo_identity| |exact demo_ready|exact demo_cleared
    |exact demo_ok|exact demo_safe|vm_compute; lia|].
  - apply (bool_decide_eq_true_1 _). vm_compute. reflexivity.
  - destruct demo_run as (m1 & Hrun). destruct (HR 2%nat 1%N demo_memory m1 _ ltac:(in_list) Hrun) as (m1' & H1 & _).
    exists bs', m1'. split; [exact H|exact H1].
Defined.

(** ** Where the optimizer does not end *)

(** Empty blocks that only jump to one another. *)
Definition empty_cycle (bs : blocks) (qs : list bref) : Prop := ∀ q, q ∈ qs → ∃ b k,
  bs !! q = Some b ∧ b_code b = [] ∧ b_jump0 b = Some k ∧ b_jump1 b = None ∧ k ∈ qs.

Lemma empty_cycle_jump bs qs r b k : empty_cycle bs qs → bs !! r = Some b → k ∈ qs →
  empty_cycle (<[r := set_jump b false k]> bs) qs.
Proof.
  intros HC Hb Hk q Hq. destruct (HC q Hq) as (c & j & Hc & H1 & H2 & H3 & Hj).
  destruct (decide (q = r)) as [->|Hne].
  - assert (c = b) as -> by congruence. exists (set_jump b false k), k. rewrite lookup_insert_eq. done.
  - exists c, j. by rewrite lookup_insert_ne.
Qed.

Lemma skip_loop_endless n bs qs r b j :
  empty_cycle bs qs → bs !! r = Some b → b_jump0 b = Some j → j ∈ qs → skip_loop n bs r false = endless.
Proof.
  revert bs b j. induction n as [|n IH]; intros bs b j HC Hb Hj Hq; [done|]. simpl. unfold get_block.
  rewrite Hb. cbn [defined mbind outcome_bind target]. rewrite Hj.
  destruct (HC j Hq) as (c & k & Hc & H1 & H2 & H3 & Hk). rewrite Hc. cbn [defined mbind outcome_bind].
  rewrite H1, H2, H3. eapply IH; [by eapply empty_cycle_jump|by rewrite lookup_insert_eq|done|done].
Qed.

(** A block that leads into a loop without code, as [while (1);] makes
    one, keeps skip_empty_blocks going for ever: the compiler hangs. *)
Theorem skip_empty_blocks_hangs bs qs r b j n :
  empty_cycle bs qs → bs !! r = Some b → b_jump0 b = Some j → j ∈ qs →
  skip_empty_blocks n bs r = endless.
Proof.
  intros HC Hb Hj Hq. unfold skip_empty_blocks, get_block. rewrite Hb. cbn [defined mbind outcome_bind].
  rewrite Hj. by rewrite (skip_loop_endless n bs qs r b j).
Qed.

(** [while (1);]: the blocks [head], [top] and [body] of [while_statement]. *)
Definition while_1 : blocks := list_to_map [
  (1%N, demo_block [] (as_expr (immediate 0)) (Some 2%N) None false);
  (2%N, demo_block [] (as_expr (immediate 1)) (Some 3%N) None false);
  (3%N, demo_block [] (as_expr (immediate 0)) (Some 2%N) None false) ].

Lemma skip_empty_blocks_hangs_witness : skip_empty_blocks 1000 while_1 1%N = endless.
Proof.
  eapply (skip_empty_blocks_hangs while_1 [2%N; 3%N] 1%N); [|reflexivity|reflexivity|in_list].
  intros q Hq. each_block; (eexists _, _; split; [reflexivity|]; repeat split; try reflexivity; in_list).
Defined.

(** ** What the optimizer breaks *)

Definition start_ys : symbols := demo_symbols 0 0 0 0 0.

(** [g = &x; x = 5; t = f(); return t;], where [f] returns [*g]. *)
Definition escape_graph : blocks := list_to_map [
  (1%N, demo_block [assign (direct 6%N (pointer_to basic_type__int)) (as_expr (address 1%N basic_type__int));
                    assign vx (as_expr (immediate 5)); assign vt (call_of 5%N)]
          (as_expr vt) None None true) ].
Definition reading_callee (m : mem) (f : list Z) (t : ctype) (ps : list (ctype * list Z)) :
    option (mem * list Z) :=
  p ← mread m 4192 8; v ← mread m (le_dec p) 4; Some (m, v).

(** A store to a local whose address is in a global is dropped before a
    call without pointer arguments: the callee reads the old value. *)
Theorem optimize_loses_escaped_store : ∃ ys bs,
  optimize 4 [] 1 140 start_ys escape_graph (Some 5%N) 1%N = Ok (ys, bs) ∧
  result (run 4 [] start_ys (demo_machine reading_callee) 1 escape_graph 1%N demo_memory) = Some (Some [5; 0; 0; 0]) ∧
  result (run 4 [] start_ys (demo_machine reading_callee) 1 bs 1%N demo_memory) = Some (Some [0; 0; 0; 0]).
Proof. eexists _, _. split; [vm_compute; reflexivity|]. split; vm_compute; reflexivity. Qed.

(** [x = 257; *(char * )&x = 0; return x;]: the second store is direct. *)
Definition partial_graph : blocks := list_to_map [
  (1%N, demo_block [assign vx (as_expr (immediate 257));
                    assign (direct 1%N basic_type__char)
                      (as_expr (Var IMMEDIATE basic_type__char None 0 0 0 false 0))]
          (as_expr vx) None None true) ].

(** A direct store to a part of a scalar counts as a store to all of it:
    the store before it is dropped. *)
Theorem optimize_loses_partial_store : ∃ ys bs,
  optimize 4 [] 1 140 start_ys partial_graph (Some 5%N) 1%N = Ok (ys, bs) ∧
  result (run 4 [] start_ys (demo_machine quiet_callee) 1 partial_graph 1%N demo_memory) = Some (Some [0; 1; 0; 0]) ∧
  result (run 4 [] start_ys (demo_machine quiet_callee) 1 bs 1%N demo_memory) = Some (Some [0; 0; 0; 0]).
Proof. eexists _, _. split; [vm_compute; reflexivity|]. split; vm_compute; reflexivity. Qed.

(** [x = 5; switch (y) { case 0: return x; }] with a jump table: its targets
    are in no [jump]. *)
Definition table_block : block :=
  Block (Some 0%N) [] (as_expr vy) None None true (immediate 0) [JumpPair 0 3%N 0%N] None false false WHITE 0 0.
Definition table_graph : blocks := list_to_map [
  (1%N, demo_block [assign vx (as_expr (immediate 5))] (as_expr vy) (Some 2%N) None false);
  (2%N, table_block); (3%N, demo_block [] (as_expr vx) None None true) ].

(** The targets of a jump table are not visited: a store that only the
    cases of a switch read is dropped. *)
Theorem optimize_ignores_jump_table : ∃ ys bs b1 b3,
  optimize 4 [] 1 140 start_ys table_graph (Some 5%N) 1%N = Ok (ys, bs) ∧
  bs !! 1%N = Some b1 ∧ b_code b1 = [] ∧
  bs !! 3%N = Some b3 ∧ b_expr b3 = as_expr vx ∧ b_has_return_value b3 = true.
Proof. eexists _, _, _, _. split; [vm_compute; reflexivity|]. repeat split; vm_compute; reflexivity. Qed.
