(* ===== verification/VmGen.v ===== *)
(** * The code generator of the virtual machine (src/backend/vm/vminstr.c)

    From the flow graph of a function, or the initial value of an object, to
    the instructions of the stack machine.  [genstate] is the state the C code
    keeps in its static variables, with the symbols and blocks it changes. *)

From stdpp Require Import base list gmap numbers decidable strings.
From Stdlib Require Import ZArith Lia.
From S2P Require Import Prelude CType Floats CArith VmInstr VmImage VmLink Strings Symbol Typetree Symtab Ir.

Local Open Scope Z_scope.

Definition VM_INCDEC_COUNT_MAX : Z := 3.
Definition VM_GLOBAL_MEM_SIZE : Z := 16 * 1024 * 1024.

(** [is_global_mode], [protect_remove_tempvar], the arrays [code] of [vm_prog]
    and [vm_glbl], [vm_ctx.labels], the used part of [vm_prog.global] (its
    length is [vm_ctx.global_index]), [vm_ctx.stack_offset] and
    [vm_func_args]. *)
Record genstate : Type := GenState {
  g_mode : bool;
  g_protect : bool;
  g_code : list vm_code;
  g_glbl : list vm_code;
  g_labels : list vm_label;
  g_area : list Z;
  g_stack_offset : Z;
  g_args : list expression;
  g_args_size : Z;
  g_symbols : symbols;
  g_blocks : blocks
}.

Definition set_mode (x : bool) (g : genstate) : genstate :=
  GenState x (g_protect g) (g_code g) (g_glbl g) (g_labels g) (g_area g) (g_stack_offset g)
    (g_args g) (g_args_size g) (g_symbols g) (g_blocks g).
Definition set_protect (x : bool) (g : genstate) : genstate :=
  GenState (g_mode g) x (g_code g) (g_glbl g) (g_labels g) (g_area g) (g_stack_offset g)
    (g_args g) (g_args_size g) (g_symbols g) (g_blocks g).
Definition set_codes (c l : list vm_code) (g : genstate) : genstate :=
  GenState (g_mode g) (g_protect g) c l (g_labels g) (g_area g) (g_stack_offset g)
    (g_args g) (g_args_size g) (g_symbols g) (g_blocks g).
Definition set_labels (x : list vm_label) (g : genstate) : genstate :=
  GenState (g_mode g) (g_protect g) (g_code g) (g_glbl g) x (g_area g) (g_stack_offset g)
    (g_args g) (g_args_size g) (g_symbols g) (g_blocks g).
Definition set_area (x : list Z) (g : genstate) : genstate :=
  GenState (g_mode g) (g_protect g) (g_code g) (g_glbl g) (g_labels g) x (g_stack_offset g)
    (g_args g) (g_args_size g) (g_symbols g) (g_blocks g).
Definition set_stack_size (x : Z) (g : genstate) : genstate :=
  GenState (g_mode g) (g_protect g) (g_code g) (g_glbl g) (g_labels g) (g_area g) x
    (g_args g) (g_args_size g) (g_symbols g) (g_blocks g).
Definition set_args (x : list expression) (n : Z) (g : genstate) : genstate :=
  GenState (g_mode g) (g_protect g) (g_code g) (g_glbl g) (g_labels g) (g_area g) (g_stack_offset g)
    x n (g_symbols g) (g_blocks g).
Definition set_symbols (x : symbols) (g : genstate) : genstate :=
  GenState (g_mode g) (g_protect g) (g_code g) (g_glbl g) (g_labels g) (g_area g) (g_stack_offset g)
    (g_args g) (g_args_size g) x (g_blocks g).
Definition set_blocks (x : blocks) (g : genstate) : genstate :=
  GenState (g_mode g) (g_protect g) (g_code g) (g_glbl g) (g_labels g) (g_area g) (g_stack_offset g)
    (g_args g) (g_args_size g) (g_symbols g) x.

(** ** Arrays of instructions *)

(** [emit_vm_code]. *)
Definition emit_vm_code (c : vm_code) (g : genstate) : genstate :=
  if g_mode g then set_codes (g_code g) (g_glbl g ++ [c]) g
  else set_codes (g_code g ++ [c]) (g_glbl g) g.

(** [array_back] of the code the mode selects, and writing through it. *)
Definition code_of_mode (g : genstate) : list vm_code := if g_mode g then g_glbl g else g_code g.
Definition back (l : list vm_code) : outcome vm_code := defined "last of an empty array" (last l).
Definition set_back (c : vm_code) (g : genstate) : genstate :=
  if g_mode g then set_codes (g_code g) (removelast (g_glbl g) ++ [c]) g
  else set_codes (removelast (g_code g) ++ [c]) (g_glbl g) g.
(** [array_pop_back(&vm_prog.code)]. *)
Definition pop_code (g : genstate) : genstate := set_codes (removelast (g_code g)) (g_glbl g) g.

(** ** Symbols *)

(** [is_temporary_var]: the name starts with a period. *)
Definition is_temporary_var (y : symbol) : bool :=
  match str_raw (Symbol.sym_name y) with 46 :: _ => true | _ => false end.

Definition var_direct (ys : symbols) (s : option symref) : outcome var :=
  y ← get_symbol ys s;
  let v k l i := Var k (sym_type y) s 0 0 0 l i in
  match sym_symtype y with
  | SYM_CONSTANT =>
      match sym_value y with
      | ConstantValue c => Ok (v IMMEDIATE false c)
      | _ => Undef "union member constant"
      end
  | SYM_STRING_VALUE | SYM_TABLE => Ok (v IMMEDIATE false 0)
  | SYM_LABEL => Exit "assertion failed"
  | _ => Ok (v DIRECT (negb (is_temporary y)) 0)
  end.

Definition symbol_string (y : symbol) : outcome kstring :=
  match sym_value y with StringValue k => Ok k | _ => Undef "union member string" end.

(** [is_global_var] and [base]. *)
Definition is_global_var (y : symbol) : bool := 0 <=? sym_global_offset y.
Definition base_of (y : symbol) : Z := if is_global_var y then sym_global_offset y else sym_stack_offset y.

Section generator.
Context `{FloatArith}.
(** The depth of types, and the table. *)
Variable depth : nat.
Variable ts : typetab.

(** [int size = size_of(type)]. *)
Definition isize_of (t : ctype) : outcome Z := n ← size_of depth ts t; Ok (wrap_s 32 n).

(** The address of a variable, with this size and index. *)
Definition var_address (g : genstate) (v : var) (index size : Z) : outcome vm_address :=
  y ← get_symbol (g_symbols g) (v_symbol v);
  n ← sym_name y;
  Ok (VmAddress n (is_global_var y) index (base_of y) (wrap_s 32 (v_offset v)) size None).
Definition var_index (g : genstate) (v : var) : outcome Z :=
  y ← get_symbol (g_symbols g) (v_symbol v); Ok (wrap_s 32 (base_of y + v_offset v)).
Definition address_of (g : genstate) (v : var) (size : Z) : outcome vm_address :=
  i ← var_index g v; var_address g v i size.

(** ** Operand types *)

Definition get_vmop_var_type (v : var) : VmInstr.optype :=
  if is_struct_or_union (v_type v) then VMOP_VAROBJ
  else if is_real (v_type v) then VMOP_VARFL
  else if is_unsigned (v_type v) then VMOP_VARU else VMOP_VARI.

Definition get_vm_optype (t : ctype) : VmInstr.optype :=
  if is_long_double t then VMOP_LDBL
  else if is_float t then VMOP_FLT
  else if is_double t then VMOP_DBL
  else if is_bool t || is_char t then if is_unsigned t then VMOP_UINT8 else VMOP_INT8
  else if is_short t then if is_unsigned t then VMOP_UINT16 else VMOP_INT16
  else if is_int t then if is_unsigned t then VMOP_UINT32 else VMOP_INT32
  else if is_long t || is_pointer t then if is_unsigned t then VMOP_UINT64 else VMOP_INT64
  else VMOP_INT32.

(** The type of the value a variable's storage holds. *)
Definition value_optype (v : var) : VmInstr.optype :=
  if is_struct_or_union (v_type v) then get_vmop_var_type v else get_vm_optype (v_type v).

(** ** Single instructions *)

Definition emit_vm_call (v : var) (g : genstate) : outcome genstate :=
  size ← isize_of (v_type v);
  a ← address_of g v size;
  Ok (emit_vm_code (mkcode VM_CALL (if bool_decide (v_kind v = ADDRESS) then VMOP_FUNCNAME else VMOP_ADDR)
    (DAddr a)) g).

Definition emit_vm_cleanup (size : Z) (g : genstate) : genstate :=
  if 0 <? size then emit_vm_code (mkcode VM_CLUP VMOP_NONE (DSize size)) g else g.

Definition emit_vm_enter (stack_size : Z) (g : genstate) : genstate :=
  emit_vm_code (mkcode VM_ENTER VMOP_NONE (DSize stack_size)) g.

Definition emit_vm_ret (size : Z) (g : genstate) : outcome genstate :=
  last ← back (g_code g);
  drop ← (if negb (g_mode g) && bool_decide (c_opcode last = VM_POP) && negb (bool_decide (c_type last = VMOP_NONE))
          then a ← d_addr last; Ok (negb (a_global a)) else Ok false);
  let g := if drop : bool then pop_code g else g in
  (* the popped element is still there to be read *)
  if bool_decide (c_opcode last = VM_JMP) || bool_decide (c_opcode last = VM_RET) then Ok g
  else Ok (emit_vm_code (mkcode VM_RET VMOP_NONE (DSize size)) g).

Definition emit_vm_jmp (o : opcode) (label : list Z) (size : Z) (g : genstate) : outcome genstate :=
  last ← back (code_of_mode g);
  if bool_decide (c_opcode last = VM_JMP) then Ok g
  else Ok (emit_vm_code (mkcode o VMOP_NONE (DAddr (VmAddress label false 0 0 0 size None))) g).

Definition emit_vm_label (name : list Z) (g : genstate) : genstate :=
  let index := Z.of_nat (length (g_labels g)) in
  emit_vm_code (mkcode VM_LABEL VMOP_LABEL (DLabel index))
    (set_labels (g_labels g ++ [VmLabel (-1) name]) g).

Definition emit_vm_push_imm (t : VmInstr.optype) (bits : Z) (g : genstate) : genstate :=
  emit_vm_code (mkcode VM_PUSH t (DImm (ImmBits bits))) g.

Definition emit_vm_push_string (s : kstring) (g : genstate) : outcome genstate :=
  let index := Z.of_nat (length (g_area g)) in
  if index + (s_len s + 1) <=? VM_GLOBAL_MEM_SIZE then
    Ok (emit_vm_code (mkcode VM_PUSH VMOP_CHARP (DImm (ImmStr index)))
          (set_area (g_area g ++ str_raw s ++ [0]) g))
  else Undef "string area overflow".

Definition emit_vm_op (o : opcode) (t : VmInstr.optype) (g : genstate) : genstate :=
  emit_vm_code (mkcode o t DNone) g.

Definition emit_vm_load_address (v : var) (g : genstate) : outcome genstate :=
  y ← get_symbol (g_symbols g) (v_symbol v);
  size ← isize_of (v_type v);
  if (sym_depth y =? 0) && bool_decide (is_Some (get_vm_label (g_labels g) (str_raw (Symbol.sym_name y)))) then
    n ← sym_name y;
    Ok (emit_vm_code (mkcode VM_PUSH VMOP_FUNCNAME (DAddr (VmAddress n false (-1) 0 0 size None))) g)
  else
    a ← address_of g v size;
    Ok (emit_vm_code (mkcode VM_PUSH VMOP_ADDR (DAddr a)) g).

(** [0xFFFFFFFF << n]. *)
Definition shl_ones (n : Z) : outcome Z :=
  if (0 <=? n) && (n <? 32) then Ok (wrap_u 32 (Z.shiftl (2 ^ 32 - 1) n)) else Undef "shift out of range".
Definition not32 (n : Z) : Z := wrap_u 32 (Z.lnot n).
(** The bits of a field of this width, and all bits but those of a field. *)
Definition width_mask (w : Z) : outcome Z := m ← shl_ones w; Ok (not32 m).
Definition field_hole (v : var) : outcome Z :=
  hi ← shl_ones (v_field_width v + v_field_offset v);
  lo ← shl_ones (v_field_offset v);
  Ok (Z.lor hi (not32 lo)).

(** Whether the last instruction is a pop into the storage of [v]. *)
Definition pops (last : vm_code) (y : symbol) (v : var) (size : Z) : outcome bool :=
  a ← d_addr last;
  Ok (Bool.eqb (a_global a) (is_global_var y) && (a_size a =? size) && (a_base a =? base_of y)
      && (wrap_u 64 (a_offset a) =? v_offset v)).

(** The shortcut of [emit_vm_load]: a value just popped into [v] stays on the
    stack. *)
Definition load_shortcut (v : var) (size : Z) (g : genstate) : outcome (option genstate) :=
  y ← get_symbol (g_symbols g) (v_symbol v);
  let type := get_vmop_var_type v in
  if negb (g_protect g) && negb (is_field v) && (negb (g_mode g) || negb (bool_decide (g_glbl g = []))) then
    last ← back (code_of_mode g);
    if bool_decide (c_opcode last = VM_POP) && negb (bool_decide (c_type last = VMOP_NONE)) &&
       (negb (bool_decide (type = VMOP_VARFL)) || bool_decide (c_type last = VMOP_FLT)
        || bool_decide (c_type last = VMOP_DBL)) then
      p ← pops last y v size;
      if p : bool then
        Ok (Some (if is_temporary_var y then pop_code g
                  else set_back (VmCode (c_index last) VM_STORE (c_type last) (c_d last)) g))
      else Ok None
    else Ok None
  else Ok None.

Definition emit_vm_load (v : var) (g : genstate) : outcome genstate :=
  size ← (if is_field v then Ok 4 else isize_of (v_type v));
  short ← load_shortcut v size g;
  match short with
  | Some g => Ok g
  | None =>
      a ← address_of g v size;
      let g := emit_vm_code (mkcode VM_PUSH (get_vmop_var_type v) (DAddr a)) g in
      if is_field v then
        m ← width_mask (v_field_width v);
        let g := if 0 <? v_field_offset v then
                   emit_vm_op VM_SHR VMOP_INT32 (emit_vm_push_imm VMOP_INT32 (wrap_u 32 (v_field_offset v)) g)
                 else g in
        Ok (emit_vm_op VM_AND VMOP_UINT32 (emit_vm_push_imm VMOP_UINT32 m g))
      else Ok g
  end.

Definition emit_vm_deref (v : var) (g : genstate) : outcome genstate :=
  size ← isize_of (v_type v);
  a ← address_of g v size;
  Ok (emit_vm_code (mkcode VM_DEREF (value_optype v) (DAddr a)) g).

Definition emit_vm_cast (src dst : ctype) (g : genstate) : genstate :=
  emit_vm_code (mkcode VM_CAST VMOP_NONE (DCast src dst)) g.

Definition vm_store_bitfield_zero (v : var) (g : genstate) : outcome genstate :=
  _ ← c_assert (is_field v);
  size ← isize_of (v_type v);
  a ← address_of g v size;
  let g := emit_vm_code (mkcode VM_PUSH VMOP_VARU (DAddr a)) g in
  m ← field_hole v;
  let g := emit_vm_op VM_AND VMOP_UINT32 (emit_vm_push_imm VMOP_UINT32 m g) in
  Ok (emit_vm_code (mkcode VM_POP (value_optype v) (DAddr a)) g).

Definition emit_vm_store (v : var) (g : genstate) : outcome genstate :=
  if is_field v then
    a ← address_of g v 4;
    let g := if 0 <? v_field_offset v then
               emit_vm_op VM_SHL VMOP_INT32 (emit_vm_push_imm VMOP_INT32 (wrap_u 32 (v_field_offset v)) g)
             else g in
    let g := emit_vm_code (mkcode VM_PUSH VMOP_VARU (DAddr a)) g in
    m ← field_hole v;
    let g := emit_vm_op VM_AND VMOP_UINT32 (emit_vm_push_imm VMOP_UINT32 m g) in
    let g := emit_vm_op VM_OR VMOP_UINT32 g in
    Ok (emit_vm_code (mkcode VM_POP VMOP_UINT32 (DAddr a)) g)
  else
    size ← isize_of (v_type v);
    a ← address_of g v size;
    Ok (emit_vm_code (mkcode VM_POP (value_optype v) (DAddr a)) g).

Definition emit_vm_deref_store (v : var) (g : genstate) : outcome genstate :=
  y ← get_symbol (g_symbols g) (v_symbol v);
  size ← isize_of (v_type v);
  a ← var_address g v (base_of y) size;
  Ok (emit_vm_code (mkcode VM_DEPOP (value_optype v) (DAddr a)) g).

Definition emit_vm_alloca (v : var) (g : genstate) : outcome genstate :=
  size ← isize_of (v_type v);
  a ← address_of g v size;
  Ok (emit_vm_code (mkcode VM_ALLOCA VMOP_NONE (DAddr a)) g).

Definition emit_vm_pop (v : var) (g : genstate) : outcome genstate :=
  last ← back (g_code g);
  size ← size_of depth ts (v_type v);
  if bool_decide (c_opcode last = VM_CLUP) then
    n ← d_size last;
    Ok (set_codes (removelast (g_code g) ++ [VmCode (c_index last) VM_CLPOP (c_type last) (DSize (wrap_s 32 (n + size)))])
          (g_glbl g) g)
  else Ok (emit_vm_code (mkcode VM_POP VMOP_NONE (DSize (wrap_s 32 size))) g).

Definition emit_vm_fill_zero (v : var) (g : genstate) : outcome genstate :=
  size ← isize_of (v_type v);
  index ← var_index g v;
  merged ← (if negb (g_mode g) || negb (bool_decide (g_glbl g = [])) then
              last ← back (code_of_mode g);
              if bool_decide (c_opcode last = VM_FZERO) then
                a ← d_addr last;
                if a_index a + a_size a =? index then
                  Ok (Some (set_back (VmCode (c_index last) VM_FZERO (c_type last)
                    (DAddr (VmAddress (a_name a) (a_global a) (a_index a) (a_base a) (a_offset a)
                              (wrap_s 32 (a_size a + size)) (a_func a)))) g))
                else Ok None
              else Ok None
            else Ok None);
  match merged with
  | Some g => Ok g
  | None =>
      a ← address_of g v size;
      Ok (emit_vm_code (mkcode VM_FZERO VMOP_NONE (DAddr a)) g)
  end.

(** ** Variables *)

Definition is_constant_imm (e : expression) : bool :=
  bool_decide (ex_op e = IR_OP_CAST) && bool_decide (v_kind (ex_l e) = IMMEDIATE) && is_integer (v_type (ex_l e)).
Definition is_constant_zero (e : expression) : bool :=
  is_constant_imm e && (wrap_s 64 (v_imm (ex_l e)) =? 0).

(** [+ offset] on the pointer at the top of the stack. *)
Definition add_offset (v : var) (g : genstate) : genstate :=
  if v_offset v =? 0 then g
  else emit_vm_op VM_ADD VMOP_UINT64 (emit_vm_push_imm VMOP_INT32 (wrap_u 32 (v_offset v)) g).

(** An immediate number; [None] for the types that are none. *)
Definition push_number (v : var) (g : genstate) : option genstate :=
  let u := is_unsigned (v_type v) in
  match type_of (v_type v) with
  | T_POINTER | T_BOOL | T_CHAR =>
      Some (emit_vm_push_imm (if u then VMOP_UINT8 else VMOP_INT8) (wrap_u 8 (v_imm v)) g)
  | T_SHORT => Some (emit_vm_push_imm (if u then VMOP_UINT16 else VMOP_INT16) (wrap_u 16 (v_imm v)) g)
  | T_INT => Some (emit_vm_push_imm (if u then VMOP_UINT32 else VMOP_INT32) (wrap_u 32 (v_imm v)) g)
  | T_LONG => Some (emit_vm_push_imm (if u then VMOP_UINT64 else VMOP_INT64) (wrap_u 64 (v_imm v)) g)
  | T_FLOAT => Some (emit_vm_push_imm VMOP_FLT (wrap_u 32 (v_imm v)) g)
  | T_DOUBLE => Some (emit_vm_push_imm VMOP_DBL (wrap_u 64 (v_imm v)) g)
  | T_LDOUBLE => Some (emit_vm_push_imm VMOP_LDBL (f_cvt F64 F80 (wrap_u 64 (v_imm v))) g)
  | _ => None
  end.

Definition vm_load_var (v : var) (g : genstate) : outcome genstate :=
  match v_kind v with
  | IMMEDIATE =>
      match type_of (v_type v), v_symbol v with
      | T_POINTER, Some s =>
          y ← get_symbol (g_symbols g) (Some s);
          k ← symbol_string y;
          g ← emit_vm_push_string k g;
          _ ← c_assert (bool_decide (sym_symtype y = SYM_STRING_VALUE));
          Ok (add_offset v g)
      | T_ARRAY, s => y ← get_symbol (g_symbols g) s; k ← symbol_string y; emit_vm_push_string k g
      | _, _ => match push_number v g with Some g => Ok g | None => Exit "assertion failed" end
      end
  | DIRECT => emit_vm_load v g
  | ADDRESS => emit_vm_load_address v g
  | DEREF =>
      y ← get_symbol (g_symbols g) (v_symbol v);
      ptr ← var_direct (g_symbols g) (v_symbol v);
      g ← (if bool_decide (v_kind ptr = IMMEDIATE) && bool_decide (sym_symtype y = SYM_STRING_VALUE) then
             k ← symbol_string y; emit_vm_push_string k g
           else g ← emit_vm_load ptr (set_protect true g); Ok (set_protect false g));
      emit_vm_deref v (add_offset v g)
  end.

Definition vm_store_var (v : var) (g : genstate) : outcome genstate :=
  match v_kind v with
  | DIRECT => emit_vm_store v g
  | DEREF => emit_vm_deref_store v g
  | _ => Exit "assertion failed"
  end.

(** Whether the right operand has just been popped: then it is loaded first. *)
Definition is_swap_available (v : var) (g : genstate) : outcome bool :=
  match v_symbol v with
  | None => Ok false
  | Some s =>
      if negb (bool_decide (g_code g = [])) && (negb (g_mode g) || negb (bool_decide (g_glbl g = []))) then
        y ← get_symbol (g_symbols g) (Some s);
        size ← isize_of (v_type v);
        last ← back (code_of_mode g);
        if bool_decide (c_opcode last = VM_POP) then
          match c_d last with
          | DAddr _ => pops last y v size
          | _ => Ok false   (* [d.size] overlays [d.addr.name] *)
          end
        else Ok false
      else Ok false
  end.

(** ** Expressions *)

(** [vm_load_var(a); vm_load_var(b);] *)
Definition load2 (a b : var) (g : genstate) : outcome genstate :=
  g ← vm_load_var a g; vm_load_var b g.

(** [GEN_2OP_SWAP_CHECK], [GEN_2OP_SWAP_CHECK_L] and [GEN_2OP_SWAP_CHECK_CMP]. *)
Definition GEN_2OP_SWAP_CHECK (o : opcode) (t : ctype) (e : expression) (g : genstate) : outcome genstate :=
  w ← is_swap_available (ex_r e) g;
  g ← (if w : bool then load2 (ex_r e) (ex_l e) g else load2 (ex_l e) (ex_r e) g);
  Ok (emit_vm_op o (get_vm_optype t) g).
Definition GEN_2OP_SWAP_CHECK_CMP (o1 o2 : opcode) (e : expression) (g : genstate) : outcome genstate :=
  w ← is_swap_available (ex_r e) g;
  g ← (if w : bool then load2 (ex_r e) (ex_l e) g else load2 (ex_l e) (ex_r e) g);
  Ok (emit_vm_op (if w : bool then o2 else o1) (get_vm_optype (v_type (ex_l e))) g).

(** An [int] constant from 1 to 3 on the right. *)
Definition small_count (v : var) : option nat :=
  if bool_decide (v_kind v = IMMEDIATE) && bool_decide (type_of (v_type v) = T_INT)
     && (0 <? wrap_s 64 (v_imm v)) && (wrap_s 64 (v_imm v) <=? VM_INCDEC_COUNT_MAX)
  then Some (Z.to_nat (wrap_s 64 (v_imm v))) else None.
Definition repeat_op (n : nat) (o : opcode) (g : genstate) : genstate :=
  Nat.iter n (emit_vm_op o VMOP_INT32) g.

Definition GEN_2OP_SWAP_CHECK_ADD (e : expression) (g : genstate) : outcome genstate :=
  match small_count (ex_r e) with
  | Some n => g ← vm_load_var (ex_l e) g; Ok (repeat_op n VM_INC g)
  | None => GEN_2OP_SWAP_CHECK VM_ADD (ex_type e) e g
  end.

(** Both operands in order. *)
Definition gen_2op (o : opcode) (e : expression) (g : genstate) : outcome genstate :=
  g ← load2 (ex_l e) (ex_r e) g; Ok (emit_vm_op o (get_vm_optype (ex_type e)) g).

Definition name_setjmp : list Z := cstr "setjmp".
Definition name_longjmp : list Z := cstr "longjmp".

Definition vm_gen_expr (e : expression) (g : genstate) : outcome genstate :=
  match ex_op e with
  | IR_OP_CAST =>
      same ← type_equal depth ts (ex_type e) (v_type (ex_l e));
      g ← vm_load_var (ex_l e) g;
      Ok (if same : bool then g else emit_vm_cast (v_type (ex_l e)) (ex_type e) g)
  | IR_OP_CALL =>
      y ← get_symbol (g_symbols g) (v_symbol (ex_l e));
      n ← sym_name y;
      g ← (if bool_decide (n = name_setjmp) then Ok (emit_vm_op VM_SETJMP VMOP_NONE g)
           else if bool_decide (n = name_longjmp) then Ok (emit_vm_op VM_LONGJMP VMOP_NONE g)
           else g ← emit_vm_call (ex_l e) g; Ok (emit_vm_cleanup (g_args_size g) g));
      Ok (set_args (g_args g) 0 g)
  | IR_OP_VA_ARG => Exit "assertion failed"
  | IR_OP_NOT => g ← vm_load_var (ex_l e) g; Ok (emit_vm_op VM_NOT (get_vm_optype (v_type (ex_l e))) g)
  | IR_OP_NEG => g ← vm_load_var (ex_l e) g; Ok (emit_vm_op VM_NEG (get_vm_optype (v_type (ex_l e))) g)
  | IR_OP_ADD => GEN_2OP_SWAP_CHECK_ADD e g
  | IR_OP_SUB =>
      match small_count (ex_r e) with
      | Some n => g ← vm_load_var (ex_l e) g; Ok (repeat_op n VM_DEC g)
      | None => gen_2op VM_SUB e g
      end
  | IR_OP_MUL => GEN_2OP_SWAP_CHECK VM_MUL (ex_type e) e g
  | IR_OP_DIV => gen_2op VM_DIV e g
  | IR_OP_MOD => gen_2op VM_MOD e g
  | IR_OP_AND => GEN_2OP_SWAP_CHECK VM_AND (ex_type e) e g
  | IR_OP_OR => GEN_2OP_SWAP_CHECK VM_OR (ex_type e) e g
  | IR_OP_XOR => GEN_2OP_SWAP_CHECK VM_XOR (ex_type e) e g
  | IR_OP_SHL => gen_2op VM_SHL e g
  | IR_OP_SHR => gen_2op VM_SHR e g
  | IR_OP_EQ =>
      GEN_2OP_SWAP_CHECK VM_EQ (if is_real (v_type (ex_l e)) && is_real (v_type (ex_r e))
                                then v_type (ex_l e) else ex_type e) e g
  | IR_OP_NE =>
      GEN_2OP_SWAP_CHECK VM_NE (if is_real (v_type (ex_l e)) && is_real (v_type (ex_r e))
                                then v_type (ex_l e) else ex_type e) e g
  | IR_OP_GE => GEN_2OP_SWAP_CHECK_CMP VM_GE VM_LE e g
  | IR_OP_GT => GEN_2OP_SWAP_CHECK_CMP VM_GT VM_LT e g
  end.

(** ** Statements *)

(** [PUSH_ARGS]: from the last argument to the first. *)
Fixpoint push_args (es : list expression) (g : genstate) : outcome genstate :=
  match es with
  | [] => Ok g
  | e :: es =>
      g ← vm_gen_expr e g;
      size ← isize_of (ex_type e);
      push_args es (set_args (g_args g) (wrap_s 32 (g_args_size g + pad8 size)) g)
  end.
Definition PUSH_ARGS (g : genstate) : outcome genstate :=
  g ← push_args (rev (g_args g)) g; Ok (set_args [] (g_args_size g) g).

(** The loop of [vm_gen_string_array], for [i] to [i + n - 1]. *)
Fixpoint string_elements (n : nat) (i : Z) (v : var) (t : ctype) (size : Z) (chars : list Z) (g : genstate) :
    outcome genstate :=
  match n with
  | O => Ok g
  | S n =>
      c ← defined "past the string" (chars !! Z.to_nat i);
      g ← vm_store_var (Var (v_kind v) t (v_symbol v) (addz (v_offset v) (mulz i size)) (v_field_width v)
                          (v_field_offset v) (v_lvalue v) (v_imm v))
            (emit_vm_push_imm VMOP_INT32 (wrap_u 32 (wrap_s 8 c)) g);
      string_elements n (i + 1) v t size chars g
  end.
Definition vm_gen_string_array (v : var) (e : expression) (g : genstate) : outcome genstate :=
  y ← get_symbol (g_symbols g) (v_symbol (ex_l e));
  k ← symbol_string y;
  size ← size_of depth ts (v_type v);
  t ← type_next ts (v_type v);
  n ← size_of depth ts t;
  if n =? 0 then Undef "division by zero"
  else string_elements (Z.to_nat (size / n)) 0 v t n (str_raw k ++ [0]) g.

(** The store of a constant into a bit-field. *)
Definition store_field_imm (s : statement) (mask : Z) (g : genstate) : outcome genstate :=
  vm_store_var (st_t s)
    (emit_vm_push_imm VMOP_UINT32 (Z.land (wrap_u 32 (v_imm (ex_l (st_expr s)))) mask) g).
Definition is_zero_imm (s : statement) : bool := wrap_u 64 (v_imm (ex_l (st_expr s))) =? 0.

Definition gen_assign (s : statement) (g : genstate) : outcome genstate :=
  let t := st_t s in let e := st_expr s in
  if negb (is_field t) && negb (is_void (v_type t)) && is_constant_zero e && negb (bool_decide (v_kind t = DEREF))
  then emit_vm_fill_zero t g
  else if is_array (v_type t) && is_array (ex_type e) && bool_decide (ex_op e = IR_OP_CAST) then
    _ ← c_assert (bool_decide (is_Some (v_symbol (ex_l e))));
    vm_gen_string_array t e g
  else
    y ← get_symbol (g_symbols g) (v_symbol t);
    let protect := is_temporary_var y && bool_decide (v_kind t = DEREF) in
    if is_field t && is_constant_imm e then
      mask ← width_mask (v_field_width t);
      if is_zero_imm s then vm_store_bitfield_zero t g
      else g ← store_field_imm s mask (set_protect protect g); Ok (set_protect false g)
    else
      g ← vm_gen_expr e (set_protect protect g);
      g ← vm_store_var t g;
      Ok (set_protect false g).

Definition gen_statement (s : statement) (g : genstate) : outcome genstate :=
  g ← (if negb (bool_decide (g_args g = [])) && negb (bool_decide (st_st s = IR_PARAM)) then PUSH_ARGS g else Ok g);
  match st_st s with
  | IR_ASSIGN => gen_assign s g
  | IR_PARAM => Ok (set_args (g_args g ++ [st_expr s]) (g_args_size g) g)
  | IR_VA_START => Ok g
  | IR_EXPR => g ← vm_gen_expr (st_expr s) g; emit_vm_pop (ex_l (st_expr s)) g
  | IR_VLA_ALLOC =>
      g ← vm_gen_expr (st_expr s) g;
      y ← get_symbol (g_symbols g) (v_symbol (st_t s));
      match sym_value y with
      | VlaAddress a => v ← var_direct (g_symbols g) (Some a); emit_vm_alloca v g
      | _ => Undef "union member vla_address"
      end
  end.

Fixpoint gen_code (code : list statement) (g : genstate) : outcome genstate :=
  match code with
  | [] => Ok g
  | s :: code => g ← gen_statement s g; gen_code code g
  end.

(** ** Blocks *)

Definition label_name (g : genstate) (s : option symref) : outcome (list Z) :=
  y ← get_symbol (g_symbols g) s; sym_name y.

Fixpoint table_entries (l : list jump_pair) (g : genstate) : outcome genstate :=
  match l with
  | [] => Ok g
  | jp :: l =>
      n ← label_name g (Some (jp_symbol jp));
      table_entries l (emit_vm_code (mkcode VM_TBL_ENTRY VMOP_NONE (DAddr (VmAddress n false 0 0 0 0 None))) g)
  end.

(** A recursion over a list of blocks. *)
Fixpoint each (f : bref → genstate → outcome genstate) (rs : list bref) (g : genstate) : outcome genstate :=
  match rs with [] => Ok g | r :: rs => g ← f r g; each f rs g end.

Definition clear_table (b : block) : block :=
  Block (b_label b) (b_code b) (b_expr b) (b_jump0 b) (b_jump1 b) (b_has_jump_table b) (b_table_offset b)
    [] (b_body b) (b_has_return_value b) (b_has_init_value b) (b_color b) (b_in b) (b_out b).

(** [NEXT_BLOCK]. *)
Definition NEXT_BLOCK (gen : bref → genstate → outcome genstate) (r : bref) (g : genstate) : outcome genstate :=
  b ← get_block (g_blocks g) r;
  match b_color b with
  | BLACK => n ← label_name g (b_label b); emit_vm_jmp VM_JMP n 0 g
  | WHITE => gen r g
  end.

(** What follows the statements of a block without a loop body. *)
Definition gen_exit (gen : bref → genstate → outcome genstate) (node : block) (g : genstate) : outcome genstate :=
  match b_jump0 node, b_jump1 node with
  | None, None =>
      if b_has_return_value node then
        g ← vm_gen_expr (b_expr node) g;
        size ← isize_of (ex_type (b_expr node));
        emit_vm_ret size g
      else emit_vm_ret 0 g
  | Some j0, Some j1 =>
      g ← vm_gen_expr (b_expr node) g;
      b1 ← get_block (g_blocks g) j1;
      n ← label_name g (b_label b1);
      size ← isize_of (ex_type (b_expr node));
      g ← emit_vm_jmp VM_JNZ n size g;
      g ← NEXT_BLOCK gen j0 g;
      NEXT_BLOCK gen j1 g
  | Some j0, None => NEXT_BLOCK gen j0 g
  | None, Some _ => Exit "assertion failed"
  end.

Fixpoint vm_gen_node (fuel : nat) (r : bref) (g : genstate) : outcome genstate :=
  match fuel with
  | O => Undef "blocks out of fuel"
  | S fuel =>
      node ← get_block (g_blocks g) r;
      match b_color node with
      | BLACK => Ok g
      | WHITE =>
          let g := set_blocks (<[r := set_color node BLACK]> (g_blocks g)) g in
          n ← label_name g (b_label node);
          let g := emit_vm_label n g in
          if b_has_jump_table node then
            g ← vm_gen_expr (b_expr node) g;
            g ← table_entries (b_jump_table node) (emit_vm_op VM_JMPTBL VMOP_NONE g);
            g ← each (vm_gen_node fuel) (jp_label <$> b_jump_table node) g;
            node ← get_block (g_blocks g) r;
            Ok (set_blocks (<[r := clear_table node]> (g_blocks g)) g)
          else
            g ← match b_body node with
                | Some body =>
                    match b_jump0 node, b_jump1 node with
                    | Some j0, None =>
                        b0 ← get_block (g_blocks g) j0;
                        n ← label_name g (b_label b0);
                        size ← isize_of (ex_type (b_expr node));
                        g ← emit_vm_jmp VM_JMP n size g;
                        vm_gen_node fuel body g
                    | _, _ => Exit "assertion failed"
                    end
                | None => Ok g
                end;
            g ← gen_code (b_code node) g;
            g ← (if negb (bool_decide (g_args g = [])) then PUSH_ARGS g else Ok g);
            match b_body node, b_jump0 node with
            | Some _, Some j0 => vm_gen_node fuel j0 g
            | Some _, None => Undef "null block"
            | None, _ => gen_exit (vm_gen_node fuel) node g
            end
      end
  end.

(** ** Definitions *)

(** An element of the initial value of an object. *)
Definition gen_initial (symbol : option symref) (st : statement) (g : genstate) : outcome genstate :=
  y ← get_symbol (g_symbols g) (v_symbol (st_t st));
  let g := set_mode (is_global_var y) g in
  g ← (if negb (is_field (st_t st)) then
         _ ← c_assert (bool_decide (st_st st = IR_ASSIGN));
         _ ← c_assert (bool_decide (v_kind (st_t st) = DIRECT));
         i ← is_identity depth ts (st_expr st);
         _ ← c_assert i;
         _ ← c_assert (bool_decide (v_symbol (st_t st) = symbol));
         if is_constant_zero (st_expr st) then emit_vm_fill_zero (st_t st) g
         else if is_array (v_type (st_t st)) && is_array (ex_type (st_expr st))
                 && bool_decide (ex_op (st_expr st) = IR_OP_CAST) then
           _ ← c_assert (bool_decide (is_Some (v_symbol (ex_l (st_expr st)))));
           vm_gen_string_array (st_t st) (st_expr st) g
         else g ← vm_gen_expr (st_expr st) g; vm_store_var (st_t st) g
       else if is_constant_imm (st_expr st) then
         mask ← width_mask (v_field_width (st_t st));
         if is_zero_imm st then vm_store_bitfield_zero (st_t st) g else store_field_imm st mask g
       else g ← vm_gen_expr (st_expr st) g; vm_store_var (st_t st) g);
  Ok (set_mode false g).
Fixpoint gen_initials (symbol : option symref) (code : list statement) (g : genstate) : outcome genstate :=
  match code with
  | [] => Ok g
  | st :: code => g ← gen_initial symbol st g; gen_initials symbol code g
  end.

(** [struct definition]; [labels] and [nodes] are not read here. *)
Record definition : Set := MkDefinition {
  def_symbol : option symref;
  def_body : bref;
  def_params : list symref;
  def_locals : list symref
}.

Definition vm_gen_data (d : definition) (g : genstate) : outcome genstate :=
  body ← get_block (g_blocks g) (def_body d); gen_initials (def_symbol d) (b_code body) g.

(** [EIGHTBYTES] of src/backend/x86_64/abi.h. *)
Definition EIGHTBYTES (t : ctype) : outcome Z := n ← size_of depth ts t; Ok (addz n 7 / 8).

Definition set_offset (y : symbol) (o : Z) : symbol :=
  Symbol (Symbol.sym_name y) (sym_type y) (sym_symtype y) (sym_linkage y) (sym_referenced y) (sym_slot y)
    (sym_index y) (sym_n y) (sym_depth y) o (sym_global_offset y) (sym_value y).

(** [vm_allocate_locals]: the symbols and the size of the locals. *)
Fixpoint vm_allocate_locals (locals : list symref) (ys : symbols) (offset : Z) : outcome (symbols * Z) :=
  match locals with
  | [] => Ok (ys, offset)
  | s :: locals =>
      y ← get_symbol ys (Some s);
      _ ← c_assert (sym_stack_offset y =? 0);
      _ ← c_assert (bool_decide (sym_symtype y = SYM_DEFINITION));
      v ← (if bool_decide (sym_linkage y = LINK_NONE) && (sym_slot y =? 0)
           then v ← is_vla depth ts (sym_type y); Ok (negb v) else Ok false);
      if v : bool then
        n ← EIGHTBYTES (sym_type y);
        vm_allocate_locals locals (<[s := set_offset y offset]> ys) (wrap_s 32 (offset + n * 8))
      else vm_allocate_locals locals ys offset
  end.

(** The parameters, below the saved registers. *)
Fixpoint place_params (params : list symref) (ys : symbols) (mem_offset : Z) : outcome symbols :=
  match params with
  | [] => Ok ys
  | s :: params =>
      y ← get_symbol ys (Some s);
      n ← EIGHTBYTES (sym_type y);
      _ ← c_assert (sym_stack_offset y =? 0);
      _ ← c_assert (bool_decide (sym_linkage y = LINK_NONE));
      let mem_offset := wrap_s 32 (mem_offset - n * 8) in
      place_params params (<[s := set_offset y mem_offset]> ys) mem_offset
  end.

Definition vm_func_enter (d : definition) (g : genstate) : outcome genstate :=
  y ← get_symbol (g_symbols g) (def_symbol d);
  n ← sym_name y;
  let g := emit_vm_label n g in
  ys ← place_params (def_params d) (g_symbols g) (-16);
  '(ys, size) ← vm_allocate_locals (def_locals d) ys 0;
  Ok (emit_vm_enter size (set_stack_size size (set_symbols ys g))).

Definition vm_gen_lir (fuel : nat) (d : definition) (g : genstate) : outcome genstate :=
  y ← get_symbol (g_symbols g) (def_symbol d);
  if is_function (sym_type y) then
    g ← vm_func_enter d g;
    g ← vm_gen_node fuel (def_body d) g;
    last ← back (g_code g);
    if bool_decide (c_opcode last = VM_RET) then Ok g else emit_vm_ret 0 g
  else vm_gen_data d g.
End generator.

(** ** The program around the definitions *)

(** The start of the labels is the list of builtin functions, with negative
    numbers. *)
Fixpoint vm_setup_builtins (i : Z) (names : list (list Z)) : list vm_label :=
  match names with [] => [] | n :: names => VmLabel (- i) n :: vm_setup_builtins (i + 1) names end.

Definition gen_start (names : list (list Z)) (ys : symbols) (bs : blocks) : genstate :=
  GenState false false [] [] (vm_setup_builtins 1 names) [] 0 [] 0 ys bs.

Definition vm_init (is_save : bool) (names : list (list Z)) (ys : symbols) (bs : blocks) : outcome genstate :=
  let g := gen_start names ys bs in
  g ← (if is_save then Ok g
       else emit_vm_jmp VM_JMP (cstr "_setup_global") 0 (emit_vm_label (cstr "_startup") g));
  let g := emit_vm_label (cstr "_setup_global") (set_mode true g) in
  _ ← c_assert (bool_decide (length (g_glbl g) = 1%nat));
  Ok (set_mode false (emit_vm_enter 0 g)).

Definition add_ref_module (name : list Z) (g : genstate) : genstate :=
  emit_vm_code (mkcode VM_REFLIB VMOP_NONE (DName name)) g.

Definition call_by_name (name : list Z) : vm_code :=
  mkcode VM_CALL VMOP_FUNCNAME (DAddr (VmAddress name false (-1) 0 0 0 None)).

(** The end of the global code: [main] with its arguments, and the functions
    around it. *)
Definition start_code (argv argc : Z) : list vm_code :=
  [call_by_name (cstr "__kcc_builtin_onstart");
   mkcode VM_PUSH VMOP_UINT64 (DImm (ImmBits (wrap_u 64 argv)));
   mkcode VM_PUSH VMOP_INT32 (DImm (ImmBits (wrap_u 32 argc)));
   call_by_name (cstr "main");
   mkcode VM_SAVE_RETVAL VMOP_NONE DNone;
   call_by_name (cstr "__kcc_call_atexit_funcs");
   call_by_name (cstr "__kcc_builtin_onexit");
   mkcode VM_HALT VMOP_NONE DNone].

(** The size of the global variables goes into the second instruction. *)
Definition set_global_size (size : Z) (glbl : list vm_code) : outcome (list vm_code) :=
  c ← defined "no instruction" (glbl !! 1%nat);
  Ok (<[1%nat := VmCode (c_index c) (c_opcode c) (c_type c) (DSize (pad8 size))]> glbl).

(** [vm_fix_lir] behind the loading of the imported modules: the code that
    [reassign_label_index] gets. *)
Definition close_program (argv argc gsize : Z) (g : genstate) : outcome (list vm_code) :=
  glbl ← set_global_size gsize (g_glbl g ++ start_code argv argc);
  Ok (g_code g ++ glbl).

(** [vm_save_lir]: the bytes of the module. *)
Definition vm_save_lir `{FloatText} (fuel : nat) (builtin : Z → option Z) (globals : list vm_label) (gsize : Z)
    (g : genstate) : option (outcome (list Z)) :=
  match set_global_size gsize (g_glbl g) with
  | Ok glbl =>
      match reassign_label_index fuel (g_labels g) globals builtin (g_code g ++ glbl) with
      | Some (Ok (labels, code)) =>
          Some (serialize_lir (ImageEnv (l_name <$> labels) (g_area g)) code)
      | Some (Exit e) => Some (Exit e)
      | Some (Undef e) => Some (Undef e)
      | None => None
      end
  | Exit e => Some (Exit e)
  | Undef e => Some (Undef e)
  end.
