(* ===== verification/VmGenSem.v ===== *)
(** * What the code generator is held to

    The meaning of the integer operators on bytes, as an instance of [operate]
    of IrSem, and the code the theorem of VmGenProps is about: assignments to
    and from variables of integer and pointer types, directly or through a
    pointer.  A temporary (a name that begins with a period) has to be read at
    most once after each assignment, because its value may stay on the stack:
    [spent] are the temporaries whose storage is not to be trusted. *)

From stdpp Require Import base list gmap numbers decidable strings.
From Stdlib Require Import ZArith Lia.
From S2P Require Import Prelude Memory CType Floats CArith Strings Symbol Typetree Symtab Ir IrSem VmInstr VmRun VmProps VmMove VmImage VmLink VmGen.

Local Open Scope Z_scope.

(** ** Operators on bytes *)

Definition ir_binop (o : Ir.optype) : option binop :=
  match o with
  | IR_OP_ADD => Some (IArith AAdd) | IR_OP_SUB => Some (IArith ASub)
  | IR_OP_MUL => Some (IArith AMul) | IR_OP_DIV => Some (IArith ADiv)
  | IR_OP_MOD => Some IMod
  | IR_OP_AND => Some (IBit BAnd) | IR_OP_OR => Some (IBit BOr) | IR_OP_XOR => Some (IBit BXor)
  | IR_OP_EQ => Some (ICmp CEq) | IR_OP_NE => Some (ICmp CNe)
  | IR_OP_GE => Some (ICmp CGe) | IR_OP_GT => Some (ICmp CGt)
  | _ => None
  end.

Definition to_option {A} (o : outcome A) : option A := match o with Ok a => Some a | _ => None end.

(** The value of C for an expression on the bytes of its operands; a [_Bool]
    is 0 or 1 already. *)
Definition c_operate (e : expression) (l r : list Z) : option (list Z) :=
  t ← ity_of (v_type (ex_l e));
  d ← ity_of (ex_type e);
  let a := conv t (le_dec l) in
  z ← match ex_op e with
      | IR_OP_CAST => Some (if is_bool (v_type (ex_l e)) then a else c_int_cast (ex_type e) a)
      | IR_OP_NOT => to_option (c_not t a)
      | IR_OP_NEG => to_option (c_neg t a)
      | IR_OP_SHL => u ← ity_of (v_type (ex_r e)); to_option (c_shl t a (conv u (le_dec r)))
      | IR_OP_SHR => u ← ity_of (v_type (ex_r e)); to_option (c_shr t a (conv u (le_dec r)))
      | o => o ← ir_binop o; to_option (c_binop o t a (conv t (le_dec r)))
      end;
  Some (le_enc (isize d) z).

(** ** The code that is generated right *)

Section checks.
Variable depth : nat.
Variable ts : typetab.
Variable ys : symbols.
Variable labels : list vm_label.
Variable M : machine.

Definition is_ity (t : ctype) (k : ity) : bool := is_integer t && bool_decide (ity_of t = Some k).
Definition is_word (t : ctype) : bool := bool_decide (is_Some (ity_of t)).

(** The operators on operands of one type; shifts by a count of its own type;
    equality at 32 bits only, and steps by a constant from 1 to 3 on [int]
    only. *)
Definition expression_ok (e : expression) : bool :=
  let t := v_type (ex_l e) in
  match ity_of t with
  | None => false
  | Some k =>
      let one_type := is_ity t k && is_ity (v_type (ex_r e)) k in
      match ex_op e with
      | IR_OP_CAST =>
          match type_equal depth ts (ex_type e) t with
          | Ok true => is_word t && is_word (ex_type e) && negb (is_bool (ex_type e) && negb (is_bool t)) &&
                         bool_decide (isize <$> ity_of (ex_type e) = Some (isize k))
          | Ok false => is_integer t && is_integer (ex_type e) && is_word (ex_type e) && negb (is_bool (ex_type e))
          | _ => false
          end
      | IR_OP_NOT | IR_OP_NEG => is_ity t k && is_ity (ex_type e) k
      | IR_OP_ADD | IR_OP_SUB =>
          one_type && is_ity (ex_type e) k && (bool_decide (small_count (ex_r e) = None) || bool_decide (k = I32))
      | IR_OP_MUL | IR_OP_DIV | IR_OP_MOD | IR_OP_AND | IR_OP_OR | IR_OP_XOR => one_type && is_ity (ex_type e) k
      | IR_OP_SHL | IR_OP_SHR =>
          is_ity t k && is_ity (ex_type e) k && is_integer (v_type (ex_r e)) &&
          bool_decide (4 ≤ isize k)%nat &&
          match ity_of (v_type (ex_r e)) with Some u => bool_decide (4 ≤ isize u)%nat | None => false end
      | IR_OP_EQ | IR_OP_NE => one_type && bool_decide (isize k = 4%nat) && is_ity (ex_type e) I32
      | IR_OP_GE | IR_OP_GT => one_type && is_ity (ex_type e) I32
      | IR_OP_CALL | IR_OP_VA_ARG => false
      end
  end.

(** A symbol with a name to print and an [int] address. *)
Definition symbol_ok (y : symbol) (o : Z) : bool :=
  match sym_name y with Ok _ => true | _ => false end && (0 <=? o) && (o <? 2 ^ 31) &&
  in_range I32 (base_of y + o).

(** No byte of [[a, a + n)] is in the storage of the symbols [D]. *)
Definition clear (D : list symref) (a : Z) (n : nat) : bool :=
  forallb (λ s, match ys !! s with
                | Some y => match bytes_of depth ts (sym_type y) with
                            | Some k => (a + Z.of_nat n <=? addr M s) || (addr M s + Z.of_nat k <=? a)
                            | None => false
                            end
                | None => false
                end) D.

(** Inside the storage of a symbol. *)
Definition direct_ok (D : list symref) (v : var) : bool :=
  is_word (v_type v) && negb (is_field v) &&
  match v_symbol v, bytes_of depth ts (v_type v) with
  | Some s, Some n =>
      match ys !! s with
      | Some y =>
          symbol_ok y (v_offset v) && clear D (addr M s + v_offset v) n &&
          match bytes_of depth ts (sym_type y) with
          | Some k => v_offset v + Z.of_nat n <=? Z.of_nat k
          | None => false
          end
      | None => false
      end
  | _, _ => false
  end.

(** Through a pointer that is neither null nor runs over the end of memory. *)
Definition deref_ok (D : list symref) (m : mem) (v : var) : bool :=
  is_word (v_type v) && negb (is_field v) && (0 <=? v_offset v) && (v_offset v <? 2 ^ 31) &&
  match v_symbol v, bytes_of depth ts (v_type v) with
  | Some s, Some n =>
      match ys !! s with
      | Some y =>
          symbol_ok y 0 && is_pointer (sym_type y) && clear D (addr M s) 8 &&
          negb (bool_decide (sym_symtype y ∈ [SYM_CONSTANT; SYM_STRING_VALUE; SYM_TABLE; SYM_LABEL])) &&
          match mread m (addr M s) 8 with
          | Some p => (4096 <=? le_dec p) && (le_dec p + v_offset v <? 2 ^ 64) &&
                      clear D (le_dec p + v_offset v) n
          | None => false
          end
      | None => false
      end
  | _, _ => false
  end.

Definition address_ok (v : var) : bool :=
  bool_decide (bytes_of depth ts (v_type v) = Some 8%nat) &&
  match v_symbol v with
  | Some s =>
      match ys !! s with
      | Some y =>
          symbol_ok y (v_offset v) &&
          negb ((sym_depth y =? 0) && bool_decide (is_Some (get_vm_label labels (str_raw (Symbol.sym_name y)))))
      | None => false
      end
  | None => false
  end.

Definition read_ok (D : list symref) (m : mem) (v : var) : bool :=
  match v_kind v with
  | DIRECT => direct_ok D v
  | DEREF => deref_ok D m v
  | ADDRESS => address_ok v
  | IMMEDIATE => is_integer (v_type v) && is_word (v_type v) && bool_decide (v_symbol v = None)
  end.
Definition write_ok (D : list symref) (m : mem) (v : var) : bool :=
  match v_kind v with
  | DIRECT => direct_ok [] v
  | DEREF => deref_ok D m v
  | _ => false
  end.

(** The temporary that a read uses up. *)
Definition spent (v : var) : list symref :=
  match v_kind v, v_symbol v with
  | DIRECT, Some s =>
      match ys !! s with Some y => if is_temporary_var y then [s] else [] | None => [] end
  | _, _ => []
  end.
Definition spent_by (e : expression) : list symref :=
  spent (ex_l e) ++ (if binary (ex_op e) then spent (ex_r e) else []).

(** A write of all of a symbol makes its storage good again. *)
Definition restored (t : var) (D : list symref) : list symref :=
  match v_kind t, v_symbol t with
  | DIRECT, Some s =>
      match ys !! s with
      | Some y => if (v_offset t =? 0) && bool_decide (bytes_of depth ts (sym_type y) = bytes_of depth ts (v_type t))
                  then filter (λ s', s' ≠ s) D else D
      | None => D
      end
  | _, _ => D
  end.

Definition operands_ok (D : list symref) (m : mem) (e : expression) : bool :=
  if binary (ex_op e)
  then read_ok (spent (ex_r e) ++ D) m (ex_l e) && read_ok (spent (ex_l e) ++ D) m (ex_r e)
  else read_ok D m (ex_l e).

(** A store of zero to a variable has an instruction of its own. *)
Definition is_fill (s : statement) : bool :=
  is_constant_zero (st_expr s) && negb (bool_decide (v_kind (st_t s) = DEREF)).

Definition statement_ok (D : list symref) (m : mem) (s : statement) : bool :=
  let e := st_expr s in
  bool_decide (st_st s = IR_ASSIGN) &&
  if is_fill s then direct_ok [] (st_t s) && bool_decide (v_symbol (ex_l e) = None) && is_word (ex_type e)
  else expression_ok e && operands_ok D m e && write_ok (spent_by e ++ D) m (st_t s).

(** Along the run from [m]; two stores of zero do not follow each other. *)
Fixpoint code_ok (D : list symref) (m : mem) (filled : bool) (code : list statement) : bool :=
  match code with
  | [] => true
  | s :: code =>
      negb (filled && is_fill s) && statement_ok D m s &&
      match exec depth ts ys M (m, []) s with
      | Some (m, _) => code_ok (restored (st_t s) (spent_by (st_expr s) ++ D)) m (is_fill s) code
      | None => true
      end
  end.

(** The temporaries that are used up in the end. *)
Fixpoint spent_in (D : list symref) (code : list statement) : list symref :=
  match code with
  | [] => D
  | s :: code => spent_in (restored (st_t s) (spent_by (st_expr s) ++ D)) code
  end.
End checks.
