(* ===== verification/VmGenProps.v ===== *)
(** * The code generator is right on assignments

    The instructions that [gen_code] adds for a list of assignments, run by the
    interpreter, leave memory as the meaning of the assignments in IrSem does,
    but for the temporaries that were used up.  The peepholes of
    [emit_vm_load] rewrite and drop instructions that were emitted before, so
    that the invariant is about all the code since the start. *)

From stdpp Require Import base list gmap numbers decidable strings relations.
From Stdlib Require Import ZArith Lia.
From S2P Require Import Prelude Memory CType Floats CArith Strings Symbol Typetree Symtab Ir IrSem VmInstr VmRun VmProps VmMove VmImage VmLink VmGen VmGenSem.

Local Open Scope Z_scope.

(** ** Words that hold bytes *)

(** The low bytes of a stack word. *)
Definition holds (w : Z) (bs : list Z) : Prop := le_enc (length bs) w = bs.

Lemma holds_eqm w bs : holds w bs → eqm (8 * Z.of_nat (length bs)) w (le_dec bs).
Proof.
  unfold holds. intros H. rewrite <-H at 2. rewrite le_dec_enc. symmetry.
  apply eqm_wrap_u. lia.
Qed.
Lemma holds_enc n w : holds w (le_enc n w).
Proof. unfold holds. by rewrite length_le_enc. Qed.
Lemma holds_eq n w z : eqm (8 * Z.of_nat n) w z → holds w (le_enc n z).
Proof. intros H. unfold holds. rewrite length_le_enc. by apply le_enc_proper. Qed.
Lemma holds_conv k w bs : length bs = isize k → holds w bs → conv k w = conv k (le_dec bs).
Proof. intros Hl H. apply conv_proper. rewrite iwidth_isize, <-Hl. by apply holds_eqm. Qed.
Lemma holds_wrap w bs : (length bs ≤ 8)%nat → holds w bs → holds (wrap_u 64 w) bs.
Proof.
  intros Hl H. unfold holds. rewrite <-H at 2. apply le_enc_proper.
  apply (eqm_le _ 64); [lia|]. apply eqm_wrap_u. lia.
Qed.
Lemma holds_mload m a k bs v : mem_ok m → mread m a (isize k) = Some bs → mload m a k = Some v → holds v bs.
Proof.
  intros Hm Hr Hl. unfold mload in Hl. rewrite Hr in Hl. injection Hl as <-.
  pose proof (mread_length _ _ _ _ Hr) as Hn. unfold holds. rewrite Hn.
  rewrite <-(le_enc_dec bs) at 2 by (by eapply mread_bytes). rewrite Hn.
  apply le_enc_proper. rewrite <-iwidth_isize. apply eqm_conv.
Qed.

(** ** Types *)

Lemma word_types t : is_word t = true → ∃ k k', ity_of t = Some k ∧
  int_optype (get_vm_optype t) = Some k' ∧ isize k' = isize k ∧ (is_integer t = true → k' = k) ∧
  (if is_unsigned t then VMOP_VARU else VMOP_VARI) = var_optype k' ∧
  is_struct_or_union t = false ∧ is_real t = false ∧ is_void t = false ∧ is_array t = false.
Proof.
  unfold is_word. intros H. apply bool_decide_eq_true in H as [k Hk]. exists k. revert Hk.
  unfold is_struct_or_union, is_struct, is_union, is_real, is_void, is_array, ity_of, get_vm_optype,
    is_long_double, is_float, is_double, is_bool, is_char, is_short, is_int, is_long, is_pointer, is_integer,
    is_unsigned, is_bool, between, type_is.
  destruct t as [e u c v r p pc pv pr f]. unfold type_of; simpl.
  destruct p; [|destruct e, u]; simpl; intros; simplify_eq; eexists; by repeat split.
Qed.

Lemma word_size depth ts t k n : ity_of t = Some k → bytes_of depth ts t = Some n →
  n = isize k ∧ size_of depth ts t = Ok (Z.of_nat (isize k)) ∧ isize_of depth ts t = Ok (Z.of_nat (isize k)).
Proof.
  unfold bytes_of, isize_of, ity_of. destruct depth as [|d]; [done|]. simpl.
  destruct (type_of t); intros; simplify_eq/=; try destruct (is_unsigned t); by repeat split.
Qed.

Lemma word_sized depth ts t k n : ity_of t = Some k → bytes_of depth ts t = Some n →
  bytes_of depth ts t = Some (isize k).
Proof. intros Hk Hn. rewrite Hn. f_equal. by eapply word_size. Qed.

(** ** Memory *)

(** An instruction that calls nothing needs nothing of the builtin functions. *)
Lemma exec_keeps `{FA : FloatArith} E c s s' : c_opcode c ≠ VM_CALL → exec_code E c s = Ok (Running s') →
  dom (s_mem s') = dom (s_mem s) ∧ (mem_ok (s_mem s) → mem_ok (s_mem s')).
Proof.
  intros Hc He.
  set (E' := VmEnv (e_exec E) (e_stack E) (e_global E) (λ _ _ _, Undef "none") (e_func_ptr E)).
  apply (exec_code_keeps E' ltac:(done) c). rewrite <-He.
  unfold exec_code. by destruct (c_opcode c).
Qed.

(** ** The machine and the meaning of the code *)

Section sim.
Context `{FA : FloatArith} (E : vm_env).
Variable depth : nat.
Variable ts : typetab.
Variable ys : symbols.
Variable labels : list vm_label.
Variable M : machine.
(** The stack pointer between statements, and the frame. *)
Variables sp0 bp gp : Z.

Local Abbreviation base := (e_stack E + sp0).
Local Abbreviation clear := (clear depth ts ys M).
Local Abbreviation spent := (spent ys).

(** Bytes of the storage of a temporary that was used up. *)
Definition stale (D : list symref) (a : Z) : Prop := ∃ s y k,
  s ∈ D ∧ ys !! s = Some y ∧ bytes_of depth ts (sym_type y) = Some k ∧ addr M s ≤ a < addr M s + Z.of_nat k.

(** The stack above [sp0], the top first. *)
Fixpoint stacked (m : mem) (ws : list Z) : Prop :=
  match ws with
  | [] => True
  | w :: ws => mload m (base + 8 * Z.of_nat (length ws)) U64 = Some w ∧ stacked m ws
  end.

Record sim (D : list symref) (ws : list Z) (s : vm_state) (m : mem) : Prop := Sim {
  sim_sp : s_sp s = sp0 + 8 * Z.of_nat (length ws);
  sim_bp : s_bp s = bp;
  sim_gp : s_gp s = gp;
  sim_ok : mem_ok (s_mem s);
  sim_room : mapped (s_mem s) base 24;
  sim_words : stacked (s_mem s) ws;
  sim_mem : ∀ a b, m !! a = Some b → is_Some (s_mem s !! a) ∧ (¬ stale D a → s_mem s !! a = Some b);
  sim_apart : ∀ a, is_Some (m !! a) → ¬ (base ≤ a < base + 24)
}.

Lemma stale_app D D' a : stale (D ++ D') a ↔ stale D a ∨ stale D' a.
Proof.
  unfold stale. split.
  - intros (s & y & k & Hs & H). apply elem_of_app in Hs as [Hs|Hs]; [left|right]; by exists s, y, k.
  - intros [(s & y & k & Hs & H)|(s & y & k & Hs & H)]; exists s, y, k; (split; [|done]); apply elem_of_app; tauto.
Qed.

Lemma clear_stale D a n x : clear D a n = true → a ≤ x < a + Z.of_nat n → ¬ stale D x.
Proof.
  unfold VmGenSem.clear. intros H Hx (s & y & k & Hs & Hy & Hk & Ha).
  rewrite forallb_forall in H. apply list_elem_of_In in Hs. specialize (H _ Hs). rewrite Hy, Hk in H. lia.
Qed.

Lemma sim_weaken D D' ws s m : (∀ a, stale D a → stale D' a) → sim D ws s m → sim D' ws s m.
Proof. intros HD []. split; try done. intros a b Ha. destruct (sim_mem0 a b Ha) as [? Hb]. split; [done|]. intros Hs. apply Hb. intros Hx. by apply Hs, HD. Qed.

(** Only words above [ws] are changed. *)
Lemma stacked_above m m' ws : stacked m ws →
  (∀ x, base ≤ x < base + 8 * Z.of_nat (length ws) → m' !! x = m !! x) → stacked m' ws.
Proof.
  induction ws as [|w ws IH]; simpl; [done|]. intros [Hw Hs] H. split.
  - rewrite <-Hw. apply mload_ext. intros x Hx. apply H. simpl in Hx. lia.
  - apply IH; [done|]. intros x Hx. apply H. lia.
Qed.

(** A change of the scratch area only. *)
Lemma sim_scratch D ws ws' s s' m : sim D ws s m →
  s_sp s' = sp0 + 8 * Z.of_nat (length ws') → s_bp s' = s_bp s → s_gp s' = s_gp s →
  mem_ok (s_mem s') → dom (s_mem s') = dom (s_mem s) → only (s_mem s) (s_mem s') base 24 →
  stacked (s_mem s') ws' → sim D ws' s' m.
Proof.
  intros [] Hsp Hbp Hgp Hok Hdom Ho Hst.
  assert (Hm : ∀ x, is_Some (s_mem s !! x) → is_Some (s_mem s' !! x)).
  { intros x. by rewrite <-!elem_of_dom, Hdom. }
  split; [done|congruence|congruence|done| |done| |done].
  - intros x Hx. apply Hm. by apply sim_room0.
  - intros a b Ha. destruct (sim_mem0 a b Ha) as [Hi Hb]. split; [by apply Hm|].
    intros Hs. rewrite Ho; [by apply Hb|]. apply sim_apart0. by eexists.
Qed.

Lemma sim_push D ws s m v m' : sim D ws s m → (length ws ≤ 2)%nat → pushed E s v m' →
  sim D (wrap_u 64 v :: ws) (next (set_sp (s_sp s + 8) (set_mem m' s))) m.
Proof.
  intros H Hl Hp. pose proof (sim_sp _ _ _ _ H) as Hsp.
  assert (Ha : at_sp E 0 s = base + 8 * Z.of_nat (length ws)) by (unfold at_sp; lia).
  unfold pushed in Hp. rewrite Ha in Hp. pose proof (only_mstore _ _ _ _ _ Hp) as Ho.
  apply (sim_scratch D ws _ s); simpl; try done.
  - rewrite Hsp. lia.
  - eapply mstore_ok; [by eapply sim_ok|done].
  - by eapply mwrite_dom.
  - eapply only_le; [done|lia|]. simpl. lia.
  - split; [by rewrite (mload_mstore_same _ _ _ _ _ Hp)|].
    eapply stacked_above; [by eapply sim_words|]. intros x Hx. apply Ho. lia.
Qed.

Lemma sim_word D w ws s m : sim D (w :: ws) s m → word E s (-8) = Some w.
Proof.
  intros H. pose proof (sim_sp _ _ _ _ H) as Hsp. pose proof (sim_words _ _ _ _ H) as [Hw _].
  unfold word. rewrite <-Hw. f_equal. unfold at_sp. simpl in Hsp. lia.
Qed.
Lemma sim_word2 D w v ws s m : sim D (w :: v :: ws) s m → word E s (-16) = Some v.
Proof.
  intros H. pose proof (sim_sp _ _ _ _ H) as Hsp. pose proof (sim_words _ _ _ _ H) as (_ & Hw & _).
  unfold word. rewrite <-Hw. f_equal. unfold at_sp. simpl in Hsp. lia.
Qed.
Lemma sim_mapped D ws s m : sim D ws s m → (length ws ≤ 2)%nat → mapped (s_mem s) (at_sp E 0 s) 8.
Proof.
  intros H Hl. pose proof (sim_sp _ _ _ _ H) as Hsp. eapply mapped_sub; [by eapply sim_room|..];
    unfold at_sp; simpl; lia.
Qed.

(** The top [n] words are replaced by one. *)
Lemma sim_replace D us ws s m m' r sp' : sim D (us ++ ws) s m → (0 < length us)%nat → (length ws ≤ 2)%nat →
  sp' = sp0 + 8 * Z.of_nat (S (length ws)) →
  mem_ok m' → dom m' = dom (s_mem s) → only (s_mem s) m' (base + 8 * Z.of_nat (length ws)) 8 →
  mload m' (base + 8 * Z.of_nat (length ws)) U64 = Some r →
  sim D (r :: ws) (next (set_sp sp' (set_mem m' s))) m.
Proof.
  intros H Hu Hl -> Hok Hdom Ho Hr. apply (sim_scratch D (us ++ ws) _ s); simpl; try done.
  - eapply only_le; [done|lia|lia].
  - split; [done|]. pose proof (sim_words _ _ _ _ H) as Hst.
    assert (Hw : stacked (s_mem s) ws).
    { clear -Hst. induction us as [|u us IH]; [done|]. apply IH, Hst. }
    eapply stacked_above; [done|]. intros x Hx. apply Ho. lia.
Qed.

(** A store, of the low bytes of [w] here and of [bs] there. *)
Lemma sim_store D D' us ws s s' m m2 a k w bs mem' : sim D (us ++ ws) s m →
  (length ws ≤ 3)%nat → mstore (s_mem s) a k w = Some mem' → mwrite m a bs = Some m2 → holds w bs → length bs = isize k →
  (∀ x, stale D x → stale D' x ∨ a ≤ x < a + Z.of_nat (isize k)) →
  s_mem s' = mem' → s_sp s' = sp0 + 8 * Z.of_nat (length ws) → s_bp s' = s_bp s → s_gp s' = s_gp s →
  sim D' ws s' m2.
Proof.
  intros [] Hws Hs Hw Hh Hl HD Hm Hsp Hbp Hgp.
  unfold mstore in Hs. rewrite <-Hl, Hh in Hs.
  assert (Hin : ∀ x, a ≤ x < a + Z.of_nat (length bs) → is_Some (m !! x)).
  { intros x Hx. assert (Hd : is_Some (m2 !! x)).
    { rewrite (mwrite_inside _ _ _ _ _ Hw Hx). apply lookup_lt_is_Some. lia. }
    apply elem_of_dom. rewrite <-(mwrite_dom _ _ _ _ Hw). by apply elem_of_dom. }
  split; try (done || congruence); rewrite ?Hm.
  - eapply mwrite_ok; [done| |exact Hs]. rewrite <-Hh. apply le_enc_bytes.
  - by eapply mwrite_mapped_stable.
  - eapply (stacked_above (s_mem s)).
    + clear -sim_words0. induction us; [done|]. apply IHus, sim_words0.
    + intros x Hx. eapply mwrite_outside; [exact Hs|].
      destruct (decide (a ≤ x < a + Z.of_nat (length bs))) as [Hy|]; [|lia].
      destruct (sim_apart0 x (Hin x Hy)). lia.
  - intros x b Hx. rewrite (lookup_mwrite _ _ _ _ _ Hw) in Hx.
    rewrite (lookup_mwrite _ _ _ _ _ Hs). case_decide as Hy; [by rewrite Hx; eauto|].
    destruct (sim_mem0 x b Hx) as [Hi Hb]. split; [done|]. intros Hn. apply Hb.
    intros Hst. destruct (HD x Hst); [done|lia].
  - intros x Hx. apply sim_apart0. apply elem_of_dom. rewrite <-(mwrite_dom _ _ _ _ Hw). by apply elem_of_dom.
Qed.

(** Reading from storage that is not stale. *)
Lemma sim_read D ws s m a n bs : sim D ws s m → clear D a n = true → mread m a n = Some bs →
  mread (s_mem s) a n = Some bs.
Proof.
  intros H Hc Hr. rewrite <-Hr. apply mread_ext. intros x Hx.
  pose proof (mread_lookup _ _ _ _ _ Hr Hx) as Hl.
  assert (is_Some (m !! x)) as [b Hb].
  { rewrite Hl. apply lookup_lt_is_Some. rewrite (mread_length _ _ _ _ Hr). lia. }
  rewrite Hb. by apply (sim_mem _ _ _ _ H x b Hb), (clear_stale D a n).
Qed.

Lemma sim_mload D ws s m a k bs : sim D ws s m → clear D a (isize k) = true → mread m a (isize k) = Some bs →
  ∃ v, mload (s_mem s) a k = Some v ∧ holds v bs ∧ length bs = isize k.
Proof.
  intros H Hc Hr. pose proof (sim_read _ _ _ _ _ _ _ H Hc Hr) as Hv.
  exists (conv k (le_dec bs)). unfold mload. rewrite Hv. split; [done|].
  split; [|by eapply mread_length].
  eapply holds_mload; [by eapply sim_ok|done|]. unfold mload. by rewrite Hv.
Qed.

Lemma sim_space D ws s m a bs : sim D ws s m → is_Some (mread m a bs) → mapped (s_mem s) a bs.
Proof.
  intros H Hr x Hx. apply mread_mapped in Hr. destruct (Hr x Hx) as [b Hb].
  by apply (sim_mem _ _ _ _ H x b).
Qed.

(** ** Instructions *)

(** One turn of the loop, to the next instruction. *)
Definition turn (c : vm_code) (s s' : vm_state) : Prop :=
  exec_code E c s = Ok (Running s') ∧ s_ip s' = s_ip s + 1.

Lemma sim_upd D us ws s m m' r : sim D (us ++ ws) s m → (0 < length us)%nat → (length ws ≤ 2)%nat →
  mstore (s_mem s) (base + 8 * Z.of_nat (length ws)) U64 r = Some m' →
  sim D (wrap_u 64 r :: ws) (next (set_sp (sp0 + 8 * Z.of_nat (S (length ws))) (set_mem m' s))) m.
Proof.
  intros H Hu Hl Hm. eapply sim_replace; try done.
  - eapply mstore_ok; [by eapply sim_ok|done].
  - by eapply mwrite_dom.
  - eapply only_le; [by eapply only_mstore|lia|simpl; lia].
  - by rewrite (mload_mstore_same _ _ _ _ _ Hm).
Qed.

Lemma turn_push_imm D ws s m c t b : sim D ws s m → (length ws ≤ 2)%nat →
  c_opcode c = VM_PUSH → int_optype (c_type c) = Some t → c_d c = DImm (ImmBits b) →
  ∃ s', turn c s s' ∧ sim D (wrap_u 64 (conv t b) :: ws) s' m.
Proof.
  intros H Hl Ho Ht Hd. destruct (exec_push_imm E c s t b Ho Ht Hd) as (m' & He & Hp); [by eapply sim_mapped|].
  eexists. split; [by split|]. by apply sim_push.
Qed.

Lemma turn_push_var D ws s m c k a bs : sim D ws s m → (length ws ≤ 2)%nat →
  c_opcode c = VM_PUSH → c_type c = var_optype k → c_d c = DAddr a → a_size a = Z.of_nat (isize k) →
  clear D (at_var E a s) (isize k) = true → mread m (at_var E a s) (isize k) = Some bs →
  ∃ s' w, turn c s s' ∧ sim D (w :: ws) s' m ∧ holds w bs ∧ length bs = isize k.
Proof.
  intros H Hl Ho Ht Hd Hs Hc Hr. destruct (sim_mload _ _ _ _ _ _ _ H Hc Hr) as (v & Hv & Hh & Hlen).
  destruct (exec_push_var E c s k a v Ho Ht Hd Hs Hv) as (m' & He & Hp); [by eapply sim_mapped|].
  eexists _, (wrap_u 64 v). split; [by split|]. split; [by apply sim_push|]. split; [|done].
  apply holds_wrap; [|done]. rewrite Hlen. destruct k; simpl; lia.
Qed.

Lemma turn_push_addr D ws s m c a : sim D ws s m → (length ws ≤ 2)%nat →
  c_opcode c = VM_PUSH → c_type c = VMOP_ADDR → c_d c = DAddr a →
  ∃ s', turn c s s' ∧ sim D (wrap_u 64 (at_var E a s) :: ws) s' m.
Proof.
  intros H Hl Ho Ht Hd. destruct (PUSHI_pushed E s (at_var E a s)) as (m' & He & Hp); [by eapply sim_mapped|].
  eexists. split; [|by apply sim_push]. split; [|done].
  unfold exec_code, vm_push, d_addr. rewrite Ho, Ht, Hd. cbn [mbind outcome_bind].
  rewrite He. done.
Qed.

(** An instruction that replaces the top words by one. *)
Lemma turn_top D us ws s m c m' sp' : sim D (us ++ ws) s m → (0 < length us)%nat → (length ws ≤ 2)%nat →
  c_opcode c ≠ VM_CALL → exec_code E c s = Ok (Running (next (set_sp sp' (set_mem m' s)))) →
  sp' = sp0 + 8 * Z.of_nat (S (length ws)) → only (s_mem s) m' (base + 8 * Z.of_nat (length ws)) 8 →
  ∃ s' w, turn c s s' ∧ sim D (w :: ws) s' m ∧ mload m' (base + 8 * Z.of_nat (length ws)) U64 = Some w.
Proof.
  intros H Hu Hl Hc He Hsp Ho. destruct (exec_keeps _ _ _ _ Hc He) as [Hd Hok]. simpl in Hd, Hok.
  assert (Hm : mapped m' (base + 8 * Z.of_nat (length ws)) 8).
  { intros x Hx. apply elem_of_dom. rewrite Hd. apply elem_of_dom. apply (sim_room _ _ _ _ H). lia. }
  destruct (mload_mapped m' (base + 8 * Z.of_nat (length ws)) U64 Hm) as [w Hw].
  exists (next (set_sp sp' (set_mem m' s))), w. split; [done|]. split; [|done].
  eapply sim_replace; try done. apply Hok. by eapply sim_ok.
Qed.

Lemma turn_upd D us ws s m c m' r sp' : sim D (us ++ ws) s m → (0 < length us)%nat → (length ws ≤ 2)%nat →
  c_opcode c ≠ VM_CALL → exec_code E c s = Ok (Running (next (set_sp sp' (set_mem m' s)))) →
  sp' = sp0 + 8 * Z.of_nat (S (length ws)) → upd64 (s_mem s) m' (base + 8 * Z.of_nat (length ws)) r →
  ∃ s', turn c s s' ∧ sim D (wrap_u 64 r :: ws) s' m.
Proof.
  intros H Hu Hl Hc He Hsp [Hw Ho].
  destruct (turn_top D us ws s m c m' sp' H Hu Hl Hc He Hsp) as (s' & w & Ht & Hs & Hv); [done|].
  exists s'. split; [done|]. rewrite Hw in Hv. by injection Hv as <-.
Qed.

Lemma turn_binop D ws s m c o t va vb r : sim D (vb :: va :: ws) s m → (length ws ≤ 1)%nat →
  int_binop_of (c_opcode c) = Some o → int_optype (c_type c) = Some t →
  c_binop o t (conv t va) (conv t vb) = Ok r →
  ∃ s', turn c s s' ∧ sim D (wrap_u 64 r :: ws) s' m.
Proof.
  intros H Hl Ho Ht Hr. pose proof (sim_sp _ _ _ _ H) as Hsp. simpl in Hsp.
  pose proof (OP2I_word E o t s va vb (sim_word2 _ _ _ _ _ _ H) (sim_word _ _ _ _ _ H)) as Hx.
  rewrite Hr in Hx. destruct Hx as (m' & He & Hu).
  eapply (turn_upd D [vb; va] ws s m c m' r (s_sp s - 8)); try done; [simpl; lia|lia|..].
  - intros Hc. by rewrite Hc in Ho.
  - rewrite (exec_int_binop E o c s t Ho Ht), He. done.
  - lia.
  - replace (base + 8 * Z.of_nat (length ws)) with (at_sp E (-16) s); [done|]. unfold at_sp. lia.
Qed.

Lemma turn_shift D ws s m (left : bool) c t va vb r : sim D (vb :: va :: ws) s m → (length ws ≤ 1)%nat →
  c_opcode c = (if left then VM_SHL else VM_SHR) → int_optype (c_type c) = Some t →
  (if left then c_shl else c_shr) t (conv t va) 
    (if decide (iwidth t < 32) then wrap_u (iwidth t) vb else conv I32 vb) = Ok r →
  ∃ s', turn c s s' ∧ sim D (wrap_u 64 r :: ws) s' m.
Proof.
  intros H Hl Ho Ht Hr. pose proof (sim_sp _ _ _ _ H) as Hsp. simpl in Hsp.
  destruct (OP2S_word E _ t s va vb r (sim_word2 _ _ _ _ _ _ H) (sim_word _ _ _ _ _ H) Hr) as (m' & He & Hu).
  eapply (turn_upd D [vb; va] ws s m c m' r (s_sp s - 8)); try done; [simpl; lia|lia|..].
  - rewrite Ho. by destruct left.
  - rewrite (exec_shift E left c s t Ho Ht), He. done.
  - lia.
  - replace (base + 8 * Z.of_nat (length ws)) with (at_sp E (-16) s); [done|]. unfold at_sp. lia.
Qed.

Lemma wr_same_word s a r : is_Some (mload (s_mem s) a U64) →
  ∃ m', wr U64 a r s = Ok (set_mem m' s) ∧ upd64 (s_mem s) m' a r.
Proof. intros [v Hv]. apply wr_word. by eapply (mload_is_mapped _ _ U64). Qed.

Lemma turn_not D w ws s m c t : sim D (w :: ws) s m → (length ws ≤ 2)%nat →
  c_opcode c = VM_NOT → int_optype (c_type c) = Some t →
  ∃ s', turn c s s' ∧ sim D (wrap_u 64 (conv (promote t) (Z.lnot (conv t w))) :: ws) s' m.
Proof.
  intros H Hl Ho Ht. pose proof (sim_sp _ _ _ _ H) as Hsp. simpl in Hsp.
  pose proof (sim_word _ _ _ _ _ H) as Hw.
  set (r := conv (promote t) (Z.lnot (conv t w))).
  destruct (wr_same_word s (at_sp E (-8) s) r) as (m' & He & Hu); [by eexists|].
  eapply (turn_upd D [w] ws s m c m' r (s_sp s - 8 + 8)); try done; [simpl; lia|by rewrite Ho| |lia|].
  - unfold exec_code, vm_not. rewrite Ho, Ht. rewrite (POPI_word E t s w Hw). cbn [mbind outcome_bind c_not].
    unfold PUSHI. replace (at_sp E 0 (set_sp (s_sp s - 8) s)) with (at_sp E (-8) s) by (unfold at_sp; simpl; lia).
    unfold wr in He |- *. change (s_mem (set_sp (s_sp s - 8) s)) with (s_mem s).
    fold r. apply bind_ok_inv in He as (m1 & Hm1 & [= <-]). rewrite Hm1. done.
  - replace (base + 8 * Z.of_nat (length ws)) with (at_sp E (-8) s); [done|]. unfold at_sp. lia.
Qed.

Lemma turn_neg D w ws s m c t r : sim D (w :: ws) s m → (length ws ≤ 2)%nat →
  c_opcode c = VM_NEG → int_optype (c_type c) = Some t → c_neg t (conv t w) = Ok r →
  ∃ s', turn c s s' ∧ sim D (wrap_u 64 r :: ws) s' m.
Proof.
  intros H Hl Ho Ht Hr. pose proof (sim_sp _ _ _ _ H) as Hsp. simpl in Hsp.
  pose proof (sim_word _ _ _ _ _ H) as Hw.
  destruct (wr_same_word s (at_sp E (-8) s) r) as (m' & He & Hu); [by eexists|].
  eapply (turn_upd D [w] ws s m c m' r (s_sp s)); try done; [simpl; lia|by rewrite Ho|..].
  - unfold exec_code, vm_neg. rewrite Ho, Ht. unfold NEGI. rewrite (TOPI_word E t s w Hw). cbn [mbind outcome_bind].
    rewrite Hr. cbn [mbind outcome_bind]. unfold set_TOPI. rewrite He. by destruct s.
  - replace (base + 8 * Z.of_nat (length ws)) with (at_sp E (-8) s); [done|]. unfold at_sp. lia.
Qed.

(** A step of an [int]. *)
Lemma turn_incdec D w ws s m c d x : sim D (w :: ws) s m → (length ws ≤ 2)%nat →
  c_opcode c = (if 0 <? d then VM_INC else VM_DEC) → d = 1 ∨ d = -1 →
  conv I32 w = x → in_range I32 (x + d) = true →
  ∃ s' w', turn c s s' ∧ sim D (w' :: ws) s' m ∧ conv I32 w' = x + d.
Proof.
  intros H Hl Ho Hd Hx Hr. pose proof (sim_sp _ _ _ _ H) as Hsp. simpl in Hsp.
  pose proof (sim_word _ _ _ _ _ H) as Hw.
  destruct (wr_top E s I32 (x + d) w Hw) as (m' & He & Hm & Hv).
  destruct (turn_top D [w] ws s m c m' (s_sp s)) as (s' & w' & Ht & Hs & Hw'); try done; [simpl; lia|..].
  - rewrite Ho. by destruct (0 <? d).
  - assert (Hi : incdec E d s = Ok (next (set_mem m' s))).
    { unfold incdec. rewrite (rd_narrow _ _ _ _ Hw). cbn [mbind outcome_bind]. rewrite Hx.
      unfold c_result. simpl isigned. cbn iota. rewrite Hr. cbn [mbind outcome_bind]. by rewrite He. }
    unfold exec_code. rewrite Ho. destruct Hd as [-> | ->]; simpl; unfold vm_inc, vm_dec; rewrite Hi; by destruct s.
  - replace (base + 8 * Z.of_nat (length ws)) with (at_sp E (-8) s) by (unfold at_sp; lia). done.
  - exists s', w'. split; [done|]. split; [done|].
    replace (base + 8 * Z.of_nat (length ws)) with (at_sp E (-8) s) in Hw' by (unfold at_sp; lia).
    pose proof (mload_narrow m' (at_sp E (-8) s) I32 U64 w' ltac:(simpl; lia) Hw') as Hn.
    rewrite Hv in Hn. injection Hn as <-. by apply conv_small.
Qed.

Lemma turn_cast D w ws s m c src dst ks kd : sim D (w :: ws) s m → (length ws ≤ 2)%nat →
  c_opcode c = VM_CAST → c_d c = DCast src dst → is_integer src = true → ity_of src = Some ks →
  is_integer dst = true → ity_of dst = Some kd → is_bool dst = false →
  ∃ s' w', turn c s s' ∧ sim D (w' :: ws) s' m ∧ conv kd w' = conv kd (conv ks w).
Proof.
  intros H Hl Ho Hc Hsi Hks Hdi Hkd Hb. pose proof (sim_sp _ _ _ _ H) as Hsp. simpl in Hsp.
  pose proof (sim_word _ _ _ _ _ H) as Hw.
  destruct (vm_cast_int E c s src dst ks kd w Hc Hsi Hks Hdi Hkd Hw) as (m' & He & Hm & Hv).
  rewrite Hb in Hv.
  destruct (turn_top D [w] ws s m c m' (s_sp s)) as (s' & w' & Ht & Hs & Hw'); try done; [simpl; lia|by rewrite Ho|..].
  - unfold exec_code. rewrite Ho, He. by destruct s.
  - replace (base + 8 * Z.of_nat (length ws)) with (at_sp E (-8) s) by (unfold at_sp; lia). done.
  - exists s', w'. split; [done|]. split; [done|].
    replace (base + 8 * Z.of_nat (length ws)) with (at_sp E (-8) s) in Hw' by (unfold at_sp; lia).
    pose proof (mload_narrow m' (at_sp E (-8) s) kd U64 w' ltac:(destruct kd; simpl; lia) Hw') as Hn.
    rewrite Hv in Hn. by injection Hn.
Qed.

Lemma turn_deref D p ws s m c k bs : sim D (p :: ws) s m → (length ws ≤ 2)%nat →
  c_opcode c = VM_DEREF → int_optype (c_type c) = Some k → 4096 ≤ p < 2 ^ 64 →
  clear D p (isize k) = true → mread m p (isize k) = Some bs →
  ∃ s' w, turn c s s' ∧ sim D (w :: ws) s' m ∧ holds w bs ∧ length bs = isize k.
Proof.
  intros H Hl Ho Ht Hp Hc Hr. pose proof (sim_sp _ _ _ _ H) as Hsp. simpl in Hsp.
  pose proof (sim_word _ _ _ _ _ H) as Hw.
  destruct (sim_mload _ _ _ _ _ _ _ H Hc Hr) as (v & Hv & Hh & Hlen).
  destruct (wr_same_word s (at_sp E (-8) s) v) as (m' & He & Hu); [by eexists|].
  destruct (turn_upd D [p] ws s m c m' v (s_sp s - 8 + 8)) as (s' & Htn & Hs);
    try done; [simpl; lia|by rewrite Ho| |lia| |].
  - unfold exec_code, vm_deref. rewrite Ho, Ht. unfold DEREFI, POPA.
    rewrite (POPI_word E U64 s p Hw). cbn [mbind outcome_bind].
    rewrite (conv_small U64 p) by (apply in_range_spec; simpl; lia).
    unfold NULLCHK. destruct (Z.ltb_spec p 0x1000); [lia|]. cbn [andb mbind outcome_bind].
    rewrite (rd_mload k p (set_sp (s_sp s - 8) s) v) by done. cbn [mbind outcome_bind].
    unfold PUSHI. replace (at_sp E 0 (set_sp (s_sp s - 8) s)) with (at_sp E (-8) s) by (unfold at_sp; simpl; lia).
    unfold wr in He |- *. change (s_mem (set_sp (s_sp s - 8) s)) with (s_mem s).
    apply bind_ok_inv in He as (m1 & Hm1 & [= <-]). rewrite Hm1. done.
  - replace (base + 8 * Z.of_nat (length ws)) with (at_sp E (-8) s); [done|]. unfold at_sp. lia.
  - exists s', (wrap_u 64 v). split; [done|]. split; [done|]. split; [|done].
    apply holds_wrap; [|done]. rewrite Hlen. destruct k; simpl; lia.
Qed.

(** The three ways to a variable: off the stack, from the stack, through a
    pointer. *)
Lemma mwrite_mread m a bs m2 : mwrite m a bs = Some m2 → is_Some (mread m a (length bs)).
Proof.
  intros H. apply mread_mapped. intros x Hx. apply elem_of_dom. rewrite <-(mwrite_dom _ _ _ _ H).
  apply elem_of_dom. rewrite (mwrite_inside _ _ _ _ _ H Hx). apply lookup_lt_is_Some. lia.
Qed.

Lemma turn_pop D D' w ws s m m2 c k a bs : sim D (w :: ws) s m → (length ws ≤ 2)%nat →
  c_opcode c = VM_POP → int_optype (c_type c) = Some k → c_d c = DAddr a →
  mwrite m (at_var E a s) bs = Some m2 → holds w bs → length bs = isize k →
  (∀ x, stale D x → stale D' x ∨ at_var E a s ≤ x < at_var E a s + Z.of_nat (isize k)) →
  ∃ s', turn c s s' ∧ sim D' ws s' m2.
Proof.
  intros H Hl Ho Ht Hd Hm Hh Hn HD. pose proof (sim_sp _ _ _ _ H) as Hsp. simpl in Hsp.
  destruct (exec_pop_var E c s k a w Ho Ht Hd (sim_word _ _ _ _ _ H)) as (m' & He & Hs).
  { rewrite <-Hn. eapply sim_space; [done|]. by eapply mwrite_mread. }
  eexists. split; [by split|]. eapply (sim_store D D' [w] ws s); try done; [lia|]. simpl. lia.
Qed.

Lemma turn_store D D' w ws s m m2 c k a bs : sim D (w :: ws) s m → (length ws ≤ 2)%nat →
  c_opcode c = VM_STORE → int_optype (c_type c) = Some k → c_d c = DAddr a →
  mwrite m (at_var E a s) bs = Some m2 → holds w bs → length bs = isize k →
  (∀ x, stale D x → stale D' x ∨ at_var E a s ≤ x < at_var E a s + Z.of_nat (isize k)) →
  ∃ s', turn c s s' ∧ sim D' (w :: ws) s' m2.
Proof.
  intros H Hl Ho Ht Hd Hm Hh Hn HD.
  destruct (exec_store_var E c s k a w Ho Ht Hd (sim_word _ _ _ _ _ H)) as (m' & He & Hs).
  { rewrite <-Hn. eapply sim_space; [done|]. by eapply mwrite_mread. }
  eexists. split; [by split|]. eapply (sim_store D D' [] (w :: ws) s); try done; [simpl; lia|].
  simpl. by rewrite (sim_sp _ _ _ _ H).
Qed.

Lemma turn_depop D D' w ws s m m2 c k a p bs : sim D (w :: ws) s m → (length ws ≤ 2)%nat →
  c_opcode c = VM_DEPOP → int_optype (c_type c) = Some k → c_d c = DAddr a →
  mload (s_mem s) (e_stack E + VmRun.gbp a s + a_base a) U64 = Some p → 4096 ≤ p →
  mwrite m (p + a_offset a) bs = Some m2 → holds w bs → length bs = isize k →
  (∀ x, stale D x → stale D' x ∨ p + a_offset a ≤ x < p + a_offset a + Z.of_nat (isize k)) →
  ∃ s', turn c s s' ∧ sim D' ws s' m2.
Proof.
  intros H Hl Ho Ht Hd Hp Hp0 Hm Hh Hn HD. pose proof (sim_sp _ _ _ _ H) as Hsp. simpl in Hsp.
  pose proof (sim_word _ _ _ _ _ H) as Hw.
  destruct (mstore_mapped (s_mem s) (p + a_offset a) k (conv k w)) as [m' Hs].
  { rewrite <-Hn. eapply sim_space; [done|]. by eapply mwrite_mread. }
  assert (He : exec_code E c s = Ok (Running (next (set_mem m' (set_sp (s_sp s - 8) s))))).
  { unfold exec_code, vm_depop, d_addr. rewrite Ho, Hd. cbn [mbind outcome_bind].
    rewrite (rd_mload U64 _ s p Hp). cbn [mbind outcome_bind].
    unfold NULLCHK. destruct (Z.ltb_spec p 0x1000); [lia|]. cbn [andb mbind outcome_bind].
    rewrite Ht. unfold POPI_to. rewrite (POPI_word E k s w Hw). cbn [mbind outcome_bind].
    unfold wr. change (s_mem (set_sp (s_sp s - 8) s)) with (s_mem s). by rewrite Hs. }
  eexists. split; [by split|]. eapply (sim_store D D' [w] ws s); try done; [lia| |simpl; lia].
  unfold holds. rewrite <-Hh at 2. apply le_enc_proper. rewrite Hn, <-iwidth_isize. apply eqm_conv.
Qed.

Lemma turn_fzero D D' ws s m m2 c k a : sim D ws s m → (length ws ≤ 3)%nat →
  c_opcode c = VM_FZERO → c_d c = DAddr a → a_size a = Z.of_nat (isize k) →
  mwrite m (at_var E a s) (replicate (isize k) 0) = Some m2 →
  (∀ x, stale D x → stale D' x ∨ at_var E a s ≤ x < at_var E a s + Z.of_nat (isize k)) →
  ∃ s', turn c s s' ∧ sim D' ws s' m2.
Proof.
  intros H Hl Ho Hd Hsz Hm HD.
  assert (∃ k', isize k' = isize k ∧ ∀ m', wr k' (at_var E a s) 0 s = Ok (set_mem m' s) →
    exec_code E c s = Ok (Running (next (set_mem m' s)))) as (k' & Hk & He).
  { unfold exec_code, vm_fzero, d_addr. rewrite Ho, Hd. cbn [mbind outcome_bind]. rewrite Hsz.
    exists (match k with I8 | U8 => U8 | I16 | U16 => U16 | I32 | U32 => U32 | I64 | U64 => U64 end).
    split; [by destruct k|]. intros m' Hw. destruct k; simpl; by rewrite Hw. }
  rewrite <-Hk in *.
  destruct (mstore_mapped (s_mem s) (at_var E a s) k' 0) as [m' Hs].
  { rewrite <-(length_replicate (isize k') 0). eapply sim_space; [done|]. by eapply mwrite_mread. }
  exists (next (set_mem m' s)). split.
  { split; [|done]. apply He. unfold wr. by rewrite Hs. }
  eapply (sim_store D D' [] ws s); try done.
  - unfold holds. rewrite length_replicate. by destruct k'.
  - by rewrite length_replicate.
  - simpl. by apply sim_sp in H.
Qed.

(** ** Undoing a pop *)

Lemma exec_pop_inv c s1 s k a : c_opcode c = VM_POP → int_optype (c_type c) = Some k → c_d c = DAddr a →
  exec_code E c s1 = Ok (Running s) → ∃ v m', rd k (at_sp E (-8) s1) s1 = Ok v ∧
    mstore (s_mem s1) (at_var E a s1) k (conv k (mask_of k v)) = Some m' ∧
    s = next (set_mem m' (set_sp (s_sp s1 - 8) s1)).
Proof.
  intros Ho Ht Hd He.
  assert (Hv : vm_pop E c s1 = (s ← POPI_to E (at_var E a s1) k s1; Ok (next s))).
  { unfold vm_pop, d_addr. rewrite Hd. destruct (c_type c); simplify_eq/=; reflexivity. }
  unfold exec_code in He. rewrite Ho, Hv in He. unfold POPI_to, POPI, running in He.
  destruct (rd k (at_sp E (-8) s1) s1) as [v| |] eqn:Hr; try done. cbn [mbind outcome_bind] in He.
  unfold wr in He. change (s_mem (set_sp (s_sp s1 - 8) s1)) with (s_mem s1) in He.
  destruct (mstore _ _ _ _) as [m'|] eqn:Hm in He; [|done].
  exists v, m'. split; [done|]. split; [done|]. by injection He as <-.
Qed.

(** Before a pop of [bs], they are in the word on top; only their place in
    memory differs. *)
Lemma before_pop D ws s1 s m c k a bs : turn c s1 s → mem_ok (s_mem s1) → sim D ws s m → (length ws ≤ 2)%nat →
  c_opcode c = VM_POP → int_optype (c_type c) = Some k → c_d c = DAddr a →
  clear D (at_var E a s) (isize k) = true → mread m (at_var E a s) (isize k) = Some bs →
  ∃ w, holds w bs ∧ s = next (set_sp (s_sp s1 - 8) (set_mem (s_mem s) s1)) ∧
    word E s1 (-8) = Some w ∧ mstore (s_mem s1) (at_var E a s1) k w = Some (s_mem s) ∧
    only (s_mem s) (s_mem s1) (at_var E a s) (Z.of_nat (isize k)) ∧ dom (s_mem s1) = dom (s_mem s).
Proof.
  intros [He Hip] Hok H Hl Ho Ht Hd Hc Hr. pose proof (sim_sp _ _ _ _ H) as Hsp.
  destruct (exec_pop_inv c s1 s k a Ho Ht Hd He) as (v & m' & Hv & Hm & Hs).
  assert (Hsm : s_mem s = m') by by rewrite Hs. 
  assert (Ha : at_var E a s = at_var E a s1) by by rewrite Hs. rewrite <-Hsm in *.
  assert (Hdom : dom (s_mem s1) = dom (s_mem s)) by (symmetry; by eapply mwrite_dom).
  assert (Hs1 : s_sp s = s_sp s1 - 8) by by rewrite Hs.
  assert (Hat : at_sp E (-8) s1 = base + 8 * Z.of_nat (length ws)) by (unfold at_sp; lia).
  destruct (mload_mapped (s_mem s1) (at_sp E (-8) s1) U64) as [w Hw].
  { intros x Hx. apply elem_of_dom. rewrite Hdom. apply elem_of_dom. apply (sim_room _ _ _ _ H).
    rewrite Hat in Hx. simpl in Hx. lia. }
  assert (Hvw : conv k (mask_of k v) = conv k w).
  { rewrite conv_mask. unfold rd in Hv. apply defined_ok_inv in Hv.
    rewrite (mload_narrow _ _ k U64 w) in Hv by (done || (destruct k; simpl; lia)).
    injection Hv as <-. apply conv_conv_same. }
  assert (Hmw : mstore (s_mem s1) (at_var E a s1) k w = Some (s_mem s)).
  { rewrite <-Hm, Hvw. unfold mstore. f_equal. apply le_enc_proper. rewrite <-iwidth_isize.
    symmetry. apply eqm_conv. }
  exists w. split; [|split; [|split; [done|split; [done|split; [|done]]]]].
  - pose proof (sim_read _ _ _ _ _ _ _ H Hc Hr) as Hb. rewrite Ha in Hb.
    pose proof (mread_mwrite_same _ _ _ _ Hmw) as Hb'. rewrite length_le_enc in Hb'.
    rewrite Hb in Hb'. injection Hb' as ->. apply holds_enc.
  - rewrite Hs at 1. rewrite Hs. done.
  - rewrite Ha. intros x Hx. symmetry. by apply (only_mstore _ _ _ _ _ Hmw).
Qed.

(** The pop is left out: its place is stale. *)
Lemma undo_pop D D' ws s1 s m c k a bs : turn c s1 s → mem_ok (s_mem s1) → sim D ws s m → (length ws ≤ 2)%nat →
  c_opcode c = VM_POP → int_optype (c_type c) = Some k → c_d c = DAddr a →
  clear D (at_var E a s) (isize k) = true → mread m (at_var E a s) (isize k) = Some bs →
  (∀ x, stale D x ∨ at_var E a s ≤ x < at_var E a s + Z.of_nat (isize k) → stale D' x) →
  ∃ w, holds w bs ∧ sim D' (w :: ws) s1 m.
Proof.
  intros Htn Hok H Hl Ho Ht Hd Hc Hr HD.
  destruct (before_pop D ws s1 s m c k a bs) as (w & Hh & Hs & Hw & Hm & Hon & Hdom); try done.
  exists w. split; [done|]. pose proof (sim_sp _ _ _ _ H) as Hsp.
  assert (Hs1 : s_sp s = s_sp s1 - 8) by by rewrite Hs.
  assert (Hin : ∀ x, at_var E a s ≤ x < at_var E a s + Z.of_nat (isize k) → is_Some (m !! x)).
  { apply mread_mapped. by eexists. }
  assert (Hout : ∀ x, base ≤ x < base + 24 → s_mem s1 !! x = s_mem s !! x).
  { intros x Hx. apply Hon. intros Hy. by apply (sim_apart _ _ _ _ H x (Hin x Hy)). }
  assert (Hdm : ∀ x, is_Some (s_mem s !! x) → is_Some (s_mem s1 !! x)).
  { intros x. by rewrite <-!elem_of_dom, Hdom. }
  split.
  - simpl. lia.
  - rewrite <-(sim_bp _ _ _ _ H). by rewrite Hs.
  - rewrite <-(sim_gp _ _ _ _ H). by rewrite Hs.
  - done.
  - intros x Hx. apply Hdm. by apply (sim_room _ _ _ _ H).
  - split.
    + rewrite <-Hw. unfold word. f_equal. unfold at_sp. lia.
    + eapply stacked_above; [by eapply sim_words|]. intros x Hx. apply Hout. lia.
  - intros x b Hx. destruct (sim_mem _ _ _ _ H x b Hx) as [Hi Hb]. split; [by apply Hdm|].
    intros Hn. rewrite Hon; [apply Hb; intros Hy; apply Hn, HD; by left|]. intros Hy. apply Hn, HD. by right.
  - by eapply sim_apart.
Qed.

(** The pop becomes a store, which leaves the word where it is. *)
Lemma pop_to_store D ws s1 s m c k a bs : turn c s1 s → mem_ok (s_mem s1) → sim D ws s m → (length ws ≤ 2)%nat →
  c_opcode c = VM_POP → int_optype (c_type c) = Some k → c_d c = DAddr a →
  clear D (at_var E a s) (isize k) = true → mread m (at_var E a s) (isize k) = Some bs →
  ∃ w s', holds w bs ∧ turn (VmCode (c_index c) VM_STORE (c_type c) (c_d c)) s1 s' ∧ sim D (w :: ws) s' m.
Proof.
  intros Htn Hok H Hl Ho Ht Hd Hc Hr.
  destruct (before_pop D ws s1 s m c k a bs) as (w & Hh & Hs & Hw & Hm & Hon & Hdom); try done.
  pose proof (sim_sp _ _ _ _ H) as Hsp.
  assert (Hs1 : s_sp s = s_sp s1 - 8) by by rewrite Hs.
  assert (Ha : at_var E a s1 = at_var E a s) by by rewrite Hs.
  assert (Hin : ∀ x, at_var E a s ≤ x < at_var E a s + Z.of_nat (isize k) → is_Some (m !! x)).
  { apply mread_mapped. by eexists. }
  destruct (exec_store_var E (VmCode (c_index c) VM_STORE (c_type c) (c_d c)) s1 k a w)
    as (m' & He & Hm'); try done.
  { rewrite Ha. intros x Hx. apply elem_of_dom. rewrite Hdom. apply elem_of_dom.
    destruct (Hin x Hx) as [b Hb]. by apply (sim_mem _ _ _ _ H x b). }
  rewrite Hm in Hm'. injection Hm' as <-.
  exists w, (next (set_mem (s_mem s) s1)). split; [done|]. split; [by split|].
  destruct H as [H1 H2 H3 H4 H5 H6 H7 H8]. split; try done.
  - simpl. lia.
  - rewrite <-H2. by rewrite Hs.
  - rewrite <-H3. by rewrite Hs.
  - split; [|done]. change (mload (s_mem s) (base + 8 * Z.of_nat (length ws)) U64 = Some w). rewrite <-Hw. unfold word.
    replace (at_sp E (-8) s1) with (base + 8 * Z.of_nat (length ws)) by (unfold at_sp; lia).
    apply mload_ext. intros x Hx. symmetry. apply Hon. intros Hy. apply (H8 x (Hin x Hy)). simpl in Hx. lia.
Qed.
End sim.
