(* ===== verification/VmGenCode.v ===== *)
(** * Generated code, instruction by instruction

    The invariant of the code generator inside a block, and what each of the
    functions of vminstr.c that emit instructions does to it. *)

From stdpp Require Import base list gmap numbers decidable strings relations.
From Stdlib Require Import ZArith Lia.
From S2P Require Import Prelude Memory CType Floats CArith Strings Symbol Typetree Symtab Ir IrSem VmInstr VmRun VmProps VmMove VmImage VmLink VmGen VmGenSem VmGenProps.

Local Open Scope Z_scope.

Section code.
Context `{FA : FloatArith} (E : vm_env).
Variable depth : nat.
Variable ts : typetab.
Variable ys : symbols.
Variable labels : list vm_label.
Variable M : machine.
Variables sp0 bp gp : Z.
(** The code before, and the state it was left in. *)
Variable c0 : list vm_code.
Variable s0 : vm_state.

Local Abbreviation base := (e_stack E + sp0).
Local Abbreviation clear := (clear depth ts ys M).
Local Abbreviation spent := (spent ys).
Local Abbreviation stale := (stale depth ts ys M).
Local Abbreviation sim := (sim E depth ts ys M sp0 bp gp).
Local Abbreviation turn := (turn E).
Local Abbreviation read_ok := (read_ok depth ts ys labels M).
Local Abbreviation direct_ok := (direct_ok depth ts ys M).
Local Abbreviation deref_ok := (deref_ok depth ts ys M).

Hypothesis c0_last : ∃ c, last c0 = Some c ∧ c_opcode c ≠ VM_POP ∧ c_opcode c ≠ VM_FZERO.
Hypothesis s0_ok : mem_ok (s_mem s0).
(** Symbols lie where the instructions look for them. *)
Hypothesis layout : ∀ s y, ys !! s = Some y →
  addr M s = e_stack E + (if is_global_var y then gp else bp) + base_of y.

(** ** Runs of instructions *)

Inductive turns : list vm_code → vm_state → vm_state → Prop :=
  | turns_nil s : turns [] s s
  | turns_cons c l s s1 s2 : turn c s s1 → turns l s1 s2 → turns (c :: l) s s2.

Lemma turns_snoc l c s s1 s2 : turns l s s1 → turn c s1 s2 → turns (l ++ [c]) s s2.
Proof. induction 1; simpl; [econstructor; [done|constructor]|]. intros. econstructor; eauto. Qed.

Lemma turns_snoc_inv l c s s2 : turns (l ++ [c]) s s2 → ∃ s1, turns l s s1 ∧ turn c s1 s2.
Proof.
  revert s. induction l as [|c' l IH]; simpl; intros s H; inversion H as [|? ? ? s' ? Ht Hr]; subst.
  - inversion Hr; subst. exists s. by split; [constructor|].
  - destruct (IH _ Hr) as (s1 & H1 & H2). exists s1. split; [by econstructor|done].
Qed.

Lemma turns_ok l s s' : Forall (λ c, c_opcode c ≠ VM_CALL) l → turns l s s' → mem_ok (s_mem s) → mem_ok (s_mem s').
Proof.
  intros Hl H. induction H as [|c l s s1 s2 [He _] Hr IH]; [done|]. apply Forall_cons in Hl as [Hc Hl].
  intros Hm. apply IH; [done|]. by apply (exec_keeps E c s s1 Hc He).
Qed.

(** What is known of the instructions: there are no calls, and a pop into a
    variable is one of an integer type. *)
Definition tidy (c : vm_code) : Prop :=
  c_opcode c ≠ VM_CALL ∧ (c_opcode c = VM_POP → ∃ k a, (int_optype (c_type c) = Some k) ∧ c_d c = DAddr a ∧
    a_size a = Z.of_nat (isize k) ∧ a_index a = a_base a + a_offset a ∧ 0 ≤ a_offset a < 2 ^ 31).

(** The invariant: the code emitted so far, run from [s0], has come to a state
    with [ws] on the stack and the memory [m]. *)
Record gen_inv (D : list symref) (ws : list Z) (g : genstate) (m : mem) (l : list vm_code) (s : vm_state) : Prop :=
  GenInv {
  gi_mode : g_mode g = false;
  gi_symbols : g_symbols g = ys;
  gi_labels : g_labels g = labels;
  gi_args : g_args g = [];
  gi_code : g_code g = c0 ++ l;
  gi_runs : turns l s0 s;
  gi_tidy : Forall tidy l;
  gi_sim : sim D ws s m
}.
Definition inv (D : list symref) (ws : list Z) (g : genstate) (m : mem) : Prop := ∃ l s, gen_inv D ws g m l s.

Lemma inv_weaken D D' ws g m : (∀ a, stale D a → stale D' a) → inv D ws g m → inv D' ws g m.
Proof. intros HD (l & s & []). exists l, s. split; try done. by eapply sim_weaken. Qed.

Lemma inv_protect D ws g m b : inv D ws g m → inv D ws (set_protect b g) m.
Proof. intros (l & s & []). by exists l, s. Qed.

(** Emitting one instruction. *)
Lemma inv_emit {A} D D' ws (f : A → list Z) (P : A → Prop) g m m' c : inv D ws g m → tidy c →
  (∀ s, sim D ws s m → ∃ s' a, turn c s s' ∧ sim D' (f a) s' m' ∧ P a) →
  ∃ a, inv D' (f a) (emit_vm_code c g) m' ∧ P a.
Proof.
  intros (l & s & [Hm Hy Hb Ha Hc Hr Ht Hs]) Hct Hstep. destruct (Hstep s Hs) as (s' & a & Htn & Hs' & HP).
  exists a. split; [|done]. exists (l ++ [c]), s'. unfold emit_vm_code. rewrite Hm.
  split; simpl; try done.
  - by rewrite Hc, app_assoc.
  - by eapply turns_snoc.
  - apply Forall_app. split; [done|]. by constructor.
Qed.

Lemma inv_emit1 D D' ws ws' g m m' c : inv D ws g m → tidy c →
  (∀ s, sim D ws s m → ∃ s', turn c s s' ∧ sim D' ws' s' m') → inv D' ws' (emit_vm_code c g) m'.
Proof.
  intros H Hc Hs. destruct (inv_emit D D' ws (λ _ : unit, ws') (λ _, True) g m m' c H Hc) as (? & Hi & _); [|done].
  intros s Hsim. destruct (Hs s Hsim) as (s' & H1 & H2). by exists s', ().
Qed.

Lemma tidy_other c : c_opcode c ≠ VM_CALL → c_opcode c ≠ VM_POP → tidy c.
Proof. by split. Qed.

(** ** Addresses *)

Lemma symbol_ok_spec y o : symbol_ok y o = true →
  (∃ n, sym_name y = Ok n) ∧ 0 ≤ o < 2 ^ 31 ∧ wrap_s 32 (base_of y + o) = base_of y + o ∧ wrap_s 32 o = o.
Proof.
  unfold symbol_ok. intros H. rewrite !andb_true_iff in H. destruct H as [[[Hn Hl] Hu] Hr].
  split; [destruct (sym_name y); [by eexists|done..]|]. split; [lia|].
  rewrite in_range_spec in Hr. simpl in Hr. split; apply wrap_s_small; lia.
Qed.

Lemma address_of_ok g v s y size : g_symbols g = ys → v_symbol v = Some s → ys !! s = Some y →
  symbol_ok y (v_offset v) = true → ∃ n, address_of g v size =
    Ok (VmAddress n (is_global_var y) (base_of y + v_offset v) (base_of y) (v_offset v) size None).
Proof.
  intros Hg Hs Hy Hok. destruct (symbol_ok_spec _ _ Hok) as ((n & Hn) & Ho & Hw & Hwo).
  exists n. unfold address_of, var_index, var_address. rewrite Hg, Hs. simpl. rewrite Hy. simpl.
  rewrite Hn. simpl. by rewrite Hw, Hwo.
Qed.

Lemma at_var_place D ws st m s y n o size f : sim D ws st m → ys !! s = Some y →
  at_var E (VmAddress n (is_global_var y) (base_of y + o) (base_of y) o size f) st = addr M s + o.
Proof.
  intros H Hy. rewrite (layout _ _ Hy). unfold at_var, VmRun.gbp. simpl.
  rewrite (sim_bp _ _ _ _ _ _ _ _ _ _ _ _ H), (sim_gp _ _ _ _ _ _ _ _ _ _ _ _ H). destruct (is_global_var y); lia.
Qed.

(** A variable that is read directly. *)
Lemma direct_ok_inv D v : direct_ok D v = true → ∃ s y k n,
  v_symbol v = Some s ∧ ys !! s = Some y ∧ is_word (v_type v) = true ∧ is_field v = false ∧
  bytes_of depth ts (v_type v) = Some k ∧ symbol_ok y (v_offset v) = true ∧
  clear D (addr M s + v_offset v) k = true ∧ bytes_of depth ts (sym_type y) = Some n ∧
  v_offset v + Z.of_nat k ≤ Z.of_nat n.
Proof.
  unfold VmGenSem.direct_ok. intros H. rewrite !andb_true_iff in H. destruct H as [[Hw Hf] H].
  destruct (v_symbol v) as [s|]; [|done]. destruct (bytes_of depth ts (v_type v)) as [k|]; [|done].
  destruct (ys !! s) as [y|] eqn:Hy; [|done]. rewrite !andb_true_iff in H. destruct H as [[Hs Hc] H].
  destruct (bytes_of depth ts (sym_type y)) as [n|] eqn:Hn; [|done].
  exists s, y, k, n. apply negb_true_iff in Hf. repeat split; try done. lia.
Qed.

(** ** Loads *)

(** The code is not empty, and its last instruction is the last one emitted
    here or neither a pop nor a fill. *)
Lemma inv_last D ws g m l s : gen_inv D ws g m l s → ∃ c, back (code_of_mode g) = Ok c ∧
  ((c_opcode c ≠ VM_POP ∧ (l = [] → c_opcode c ≠ VM_FZERO)) ∨ ∃ l' , l = l' ++ [c]).
Proof.
  intros []. unfold code_of_mode. rewrite gi_mode0, gi_code0. unfold back.
  destruct l as [|c l _] using rev_ind.
  - destruct c0_last as (c & Hc & Hp & Hf). rewrite app_nil_r, Hc. exists c. split; [done|]. by left.
  - exists c. rewrite app_assoc, last_snoc. split; [done|]. right. by exists l.
Qed.

Definition spent1 (s : symref) (y : symbol) : list symref := if is_temporary_var y then [s] else [].

(** [load_shortcut] says no, or the word before the pop is kept. *)
Lemma shortcut_ok D ws g m v s y k bs : inv D ws g m → (length ws ≤ 2)%nat → direct_ok D v = true →
  v_symbol v = Some s → ys !! s = Some y → bytes_of depth ts (v_type v) = Some k →
  mread m (addr M s + v_offset v) k = Some bs →
  ∃ r, load_shortcut v (Z.of_nat k) g = Ok r ∧
    match r with
    | None => True
    | Some g' => g_protect g = false ∧ ∃ w, inv (spent1 s y ++ D) (w :: ws) g' m ∧ holds w bs
    end.
Proof.
  intros (l & st & H) Hl Hok Hs Hy Hk Hr.
  destruct (direct_ok_inv D v Hok) as (s' & y' & k' & n & Hs' & Hy' & Hw & Hf & Hk' & Hsy & Hcl & Hn & Hin).
  simplify_eq. unfold load_shortcut. rewrite (gi_symbols _ _ _ _ _ _ H), Hs. simpl. rewrite Hy. simpl.
  rewrite Hf, (gi_mode _ _ _ _ _ _ H). simpl. destruct (g_protect g) eqn:Hp; simpl; [by exists None|].
  destruct (inv_last _ _ _ _ _ _ H) as (c & Hb & Hc). unfold code_of_mode in Hb.
  rewrite (gi_mode _ _ _ _ _ _ H) in Hb. simpl in Hb. unfold code_of_mode. rewrite (gi_mode _ _ _ _ _ _ H), Hb. simpl.
  destruct (bool_decide (c_opcode c = VM_POP)) eqn:Hpop; simpl; [|by exists None].
  apply bool_decide_eq_true in Hpop. destruct Hc as [[? _]|[l' ->]]; [done|].
  pose proof (gi_tidy _ _ _ _ _ _ H) as Ht. apply Forall_app in Ht as [Ht Htc]. apply Forall_cons in Htc as [[Hncall Htc] _].
  destruct (Htc Hpop) as (k1 & a & Hk1 & Ha & Hsz & Hidx & Hoff).
  match goal with |- context [if ?b then _ else _] => destruct b eqn:Hb1 end; [|by exists None].
  unfold pops, d_addr. rewrite Ha. simpl.
  match goal with |- context [if ?b then _ else _] => destruct b eqn:Hb2 end; [|by exists None].
  rewrite !andb_true_iff in Hb2. destruct Hb2 as [[[Hg Hz] Hba] Ho].
  rewrite (wrap_u_small 64) in Ho by (cut (2 ^ 31 < 2 ^ 64); [lia|done]).
  apply eqb_prop in Hg. assert (isize k1 = k) as <- by lia.
  destruct H as [Hm Hys Hlb Hag Hco Hru Hti Hsi]. apply turns_snoc_inv in Hru as (s1 & Hr1 & Htn).
  assert (Hat : at_var E a st = addr M s + v_offset v).
  { rewrite (layout _ _ Hy). unfold at_var, VmRun.gbp. rewrite Hg, Hidx.
    rewrite (sim_bp _ _ _ _ _ _ _ _ _ _ _ _ Hsi), (sim_gp _ _ _ _ _ _ _ _ _ _ _ _ Hsi).
    destruct (is_global_var y); lia. }
  assert (Hok1 : mem_ok (s_mem s1)).
  { eapply turns_ok; [|exact Hr1|done]. eapply Forall_impl; [exact Ht|]. by intros ? []. }
  assert (Hrm : removelast (g_code g) = c0 ++ l') by (by rewrite Hco, app_assoc, removelast_last).
  eexists. split; [done|]. cbv beta iota. split; [done|]. unfold spent1. destruct (is_temporary_var y).
  - destruct (undo_pop E depth ts ys M sp0 bp gp D ([s] ++ D) ws s1 st m c k1 a bs) as (w & Hh & Hs1);
      rewrite ?Hat; try done.
    { intros x. rewrite stale_app. intros [?|Hx]; [by right|left].
      exists s, y, n. split; [by left|]. split; [done|]. split; [done|]. lia. }
    exists w. split; [|done]. exists l', s1. unfold pop_code. split; simpl; try done.
  - destruct (pop_to_store E depth ts ys M sp0 bp gp D ws s1 st m c k1 a bs) as (w & s' & Hh & Htn' & Hs1);
      rewrite ?Hat; try done.
    exists w. split; [|done]. exists (l' ++ [VmCode (c_index c) VM_STORE (c_type c) (c_d c)]), s'.
    unfold set_back. rewrite Hm. split; simpl; try done.
    + by rewrite Hrm, Ha, <-app_assoc.
    + by eapply turns_snoc.
    + apply Forall_app. split; [done|]. by constructor.
Qed.

Lemma eval_direct v s k m bs : v_kind v = DIRECT → v_symbol v = Some s → is_field v = false →
  bytes_of depth ts (v_type v) = Some k → eval depth ts ys M m v = Some bs →
  mread m (addr M s + v_offset v) k = Some bs.
Proof.
  unfold eval, location, IrSem.fetch. intros -> -> -> ->. cbn [mbind option_bind]. intros H.
  apply bind_Some in H as (bs' & H & [= <-]). done.
Qed.

(** [emit_vm_load]. *)
Lemma emit_load_ok D ws g m v s y k bs : inv D ws g m → (length ws ≤ 2)%nat → direct_ok D v = true →
  v_symbol v = Some s → ys !! s = Some y → bytes_of depth ts (v_type v) = Some k →
  mread m (addr M s + v_offset v) k = Some bs →
  ∃ g' w, emit_vm_load depth ts v g = Ok g' ∧
    inv ((if g_protect g then [] else spent1 s y) ++ D) (w :: ws) g' m ∧ holds w bs ∧ length bs = k.
Proof.
  intros Hi Hl Hok Hs Hy Hk Hr.
  destruct (direct_ok_inv D v Hok) as (s' & y' & k' & n & Hs' & Hy' & Hw & Hf & Hk' & Hsy & Hcl & Hn & Hin).
  simplify_eq. destruct (word_types _ Hw) as (kd & kv & Hkd & Hkv & Hsz & _ & Hvo & Hsu & Hre & _).
  destruct (word_size _ _ _ _ _ Hkd Hk) as (-> & _ & Hisz).
  pose proof (mread_length _ _ _ _ Hr) as Hlen.
  unfold emit_vm_load. rewrite Hf, Hisz. cbn [mbind outcome_bind].
  destruct (shortcut_ok D ws g m v s y _ bs Hi Hl Hok Hs Hy Hk Hr) as (r & -> & Hsc). cbn [mbind outcome_bind].
  destruct r as [g'|].
  { destruct Hsc as (Hp & w & Hi' & Hh). exists g', w. by rewrite Hp. }
  destruct (address_of_ok g v s y (Z.of_nat (isize kd))) as (nm & ->); try done.
  { destruct Hi as (? & ? & []). done. }
  cbn [mbind outcome_bind]. unfold get_vmop_var_type. rewrite Hsu, Hre, Hvo.
  eexists. destruct (inv_emit D D ws (λ w, w :: ws) (λ w, holds w bs) g m m
    (mkcode VM_PUSH (var_optype kv) (DAddr (VmAddress nm (is_global_var y) (base_of y + v_offset v) (base_of y)
      (v_offset v) (Z.of_nat (isize kd)) None)))) as (w & Hi' & Hh); [done|by apply tidy_other| |].
  - intros st Hst. pose proof (at_var_place D ws st m s y nm (v_offset v) (Z.of_nat (isize kd)) None Hst Hy) as Hat.
    destruct (turn_push_var E depth ts ys M sp0 bp gp D ws st m (mkcode VM_PUSH (var_optype kv) (DAddr (VmAddress nm
      (is_global_var y) (base_of y + v_offset v) (base_of y) (v_offset v) (Z.of_nat (isize kd)) None))) kv _ bs Hst Hl
      eq_refl eq_refl eq_refl) as (st' & w & Htn & Hst' & Hh & _); rewrite ?Hat, ?Hsz; try done.
    by exists st', w.
  - exists w. split; [done|]. split; [|done]. eapply inv_weaken; [|exact Hi'].
    intros x Hx. apply stale_app. by right.
Qed.

(** Constants. *)
Lemma push_number_ok v g k : is_integer (v_type v) = true → ity_of (v_type v) = Some k →
  ∃ t, int_optype t = Some k ∧ push_number v g = Some (emit_vm_push_imm t (wrap_u (iwidth k) (v_imm v)) g) ∧
    type_of (v_type v) ≠ T_POINTER ∧ type_of (v_type v) ≠ T_ARRAY.
Proof.
  unfold push_number, ity_of, is_integer, between. destruct (type_of (v_type v)) eqn:Ht; simpl; intros;
    simplify_eq; unfold is_unsigned, is_bool, type_is; rewrite ?Ht; simpl;
    rewrite ?orb_true_r, ?orb_false_r;
    try match goal with |- context [if ?b then _ else _] => destruct b end;
    eexists; (split; [|split; [reflexivity|done]]); reflexivity.
Qed.

Lemma inv_push_imm D ws g m t k b : inv D ws g m → (length ws ≤ 2)%nat → int_optype t = Some k →
  inv D (wrap_u 64 (conv k b) :: ws) (emit_vm_push_imm t b g) m.
Proof.
  intros Hi Hl Ht. eapply inv_emit1; [done|by apply tidy_other|]. intros s Hs.
  eapply turn_push_imm; [done|done|done|exact Ht|done].
Qed.

Lemma load_imm_ok D ws g m v bs : inv D ws g m → (length ws ≤ 2)%nat → v_kind v = IMMEDIATE →
  read_ok D m v = true → eval depth ts ys M m v = Some bs →
  ∃ g' w, vm_load_var depth ts v g = Ok g' ∧ inv D (w :: ws) g' m ∧ holds w bs.
Proof.
  intros Hi Hl Hk Hok He. unfold VmGenSem.read_ok in Hok. rewrite Hk, !andb_true_iff in Hok.
  destruct Hok as [[Hint Hw] Hsy]. apply bool_decide_eq_true in Hsy.
  destruct (word_types _ Hw) as (k & _ & Hkd & _).
  unfold eval in He. rewrite Hk, Hsy in He. apply bind_Some in He as (n & Hn & [= <-]).
  destruct (word_size _ _ _ _ _ Hkd Hn) as (-> & _ & _).
  destruct (push_number_ok v g k Hint Hkd) as (t & Ht & Hp & Hnp & Hna).
  eexists _, _. split.
  - unfold vm_load_var. rewrite Hk, Hp, Hsy. by destruct (type_of (v_type v)).
  - split; [by eapply inv_push_imm|]. apply holds_wrap; [rewrite length_le_enc; destruct k; simpl; lia|].
    apply holds_eq. rewrite <-iwidth_isize. rewrite eqm_conv. apply eqm_wrap_u. pose proof (iwidth_pos k). lia.
Qed.

(** Addresses. *)
Lemma load_address_ok D ws g m v bs : inv D ws g m → (length ws ≤ 2)%nat → v_kind v = ADDRESS →
  read_ok D m v = true → eval depth ts ys M m v = Some bs →
  ∃ g' w, vm_load_var depth ts v g = Ok g' ∧ inv D (w :: ws) g' m ∧ holds w bs.
Proof.
  intros Hi Hl Hk Hok He. unfold VmGenSem.read_ok, address_ok in Hok. rewrite Hk in Hok.
  apply andb_true_iff in Hok as [Hn Hok]. apply bool_decide_eq_true in Hn.
  destruct (v_symbol v) as [s|] eqn:Hs; [|done].
  destruct (ys !! s) as [y|] eqn:Hy; [|done]. apply andb_true_iff in Hok as [Hsy Hlb].
  unfold eval in He. rewrite Hk, Hs in He. injection He as <-.
  assert (Hg : g_symbols g = ys ∧ g_labels g = labels) by (destruct Hi as (? & ? & []); done). destruct Hg as [Hg Hgl].
  assert (∃ z, isize_of depth ts (v_type v) = Ok z) as [z Hz].
  { unfold isize_of, bytes_of in *. destruct (size_of depth ts (v_type v)); [by eexists|done..]. }
  destruct (address_of_ok g v s y z Hg Hs Hy Hsy) as (nm & Ha).
  unfold vm_load_var, emit_vm_load_address. rewrite Hk, Hs, Hg. cbn [get_symbol]. rewrite Hy.
  cbn [defined mbind outcome_bind]. rewrite Hz, Hgl. cbn [mbind outcome_bind].
  apply negb_true_iff in Hlb. rewrite Hlb, Ha. cbn [mbind outcome_bind].
  eexists _, (wrap_u 64 (addr M s + v_offset v)). split; [done|]. split.
  - eapply inv_emit1; [done|by apply tidy_other|]. intros st Hst.
    rewrite <-(at_var_place D ws st m s y nm (v_offset v) z None Hst Hy).
    by eapply turn_push_addr.
  - apply holds_wrap; [simpl; lia|apply (holds_enc 8)].
Qed.

(** Through a pointer. *)
Lemma deref_ok_inv D m v : deref_ok D m v = true → ∃ s y k p,
  v_symbol v = Some s ∧ ys !! s = Some y ∧ is_word (v_type v) = true ∧ is_field v = false ∧
  0 ≤ v_offset v < 2 ^ 31 ∧ bytes_of depth ts (v_type v) = Some k ∧ symbol_ok y 0 = true ∧
  is_pointer (sym_type y) = true ∧ clear D (addr M s) 8 = true ∧
  ¬ (sym_symtype y ∈ [SYM_CONSTANT; SYM_STRING_VALUE; SYM_TABLE; SYM_LABEL]) ∧
  mread m (addr M s) 8 = Some p ∧ 4096 ≤ le_dec p ∧ le_dec p + v_offset v < 2 ^ 64 ∧
  clear D (le_dec p + v_offset v) k = true.
Proof.
  unfold VmGenSem.deref_ok. intros H. rewrite !andb_true_iff in H. destruct H as [[[[Hw Hf] Ho1] Ho2] H].
  destruct (v_symbol v) as [s|]; [|done]. destruct (bytes_of depth ts (v_type v)) as [k|]; [|done].
  destruct (ys !! s) as [y|] eqn:Hy; [|done]. rewrite !andb_true_iff in H. destruct H as [[[[Hs Hp] Hc] Hn] H].
  destruct (mread m (addr M s) 8) as [p|] eqn:Hr; [|done]. rewrite !andb_true_iff in H. destruct H as [[Hl Hu] Hcl].
  apply negb_true_iff in Hf, Hn. apply bool_decide_eq_false in Hn.
  exists s, y, k, p. repeat (split; [done || lia|]). done.
Qed.

Lemma pointer_word t : is_pointer t = true → ity_of t = Some U64.
Proof. unfold is_pointer, type_is, ity_of. intros H. apply bool_decide_eq_true in H. by rewrite H. Qed.

Lemma bytes_of_pointer t u n : is_pointer t = true → bytes_of depth ts u = Some n → bytes_of depth ts t = Some 8%nat.
Proof.
  unfold is_pointer, type_is, bytes_of. intros H. apply bool_decide_eq_true in H.
  destruct depth; [done|]. intros _. simpl. by rewrite H.
Qed.

Lemma inv_word D w ws g m : inv D (w :: ws) g m → 0 ≤ w < 2 ^ 64.
Proof.
  intros (l & s & []). pose proof (sim_word E depth ts ys M sp0 bp gp _ _ _ _ _ gi_sim0) as Hw. unfold word in Hw.
  rewrite <-(mload_conv _ _ _ _ Hw). apply (wrap_u_range 64). lia.
Qed.

Lemma holds_word w bs : length bs = 8%nat → 0 ≤ w < 2 ^ 64 → holds w bs → w = le_dec bs.
Proof.
  intros Hl Hw Hh. rewrite <-Hh, le_dec_enc, Hl. symmetry. by apply wrap_u_small.
Qed.

Lemma load_pointer_ok D ws g m v s y p : inv D ws g m → (length ws ≤ 1)%nat → deref_ok D m v = true →
  v_symbol v = Some s → ys !! s = Some y → mread m (addr M s) 8 = Some p →
  ∃ g' ptr, var_direct ys (Some s) = Ok ptr ∧ v_kind ptr = DIRECT ∧
    emit_vm_load depth ts ptr (set_protect true g) = Ok g' ∧ inv D (le_dec p :: ws) g' m.
Proof.
  intros Hi Hl Hok Hs Hy Hp.
  destruct (deref_ok_inv D m v Hok) as (s' & y' & k & p' & Hs' & Hy' & Hw & Hf & Ho & Hk & Hsy & Hpt & Hc & Hst & Hp' & Hp0 & Hp1 & Hcl).
  simplify_eq. pose proof (bytes_of_pointer _ _ _ Hpt Hk) as H8.
  assert (∃ l, var_direct ys (Some s) = Ok (Var DIRECT (sym_type y) (Some s) 0 0 0 l 0)) as [lv Hd].
  { unfold var_direct. simpl. rewrite Hy. simpl. exists (negb (is_temporary y)).
    destruct (sym_symtype y) eqn:Ht; try done; destruct Hst;
      rewrite ?elem_of_cons; tauto. }
  set (ptr := Var DIRECT (sym_type y) (Some s) 0 0 0 lv 0) in *.
  assert (Hpw : is_word (sym_type y) = true).
  { unfold is_word. rewrite (pointer_word _ Hpt). done. }
  assert (Hdok : direct_ok D ptr = true).
  { unfold VmGenSem.direct_ok. simpl. rewrite Hpw, H8, Hy, Hsy. simpl. rewrite Z.add_0_r, Hc, H8. done. }
  destruct (emit_load_ok D ws (set_protect true g) m ptr s y 8 p) as (g' & w & He & Hi' & Hh & Hlen);
    try done; [by apply inv_protect|lia|simpl; by rewrite Z.add_0_r|].
  exists g', ptr. split; [done|]. split; [done|]. split; [done|].
  simpl in Hi'. by rewrite <-(holds_word w p Hlen (inv_word _ _ _ _ _ Hi') Hh).
Qed.

Lemma add_offset_ok D p ws g m v : inv D (p :: ws) g m → (length ws ≤ 1)%nat → 0 ≤ v_offset v < 2 ^ 31 →
  p + v_offset v < 2 ^ 64 → inv D (p + v_offset v :: ws) (add_offset v g) m.
Proof.
  intros Hi Hl Ho Hp. pose proof (inv_word _ _ _ _ _ Hi) as Hw. unfold add_offset. destruct (Z.eqb_spec (v_offset v) 0) as [->|].
  { by rewrite Z.add_0_r. }
  eapply (inv_push_imm D _ g m VMOP_INT32 I32 (wrap_u 32 (v_offset v))) in Hi; [|simpl; lia|done].
  assert (Hc : conv I32 (wrap_u 32 (v_offset v)) = v_offset v).
  { rewrite wrap_u_small by lia. apply conv_small, in_range_spec. simpl. lia. }
  rewrite Hc, wrap_u_small in Hi by lia.
  eapply inv_emit1; [exact Hi|by apply tidy_other|]. intros s Hs.
  destruct (turn_binop E depth ts ys M sp0 bp gp D ws s m (mkcode VM_ADD VMOP_UINT64 DNone) (IArith AAdd) U64 p (v_offset v)
    (p + v_offset v)) as (s' & Ht & Hs'); try done.
  - simpl. unfold c_result. simpl. rewrite (conv_small U64 p), (conv_small U64 (v_offset v)), (conv_small U64 (p + v_offset v));
      [done|apply in_range_spec; simpl; lia..].
  - exists s'. by rewrite wrap_u_small in Hs' by lia.
Qed.

Lemma location_deref m v s p : v_kind v = DEREF → v_symbol v = Some s → mread m (addr M s) 8 = Some p →
  0 ≤ le_dec p + v_offset v < 2 ^ 64 → location M m v = Some (le_dec p + v_offset v).
Proof.
  unfold location. intros -> -> Hp Hr. rewrite Hp. cbn [mbind option_bind]. f_equal. by apply wrap_u_small.
Qed.

Lemma address_of_name g v s y size : g_symbols g = ys → v_symbol v = Some s → ys !! s = Some y →
  symbol_ok y 0 = true → ∃ a, address_of g v size = Ok a ∧ a_size a = size.
Proof.
  intros Hg Hs Hy Hok. destruct (symbol_ok_spec _ _ Hok) as ((n & Hn) & _).
  unfold address_of, var_index, var_address. rewrite Hg, Hs. simpl. rewrite Hy. simpl. rewrite Hn. simpl.
  by eexists.
Qed.

Lemma load_deref_ok D ws g m v bs : inv D ws g m → (length ws ≤ 1)%nat → v_kind v = DEREF →
  read_ok D m v = true → eval depth ts ys M m v = Some bs →
  ∃ g' w, vm_load_var depth ts v g = Ok g' ∧ inv D (w :: ws) g' m ∧ holds w bs.
Proof.
  intros Hi Hl Hkd Hok He. unfold VmGenSem.read_ok in Hok. rewrite Hkd in Hok.
  destruct (deref_ok_inv D m v Hok) as (s & y & k & p & Hs & Hy & Hw & Hf & Ho & Hk & Hsy & Hpt & Hc & Hst & Hp & Hp0 & Hp1 & Hcl).
  assert (Hr : mread m (le_dec p + v_offset v) k = Some bs).
  { unfold eval in He. rewrite (location_deref m v s p) in He by (done || lia). rewrite Hkd in He.
    unfold IrSem.fetch in He. rewrite Hk, Hf in He. cbn [mbind option_bind] in He.
    by apply bind_Some in He as (bs' & He & [= <-]). }
  assert (Hg : g_symbols g = ys) by (destruct Hi as (? & ? & []); done).
  destruct (load_pointer_ok D ws g m v s y p Hi Hl Hok Hs Hy Hp) as (g1 & ptr & Hd & Hdk & Hload & Hi1).
  unfold vm_load_var. rewrite Hkd, Hs, Hg. cbn [get_symbol]. rewrite Hy. cbn [defined mbind outcome_bind].
  rewrite Hd. cbn [mbind outcome_bind]. rewrite bool_decide_eq_false_2 by (by rewrite Hdk). cbn [andb].
  rewrite Hload. cbn [mbind outcome_bind].
  apply (inv_protect _ _ _ _ false) in Hi1.
  apply (add_offset_ok _ _ _ _ _ v) in Hi1; [|done|done|done].
  destruct (word_types _ Hw) as (kd & kv & Hkdt & Hkv & Hsz & _ & _ & Hsu & _).
  destruct (word_size _ _ _ _ _ Hkdt Hk) as (-> & _ & Hisz).
  unfold emit_vm_deref, value_optype. rewrite Hisz, Hsu. cbn [mbind outcome_bind].
  destruct (address_of_name (add_offset v (set_protect false g1)) v s y (Z.of_nat (isize kd))) as (a & -> & _); try done.
  { destruct Hi1 as (? & ? & []). done. }
  cbn [mbind outcome_bind]. eexists.
  destruct (inv_emit D D _ (λ w, w :: ws) (λ w, holds w bs) (add_offset v (set_protect false g1)) m m
    (mkcode VM_DEREF (get_vm_optype (v_type v)) (DAddr a)) Hi1) as (w & Hi' & Hh); [by apply tidy_other| |].
  - intros st Hsm. destruct (turn_deref E depth ts ys M sp0 bp gp D _ ws st m (mkcode VM_DEREF
      (get_vm_optype (v_type v)) (DAddr a)) kv bs Hsm ltac:(lia) eq_refl Hkv) as (st' & w & Htn & Hst' & Hh & _);
      rewrite ?Hsz; try done; [lia|]. by exists st', w.
  - by exists w.
Qed.

(** [vm_load_var]. *)
Lemma spent_direct v s y : v_kind v = DIRECT → v_symbol v = Some s → ys !! s = Some y → spent v = spent1 s y.
Proof. unfold VmGenSem.spent. intros -> -> ->. done. Qed.

Lemma load_ok D ws g m v bs : inv D ws g m → (length ws ≤ 1)%nat →
  read_ok D m v = true → eval depth ts ys M m v = Some bs →
  ∃ g' w, vm_load_var depth ts v g = Ok g' ∧ inv (spent v ++ D) (w :: ws) g' m ∧ holds w bs.
Proof.
  intros Hi Hl Hok He. destruct (v_kind v) eqn:Hk.
  - pose proof Hok as Hdk. unfold VmGenSem.read_ok in Hdk. rewrite Hk in Hdk.
    destruct (direct_ok_inv D v Hdk) as (s & y & k & n & Hs & Hy & Hw & Hf & Hkb & Hsy & Hcl & Hn & Hin).
    destruct (emit_load_ok D ws g m v s y k bs) as (g' & w & Hg & Hi' & Hh & _); try done;
      [lia|by eapply eval_direct|].
    exists g', w. unfold vm_load_var. rewrite Hk. split; [done|]. split; [|done].
    rewrite (spent_direct v s y) by done. eapply inv_weaken; [|exact Hi'].
    intros x. rewrite !stale_app. destruct (g_protect g); [|done].
    intros [(? & ? & ? & Hx & _)|]; [by apply not_elem_of_nil in Hx|by right].
  - destruct (load_address_ok D ws g m v bs) as (g' & w & Hg & Hi' & Hh); try done; [lia|].
    exists g', w. unfold VmGenSem.spent. by rewrite Hk.
  - destruct (load_deref_ok D ws g m v bs) as (g' & w & Hg & Hi' & Hh); try done.
    exists g', w. unfold VmGenSem.spent. by rewrite Hk.
  - destruct (load_imm_ok D ws g m v bs) as (g' & w & Hg & Hi' & Hh); try done; [lia|].
    exists g', w. unfold VmGenSem.spent. by rewrite Hk.
Qed.

(** ** Two operands *)

Lemma clear_app D1 D2 a n : clear (D1 ++ D2) a n = clear D1 a n && clear D2 a n.
Proof. unfold VmGenSem.clear. apply forallb_app. Qed.

Lemma read_ok_app D1 D2 m v : read_ok (D1 ++ D2) m v = true → read_ok D2 m v = true.
Proof.
  unfold VmGenSem.read_ok, VmGenSem.direct_ok, VmGenSem.deref_ok. intros H.
  destruct (v_kind v); try done; destruct (v_symbol v); try done;
    destruct (bytes_of depth ts (v_type v)); try done;
    match goal with |- context [ys !! ?s] => destruct (ys !! s); try done end;
    rewrite ?clear_app, ?andb_true_iff in *; [tauto|].
  destruct (mread m _ 8); rewrite ?clear_app, ?andb_true_iff in *; [tauto|].
  destruct H as (_ & _ & H). discriminate H.
Qed.

Lemma eval_length D m v bs k : read_ok D m v = true → eval depth ts ys M m v = Some bs →
  ity_of (v_type v) = Some k → length bs = isize k.
Proof.
  unfold VmGenSem.read_ok, eval. intros Hok He Hk. destruct (v_kind v).
  - apply bind_Some in He as (a & _ & He). unfold IrSem.fetch in He. apply bind_Some in He as (n & Hn & He).
    destruct (direct_ok_inv D v Hok) as (_ & _ & _ & _ & _ & _ & _ & Hf & _). rewrite Hf in He.
    apply bind_Some in He as (bs' & He & [= <-]). rewrite (mread_length _ _ _ _ He). by eapply word_size.
  - unfold address_ok in Hok. apply andb_true_iff in Hok as [Hn _]. apply bool_decide_eq_true in Hn.
    destruct (v_symbol v); [|done]. injection He as <-. simpl. by eapply word_size.
  - apply bind_Some in He as (a & _ & He). unfold IrSem.fetch in He. apply bind_Some in He as (n & Hn & He).
    destruct (deref_ok_inv D m v Hok) as (_ & _ & _ & _ & _ & _ & _ & Hf & _). rewrite Hf in He.
    apply bind_Some in He as (bs' & He & [= <-]). rewrite (mread_length _ _ _ _ He). by eapply word_size.
  - rewrite !andb_true_iff in Hok. destruct Hok as [_ Hs]. apply bool_decide_eq_true in Hs. rewrite Hs in He.
    apply bind_Some in He as (n & Hn & [= <-]). rewrite length_le_enc. by eapply word_size.
Qed.

Lemma read_symbol D m v s : read_ok D m v = true → v_symbol v = Some s →
  ∃ y z, ys !! s = Some y ∧ isize_of depth ts (v_type v) = Ok z.
Proof.
  assert (Hb : ∀ n, bytes_of depth ts (v_type v) = Some n → ∃ z, isize_of depth ts (v_type v) = Ok z).
  { unfold bytes_of, isize_of. destruct (size_of depth ts (v_type v)); [by eexists|done..]. }
  unfold VmGenSem.read_ok. intros Hok Hs. destruct (v_kind v).
  - destruct (direct_ok_inv D v Hok) as (s' & y & k & n & Hs' & Hy & _ & _ & Hk & _).
    destruct (Hb k Hk) as [z Hz]. exists y, z. by simplify_eq.
  - unfold address_ok in Hok. apply andb_true_iff in Hok as [Hn Hok]. apply bool_decide_eq_true in Hn.
    rewrite Hs in Hok. destruct (ys !! s) as [y|]; [|done]. destruct (Hb 8%nat Hn) as [z Hz]. by exists y, z.
  - destruct (deref_ok_inv D m v Hok) as (s' & y & k & p & Hs' & Hy & _ & _ & _ & Hk & _).
    destruct (Hb k Hk) as [z Hz]. exists y, z. by simplify_eq.
  - rewrite !andb_true_iff in Hok. destruct Hok as [_ Hn]. apply bool_decide_eq_true in Hn. congruence.
Qed.

Lemma swap_ok D ws g m v : inv D ws g m → read_ok D m v = true → ∃ b, is_swap_available depth ts v g = Ok b.
Proof.
  intros (l & st & Hi) Hok. unfold is_swap_available.
  destruct (v_symbol v) as [s|] eqn:Hs; [|by eexists].
  destruct (read_symbol D m v s Hok Hs) as (y & z & Hy & Hz).
  match goal with |- context [if ?b then _ else _] => destruct b end; [|by eexists].
  rewrite (gi_symbols _ _ _ _ _ _ Hi). simpl. rewrite Hy. simpl. rewrite Hz. simpl.
  destruct (inv_last _ _ _ _ _ _ Hi) as (c & -> & Hc). simpl.
  case_bool_decide; [|by eexists]. unfold pops, d_addr. destruct (c_d c); simpl; by eexists.
Qed.

Lemma load2_ok D g m a b ba bb : inv D [] g m → read_ok D m a = true → read_ok (spent a ++ D) m b = true →
  eval depth ts ys M m a = Some ba → eval depth ts ys M m b = Some bb →
  ∃ g' wa wb, load2 depth ts a b g = Ok g' ∧ inv (spent b ++ spent a ++ D) [wb; wa] g' m ∧ holds wa ba ∧ holds wb bb.
Proof.
  intros Hi Ha Hb Hea Heb. destruct (load_ok D [] g m a ba Hi) as (g1 & wa & Hg1 & Hi1 & Hha); [simpl; lia|done|done|].
  destruct (load_ok _ [wa] g1 m b bb Hi1) as (g2 & wb & Hg2 & Hi2 & Hhb); [simpl; lia|done|done|].
  exists g2, wa, wb. unfold load2. rewrite Hg1. cbn [mbind outcome_bind]. by rewrite Hg2.
Qed.

Lemma stale_swap D1 D2 D3 a : stale (D1 ++ D2 ++ D3) a ↔ stale (D2 ++ D1 ++ D3) a.
Proof. rewrite !stale_app. tauto. Qed.

(** The operands in the order that [is_swap_available] chooses. *)
Lemma swap2_ok D g m l r bl br : inv D [] g m →
  read_ok (spent r ++ D) m l = true → read_ok (spent l ++ D) m r = true →
  eval depth ts ys M m l = Some bl → eval depth ts ys M m r = Some br →
  ∃ (w : bool) g' wa wb, is_swap_available depth ts r g = Ok w ∧
    (if w then load2 depth ts r l g else load2 depth ts l r g) = Ok g' ∧
    inv ((spent l ++ spent r) ++ D) [wb; wa] g' m ∧ holds wa (if w then br else bl) ∧ holds wb (if w then bl else br).
Proof.
  intros Hi Hl Hr Hel Her. pose proof (read_ok_app _ _ _ _ Hl) as Hl0. pose proof (read_ok_app _ _ _ _ Hr) as Hr0.
  destruct (swap_ok D [] g m r Hi Hr0) as (w & Hw). exists w. destruct w.
  - destruct (load2_ok D g m r l br bl) as (g' & wa & wb & Hg & Hi' & Ha & Hb); try done.
    exists g', wa, wb. by rewrite <-app_assoc.
  - destruct (load2_ok D g m l r bl br) as (g' & wa & wb & Hg & Hi' & Ha & Hb); try done.
    exists g', wa, wb. split; [done|]. split; [done|]. split; [|done]. rewrite <-app_assoc.
    eapply inv_weaken; [|exact Hi']. intros x. by rewrite stale_swap.
Qed.

(** ** Operators *)

Lemma op2_ok D g m wa wb cc T o k r : inv D [wb; wa] g m → int_binop_of cc = Some o → int_optype T = Some k →
  c_binop o k (conv k wa) (conv k wb) = Ok r → inv D [wrap_u 64 r] (emit_vm_op cc T g) m.
Proof.
  intros Hi Ho Hk Hr. eapply inv_emit1; [done| |].
  - split; simpl; intros Hc; rewrite Hc in Ho; discriminate Ho.
  - intros s Hs. eapply turn_binop; [exact Hs|simpl; lia|exact Ho|exact Hk|done].
Qed.

Lemma holds_result n k r : n = isize k → holds (wrap_u 64 r) (le_enc n r).
Proof.
  intros ->. apply holds_wrap; [rewrite length_le_enc; destruct k; simpl; lia|apply holds_enc].
Qed.

(** The operators whose operands may change places. *)
Definition turned (o : binop) : option binop :=
  match o with
  | IArith AAdd | IArith AMul | IBit _ | ICmp CEq | ICmp CNe => Some o
  | ICmp CGe => Some (ICmp CLe)
  | ICmp CGt => Some (ICmp CLt)
  | _ => None
  end.

Lemma turned_ok o o' k a b : turned o = Some o' → c_binop o' k b a = c_binop o k a b.
Proof.
  destruct o as [[]| |[]|[]]; simpl; intros; simplify_eq; simpl; f_equal;
    rewrite 1?(Z.eqb_sym b); auto with zarith;
    try apply Z.land_comm; try apply Z.lor_comm; try apply Z.lxor_comm.
Qed.

(** What both ways of loading two operands come to. *)
Lemma swapped_op_ok D g m l r bl br cc cc' T o o' k z (swap : bool) : inv D [] g m →
  read_ok (spent r ++ D) m l = true → read_ok (spent l ++ D) m r = true →
  eval depth ts ys M m l = Some bl → eval depth ts ys M m r = Some br →
  int_binop_of cc = Some o → int_binop_of cc' = Some o' → turned o = Some o' → int_optype T = Some k →
  (∀ w, holds w bl → conv k w = conv k (le_dec bl)) → (∀ w, holds w br → conv k w = conv k (le_dec br)) →
  c_binop o k (conv k (le_dec bl)) (conv k (le_dec br)) = Ok z →
  ∃ (w : bool) g', is_swap_available depth ts r g = Ok w ∧
    (if w then load2 depth ts r l g else load2 depth ts l r g) = Ok g' ∧
    inv ((spent l ++ spent r) ++ D) [wrap_u 64 z] (emit_vm_op (if w then cc' else cc) T g') m.
Proof.
  intros Hi Hl Hr Hel Her Ho Ho' Htu Hk Hcl Hcr Hz.
  destruct (swap2_ok D g m l r bl br Hi Hl Hr Hel Her) as (w & g' & wa & wb & Hw & Hg & Hi' & Ha & Hb).
  exists w, g'. split; [done|]. split; [done|]. destruct w.
  - eapply op2_ok; [exact Hi'|exact Ho'|exact Hk|]. rewrite (Hcr _ Ha), (Hcl _ Hb).
    by rewrite (turned_ok o o' k).
  - eapply op2_ok; [exact Hi'|exact Ho|exact Hk|]. by rewrite (Hcl _ Ha), (Hcr _ Hb).
Qed.

Lemma fixed_op_ok D g m l r bl br cc T o k z : inv D [] g m →
  read_ok (spent l ++ D) m r = true → read_ok D m l = true →
  eval depth ts ys M m l = Some bl → eval depth ts ys M m r = Some br →
  int_binop_of cc = Some o → int_optype T = Some k →
  (∀ w, holds w bl → conv k w = conv k (le_dec bl)) → (∀ w, holds w br → conv k w = conv k (le_dec br)) →
  c_binop o k (conv k (le_dec bl)) (conv k (le_dec br)) = Ok z →
  ∃ g', load2 depth ts l r g = Ok g' ∧ inv ((spent l ++ spent r) ++ D) [wrap_u 64 z] (emit_vm_op cc T g') m.
Proof.
  intros Hi Hr Hl Hel Her Ho Hk Hcl Hcr Hz.
  destruct (load2_ok D g m l r bl br) as (g' & wa & wb & Hg & Hi' & Ha & Hb); try done.
  exists g'. split; [done|]. eapply inv_weaken; [intros x; rewrite <-app_assoc; apply stale_swap|].
  eapply op2_ok; [exact Hi'|exact Ho|exact Hk|]. by rewrite (Hcl _ Ha), (Hcr _ Hb).
Qed.

(** Steps by one. *)
Lemma repeat_op_ok D g m n d x w : inv D [w] g m → d = 1 ∨ d = -1 → conv I32 w = x →
  in_range I32 (x + d * Z.of_nat n) = true →
  ∃ w', inv D [w'] (repeat_op n (if 0 <? d then VM_INC else VM_DEC) g) m ∧ conv I32 w' = x + d * Z.of_nat n.
Proof.
  intros Hi Hd Hx Hr. induction n as [|n IH].
  - exists w. split; [done|]. lia.
  - assert (Hrn : in_range I32 (x + d * Z.of_nat n) = true).
    { pose proof (conv_range I32 w) as Hw. rewrite Hx in Hw. rewrite in_range_spec in *. simpl in *. lia. }
    destruct (IH Hrn) as (w1 & Hi1 & Hw1).
    destruct (inv_emit D D [w1] (λ w, [w]) (λ w, conv I32 w = x + d * Z.of_nat (S n))
      (repeat_op n (if 0 <? d then VM_INC else VM_DEC) g) m m
      (mkcode (if 0 <? d then VM_INC else VM_DEC) VMOP_INT32 DNone) Hi1) as (w' & Hi' & Hw').
    + apply tidy_other; simpl; by destruct (0 <? d).
    + intros s Hs. destruct (turn_incdec E depth ts ys M sp0 bp gp D w1 [] s m (mkcode (if 0 <? d then VM_INC else VM_DEC)
        VMOP_INT32 DNone) d (x + d * Z.of_nat n) Hs ltac:(simpl; lia) eq_refl Hd Hw1) as (s' & w' & Ht & Hs' & Hc).
      { rewrite <-Hr. f_equal. lia. }
      exists s', w'. split; [done|]. split; [done|]. rewrite Hc. lia.
    + exists w'. split; [exact Hi'|done].
Qed.

(** ** Expressions *)

Hypothesis Hoperate : ∀ e l r, operate M e l r = c_operate e l r.

Local Abbreviation compute := (compute depth ts ys M).

Lemma compute_unary m e σ bs : binary (ex_op e) = false → expression_ok depth ts e = true →
  compute (m, []) e = Some (σ, bs) → σ = (m, []) ∧ ∃ bl br, eval depth ts ys M m (ex_l e) = Some bl ∧ c_operate e bl br = Some bs.
Proof.
  unfold expression_ok, IrSem.compute. intros Hb Hok Hc. destruct (ity_of (v_type (ex_l e))); [|done].
  rewrite Hb in Hc. destruct (ex_op e); try done;
    apply bind_Some in Hc as (bl & Hl & Hc); apply bind_Some in Hc as (br & Hr & Hc);
    apply bind_Some in Hc as (v & Hv & [= <- <-]); rewrite Hoperate in Hv; split; eauto.
Qed.

Lemma compute_binary m e σ bs : binary (ex_op e) = true →
  compute (m, []) e = Some (σ, bs) → σ = (m, []) ∧ ∃ bl br, eval depth ts ys M m (ex_l e) = Some bl ∧
    eval depth ts ys M m (ex_r e) = Some br ∧ c_operate e bl br = Some bs.
Proof.
  unfold IrSem.compute. intros Hb Hc. rewrite Hb in Hc. destruct (ex_op e); try done;
    apply bind_Some in Hc as (bl & Hl & Hc); apply bind_Some in Hc as (br & Hr & Hc);
    apply bind_Some in Hc as (v & Hv & [= <- <-]); rewrite Hoperate in Hv; eauto 10.
Qed.

Lemma is_ity_spec t k : is_ity t k = true →
  is_integer t = true ∧ ity_of t = Some k ∧ int_optype (get_vm_optype t) = Some k.
Proof.
  unfold is_ity. intros H. apply andb_true_iff in H as [Hi Hk]. apply bool_decide_eq_true in Hk.
  destruct (word_types t) as (k0 & k' & Hk0 & Ho & _ & He & _).
  { unfold is_word. rewrite Hk. done. }
  split; [done|]. split; [done|]. rewrite Ho, He by done. congruence.
Qed.

Lemma to_option_ok {A} (o : outcome A) a : to_option o = Some a → o = Ok a.
Proof. destruct o; simpl; congruence. Qed.

Lemma operand_conv D m v bs k : read_ok D m v = true → eval depth ts ys M m v = Some bs → ity_of (v_type v) = Some k →
  ∀ w, holds w bs → conv k w = conv k (le_dec bs).
Proof. intros Hok He Hk w Hw. apply holds_conv; [by eapply eval_length|done]. Qed.

(** At 32 bits, equality does not depend on the sign. *)
Lemma conv_eq_32 k a b : isize k = 4%nat → (conv k a =? conv k b) = (conv I32 a =? conv I32 b).
Proof.
  intros Hk. destruct k; try done.
  assert (∀ x, conv U32 x = wrap_u 32 (conv I32 x)) as Hx.
  { intros x. symmetry. apply (eqm_conv I32). }
  apply eq_iff_eq_true. rewrite !Z.eqb_eq. split; intros H; [|by rewrite !Hx, H].
  rewrite <-(conv_conv I32 U32 a), <-(conv_conv I32 U32 b) by done. by rewrite H.
Qed.

Lemma small_count_spec D m v n bs : small_count v = Some n → is_ity (v_type v) I32 = true → read_ok D m v = true →
  eval depth ts ys M m v = Some bs → conv I32 (le_dec bs) = Z.of_nat n ∧ spent v = [].
Proof.
  unfold small_count. intros Hc Hk Hok He.
  match type of Hc with (if ?b then _ else _) = _ => destruct b eqn:Hb; [|done] end. injection Hc as <-.
  rewrite !andb_true_iff in Hb. destruct Hb as [[[Hki _] Hlo] Hhi]. apply bool_decide_eq_true in Hki.
  split; [|by unfold VmGenSem.spent; rewrite Hki].
  unfold VmGenSem.read_ok in Hok. rewrite Hki, !andb_true_iff in Hok. destruct Hok as [_ Hs].
  apply bool_decide_eq_true in Hs. unfold eval in He. rewrite Hki, Hs in He.
  apply bind_Some in He as (k & Hn & [= <-]). apply is_ity_spec in Hk as (_ & Hk & _).
  destruct (word_size _ _ _ _ _ Hk Hn) as (-> & _). rewrite le_dec_enc.
  change (8 * Z.of_nat (isize I32)) with 32. unfold VM_INCDEC_COUNT_MAX in Hhi.
  rewrite Z2Nat.id by lia.
  transitivity (conv I32 (wrap_s 64 (v_imm v))).
  - apply conv_proper. change (iwidth I32) with 32. rewrite eqm_wrap_u by lia. symmetry.
    apply (eqm_le _ 64); [lia|]. apply eqm_wrap_s. lia.
  - apply conv_small, in_range_spec. simpl. lia.
Qed.

Definition generated (D : list symref) (m : mem) (e : expression) (bs : list Z) (r : outcome genstate) : Prop :=
  ∃ g' w, r = Ok g' ∧ inv (spent_by ys e ++ D) [w] g' m ∧ holds w bs.

(** The two operands of an expression and what reading them needs. *)
Record operands (D : list symref) (m : mem) (e : expression) (bl br : list Z) : Prop := Operands {
  op_binary : binary (ex_op e) = true;
  op_l : read_ok (spent (ex_r e) ++ D) m (ex_l e) = true;
  op_r : read_ok (spent (ex_l e) ++ D) m (ex_r e) = true;
  op_bl : eval depth ts ys M m (ex_l e) = Some bl;
  op_br : eval depth ts ys M m (ex_r e) = Some br
}.

Lemma generated_binary D m e bs (r : outcome genstate) g' w : binary (ex_op e) = true → r = Ok g' →
  inv ((spent (ex_l e) ++ spent (ex_r e)) ++ D) [w] g' m → holds w bs → generated D m e bs r.
Proof. intros Hb -> Hi Hh. exists g', w. unfold spent_by. by rewrite Hb. Qed.

Lemma gen_swap_ok D g m e bl br cc T o k z n d : inv D [] g m → operands D m e bl br →
  int_binop_of cc = Some o → turned o = Some o → int_optype (get_vm_optype T) = Some k →
  (∀ w, holds w bl → conv k w = conv k (le_dec bl)) → (∀ w, holds w br → conv k w = conv k (le_dec br)) →
  c_binop o k (conv k (le_dec bl)) (conv k (le_dec br)) = Ok z → n = isize d →
  generated D m e (le_enc n z) (GEN_2OP_SWAP_CHECK depth ts cc T e g).
Proof.
  intros Hi [Hb Hl Hr Hel Her] Ho Htu Hk Hcl Hcr Hz Hn.
  destruct (swapped_op_ok D g m (ex_l e) (ex_r e) bl br cc cc (get_vm_optype T) o o k z false) as (w & g' & Hw & Hg & Hi'); try done.
  eapply (generated_binary _ _ _ _ _ (emit_vm_op cc (get_vm_optype T) g')); [done| | |by eapply holds_result].
  - unfold GEN_2OP_SWAP_CHECK. rewrite Hw. cbn [mbind outcome_bind]. by rewrite Hg.
  - by destruct w.
Qed.

Lemma gen_swap_cmp_ok D g m e bl br cc cc' o o' k z n d : inv D [] g m → operands D m e bl br →
  int_binop_of cc = Some o → int_binop_of cc' = Some o' → turned o = Some o' →
  int_optype (get_vm_optype (v_type (ex_l e))) = Some k →
  (∀ w, holds w bl → conv k w = conv k (le_dec bl)) → (∀ w, holds w br → conv k w = conv k (le_dec br)) →
  c_binop o k (conv k (le_dec bl)) (conv k (le_dec br)) = Ok z → n = isize d →
  generated D m e (le_enc n z) (GEN_2OP_SWAP_CHECK_CMP depth ts cc cc' e g).
Proof.
  intros Hi [Hb Hl Hr Hel Her] Ho Ho' Htu Hk Hcl Hcr Hz Hn.
  destruct (swapped_op_ok D g m (ex_l e) (ex_r e) bl br cc cc' (get_vm_optype (v_type (ex_l e))) o o' k z false)
    as (w & g' & Hw & Hg & Hi'); try done.
  eapply generated_binary; [done| |exact Hi'|by eapply holds_result].
  unfold GEN_2OP_SWAP_CHECK_CMP. rewrite Hw. cbn [mbind outcome_bind]. by rewrite Hg.
Qed.

Lemma gen_2op_ok D g m e bl br cc o k z n d : inv D [] g m → operands D m e bl br →
  int_binop_of cc = Some o → int_optype (get_vm_optype (ex_type e)) = Some k →
  (∀ w, holds w bl → conv k w = conv k (le_dec bl)) → (∀ w, holds w br → conv k w = conv k (le_dec br)) →
  c_binop o k (conv k (le_dec bl)) (conv k (le_dec br)) = Ok z → n = isize d →
  generated D m e (le_enc n z) (gen_2op depth ts cc e g).
Proof.
  intros Hi [Hb Hl Hr Hel Her] Ho Hk Hcl Hcr Hz Hn.
  destruct (fixed_op_ok D g m (ex_l e) (ex_r e) bl br cc (get_vm_optype (ex_type e)) o k z) as (g' & Hg & Hi'); try done.
  { by eapply read_ok_app. }
  eapply generated_binary; [done| |exact Hi'|by eapply holds_result].
  unfold gen_2op. by rewrite Hg.
Qed.

Lemma gen_step_ok D g m e bl br d n z : inv D [] g m → operands D m e bl br → d = 1 ∨ d = -1 →
  small_count (ex_r e) = Some n → is_ity (v_type (ex_l e)) I32 = true → is_ity (v_type (ex_r e)) I32 = true →
  c_result I32 (conv I32 (le_dec bl) + d * conv I32 (le_dec br)) = Ok z →
  generated D m e (le_enc 4 z) (g ← vm_load_var depth ts (ex_l e) g; Ok (repeat_op n (if 0 <? d then VM_INC else VM_DEC) g)).
Proof.
  intros Hi [Hb Hl Hr Hel Her] Hd Hn Hkl Hkr Hz.
  pose proof (read_ok_app _ _ _ _ Hl) as Hl0. pose proof (read_ok_app _ _ _ _ Hr) as Hr0.
  destruct (small_count_spec D m (ex_r e) n br Hn Hkr Hr0 Her) as [Hv Hsp].
  destruct (load_ok D [] g m (ex_l e) bl Hi) as (g1 & w & Hg1 & Hi1 & Hh); [simpl; lia|done..|].
  rewrite Hg1. cbn [mbind outcome_bind]. apply is_ity_spec in Hkl as (_ & Hkl & _).
  pose proof (operand_conv D m _ _ I32 Hl0 Hel Hkl w Hh) as Hw. rewrite Hv in Hz.
  unfold c_result in Hz. simpl in Hz. destruct (in_range I32 _) eqn:Hr1 in Hz; [|done]. injection Hz as <-.
  destruct (repeat_op_ok _ g1 m n d _ w Hi1 Hd Hw Hr1) as (w' & Hi' & Hw').
  eapply generated_binary; [done|done| |].
  - rewrite Hsp, app_nil_r. exact Hi'.
  - apply holds_eq. change (8 * Z.of_nat 4) with (iwidth I32). rewrite <-Hw'. symmetry. apply eqm_conv.
Qed.

Lemma gen_shift_ok D g m e bl br (left : bool) k u z n d : inv D [] g m → operands D m e bl br →
  int_optype (get_vm_optype (ex_type e)) = Some k → ity_of (v_type (ex_r e)) = Some u →
  (4 ≤ isize k)%nat → (4 ≤ isize u)%nat → ity_of (v_type (ex_l e)) = Some k →
  (if left then c_shl else c_shr) k (conv k (le_dec bl)) (conv u (le_dec br)) = Ok z → n = isize d →
  generated D m e (le_enc n z) (gen_2op depth ts (if left then VM_SHL else VM_SHR) e g).
Proof.
  intros Hi [Hb Hl Hr Hel Her] Hk Hu Hk4 Hu4 Hkl Hz Hn.
  pose proof (read_ok_app _ _ _ _ Hl) as Hl0. pose proof (read_ok_app _ _ _ _ Hr) as Hr0.
  destruct (load2_ok D g m (ex_l e) (ex_r e) bl br) as (g' & wa & wb & Hg & Hi' & Ha & Hhb); try done.
  assert (Hcount : conv I32 wb = conv u (le_dec br)).
  { assert (Hin : 0 ≤ conv u (le_dec br) < 64).
    { pose proof (iwidth_pos (promote k)). unfold c_shl, c_shr in Hz.
      destruct left; destruct ((0 <=? conv u (le_dec br)) && (conv u (le_dec br) <? iwidth (promote k))) eqn:Hx;
        try done; lia. }
    rewrite <-(conv_small I32 (conv u (le_dec br))) by (apply in_range_spec; simpl; lia).
    rewrite conv_conv by (rewrite !iwidth_isize; simpl; lia).
    apply conv_proper. apply (eqm_le _ (8 * Z.of_nat (length br))); [|by apply holds_eqm].
    rewrite (eval_length D m _ br u Hr0 Her Hu). simpl. lia. }
  eapply (generated_binary _ _ _ _ _ (emit_vm_op _ _ g')); [done| | |by eapply holds_result].
  - unfold gen_2op. by rewrite Hg.
  - eapply inv_weaken; [intros x; rewrite <-app_assoc; apply stale_swap|].
    eapply inv_emit1; [exact Hi'|by apply tidy_other; destruct left|]. intros s Hs.
    eapply (turn_shift E depth ts ys M sp0 bp gp _ [] s m left); [exact Hs|simpl; lia|done|exact Hk|].
    rewrite decide_False by (rewrite iwidth_isize; lia).
    rewrite Hcount, (operand_conv D m _ _ k Hl0 Hel Hkl wa Ha). done.
Qed.

Lemma generated_unary D m e bs (r : outcome genstate) g' w : binary (ex_op e) = false → r = Ok g' →
  inv (spent (ex_l e) ++ D) [w] g' m → holds w bs → generated D m e bs r.
Proof. intros Hb -> Hi Hh. exists g', w. unfold spent_by. by rewrite Hb, app_nil_r. Qed.

(** An instruction on the word of one operand. *)
Lemma gen_unary_ok D g m e bl bs c : inv D [] g m → binary (ex_op e) = false → tidy c →
  read_ok D m (ex_l e) = true → eval depth ts ys M m (ex_l e) = Some bl →
  (∀ D s w, sim D [w] s m → holds w bl → ∃ s' w', turn c s s' ∧ sim D [w'] s' m ∧ holds w' bs) →
  generated D m e bs (g ← vm_load_var depth ts (ex_l e) g; Ok (emit_vm_code c g)).
Proof.
  intros Hi Hb Ht Hok He Hs. destruct (load_ok D [] g m (ex_l e) bl Hi) as (g1 & w & Hg & Hi1 & Hh); [simpl; lia|done..|].
  rewrite Hg. cbn [mbind outcome_bind].
  destruct (inv_emit _ (spent (ex_l e) ++ D) [w] (λ w, [w]) (λ w, holds w bs) g1 m m c Hi1 Ht) as (w' & Hi' & Hh').
  - intros s Hsim. destruct (Hs _ s w Hsim Hh) as (s' & w' & H1 & H2 & H3). by exists s', w'.
  - by eapply generated_unary.
Qed.

Lemma gen_not_ok D g m e bl z n d k : inv D [] g m → ex_op e = IR_OP_NOT → is_ity (v_type (ex_l e)) k = true →
  read_ok D m (ex_l e) = true → eval depth ts ys M m (ex_l e) = Some bl →
  c_not k (conv k (le_dec bl)) = Ok z → n = isize d →
  generated D m e (le_enc n z) (g ← vm_load_var depth ts (ex_l e) g; Ok (emit_vm_op VM_NOT (get_vm_optype (v_type (ex_l e))) g)).
Proof.
  intros Hi Ho Hk Hok He Hz Hn. apply is_ity_spec in Hk as (_ & Hk & Hopt).
  eapply gen_unary_ok; [done|by rewrite Ho|by apply tidy_other|done|done|]. intros D' s w Hs Hh.
  destruct (turn_not E depth ts ys M sp0 bp gp D' w [] s m (mkcode VM_NOT (get_vm_optype (v_type (ex_l e))) DNone) k Hs)
    as (s' & Ht & Hs'); [simpl; lia|done|done|].
  rewrite (operand_conv D m _ _ k Hok He Hk w Hh) in Hs'. injection Hz as <-.
  eexists s', _. split; [done|]. split; [exact Hs'|]. by eapply holds_result.
Qed.

Lemma gen_neg_ok D g m e bl z n d k : inv D [] g m → ex_op e = IR_OP_NEG → is_ity (v_type (ex_l e)) k = true →
  read_ok D m (ex_l e) = true → eval depth ts ys M m (ex_l e) = Some bl →
  c_neg k (conv k (le_dec bl)) = Ok z → n = isize d →
  generated D m e (le_enc n z) (g ← vm_load_var depth ts (ex_l e) g; Ok (emit_vm_op VM_NEG (get_vm_optype (v_type (ex_l e))) g)).
Proof.
  intros Hi Ho Hk Hok He Hz Hn. apply is_ity_spec in Hk as (_ & Hk & Hopt).
  eapply gen_unary_ok; [done|by rewrite Ho|by apply tidy_other|done|done|]. intros D' s w Hs Hh.
  rewrite <-(operand_conv D m _ _ k Hok He Hk w Hh) in Hz.
  destruct (turn_neg E depth ts ys M sp0 bp gp D' w [] s m (mkcode VM_NEG (get_vm_optype (v_type (ex_l e))) DNone) k z Hs)
    as (s' & Ht & Hs'); [simpl; lia|done|done|done|].
  eexists s', _. split; [done|]. split; [exact Hs'|]. by eapply holds_result.
Qed.

(** A conversion between integer types; none is emitted between types that
    [type_equal] takes for the same. *)
Lemma gen_cast_ok D g m e bl ks kd : inv D [] g m → ex_op e = IR_OP_CAST →
  type_equal depth ts (ex_type e) (v_type (ex_l e)) = Ok false →
  is_integer (v_type (ex_l e)) = true → ity_of (v_type (ex_l e)) = Some ks →
  is_integer (ex_type e) = true → ity_of (ex_type e) = Some kd → is_bool (ex_type e) = false →
  read_ok D m (ex_l e) = true → eval depth ts ys M m (ex_l e) = Some bl →
  generated D m e (le_enc (isize kd) (conv ks (le_dec bl))) (vm_gen_expr depth ts e g).
Proof.
  intros Hi Ho Hte Hil Hks Hie Hkd Hnb Hok He. unfold vm_gen_expr. rewrite Ho, Hte. cbn [mbind outcome_bind].
  eapply gen_unary_ok; [done|by rewrite Ho|by apply tidy_other|done|done|]. intros D' s w Hs Hh.
  destruct (turn_cast E depth ts ys M sp0 bp gp D' w [] s m (mkcode VM_CAST VMOP_NONE (DCast (v_type (ex_l e)) (ex_type e)))
    (v_type (ex_l e)) (ex_type e) ks kd Hs) as (s' & w' & Ht & Hs' & Hc); try done; [simpl; lia|].
  exists s', w'. split; [done|]. split; [done|]. rewrite (operand_conv D m _ _ ks Hok He Hks w Hh) in Hc.
  apply holds_eq. rewrite <-iwidth_isize. rewrite <-(eqm_conv kd w'), Hc. apply eqm_conv.
Qed.

Lemma gen_same_ok D g m e bl ks kd : inv D [] g m → ex_op e = IR_OP_CAST →
  type_equal depth ts (ex_type e) (v_type (ex_l e)) = Ok true →
  ity_of (v_type (ex_l e)) = Some ks → isize kd = isize ks →
  read_ok D m (ex_l e) = true → eval depth ts ys M m (ex_l e) = Some bl →
  generated D m e (le_enc (isize kd) (conv ks (le_dec bl))) (vm_gen_expr depth ts e g).
Proof.
  intros Hi Ho Hte Hks Hsz Hok He. unfold vm_gen_expr. rewrite Ho, Hte. cbn [mbind outcome_bind].
  destruct (load_ok D [] g m (ex_l e) bl Hi) as (g1 & w & Hg & Hi1 & Hh); [simpl; lia|done..|].
  rewrite Hg. cbn [mbind outcome_bind]. eapply generated_unary; [by rewrite Ho|done|exact Hi1|].
  apply holds_eq. rewrite Hsz, <-iwidth_isize. rewrite <-(operand_conv D m _ _ ks Hok He Hks w Hh).
  symmetry. apply eqm_conv.
Qed.

Lemma le_enc_conv k z : le_enc (isize k) (conv k z) = le_enc (isize k) z.
Proof. apply le_enc_proper. rewrite <-iwidth_isize. apply eqm_conv. Qed.

Lemma cast_ok D g m e bl bs : inv D [] g m → expression_ok depth ts e = true → ex_op e = IR_OP_CAST →
  read_ok D m (ex_l e) = true → eval depth ts ys M m (ex_l e) = Some bl → c_operate e bl [] = Some bs →
  generated D m e bs (vm_gen_expr depth ts e g).
Proof.
  intros Hi Hok Ho Hr He Hc. unfold expression_ok in Hok. destruct (ity_of (v_type (ex_l e))) as [ks|] eqn:Hks; [|done].
  rewrite Ho in Hok. unfold c_operate in Hc. rewrite Hks, Ho in Hc. cbn [mbind option_bind] in Hc.
  apply bind_Some in Hc as (kd & Hkd & [= <-]).
  assert (Hz : ∀ x, (is_bool (ex_type e) = true → is_bool (v_type (ex_l e)) = true) →
    le_enc (isize kd) (if is_bool (v_type (ex_l e)) then x else c_int_cast (ex_type e) x) = le_enc (isize kd) x).
  { intros x Hx. unfold c_int_cast. destruct (is_bool (v_type (ex_l e))); [done|].
    destruct (is_bool (ex_type e)); [by specialize (Hx eq_refl)|]. rewrite Hkd. apply le_enc_conv. }
  destruct (type_equal depth ts (ex_type e) (v_type (ex_l e))) as [[]| |] eqn:Hte; try done; rewrite !andb_true_iff in Hok.
  - destruct Hok as [[[_ _] Hb] Hsz]. apply bool_decide_eq_true in Hsz. rewrite Hkd in Hsz. injection Hsz as Hsz.
    rewrite Hz; [by apply gen_same_ok|]. intros Hx. rewrite Hx in Hb. by destruct (is_bool (v_type (ex_l e))).
  - destruct Hok as [[[Hil Hie] _] Hb]. apply negb_true_iff in Hb.
    rewrite Hz; [by apply gen_cast_ok|]. intros Hx. congruence.
Qed.

Lemma sign_ok D g m e bl bs : inv D [] g m → expression_ok depth ts e = true →
  ex_op e = IR_OP_NOT ∨ ex_op e = IR_OP_NEG →
  read_ok D m (ex_l e) = true → eval depth ts ys M m (ex_l e) = Some bl → c_operate e bl [] = Some bs →
  generated D m e bs (vm_gen_expr depth ts e g).
Proof.
  intros Hi Hok Ho Hr He Hc. unfold expression_ok in Hok. destruct (ity_of (v_type (ex_l e))) as [k|] eqn:Hk; [|done].
  unfold c_operate in Hc. rewrite Hk in Hc. cbn [mbind option_bind] in Hc. apply bind_Some in Hc as (kd & Hkd & Hc).
  apply bind_Some in Hc as (z & Hz & [= <-]). unfold vm_gen_expr.
  destruct Ho as [Ho|Ho]; rewrite Ho in *; apply andb_true_iff in Hok as [Hok _]; apply to_option_ok in Hz.
  - by eapply gen_not_ok.
  - by eapply gen_neg_ok.
Qed.

Lemma binary_operands D m e bl br : operands_ok depth ts ys labels M D m e = true → binary (ex_op e) = true →
  eval depth ts ys M m (ex_l e) = Some bl → eval depth ts ys M m (ex_r e) = Some br → operands D m e bl br.
Proof. unfold operands_ok. intros Ho Hb. rewrite Hb, andb_true_iff in Ho. by destruct Ho. Qed.

(** The operators of arithmetic, on operands and a result of one type. *)
Lemma arith_ok D g m e bl br bs k : inv D [] g m → operands D m e bl br →
  is_ity (v_type (ex_l e)) k = true → is_ity (v_type (ex_r e)) k = true → is_ity (ex_type e) k = true →
  match ir_binop (ex_op e) with Some (ICmp _) | None => False | _ => True end →
  (small_count (ex_r e) ≠ None → ex_op e = IR_OP_ADD ∨ ex_op e = IR_OP_SUB → k = I32) →
  c_operate e bl br = Some bs → generated D m e bs (vm_gen_expr depth ts e g).
Proof.
  intros Hi Hop Hl Hr He Ho Hsm Hc.
  pose proof (is_ity_spec _ _ Hl) as (_ & Hkl & _). pose proof (is_ity_spec _ _ Hr) as (_ & Hkr & _).
  pose proof (is_ity_spec _ _ He) as (_ & Hke & Hopt).
  pose proof (read_ok_app _ _ _ _ (op_l _ _ _ _ _ Hop)) as Hl0. pose proof (read_ok_app _ _ _ _ (op_r _ _ _ _ _ Hop)) as Hr0.
  pose proof (operand_conv D m _ _ k Hl0 (op_bl _ _ _ _ _ Hop) Hkl) as Hcl.
  pose proof (operand_conv D m _ _ k Hr0 (op_br _ _ _ _ _ Hop) Hkr) as Hcr.
  unfold c_operate in Hc. rewrite Hkl, Hke in Hc. cbn [mbind option_bind] in Hc.
  apply bind_Some in Hc as (z & Hz & [= <-]).
  assert (∃ o, ir_binop (ex_op e) = Some o ∧ c_binop o k (conv k (le_dec bl)) (conv k (le_dec br)) = Ok z) as (o & Hbo & Hz').
  { destruct (ex_op e); try done; eexists; (split; [reflexivity|]); by apply to_option_ok. }
  unfold vm_gen_expr. destruct (ex_op e) eqn:Hex; simpl in Ho, Hbo; try done; simplify_eq.
  - unfold GEN_2OP_SWAP_CHECK_ADD. destruct (small_count (ex_r e)) as [n|] eqn:Hn; [|by eapply gen_swap_ok].
    assert (k = I32) as -> by auto. eapply (gen_step_ok D g m e bl br 1 n); [done|done|by left|done|done|done|].
    rewrite Z.mul_1_l. exact Hz'.
  - destruct (small_count (ex_r e)) as [n|] eqn:Hn; [|by eapply gen_2op_ok].
    assert (k = I32) as -> by auto. eapply (gen_step_ok D g m e bl br (-1) n); [done|done|by right|done|done|done|].
    rewrite <-Hz'. simpl. by f_equal.
  - by eapply gen_swap_ok.
  - by eapply gen_2op_ok.
  - by eapply gen_2op_ok.
  - by eapply gen_swap_ok.
  - by eapply gen_swap_ok.
  - by eapply gen_swap_ok.
Qed.

Lemma compare_ok D g m e bl br bs k : inv D [] g m → operands D m e bl br →
  is_ity (v_type (ex_l e)) k = true → is_ity (v_type (ex_r e)) k = true → is_ity (ex_type e) I32 = true →
  (ex_op e = IR_OP_EQ ∨ ex_op e = IR_OP_NE) ∧ isize k = 4%nat ∨ ex_op e = IR_OP_GE ∨ ex_op e = IR_OP_GT →
  c_operate e bl br = Some bs → generated D m e bs (vm_gen_expr depth ts e g).
Proof.
  intros Hi Hop Hl Hr He Ho Hc.
  pose proof (is_ity_spec _ _ Hl) as (_ & Hkl & Hoptl). pose proof (is_ity_spec _ _ Hr) as (_ & Hkr & _).
  pose proof (is_ity_spec _ _ He) as (_ & Hke & Hopt).
  pose proof (read_ok_app _ _ _ _ (op_l _ _ _ _ _ Hop)) as Hl0. pose proof (read_ok_app _ _ _ _ (op_r _ _ _ _ _ Hop)) as Hr0.
  pose proof (operand_conv D m _ _ k Hl0 (op_bl _ _ _ _ _ Hop) Hkl) as Hcl.
  pose proof (operand_conv D m _ _ k Hr0 (op_br _ _ _ _ _ Hop) Hkr) as Hcr.
  unfold c_operate in Hc. rewrite Hkl, Hke in Hc. cbn [mbind option_bind] in Hc.
  apply bind_Some in Hc as (z & Hz & [= <-]). unfold vm_gen_expr.
  destruct Ho as [[Ho H4]|Ho].
  - assert (H32 : ∀ w bs, length bs = 4%nat → holds w bs → conv I32 w = conv I32 (le_dec bs)).
    { intros w b Hb Hw. by apply (holds_conv I32). }
    pose proof (eval_length D m _ bl k Hl0 (op_bl _ _ _ _ _ Hop) Hkl) as Hll.
    pose proof (eval_length D m _ br k Hr0 (op_br _ _ _ _ _ Hop) Hkr) as Hlr. rewrite H4 in Hll, Hlr.
    assert (Hreal : is_real (v_type (ex_l e)) = false).
    { destruct (word_types (v_type (ex_l e))) as (? & ? & _ & _ & _ & _ & _ & _ & Hre & _); [|done].
      unfold is_word. by rewrite Hkl. }
    destruct Ho as [Ho|Ho]; rewrite Ho in *; rewrite Hreal; cbn [andb];
      apply bind_Some in Hz as (o & [= <-] & Hz); apply to_option_ok in Hz; simpl in Hz; rewrite conv_eq_32 in Hz by done;
      [eapply (gen_swap_ok D g m e bl br VM_EQ (ex_type e) (ICmp CEq) I32 z (isize I32) I32)
      |eapply (gen_swap_ok D g m e bl br VM_NE (ex_type e) (ICmp CNe) I32 z (isize I32) I32)];
      try done; intros; by apply H32.
  - destruct Ho as [Ho|Ho]; rewrite Ho in *;
      apply bind_Some in Hz as (o & [= <-] & Hz); apply to_option_ok in Hz;
      [by eapply (gen_swap_cmp_ok D g m e bl br VM_GE VM_LE _ _ k z (isize I32) I32)
      |by eapply (gen_swap_cmp_ok D g m e bl br VM_GT VM_LT _ _ k z (isize I32) I32)].
Qed.

(** [vm_gen_expr]. *)
Lemma expr_ok D g m e σ bs : inv D [] g m → expression_ok depth ts e = true →
  operands_ok depth ts ys labels M D m e = true → compute (m, []) e = Some (σ, bs) →
  σ = (m, []) ∧ generated D m e bs (vm_gen_expr depth ts e g).
Proof.
  intros Hi Hok Hops Hc. destruct (binary (ex_op e)) eqn:Hb.
  - destruct (compute_binary m e σ bs Hb Hc) as (-> & bl & br & Hl & Hr & Ho). split; [done|].
    pose proof (binary_operands D m e bl br Hops Hb Hl Hr) as Hop.
    unfold expression_ok in Hok. destruct (ity_of (v_type (ex_l e))) as [k|] eqn:Hk; [|done].
    destruct (ex_op e) eqn:Hex; try done; rewrite ?andb_true_iff, ?orb_true_iff in Hok;
      try (destruct Hok as [[H1 H2] H3]; eapply (arith_ok D g m e bl br bs k); rewrite ?Hex; by intuition).
    + destruct Hok as [[[H1 H2] H3] H4]. eapply (arith_ok D g m e bl br bs k); try done; rewrite ?Hex; try done.
      intros Hs _. destruct H4 as [H4|H4]; apply bool_decide_eq_true in H4; done.
    + destruct Hok as [[[H1 H2] H3] H4]. eapply (arith_ok D g m e bl br bs k); try done; rewrite ?Hex; try done.
      intros Hs _. destruct H4 as [H4|H4]; apply bool_decide_eq_true in H4; done.
    + destruct Hok as [[[[H1 H2] H3] H4] H5]. destruct (ity_of (v_type (ex_r e))) as [u|] eqn:Hu; [|done].
      apply bool_decide_eq_true in H4, H5. apply is_ity_spec in H2 as (_ & Hke & Hopt).
      unfold c_operate in Ho. rewrite Hk, Hke, Hex, Hu in Ho. cbn [mbind option_bind] in Ho.
      apply bind_Some in Ho as (z & Hz & [= <-]). apply to_option_ok in Hz.
      unfold vm_gen_expr. rewrite Hex. by eapply (gen_shift_ok D g m e bl br true k u).
    + destruct Hok as [[[[H1 H2] H3] H4] H5]. destruct (ity_of (v_type (ex_r e))) as [u|] eqn:Hu; [|done].
      apply bool_decide_eq_true in H4, H5. apply is_ity_spec in H2 as (_ & Hke & Hopt).
      unfold c_operate in Ho. rewrite Hk, Hke, Hex, Hu in Ho. cbn [mbind option_bind] in Ho.
      apply bind_Some in Ho as (z & Hz & [= <-]). apply to_option_ok in Hz.
      unfold vm_gen_expr. rewrite Hex. by eapply (gen_shift_ok D g m e bl br false k u).
    + destruct Hok as [[[H1 H2] H3] H4]. apply bool_decide_eq_true in H3. eapply compare_ok; try done. left. auto.
    + destruct Hok as [[[H1 H2] H3] H4]. apply bool_decide_eq_true in H3. eapply compare_ok; try done. left. auto.
    + destruct Hok as [[H1 H2] H3]. eapply compare_ok; try done. right. by left.
    + destruct Hok as [[H1 H2] H3]. eapply compare_ok; try done. right. by right.
  - destruct (compute_unary m e σ bs Hb Hok Hc) as (-> & bl & br & Hl & Ho). split; [done|].
    unfold operands_ok in Hops. rewrite Hb in Hops.
    assert (Hb0 : c_operate e bl [] = Some bs).
    { rewrite <-Ho. unfold c_operate. by destruct (ex_op e). }
    destruct (ex_op e) eqn:Hex; try done.
    + by eapply cast_ok.
    + exfalso. unfold expression_ok in Hok. rewrite Hex in Hok. by destruct (ity_of (v_type (ex_l e))).
    + exfalso. unfold expression_ok in Hok. rewrite Hex in Hok. by destruct (ity_of (v_type (ex_l e))).
    + eapply sign_ok; try done. by left.
    + eapply sign_ok; try done. by right.
Qed.

(** ** Statements *)

Local Abbreviation restored := (restored depth ts ys).

Lemma restored_stale t D s y x : v_kind t = DIRECT → v_symbol t = Some s → ys !! s = Some y → stale D x →
  ∀ k, bytes_of depth ts (v_type t) = Some k →
  stale (restored t D) x ∨ addr M s + v_offset t ≤ x < addr M s + v_offset t + Z.of_nat k.
Proof.
  intros Hkd Hs Hy Hx k Hk. unfold VmGenSem.restored. rewrite Hkd, Hs, Hy.
  destruct ((v_offset t =? 0) && bool_decide (bytes_of depth ts (sym_type y) = bytes_of depth ts (v_type t))) eqn:Hb;
    [|by left].
  apply andb_true_iff in Hb as [Ho Hb]. apply bool_decide_eq_true in Hb.
  destruct Hx as (s' & y' & k' & Hin & Hy' & Hk' & Hr). destruct (decide (s' = s)) as [->|Hne].
  - right. rewrite Hy in Hy'. injection Hy' as <-. rewrite Hb, Hk in Hk'. injection Hk' as <-. lia.
  - left. exists s', y', k'. split; [|done]. by apply list_elem_of_filter.
Qed.

Lemma restored_other t D : v_kind t ≠ DIRECT → restored t D = D.
Proof. unfold VmGenSem.restored. by destruct (v_kind t). Qed.

Definition unfilled (g : genstate) : Prop := ∀ c, last (g_code g) = Some c → c_opcode c ≠ VM_FZERO.

Lemma unfilled_emit c g : g_mode g = false → c_opcode c ≠ VM_FZERO → unfilled (emit_vm_code c g).
Proof.
  intros Hm Hc c'. unfold emit_vm_code. rewrite Hm. simpl. rewrite last_snoc. by intros [= <-].
Qed.

Lemma stored_inv m t bs m2 : is_field t = false → store depth ts M m t bs = Some m2 → ∃ a,
  location M m t = Some a ∧ bytes_of depth ts (v_type t) = Some (length bs) ∧ mwrite m a bs = Some m2.
Proof.
  unfold store. intros Hf H. apply bind_Some in H as (a & Ha & H). apply bind_Some in H as (n & Hn & H).
  apply bind_Some in H as (old & _ & H). rewrite Hf in H. case_decide as Hl; [|done].
  exists a. by rewrite Hl.
Qed.

Lemma inv_mode D ws g m : inv D ws g m → g_mode g = false.
Proof. by intros (? & ? & []). Qed.
Lemma inv_symbols D ws g m : inv D ws g m → g_symbols g = ys.
Proof. by intros (? & ? & []). Qed.

Lemma store_direct_ok D g m t w bs m2 : inv D [w] g m → holds w bs → v_kind t = DIRECT → direct_ok [] t = true →
  store depth ts M m t bs = Some m2 →
  ∃ g', vm_store_var depth ts t g = Ok g' ∧ inv (restored t D) [] g' m2 ∧ unfilled g'.
Proof.
  intros Hi Hh Hkd Hok Hst.
  destruct (direct_ok_inv [] t Hok) as (s & y & k & n & Hs & Hy & Hw & Hf & Hk & Hsy & _ & _ & _).
  destruct (stored_inv m t bs m2 Hf Hst) as (a & Hloc & Hlen & Hwr). unfold location in Hloc. rewrite Hkd, Hs in Hloc.
  injection Hloc as <-. destruct (word_types _ Hw) as (kd & kv & Hkt & Hkv & Hsz & _ & _ & Hsu & _).
  destruct (word_size _ _ _ _ _ Hkt Hlen) as (Hl & _ & Hisz).
  destruct (address_of_ok g t s y (Z.of_nat (isize kd)) (inv_symbols _ _ _ _ Hi) Hs Hy Hsy) as (nm & Ha).
  unfold vm_store_var, emit_vm_store, value_optype. rewrite Hkd, Hf, Hisz, Hsu. cbn [mbind outcome_bind].
  rewrite Ha. cbn [mbind outcome_bind]. eexists. split; [done|].
  split; [|apply unfilled_emit; [by eapply inv_mode|done]].
  eapply inv_emit1; [exact Hi| |].
  - split; [done|]. intros _. eexists kv, _. split; [exact Hkv|]. split; [done|]. simpl.
    rewrite Hsz. split; [done|]. split; [done|]. by destruct (symbol_ok_spec _ _ Hsy) as (_ & ? & _).
  - intros st Hsm. pose proof (at_var_place D [w] st m s y nm (v_offset t) (Z.of_nat (isize kd)) None Hsm Hy) as Hat.
    eapply (turn_pop E depth ts ys M sp0 bp gp D (restored t D) w [] st m m2 _ kv _ bs Hsm); try done;
      rewrite ?Hat, ?Hsz; try done; simpl; try lia.
    intros x Hx. eapply restored_stale; try done. by rewrite Hlen, Hl.
Qed.

Lemma store_deref_ok D g m t w bs m2 : inv D [w] g m → holds w bs → v_kind t = DEREF → deref_ok D m t = true →
  store depth ts M m t bs = Some m2 →
  ∃ g', vm_store_var depth ts t g = Ok g' ∧ inv (restored t D) [] g' m2 ∧ unfilled g'.
Proof.
  intros Hi Hh Hkd Hok Hst.
  destruct (deref_ok_inv D m t Hok) as (s & y & k & p & Hs & Hy & Hw & Hf & Ho & Hk & Hsy & Hpt & Hc & _ & Hp & Hp0 & Hp1 & Hcl).
  destruct (stored_inv m t bs m2 Hf Hst) as (a & Hloc & Hlen & Hwr).
  rewrite (location_deref m t s p) in Hloc by (done || lia). injection Hloc as <-.
  destruct (word_types _ Hw) as (kd & kv & Hkt & Hkv & Hsz & _ & _ & Hsu & _).
  destruct (word_size _ _ _ _ _ Hkt Hlen) as (Hl & _ & Hisz).
  destruct (symbol_ok_spec _ _ Hsy) as ((nm & Hnm) & _).
  assert (Hwo : wrap_s 32 (v_offset t) = v_offset t) by (apply wrap_s_small; simpl; lia).
  unfold vm_store_var, emit_vm_deref_store, var_address, value_optype.
  rewrite Hkd, Hs, (inv_symbols _ _ _ _ Hi). cbn [get_symbol]. rewrite Hy. cbn [defined mbind outcome_bind].
  rewrite Hisz. cbn [mbind outcome_bind]. rewrite Hnm, Hsu, Hwo. cbn [mbind outcome_bind].
  eexists. split; [done|]. split; [|apply unfilled_emit; [by eapply inv_mode|done]].
  rewrite restored_other by (by rewrite Hkd).
  eapply inv_emit1; [exact Hi|by apply tidy_other|]. intros st Hsm.
  destruct (sim_mload E depth ts ys M sp0 bp gp D [w] st m (addr M s) U64 p Hsm Hc Hp) as (v & Hv & Hvh & Hvl).
  assert (v = le_dec p) as ->.
  { apply holds_word; [done| |done]. rewrite <-(mload_conv _ _ _ _ Hv). apply (wrap_u_range 64). lia. }
  eapply (turn_depop E depth ts ys M sp0 bp gp D D w [] st m m2 _ kv _ (le_dec p) bs Hsm); try done; simpl; try lia.
  - simpl. rewrite <-Hv. f_equal. rewrite (layout _ _ Hy). unfold VmRun.gbp. simpl.
    rewrite (sim_bp _ _ _ _ _ _ _ _ _ _ _ _ Hsm), (sim_gp _ _ _ _ _ _ _ _ _ _ _ _ Hsm). by destruct (is_global_var y).
  - intros x Hx. by left.
Qed.

(** A store of zero. *)
Lemma constant_zero_bytes e m σ bs : is_constant_zero e = true → v_symbol (ex_l e) = None → is_word (ex_type e) = true →
  compute (m, []) e = Some (σ, bs) → σ = (m, []) ∧ bs = replicate (length bs) 0.
Proof.
  unfold is_constant_zero, is_constant_imm. rewrite !andb_true_iff. intros [[[Ho Hk] _] Hz] Hs Hw Hc.
  apply bool_decide_eq_true in Ho, Hk. unfold IrSem.compute in Hc. rewrite Ho in Hc. simpl in Hc.
  apply bind_Some in Hc as (bl & Hl & Hc). apply bind_Some in Hc as (v & Hv & [= <- <-]). split; [done|].
  unfold eval in Hl. rewrite Hk, Hs in Hl. apply bind_Some in Hl as (n & Hn & [= <-]).
  rewrite Hoperate in Hv. unfold c_operate in Hv. apply bind_Some in Hv as (ks & Hks & Hv).
  apply bind_Some in Hv as (kd & Hkd & Hv). rewrite Ho in Hv. cbn [mbind option_bind] in Hv. injection Hv as <-.
  destruct (word_size _ _ _ _ _ Hks Hn) as (-> & _).
  assert (Ha : conv ks (le_dec (le_enc (isize ks) (v_imm (ex_l e)))) = 0).
  { rewrite le_dec_enc, <-iwidth_isize. transitivity (conv ks (wrap_s 64 (v_imm (ex_l e)))).
    - apply conv_proper. pose proof (iwidth_pos ks). rewrite eqm_wrap_u by lia. symmetry.
      apply (eqm_le _ 64); [lia|]. apply eqm_wrap_s. lia.
    - assert (wrap_s 64 (v_imm (ex_l e)) = 0) as -> by lia. by destruct ks. }
  rewrite Ha. assert (Hc0 : (if is_bool (v_type (ex_l e)) then 0 else c_int_cast (ex_type e) 0) = 0).
  { unfold c_int_cast. destruct (is_bool _), (is_bool (ex_type e)); try done. rewrite Hkd. by destruct kd. }
  rewrite Hc0, length_le_enc. by destruct kd.
Qed.

Lemma fill_ok D g m t bs m2 : inv D [] g m → unfilled g → v_kind t = DIRECT → direct_ok [] t = true →
  store depth ts M m t bs = Some m2 → bs = replicate (length bs) 0 →
  ∃ g', emit_vm_fill_zero depth ts t g = Ok g' ∧ inv (restored t D) [] g' m2.
Proof.
  intros Hi Hun Hkd Hok Hst Hz.
  destruct (direct_ok_inv [] t Hok) as (s & y & k & n & Hs & Hy & Hw & Hf & Hk & Hsy & _ & _ & _).
  destruct (stored_inv m t bs m2 Hf Hst) as (a & Hloc & Hlen & Hwr). unfold location in Hloc. rewrite Hkd, Hs in Hloc.
  injection Hloc as <-. destruct (word_types _ Hw) as (kd & kv & Hkt & Hkv & Hsz & _).
  destruct (word_size _ _ _ _ _ Hkt Hlen) as (Hl & _ & Hisz).
  destruct (address_of_ok g t s y (Z.of_nat (isize kd)) (inv_symbols _ _ _ _ Hi) Hs Hy Hsy) as (nm & Ha).
  pose proof Ha as Hix. unfold address_of in Hix. apply bind_ok_inv in Hix as (i & Hix & _).
  unfold emit_vm_fill_zero. rewrite Hisz, Hix. cbn [mbind outcome_bind]. rewrite (inv_mode _ _ _ _ Hi). cbn [negb orb].
  destruct Hi as (l & st0 & Hi). destruct (inv_last _ _ _ _ _ _ Hi) as (c & Hc & _). rewrite Hc. cbn [mbind outcome_bind].
  rewrite bool_decide_eq_false_2.
  2:{ apply Hun. unfold code_of_mode, back in Hc. rewrite (gi_mode _ _ _ _ _ _ Hi) in Hc. by apply defined_ok_inv in Hc. }
  cbn [mbind outcome_bind]. rewrite Ha. cbn [mbind outcome_bind].
  eexists. split; [done|]. eapply (inv_emit1 D (restored t D) [] []); [by exists l, st0|by apply tidy_other|]. intros st Hsm.
  pose proof (at_var_place D [] st m s y nm (v_offset t) (Z.of_nat (isize kd)) None Hsm Hy) as Hat.
  eapply (turn_fzero E depth ts ys M sp0 bp gp D (restored t D) [] st m m2 _ kd _ Hsm); try done; rewrite ?Hat; simpl; try lia.
  - by rewrite <-Hl, <-Hz.
  - intros x Hx. eapply restored_stale; try done. by rewrite Hlen, Hl.
Qed.

Lemma store_direct t bs m m2 : v_kind t ≠ DEREF → store depth ts M m t bs = Some m2 → v_kind t = DIRECT.
Proof. unfold store, location. intros Hk H. by destruct (v_kind t), (v_symbol t). Qed.

(** [gen_statement]. *)
Lemma statement_ok_gen D g m s m2 ps : inv D [] g m → (is_fill s = true → unfilled g) →
  statement_ok depth ts ys labels M D m s = true → exec depth ts ys M (m, []) s = Some (m2, ps) →
  ps = [] ∧ ∃ g', gen_statement depth ts s g = Ok g' ∧ inv (restored (st_t s) (spent_by ys (st_expr s) ++ D)) [] g' m2 ∧
    (is_fill s = false → unfilled g').
Proof.
  intros Hi Hun Hok Hex. unfold statement_ok in Hok. apply andb_true_iff in Hok as [Hk Hok].
  apply bool_decide_eq_true in Hk. unfold exec in Hex. rewrite Hk in Hex.
  apply bind_Some in Hex as ([σ bs] & Hc & Hex). apply bind_Some in Hex as (m1 & Hst & [= <- <-]).
  assert (Hargs : g_args g = []) by (destruct Hi as (? & ? & []); done).
  unfold gen_statement. rewrite Hargs, Hk. cbn [bool_decide negb andb]. rewrite bool_decide_eq_true_2 by done.
  cbn [negb andb mbind outcome_bind]. unfold gen_assign.
  set (e := st_expr s) in *. set (t := st_t s) in *. destruct (is_fill s) eqn:Hfl.
  - rewrite !andb_true_iff in Hok. destruct Hok as [[Hd Hs] Hw]. apply bool_decide_eq_true in Hs.
    unfold is_fill in Hfl. fold e t in Hfl. apply andb_true_iff in Hfl as [Hz Hnd].
    destruct (constant_zero_bytes e m σ bs Hz Hs Hw Hc) as [-> Hbs]. split; [done|]. simpl in Hst.
    pose proof Hnd as Hnd'. apply negb_true_iff, bool_decide_eq_false in Hnd'.
    destruct (direct_ok_inv [] t Hd) as (? & ? & ? & ? & _ & _ & Hwt & Hf & _).
    destruct (word_types _ Hwt) as (? & ? & _ & _ & _ & _ & _ & _ & _ & Hv & _).
    rewrite Hf, Hv, Hz, Hnd. cbn [negb andb].
    destruct (fill_ok D g m t bs m1 Hi (Hun eq_refl) (store_direct t bs m m1 Hnd' Hst) Hd Hst Hbs) as (g' & Hg & Hi').
    exists g'. split; [done|]. split; [|done].
    assert (spent_by ys e = []) as ->; [|done]. unfold is_constant_zero, is_constant_imm in Hz. rewrite !andb_true_iff in Hz.
    destruct Hz as [[[Ho Hkl] _] _]. apply bool_decide_eq_true in Ho, Hkl.
    unfold spent_by, VmGenSem.spent. by rewrite Ho, Hkl.
  - rewrite !andb_true_iff in Hok. destruct Hok as [[Heo Hop] Hwo].
    destruct (expr_ok D (set_protect (match v_symbol t with Some s' => match ys !! s' with Some y =>
      is_temporary_var y && bool_decide (v_kind t = DEREF) | None => false end | None => false end) g) m e σ bs)
      as [-> (g1 & w & Hg1 & Hi1 & Hh)]; [by apply inv_protect|done..|]. split; [done|]. simpl in Hst.
    assert (Hsto : ∃ g2 s' y, v_symbol t = Some s' ∧ ys !! s' = Some y ∧ is_field t = false ∧ is_word (v_type t) = true ∧
      vm_store_var depth ts t g1 = Ok g2 ∧ inv (restored t (spent_by ys e ++ D)) [] g2 m1 ∧ unfilled g2).
    { unfold write_ok in Hwo. destruct (v_kind t) eqn:Hkt; try done.
      - destruct (store_direct_ok _ g1 m t w bs m1 Hi1 Hh Hkt Hwo Hst) as (g2 & H1 & H2 & H3).
        destruct (direct_ok_inv [] t Hwo) as (s' & y & ? & ? & ? & ? & ? & ? & _). by exists g2, s', y.
      - destruct (store_deref_ok _ g1 m t w bs m1 Hi1 Hh Hkt Hwo Hst) as (g2 & H1 & H2 & H3).
        destruct (deref_ok_inv _ m t Hwo) as (s' & y & ? & ? & ? & ? & ? & ? & _). by exists g2, s', y. }
    destruct Hsto as (g2 & s' & y & Hs' & Hy & Hf & Hwt & Hg2 & Hi2 & Hun2).
    destruct (word_types _ Hwt) as (? & ? & _ & _ & _ & _ & _ & _ & _ & Hv & Ha).
    assert (Hnz : is_constant_zero e && negb (bool_decide (v_kind t = DEREF)) = false) by done.
    rewrite Hf, Hv. cbn [negb andb]. rewrite Hnz, Ha. cbn [andb].
    rewrite (inv_symbols _ _ _ _ Hi), Hs'. cbn [get_symbol]. rewrite Hy. cbn [defined mbind outcome_bind].
    rewrite Hs', Hy in Hg1. rewrite Hg1. cbn [mbind outcome_bind]. rewrite Hg2. cbn [mbind outcome_bind].
    exists (set_protect false g2). split; [done|]. split; [by apply inv_protect|]. intros _ c Hc'. by apply Hun2.
Qed.

Lemma code_ok_gen code : ∀ D g m filled m', inv D [] g m → (filled = false → unfilled g) →
  code_ok depth ts ys labels M D m filled code = true →
  IrSem.exec_code depth ts ys M (m, []) code = Some (m', []) →
  ∃ g', gen_code depth ts code g = Ok g' ∧ inv (spent_in depth ts ys D code) [] g' m'.
Proof.
  induction code as [|s code IH]; intros D g m filled m' Hi Hun Hok Hex; simpl in *.
  { injection Hex as <-. by exists g. }
  apply bind_Some in Hex as ([m1 ps] & Hs & Hex). rewrite !andb_true_iff in Hok. destruct Hok as [[Hfl Hso] Hok].
  rewrite Hs in Hok. destruct (statement_ok_gen D g m s m1 ps Hi) as (-> & g1 & Hg1 & Hi1 & Hun1); try done.
  { intros Hf. rewrite Hf, andb_true_r in Hfl. apply Hun. by apply negb_true_iff. }
  rewrite Hg1. cbn [mbind outcome_bind]. by eapply IH.
Qed.
End code.
