(* ===== verification/VmGenSpec.v ===== *)
(** * Theorems on the code generator

    The assignments of a block, compiled and run; and what the generator gets
    wrong, on concrete blocks. *)

From stdpp Require Import base list gmap numbers decidable strings relations.
From Stdlib Require Import ZArith Lia.
From S2P Require Import Prelude Memory CType Floats CArith Strings Symbol Typetree Ir IrSem OptimizeRuns VmInstr VmRun VmProps VmMove VmImage VmLink VmGen VmGenSem VmGenProps VmGenCode.

Local Open Scope Z_scope.

(** The instructions [l] are at [ip]. *)
Definition code_at (E : vm_env) (ip : Z) (l : list vm_code) : Prop :=
  ∀ i c, l !! i = Some c → VmRun.fetch E (ip + Z.of_nat i) = Ok c.

Lemma turns_steps `{FA : FloatArith} E l s s' : turns E l s s' →
  s_ip s' = s_ip s + Z.of_nat (length l) ∧ (code_at E (s_ip s) l → nsteps (vstep E) (length l) s s').
Proof.
  induction 1 as [s|c l s s1 s2 [He Hip] Hr [IHi IHs]]; simpl.
  - split; [lia|]. intros _. constructor.
  - split; [lia|]. intros Hc. econstructor.
    + eapply fetch_step; [|exact He]. rewrite <-(Z.add_0_r (s_ip s)). by apply (Hc O c).
    + apply IHs. intros i c' Hi. rewrite Hip. replace (s_ip s + 1 + Z.of_nat i) with (s_ip s + Z.of_nat (S i)) by lia.
      by apply (Hc (S i)).
Qed.

(** C1: Compiling assignments.  The instructions that [gen_code] appends for
    the assignments [code], run by the interpreter from a state whose memory
    agrees with [m] but for the used-up temporaries [D], reach a state whose
    memory agrees with the result of the assignments by their C meaning, with
    the stack pointer and the frame where they were; whatever pops the
    peepholes of [emit_vm_load] drop or turn into stores, and in whatever order
    the operands are pushed. *)
Theorem gen_code_correct `{FA : FloatArith} E depth ts ys M sp0 bp gp D g s m m' code :
  (∀ e l r, operate M e l r = c_operate e l r) →
  (∀ x y, ys !! x = Some y → addr M x = e_stack E + (if is_global_var y then gp else bp) + base_of y) →
  g_mode g = false → g_symbols g = ys → g_args g = [] →
  (∃ c, last (g_code g) = Some c ∧ c_opcode c ≠ VM_POP ∧ c_opcode c ≠ VM_FZERO) →
  sim E depth ts ys M sp0 bp gp D [] s m →
  code_ok depth ts ys (g_labels g) M D m false code = true →
  IrSem.exec_code depth ts ys M (m, []) code = Some (m', []) →
  ∃ g' l s', gen_code depth ts code g = Ok g' ∧ g_code g' = g_code g ++ l ∧
    sim E depth ts ys M sp0 bp gp (spent_in depth ts ys D code) [] s' m' ∧
    s_ip s' = s_ip s + Z.of_nat (length l) ∧ (code_at E (s_ip s) l → nsteps (vstep E) (length l) s s').
Proof.
  intros Hop Hlay Hm Hy Ha Hlast Hsim Hok Hex.
  assert (Hi : inv E depth ts ys (g_labels g) M sp0 bp gp (g_code g) s D [] g m).
  { exists [], s. split; try done; [by rewrite app_nil_r|constructor]. }
  destruct (code_ok_gen E depth ts ys (g_labels g) M sp0 bp gp (g_code g) s Hlast
    (sim_ok _ _ _ _ _ _ _ _ _ _ _ _ Hsim) Hlay Hop code D g m false m' Hi) as (g' & Hg & l & s' & Hi'); try done.
  { intros _ c Hc. destruct Hlast as (c' & Hc' & _ & Hf). congruence. }
  destruct (turns_steps E l s s' (gi_runs _ _ _ _ _ _ _ _ _ _ _ _ _ _ _ _ _ Hi')) as [Hip Hsteps].
  exists g', l, s'. split; [done|]. split; [exact (gi_code _ _ _ _ _ _ _ _ _ _ _ _ _ _ _ _ _ Hi')|].
  split; [exact (gi_sim _ _ _ _ _ _ _ _ _ _ _ _ _ _ _ _ _ Hi')|]. done.
Qed.

(** ** An instance *)

(** Locals [int x, y; int *p;] and an [int] temporary, in 8 bytes each. *)
Definition local (name : list Z) (t : ctype) (n o : Z) : symbol :=
  Symbol (str_init [] name).2 t SYM_DEFINITION LINK_NONE 0 0 0 n 1 o (-1) NoValue.
Definition gen_symbols : symbols := list_to_map [
  (1%N, local (cstr "x") basic_type__int 0 0);
  (2%N, local (cstr "y") basic_type__int 0 8);
  (3%N, local (cstr "p") (pointer_to basic_type__int) 0 16);
  (4%N, local (cstr ".t") basic_type__int 1 24) ].

Definition gx := direct 1%N basic_type__int.
Definition gy := direct 2%N basic_type__int.
Definition gt := direct 4%N basic_type__int.
Definition at_p : var := Var DEREF basic_type__int (Some 3%N) 0 0 0 true 0.
Definition op2 (o : Ir.optype) (a b : var) : expression := Expression o basic_type__int a b.

(** [t = x + y; x = y * t; *p = x - 1; t = *p; y = t << 2; x = 0;] *)
Definition gen_block : list statement :=
  [assign gt (op2 IR_OP_ADD gx gy); assign gx (op2 IR_OP_MUL gy gt);
   assign at_p (op2 IR_OP_SUB gx (immediate 1)); assign gt (as_expr at_p);
   assign gy (op2 IR_OP_SHL gt (immediate 2)); assign gx (as_expr (immediate 0))].

(** The frame is at 4112, and the stack pointer 32 bytes above it. *)
Definition gen_machine : machine :=
  Machine (λ s, match gen_symbols !! s with Some y => 4096 + (if is_global_var y then 8 else 16) + base_of y | None => 0 end)
    c_operate (λ _ bs, bs) (λ _ _ bs, bs) (λ _ _, false) (λ _ _ _ _, None).
(** [x = 5], [y = -7], and [p] points to [y]. *)
Definition gen_bytes : list Z := le_enc 8 5 ++ le_enc 4 (-7) ++ le_enc 4 0 ++ le_enc 8 4120 ++ le_enc 8 0.
Definition gen_memory : mem := mblock 4112 gen_bytes.
Definition gen_machine_state : vm_state :=
  VmState (mblock 4096 (replicate 16 0 ++ gen_bytes ++ replicate 24 0)) 0 48 16 8 0 None.
Definition gen_begin : genstate :=
  emit_vm_enter 32 (GenState false false [] [] [] [] 0 [] 0 gen_symbols ∅).

(** The peepholes at work: the temporary is never stored, the operands of the
    multiplication change places, and [x] stays on the stack. *)
Example gen_block_code :
  (λ g, (λ c, (c_opcode c, c_type c)) <$> g_code g) <$> to_option (gen_code 4 [] gen_block gen_begin) =
  Some [(VM_ENTER, VMOP_NONE);
        (VM_PUSH, VMOP_VARI); (VM_PUSH, VMOP_VARI); (VM_ADD, VMOP_INT32);
        (VM_PUSH, VMOP_VARI); (VM_MUL, VMOP_INT32); (VM_STORE, VMOP_INT32);
        (VM_DEC, VMOP_INT32); (VM_DEPOP, VMOP_INT32);
        (VM_PUSH, VMOP_VARI); (VM_DEREF, VMOP_INT32);
        (VM_PUSH, VMOP_INT32); (VM_SHL, VMOP_INT32); (VM_POP, VMOP_INT32);
        (VM_FZERO, VMOP_NONE)].
Proof. vm_compute. reflexivity. Qed.

Lemma gen_layout x y : gen_symbols !! x = Some y →
  addr gen_machine x = e_stack (demo_env []) + (if is_global_var y then 8 else 16) + base_of y.
Proof. intros H. simpl. by rewrite H. Qed.

Lemma mem_sub_compute (m m' : mem) : map_Forall (λ a b, m' !! a = Some b) m → ∀ a b, m !! a = Some b → m' !! a = Some b.
Proof. intros H a b Ha. by apply (H a b). Qed.

Lemma gen_sim : sim (demo_env []) 4 [] gen_symbols gen_machine 48 16 8 [] [] gen_machine_state gen_memory.
Proof.
  split; [done|done|done| | |done| |].
  - apply mem_ok_compute. vm_compute. reflexivity.
  - apply mapped_compute. vm_compute. reflexivity.
  - intros a b Ha. assert (H : s_mem gen_machine_state !! a = Some b).
    { revert a b Ha. apply mem_sub_compute. apply (bool_decide_eq_true_1 _). vm_compute. reflexivity. }
    rewrite H. by split.
  - intros a [b Ha]. cut (a < 4144); [simpl; lia|]. revert a b Ha.
    apply (map_Forall_impl (λ a _, bool_decide (a < 4144) = true)).
    + apply (bool_decide_eq_true_1 _). vm_compute. reflexivity.
    + intros a b H. by apply bool_decide_eq_true in H.
Qed.

(** The memory behind the block. *)
Definition gen_after : mem :=
  match IrSem.exec_code 4 [] gen_symbols gen_machine (gen_memory, []) gen_block with Some (m, _) => m | None => ∅ end.

Lemma gen_block_runs :
  IrSem.exec_code 4 [] gen_symbols gen_machine (gen_memory, []) gen_block = Some (gen_after, []).
Proof. vm_compute. reflexivity. Qed.

Lemma gen_code_correct_witness : ∃ g' l s',
  gen_code 4 [] gen_block gen_begin = Ok g' ∧ g_code g' = g_code gen_begin ++ l ∧
  sim (demo_env []) 4 [] gen_symbols gen_machine 48 16 8 [4%N] [] s' gen_after ∧
  mread gen_after 4112 4 = Some (le_enc 4 0) ∧ mread gen_after 4120 4 = Some (le_enc 4 52).
Proof.
  destruct (gen_code_correct (demo_env []) 4 [] gen_symbols gen_machine 48 16 8 [] gen_begin gen_machine_state
    gen_memory gen_after gen_block) as (g' & l & s' & Hg & Hl & Hs & _).
  - intros e l r. reflexivity.
  - exact gen_layout.
  - reflexivity.
  - reflexivity.
  - reflexivity.
  - exists (mkcode VM_ENTER VMOP_NONE (DSize 32)). split; [reflexivity|]. split; discriminate.
  - exact gen_sim.
  - vm_compute. reflexivity.
  - exact gen_block_runs.
  - exists g', l, s'. split; [exact Hg|]. split; [exact Hl|]. split; [exact Hs|]. split; vm_compute; reflexivity.
Defined.

(** ** What is generated wrong *)

(** Equality of wide operands.  For operands that are not floating-point,
    whatever their size, [vm_gen_expr] ends [==] with an instruction that
    compares the low 32 bits of the two words: the type of the comparison is
    [int], and the operands are taken at the type of the result. *)
Theorem equality_compares_32_bits `{FA : FloatArith} E depth ts e g g' :
  ex_op e = IR_OP_EQ → ex_type e = basic_type__int → is_real (v_type (ex_l e)) = false → g_mode g' = false →
  vm_gen_expr depth ts e g = Ok g' →
  ∃ c, last (g_code g') = Some c ∧ ∀ s va vb, word E s (-16) = Some va → word E s (-8) = Some vb →
    ∃ m', VmRun.exec_code E c s = Ok (Running (next (set_sp (s_sp s - 8) (set_mem m' s)))) ∧
      upd64 (s_mem s) m' (at_sp E (-16) s) (Z.b2z (conv I32 va =? conv I32 vb)).
Proof.
  intros Ho Ht Hr Hm Hg. unfold vm_gen_expr in Hg. rewrite Ho, Hr, Ht in Hg. cbn [andb] in Hg.
  unfold GEN_2OP_SWAP_CHECK in Hg. apply bind_ok_inv in Hg as (w & _ & Hg). apply bind_ok_inv in Hg as (g1 & _ & Hg).
  injection Hg as <-. exists (mkcode VM_EQ VMOP_INT32 DNone).
  unfold emit_vm_op, emit_vm_code in *. destruct (g_mode g1) eqn:Hm1; simpl in Hm; [congruence|].
  split; [simpl; by rewrite last_snoc|]. intros s va vb Ha Hb.
  pose proof (OP2I_word E (ICmp CEq) I32 s va vb Ha Hb) as H. simpl in H. destruct H as (m' & H & Hu).
  exists m'. split; [|done]. rewrite (exec_int_binop E (ICmp CEq) _ s I32) by done. by rewrite H.
Qed.

(** [long] locals [a] and [b]; [a == b]. *)
Definition wide_symbols : symbols := list_to_map [
  (1%N, local (cstr "a") basic_type__long 0 0); (2%N, local (cstr "b") basic_type__long 0 8) ].
Definition wide_begin : genstate :=
  emit_vm_enter 16 (GenState false false [] [] [] [] 0 [] 0 wide_symbols ∅).
Definition wide_equal : expression :=
  op2 IR_OP_EQ (direct 1%N basic_type__long) (direct 2%N basic_type__long).
Definition wide_generated : genstate := default wide_begin (to_option (vm_gen_expr 4 [] wide_equal wide_begin)).

(** [1 << 32] and [0] are equal. *)
Lemma equality_compares_32_bits_witness : ∃ c m', last (g_code wide_generated) = Some c ∧
  VmRun.exec_code (demo_env []) c (demo [2 ^ 32; 0]) = Ok (Running (next (set_sp 8 (set_mem m' (demo [2 ^ 32; 0]))))) ∧
  mload m' 4096 U64 = Some 1.
Proof.
  destruct (equality_compares_32_bits (demo_env []) 4 [] wide_equal wide_begin wide_generated) as (c & Hc & H).
  - reflexivity.
  - reflexivity.
  - vm_compute. reflexivity.
  - vm_compute. reflexivity.
  - vm_compute. reflexivity.
  - destruct (H (demo [2 ^ 32; 0]) (2 ^ 32) 0) as (m' & He & Hv & _).
    + vm_compute. reflexivity.
    + vm_compute. reflexivity.
    + exists c, m'. split; [exact Hc|]. split; [exact He|]. exact Hv.
Defined.

(** Constants of pointer type.  For a constant of pointer type the
    instruction that [vm_load_var] emits pushes the low byte of the constant,
    extended by its sign, in place of the address. *)
Theorem pointer_constant_truncated `{FA : FloatArith} E depth ts v g g' s :
  v_kind v = IMMEDIATE → is_pointer (v_type v) = true → is_unsigned (v_type v) = false → v_symbol v = None →
  g_mode g = false → vm_load_var depth ts v g = Ok g' → mapped (s_mem s) (at_sp E 0 s) 8 →
  ∃ c m', g_code g' = g_code g ++ [c] ∧
    VmRun.exec_code E c s = Ok (Running (next (set_sp (s_sp s + 8) (set_mem m' s)))) ∧
    mload m' (at_sp E 0 s) U64 = Some (wrap_u 64 (conv I8 (v_imm v))).
Proof.
  intros Hk Hp Hu Hs Hm Hg Hsp. unfold is_pointer, type_is in Hp. apply bool_decide_eq_true in Hp.
  unfold vm_load_var in Hg. rewrite Hk, Hp, Hs in Hg. unfold push_number in Hg. rewrite Hp, Hu in Hg. injection Hg as <-.
  exists (mkcode VM_PUSH VMOP_INT8 (DImm (ImmBits (wrap_u 8 (v_imm v))))).
  destruct (exec_push_imm E (mkcode VM_PUSH VMOP_INT8 (DImm (ImmBits (wrap_u 8 (v_imm v))))) s I8 _
    eq_refl eq_refl eq_refl Hsp) as (m' & He & Hpu).
  exists m'. split; [unfold emit_vm_push_imm, emit_vm_code; by rewrite Hm|]. split; [exact He|].
  rewrite (mload_mstore_same _ _ _ _ _ Hpu). f_equal. change (conv U64) with (wrap_u 64). f_equal.
  apply conv_proper. by apply eqm_wrap_u.
Qed.

(** [(int * )0x1234] is the address 0x34. *)
Definition pointer_constant : var := Var IMMEDIATE (pointer_to basic_type__int) None 0 0 0 false 0x1234.

Lemma pointer_constant_truncated_witness : ∃ c m',
  VmRun.exec_code (demo_env []) c (demo []) = Ok (Running (next (set_sp 8 (set_mem m' (demo []))))) ∧
  mload m' 4096 U64 = Some 0x34.
Proof.
  destruct (pointer_constant_truncated (demo_env []) 4 [] pointer_constant wide_begin
    (default wide_begin (to_option (vm_load_var 4 [] pointer_constant wide_begin))) (demo [])) as (c & m' & _ & He & Hv).
  - reflexivity.
  - vm_compute. reflexivity.
  - vm_compute. reflexivity.
  - reflexivity.
  - reflexivity.
  - vm_compute. reflexivity.
  - apply mapped_compute. vm_compute. reflexivity.
  - exists c, m'. split; [exact He|exact Hv].
Defined.

(** Stores of zero to neighbours.  [emit_vm_fill_zero] joins the fills of
    consecutive places into one instruction, and the interpreter does nothing
    for 3, 5, 6 or 7 bytes: zeroing three one-byte members one after another
    leaves the memory of every machine as it was. *)
Theorem neighbours_not_zeroed `{FA : FloatArith} :
  let member o := Var DIRECT basic_type__char (Some 1%N) o 0 0 true 0 in
  let zero := Expression IR_OP_CAST basic_type__char (immediate 0) (immediate 0) in
  ∃ g' c, gen_code 4 [] [assign (member 0) zero; assign (member 1) zero; assign (member 2) zero] gen_begin = Ok g' ∧
    g_code g' = g_code gen_begin ++ [c] ∧
    ∀ E s, VmRun.exec_code E c s = Ok (Running (next s)).
Proof.
  intros member zero. eexists _, (mkcode VM_FZERO VMOP_NONE (DAddr (VmAddress (cstr "x") false 0 0 0 3 None))).
  split; [vm_compute; reflexivity|]. split; [vm_compute; reflexivity|]. intros E s. reflexivity.
Qed.

Definition mixed_symbols : symbols := list_to_map [
  (1%N, Symbol (str_init [] (cstr "g")).2 basic_type__int SYM_DEFINITION LINK_EXTERN 0 0 0 0 0 0 0 NoValue);
  (2%N, local (cstr "x") basic_type__int 0 4) ].
Definition mixed_begin : genstate :=
  emit_vm_enter 8 (GenState false false [] [] [] [] 0 [] 0 mixed_symbols ∅).

(** Stores of zero to globals and locals: [emit_vm_fill_zero] does not
    compare where the two places are: after a store of zero to a global at
    offset 0, one to the local at offset 4 of the frame becomes a fill of
    eight bytes of the global area, and no instruction writes the local. *)
Theorem fill_leaves_the_frame :
  let zero v := assign v (as_expr (immediate 0)) in
  ∃ g', gen_code 4 [] [zero (direct 1%N basic_type__int); zero (direct 2%N basic_type__int)] mixed_begin = Ok g' ∧
    g_code g' = g_code mixed_begin ++ [mkcode VM_FZERO VMOP_NONE (DAddr (VmAddress (cstr "g") true 0 0 0 8 None))].
Proof. intros zero. eexists. split; vm_compute; reflexivity. Qed.

(** A variable behind a constant address has no symbol; reading it or storing
    to it reads the name of a null symbol. *)
Lemma constant_address_crashes `{FA : FloatArith} depth ts v e g :
  v_kind v = DEREF → v_symbol v = None → is_array (v_type v) = false →
  vm_load_var depth ts v g = Undef "null symbol" ∧ gen_assign depth ts (assign v e) g = Undef "null symbol".
Proof.
  intros Hk Hs Ha. unfold vm_load_var, gen_assign. simpl. rewrite Hk, Hs, Ha. split; [done|].
  by rewrite (bool_decide_eq_true_2 (DEREF = DEREF)), !andb_false_r by done.
Qed.
