(* ===== verification/VmGenNode.v ===== *)
(** * The walk over the blocks of a function

    [vm_gen_node] follows the jumps of a flow graph, which may have cycles: the
    color of a block, set before its successors are visited, ends the walk.
    What is shown here: one unit of fuel per block is enough, and every block
    that is visited gets its code and its label once. *)

From stdpp Require Import base list gmap numbers decidable strings.
From Stdlib Require Import ZArith Lia.
From S2P Require Import Prelude CType Floats VmInstr VmImage VmLink Strings Symbol Typetree Symtab Ir VmGen.

Local Open Scope Z_scope.

(** The message of the recursion on blocks that has no fuel left. *)
Definition out_of_fuel : string := "blocks out of fuel".

(** ** Values that fail with other messages *)

Definition mild {A} (o : outcome A) : Prop := match o with Undef e => e ≠ out_of_fuel | _ => True end.

(** A step of the generator that keeps the blocks and the labels. *)
Definition calm (g : genstate) (o : outcome genstate) : Prop :=
  match o with
  | Ok g' => g_blocks g' = g_blocks g ∧ g_labels g' = g_labels g
  | Exit _ => True
  | Undef e => e ≠ out_of_fuel
  end.

Create HintDb calm.

Lemma mild_bind {A B} (m : outcome A) (f : A → outcome B) : mild m → (∀ a, mild (f a)) → mild (m ≫= f).
Proof. intros Hm Hf. destruct m; [apply Hf|exact I|exact Hm]. Qed.
Lemma calm_bind_v {A} g (m : outcome A) f : mild m → (∀ a, calm g (f a)) → calm g (m ≫= f).
Proof. intros Hm Hf. destruct m; [apply Hf|exact I|exact Hm]. Qed.
Lemma calm_bind g o f : calm g o → (∀ g', calm g' (f g')) → calm g (o ≫= f).
Proof.
  intros Ho Hf. destruct o as [g'| |]; simpl in *; auto. specialize (Hf g').
  destruct (f g'); simpl in *; auto. destruct Ho, Hf. split; congruence.
Qed.
Lemma calm_ok g g' : g_blocks g' = g_blocks g → g_labels g' = g_labels g → calm g (Ok g').
Proof. by split. Qed.
(** From a state with the same blocks and labels. *)
Lemma calm_from g g' o : g_blocks g' = g_blocks g → g_labels g' = g_labels g → calm g' o → calm g o.
Proof. intros Hb Hl. unfold calm. by rewrite Hb, Hl. Qed.

Lemma mild_defined {A} e (o : option A) : e ≠ out_of_fuel → mild (defined e o).
Proof. by destruct o. Qed.
Lemma mild_assert b : mild (c_assert b).
Proof. by destruct b. Qed.

Ltac mild_step :=
  match goal with
  | |- True => exact I
  | |- mild (Ok _) => exact I
  | |- mild (Exit _) => exact I
  | |- mild (Undef _) => discriminate
  | |- mild (defined _ _) => apply mild_defined; discriminate
  | |- mild (c_assert _) => apply mild_assert
  | |- mild (_ ≫= _) => apply mild_bind; [|intros ?]
  | |- mild (match ?x with _ => _ end) => destruct x
  | |- mild (let '_ := ?x in _) => destruct x
  | |- _ => solve [eauto with calm nocore]
  end.
Ltac mild_tac := repeat mild_step.

Lemma mild_handle ts r : mild (get_typetree_handle ts r).
Proof. unfold get_typetree_handle. mild_tac. Qed.
#[export] Hint Resolve mild_handle : calm.
Lemma mild_size_of n ts t : mild (size_of n ts t).
Proof.
  revert t. induction n as [|n IH]; intros t; simpl; [discriminate|]. destruct (type_of t); mild_tac.
Qed.
#[export] Hint Resolve mild_size_of : calm.
Lemma mild_isize_of n ts t : mild (isize_of n ts t).
Proof. unfold isize_of. mild_tac. Qed.
Lemma mild_type_handle ts r : mild (get_type_handle ts r).
Proof. unfold get_type_handle. mild_tac. Qed.
#[export] Hint Resolve mild_type_handle : calm.
Lemma mild_type_next ts t : mild (type_next ts t).
Proof. unfold type_next, type_deref. mild_tac. Qed.
Lemma mild_members eq f l k : (∀ a b, mild (eq a b)) → mild (members_equal eq f l k).
Proof.
  intros He. revert k. induction l as [|a l IH]; intros [|b k]; simpl; mild_tac.
Qed.
Lemma mild_type_equal n ts a b : mild (type_equal n ts a b).
Proof.
  revert a b. induction n as [|n IH]; intros a b; simpl; [discriminate|]. unfold typetree_equal. mild_tac.
  by apply mild_members.
Qed.
#[export] Hint Resolve mild_isize_of mild_type_next mild_type_equal : calm.

Lemma mild_symbol ys s : mild (get_symbol ys s).
Proof. unfold get_symbol. mild_tac. Qed.
Lemma mild_block bs b : mild (get_block bs b).
Proof. unfold get_block. mild_tac. Qed.
Lemma mild_sym_name y : mild (Symtab.sym_name y).
Proof. unfold Symtab.sym_name. mild_tac. Qed.
Lemma mild_d_addr c : mild (d_addr c).
Proof. unfold d_addr. mild_tac. Qed.
Lemma mild_d_size c : mild (d_size c).
Proof. unfold d_size. mild_tac. Qed.
Lemma mild_back l : mild (back l).
Proof. unfold back. mild_tac. Qed.
Lemma mild_string y : mild (symbol_string y).
Proof. unfold symbol_string. mild_tac. Qed.
#[export] Hint Resolve mild_symbol mild_block mild_sym_name mild_d_addr mild_d_size mild_back mild_string : calm.
Lemma mild_direct ys s : mild (var_direct ys s).
Proof. unfold var_direct. mild_tac. Qed.
Lemma mild_address g v i n : mild (var_address g v i n).
Proof. unfold var_address. mild_tac. Qed.
Lemma mild_index g v : mild (var_index g v).
Proof. unfold var_index. mild_tac. Qed.
#[export] Hint Resolve mild_direct mild_address mild_index : calm.
Lemma mild_address_of g v n : mild (address_of g v n).
Proof. unfold address_of. mild_tac. Qed.
Lemma mild_mask w : mild (width_mask w).
Proof. unfold width_mask, shl_ones. mild_tac. Qed.
Lemma mild_hole v : mild (field_hole v).
Proof. unfold field_hole, shl_ones. mild_tac. Qed.
Lemma mild_label g s : mild (label_name g s).
Proof. unfold label_name. mild_tac. Qed.
Lemma mild_pops c y v n : mild (pops c y v n).
Proof. unfold pops. mild_tac. Qed.
#[export] Hint Resolve mild_address_of mild_mask mild_hole mild_label mild_pops : calm.

(** ** The generator *)

(** Instructions do not change blocks and labels. *)
Lemma emit_same c g : g_blocks (emit_vm_code c g) = g_blocks g ∧ g_labels (emit_vm_code c g) = g_labels g.
Proof. unfold emit_vm_code. by destruct (g_mode g). Qed.
Lemma set_back_same c g : g_blocks (set_back c g) = g_blocks g ∧ g_labels (set_back c g) = g_labels g.
Proof. unfold set_back. by destruct (g_mode g). Qed.

Lemma add_offset_same v g : g_blocks (add_offset v g) = g_blocks g ∧ g_labels (add_offset v g) = g_labels g.
Proof.
  unfold add_offset. destruct (_ =? _); [done|]. unfold emit_vm_op, emit_vm_push_imm.
  by rewrite !(proj1 (emit_same _ _)), !(proj2 (emit_same _ _)).
Qed.

Ltac same :=
  repeat match goal with
  | |- context [emit_vm_op ?o ?t ?g] => unfold emit_vm_op
  | |- context [emit_vm_push_imm ?t ?b ?g] => unfold emit_vm_push_imm
  | |- context [if ?b then _ else _] => destruct b
  | |- context [g_blocks (emit_vm_code ?c ?g)] => rewrite (proj1 (emit_same c g))
  | |- context [g_labels (emit_vm_code ?c ?g)] => rewrite (proj2 (emit_same c g))
  | |- context [g_blocks (add_offset ?c ?g)] => rewrite (proj1 (add_offset_same c g))
  | |- context [g_labels (add_offset ?c ?g)] => rewrite (proj2 (add_offset_same c g))
  | |- context [g_blocks (set_back ?c ?g)] => rewrite (proj1 (set_back_same c g))
  | |- context [g_labels (set_back ?c ?g)] => rewrite (proj2 (set_back_same c g))
  end; reflexivity.

Ltac calm_step :=
  match goal with
  | |- True => exact I
  | |- calm _ (Ok _) => apply calm_ok; [same|same]
  | |- _ ∧ _ => split; same
  | |- calm _ (Exit _) => exact I
  | |- calm _ (Undef _) => discriminate
  | |- calm _ (let g := _ in _) => intros ?
  | |- calm _ (match ?x with _ => _ end) => destruct x
  | |- calm _ (@mbind outcome outcome_bind genstate genstate _ _) => apply calm_bind; [|intros ?]
  | |- calm _ (_ ≫= _) => apply calm_bind_v; [mild_tac|intros ?]
  | |- _ => solve [eauto with calm nocore]
  | |- calm ?g (_ ?g') => apply (calm_from g g'); [same|same|]
  end.
Ltac calm_tac := repeat (calm_step; cbv zeta).

Section calm.
Context `{FA : FloatArith}.
Variable depth : nat.
Variable ts : typetab.

Lemma calm_call v g : calm g (emit_vm_call depth ts v g).
Proof. unfold emit_vm_call. calm_tac. Qed.
Lemma calm_ret n g : calm g (emit_vm_ret n g).
Proof. unfold emit_vm_ret. calm_tac. Qed.
Lemma calm_jmp o l n g : calm g (emit_vm_jmp o l n g).
Proof. unfold emit_vm_jmp. calm_tac. Qed.
Lemma calm_push_string s g : calm g (emit_vm_push_string s g).
Proof. unfold emit_vm_push_string. calm_tac. Qed.
Lemma calm_load_address v g : calm g (emit_vm_load_address depth ts v g).
Proof. unfold emit_vm_load_address. calm_tac. Qed.
#[local] Hint Resolve calm_call calm_ret calm_jmp calm_push_string calm_load_address : calm.

Lemma shortcut_calm v n g : match load_shortcut v n g with
  | Ok (Some g') => g_blocks g' = g_blocks g ∧ g_labels g' = g_labels g
  | Undef e => e ≠ out_of_fuel
  | _ => True
  end.
Proof.
  unfold load_shortcut. destruct (get_symbol (g_symbols g) (v_symbol v)) as [y| |e] eqn:Hy; simpl.
  - destruct (_ && _); [|done]. pose proof (mild_back (code_of_mode g)) as Hb.
    destruct (back (code_of_mode g)) as [c| |]; simpl; [|done|done]. destruct (_ && _); [|done].
    pose proof (mild_pops c y v n) as Hp. destruct (pops c y v n) as [[]| |]; simpl; try done.
    destruct (is_temporary_var y); [done|]. apply set_back_same.
  - done.
  - pose proof (mild_symbol (g_symbols g) (v_symbol v)) as H. by rewrite Hy in H.
Qed.
Lemma calm_load v g : calm g (emit_vm_load depth ts v g).
Proof.
  unfold emit_vm_load. apply calm_bind_v; [mild_tac|intros n].
  pose proof (shortcut_calm v n g) as H. destruct (load_shortcut v n g) as [[g'|]| |]; simpl; try done. calm_tac.
Qed.
#[local] Hint Resolve calm_load : calm.
Lemma calm_deref v g : calm g (emit_vm_deref depth ts v g).
Proof. unfold emit_vm_deref. calm_tac. Qed.
Lemma calm_field_zero v g : calm g (vm_store_bitfield_zero depth ts v g).
Proof. unfold vm_store_bitfield_zero. calm_tac. Qed.
Lemma calm_store v g : calm g (emit_vm_store depth ts v g).
Proof. unfold emit_vm_store. calm_tac. Qed.
Lemma calm_deref_store v g : calm g (emit_vm_deref_store depth ts v g).
Proof. unfold emit_vm_deref_store. calm_tac. Qed.
Lemma calm_alloca v g : calm g (emit_vm_alloca depth ts v g).
Proof. unfold emit_vm_alloca. calm_tac. Qed.
Lemma calm_pop v g : calm g (emit_vm_pop depth ts v g).
Proof. unfold emit_vm_pop. calm_tac. Qed.
#[local] Hint Resolve calm_deref calm_field_zero calm_store calm_deref_store calm_alloca calm_pop : calm.
Lemma calm_fill_zero v g : calm g (emit_vm_fill_zero depth ts v g).
Proof.
  unfold emit_vm_fill_zero. apply calm_bind_v; [mild_tac|intros size]. apply calm_bind_v; [mild_tac|intros index].
  destruct (_ || _); simpl; [|calm_tac]. pose proof (mild_back (code_of_mode g)) as Hb.
  destruct (back (code_of_mode g)) as [c| |]; simpl; [|done|done]. case_bool_decide; simpl; [|calm_tac].
  pose proof (mild_d_addr c) as Hd. destruct (d_addr c) as [a| |]; simpl; [|done|done].
  destruct (_ =? _); simpl; [apply set_back_same|calm_tac].
Qed.
#[local] Hint Resolve calm_fill_zero : calm.
Lemma calm_load_var v g : calm g (vm_load_var depth ts v g).
Proof.
  unfold vm_load_var, push_number. calm_tac.
Qed.
Lemma calm_store_var v g : calm g (vm_store_var depth ts v g).
Proof. unfold vm_store_var. calm_tac. Qed.
#[local] Hint Resolve calm_load_var calm_store_var : calm.

Lemma mild_swap v g : mild (is_swap_available depth ts v g).
Proof. unfold is_swap_available. mild_tac. Qed.
#[local] Hint Resolve mild_swap : calm.
Lemma calm_load2 a b g : calm g (load2 depth ts a b g).
Proof. unfold load2. calm_tac. Qed.
#[local] Hint Resolve calm_load2 : calm.
Lemma calm_swap o t e g : calm g (GEN_2OP_SWAP_CHECK depth ts o t e g).
Proof. unfold GEN_2OP_SWAP_CHECK. calm_tac. Qed.
Lemma calm_swap_cmp o o' e g : calm g (GEN_2OP_SWAP_CHECK_CMP depth ts o o' e g).
Proof. unfold GEN_2OP_SWAP_CHECK_CMP. calm_tac. Qed.
Lemma calm_2op o e g : calm g (gen_2op depth ts o e g).
Proof. unfold gen_2op. calm_tac. Qed.
Lemma calm_repeat n o g : calm g (Ok (repeat_op n o g)).
Proof.
  induction n as [|n [Hb Hl]]; [done|]. unfold repeat_op in *. simpl. split; unfold emit_vm_op.
  - by rewrite (proj1 (emit_same _ _)).
  - by rewrite (proj2 (emit_same _ _)).
Qed.
#[local] Hint Resolve calm_swap calm_swap_cmp calm_2op calm_repeat : calm.
Lemma calm_expr e g : calm g (vm_gen_expr depth ts e g).
Proof.
  unfold vm_gen_expr, GEN_2OP_SWAP_CHECK_ADD, emit_vm_cast, emit_vm_cleanup.
  destruct (ex_op e); calm_tac.
Qed.
#[local] Hint Resolve calm_expr : calm.
Lemma calm_push_args es g : calm g (push_args depth ts es g).
Proof. revert g. induction es; intros g; simpl; calm_tac. Qed.
#[local] Hint Resolve calm_push_args : calm.
Lemma calm_PUSH_ARGS g : calm g (PUSH_ARGS depth ts g).
Proof. unfold PUSH_ARGS. calm_tac. Qed.
Lemma calm_elements n i v t z l g : calm g (string_elements depth ts n i v t z l g).
Proof. revert i g. induction n; intros i g; simpl; calm_tac. Qed.
#[local] Hint Resolve calm_PUSH_ARGS calm_elements : calm.
Lemma calm_string_array v e g : calm g (vm_gen_string_array depth ts v e g).
Proof. unfold vm_gen_string_array. calm_tac. Qed.
Lemma calm_field_imm s m g : calm g (store_field_imm depth ts s m g).
Proof. unfold store_field_imm. calm_tac. Qed.
#[local] Hint Resolve calm_string_array calm_field_imm : calm.
Lemma calm_assign s g : calm g (gen_assign depth ts s g).
Proof. unfold gen_assign. calm_tac. Qed.
#[local] Hint Resolve calm_assign : calm.
Lemma calm_statement s g : calm g (gen_statement depth ts s g).
Proof. unfold gen_statement. calm_tac. Qed.
#[local] Hint Resolve calm_statement : calm.
Lemma calm_code l g : calm g (gen_code depth ts l g).
Proof. revert g. induction l; intros g; simpl; calm_tac. Qed.
Lemma calm_table l g : calm g (table_entries l g).
Proof. revert g. induction l; intros g; simpl; calm_tac. Qed.
#[local] Hint Resolve calm_code calm_table : calm.

(** ** The walk *)

Definition white_blocks (bs : blocks) : gset bref := dom (filter (λ kv, b_color kv.2 = WHITE) bs).
Local Abbreviation white g := (white_blocks (g_blocks g)).

(** Blocks are colored, and every colored block has got its label. *)
Definition walk (g : genstate) (o : outcome genstate) : Prop :=
  match o with
  | Ok g' => white g' ⊆ white g ∧
      (length (g_labels g') + size (white g') = length (g_labels g) + size (white g))%nat
  | Exit _ => True
  | Undef e => e ≠ out_of_fuel
  end.

Lemma walk_calm g o : calm g o → walk g o.
Proof. destruct o; simpl; [|done..]. intros [-> ->]. done. Qed.
Lemma walk_bind g o f : walk g o → (∀ g', white g' ⊆ white g → walk g' (f g')) → walk g (o ≫= f).
Proof.
  intros Ho Hf. destruct o as [g'| |]; [|done..]. simpl in *. destruct Ho as [Hs Hl]. specialize (Hf g' Hs).
  destruct (f g') as [g''| |]; [|done..]. simpl in *. destruct Hf. split; [set_solver|lia].
Qed.
Lemma walk_bind_v {A} g (m : outcome A) f : mild m → (∀ a, walk g (f a)) → walk g (m ≫= f).
Proof. intros Hm Hf. destruct m; [apply Hf|exact I|exact Hm]. Qed.

Lemma white_spec bs r : r ∈ white_blocks bs ↔ ∃ b, bs !! r = Some b ∧ b_color b = WHITE.
Proof.
  unfold white_blocks. rewrite elem_of_dom. split.
  - intros [b Hb]. apply map_lookup_filter_Some in Hb as [Hb Hc]. by exists b.
  - intros (b & Hb & Hc). exists b. by apply map_lookup_filter_Some.
Qed.
Lemma white_black bs r b : white_blocks (<[r := set_color b BLACK]> bs) = white_blocks bs ∖ {[r]}.
Proof.
  apply set_eq. intros x. rewrite elem_of_difference, elem_of_singleton, !white_spec.
  destruct (decide (x = r)) as [->|].
  - rewrite lookup_insert_eq. split; [|tauto]. intros (b' & [= <-] & H). discriminate H.
  - rewrite lookup_insert_ne by done. tauto.
Qed.
Lemma white_same bs r b b' : bs !! r = Some b → b_color b' = b_color b →
  white_blocks (<[r := b']> bs) = white_blocks bs.
Proof.
  intros Hb Hc. apply set_eq. intros x. rewrite !white_spec. destruct (decide (x = r)) as [->|].
  - rewrite lookup_insert_eq, Hb. split; intros (c & [= <-] & Hw); eexists; (split; [reflexivity|congruence]).
  - by rewrite lookup_insert_ne.
Qed.

(** A state that [f] gets has fewer white blocks than there is fuel. *)
Definition walker (n : nat) (f : bref → genstate → outcome genstate) : Prop :=
  ∀ r g, (size (white g) < n)%nat → walk g (f r g).

Lemma fewer n g g' : (size (white g) < n)%nat → white g' ⊆ white g → (size (white g') < n)%nat.
Proof. intros H Hs. apply subseteq_size in Hs. lia. Qed.

Lemma walk_next n f r g : walker n f → (size (white g) < n)%nat → walk g (NEXT_BLOCK f r g).
Proof.
  intros Hf Hn. unfold NEXT_BLOCK. apply walk_bind_v; [mild_tac|intros b].
  destruct (b_color b); [by apply Hf|]. apply walk_calm. calm_tac.
Qed.

Lemma walk_each n f rs : walker n f → ∀ g, (size (white g) < n)%nat → walk g (each f rs g).
Proof.
  intros Hf. induction rs as [|r rs IH]; intros g Hn; simpl; [done|].
  apply walk_bind; [by apply Hf|]. intros g' Hs. apply IH. by eapply fewer.
Qed.

Lemma walk_exit n f b g : walker n f → (size (white g) < n)%nat → walk g (gen_exit depth ts f b g).
Proof.
  intros Hf Hn. unfold gen_exit. destruct (b_jump0 b) as [j0|], (b_jump1 b) as [j1|].
  - apply walk_bind; [apply walk_calm; calm_tac|]. intros g1 H1.
    apply walk_bind_v; [mild_tac|intros b1]. apply walk_bind_v; [mild_tac|intros nm]. apply walk_bind_v; [mild_tac|intros z].
    apply walk_bind; [apply walk_calm; calm_tac|]. intros g2 H2.
    assert (Hn2 : (size (white g2) < n)%nat) by (eapply fewer; [exact Hn|set_solver]).
    apply walk_bind; [by eapply walk_next|]. intros g3 H3. eapply walk_next; [done|]. by eapply fewer.
  - by eapply walk_next.
  - done.
  - apply walk_calm. destruct (b_has_return_value b); calm_tac.
Qed.

(** What follows the label of a block. *)
Lemma walk_rest n f r node g : walker n f → (size (white g) < n)%nat →
  walk g (g ← match b_body node with
              | Some body =>
                  match b_jump0 node, b_jump1 node with
                  | Some j0, None =>
                      b0 ← get_block (g_blocks g) j0; n ← label_name g (b_label b0);
                      size ← isize_of depth ts (ex_type (b_expr node));
                      g ← emit_vm_jmp VM_JMP n size g; f body g
                  | _, _ => Exit "assertion failed"
                  end
              | None => Ok g
              end;
          g ← gen_code depth ts (b_code node) g;
          g ← (if negb (bool_decide (g_args g = [])) then PUSH_ARGS depth ts g else Ok g);
          match b_body node, b_jump0 node with
          | Some _, Some j0 => f j0 g
          | Some _, None => Undef "null block"
          | None, _ => gen_exit depth ts f node g
          end) ∧
  walk g (g ← vm_gen_expr depth ts (b_expr node) g;
          g ← table_entries (b_jump_table node) (emit_vm_op VM_JMPTBL VMOP_NONE g);
          g ← each f (jp_label <$> b_jump_table node) g;
          node ← get_block (g_blocks g) r;
          Ok (set_blocks (<[r := clear_table node]> (g_blocks g)) g)).
Proof.
  intros Hf Hn. split.
  - apply walk_bind.
    { destruct (b_body node) as [body|]; [|apply walk_calm; calm_tac].
      destruct (b_jump0 node), (b_jump1 node); try done.
      apply walk_bind_v; [mild_tac|intros b0]. apply walk_bind_v; [mild_tac|intros nm]. apply walk_bind_v; [mild_tac|intros z].
      apply walk_bind; [apply walk_calm; calm_tac|]. intros g1 H1. apply Hf. by eapply fewer. }
    intros g1 H1. apply walk_bind; [apply walk_calm; calm_tac|]. intros g2 H2.
    apply walk_bind; [apply walk_calm; calm_tac|]. intros g3 H3.
    assert (Hn3 : (size (white g3) < n)%nat) by (eapply fewer; [exact Hn|set_solver]).
    destruct (b_body node); [destruct (b_jump0 node); [by apply Hf|done]|by eapply walk_exit].
  - apply walk_bind; [apply walk_calm; calm_tac|]. intros g1 H1.
    apply walk_bind; [apply walk_calm; calm_tac|]. intros g2 H2.
    apply walk_bind; [apply (walk_each n); [done|]; eapply fewer; [exact Hn|set_solver]|]. intros g3 H3.
    unfold get_block. destruct (g_blocks g3 !! r) as [b|] eqn:Hb; simpl; [|done].
    by rewrite (white_same _ r b (clear_table b)).
Qed.

Lemma node_walks n : walker n (vm_gen_node depth ts n).
Proof.
  induction n as [|n IH]; intros r g Hn; [lia|]. cbn [vm_gen_node].
  pose proof (mild_block (g_blocks g) r) as Hm.
  destruct (get_block (g_blocks g) r) as [node| |] eqn:Hb; [|done|exact Hm].
  apply defined_ok_inv in Hb.
  cbn [mbind outcome_bind]. destruct (b_color node) eqn:Hc; [|done].
  cbv zeta. set (g1 := set_blocks (<[r := set_color node BLACK]> (g_blocks g)) g).
  destruct (label_name g1 (b_label node)) as [nm| |e] eqn:Hl; [|done|].
  2:{ pose proof (mild_label g1 (b_label node)) as H. by rewrite Hl in H. }
  cbn [mbind outcome_bind]. set (g2 := emit_vm_label nm g1).
  assert (Hr : r ∈ white g) by (apply white_spec; by exists node).
  assert (Hw2 : white g2 = white g ∖ {[r]}).
  { unfold g2, emit_vm_label. rewrite (proj1 (emit_same _ _)). simpl. apply white_black. }
  assert (Hl2 : length (g_labels g2) = S (length (g_labels g))).
  { unfold g2, emit_vm_label. rewrite (proj2 (emit_same _ _)). simpl. rewrite length_app. simpl. lia. }
  assert (Hs2 : size (white g) = S (size (white g2))).
  { rewrite Hw2, size_difference by set_solver. rewrite size_singleton.
    assert (size (white g) ≠ 0%nat) by (intros H0; apply size_empty_inv in H0; set_solver). lia. }
  destruct (walk_rest n (vm_gen_node depth ts n) r node g2 IH) as [H1 H2]; [lia|].
  assert (Hk : ∀ o, walk g2 o → walk g o).
  { intros [g'| |]; simpl; [|done..]. rewrite Hw2 at 1. intros [Hs Hl']. split; [set_solver|lia]. }
  apply Hk. destruct (b_has_jump_table node); [exact H2|exact H1].
Qed.

(** C32: The walk ends.  With more fuel than there are white blocks,
    [vm_gen_node] does not run out of it, whatever cycles the jumps form; and
    when it comes to an end, as many labels have been put into the code as
    blocks have been colored: no block is generated twice. *)
Theorem vm_gen_node_terminates fuel r g :
  (size (white_blocks (g_blocks g)) < fuel)%nat →
  match vm_gen_node depth ts fuel r g with
  | Ok g' => white_blocks (g_blocks g') ⊆ white_blocks (g_blocks g) ∧
      (length (g_labels g') + size (white_blocks (g_blocks g')) =
       length (g_labels g) + size (white_blocks (g_blocks g)))%nat
  | Exit _ => True
  | Undef e => e ≠ out_of_fuel
  end.
Proof. intros Hn. by apply (node_walks fuel r g). Qed.
End calm.

(** [do x = x + 1; while (x); return x;], as two blocks. *)
Definition loop_symbol (name : list Z) (k : symtype) : symbol :=
  Symbol (str_init [] name).2 basic_type__int k LINK_NONE 0 0 0 1 1 0 (-1) NoValue.
Definition loop_symbols : symbols := list_to_map [
  (1%N, loop_symbol (cstr "x") SYM_DEFINITION); (2%N, loop_symbol (cstr ".L") SYM_LABEL);
  (3%N, loop_symbol (cstr ".M") SYM_LABEL) ].
Definition loop_var : var := Var DIRECT basic_type__int (Some 1%N) 0 0 0 true 0.
Definition loop_one : var := Var IMMEDIATE basic_type__int None 0 0 0 false 1.
Definition loop_block (l : symref) (code : list statement) (j0 j1 : option bref) (ret : bool) : block :=
  Block (Some l) code (Expression IR_OP_CAST basic_type__int loop_var loop_var) j0 j1 false loop_one [] None ret false WHITE 0 0.
Definition loop_graph : blocks := list_to_map [
  (1%N, loop_block 2%N [Statement IR_ASSIGN 0 loop_var (Expression IR_OP_ADD basic_type__int loop_var loop_one)]
          (Some 2%N) (Some 1%N) false);
  (2%N, loop_block 3%N [] None None true) ].
Definition loop_state : genstate :=
  emit_vm_enter 8 (GenState false false [] [] [] [] 0 [] 0 loop_symbols loop_graph).

Lemma vm_gen_node_terminates_witness : ∃ g',
  vm_gen_node 4 [] 3 1%N loop_state = Ok g' ∧ white_blocks (g_blocks g') ⊆ white_blocks (g_blocks loop_state) ∧
  length (g_labels g') = 2%nat.
Proof.
  pose proof (vm_gen_node_terminates 4 [] 3 1%N loop_state) as H.
  destruct (vm_gen_node 4 [] 3 1%N loop_state) as [g'|e|e] eqn:Hg.
  - exists g'. split; [reflexivity|]. destruct H as [Hs _].
    + apply (bool_decide_eq_true_1 _). vm_compute. reflexivity.
    + split; [exact Hs|].
      assert (Hl : length <$> (match vm_gen_node 4 [] 3 1%N loop_state with Ok g' => Some (g_labels g') | _ => None end) = Some 2%nat)
        by (vm_compute; reflexivity).
      rewrite Hg in Hl. by injection Hl.
  - exfalso. assert (Hb : match vm_gen_node 4 [] 3 1%N loop_state with Ok _ => true | _ => false end = true)
      by (vm_compute; reflexivity). by rewrite Hg in Hb.
  - exfalso. assert (Hb : match vm_gen_node 4 [] 3 1%N loop_state with Ok _ => true | _ => false end = true)
      by (vm_compute; reflexivity). by rewrite Hg in Hb.
Defined.

(** * The frame of a function

    [vm_allocate_locals] gives every local its own bytes of the frame, which
    is what the other theorems on generated code take for granted. *)

Section frame.
Context `{FA : FloatArith}.
Variable depth : nat.
Variable ts : typetab.

(** A local with a place in the frame, and the bytes it takes. *)
Definition has_slot (y : symbol) : bool :=
  bool_decide (sym_linkage y = LINK_NONE) && (sym_slot y =? 0) &&
  match is_vla depth ts (sym_type y) with Ok v => negb v | _ => false end.
Definition slot_bytes (y : symbol) : Z :=
  match EIGHTBYTES depth ts (sym_type y) with Ok n => 8 * n | _ => 0 end.
Fixpoint frame_bytes (ys : symbols) (locals : list symref) : Z :=
  match locals with
  | [] => 0
  | s :: locals =>
      match ys !! s with Some y => if has_slot y then slot_bytes y else 0 | None => 0 end + frame_bytes ys locals
  end.

(** The place of a symbol in the frame. *)
Definition place (ys : symbols) (s : symref) : Z :=
  match ys !! s with Some y => sym_stack_offset y | None => 0 end.

Lemma frame_bytes_other ys locals s y : s ∉ locals → frame_bytes (<[s := y]> ys) locals = frame_bytes ys locals.
Proof.
  induction locals as [|x locals IH]; intros Hs; [done|]. apply not_elem_of_cons in Hs as [Hx Hs].
  simpl. rewrite lookup_insert_ne by done. by rewrite IH.
Qed.

Lemma allocate_step s locals ys off r : vm_allocate_locals depth ts (s :: locals) ys off = Ok r →
  ∃ y, ys !! s = Some y ∧
    if has_slot y then ∃ n, EIGHTBYTES depth ts (sym_type y) = Ok n ∧
      vm_allocate_locals depth ts locals (<[s := set_offset y off]> ys) (wrap_s 32 (off + n * 8)) = Ok r
    else vm_allocate_locals depth ts locals ys off = Ok r.
Proof.
  cbn [vm_allocate_locals]. intros H. apply bind_ok_inv in H as (y & Hy & H). unfold get_symbol in Hy.
  apply defined_ok_inv in Hy. exists y. split; [done|].
  apply bind_ok_inv in H as (_ & _ & H). apply bind_ok_inv in H as (_ & _ & H).
  unfold has_slot. destruct (bool_decide (sym_linkage y = LINK_NONE) && (sym_slot y =? 0)); simpl in *; [|done].
  destruct (is_vla depth ts (sym_type y)) as [v| |]; simpl in *; try done. destruct v; simpl in *; [done|].
  by apply bind_ok_inv in H as (n & Hn & H); eauto.
Qed.

Lemma frame_bytes_nonneg ys locals :
  (∀ s y, s ∈ locals → ys !! s = Some y → 0 ≤ slot_bytes y) → 0 ≤ frame_bytes ys locals.
Proof.
  induction locals as [|s locals IH]; intros Hp; simpl; [lia|].
  assert (0 ≤ frame_bytes ys locals) by (apply IH; intros x y Hx; apply Hp; by right).
  destruct (ys !! s) as [y|] eqn:Hy; [|lia]. destruct (has_slot y); [|lia].
  assert (0 ≤ slot_bytes y) by (apply (Hp s y); [by left|done]). lia.
Qed.

(** C33: Places of the locals.  When the frame fits an [int],
    [vm_allocate_locals] gives the locals that have one a place of their own:
    the places lie in the frame that VM_ENTER reserves, are aligned to eight
    bytes, do not overlap, and no other symbol is changed. *)
Theorem vm_allocate_locals_places locals : ∀ ys off ys' size,
  NoDup locals → 0 ≤ off → off mod 8 = 0 →
  (∀ s y, s ∈ locals → ys !! s = Some y → 0 ≤ slot_bytes y) →
  off + frame_bytes ys locals < 2 ^ 31 →
  vm_allocate_locals depth ts locals ys off = Ok (ys', size) →
  size = off + frame_bytes ys locals ∧
  (∀ s, s ∉ locals ∨ (∃ y, ys !! s = Some y ∧ has_slot y = false) → ys' !! s = ys !! s) ∧
  (∀ s y, s ∈ locals → ys !! s = Some y → has_slot y = true →
     ys' !! s = Some (set_offset y (place ys' s)) ∧
     off ≤ place ys' s ∧ place ys' s + slot_bytes y ≤ size ∧ place ys' s mod 8 = 0) ∧
  (∀ s1 s2 y1 y2, s1 ∈ locals → s2 ∈ locals → s1 ≠ s2 → ys !! s1 = Some y1 → ys !! s2 = Some y2 →
     has_slot y1 = true → has_slot y2 = true →
     place ys' s1 + slot_bytes y1 ≤ place ys' s2 ∨ place ys' s2 + slot_bytes y2 ≤ place ys' s1).
Proof.
  induction locals as [|s locals IH]; intros ys off ys' size Hnd Ho Ha Hp Hb H.
  { simpl in H. injection H as <- <-. simpl. split; [lia|]. split; [done|]. split.
    - intros s y Hin. by apply not_elem_of_nil in Hin.
    - intros s1 s2 y1 y2 Hin. by apply not_elem_of_nil in Hin. }
  apply NoDup_cons in Hnd as [Hs Hnd]. destruct (allocate_step _ _ _ _ _ H) as (y & Hy & Hstep). clear H.
  assert (Hp' : ∀ s y, s ∈ locals → ys !! s = Some y → 0 ≤ slot_bytes y) by (intros x z Hx; apply Hp; by right).
  pose proof (frame_bytes_nonneg ys locals Hp') as Hn0. simpl in Hb |- *. rewrite Hy in Hb |- *.
  destruct (has_slot y) eqn:Hsl.
  - destruct Hstep as (n & Hn & Hstep).
    assert (Hsb : slot_bytes y = 8 * n) by (unfold slot_bytes; by rewrite Hn).
    assert (Hn1 : 0 ≤ 8 * n) by (rewrite <-Hsb; apply (Hp s y); [by left|done]).
    rewrite wrap_s_small in Hstep by (simpl; lia).
    assert (Hlook : ∀ x, x ∈ locals → <[s := set_offset y off]> ys !! x = ys !! x).
    { intros x Hx. apply lookup_insert_ne. by intros ->. }
    destruct (IH (<[s := set_offset y off]> ys) (off + n * 8) ys' size) as (H1 & H2 & H3 & H4); try done.
    + lia.
    + Z.div_mod_to_equations. lia.
    + intros x z Hx. rewrite Hlook by done. by apply Hp'.
    + rewrite frame_bytes_other by done. lia.
    + rewrite frame_bytes_other in H1 by done.
      assert (Hs' : ys' !! s = Some (set_offset y off)).
      { rewrite H2 by (by left). by apply lookup_insert_eq. }
      assert (Hps : place ys' s = off) by (unfold place; by rewrite Hs').
      split; [lia|]. split; [|split].
      * intros x Hx. assert (x ≠ s).
        { intros ->. destruct Hx as [Hx|(z & Hz & Hf)]; [apply Hx; by left|congruence]. }
        rewrite H2; [by apply lookup_insert_ne|].
        destruct Hx as [Hx|(z & Hz & Hf)]; [left; intros Hin; apply Hx; by right|right].
        exists z. by rewrite lookup_insert_ne.
      * intros x z Hx Hz Hsz. apply elem_of_cons in Hx as [->|Hx].
        { rewrite Hy in Hz. injection Hz as <-. rewrite Hps. split; [done|]. lia. }
        rewrite <-(Hlook x Hx) in Hz. destruct (H3 x z Hx Hz Hsz) as (? & ? & ? & ?). split; [done|]. lia.
      * intros s1 s2 y1 y2 Hin1 Hin2 Hne Hy1 Hy2 Hf1 Hf2.
        apply elem_of_cons in Hin1 as [->|Hin1], Hin2 as [->|Hin2]; [done|..].
        -- rewrite Hy in Hy1. injection Hy1 as <-. rewrite <-(Hlook s2 Hin2) in Hy2.
           destruct (H3 s2 y2 Hin2 Hy2 Hf2) as (_ & ? & _). left. lia.
        -- rewrite Hy in Hy2. injection Hy2 as <-. rewrite <-(Hlook s1 Hin1) in Hy1.
           destruct (H3 s1 y1 Hin1 Hy1 Hf1) as (_ & ? & _). right. lia.
        -- rewrite <-(Hlook s1 Hin1) in Hy1. rewrite <-(Hlook s2 Hin2) in Hy2. by eapply H4.
  - destruct (IH ys off ys' size) as (H1 & H2 & H3 & H4); try done.
    split; [lia|]. split; [|split].
    + intros x Hx. apply H2. destruct Hx as [Hx|Hx]; [left; intros Hin; apply Hx; by right|by right].
    + intros x z Hx Hz Hsz. apply elem_of_cons in Hx as [->|Hx]; [congruence|]. by apply H3.
    + intros s1 s2 y1 y2 Hin1 Hin2 Hne Hy1 Hy2 Hf1 Hf2.
      apply elem_of_cons in Hin1 as [->|Hin1], Hin2 as [->|Hin2]; [done|congruence|congruence|]. by eapply H4.
Qed.
End frame.

(** [int x; static int s; double d;] *)
Definition frame_symbol (t : ctype) (l : linkage) : symbol :=
  Symbol str_zero t SYM_DEFINITION l 0 0 0 0 1 0 (-1) NoValue.
Definition frame_symbols : symbols := list_to_map [
  (1%N, frame_symbol basic_type__int LINK_NONE); (2%N, frame_symbol basic_type__int LINK_INTERN);
  (3%N, frame_symbol basic_type__double LINK_NONE) ].
Definition frame_after : symbols * Z :=
  match vm_allocate_locals 4 [] [1%N; 2%N; 3%N] frame_symbols 0 with Ok r => r | _ => (∅, 0) end.

Lemma vm_allocate_locals_places_witness :
  frame_after.2 = 16 ∧ place frame_after.1 1%N = 0 ∧ place frame_after.1 3%N = 8 ∧
  frame_after.1 !! 2%N = frame_symbols !! 2%N.
Proof.
  assert (Hp : ∀ s y, frame_symbols !! s = Some y → 0 ≤ slot_bytes 4 [] y).
  { apply (map_Forall_impl (λ _ y, bool_decide (0 ≤ slot_bytes 4 [] y) = true)).
    - apply (bool_decide_eq_true_1 _). vm_compute. reflexivity.
    - intros s y H. by apply bool_decide_eq_true in H. }
  destruct (vm_allocate_locals_places 4 [] [1%N; 2%N; 3%N] frame_symbols 0 frame_after.1 frame_after.2)
    as (H1 & H2 & _).
  - apply (bool_decide_eq_true_1 _). vm_compute. reflexivity.
  - lia.
  - reflexivity.
  - intros s y _. apply Hp.
  - vm_compute. reflexivity.
  - vm_compute. reflexivity.
  - split; [rewrite H1; vm_compute; reflexivity|]. split; [vm_compute; reflexivity|]. split; [vm_compute; reflexivity|].
    apply H2. right. eexists. split; vm_compute; reflexivity.
Defined.
