(* ===== verification/Macro.v ===== *)
(** * Macros (src/preprocessor/macro.c, macro.h)

    The table of macros, their definition and their expansion.  A macro is an
    entry of a store that the hash table refers to, since looking one up may
    write to its replacement list.  Arrays of tokens are lists, a pointer into
    one is the list of the tokens from it on; what lies behind the last token
    (the capacity of a recycled array, with what an earlier use left there) has
    no meaning here.  [pp] is the state of all the preprocessor. *)

From stdpp Require Import base list gmap numbers strings.
From Stdlib Require Import ZArith Lia.
From S2P Require Import Prelude CType Strings Hash Strtab Typetree Symtab Token Lexer Input.

Local Open Scope Z_scope.

(** ** Data *)

Inductive macro_type : Set := OBJECT_LIKE | FUNCTION_LIKE.
#[export] Instance macro_type_eq_dec : EqDecision macro_type.
Proof. solve_decision. Defined.

Record macro : Set := Macro {
  m_name : kstring;
  m_type : macro_type;
  m_params : Z;
  is__line__ : bool;
  is__file__ : bool;
  is_vararg : bool;
  m_replacement : list token
}.
Definition set_replacement (d : macro) (l : list token) : macro :=
  Macro (m_name d) (m_type d) (m_params d) (is__line__ d) (is__file__ d) (is_vararg d) l.
Definition set_special (d : macro) (line file : bool) : macro :=
  Macro (m_name d) (m_type d) (m_params d) line file (is_vararg d) (m_replacement d).

(** A [struct macro *] as an element of the hash table, with the name, which
    is never written ([macro_hash_key]). *)
Record mref : Set := MRef { mr_name : kstring; mr_id : N }.
Definition macro_hash_key (r : mref) : kstring := mr_name r.
#[export] Instance macro_ops : HashOps mref := { hash_key := macro_hash_key; hash_add := id }.

(** [macro_hash_table] (with [initialized]), the macros that [calloc] gave and
    the next of them. *)
Record macros : Type := Macros {
  mt_table : option (hash_table mref);
  mt_heap : gmap N macro;
  mt_next : N
}.

(** The states of [branch_stack] in directive.c. *)
Inductive state : Set := BRANCH_LIVE | BRANCH_DISABLED | BRANCH_DEAD.
#[export] Instance state_eq_dec : EqDecision state.
Proof. solve_decision. Defined.

(** What [preprocess_pragma] calls. *)
Inductive pragma_call : Set :=
  | Import_module (name : list Z)
  | Ref_module (name : list Z)
  | Disable_warning (mode : list Z).

(** The state of tokenize.c, input.c and macro.c, [branch_stack] (the
    innermost first) of directive.c, [line_buffer], [lookahead],
    [output_preprocessed], [dstr_buffer] and the calls made by pragmas of
    preprocess.c. *)
Record pp : Type := PP {
  pp_lexer : lexer;
  pp_input : input;
  pp_macros : macros;
  branch_stack : list state;
  line_buffer : option (list Z);
  lookahead : list token;
  output_preprocessed : bool;
  dstr_buffer : list Z;
  pragma_calls : list pragma_call
}.
Definition set_lexer (p : pp) (lx : lexer) : pp :=
  PP lx (pp_input p) (pp_macros p) (branch_stack p) (line_buffer p) (lookahead p)
    (output_preprocessed p) (dstr_buffer p) (pragma_calls p).
Definition set_input (p : pp) (i : input) : pp :=
  PP (pp_lexer p) i (pp_macros p) (branch_stack p) (line_buffer p) (lookahead p)
    (output_preprocessed p) (dstr_buffer p) (pragma_calls p).
Definition set_macros (p : pp) (m : macros) : pp :=
  PP (pp_lexer p) (pp_input p) m (branch_stack p) (line_buffer p) (lookahead p)
    (output_preprocessed p) (dstr_buffer p) (pragma_calls p).
Definition set_branches (p : pp) (b : list state) : pp :=
  PP (pp_lexer p) (pp_input p) (pp_macros p) b (line_buffer p) (lookahead p)
    (output_preprocessed p) (dstr_buffer p) (pragma_calls p).
Definition set_line (p : pp) (l : option (list Z)) : pp :=
  PP (pp_lexer p) (pp_input p) (pp_macros p) (branch_stack p) l (lookahead p)
    (output_preprocessed p) (dstr_buffer p) (pragma_calls p).
Definition set_lookahead (p : pp) (l : list token) : pp :=
  PP (pp_lexer p) (pp_input p) (pp_macros p) (branch_stack p) (line_buffer p) l
    (output_preprocessed p) (dstr_buffer p) (pragma_calls p).
Definition set_output (p : pp) (b : bool) : pp :=
  PP (pp_lexer p) (pp_input p) (pp_macros p) (branch_stack p) (line_buffer p) (lookahead p)
    b (dstr_buffer p) (pragma_calls p).
Definition set_dstr (p : pp) (l : list Z) : pp :=
  PP (pp_lexer p) (pp_input p) (pp_macros p) (branch_stack p) (line_buffer p) (lookahead p)
    (output_preprocessed p) l (pragma_calls p).
Definition add_pragma_call (p : pp) (c : pragma_call) : pp :=
  PP (pp_lexer p) (pp_input p) (pp_macros p) (branch_stack p) (line_buffer p) (lookahead p)
    (output_preprocessed p) (dstr_buffer p) (pragma_calls p ++ [c]).
Definition set_heap (p : pp) (h : gmap N macro) : pp :=
  set_macros p (Macros (mt_table (pp_macros p)) h (mt_next (pp_macros p))).

Definition pp_start : pp :=
  PP lexer_start input_start (Macros None ∅ 0%N) [] None [] false [] [].

Definition pp_register (p : pp) (str : list Z) (len : nat) : outcome (pp * kstring) :=
  '(lx, s) ← lex_register (pp_lexer p) str len; Ok (set_lexer p lx, s).

(** A C string in a buffer. *)
Fixpoint until_nul (l : list Z) : list Z :=
  match l with c :: l => if c =? 0 then [] else c :: until_nul l | [] => [] end.

(** ** Comparing tokens and macros *)

(** Number tokens have basic types, whose comparison does not read the table
    of types. *)
Definition tok_cmp (a b : token) : outcome Z :=
  if negb (bool_decide (tk_token a = tk_token b)) then Ok 1
  else if is_tok PARAM a then
    x ← tok_val a; y ← tok_val b; Ok (if x =? y then 0 else 1)
  else if is_tok NUMBER a then
    eq ← type_equal 1 [] (tk_type a) (tk_type b);
    if negb eq then Ok 1
    else x ← tok_val a; y ← tok_val b; Ok (if x =? y then 0 else 1)
  else x ← tok_string a; y ← tok_string b; Ok (str_cmp x y).
Definition tok_eq (a b : token) : outcome bool := c ← tok_cmp a b; Ok (c =? 0).

Fixpoint replacement_cmp (a b : list token) : outcome Z :=
  match a, b with
  | x :: a, y :: b => c ← tok_cmp x y; if negb (c =? 0) then Ok 1 else replacement_cmp a b
  | _, _ => Ok 0
  end.

Definition macrocmp (a b : macro) : outcome Z :=
  if negb (bool_decide (m_type a = m_type b)) || negb (m_params a =? m_params b) then Ok 1
  else if negb (str_cmp (m_name a) (m_name b) =? 0) then Ok 1
  else if negb (length (m_replacement a) =? length (m_replacement b))%nat then Ok 1
  else replacement_cmp (m_replacement a) (m_replacement b).

(** ** The table *)

Definition HASH_TABLE_BUCKETS : nat := 1024.

(** [macro_hash_del] on the elements a table gives up. *)
Definition macro_hash_del (h : gmap N macro) (ds : list mref) : gmap N macro :=
  foldl (λ h r, delete (mr_id r) h) h ds.

Definition macro_table (p : pp) : outcome (hash_table mref) :=
  defined "the table of macros is not made" (mt_table (pp_macros p)).

Definition macro_reset (p : pp) : outcome pp :=
  let m := pp_macros p in
  match mt_table m with
  | None => tab ← hash_init HASH_TABLE_BUCKETS; Ok (set_macros p (Macros (Some tab) (mt_heap m) (mt_next m)))
  | Some tab =>
    '(tab, ds) ← hash_clear tab;
    Ok (set_macros p (Macros (Some tab) (macro_hash_del (mt_heap m) ds) (mt_next m)))
  end.

(** [macro_finalize]: the macros that are left, and what is left of the heap
    of the table. *)
Definition macro_finalize (p : pp) : outcome (gmap N macro * gmap nat (hash_entry mref)) :=
  tab ← macro_table p;
  '(h, ds) ← hash_destroy tab;
  Ok (macro_hash_del (mt_heap (pp_macros p)) ds, h).

Definition get__line__token (p : pp) : outcome (pp * token) :=
  let buf := print_d (current_file_line (pp_input p)) in
  '(p, s) ← pp_register p buf (length buf);
  Ok (p, set_string (basic PREP_NUMBER) s).

Definition get__file__token (p : pp) : token :=
  set_string (tok_of STRING 0) (current_file_path (pp_input p)).

Definition get_macro (p : pp) (id : N) : outcome macro :=
  defined "access to a macro that is freed" (mt_heap (pp_macros p) !! id).

(** Writing the first token of a replacement list. *)
Definition set_first (p : pp) (id : N) (d : macro) (t : token) : outcome (pp * macro) :=
  match m_replacement d with
  | [] => Undef "past the end of the token array"
  | _ :: l =>
    let d := set_replacement d (t :: l) in
    Ok (set_heap p (<[id := d]> (mt_heap (pp_macros p))), d)
  end.

Definition macro_definition (p : pp) (name : kstring) : outcome (pp * option macro) :=
  tab ← macro_table p;
  r ← hash_lookup tab name;
  match r with
  | None => Ok (p, None)
  | Some r =>
    d ← get_macro p (mr_id r);
    if is__file__ d then
      '(p, d) ← set_first p (mr_id r) d (get__file__token p); Ok (p, Some d)
    else if is__line__ d then
      '(p, t) ← get__line__token p;
      '(p, d) ← set_first p (mr_id r) d t; Ok (p, Some d)
    else Ok (p, Some d)
  end.

Definition builtin__file__ : kstring := SHORT_STRING_INIT (cstr "__FILE__").
Definition builtin__line__ : kstring := SHORT_STRING_INIT (cstr "__LINE__").

(** [hash_insert] with [macro_hash_add]: where the element it gives back is the
    one it was offered, a copy of the macro is made. *)
Definition insert_macro (p : pp) (d : macro) : outcome (pp * N) :=
  tab ← macro_table p;
  let m := pp_macros p in
  '(tab, r) ← hash_insert tab (MRef (m_name d) (mt_next m));
  Ok (set_macros p
        (if (mr_id r =? mt_next m)%N
         then Macros (Some tab) (<[mt_next m := d]> (mt_heap m)) (N.succ (mt_next m))
         else Macros (Some tab) (mt_heap m) (mt_next m)), mr_id r).

Definition define (p : pp) (d : macro) : outcome pp :=
  '(p, id) ← insert_macro p d;
  ref ← get_macro p id;
  c ← macrocmp ref d;
  if negb (c =? 0) then Exit "Redefinition of macro with different substitution."
  else
    let file := str_cmp builtin__file__ (m_name ref) =? 0 in
    let line := str_cmp builtin__line__ (m_name ref) =? 0 in
    Ok (set_heap p (<[id := set_special ref line file]> (mt_heap (pp_macros p)))).

Definition undef (p : pp) (name : kstring) : outcome pp :=
  tab ← macro_table p;
  '(tab, r) ← hash_remove tab name;
  let m := pp_macros p in
  Ok (set_macros p (Macros (Some tab) (macro_hash_del (mt_heap m) (option_elems r)) (mt_next m))).

(** ** Pasting and stringification *)

(** [strncpy(buf, s, n)] on the string [s]. *)
Definition strncpy (s : list Z) (n : nat) : list Z :=
  let t := take n (until_nul s) in t ++ replicate (n - length t) 0.

Definition paste (c99 : bool) (p : pp) (left right : token) : outcome (pp * token) :=
  _ ← c_assert (negb (is_tok NUMBER left));
  _ ← c_assert (negb (is_tok NUMBER right));
  s1 ← tok_string left;
  s2 ← tok_string right;
  let l1 := Z.to_nat (s_len s1) in
  let l2 := Z.to_nat (s_len s2) in
  let line := until_nul (strncpy (str_raw s1) l1 ++ strncpy (str_raw s2) l2) in
  '(lx, t, r) ← tokenize c99 (pp_lexer p) line;
  if negb (length line - length r =? l1 + l2)%nat
  then Exit "Invalid token resulting from pasting."
  else Ok (set_lexer p lx, set_leading_whitespace t (leading_whitespace left)).

(** [peek_token(list, i)], with [list] the tokens from [i] on. *)
Definition peek_token (l : list token) : token_type :=
  match l with t :: _ => tk_token t | [] => END end.

Fixpoint str_write_escaped (str : list Z) : list Z :=
  match str with
  | c :: str => (if (c =? 34) || (c =? 92) then [92] else []) ++ c :: str_write_escaped str
  | [] => []
  end.

(** The characters [stringify_concat] writes for a token after its blank. *)
Definition stringify_text (t : token) (raw : list Z) : list Z :=
  match tk_token t with
  | PREP_STRING | STRING => [92; 34] ++ str_write_escaped raw ++ [92; 34]
  | PREP_CHAR => [ch "'"] ++ str_write_escaped raw ++ [ch "'"]
  | _ => raw
  end.

(** [stringify_concat] on a buffer of [cap] bytes, of which [buf] are
    written. *)
Definition stringify_concat (buf : list Z) (cap : nat) (t : token) : outcome (list Z * nat) :=
  _ ← c_assert (negb (is_tok NUMBER t));
  str ← tok_string t;
  let ws := if leading_whitespace t =? 0 then [] else [32] in
  let len := (length ws + Z.to_nat (s_len str) * 2)%nat in
  let cap := if (cap <? length buf + len)%nat then (length buf + len)%nat else cap in
  let buf := buf ++ ws ++ stringify_text t (str_raw str) in
  if (length buf <=? cap)%nat then Ok (buf, cap) else Undef "past the end of the buffer".

(** The loop of [stringify]; [first] at the first token, which loses its
    whitespace. *)
Fixpoint stringify_loop (first : bool) (l : list token) (buf : list Z) (cap : nat) :
    outcome (list Z) :=
  match l with
  | [] => Ok buf
  | t :: l =>
    if is_tok NEWLINE t then
      _ ← c_assert (length l =? 0)%nat; stringify_loop false l buf cap
    else
      _ ← c_assert (negb (is_tok END t));
      let t := if first then set_leading_whitespace t 0 else t in
      '(buf, cap) ← stringify_concat buf cap t;
      stringify_loop false l buf cap
  end.

(** The cases of [stringify] other than [default]. *)
Definition is_quoted (t : token) : bool :=
  is_tok BACKSLASH t || is_tok STRING t || is_tok PREP_STRING t || is_tok PREP_CHAR t.

Definition stringify (p : pp) (l : list token) : outcome (pp * token) :=
  match l with
  | [] => Ok (p, set_string (tok_of STRING 0) (SHORT_STRING_INIT []))
  | t :: rest =>
    _ ← (if is_quoted t then Ok tt
         else _ ← c_assert (negb (is_tok END t)); c_assert (negb (is_tok NUMBER t)));
    if negb (is_quoted t) && (length rest =? 0)%nat then
      s ← tok_string t;
      Ok (p, set_string (tok_of STRING (leading_whitespace t)) s)
    else
      buf ← stringify_loop true l [] (length l * 8);
      if negb (length buf =? 0)%nat && (List.last buf 0 =? 92)
      then Exit "Invalid string literal ending with '\'."
      else
        '(p, s) ← pp_register p buf (length buf);
        Ok (p, set_string (tok_of PREP_STRING (leading_whitespace t)) s)
  end.

(** ** The replacement list *)

(** [args[i]]. *)
Definition get_arg (args : list (list token)) (i : Z) : outcome (list token) :=
  if i <? 0 then Undef "index below the arguments"
  else defined "index beyond the arguments" (args !! Z.to_nat i).

Definition array_back (l : list token) : outcome token := defined "last of an empty array" (last l).

(** [array_get(&def->replacement, 0)] and [len - 1], where they are read. *)
Definition check_paste_ends (l : list token) : outcome unit :=
  if is_tok TOKEN_PASTE (hd tok_zero l) then
    Exit "Unexpected '##' operator at beginning of line."
  else if (2 <? length l)%nat && is_tok TOKEN_PASTE (List.last l tok_zero) then
    Exit "Unexpected '##' operator at end of line."
  else Ok tt.

Section expansion.
(** [context.standard >= STD_C99]. *)
Context (c99 : bool).

(** The case [TOKEN_PASTE] of the loop, for the token [s] behind it: the
    list and whether [s] is looked at again. *)
Definition paste_step (p : pp) (def : macro) (args : list (list token)) (list : list token)
    (s : token) : outcome (pp * Datatypes.list token * bool) :=
  t ← array_back list;
  let pasted p t list :=
    if is_tok PARAM s then
      j ← tok_val s;
      a ← get_arg args j;
      if is_vararg def && is_tok COMMA t && (j =? m_params def - 1) then
        if negb (length a =? 0)%nat then Ok (p, list, true) else Ok (p, removelast list, false)
      else
        match a with
        | [] => Ok (p, list, false)
        | s :: a =>
          t ← array_back list;
          '(p, t) ← paste c99 p t s;
          Ok (p, removelast list ++ t :: a, false)
        end
    else
      '(p, t) ← paste c99 p t s; Ok (p, removelast list ++ [t], false) in
  if is_tok PARAM t then
    let list := removelast list in
    i ← tok_val t;
    a ← get_arg args i;
    match a with
    | [] =>
      if is_tok PARAM s then
        j ← tok_val s; a ← get_arg args j; Ok (p, list ++ a, false)
      else Ok (p, list ++ [s], false)
    | _ => let list := list ++ a in t ← array_back list; pasted p t list
    end
  else pasted p t list.

(** The loop over the replacement list, of which [rest] is left; the fuel is
    its length. *)
Fixpoint stringify_and_paste (n : nat) (p : pp) (def : macro) (args : list (list token))
    (list rest : list token) : outcome (pp * Datatypes.list token) :=
  match rest with
  | [] => Ok (p, list)
  | t :: rest =>
    match n with
    | O => Undef "not enough fuel"
    | S n =>
      if is_tok TOKEN_PASTE t then
        match rest with
        | [] => Undef "past the end of the token array"
        | s :: rest' =>
          '(p, list, again) ← paste_step p def args list s;
          stringify_and_paste n p def args list (if again : bool then rest else rest')
        end
      else if is_tok HASH t then
        match rest with
        | s :: rest =>
          if is_tok PARAM s then
            d ← tok_val s;
            a ← get_arg args d;
            '(p, t) ← stringify p a;
            stringify_and_paste n p def args (list ++ [t]) rest
          else Exit "Stray '#' in replacement list."
        | [] => Exit "Stray '#' in replacement list."
        end
      else stringify_and_paste n p def args (list ++ [t]) rest
    end
  end.

Definition expand_stringify_and_paste (p : pp) (def : macro) (args : list (list token)) :
    outcome (pp * list token) :=
  _ ← check_paste_ends (m_replacement def);
  stringify_and_paste (length (m_replacement def)) p def args [] (m_replacement def).

(** [array_replace_slice] and [array_erase]. *)
Definition array_replace_slice (l : list token) (start gap : nat) (slice : list token) :
    outcome (list token) :=
  _ ← c_assert (start + gap <=? length l)%nat;
  Ok (take start l ++ slice ++ drop (start + gap) l).
Definition array_erase (l : list token) (i : nat) : outcome (list token) :=
  _ ← c_assert (negb (length l =? 0)%nat);
  Ok (take i l ++ drop (S i) l).

(** The loop of [expand_macro] that replaces parameters by the expanded
    arguments, from index [i] on. *)
Fixpoint substitute (n : nat) (args : list (list token)) (l : list token) (i : nat) :
    outcome (list token) :=
  match l !! i with
  | None => Ok l
  | Some t =>
    match n with
    | O => Undef "not enough fuel"
    | S n =>
      if is_tok PARAM t then
        j ← tok_val t;
        a ← get_arg args j;
        if (length a =? 0)%nat then l ← array_erase l i; substitute n args l i
        else l ← array_replace_slice l i 1 a; substitute n args l (S i)
      else substitute n args l (S i)
    end
  end.
(** Enough where no argument has a parameter. *)
Definition substitute_passes (args : list (list token)) (l : list token) : nat :=
  (length l * S (sum_list (length <$> args)))%nat.

(** [scope] has the innermost macro last. *)
Definition is_expanded (scope : list kstring) (name : kstring) : bool :=
  existsb (λ s, str_cmp s name =? 0) scope.

(** The whitespace of an expanded argument. *)
Definition space_argument (a : list token) : list token :=
  match a with
  | t :: a => (if leading_whitespace t =? 0 then set_leading_whitespace t 1 else t) :: a
  | [] => []
  end.

(** ** Arguments *)

(** The loop of [read_arg]: the argument and the position behind it. *)
Fixpoint read_arg (scope : list kstring) (is_va_arg : bool) (nesting : Z) (l : list token) :
    outcome (list token * list token) :=
  match l with
  | [] => Undef "past the end of the token array"
  | t :: rest =>
    if (nesting =? 0) && negb ((negb (is_tok COMMA t) || is_va_arg) && negb (is_tok CLOSE_PAREN t))
    then Ok ([], l)
    else if is_tok NEWLINE t then Exit "Unexpected end of input in expansion."
    else
      nesting ← (if is_tok OPEN_PAREN t then Ok (nesting + 1)
                 else if is_tok CLOSE_PAREN t then
                   if nesting - 1 <? 0 then Exit "Negative nesting depth in expansion."
                   else Ok (nesting - 1)
                 else Ok nesting);
      t ← (if is_expandable t then
             s ← tok_string t;
             Ok (if is_expanded scope s then set_disable_expand t true else t)
           else Ok t);
      '(arg, r) ← read_arg scope is_va_arg nesting rest;
      Ok (t :: arg, r)
  end.

(** [list->token]. *)
Definition at_token (l : list token) (t : token_type) : outcome bool :=
  match l with x :: _ => Ok (is_tok t x) | [] => Undef "past the end of the token array" end.

(** The loop over the parameters [i], ..., [params - is_vararg - 1], [n] of
    them: the arguments read, the value of [i] behind the loop, and the
    position. *)
Fixpoint read_params (n : nat) (scope : list kstring) (def : macro) (i : Z) (l : list token) :
    outcome (list (list token) * Z * list token) :=
  match n with
  | O => Ok ([], i, l)
  | S n =>
    '(a, l) ← read_arg scope false 0 l;
    comma ← at_token l COMMA;
    if negb comma then
      if i =? m_params def - 1 then Ok ([a], i, l)
      else if is_vararg def && (i =? m_params def - 2) then Ok ([a], -1, l)
      else Exit "Expected ',' between macro parameters."
    else
      '(args, j, l) ← read_params n scope def (i + 1) (drop 1 l);
      Ok (a :: args, j, l)
  end.

(** [args] has [params] elements, the ones not read are empty. *)
Definition read_args (scope : list kstring) (def : macro) (l : list token) :
    outcome (list (list token) * list token) :=
  if bool_decide (m_type def = FUNCTION_LIKE) then
    open ← at_token l OPEN_PAREN;
    if negb open then Exit "Expected '(' to begin macro argument list."
    else
      let l := drop 1 l in
      '(args, l) ←
        (if negb (m_params def =? 0) then
           '(args, i, l) ←
             read_params (Z.to_nat (m_params def - Z.b2z (is_vararg def))) scope def 0 l;
           if is_vararg def && negb (i =? -1) then
             _ ← c_assert (i =? m_params def - 1);
             '(a, l) ← read_arg scope true 0 l;
             Ok (args ++ [a], l)
           else Ok (args ++ replicate (Z.to_nat (m_params def) - length args) [], l)
         else Ok ([], l));
      close ← at_token l CLOSE_PAREN;
      if negb close then Exit "Expected ')' to close macro argument list."
      else Ok (args, drop 1 l)
  else Ok ([], l).

(** ** Expansion *)

(** The arguments expanded in order, by [expand]. *)
Fixpoint expand_args (expand : pp → list token → outcome (pp * list token)) (p : pp)
    (args : list (list token)) : outcome (pp * list (list token)) :=
  match args with
  | [] => Ok (p, [])
  | a :: args =>
    '(p, a) ← expand p a;
    '(p, args) ← expand_args expand p args;
    Ok (p, space_argument a :: args)
  end.

Section expand_line.
(** [expand_line] on the lists inside an expansion. *)
Context (line : pp → list kstring → list token → outcome (pp * list token * Z)).

Definition expand_macro (p : pp) (scope : list kstring) (def : macro) (args : list (list token)) :
    outcome (pp * list token) :=
  '(p, list) ← expand_stringify_and_paste p def args;
  '(p, list) ←
    (if 0 <? m_params def then
       _ ← c_assert (bool_decide (m_type def = FUNCTION_LIKE));
       '(p, args) ← expand_args (λ p a, '(p, a, _) ← line p [] a; Ok (p, a)) p args;
       list ← substitute (substitute_passes args list) args list 0;
       Ok (p, list)
     else Ok (p, list));
  '(p, list, _) ← line p scope list;
  Ok (p, list).

(** One pass of the loop of [expand_line] at index [i]: the state, the list,
    the index of the next pass and what is added to [n]. *)
Definition expand_step (p : pp) (scope : list kstring) (l : list token) (i : nat) (t : token) :
    outcome (pp * list token * nat * Z) :=
  if negb (is_expandable t) || disable_expand t then Ok (p, l, S i, 0)
  else
    name ← tok_string t;
    '(p, def) ← macro_definition p name;
    match def with
    | None => Ok (p, l, S i, 0)
    | Some def =>
      if is_expanded scope name then Ok (p, <[i := set_disable_expand t true]> l, S i, 0)
      else if bool_decide (m_type def = FUNCTION_LIKE)
              && negb (bool_decide (peek_token (drop (S i) l) = OPEN_PAREN))
      then Ok (p, l, S i, 0)
      else
        '(args, endptr) ← read_args scope def (drop (S i) l);
        '(p, expn) ← expand_macro p (scope ++ [m_name def]) def args;
        let size := (length l - length endptr - i)%nat in
        let expn :=
          match expn with
          | e :: expn => set_leading_whitespace e (leading_whitespace t) :: expn
          | [] => []
          end in
        l ← array_replace_slice l i size expn;
        Ok (p, l, (i + length expn)%nat, 1)
    end.

(** The loop; [k] bounds the number of tokens left. *)
Fixpoint expand_loop (k : nat) (p : pp) (scope : list kstring) (l : list token) (i : nat) (n : Z) :
    outcome (pp * list token * Z) :=
  match l !! i with
  | None => Ok (p, l, n)
  | Some t =>
    match k with
    | O => Undef "not enough fuel"
    | S k =>
      '(p, l, i, d) ← expand_step p scope l i t;
      expand_loop k p scope l i (n + d)
    end
  end.

End expand_line.

(** [expand_line], with [depth] expansions inside each other at most. *)
Fixpoint expand_line (depth : nat) (p : pp) (scope : list kstring) (l : list token) :
    outcome (pp * list token * Z) :=
  match depth with
  | O => Undef "not enough fuel"
  | S depth => expand_loop (expand_line depth) (length l) p scope l 0 0
  end.

Definition expand (depth : nat) (p : pp) (l : list token) : outcome (pp * list token * Z) :=
  expand_line depth p [] l.

End expansion.

(** ** Builtin macros *)

(** [enum cstd]. *)
Inductive cstd : Set := STD_C89 | STD_C99 | STD_C11.
Definition is_c99 (v : cstd) : bool := match v with STD_C89 => false | _ => true end.

(** The loop of [parse_macro_replacement]; the fuel bounds the number of
    tokens. *)
Fixpoint parse_macro_replacement (n : nat) (c99 : bool) (p : pp) (str : list Z) :
    outcome (pp * list token) :=
  if rd str =? 0 then Ok (p, [])
  else
    match n with
    | O => Undef "not enough fuel"
    | S n =>
      '(lx, t, r) ← tokenize c99 (pp_lexer p) str;
      _ ← c_assert (negb (length r =? length str)%nat);
      '(p, ts) ← parse_macro_replacement n c99 (set_lexer p lx) r;
      Ok (p, t :: ts)
    end.

Definition register_macro (c99 : bool) (p : pp) (key value : list Z) : outcome pp :=
  let '(fl, name) := str_init (lx_strings (pp_lexer p)) key in
  let p := set_lexer p (Lexer (lx_strtab (pp_lexer p)) fl (lx_buffer (pp_lexer p))) in
  '(p, repl) ← parse_macro_replacement (length value) c99 p value;
  define p (Macro name OBJECT_LIKE 0 false false false repl).

(** [get__time__] and [get__date__] of the text of [ctime]. *)
Definition get__time__ (ts : list Z) : outcome (list Z) :=
  _ ← c_assert (length ts =? 25)%nat; Ok ([34] ++ take 8 (drop 11 ts) ++ [34]).
Definition get__date__ (ts : list Z) : outcome (list Z) :=
  _ ← c_assert (length ts =? 25)%nat;
  Ok ([34] ++ take 7 (drop 4 ts) ++ take 4 (drop 20 ts) ++ [34]).

Fixpoint register_macros (c99 : bool) (p : pp) (l : list (list Z * list Z)) : outcome pp :=
  match l with
  | [] => Ok p
  | (key, value) :: l => p ← register_macro c99 p key value; register_macros c99 p l
  end.

(** The macros whose value does not depend on the host or the time, and those
    of a Linux host. *)
Definition builtin_macros : list (list Z * list Z) :=
  [(cstr "__x86_64__", cstr "1"); (cstr "__LP64__", cstr "1");
   (cstr "__SIZE_TYPE__", cstr "unsigned long"); (cstr "__WCHAR_TYPE__", cstr "signed int");
   (cstr "__PTRDIFF_TYPE__", cstr "signed long"); (cstr "__CHAR_BIT__", cstr "8");
   (cstr "__SIZEOF_LONG__", cstr "8"); (cstr "__SIZEOF_POINTER__", cstr "8")].
Definition linux_macros : list (list Z * list Z) :=
  [(cstr "__linux__", cstr "1"); (cstr "__signed__", cstr "signed"); (cstr "__unix__", cstr "1")].
Definition version_macros (v : cstd) : list (list Z * list Z) :=
  match v with
  | STD_C89 => []
  | STD_C99 => [(cstr "__STDC_VERSION__", cstr "199901L")]
  | STD_C11 => [(cstr "__STDC_VERSION__", cstr "201112L")]
  end.

(** [register_builtin_definitions]; [ts] is the text of [ctime], [linux]
    whether the compiler is built for Linux and not for Windows. *)
Definition register_builtin_definitions (linux : bool) (ts : list Z) (p : pp) (v : cstd) :
    outcome pp :=
  date ← get__date__ ts;
  time ← get__time__ ts;
  register_macros (is_c99 v) p
    ([(cstr "__STDC__", cstr "1"); (cstr "__STDC_HOSTED__", cstr "1"); (cstr "__FILE__", cstr "0");
      (cstr "__LINE__", cstr "0"); (cstr "__DATE__", date); (cstr "__TIME__", time)]
     ++ builtin_macros ++ (if linux then linux_macros else []) ++ version_macros v).
