(* ===== verification/MacroProps.v ===== *)
(** * The table of macros and the expansion of object-like macros

    The table is a finite map from names to macros, up to the tokens of
    [__LINE__] and [__FILE__] that a lookup renews.  Expansion is compared with
    the rules of the C standard for rescanning. *)

From stdpp Require Import base list gmap fin_maps numbers strings.
From Stdlib Require Import ZArith Lia.
From S2P Require Import Prelude CType Strings Hash HashProps HashFree Strtab Typetree Symtab SymtabProps Token Lexer LexerProps Input Macro.

Local Open Scope Z_scope.

(** ** The table as a map *)

#[export, program] Instance macro_laws : HashLaws mref := { elem_ok r := wf_string (mr_name r) }.
Next Obligation. done. Qed.
Next Obligation. done. Qed.
Next Obligation. done. Qed.

(** A macro whose replacement begins with a token that lookups renew. *)
Definition special (d : macro) : bool := is__file__ d || is__line__ d.

(** Macros that differ in that token only. *)
Definition settled (d : macro) : macro :=
  if special d then set_replacement d (drop 1 (m_replacement d)) else d.

(** The token of the current line. *)
Definition line_token (p : pp) : token :=
  let buf := print_d (current_file_line (pp_input p)) in
  set_string (basic PREP_NUMBER) (KString (Z.of_nat (length buf)) (memcpy_at (s_chars str_zero) buf)).

(** What a lookup gives for a macro. *)
Definition present (p : pp) (d : macro) : macro :=
  if is__file__ d then set_replacement d (get__file__token p :: drop 1 (m_replacement d))
  else if is__line__ d then set_replacement d (line_token p :: drop 1 (m_replacement d))
  else d.

Definition macro_ok (d : macro) : Prop :=
  wf_string (m_name d) ∧
  is__file__ d = (str_cmp builtin__file__ (m_name d) =? 0) ∧
  is__line__ d = (str_cmp builtin__line__ (m_name d) =? 0) ∧
  (special d = true → m_replacement d ≠ []).

(** The macros of [p] are those of [M]; the table [tab] holds the references
    [m]. *)
Record macros_rep (p : pp) (M : gmap (list Z) macro) (tab : hash_table mref)
    (m : gmap (list Z) mref) : Prop := {
  mo_table : mt_table (pp_macros p) = Some tab;
  mo_map : represents tab m;
  mo_some k r : m !! k = Some r → ∃ d d', mt_heap (pp_macros p) !! mr_id r = Some d ∧
    M !! k = Some d' ∧ settled d = settled d' ∧ macro_ok d ∧ str_raw (m_name d) = k ∧
    (mr_id r < mt_next (pp_macros p))%N;
  mo_none k : m !! k = None → M !! k = None;
  mo_inj k r k' r' : m !! k = Some r → m !! k' = Some r' → mr_id r = mr_id r' → k = k'
}.
Definition macros_ok (p : pp) (M : gmap (list Z) macro) : Prop := ∃ tab m, macros_rep p M tab m.

(** What lookups change. *)
Definition same_but_heap (p p' : pp) : Prop := ∃ h, p' = set_heap p h.

Lemma same_but_heap_refl p : same_but_heap p p.
Proof. exists (mt_heap (pp_macros p)). by destruct p as [? ? [] ? ? ? ? ? ?]. Qed.

Lemma same_but_heap_trans p p' p'' : same_but_heap p p' → same_but_heap p' p'' → same_but_heap p p''.
Proof. intros [h ->] [h' ->]. by exists h'. Qed.

Lemma present_same p p' d : same_but_heap p p' → present p' d = present p d.
Proof. by intros [h ->]. Qed.

Lemma settled_special d d' : settled d = settled d' →
  is__file__ d = is__file__ d' ∧ is__line__ d = is__line__ d' ∧ m_type d = m_type d' ∧
  m_params d = m_params d' ∧ m_name d = m_name d' ∧ is_vararg d = is_vararg d' ∧
  (if special d then drop 1 (m_replacement d) = drop 1 (m_replacement d')
   else m_replacement d = m_replacement d').
Proof.
  destruct d as [n t ps l f v r], d' as [n' t' ps' l' f' v' r']. unfold settled, special. cbn.
  destruct l, f, l', f'; cbn; intros [= ]; by subst.
Qed.

Lemma present_settled p d d' : settled d = settled d' → present p d = present p d'.
Proof.
  intros H. apply settled_special in H as (Hf & Hl & Ht & Hp & Hn & Hv & Hr). unfold present, special in *.
  destruct d as [n t ps l f v r], d' as [n' t' ps' l' f' v' r']. cbn in *. subst.
  destruct f', l'; cbn in *; by rewrite ?Hr.
Qed.

Lemma settled_present p d : settled (present p d) = settled d.
Proof.
  destruct d as [n t ps l f v r]. unfold present, settled, special. cbn. by destruct f, l.
Qed.

Lemma line_token_get p : get__line__token p = Ok (p, line_token p).
Proof.
  unfold get__line__token, pp_register, lex_register, str_register.
  set (buf := print_d (current_file_line (pp_input p))).
  destruct (print_d_bytes (current_file_line (pp_input p))) as [_ Hl]. fold buf in Hl.
  destruct (Z.ltb_spec (Z.of_nat (length buf)) SHORT_STRING_LEN) as [_|H]; [|unfold SHORT_STRING_LEN in H; lia].
  cbn [mbind outcome_bind]. rewrite Nat2Z.id, firstn_all.
  by destruct p as [[] ? ? ? ? ? ? ? ?].
Qed.

(** ** Lookups *)

Lemma set_first_ok p id d t : m_replacement d ≠ [] →
  set_first p id d t = Ok (set_heap p (<[id := set_replacement d (t :: drop 1 (m_replacement d))]>
    (mt_heap (pp_macros p))), set_replacement d (t :: drop 1 (m_replacement d))).
Proof. unfold set_first. by destruct (m_replacement d). Qed.

(** A macro of the table replaced by one that a lookup cannot tell from it. *)
Lemma renew_ok p M tab m k r d d' : macros_rep p M tab m → m !! k = Some r →
  mt_heap (pp_macros p) !! mr_id r = Some d → settled d' = settled d → macro_ok d' →
  macros_rep (set_heap p (<[mr_id r := d']> (mt_heap (pp_macros p)))) M tab m.
Proof.
  intros Hrep Hk Hd Hs Hok. split; try apply Hrep.
  intros k' r' Hk'. destruct (mo_some _ _ _ _ Hrep _ _ Hk') as (d1 & d2 & H1 & H2 & H3 & H4 & H5 & H6).
  cbn. destruct (decide (mr_id r = mr_id r')) as [Heq|Hne].
  - rewrite Heq, lookup_insert_eq in *. rewrite Hd in H1. injection H1 as <-.
    exists d', d2. split; [done|]. split; [done|]. split; [congruence|]. split; [done|]. split; [|done].
    apply settled_special in Hs as (_ & _ & _ & _ & Hn & _). by rewrite Hn.
  - rewrite lookup_insert_ne by done. by exists d1, d2.
Qed.

Lemma present_ok p d : macro_ok d → macro_ok (present p d).
Proof.
  intros (Hw & Hf & Hl & Hs). destruct d as [n t ps l f v rp]. unfold macro_ok, present, special in *.
  cbn in *. by destruct f, l.
Qed.

Lemma macro_definition_spec p M name : macros_ok p M → wf_string name →
  ∃ p', macro_definition p name = Ok (p', present p <$> M !! str_raw name) ∧
    macros_ok p' M ∧ same_but_heap p p'.
Proof.
  intros (tab & m & Hrep) Hw. unfold macro_definition, macro_table. rewrite (mo_table _ _ _ _ Hrep).
  cbn [defined mbind outcome_bind]. rewrite (lookup_spec _ _ _ (mo_map _ _ _ _ Hrep) Hw).
  cbn [mbind outcome_bind]. destruct (m !! str_raw name) as [r|] eqn:Hm.
  2: { rewrite (mo_none _ _ _ _ Hrep _ Hm). exists p. split; [done|]. split; [by exists tab, m|].
       apply same_but_heap_refl. }
  destruct (mo_some _ _ _ _ Hrep _ _ Hm) as (d & d' & Hd & HM & Hs & Hok & Hn & _).
  unfold get_macro. rewrite Hd, HM. cbn [defined mbind outcome_bind fmap option_fmap option_map].
  rewrite <-(present_settled p _ _ Hs).
  assert (Hrenew : macros_ok (set_heap p (<[mr_id r := present p d]> (mt_heap (pp_macros p)))) M).
  { exists tab, m. eapply renew_ok; try done; [apply settled_present|by apply present_ok]. }
  destruct Hok as (Hwn & _ & _ & Hsp). unfold special in Hsp. unfold present in *.
  destruct (is__file__ d) eqn:Hf; [|destruct (is__line__ d) eqn:Hl].
  - rewrite set_first_ok by (by apply Hsp). cbn [mbind outcome_bind].
    eexists. split; [done|]. split; [exact Hrenew|by eexists].
  - rewrite line_token_get. cbn [mbind outcome_bind]. rewrite set_first_ok by (by apply Hsp).
    cbn [mbind outcome_bind]. eexists. split; [done|]. split; [exact Hrenew|by eexists].
  - exists p. split; [done|]. split; [by exists tab, m|apply same_but_heap_refl].
Qed.

(** ** Definitions *)

(** Tokens as the preprocessor builds them: a parameter or number has a
    value, any other token a string. *)
Definition token_data_ok (t : token) : Prop :=
  if is_tok PARAM t || is_tok NUMBER t then ∃ v, tk_d t = D_val v
  else ∃ s, tk_d t = D_string s ∧ wf_string s.

Lemma memcmp_refl n a : memcmp n a a = 0.
Proof. revert a. induction n as [|n IH]; intros [|x a]; try done. cbn. by rewrite Z.eqb_refl. Qed.

Lemma str_cmp_refl s : str_cmp s s = 0.
Proof.
  unfold str_cmp. rewrite Z.eqb_refl. cbn [negb]. destruct (_ <? _); [|apply memcmp_refl].
  destruct (eightbytes s) as [a b]. by rewrite !Z.eqb_refl.
Qed.

Lemma tok_cmp_refl t : token_data_ok t → tok_cmp t t = Ok 0.
Proof.
  intros Ht. unfold tok_cmp, token_data_ok, tok_val, tok_string in *. rewrite bool_decide_true by done. cbn [negb].
  destruct (is_tok PARAM t); cbn [orb] in Ht.
  { destruct Ht as [v ->]. cbn. by rewrite Z.eqb_refl. }
  destruct (is_tok NUMBER t).
  - destruct Ht as [v ->]. cbn [type_equal]. rewrite bool_decide_true by done. cbn. by rewrite Z.eqb_refl.
  - destruct Ht as (s & -> & _). cbn. by rewrite str_cmp_refl.
Qed.

Lemma replacement_cmp_refl l : Forall token_data_ok l → replacement_cmp l l = Ok 0.
Proof. induction 1 as [|t l Ht _ IH]; [done|]. cbn. by rewrite tok_cmp_refl. Qed.

Lemma macrocmp_refl d : Forall token_data_ok (m_replacement d) → macrocmp d d = Ok 0.
Proof.
  intros H. unfold macrocmp. rewrite bool_decide_true by done. rewrite Z.eqb_refl, str_cmp_refl, Nat.eqb_refl.
  by apply replacement_cmp_refl.
Qed.

Lemma set_special_ok d : macro_ok d →
  set_special d (str_cmp builtin__line__ (m_name d) =? 0) (str_cmp builtin__file__ (m_name d) =? 0) = d.
Proof. intros (_ & Hf & Hl & _). destruct d. cbn in *. by rewrite <-Hf, <-Hl. Qed.

(** What [define] does to the map; a macro whose first token lookups renew is
    not redefined here. *)
Definition map_define (M : gmap (list Z) macro) (d : macro) : outcome (gmap (list Z) macro) :=
  match M !! str_raw (m_name d) with
  | None => Ok (<[str_raw (m_name d) := d]> M)
  | Some d0 =>
    c ← macrocmp d0 d;
    if c =? 0 then Ok M else Exit "Redefinition of macro with different substitution."
  end.

Lemma define_spec p M d : macros_ok p M → macro_ok d → special d = false →
  Forall token_data_ok (m_replacement d) →
  match map_define M d with
  | Ok M' => ∃ p', define p d = Ok p' ∧ macros_ok p' M'
  | Exit e => define p d = Exit e
  | Undef e => define p d = Undef e
  end.
Proof.
  intros (tab & m & Hrep) Hok Hsp Hrepl. pose proof Hok as (Hw & Hf & Hl & _). unfold define, insert_macro, macro_table, map_define.
  rewrite (mo_table _ _ _ _ Hrep). cbn [defined mbind outcome_bind].
  destruct (insert_spec (HL:=macro_laws) tab m (MRef (m_name d) (mt_next (pp_macros p))) (mo_map _ _ _ _ Hrep) Hw)
    as (tab' & -> & Hrep'). unfold insert_result in *. change (raw_key (MRef _ _)) with (str_raw (m_name d)) in *.
  cbn [mbind outcome_bind]. destruct (m !! str_raw (m_name d)) as [r|] eqn:Hm.
  - destruct (mo_some _ _ _ _ Hrep _ _ Hm) as (d0 & d1 & Hd & HM & Hs & Hok0 & Hn & Hlt).
    rewrite HM. cbn [fst snd] in *. destruct (N.eqb_spec (mr_id r) (mt_next (pp_macros p))); [lia|].
    unfold get_macro. cbn [pp_macros set_macros mt_heap]. rewrite Hd. cbn [defined mbind outcome_bind].
    assert (Hsp0 : special d0 = false).
    { pose proof Hok0 as (Hw0 & Hf0 & Hl0 & _). unfold special in *. rewrite Hf0, Hl0.
      rewrite Hf, Hl in Hsp. apply orb_false_iff in Hsp as [H1 H2]. apply Z.eqb_neq in H1, H2.
      rewrite str_cmp_raw in H1, H2 by (done || by vm_compute; repeat constructor).
      apply orb_false_iff; split; apply Z.eqb_neq; rewrite str_cmp_raw by (done || by vm_compute; repeat constructor); congruence. }
    assert (d1 = d0) as ->.
    { apply settled_special in Hs as H0. unfold settled in Hs. rewrite Hsp0 in Hs.
      destruct H0 as (H1 & H2 & _). unfold special in *. rewrite H1, H2 in Hsp0. by rewrite Hsp0 in Hs. }
    destruct (macrocmp d0 d) as [c| |]; cbn [mbind outcome_bind]; try done.
    destruct (Z.eqb_spec c 0); cbn [negb]; [|done]. eexists. split; [done|].
    rewrite set_special_ok by done. exists tab', m. cbn. split; cbn; try done; try apply Hrep.
    intros k r' Hk. destruct (mo_some _ _ _ _ Hrep _ _ Hk) as (d2 & d3 & ? & ?).
    exists d2, d3. split; [|done]. destruct (decide (mr_id r = mr_id r')) as [He|He].
    + rewrite He, lookup_insert_eq. congruence.
    + by rewrite lookup_insert_ne.
  - rewrite (mo_none _ _ _ _ Hrep _ Hm). cbn [fst snd hash_add macro_ops id mr_id] in *. rewrite N.eqb_refl.
    unfold get_macro. cbn [pp_macros set_macros mt_heap]. rewrite lookup_insert_eq. cbn [defined mbind outcome_bind].
    rewrite macrocmp_refl by done. cbn [mbind outcome_bind Z.eqb negb]. rewrite set_special_ok by done.
    eexists. split; [done|]. eexists tab', _. split; cbn; try done.
    + intros k r. rewrite lookup_insert_Some. intros [[<- <-]|[Hne Hk]].
      * exists d, d. cbn. rewrite !lookup_insert_eq. repeat (split; [done|]). lia.
      * destruct (mo_some _ _ _ _ Hrep _ _ Hk) as (d2 & d3 & H1 & H2 & H3 & H4 & H5 & H6). exists d2, d3.
        rewrite !lookup_insert_ne by (done || lia). repeat (split; [done|]). lia.
    + intros k. rewrite !lookup_insert_None. intros [Hk Hne]. split; [|done]. by apply (mo_none _ _ _ _ Hrep).
    + intros k r k' r'. rewrite !lookup_insert_Some. intros [[<- <-]|[Hne Hk]] [[<- <-]|[Hne' Hk']] He; try done; cbn in He.
      * destruct (mo_some _ _ _ _ Hrep _ _ Hk') as (? & ? & _ & _ & _ & _ & _ & Hlt). lia.
      * destruct (mo_some _ _ _ _ Hrep _ _ Hk) as (? & ? & _ & _ & _ & _ & _ & Hlt). lia.
      * by eapply (mo_inj _ _ _ _ Hrep).
Qed.

Lemma undef_spec p M name : macros_ok p M → wf_string name →
  ∃ p', undef p name = Ok p' ∧ macros_ok p' (delete (str_raw name) M).
Proof.
  intros (tab & m & Hrep) Hw. unfold undef, macro_table. rewrite (mo_table _ _ _ _ Hrep).
  cbn [defined mbind outcome_bind].
  destruct (remove_spec tab m name (mo_map _ _ _ _ Hrep) Hw) as (tab' & -> & Hrep').
  cbn [mbind outcome_bind]. eexists. split; [done|]. exists tab', (delete (str_raw name) m).
  split; cbn; try done.
  - intros k r. rewrite lookup_delete_Some. intros [Hne Hk].
    destruct (mo_some _ _ _ _ Hrep _ _ Hk) as (d & d' & Hd & HM & H). exists d, d'.
    rewrite lookup_delete_ne by done. split; [|by split]. unfold macro_hash_del, option_elems.
    destruct (m !! str_raw name) as [r'|] eqn:Hr'; cbn; [|done].
    rewrite lookup_delete_ne; [done|]. intros He. apply Hne. by eapply (mo_inj _ _ _ _ Hrep).
  - intros k. rewrite !lookup_delete_None. intros [->|Hk]; [by left|right]. by apply (mo_none _ _ _ _ Hrep).
  - intros k r k' r'. rewrite !lookup_delete_Some. intros [_ Hk] [_ Hk']. by eapply (mo_inj _ _ _ _ Hrep).
Qed.

Lemma macro_reset_spec p : mt_table (pp_macros p) = None →
  ∃ p', macro_reset p = Ok p' ∧ macros_ok p' ∅ ∧ pp_lexer p' = pp_lexer p ∧ pp_input p' = pp_input p.
Proof.
  intros H. unfold macro_reset. rewrite H.
  destruct (init_spec (A:=mref) HASH_TABLE_BUCKETS) as (tab & -> & _ & Hr); [unfold HASH_TABLE_BUCKETS; lia|].
  cbn [mbind outcome_bind]. eexists. split; [done|]. split; [|done]. exists tab, ∅. by split.
Qed.

(** A list of definitions. *)
Fixpoint define_all (p : pp) (ds : list macro) : outcome pp :=
  match ds with [] => Ok p | d :: ds => p ← define p d; define_all p ds end.
Fixpoint map_define_all (M : gmap (list Z) macro) (ds : list macro) : outcome (gmap (list Z) macro) :=
  match ds with [] => Ok M | d :: ds => M ← map_define M d; map_define_all M ds end.

Definition definable (d : macro) : Prop :=
  macro_ok d ∧ special d = false ∧ Forall token_data_ok (m_replacement d).

Lemma define_all_spec p M ds M' : macros_ok p M → Forall definable ds → map_define_all M ds = Ok M' →
  ∃ p', define_all p ds = Ok p' ∧ macros_ok p' M'.
Proof.
  intros Hp Hds. revert p M Hp. induction Hds as [|d ds (Hok & Hsp & Hr) _ IH]; intros p M Hp; cbn.
  { intros [= <-]. by exists p. }
  pose proof (define_spec p M d Hp Hok Hsp Hr) as H.
  destruct (map_define M d) as [M1| |]; cbn [mbind outcome_bind]; try done.
  destruct H as (p1 & -> & Hp1). by apply IH.
Qed.

(** The state after the definitions alone. *)
Lemma defined_spec ds M : Forall definable ds → map_define_all ∅ ds = Ok M →
  ∃ p, (p ← macro_reset pp_start; define_all p ds) = Ok p ∧ macros_ok p M.
Proof.
  intros Hds HM. destruct (macro_reset_spec pp_start) as (p & -> & Hp & _); [done|].
  cbn [mbind outcome_bind]. by eapply define_all_spec.
Qed.

(** Tokens and macros of texts. *)
Definition ident (s : list Z) : token := IDN IDENTIFIER s.
Definition object_like (name : list Z) (repl : list token) : macro :=
  Macro (SHORT_STRING_INIT name) OBJECT_LIKE 0 false false false repl.
Definition function_like (name : list Z) (params : Z) (repl : list token) : macro :=
  Macro (SHORT_STRING_INIT name) FUNCTION_LIKE params false false false repl.
Definition param (i : Z) : token := set_number (tok_of PARAM 0) basic_type__void i.

(** Discharges [wf_string] of concrete names, and [definable] of such
    macros. *)
Ltac wf_name :=
  apply wf_short; [vm_compute; repeat constructor|vm_compute; repeat constructor; discriminate].
Ltac definable :=
  repeat (apply Forall_cons_2;
    [split; [split; [wf_name|split; [reflexivity|split; [reflexivity|discriminate]]]|split; [reflexivity|];
     repeat (apply Forall_cons_2; [eexists; first [reflexivity|split; [reflexivity|wf_name]]|]); apply Forall_nil_2]|]);
  apply Forall_nil_2.
