(* ===== verification/MacroExpand.v ===== *)
(** * Expansion against the rules of the C standard

    Rescanning (C11 6.10.3.4) as an inductive relation, and the termination and
    the result of the expansion where all macros are object-like. *)

From stdpp Require Import base list gmap fin_maps numbers strings.
From Stdlib Require Import ZArith Lia.
From stdpp Require Import base list gmap numbers strings.
From S2P Require Import Prelude CType Strings Hash HashProps Strtab Token Lexer Input Macro MacroProps LexerProps.

Local Open Scope Z_scope.

(** The name a token may be a macro by. *)
Definition token_name (t : token) : list Z :=
  match tk_d t with D_string s => str_raw s | D_val _ => [] end.
Definition expands (t : token) : bool := is_expandable t && negb (disable_expand t).

(** The first token of an expansion gets the whitespace of the name. *)
Definition respaced (t : token) (l : list token) : list token :=
  match l with
  | e :: l => set_leading_whitespace e (leading_whitespace t) :: l
  | [] => []
  end.

Section rescan.
(** The macros. *)
Context (D : list Z → option macro).

(** [rescan scope l l']: [l] expands to [l'] inside the replacement of the
    macros of [scope].  A name that is found there is never expanded again. *)
Inductive rescan (scope : list (list Z)) : list token → list token → Prop :=
  | rescan_nil : rescan scope [] []
  | rescan_copy t l l' :
      expands t = false ∨ D (token_name t) = None →
      rescan scope l l' → rescan scope (t :: l) (t :: l')
  | rescan_painted t d l l' :
      expands t = true → D (token_name t) = Some d → token_name t ∈ scope →
      rescan scope l l' → rescan scope (t :: l) (set_disable_expand t true :: l')
  | rescan_macro t d e l l' :
      expands t = true → D (token_name t) = Some d → token_name t ∉ scope →
      rescan (scope ++ [token_name t]) (m_replacement d) e →
      rescan scope l l' → rescan scope (t :: l) (respaced t e ++ l').

Lemma rescan_functional scope l l1 : rescan scope l l1 → ∀ l2, rescan scope l l2 → l1 = l2.
Proof.
  induction 1 as [|scope t l l' Hc _ IH|scope t d l l' He Hd Hin _ IH|scope t d e l l' He Hd Hin _ IHe _ IH];
    intros l2 H2; inversion H2; subst; try done; try (destruct Hc; congruence);
    try (match goal with H : _ ∨ _ |- _ => destruct H; congruence end); f_equal; auto; try done.
  match goal with H : D _ = Some ?d' |- _ => assert (d = d') as <- by congruence end.
  f_equal. by apply IHe.
Qed.

End rescan.

(** ** What object-like macros are *)

(** A token that may be a macro has a string, and is no operator. *)
Definition plain_token (t : token) : Prop :=
  (is_expandable t = true → ∃ s, tk_d t = D_string s ∧ wf_string s) ∧
  is_tok TOKEN_PASTE t = false ∧ is_tok HASH t = false.
Definition object_macro (d : macro) : Prop :=
  m_type d = OBJECT_LIKE ∧ m_params d = 0 ∧ Forall plain_token (m_replacement d).

Lemma present_object p d : object_macro d → object_macro (present p d).
Proof.
  intros (Ht & Hp & Hr). unfold present, object_macro.
  assert (Hd : Forall plain_token (drop 1 (m_replacement d))) by (by apply Forall_drop).
  destruct (is__file__ d); [|destruct (is__line__ d); [|done]]; cbn; repeat (split; [done|]);
    constructor; try done; repeat split; done.
Qed.

Lemma stringify_and_paste_plain c99 p d args list rest n : Forall plain_token rest → (length rest ≤ n)%nat →
  stringify_and_paste c99 n p d args list rest = Ok (p, list ++ rest).
Proof.
  intros Hr. revert n list. induction Hr as [|t rest (_ & Hp & Hh) _ IH]; intros n list Hn.
  { destruct n; cbn; by rewrite app_nil_r. }
  destruct n as [|n]; [cbn in Hn; lia|]. cbn [stringify_and_paste]. rewrite Hp, Hh.
  rewrite IH by (cbn in Hn; lia). by rewrite <-app_assoc.
Qed.

Lemma object_replacement c99 p d args : object_macro d →
  expand_stringify_and_paste c99 p d args = Ok (p, m_replacement d).
Proof.
  intros (_ & _ & Hr). unfold expand_stringify_and_paste.
  assert (check_paste_ends (m_replacement d) = Ok tt) as ->.
  { unfold check_paste_ends. destruct (m_replacement d) as [|t l] eqn:E; [done|]. cbn [hd].
    pose proof (Forall_inv Hr) as (_ & -> & _). destruct ((2 <? length (t :: l))%nat); [|done].
    assert (Hl : plain_token (List.last (t :: l) tok_zero)).
    { rewrite Forall_forall in Hr. apply Hr. clear. revert t.
      induction l as [|x l IH]; intros t; [by left|]. right. apply IH. }
    destruct Hl as (_ & -> & _). done. }
  cbn [mbind outcome_bind]. by rewrite stringify_and_paste_plain.
Qed.

Lemma is_expanded_spec scope name : Forall wf_string scope → wf_string name →
  is_expanded scope name = bool_decide (str_raw name ∈ str_raw <$> scope).
Proof.
  intros Hs Hw. unfold is_expanded. induction Hs as [|s scope Hws _ IH]; [done|]. cbn [existsb fmap list_fmap].
  rewrite IH. destruct (Z.eqb_spec (str_cmp s name) 0) as [H|H]; rewrite str_cmp_raw in H by done; cbn [orb].
  - symmetry. apply bool_decide_eq_true. rewrite H. by left.
  - apply bool_decide_ext. rewrite elem_of_cons. split; [by right|]. by intros [?|?].
Qed.

Lemma replace_slice_app (a b c e : list token) :
  array_replace_slice (a ++ b ++ c) (length a) (length b) e = Ok (a ++ e ++ c).
Proof.
  unfold array_replace_slice. rewrite !length_app.
  assert (((length a + length b <=? length a + (length b + length c))%nat) = true) as -> by (apply Nat.leb_le; lia).
  cbn [c_assert mbind outcome_bind]. rewrite take_app_length. do 2 f_equal.
  rewrite app_assoc, drop_app_ge by (rewrite length_app; lia).
  rewrite length_app, Nat.sub_diag, drop_0. done.
Qed.

Section object.
Context (c99 : bool) (M : gmap (list Z) macro).
Hypothesis objects : map_Forall (λ _ d, object_macro d) M.

Definition view (p : pp) (k : list Z) : option macro := present p <$> M !! k.

Lemma view_same p p' : same_but_heap p p' → view p' = view p.
Proof. by intros [h ->]. Qed.

Lemma view_object p k d : view p k = Some d → object_macro d.
Proof. unfold view. intros [d0 [H ->]]%fmap_Some. apply present_object. by apply (objects k d0). Qed.

Lemma view_dom p k d : view p k = Some d → k ∈ dom M.
Proof. unfold view. intros [d0 [H _]]%fmap_Some. by apply elem_of_dom_2 in H. Qed.

Lemma view_name p k d : macros_ok p M → view p k = Some d → wf_string (m_name d) ∧ str_raw (m_name d) = k.
Proof.
  unfold view. intros (tab & m & Hrep) [d0 [H ->]]%fmap_Some.
  destruct (m !! k) as [r|] eqn:Hm; [|by rewrite (mo_none _ _ _ _ Hrep _ Hm) in H].
  destruct (mo_some _ _ _ _ Hrep _ _ Hm) as (d1 & d2 & _ & HM & Hs & Hok & Hn & _).
  rewrite H in HM. injection HM as <-.
  assert (m_name (present p d0) = m_name d1) as ->; [|by destruct Hok].
  rewrite <-(present_settled p _ _ Hs). unfold present. by destruct (is__file__ d1), (is__line__ d1).
Qed.

(** What the expansion inside a macro gives, for the macros of [p]. *)
Definition expands_to (line : pp → list kstring → list token → outcome (pp * list token * Z))
    (p : pp) (scope : list kstring) (l : list token) : Prop :=
  ∃ p' l' n, line p scope l = Ok (p', l', n) ∧ rescan (view p) (str_raw <$> scope) l l' ∧
    macros_ok p' M ∧ same_but_heap p p'.

(** The scope of an expansion in progress: macros, each once. *)
Definition scope_ok (scope : list kstring) : Prop :=
  Forall wf_string scope ∧ NoDup (str_raw <$> scope) ∧ Forall (λ s, str_raw s ∈ dom M) scope.

Section step.
Context (line : pp → list kstring → list token → outcome (pp * list token * Z)).
Context (scope : list kstring) (Hscope : scope_ok scope).
(** The lists one level deeper. *)
Hypothesis deeper : ∀ p name l, macros_ok p M → scope_ok (scope ++ [name]) → Forall plain_token l →
  expands_to line p (scope ++ [name]) l.

Lemma object_step p t done rest : macros_ok p M → plain_token t →
  ∃ p' e d, expand_step c99 line p scope (done ++ t :: rest) (length done) t =
      Ok (p', done ++ e ++ rest, length (done ++ e), d) ∧
    macros_ok p' M ∧ same_but_heap p p' ∧
    ∀ l', rescan (view p) (str_raw <$> scope) rest l' →
      rescan (view p) (str_raw <$> scope) (t :: rest) (e ++ l').
Proof.
  intros Hp (Hs & _). destruct Hscope as (Hw & Hnd & Hdom). unfold expand_step.
  assert (Hcopy : expands t = false ∨ view p (token_name t) = None → ∀ l',
    rescan (view p) (str_raw <$> scope) rest l' → rescan (view p) (str_raw <$> scope) (t :: rest) ([t] ++ l')).
  { intros H l' Hl. by apply rescan_copy. }
  destruct (expands t) eqn:He; unfold expands in He.
  2: { assert (negb (is_expandable t) || disable_expand t = true) as ->
         by (destruct (is_expandable t), (disable_expand t); done).
       exists p, [t], 0. rewrite length_app, Nat.add_1_r. split; [done|]. split; [done|].
       split; [apply same_but_heap_refl|]. apply Hcopy. by left. }
  apply andb_prop in He as [He Hd]. rewrite He. apply negb_true_iff in Hd as Hd'. rewrite Hd'. cbn [negb orb].
  destruct (Hs He) as (name & Hname & Hwn). unfold tok_string. rewrite Hname. cbn [mbind outcome_bind].
  assert (Htn : token_name t = str_raw name) by (unfold token_name; by rewrite Hname).
  destruct (macro_definition_spec p M name Hp Hwn) as (p1 & -> & Hp1 & Hsame). cbn [mbind outcome_bind].
  change (present p <$> M !! str_raw name) with (view p (str_raw name)). rewrite <-Htn in *.
  destruct (view p (token_name t)) as [d|] eqn:Hv.
  2: { exists p1, [t], 0. rewrite length_app, Nat.add_1_r. split; [done|]. split; [done|]. split; [done|].
       apply Hcopy. by right. }
  rewrite is_expanded_spec by done. rewrite <-Htn.
  assert (Hexp : expands t = true) by (unfold expands; by rewrite He, Hd').
  case_bool_decide as Hin.
  { exists p1, [set_disable_expand t true], 0. rewrite insert_app_r_alt, Nat.sub_diag by lia.
    rewrite length_app, Nat.add_1_r. split; [done|]. split; [done|]. split; [done|]. intros l' Hl.
    by eapply rescan_painted. }
  pose proof (view_object _ _ _ Hv) as Hobj. pose proof Hobj as (Hty & Hpar & Hplain).
  rewrite (bool_decide_false (m_type d = FUNCTION_LIKE)) by (by rewrite Hty). cbn [andb].
  unfold read_args. rewrite (bool_decide_false (m_type d = FUNCTION_LIKE)) by (by rewrite Hty).
  cbn [mbind outcome_bind]. unfold expand_macro. rewrite object_replacement by done.
  cbn [mbind outcome_bind]. rewrite Hpar. cbn [Z.ltb Z.compare mbind outcome_bind].
  destruct (view_name _ _ _ Hp1 ltac:(rewrite (view_same _ _ Hsame); exact Hv)) as [Hwd Hnd'].
  destruct (deeper p1 (m_name d) (m_replacement d) Hp1) as (p2 & e & n & -> & Hr & Hp2 & Hsame2).
  { split; [by apply Forall_app_2, Forall_singleton|]. rewrite fmap_app. cbn. rewrite Hnd'. split.
    - apply NoDup_app. split; [done|]. split; [|apply NoDup_singleton]. intros x Hx ->%list_elem_of_singleton. done.
    - apply Forall_app_2; [done|]. apply Forall_singleton. rewrite Hnd'. by eapply view_dom. }
  { done. }
  cbn [mbind outcome_bind]. rewrite drop_app_ge by lia.
  replace (S (length done) - length done)%nat with 1%nat by lia. change (drop 1 (t :: rest)) with rest.
  rewrite length_app. cbn [length]. replace (length done + S (length rest) - length rest - length done)%nat with 1%nat by lia.
  change (match e with [] => [] | e0 :: expn => set_leading_whitespace e0 (leading_whitespace t) :: expn end)
    with (respaced t e).
  change (done ++ t :: rest) with (done ++ [t] ++ rest). rewrite (replace_slice_app done [t] rest).
  cbn [mbind outcome_bind]. exists p2, (respaced t e), 1. rewrite length_app. split; [done|]. split; [done|].
  split; [by eapply same_but_heap_trans|]. intros l' Hl. rewrite fmap_app in Hr. cbn in Hr. rewrite Hnd' in Hr.
  rewrite (view_same _ _ Hsame) in Hr. by eapply rescan_macro.
Qed.

Lemma object_loop k p done rest n : macros_ok p M → Forall plain_token rest → (length rest ≤ k)%nat →
  ∃ p' l' n', expand_loop c99 line k p scope (done ++ rest) (length done) n = Ok (p', done ++ l', n') ∧
    rescan (view p) (str_raw <$> scope) rest l' ∧ macros_ok p' M ∧ same_but_heap p p'.
Proof.
  intros Hp Hr. revert k p done n Hp. induction Hr as [|t rest Ht _ IH]; intros k p done n Hp Hk.
  { exists p, [], n. rewrite app_nil_r. split; [|split; [constructor|split; [done|apply same_but_heap_refl]]].
    destruct k; cbn [expand_loop]; by rewrite lookup_ge_None_2. }
  destruct k as [|k]; [cbn in Hk; lia|]. cbn [expand_loop].
  rewrite list_lookup_middle by done.
  destruct (object_step p t done rest Hp Ht) as (p1 & e & d & -> & Hp1 & Hsame & Hstep).
  cbn [mbind outcome_bind]. rewrite app_assoc.
  destruct (IH k p1 (done ++ e) (n + d) Hp1) as (p2 & l' & n' & -> & Hres & Hp2 & Hsame2); [cbn in Hk; lia|].
  exists p2, (e ++ l'), n'. rewrite app_assoc. split; [done|]. rewrite (view_same _ _ Hsame) in Hres.
  split; [by apply Hstep|]. split; [done|]. by eapply same_but_heap_trans.
Qed.
End step.

(** As many expansions can be inside each other as there are macros. *)
Lemma object_line depth p scope l : macros_ok p M → scope_ok scope → Forall plain_token l →
  (size M < depth + length scope)%nat → expands_to (expand_line c99 depth) p scope l.
Proof.
  revert p scope l. induction depth as [|depth IH]; intros p scope l Hp Hs Hl Hd.
  { exfalso. destruct Hs as (_ & Hnd & Hdom).
    assert (H : (size (list_to_set (str_raw <$> scope) : gset (list Z)) ≤ size (dom M))%nat).
    { apply subseteq_size. intros x Hx%elem_of_list_to_set%list_elem_of_fmap. destruct Hx as (s & -> & Hin).
      rewrite Forall_forall in Hdom. by apply Hdom. }
    rewrite size_list_to_set, length_fmap, size_dom in H by done. lia. }
  destruct (object_loop (expand_line c99 depth) scope Hs) with (k := length l) (p := p) (done := @nil token)
    (rest := l) (n := 0) as (p' & l' & n' & He & Hr & Hp' & Hsame); try done.
  - intros p1 name l1 Hp1 Hs1 Hl1. apply IH; try done. rewrite length_app. cbn. lia.
  - by exists p', l', n'.
Qed.
End object.

(** * The text of stringified tokens

    What the operator [#] writes, read back as a string literal, is the
    spelling of its operand with the whitespace between tokens made single
    blanks. *)

(** The spelling of a token whose string is [raw]. *)
Definition spelling (t : token) (raw : list Z) : list Z :=
  match tk_token t with
  | PREP_STRING | STRING => 34 :: raw ++ [34]
  | PREP_CHAR => ch "'" :: raw ++ [ch "'"]
  | _ => raw
  end.

(** The characters of a token. *)
Definition token_raw (t : token) : list Z :=
  match tk_d t with D_string s => str_raw s | D_val _ => [] end.

(** A token of an argument: it has a string, which has a backslash in literals
    only. *)
Definition text_token (t : token) : Prop :=
  (∃ s, tk_d t = D_string s ∧ wf_string s) ∧
  is_tok NEWLINE t = false ∧ is_tok END t = false ∧ is_tok NUMBER t = false ∧ is_tok BACKSLASH t = false ∧
  (is_quoted t = true ∨ 92 ∉ token_raw t).

(** The spelling of the tokens behind the first one. *)
Fixpoint spelled (ts : list token) : list Z :=
  match ts with
  | t :: ts => (if leading_whitespace t =? 0 then [] else [32]) ++ spelling t (token_raw t) ++ spelled ts
  | [] => []
  end.
Definition spelled_tokens (ts : list token) : list Z :=
  match ts with t :: ts => spelling t (token_raw t) ++ spelled ts | [] => [] end.

(** What is written for them. *)
Fixpoint written (ts : list token) : list Z :=
  match ts with
  | t :: ts => (if leading_whitespace t =? 0 then [] else [32]) ++ stringify_text t (token_raw t) ++ written ts
  | [] => []
  end.
Definition written_tokens (ts : list token) : list Z :=
  match ts with t :: ts => stringify_text t (token_raw t) ++ written ts | [] => [] end.

(** The room reserved for a token is enough for its text. *)
Definition fits (t : token) : Prop :=
  (length (stringify_text t (token_raw t)) ≤ 2 * length (token_raw t))%nat.
Definition room (ts : list token) : Prop :=
  Forall fits ts ∨ (length (written_tokens ts) ≤ 8 * length ts)%nat.

(** ** Reading the text back *)

(** A text that is read as the characters [l], whatever follows. *)
Definition reads_as (e l : list Z) : Prop :=
  (length l ≤ length e)%nat ∧
  ∀ n r cs, convert_chars n r = Ok cs → convert_chars (length l + n) (e ++ r) = Ok (l ++ cs).

Lemma reads_nil : reads_as [] [].
Proof. split; [done|]. by intros n r cs H. Qed.

Lemma reads_app e l e' l' : reads_as e l → reads_as e' l' → reads_as (e ++ e') (l ++ l').
Proof.
  intros [Hl H] [Hl' H']. split; [rewrite !length_app; lia|]. intros n r cs Hr.
  rewrite length_app, <-!app_assoc, <-Nat.add_assoc. apply H, H', Hr.
Qed.

Lemma reads_char c : c ≠ 92 → reads_as [c] [c].
Proof.
  intros Hc. split; [done|]. intros n r cs H. cbn [length Nat.add app convert_chars convert_char].
  rewrite (proj2 (Z.eqb_neq _ _) Hc). cbn [mbind outcome_bind]. by rewrite H.
Qed.

Lemma reads_escape c : c = 34 ∨ c = 92 → reads_as [92; c] [c].
Proof. intros [-> | ->]; (split; [cbn; lia|]); intros n r cs H; cbn; by rewrite H. Qed.

Lemma reads_plain l : 92 ∉ l → reads_as l l.
Proof.
  induction l as [|c l IH]; [intros _; apply reads_nil|]. intros H%not_elem_of_cons.
  destruct H as [Hc Hl]. apply (reads_app [c] [c]); [by apply reads_char|by apply IH].
Qed.

Lemma reads_escaped l : reads_as (str_write_escaped l) l.
Proof.
  induction l as [|c l IH]; [apply reads_nil|]. cbn [str_write_escaped].
  destruct (Z.eqb_spec c 34) as [->|H1]; [|destruct (Z.eqb_spec c 92) as [->|H2]]; cbn [orb].
  - apply (reads_app [92; 34] [34]); [by apply reads_escape; left|done].
  - apply (reads_app [92; 92] [92]); [by apply reads_escape; right|done].
  - apply (reads_app [c] [c]); [by apply reads_char|done].
Qed.

Lemma reads_token t : text_token t → reads_as (stringify_text t (token_raw t)) (spelling t (token_raw t)).
Proof.
  intros (_ & _ & _ & _ & Hb & Hq). unfold stringify_text, spelling.
  assert (Hs : reads_as ([92; 34] ++ str_write_escaped (token_raw t) ++ [92; 34]) (34 :: token_raw t ++ [34])).
  { apply (reads_app [92; 34] [34]); [by apply reads_escape; left|].
    apply reads_app; [apply reads_escaped|by apply reads_escape; left]. }
  assert (Hc : reads_as ([ch "'"] ++ str_write_escaped (token_raw t) ++ [ch "'"]) (ch "'" :: token_raw t ++ [ch "'"])).
  { apply (reads_app [ch "'"] [ch "'"]); [by apply reads_char|].
    apply reads_app; [apply reads_escaped|by apply reads_char]. }
  unfold is_quoted, is_tok in *. destruct (tk_token t); try done; cbn in Hq; destruct Hq as [Hq|Hq]; try done; by apply reads_plain.
Qed.

Lemma reads_written ts : Forall text_token ts → reads_as (written ts) (spelled ts).
Proof.
  induction 1 as [|t ts Ht _ IH]; [apply reads_nil|]. cbn [written spelled].
  apply reads_app; [|apply reads_app; [by apply reads_token|done]].
  destruct (_ =? 0); [apply reads_nil|by apply reads_char].
Qed.

Lemma reads_tokens ts : Forall text_token ts → reads_as (written_tokens ts) (spelled_tokens ts).
Proof.
  intros H. destruct H as [|t ts Ht Hts]; [apply reads_nil|].
  apply reads_app; [by apply reads_token|by apply reads_written].
Qed.

(** ** Writing it *)

Lemma concat_ok buf cap t : text_token t →
  let ws := if leading_whitespace t =? 0 then [] else [32] in
  let out := buf ++ ws ++ stringify_text t (token_raw t) in
  fits t ∨ (length out ≤ cap)%nat →
  ∃ cap', stringify_concat buf cap t = Ok (out, cap') ∧ (cap ≤ cap')%nat.
Proof.
  intros ((s & Hs & Hw) & _ & _ & Hn & _) ws out Hfit. unfold stringify_concat. rewrite Hn. cbn [negb c_assert mbind outcome_bind].
  unfold tok_string. unfold out, fits, token_raw in *. rewrite Hs in *. cbn [mbind outcome_bind]. fold ws.
  pose proof (length_str_raw s Hw) as Hlen.
  set (len := (length ws + Z.to_nat (s_len s) * 2)%nat).
  set (cap' := if (cap <? length buf + len)%nat then (length buf + len)%nat else cap).
  assert (Hcap : (cap ≤ cap')%nat ∧ (length buf + len ≤ cap')%nat).
  { unfold cap'. destruct (Nat.ltb_spec cap (length buf + len)); lia. }
  assert (Hle : (length (buf ++ ws ++ stringify_text t (str_raw s)) ≤ cap')%nat).
  { destruct Hfit as [Hfit|Hfit]; [|lia]. rewrite !length_app. rewrite Hlen in Hfit. unfold len in Hcap. lia. }
  rewrite (proj2 (Nat.leb_le _ _) Hle). exists cap'. split; [done|apply Hcap].
Qed.

Lemma loop_ok ts buf cap : Forall text_token ts →
  Forall fits ts ∨ (length (buf ++ written ts) ≤ cap)%nat →
  stringify_loop false ts buf cap = Ok (buf ++ written ts).
Proof.
  intros Hts. revert buf cap. induction Hts as [|t ts Ht Hts IH]; intros buf cap Hroom; [by rewrite app_nil_r|].
  cbn [stringify_loop written] in *. pose proof Ht as (_ & -> & -> & _). cbn [negb c_assert mbind outcome_bind].
  destruct (concat_ok buf cap t Ht) as (cap' & -> & Hcap).
  { destruct Hroom as [H|H]; [left; by inversion H|right]. rewrite !length_app in *. lia. }
  cbn [mbind outcome_bind]. rewrite IH; [by rewrite <-!app_assoc|].
  destruct Hroom as [H|H]; [left; by inversion H|right]. rewrite !length_app in *. lia.
Qed.

Lemma loop_tokens ts : ts ≠ [] → Forall text_token ts → room ts →
  stringify_loop true ts [] (length ts * 8) = Ok (written_tokens ts).
Proof.
  intros Hne Hts Hroom. destruct Hts as [|t ts Ht Hts]; [done|].
  assert (Ht0 : text_token (set_leading_whitespace t 0)) by (by destruct t).
  cbn [stringify_loop written_tokens]. pose proof Ht as (_ & -> & -> & _). cbn [negb c_assert mbind outcome_bind].
  assert (Hsame : stringify_text (set_leading_whitespace t 0) (token_raw (set_leading_whitespace t 0)) =
    stringify_text t (token_raw t)) by (by destruct t).
  destruct (concat_ok [] (length (t :: ts) * 8) (set_leading_whitespace t 0) Ht0) as (cap' & -> & Hcap).
  { destruct Hroom as [H|H]; [left; destruct t; exact (Forall_inv H)|right]. cbn [leading_whitespace set_leading_whitespace].
    change (wrap_u 16 0 =? 0) with true. cbn [app]. rewrite Hsame. cbn [written_tokens] in H. rewrite length_app in H. lia. }
  cbn [leading_whitespace set_leading_whitespace]. change (wrap_u 16 0 =? 0) with true.
  cbn [app mbind outcome_bind]. rewrite Hsame. apply loop_ok; [done|].
  destruct Hroom as [H|H]; [left; by inversion H|right]. cbn [written_tokens] in H. lia.
Qed.

Definition no_backslash_end (l : list Z) : Prop := List.last l 0 ≠ 92.

Lemma last_app (a b : list Z) : no_backslash_end a → no_backslash_end b → no_backslash_end (a ++ b).
Proof.
  unfold no_backslash_end. induction a as [|x a IH]; [done|]. intros Ha Hb.
  destruct a as [|y a]; [cbn in *; destruct b; [done|by cbn in *]|].
  change (List.last ((x :: y :: a) ++ b) 0) with (List.last ((y :: a) ++ b) 0). by apply IH.
Qed.

Lemma plain_end l : 92 ∉ l → no_backslash_end l.
Proof.
  unfold no_backslash_end. induction l as [|x [|y l] IH]; intros H; cbn in *; [done| |].
  - intros ->. apply H. by left.
  - apply IH. intros Hin. apply H. by right.
Qed.

Lemma snoc_end a c : c ≠ 92 → no_backslash_end (a ++ [c]).
Proof. intros Hc. unfold no_backslash_end. by rewrite List.last_last. Qed.

Lemma text_end t : text_token t → no_backslash_end (stringify_text t (token_raw t)).
Proof.
  intros (_ & _ & _ & _ & Hb & Hq). unfold stringify_text.
  assert (Hs : no_backslash_end ([92; 34] ++ str_write_escaped (token_raw t) ++ [92; 34])).
  { change [92; 34] with ([92] ++ [34]) at 2. rewrite !app_assoc. by apply snoc_end. }
  assert (Hc : no_backslash_end ([ch "'"] ++ str_write_escaped (token_raw t) ++ [ch "'"])).
  { rewrite app_assoc. by apply snoc_end. }
  unfold is_quoted, is_tok in *. destruct (tk_token t); try done; cbn in Hq; destruct Hq as [Hq|Hq]; try done; by apply plain_end.
Qed.

Lemma written_end ts : Forall text_token ts → no_backslash_end (written_tokens ts).
Proof.
  intros H. destruct H as [|t ts Ht Hts]; [done|]. apply last_app; [by apply text_end|].
  induction Hts as [|u ts Hu _ IH]; [done|]. apply last_app; [by destruct (_ =? 0)|].
  apply last_app; [by apply text_end|done].
Qed.

Lemma escaped_bytes l : Forall is_byte l → Forall is_byte (str_write_escaped l).
Proof.
  induction 1 as [|c l Hc _ IH]; [constructor|]. cbn. apply Forall_app_2; [|by constructor].
  destruct (_ || _); [|constructor]. repeat constructor; done.
Qed.

Lemma text_bytes t : text_token t → Forall is_byte (stringify_text t (token_raw t)).
Proof.
  intros ((s & Hs & _ & Hb & _) & _). assert (Hr : Forall is_byte (token_raw t)).
  { unfold token_raw. rewrite Hs. by apply Forall_take. }
  unfold stringify_text. destruct (tk_token t); try done;
    (apply Forall_app_2; [repeat constructor; done|apply Forall_app_2; [by apply escaped_bytes|repeat constructor; done]]).
Qed.

Lemma written_bytes ts : Forall text_token ts → Forall is_byte (written_tokens ts).
Proof.
  intros H. destruct H as [|t ts Ht Hts]; [constructor|]. apply Forall_app_2; [by apply text_bytes|].
  induction Hts as [|u ts Hu _ IH]; [constructor|].
  apply Forall_app_2; [destruct (_ =? 0); repeat constructor; done|].
  apply Forall_app_2; [by apply text_bytes|done].
Qed.

(** ** The operator *)

(** A literal that reads as [l] is converted to a string of [l]. *)
Lemma convert_text lx t e l : lexer_ok lx → reads_as e l → Forall is_byte l → Z.of_nat (length e) < 2 ^ 16 →
  tk_d t = D_string (intern e) →
  ∃ lx', convert_preprocessing_string lx t = Ok (lx', set_string (tok_of STRING 0) (intern l)) ∧ lexer_ok lx'.
Proof.
  intros Hok [Hlen Hr] Hl Hn Ht. unfold convert_preprocessing_string, tok_string. rewrite Ht.
  cbn [mbind outcome_bind]. rewrite intern_raw.
  specialize (Hr (length e - length l)%nat [] []). rewrite !app_nil_r in Hr.
  replace (length l + (length e - length l))%nat with (length e) in Hr by lia.
  rewrite Hr by (by destruct (length e - length l)%nat).
  cbn [mbind outcome_bind get_string_buffer lx_buffer lx_strtab lx_strings].
  set (b := lx_buffer lx ++ replicate (length e - length (lx_buffer lx)) 0).
  assert (Hb : (length l ≤ length b)%nat) by (unfold b; rewrite length_app, length_replicate; lia).
  assert (Bb : Forall is_byte b).
  { apply Forall_app_2; [apply Hok|apply Forall_replicate; done]. }
  rewrite (proj2 (Nat.leb_le _ _) Hb). cbn [mbind outcome_bind].
  assert (Bm : Forall is_byte (memcpy_at b l)) by (apply Forall_app_2; [done|by apply Forall_drop]).
  destruct (lex_register_ok (Lexer (lx_strtab lx) (lx_strings lx) (memcpy_at b l)) (memcpy_at b l) (length l))
    as (lx' & -> & Hok' & _); [by split; [apply Hok|]|done|lia|unfold memcpy_at; rewrite length_app; lia|].
  unfold memcpy_at. rewrite take_app_length. by exists lx'.
Qed.

Lemma spelling_bytes t : text_token t → Forall is_byte (spelling t (token_raw t)).
Proof.
  intros ((s & Hs & _ & Hb & _) & _). assert (Hr : Forall is_byte (token_raw t)).
  { unfold token_raw. rewrite Hs. by apply Forall_take. }
  unfold spelling. destruct (tk_token t); try done;
    (apply Forall_cons_2; [done|apply Forall_app_2; [done|repeat constructor; done]]).
Qed.

Lemma spelled_bytes ts : Forall text_token ts → Forall is_byte (spelled_tokens ts).
Proof.
  intros H. destruct H as [|t ts Ht Hts]; [constructor|]. apply Forall_app_2; [by apply spelling_bytes|].
  induction Hts as [|u ts Hu _ IH]; [constructor|].
  apply Forall_app_2; [destruct (_ =? 0); repeat constructor; done|].
  apply Forall_app_2; [by apply spelling_bytes|done].
Qed.

(** The token that [stringify] gives: a literal of the text, or a string with
    the characters of a single token. *)
Lemma stringify_ok p ts : ts ≠ [] → Forall text_token ts → room ts → lexer_ok (pp_lexer p) →
  Z.of_nat (length (written_tokens ts)) < 2 ^ 16 →
  ∃ p' ty s, stringify p ts = Ok (p', set_string (tok_of ty (leading_whitespace (hd tok_zero ts))) s) ∧
    lexer_ok (pp_lexer p') ∧
    (ty = STRING ∧ str_raw s = spelled_tokens ts ∨ ty = PREP_STRING ∧ s = intern (written_tokens ts)).
Proof.
  intros Hne Hts Hroom Hok Hlen. unfold stringify. destruct ts as [|t rest]; [done|].
  pose proof (Forall_inv Hts) as ((s & Hs & Hw) & Hnl & Hend & Hnum & _).
  rewrite Hend, Hnum. cbn [negb c_assert mbind outcome_bind].
  assert (Hassert : (if is_quoted t then Ok tt else Ok tt) = Ok tt) by by destruct (is_quoted t).
  rewrite Hassert. cbn [mbind outcome_bind].
  destruct (negb (is_quoted t) && (length rest =? 0)%nat) eqn:Hsingle.
  - apply andb_prop in Hsingle as [Hq Hr]. destruct rest; [|done]. unfold tok_string. rewrite Hs. cbn [mbind outcome_bind].
    exists p, STRING, s. split; [done|]. split; [done|]. left. split; [done|].
    unfold spelled_tokens, spelled, spelling, token_raw. rewrite Hs, app_nil_r.
    unfold is_quoted, is_tok in Hq. by destruct (tk_token t).
  - rewrite loop_tokens by done. cbn [mbind outcome_bind].
    assert (negb (length (written_tokens (t :: rest)) =? 0)%nat && (List.last (written_tokens (t :: rest)) 0 =? 92) = false) as ->.
    { apply andb_false_intro2, Z.eqb_neq. by apply written_end. }
    unfold pp_register.
    destruct (lex_register_ok (pp_lexer p) (written_tokens (t :: rest)) (length (written_tokens (t :: rest))) Hok)
      as (lx' & -> & Hok' & _); [by apply written_bytes|done|done|]. rewrite firstn_all. cbn [mbind outcome_bind].
    exists (set_lexer p lx'), PREP_STRING, (intern (written_tokens (t :: rest))).
    split; [done|]. split; [done|]. by right.
Qed.
