(* ===== verification/Immediate.v ===== *)
(** * Constant values (the values of src/parser/eval.c)

    [union value] and the conversions between the types a constant can have.
    A union is its 64 bits; its members [u] and [i] are all of them, [d] and
    [ld] (a [double] too) the bits of a double, [f] the lower half. *)

From stdpp Require Import base list numbers strings.
From Stdlib Require Import ZArith Lia.
From S2P Require Import Prelude CType Floats CArith.

Local Open Scope Z_scope.

(** [v.u], [v.i] and [v.f]; writing [v.f] leaves the upper half. *)
Definition val_u (v : Z) : Z := wrap_u 64 v.
Definition val_i (v : Z) : Z := wrap_s 64 v.
Definition val_f (v : Z) : Z := wrap_u 32 v.
Definition set_f (v f : Z) : Z := Z.lor (Z.shiftl (Z.shiftr (val_u v) 32) 32) (wrap_u 32 f).

Section immediates.
Context `{FloatArith}.

(** The member that a floating type selects, with its type. *)
Definition real_member (t : ctype) (v : Z) : option (fty * Z) :=
  if is_float t then Some (F32, val_f v)
  else if is_double t || is_long_double t then Some (F64, val_u v)
  else None.

Definition is_zero_value (v : Z) (t : ctype) : outcome bool :=
  _ ← c_assert (is_scalar t);
  Ok (match real_member t v with
      | Some (f, x) => fcmp f CEq x (f_of_z f 0)
      | None => val_u v =? 0
      end).

(** [is_float_above] and [is_float_below]; [n] is converted to the type of
    the value. *)
Definition is_float_above (v : Z) (t : ctype) (n : Z) : bool :=
  match real_member t v with Some (f, x) => fcmp f CGt x (f_of_z f n) | None => false end.
Definition is_float_below (v : Z) (t : ctype) (n : Z) : bool :=
  match real_member t v with Some (f, x) => fcmp f CLt x (f_of_z f n) | None => false end.

(** [cast_immediate] to an integer type; what is none of the types tested is
    read as a [long double]. *)
Definition cast_immediate (v : Z) (t : ctype) (k : ity) : outcome Z :=
  if is_signed t then Ok (conv k (val_i v))
  else if is_unsigned t || is_pointer t then Ok (conv k (val_u v))
  else
    let '(f, x) := if is_float t then (F32, val_f v) else (F64, val_u v) in
    defined "a floating value that the integer type does not have" (f_to_int f k x).

(** The case of an integer type [k] of [convert]. *)
Definition convert_integer (v : Z) (t : ctype) (k : ity) : outcome Z :=
  let lo := if isigned k then - 2 ^ (iwidth k - 1) else 0 in
  let hi := if isigned k then 2 ^ (iwidth k - 1) - 1 else 2 ^ iwidth k - 1 in
  z ← (if is_float_below v t lo then Ok lo
       else if is_float_above v t hi then Ok hi
       else cast_immediate v t k);
  Ok (wrap_u 64 z).

Definition convert (v : Z) (type to : ctype) : outcome Z :=
  match type_of to with
  | T_FLOAT =>
    Ok (if is_double type then set_f v (f_cvt F64 F32 (val_u v))
        else if is_signed type then set_f v (f_of_z F32 (val_i v))
        else if is_unsigned type then set_f v (f_of_z F32 (val_u v))
        else if is_long_double type then set_f v (f_cvt F64 F32 (val_u v))
        else v)
  | T_DOUBLE | T_LDOUBLE =>
    Ok (if is_float type then f_cvt F32 F64 (val_f v)
        else if is_signed type then f_of_z F64 (val_i v)
        else if is_unsigned type then f_of_z F64 (val_u v)
        else v)
  | T_BOOL => z ← is_zero_value v type; Ok (Z.b2z (negb z))
  | T_POINTER => convert_integer v type U64
  | T_CHAR | T_SHORT | T_INT | T_LONG =>
    match ity_of to with Some k => convert_integer v type k | None => Exit "assertion failed" end
  | _ => Exit "assertion failed"
  end.

End immediates.
