(* ===== verification/Directive.v ===== *)
(** * Directives (src/preprocessor/directive.c)

    The expressions of [#if], the stack of conditional groups, and the
    directives.  As in Macro a pointer to a token is the list of the tokens
    from it on.  The values of expressions are 64 bits with a type. *)

From stdpp Require Import base list gmap numbers strings.
From Stdlib Require Import ZArith Lia.
From S2P Require Import Prelude CType Floats CArith Strings Hash Strtab Typetree Token Lexer Input Macro Immediate.

Local Open Scope Z_scope.

Definition IDENT (s : list Z) : token := IDN IDENTIFIER s.
Definition ident__include : token := IDENT (cstr "include").
Definition ident__defined : token := IDENT (cstr "defined").
Definition ident__define : token := IDENT (cstr "define").
Definition ident__ifndef : token := IDENT (cstr "ifndef").
Definition ident__ifdef : token := IDENT (cstr "ifdef").
Definition ident__undef : token := IDENT (cstr "undef").
Definition ident__elif : token := IDENT (cstr "elif").
Definition ident__endif : token := IDENT (cstr "endif").
Definition ident__error : token := IDENT (cstr "error").
Definition ident__line : token := IDENT (cstr "line").
Definition ident__pragma : token := IDENT (cstr "pragma").
Definition ident__Pragma : token := IDENT (cstr "_Pragma").
Definition ident__VA_ARGS__ : token := IDENT (cstr "__VA_ARGS__").

(** ** The stack of groups *)

Definition push_state (p : pp) (c : state) : pp := set_branches p (c :: branch_stack p).

Definition pop_state (p : pp) : outcome (pp * state) :=
  match branch_stack p with
  | [] => Exit "Unmatched #endif directive."
  | c :: st => Ok (set_branches p st, c)
  end.

Definition in_active_block (p : pp) : bool :=
  match branch_stack p with [] => true | c :: _ => bool_decide (c = BRANCH_LIVE) end.

(** ** Expressions *)

(** [*list] and [list->token]. *)
Definition head (l : list token) : outcome token :=
  match l with t :: _ => Ok t | [] => Undef "past the end of the token array" end.
Definition token_at (l : list token) : outcome token_type := t ← head l; Ok (tk_token t).
Definition next_tokens (l : list token) : list token := drop 1 l.

Definition expect (l : list token) (t : token_type) : outcome unit :=
  x ← head l; if is_tok t x then Ok tt else Exit "Unexpected token.".

(** [struct number]; [n_val] are the bits of the value. *)
Record number : Set := Number { n_type : ctype; n_val : Z }.
Definition val_bool (z : bool) : Z := Z.b2z z.

Section expressions.
Context `{FA : FloatArith} (ulong_bits : Z).
Context (p : pp).

(** Conversion of a value to 64 bits, as at the end of [preprocess_primary]. *)
Definition normalize (num : number) : outcome number :=
  if negb (is_integer (n_type num)) then Exit "Preprocessing number must be integer."
  else
    n ← size_of 1 [] (n_type num);
    if n =? 8 then Ok num
    else
      let ty := if is_signed (n_type num) then basic_type__long else basic_type__unsigned_long in
      v ← convert (n_val num) (n_type num) ty;
      Ok (Number ty v).

Definition both_signed (l r : number) : outcome (number * number * bool) :=
  eq ← type_equal 1 [] (n_type l) (n_type r);
  '(l, r, type) ←
    (if negb eq then
       type ← usual_arithmetic_conversion (n_type l) (n_type r);
       lv ← convert (n_val l) (n_type l) type;
       rv ← convert (n_val r) (n_type r) type;
       Ok (Number type lv, Number type rv, type)
     else Ok (l, r, n_type l));
  _ ← c_assert (is_integer type);
  Ok (l, r, is_signed type).

(** [l.val op= r.val] on the member that [both_signed] selects. *)
Definition arith_assign (f : ity → Z → Z → outcome Z) (l r : number) : outcome number :=
  '(l, r, s) ← both_signed l r;
  z ← (if s : bool then f I64 (val_i (n_val l)) (val_i (n_val r))
       else f U64 (val_u (n_val l)) (val_u (n_val r)));
  Ok (Number (n_type l) (wrap_u 64 z)).

Definition compare_assign (o : cmpop) (l r : number) : outcome number :=
  '(l, r, s) ← both_signed l r;
  let b := if s : bool then z_cmp o (val_i (n_val l)) (val_i (n_val r))
           else z_cmp o (val_u (n_val l)) (val_u (n_val r)) in
  Ok (Number basic_type__long (val_bool b)).

(** [r.val.i = f(r.val.i)] or the same of [u]. *)
Definition unary_assign (f : ity → Z → outcome Z) (r : number) : outcome number :=
  z ← (if is_signed (n_type r) then f I64 (val_i (n_val r)) else f U64 (val_u (n_val r)));
  Ok (Number (n_type r) (wrap_u 64 z)).

(** [preprocess_expression] inside parentheses. *)
Context (expression : list token → outcome (number * list token)).

Definition preprocess_primary (l : list token) : outcome (number * list token) :=
  t ← head l;
  '(num, l) ←
    (match tk_token t with
     | PREP_NUMBER =>
       n ← convert_preprocessing_number ulong_bits t;
       _ ← c_assert (is_tok NUMBER n); v ← tok_val n; Ok (Number (tk_type n) v, l)
     | PREP_CHAR =>
       n ← convert_preprocessing_char t;
       _ ← c_assert (is_tok NUMBER n); v ← tok_val n; Ok (Number (tk_type n) v, l)
     | OPEN_PAREN =>
       '(num, l) ← expression (next_tokens l);
       _ ← expect l CLOSE_PAREN; Ok (num, l)
     | k =>
       if negb (bool_decide (k = IDENTIFIER)) && negb (is_expandable t) then
         Exit "Invalid primary expression in directive."
       else
         s ← tok_string t;
         '(_, d) ← macro_definition p s;
         _ ← c_assert (match d with None => true | Some _ => false end);
         Ok (Number basic_type__long 0, l)
     end);
  num ← normalize num;
  Ok (num, next_tokens l).

Fixpoint preprocess_unary (n : nat) (l : list token) : outcome (number * list token) :=
  match n with
  | O => Undef "not enough fuel"
  | S n =>
    let unary f := '(r, e) ← preprocess_unary n (next_tokens l); r ← unary_assign f r; Ok (r, e) in
    t ← token_at l;
    match t with
    | PLUS => unary (λ _ a, Ok a)
    | MINUS => unary c_neg
    | NEG => unary c_not
    | NOT => unary (λ _ a, Ok (Z.b2z (a =? 0)))
    | _ => preprocess_primary l
    end
  end.

(** The operators of the levels that are loops. *)
Definition div_assign (mod_ : bool) (l r : number) : outcome number :=
  if val_i (n_val r) =? 0 then Exit (if mod_ then "Modulo by zero." else "Division by zero.")
  else arith_assign (λ k a b, c_binop (if mod_ then IMod else IArith ADiv) k a b) l r.

Definition multiplicative_op (t : token_type) : option (number → number → outcome number) :=
  match t with
  | STAR => Some (arith_assign (c_arith AMul))
  | SLASH => Some (div_assign false)
  | MODULO => Some (div_assign true)
  | _ => None
  end.
Definition additive_op (t : token_type) : option (number → number → outcome number) :=
  match t with
  | PLUS => Some (arith_assign (c_arith AAdd))
  | MINUS => Some (arith_assign (c_arith ASub))
  | _ => None
  end.
Definition shift_op (t : token_type) : option (number → number → outcome number) :=
  match t with
  | LSHIFT => Some (arith_assign c_shl)
  | RSHIFT => Some (arith_assign c_shr)
  | _ => None
  end.
Definition relational_op (t : token_type) : option (number → number → outcome number) :=
  match t with
  | LT => Some (compare_assign CLt)
  | GT => Some (compare_assign CGt)
  | LEQ => Some (compare_assign CLe)
  | GEQ => Some (compare_assign CGe)
  | _ => None
  end.

(** The [while] loop of such a level, with the level above it. *)
Fixpoint level_loop (op : token_type → option (number → number → outcome number))
    (above : list token → outcome (number * list token)) (n : nat) (l : number)
    (list : Datatypes.list token) : outcome (number * Datatypes.list token) :=
  t ← token_at list;
  match op t with
  | None => Ok (l, list)
  | Some f =>
    match n with
    | O => Undef "not enough fuel"
    | S n =>
      '(r, list) ← above (next_tokens list);
      l ← f l r;
      level_loop op above n l list
    end
  end.
Definition level (op : token_type → option (number → number → outcome number))
    (above : list token → outcome (number * list token)) (list : Datatypes.list token) :
    outcome (number * Datatypes.list token) :=
  '(l, list) ← above list; level_loop op above (length list) l list.

Definition preprocess_multiplicative : list token → outcome (number * list token) :=
  level multiplicative_op (λ l, preprocess_unary (S (length l)) l).
Definition preprocess_additive := level additive_op preprocess_multiplicative.
Definition preprocess_shift := level shift_op preprocess_additive.
Definition preprocess_relational := level relational_op preprocess_shift.

(** A level whose right operand is the level itself. *)
Fixpoint right_level (op : token_type → option (number → number → outcome number))
    (above : list token → outcome (number * list token)) (n : nat) (list : Datatypes.list token) :
    outcome (number * Datatypes.list token) :=
  match n with
  | O => Undef "not enough fuel"
  | S n =>
    '(l, list) ← above list;
    t ← token_at list;
    match op t with
    | None => Ok (l, list)
    | Some f =>
      '(r, list) ← right_level op above n (next_tokens list);
      l ← f l r; Ok (l, list)
    end
  end.

(** A level whose right operand is that of the level above. *)
Definition once_level (op : token_type → option (number → number → outcome number))
    (above : list token → outcome (number * list token)) (list : Datatypes.list token) :
    outcome (number * Datatypes.list token) :=
  '(l, list) ← above list;
  t ← token_at list;
  match op t with
  | None => Ok (l, list)
  | Some f => '(r, list) ← above (next_tokens list); l ← f l r; Ok (l, list)
  end.

Definition bit_assign (o : bitop) : number → number → outcome number :=
  arith_assign (λ _ a b, Ok (z_bit o a b)).

Definition val_true (n : number) : bool := negb (val_u (n_val n) =? 0).
Definition logical_assign (f : bool → bool → bool) (l r : number) : outcome number :=
  Ok (Number basic_type__long (val_bool (f (val_true l) (val_true r)))).

Definition equality_op (t : token_type) : option (number → number → outcome number) :=
  match t with EQ => Some (compare_assign CEq) | NEQ => Some (compare_assign CNe) | _ => None end.
Definition and_op (t : token_type) : option (number → number → outcome number) :=
  match t with AND => Some (bit_assign BAnd) | _ => None end.
Definition xor_op (t : token_type) : option (number → number → outcome number) :=
  match t with XOR => Some (bit_assign BXor) | _ => None end.
Definition or_op (t : token_type) : option (number → number → outcome number) :=
  match t with OR => Some (bit_assign BOr) | _ => None end.
Definition logical_and_op (t : token_type) : option (number → number → outcome number) :=
  match t with LOGICAL_AND => Some (logical_assign andb) | _ => None end.
Definition logical_or_op (t : token_type) : option (number → number → outcome number) :=
  match t with LOGICAL_OR => Some (logical_assign orb) | _ => None end.

Definition preprocess_equality (l : list token) : outcome (number * list token) :=
  right_level equality_op preprocess_relational (S (length l)) l.
Definition preprocess_and (l : list token) : outcome (number * list token) :=
  right_level and_op preprocess_equality (S (length l)) l.
Definition preprocess_exclusive_or (l : list token) : outcome (number * list token) :=
  right_level xor_op preprocess_and (S (length l)) l.
Definition preprocess_inclusive_or : list token → outcome (number * list token) :=
  once_level or_op preprocess_exclusive_or.
Definition preprocess_logical_and (l : list token) : outcome (number * list token) :=
  right_level logical_and_op preprocess_inclusive_or (S (length l)) l.
Definition preprocess_logical_or (l : list token) : outcome (number * list token) :=
  right_level logical_or_op preprocess_logical_and (S (length l)) l.

Fixpoint preprocess_conditional (n : nat) (list : list token) : outcome (number * Datatypes.list token) :=
  match n with
  | O => Undef "not enough fuel"
  | S n =>
    '(a, list) ← preprocess_logical_or list;
    t ← head list;
    if is_tok QUESTION t then
      '(b, list) ← expression (next_tokens list);
      _ ← expect list COLON;
      '(c, list) ← preprocess_conditional n (next_tokens list);
      '(b, c, s) ← both_signed b c;
      Ok (Number (if s : bool then basic_type__long else basic_type__unsigned_long)
            (if val_true a then n_val b else n_val c), list)
    else Ok (a, list)
  end.

(** The loop of [preprocess_expression]. *)
Fixpoint expression_loop (n : nat) (list : list token) : outcome (number * Datatypes.list token) :=
  match n with
  | O => Undef "not enough fuel"
  | S n =>
    '(r, list) ← preprocess_conditional (S (length list)) list;
    t ← head list;
    if is_tok COMMA t then expression_loop n (next_tokens list) else Ok (r, list)
  end.

End expressions.

Section directives.
Context `{FA : FloatArith} (ulong_bits : Z) (c99 : bool) (depth : nat).

(** [preprocess_expression], with [n] pairs of parentheses or [?] inside each
    other at most. *)
Fixpoint preprocess_expression (n : nat) (p : pp) (l : list token) : outcome (number * list token) :=
  match n with
  | O => Undef "not enough fuel"
  | S n => expression_loop ulong_bits p (preprocess_expression n p) (S (length l)) l
  end.

Definition preprocess_constant_expression (p : pp) (l : list token) : outcome (number * list token) :=
  preprocess_conditional ulong_bits p (preprocess_expression (length l) p) (S (length l)) l.

(** ** Directives *)

(** The files of the host, for [include_file]. *)
Context (fopen : list Z → option (list Z)).

Definition pp_include (p : pp) (system : bool) (name : list Z) : outcome pp :=
  '(lx, i) ← (if system then include_system_file fopen (pp_lexer p) (pp_input p) name
              else include_file fopen (pp_lexer p) (pp_input p) name);
  Ok (set_input (set_lexer p lx) i).

(** [str_cat] of the strings of tokens to [path]. *)
Fixpoint cat_tokens (p : pp) (path : kstring) (l : list token) : outcome (pp * kstring) :=
  match l with
  | [] => Ok (p, path)
  | t :: l =>
    s ← tok_string t;
    '(st, path) ← str_cat (lx_strtab (pp_lexer p)) path s;
    cat_tokens (set_lexer p (Lexer st (lx_strings (pp_lexer p)) (lx_buffer (pp_lexer p)))) path l
  end.

(** One pass of the loop of [preprocess_include]: [None] where it goes on. *)
Definition include_form (p : pp) (line : list token) : outcome (option pp) :=
  t ← head line;
  if is_tok PREP_STRING t then
    if (2 <? length line)%nat then Exit "Stray tokens in include directive."
    else path ← tok_string t; p ← pp_include p false (str_raw path); Ok (Some p)
  else
    close ← (if is_tok LT t then
               c ← defined "index below the array" (line !! (length line - 2)%nat);
               Ok (is_tok GT c)
             else Ok false);
    if close : bool then
      '(p, path) ← cat_tokens p (SHORT_STRING_INIT []) (take (length line - 3) (drop 1 line));
      p ← pp_include p true (str_raw path); Ok (Some p)
    else Ok None.

Definition preprocess_include (p : pp) (line : list token) : outcome pp :=
  t ← head line;
  eq ← tok_eq t ident__include;
  _ ← c_assert eq;
  _ ← c_assert (is_tok NEWLINE (List.last line tok_zero));
  let line := drop 1 line in
  r ← include_form p line;
  match r with
  | Some p => Ok p
  | None =>
    '(p, line, _) ← expand c99 depth p line;
    r ← include_form p line;
    match r with Some p => Ok p | None => Exit "Invalid include directive." end
  end.

(** The parameters of a macro: their tokens, whether the list ended in
    [DOTS], and the position behind them. *)
Fixpoint define_params (n : nat) (line : list token) :
    outcome (list token * bool * list token) :=
  match n with
  | O => Undef "not enough fuel"
  | S n =>
    t ← head line;
    if is_tok CLOSE_PAREN t then Ok ([], false, line)
    else if is_tok DOTS t then Ok ([ident__VA_ARGS__], true, next_tokens line)
    else if negb (is_tok IDENTIFIER t) then Exit "Invalid macro parameter, expected identifer."
    else
      let line := next_tokens line in
      comma ← token_at line;
      if bool_decide (comma = COMMA) then
        '(ps, va, line) ← define_params n (next_tokens line); Ok (t :: ps, va, line)
      else Ok ([t], false, line)
  end.

(** The index of the parameter [t], from [i] on. *)
Fixpoint find_param (t : token) (params : list token) (i : Z) : outcome (option Z) :=
  match params with
  | [] => Ok None
  | x :: params => eq ← tok_eq t x; if eq : bool then Ok (Some i) else find_param t params (i + 1)
  end.

Definition param_token (i : Z) : token := set_number (tok_of PARAM 0) basic_type__void i.

Fixpoint define_replacement (function : bool) (params line : list token) : outcome (list token) :=
  match line with
  | [] => Undef "past the end of the token array"
  | t :: line =>
    if is_tok NEWLINE t then Ok []
    else
      _ ← c_assert (negb (is_tok END t));
      i ← (if is_tok IDENTIFIER t && function then find_param t params 0 else Ok None);
      repl ← define_replacement function params line;
      Ok (match i with Some i => param_token i | None => t end :: repl)
  end.

Definition preprocess_define (line : list token) : outcome macro :=
  t ← head line;
  let line := next_tokens line in
  if negb (is_expandable t) then Exit "Invalid definition as a macro"
  else
    name ← tok_string t;
    open ← head line;
    if is_tok OPEN_PAREN open && (leading_whitespace open =? 0) then
      '(params, va, line) ← define_params (length line) (next_tokens line);
      _ ← expect line CLOSE_PAREN;
      repl ← define_replacement true params (next_tokens line);
      Ok (Macro name FUNCTION_LIKE (Z.of_nat (length params)) false false va repl)
    else
      repl ← define_replacement false [] line;
      Ok (Macro name OBJECT_LIKE 0 false false false repl).

Definition preprocess_line_directive (p : pp) (line : list token) : outcome pp :=
  t ← head line;
  let line := next_tokens line in
  t ← (if is_tok PREP_NUMBER t then convert_preprocessing_number ulong_bits t else Ok t);
  n ← (if is_tok NUMBER t && is_int (tk_type t) then v ← tok_val t; Ok (val_i v) else Ok 0);
  if n <=? 0 then Exit "Expected positive integer in #line directive."
  else
    let i := pp_input p in
    let p := set_input p (with_position i (current_file_path i) (wrap_s 32 (n - 1))) in
    s ← head line;
    '(p, line) ←
      (if is_tok PREP_STRING s then
         path ← tok_string s;
         Ok (set_input p (with_position (pp_input p) path (current_file_line (pp_input p))),
             next_tokens line)
       else Ok (p, line));
    e ← head line;
    if is_tok NEWLINE e then Ok p else Exit "Unexpected token in #line directive.".

(** A group opened by [#if], [#ifdef] or [#ifndef] whose condition is [b]. *)
Definition live_or_dead (b : bool) : state := if b then BRANCH_LIVE else BRANCH_DEAD.

Definition preprocess_if (p : pp) (line : list token) : outcome pp :=
  if in_active_block p then
    '(num, _) ← preprocess_constant_expression p (next_tokens line);
    Ok (push_state p (live_or_dead (negb (val_i (n_val num) =? 0))))
  else Ok (push_state p BRANCH_DISABLED).

Definition preprocess_else (p : pp) : outcome pp :=
  '(p, state) ← pop_state p;
  if in_active_block p then
    Ok (push_state p (if bool_decide (state = BRANCH_DEAD) then BRANCH_LIVE else BRANCH_DISABLED))
  else
    _ ← c_assert (bool_decide (state = BRANCH_DISABLED));
    Ok (push_state p BRANCH_DISABLED).

Definition preprocess_elif (p : pp) (line : list token) : outcome pp :=
  '(p, state) ← pop_state p;
  if in_active_block p then
    if bool_decide (state = BRANCH_DEAD) then
      '(num, _) ← preprocess_constant_expression p (next_tokens line);
      Ok (push_state p (live_or_dead (negb (val_i (n_val num) =? 0))))
    else Ok (push_state p BRANCH_DISABLED)
  else
    _ ← c_assert (bool_decide (state = BRANCH_DISABLED));
    Ok (push_state p BRANCH_DISABLED).

(** The identifier behind the name of a directive. *)
Definition expandable_name (line : list token) (msg : string) : outcome kstring :=
  t ← head (next_tokens line);
  if negb (is_expandable t) then Exit msg else tok_string t.

(** [#ifdef] and [#ifndef]. *)
Definition preprocess_ifdef (p : pp) (line : list token) (def : bool) : outcome pp :=
  if in_active_block p then
    name ← expandable_name line "Expected identifier in clause.";
    '(p, d) ← macro_definition p name;
    Ok (push_state p (live_or_dead (Bool.eqb def (match d with Some _ => true | None => false end))))
  else Ok (push_state p BRANCH_DISABLED).

Definition preprocess_active (p : pp) (line : list token) : outcome pp :=
  t ← head line;
  is_define ← tok_eq t ident__define;
  if is_define : bool then d ← preprocess_define (next_tokens line); define p d
  else
    is_undef ← tok_eq t ident__undef;
    if is_undef : bool then
      name ← expandable_name line "Expected identifier in 'undef' clause."; undef p name
    else
      is_include ← tok_eq t ident__include;
      if is_include : bool then preprocess_include p line
      else
        is_line ← tok_eq t ident__line;
        if is_line : bool then preprocess_line_directive p (next_tokens line)
        else
          is_error ← tok_eq t ident__error;
          if is_error : bool then
            '(_, s) ← stringify p (drop 1 line); _ ← tok_string s; Exit "#error"
          else
            _ ← tok_string t; Exit "Unsupported preprocessor directive.".

Definition preprocess_directive (p : pp) (array : list token) : outcome pp :=
  t ← head array;
  is_elif ← tok_eq t ident__elif;
  is_line ← tok_eq t ident__line;
  '(p, line) ←
    (if is_tok IF t || is_elif || (in_active_block p && is_line) then
       '(p, array, _) ← expand c99 depth p array; Ok (p, array)
     else Ok (p, array));
  t ← head line;
  if is_tok IF t then preprocess_if p line
  else if is_tok ELSE t then preprocess_else p
  else
    is_elif ← tok_eq t ident__elif;
    if is_elif : bool then preprocess_elif p line
    else
      is_endif ← tok_eq t ident__endif;
      if is_endif : bool then '(p, _) ← pop_state p; Ok p
      else
        is_ifndef ← tok_eq t ident__ifndef;
        if is_ifndef : bool then preprocess_ifdef p line false
        else
          is_ifdef ← tok_eq t ident__ifdef;
          if is_ifdef : bool then preprocess_ifdef p line true
          else if in_active_block p then preprocess_active p line
          else Ok p.

End directives.
