(* ===== verification/CondExpr.v ===== *)
(** * The expressions of [#if]

    Expression trees with the grammar and the meaning of C, and the proof that
    the evaluator of directive.c gives a tree its value.  [standard] marks where
    the two agree: it leaves out the chains that the evaluator does not read
    or reads from the right, and operands to which it gives another
    type. *)

From stdpp Require Import base list numbers strings.
From Stdlib Require Import ZArith Lia.
From S2P Require Import Prelude CType Floats CArith Strings Typetree Token Lexer LexerProps Input Macro Immediate Directive.

Local Open Scope Z_scope.

(** ** Values *)

(** A value of [intmax_t] or [uintmax_t]. *)
Record cvalue : Set := CValue { cv_signed : bool; cv_z : Z }.
Definition kind (s : bool) : ity := if s then I64 else U64.
Definition cv_ok (v : cvalue) : Prop := in_range (kind (cv_signed v)) (cv_z v) = true.

Definition long_type (s : bool) : ctype := if s then basic_type__long else basic_type__unsigned_long.
Definition number_of (v : cvalue) : number := Number (long_type (cv_signed v)) (wrap_u 64 (cv_z v)).

Definition cv_true (v : cvalue) : bool := negb (cv_z v =? 0).
Definition cv_bool (b : bool) : cvalue := CValue true (Z.b2z b).

(** An operation on two values converted to their common type. *)
Definition cv_common (f : ity → Z → Z → outcome Z) (a b : cvalue) : outcome cvalue :=
  let s := cv_signed a && cv_signed b in
  z ← f (kind s) (conv (kind s) (cv_z a)) (conv (kind s) (cv_z b)); Ok (CValue s z).
Definition cv_compare (o : cmpop) (a b : cvalue) : outcome cvalue :=
  let s := cv_signed a && cv_signed b in
  Ok (cv_bool (z_cmp o (conv (kind s) (cv_z a)) (conv (kind s) (cv_z b)))).
(** A shift has the type of its left operand. *)
Definition cv_shift (f : ity → Z → Z → outcome Z) (a b : cvalue) : outcome cvalue :=
  z ← f (kind (cv_signed a)) (cv_z a) (cv_z b); Ok (CValue (cv_signed a) z).

Definition cv_unary (o : token_type) (a : cvalue) : outcome cvalue :=
  let k := kind (cv_signed a) in
  match o with
  | PLUS => Ok a
  | MINUS => z ← c_neg k (cv_z a); Ok (CValue (cv_signed a) z)
  | NEG => z ← c_not k (cv_z a); Ok (CValue (cv_signed a) z)
  | NOT => Ok (cv_bool (negb (cv_true a)))
  | _ => Undef "no unary operator"
  end.

Definition cv_binary (o : token_type) (a b : cvalue) : outcome cvalue :=
  match o with
  | STAR => cv_common (c_arith AMul) a b
  | SLASH => cv_common (c_binop (IArith ADiv)) a b
  | MODULO => cv_common (c_binop IMod) a b
  | PLUS => cv_common (c_arith AAdd) a b
  | MINUS => cv_common (c_arith ASub) a b
  | LSHIFT => cv_shift c_shl a b
  | RSHIFT => cv_shift c_shr a b
  | LT => cv_compare CLt a b
  | GT => cv_compare CGt a b
  | LEQ => cv_compare CLe a b
  | GEQ => cv_compare CGe a b
  | EQ => cv_compare CEq a b
  | NEQ => cv_compare CNe a b
  | AND => cv_common (λ _ x y, Ok (Z.land x y)) a b
  | XOR => cv_common (λ _ x y, Ok (Z.lxor x y)) a b
  | OR => cv_common (λ _ x y, Ok (Z.lor x y)) a b
  | LOGICAL_AND => Ok (cv_bool (cv_true a && cv_true b))
  | LOGICAL_OR => Ok (cv_bool (cv_true a || cv_true b))
  | _ => Undef "no binary operator"
  end.

(** ** Trees *)

(** Trees with the tokens of their operators and operands. *)
Inductive tree : Set :=
  | T_operand (x : token) (v : cvalue)
  | T_paren (x y : token) (e : tree)
  | T_unary (x : token) (e : tree)
  | T_binary (x : token) (a b : tree)
  | T_cond (x y : token) (a b c : tree).

Fixpoint tokens (e : tree) : list token :=
  match e with
  | T_operand x _ => [x]
  | T_paren x y e => x :: tokens e ++ [y]
  | T_unary x e => x :: tokens e
  | T_binary x a b => tokens a ++ x :: tokens b
  | T_cond x y a b c => tokens a ++ x :: tokens b ++ y :: tokens c
  end.

(** The value of a tree all of whose operands have one. *)
Fixpoint value (e : tree) : outcome cvalue :=
  match e with
  | T_operand _ v => Ok v
  | T_paren _ _ e => value e
  | T_unary x e => a ← value e; cv_unary (tk_token x) a
  | T_binary x a b => a ← value a; b ← value b; cv_binary (tk_token x) a b
  | T_cond _ _ a b c =>
    a ← value a; b ← value b; c ← value c;
    let s := cv_signed b && cv_signed c in
    Ok (CValue s (conv (kind s) (cv_z (if cv_true a then b else c))))
  end.

(** The level of a binary operator in the grammar, 2 for the operators that
    bind most tightly. *)
Definition binary_level (o : token_type) : nat :=
  match o with
  | STAR | SLASH | MODULO => 2 | PLUS | MINUS => 3 | LSHIFT | RSHIFT => 4
  | LT | GT | LEQ | GEQ => 5 | EQ | NEQ => 6 | AND => 7 | XOR => 8 | OR => 9
  | LOGICAL_AND => 10 | LOGICAL_OR => 11 | _ => 0
  end.
Definition is_unary (o : token_type) : bool :=
  match o with PLUS | MINUS | NEG | NOT => true | _ => false end.

Definition level_of (e : tree) : nat :=
  match e with
  | T_operand _ _ | T_paren _ _ _ => 0
  | T_unary _ _ => 1
  | T_binary x _ _ => binary_level (tk_token x)
  | T_cond _ _ _ _ _ => 12
  end.

(** Operators of one level that may follow each other without parentheses: the
    evaluator reads [==] and [!=] from the right, and [|] once. *)
Definition chains (k : nat) : bool := negb ((k =? 6) || (k =? 9))%nat.

(** The type of a tree, which does not depend on values. *)
Fixpoint signed (e : tree) : bool :=
  match e with
  | T_operand _ v => cv_signed v
  | T_paren _ _ e => signed e
  | T_unary x e => match tk_token x with NOT => true | _ => signed e end
  | T_binary x a b =>
    match tk_token x with
    | LSHIFT | RSHIFT => signed a
    | LT | GT | LEQ | GEQ | EQ | NEQ | LOGICAL_AND | LOGICAL_OR => true
    | _ => signed a && signed b
    end
  | T_cond _ _ _ b c => signed b && signed c
  end.

Section grammar.
Context (p : pp).

(** Operands: integer constants, characters, and names that are no macros.
    The type of a constant is [intmax_t] if it can represent it and there is no
    suffix [u]; the evaluator has to agree. *)
Inductive operand : token → cvalue → Prop :=
  | operand_number x s w dec v sfx k ty :
      tk_token x = PREP_NUMBER → tk_d x = D_string s → str_raw s = w ++ sfx →
      integer_constant w dec v → (sfx, k) ∈ integer_suffixes →
      first_type v (candidates k dec) = Some ty →
      is_signed ty = (v <=? LONGLONG_MAX) && (Z.land k SUFFIX_U =? 0) →
      operand x (CValue (is_signed ty) v)
  | operand_char x s c :
      tk_token x = PREP_CHAR → tk_d x = D_string s → str_raw s = printchar c → is_byte c →
      operand x (CValue true (wrap_s 8 c))
  | operand_name x s :
      tk_token x = IDENTIFIER → tk_d x = D_string s → macro_definition p s = Ok (p, None) →
      operand x (CValue true 0).

(** The grammar of C, without the chains the evaluator does not follow, and
    the types on which it agrees with C. *)
Fixpoint standard (e : tree) : Prop :=
  match e with
  | T_operand x v => operand x v
  | T_paren x y e => tk_token x = OPEN_PAREN ∧ tk_token y = CLOSE_PAREN ∧ standard e
  | T_unary x e =>
    is_unary (tk_token x) = true ∧ (level_of e ≤ 1)%nat ∧ standard e ∧
    (tk_token x = NOT → signed e = true)
  | T_binary x a b =>
    let k := binary_level (tk_token x) in
    (2 ≤ k)%nat ∧ (level_of a ≤ k)%nat ∧ (level_of b < k)%nat ∧
    (chains k = false → (level_of a < k)%nat) ∧ standard a ∧ standard b ∧
    (k = 4%nat → signed a = true → signed b = true)
  | T_cond x y a b c =>
    tk_token x = QUESTION ∧ tk_token y = COLON ∧ (level_of a ≤ 11)%nat ∧
    standard a ∧ standard b ∧ standard c
  end.

End grammar.

(** * The operators of [#if] on values

    Each operator of directive.c, on numbers of 64 bits with a type, computes
    the operator of C on the values they stand for. *)

(** ** Numbers that stand for values *)

Lemma kind_width s : iwidth (kind s) = 64.
Proof. by destruct s. Qed.

Lemma cv_range v : cv_ok v →
  if cv_signed v then - 2 ^ 63 ≤ cv_z v < 2 ^ 63 else 0 ≤ cv_z v < 2 ^ 64.
Proof. unfold cv_ok. rewrite in_range_spec. by destruct (cv_signed v). Qed.

Lemma cv_small v : cv_ok v → conv (kind (cv_signed v)) (cv_z v) = cv_z v.
Proof. apply conv_small. Qed.

Lemma member v : cv_ok v →
  (if cv_signed v then val_i (wrap_u 64 (cv_z v)) else val_u (wrap_u 64 (cv_z v))) = cv_z v.
Proof.
  intros Hv. pose proof (cv_small v Hv) as H. unfold val_i, val_u. destruct (cv_signed v); cbn in H.
  - change (conv I64 (wrap_u 64 (cv_z v)) = cv_z v). by rewrite conv_u64.
  - change (conv U64 (wrap_u 64 (cv_z v)) = cv_z v). by rewrite conv_u64.
Qed.

Lemma conv_ok s z : cv_ok (CValue s (conv (kind s) z)).
Proof. apply conv_range. Qed.

Lemma conv_number s z : number_of (CValue s (conv (kind s) z)) = Number (long_type s) (wrap_u 64 z).
Proof.
  unfold number_of. cbn. f_equal.
  change (conv U64 (conv (kind s) z) = conv U64 z). apply conv_conv. by rewrite kind_width.
Qed.

Lemma number_zero v : cv_ok v → (val_u (n_val (number_of v)) =? 0) = (cv_z v =? 0) ∧
  (val_i (n_val (number_of v)) =? 0) = (cv_z v =? 0).
Proof.
  intros Hv. pose proof (cv_range v Hv) as Hr. unfold number_of, val_u, val_i. cbn.
  change (wrap_u 64 (wrap_u 64 (cv_z v))) with (conv U64 (wrap_u 64 (cv_z v))).
  change (wrap_s 64 (wrap_u 64 (cv_z v))) with (conv I64 (wrap_u 64 (cv_z v))). rewrite !conv_u64.
  cbn [conv isigned iwidth]. unfold conv, wrap_u, wrap_s. cbn [isigned iwidth].
  change (2 ^ (64 - 1)) with (2 ^ 63).
  destruct (Z.eqb_spec (cv_z v) 0) as [->|Hn]; [done|].
  assert (- 2 ^ 64 < cv_z v < 2 ^ 64) as Hb by (destruct (cv_signed v); lia).
  split; apply Z.eqb_neq; intros H0.
  - apply Z.mod_divide in H0; [|done]. destruct H0 as [q Hq]. nia.
  - assert ((cv_z v + 2 ^ 63) mod 2 ^ 64 = 2 ^ 63) as H1 by lia.
    pose proof (Z.div_mod (cv_z v + 2 ^ 63) (2 ^ 64) ltac:(lia)) as H2. rewrite H1 in H2.
    assert (cv_z v = 2 ^ 64 * ((cv_z v + 2 ^ 63) / 2 ^ 64)) as H3 by lia. nia.
Qed.

Lemma number_true v : cv_ok v → val_true (number_of v) = cv_true v.
Proof. intros Hv. unfold val_true, cv_true. by destruct (number_zero v Hv) as [-> _]. Qed.

Section operators.
Context `{FA : FloatArith}.

(** Conversion of a value of an integer type reads the member of its sign. *)
Lemma convert_integer_spec v t k : is_signed t || is_unsigned t = true →
  real_member t v = None →
  convert_integer v t k = Ok (wrap_u 64 (conv k (if is_signed t then val_i v else val_u v))).
Proof.
  intros Ht Hr. unfold convert_integer, is_float_below, is_float_above, cast_immediate. rewrite Hr.
  destruct (is_signed t); [done|]. cbn [orb] in Ht. by rewrite Ht.
Qed.

Lemma wrap_conv k k' z : iwidth k = 64 → iwidth k' = 64 → wrap_u 64 (conv k (conv k' z)) = wrap_u 64 z.
Proof.
  intros Hk Hk'. change (conv U64 (conv k (conv k' z)) = conv U64 z).
  rewrite (conv_conv U64 k) by (cbn; lia). apply conv_conv. cbn; lia.
Qed.

Lemma convert_long s s' z : convert (wrap_u 64 z) (long_type s) (long_type s') = Ok (wrap_u 64 z).
Proof.
  assert (convert (wrap_u 64 z) (long_type s) (long_type s') = convert_integer (wrap_u 64 z) (long_type s) (kind s'))
    as -> by by destruct s'.
  rewrite convert_integer_spec by by destruct s.
  assert ((if is_signed (long_type s) then val_i (wrap_u 64 z) else val_u (wrap_u 64 z)) = conv (kind s) (wrap_u 64 z))
    as -> by by destruct s.
  rewrite wrap_conv by apply kind_width. by rewrite wrap_u_wrap_u by lia.
Qed.

Lemma both_signed_spec a b : cv_ok a → cv_ok b →
  let s := cv_signed a && cv_signed b in
  both_signed (number_of a) (number_of b) =
    Ok (number_of (CValue s (conv (kind s) (cv_z a))), number_of (CValue s (conv (kind s) (cv_z b))), s).
Proof.
  intros Ha Hb s. unfold both_signed. rewrite !conv_number.
  change (n_type (number_of a)) with (long_type (cv_signed a)).
  change (n_type (number_of b)) with (long_type (cv_signed b)).
  change (n_val (number_of a)) with (wrap_u 64 (cv_z a)).
  change (n_val (number_of b)) with (wrap_u 64 (cv_z b)).
  assert (type_equal 1 [] (long_type (cv_signed a)) (long_type (cv_signed b)) =
    Ok (Bool.eqb (cv_signed a) (cv_signed b))) as -> by by destruct (cv_signed a), (cv_signed b).
  assert (usual_arithmetic_conversion (long_type (cv_signed a)) (long_type (cv_signed b)) =
    Ok (long_type (cv_signed a && cv_signed b))) as -> by by destruct (cv_signed a), (cv_signed b).
  cbn [mbind outcome_bind]. rewrite !convert_long. cbn [mbind outcome_bind]. subst s. unfold number_of.
  by destruct (cv_signed a), (cv_signed b).
Qed.

Lemma arith_assign_spec f a b v : cv_ok a → cv_ok b → cv_common f a b = Ok v →
  arith_assign f (number_of a) (number_of b) = Ok (number_of v).
Proof.
  intros Ha Hb. unfold cv_common, arith_assign. rewrite both_signed_spec by done. cbn [mbind outcome_bind].
  set (s := cv_signed a && cv_signed b). intros H. ok_inv. subst v.
  pose proof (member _ (conv_ok s (cv_z a))) as Ma. pose proof (member _ (conv_ok s (cv_z b))) as Mb.
  cbn [number_of n_type n_val cv_signed cv_z] in *.
  assert ((if s then f I64 (val_i (wrap_u 64 (conv (kind s) (cv_z a)))) (val_i (wrap_u 64 (conv (kind s) (cv_z b))))
    else f U64 (val_u (wrap_u 64 (conv (kind s) (cv_z a)))) (val_u (wrap_u 64 (conv (kind s) (cv_z b))))) = Ok a0) as ->.
  { rewrite <-Ha0. destruct s; cbn [kind] in *; by rewrite Ma, Mb. }
  done.
Qed.

Lemma compare_assign_spec o a b v : cv_ok a → cv_ok b → cv_compare o a b = Ok v →
  compare_assign o (number_of a) (number_of b) = Ok (number_of v).
Proof.
  intros Ha Hb. unfold cv_compare, compare_assign. rewrite both_signed_spec by done. cbn [mbind outcome_bind].
  set (s := cv_signed a && cv_signed b). intros [= <-].
  pose proof (member _ (conv_ok s (cv_z a))) as Ma. pose proof (member _ (conv_ok s (cv_z b))) as Mb.
  cbn [number_of n_type n_val cv_signed cv_z] in *.
  assert ((if s then z_cmp o (val_i (wrap_u 64 (conv (kind s) (cv_z a)))) (val_i (wrap_u 64 (conv (kind s) (cv_z b))))
    else z_cmp o (val_u (wrap_u 64 (conv (kind s) (cv_z a)))) (val_u (wrap_u 64 (conv (kind s) (cv_z b))))) =
    z_cmp o (conv (kind s) (cv_z a)) (conv (kind s) (cv_z b))) as ->.
  { destruct s; cbn [kind] in *; by rewrite Ma, Mb. }
  unfold number_of, cv_bool. cbn. by destruct (z_cmp _ _ _).
Qed.

Lemma shift_assign_spec f a b v : f = c_shl ∨ f = c_shr → cv_ok a → cv_ok b →
  (cv_signed a = true → cv_signed b = true) → cv_shift f a b = Ok v →
  arith_assign f (number_of a) (number_of b) = Ok (number_of v).
Proof.
  intros Hf Ha Hb Hs H. apply arith_assign_spec; [done..|]. rewrite <-H. unfold cv_common, cv_shift.
  assert (cv_signed a && cv_signed b = cv_signed a) as -> by (destruct (cv_signed a); [by rewrite Hs|done]).
  rewrite cv_small by done.
  assert (Hz : conv (kind (cv_signed a)) (cv_z b) = cv_z b); [|by rewrite Hz].
  assert (0 ≤ cv_z b < 64) as Hr.
  { unfold cv_shift in H. ok_inv. destruct Hf as [-> | ->]; unfold c_shl, c_shr in Ha0;
      destruct (_ && _) eqn:E; try done; apply andb_prop in E as [E1 E2]; apply Z.leb_le in E1; apply Z.ltb_lt in E2;
      by destruct (cv_signed a). }
  apply conv_small, in_range_spec. destruct (cv_signed a); cbn [kind isigned iwidth]; lia.
Qed.

Lemma div_assign_spec (m : bool) a b v : cv_ok a → cv_ok b →
  cv_common (c_binop (if m then IMod else IArith ADiv)) a b = Ok v →
  div_assign m (number_of a) (number_of b) = Ok (number_of v).
Proof.
  intros Ha Hb H. unfold div_assign. destruct (number_zero b Hb) as [_ ->].
  destruct (Z.eqb_spec (cv_z b) 0) as [H0|Hn]; [|by apply arith_assign_spec].
  exfalso. unfold cv_common in H. rewrite H0 in H. ok_inv.
  assert (conv (kind (cv_signed a && cv_signed b)) 0 = 0) as Hc by by destruct (_ && _).
  rewrite Hc in *. by destruct m.
Qed.

Lemma unary_assign_spec f a z : cv_ok a → f (kind (cv_signed a)) (cv_z a) = Ok z →
  unary_assign f (number_of a) = Ok (number_of (CValue (cv_signed a) z)).
Proof.
  intros Ha Hf. unfold unary_assign. pose proof (member a Ha) as Hm. unfold number_of. cbn [n_type n_val cv_signed cv_z].
  destruct (cv_signed a); cbn [long_type kind] in *.
  - change (is_signed basic_type__long) with true. cbv iota. by rewrite Hm, Hf.
  - change (is_signed basic_type__unsigned_long) with false. cbv iota. by rewrite Hm, Hf.
Qed.

Lemma logical_assign_spec f a b : cv_ok a → cv_ok b →
  logical_assign f (number_of a) (number_of b) = Ok (number_of (cv_bool (f (cv_true a) (cv_true b)))).
Proof. intros Ha Hb. unfold logical_assign. rewrite !number_true by done. by destruct (f _ _). Qed.

(** ** The levels *)

Definition level_op (k : nat) : token_type → option (number → number → outcome number) :=
  match k with
  | 2 => multiplicative_op | 3 => additive_op | 4 => shift_op | 5 => relational_op
  | 6 => equality_op | 7 => and_op | 8 => xor_op | 9 => or_op | 10 => logical_and_op
  | _ => logical_or_op
  end%nat.

(** An operator of the grammar is found at its level, and computes. *)
Lemma level_op_spec o : (2 ≤ binary_level o)%nat → ∃ f, level_op (binary_level o) o = Some f ∧
  ∀ a b v, cv_ok a → cv_ok b → (binary_level o = 4%nat → cv_signed a = true → cv_signed b = true) →
    cv_binary o a b = Ok v → f (number_of a) (number_of b) = Ok (number_of v).
Proof.
  intros Hl. destruct o; try (exfalso; cbn in Hl; lia); cbn [binary_level level_op cv_binary];
    (eexists; split; [reflexivity|]); intros a b v Ha Hb Hs H.
  all: first
    [ apply (div_assign_spec true); done | apply (div_assign_spec false); done
    | apply arith_assign_spec; done | apply compare_assign_spec; done
    | apply shift_assign_spec; [first [by left|by right]|done|done|by apply Hs|done]
    | injection H as <-; by apply logical_assign_spec ].
Qed.

(** No other token is taken for an operator. *)
Lemma level_op_none k o : (2 ≤ k ≤ 11)%nat → binary_level o ≠ k → level_op k o = None.
Proof.
  intros Hk Ho. assert (k = 2 ∨ k = 3 ∨ k = 4 ∨ k = 5 ∨ k = 6 ∨ k = 7 ∨ k = 8 ∨ k = 9 ∨ k = 10 ∨ k = 11)%nat as Hc by lia.
  repeat (destruct Hc as [-> | Hc]; [destruct o; try done; by destruct Ho|]). subst k. destruct o; try done; by destruct Ho.
Qed.

(** ** Ranges and types of values *)

Lemma cv_common_ok f a b v : (∀ s x y z, in_range (kind s) x = true → in_range (kind s) y = true →
    f (kind s) x y = Ok z → in_range (kind s) z = true) →
  cv_common f a b = Ok v → cv_ok v ∧ cv_signed v = cv_signed a && cv_signed b.
Proof.
  intros Hf H. unfold cv_common in H. ok_inv. subst v. split; [|done].
  eapply Hf; [| |exact Ha]; apply conv_range.
Qed.

Lemma promote_kind s : promote (kind s) = kind s.
Proof. by destruct s. Qed.

Lemma rem_range s x y : in_range (kind s) x = true → in_range (kind s) y = true → y ≠ 0 →
  in_range (kind s) (Z.rem x y) = true.
Proof.
  rewrite !in_range_spec. intros Hx Hy Hn. pose proof (Z.rem_bound_abs x y Hn) as Hr.
  destruct s; cbn [kind isigned iwidth] in *; [|pose proof (Z.rem_bound_pos x y); lia].
  lia.
Qed.

Lemma shr_range s x n : in_range (kind s) x = true → 0 ≤ n → in_range (kind s) (Z.shiftr x n) = true.
Proof.
  rewrite !in_range_spec. intros Hx Hn. rewrite Z.shiftr_div_pow2 by done. pose proof (pow2_pos n Hn) as Hp.
  pose proof (Z.div_mod x (2 ^ n) ltac:(lia)) as Hd. pose proof (Z.mod_pos_bound x (2 ^ n) Hp) as Hm.
  destruct s; cbn [kind isigned iwidth] in *; nia.
Qed.

Lemma arith_kind_ok o s x y z : c_arith o (kind s) x y = Ok z → in_range (kind s) z = true.
Proof.
  destruct o; cbn [c_arith]; try destruct (y =? 0); try done; intros H; by eapply c_result_in_range.
Qed.

Lemma binop_kind_ok o s x y z : (∀ c, o ≠ ICmp c) → in_range (kind s) x = true → in_range (kind s) y = true →
  c_binop o (kind s) x y = Ok z → in_range (kind s) z = true.
Proof.
  intros Ho Hx Hy. destruct o as [o| |o|c]; cbn [c_binop]; rewrite ?promote_kind.
  - apply arith_kind_ok.
  - destruct (Z.eqb_spec y 0) as [|Hn]; [done|]. intros H. ok_inv. subst. by apply rem_range.
  - intros [= <-]. by apply z_bit_in_range.
  - by destruct (Ho c).
Qed.

Lemma cv_shift_ok f a b v : f = c_shl ∨ f = c_shr → cv_ok a → cv_shift f a b = Ok v → cv_ok v.
Proof.
  unfold cv_shift, cv_ok. intros Hf Ha H. ok_inv. subst v. cbn [cv_signed cv_z].
  destruct Hf as [-> | ->]; unfold c_shl, c_shr in Ha0; rewrite promote_kind in Ha0;
    destruct (_ && _) eqn:E; try done; injection Ha0 as <-.
  - apply conv_range.
  - apply shr_range; [done|]. apply andb_prop in E as [E _]. by apply Z.leb_le in E.
Qed.

Lemma cv_bool_ok b : cv_ok (cv_bool b).
Proof. by destruct b. Qed.

Lemma cv_binary_ok o a b v : cv_ok a → cv_ok b → cv_binary o a b = Ok v → cv_ok v.
Proof.
  intros Ha Hb. destruct o; cbn [cv_binary]; try done.
  all: first
    [ intros [= <-]; apply cv_bool_ok
    | unfold cv_compare; intros [= <-]; apply cv_bool_ok
    | intros H; eapply cv_shift_ok; [|exact Ha|exact H]; first [by left|by right]
    | intros H; eapply cv_common_ok; [|exact H]; intros s x y z Hx Hy;
      first [apply arith_kind_ok|apply binop_kind_ok; done
            |intros [= <-]; first [apply (z_bit_in_range BAnd)|apply (z_bit_in_range BOr)|apply (z_bit_in_range BXor)]; done] ].
Qed.

Lemma cv_unary_ok o a v : cv_ok a → cv_unary o a = Ok v → cv_ok v.
Proof.
  intros Ha. destruct o; cbn [cv_unary]; try done.
  - intros [= <-]. apply cv_bool_ok.
  - by intros [= <-].
  - intros H. ok_inv. subst v. unfold c_neg in Ha0. rewrite promote_kind in Ha0. by eapply c_result_in_range.
  - intros H. ok_inv. subst v. unfold c_not in Ha0. rewrite promote_kind in Ha0. injection Ha0 as <-. apply conv_range.
Qed.

Lemma cv_binary_signed o a b v : (2 ≤ binary_level o)%nat → cv_binary o a b = Ok v →
  cv_signed v = match o with
                | LSHIFT | RSHIFT => cv_signed a
                | LT | GT | LEQ | GEQ | EQ | NEQ | LOGICAL_AND | LOGICAL_OR => true
                | _ => cv_signed a && cv_signed b
                end.
Proof.
  intros Hl. destruct o; try (exfalso; cbn in Hl; lia); cbn [cv_binary];
    unfold cv_common, cv_compare, cv_shift; intros H; ok_inv; by subst.
Qed.
End operators.

(** ** Operators that associate *)

Lemma wrap_bit o x y : wrap_u 64 (z_bit o x y) = z_bit o (wrap_u 64 x) (wrap_u 64 y).
Proof.
  unfold wrap_u. apply Z.bits_inj'. intros n Hn. destruct o; cbn [z_bit];
    rewrite ?Z.land_spec, ?Z.lor_spec, ?Z.lxor_spec, !Z.testbit_mod_pow2, ?Z.land_spec, ?Z.lor_spec, ?Z.lxor_spec by lia;
    by destruct (n <? 64), (Z.testbit x n), (Z.testbit y n).
Qed.

Lemma bit_common o a b : cv_common (λ _ x y, Ok (z_bit o x y)) a b =
  let s := cv_signed a && cv_signed b in
  Ok (CValue s (conv (kind s) (z_bit o (wrap_u 64 (cv_z a)) (wrap_u 64 (cv_z b))))).
Proof.
  unfold cv_common. cbn [mbind outcome_bind]. set (s := cv_signed a && cv_signed b). do 2 f_equal.
  rewrite <-wrap_bit, conv_u64.
  rewrite <-(conv_small (kind s) (z_bit o _ _)) by (apply z_bit_in_range; apply conv_range).
  rewrite <-conv_u64, wrap_bit. rewrite <-(conv_u64 (kind s) (z_bit o (cv_z a) (cv_z b))), wrap_bit.
  do 2 f_equal; [change (conv U64 (conv (kind s) (cv_z a)) = conv U64 (cv_z a))
                |change (conv U64 (conv (kind s) (cv_z b)) = conv U64 (cv_z b))]; apply conv_conv; by rewrite kind_width.
Qed.

Lemma bit_assoc o x y z : z_bit o (z_bit o x y) z = z_bit o x (z_bit o y z).
Proof. destruct o; cbn; [symmetry; apply Z.land_assoc|symmetry; apply Z.lor_assoc|apply Z.lxor_assoc]. Qed.

Lemma wrap_kind s x : wrap_u 64 (conv (kind s) x) = wrap_u 64 x.
Proof. change (conv U64 (conv (kind s) x) = conv U64 x). apply conv_conv. by rewrite kind_width. Qed.

Lemma bit_common_assoc o a b c ab bc u :
  cv_common (λ _ x y, Ok (z_bit o x y)) a b = Ok ab → cv_common (λ _ x y, Ok (z_bit o x y)) b c = Ok bc →
  cv_common (λ _ x y, Ok (z_bit o x y)) ab c = Ok u → cv_common (λ _ x y, Ok (z_bit o x y)) a bc = Ok u.
Proof.
  rewrite !bit_common. cbv zeta. intros [= <-] [= <-]. cbn [cv_signed cv_z]. intros [= <-].
  rewrite !wrap_kind, !wrap_bit, bit_assoc, andb_assoc.
  by rewrite !wrap_u_wrap_u by lia.
Qed.

Lemma cv_true_bool b : cv_true (cv_bool b) = b.
Proof. by destruct b. Qed.

(** The levels whose operators the evaluator takes from the right, and C from
    the left. *)
Definition associative (k : nat) : bool := ((k =? 7) || (k =? 8) || (k =? 10) || (k =? 11))%nat.

Lemma binary_assoc o a b c ab bc u : associative (binary_level o) = true →
  cv_binary o a b = Ok ab → cv_binary o b c = Ok bc → cv_binary o ab c = Ok u → cv_binary o a bc = Ok u.
Proof.
  intros Hk. destruct o; try discriminate Hk; cbn [cv_binary].
  - apply (bit_common_assoc BAnd).
  - intros Hab Hbc Hu. assert (ab = cv_bool (cv_true a || cv_true b)) as -> by congruence.
    assert (bc = cv_bool (cv_true b || cv_true c)) as -> by congruence.
    rewrite cv_true_bool in Hu |- *. by rewrite orb_assoc.
  - intros Hab Hbc Hu. assert (ab = cv_bool (cv_true a && cv_true b)) as -> by congruence.
    assert (bc = cv_bool (cv_true b && cv_true c)) as -> by congruence.
    rewrite cv_true_bool in Hu |- *. by rewrite andb_assoc.
  - apply (bit_common_assoc BXor).
Qed.

Lemma associative_total o a b : associative (binary_level o) = true → ∃ v, cv_binary o a b = Ok v.
Proof. intros Hk. destruct o; try discriminate Hk; by eexists. Qed.
