(* ===== verification/CondExprParse.v ===== *)
(** * The evaluator of [#if] on the tokens of a tree

    The levels of directive.c, from the operands up: the tokens of a tree,
    followed by a token that does not go on with an expression, are read to
    their end and give the value of the tree. *)

From stdpp Require Import base list numbers strings.
From Stdlib Require Import ZArith Lia.
From S2P Require Import Prelude CType Floats CArith Strings Typetree Token Lexer LexerProps Input Macro Immediate Directive CondExpr.

Local Open Scope Z_scope.

Fixpoint tree_size (e : tree) : nat :=
  match e with
  | T_operand _ _ => 1
  | T_paren _ _ e | T_unary _ e => S (tree_size e)
  | T_binary _ a b => S (tree_size a + tree_size b)
  | T_cond _ _ a b c => S (tree_size a + tree_size b + tree_size c)
  end.

Lemma tree_size_tokens e : (1 ≤ tree_size e ≤ length (tokens e))%nat.
Proof. induction e; cbn [tree_size tokens]; rewrite ?length_app; cbn [length]; rewrite ?length_app; cbn [length]; lia. Qed.

(** The level at which a token is an operator behind an operand: [?] and the
    comma are those of conditionals and expressions. *)
Definition stop_level (t : token_type) : nat :=
  match t with
  | QUESTION => 12 | COMMA => 13
  | _ => if (binary_level t =? 0)%nat then 14 else binary_level t
  end.
Definition stops (k : nat) (l : list token) : Prop :=
  match l with x :: _ => (k < stop_level (tk_token x))%nat | [] => False end.

Lemma stops_le j k l : (j ≤ k)%nat → stops k l → stops j l.
Proof. destruct l; cbn; [done|lia]. Qed.

Lemma stop_level_binary t : (2 ≤ binary_level t)%nat → stop_level t = binary_level t.
Proof. destruct t; cbn; lia. Qed.

Lemma stops_not_op `{FA : FloatArith} k l : (2 ≤ k ≤ 11)%nat → stops k l → ∃ x r, l = x :: r ∧ level_op k (tk_token x) = None.
Proof.
  intros Hk Hs. destruct l as [|x r]; [done|]. exists x, r. split; [done|]. apply level_op_none; [done|].
  cbn in Hs. intros He. rewrite stop_level_binary in Hs by lia. lia.
Qed.

Lemma is_tok_eq t x : is_tok t x = bool_decide (tk_token x = t).
Proof.
  destruct (is_tok t x) eqn:E; symmetry.
  - apply bool_decide_eq_true. by apply is_tok_spec.
  - apply bool_decide_eq_false. intros H%is_tok_spec. congruence.
Qed.

Section operands.
Context `{FA : FloatArith} (bits : Z) (p : pp) (E : list token → outcome (number * list token)).

Lemma first_type_in v l ty : first_type v l = Some ty → ty ∈ l ∧ represents_value v ty = true.
Proof.
  induction l as [|t l IH]; cbn; [done|]. destruct (represents_value v t) eqn:Hr.
  - intros [= ->]. split; [by left|done].
  - intros H. destruct (IH H). split; [by right|done].
Qed.

Lemma candidate_types v k dec ty : first_type v (candidates k dec) = Some ty →
  represents_value v ty = true ∧ ty ∈ [basic_type__int; basic_type__unsigned_int; basic_type__long; basic_type__unsigned_long].
Proof.
  intros [Hin Hr]%first_type_in. split; [done|]. unfold candidates in Hin.
  repeat match type of Hin with context [if ?b then _ else _] => destruct b end; rewrite !elem_of_cons in *; tauto.
Qed.

(** The conversion to 64 bits. *)
Lemma normalize_constant v ty : represents_value v ty = true → 0 ≤ v →
  ty ∈ [basic_type__int; basic_type__unsigned_int; basic_type__long; basic_type__unsigned_long] →
  normalize (Number ty v) = Ok (number_of (CValue (is_signed ty) v)).
Proof.
  intros Hr Hv Hty. unfold number_of. cbn [cv_signed cv_z].
  assert (Hw : wrap_u 64 v = v).
  { apply wrap_u_small. unfold represents_value in Hr. destruct (ity_of ty) as [i|] eqn:Hi; [|done].
    rewrite in_range_spec in Hr. pose proof (iwidth_pos i).
    assert (2 ^ iwidth i ≤ 2 ^ 64) by (apply Z.pow_le_mono_r; lia).
    assert (2 ^ (iwidth i - 1) ≤ 2 ^ 64) by (apply Z.pow_le_mono_r; lia).
    destruct (isigned i); lia. }
  assert (Hm : ∀ s : bool, conv (kind s) (if s then val_i v else val_u v) = conv (kind s) v).
  { intros s. rewrite <-Hw. unfold val_i, val_u.
    destruct s; [change (wrap_s 64 (wrap_u 64 v)) with (conv I64 (wrap_u 64 v))
                |change (wrap_u 64 (wrap_u 64 v)) with (conv U64 (wrap_u 64 v))];
      rewrite conv_u64, conv_conv_same, Hw; done. }
  assert (Hc : ∀ s : bool, wrap_u 64 (conv (kind s) v) = v).
  { intros s. change (conv U64 (conv (kind s) v) = v). rewrite conv_conv by by rewrite kind_width. exact Hw. }
  rewrite Hw. rewrite !elem_of_cons in Hty.
  destruct Hty as [-> |[-> |[-> |[-> |Hty]]]]; [| | | |by apply elem_of_nil in Hty].
  - change (normalize (Number basic_type__int v)) with
      (v ← convert_integer v basic_type__int I64; Ok (Number basic_type__long v)).
    rewrite convert_integer_spec by done. cbn [mbind outcome_bind].
    change (if is_signed basic_type__int then val_i v else val_u v) with (val_i v).
    pose proof (Hm true) as H1. pose proof (Hc true) as H2. cbn [kind] in H1, H2. by rewrite H1, H2.
  - change (normalize (Number basic_type__unsigned_int v)) with
      (v ← convert_integer v basic_type__unsigned_int U64; Ok (Number basic_type__unsigned_long v)).
    rewrite convert_integer_spec by done. cbn [mbind outcome_bind].
    change (if is_signed basic_type__unsigned_int then val_i v else val_u v) with (val_u v).
    pose proof (Hm false) as H1. pose proof (Hc false) as H2. cbn [kind] in H1, H2. by rewrite H1, H2.
  - done.
  - done.
Qed.

Lemma normalize_char z : normalize (Number basic_type__int (wrap_u 64 z)) = Ok (number_of (CValue true z)).
Proof.
  change (normalize (Number basic_type__int (wrap_u 64 z))) with
    (v ← convert_integer (wrap_u 64 z) basic_type__int I64; Ok (Number basic_type__long v)).
  rewrite convert_integer_spec by done. cbn [mbind outcome_bind].
  change (if is_signed basic_type__int then val_i (wrap_u 64 z) else val_u (wrap_u 64 z)) with (conv I64 (wrap_u 64 z)).
  rewrite wrap_conv by done. unfold number_of. cbn [cv_signed cv_z long_type]. by rewrite wrap_u_wrap_u by lia.
Qed.

Lemma constant_nonneg w dec v : integer_constant w dec v → 0 ≤ v.
Proof. by intros [c ds _ _|ds _|x d ds _ _]; apply value_of_nonneg. Qed.

Lemma primary_operand x v rest : operand p x v →
  preprocess_primary bits p E (x :: rest) = Ok (number_of v, rest).
Proof.
  intros Ho. destruct Ho as [x s w dec v sfx k ty Ht Hd Hr Hw Hs Hty _|x s c Ht Hd Hr Hc|x s Ht Hd Hm];
    unfold preprocess_primary; cbn [head mbind outcome_bind]; rewrite Ht.
  - rewrite (convert_constant bits x s w dec v sfx k ty) by done. cbn [mbind outcome_bind].
    change (is_tok NUMBER _) with true. cbn [c_assert mbind outcome_bind tok_val set_number tk_d tk_type].
    destruct (candidate_types v k dec ty Hty) as [Hrep Hin].
    rewrite normalize_constant by (done || by eapply constant_nonneg). done.
  - unfold convert_preprocessing_char, tok_string. rewrite Hd. cbn [mbind outcome_bind]. rewrite Hr.
    destruct (printed_byte c Hc) as (Hconv & _ & Hlen). specialize (Hconv []). rewrite app_nil_r in Hconv.
    destruct (printchar c) as [|b l]; [cbn in Hlen; lia|]. rewrite Hconv. cbn [mbind outcome_bind].
    change (is_tok NUMBER _) with true. cbn [c_assert mbind outcome_bind tok_val set_number tk_d tk_type].
    by rewrite normalize_char.
  - rewrite bool_decide_true by done. cbn [negb andb]. unfold tok_string. rewrite Hd. cbn [mbind outcome_bind].
    rewrite Hm. done.
Qed.

Lemma operand_ok x v : operand p x v → cv_ok v.
Proof.
  intros [? s w dec z sfx k ty Ht Hd Hr Hw Hs Hty Hsg|? s c _ _ _ _|? s _ _ _]; [| |done].
  - destruct (candidate_types z k dec ty Hty) as [Hrep Hin]. clear Hsg. pose proof (constant_nonneg _ _ _ Hw) as Hz.
    destruct (represents_max z Hz) as (H1 & H2 & H3 & H4).
    unfold cv_ok. cbn [cv_signed cv_z]. rewrite in_range_spec.
    rewrite !elem_of_cons in Hin. unfold INT_MAX, UINT_MAX, LONGLONG_MAX in *.
    destruct Hin as [-> |[-> |[-> |[-> |Hin]]]]; [| | | |by apply elem_of_nil in Hin];
      rewrite ?H1, ?H2, ?H3, ?H4 in Hrep; apply Z.leb_le in Hrep;
      match goal with |- context [is_signed ?t] => let b := eval vm_compute in (is_signed t) in change (is_signed t) with b end;
      cbn [kind isigned iwidth]; lia.
  - unfold cv_ok. cbn [cv_signed cv_z kind]. rewrite in_range_spec. cbn [isigned iwidth].
    pose proof (wrap_s_range 8 c ltac:(lia)). change (2 ^ (8 - 1)) with 128 in *. lia.
Qed.

End operands.

Section trees.
Context `{FA : FloatArith} (bits : Z) (p : pp) (E : list token → outcome (number * list token)).

(** The evaluator of each level. *)
Definition read (k : nat) : list token → outcome (number * list token) :=
  match k with
  | 0 => preprocess_primary bits p E
  | 1 => λ l, preprocess_unary bits p E (S (length l)) l
  | 2 => preprocess_multiplicative bits p E
  | 3 => preprocess_additive bits p E
  | 4 => preprocess_shift bits p E
  | 5 => preprocess_relational bits p E
  | 6 => preprocess_equality bits p E
  | 7 => preprocess_and bits p E
  | 8 => preprocess_exclusive_or bits p E
  | 9 => preprocess_inclusive_or bits p E
  | 10 => preprocess_logical_and bits p E
  | _ => preprocess_logical_or bits p E
  end%nat.

(** The shapes of the levels of binary operators. *)
Definition loops (k : nat) : bool := (k <=? 5)%nat.

Lemma read_level k l : (2 ≤ k ≤ 11)%nat →
  read k l = (if loops k then level (level_op k) (read (k - 1)) l
              else if associative k || (k =? 6)%nat then right_level (level_op k) (read (k - 1)) (S (length l)) l
              else once_level (level_op k) (read (k - 1)) l).
Proof.
  intros Hk. assert (k = 2 ∨ k = 3 ∨ k = 4 ∨ k = 5 ∨ k = 6 ∨ k = 7 ∨ k = 8 ∨ k = 9 ∨ k = 10 ∨ k = 11)%nat as Hc by lia.
  repeat (destruct Hc as [-> | Hc]; [done|]). by subst k.
Qed.

(** A level passes on what the level above it has read, if no operator of its
    own follows. *)
Lemma level_loop_stops k n v l : (2 ≤ k ≤ 11)%nat → stops k l →
  level_loop (level_op k) (read (k - 1)) n v l = Ok (v, l).
Proof.
  intros Hk Hs. destruct (stops_not_op k l Hk Hs) as (x & r & -> & Hop).
  destruct n; cbn [level_loop token_at head mbind outcome_bind]; by rewrite Hop.
Qed.

Lemma right_level_stops k m l v r : (2 ≤ k ≤ 11)%nat → stops k r → read (k - 1) l = Ok (v, r) →
  right_level (level_op k) (read (k - 1)) (S m) l = Ok (v, r).
Proof.
  intros Hk Hs Hr. destruct (stops_not_op k r Hk Hs) as (x & t & -> & Hop).
  cbn [right_level]. rewrite Hr. cbn [mbind outcome_bind token_at head]. by rewrite Hop.
Qed.

Lemma read_lift k l v r : (2 ≤ k ≤ 11)%nat → stops k r → read (k - 1) l = Ok (v, r) → read k l = Ok (v, r).
Proof.
  intros Hk Hs Hr. rewrite read_level by done. destruct (loops k).
  - unfold level. rewrite Hr. cbn [mbind outcome_bind]. by apply level_loop_stops.
  - destruct (_ || _); [by apply right_level_stops|]. unfold once_level. rewrite Hr. cbn [mbind outcome_bind].
    destruct (stops_not_op k r Hk Hs) as (x & t & -> & Hop). cbn [token_at head mbind outcome_bind]. by rewrite Hop.
Qed.

Lemma read_lifts j k l v r : (1 ≤ j ≤ k)%nat → (k ≤ 11)%nat → stops k r → read j l = Ok (v, r) → read k l = Ok (v, r).
Proof.
  intros [Hj Hle] Hk Hs Hr. induction Hle as [|k Hle IH]; [done|].
  apply read_lift; [lia|done|]. replace (S k - 1)%nat with k by lia. apply IH; [lia|]. by eapply stops_le; [|exact Hs]; lia.
Qed.

(** An operand is read by the level of unary operators. *)
Lemma read_unary_primary x l v r : is_unary (tk_token x) = false → read 0 (x :: l) = Ok (v, r) →
  read 1 (x :: l) = Ok (v, r).
Proof.
  intros Hx Hr. cbn [read preprocess_unary token_at head mbind outcome_bind] in *.
  by destruct (tk_token x).
Qed.

(** ** What is proved of each tree *)

(** A tree is read to its end by the levels that are not above its own. *)
Definition reads (e : tree) (v : cvalue) : Prop := ∀ k rest, (1 ≤ k ≤ 11)%nat → (level_of e ≤ k)%nat →
  stops k rest → read k (tokens e ++ rest) = Ok (number_of v, rest).

(** A level that is a loop arrives behind the tree with its value. *)
Definition reads_left (e : tree) (v : cvalue) : Prop := ∀ j rest, (2 ≤ j ≤ 5)%nat → (level_of e ≤ j)%nat →
  stops (j - 1) rest → ∃ m, (length rest ≤ m)%nat ∧
    level (level_op j) (read (j - 1)) (tokens e ++ rest) = level_loop (level_op j) (read (j - 1)) m (number_of v) rest.

(** A level that is right recursive takes the tree for the left end of what
    follows. *)
Definition reads_right (e : tree) (v : cvalue) : Prop := ∀ j y more w u r,
  associative j = true → (level_of e ≤ j)%nat → binary_level (tk_token y) = j →
  (∀ m, (length more < m)%nat → right_level (level_op j) (read (j - 1)) m more = Ok (number_of w, r)) →
  cv_ok w → cv_binary (tk_token y) v w = Ok u →
  ∀ m, (length (tokens e ++ y :: more) < m)%nat →
    right_level (level_op j) (read (j - 1)) m (tokens e ++ y :: more) = Ok (number_of u, r).

Lemma associative_level k : associative k = true → (7 ≤ k ≤ 11)%nat.
Proof. unfold associative. intros H. destruct (Nat.leb_spec 7 k), (Nat.leb_spec k 11); [done|..]; exfalso; revert H; rewrite !orb_true_iff, !Nat.eqb_eq; lia. Qed.

(** Each of these levels has one operator. *)
Lemma associative_unique a b : associative (binary_level a) = true → binary_level a = binary_level b → a = b.
Proof. intros H1 H2. by destruct a; try discriminate H1; destruct b; try discriminate H2. Qed.

Lemma stops_operator j x l : binary_level (tk_token x) = j → (2 ≤ j)%nat → stops (j - 1) (x :: l).
Proof. intros Hj Hl. cbn. rewrite stop_level_binary by lia. lia. Qed.

Lemma reads_left_above e v : reads e v → ∀ j rest, (2 ≤ j ≤ 5)%nat → (level_of e < j)%nat → stops (j - 1) rest →
  ∃ m, (length rest ≤ m)%nat ∧
    level (level_op j) (read (j - 1)) (tokens e ++ rest) = level_loop (level_op j) (read (j - 1)) m (number_of v) rest.
Proof.
  intros He j rest Hj Hl Hs. exists (length rest). split; [done|]. unfold level.
  rewrite He by (done || lia). done.
Qed.

Lemma reads_right_above e v : cv_ok v → reads e v → ∀ j y more w u r,
  associative j = true → (level_of e < j)%nat → binary_level (tk_token y) = j →
  (∀ m, (length more < m)%nat → right_level (level_op j) (read (j - 1)) m more = Ok (number_of w, r)) →
  cv_ok w → cv_binary (tk_token y) v w = Ok u →
  ∀ m, (length (tokens e ++ y :: more) < m)%nat →
    right_level (level_op j) (read (j - 1)) m (tokens e ++ y :: more) = Ok (number_of u, r).
Proof.
  intros Hv He j y more w u r Ha Hl Hy Hmore Hw Hu m Hm. pose proof (associative_level j Ha) as Hj.
  destruct m as [|m]; [lia|]. rewrite length_app in Hm. cbn [length] in Hm. cbn [right_level].
  rewrite He by (lia || by apply stops_operator; lia). cbn [mbind outcome_bind token_at head].
  destruct (level_op_spec (tk_token y)) as (f & Hf & Hspec); [lia|]. rewrite Hy in Hf. rewrite Hf. cbn [next_tokens drop].
  change (drop 0 more) with more. rewrite Hmore by lia. cbn [mbind outcome_bind].
  by rewrite (Hspec v w u) by (done || intros; lia).
Qed.

(** ** A binary operator, given its operands *)

Section binary.
Context (x : token) (a b : tree) (va vb v : cvalue).
Abbreviation k := (binary_level (tk_token x)).
Context (Hk : (2 ≤ k)%nat) (Hka : (level_of a ≤ k)%nat) (Hkb : (level_of b < k)%nat)
  (Hch : chains k = false → (level_of a < k)%nat)
  (Hva : cv_ok va) (Hvb : cv_ok vb) (Hsh : k = 4%nat → cv_signed va = true → cv_signed vb = true)
  (Hv : cv_binary (tk_token x) va vb = Ok v)
  (HA : reads a va) (HB : reads b vb).

Lemma binary_tokens rest : tokens (T_binary x a b) ++ rest = tokens a ++ x :: tokens b ++ rest.
Proof. cbn [tokens]. by rewrite <-app_assoc. Qed.

Lemma binary_level_le : (k ≤ 11)%nat.
Proof. clear. destruct (tk_token x); cbn; lia. Qed.

Lemma binary_op : ∃ f, level_op k (tk_token x) = Some f ∧ f (number_of va) (number_of vb) = Ok (number_of v).
Proof. destruct (level_op_spec (tk_token x) Hk) as (f & Hf & Hs). exists f. split; [done|]. by apply Hs. Qed.

Lemma binary_right_operand rest : stops (k - 1) rest → read (k - 1) (tokens b ++ rest) = Ok (number_of vb, rest).
Proof. intros Hs. pose proof binary_level_le. apply HB; [lia|lia|done]. Qed.

Lemma binary_left_own rest : (k ≤ 5)%nat → reads_left a va → stops (k - 1) rest →
  ∃ m, (length rest ≤ m)%nat ∧ level (level_op k) (read (k - 1)) (tokens (T_binary x a b) ++ rest) =
    level_loop (level_op k) (read (k - 1)) m (number_of v) rest.
Proof.
  intros Hj HL Hs. rewrite binary_tokens.
  destruct (HL k (x :: tokens b ++ rest)) as (m & Hm & ->); [lia|done|by apply stops_operator|].
  destruct m as [|m]; [cbn in Hm; lia|]. exists m.
  cbn [length] in Hm. rewrite length_app in Hm. split; [lia|].
  destruct binary_op as (f & Hf & Hfv). cbn [level_loop token_at head mbind outcome_bind]. rewrite Hf.
  change (next_tokens (x :: tokens b ++ rest)) with (tokens b ++ rest).
  rewrite binary_right_operand by done. cbn [mbind outcome_bind]. by rewrite Hfv.
Qed.

Lemma binary_right_more rest : stops k rest → ∀ m, (length (tokens b ++ rest) < m)%nat →
  right_level (level_op k) (read (k - 1)) m (tokens b ++ rest) = Ok (number_of vb, rest).
Proof.
  intros Hs m Hm. destruct m as [|m]; [lia|]. pose proof binary_level_le.
  apply right_level_stops; [lia|done|]. apply binary_right_operand. eapply stops_le; [|exact Hs]. lia.
Qed.

(** The level of the operator reads the tree; so do those below it. *)
Lemma binary_read_own rest : reads_left a va → reads_right a va → stops k rest →
  read k (tokens (T_binary x a b) ++ rest) = Ok (number_of v, rest).
Proof.
  intros HL HR Hs. pose proof binary_level_le as Hle.
  assert (stops (k - 1) rest) as Hs' by (eapply stops_le; [|exact Hs]; lia).
  rewrite read_level by lia. destruct (loops k) eqn:Hlo; [|destruct (associative k) eqn:Has].
  - apply Nat.leb_le in Hlo. destruct (binary_left_own rest Hlo HL Hs') as (m & _ & ->).
    apply level_loop_stops; [lia|done].
  - cbn [orb]. rewrite binary_tokens. eapply HR; [done|done|done|by apply binary_right_more|done|done|lia].
  - assert (level_of a < k)%nat as Hlt.
    { apply Hch. revert Hlo Has. unfold loops, associative, chains. clear -Hk Hle.
      rewrite Nat.leb_gt, !orb_false_iff, !Nat.eqb_neq, negb_false_iff, !orb_true_iff, !Nat.eqb_eq. lia. }
    assert (read (k - 1) (tokens a ++ x :: tokens b ++ rest) = Ok (number_of va, x :: tokens b ++ rest)) as Hra
      by (apply HA; [lia|lia|by apply stops_operator]).
    rewrite binary_tokens. destruct binary_op as (f & Hf & Hfv). cbn [orb]. destruct (k =? 6)%nat.
    + cbn [right_level]. rewrite Hra. cbn [mbind outcome_bind token_at head]. rewrite Hf.
      change (next_tokens (x :: tokens b ++ rest)) with (tokens b ++ rest).
      rewrite binary_right_more by (done || rewrite (length_app (tokens a)); cbn [length]; lia).
      cbn [mbind outcome_bind]. by rewrite Hfv.
    + unfold once_level. rewrite Hra. cbn [mbind outcome_bind token_at head]. rewrite Hf.
      change (next_tokens (x :: tokens b ++ rest)) with (tokens b ++ rest).
      rewrite binary_right_operand by done. cbn [mbind outcome_bind]. by rewrite Hfv.
Qed.

Lemma binary_reads : reads_left a va → reads_right a va → reads (T_binary x a b) v.
Proof.
  intros HL HR j rest Hj Hl Hs. cbn [level_of] in Hl. apply (read_lifts k); [lia|lia|done|].
  apply binary_read_own; [done|done|]. by eapply stops_le; [|exact Hs].
Qed.

Lemma binary_reads_left : reads_left a va → reads_right a va → reads_left (T_binary x a b) v.
Proof.
  intros HL HR j rest Hj Hl Hs. cbn [level_of] in Hl. destruct (decide (k = j)) as [<-|Hne].
  - apply binary_left_own; [lia|done|done].
  - apply reads_left_above; [by apply binary_reads|done|cbn; lia|done].
Qed.

Lemma binary_reads_right : reads_left a va → reads_right a va → reads_right (T_binary x a b) v.
Proof.
  intros HL HR j y more w u r Has Hl Hy Hmore Hw Hu m Hm. cbn [level_of] in Hl.
  assert (cv_ok v) as Hok by (by eapply cv_binary_ok; [| |exact Hv]).
  destruct (decide (k = j)) as [Hkj|Hne].
  - assert (tk_token x = tk_token y) as Hxy by (apply associative_unique; congruence).
    destruct (associative_total (tk_token x) vb w) as [bw Hbw]; [congruence|].
    rewrite binary_tokens in Hm |- *. rewrite <-Hy in *. rewrite <-Hxy in *.
    eapply (HR k x (tokens b ++ y :: more) bw u r); [done|done|done| |by eapply cv_binary_ok; [| |exact Hbw]| |done].
    + eapply (reads_right_above b vb); [done|done|done|lia|by rewrite <-Hxy|done|done|by rewrite <-Hxy].
    + by eapply binary_assoc; [| |exact Hbw|exact Hu].
  - eapply (reads_right_above (T_binary x a b) v); [done|by apply binary_reads|done|cbn; lia|done..].
Qed.

End binary.

(** ** The value of a tree *)

Lemma value_ok e v : standard p e → value e = Ok v → cv_ok v ∧ cv_signed v = signed e.
Proof.
  revert v. induction e as [x w|x y e IH|x e IH|x a IHa b IHb|x y a IHa b IHb c IHc]; cbn [standard value signed].
  - intros v Hp [= <-]. split; [by eapply operand_ok|done].
  - intros v (_ & _ & He). by apply IH.
  - intros v (Hx & _ & He & _) H. apply bind_ok_inv in H as (w & Hw & H). destruct (IH w He Hw) as [Hok Hs].
    split; [by eapply cv_unary_ok|]. clear IH. rewrite <-Hs. destruct (tk_token x); try discriminate Hx; cbn [cv_unary] in H; ok_inv; by subst.
  - intros v (Hk & _ & _ & _ & Ha & Hb & _) H. apply bind_ok_inv in H as (va & Hva & H). apply bind_ok_inv in H as (vb & Hvb & H).
    destruct (IHa va Ha Hva) as [Hoa <-], (IHb vb Hb Hvb) as [Hob <-].
    split; [by eapply cv_binary_ok; [| |exact H]|]. by apply cv_binary_signed.
  - intros v (_ & _ & _ & Ha & Hb & Hc) H. apply bind_ok_inv in H as (va & Hva & H). apply bind_ok_inv in H as (vb & Hvb & H).
    apply bind_ok_inv in H as (vc & Hvc & H). injection H as <-.
    destruct (IHb vb Hb Hvb) as [Hob <-], (IHc vc Hc Hvc) as [Hoc <-]. split; [apply conv_ok|done].
Qed.

(** ** Unary operators, operands and parentheses *)

Definition reads_unary (e : tree) (v : cvalue) : Prop := (level_of e ≤ 1)%nat → ∀ n rest,
  (length (tokens e ++ rest) < n)%nat → preprocess_unary bits p E n (tokens e ++ rest) = Ok (number_of v, rest).

Lemma preprocess_unary_primary x l n : is_unary (tk_token x) = false →
  preprocess_unary bits p E (S n) (x :: l) = preprocess_primary bits p E (x :: l).
Proof. intros Hx. cbn [preprocess_unary token_at head mbind outcome_bind]. by destruct (tk_token x). Qed.

Lemma operand_reads_unary x v : operand p x v → reads_unary (T_operand x v) v.
Proof.
  intros Ho _ n rest Hn. destruct n as [|n]; [lia|]. cbn [tokens app].
  rewrite preprocess_unary_primary by by destruct Ho as [? ? ? ? ? ? ? ? ->|? ? ? ->|? ? ->]. by apply primary_operand.
Qed.

Lemma normalize_number v : normalize (number_of v) = Ok (number_of v).
Proof. unfold number_of. by destruct (cv_signed v). Qed.

Lemma paren_reads_unary x y e v : tk_token x = OPEN_PAREN → tk_token y = CLOSE_PAREN →
  (∀ rest, stops 13 rest → E (tokens e ++ rest) = Ok (number_of v, rest)) → reads_unary (T_paren x y e) v.
Proof.
  intros Hx Hy HE _ n rest Hn. destruct n as [|n]; [lia|]. cbn [tokens app].
  rewrite preprocess_unary_primary by by rewrite Hx. unfold preprocess_primary. cbn [head mbind outcome_bind].
  rewrite Hx. change (next_tokens (x :: (tokens e ++ [y]) ++ rest)) with ((tokens e ++ [y]) ++ rest).
  rewrite <-app_assoc. cbn [app]. rewrite HE by (cbn; rewrite Hy; cbn; lia). cbn [mbind outcome_bind].
  unfold expect. cbn [head mbind outcome_bind]. rewrite is_tok_eq, bool_decide_true by done.
  cbn [mbind outcome_bind]. by rewrite normalize_number.
Qed.

Lemma unary_reads_unary x e w v : is_unary (tk_token x) = true → (level_of e ≤ 1)%nat →
  (tk_token x = NOT → cv_signed w = true) → cv_ok w → cv_unary (tk_token x) w = Ok v →
  reads_unary e w → reads_unary (T_unary x e) v.
Proof.
  intros Hx Hl Hn Hw Hv He _ n rest Hlen. destruct n as [|n]; [lia|]. cbn [tokens app length] in *.
  cbn [preprocess_unary token_at head mbind outcome_bind].
  change (next_tokens (x :: tokens e ++ rest)) with (tokens e ++ rest).
  assert (preprocess_unary bits p E n (tokens e ++ rest) = Ok (number_of w, rest)) as Hr by (apply He; [done|lia]).
  destruct (tk_token x); try discriminate Hx; cbn [cv_unary] in Hv; rewrite Hr; cbn [mbind outcome_bind].
  - rewrite (unary_assign_spec _ w (Z.b2z (cv_z w =? 0))) by done. injection Hv as <-. rewrite Hn by done.
    cbn [mbind outcome_bind]. unfold cv_bool, cv_true. by rewrite negb_involutive.
  - rewrite (unary_assign_spec _ w (cv_z w)) by done. injection Hv as <-. by destruct w.
  - ok_inv. subst v. by rewrite (unary_assign_spec _ w a).
  - ok_inv. subst v. by rewrite (unary_assign_spec _ w a).
Qed.

Lemma unary_reads e v : (level_of e ≤ 1)%nat → reads_unary e v →
  (∀ j rest, (1 ≤ j ≤ 11)%nat → stops j rest → read j (tokens e ++ rest) = Ok (number_of v, rest)).
Proof.
  intros Hl He j rest Hj Hs. apply (read_lifts 1); [lia|lia|done|]. cbn [read]. apply He; [done|lia].
Qed.

(** ** All trees, given the expressions in parentheses *)

(** The evaluator of nested expressions is right on trees smaller than [N]. *)
Definition nested (N : nat) : Prop := ∀ e v rest, (tree_size e < N)%nat → standard p e → value e = Ok v →
  stops 13 rest → E (tokens e ++ rest) = Ok (number_of v, rest).

Definition reads_conditional (e : tree) (v : cvalue) : Prop := ∀ n rest, (length (tokens e ++ rest) < n)%nat →
  stops 12 rest → preprocess_conditional bits p E n (tokens e ++ rest) = Ok (number_of v, rest).

Definition reads_all (e : tree) (v : cvalue) : Prop := reads e v ∧ reads_left e v ∧ reads_right e v ∧ reads_unary e v.

Lemma reads_unary_all e v : cv_ok v → (level_of e ≤ 1)%nat → reads_unary e v → reads_all e v.
Proof.
  intros Hv Hl Hu. assert (reads e v) as Hr by (intros k rest Hk _; by apply unary_reads).
  split_and!; [done| | |done].
  - intros j rest Hj _ Hs. apply reads_left_above; [done|done|lia|done].
  - intros j y more w u r Ha _ Hy Hm Hw H m Hlen. pose proof (associative_level j Ha).
    eapply (reads_right_above e v); [done|done|done|lia|done..].
Qed.

Lemma tree_reads N e v : nested N → (tree_size e ≤ N)%nat → standard p e → value e = Ok v → (level_of e ≤ 11)%nat →
  reads_all e v.
Proof.
  intros HN. revert v. induction e as [x w|x y e IH|x e IH|x a IHa b IHb|x y a IHa b IHb c IHc];
    intros v Hsz Hst Hv Hl; pose proof (value_ok _ _ Hst Hv) as [Hok _]; cbn [tree_size standard value level_of] in *.
  - injection Hv as <-. apply reads_unary_all; [done|cbn; lia|]. by apply operand_reads_unary.
  - destruct Hst as (Hx & Hy & He). apply reads_unary_all; [done|cbn; lia|]. apply paren_reads_unary; [done..|].
    intros rest Hs. by apply HN; [lia|..].
  - destruct Hst as (Hx & Hle & He & Hn). apply bind_ok_inv in Hv as (w & Hw & Hv).
    destruct (value_ok _ _ He Hw) as [Hwo Hws]. apply reads_unary_all; [done|cbn; lia|].
    apply (unary_reads_unary x e w); [done|done|by rewrite Hws|done|done|]. by apply IH; [lia|..|lia].
  - destruct Hst as (Hk & Hka & Hkb & Hch & Ha & Hb & Hsh).
    apply bind_ok_inv in Hv as (va & Hva & Hv). apply bind_ok_inv in Hv as (vb & Hvb & Hv).
    destruct (value_ok _ _ Ha Hva) as [Hoa Hsa], (value_ok _ _ Hb Hvb) as [Hob Hsb]. rewrite <-Hsa, <-Hsb in Hsh.
    destruct (IHa va) as (HA & HLA & HRA & _); [lia|done|done|lia|].
    destruct (IHb vb) as (HB & _ & _ & _); [lia|done|done|lia|].
    split_and!; [by apply (binary_reads x a b va vb)|by apply (binary_reads_left x a b va vb)|by apply (binary_reads_right x a b va vb)|].
    intros H1. cbn [level_of] in H1. lia.
  - lia.
Qed.

Lemma stops_not_tok k t rest : (stop_level t ≤ k)%nat → stops k rest →
  ∃ z l, rest = z :: l ∧ is_tok t z = false.
Proof.
  intros Ht Hs. destruct rest as [|z l]; [done|]. exists z, l. split; [done|].
  rewrite is_tok_eq. apply bool_decide_eq_false. intros <-. cbn in Hs. lia.
Qed.

Lemma conditional_reads_binary N e v : nested N → (tree_size e ≤ N)%nat → standard p e → value e = Ok v →
  (level_of e ≤ 11)%nat → reads_conditional e v.
Proof.
  intros HN Hsz Hst Hv Hl n rest Hn Hs. destruct n as [|n]; [lia|]. cbn [preprocess_conditional].
  change (preprocess_logical_or bits p E) with (read 11).
  destruct (tree_reads N e v) as (Hr & _); [done..|].
  rewrite Hr by (lia || by eapply stops_le; [|exact Hs]; lia). cbn [mbind outcome_bind].
  destruct (stops_not_tok 12 QUESTION rest) as (z & l & -> & Hz); [cbn; lia|done|].
  cbn [head mbind outcome_bind]. by rewrite Hz.
Qed.

Lemma conditional_reads N e v : nested N → (tree_size e ≤ N)%nat → standard p e → value e = Ok v → reads_conditional e v.
Proof.
  intros HN. revert v. induction e as [x w|x y e IH|x e IH|x a IHa b IHb|x y a IHa b IHb c IHc] using tree_ind;
    intros v Hsz Hst Hv n rest Hn Hs.
  1-4: by apply (conditional_reads_binary N); try (cbn [level_of]; lia); try apply binary_level_le.
  cbn [tree_size standard value] in *. destruct Hst as (Hx & Hy & Hl & Ha & Hb & Hc).
  apply bind_ok_inv in Hv as (va & Hva & Hv). apply bind_ok_inv in Hv as (vb & Hvb & Hv).
  apply bind_ok_inv in Hv as (vc & Hvc & Hv). injection Hv as <-.
  destruct (value_ok _ _ Ha Hva) as [Hoa _], (value_ok _ _ Hb Hvb) as [Hob _], (value_ok _ _ Hc Hvc) as [Hoc _].
  destruct n as [|n]; [lia|]. cbn [tokens] in Hn |- *. repeat (rewrite <-?app_assoc in Hn |- *; cbn [app] in Hn |- *).
  cbn [preprocess_conditional]. change (preprocess_logical_or bits p E) with (read 11).
  destruct (tree_reads N a va) as (Hra & _); [done|lia|done|done|done|].
  rewrite Hra by (lia || (cbn; rewrite Hx; cbn; lia)). cbn [mbind outcome_bind head].
  rewrite is_tok_eq, bool_decide_true by done.
  change (next_tokens (x :: tokens b ++ y :: tokens c ++ rest)) with (tokens b ++ y :: tokens c ++ rest).
  rewrite (HN b vb) by (lia || done || (cbn; rewrite Hy; cbn; lia)). cbn [mbind outcome_bind].
  unfold expect. cbn [head mbind outcome_bind]. rewrite is_tok_eq, bool_decide_true by done. cbn [mbind outcome_bind].
  change (next_tokens (y :: tokens c ++ rest)) with (tokens c ++ rest).
  rewrite !length_app in Hn. cbn [length] in Hn. rewrite !length_app in Hn. cbn [length] in Hn. rewrite !length_app in Hn.
  rewrite (IHc vc) by (done || lia || rewrite length_app; lia). cbn [mbind outcome_bind].
  rewrite both_signed_spec by done. cbn [mbind outcome_bind]. rewrite number_true by done.
  f_equal. unfold number_of at 3. cbn [cv_signed cv_z]. by destruct (cv_true va).
Qed.
End trees.

(** ** Expressions *)

Lemma expression_reads `{FA : FloatArith} bits p N : nested p (preprocess_expression bits N p) (S N).
Proof.
  induction N as [|N IH]; intros e v rest Hsz Hst Hv Hs; [pose proof (tree_size_tokens e); lia|].
  cbn [preprocess_expression expression_loop].
  rewrite (conditional_reads bits p _ (S N) e v) by (done || lia || by eapply stops_le; [|exact Hs]; lia).
  cbn [mbind outcome_bind]. destruct (stops_not_tok 13 COMMA rest) as (z & l & -> & Hz); [cbn; lia|done|].
  cbn [head mbind outcome_bind]. by rewrite Hz.
Qed.

Lemma constant_expression_reads `{FA : FloatArith} bits p e v rest : standard p e → value e = Ok v → stops 12 rest →
  preprocess_constant_expression bits p (tokens e ++ rest) = Ok (number_of v, rest).
Proof.
  intros Hst Hv Hs. unfold preprocess_constant_expression.
  eapply (conditional_reads bits p _ (S (length (tokens e ++ rest))) e v); [apply expression_reads| |done|done|lia|done].
  pose proof (tree_size_tokens e). rewrite length_app. lia.
Qed.
