(* ===== verification/Preproc.v ===== *)
(** * The preprocessor (src/preprocessor/preprocess.c)

    Lines to the tokens the parser reads: complete lines are collected,
    directives are obeyed, macros expanded, and the tokens put on a queue.
    [fuel] bounds the tokens and lines that one loop reads, [depth] the
    expansions inside each other. *)

From stdpp Require Import base list gmap numbers strings.
From Stdlib Require Import ZArith Lia.
From S2P Require Import Prelude CType Floats Strings Hash Strtab Typetree Token Lexer Input Macro Immediate Directive.

Local Open Scope Z_scope.

(** [preprocess_reset], without the strings that [strtab_reset] frees. *)
Definition preprocess_reset (p : pp) : outcome pp :=
  p ← macro_reset (set_line p None);
  '(st, _) ← strtab_reset (lx_strtab (pp_lexer p));
  let lx := pp_lexer p in
  let lx := tokenize_reset (Lexer st (lx_strings lx) (lx_buffer lx)) in
  Ok (set_lookahead (set_lexer p lx) []).

Definition preprocess_finalize (p : pp) : outcome (pp * gmap N macro) :=
  p ← preprocess_reset p;
  let p := set_input p (input_finalize (pp_input p)) in
  '(rest, _) ← macro_finalize p;
  Ok (p, rest).

Section preprocessor.
Context `{FA : FloatArith} (ulong_bits : Z) (c99 : bool) (depth fuel : nat).
Context (fopen : list Z → option (list Z)).

Definition pp_tokenize (p : pp) (line : list Z) : outcome (pp * token * list Z) :=
  '(lx, t, r) ← tokenize c99 (pp_lexer p) line; Ok (set_lexer p lx, t, r).

(** The part of [get_token] that reads from [line_buffer]. *)
Definition get_token_of_line (p : pp) (line : list Z) : outcome (pp * token) :=
  '(p, r, endptr) ← pp_tokenize p line;
  if is_tok END r then Ok (set_line p None, basic NEWLINE) else Ok (set_line p (Some endptr), r).

Definition get_token (p : pp) : outcome (pp * token) :=
  match line_buffer p with
  | Some line => get_token_of_line p line
  | None =>
    '(i, line) ← getprepline fuel (in_active_block p) (pp_input p);
    let p := set_input p i in
    match line with
    | None => Ok (p, basic END)
    | Some line => get_token_of_line p line
    end
  end.

(** The next token that is not [NEWLINE]. *)
Fixpoint get_past_newlines (n : nat) (p : pp) : outcome (pp * token) :=
  match n with
  | O => Undef "not enough fuel"
  | S n =>
    '(p, t) ← get_token p;
    if is_tok NEWLINE t then get_past_newlines n p else Ok (p, t)
  end.

(** ** Complete lines *)

Definition read_through_newline (p : pp) (line : list token) : outcome (pp * list token * token_type) :=
  '(p, t) ← get_past_newlines fuel p;
  Ok (p, if is_tok END t then line else line ++ [t], tk_token t).

Definition read_Pragma_invocation (p : pp) (line : list token) : outcome (pp * list token) :=
  '(p, line, t) ← read_through_newline p line;
  if negb (bool_decide (t = OPEN_PAREN)) then Exit "Expected '(' after _Pragma."
  else
    '(p, line, t) ← read_through_newline p line;
    if negb (bool_decide (t = STRING)) && negb (bool_decide (t = PREP_STRING)) then
      Exit "Invalid argument to _Pragma operator, expected string."
    else
      '(p, line, t) ← read_through_newline p line;
      if negb (bool_decide (t = CLOSE_PAREN)) then
        Exit "Expected ')' to complete _Pragma expression."
      else Ok (p, line).

Fixpoint read_invocation (n : nat) (p : pp) (line : list token) (nesting : Z) :
    outcome (pp * list token) :=
  if nesting =? 0 then Ok (p, line)
  else match n with
  | O => Undef "not enough fuel"
  | S n =>
    '(p, t) ← get_token p;
    let nesting :=
      if is_tok OPEN_PAREN t then nesting + 1
      else if is_tok CLOSE_PAREN t then nesting - 1 else nesting in
    if is_tok NEWLINE t then read_invocation n p line nesting
    else
      _ ← c_assert (negb (is_tok END t));
      read_invocation n p (line ++ [t]) nesting
  end.

Definition read_macro_invocation (p : pp) (line : list token) (def : macro) :
    outcome (pp * list token) :=
  _ ← c_assert (bool_decide (m_type def = FUNCTION_LIKE));
  '(p, t) ← get_token p;
  let line := line ++ [t] in
  if negb (is_tok OPEN_PAREN t) then Ok (p, line) else read_invocation fuel p line 1.

Definition read_defined_operator (p : pp) (line : list token) : outcome (pp * list token) :=
  '(p, t) ← get_token p;
  '(p, t, is_parens) ←
    (if is_tok OPEN_PAREN t then '(p, t) ← get_token p; Ok (p, t, true) else Ok (p, t, false));
  if negb (is_expandable t) then Exit "Expected identifier in 'defined' clause."
  else
    s ← tok_string t;
    '(p, d) ← macro_definition p s;
    '(p, t, _) ← pp_tokenize p (cstr (match d with Some _ => "1" | None => "0" end));
    let line := line ++ [t] in
    if is_parens : bool then
      '(p, t) ← get_token p;
      if negb (is_tok CLOSE_PAREN t) then Exit "Expected ')' to close 'defined' clause."
      else Ok (p, line)
    else Ok (p, line).

(** What [read_complete_line] does with a token: the line and what is added
    to [macros]. *)
Definition read_line_token (p : pp) (line : list token) (t : token) (directive expandable : bool) :
    outcome (pp * list token * Z) :=
  if expandable && is_expandable t then
    is_defined ← tok_eq t ident__defined;
    if directive && is_defined then
      '(p, line) ← read_defined_operator p line; Ok (p, line, 0)
    else
      is_Pragma ← tok_eq t ident__Pragma;
      if is_Pragma : bool then
        '(p, line) ← read_Pragma_invocation p (line ++ [t]); Ok (p, line, 0)
      else
        s ← tok_string t;
        '(p, def) ← macro_definition p s;
        match def with
        | Some def =>
          if bool_decide (m_type def = FUNCTION_LIKE) then
            '(p, line) ← read_macro_invocation p (line ++ [t]) def; Ok (p, line, 1)
          else Ok (p, line ++ [t], 1)
        | None => Ok (p, line ++ [t], 0)
        end
  else Ok (p, line ++ [t], 0).

Fixpoint complete_line_loop (n : nat) (p : pp) (line : list token) (t : token)
    (directive expandable : bool) (macros : Z) : outcome (pp * list token * Z) :=
  if is_tok NEWLINE t then Ok (p, line ++ [t], macros)
  else match n with
  | O => Undef "not enough fuel"
  | S n =>
    _ ← c_assert (negb (is_tok END t));
    '(p, line, d) ← read_line_token p line t directive expandable;
    '(p, t) ← get_token p;
    complete_line_loop n p line t directive expandable (macros + d)
  end.

Definition read_complete_line (p : pp) (line : list token) (t : token) (directive : bool) :
    outcome (pp * list token * Z) :=
  if directive then
    is_elif ← tok_eq t ident__elif;
    let expandable := is_tok IF t || is_elif in
    '(p, t') ← get_token p;
    complete_line_loop fuel p (line ++ [t]) t' true expandable 0
  else complete_line_loop fuel p line t false true 0.

(** ** Lines that go on after expansion *)

Definition skip_or_get_token (p : pp) (line : list token) (i : nat) :
    outcome (pp * list token * token) :=
  let line :=
    if (i + 1 =? length line)%nat && is_tok NEWLINE (nth i line tok_zero) then removelast line else line in
  if (i =? length line)%nat then
    '(p, t) ← get_past_newlines fuel p;
    _ ← c_assert (negb (is_tok END t));
    Ok (p, line ++ [t], t)
  else
    _ ← c_assert (i <? length line)%nat;
    t ← defined "past the end of the token array" (line !! i);
    Ok (p, line, t).

(** The loop of [skip_or_read_expansion], with the index behind it. *)
Fixpoint skip_nested (n : nat) (p : pp) (line : list token) (i : nat) (nest : Z) :
    outcome (pp * list token * nat) :=
  if nest =? 0 then Ok (p, line, i)
  else match n with
  | O => Undef "not enough fuel"
  | S n =>
    '(p, line, t) ← skip_or_get_token p line i;
    let nest := if is_tok OPEN_PAREN t then nest + 1 else nest in
    let nest := if is_tok CLOSE_PAREN t then nest - 1 else nest in
    skip_nested n p line (S i) nest
  end.

Definition skip_or_read_expansion (p : pp) (line : list token) (start : nat) :
    outcome (pp * list token * nat) :=
  '(p, line, t) ← skip_or_get_token p line start;
  if negb (is_tok OPEN_PAREN t) then Ok (p, line, 1%nat)
  else
    '(p, line, i) ← skip_nested (length line + fuel) p line (S start) 1;
    Ok (p, line, (i - start)%nat).

(** The loop of [refill_expanding_line] over the first [len] tokens; [t] is
    the token of the last pass. *)
Fixpoint refill_loop (k : nat) (p : pp) (line : list token) (len i : nat) (t : token) (n : Z) :
    outcome (pp * list token * token * Z) :=
  if (len <=? i)%nat then Ok (p, line, t, n)
  else match k with
  | O => Undef "not enough fuel"
  | S k =>
    t ← defined "past the end of the token array" (line !! i);
    '(p, line, skip, d) ←
      (if is_expandable t && negb (disable_expand t) then
         s ← tok_string t;
         '(p, def) ← macro_definition p s;
         match def with
         | Some def =>
           if bool_decide (m_type def = FUNCTION_LIKE) then
             '(p, line, k) ← skip_or_read_expansion p line (S i); Ok (p, line, k, 1)
           else Ok (p, line, O, 0)
         | None => Ok (p, line, O, 0)
         end
       else
         is_Pragma ← tok_eq t ident__Pragma;
         if is_Pragma : bool then
           '(p, line, k) ← skip_or_read_expansion p line (S i); Ok (p, line, k, 0)
         else Ok (p, line, O, 0));
    refill_loop k p line len (S (i + skip)) t (n + d)
  end.

Definition refill_expanding_line (p : pp) (line : list token) : outcome (pp * list token * Z) :=
  match line with
  | [] => Ok (p, line, 0)
  | _ =>
    '(p, line, t, n) ← refill_loop (length line) p line (length line) 0 tok_zero 0;
    if is_tok NEWLINE t then Ok (p, line, n)
    else
      '(p, t) ← get_token p;
      '(p, line, m) ← read_complete_line p line t false;
      Ok (p, line, n + m)
  end.

(** [while (i && expand(&line)) i = refill_expanding_line(&line)]. *)
Fixpoint expand_complete (n : nat) (p : pp) (line : list token) (i : Z) : outcome (pp * list token) :=
  if i =? 0 then Ok (p, line)
  else match n with
  | O => Undef "not enough fuel"
  | S n =>
    '(p, line, e) ← expand c99 depth p line;
    if e =? 0 then Ok (p, line)
    else '(p, line, i) ← refill_expanding_line p line; expand_complete n p line i
  end.

(** ** The queue *)

(** The conversion of a token before it is queued. *)
Definition convert_token (p : pp) (t : token) : outcome (pp * token) :=
  match tk_token t with
  | PREP_CHAR => t ← convert_preprocessing_char t; Ok (p, t)
  | PREP_NUMBER => t ← convert_preprocessing_number ulong_bits t; Ok (p, t)
  | PREP_STRING =>
    '(lx, t) ← convert_preprocessing_string (pp_lexer p) t; Ok (set_lexer p lx, t)
  | _ => Ok (p, t)
  end.

(** [add_to_lookahead], without the trace of [context.verbose]. *)
Definition add_to_lookahead (p : pp) (t : token) : outcome pp :=
  if output_preprocessed p then Ok (set_lookahead p (lookahead p ++ [t]))
  else
    '(p, c) ← convert_token p t;
    match last (lookahead p) with
    | Some prev =>
      if is_tok STRING c && is_tok STRING prev then
        s1 ← tok_string prev;
        s2 ← tok_string c;
        let lx := pp_lexer p in
        '(st, s) ← str_cat (lx_strtab lx) s1 s2;
        let p := set_lexer p (Lexer st (lx_strings lx) (lx_buffer lx)) in
        Ok (set_lookahead p (removelast (lookahead p) ++ [set_string c s]))
      else Ok (set_lookahead p (lookahead p ++ [c]))
    | None => Ok (set_lookahead p (lookahead p ++ [c]))
    end.

Fixpoint add_tokens (p : pp) (l : list token) : outcome pp :=
  match l with [] => Ok p | t :: l => p ← add_to_lookahead p t; add_tokens p l end.

Definition is_lookahead_ready (p : pp) (n : nat) : bool :=
  if (length (lookahead p) <? n)%nat then false
  else
    match last (lookahead p) with
    | Some t => output_preprocessed p || negb (is_tok STRING t)
    | None => true
    end.

(** ** Pragmas *)

Inductive pragma_id : Set := PRAGMA_UNKNOWN | PRAGMA_IMPORT | PRAGMA_LIB | PRAGMA_DISWARN.

Definition strings_equal (a b : list Z) : bool := bool_decide (a = b).

Definition pragma_word (s : list Z) (id : pragma_id) : pragma_id :=
  if strings_equal s (cstr "import") then PRAGMA_IMPORT
  else if strings_equal s (cstr "lib") then PRAGMA_LIB
  else if strings_equal s (cstr "disable") then PRAGMA_DISWARN
  else id.

Definition pragma_string (p : pp) (s : list Z) (id : pragma_id) : pp :=
  match id with
  | PRAGMA_IMPORT => add_pragma_call p (Import_module s)
  | PRAGMA_LIB => add_pragma_call p (Ref_module s)
  | PRAGMA_DISWARN =>
    if strings_equal s (cstr "warning:all") then add_pragma_call p (Disable_warning s) else p
  | PRAGMA_UNKNOWN => p
  end.

Fixpoint pragma_tokens (p : pp) (l : list token) (id : pragma_id) : outcome pp :=
  match l with
  | [] => Ok p
  | t :: l =>
    if is_tok IDENTIFIER t then
      s ← tok_string t; pragma_tokens p l (pragma_word (until_nul (str_raw s)) id)
    else if is_tok STRING t || is_tok PREP_STRING t then
      s ← tok_string t; pragma_tokens (pragma_string p (until_nul (str_raw s)) id) l id
    else pragma_tokens p l id
  end.

Definition preprocess_pragma (p : pp) (line : list token) : outcome pp :=
  _ ← c_assert (0 <? length line)%nat;
  eq ← tok_eq ident__pragma (hd tok_zero line);
  _ ← c_assert eq;
  if output_preprocessed p then
    _ ← c_assert (forallb (λ t, negb (is_tok END t)) line);
    add_tokens p
      ([basic NEWLINE; basic HASH] ++ line
       ++ (if is_tok NEWLINE (List.last line tok_zero) then [] else [basic NEWLINE]))
  else pragma_tokens p line PRAGMA_UNKNOWN.

(** The characters [destringize] writes; behind the last one is the
    terminator. *)
Fixpoint destringize_chars (raw : list Z) : list Z :=
  match raw with
  | [] => []
  | c :: r =>
    if c =? 92 then
      match r with
      | [] => [92; 0]
      | x :: r => (if (x =? 34) || (x =? 92) then [x] else [92; x]) ++ destringize_chars r
      end
    else c :: destringize_chars r
  end.

(** [destringize]: the C string in [dstr_buffer], which is cleared only where
    it grows. *)
Definition destringize (p : pp) (str : kstring) : pp * list Z :=
  let len := Z.to_nat (s_len str) in
  let buf := if (length (dstr_buffer p) <? len + 1)%nat then replicate (len + 1) 0 else dstr_buffer p in
  let buf := memcpy_at buf (destringize_chars (str_raw str)) in
  (set_dstr p buf, until_nul buf).

(** The tokens of the line up to its end. *)
Fixpoint pragma_line (n : nat) (p : pp) (line : list Z) : outcome (pp * list token) :=
  '(p, t, r) ← pp_tokenize p line;
  if is_tok END t then Ok (p, [])
  else match n with
  | O => Undef "not enough fuel"
  | S n => '(p, ts) ← pragma_line n p r; Ok (p, t :: ts)
  end.

(** [preprocess_Pragma]: the pragma and the index of the closing
    parenthesis.  The whitespace of a second token that is not there is written
    to the spare capacity of the array. *)
Definition preprocess_Pragma (p : pp) (line : list token) (i : nat) : outcome (pp * list token * nat) :=
  let nth_is j ty := t ← defined "past the end of the token array" (line !! j); Ok (is_tok ty t) in
  t ← defined "past the end of the token array" (line !! i);
  eq ← tok_eq t ident__Pragma;
  _ ← c_assert eq;
  if (length line - i <? 3)%nat then Exit "Wrong application of _Pragma operator."
  else
    open ← nth_is (i + 1)%nat OPEN_PAREN;
    str ← nth_is (i + 2)%nat STRING;
    prep ← nth_is (i + 2)%nat PREP_STRING;
    if negb (open : bool) || (negb str && negb prep) then Exit "Wrong application of _Pragma operator."
    else
      close ← nth_is (i + 3)%nat CLOSE_PAREN;
      if negb (close : bool) then Exit "Wrong application of _Pragma operator."
      else
        t ← defined "past the end of the token array" (line !! (i + 2)%nat);
        s ← tok_string t;
        let '(p, destr) := destringize p s in
        '(p, ts) ← pragma_line (length destr) p destr;
        let ts := match ts with t :: ts => set_leading_whitespace t 1 :: ts | [] => [] end in
        Ok (p, ident__pragma :: ts, (i + 3)%nat).

(** ** Lines to the queue *)

(** The loop over an expanded line, from index [i] on; [k] bounds the tokens
    left. *)
Fixpoint queue_line (k : nat) (p : pp) (line : list token) (i : nat) : outcome pp :=
  match line !! i with
  | None => Ok p
  | Some t =>
    match k with
    | O => Undef "not enough fuel"
    | S k =>
      is_Pragma ← tok_eq t ident__Pragma;
      if is_Pragma : bool then
        '(p, pragma, i) ← preprocess_Pragma p line i;
        p ← preprocess_pragma p pragma;
        queue_line k p line (S i)
      else if negb (is_tok NEWLINE t) || output_preprocessed p then
        p ← add_to_lookahead p t; queue_line k p line (S i)
      else queue_line k p line (S i)
    end
  end.

(** Whether the directive [t] is read in a group that is skipped. *)
Definition is_conditional (t : token) : outcome bool :=
  is_ifdef ← tok_eq t ident__ifdef;
  is_ifndef ← tok_eq t ident__ifndef;
  is_elif ← tok_eq t ident__elif;
  is_endif ← tok_eq t ident__endif;
  Ok (is_tok IF t || is_tok ELSE t || is_ifdef || is_ifndef || is_elif || is_endif).

Definition preprocess_directive_line (p : pp) : outcome pp :=
  '(p, t) ← get_token p;
  cond ← is_conditional t;
  if (negb (is_tok NEWLINE t) && in_active_block p) || cond then
    '(p, line, _) ← read_complete_line p [] t true;
    is_pragma ← tok_eq t ident__pragma;
    if is_pragma : bool then preprocess_pragma p line
    else preprocess_directive ulong_bits c99 depth fopen p line
  else Ok (set_line p None).

Definition preprocess_text_line (p : pp) (t : token) : outcome pp :=
  _ ← c_assert (in_active_block p);
  '(p, line, i) ← read_complete_line p [] t false;
  '(p, line) ← expand_complete fuel p line i;
  queue_line (length line) p line 0.

(** One pass of the loop of [preprocess_line], and whether it was left at the
    end of the input. *)
Definition preprocess_one (p : pp) : outcome (pp * bool) :=
  '(p, t) ← get_token p;
  if is_tok END t then Ok (p, true)
  else
    p ← (if is_tok HASH t then preprocess_directive_line p else preprocess_text_line p t);
    Ok (p, false).

Fixpoint preprocess_lines (k : nat) (p : pp) (n : nat) : outcome pp :=
  match k with
  | O => Undef "not enough fuel"
  | S k =>
    '(p, done) ← preprocess_one p;
    if (done : bool) || is_lookahead_ready p n then Ok p else preprocess_lines k p n
  end.

Definition preprocess_line (p : pp) (n : nat) : outcome pp :=
  p ← preprocess_lines fuel p n;
  add_tokens p (replicate (n - length (lookahead p)) (basic END)).

(** Without the [END] tokens at the back of the queue. *)
Fixpoint drop_ends (l : list token) : list token :=
  match l with
  | [] => []
  | t :: l =>
    match drop_ends l with
    | [] => if is_tok END t then [] else [t]
    | l' => t :: l'
    end
  end.

Definition inject_line (p : pp) (line : list Z) : outcome pp :=
  _ ← c_assert (match line_buffer p with None => true | Some _ => false end);
  p ← preprocess_line (set_line p (Some line)) 0;
  Ok (set_line (set_lookahead p (drop_ends (lookahead p))) None).

Definition next (p : pp) : outcome (pp * token) :=
  p ← (if (length (lookahead p) <? 1)%nat then preprocess_line p 1 else Ok p);
  match lookahead p with
  | t :: l => Ok (set_lookahead p l, t)
  | [] => Undef "past the end of the queue"
  end.

Definition peekn (p : pp) (n : nat) : outcome (pp * token) :=
  _ ← c_assert (0 <? n)%nat;
  p ← (if (length (lookahead p) <? n)%nat then preprocess_line p n else Ok p);
  t ← defined "past the end of the queue" (lookahead p !! (n - 1)%nat);
  Ok (p, t).

Definition peek (p : pp) : outcome (pp * token) := peekn p 1.

Definition consume (p : pp) (type : token_type) : outcome (pp * token) :=
  '(p, t) ← next p;
  if is_tok type t then Ok (p, t) else Exit "Unexpected token.".

(** ** Preprocessed output *)

Definition print_token (t : token) : outcome (list Z) :=
  _ ← c_assert (negb (is_tok NUMBER t));
  s ← tok_string t;
  let text := until_nul (str_raw s) in
  Ok (replicate (Z.to_nat (leading_whitespace t)) (ch " ")
      ++ match tk_token t with
         | PREP_STRING | STRING => [34] ++ text ++ [34]
         | PREP_CHAR => [ch "'"] ++ text ++ [ch "'"]
         | _ => text
         end).

(** The characters written by [preprocess] for at most [n] tokens. *)
Fixpoint preprocess_loop (n : nat) (p : pp) : outcome (pp * list Z) :=
  match n with
  | O => Undef "not enough fuel"
  | S n =>
    '(p, t) ← next p;
    if is_tok END t then Ok (p, [])
    else
      s ← print_token t;
      '(p, out) ← preprocess_loop n p;
      Ok (p, s ++ out)
  end.
Definition preprocess (p : pp) : outcome (pp * list Z) := preprocess_loop fuel (set_output p true).

End preprocessor.
