(* ===== verification/MacroSpec.v ===== *)
(** * What the macro processor ensures

    The table of macros is a map; object-like macros are expanded as the
    standard says, and expansion ends; the text of a stringified argument is its
    spelling; and mutually recursive macros whose names pass through arguments
    are expanded without end. *)

From stdpp Require Import base list gmap fin_maps numbers strings.
From Stdlib Require Import ZArith Lia.
From S2P Require Import Prelude CType Floats Strings Hash HashProps Strtab Token Lexer LexerProps Input Macro MacroProps MacroExpand Immediate Directive Preproc.

Local Open Scope Z_scope.

(** ** The table *)

Inductive macro_cmd : Set :=
  | C_define (d : macro)
  | C_undef (name : kstring)
  | C_definition (name : kstring).

(** A command on the table, and on a map, with what a lookup finds. *)
Definition macro_do (p : pp) (c : macro_cmd) : outcome (pp * list (option macro)) :=
  match c with
  | C_define d => p ← define p d; Ok (p, [])
  | C_undef name => p ← undef p name; Ok (p, [])
  | C_definition name => '(p, d) ← macro_definition p name; Ok (p, [d])
  end.
Definition macro_map_do (p : pp) (M : gmap (list Z) macro) (c : macro_cmd) :
    outcome (gmap (list Z) macro * list (option macro)) :=
  match c with
  | C_define d => M ← map_define M d; Ok (M, [])
  | C_undef name => Ok (delete (str_raw name) M, [])
  | C_definition name => Ok (M, [present p <$> M !! str_raw name])
  end.

Fixpoint macro_run (p : pp) (cs : list macro_cmd) : outcome (pp * list (option macro)) :=
  match cs with
  | [] => Ok (p, [])
  | c :: cs => '(p, o) ← macro_do p c; '(p, os) ← macro_run p cs; Ok (p, o ++ os)
  end.
Fixpoint macro_map_run (p : pp) (M : gmap (list Z) macro) (cs : list macro_cmd) :
    outcome (gmap (list Z) macro * list (option macro)) :=
  match cs with
  | [] => Ok (M, [])
  | c :: cs => '(M, o) ← macro_map_do p M c; '(M, os) ← macro_map_run p M cs; Ok (M, o ++ os)
  end.

(** [__LINE__] and [__FILE__] are not defined again. *)
Definition macro_cmd_ok (c : macro_cmd) : Prop :=
  match c with
  | C_define d => macro_ok d ∧ special d = false ∧ Forall token_data_ok (m_replacement d)
  | C_undef name | C_definition name => wf_string name
  end.

Lemma present_input p p' d : pp_input p' = pp_input p → present p' d = present p d.
Proof. intros H. unfold present, get__file__token, line_token. by rewrite H. Qed.

Lemma macro_map_run_input p p' M cs : pp_input p' = pp_input p → macro_map_run p' M cs = macro_map_run p M cs.
Proof.
  intros H. revert M. induction cs as [|c cs IH]; intros M; [done|]. cbn [macro_map_run].
  assert (macro_map_do p' M c = macro_map_do p M c) as ->.
  { destruct c; try done. cbn. do 3 f_equal. destruct (M !! str_raw name); [|done]. cbn. by rewrite (present_input p). }
  destruct (macro_map_do p M c) as [[M1 o]| |]; try done. cbn [mbind outcome_bind]. by rewrite IH.
Qed.

Lemma define_input p d p' : define p d = Ok p' → pp_input p' = pp_input p.
Proof.
  unfold define, insert_macro, macro_table, get_macro. intros H. ok_inv. destruct a as [p1 id]. ok_inv.
  destruct a1 as [tab r]. injection Ha as <- <-. destruct (negb (a2 =? 0)); [done|]. ok_inv. by subst.
Qed.
Lemma undef_input p name p' : undef p name = Ok p' → pp_input p' = pp_input p.
Proof. unfold undef, macro_table. intros H. ok_inv. destruct a0 as [tab r]. ok_inv. by subst. Qed.

Lemma macro_do_spec p M c : macros_ok p M → macro_cmd_ok c →
  match macro_map_do p M c with
  | Ok (M', o) => ∃ p', macro_do p c = Ok (p', o) ∧ macros_ok p' M' ∧ pp_input p' = pp_input p
  | Exit e => macro_do p c = Exit e
  | Undef e => macro_do p c = Undef e
  end.
Proof.
  intros Hp Hc. destruct c as [d|name|name]; cbn [macro_map_do macro_do].
  - destruct Hc as (Hok & Hsp & Hr). pose proof (define_spec p M d Hp Hok Hsp Hr) as H.
    destruct (map_define M d) as [M'| |]; cbn [mbind outcome_bind]; [|by rewrite H..].
    destruct H as (p' & Hd & Hp'). exists p'. split; [by rewrite Hd|]. split; [done|]. by eapply define_input.
  - destruct (undef_spec p M name Hp Hc) as (p' & Hu & Hp'). exists p'.
    split; [by rewrite Hu|]. split; [done|]. by eapply undef_input.
  - destruct (macro_definition_spec p M name Hp Hc) as (p' & -> & Hp' & [h ->]). by eexists.
Qed.

(** C15: the table of macros with its renewed tokens and shared entries is a
    finite map: whatever macros are defined, removed and looked up, the same
    definitions are found, with [__LINE__] and [__FILE__] of the place, and the
    same redefinitions are rejected. *)
Theorem macro_table_refines_map p M cs : macros_ok p M → Forall macro_cmd_ok cs →
  match macro_map_run p M cs with
  | Ok (M', os) => ∃ p', macro_run p cs = Ok (p', os) ∧ macros_ok p' M'
  | Exit e => macro_run p cs = Exit e
  | Undef e => macro_run p cs = Undef e
  end.
Proof.
  intros Hp Hcs. revert p M Hp. induction Hcs as [|c cs Hc _ IH]; intros p M Hp; [by exists p|].
  cbn [macro_map_run macro_run]. pose proof (macro_do_spec p M c Hp Hc) as H.
  destruct (macro_map_do p M c) as [[M1 o]| |]; cbn [mbind outcome_bind]; [|by rewrite H..].
  destruct H as (p1 & -> & Hp1 & Hi). cbn [mbind outcome_bind]. specialize (IH p1 M1 Hp1).
  rewrite (macro_map_run_input _ _ _ _ Hi) in IH.
  destruct (macro_map_run p M1 cs) as [[M2 os]| |]; cbn [mbind outcome_bind]; [|by rewrite IH..].
  destruct IH as (p2 & -> & Hp2). by exists p2.
Qed.

Lemma macro_table_refines_map_witness :
  let d := object_like (cstr "X") [ident (cstr "Y")] in
  let cs := [C_define d; C_define d; C_definition (m_name d); C_undef (m_name d); C_definition (m_name d)] in
  ∃ p, macro_reset pp_start = Ok p ∧ ∃ p', macro_run p cs = Ok (p', [Some d; None]) ∧ macros_ok p' ∅.
Proof.
  intros d cs. destruct (macro_reset_spec pp_start eq_refl) as (p & Hr & Hp & _). exists p. split; [exact Hr|].
  assert (Hd : definable d).
  { assert (H : Forall definable [d]) by (subst d; definable). exact (Forall_inv H). }
  assert (Hw : wf_string (m_name d)) by apply Hd.
  pose proof (macro_table_refines_map p ∅ cs Hp) as H.
  assert (Hrun : macro_map_run p ∅ cs = Ok (∅, [Some d; None])) by (vm_compute; reflexivity).
  rewrite Hrun in H. apply H. repeat (apply Forall_cons_2; [first [exact Hd|exact Hw]|]). apply Forall_nil_2.
Defined.

(** ** Object-like macros *)

(** C7: where all macros are object-like, the expansion of a list of tokens
    ends, with no more expansions inside each other than there are macros, and
    gives what the rules of the standard for rescanning give, and nothing
    else. *)
Theorem object_macros_expand c99 depth p M l : macros_ok p M →
  map_Forall (λ _ d, object_macro d) M → Forall plain_token l → (size M < depth)%nat →
  ∃ p' l' n, expand c99 depth p l = Ok (p', l', n) ∧
    (∀ l'', rescan (view M p) [] l l'' ↔ l'' = l') ∧ macros_ok p' M ∧ same_but_heap p p'.
Proof.
  intros Hp HM Hl Hd. destruct (object_line c99 M HM depth p [] l) as (p' & l' & n & He & Hr & Hp' & Hs); try done.
  { split; [constructor|]. split; constructor. }
  { cbn. lia. }
  exists p', l', n. split; [done|]. split; [|done]. intros l''. split; [|by intros ->].
  intros H. symmetry. by eapply rescan_functional.
Qed.

Definition demo_objects : list macro :=
  [object_like (cstr "X") [ident (cstr "Y"); basic PLUS; ident (cstr "X")];
   object_like (cstr "Y") [ident (cstr "X"); ident (cstr "z")]].

Lemma demo_objects_definable : Forall definable demo_objects.
Proof. unfold demo_objects. definable. Qed.

(** Discharges [Forall plain_token] and [object_macro] of concrete tokens and
    macros. *)
Ltac plain :=
  repeat (apply Forall_cons_2;
    [let H := fresh in
     split; [intros H; first [discriminate H|eexists; split; [reflexivity|wf_name]]|split; reflexivity]|]);
  apply Forall_nil_2.
Ltac objects := split; [reflexivity|split; [reflexivity|plain]].

Lemma object_macros_expand_witness :
  let l := [ident (cstr "X")] in
  ∃ p M, (p ← macro_reset pp_start; define_all p demo_objects) = Ok p ∧
    ∃ p' l' n, expand true 3 p l = Ok (p', l', n) ∧
      (∀ l'', rescan (view M p) [] l l'' ↔ l'' = l') ∧ macros_ok p' M ∧ same_but_heap p p'.
Proof.
  intros l.
  destruct (defined_spec demo_objects _ demo_objects_definable eq_refl) as (p & Hd & Hp).
  eexists p, _. split; [exact Hd|]. apply (object_macros_expand true 3 p _ l Hp).
  - apply map_Forall_insert_2; [objects|]. apply map_Forall_insert_2; [objects|]. apply map_Forall_empty.
  - plain.
  - vm_compute. lia.
Defined.

(** ** The operator # *)

(** C27: the operand of [#], as it reaches the parser, has the characters of its
    tokens, literals with their quotes and escapes, and one blank where there
    was whitespace between them. *)
Theorem stringify_spells `{FloatArith} bits p ts : ts ≠ [] → Forall text_token ts → room ts →
  lexer_ok (pp_lexer p) → Z.of_nat (length (written_tokens ts)) < 2 ^ 16 →
  ∃ p1 t p2 u, stringify p ts = Ok (p1, t) ∧ convert_token bits p1 t = Ok (p2, u) ∧
    tk_token u = STRING ∧ token_raw u = spelled_tokens ts ∧ lexer_ok (pp_lexer p2).
Proof.
  intros Hne Hts Hroom Hok Hlen.
  destruct (stringify_ok p ts Hne Hts Hroom Hok Hlen) as (p1 & ty & s & Hs & Hok1 & Hcase).
  exists p1, (set_string (tok_of ty (leading_whitespace (hd tok_zero ts))) s). destruct Hcase as [[-> Hraw]|[-> ->]].
  - exists p1, (set_string (tok_of STRING (leading_whitespace (hd tok_zero ts))) s). done.
  - destruct (convert_text (pp_lexer p1) (set_string (tok_of PREP_STRING (leading_whitespace (hd tok_zero ts)))
      (intern (written_tokens ts))) _ _ Hok1 (reads_tokens ts Hts) (spelled_bytes ts Hts) Hlen eq_refl)
      as (lx & Hc & Hlx).
    exists (set_lexer p1 lx), (set_string (tok_of STRING 0) (intern (spelled_tokens ts))).
    split; [exact Hs|]. unfold convert_token. cbn [tk_token set_string tok_of]. rewrite Hc.
    split; [done|]. split; [done|]. split; [apply intern_raw|done].
Qed.

Definition demo_operand : list token :=
  [set_string (tok_of PREP_STRING 0) (SHORT_STRING_INIT (cstr "a\n" ++ [92; 34]));
   set_leading_whitespace (basic PLUS) 3; set_string (tok_of PREP_CHAR 0) (SHORT_STRING_INIT [92; 39])].

Lemma stringify_spells_witness :
  spelled_tokens demo_operand = [34] ++ cstr "a\n" ++ [92; 34; 34] ++ cstr " +'\'" ++ [39] ∧
  ∃ p1 t p2 u, stringify pp_start demo_operand = Ok (p1, t) ∧ convert_token 64 p1 t = Ok (p2, u) ∧
    tk_token u = STRING ∧ token_raw u = spelled_tokens demo_operand ∧ lexer_ok (pp_lexer p2).
Proof.
  split; [vm_compute; reflexivity|]. apply (stringify_spells 64 pp_start demo_operand).
  - discriminate.
  - repeat (apply Forall_cons_2; [split; [eexists; split; [reflexivity|wf_name]|repeat (split; [reflexivity|]); 
      first [left; reflexivity|right; vm_compute; intros Hin; repeat (inversion Hin as [|? ? ? Hin']; subst; clear Hin; rename Hin' into Hin)]]|]).
    apply Forall_nil_2.
  - right. vm_compute. lia.
  - apply lexer_start_ok.
  - vm_compute. reflexivity.
Defined.

(** ** Recursion through arguments *)

(** [#define u g(v)], [#define v g(u)] and [#define g(x) x]. *)
Definition calls (g v : list Z) : list token := [ident g; basic OPEN_PAREN; ident v; basic CLOSE_PAREN].
Definition name_u : list Z := cstr "u".
Definition name_v : list Z := cstr "v".
Definition name_g : list Z := cstr "g".
Definition mutual : list macro :=
  [object_like name_u (calls name_g name_v); object_like name_v (calls name_g name_u);
   function_like name_g 1 [param 0]].

(** One step of the expansion of an object-like macro that is not expanded
    yet. *)
Lemma diverges_object c99 line p M scope name d : macros_ok p M → wf_string (SHORT_STRING_INIT name) →
  M !! str_raw (SHORT_STRING_INIT name) = Some d → special d = false → object_macro d →
  is_expanded scope (SHORT_STRING_INIT name) = false →
  (∀ p', macros_ok p' M → line p' (scope ++ [m_name d]) (m_replacement d) = Undef "not enough fuel") →
  expand_loop c99 line 1 p scope [ident name] 0 0 = Undef "not enough fuel".
Proof.
  intros Hp Hw HM Hsp Hobj Hexp Hline. cbn [expand_loop lookup list_lookup]. unfold expand_step.
  change (negb (is_expandable (ident name)) || disable_expand (ident name)) with false. cbv iota.
  change (tok_string (ident name)) with (Ok (SHORT_STRING_INIT name)). cbn [mbind outcome_bind].
  destruct (macro_definition_spec p M _ Hp Hw) as (p1 & -> & Hp1 & _). cbn [mbind outcome_bind].
  rewrite HM. cbn [fmap option_fmap option_map].
  assert (present p d = d) as ->.
  { unfold present, special in *. by destruct (is__file__ d), (is__line__ d). }
  rewrite Hexp. pose proof Hobj as (Hty & Hpar & _). unfold read_args.
  rewrite !(bool_decide_false (m_type d = FUNCTION_LIKE)) by (by rewrite Hty).
  cbn [andb mbind outcome_bind]. unfold expand_macro. rewrite object_replacement by done.
  cbn [mbind outcome_bind]. rewrite Hpar. cbn [Z.ltb Z.compare mbind outcome_bind]. by rewrite Hline.
Qed.

(** The call of the function-like macro, with an argument that is expanded
    first. *)
Lemma diverges_call c99 line k p M scope v : macros_ok p M → (length v < 14)%nat → Forall is_byte v →
  M !! name_g = Some (function_like name_g 1 [param 0]) →
  is_expanded scope (SHORT_STRING_INIT name_g) = false → is_expanded scope (SHORT_STRING_INIT v) = false →
  (∀ p', macros_ok p' M → line p' [] [ident v] = Undef "not enough fuel") →
  expand_loop c99 line (S k) p scope (calls name_g v) 0 0 = Undef "not enough fuel".
Proof.
  intros Hp Hv Hb HM Hg Hexp Hline. cbn [expand_loop lookup list_lookup calls]. unfold expand_step.
  change (negb (is_expandable (ident name_g)) || disable_expand (ident name_g)) with false. cbv iota.
  change (tok_string (ident name_g)) with (Ok (SHORT_STRING_INIT name_g)). cbn [mbind outcome_bind].
  destruct (macro_definition_spec p M (SHORT_STRING_INIT name_g) Hp ltac:(wf_name)) as (p1 & -> & Hp1 & _).
  cbn [mbind outcome_bind]. change (str_raw (SHORT_STRING_INIT name_g)) with name_g. rewrite HM, Hg.
  cbn [fmap option_fmap option_map]. change (present p ?d) with d.
  change (bool_decide _ && _) with false. cbv iota.
  change (drop 1 (calls name_g v)) with [basic OPEN_PAREN; ident v; basic CLOSE_PAREN].
  assert (read_args scope (function_like name_g 1 [param 0]) [basic OPEN_PAREN; ident v; basic CLOSE_PAREN] =
    Ok ([[ident v]], [])) as ->.
  { cbv -[is_expanded SHORT_STRING_INIT]. rewrite Hexp. reflexivity. }
  cbn [mbind outcome_bind]. unfold expand_macro.
  change (expand_stringify_and_paste c99 p1 (function_like name_g 1 [param 0]) [[ident v]])
    with (Ok (p1, [param 0]) : outcome (pp * list token)).
  cbn [mbind outcome_bind expand_args m_params function_like Z.ltb Z.compare].
  rewrite bool_decide_true by done. cbn [c_assert mbind outcome_bind]. by rewrite (Hline p1 Hp1).
Qed.

(** C40: the macros [u], [v] and [g] are expanded without end, however deep
    expansions may go: an argument is expanded without regard to the macros it
    is written in, so that each call hides the name from its own rescanning. *)
Theorem argument_recursion_diverges c99 p M depth : macros_ok p M →
  M !! name_u = Some (object_like name_u (calls name_g name_v)) →
  M !! name_v = Some (object_like name_v (calls name_g name_u)) →
  M !! name_g = Some (function_like name_g 1 [param 0]) →
  expand c99 depth p [ident name_u] = Undef "not enough fuel".
Proof.
  intros Hp Hu Hv Hg. unfold expand.
  assert (H : ∀ depth p, macros_ok p M →
    expand_line c99 depth p [] [ident name_u] = Undef "not enough fuel" ∧
    expand_line c99 depth p [] [ident name_v] = Undef "not enough fuel"); [|by apply H].
  clear depth p Hp. intros depth. induction depth as [depth IH] using lt_wf_ind. intros p Hp.
  destruct depth as [|depth]; [done|].
  assert (Hcall : ∀ s v p', macros_ok p' M → s = SHORT_STRING_INIT name_u ∧ v = name_v ∨ s = SHORT_STRING_INIT name_v ∧ v = name_u →
    expand_line c99 depth p' ([] ++ [s]) (calls name_g v) = Undef "not enough fuel").
  { intros s v p' Hp' Hsv. destruct depth as [|d]; [done|].
    change (expand_line c99 (S d) p' ([] ++ [s]) (calls name_g v))
      with (expand_loop c99 (expand_line c99 d) 4 p' [s] (calls name_g v) 0 0).
    apply (diverges_call c99 _ _ p' M); try done.
    - destruct Hsv as [[_ ->]|[_ ->]]; vm_compute; lia.
    - destruct Hsv as [[_ ->]|[_ ->]]; repeat constructor; done.
    - by destruct Hsv as [[-> _]|[-> _]].
    - by destruct Hsv as [[-> ->]|[-> ->]].
    - intros p2 Hp2. destruct (IH d ltac:(lia) p2 Hp2) as [IHu IHv]. by destruct Hsv as [[_ ->]|[_ ->]]. }
  split; cbn [expand_line length]; eapply diverges_object; try done; try wf_name; try (split; [done|]; split; [done|plain]).
  - intros p' Hp'. apply Hcall; [done|]. by left.
  - intros p' Hp'. apply Hcall; [done|]. by right.
Qed.

Lemma mutual_definable : Forall definable mutual.
Proof. unfold mutual. definable. Qed.

Lemma argument_recursion_diverges_witness :
  ∃ p, (p ← macro_reset pp_start; define_all p mutual) = Ok p ∧
    expand true 1000 p [ident name_u] = Undef "not enough fuel".
Proof.
  destruct (defined_spec mutual _ mutual_definable eq_refl) as (p & Hd & Hp). exists p. split; [exact Hd|].
  apply (argument_recursion_diverges true p _ 1000 Hp); reflexivity.
Defined.
