(* ===== verification/PpQueue.v ===== *)
(** * What the operations of the preprocessor leave alone

    The macro processor and the reading of lines neither open groups nor touch
    the queue of tokens.  [keeps p m] says so of a computation [m] that starts
    in [p], whatever else it returns with the state. *)

From stdpp Require Import base list gmap numbers strings.
From Stdlib Require Import ZArith Lia FunctionalExtensionality.
From Stdlib Require Import ZArith Lia.
From S2P Require Import Prelude CType Floats Strings Hash Strtab Typetree Token Lexer Input Macro Immediate Directive Preproc.

Local Open Scope Z_scope.

(** ** The relation *)

Record frame (p q : pp) : Prop := Frame {
  frame_branches : branch_stack q = branch_stack p;
  frame_lookahead : lookahead q = lookahead p;
  frame_output : output_preprocessed q = output_preprocessed p
}.
#[export] Instance frame_preorder : PreOrder frame.
Proof. split; [by split|]. intros p q r [A B C] [D E F]. split; congruence. Qed.

(** Results that have a state first. *)
Class HasPP (A : Type) := pp_of : A → pp.
#[export] Instance has_pp : HasPP pp := id.
#[export] Instance has_pp_pair A B `{PA : HasPP A} : HasPP (A * B) := λ x, pp_of x.1.

(** [m] keeps what the preorder [R] relates. *)
Definition keeps_by `{PA : HasPP A} (R : relation pp) (p : pp) (m : outcome A) : Prop :=
  ∀ a, m = Ok a → R p (pp_of a).
Abbreviation keeps := (keeps_by frame).

Section keeps.
Context (R : relation pp) `{!PreOrder R}.

Lemma keeps_by_ok `{PA : HasPP A} p (a : A) : R p (pp_of a) → keeps_by R p (Ok a).
Proof. by intros H b [= <-]. Qed.
Lemma keeps_by_exit `{PA : HasPP A} p e : keeps_by R p (Exit e : outcome A).
Proof. done. Qed.
Lemma keeps_by_undef `{PA : HasPP A} p e : keeps_by R p (Undef e : outcome A).
Proof. done. Qed.
Lemma keeps_by_bind `{PA : HasPP A, PB : HasPP B} p q (m : outcome A) (f : A → outcome B) :
  R p q → keeps_by R q m → (∀ a, R p (pp_of a) → keeps_by R p (f a)) → keeps_by R p (m ≫= f).
Proof. intros Hq Hm Hf b (a & Ha & Hb)%bind_ok_inv. apply (Hf a); [|done]. transitivity q; [done|by apply Hm]. Qed.
Lemma keeps_by_pure {A} `{PB : HasPP B} p (m : outcome A) (f : A → outcome B) :
  (∀ a, keeps_by R p (f a)) → keeps_by R p (m ≫= f).
Proof. intros Hf b (a & Ha & Hb)%bind_ok_inv. by apply (Hf a). Qed.
Lemma keeps_by_from `{PA : HasPP A} p q (m : outcome A) : R p q → keeps_by R q m → keeps_by R p m.
Proof. intros Hq Hm a Ha. transitivity q; [done|by apply Hm]. Qed.
End keeps.

Lemma frame_set_lexer p q lx : frame p q → frame p (set_lexer q lx).
Proof. by intros [A B C]. Qed.
Lemma frame_set_input p q i : frame p q → frame p (set_input q i).
Proof. by intros [A B C]. Qed.
Lemma frame_set_macros p q m : frame p q → frame p (set_macros q m).
Proof. by intros [A B C]. Qed.
Lemma frame_set_heap p q h : frame p q → frame p (set_heap q h).
Proof. by intros [A B C]. Qed.
Lemma frame_set_line p q l : frame p q → frame p (set_line q l).
Proof. by intros [A B C]. Qed.
Lemma frame_set_dstr p q l : frame p q → frame p (set_dstr q l).
Proof. by intros [A B C]. Qed.
Lemma frame_add_pragma_call p q c : frame p q → frame p (add_pragma_call q c).
Proof. by intros [A B C]. Qed.
Lemma frame_refl p : frame p p.
Proof. reflexivity. Qed.

Create HintDb frame.
#[export] Hint Resolve frame_refl frame_set_lexer frame_set_input frame_set_macros frame_set_heap frame_set_line
  frame_set_dstr frame_add_pragma_call : frame.

(** Follows a computation: binds whose result has a state by what is known of
    it, all other steps by cases. *)
Ltac frame_step :=
  match goal with
  | |- keeps_by _ _ (let '(_, _) := ?x in _) => destruct x; cbn [pp_of has_pp_pair has_pp fst snd id] in *
  | |- keeps_by _ _ (match ?x with _ => _ end) => destruct x
  | |- keeps_by _ _ (Ok _) => apply keeps_by_ok; cbn [pp_of has_pp_pair has_pp fst snd id]; solve [eauto with frame]
  | |- keeps_by _ _ (Exit _) => apply keeps_by_exit
  | |- keeps_by _ _ (Undef _) => apply keeps_by_undef
  | |- keeps_by _ _ (@mbind _ _ ?A _ _ _) =>
      let i := constr:(_ : HasPP A) in
      eapply (keeps_by_bind _ (PA := i)); [| solve [eauto with frame] | intros ? ?]; [solve [eauto with frame]|]
  | |- keeps_by _ _ (@mbind _ _ ?A _ _ _) =>
      let i := constr:(_ : HasPP A) in
      eapply (keeps_by_bind _ (PA := i)); [reflexivity| |intros ? ?]
  | |- keeps_by _ _ (mbind _ _) => apply keeps_by_pure; intros ?
  | |- keeps_by _ _ _ => eapply (keeps_by_from _); [| solve [eauto with frame]]; solve [eauto with frame]
  end.
Ltac frame := cbv zeta; repeat (frame_step; cbv beta zeta).

(** ** Macros *)

Lemma pp_register_keeps p s n : keeps p (pp_register p s n).
Proof. unfold pp_register. frame. Qed.
#[export] Hint Resolve pp_register_keeps : frame.

Lemma get__line__token_keeps p : keeps p (get__line__token p).
Proof. unfold get__line__token. frame. Qed.
#[export] Hint Resolve get__line__token_keeps : frame.

Lemma set_first_keeps p id d t : keeps p (set_first p id d t).
Proof. unfold set_first. frame. Qed.
#[export] Hint Resolve set_first_keeps : frame.

Lemma macro_definition_keeps p name : keeps p (macro_definition p name).
Proof. unfold macro_definition. frame. Qed.
#[export] Hint Resolve macro_definition_keeps : frame.

Lemma insert_macro_keeps p d : keeps p (insert_macro p d).
Proof. unfold insert_macro. frame. Qed.
#[export] Hint Resolve insert_macro_keeps : frame.

Lemma define_keeps p d : keeps p (define p d).
Proof. unfold define. frame. Qed.
Lemma undef_keeps p name : keeps p (undef p name).
Proof. unfold undef. frame. Qed.
Lemma paste_keeps c99 p l r : keeps p (paste c99 p l r).
Proof. unfold paste. frame. Qed.
Lemma stringify_keeps p l : keeps p (stringify p l).
Proof. unfold stringify. frame. Qed.
#[export] Hint Resolve define_keeps undef_keeps paste_keeps stringify_keeps : frame.

Lemma paste_step_keeps c99 p def args l s : keeps p (paste_step c99 p def args l s).
Proof. unfold paste_step. frame. Qed.
#[export] Hint Resolve paste_step_keeps : frame.

Lemma stringify_and_paste_keeps c99 n p def args l rest : keeps p (stringify_and_paste c99 n p def args l rest).
Proof.
  revert p l rest. induction n as [|n IH]; intros p l [|t rest]; cbn [stringify_and_paste]; frame.
Qed.
#[export] Hint Resolve stringify_and_paste_keeps : frame.

Lemma expand_stringify_and_paste_keeps c99 p def args : keeps p (expand_stringify_and_paste c99 p def args).
Proof. unfold expand_stringify_and_paste. frame. Qed.
#[export] Hint Resolve expand_stringify_and_paste_keeps : frame.

Section expand_line.
Context (c99 : bool) (line : pp → list kstring → list token → outcome (pp * list token * Z)).
Context (line_keeps : ∀ p scope l, keeps p (line p scope l)).
#[local] Hint Resolve line_keeps : frame.

Lemma expand_args_keeps p args :
  keeps p (expand_args (λ p a, '(p, a, _) ← line p [] a; Ok (p, a)) p args).
Proof.
  revert p. induction args as [|a args IH]; intros p; cbn [expand_args]; frame.
Qed.
#[local] Hint Resolve expand_args_keeps : frame.

Lemma expand_macro_keeps p scope def args : keeps p (expand_macro c99 line p scope def args).
Proof. unfold expand_macro. frame. Qed.
#[local] Hint Resolve expand_macro_keeps : frame.

Lemma expand_step_keeps p scope l i t : keeps p (expand_step c99 line p scope l i t).
Proof. unfold expand_step. frame. Qed.
#[local] Hint Resolve expand_step_keeps : frame.

Lemma expand_loop_keeps k p scope l i n : keeps p (expand_loop c99 line k p scope l i n).
Proof. revert p l i n. induction k as [|k IH]; intros p l i n; cbn [expand_loop]; frame. Qed.
End expand_line.

Lemma expand_line_keeps c99 depth p scope l : keeps p (expand_line c99 depth p scope l).
Proof.
  revert p scope l. induction depth as [|depth IH]; intros p scope l; cbn [expand_line]; [frame|].
  by apply expand_loop_keeps.
Qed.
Lemma expand_keeps c99 depth p l : keeps p (expand c99 depth p l).
Proof. unfold expand. apply expand_line_keeps. Qed.
#[export] Hint Resolve expand_keeps : frame.

(** ** Directives that are no conditionals *)

Section directives.
Context `{FA : FloatArith} (bits : Z) (c99 : bool) (depth fuel : nat) (fopen : list Z → option (list Z)).

Lemma cat_tokens_keeps p path l : keeps p (cat_tokens p path l).
Proof. revert p path. induction l as [|t l IH]; intros p path; cbn [cat_tokens]; frame. Qed.
#[local] Hint Resolve cat_tokens_keeps : frame.
Lemma pp_include_keeps p system name : keeps p (pp_include fopen p system name).
Proof. unfold pp_include. frame. Qed.
#[local] Hint Resolve pp_include_keeps : frame.

Lemma include_form_keeps p line q : include_form fopen p line = Ok (Some q) → frame p q.
Proof.
  assert (∀ r, include_form fopen p line = Ok r → match r with Some q => frame p q | None => True end) as H.
  { intros r H. unfold include_form in H. ok_inv. destruct (is_tok PREP_STRING a).
    - destruct (2 <? length line)%nat; ok_inv. subst r. by apply (pp_include_keeps _ _ _ _ Ha1).
    - ok_inv. destruct a0; ok_inv; [|by subst r]. destruct a0 as [p1 path]. ok_inv. subst r.
      transitivity p1; [by apply (cat_tokens_keeps _ _ _ _ Ha1)|by apply (pp_include_keeps _ _ _ _ Ha2)]. }
  intros E. exact (H _ E).
Qed.

Lemma preprocess_include_keeps p line : keeps p (preprocess_include c99 depth fopen p line).
Proof.
  intros q H. unfold preprocess_include in H. ok_inv. destruct a3 as [p1|]; ok_inv.
  - subst. by eapply include_form_keeps.
  - destruct a3 as [[p1 l] n]. ok_inv. destruct a3 as [p2|]; ok_inv. subst.
    transitivity p1; [by apply (expand_keeps _ _ _ _ _ Ha4)|by eapply include_form_keeps].
Qed.
#[local] Hint Resolve preprocess_include_keeps : frame.

Lemma preprocess_line_directive_keeps p line : keeps p (preprocess_line_directive bits p line).
Proof. unfold preprocess_line_directive. frame. Qed.
#[local] Hint Resolve preprocess_line_directive_keeps : frame.

Lemma preprocess_active_keeps p line : keeps p (preprocess_active bits c99 depth fopen p line).
Proof. unfold preprocess_active. frame. Qed.
End directives.
#[export] Hint Resolve preprocess_active_keeps : frame.

(** ** Independence of the stack of groups

    The same operations do not read the stack either: with another stack they
    do the same.  [shifts b m m'] says that [m'] is [m] with the stack [b]. *)

Class Branches (A : Type) := with_branches : list state → A → A.
#[export] Instance branches_pp : Branches pp := λ b p, set_branches p b.
#[export] Instance branches_pair A B `{BA : Branches A} : Branches (A * B) := λ b x, (with_branches b x.1, x.2).
#[export] Instance branches_option A `{BA : Branches A} : Branches (option A) := λ b x,
  match x with Some a => Some (with_branches b a) | None => None end.

Definition put_branches `{BA : Branches A} (b : list state) (m : outcome A) : outcome A :=
  a ← m; Ok (with_branches b a).
Definition shifts `{BA : Branches A} (b : list state) (m m' : outcome A) : Prop := m' = put_branches b m.

Lemma shifts_ok `{BA : Branches A} b (a a' : A) : a' = with_branches b a → shifts b (Ok a) (Ok a').
Proof. by intros ->. Qed.
Lemma shifts_exit `{BA : Branches A} b e : shifts b (Exit e : outcome A) (Exit e).
Proof. done. Qed.
Lemma shifts_undef `{BA : Branches A} b e : shifts b (Undef e : outcome A) (Undef e).
Proof. done. Qed.
Lemma shifts_bind `{BA : Branches A, BB : Branches B} b (m m' : outcome A) (f f' : A → outcome B) :
  shifts b m m' → (∀ a, shifts b (f a) (f' (with_branches b a))) → shifts b (m ≫= f) (m' ≫= f').
Proof. intros -> Hf. destruct m as [a| |]; [apply Hf|done|done]. Qed.
Lemma shifts_bind_pure {A} `{BB : Branches B} b (m : outcome A) (f f' : A → outcome B) :
  (∀ a, shifts b (f a) (f' a)) → shifts b (m ≫= f) (m ≫= f').
Proof. intros Hf. destruct m as [a| |]; [apply Hf|done|done]. Qed.

Lemma bind_ext {A B} (m : outcome A) (f f' : A → outcome B) : (∀ a, f a = f' a) → m ≫= f = m ≫= f'.
Proof. intros Hf. destruct m as [a| |]; [apply Hf|done|done]. Qed.

(** Reading and writing the other parts of the state. *)
Create Rewrite HintDb branches.
Lemma pp_lexer_shift p b : pp_lexer (set_branches p b) = pp_lexer p.
Proof. done. Qed.
Lemma pp_input_shift p b : pp_input (set_branches p b) = pp_input p.
Proof. done. Qed.
Lemma pp_macros_shift p b : pp_macros (set_branches p b) = pp_macros p.
Proof. done. Qed.
Lemma set_lexer_shift p b lx : set_lexer (set_branches p b) lx = set_branches (set_lexer p lx) b.
Proof. done. Qed.
Lemma set_input_shift p b i : set_input (set_branches p b) i = set_branches (set_input p i) b.
Proof. done. Qed.
Lemma set_macros_shift p b m : set_macros (set_branches p b) m = set_branches (set_macros p m) b.
Proof. done. Qed.
Lemma set_heap_shift p b h : set_heap (set_branches p b) h = set_branches (set_heap p h) b.
Proof. done. Qed.
Lemma macro_table_shift p b : macro_table (set_branches p b) = macro_table p.
Proof. done. Qed.
Lemma get_macro_shift p b id : get_macro (set_branches p b) id = get_macro p id.
Proof. done. Qed.
Lemma get__file__token_shift p b : get__file__token (set_branches p b) = get__file__token p.
Proof. done. Qed.
#[export] Hint Rewrite pp_lexer_shift pp_input_shift pp_macros_shift set_lexer_shift set_input_shift set_macros_shift
  set_heap_shift macro_table_shift get_macro_shift get__file__token_shift : branches.

Create HintDb shift.
Ltac shift_step :=
  autorewrite with branches;
  match goal with
  | |- shifts _ (let '(_, _) := ?x in _) _ => destruct x; cbn [with_branches branches_pair branches_pp fst snd]
  | |- shifts _ (match ?x with _ => _ end) _ => destruct x; cbn [with_branches branches_pair branches_pp branches_option fst snd]
  | |- shifts _ (Ok _) (Ok _) => apply shifts_ok; autorewrite with branches; reflexivity
  | |- shifts _ (Exit _) (Exit _) => apply shifts_exit
  | |- shifts _ (Undef _) (Undef _) => apply shifts_undef
  | |- shifts _ _ _ => solve [eauto with shift]
  | |- shifts _ (@mbind _ _ ?A _ _ _) _ =>
      let i := constr:(_ : Branches A) in
      eapply (shifts_bind (BA := i)); [|intros ?; cbn [with_branches branches_pair branches_pp fst snd]]
  | |- shifts _ (mbind _ _) _ => apply shifts_bind_pure; intros ?
  end.
Ltac shift := cbv zeta; repeat (shift_step; cbv beta zeta).

Section shifted.
Context (b : list state).
Notation "p ⇡" := (set_branches p b) (at level 1, format "p ⇡").

Lemma pp_register_shift p s n : shifts b (pp_register p s n) (pp_register p⇡ s n).
Proof. unfold pp_register. shift. Qed.
#[local] Hint Resolve pp_register_shift : shift.
Lemma get__line__token_shift p : shifts b (get__line__token p) (get__line__token p⇡).
Proof. unfold get__line__token. shift. Qed.
Lemma set_first_shift p id d t : shifts b (set_first p id d t) (set_first p⇡ id d t).
Proof. unfold set_first. shift. Qed.
#[local] Hint Resolve get__line__token_shift set_first_shift : shift.
Lemma macro_definition_shift p name : shifts b (macro_definition p name) (macro_definition p⇡ name).
Proof. unfold macro_definition. shift. Qed.
Lemma insert_macro_shift p d : shifts b (insert_macro p d) (insert_macro p⇡ d).
Proof. unfold insert_macro. shift. Qed.
#[local] Hint Resolve macro_definition_shift insert_macro_shift : shift.
Lemma define_shift p d : shifts b (define p d) (define p⇡ d).
Proof. unfold define. shift. Qed.
Lemma undef_shift p name : shifts b (undef p name) (undef p⇡ name).
Proof. unfold undef. shift. Qed.
Lemma paste_shift c99 p l r : shifts b (paste c99 p l r) (paste c99 p⇡ l r).
Proof. unfold paste. shift. Qed.
Lemma stringify_shift p l : shifts b (stringify p l) (stringify p⇡ l).
Proof. unfold stringify. shift. Qed.
#[local] Hint Resolve define_shift undef_shift paste_shift stringify_shift : shift.
Lemma paste_step_shift c99 p def args l s : shifts b (paste_step c99 p def args l s) (paste_step c99 p⇡ def args l s).
Proof. unfold paste_step. shift. Qed.
#[local] Hint Resolve paste_step_shift : shift.

Lemma stringify_and_paste_shift c99 n p def args l rest :
  shifts b (stringify_and_paste c99 n p def args l rest) (stringify_and_paste c99 n p⇡ def args l rest).
Proof. revert p l rest. induction n as [|n IH]; intros p l [|t rest]; cbn [stringify_and_paste]; shift. Qed.
#[local] Hint Resolve stringify_and_paste_shift : shift.
Lemma expand_stringify_and_paste_shift c99 p def args :
  shifts b (expand_stringify_and_paste c99 p def args) (expand_stringify_and_paste c99 p⇡ def args).
Proof. unfold expand_stringify_and_paste. shift. Qed.
#[local] Hint Resolve expand_stringify_and_paste_shift : shift.

Section expand_line.
Context (c99 : bool) (line : pp → list kstring → list token → outcome (pp * list token * Z)).
Context (line_shift : ∀ p scope l, shifts b (line p scope l) (line p⇡ scope l)).
#[local] Hint Resolve line_shift : shift.

Lemma expand_args_shift p args :
  let expand := λ p a, '(p, a, _) ← line p [] a; Ok (p, a) in
  shifts b (expand_args expand p args) (expand_args expand p⇡ args).
Proof. cbv zeta. revert p. induction args as [|a args IH]; intros p; cbn [expand_args]; shift. Qed.
#[local] Hint Resolve expand_args_shift : shift.
Lemma expand_macro_shift p scope def args :
  shifts b (expand_macro c99 line p scope def args) (expand_macro c99 line p⇡ scope def args).
Proof. unfold expand_macro. shift. Qed.
#[local] Hint Resolve expand_macro_shift : shift.
Lemma expand_step_shift p scope l i t : shifts b (expand_step c99 line p scope l i t) (expand_step c99 line p⇡ scope l i t).
Proof. unfold expand_step. shift. Qed.
#[local] Hint Resolve expand_step_shift : shift.
Lemma expand_loop_shift k p scope l i n :
  shifts b (expand_loop c99 line k p scope l i n) (expand_loop c99 line k p⇡ scope l i n).
Proof. revert p l i n. induction k as [|k IH]; intros p l i n; cbn [expand_loop]; shift. Qed.
End expand_line.

Lemma expand_line_shift c99 depth p scope l : shifts b (expand_line c99 depth p scope l) (expand_line c99 depth p⇡ scope l).
Proof.
  revert p scope l. induction depth as [|depth IH]; intros p scope l; cbn [expand_line]; [shift|].
  by apply expand_loop_shift.
Qed.
Lemma expand_shift c99 depth p l : shifts b (expand c99 depth p l) (expand c99 depth p⇡ l).
Proof. unfold expand. apply expand_line_shift. Qed.
#[local] Hint Resolve expand_shift : shift.

Section directives.
Context `{FA : FloatArith} (bits : Z) (c99 : bool) (depth : nat) (fopen : list Z → option (list Z)).

Lemma cat_tokens_shift p path l : shifts b (cat_tokens p path l) (cat_tokens p⇡ path l).
Proof. revert p path. induction l as [|t l IH]; intros p path; cbn [cat_tokens]; shift. Qed.
#[local] Hint Resolve cat_tokens_shift : shift.
Lemma pp_include_shift p system name : shifts b (pp_include fopen p system name) (pp_include fopen p⇡ system name).
Proof. unfold pp_include. shift. Qed.
#[local] Hint Resolve pp_include_shift : shift.
Lemma preprocess_line_directive_shift p line :
  shifts b (preprocess_line_directive bits p line) (preprocess_line_directive bits p⇡ line).
Proof. unfold preprocess_line_directive. shift. Qed.
#[local] Hint Resolve preprocess_line_directive_shift : shift.
Lemma include_form_shift p line : shifts b (include_form fopen p line) (include_form fopen p⇡ line).
Proof. unfold include_form. shift. Qed.
#[local] Hint Resolve include_form_shift : shift.
Lemma preprocess_include_shift p line :
  shifts b (preprocess_include c99 depth fopen p line) (preprocess_include c99 depth fopen p⇡ line).
Proof. unfold preprocess_include. shift. Qed.
#[local] Hint Resolve preprocess_include_shift : shift.
Lemma preprocess_active_shift p line :
  shifts b (preprocess_active bits c99 depth fopen p line) (preprocess_active bits c99 depth fopen p⇡ line).
Proof. unfold preprocess_active. shift. Qed.

(** Expressions use the state for the names that are left only. *)
Lemma preprocess_primary_shift p E : preprocess_primary bits p⇡ E = preprocess_primary bits p E.
Proof.
  apply functional_extensionality. intros l. unfold preprocess_primary.
  destruct (head l) as [t| |]; try done. cbn [mbind outcome_bind]. f_equal.
  destruct (tk_token t); try done; destruct (negb _ && _); try done; destruct (tok_string t) as [s| |]; try done;
    cbn [mbind outcome_bind]; rewrite (macro_definition_shift p s); by destruct (macro_definition p s) as [[q d]| |].
Qed.
Lemma preprocess_unary_shift p E n l : preprocess_unary bits p⇡ E n l = preprocess_unary bits p E n l.
Proof.
  revert l. induction n as [|n IH]; intros l; [done|]. cbn [preprocess_unary]. by rewrite IH, preprocess_primary_shift.
Qed.
Lemma preprocess_logical_or_shift p E : preprocess_logical_or bits p⇡ E = preprocess_logical_or bits p E.
Proof.
  assert (preprocess_multiplicative bits p⇡ E = preprocess_multiplicative bits p E) as H.
  { unfold preprocess_multiplicative. assert ((λ l, preprocess_unary bits p⇡ E (S (length l)) l) =
      λ l, preprocess_unary bits p E (S (length l)) l) as ->; [|reflexivity].
    apply functional_extensionality. intros l. apply preprocess_unary_shift. }
  unfold preprocess_logical_or, preprocess_logical_and, preprocess_inclusive_or, preprocess_exclusive_or,
    preprocess_and, preprocess_equality, preprocess_relational, preprocess_shift, preprocess_additive. by rewrite H.
Qed.
Lemma preprocess_conditional_shift p E n l : preprocess_conditional bits p⇡ E n l = preprocess_conditional bits p E n l.
Proof.
  revert l. induction n as [|n IH]; intros l; [done|]. cbn [preprocess_conditional].
  rewrite preprocess_logical_or_shift. apply bind_ext; intros [a r]. apply bind_ext; intros t.
  destruct (is_tok QUESTION t); [|done]. apply bind_ext; intros [a' r']. apply bind_ext; intros _. by rewrite IH.
Qed.
Lemma expression_loop_shift p E n l : expression_loop bits p⇡ E n l = expression_loop bits p E n l.
Proof.
  revert l. induction n as [|n IH]; intros l; [done|]. cbn [expression_loop]. rewrite preprocess_conditional_shift.
  apply bind_ext; intros [a r]. apply bind_ext; intros t. by rewrite IH.
Qed.
Lemma preprocess_expression_shift n p : preprocess_expression bits n p⇡ = preprocess_expression bits n p.
Proof.
  induction n as [|n IH]; [done|]. cbn [preprocess_expression]. rewrite IH.
  apply functional_extensionality. intros l. apply expression_loop_shift.
Qed.
Lemma preprocess_constant_expression_shift p l :
  preprocess_constant_expression bits p⇡ l = preprocess_constant_expression bits p l.
Proof. unfold preprocess_constant_expression. by rewrite preprocess_expression_shift, preprocess_conditional_shift. Qed.
End directives.
End shifted.
#[export] Hint Resolve macro_definition_shift expand_shift preprocess_active_shift : shift.

(** * The queue of tokens

    What the parser is given: the tokens on the queue are converted, and
    adjacent string literals are one.  All that reads and expands lines leaves the
    queue alone. *)

(** ** Operations that leave the queue alone *)

Record same_queue (p q : pp) : Prop := SameQueue {
  same_lookahead : lookahead q = lookahead p;
  same_output : output_preprocessed q = output_preprocessed p
}.
#[export] Instance same_queue_preorder : PreOrder same_queue.
Proof. split; [by split|]. intros p q r [A B] [C D]. split; congruence. Qed.

Lemma frame_same_queue p q : frame p q → same_queue p q.
Proof. by intros [A B C]. Qed.
Lemma same_queue_set_branches p q b : same_queue p q → same_queue p (set_branches q b).
Proof. by intros [A B]. Qed.
Lemma same_queue_set_line p q l : same_queue p q → same_queue p (set_line q l).
Proof. by intros [A B]. Qed.
Lemma same_queue_push p q c : same_queue p q → same_queue p (push_state q c).
Proof. by intros [A B]. Qed.
Lemma keeps_queue `{PA : HasPP A} p (m : outcome A) : keeps p m → keeps_by same_queue p m.
Proof. intros H a Ha. by apply frame_same_queue, H. Qed.
#[export] Hint Resolve same_queue_set_branches same_queue_set_line same_queue_push : frame.
#[export] Hint Resolve frame_same_queue keeps_queue | 10 : frame.
#[export] Hint Extern 1 (same_queue ?p ?p) => reflexivity : frame.

Lemma pop_state_keeps p : keeps_by same_queue p (pop_state p).
Proof. unfold pop_state. frame. Qed.
#[export] Hint Resolve pop_state_keeps : frame.

Section directives.
Context `{FA : FloatArith} (bits : Z) (c99 : bool) (depth fuel : nat) (fopen : list Z → option (list Z)).

Lemma preprocess_if_keeps p l : keeps_by same_queue p (preprocess_if bits p l).
Proof. unfold preprocess_if. frame. Qed.
Lemma preprocess_else_keeps p : keeps_by same_queue p (preprocess_else p).
Proof. unfold preprocess_else. frame. Qed.
Lemma preprocess_elif_keeps p l : keeps_by same_queue p (preprocess_elif bits p l).
Proof. unfold preprocess_elif. frame. Qed.
Lemma preprocess_ifdef_keeps p l d : keeps_by same_queue p (preprocess_ifdef p l d).
Proof. unfold preprocess_ifdef. frame. Qed.
#[local] Hint Resolve preprocess_if_keeps preprocess_else_keeps preprocess_elif_keeps preprocess_ifdef_keeps : frame.
Lemma preprocess_directive_keeps p l : keeps_by same_queue p (preprocess_directive bits c99 depth fopen p l).
Proof. unfold preprocess_directive. frame. Qed.
End directives.
#[export] Hint Resolve preprocess_directive_keeps : frame.

(** ** Reading lines *)

Section reading.
Context `{FA : FloatArith} (bits : Z) (c99 : bool) (depth fuel : nat) (fopen : list Z → option (list Z)).

Lemma pp_tokenize_keeps p l : keeps p (pp_tokenize c99 p l).
Proof. unfold pp_tokenize. frame. Qed.
#[local] Hint Resolve pp_tokenize_keeps : frame.
Lemma get_token_of_line_keeps p l : keeps p (get_token_of_line c99 p l).
Proof. unfold get_token_of_line. frame. Qed.
#[local] Hint Resolve get_token_of_line_keeps : frame.
Lemma get_token_keeps p : keeps p (get_token c99 fuel p).
Proof. unfold get_token. frame. Qed.
#[local] Hint Resolve get_token_keeps : frame.
Lemma get_past_newlines_keeps n p : keeps p (get_past_newlines c99 fuel n p).
Proof. revert p. induction n as [|n IH]; intros p; cbn [get_past_newlines]; frame. Qed.
#[local] Hint Resolve get_past_newlines_keeps : frame.
Lemma read_through_newline_keeps p l : keeps p (read_through_newline c99 fuel p l).
Proof. unfold read_through_newline. frame. Qed.
#[local] Hint Resolve read_through_newline_keeps : frame.
Lemma read_Pragma_invocation_keeps p l : keeps p (read_Pragma_invocation c99 fuel p l).
Proof. unfold read_Pragma_invocation. frame. Qed.
Lemma read_invocation_keeps n p l k : keeps p (read_invocation c99 fuel n p l k).
Proof. revert p l k. induction n as [|n IH]; intros p l k; cbn [read_invocation]; frame. Qed.
#[local] Hint Resolve read_Pragma_invocation_keeps read_invocation_keeps : frame.
Lemma read_macro_invocation_keeps p l d : keeps p (read_macro_invocation c99 fuel p l d).
Proof. unfold read_macro_invocation. frame. Qed.
Lemma read_defined_operator_keeps p l : keeps p (read_defined_operator c99 fuel p l).
Proof. unfold read_defined_operator. frame. Qed.
#[local] Hint Resolve read_macro_invocation_keeps read_defined_operator_keeps : frame.
Lemma read_line_token_keeps p l t d e : keeps p (read_line_token c99 fuel p l t d e).
Proof. unfold read_line_token. frame. Qed.
#[local] Hint Resolve read_line_token_keeps : frame.
Lemma complete_line_loop_keeps n p l t d e m : keeps p (complete_line_loop c99 fuel n p l t d e m).
Proof. revert p l t m. induction n as [|n IH]; intros p l t m; cbn [complete_line_loop]; frame. Qed.
#[local] Hint Resolve complete_line_loop_keeps : frame.
Lemma read_complete_line_keeps p l t d : keeps p (read_complete_line c99 fuel p l t d).
Proof. unfold read_complete_line. frame. Qed.
#[local] Hint Resolve read_complete_line_keeps : frame.
Lemma skip_or_get_token_keeps p l i : keeps p (skip_or_get_token c99 fuel p l i).
Proof. unfold skip_or_get_token. frame. Qed.
#[local] Hint Resolve skip_or_get_token_keeps : frame.
Lemma skip_nested_keeps n p l i k : keeps p (skip_nested c99 fuel n p l i k).
Proof. revert p l i k. induction n as [|n IH]; intros p l i k; cbn [skip_nested]; frame. Qed.
#[local] Hint Resolve skip_nested_keeps : frame.
Lemma skip_or_read_expansion_keeps p l i : keeps p (skip_or_read_expansion c99 fuel p l i).
Proof. unfold skip_or_read_expansion. frame. Qed.
#[local] Hint Resolve skip_or_read_expansion_keeps : frame.
Lemma refill_loop_keeps k p l len i t n : keeps p (refill_loop c99 fuel k p l len i t n).
Proof. revert p l i t n. induction k as [|k IH]; intros p l i t n; cbn [refill_loop]; frame. Qed.
#[local] Hint Resolve refill_loop_keeps : frame.
Lemma refill_expanding_line_keeps p l : keeps p (refill_expanding_line c99 fuel p l).
Proof. unfold refill_expanding_line. frame. Qed.
#[local] Hint Resolve refill_expanding_line_keeps : frame.
Lemma expand_complete_keeps n p l i : keeps p (expand_complete c99 depth fuel n p l i).
Proof. revert p l i. induction n as [|n IH]; intros p l i; cbn [expand_complete]; frame. Qed.
Lemma pragma_line_keeps n p l : keeps p (pragma_line c99 n p l).
Proof. revert p l. induction n as [|n IH]; intros p l; cbn [pragma_line]; frame. Qed.
#[local] Hint Resolve pragma_line_keeps : frame.
Lemma pragma_string_frame p s id : frame p (pragma_string p s id).
Proof. unfold pragma_string. destruct id; try case_match; auto with frame. Qed.
Lemma pragma_tokens_keeps p l id : keeps p (pragma_tokens p l id).
Proof.
  revert p id. induction l as [|t l IH]; intros p id; cbn [pragma_tokens]; frame.
  eapply (keeps_by_from _); [apply pragma_string_frame|apply IH].
Qed.
Lemma preprocess_Pragma_keeps p l i : keeps p (preprocess_Pragma c99 p l i).
Proof. unfold preprocess_Pragma, destringize. cbv beta iota zeta. frame. Qed.
Lemma convert_token_keeps p t : keeps p (convert_token bits p t).
Proof. unfold convert_token. frame. Qed.
End reading.

(** ** The types of the tokens on the queue *)

Abbreviation types := (map tk_token).

(** Types of tokens the parser does not know. *)
Definition raw_type (k : token_type) : bool :=
  match k with PREP_NUMBER | PREP_CHAR | PREP_STRING | NEWLINE => true | _ => false end.

Definition separated (ks : list token_type) : Prop :=
  ∀ i, ks !! i = Some STRING → ks !! S i ≠ Some STRING.

Definition queue_ok (ks : list token_type) : Prop := Forall (λ k, raw_type k = false) ks ∧ separated ks.

Lemma queue_nil : queue_ok [].
Proof. split; [constructor|]. intros i. by rewrite lookup_nil. Qed.

Lemma separated_snoc ks k : separated ks → (last ks = Some STRING → k ≠ STRING) → separated (ks ++ [k]).
Proof.
  intros Hs Hk i H1 H2. destruct (decide (S i < length ks)%nat) as [Hi|Hi].
  - rewrite lookup_app_l in H1, H2 by lia. by apply (Hs i).
  - rewrite lookup_app_r in H2 by lia. apply list_lookup_singleton_Some in H2 as [H0 H2].
    rewrite lookup_app_l in H1 by lia. apply Hk; [|done]. rewrite last_lookup. by replace (pred (length ks)) with i by lia.
Qed.

Lemma queue_snoc ks k : queue_ok ks → raw_type k = false → (last ks = Some STRING → k ≠ STRING) → queue_ok (ks ++ [k]).
Proof. intros [Hf Hs] Hr Hk. split; [by apply Forall_app; split; [|constructor]|by apply separated_snoc]. Qed.

Lemma queue_drop n ks : queue_ok ks → queue_ok (drop n ks).
Proof.
  intros [Hf Hs]. split; [by apply Forall_drop|]. intros i. rewrite !lookup_drop.
  replace (n + S i)%nat with (S (n + i)) by lia. apply Hs.
Qed.
Lemma queue_take n ks : queue_ok ks → queue_ok (take n ks).
Proof.
  intros [Hf Hs]. split; [by apply Forall_take|]. intros i H1 H2.
  apply lookup_take_Some in H1 as [H1 _]. apply lookup_take_Some in H2 as [H2 _]. by apply (Hs i).
Qed.

Section queue.
Context `{FA : FloatArith} (bits : Z) (c99 : bool) (depth fuel : nat) (fopen : list Z → option (list Z)).

Lemma number_converted t u : convert_preprocessing_number bits t = Ok u → tk_token u = NUMBER.
Proof.
  unfold convert_preprocessing_number. intros H. ok_inv. destruct a1 as [[ty v]|]; ok_inv; [by subst|].
  destruct a1 as [[ty v]|]; ok_inv; [by subst|]. destruct (strtod (str_raw a0)) as [[d r] range].
  repeat case_match; ok_inv; by subst.
Qed.
Lemma char_converted t u : convert_preprocessing_char t = Ok u → tk_token u = NUMBER.
Proof. unfold convert_preprocessing_char. intros H. ok_inv. by subst. Qed.
Lemma string_converted lx lx' t u : convert_preprocessing_string lx t = Ok (lx', u) → tk_token u = STRING.
Proof. unfold convert_preprocessing_string. intros H. ok_inv. destruct a2 as [lx2 s2]. ok_inv. by subst. Qed.

Lemma convert_token_type p p' t u : convert_token bits p t = Ok (p', u) → tk_token t ≠ NEWLINE →
  raw_type (tk_token u) = false.
Proof.
  unfold convert_token. intros H Ht. destruct (tk_token t) eqn:E; try done; try (injection H as <- <-; by rewrite E).
  - ok_inv. subst. by rewrite (number_converted _ _ Ha).
  - ok_inv. subst. by rewrite (char_converted _ _ Ha).
  - ok_inv. destruct a as [lx x]. ok_inv. subst. by rewrite (string_converted _ _ _ _ Ha).
Qed.

(** The types of the tokens that the parser was given before. *)
Context (pre : list token_type).

(** A state in which tokens may be added to the queue: they are all part of one
    stream, and a string may follow. *)
Definition serving (p : pp) : Prop :=
  output_preprocessed p = false ∧ queue_ok (pre ++ types (lookahead p)) ∧
  (lookahead p = [] → last pre ≠ Some STRING).

Lemma serving_same p q : serving p → same_queue p q → serving q.
Proof. intros (Ho & Hq & He) [Hl Hs]. split; [congruence|]. by rewrite Hl. Qed.
Lemma serving_frame p q : serving p → frame p q → serving q.
Proof. intros Hp Hf. by eapply serving_same, frame_same_queue. Qed.

Lemma is_tok_false k t : is_tok k t = false → tk_token t ≠ k.
Proof. intros H E. by apply is_tok_spec in E; rewrite E in H. Qed.

Lemma add_to_lookahead_serving p p' t : serving p → tk_token t ≠ NEWLINE → add_to_lookahead bits p t = Ok p' → serving p'.
Proof.
  intros Hp Ht H. unfold add_to_lookahead in H. destruct (Hp) as [Ho _]. rewrite Ho in H.
  apply bind_ok_inv in H as ([p1 c] & Hc & H). pose proof (convert_token_type _ _ _ _ Hc Ht) as Hr.
  apply (convert_token_keeps bits) in Hc. cbn [pp_of has_pp_pair has_pp fst id] in Hc.
  pose proof (serving_frame _ _ Hp Hc) as (Ho1 & Hq & He). clear Hp Hc Ho p.
  assert (Hadd : ∀ q l, lookahead q = l → output_preprocessed q = false → queue_ok (pre ++ types l) → l ≠ [] → serving q).
  { intros q l <- H1 H2 H3. by split. }
  destruct (last (lookahead p1)) as [prev|] eqn:Hlast.
  - apply last_Some in Hlast as [l' El]. rewrite El in *. clear He.
    destruct (is_tok STRING c && is_tok STRING prev) eqn:Hstr.
    + apply bind_ok_inv in H as (s1 & _ & H). apply bind_ok_inv in H as (s2 & _ & H).
      apply bind_ok_inv in H as ([st s] & _ & H). injection H as <-.
      eapply Hadd; [cbn [lookahead set_lookahead set_lexer]; rewrite El, removelast_last; reflexivity|exact Ho1| |by intros [_ [=]]%app_eq_nil].
      apply andb_prop in Hstr as [Hs1%is_tok_spec Hs2%is_tok_spec].
      rewrite map_app in *. cbn [map tk_token set_string] in *. by rewrite Hs1, <-Hs2.
    + injection H as <-. apply (Hadd _ ((l' ++ [prev]) ++ [c])); [reflexivity|exact Ho1| |by intros [_ [=]]%app_eq_nil].
      rewrite (map_app _ _ [c]), app_assoc. apply queue_snoc; [done|done|].
      rewrite map_app. cbn [map]. rewrite app_assoc, last_snoc. intros [= Hprev]. apply andb_false_iff in Hstr as [Hs|Hs].
      * by apply is_tok_false.
      * by apply is_tok_false in Hs.
  - injection H as <-. apply last_None in Hlast. rewrite Hlast in *. cbn [map app] in Hq. rewrite app_nil_r in Hq.
    apply (Hadd _ [c]); [reflexivity|exact Ho1| |done]. apply queue_snoc; [done|done|]. intros Hl. by destruct (He eq_refl).
Qed.

Lemma add_tokens_serving l p p' : serving p → Forall (λ t, tk_token t ≠ NEWLINE) l → add_tokens bits p l = Ok p' → serving p'.
Proof.
  intros Hp Hl. revert p Hp. induction Hl as [|t l Ht _ IH]; intros p Hp H; cbn [add_tokens] in H; [by injection H as <-|].
  apply bind_ok_inv in H as (q & Hq & H). apply (IH q); [by eapply add_to_lookahead_serving|done].
Qed.

Lemma preprocess_pragma_serving p p' l : serving p → preprocess_pragma bits p l = Ok p' → serving p'.
Proof.
  intros Hp H. unfold preprocess_pragma in H. pose proof (proj1 Hp) as Ho. rewrite Ho in H. ok_inv.
  eapply serving_frame; [exact Hp|by apply (pragma_tokens_keeps _ _ _ _ H)].
Qed.

Lemma queue_line_serving k p p' l i : serving p → queue_line bits c99 k p l i = Ok p' → serving p'.
Proof.
  revert p i. induction k as [|k IH]; intros p i Hp H; cbn [queue_line] in H;
    (destruct (l !! i) as [t|]; [|by injection H as <-]); [done|].
  apply bind_ok_inv in H as (b & _ & H). destruct b.
  - apply bind_ok_inv in H as ([[p1 pr] j] & Hj & H). apply bind_ok_inv in H as (p2 & Hpr & H).
    apply (IH p2 (S j)); [|done]. eapply preprocess_pragma_serving; [|exact Hpr].
    eapply serving_frame; [exact Hp|by apply (preprocess_Pragma_keeps _ _ _ _ _ Hj)].
  - destruct (Hp) as [Ho _]. rewrite Ho, orb_false_r in H. destruct (is_tok NEWLINE t) eqn:Ht; cbn [negb] in H.
    + by apply (IH p (S i)).
    + apply bind_ok_inv in H as (p1 & H1 & H). apply (IH p1 (S i)); [|done].
      eapply add_to_lookahead_serving; [done|by apply is_tok_false|done].
Qed.

(** ** Lines *)

Lemma preprocess_directive_line_serving p p' : serving p →
  preprocess_directive_line bits c99 depth fuel fopen p = Ok p' → serving p'.
Proof.
  intros Hp H. unfold preprocess_directive_line in H. apply bind_ok_inv in H as ([p1 t] & H1 & H).
  pose proof (serving_frame _ _ Hp (get_token_keeps c99 fuel p _ H1)) as Hp1. cbn in Hp1.
  apply bind_ok_inv in H as (cond & _ & H). destruct (_ || cond); [|by injection H as <-].
  apply bind_ok_inv in H as ([[p2 l] n] & H2 & H).
  pose proof (serving_frame _ _ Hp1 (read_complete_line_keeps c99 fuel p1 _ _ _ _ H2)) as Hp2. cbn in Hp2.
  apply bind_ok_inv in H as (b & _ & H). destruct b; [by eapply preprocess_pragma_serving|].
  eapply serving_same; [exact Hp2|by apply (preprocess_directive_keeps bits c99 depth fopen p2 l p')].
Qed.

Lemma preprocess_text_line_serving p p' t : serving p →
  preprocess_text_line bits c99 depth fuel p t = Ok p' → serving p'.
Proof.
  intros Hp H. unfold preprocess_text_line in H. ok_inv. destruct a0 as [[p1 l] n]. ok_inv. destruct a0 as [p2 l2].
  eapply queue_line_serving; [|exact H].
  eapply serving_frame; [|by apply (expand_complete_keeps c99 depth fuel _ _ _ _ _ Ha1)].
  eapply serving_frame; [exact Hp|by apply (read_complete_line_keeps c99 fuel _ _ _ _ _ Ha0)].
Qed.

Lemma preprocess_one_serving p p' b : serving p → preprocess_one bits c99 depth fuel fopen p = Ok (p', b) → serving p'.
Proof.
  intros Hp H. unfold preprocess_one in H. apply bind_ok_inv in H as ([p1 t] & H1 & H).
  pose proof (serving_frame _ _ Hp (get_token_keeps c99 fuel p _ H1)) as Hp1. cbn in Hp1.
  destruct (is_tok END t); [by injection H as <- <-|]. apply bind_ok_inv in H as (p2 & H2 & H). injection H as <- <-.
  destruct (is_tok HASH t); [by eapply preprocess_directive_line_serving|by eapply preprocess_text_line_serving].
Qed.

Lemma preprocess_lines_serving k p p' n : serving p → preprocess_lines bits c99 depth fuel fopen k p n = Ok p' → serving p'.
Proof.
  revert p. induction k as [|k IH]; intros p Hp H; [done|]. cbn [preprocess_lines] in H.
  apply bind_ok_inv in H as ([p1 b] & H1 & H). pose proof (preprocess_one_serving _ _ _ Hp H1) as Hp1.
  destruct (b || _); [by injection H as <-|by apply (IH p1)].
Qed.


(** ** The end of the input *)

Definition ended (p : pp) : Prop := line_buffer p = None ∧ source_stack (pp_input p) = [].

Lemma getprepline_none n a i j : getprepline n a i = Ok (j, None) → source_stack j = [].
Proof.
  revert i. induction n as [|n IH]; intros i; [done|]. cbn [getprepline].
  destruct (source_stack i) as [|s st] eqn:Hs; [by intros [= <-]|].
  intros H. apply bind_ok_inv in H as ([s' [line|]] & _ & H).
  - destruct (negb a && negb (is_directive line)); [by apply (IH _ H)|done].
  - unfold pop_file in H. cbn in H. destruct st as [|s2 st]; cbn in H; [by injection H as <-|].
    destruct a; cbn in H; [by apply (IH _ H)|done].
Qed.

Lemma get_token_end p p' t : get_token c99 fuel p = Ok (p', t) → is_tok END t = true → ended p'.
Proof.
  intros H Ht. unfold get_token in H.
  assert (∀ q l, get_token_of_line c99 q l ≠ Ok (p', t)) as Hline.
  { intros q l E. unfold get_token_of_line in E. apply bind_ok_inv in E as ([[q1 r] e] & _ & E).
    destruct (is_tok END r) eqn:Hr; injection E as _ <-; [done|congruence]. }
  destruct (line_buffer p) as [l|] eqn:Hl; [by destruct (Hline p l)|].
  apply bind_ok_inv in H as ([i [l|]] & Hi & H); [by destruct (Hline _ _ H)|].
  injection H as <- <-. split; [done|]. by eapply getprepline_none.
Qed.

Lemma ended_one p : ended p → (0 < fuel)%nat → preprocess_one bits c99 depth fuel fopen p = Ok (set_input p (pp_input p), true).
Proof.
  intros [Hl Hs] Hf. unfold preprocess_one, get_token. rewrite Hl. destruct fuel as [|n]; [lia|].
  cbn [getprepline]. by rewrite Hs.
Qed.

(** Lines are read until the queue has [n] tokens and its last is no string,
    or to the end of the input. *)
Lemma preprocess_lines_stop k p p' n : preprocess_lines bits c99 depth fuel fopen k p n = Ok p' →
  ended p' ∨ is_lookahead_ready p' n = true.
Proof.
  revert p. induction k as [|k IH]; intros p H; [done|]. cbn [preprocess_lines] in H.
  apply bind_ok_inv in H as ([p1 b] & H1 & H). destruct b.
  - injection H as <-. left. unfold preprocess_one in H1. apply bind_ok_inv in H1 as ([p2 t] & H2 & H1).
    destruct (is_tok END t) eqn:Ht; [injection H1 as <-; by eapply get_token_end|].
    by apply bind_ok_inv in H1 as (p3 & _ & H1).
  - cbn [orb] in H. destruct (is_lookahead_ready p1 n) eqn:Hr; [injection H as <-; by right|by apply (IH p1)].
Qed.

Lemma ready_last p n : is_lookahead_ready p n = true → output_preprocessed p = false → (0 < n)%nat →
  last (types (lookahead p)) ≠ Some STRING ∧ lookahead p ≠ [].
Proof.
  unfold is_lookahead_ready. intros H Ho Hn. destruct (Nat.ltb_spec (length (lookahead p)) n) as [|Hl]; [done|].
  destruct (lookahead p) as [|x l'] eqn:E using rev_ind; [cbn in Hl; lia|].
  rewrite last_snoc, Ho in H. cbn in H. split; [|by intros [_ [=]]%app_eq_nil].
  rewrite map_app. cbn [map]. rewrite last_snoc. intros [= Hx]. apply negb_true_iff, is_tok_false in H. done.
Qed.

(** ** What the parser is given *)

(** [pre] and the queue are one stream; where its last token is a string, the
    input is at its end. *)
Definition stream (p : pp) : Prop :=
  output_preprocessed p = false ∧ queue_ok (pre ++ types (lookahead p)) ∧
  (last (pre ++ types (lookahead p)) = Some STRING → ended p).

Lemma stream_serving p : stream p → ended p ∨ serving p.
Proof.
  intros (Ho & Hq & He). destruct (decide (last (pre ++ types (lookahead p)) = Some STRING)) as [Hl|Hl]; [left; auto|].
  right. split; [done|]. split; [done|]. intros Hn. rewrite Hn in Hl. cbn in Hl. by rewrite app_nil_r in Hl.
Qed.

Lemma add_ends p k : output_preprocessed p = false →
  add_tokens bits p (replicate k (basic END)) = Ok (set_lookahead p (lookahead p ++ replicate k (basic END))).
Proof.
  revert p. induction k as [|k IH]; intros p Ho; cbn [replicate add_tokens].
  { rewrite app_nil_r. by destruct p. }
  assert (add_to_lookahead bits p (basic END) = Ok (set_lookahead p (lookahead p ++ [basic END]))) as ->.
  { unfold add_to_lookahead. rewrite Ho. unfold convert_token.
    change (tk_token (basic END)) with END. cbn [mbind outcome_bind]. change (is_tok STRING (basic END)) with false.
    by destruct (last (lookahead p)). }
  cbn [mbind outcome_bind]. rewrite IH by done. cbn [lookahead set_lookahead]. by rewrite <-app_assoc.
Qed.

Lemma ends_stream p k : stream p → stream (set_lookahead p (lookahead p ++ replicate k (basic END))).
Proof.
  intros (Ho & Hq & He). split; [done|]. cbn [lookahead set_lookahead]. rewrite map_app, app_assoc.
  replace (types (replicate k (basic END))) with (replicate k END) by (induction k as [|k IH]; [done|]; cbn; by rewrite <-IH).
  induction k as [|k IH]; [by rewrite app_nil_r|].
  replace (replicate (S k) END) with (replicate k END ++ [END]) by (by rewrite replicate_S_end).
  destruct IH as [IH1 IH2]. rewrite app_assoc. split; [by apply queue_snoc|]. by rewrite last_snoc.
Qed.

Lemma lines_stream p p' n : stream p → (0 < n)%nat →
  preprocess_lines bits c99 depth fuel fopen fuel p n = Ok p' → stream p'.
Proof.
  intros Hp Hn H. destruct (stream_serving p Hp) as [He|Hs].
  - destruct fuel as [|k] eqn:Hf; [done|]. cbn [preprocess_lines] in H. rewrite <-Hf in H.
    rewrite (ended_one p He) in H by lia. cbn in H. injection H as <-. by destruct p.
  - pose proof (preprocess_lines_serving _ _ _ _ Hs H) as (Ho & Hq & Hl). split; [done|]. split; [done|].
    intros Hlast. destruct (preprocess_lines_stop _ _ _ _ H) as [He|Hr]; [done|].
    destruct (ready_last _ _ Hr Ho Hn) as [Hx Hy]. exfalso. apply Hx.
    destruct (lookahead p') as [|x l] eqn:E using rev_ind; [done|].
    rewrite map_app in Hlast |- *. cbn [map] in *. rewrite app_assoc in Hlast. by rewrite last_snoc in Hlast |- *.
Qed.

Lemma preprocess_line_stream p p' n : stream p → (0 < n)%nat → preprocess_line bits c99 depth fuel fopen p n = Ok p' →
  stream p' ∧ (n ≤ length (lookahead p'))%nat.
Proof.
  intros Hp Hn H. unfold preprocess_line in H. apply bind_ok_inv in H as (p1 & H1 & H).
  pose proof (lines_stream _ _ _ Hp Hn H1) as Hs. destruct (Hs) as [Ho _]. rewrite add_ends in H by done.
  injection H as <-. split; [by apply ends_stream|]. cbn [lookahead set_lookahead]. rewrite length_app, length_replicate. lia.
Qed.
End queue.

(** ** Calls of the parser *)

Section calls.
Context `{FA : FloatArith} (bits : Z) (c99 : bool) (depth fuel : nat) (fopen : list Z → option (list Z)).

(** The functions of preprocessor.h that read tokens, with the tokens they
    return, and those they take off the queue. *)
Inductive demand : Set := D_next | D_peekn (n : nat) | D_consume (type : token_type).

Definition serve (p : pp) (d : demand) : outcome (pp * token * list token) :=
  match d with
  | D_next => '(p, t) ← next bits c99 depth fuel fopen p; Ok (p, t, [t])
  | D_peekn n => '(p, t) ← peekn bits c99 depth fuel fopen p n; Ok (p, t, [])
  | D_consume k => '(p, t) ← consume bits c99 depth fuel fopen p k; Ok (p, t, [t])
  end.

(** The tokens taken in a sequence of calls. *)
Fixpoint serve_all (p : pp) (ds : list demand) : outcome (pp * list token) :=
  match ds with
  | [] => Ok (p, [])
  | d :: ds => '(p, _, ts) ← serve p d; '(p, us) ← serve_all p ds; Ok (p, ts ++ us)
  end.

Lemma next_stream pre p p' t : stream pre p → next bits c99 depth fuel fopen p = Ok (p', t) →
  stream (pre ++ [tk_token t]) p'.
Proof.
  intros Hp H. unfold next in H. apply bind_ok_inv in H as (p1 & H1 & H).
  assert (stream pre p1) as (Ho & Hq & He).
  { destruct (length (lookahead p) <? 1)%nat; [|by injection H1 as <-].
    by apply (preprocess_line_stream bits c99 depth fuel fopen pre) in H1 as [H1 _]; [|done|lia]. }
  destruct (lookahead p1) as [|x l] eqn:E; [done|]. injection H as <- <-.
  split; [done|]. cbn [lookahead set_lookahead]. rewrite <-app_assoc. split; [done|].
  intros Hl. exact (He Hl).
Qed.

Lemma peekn_stream pre p p' n t : stream pre p → peekn bits c99 depth fuel fopen p n = Ok (p', t) → stream pre p'.
Proof.
  intros Hp H. unfold peekn in H. apply bind_ok_inv in H as (u & Hn & H). apply bind_ok_inv in H as (p1 & H1 & H).
  apply bind_ok_inv in H as (x & Hx & H). injection H as <- <-. apply c_assert_ok_inv in Hn. apply Nat.ltb_lt in Hn.
  destruct (_ <? _)%nat; [|by injection H1 as <-].
  by apply (preprocess_line_stream bits c99 depth fuel fopen pre) in H1 as [H1 _]; [|done|lia].
Qed.

Lemma serve_stream pre p d p' t ts : stream pre p → serve p d = Ok (p', t, ts) → stream (pre ++ types ts) p'.
Proof.
  intros Hp H. destruct d as [|n|k]; cbn [serve] in H; apply bind_ok_inv in H as ([p1 u] & H1 & H); injection H as <- <- <-.
  - by apply (next_stream pre p).
  - cbn. rewrite app_nil_r. by eapply peekn_stream.
  - unfold consume in H1. apply bind_ok_inv in H1 as ([p2 v] & H2 & H1). destruct (is_tok k v); [|done].
    injection H1 as <- <-. by apply (next_stream pre p).
Qed.

Lemma serve_all_stream ds : ∀ pre p p' ts, stream pre p → serve_all p ds = Ok (p', ts) → stream (pre ++ types ts) p'.
Proof.
  induction ds as [|d ds IH]; intros pre p p' ts Hp H; cbn [serve_all] in H.
  { injection H as <- <-. cbn. by rewrite app_nil_r. }
  apply bind_ok_inv in H as ([[p1 t] us] & H1 & H). apply bind_ok_inv in H as ([p2 vs] & H2 & H). injection H as <- <-.
  rewrite map_app, app_assoc. eapply IH; [|exact H2]. by eapply serve_stream.
Qed.
End calls.
