(* ===== verification/CondGroups.v ===== *)
(** * Groups of [#if]

    A source file is a tree: a line, or a group with sections of which one at
    most is processed, the first whose condition is true.  [process] does so, with
    no stack; the directives of directive.c, obeyed one after the other in the
    order of the file, do the same on [branch_stack]. *)

From stdpp Require Import base list gmap numbers strings.
From Stdlib Require Import ZArith Lia.
From S2P Require Import Prelude CType Floats Strings Token Lexer Input Macro Immediate Directive PpQueue.

Local Open Scope Z_scope.

(** ** Documents *)

(** A document of directives; a line is its tokens behind the [#].  The text
    between directives is not part of it. *)
Inductive doc : Set :=
  | Done
  | Line (l : list token) (d : doc)
  | Group (l : list token) (body : doc) (rest : sections) (d : doc)
with sections : Set :=
  | Endif (l : list token)
  | Else (l : list token) (body : doc) (e : list token)
  | Elif (l : list token) (body : doc) (rest : sections).

Scheme doc_mut := Induction for doc Sort Prop
  with sections_mut := Induction for sections Sort Prop.
Combined Scheme doc_sections_ind from doc_mut, sections_mut.

Fixpoint lines (d : doc) : list (list token) :=
  match d with
  | Done => []
  | Line l d => l :: lines d
  | Group l body rest d => l :: lines body ++ section_lines rest ++ lines d
  end
with section_lines (t : sections) : list (list token) :=
  match t with
  | Endif l => [l]
  | Else l body e => l :: lines body ++ [e]
  | Elif l body rest => l :: lines body ++ section_lines rest
  end.

(** ** Kinds of directives *)

Inductive dir : Set := D_if | D_ifdef | D_ifndef | D_elif | D_else | D_endif | D_line | D_other.
#[export] Instance dir_eq_dec : EqDecision dir.
Proof. solve_decision. Defined.

Definition named (t : token) (n : list Z) : bool :=
  match tk_d t with D_string s => str_cmp s (SHORT_STRING_INIT n) =? 0 | D_val _ => false end.

Definition dir_kind (t : token) : dir :=
  match tk_token t with
  | IF => D_if
  | ELSE => D_else
  | IDENTIFIER =>
    if named t (cstr "elif") then D_elif
    else if named t (cstr "endif") then D_endif
    else if named t (cstr "ifndef") then D_ifndef
    else if named t (cstr "ifdef") then D_ifdef
    else if named t (cstr "line") then D_line else D_other
  | _ => D_other
  end.

(** The line of a directive of the kind [k]. *)
Definition dir_line (k : dir → Prop) (l : list token) : Prop :=
  match l with
  | t :: _ => k (dir_kind t) ∧ (tk_token t = IDENTIFIER → ∃ s, tk_d t = D_string s)
  | [] => False
  end.
Definition opens (k : dir) : Prop := k = D_if ∨ k = D_ifdef ∨ k = D_ifndef.
Definition plain (k : dir) : Prop := k = D_line ∨ k = D_other.

Fixpoint doc_ok (d : doc) : Prop :=
  match d with
  | Done => True
  | Line l d => dir_line plain l ∧ doc_ok d
  | Group l body rest d => dir_line opens l ∧ doc_ok body ∧ sections_ok rest ∧ doc_ok d
  end
with sections_ok (t : sections) : Prop :=
  match t with
  | Endif l => dir_line (eq D_endif) l
  | Else l body e => dir_line (eq D_else) l ∧ doc_ok body ∧ dir_line (eq D_endif) e
  | Elif l body rest => dir_line (eq D_elif) l ∧ doc_ok body ∧ sections_ok rest
  end.

(** ** The meaning of a document *)

Section process.
Context `{FA : FloatArith} (bits : Z) (c99 : bool) (depth : nat) (fopen : list Z → option (list Z)).

(** [#if], [#elif] and [#line] are expanded, in sections that are skipped too.
    The name of the directive has to be the same afterwards: no macro has that
    name. *)
Definition expand_directive (p : pp) (l : list token) : outcome (pp * list token) :=
  '(p, e, _) ← expand c99 depth p l;
  match l, e with
  | t :: _, x :: _ => if bool_decide (dir_kind t = dir_kind x) then Ok (p, e) else Undef "the directive is a macro"
  | _, _ => Undef "the directive is a macro"
  end.

Definition condition (p : pp) (l : list token) : outcome (pp * bool) :=
  let macro_given msg := name ← expandable_name l msg; '(p, d) ← macro_definition p name;
    Ok (p, match d with Some _ => true | None => false end) in
  t ← head l;
  match dir_kind t with
  | D_if | D_elif =>
    '(p, l) ← expand_directive p l;
    '(num, _) ← preprocess_constant_expression bits p (next_tokens l);
    Ok (p, negb (val_i (n_val num) =? 0))
  | D_ifdef => macro_given "Expected identifier in clause."
  | D_ifndef => '(p, b) ← macro_given "Expected identifier in clause."; Ok (p, negb b)
  | _ => Undef "no condition"
  end.

(** A condition that does not matter. *)
Definition glance (p : pp) (l : list token) : outcome pp :=
  t ← head l;
  match dir_kind t with D_if | D_elif => '(p, _) ← expand_directive p l; Ok p | _ => Ok p end.

Definition ordinary (p : pp) (l : list token) : outcome pp :=
  t ← head l;
  '(p, l) ← (match dir_kind t with D_line => expand_directive p l | _ => Ok (p, l) end);
  preprocess_active bits c99 depth fopen p l.

Fixpoint skip (d : doc) (p : pp) : outcome pp :=
  match d with
  | Done => Ok p
  | Line _ d => skip d p
  | Group l body rest d => p ← glance p l; p ← skip body p; p ← skip_sections rest p; skip d p
  end
with skip_sections (t : sections) (p : pp) : outcome pp :=
  match t with
  | Endif _ => Ok p
  | Else _ body _ => skip body p
  | Elif l body rest => p ← glance p l; p ← skip body p; skip_sections rest p
  end.

(** Lines are obeyed in order, of a group the first section whose condition is
    true, or that of [#else]. *)
Fixpoint process (d : doc) (p : pp) : outcome pp :=
  match d with
  | Done => Ok p
  | Line l d => p ← ordinary p l; process d p
  | Group l body rest d =>
    '(p, c) ← condition p l;
    p ← (if c : bool then p ← process body p; skip_sections rest p
         else p ← skip body p; process_sections rest p);
    process d p
  end
with process_sections (t : sections) (p : pp) : outcome pp :=
  match t with
  | Endif _ => Ok p
  | Else _ body _ => process body p
  | Elif l body rest =>
    '(p, c) ← condition p l;
    if c : bool then p ← process body p; skip_sections rest p
    else p ← skip body p; process_sections rest p
  end.

(** The directives of [lines], one after the other. *)
Fixpoint run_directives (ls : list (list token)) (p : pp) : outcome pp :=
  match ls with
  | [] => Ok p
  | l :: ls => p ← preprocess_directive bits c99 depth fopen p l; run_directives ls p
  end.

Lemma run_directives_app a b p : run_directives (a ++ b) p = (p ← run_directives a p; run_directives b p).
Proof.
  revert p. induction a as [|l a IH]; intros p; [done|]. cbn [app run_directives].
  destruct (preprocess_directive _ _ _ _ _ _); [apply IH|done|done].
Qed.
End process.

(** ** The kind of a line in the code *)

Definition has_name (t : token) : Prop := tk_token t = IDENTIFIER → ∃ s, tk_d t = D_string s.

Lemma kind_has_name t : dir_kind t ≠ D_other → has_name t.
Proof.
  unfold dir_kind, has_name, named. intros Hk Ht. rewrite Ht in Hk. destruct (tk_d t) as [s|]; [by exists s|done].
Qed.

Lemma tok_eq_named t n : has_name t →
  tok_eq t (IDENT n) = Ok (bool_decide (tk_token t = IDENTIFIER) && named t n).
Proof.
  intros Hn. unfold tok_eq, tok_cmp, named. change (tk_token (IDENT n)) with IDENTIFIER.
  case_bool_decide as Ht; [|done]. cbn [negb andb]. unfold is_tok, tok_string. rewrite Ht.
  destruct (Hn Ht) as [s ->]. done.
Qed.

(** Names of different lengths are different. *)
Lemma named_len t n : named t n = true → ∃ s, tk_d t = D_string s ∧ s_len s = Z.of_nat (length n).
Proof.
  unfold named. destruct (tk_d t) as [s|]; [|done]. intros H%Z.eqb_eq. exists s. split; [done|].
  unfold str_cmp in H. destruct (Z.eqb_spec (s_len s) (s_len (SHORT_STRING_INIT n))) as [He|]; [done|done].
Qed.
Lemma named_differ t m n : named t m = true → length m ≠ length n → named t n = false.
Proof.
  intros Hm Hl. destruct (named t n) eqn:Hn; [|done]. exfalso.
  apply named_len in Hm as (s & Hs & H1). apply named_len in Hn as (s' & Hs' & H2).
  rewrite Hs in Hs'. injection Hs' as <-. lia.
Qed.

(** The names the code looks for, as kinds. *)
Lemma kind_names t : has_name t →
  tok_eq t ident__elif = Ok (bool_decide (dir_kind t = D_elif)) ∧
  tok_eq t ident__endif = Ok (bool_decide (dir_kind t = D_endif) || (bool_decide (dir_kind t = D_elif) && named t (cstr "endif"))) ∧
  (dir_kind t ≠ D_elif → dir_kind t ≠ D_endif →
    tok_eq t ident__ifndef = Ok (bool_decide (dir_kind t = D_ifndef)) ∧
    (dir_kind t ≠ D_ifndef → tok_eq t ident__ifdef = Ok (bool_decide (dir_kind t = D_ifdef)))) ∧
  (dir_kind t ≠ D_elif → tok_eq t ident__line = Ok (bool_decide (dir_kind t = D_line))).
Proof.
  intros Hn. unfold ident__elif, ident__endif, ident__ifndef, ident__ifdef, ident__line. rewrite !tok_eq_named by done.
  unfold dir_kind. destruct (tk_token t); try done. rewrite bool_decide_true by done. cbn [andb].
  destruct (named t (cstr "elif")) eqn:E1; [by repeat split|].
  destruct (named t (cstr "endif")) eqn:E2.
  { rewrite (named_differ t _ (cstr "line") E2) by done. by repeat split. }
  destruct (named t (cstr "ifndef")) eqn:E3.
  { rewrite (named_differ t _ (cstr "line") E3) by done. by repeat split. }
  destruct (named t (cstr "ifdef")) eqn:E4.
  { rewrite (named_differ t _ (cstr "line") E4) by done. by repeat split. }
  destruct (named t (cstr "line")) eqn:E5; by repeat split.
Qed.

Section steps.
Context `{FA : FloatArith} (bits : Z) (c99 : bool) (depth : nat) (fopen : list Z → option (list Z)).
Abbreviation directive := (preprocess_directive bits c99 depth fopen).
Abbreviation active := (preprocess_active bits c99 depth fopen).

(** The directive by its kind: what is done before and after the expansion. *)
Definition dispatch (p : pp) (k : dir) (line : list token) : outcome pp :=
  match k with
  | D_if => preprocess_if bits p line
  | D_else => preprocess_else p
  | D_elif => preprocess_elif bits p line
  | D_endif => '(p, _) ← pop_state p; Ok p
  | D_ifndef => preprocess_ifdef p line false
  | D_ifdef => preprocess_ifdef p line true
  | D_line | D_other => if in_active_block p then active p line else Ok p
  end.

Lemma kind_if t : is_tok IF t = bool_decide (dir_kind t = D_if).
Proof.
  unfold dir_kind, is_tok. destruct (tk_token t); try done.
  by repeat case_match.
Qed.
Lemma kind_else t : is_tok ELSE t = bool_decide (dir_kind t = D_else).
Proof.
  unfold dir_kind, is_tok. destruct (tk_token t); try done.
  by repeat case_match.
Qed.

Definition needs_expansion (p : pp) (k : dir) : bool :=
  match k with D_if | D_elif => true | D_line => in_active_block p | _ => false end.

(** The tests behind the expansion. *)
Definition tests (p : pp) (line : list token) : outcome pp :=
  t ← head line;
  if is_tok IF t then preprocess_if bits p line
  else if is_tok ELSE t then preprocess_else p
  else
    is_elif ← tok_eq t ident__elif;
    if is_elif : bool then preprocess_elif bits p line
    else
      is_endif ← tok_eq t ident__endif;
      if is_endif : bool then '(p, _) ← pop_state p; Ok p
      else
        is_ifndef ← tok_eq t ident__ifndef;
        if is_ifndef : bool then preprocess_ifdef p line false
        else
          is_ifdef ← tok_eq t ident__ifdef;
          if is_ifdef : bool then preprocess_ifdef p line true
          else if in_active_block p then active p line
          else Ok p.

Lemma tests_dispatch p t r : has_name t → tests p (t :: r) = dispatch p (dir_kind t) (t :: r).
Proof.
  intros Hn. unfold tests. cbn [head mbind outcome_bind]. rewrite kind_if, kind_else.
  destruct (kind_names t Hn) as (-> & -> & Hifs & _). cbn [mbind outcome_bind].
  destruct (dir_kind t); cbn [bool_decide decide_rel dispatch]; try done;
    destruct Hifs as [-> Hd]; try done; cbn [mbind outcome_bind]; try done; by rewrite Hd.
Qed.

Lemma directive_tests p t r : has_name t → directive p (t :: r) =
  ('(p, line) ← (if needs_expansion p (dir_kind t) then '(p, a, _) ← expand c99 depth p (t :: r); Ok (p, a)
                 else Ok (p, t :: r));
   tests p line).
Proof.
  intros Hn. unfold preprocess_directive. cbn [head mbind outcome_bind].
  destruct (kind_names t Hn) as (-> & _ & _ & Hline). cbn [mbind outcome_bind].
  assert (∃ b, tok_eq t ident__line = Ok b ∧
    is_tok IF t || bool_decide (dir_kind t = D_elif) || (in_active_block p && b) = needs_expansion p (dir_kind t)) as (b & -> & Hb).
  { rewrite kind_if. destruct (decide (dir_kind t = D_elif)) as [E|E].
    - unfold ident__line. rewrite tok_eq_named by done. eexists. split; [done|]. by rewrite E.
    - rewrite Hline by done. eexists. split; [done|]. destruct (dir_kind t); first [done|by destruct E|by rewrite andb_false_r|by rewrite andb_true_r]. }
  cbn [mbind outcome_bind]. by rewrite Hb.
Qed.

(** ** Directives on a stack *)

Definition live (b : list state) : bool := match b with [] => true | c :: _ => bool_decide (c = BRANCH_LIVE) end.

(** The code does what the specification does, where that says what to do. *)
Definition agrees (m m' : outcome pp) : Prop := match m with Undef _ => True | _ => m' = m end.

Lemma agrees_bind m m' (f f' : pp → outcome pp) : agrees m m' → (∀ p, agrees (f p) (f' p)) → agrees (m ≫= f) (m' ≫= f').
Proof. intros Hm Hf. destruct m as [p| |]; [rewrite Hm; apply Hf|by rewrite Hm|done]. Qed.
Lemma agrees_same m : agrees m m.
Proof. by destruct m. Qed.

Lemma expanded_step p b t r : dir_kind t ≠ D_other → needs_expansion (set_branches p b) (dir_kind t) = true →
  agrees ('(p, l) ← expand_directive c99 depth p (t :: r); dispatch (set_branches p b) (dir_kind t) l)
    (directive (set_branches p b) (t :: r)).
Proof.
  intros Hk Hx. rewrite directive_tests, Hx by by apply kind_has_name.
  rewrite (expand_shift b c99 depth p (t :: r)). unfold expand_directive, put_branches.
  destruct (expand c99 depth p (t :: r)) as [[[q [|x e]] n]| |]; try done.
  cbn [mbind outcome_bind with_branches branches_pair branches_pp fst snd]. case_bool_decide as He; [|done].
  cbn [mbind outcome_bind]. rewrite tests_dispatch by (apply kind_has_name; congruence). rewrite He. apply agrees_same.
Qed.

Lemma plain_step p b t r : has_name t → needs_expansion (set_branches p b) (dir_kind t) = false →
  directive (set_branches p b) (t :: r) = dispatch (set_branches p b) (dir_kind t) (t :: r).
Proof. intros Hn Hx. rewrite directive_tests, Hx by done. cbn [mbind outcome_bind]. by apply tests_dispatch. Qed.

(** What each kind does with the stack. *)
Lemma if_shift p b l : preprocess_if bits (set_branches p b) l =
  (if live b then '(num, _) ← preprocess_constant_expression bits p (next_tokens l);
     Ok (set_branches p (live_or_dead (negb (val_i (n_val num) =? 0)) :: b))
   else Ok (set_branches p (BRANCH_DISABLED :: b))).
Proof. unfold preprocess_if. by rewrite preprocess_constant_expression_shift. Qed.

Lemma elif_shift p s b l : preprocess_elif bits (set_branches p (s :: b)) l =
  (if live b then
     if bool_decide (s = BRANCH_DEAD) then
       '(num, _) ← preprocess_constant_expression bits p (next_tokens l);
       Ok (set_branches p (live_or_dead (negb (val_i (n_val num) =? 0)) :: b))
     else Ok (set_branches p (BRANCH_DISABLED :: b))
   else _ ← c_assert (bool_decide (s = BRANCH_DISABLED)); Ok (set_branches p (BRANCH_DISABLED :: b))).
Proof.
  unfold preprocess_elif. cbn [pop_state branch_stack set_branches mbind outcome_bind].
  change (preprocess_constant_expression bits (set_branches (set_branches p (s :: b)) b)) with
    (preprocess_constant_expression bits (set_branches p b)).
  by rewrite preprocess_constant_expression_shift.
Qed.

Lemma ifdef_shift p b l def : preprocess_ifdef (set_branches p b) l def =
  (if live b then
     name ← expandable_name l "Expected identifier in clause.";
     '(p, d) ← macro_definition p name;
     Ok (set_branches p (live_or_dead (Bool.eqb def (match d with Some _ => true | None => false end)) :: b))
   else Ok (set_branches p (BRANCH_DISABLED :: b))).
Proof.
  unfold preprocess_ifdef. change (in_active_block (set_branches p b)) with (live b). destruct (live b); [|done].
  apply bind_ext; intros name. rewrite (macro_definition_shift b p name). unfold put_branches.
  by destruct (macro_definition p name) as [[q d]| |].
Qed.

(** ** One directive of each kind *)

Lemma dir_line_inv k l : dir_line k l → ∃ t r, l = t :: r ∧ k (dir_kind t) ∧ has_name t.
Proof. destruct l as [|t r]; [done|]. intros [Hk Hn]. by exists t, r. Qed.

Lemma open_step p b l : live b = true → dir_line opens l →
  agrees ('(p, c) ← condition bits c99 depth p l; Ok (set_branches p (live_or_dead c :: b)))
    (directive (set_branches p b) l).
Proof.
  intros Hb (t & r & -> & Hk & Hn)%dir_line_inv. unfold condition. cbn [head mbind outcome_bind].
  destruct Hk as [Hk|Hk]; [|destruct Hk as [Hk|Hk]]; rewrite Hk.
  - pose proof (expanded_step p b t r) as H. rewrite Hk in H. specialize (H ltac:(done) eq_refl). revert H.
    destruct (expand_directive c99 depth p (t :: r)) as [[q l]| |]; cbn [mbind outcome_bind]; [|by intros ->|done].
    cbn [dispatch]. rewrite if_shift, Hb.
    destruct (preprocess_constant_expression bits q (next_tokens l)) as [[num e]| |]; cbn [mbind outcome_bind]; done.
  - rewrite plain_step by (done || by rewrite Hk). rewrite Hk. cbn [dispatch]. rewrite ifdef_shift, Hb.
    destruct (expandable_name (t :: r) _) as [name| |]; cbn [mbind outcome_bind]; [|done|done].
    destruct (macro_definition p name) as [[q [d|]]| |]; done.
  - rewrite plain_step by (done || by rewrite Hk). rewrite Hk. cbn [dispatch]. rewrite ifdef_shift, Hb.
    destruct (expandable_name (t :: r) _) as [name| |]; cbn [mbind outcome_bind]; [|done|done].
    destruct (macro_definition p name) as [[q [d|]]| |]; done.
Qed.

Lemma skipped_open_step p b l : live b = false → dir_line opens l →
  agrees (p ← glance c99 depth p l; Ok (set_branches p (BRANCH_DISABLED :: b))) (directive (set_branches p b) l).
Proof.
  intros Hb (t & r & -> & Hk & Hn)%dir_line_inv. unfold glance. cbn [head mbind outcome_bind].
  destruct Hk as [Hk|Hk]; [|destruct Hk as [Hk|Hk]]; rewrite Hk.
  - pose proof (expanded_step p b t r) as H. rewrite Hk in H. specialize (H ltac:(done) eq_refl). revert H.
    destruct (expand_directive c99 depth p (t :: r)) as [[q l]| |]; cbn [mbind outcome_bind]; [|by intros ->|done].
    cbn [dispatch]. by rewrite if_shift, Hb.
  - rewrite plain_step by (done || by rewrite Hk). rewrite Hk. cbn [dispatch]. by rewrite ifdef_shift, Hb.
  - rewrite plain_step by (done || by rewrite Hk). rewrite Hk. cbn [dispatch]. by rewrite ifdef_shift, Hb.
Qed.

Lemma elif_step p b l : live b = true → dir_line (eq D_elif) l →
  agrees ('(p, c) ← condition bits c99 depth p l; Ok (set_branches p (live_or_dead c :: b)))
    (directive (set_branches p (BRANCH_DEAD :: b)) l).
Proof.
  intros Hb (t & r & -> & Hk & Hn)%dir_line_inv. symmetry in Hk. unfold condition. cbn [head mbind outcome_bind]. rewrite Hk.
  pose proof (expanded_step p (BRANCH_DEAD :: b) t r) as H. rewrite Hk in H. specialize (H ltac:(done) eq_refl). revert H.
  destruct (expand_directive c99 depth p (t :: r)) as [[q l]| |]; cbn [mbind outcome_bind]; [|by intros ->|done].
  cbn [dispatch]. rewrite elif_shift, Hb, bool_decide_true by done.
  destruct (preprocess_constant_expression bits q (next_tokens l)) as [[num e]| |]; cbn [mbind outcome_bind]; done.
Qed.

Lemma skipped_elif_step p s b l : s ≠ BRANCH_DEAD → (live b = false → s = BRANCH_DISABLED) → dir_line (eq D_elif) l →
  agrees (p ← glance c99 depth p l; Ok (set_branches p (BRANCH_DISABLED :: b))) (directive (set_branches p (s :: b)) l).
Proof.
  intros Hs Hb (t & r & -> & Hk & Hn)%dir_line_inv. symmetry in Hk. unfold glance. cbn [head mbind outcome_bind]. rewrite Hk.
  pose proof (expanded_step p (s :: b) t r) as H. rewrite Hk in H. specialize (H ltac:(done) eq_refl). revert H.
  destruct (expand_directive c99 depth p (t :: r)) as [[q l]| |]; cbn [mbind outcome_bind]; [|by intros ->|done].
  cbn [dispatch]. rewrite elif_shift. destruct (live b); [by rewrite bool_decide_false|].
  by rewrite bool_decide_true by by apply Hb.
Qed.

(** The section of [#else] is processed if no other was. *)
Definition else_state (b : list state) (s : state) : state :=
  if live b && bool_decide (s = BRANCH_DEAD) then BRANCH_LIVE else BRANCH_DISABLED.

Lemma else_step p s b l : (live b = false → s = BRANCH_DISABLED) → dir_line (eq D_else) l →
  directive (set_branches p (s :: b)) l = Ok (set_branches p (else_state b s :: b)).
Proof.
  intros Hb (t & r & -> & Hk & Hn)%dir_line_inv. symmetry in Hk. rewrite plain_step by (done || by rewrite Hk). rewrite Hk.
  cbn [dispatch]. unfold preprocess_else, else_state. cbn [pop_state branch_stack set_branches mbind outcome_bind].
  match goal with |- context [in_active_block ?q] => change (in_active_block q) with (live b) end.
  destruct (live b); [done|]. by rewrite bool_decide_true by by apply Hb.
Qed.

Lemma endif_step p s b l : dir_line (eq D_endif) l → directive (set_branches p (s :: b)) l = Ok (set_branches p b).
Proof.
  intros (t & r & -> & Hk & Hn)%dir_line_inv. symmetry in Hk. rewrite plain_step by (done || by rewrite Hk). by rewrite Hk.
Qed.

Lemma line_step p b l : live b = true → dir_line plain l →
  agrees (p ← ordinary bits c99 depth fopen p l; Ok (set_branches p b)) (directive (set_branches p b) l).
Proof.
  intros Hb (t & r & -> & Hk & Hn)%dir_line_inv. unfold ordinary. cbn [head mbind outcome_bind].
  assert (∀ q l, (if in_active_block (set_branches q b) then active (set_branches q b) l else Ok (set_branches q b)) =
    (p ← active q l; Ok (set_branches p b))) as Ha.
  { intros q l. change (in_active_block (set_branches q b)) with (live b). rewrite Hb.
    apply (preprocess_active_shift b bits c99 depth fopen q l). }
  destruct Hk as [Hk|Hk]; rewrite Hk.
  - pose proof (expanded_step p b t r) as H. rewrite Hk in H. specialize (H ltac:(done) Hb). revert H.
    destruct (expand_directive c99 depth p (t :: r)) as [[q l]| |]; cbn [mbind outcome_bind]; [|by intros ->|done].
    cbn [dispatch]. rewrite Ha. by intros.
  - rewrite plain_step by (done || by rewrite Hk). rewrite Hk. cbn [dispatch mbind outcome_bind]. rewrite Ha. apply agrees_same.
Qed.

Lemma skipped_line_step p b l : live b = false → dir_line plain l →
  directive (set_branches p b) l = Ok (set_branches p b).
Proof.
  intros Hb (t & r & -> & Hk & Hn)%dir_line_inv. assert (needs_expansion (set_branches p b) (dir_kind t) = false) as Hx.
  { destruct Hk as [-> | ->]; [exact Hb|done]. }
  rewrite plain_step by done. change (in_active_block (set_branches p b)) with (live b) in *.
  destruct Hk as [-> | ->]; cbn [dispatch]; change (in_active_block (set_branches p b)) with (live b); by rewrite Hb.
Qed.

(** ** Documents *)

Abbreviation run := (run_directives bits c99 depth fopen).
Abbreviation obey := (process bits c99 depth fopen).
Abbreviation obey_sections := (process_sections bits c99 depth fopen).

Lemma bind_assoc {A B C} (m : outcome A) (f : A → outcome B) (g : B → outcome C) :
  (m ≫= f) ≫= g = (m ≫= λ a, f a ≫= g).
Proof. by destruct m. Qed.

Lemma agrees_then {A} (m : outcome A) (h : A → pp) (k : A → outcome pp) R (K : pp → outcome pp) :
  agrees (a ← m; Ok (h a)) R → (∀ a, agrees (k a) (K (h a))) → agrees (m ≫= k) (R ≫= K).
Proof. intros Hm Hk. destruct m as [a| |]; cbn in *; [rewrite Hm; apply Hk|by rewrite Hm|done]. Qed.

Lemma agrees_pair (m : outcome (pp * bool)) (g : bool → list state) k R (K : pp → outcome pp) :
  agrees ('(q, c) ← m; Ok (set_branches q (g c))) R → (∀ q c, agrees (k (q, c)) (K (set_branches q (g c)))) →
  agrees (m ≫= k) (R ≫= K).
Proof.
  intros Hm Hk. apply (agrees_then m (λ x, set_branches x.1 (g x.2))); [|intros [q c]; apply Hk].
  by destruct m as [[q c]| |].
Qed.

(** The section whose condition is [c], and those behind it. *)
Definition section (c : bool) (body : doc) (rest : sections) (p : pp) : outcome pp :=
  if c then p ← obey body p; skip_sections c99 depth rest p
  else p ← skip c99 depth body p; obey_sections rest p.
Definition skip_section (body : doc) (rest : sections) (p : pp) : outcome pp :=
  p ← skip c99 depth body p; skip_sections c99 depth rest p.

Lemma process_group l body rest d p : obey (Group l body rest d) p =
  ('(p, c) ← condition bits c99 depth p l; p ← section c body rest p; obey d p).
Proof. done. Qed.
Lemma process_elif l body rest p : obey_sections (Elif l body rest) p =
  ('(p, c) ← condition bits c99 depth p l; section c body rest p).
Proof. done. Qed.
Lemma skip_group l body rest d p : skip c99 depth (Group l body rest d) p =
  (p ← glance c99 depth p l; p ← skip_section body rest p; skip c99 depth d p).
Proof. cbn. apply bind_ext; intros q. unfold skip_section. by rewrite bind_assoc. Qed.
Lemma skip_elif l body rest p : skip_sections c99 depth (Elif l body rest) p =
  (p ← glance c99 depth p l; skip_section body rest p).
Proof. done. Qed.

Definition doc_agrees (d : doc) : Prop := doc_ok d → ∀ p b,
  (live b = true → agrees (q ← obey d p; Ok (set_branches q b)) (run (lines d) (set_branches p b))) ∧
  (live b = false → agrees (q ← skip c99 depth d p; Ok (set_branches q b)) (run (lines d) (set_branches p b))).

(** The sections behind one that left the state [s] on the stack. *)
Definition sections_agree (t : sections) : Prop := sections_ok t → ∀ p b s,
  (live b = true → s = BRANCH_DEAD →
    agrees (q ← obey_sections t p; Ok (set_branches q b)) (run (section_lines t) (set_branches p (s :: b)))) ∧
  (s ≠ BRANCH_DEAD → (live b = false → s = BRANCH_DISABLED) →
    agrees (q ← skip_sections c99 depth t p; Ok (set_branches q b)) (run (section_lines t) (set_branches p (s :: b)))).

Section sections.
Context (body : doc) (rest : sections) (Hbody : doc_ok body) (Hrest : sections_ok rest).
Context (IHb : doc_agrees body) (IHr : sections_agree rest).

Lemma section_agrees p b c : live b = true →
  agrees (q ← section c body rest p; Ok (set_branches q b))
    (run (lines body ++ section_lines rest) (set_branches p (live_or_dead c :: b))).
Proof.
  intros Hb. rewrite run_directives_app. destruct c; cbn [section live_or_dead]; rewrite bind_assoc.
  - eapply agrees_then; [by apply IHb|]. intros q. apply IHr; [done|done|]. intros Hf. congruence.
  - eapply agrees_then; [by apply IHb|]. intros q. by apply IHr.
Qed.

Lemma skip_section_agrees p b :
  agrees (q ← skip_section body rest p; Ok (set_branches q b))
    (run (lines body ++ section_lines rest) (set_branches p (BRANCH_DISABLED :: b))).
Proof.
  rewrite run_directives_app. unfold skip_section. rewrite bind_assoc.
  eapply agrees_then; [by apply IHb|]. intros q. by apply IHr.
Qed.
End sections.

Lemma group_agrees l body rest d : doc_agrees body → sections_agree rest → doc_agrees d → doc_agrees (Group l body rest d).
Proof.
  intros IHb IHr IHd (Hl & Hbody & Hrest & Hd) p b. cbn [lines run_directives]. split; intros Hb.
  - rewrite process_group, bind_assoc. rewrite app_assoc.
    apply (agrees_pair _ (λ c, live_or_dead c :: b)); [by apply open_step|].
    intros q c. rewrite run_directives_app, bind_assoc. eapply agrees_then; [by apply section_agrees|].
    intros q'. by apply IHd.
  - rewrite skip_group, bind_assoc. rewrite app_assoc. eapply agrees_then; [by apply skipped_open_step|].
    intros q. cbv beta. rewrite run_directives_app, bind_assoc. eapply agrees_then; [by apply skip_section_agrees|].
    intros q'. by apply IHd.
Qed.

Lemma elif_agrees l body rest : doc_agrees body → sections_agree rest → sections_agree (Elif l body rest).
Proof.
  intros IHb IHr (Hl & Hbody & Hrest) p b s. cbn [section_lines run_directives]. split.
  - intros Hb ->. rewrite process_elif, bind_assoc.
    apply (agrees_pair _ (λ c, live_or_dead c :: b)); [by apply elif_step|]. intros q c. by apply section_agrees.
  - intros Hs Hb. rewrite skip_elif, bind_assoc. eapply agrees_then; [by apply skipped_elif_step|].
    intros q. by apply skip_section_agrees.
Qed.

Lemma else_agrees l body e : doc_agrees body → sections_agree (Else l body e).
Proof.
  intros IHb (Hl & Hbody & He) p b s. cbn [section_lines run_directives].
  assert (∀ q, run [e] (set_branches q (else_state b s :: b)) = Ok (set_branches q b)) as Hend.
  { intros q. cbn [run_directives]. by rewrite endif_step. }
  split; intros H1 H2.
  - rewrite else_step by (done || congruence). cbn [mbind outcome_bind]. rewrite run_directives_app.
    assert (else_state b s = BRANCH_LIVE) as Hs by (unfold else_state; by rewrite H1, bool_decide_true).
    eapply agrees_then; [by apply IHb; rewrite ?Hs|]. intros q. cbv beta. by rewrite Hend.
  - rewrite else_step by done. cbn [mbind outcome_bind]. rewrite run_directives_app.
    assert (else_state b s = BRANCH_DISABLED) as Hs by (unfold else_state; by rewrite (bool_decide_false (s = _)), andb_false_r).
    eapply agrees_then; [by apply IHb; rewrite ?Hs|]. intros q. cbv beta. by rewrite Hend.
Qed.

Lemma documents_agree : (∀ d, doc_agrees d) ∧ (∀ t, sections_agree t).
Proof.
  apply doc_sections_ind.
  - intros _ p b. done.
  - intros l d IHd [Hl Hd] p b. cbn [lines run_directives]. split; intros Hb.
    + cbn [process]. rewrite bind_assoc. eapply agrees_then; [by apply line_step|]. intros q. by apply IHd.
    + rewrite skipped_line_step by done. cbn [skip mbind outcome_bind]. by apply IHd.
  - intros l body IHb rest IHr d IHd. by apply group_agrees.
  - intros e He p b s. cbn [section_lines run_directives]. rewrite endif_step by done. done.
  - intros l body IHb e. by apply else_agrees.
  - intros l body IHb rest IHr. by apply elif_agrees.
Qed.
End steps.
