(* ===== verification/DirectiveSpec.v ===== *)
(** * What the directives ensure

    The expression of [#if] has the value C gives it, and of a group of
    sections the right one is processed; then where the code departs from
    C. *)

From stdpp Require Import base list gmap numbers strings.
From Stdlib Require Import ZArith Lia.
From S2P Require Import Prelude CType Floats CArith Strings Typetree Hash HashProps Strtab Token Lexer LexerProps Input Macro MacroProps Immediate Directive CondExpr CondExprParse PpQueue CondGroups Preproc.

Local Open Scope Z_scope.

(** ** Expressions *)

(** C4: the evaluator of [#if], on the tokens of an expression and the end of
    the line, returns the value of the expression with all of the tokens but
    the end of the line consumed: precedence, associativity, parentheses and
    conditionals are those of C, the arithmetic that of [intmax_t] and
    [uintmax_t].  It returns for every expression all of whose operands have a
    value, however deep.  [standard] leaves out, without parentheses, [==] and
    [!=] behind each other and [|] behind [|], and signed operands shifted by
    unsigned ones, [!] of an unsigned operand, and constants without [u] that
    become unsigned: there the evaluator departs from C. *)
Theorem if_expression_value `{FA : FloatArith} bits p e v x rest : standard p e → value e = Ok v →
  tk_token x = NEWLINE →
  preprocess_constant_expression bits p (tokens e ++ x :: rest) = Ok (number_of v, x :: rest).
Proof. intros Hst Hv Hx. apply constant_expression_reads; [done|done|]. cbn. rewrite Hx. cbn. lia. Qed.

Definition number_token (s : list Z) : token := set_string (tok_of PREP_NUMBER 0) (intern s).
Definition num (c : Z) (v : Z) : tree := T_operand (number_token [c]) (CValue true v).

(** [1 < 1 || -2 - 1 - (X ? 4 : 3) < 1 && 1 < 2 && 2 || 1 < 1] *)
Definition demo_expression : tree :=
  let bin t := T_binary (basic t) in
  let no := bin LT (num (ch "1") 1) (num (ch "1") 1) in
  bin LOGICAL_OR (bin LOGICAL_OR no
  (bin LOGICAL_AND
    (bin LOGICAL_AND
       (bin LT (bin MINUS (bin MINUS (T_unary (basic MINUS) (num (ch "2") 2)) (num (ch "1") 1))
                  (T_paren (basic OPEN_PAREN) (basic CLOSE_PAREN)
                     (T_cond (basic QUESTION) (basic COLON) (T_operand (ident (cstr "X")) (CValue true 0))
                        (num (ch "4") 4) (num (ch "3") 3))))
          (num (ch "1") 1))
       (bin LT (num (ch "1") 1) (num (ch "2") 2)))
    (num (ch "2") 2))) no.

Lemma digit_operand p c v : isdigit c → c ≠ ch "0" → v = value_of 10 [c] → v ≤ 9 →
  operand p (number_token [c]) (CValue true v).
Proof.
  intros Hc Hz -> Hv. pose proof (value_of_nonneg 10 [c] ltac:(lia)) as H0.
  apply (operand_number p _ (intern [c]) [c] true (value_of 10 [c]) [] SUFFIX_NONE basic_type__int).
  - done.
  - done.
  - apply intern_raw.
  - apply IC_decimal; [done|by constructor].
  - in_list.
  - destruct (represents_max (value_of 10 [c]) H0) as (Hi & _).
    assert ((value_of 10 [c] <=? INT_MAX) = true) as Hm by (apply Z.leb_le; unfold INT_MAX; lia). rewrite Hm in Hi.
    change (candidates SUFFIX_NONE true) with [basic_type__int; basic_type__long]. cbn [first_type]. by rewrite Hi.
  - assert ((value_of 10 [c] <=? LONGLONG_MAX) = true) as -> by (apply Z.leb_le; unfold LONGLONG_MAX; lia). done.
Qed.

Lemma undefined_name p M s : macros_ok p M → wf_string s → M !! str_raw s = None → macro_definition p s = Ok (p, None).
Proof.
  intros (tab & m & Hrep) Hw HM. unfold macro_definition, macro_table. rewrite (mo_table _ _ _ _ Hrep).
  cbn [defined mbind outcome_bind]. rewrite (lookup_spec _ _ _ (mo_map _ _ _ _ Hrep) Hw). cbn [mbind outcome_bind].
  destruct (m !! str_raw s) as [r|] eqn:Hm; [|done].
  destruct (mo_some _ _ _ _ Hrep _ _ Hm) as (d & d' & _ & Hd & _). congruence.
Qed.

Lemma if_expression_value_witness :
  ∃ p, macro_reset pp_start = Ok p ∧ value demo_expression = Ok (CValue true 1) ∧
  preprocess_constant_expression 64 p (tokens demo_expression ++ [basic NEWLINE]) =
    Ok (number_of (CValue true 1), [basic NEWLINE]).
Proof.
  destruct (macro_reset_spec pp_start eq_refl) as (p & Hr & Hp & _). exists p. split; [exact Hr|].
  split; [reflexivity|].
  apply (if_expression_value 64 p demo_expression (CValue true 1) (basic NEWLINE) []); [|reflexivity|reflexivity].
  assert (Hd : ∀ c v, isdigit c → c ≠ ch "0" → v = value_of 10 [c] → v ≤ 9 → operand p (number_token [c]) (CValue true v))
    by apply digit_operand.
  assert (operand p (ident (cstr "X")) (CValue true 0)) as HX.
  { apply (operand_name p _ (intern (cstr "X"))); [reflexivity|reflexivity|].
    apply (undefined_name p ∅); [exact Hp| |apply lookup_empty].
    apply intern_wf; [vm_compute; reflexivity|vm_compute; repeat constructor; discriminate]. }
  cbn [demo_expression standard level_of binary_level tk_token basic num].
  repeat match goal with
  | |- _ ∧ _ => split
  | |- operand _ _ _ => first [exact HX|apply Hd; [reflexivity|discriminate|reflexivity|lia]]
  | |- (_ ≤ _)%nat => vm_compute; lia
  | |- (_ < _)%nat => vm_compute; lia
  end; try reflexivity; try discriminate.
Defined.

(** ** Groups *)

(** C3: obeyed one after the other, the directives of a document do what its
    tree says: of each group the first section whose condition is true is
    processed, or that of [#else], and the groups around are as they were.  Of
    the sections that are skipped, and of conditions that do not matter, nothing
    is obeyed: [#if] and [#elif] lines in them are expanded, as the code does,
    and that is all.  Errors are the same too.  No directive that is expanded is
    named as a macro. *)
Theorem conditional_groups `{FA : FloatArith} bits c99 depth fopen d p b : doc_ok d → live b = true →
  match process bits c99 depth fopen d p with
  | Ok q => run_directives bits c99 depth fopen (lines d) (set_branches p b) = Ok (set_branches q b)
  | Exit e => run_directives bits c99 depth fopen (lines d) (set_branches p b) = Exit e
  | Undef _ => True
  end.
Proof.
  intros Hd Hb. destruct (documents_agree bits c99 depth fopen) as [H _].
  destruct (H d Hd p b) as [Ha _]. specialize (Ha Hb). by destruct (process bits c99 depth fopen d p).
Qed.

Definition directive_of (name : list Z) (l : list token) : list token := ident name :: l ++ [basic NEWLINE].

(** [#if 0], an [#error] in a group of a skipped section, [#elif 1 < 2] with a
    definition and a group on it, [#else]. *)
Definition demo_document : doc :=
  let endif := directive_of (cstr "endif") [] in
  let error := Line (directive_of (cstr "error") [ident (cstr "no")]) Done in
  Group (basic IF :: [number_token [ch "0"]; basic NEWLINE])
    (Group (directive_of (cstr "ifndef") [ident (cstr "X")]) error (Else [basic ELSE; basic NEWLINE] error endif) Done)
    (Elif (directive_of (cstr "elif") [number_token [ch "1"]; basic LT; number_token [ch "2"]])
       (Line (directive_of (cstr "define") [ident (cstr "X"); number_token [ch "7"]])
          (Group (directive_of (cstr "ifdef") [ident (cstr "X")])
             (Line (directive_of (cstr "line") [ident (cstr "X")]) Done)
             (Else [basic ELSE; basic NEWLINE] error endif) Done))
       (Else [basic ELSE; basic NEWLINE] error endif))
    Done.

Definition line_after (m : outcome pp) : option Z :=
  match m with Ok q => Some (current_file_line (pp_input q)) | _ => None end.

Lemma demo_document_line :
  line_after (p ← macro_reset pp_start; process 64 true 5 (λ _, None) demo_document p) = Some 6.
Proof. vm_compute. reflexivity. Qed.

Lemma demo_document_ok : doc_ok demo_document.
Proof.
  vm_compute. repeat split; try (intros [=]; eexists; reflexivity); first [left; reflexivity|right; auto].
Qed.

Lemma conditional_groups_witness :
  ∃ p q, macro_reset pp_start = Ok p ∧ process 64 true 5 (λ _, None) demo_document p = Ok q ∧
    current_file_line (pp_input q) = 6 ∧
    run_directives 64 true 5 (λ _, None) (lines demo_document) (set_branches p []) = Ok (set_branches q []).
Proof.
  pose proof demo_document_line as H. destruct (macro_reset pp_start) as [p|e|e]; [|discriminate H..].
  cbn [mbind outcome_bind] in H. pose proof (conditional_groups 64 true 5 (λ _, None) demo_document p []) as Hc.
  destruct (process 64 true 5 (λ _, None) demo_document p) as [q|e|e] eqn:Hq; [|discriminate H..].
  exists p, q. split; [reflexivity|]. split; [exact Hq|]. split; [by injection H|].
  apply Hc; [exact demo_document_ok|reflexivity].
Defined.

(** ** Where the code departs from C *)

Definition start : outcome pp := macro_reset pp_start.

(** The value of the expression [l], as a 64-bit signed number, and the tokens
    that are left. *)
Definition if_value (l : list token) : outcome (Z * list token_type) :=
  p ← start; '(n, r) ← preprocess_constant_expression 64 p (l ++ [basic NEWLINE]);
  Ok (val_i (n_val n), map tk_token r).
Definition digit (c : Z) : token := number_token [c].

(** [0 | 0 | 1] is read up to the second operator, and false; the rest of the
    line is ignored. *)
Theorem or_does_not_chain :
  if_value [digit (ch "0"); basic OR; digit (ch "0"); basic OR; digit (ch "1")] = Ok (0, [OR; PREP_NUMBER; NEWLINE]).
Proof. vm_compute. reflexivity. Qed.

(** [1 == 2 == 0] is [1 == (2 == 0)]. *)
Theorem equality_from_the_right :
  if_value [digit (ch "1"); basic EQ; digit (ch "2"); basic EQ; digit (ch "0")] = Ok (0, [NEWLINE]).
Proof. vm_compute. reflexivity. Qed.

(** A hexadecimal constant that [intmax_t] represents is unsigned, so that
    [-1 < 0xFFFFFFFF] is false; and so is [!] of an unsigned operand. *)
Theorem if_constants_unsigned :
  if_value [basic MINUS; digit (ch "1"); basic LT; number_token (cstr "0xFFFFFFFF")] = Ok (0, [NEWLINE]) ∧
  if_value [basic MINUS; digit (ch "1"); basic LT; basic NOT; number_token (cstr "0u")] = Ok (0, [NEWLINE]).
Proof. split; vm_compute; reflexivity. Qed.

(** The shift [-1 >> 1u] is made on unsigned operands. *)
Theorem shift_takes_common_type :
  if_value [basic MINUS; digit (ch "1"); basic RSHIFT; number_token (cstr "1u")] = Ok (2 ^ 63 - 1, [NEWLINE]).
Proof. vm_compute. reflexivity. Qed.

(** A division by zero is an error where C does not evaluate it. *)
Theorem unevaluated_division :
  if_value [digit (ch "1"); basic LOGICAL_OR; digit (ch "1"); basic SLASH; digit (ch "0")] = Exit "Division by zero.".
Proof. vm_compute. reflexivity. Qed.

(** Directives from the start. *)
Definition obey_lines (ls : list (list token)) : outcome pp :=
  p ← start; run_directives 64 true 20 (λ _, None) ls p.

(** A macro named as a directive replaces the name in [#if]. *)
Theorem directive_name_expanded :
  obey_lines [directive_of (cstr "define") [set_leading_whitespace (basic IF) 1; digit (ch "0")];
    basic IF :: [digit (ch "1"); basic NEWLINE]] = Exit "Unsupported preprocessor directive.".
Proof. vm_compute. reflexivity. Qed.

(** A name that expands to itself, in an [#if]. *)
Theorem recursive_macro_in_if :
  obey_lines [directive_of (cstr "define") [ident (cstr "X"); set_leading_whitespace (ident (cstr "X")) 1];
    basic IF :: [ident (cstr "X"); basic NEWLINE]] = Exit "assertion failed".
Proof. vm_compute. reflexivity. Qed.

(** [#else] may follow [#else]. *)
Theorem else_after_else :
  (p ← obey_lines [basic IF :: [digit (ch "0"); basic NEWLINE]; [basic ELSE; basic NEWLINE]; [basic ELSE; basic NEWLINE]];
   Ok (branch_stack p)) = Ok [BRANCH_DISABLED].
Proof. vm_compute. reflexivity. Qed.

(** [#define f(a,) a]. *)
Theorem parameter_after_comma :
  (d ← preprocess_define [ident (cstr "f"); basic OPEN_PAREN; ident (cstr "a"); basic COMMA; basic CLOSE_PAREN;
     ident (cstr "a"); basic NEWLINE]; Ok (m_params d)) = Ok 1.
Proof. vm_compute. reflexivity. Qed.
