(* ===== verification/PreprocSpec.v ===== *)
(** * What the preprocessor gives the parser

    The tokens the parser reads are converted and adjacent string literals are
    one; a line without macros is passed on token by token; and behind the end of
    the input every demand is met.  Then what the code does in other cases than
    it should. *)

From stdpp Require Import base list gmap numbers strings.
From Stdlib Require Import ZArith Lia.
From S2P Require Import Prelude CType Floats Strings Hash HashProps Strtab Typetree Token Lexer LexerProps Input Macro MacroProps Immediate Directive Preproc PpQueue DirectiveSpec Symtab.

Local Open Scope Z_scope.

(** ** A line of text *)

(** A token of a line that is passed on as it is: no end, no operator
    [_Pragma] and no name of a macro. *)
Definition text_word (M : gmap (list Z) macro) (t : token) : Prop :=
  is_tok END t = false ∧ is_tok NEWLINE t = false ∧
  tok_eq t ident__Pragma = Ok false ∧
  (is_expandable t = true → ∃ s b, tk_d t = D_string s ∧ wf_string s ∧ M !! str_raw s = None ∧ tok_eq t ident__defined = Ok b).

Section text.
Context `{FA : FloatArith} (bits : Z) (c99 : bool) (depth fuel : nat) (fopen : list Z → option (list Z)).
Context (M : gmap (list Z) macro).

Lemma macros_ok_macros p q : pp_macros q = pp_macros p → macros_ok p M → macros_ok q M.
Proof.
  intros H (tab & m & [H1 H2 H3 H4 H5]). exists tab, m. split; rewrite ?H; done.
Qed.

(** The state behind a line, of which the tokenizer left [lx]. *)
Definition behind (p : pp) (lx : lexer) : pp := set_line (set_lexer p lx) None.

Lemma read_text_word p line t : macros_ok p M → text_word M t →
  read_line_token c99 fuel p line t false true = Ok (p, line ++ [t], 0).
Proof.
  intros Hp (_ & _ & Hpr & Hx). unfold read_line_token. cbn [andb]. destruct (is_expandable t); [|done].
  destruct (Hx eq_refl) as (s & b & Hs & Hw & HM & Hd). rewrite Hd. cbn [mbind outcome_bind andb].
  rewrite Hpr. cbn [mbind outcome_bind]. unfold tok_string. rewrite Hs. cbn [mbind outcome_bind].
  by rewrite (undefined_name p M).
Qed.

(** The tokens up to the end of the line are collected. *)
Lemma read_text n k p l lx ts acc : macros_ok p M → line_buffer p = Some l →
  tokenize_line k c99 (pp_lexer p) l = Ok (lx, ts) → Forall (text_word M) ts → (length ts ≤ n)%nat →
  ('(q, t) ← get_token c99 fuel p; complete_line_loop c99 fuel n q acc t false true 0) =
    Ok (behind p lx, acc ++ ts ++ [basic NEWLINE], 0).
Proof.
  revert k p l ts acc. induction n as [|n IH]; intros k p l ts acc Hp Hl Ht Hts Hn;
    unfold get_token; rewrite Hl; unfold get_token_of_line, pp_tokenize;
    (destruct k as [|k]; cbn [tokenize_line] in Ht);
    apply bind_ok_inv in Ht as ([[lx1 t] r] & H1 & Ht); rewrite H1; cbn [mbind outcome_bind];
    (destruct (is_tok END t) eqn:He; [injection Ht as -> <-; done|]); try done.
  - apply bind_ok_inv in Ht as ([lx2 us] & _ & Ht). injection Ht as <- <-. cbn in Hn. lia.
  - apply bind_ok_inv in Ht as ([lx2 us] & Ht & E). injection E as -> <-.
    apply Forall_cons in Hts as [Hw Hts]. destruct (Hw) as (_ & Hnl & _). cbn [mbind outcome_bind complete_line_loop].
    rewrite Hnl, He. cbn [c_assert negb mbind outcome_bind].
    assert (macros_ok (set_line (set_lexer p lx1) (Some r)) M) as Hp1 by (by eapply macros_ok_macros; [|exact Hp]).
    rewrite read_text_word by done. cbn [mbind outcome_bind]. rewrite Z.add_0_r.
    rewrite (IH k _ r us) by (done || cbn in Hn; lia). by rewrite <-!app_assoc.
Qed.

Lemma queue_text k p ts pre : output_preprocessed p = false → Forall (text_word M) ts → (S (length ts) ≤ k)%nat →
  queue_line bits c99 k p (pre ++ ts ++ [basic NEWLINE]) (length pre) = add_tokens bits p ts.
Proof.
  revert k p pre. induction ts as [|t ts IH]; intros k p pre Ho Hts Hk; (destruct k as [|k]; [cbn in Hk; lia|]).
  - cbn [queue_line app]. rewrite lookup_app_r, Nat.sub_diag by done. cbn [lookup list_lookup].
    change (tok_eq (basic NEWLINE) ident__Pragma) with (Ok false : outcome bool). cbn [mbind outcome_bind].
    rewrite Ho. change (is_tok NEWLINE (basic NEWLINE)) with true. cbn [negb orb].
    destruct k; cbn [queue_line]; by rewrite lookup_ge_None_2 by (rewrite length_app; cbn; lia).
  - apply Forall_cons in Hts as [(_ & Hnl & Hpr & _) Hts]. cbn [queue_line app].
    rewrite lookup_app_r, Nat.sub_diag by done. cbn [lookup list_lookup]. rewrite Hpr, Hnl. cbn [mbind outcome_bind negb orb].
    cbn [add_tokens]. destruct (add_to_lookahead bits p t) as [q|e|e] eqn:Ha; [|done|done]. cbn [mbind outcome_bind].
    assert (output_preprocessed q = false) as Hq.
    { unfold add_to_lookahead in Ha. rewrite Ho in Ha. apply bind_ok_inv in Ha as ([p1 c] & Hc & Ha).
      apply (convert_token_keeps bits) in Hc. cbn in Hc. destruct Hc as [_ _ Hc]. rewrite Ho in Hc.
      destruct (last (lookahead p1)) as [x|]; [|by injection Ha as <-].
      destruct (is_tok STRING c && is_tok STRING x); [|by injection Ha as <-]. ok_inv. destruct a1 as [st s]. ok_inv. by subst q. }
    specialize (IH k q (pre ++ [t]) Hq Hts). rewrite length_app in IH. cbn [length] in IH, Hk.
    replace (S (length pre)) with (length pre + 1)%nat by lia. rewrite <-IH by lia. by rewrite <-app_assoc.
Qed.

(** The state in which the next line of the input, or what is left of the
    last, is [l]. *)
Definition at_line (p q : pp) (l : list Z) : Prop :=
  match line_buffer p with
  | Some l' => l' = l ∧ q = p
  | None => ∃ i, getprepline fuel (in_active_block p) (pp_input p) = Ok (i, Some l) ∧ q = set_line (set_input p i) (Some l)
  end.

Lemma get_token_at_line p q l : at_line p q l → get_token c99 fuel p = get_token c99 fuel q ∧ line_buffer q = Some l ∧
  pp_macros q = pp_macros p ∧ in_active_block q = in_active_block p ∧ output_preprocessed q = output_preprocessed p.
Proof.
  unfold at_line. intros H. unfold get_token. destruct (line_buffer p) as [l'|] eqn:Hl.
  - destruct H as [-> ->]. by rewrite Hl.
  - destruct H as (i & -> & ->). cbn [mbind outcome_bind line_buffer set_line]. split; [|done].
    unfold get_token_of_line, pp_tokenize. cbn [pp_lexer set_input set_line].
    by destruct (tokenize c99 (pp_lexer p) l) as [[[lx t] r]| |].
Qed.

Lemma first_token k p l lx ts : line_buffer p = Some l → tokenize_line k c99 (pp_lexer p) l = Ok (lx, ts) →
  ∃ q, get_token c99 fuel p = Ok (q, hd (basic NEWLINE) ts).
Proof.
  intros Hl Ht. unfold get_token, get_token_of_line, pp_tokenize. rewrite Hl. destruct k as [|k]; cbn [tokenize_line] in Ht;
    apply bind_ok_inv in Ht as ([[lx1 t] r] & -> & Ht); cbn [mbind outcome_bind];
    (destruct (is_tok END t); [injection Ht as -> <-; by eexists|]); [done|].
  apply bind_ok_inv in Ht as ([lx2 us] & _ & Ht). injection Ht as <- <-. by eexists.
Qed.
End text.

(** C28: a line of text in which no name is a macro is passed on: its tokens, as
    the tokenizer finds them and in their order, are added to the queue of the
    parser, and nothing else is; the line is used up. *)
Theorem text_line_queued `{FA : FloatArith} bits c99 depth fuel fopen M p q l k lx ts : macros_ok p M →
  in_active_block p = true → output_preprocessed p = false → at_line fuel p q l →
  tokenize_line k c99 (pp_lexer q) l = Ok (lx, ts) → Forall (text_word M) ts → is_tok HASH (hd (basic NEWLINE) ts) = false →
  (length ts ≤ fuel)%nat →
  preprocess_one bits c99 depth fuel fopen p = (p' ← add_tokens bits (behind q lx) ts; Ok (p', false)).
Proof.
  intros Hp Ha Ho Hq Ht Hts Hh Hn. destruct (get_token_at_line c99 fuel p q l Hq) as (Hg & Hl & Hm & Hb & Hout).
  rewrite <-Hb in Ha. rewrite <-Hout in Ho. apply (macros_ok_macros M p q Hm) in Hp.
  unfold preprocess_one. rewrite Hg. destruct (first_token c99 fuel k q l lx ts Hl Ht) as [q1 Hq1].
  pose proof (read_text c99 fuel M fuel k q l lx ts [] Hp Hl Ht Hts Hn) as Hr. rewrite Hq1 in *. cbn [mbind outcome_bind] in *.
  assert (is_tok END (hd (basic NEWLINE) ts) = false) as -> by by destruct Hts as [|t ts [He _] _].
  rewrite Hh. unfold preprocess_text_line, read_complete_line.
  pose proof (get_token_keeps c99 fuel q _ Hq1) as Hf. cbn in Hf. destruct Hf as [Hf _ _].
  assert (in_active_block q1 = true) as -> by (unfold in_active_block in *; by rewrite Hf).
  cbn [c_assert mbind outcome_bind]. rewrite Hr. cbn [mbind outcome_bind app].
  assert (expand_complete c99 depth fuel fuel (behind q lx) (ts ++ [basic NEWLINE]) 0 = Ok (behind q lx, ts ++ [basic NEWLINE]))
    as -> by by destruct fuel.
  cbn [mbind outcome_bind]. rewrite <-(queue_text bits c99 M (length (ts ++ [basic NEWLINE])) (behind q lx) ts []); [done|done|done|].
  rewrite length_app. cbn. lia.
Qed.

(** A state that reads the text [s], with no macros. *)
Definition text_start (s : list Z) : outcome pp :=
  p ← macro_reset pp_start; i ← push_file (pp_input p) s (SHORT_STRING_INIT (cstr "t.c")) 0 false; Ok (set_input p i).

Lemma macro_reset_macros p q : macro_reset p = Ok q → ∃ m, q = set_macros p m.
Proof.
  unfold macro_reset. destruct (mt_table (pp_macros p)); intros H; ok_inv; [|by eexists].
  destruct a as [tab ds]. ok_inv. by eexists.
Qed.

Lemma text_start_ok s : ∃ p, text_start s = Ok p ∧ macros_ok p ∅ ∧ pp_lexer p = lexer_start ∧
  push_file input_start s (SHORT_STRING_INIT (cstr "t.c")) 0 false = Ok (pp_input p) ∧
  branch_stack p = [] ∧ output_preprocessed p = false ∧ lookahead p = [] ∧ line_buffer p = None.
Proof.
  unfold text_start. destruct (macro_reset_spec pp_start eq_refl) as (q & Hr & Hq & Hlx & Hi).
  destruct (macro_reset_macros _ _ Hr) as [m ->]. rewrite Hr. cbn [mbind outcome_bind]. rewrite Hi.
  eexists. split; [done|]. split; [by eapply macros_ok_macros; [|exact Hq]|]. by split_and!.
Qed.

(** The tokens of a line, and whether nothing in it is a macro. *)
Definition words_of (l : list Z) : option (lexer * list token) :=
  match tokenize_line (length l) true lexer_start l with Ok r => Some r | _ => None end.

(** [x = "a" "b";] *)
Definition demo_text : list Z := cstr "x = " ++ [34] ++ cstr "a" ++ [34; 32; 34] ++ cstr "b" ++ [34] ++ cstr ";".
Definition demo_words : list token :=
  let string s := set_string (tok_of PREP_STRING 1) (SHORT_STRING_INIT s) in
  [ident (cstr "x"); set_leading_whitespace (basic ASSIGN) 1; string (cstr "a"); string (cstr "b"); basic SEMICOLON].

Lemma demo_text_words : ∃ lx, words_of demo_text = Some (lx, demo_words).
Proof.
  assert (H : snd <$> words_of demo_text = Some demo_words) by (vm_compute; reflexivity).
  destruct (words_of demo_text) as [[lx ts]|]; [|discriminate H]. exists lx. injection H as ->. reflexivity.
Qed.

Lemma demo_words_text : Forall (text_word ∅) demo_words.
Proof.
  unfold demo_words. repeat (apply Forall_cons_2; [split_and!; [reflexivity..|try (intros [=])]|]); [|apply Forall_nil_2].
  do 2 eexists. split; [reflexivity|]. split; [wf_name|]. split; [apply lookup_empty|reflexivity].
Qed.

Definition demo_file : outcome input := push_file input_start (demo_text ++ [10]) (SHORT_STRING_INIT (cstr "t.c")) 0 false.
Lemma demo_read : (i ← demo_file; r ← getprepline 9 true i; Ok (snd r)) = Ok (Some demo_text).
Proof. vm_compute. reflexivity. Qed.

Lemma demo_text_line i : demo_file = Ok i → ∃ j, getprepline 9 true i = Ok (j, Some demo_text).
Proof.
  intros Hi. pose proof demo_read as H. apply bind_ok_inv in H as (i' & Hi' & H). apply bind_ok_inv in H as ([j l] & H & E).
  rewrite Hi in Hi'. injection Hi' as <-. injection E as ->. by exists j.
Qed.

Lemma text_line_queued_witness :
  ∃ p q lx, text_start (demo_text ++ [10]) = Ok p ∧ at_line 9 p q demo_text ∧
    preprocess_one 64 true 1 9 (λ _, None) p = (p' ← add_tokens 64 (behind q lx) demo_words; Ok (p', false)).
Proof.
  destruct (text_start_ok (demo_text ++ [10])) as (p & Hs & Hp & Hlx & Hi & Hb & Ho & Hl & Hn).
  destruct (demo_text_line (pp_input p) Hi) as [i Hg]. destruct demo_text_words as [lx Hw].
  assert (Ha : in_active_block p = true) by (unfold in_active_block; by rewrite Hb).
  exists p, (set_line (set_input p i) (Some demo_text)), lx. split; [exact Hs|].
  assert (Hat : at_line 9 p (set_line (set_input p i) (Some demo_text)) demo_text).
  { unfold at_line. rewrite Hn, Ha. exists i. split; [exact Hg|reflexivity]. }
  split; [exact Hat|].
  apply (text_line_queued 64 true 1 9 (λ _, None) ∅ p _ demo_text (length demo_text) lx demo_words Hp Ha Ho Hat).
  - cbn [pp_lexer set_line set_input]. rewrite Hlx. unfold words_of in Hw.
    destruct (tokenize_line (length demo_text) true lexer_start demo_text) as [r| |]; [|discriminate Hw..]. by injection Hw as ->.
  - exact demo_words_text.
  - reflexivity.
  - vm_compute. lia.
Defined.

(** ** The stream of tokens *)

(** C14: whatever the parser asks for, the tokens it takes from the queue, in
    order, are no preprocessing tokens: numbers and characters have become
    numbers, strings are converted, and there is no end of a line among them; and
    a string literal is never followed by another, not even across lines and
    files: they were concatenated. *)
Theorem parser_stream_typed `{FA : FloatArith} bits c99 depth fuel fopen p ds p' ts :
  output_preprocessed p = false → lookahead p = [] → serve_all bits c99 depth fuel fopen p ds = Ok (p', ts) →
  Forall (λ t, raw_type (tk_token t) = false) ts ∧
  (∀ i, map tk_token ts !! i = Some STRING → map tk_token ts !! S i ≠ Some STRING).
Proof.
  intros Ho Hl H. apply (serve_all_stream bits c99 depth fuel fopen ds []) in H as (_ & Hq & _).
  - apply (queue_take (length (map tk_token ts))) in Hq. cbn [app] in Hq. rewrite take_app_length in Hq.
    destruct Hq as [Hf Hs]. split; [by apply Forall_map in Hf|exact Hs].
  - split; [done|]. rewrite Hl. split; [apply queue_nil|done].
Qed.

(** Reads [demo_text], split over two lines. *)
Definition demo_lines : list Z := cstr "x = " ++ [34] ++ cstr "a" ++ [34; 10; 34] ++ cstr "b" ++ [34] ++ cstr " 'c' 12;" ++ [10].
Definition demo_demands : list demand := [D_peekn 2; D_next; D_consume ASSIGN; D_next; D_next; D_next; D_next; D_next].

Lemma demo_served :
  (p ← text_start demo_lines; '(_, ts) ← serve_all 64 true 1 30 (λ _, None) p demo_demands; Ok (map tk_token ts)) =
    Ok [IDENTIFIER; ASSIGN; STRING; NUMBER; NUMBER; SEMICOLON; END].
Proof. vm_compute. reflexivity. Qed.

Lemma parser_stream_typed_witness :
  ∃ p p' ts, text_start demo_lines = Ok p ∧ serve_all 64 true 1 30 (λ _, None) p demo_demands = Ok (p', ts) ∧
    map tk_token ts = [IDENTIFIER; ASSIGN; STRING; NUMBER; NUMBER; SEMICOLON; END] ∧
    Forall (λ t, raw_type (tk_token t) = false) ts ∧
    (∀ i, map tk_token ts !! i = Some STRING → map tk_token ts !! S i ≠ Some STRING).
Proof.
  pose proof demo_served as H. destruct (text_start_ok demo_lines) as (p & Hs & _ & _ & _ & _ & Ho & Hl & _).
  rewrite Hs in H. apply bind_ok_inv in H as (q & Hq & H). injection Hq as <-.
  apply bind_ok_inv in H as ([p' ts] & Hserve & H). exists p, p', ts. split; [exact Hs|]. split; [exact Hserve|].
  split; [by injection H|]. exact (parser_stream_typed 64 true 1 30 (λ _, None) p demo_demands p' ts Ho Hl Hserve).
Defined.

(** ** The end of the input *)

Lemma ended_next `{FA : FloatArith} bits c99 depth fuel fopen p : output_preprocessed p = false → ended p → (0 < fuel)%nat →
  ∃ p' t, next bits c99 depth fuel fopen p = Ok (p', t) ∧ output_preprocessed p' = false ∧ ended p' ∧
    t = hd (basic END) (lookahead p) ∧ lookahead p' = drop 1 (lookahead p).
Proof.
  intros Ho He Hf. unfold next. destruct (lookahead p) as [|t l] eqn:Hl.
  - cbn [length Nat.ltb Nat.leb]. unfold preprocess_line. destruct fuel as [|k] eqn:Ek; [lia|].
    cbn [preprocess_lines]. rewrite <-Ek. rewrite ended_one by (done || lia). cbn [mbind outcome_bind orb].
    assert (set_input p (pp_input p) = p) as -> by by destruct p. rewrite add_ends by done. rewrite Hl.
    cbn. eexists _, _. by split_and!.
  - cbn [length Nat.ltb Nat.leb mbind outcome_bind]. rewrite Hl. eexists _, _. by split_and!.
Qed.

(** C39: at the end of the input the parser gets what is left on the queue, and
    then the token [END], as often as it asks: no call fails or waits for
    more. *)
Theorem end_of_input_served `{FA : FloatArith} bits c99 depth fuel fopen n p : output_preprocessed p = false → ended p →
  (0 < fuel)%nat → ∃ p', serve_all bits c99 depth fuel fopen p (replicate n D_next) =
    Ok (p', take n (lookahead p ++ replicate n (basic END))).
Proof.
  intros Ho He Hf. revert p Ho He. induction n as [|n IH]; intros p Ho He; [by exists p|].
  cbn [replicate serve_all serve]. destruct (ended_next bits c99 depth fuel fopen p Ho He Hf) as (p1 & t & -> & Ho1 & He1 & -> & Hl).
  cbn [mbind outcome_bind]. destruct (IH p1 Ho1 He1) as [p2 ->]. cbn [mbind outcome_bind]. exists p2. rewrite Hl.
  destruct (lookahead p) as [|x l]; [done|]. cbn [drop app hd take].
  change (basic END :: replicate n (basic END)) with (replicate (S n) (basic END)). rewrite replicate_S_end, app_assoc.
  by rewrite (take_app_le (l ++ replicate n _)) by (rewrite length_app, length_replicate; lia).
Qed.

Lemma end_of_input_served_witness :
  ended pp_start ∧ ∃ p, serve_all 64 true 1 1 (λ _, None) pp_start (replicate 3 D_next) =
    Ok (p, [basic END; basic END; basic END]).
Proof.
  split; [split; reflexivity|].
  exact (end_of_input_served 64 true 1 1 (λ _, None) 3 pp_start eq_refl (conj eq_refl eq_refl) (Nat.lt_0_succ 0)).
Defined.

(** * Texts that are read otherwise than in C

    Each theorem runs the preprocessor on a small file.  [fopen] finds no other
    file; the fuel is more than the number of tokens, the depth more than that of
    the expansions. *)

Definition spelled_token (t : token) : list Z :=
  match tk_d t with D_string s => str_raw s | D_val v => print_d v end.

Fixpoint read_all (n : nat) (p : pp) : outcome (pp * list (list Z)) :=
  match n with
  | O => Undef "not enough fuel"
  | S n =>
    '(p, t) ← next 64 true 20 100 (λ _, None) p;
    if is_tok END t then Ok (p, []) else '(p, l) ← read_all n p; Ok (p, spelled_token t :: l)
  end.

Fixpoint text_of (ls : list (list Z)) : list Z := match ls with [] => [] | l :: ls => l ++ 10 :: text_of ls end.

(** The spelling of the tokens that the parser is given for a text, and the
    calls made by its pragmas. *)
Definition tokens_read (ls : list (list Z)) : outcome (list (list Z)) :=
  p ← text_start (text_of ls); '(_, l) ← read_all 50 p; Ok l.
Definition pragmas_read (ls : list (list Z)) : outcome (list pragma_call) :=
  p ← text_start (text_of ls); '(p, _) ← read_all 50 p; Ok (pragma_calls p).

(** ** Function-like macros at the end of a line *)

(** Behind the name of a function-like macro at the end of a line, a directive
    is read as text. *)
Theorem name_at_end_takes_directive :
  tokens_read [cstr "#define f(x) x"; cstr "f"; cstr "#define Y 1"; cstr "Y"] =
    Ok [cstr "f"; cstr "#"; cstr "define"; cstr "Y"; cstr "1"; cstr "Y"].
Proof. vm_compute. reflexivity. Qed.

(** Arguments on the next line are not found, though the name is looked for. *)
Theorem arguments_on_next_line :
  tokens_read [cstr "#define f(x) x"; cstr "f"; cstr "(1)"] = Ok [cstr "f"; cstr "("; cstr "1"; cstr ")"].
Proof. vm_compute. reflexivity. Qed.

(** A file may not end with such a name. *)
Theorem name_at_end_of_file : tokens_read [cstr "#define f(x) x"; cstr "f"] = Exit "assertion failed".
Proof. vm_compute. reflexivity. Qed.

(** ** Arguments and operators *)

(** One argument too many, if it is empty. *)
Theorem extra_empty_argument : tokens_read [cstr "#define f(x) [x]"; cstr "f(1,)"] = Ok [cstr "["; cstr "1"; cstr "]"].
Proof. vm_compute. reflexivity. Qed.

(** Two empty arguments pasted at the beginning of a replacement list: the
    token in front of the list is read. *)
Theorem empty_arguments_pasted :
  tokens_read [cstr "#define h(x,y,z) x ## y ## z"; cstr "h(,,c)"] = Undef "last of an empty array".
Proof. vm_compute. reflexivity. Qed.

(** A replacement list of two tokens that ends in [##] is not diagnosed. *)
Theorem paste_at_end_of_two :
  tokens_read [cstr "#define a b ##"; cstr "a"] = Undef "past the end of the token array" ∧
  tokens_read [cstr "#define a b c ##"; cstr "a"] = Exit "Unexpected '##' operator at end of line.".
Proof. split; vm_compute; reflexivity. Qed.

(** A pasted string loses its quotes. *)
Theorem string_pasted :
  tokens_read [cstr "#define s a ## " ++ [34] ++ cstr "b" ++ [34]; cstr "s"] = Ok [cstr "ab"].
Proof. vm_compute. reflexivity. Qed.

(** The buffer of [stringify] has no room for the quotes of short strings. *)
Theorem stringify_overruns :
  let q := [34] in
  tokens_read [cstr "#define s(x) #x"; cstr "s(" ++ q ++ [92; 34; 92; 34] ++ q ++ cstr ")"] =
    Undef "past the end of the buffer".
Proof. vm_compute. reflexivity. Qed.

(** ** Pragmas *)

(** The text of a longer [_Pragma] is still there behind that of a shorter
    one. *)
Theorem pragma_text_left :
  let q := [34] in let pragma s := cstr "_Pragma(" ++ q ++ s ++ q ++ cstr ")" in
  pragmas_read [pragma (cstr "import " ++ [92; 34] ++ cstr "abcdefgh" ++ [92; 34]);
    pragma (cstr "lib " ++ [92; 34] ++ cstr "x" ++ [92; 34])] =
    Ok [Import_module (cstr "abcdefgh"); Ref_module (cstr "x"); Ref_module (cstr "abcdefgh")].
Proof. vm_compute. reflexivity. Qed.

(** The name of a directive in a group that is skipped is expanded too. *)
Theorem skipped_if_expanded :
  tokens_read [cstr "#define if 1"; cstr "#ifdef X"; cstr "#if 1"; cstr "a"; cstr "#endif"; cstr "b"; cstr "#endif"] =
    Exit "Unmatched #endif directive.".
Proof. vm_compute. reflexivity. Qed.
