(* ===== verification/Cfg.v ===== *)
(** * Flow graphs under construction (src/parser/parse.c)

    The parser builds one [definition] at a time out of blocks that are
    reused when a definition is done with.  Pointers to definitions and blocks
    are numbers in stores; [NULL] is [None].  The functions of the parser are
    computations on this state that may fail. *)

From stdpp Require Import base list gmap numbers strings.
From Stdlib Require Import ZArith Lia.
From S2P Require Import Prelude CType Strings Symbol Typetree Symtab Ir.

Local Open Scope Z_scope.

Definition defref : Set := N.

(** [struct definition]. *)
Record definition : Set := Define {
  d_symbol : option symref;
  d_body : option bref;
  d_params : list symref;
  d_locals : list symref;
  d_labels : list symref;
  d_nodes : list bref
}.

(** The symbols and types, the stores of definitions and blocks, and the
    static lists of parse.c: blocks free to use, blocks without a definition,
    recycled definitions, and the definitions ready for the back end. *)
Record parser : Type := Parser {
  ps_tab : symtab;
  ps_defs : gmap defref definition;
  ps_blocks : blocks;
  ps_free : list bref;
  ps_expressions : list bref;
  ps_prototypes : list defref;
  ps_definitions : list defref
}.

Definition ps_set_tab (x : symtab) (p : parser) : parser :=
  Parser x (ps_defs p) (ps_blocks p) (ps_free p) (ps_expressions p) (ps_prototypes p) (ps_definitions p).
Definition ps_set_def (d : defref) (x : definition) (p : parser) : parser :=
  Parser (ps_tab p) (<[d := x]> (ps_defs p)) (ps_blocks p) (ps_free p) (ps_expressions p) (ps_prototypes p)
    (ps_definitions p).
Definition ps_set_block (b : bref) (x : block) (p : parser) : parser :=
  Parser (ps_tab p) (ps_defs p) (<[b := x]> (ps_blocks p)) (ps_free p) (ps_expressions p) (ps_prototypes p)
    (ps_definitions p).
Definition ps_set_free (x : list bref) (p : parser) : parser :=
  Parser (ps_tab p) (ps_defs p) (ps_blocks p) x (ps_expressions p) (ps_prototypes p) (ps_definitions p).
Definition ps_set_expressions (x : list bref) (p : parser) : parser :=
  Parser (ps_tab p) (ps_defs p) (ps_blocks p) (ps_free p) x (ps_prototypes p) (ps_definitions p).
Definition ps_set_prototypes (x : list defref) (p : parser) : parser :=
  Parser (ps_tab p) (ps_defs p) (ps_blocks p) (ps_free p) (ps_expressions p) x (ps_definitions p).
Definition ps_set_definitions (x : list defref) (p : parser) : parser :=
  Parser (ps_tab p) (ps_defs p) (ps_blocks p) (ps_free p) (ps_expressions p) (ps_prototypes p) x.

(** ** Computations of the parser *)

Definition E (A : Type) : Type := parser → outcome (parser * A).
#[export] Instance E_ret : MRet E := λ A a p, Ok (p, a).
#[export] Instance E_bind : MBind E := λ A B f m p, '(p, a) ← m p; f a p.

Definition lift {A} (m : outcome A) : E A := λ p, a ← m; Ok (p, a).
(** [error(...); exit(1)]. *)
Definition fail {A} (msg : string) : E A := λ _, Exit msg.
Definition assert (b : bool) : E unit := lift (c_assert b).
Definition update (f : parser → parser) : E unit := λ p, Ok (f p, tt).
(** Reading and changing the table of types and the symbols. *)
Definition on_types {A} (f : typetab → outcome A) : E A := λ p, a ← f (sb_types (ps_tab p)); Ok (p, a).
Definition new_type {A} (f : typetab → outcome (typetab * A)) : E A := λ p,
  '(ts, a) ← f (sb_types (ps_tab p)); Ok (ps_set_tab (set_types ts (ps_tab p)) p, a).
Definition on_symbols {A} (f : symtab → outcome (symtab * A)) : E A := λ p,
  '(s, a) ← f (ps_tab p); Ok (ps_set_tab s p, a).
(** [*sym], [*def] and [*block]. *)
Definition the_symbol (s : option symref) : E symbol := λ p,
  y ← (match s with Some s => get_sym (ps_tab p) s | None => Undef "null symbol" end); Ok (p, y).
Definition the_def (d : option defref) : E definition := λ p,
  x ← (match d with Some d => defined "no definition" (ps_defs p !! d) | None => Undef "null definition" end);
  Ok (p, x).
Definition the_block (b : option bref) : E block := λ p,
  x ← (match b with Some b => get_block (ps_blocks p) b | None => Undef "null block" end); Ok (p, x).

Definition change_def (d : option defref) (f : definition → definition) : E unit :=
  x ← the_def d; match d with Some d => update (ps_set_def d (f x)) | None => mret tt end.
Definition change_block (b : option bref) (f : block → block) : E unit :=
  x ← the_block b; match b with Some b => update (ps_set_block b (f x)) | None => mret tt end.

(** ** Values that are all zero *)

Definition var_zero : var := Var DIRECT type_zero None 0 0 0 false 0.
Definition expression_zero : expression := Expression IR_OP_CAST type_zero var_zero var_zero.
Definition block_zero : block :=
  Block None [] expression_zero None None false var_zero [] None false false WHITE 0 0.
Definition definition_zero : definition := Define None None [] [] [] [].

(** ** The functions of parse.c *)

(** [recycle_block]; the jump table, [table_offset] and the liveness stay. *)
Definition recycle_block (r : bref) : E unit :=
  _ ← change_block (Some r) (λ b,
    Block None [] expression_zero None None false (b_table_offset b) (b_jump_table b) None false false WHITE
      (b_in b) (b_out b));
  update (λ p, ps_set_free (ps_free p ++ [r]) p).

Definition discard_symbol (r : symref) : E unit := update (λ p, ps_set_tab (sym_discard (ps_tab p) r) p).

(** A loop over a list. *)
Fixpoint each {A} (f : A → E unit) (l : list A) : E unit :=
  match l with [] => mret tt | a :: l => _ ← f a; each f l end.

Definition cfg_empty (d : defref) : E unit :=
  x ← the_def (Some d);
  _ ← each (λ r, y ← the_symbol (Some r); if is_temporary y then discard_symbol r else mret tt) (d_locals x);
  _ ← each discard_symbol (d_labels x);
  _ ← each recycle_block (d_nodes x);
  change_def (Some d) (λ x, Define (d_symbol x) (d_body x) [] [] [] []).

Definition add_label (r : symref) (x : definition) : definition :=
  Define (d_symbol x) (d_body x) (d_params x) (d_locals x) (d_labels x ++ [r]) (d_nodes x).
Definition add_node (r : bref) (x : definition) : definition :=
  Define (d_symbol x) (d_body x) (d_params x) (d_locals x) (d_labels x) (d_nodes x ++ [r]).
Definition add_local (r : symref) (x : definition) : definition :=
  Define (d_symbol x) (d_body x) (d_params x) (d_locals x ++ [r]) (d_labels x) (d_nodes x).
Definition set_body (r : bref) (x : definition) : definition :=
  Define (d_symbol x) (Some r) (d_params x) (d_locals x) (d_labels x) (d_nodes x).
Definition set_symbol (s : option symref) (x : definition) : definition :=
  Define s (d_body x) (d_params x) (d_locals x) (d_labels x) (d_nodes x).
Definition set_label (r : symref) (b : block) : block :=
  Block (Some r) (b_code b) (b_expr b) (b_jump0 b) (b_jump1 b) (b_has_jump_table b) (b_table_offset b)
    (b_jump_table b) (b_body b) (b_has_return_value b) (b_has_init_value b) (b_color b) (b_in b) (b_out b).

Definition create_label (d : option defref) : E symref :=
  r ← on_symbols sym_create_label;
  _ ← change_def d (add_label r);
  mret r.

(** The block [cfg_block_init] takes: a free one, or one from [calloc]. *)
Definition take_block : E bref := λ p,
  match last (ps_free p) with
  | Some r => Ok (ps_set_free (removelast (ps_free p)) p, r)
  | None => let r := fresh (dom (ps_blocks p)) in Ok (ps_set_block r block_zero p, r)
  end.

Definition cfg_block_init (d : option defref) : E bref :=
  r ← take_block;
  _ ← (match d with
       | Some _ =>
         l ← create_label d;
         _ ← change_block (Some r) (set_label l);
         change_def d (add_node r)
       | None => update (λ p, ps_set_expressions (ps_expressions p ++ [r]) p)
       end);
  mret r.

(** [calloc] of a definition. *)
Definition new_definition : E defref := λ p,
  let d := fresh (dom (ps_defs p)) in Ok (ps_set_def d definition_zero p, d).

Definition cfg_init : E defref := λ p,
  match last (ps_prototypes p) with
  | None => (d ← new_definition; b ← cfg_block_init (Some d); _ ← change_def (Some d) (set_body b); mret d) p
  | Some d =>
    (_ ← cfg_empty d;
     x ← the_def (Some d);
     _ ← assert (bool_decide (d_symbol x = None));
     b ← cfg_block_init (Some d);
     _ ← change_def (Some d) (set_body b);
     mret d) (ps_set_prototypes (removelast (ps_prototypes p)) p)
  end.

Definition cfg_discard (d : defref) : E unit :=
  _ ← change_def (Some d) (set_symbol None);
  _ ← cfg_empty d;
  update (λ p, ps_set_prototypes (ps_prototypes p ++ [d]) p).

Definition cfg_define (d : defref) (s : symref) : E unit :=
  y ← the_symbol (Some s);
  _ ← assert (bool_decide (sym_symtype y = SYM_DEFINITION));
  x ← the_def (Some d);
  _ ← assert (bool_decide (d_symbol x = None));
  _ ← change_def (Some d) (set_symbol (Some s));
  update (λ p, ps_set_definitions (ps_definitions p ++ [d]) p).
