(* ===== verification/Eval.v ===== *)
(** * Evaluation of expressions (src/parser/eval.c)

    From operands to three-address code: an operation on constants is computed
    at once, any other becomes an expression, and [eval] commits an expression
    to a fresh temporary by a statement at the end of the current block.

    A pointer to a definition or block may be [NULL] ([None]); with no block
    nothing is emitted.  Warnings are left out, but not the conditions they
    depend on. *)

From stdpp Require Import base list gmap numbers strings.
From Stdlib Require Import ZArith Lia.
From S2P Require Import Prelude CType Floats CArith Strings Symbol Typetree Symtab Immediate Ir Cfg.

Local Open Scope Z_scope.

(** ** Assignments to the members of a [struct var] or expression *)

Definition v_set_kind (k : var_kind) (v : var) : var :=
  Var k (v_type v) (v_symbol v) (v_offset v) (v_field_width v) (v_field_offset v) (v_lvalue v) (v_imm v).
Definition v_set_type (t : ctype) (v : var) : var :=
  Var (v_kind v) t (v_symbol v) (v_offset v) (v_field_width v) (v_field_offset v) (v_lvalue v) (v_imm v).
Definition v_set_offset (o : Z) (v : var) : var :=
  Var (v_kind v) (v_type v) (v_symbol v) o (v_field_width v) (v_field_offset v) (v_lvalue v) (v_imm v).
Definition v_set_lvalue (l : bool) (v : var) : var :=
  Var (v_kind v) (v_type v) (v_symbol v) (v_offset v) (v_field_width v) (v_field_offset v) l (v_imm v).
Definition v_set_imm (i : Z) (v : var) : var :=
  Var (v_kind v) (v_type v) (v_symbol v) (v_offset v) (v_field_width v) (v_field_offset v) (v_lvalue v) i.
Definition ex_set_type (t : ctype) (e : expression) : expression :=
  Expression (ex_op e) t (ex_l e) (ex_r e).
Definition ex_set_l (l : var) (e : expression) : expression :=
  Expression (ex_op e) (ex_type e) l (ex_r e).
Definition set_expr (e : expression) (b : block) : block :=
  Block (b_label b) (b_code b) e (b_jump0 b) (b_jump1 b) (b_has_jump_table b) (b_table_offset b)
    (b_jump_table b) (b_body b) (b_has_return_value b) (b_has_init_value b) (b_color b) (b_in b) (b_out b).
Definition set_has_return_value (b : block) : block :=
  Block (b_label b) (b_code b) (b_expr b) (b_jump0 b) (b_jump1 b) (b_has_jump_table b) (b_table_offset b)
    (b_jump_table b) (b_body b) true (b_has_init_value b) (b_color b) (b_in b) (b_out b).

(** ** Operands *)

Definition var_void : var := Var IMMEDIATE basic_type__void None 0 0 0 false 0.
Definition var_numeric (t : ctype) (val : Z) : var := Var IMMEDIATE t None 0 0 0 false val.
(** [var_int]: the union is all zero but for [imm.i]. *)
Definition var_int (value : Z) : var := var_numeric basic_type__int (wrap_u 64 value).

(** [as_expr]; its assertion compares a type with itself. *)
Definition as_expr (v : var) : expression := Expression IR_OP_CAST (v_type v) v var_zero.

Definition is_comparison (e : expression) : bool :=
  match ex_op e with IR_OP_EQ | IR_OP_NE | IR_OP_GE | IR_OP_GT => true | _ => false end.

Definition imm_signed (t : ctype) (n : Z) : outcome var :=
  _ ← c_assert (is_signed t);
  Ok (var_numeric t (wrap_u 64 n)).

Definition imm_unsigned (t : ctype) (n : Z) : outcome var :=
  _ ← c_assert (is_unsigned t);
  size ← size_of 1 [] t;
  if size <? 8 then
    _ ← c_assert ((size =? 4) || (size =? 2) || (size =? 1));
    Ok (var_numeric t (Z.land (wrap_u 64 n) (Z.shiftr (2 ^ 32 - 1) ((4 - size) * 8))))
  else Ok (var_numeric t (wrap_u 64 n)).

Definition imm_float (n : Z) : var := var_numeric basic_type__float (wrap_u 32 n).
Definition imm_double (n : Z) : var := var_numeric basic_type__double (wrap_u 64 n).
Definition imm_long_double (n : Z) : var := var_numeric basic_type__long_double (wrap_u 64 n).

(** The operators [eval_integer_immediate] is used with. *)
Inductive int_op : Set := OMod | OBit (o : bitop) | OShl | OShr.
Definition apply_int_op (o : int_op) (t : ity) (a b : Z) : outcome Z :=
  match o with
  | OMod => c_binop IMod t a b
  | OBit o => c_binop (IBit o) t a b
  | OShl => c_shl t a b
  | OShr => c_shr t a b
  end.

Definition eval_integer_immediate (t : ctype) (l : var) (o : int_op) (r : var) : outcome var :=
  if is_signed t then n ← apply_int_op o I64 (val_i (v_imm l)) (val_i (v_imm r)); imm_signed t n
  else n ← apply_int_op o U64 (val_u (v_imm l)) (val_u (v_imm r)); imm_unsigned t n.

(** The variable arguments of [create_expr] and [eval_expr]. *)
Inductive operand : Set := NoOperand | OperandType (t : ctype) | OperandVar (v : var).
Definition arg_type (a : operand) : E ctype :=
  match a with OperandType t => mret t | _ => lift (Undef "missing argument") end.
Definition arg_var (a : operand) : E var :=
  match a with OperandVar v => mret v | _ => lift (Undef "missing argument") end.

(** The symbol behind a variable, when there is one, is a string. *)
Definition is_string_symbol (s : option symref) : E bool :=
  match s with
  | None => mret false
  | Some _ => y ← the_symbol s; mret (bool_decide (sym_symtype y = SYM_STRING_VALUE))
  end.
Definition is_string (v : var) : E bool :=
  if bool_decide (v_kind v = IMMEDIATE) then is_string_symbol (v_symbol v) else mret false.

(** A direct reference to a symbol, or the constant it stands for. *)
Definition var_direct (s : option symref) : E var :=
  y ← the_symbol s;
  let v := Var DIRECT (sym_type y) s 0 0 0 false 0 in
  match sym_symtype y with
  | SYM_CONSTANT =>
    match sym_value y with
    | ConstantValue c => mret (v_set_imm c (v_set_kind IMMEDIATE v))
    | _ => lift (Undef "inactive member of a union")
    end
  | SYM_STRING_VALUE | SYM_TABLE => mret (v_set_kind IMMEDIATE v)
  | SYM_LABEL => fail "assertion failed"
  | _ => mret (v_set_lvalue (negb (is_temporary y)) v)
  end.

Definition create_var (def : option defref) (t : ctype) : E var :=
  _ ← assert (bool_decide (def ≠ None));
  _ ← assert (negb (is_void t));
  tmp ← on_symbols (λ s, sym_create_temporary s t);
  res ← var_direct (Some tmp);
  _ ← change_def def (add_local tmp);
  mret (v_set_lvalue true res).

(** ** Emission *)

(** [emit_ir]: appends to the block, if there is one. *)
Definition emit_ir (block : option bref) (st : sttype) (t : var) (e : expression) : E unit :=
  match block with
  | None => mret tt
  | Some _ => change_block block (λ b, set_code b (b_code b ++ [Statement st 0 t e]))
  end.

Section eval.
Context `{FA : FloatArith} (depth : nat).

Definition size_of_type (t : ctype) : E Z := on_types (λ ts, size_of depth ts t).
Definition same_type (a b : ctype) : E bool := on_types (λ ts, type_equal depth ts a b).
Definition deref_type (t : ctype) : E ctype := on_types (λ ts, type_deref ts t).
Definition next_type (t : ctype) : E ctype := on_types (λ ts, type_next ts t).
Definition vla_type (t : ctype) : E bool := on_types (λ ts, is_vla depth ts t).
Definition compatible (a b : ctype) : E bool := on_types (λ ts, is_compatible_unqualified depth ts a b).
Definition pointer_to (t : ctype) : E ctype := new_type (λ ts, type_create_pointer ts t).

Definition identity (e : expression) : E bool := on_types (λ ts, is_identity depth ts e).
Definition is_immediate (e : expression) : E bool :=
  i ← identity e; mret (i && bool_decide (v_kind (ex_l e) = IMMEDIATE)).
Definition is_immediate_true (e : expression) : E bool :=
  i ← is_immediate e;
  if i : bool then z ← lift (is_zero_value (v_imm (ex_l e)) (ex_type e)); mret (negb z) else mret false.
Definition is_immediate_false (e : expression) : E bool :=
  i ← is_immediate e;
  if i : bool then lift (is_zero_value (v_imm (ex_l e)) (ex_type e)) else mret false.
Definition is_nullptr (v : var) : E bool :=
  if is_integer (v_type v) || is_pointer (v_type v) then is_immediate_false (as_expr v) else mret false.

Definition eval_arithmetic_immediate (t : ctype) (l : var) (o : arith) (r : var) : outcome var :=
  if is_signed t then n ← c_arith o I64 (val_i (v_imm l)) (val_i (v_imm r)); imm_signed t n
  else if is_unsigned t || is_pointer t then
    n ← c_arith o U64 (val_u (v_imm l)) (val_u (v_imm r)); imm_unsigned t n
  else if is_float t then Ok (imm_float (fop F32 o (val_f (v_imm l)) (val_f (v_imm r))))
  else if is_double t then Ok (imm_double (fop F64 o (val_u (v_imm l)) (val_u (v_imm r))))
  else Ok (imm_long_double (fop F64 o (val_u (v_imm l)) (val_u (v_imm r)))).

Definition eval_immediate_compare (t : ctype) (l : var) (o : cmpop) (r : var) : var :=
  var_int (Z.b2z
    (if is_signed t then z_cmp o (val_i (v_imm l)) (val_i (v_imm r))
     else if is_unsigned t || is_pointer t then z_cmp o (val_u (v_imm l)) (val_u (v_imm r))
     else if is_float t then fcmp F32 o (val_f (v_imm l)) (val_f (v_imm r))
     else fcmp F64 o (val_u (v_imm l)) (val_u (v_imm r)))).

(** [create_expr]; the second operand of a unary operation is not set. *)
Definition create_expr (op : optype) (l : var) (a : operand) : E expression :=
  match op with
  | IR_OP_CAST | IR_OP_VA_ARG => t ← arg_type a; mret (Expression op t l var_zero)
  | IR_OP_CALL =>
    _ ← assert (is_pointer (v_type l));
    f ← next_type (v_type l);
    _ ← assert (is_function f);
    t ← next_type f;
    mret (Expression op t l var_zero)
  | IR_OP_NOT => _ ← assert (is_integer (v_type l)); mret (Expression op (v_type l) l var_zero)
  | IR_OP_NEG => mret (Expression op (v_type l) l var_zero)
  | IR_OP_ADD | IR_OP_SUB | IR_OP_MUL | IR_OP_DIV | IR_OP_MOD =>
    r ← arg_var a; mret (Expression op (v_type l) l r)
  | IR_OP_AND | IR_OP_OR | IR_OP_XOR | IR_OP_SHL | IR_OP_SHR =>
    r ← arg_var a;
    _ ← assert (is_integer (v_type l));
    mret (Expression op (v_type l) l r)
  | IR_OP_EQ | IR_OP_NE | IR_OP_GE | IR_OP_GT => r ← arg_var a; mret (Expression op basic_type__int l r)
  end.

Definition eval_expression_statement (def : option defref) (block : option bref) (e : expression) : E expression :=
  _ ← (if has_side_effects e then
         if negb (is_struct_or_union (ex_type e)) then emit_ir block IR_EXPR var_void e
         else res ← create_var def (ex_type e); emit_ir block IR_ASSIGN res e
       else mret tt);
  mret (as_expr var_void).

Definition eval (def : option defref) (block : option bref) (e : expression) : E var :=
  i ← identity e;
  if i : bool then mret (ex_l e)
  else if is_void (ex_type e) then _ ← emit_ir block IR_EXPR var_void e; mret var_void
  else
    res ← create_var def (ex_type e);
    _ ← emit_ir block IR_ASSIGN res e;
    mret (v_set_lvalue false res).

Definition cast_immediate_var (v : var) (t : ctype) : E expression :=
  s ← is_string_symbol (v_symbol v);
  if s : bool then mret (as_expr (v_set_type t v))
  else
    _ ← assert (v_offset v =? 0);
    n ← lift (convert (v_imm v) (v_type v) t);
    mret (as_expr (var_numeric t n)).

Definition cast_of (v : var) (t : ctype) : E expression :=
  if bool_decide (v_kind v = IMMEDIATE) then cast_immediate_var v t
  else
    n ← size_of_type (v_type v);
    m ← size_of_type t;
    if (n =? m) && (is_pointer (v_type v) || is_pointer t) then mret (as_expr (v_set_type t v))
    else
      same ← same_type (v_type v) t;
      if negb same then create_expr IR_OP_CAST v (OperandType t) else mret (as_expr v).

Definition cast (v : var) (t : ctype) : E expression :=
  if is_void t then mret (as_expr var_void)
  else if negb (is_scalar (v_type v)) || negb (is_scalar t) then
    fail "Invalid type parameters to cast expression."
  else
    e ← cast_of v t;
    same ← same_type (ex_type e) t;
    _ ← assert same;
    mret e.

(** ** The operators

    The functions of eval.c call each other; [knot] are the calls that close
    a cycle, tied by [evaluator] below. *)

Record knot : Type := Knot {
  k_eval_expr : option defref → option bref → optype → var → operand → E expression;
  k_rvalue : option defref → option bref → var → E var;
  k_eval_vla_size : option defref → option bref → ctype → E expression
}.

Section operators.
Context (k : knot) (def : option defref) (block : option bref).

Definition eval_cast (v : var) (t : ctype) : E var :=
  e ← k_eval_expr k def block IR_OP_CAST v (OperandType t); eval def block e.

(** [v.kind == IMMEDIATE] for both operands. *)
Definition both_immediate (l r : var) : bool :=
  bool_decide (v_kind l = IMMEDIATE) && bool_decide (v_kind r = IMMEDIATE).

Definition arithmetic_or (op : optype) (o : arith) (t : ctype) (l r : var) : E expression :=
  l ← eval_cast l t;
  r ← eval_cast r t;
  if both_immediate l r then l ← lift (eval_arithmetic_immediate t l o r); cast l t
  else create_expr op l (OperandVar r).

Definition mul (l r : var) : E expression :=
  t ← lift (usual_arithmetic_conversion (v_type l) (v_type r));
  arithmetic_or IR_OP_MUL AMul t l r.

Definition ediv (l r : var) : E expression :=
  t ← lift (usual_arithmetic_conversion (v_type l) (v_type r));
  arithmetic_or IR_OP_DIV ADiv t l r.

Definition mod_ (l r : var) : E expression :=
  t ← lift (usual_arithmetic_conversion (v_type l) (v_type r));
  if negb (is_integer t) then fail "Operands of modulo operator must be of integer type."
  else
    l ← eval_cast l t;
    r ← eval_cast r t;
    if both_immediate l r then l ← lift (eval_integer_immediate t l OMod r); cast l t
    else create_expr IR_OP_MOD l (OperandVar r).

(** [sym + offset] and string literals. *)
Definition address_like (v : var) : E bool :=
  s ← is_string v; mret (s || bool_decide (v_kind v = ADDRESS)).

(** A pointer and an integer; [t] is the type pointed to. *)
Definition add_vla (op : optype) (l r : var) (t : ctype) : E expression :=
  e ← k_eval_vla_size k def block t;
  s ← eval def block e;
  e ← k_eval_expr k def block IR_OP_MUL s (OperandVar r);
  s ← eval def block e;
  e ← create_expr op (v_set_type basic_type__long l) (OperandVar s);
  mret (ex_set_type (v_type l) e).

(** The offset in bytes of [r] elements. *)
Definition scaled (size r : var) : E var :=
  e ← k_eval_expr k def block IR_OP_MUL size (OperandVar r); eval def block e.

Definition add_pointer (l r : var) : E expression :=
  t ← deref_type (v_type l);
  size ← size_of_type t;
  r ← eval_cast r basic_type__long;
  vla ← vla_type t;
  if vla : bool then add_vla IR_OP_ADD l r t
  else if size =? 0 then fail "Pointer arithmetic on incomplete type."
  else
    a ← address_like l;
    let n := mulz (val_i (v_imm r)) size in
    let imm := bool_decide (v_kind r = IMMEDIATE) in
    if a && imm then mret (as_expr (v_set_offset (addz (v_offset l) n) l))
    else if is_constant l && imm then mret (as_expr (v_set_imm (addz (v_imm l) n) l))
    else if negb imm || negb (val_i (v_imm r) =? 0) then
      let t := v_type l in
      l ← eval_cast l basic_type__long;
      r ← (if negb (size =? 1) then s ← lift (imm_signed basic_type__long size); scaled s r else mret r);
      e ← create_expr IR_OP_ADD l (OperandVar r);
      mret (ex_set_type t e)
    else mret (as_expr l).

Definition add_operands (l r : var) : E expression :=
  if is_arithmetic (v_type l) && is_arithmetic (v_type r) then
    t ← lift (usual_arithmetic_conversion (v_type l) (v_type r));
    arithmetic_or IR_OP_ADD AAdd t l r
  else if is_pointer (v_type l) && is_integer (v_type r) then add_pointer l r
  else fail "Incompatible arguments to addition operator.".

Definition add (l r : var) : E expression :=
  if is_integer (v_type l) && is_pointer (v_type r) then add_operands r l else add_operands l r.

Definition sub_integer (l r : var) : E expression :=
  t ← deref_type (v_type l);
  size ← size_of_type t;
  r ← eval_cast r basic_type__long;
  vla ← vla_type t;
  if vla : bool then add_vla IR_OP_SUB l r t
  else if size =? 0 then fail "Pointer arithmetic on incomplete type."
  else
    a ← address_like l;
    let n := mulz (val_i (v_imm r)) size in
    let imm := bool_decide (v_kind r = IMMEDIATE) in
    if a && imm then mret (as_expr (v_set_offset (subz (v_offset l) n) l))
    else if is_constant l && imm then mret (as_expr (v_set_imm (subz (v_imm l) n) l))
    else
      zero ← is_immediate_false (as_expr r);
      if zero : bool then mret (as_expr l)
      else
        r ← (if 1 <? size then s ← lift (imm_unsigned basic_type__unsigned_long size); scaled s r else mret r);
        create_expr IR_OP_SUB l (OperandVar r).

Definition sub_pointers (l r : var) : E expression :=
  t1 ← deref_type (v_type l);
  t2 ← deref_type (v_type r);
  size ← size_of_type t2;
  l ← eval_cast l basic_type__long;
  r ← eval_cast r basic_type__long;
  e ← k_eval_expr k def block IR_OP_SUB l (OperandVar r);
  vla ← vla_type t1;
  if vla : bool then
    l ← eval def block e;
    e ← k_eval_vla_size k def block t1;
    s ← eval def block e;
    k_eval_expr k def block IR_OP_DIV l (OperandVar s)
  else if 1 <? size then
    l ← eval def block e;
    r ← lift (imm_signed basic_type__long size);
    k_eval_expr k def block IR_OP_DIV l (OperandVar r)
  else if size =? 0 then fail "Referenced type is incomplete."
  else
    s1 ← size_of_type t1;
    if negb (s1 =? size) then fail "Referenced type is incomplete." else mret e.

Definition sub (l r : var) : E expression :=
  if is_arithmetic (v_type l) && is_arithmetic (v_type r) then
    t ← lift (usual_arithmetic_conversion (v_type l) (v_type r));
    arithmetic_or IR_OP_SUB ASub t l r
  else if is_pointer (v_type l) && is_integer (v_type r) then sub_integer l r
  else if is_pointer (v_type l) && is_pointer (v_type r) then sub_pointers l r
  else fail "Incompatible arguments to subtraction operator.".

(** ** Comparisons *)

(** The condition of the warning on two pointers, read for its failures. *)
Definition warn_pointers (a b : ctype) : E unit :=
  t1 ← deref_type a;
  t2 ← deref_type b;
  c ← compatible t1 t2;
  if c : bool then mret tt
  else
    _ ← (if is_void t1 then size_of_type t2 else mret 0);
    _ ← (if is_void t2 then size_of_type t1 else mret 0);
    mret tt.

Definition comparison_operands (l r : var) : E (var * var) :=
  if is_arithmetic (v_type l) && is_arithmetic (v_type r) then
    t ← lift (usual_arithmetic_conversion (v_type l) (v_type r));
    l ← eval_cast l t;
    r ← eval_cast r t;
    mret (l, r)
  else if is_pointer (v_type l) then
    _ ← (if is_pointer (v_type r) then warn_pointers (v_type l) (v_type r)
         else _ ← is_nullptr r; mret tt);
    l ← eval_cast l basic_type__unsigned_long;
    r ← eval_cast r basic_type__unsigned_long;
    mret (l, r)
  else fail "Illegal comparison between types.".

(** Whether the right operand is the more specific pointer. *)
Definition swapped (l r : var) : E bool :=
  if negb (is_pointer (v_type r)) then mret false
  else if negb (is_pointer (v_type l)) then mret true
  else
    a ← next_type (v_type l);
    if negb (is_void a) then mret false else b ← next_type (v_type r); mret (negb (is_void b)).

Definition prepare_comparison_operands (l r : var) : E (var * var) :=
  s ← swapped l r;
  if s : bool then '(r, l) ← comparison_operands r l; mret (l, r) else comparison_operands l r.

Definition compare_or (op : optype) (o : cmpop) (t : ctype) (l r : var) : E expression :=
  if both_immediate l r then mret (as_expr (eval_immediate_compare t l o r))
  else create_expr op l (OperandVar r).

Definition cmp_eq (l r : var) : E expression :=
  '(l, r) ← prepare_comparison_operands l r; compare_or IR_OP_EQ CEq (v_type l) l r.
Definition cmp_ne (l r : var) : E expression :=
  '(l, r) ← prepare_comparison_operands l r; compare_or IR_OP_NE CNe (v_type l) l r.

Definition common_compare_type (left right : ctype) : E ctype :=
  if is_arithmetic left && is_arithmetic right then lift (usual_arithmetic_conversion left right)
  else if is_pointer left && is_pointer right then
    a ← next_type left;
    b ← next_type right;
    c ← compatible a b;
    if c : bool then mret basic_type__unsigned_long else fail "Invalid operands in relational expression."
  else fail "Invalid operands in relational expression.".

Definition cmp_order (op : optype) (o : cmpop) (l r : var) : E expression :=
  t ← common_compare_type (v_type l) (v_type r);
  l ← eval_cast l t;
  r ← eval_cast r t;
  compare_or op o t l r.
Definition cmp_ge : var → var → E expression := cmp_order IR_OP_GE CGe.
Definition cmp_gt : var → var → E expression := cmp_order IR_OP_GT CGt.

(** ** Bitwise operators *)

Definition bitwise (op : optype) (o : bitop) (l r : var) : E expression :=
  if negb (is_integer (v_type l)) || negb (is_integer (v_type r)) then
    fail "Operands to bitwise operator must have integer type."
  else
    t ← lift (usual_arithmetic_conversion (v_type l) (v_type r));
    l ← eval_cast l t;
    r ← eval_cast r t;
    if both_immediate l r then
      v ← lift (eval_integer_immediate t l (OBit o) r);
      match op with IR_OP_AND => mret (as_expr v) | _ => cast v t end
    else create_expr op l (OperandVar r).
Definition or_ : var → var → E expression := bitwise IR_OP_OR BOr.
Definition xor_ : var → var → E expression := bitwise IR_OP_XOR BXor.
Definition and_ : var → var → E expression := bitwise IR_OP_AND BAnd.

Definition shift (op : optype) (o : int_op) (l r : var) : E expression :=
  if negb (is_integer (v_type l)) || negb (is_integer (v_type r)) then
    fail "Shift operands must have integer type."
  else
    t ← lift (promote_integer (v_type l));
    l ← eval_cast l t;
    if both_immediate l r then v ← lift (eval_integer_immediate t l o r); cast v t
    else create_expr op l (OperandVar r).
Definition shiftl : var → var → E expression := shift IR_OP_SHL OShl.
Definition shiftr : var → var → E expression := shift IR_OP_SHR OShr.

(** ** Unary operators *)

Definition not_ (v : var) : E expression :=
  if negb (is_integer (v_type v)) then fail "Bitwise complement operand must have integer type."
  else
    t ← lift (promote_integer (v_type v));
    v ← eval_cast v t;
    if bool_decide (v_kind v = IMMEDIATE) then
      v ← lift (if is_signed t then imm_signed t (Z.lnot (val_i (v_imm v)))
                else imm_unsigned t (Z.lnot (val_u (v_imm v))));
      mret (as_expr v)
    else create_expr IR_OP_NOT v NoOperand.

Definition neg (v : var) : E expression :=
  if negb (is_arithmetic (v_type v)) then fail "Unary (-) operand must be of arithmetic type."
  else if is_float (v_type v) then
    if bool_decide (v_kind v = IMMEDIATE) then
      mret (as_expr (v_set_imm (set_f (v_imm v) (fneg F32 (val_f (v_imm v)))) v))
    else create_expr IR_OP_NEG v NoOperand
  else if is_double (v_type v) then
    if bool_decide (v_kind v = IMMEDIATE) then
      mret (as_expr (v_set_imm (fneg F64 (val_u (v_imm v))) v))
    else create_expr IR_OP_NEG v NoOperand
  else sub (var_int 0) v.

Definition call (v : var) : E expression :=
  if negb (is_pointer (v_type v)) then fail "Calling non-function type."
  else
    f ← next_type (v_type v);
    if negb (is_function f) then fail "Calling non-function type." else create_expr IR_OP_CALL v NoOperand.

Definition eval_va_arg (v : var) (t : ctype) : E expression :=
  _ ← assert (is_pointer (v_type v)); create_expr IR_OP_VA_ARG v (OperandType t).

(** ** Addresses and values *)

(** The variable that holds the address of a variable length array. *)
Definition vla_address (v : var) : E var :=
  y ← the_symbol (v_symbol v);
  vla ← vla_type (sym_type y);
  _ ← assert vla;
  match sym_value y with
  | VlaAddress a => var_direct (Some a)
  | _ => lift (Undef "inactive member of a union")
  end.

(** The address of an object behind a pointer. *)
Definition addr_deref (v : var) : E var :=
  match v_symbol v with
  | None =>
    t ← pointer_to (v_type v);
    mret (v_set_lvalue false (v_set_offset 0 (v_set_imm (addz (v_imm v) (v_offset v))
            (v_set_type t (v_set_kind IMMEDIATE v)))))
  | Some s =>
    y ← the_symbol (Some s);
    _ ← assert (is_pointer (sym_type y));
    tmp ← var_direct (Some s);
    tmp ← (if negb (v_offset v =? 0) then
             c ← pointer_to basic_type__char;
             ptr ← eval_cast tmp c;
             e ← k_eval_expr k def block IR_OP_ADD ptr (OperandVar (var_int (conv I32 (v_offset v))));
             eval def block e
           else mret tmp);
    t ← pointer_to (v_type v);
    mret (v_set_type t tmp)
  end.

Definition addr_of (v : var) : E var :=
  match v_kind v with
  | IMMEDIATE =>
    s ← is_string_symbol (v_symbol v);
    if negb s then fail "Cannot take address of immediate."
    else if is_array (v_type v) then k_rvalue k def block v else mret v
  | DIRECT =>
    if v_lvalue v then t ← pointer_to (v_type v); mret (v_set_type t (v_set_kind ADDRESS v))
    else fail "Cannot take address of r-value."
  | ADDRESS =>
    _ ← assert (negb (v_lvalue v)); fail "Cannot take address of r-value."
  | DEREF => addr_deref v
  end.

Definition eval_addr (v : var) : E var :=
  if is_field v then fail "Cannot take address of bit-field."
  else
    vla ← vla_type (v_type v);
    if vla && bool_decide (v_kind v = DIRECT) then vla_address v
    else v ← addr_of v; _ ← assert (is_pointer (v_type v)); mret v.

Definition rvalue_array (v : var) : E var :=
  vla ← vla_type (v_type v);
  if vla : bool then
    if bool_decide (v_kind v = DIRECT) then vla_address v
    else
      _ ← assert (bool_decide (v_kind v = DEREF));
      _ ← assert (v_offset v =? 0);
      n ← next_type (v_type v);
      t ← pointer_to n;
      mret (v_set_type t (v_set_kind DIRECT v))
  else if bool_decide (v_kind v = IMMEDIATE) then
    _ ← assert (bool_decide (v_symbol v ≠ None));
    s ← is_string_symbol (v_symbol v);
    _ ← assert s;
    n ← next_type (v_type v);
    t ← pointer_to n;
    mret (v_set_type t v)
  else n ← next_type (v_type v); eval_addr (v_set_type n v).

Definition rvalue (v : var) : E var :=
  if is_function (v_type v) then eval_addr v
  else if is_array (v_type v) then rvalue_array v
  else if is_field v && is_unsigned (v_type v) && (v_field_width v <? 32) then
    e ← cast v basic_type__int; eval def block e
  else mret v.

Definition eval_expr (op : optype) (l : var) (a : operand) : E expression :=
  l ← rvalue l;
  match op with
  | IR_OP_CAST => t ← arg_type a; cast l t
  | IR_OP_VA_ARG => t ← arg_type a; eval_va_arg l t
  | IR_OP_CALL => call l
  | IR_OP_NOT => not_ l
  | IR_OP_NEG => neg l
  | _ =>
    r ← arg_var a;
    r ← rvalue r;
    match op with
    | IR_OP_MOD => mod_ l r
    | IR_OP_MUL => mul l r
    | IR_OP_DIV => ediv l r
    | IR_OP_ADD => add l r
    | IR_OP_SUB => sub l r
    | IR_OP_EQ => cmp_eq l r
    | IR_OP_NE => cmp_ne l r
    | IR_OP_GE => cmp_ge l r
    | IR_OP_GT => cmp_gt l r
    | IR_OP_AND => and_ l r
    | IR_OP_XOR => xor_ l r
    | IR_OP_OR => or_ l r
    | IR_OP_SHL => shiftl l r
    | IR_OP_SHR => shiftr l r
    | _ => fail "assertion failed"
    end
  end.

(** The size in bytes of a variable length array. *)
Definition eval_vla_size (t : ctype) : E expression :=
  vla ← vla_type t;
  _ ← assert vla;
  len ← on_types (λ ts, type_vla_length depth ts t);
  base ← next_type t;
  match len with
  | Some _ =>
    inner ← vla_type base;
    if inner : bool then
      e ← k_eval_vla_size k def block base;
      size ← eval def block e;
      n ← var_direct len;
      k_eval_expr k def block IR_OP_MUL n (OperandVar size)
    else
      m ← size_of_type base;
      if 1 <? m then
        size ← lift (imm_unsigned basic_type__unsigned_long m);
        n ← var_direct len;
        k_eval_expr k def block IR_OP_MUL n (OperandVar size)
      else _ ← assert (m =? 1); n ← var_direct len; mret (as_expr n)
  | None =>
    c ← on_types (λ ts, type_array_len ts t);
    size ← lift (imm_unsigned basic_type__unsigned_long c);
    e ← k_eval_vla_size k def block base;
    s ← eval def block e;
    k_eval_expr k def block IR_OP_MUL size (OperandVar s)
  end.

End operators.

(** The knot: [n] bounds the calls inside each other. *)
Definition knot_stuck : knot :=
  Knot (λ _ _ _ _ _, lift (Undef "not enough fuel")) (λ _ _ _, lift (Undef "not enough fuel"))
    (λ _ _ _, lift (Undef "not enough fuel")).
Fixpoint evaluator (n : nat) : knot :=
  match n with
  | O => knot_stuck
  | S n => let k := evaluator n in Knot (eval_expr k) (rvalue k) (eval_vla_size k)
  end.

End eval.
