(* ===== verification/Assign.v ===== *)
(** * Assignments, conditions and calls (src/parser/eval.c)

    The operations of eval.c that the grammar uses besides the operators:
    assignment and its special cases, indirection, what a conditional or a
    logical operation leaves behind, return values and arguments. *)

From stdpp Require Import base list gmap numbers strings.
From Stdlib Require Import ZArith Lia.
From S2P Require Import Prelude CType Floats CArith Strings Symbol Typetree Symtab Immediate Ir Cfg Eval.

Local Open Scope Z_scope.

Section assign.
Context `{FA : FloatArith} (depth : nat) (k : knot).

Definition eval_unary_plus (v : var) : E expression :=
  if negb (is_arithmetic (v_type v)) then fail "Unary (+) operand must be of arithmetic type."
  else if is_integer (v_type v) then
    t ← lift (promote_integer (v_type v)); cast depth v t
  else mret (as_expr (v_set_lvalue false v)).

(** [char [] = string]. *)
Definition assign_string (block : option bref) (target : var) (e : expression) : E (var * expression) :=
  n ← size_of_type depth (v_type target);
  if n =? 0 then
    _ ← assert (bool_decide (v_kind target = DIRECT));
    _ ← assert (v_offset target =? 0);
    y ← the_symbol (v_symbol target);
    z ← size_of_type depth (sym_type y);
    _ ← assert (z =? 0);
    len ← size_of_type depth (ex_type e);
    _ ← new_type (λ ts, ts ← set_array_length ts (sym_type y) len; Ok (ts, tt));
    let target := v_set_type (ex_type e) target in
    _ ← emit_ir block IR_ASSIGN target e;
    mret (target, e)
  else
    m ← size_of_type depth (ex_type e);
    let e := if (m =? addz n 1) || (n <? m)
             then ex_set_l (v_set_type (v_type target) (ex_l e)) (ex_set_type (v_type target) e) else e in
    let t := v_type target in
    let target := v_set_type (ex_type e) target in
    _ ← emit_ir block IR_ASSIGN target e;
    mret (v_set_type t target, e).

Definition eval_assign_string_literal (block : option bref) (target : var) (e : expression) : E var :=
  i ← identity depth e;
  _ ← assert i;
  _ ← assert (is_array (v_type target));
  y ← the_symbol (v_symbol (ex_l e));
  _ ← assert (bool_decide (sym_symtype y = SYM_STRING_VALUE));
  c ← next_type (v_type target);
  if negb (is_char c) then fail "Assigning string literal to non-char array."
  else
    '(target, e) ← assign_string block target e;
    n ← size_of_type depth (ex_type e);
    mret (v_set_offset (addz (v_offset target) n) target).

(** The immediate [n] cut to a field of [width] bits. *)
Definition field_immediate (signed : bool) (width n : Z) : outcome Z :=
  top ← c_shl I64 1 width;
  mask ← c_result I64 (top - 1);
  let n := Z.land n mask in
  sign ← (if signed then b ← c_shl I64 1 (width - 1); Ok (negb (Z.land n b =? 0)) else Ok false);
  Ok (wrap_u 64 (if sign : bool then Z.lor n (Z.lnot mask) else n)).

Definition field_type (size : Z) : E ctype :=
  if size =? 1 then mret basic_type__bool
  else if size =? 2 then mret basic_type__short
  else if size =? 4 then mret basic_type__int
  else _ ← assert (size =? 8); mret basic_type__long.

(** What an assignment returns. *)
Definition assigned (target : var) (e : expression) : E var :=
  i ← is_immediate depth e;
  mret (if i : bool then ex_l e else v_set_lvalue false target).

Definition assign_field (def : option defref) (block : option bref) (target : var) (e : expression) : E var :=
  _ ← assert (is_field target);
  _ ← assert (is_integer (v_type target));
  size ← size_of_type depth (v_type target);
  t ← field_type size;
  i ← is_immediate depth e;
  e ← (if i : bool then
         n ← lift (field_immediate (is_signed (v_type target)) (v_field_width target) (val_i (v_imm (ex_l e))));
         mret (ex_set_type t (ex_set_l (v_set_type t (v_set_imm n (ex_l e))) e))
       else
         same ← same_type depth t (ex_type e);
         if negb same then
           v ← eval depth def block e; eval_expr depth k def block IR_OP_CAST v (OperandType t)
         else mret e);
  _ ← emit_ir block IR_ASSIGN target e;
  assigned target e.

Definition has_qualifiers (a b : ctype) : bool :=
  (Z.b2z (is_const b) <=? Z.b2z (is_const a)) && (Z.b2z (is_volatile b) <=? Z.b2z (is_volatile a)).

(** The condition of a warning, for its failures. *)
Definition warn_assign (l r : ctype) (e : expression) : E unit :=
  c ← compatible depth l r;
  if (c && has_qualifiers l r) || (is_object l && is_void r && has_qualifiers l r)
     || (is_void l && is_object r && has_qualifiers l r) then mret tt
  else i ← identity depth e; if i : bool then _ ← is_nullptr depth (ex_l e); mret tt else mret tt.

Definition eval_assign_pointer (block : option bref) (target : var) (e : expression) : E var :=
  _ ← assert (is_pointer (v_type target));
  _ ← (if is_pointer (ex_type e) then
         l ← deref_type (v_type target); r ← deref_type (ex_type e); warn_assign l r e
       else if is_integer (ex_type e) then
         i ← identity depth e; if i : bool then _ ← is_nullptr depth (ex_l e); mret tt else mret tt
       else fail "Incompatible pointer assignment.");
  i ← identity depth e;
  let e := if i : bool then ex_set_l (v_set_type (v_type target) (ex_l e)) e else e in
  let e := ex_set_type (v_type target) e in
  _ ← emit_ir block IR_ASSIGN target e;
  assigned target e.

Definition eval_bool (def : option defref) (block : option bref) (e : expression) : E expression :=
  if is_bool (ex_type e) then mret e
  else
    v ← eval depth def block e;
    z ← lift (imm_signed basic_type__long 0);
    eval_expr depth k def block IR_OP_NE z (OperandVar v).

(** The value an arithmetic target is given. *)
Definition assign_arithmetic (def : option defref) (block : option bref) (t : ctype) (e : expression) :
    E expression :=
  i ← is_immediate depth e;
  if i : bool then v ← eval_cast depth k def block (ex_l e) t; mret (as_expr v)
  else
    same ← same_type depth t (ex_type e);
    if negb same then
      v ← eval depth def block e; eval_expr depth k def block IR_OP_CAST v (OperandType t)
    else mret e.

Definition eval_assign (def : option defref) (block : option bref) (target : var) (e : expression) : E var :=
  if negb (v_lvalue target) then fail "Target of assignment must be l-value."
  else if is_array (v_type target) then eval_assign_string_literal block target e
  else
    i ← identity depth e;
    e ← (if i : bool then v ← rvalue depth k def block (ex_l e); mret (as_expr v) else mret e);
    e ← (if is_bool (v_type target) then eval_bool def block e else mret e);
    if is_pointer (v_type target) then eval_assign_pointer block target e
    else if is_arithmetic (v_type target) && is_arithmetic (ex_type e) then
      if is_field target then assign_field def block target e
      else
        e ← assign_arithmetic def block (v_type target) e;
        _ ← emit_ir block IR_ASSIGN target e;
        assigned target e
    else
      c ← (if is_struct_or_union (v_type target) then compatible depth (v_type target) (ex_type e) else mret false);
      if negb c then fail "Incompatible value assigned to variable."
      else _ ← emit_ir block IR_ASSIGN target e; assigned target e.

(** A fresh variable that holds the value of [v]. *)
Definition in_temporary (def : option defref) (block : option bref) (v : var) : E var :=
  t ← create_var def (v_type v); eval_assign def block t (as_expr v).

Definition deref_var (v : var) : E var :=
  t ← deref_type (v_type v); mret (v_set_lvalue true (v_set_type t (v_set_kind DEREF v))).

Definition eval_deref (def : option defref) (block : option bref) (v : var) : E var :=
  v ← rvalue depth k def block v;
  if negb (is_pointer (v_type v)) then fail "Dereferencing non-pointer type."
  else
    let finish v :=
      _ ← assert (bool_decide (v_kind v = DIRECT));
      _ ← assert (v_offset v =? 0);
      _ ← assert (is_pointer (v_type v));
      deref_var v in
    match v_kind v with
    | DEREF => v ← in_temporary def block v; finish v
    | DIRECT =>
      direct ← (if negb (v_offset v =? 0) then mret false
                else y ← the_symbol (v_symbol v); mret (is_pointer (sym_type y)));
      v ← (if direct : bool then mret v else in_temporary def block v);
      finish v
    | ADDRESS =>
      t ← deref_type (v_type v); mret (v_set_lvalue true (v_set_type t (v_set_kind DIRECT v)))
    | IMMEDIATE =>
      r ← deref_var v;
      s ← is_string_symbol (v_symbol v);
      _ ← assert (bool_decide (v_symbol v = None) || s);
      mret r
    end.

Definition eval_copy (def : option defref) (block : option bref) (v : var) : E var :=
  _ ← assert (negb (is_function (v_type v)));
  _ ← assert (negb (is_array (v_type v)));
  v ← rvalue depth k def block v;
  in_temporary def block v.

(** [block->expr] and the jumps. *)
Definition block_expr (b : bref) : E expression := x ← the_block (Some b); mret (b_expr x).
Definition put_expr (b : bref) (e : expression) : E unit := change_block (Some b) (set_expr e).
Definition put_jump (b : bref) (i : bool) (j : bref) : E unit := change_block (Some b) (λ x, set_jump x i j).

Definition eval_return (def : defref) (block : bref) : E expression :=
  d ← the_def (Some def);
  f ← the_symbol (d_symbol d);
  t ← next_type (sym_type f);
  _ ← assert (is_object t);
  _ ← assert (negb (is_array t));
  e ← block_expr block;
  i ← identity depth e;
  _ ← (if i : bool then v ← rvalue depth k (Some def) (Some block) (ex_l e); put_expr block (as_expr v)
       else mret tt);
  e ← block_expr block;
  same ← same_type depth t (ex_type e);
  _ ← (if negb same then
         v ← eval depth (Some def) (Some block) e;
         e ← eval_expr depth k (Some def) (Some block) IR_OP_CAST v (OperandType t); put_expr block e
       else if negb (is_scalar t) || bool_decide (ex_op e = IR_OP_VA_ARG) then
         v ← eval depth (Some def) (Some block) e; put_expr block (as_expr v)
       else mret tt);
  _ ← change_block (Some block) set_has_return_value;
  block_expr block.

(** The type of a conditional of two pointers. *)
Definition conditional_pointers (t1 t2 : ctype) : E ctype :=
  p1 ← deref_type t1;
  p2 ← deref_type t2;
  c ← compatible depth p1 p2;
  t ← (if c || is_void p1 then lift (type_apply_qualifiers p1 p2)
       else if is_void p2 then lift (type_apply_qualifiers p2 p1)
       else fail "Incompatible pointer types in conditional expression.");
  t ← pointer_to t;
  t ← lift (type_apply_qualifiers t t1);
  lift (type_apply_qualifiers t t2).

Definition conditional_type (lval rval : var) : E ctype :=
  let t1 := v_type lval in
  let t2 := v_type rval in
  if is_arithmetic t1 && is_arithmetic t2 then lift (usual_arithmetic_conversion t1 t2)
  else if is_pointer t1 && is_pointer t2 then conditional_pointers t1 t2
  else
    a ← (if is_pointer t1 then is_nullptr depth rval else mret false);
    if a : bool then mret t1
    else
      b ← (if is_pointer t2 then is_nullptr depth lval else mret false);
      if b : bool then mret t2
      else if is_void t1 && is_void t2 then mret t1
      else
        s ← (if is_struct_or_union t1 then same_type depth t1 t2 else mret false);
        if s : bool then mret t1 else fail "Incompatible types in conditional operator.".

Definition eval_conditional (def : option defref) (left right : bref) : E ctype :=
  e ← block_expr left;
  v ← eval depth def (Some left) e;
  lval ← rvalue depth k def (Some left) v;
  e ← block_expr right;
  v ← eval depth def (Some right) e;
  rval ← rvalue depth k def (Some right) v;
  _ ← put_expr left (as_expr lval);
  _ ← put_expr right (as_expr rval);
  conditional_type lval rval.

(** ** Logical operations *)

Definition eval_logical_expression (def : option defref) (is_and : bool) (left right_top right : bref) : E bref :=
  t ← cfg_block_init def;
  f ← cfg_block_init def;
  r ← cfg_block_init def;
  _ ← (if is_and then _ ← put_jump left false f; put_jump left true right_top
       else _ ← put_jump left false right_top; put_jump left true t);
  e ← block_expr right;
  yes ← is_immediate_true depth e;
  _ ← (if yes : bool then put_jump right false t
       else
         no ← is_immediate_false depth e;
         if no : bool then put_jump right false f
         else _ ← put_jump right false f; put_jump right true t);
  res ← create_var def basic_type__int;
  let res := v_set_lvalue true res in
  _ ← eval_assign def (Some t) res (as_expr (var_int 1));
  _ ← eval_assign def (Some f) res (as_expr (var_int 0));
  let res := v_set_lvalue false res in
  _ ← put_jump t false r;
  _ ← put_jump f false r;
  _ ← put_expr r (as_expr res);
  mret r.

Definition is_logical_immediate (left top bottom : bref) : E bool :=
  if negb (bool_decide (top = bottom)) then mret false
  else
    x ← the_block (Some top);
    if negb (bool_decide (b_code x = [])) then mret false
    else
      a ← is_immediate depth (b_expr x);
      if negb a then mret false else e ← block_expr left; is_immediate depth e.

(** The value of the last block of the right operand, compared with zero. *)
Definition compared (def : option defref) (right : bref) : E bref :=
  e ← block_expr right;
  _ ← (if is_comparison e then mret tt
       else
         v ← eval depth def (Some right) e;
         e ← eval_expr depth k def (Some right) IR_OP_NE v (OperandVar (var_int 0));
         put_expr right e);
  mret right.

Definition scalar_operands (left right : bref) (msg : string) : E unit :=
  a ← block_expr left;
  b ← block_expr right;
  if negb (is_scalar (ex_type a)) || negb (is_scalar (ex_type b)) then fail msg else mret tt.

(** [is_immediate_true(l) && is_immediate_true(r)], or with [||]. *)
Definition logical_value (is_and : bool) (left right : bref) : E bool :=
  l ← block_expr left;
  a ← is_immediate_true depth l;
  if Bool.eqb a is_and then r ← block_expr right; is_immediate_true depth r else mret a.

Definition eval_logical_or (def : option defref) (left right_top right : bref) : E bref :=
  _ ← scalar_operands left right "Operands to logical or must be of scalar type.";
  imm ← is_logical_immediate left right_top right;
  if imm : bool then
    res ← logical_value false left right;
    _ ← put_expr left (as_expr (var_int (Z.b2z res)));
    mret left
  else
    e ← block_expr left;
    yes ← is_immediate_true depth e;
    if yes : bool then _ ← put_expr left (as_expr (var_int 1)); mret left
    else
      no ← is_immediate_false depth e;
      if no : bool then _ ← put_jump left false right_top; compared def right
      else eval_logical_expression def false left right_top right.

Definition eval_logical_and (def : option defref) (left right_top right : bref) : E bref :=
  _ ← scalar_operands left right "Operands to logical and must be of scalar type.";
  imm ← is_logical_immediate left right_top right;
  if imm : bool then
    res ← logical_value true left right;
    _ ← put_expr left (as_expr (var_int (Z.b2z res)));
    mret left
  else
    e ← block_expr left;
    no ← is_immediate_false depth e;
    if no : bool then _ ← put_expr left (as_expr (var_int 0)); mret left
    else
      yes ← is_immediate_true depth e;
      if yes : bool then _ ← put_jump left false right_top; compared def right
      else eval_logical_expression def true left right_top right.

(** ** Calls and variable length arrays *)

Definition eval_param (def : option defref) (block : option bref) (e : expression) : E expression :=
  v ← eval depth def block e;
  v ← rvalue depth k def block v;
  let e := as_expr v in
  i ← identity depth e;
  if negb i then
    t ← create_var def (ex_type e);
    v ← eval_assign def block t e;
    mret (as_expr v)
  else mret e.

Definition param (block : option bref) (e : expression) : E unit := emit_ir block IR_PARAM var_void e.
Definition eval__builtin_va_start (block : option bref) (arg : expression) : E unit :=
  emit_ir block IR_VA_START var_void arg.

Definition eval_vla_alloc (def : option defref) (block : bref) (s : symref) : E unit :=
  y ← the_symbol (Some s);
  vla ← vla_type depth (sym_type y);
  _ ← assert vla;
  e ← eval_vla_size depth k def (Some block) (sym_type y);
  _ ← put_expr block e;
  v ← var_direct (Some s);
  emit_ir (Some block) IR_VLA_ALLOC v e.

End assign.
