(* ===== verification/EvalProps.v ===== *)
(** * What evaluation emits

    Evaluation appends statements to one block and makes temporaries; the value
    of the block and the marks of symbols that are used may change, and nothing
    else of the parser ([emitted]).  The laws of the monad [E], the states that
    evaluation can start from ([ready]), and the folding of constants. *)

From stdpp Require Import base list gmap numbers strings.
From Stdlib Require Import ZArith Lia.
From S2P Require Import Prelude Memory CType Floats CArith Strings Symbol Typetree Symtab Hash SymtabProps SymtabSpec Ir IrSem Cfg Eval Immediate VmMove.

Local Open Scope Z_scope.

(** One step of a computation. *)
Lemma E_step {A B} (m : E A) (f : A → E B) p q a : m p = Ok (q, a) → (m ≫= f) p = f a q.
Proof. intros H. unfold mbind, E_bind. by rewrite H. Qed.
Lemma E_inv {A B} (m : E A) (f : A → E B) p r : (m ≫= f) p = Ok r → ∃ q a, m p = Ok (q, a) ∧ f a q = Ok r.
Proof. unfold mbind, E_bind. intros ([q a] & Hm & Hf)%bind_ok_inv. eauto. Qed.
Lemma E_cong {A B} (m : E A) (f g : A → E B) p : (∀ a p, f a p = g a p) → (m ≫= f) p = (m ≫= g) p.
Proof. intros Hf. unfold mbind, E_bind. destruct (m p) as [[q a]| |]; cbn; auto. Qed.
Lemma E_unbracket {A B C} (m : E A) (f : A → E B) (g : B → E C) p : ((m ≫= f) ≫= g) p = (m ≫= λ a, f a ≫= g) p.
Proof. unfold mbind, E_bind. by destruct (m p) as [[q a]| |]. Qed.
Lemma E_ret_r {A} (m : E A) p : (m ≫= mret) p = m p.
Proof. unfold mbind, E_bind. by destruct (m p) as [[q a]| |]. Qed.
Lemma E_ret_l {A B} (a : A) (f : A → E B) p : (mret a ≫= f) p = f a p.
Proof. reflexivity. Qed.
(** Computations that differ in their brackets only. *)
Ltac unbracket :=
  repeat first [reflexivity
    | match goal with
      | |- ((_ ≫= _) ≫= _) _ = _ => etrans; [apply E_unbracket|]
      | |- (mret _ ≫= _) _ = _ => etrans; [apply E_ret_l|]; cbv beta iota
      | |- _ = (mret _ ≫= _) _ => etrans; [|symmetry; apply E_ret_l]; cbv beta iota
      | |- _ = ((_ ≫= _) ≫= _) _ => etrans; [|symmetry; apply E_unbracket]
      end
    | apply E_cong; intros ? ?; repeat match goal with |- context [match ?x with (_, _) => _ end] => is_var x; destruct x end].

Lemma assert_true p : assert true p = Ok (p, tt).
Proof. done. Qed.
Lemma lift_ok {A} (o : outcome A) a p : o = Ok a → lift o p = Ok (p, a).
Proof. by intros ->. Qed.

(** ** Integer types *)

Record int_type (t : ctype) (k : ity) : Prop := IntType {
  it_ity : ity_of t = Some k;
  it_integer : is_integer t = true;
  it_ref : t_ref t = 0
}.

Lemma int_type_cases t k : int_type t k → t_pointer t = false ∧ t_ref t = 0 ∧
  (t_type t, k) ∈ [(T_BOOL, U8); (T_CHAR, if t_unsigned t then U8 else I8); (T_SHORT, if t_unsigned t then U16 else I16);
                   (T_INT, if t_unsigned t then U32 else I32); (T_LONG, if t_unsigned t then U64 else I64)].
Proof.
  intros [Hk Hi Hr]. unfold is_integer, between in Hi. apply andb_prop in Hi as [H1 H2]. apply Z.leb_le in H1, H2.
  unfold ity_of, is_unsigned, is_bool, type_is in Hk. unfold type_of in *.
  destruct t as [e u c v r p pc pv pr ref]; cbn in *. destruct p; [cbn in *; lia|].
  destruct e; try discriminate Hk; destruct u; cbn in *; injection Hk as <-;
    (split; [done|split; [done|]]); set_solver.
Qed.

Record int_facts (t : ctype) (k : ity) : Prop := IntFacts {
  if_arithmetic : is_arithmetic t = true;
  if_scalar : is_scalar t = true;
  if_void : is_void t = false;
  if_pointer : is_pointer t = false;
  if_float : is_float t = false;
  if_double : is_double t = false;
  if_long_double : is_long_double t = false;
  if_array : is_array t = false;
  if_function : is_function t = false;
  if_struct : is_struct_or_union t = false;
  if_unsigned : is_unsigned t = negb (isigned k);
  if_signed : is_signed t = isigned k;
  if_size d ts : size_of (S d) ts t = Ok (Z.of_nat (isize k))
}.

Lemma int_type_facts t k : int_type t k → int_facts t k.
Proof.
  intros (Hp & Hr & Hc)%int_type_cases. destruct t as [e u c v r p pc pv pr ref]; cbn in *; subst p ref.
  repeat (apply elem_of_cons in Hc as [Hc|Hc]; [injection Hc as -> ->; destruct u; by split|]).
  by apply elem_of_nil in Hc.
Qed.

Lemma int_basic e u k : int_type (basic_type e u) k ↔ ity_of (basic_type e u) = Some k ∧ is_integer (basic_type e u) = true.
Proof. split; [by intros [? ? _]|]. by intros [? ?]. Qed.

(** [type_equal] on integer types. *)
Definition same_int (a b : ctype) : bool :=
  bool_decide (t_type a = t_type b) && Bool.eqb (t_unsigned a) (t_unsigned b).

Lemma int_type_equal d ts a b k k' : int_type a k → int_type b k' → type_equal (S d) ts a b = Ok (same_int a b).
Proof.
  intros Ha Hb. pose proof (int_type_cases _ _ Ha) as (Hp & Hr & _). pose proof (int_type_cases _ _ Hb) as (Hp' & Hr' & _).
  unfold same_int. cbn [type_equal]. case_bool_decide as Heq.
  { subst b. by rewrite bool_decide_true, eqb_reflx by done. }
  rewrite Hr, Hr'. cbn [Z.eqb Bool.eqb negb andb]. by destruct (bool_decide _), (Bool.eqb _ _).
Qed.

Lemma same_int_sym a b : same_int a b = same_int b a.
Proof.
  unfold same_int. f_equal; [apply bool_decide_ext; by split|]. by destruct (t_unsigned a), (t_unsigned b).
Qed.

Lemma same_int_true a b k k' : int_type a k → int_type b k' → same_int a b = true → k = k' ∧ is_bool a = is_bool b.
Proof.
  intros Ha Hb [E1%bool_decide_eq_true E2%eqb_prop]%andb_prop.
  pose proof (int_type_cases _ _ Ha) as (Hp & _). pose proof (int_type_cases _ _ Hb) as (Hp' & _).
  assert (Hb' : is_bool a = is_bool b) by (unfold is_bool, type_is, type_of; by rewrite Hp, Hp', E1).
  split; [|done]. apply (inj Some). rewrite <-(it_ity _ _ Ha), <-(it_ity _ _ Hb).
  unfold ity_of, is_unsigned, type_of. by rewrite Hb', Hp, Hp', E1, E2.
Qed.

Lemma type_equal_same d ts t : type_equal (S d) ts t t = Ok true.
Proof. cbn [type_equal]. by rewrite bool_decide_true. Qed.

(** ** What changes *)

(** A symbol that nobody uses: free for [alloc_sym]. *)
Definition idle (s : symtab) (r : symref) : Prop := r ∈ temporaries s ∨ sb_symbols s !! r = None.

Definition add_locals (l : list symref) (x : definition) : definition :=
  Define (d_symbol x) (d_body x) (d_params x) (d_locals x ++ l) (d_labels x) (d_nodes x).
Definition add_code (c : list statement) (b : block) : block := set_code b (b_code b ++ c).

(** A symbol may be marked as referenced. *)
Definition marked (y y' : symbol) : Prop := y' = y ∨ y' = with_referenced y.
Lemma marked_trans y1 y2 y3 : marked y1 y2 → marked y2 y3 → marked y1 y3.
Proof. intros [->| ->] [->| ->]; [by left|by right|by right|by right]. Qed.

(** From [p] to [q], the temporaries [l] are made for the definition [d] and
    the code [c] is appended to the block [b], whose value is open. *)
Record emitted (d : defref) (b : bref) (p q : parser) (l : list symref) (c : list statement) : Prop := Emitted {
  em_block x : ps_blocks p !! b = Some x → ∃ e, ps_blocks q = <[b := set_expr e (add_code c x)]> (ps_blocks p);
  em_def x : ps_defs p !! d = Some x → ps_defs q = <[d := add_locals l x]> (ps_defs p);
  em_lists : ps_free q = ps_free p ∧ ps_expressions q = ps_expressions p ∧ ps_prototypes q = ps_prototypes p ∧
    ps_definitions q = ps_definitions p;
  em_types : sb_types (ps_tab q) = sb_types (ps_tab p);
  em_new : NoDup l ∧ ∀ r, r ∈ l → idle (ps_tab p) r ∧ ¬ idle (ps_tab q) r;
  em_idle r : idle (ps_tab q) r → idle (ps_tab p) r;
  em_kept r y : ¬ idle (ps_tab p) r → sb_symbols (ps_tab p) !! r = Some y →
    ∃ y', sb_symbols (ps_tab q) !! r = Some y' ∧ marked y y';
  em_count : sb_n (ps_tab q) N_TEMPORARY = sb_n (ps_tab p) N_TEMPORARY + Z.of_nat (length l);
  em_tab envs : symtab_ok (ps_tab p) envs → symtab_ok (ps_tab q) envs
}.

(** Enough to make [room] temporaries. *)
Record ready (d : defref) (b : bref) (ts : typetab) (room : Z) (p : parser) : Prop := Ready {
  rd_tab : ∃ envs, symtab_ok (ps_tab p) envs;
  rd_types : sb_types (ps_tab p) = ts;
  rd_def : is_Some (ps_defs p !! d);
  rd_block : is_Some (ps_blocks p !! b);
  rd_count : - 2 ^ 31 ≤ sb_n (ps_tab p) N_TEMPORARY ∧ sb_n (ps_tab p) N_TEMPORARY + room < 2 ^ 31
}.

Lemma add_no_code x : set_expr (b_expr x) (add_code [] x) = x.
Proof. destruct x. unfold set_expr, add_code, set_code. cbn. by rewrite app_nil_r. Qed.

Section emitted.
Context (d : defref) (b : bref).

Lemma emitted_refl p : is_Some (ps_blocks p !! b) → is_Some (ps_defs p !! d) → emitted d b p p [] [].
Proof.
  intros [x Hx] [y Hy]. split; try done.
  - intros x' Hx'. exists (b_expr x'). by rewrite insert_id; [|rewrite add_no_code].
  - intros y' Hy'. rewrite insert_id; [done|]. rewrite Hy'. f_equal. destruct y'. unfold add_locals. cbn. by rewrite app_nil_r.
  - split; [constructor|]. intros r Hr. by apply elem_of_nil in Hr.
  - intros r z _ Hz. exists z. split; [done|by left].
  - cbn. lia.
Qed.

Lemma emitted_trans p q r l l' c c' : is_Some (ps_blocks p !! b) → is_Some (ps_defs p !! d) →
  emitted d b p q l c → emitted d b q r l' c' → emitted d b p r (l ++ l') (c ++ c').
Proof.
  intros [x Hx] [y Hy] [A1 A2 A3 A4 [A5 A5'] A6 A7 A8 A9] [B1 B2 B3 B4 [B5 B5'] B6 B7 B8 B9].
  destruct (A1 x Hx) as [e1 A1']. clear A1. specialize (A2 y Hy).
  destruct (B1 (set_expr e1 (add_code c x))) as [e2 B1']; [by rewrite A1', lookup_insert_eq|]. clear B1.
  specialize (B2 (add_locals l y)). rewrite A2, lookup_insert_eq in B2.
  split.
  - intros x' Hx'. rewrite Hx in Hx'. injection Hx' as <-. exists e2. rewrite B1', A1', insert_insert_eq by done. f_equal.
    unfold add_code, set_code, set_expr. cbn. by rewrite app_assoc.
  - intros y' Hy'. rewrite Hy in Hy'. injection Hy' as <-. rewrite B2, insert_insert_eq by done. f_equal.
    unfold add_locals. cbn. by rewrite app_assoc.
  - destruct A3 as (? & ? & ? & ?), B3 as (? & ? & ? & ?). repeat split; congruence.
  - congruence.
  - split.
    + apply NoDup_app. split; [done|]. split; [|done]. intros s Hs Hs'. apply A5' in Hs as [_ Hs]. by apply B5' in Hs' as [? _].
    + intros s [Hs|Hs]%elem_of_app.
      * split; [by apply A5'|]. intros Hi. apply A5' in Hs as [_ Hs]. by apply Hs, B6.
      * apply B5' in Hs as [? ?]. auto.
  - auto.
  - intros s z Hs Hz. destruct (A7 s z Hs Hz) as (z1 & Hz1 & M1). destruct (B7 s z1) as (z2 & Hz2 & M2); [by intros Hi; apply Hs, A6|done|].
    exists z2. split; [done|]. by eapply marked_trans.
  - rewrite B8, A8, length_app. lia.
  - auto.
Qed.

Lemma ready_emitted ts room room' p q l c : ready d b ts room p → emitted d b p q l c →
  room' + Z.of_nat (length l) ≤ room → ready d b ts room' q.
Proof.
  intros [[envs Ht] Hty [y Hy] [x Hx] [H1 H2]] [A1 A2 A3 A4 A5 A6 A7 A8 A9] Hroom. split.
  - eauto.
  - congruence.
  - rewrite (A2 y Hy), lookup_insert_eq. eauto.
  - destruct (A1 x Hx) as [e ->]. rewrite lookup_insert_eq. eauto.
  - lia.
Qed.

Lemma ready_le ts room room' p : ready d b ts room p → room' ≤ room → ready d b ts room' p.
Proof. intros [A B C D [F G]] H. split; try done. lia. Qed.
End emitted.

(** ** Temporaries *)

Definition temporary_symbol (t : ctype) (n : Z) : symbol :=
  new_symbol (str_of PREFIX_TEMPORARY) t SYM_DEFINITION LINK_NONE n 0 NoValue.

(** What [alloc_sym] takes is not used by anybody. *)
Lemma alloc_idle s envs s' r : symtab_ok s envs → alloc_sym s = Ok (s', r) →
  idle s r ∧ ¬ r ∈ temporaries s' ∧ (∀ x, x ∈ temporaries s' → x ∈ temporaries s) ∧ sb_n s' = sb_n s ∧
  ∀ x, x ≠ r → sb_symbols s' !! x = sb_symbols s !! x.
Proof.
  intros Hok. unfold alloc_sym. destruct (last (temporaries s)) as [r1|] eqn:El; intros H; ok_inv; simplify_eq.
  - apply last_Some in El as [l El].
    assert (Hnd : NoDup (temporaries s)).
    { pose proof (so_owned _ _ Hok) as Ho. unfold owned in Ho. by apply NoDup_app in Ho as (_ & _ & (_ & _ & (_ & _ & ?)%NoDup_app)%NoDup_app). }
    cbn. rewrite El, removelast_last. rewrite El in Hnd. apply NoDup_app in Hnd as (_ & Hnd & _).
    split; [left; rewrite El; set_solver|]. split; [intros Hr; apply (Hnd r Hr); set_solver|]. split; [set_solver|]. split; [done|].
    intros x Hx. by rewrite lookup_insert_ne.
  - assert (Hr : fresh (dom (sb_symbols s)) ∉ dom (sb_symbols s)) by apply is_fresh. apply not_elem_of_dom in Hr.
    split; [by right|]. split.
    { intros Hi. cbn in Hi. destruct (so_alive _ _ Hok (fresh (dom (sb_symbols s)))) as [y Hy]; [|congruence].
      unfold owned. rewrite !elem_of_app. auto. }
    split; [done|]. split; [done|]. intros x Hx. cbn. by rewrite lookup_insert_ne.
Qed.

Lemma create_temporary_ok s envs t : symtab_ok s envs → - 2 ^ 31 ≤ sb_n s N_TEMPORARY + 1 < 2 ^ 31 →
  ∃ s' r, sym_create_temporary s t = Ok (s', r) ∧ symtab_ok s' envs ∧ sb_types s' = sb_types s ∧
    idle s r ∧ ¬ idle s' r ∧ (∀ x, idle s' x → idle s x) ∧
    (∀ x, x ≠ r → sb_symbols s' !! x = sb_symbols s !! x) ∧
    sb_symbols s' !! r = Some (temporary_symbol t (sb_n s N_TEMPORARY + 1)) ∧
    sb_n s' N_TEMPORARY = sb_n s N_TEMPORARY + 1.
Proof.
  intros Hok Hn. destruct (alloc_ok s envs Hok) as (s1 & r & Hal & Hok1 & Hr & _ & _ & Hty & _).
  destruct (alloc_idle s envs s1 r Hok Hal) as (Hi & Hni & Hsub & Hcnt & Hkeep).
  assert (Hc : sym_create_temporary s t =
    Ok (put_sym r (temporary_symbol t (sb_n s N_TEMPORARY + 1)) (set_n N_TEMPORARY (sb_n s N_TEMPORARY + 1) s1), r)).
  { unfold sym_create_temporary, sym_create, next_n. rewrite Hal. cbn [mbind outcome_bind]. rewrite Hcnt.
    unfold c_result. cbn [isigned]. rewrite (proj2 (in_range_spec I32 _)) by (cbn; lia). done. }
  assert (Hok' : symtab_ok (put_sym r (temporary_symbol t (sb_n s N_TEMPORARY + 1)) (set_n N_TEMPORARY (sb_n s N_TEMPORARY + 1) s1)) envs).
  { apply put_unowned_ok; [by eapply touched_ok; [|exact Hok1]|done|]. apply str_of_wf; [done|repeat constructor; done]. }
  eexists _, r. split; [exact Hc|]. split; [done|]. split; [done|]. split; [done|].
  assert (Hat : ∀ x, x ≠ r → sb_symbols (put_sym r (temporary_symbol t (sb_n s N_TEMPORARY + 1)) (set_n N_TEMPORARY (sb_n s N_TEMPORARY + 1) s1)) !! x = sb_symbols s !! x).
  { intros x Hx. cbn. rewrite lookup_insert_ne by done. by apply Hkeep. }
  split. { intros [Ht|Ht]; [done|]. cbn in Ht. by rewrite lookup_insert_eq in Ht. }
  split.
  { intros x [Ht|Ht]; [by left; apply Hsub|]. destruct (decide (x = r)) as [->|Hx]; [done|]. right. by rewrite <-Hat. }
  split; [done|]. split; [apply lookup_insert_eq|done].
Qed.

(** The variable [create_var] returns. *)
Definition temp (r : symref) (t : ctype) : var := Var DIRECT t (Some r) 0 0 0 true 0.

Section temporaries.
Context (d : defref) (b : bref) (ts : typetab).

Lemma create_var_ok t p : ready d b ts 1 p → is_void t = false →
  ∃ q r, create_var (Some d) t p = Ok (q, temp r t) ∧ emitted d b p q [r] [].
Proof.
  intros [[envs Ht] _ [x Hx] [B HB] Hc] Hv. unfold create_var.
  destruct (create_temporary_ok (ps_tab p) envs t Ht) as (s & r & Hs & Hok & Hty & Hi & Hni & Hsub & Hkeep & Hr & Hn); [lia|].
  exists (ps_set_def d (add_local r x) (ps_set_tab s p)), r. rewrite Hv. split.
  - change (bool_decide (Some d ≠ None)) with true. rewrite (E_step _ _ p p tt) by done. rewrite (E_step _ _ p p tt) by done.
    rewrite (E_step _ _ p (ps_set_tab s p) r) by (unfold on_symbols; by rewrite Hs).
    rewrite (E_step _ _ _ (ps_set_tab s p) (Var DIRECT t (Some r) 0 0 0 false 0)).
    2:{ unfold var_direct. erewrite E_step; [|unfold the_symbol, get_sym; cbn; by rewrite Hr]. done. }
    unfold change_def. rewrite (E_step _ _ _ (ps_set_def d (add_local r x) (ps_set_tab s p)) tt); [done|].
    rewrite (E_step _ _ _ (ps_set_tab s p) x) by (unfold the_def; cbn; by rewrite Hx). done.
  - split; try done.
    + intros B' HB'. exists (b_expr B'). cbn. by rewrite insert_id; [|rewrite add_no_code].
    + intros x' Hx'. cbn. assert (x' = x) as -> by congruence. done.
    + split; [apply NoDup_singleton|]. intros r' ->%list_elem_of_singleton. by split.
    + intros r' y Hr' Hy. exists y. split; [|by left]. cbn. rewrite Hkeep; [done|]. by intros ->.
    + intros envs' Henvs. destruct (create_temporary_ok (ps_tab p) envs' t Henvs) as (s' & r' & Hs' & Hok' & _); [lia|].
      rewrite Hs in Hs'. by injection Hs' as <- <-.
Qed.

Lemma emit_ok st t e p : is_Some (ps_blocks p !! b) → is_Some (ps_defs p !! d) →
  ∃ q, emit_ir (Some b) st t e p = Ok (q, tt) ∧ emitted d b p q [] [Statement st 0 t e].
Proof.
  intros [B HB] [x Hx]. exists (ps_set_block b (add_code [Statement st 0 t e] B) p). split.
  - unfold emit_ir, change_block. rewrite (E_step _ _ p p B) by (unfold the_block, get_block; by rewrite HB). done.
  - split; try done.
    + intros B' HB'. exists (b_expr B). assert (B' = B) as -> by congruence. cbn. by destruct B.
    + intros x' Hx'. cbn. rewrite insert_id; [done|]. rewrite Hx'. f_equal. destruct x'. unfold add_locals. cbn. by rewrite app_nil_r.
    + split; [constructor|]. intros r Hr. by apply elem_of_nil in Hr.
    + intros r y _ Hy. exists y. split; [done|by left].
    + cbn. lia.
Qed.
End temporaries.

(** * Folding of constants

    The operators of eval.c on 64-bit values compute the operator of C in the
    common type of the operands, whenever that is defined. *)

(** ** Members of a constant *)

Lemma range_64 k a : in_range k a = true →
  if isigned k then in_range I64 a = true else in_range U64 a = true.
Proof.
  intros H%in_range_spec. assert ((if isigned k then - 2 ^ 63 else 0) ≤ a < if isigned k then 2 ^ 63 else 2 ^ 64).
  { destruct k; cbn in *; lia. }
  destruct (isigned k); apply in_range_spec; done.
Qed.

Lemma member_value k a : in_range k a = true →
  (if isigned k then val_i (wrap_u 64 a) else val_u (wrap_u 64 a)) = a.
Proof.
  intros H%range_64. destruct (isigned k).
  - change (conv I64 (wrap_u 64 a) = a). by rewrite conv_u64, conv_small.
  - change (conv U64 (wrap_u 64 a) = a). by rewrite conv_u64, conv_small.
Qed.
Lemma signed_value k a : in_range k a = true → isigned k = true → val_i (wrap_u 64 a) = a.
Proof. intros H Hk. pose proof (member_value k a H) as Hm. by rewrite Hk in Hm. Qed.
Lemma unsigned_value k a : in_range k a = true → isigned k = false → val_u (wrap_u 64 a) = a.
Proof. intros H Hk. pose proof (member_value k a H) as Hm. by rewrite Hk in Hm. Qed.

Lemma zero_value k a : in_range k a = true → (val_u (wrap_u 64 a) =? 0) = (a =? 0).
Proof.
  intros H. destruct (isigned k) eqn:Hk; [|by rewrite (unsigned_value k)].
  apply range_64 in H. rewrite Hk in H. unfold val_u. rewrite wrap_u_wrap_u by lia.
  apply in_range_spec in H. cbn in H. unfold wrap_u.
  destruct (Z.eqb_spec a 0) as [->|Hn]; [done|]. apply Z.eqb_neq. intros Hm. apply Z.mod_divide in Hm; [|done].
  destruct Hm as [q Hq]. nia.
Qed.

(** A 64-bit value whose lower bits are those of [a]. *)
Lemma conv_member k n : conv k (if isigned k then val_i n else val_u n) = conv k n.
Proof.
  destruct (isigned k).
  - apply (conv_conv k I64). pose proof (iwidth_pos k); cbn; lia.
  - apply conv_u64.
Qed.

Lemma wrap_idem a : wrap_u 64 (wrap_u 64 a) = wrap_u 64 a.
Proof. apply wrap_u_wrap_u. lia. Qed.

Section fold.
Context `{FA : FloatArith}.

Lemma int_member t k n : int_type t k → real_member t n = None.
Proof. intros [? ? ? ? Hf Hd Hl _ _ _ _ _ _]%int_type_facts. unfold real_member. by rewrite Hf, Hd, Hl. Qed.

Lemma convert_integer_int t k n k' : int_type t k →
  convert_integer n t k' = Ok (wrap_u 64 (conv k' (if isigned k then val_i n else val_u n))).
Proof.
  intros Ht. pose proof (int_type_facts t k Ht) as Hf. unfold convert_integer, is_float_below, is_float_above, cast_immediate.
  rewrite (int_member t k n Ht). rewrite (if_signed _ _ Hf), (if_unsigned _ _ Hf).
  destruct (isigned k); done.
Qed.

(** [convert] between integer types. *)
Lemma convert_int t k t' k' n : int_type t k → int_type t' k' → is_bool t' = false →
  convert n t t' = Ok (wrap_u 64 (conv k' (if isigned k then val_i n else val_u n))).
Proof.
  intros Ht Ht' Hb. pose proof (int_type_cases t' k' Ht') as (Hp & _ & Hc). unfold convert. rewrite (it_ity _ _ Ht').
  unfold is_bool, type_is in Hb. unfold type_of in *. rewrite Hp in *. apply bool_decide_eq_false in Hb.
  assert (He : t_type t' ∈ [T_BOOL; T_CHAR; T_SHORT; T_INT; T_LONG]).
  { apply (list_elem_of_fmap_2 fst) in Hc. by destruct (t_unsigned t'). }
  repeat (apply elem_of_cons in He as [He|He]; [rewrite He in *; first [by destruct Hb|by apply convert_integer_int]|]).
  by apply elem_of_nil in He.
Qed.

Lemma convert_bool t k t' n : int_type t k → is_bool t' = true →
  convert n t t' = Ok (Z.b2z (negb (val_u n =? 0))).
Proof.
  intros Ht Hb. unfold is_bool, type_is in Hb. apply bool_decide_eq_true in Hb. unfold convert. rewrite Hb.
  unfold is_zero_value. rewrite (if_scalar _ _ (int_type_facts _ _ Ht)), (int_member t k n Ht). done.
Qed.

(** The value of a constant that is cast. *)
Lemma convert_value t k t' k' a : int_type t k → int_type t' k' → in_range k a = true →
  convert (wrap_u 64 a) t t' = Ok (wrap_u 64 (c_int_cast t' a)).
Proof.
  intros Ht Ht' Ha. unfold c_int_cast. destruct (is_bool t') eqn:Hb.
  - rewrite (convert_bool t k) by done. rewrite (zero_value k a Ha). by destruct (a =? 0).
  - rewrite (convert_int t k t' k') by done. rewrite (member_value k a Ha), (it_ity _ _ Ht'). done.
Qed.

(** ** Results *)

Lemma imm_signed_ok t k n : int_type t k → isigned k = true → imm_signed t n = Ok (var_numeric t (wrap_u 64 n)).
Proof. intros Ht Hk. unfold imm_signed. by rewrite (if_signed _ _ (int_type_facts _ _ Ht)), Hk. Qed.

Lemma imm_unsigned_ok t k n : int_type t k → isigned k = false → imm_unsigned t n = Ok (var_numeric t (conv k n)).
Proof.
  intros Ht Hk. pose proof (int_type_facts t k Ht) as Hf. unfold imm_unsigned.
  rewrite (if_unsigned _ _ Hf), Hk. cbn [negb c_assert mbind outcome_bind].
  pose proof (if_size _ _ Hf 0%nat []) as Hs. rewrite Hs. cbn [mbind outcome_bind].
  assert (Hm : ∀ w, 0 ≤ w ≤ 64 → Z.land (wrap_u 64 n) (Z.ones w) = wrap_u w n).
  { intros w Hw. rewrite Z.land_ones by lia. apply (wrap_u_wrap_u w 64). lia. }
  destruct k; try discriminate Hk; change (conv _ n) with (wrap_u 8 n) || change (conv _ n) with (wrap_u 16 n)
    || change (conv _ n) with (wrap_u 32 n) || change (conv _ n) with (wrap_u 64 n).
  - rewrite <-(Hm 8) by lia. done.
  - rewrite <-(Hm 16) by lia. done.
  - rewrite <-(Hm 32) by lia. done.
  - done.
Qed.

Definition promoted (k : ity) : Prop := promote k = k.

Lemma wide_arith o k a b z : promoted k → c_arith o k a b = Ok z →
  ∃ z', c_arith o (if isigned k then I64 else U64) a b = Ok z' ∧ conv k z' = z ∧ (isigned k = true → z' = z).
Proof.
  intros Hk H. destruct (isigned k) eqn:Hs.
  - exists z. assert (Hc : ∀ x, c_result k x = Ok z → c_result I64 x = Ok z ∧ conv k z = z).
    { intros x. unfold c_result. rewrite Hs. cbn [isigned]. destruct (in_range k x) eqn:Hx; [|done]. intros [= <-].
      pose proof (range_64 k x Hx) as H64. rewrite Hs in H64. rewrite H64. split; [done|]. by apply conv_small. }
    destruct o; cbn [c_arith] in *; try (destruct (Hc _ H); done).
    destruct (b =? 0); [done|]. destruct (Hc _ H); done.
  - assert (Hc : ∀ x, c_result k x = Ok z → ∃ z', c_result U64 x = Ok z' ∧ conv k z' = z ∧ (false = true → z' = z)).
    { intros x. unfold c_result. rewrite Hs. cbn [isigned]. intros [= <-]. eexists. split; [done|]. split; [|done]. apply conv_u64. }
    destruct o; cbn [c_arith] in *; try by apply Hc. destruct (b =? 0); [done|]. by apply Hc.
Qed.

(** [eval_arithmetic_immediate] followed by [cast]. *)
Lemma fold_arith t k o l r a b z : int_type t k → promoted k → v_imm l = wrap_u 64 a → v_imm r = wrap_u 64 b →
  in_range k a = true → in_range k b = true → c_arith o k a b = Ok z →
  ∃ n, eval_arithmetic_immediate t l o r = Ok (var_numeric t n) ∧ conv k n = z.
Proof.
  intros Ht Hk Hl Hr Ha Hb Hz. pose proof (int_type_facts t k Ht) as Hf. unfold eval_arithmetic_immediate.
  rewrite Hl, Hr, (if_signed _ _ Hf), (if_unsigned _ _ Hf).
  destruct (wide_arith o k a b z Hk Hz) as (z' & Hz' & Hc & _).
  destruct (isigned k) eqn:Hs; cbn [negb orb].
  - rewrite !(signed_value k) by done. rewrite Hz'. cbn [mbind outcome_bind]. rewrite (imm_signed_ok t k) by done.
    eexists. split; [done|]. by rewrite conv_u64.
  - rewrite !(unsigned_value k) by done. rewrite Hz'. cbn [mbind outcome_bind]. rewrite (imm_unsigned_ok t k) by done.
    eexists. split; [done|]. by rewrite conv_conv_same.
Qed.

(** The C operator that [eval_integer_immediate] stands for, on operands
    of the type [k]. *)
Definition int_op_value (o : int_op) (k : ity) (a b : Z) : outcome Z :=
  match o with
  | OMod => c_binop IMod k a b
  | OBit o => c_binop (IBit o) k a b
  | OShl => c_shl k a b
  | OShr => c_shr k a b
  end.

Lemma wide_int_op o k a b z : promoted k → in_range k a = true → int_op_value o k a b = Ok z →
  ∃ z', apply_int_op o (if isigned k then I64 else U64) a b = Ok z' ∧ conv k z' = conv k z.
Proof.
  intros Hk Ha H. unfold promoted in Hk. destruct o as [|o| |]; cbn [int_op_value apply_int_op c_binop] in *.
  - destruct (b =? 0) eqn:Hb; [done|]. apply bind_ok_inv in H as (q & Hq & [= <-]). rewrite Hk in Hq.
    assert (Hd : c_arith ADiv k a b = Ok q) by (cbn; by rewrite Hb).
    destruct (wide_arith ADiv k a b q Hk Hd) as (q' & Hq' & _). cbn [c_arith] in Hq'. rewrite Hb in Hq'.
    exists (Z.rem a b). split; [|done]. destruct (isigned k); cbn [promote]; by rewrite Hq'.
  - exists z. split; [|done]. by injection H as <-.
  - unfold c_shl in *. rewrite Hk in H. destruct ((0 <=? b) && (b <? iwidth k)) eqn:Hb; [|done]. injection H as <-.
    apply andb_prop in Hb as [H0 H1]. apply Z.leb_le in H0. apply Z.ltb_lt in H1. pose proof (iwidth_pos k).
    exists (conv (if isigned k then I64 else U64) (Z.shiftl a b)). split.
    + destruct (isigned k); cbn [promote iwidth]; rewrite (proj2 (Z.leb_le 0 b)), (proj2 (Z.ltb_lt b 64)) by lia; done.
    + rewrite conv_conv_same, conv_conv; [done|]. destruct (isigned k); cbn; lia.
  - unfold c_shr in *. rewrite Hk in H. destruct ((0 <=? b) && (b <? iwidth k)) eqn:Hb; [|done]. injection H as <-.
    apply andb_prop in Hb as [H0 H1]. apply Z.leb_le in H0. apply Z.ltb_lt in H1. pose proof (iwidth_pos k).
    exists (Z.shiftr a b). split; [|done].
    destruct (isigned k); cbn [promote iwidth]; rewrite (proj2 (Z.leb_le 0 b)), (proj2 (Z.ltb_lt b 64)) by lia; done.
Qed.

(** The count of a shift may have another type. *)
Lemma fold_int_op t k o l r a b z : int_type t k → promoted k → v_imm l = wrap_u 64 a →
  (if isigned k then val_i (v_imm r) else val_u (v_imm r)) = b →
  in_range k a = true → int_op_value o k a b = Ok z →
  ∃ n, eval_integer_immediate t l o r = Ok (var_numeric t n) ∧ conv k n = conv k z ∧
    (∀ x, o = OBit x → in_range k b = true → n = wrap_u 64 z).
Proof.
  intros Ht Hk Hl Hr Ha Hz. pose proof (int_type_facts t k Ht) as Hf. unfold eval_integer_immediate.
  destruct (wide_int_op o k a b z Hk Ha Hz) as (z' & Hz' & Hc).
  rewrite Hl, (if_signed _ _ Hf). destruct (isigned k) eqn:Hs.
  - rewrite (signed_value k a), Hr, Hz' by done. cbn [mbind outcome_bind]. rewrite (imm_signed_ok t k) by done.
    eexists. split; [done|]. split; [by rewrite conv_u64|]. intros x -> _. cbn in Hz', Hz. congruence.
  - rewrite (unsigned_value k a), Hr, Hz' by done. cbn [mbind outcome_bind]. rewrite (imm_unsigned_ok t k) by done.
    eexists. split; [done|]. split; [by rewrite conv_conv_same|]. intros x -> Hb. cbn in Hz', Hz.
    assert (z' = z) as -> by congruence. injection Hz as <-.
    pose proof (z_bit_in_range x k a b Ha Hb) as Hin. rewrite conv_small by done.
    pose proof (range_64 _ _ Hin) as H64. rewrite Hs in H64. symmetry. by apply (conv_small U64).
Qed.

Lemma fold_compare t k o l r a b : int_type t k → v_imm l = wrap_u 64 a → v_imm r = wrap_u 64 b →
  in_range k a = true → in_range k b = true →
  eval_immediate_compare t l o r = var_int (Z.b2z (z_cmp o a b)).
Proof.
  intros Ht Hl Hr Ha Hb. pose proof (int_type_facts t k Ht) as Hf. unfold eval_immediate_compare.
  rewrite Hl, Hr, (if_signed _ _ Hf), (if_unsigned _ _ Hf). destruct (isigned k) eqn:Hs; cbn [negb orb].
  - by rewrite !(signed_value k).
  - by rewrite !(unsigned_value k).
Qed.

Lemma fold_not t k v a : int_type t k → promoted k → v_imm v = wrap_u 64 a → in_range k a = true →
  (if is_signed t then imm_signed t (Z.lnot (val_i (v_imm v))) else imm_unsigned t (Z.lnot (val_u (v_imm v)))) =
  Ok (var_numeric t (wrap_u 64 (conv k (Z.lnot a)))).
Proof.
  intros Ht Hk Hv Ha. pose proof (int_type_facts t k Ht) as Hf. rewrite Hv, (if_signed _ _ Hf).
  destruct (isigned k) eqn:Hs.
  - rewrite (signed_value k a) by done. rewrite (imm_signed_ok t k) by done. do 3 f_equal. symmetry. apply conv_small.
    apply in_range_spec. apply in_range_spec in Ha. rewrite Hs in *. unfold Z.lnot. lia.
  - rewrite (unsigned_value k a) by done. rewrite (imm_unsigned_ok t k) by done. do 2 f_equal.
    symmetry. apply (conv_small U64). pose proof (range_64 k _ (conv_range k (Z.lnot a))) as H. by rewrite Hs in H.
Qed.
End fold.
