(* ===== verification/EvalSem.v ===== *)
(** * What emitted code computes

    Memories that differ in the storage of temporaries that are still to come
    ([off]), operands whose value such differences do not change ([steady]),
    and the triples [gives] that carry both through the evaluation of an
    operator on integers. *)

From stdpp Require Import base list gmap numbers strings.
From Stdlib Require Import ZArith Lia.
From S2P Require Import Prelude Memory CType Floats CArith Strings Symbol Typetree Symtab Immediate Ir IrSem Cfg Eval EvalProps VmMove VmGenSem.

Local Open Scope Z_scope.

Section semantics.
(** [K] says that all there is are constants; then nothing is emitted. *)
Context (K : Prop) `{FA : FloatArith} (d0 : nat) (ts : typetab) (ys : symbols) (M : machine) (d : defref) (b : bref).
Abbreviation depth := (S d0).
Abbreviation ir_eval := (IrSem.eval depth ts ys M).
Abbreviation compute := (IrSem.compute depth ts ys M).
Abbreviation exec_code := (IrSem.exec_code depth ts ys M).

(** ** Memory *)

Definition off (U : list symref) (m m' : mem) : Prop :=
  dom m' = dom m ∧ ∀ a, (∀ r, r ∈ U → ¬ (addr M r ≤ a < addr M r + 8)) → m' !! a = m !! a.

Lemma off_refl U m : off U m m.
Proof. done. Qed.
Lemma off_trans U m m' m'' : off U m m' → off U m' m'' → off U m m''.
Proof. intros [A B] [C D]. split; [congruence|]. intros a Ha. by rewrite D, B. Qed.
Lemma off_mono U U' m m' : U ⊆ U' → off U m m' → off U' m m'.
Proof. intros H [A B]. split; [done|]. intros a Ha. apply B. auto. Qed.

(** Eight bytes for each temporary, apart from each other. *)
Definition layout (m : mem) (U : list symref) : Prop :=
  NoDup U ∧ (∀ r, r ∈ U → mapped m (addr M r) 8) ∧
  ∀ r r', r ∈ U → r' ∈ U → r ≠ r' → addr M r + 8 ≤ addr M r' ∨ addr M r' + 8 ≤ addr M r.

Lemma layout_next l U V m m' : layout m (l ++ U) → off V m m' → layout m' U.
Proof.
  intros (N & A & B) [C _]. apply NoDup_app in N as (_ & _ & N). split; [done|split].
  - intros r Hr x Hx. apply elem_of_dom. rewrite C. apply elem_of_dom. apply (A r); [set_solver|done].
  - intros r r' Hr Hr'. apply B; set_solver.
Qed.
Lemma layout_before l U m : layout m (l ++ U) → layout m l.
Proof.
  intros (N & A & B). apply NoDup_app in N as (N & _ & _). split; [done|]. split; intros r; [|intros r' Hr Hr'; apply B; set_solver]. intros Hr. apply A. set_solver. Qed.

(** [v] has the bytes [bs], whatever the temporaries [U] hold. *)
Definition steady (U : list symref) (m : mem) (v : var) (bs : list Z) : Prop :=
  ∀ m', off U m m' → ir_eval m' v = Some bs.

Lemma steady_next l U m m' v bs : steady (l ++ U) m v bs → off l m m' → steady U m' v bs.
Proof.
  intros H Ho m'' Ho'. apply H. apply (off_trans _ _ m').
  - by apply (off_mono l); [set_solver|].
  - by apply (off_mono U); [set_solver|].
Qed.

(** ** Operands *)

(** A variable of the kind [k] with the value [a]; a constant is kept sign- or
    zero-extended. *)
Record shape (v : var) (k : ity) (a : Z) : Prop := Shape {
  sh_type : int_type (v_type v) k;
  sh_range : in_range k a = true;
  sh_bool : is_bool (v_type v) = true → a = 0 ∨ a = 1;
  sh_field : is_field v = false;
  sh_const : K → v_kind v = IMMEDIATE;
  sh_imm : v_kind v = IMMEDIATE → v_symbol v = None ∧ v_offset v = 0 ∧ v_imm v = wrap_u 64 a
}.

Lemma bytes_of_int t k : int_type t k → bytes_of depth ts t = Some (isize k).
Proof. intros Ht. unfold bytes_of. rewrite (if_size _ _ (int_type_facts _ _ Ht)). by rewrite Nat2Z.id. Qed.

Lemma le_enc_wrap k a : le_enc (isize k) (wrap_u 64 a) = le_enc (isize k) a.
Proof.
  apply le_enc_proper. rewrite <-iwidth_isize. apply (eqm_le _ 64); [pose proof (iwidth_pos k); lia|].
  apply eqm_wrap_u. lia.
Qed.
Lemma bytes_conv k a : le_enc (isize k) (conv k a) = le_enc (isize k) a.
Proof. apply le_enc_proper. rewrite <-iwidth_isize. apply eqm_conv. Qed.
Lemma le_dec_value k a : in_range k a = true → conv k (le_dec (le_enc (isize k) a)) = a.
Proof.
  intros Ha. rewrite le_dec_enc, <-iwidth_isize. rewrite <-(conv_small k a Ha) at 2. apply conv_proper.
  apply eqm_wrap_u. pose proof (iwidth_pos k). lia.
Qed.

(** A constant has its value in every memory. *)
Lemma steady_imm U m v k a : shape v k a → v_kind v = IMMEDIATE → steady U m v (le_enc (isize k) a).
Proof.
  intros Hv Hk m' _. destruct (sh_imm _ _ _ Hv Hk) as (Hs & _ & Hi).
  unfold IrSem.eval. rewrite Hk, Hs, (bytes_of_int _ _ (sh_type _ _ _ Hv)). cbn. by rewrite Hi, le_enc_wrap.
Qed.

(** A variable apart from the temporaries. *)
Lemma steady_direct U m v s n bs : v_kind v = DIRECT → v_symbol v = Some s → bytes_of depth ts (v_type v) = Some n →
  (∀ r, r ∈ U → addr M s + v_offset v + Z.of_nat n ≤ addr M r ∨ addr M r + 8 ≤ addr M s + v_offset v) →
  ir_eval m v = Some bs → steady U m v bs.
Proof.
  intros Hk Hs Hn HU He m' [_ Ho]. unfold IrSem.eval, IrSem.location in *. rewrite Hk, Hs in *. cbn [mbind option_bind] in *.
  unfold IrSem.fetch in *. rewrite Hn in *. cbn [mbind option_bind] in *. rewrite (mread_ext m' m); [done|].
  intros a Ha. apply Ho. intros r Hr Hin. specialize (HU r Hr). lia.
Qed.

Lemma shape_numeric t k a : int_type t k → in_range k a = true → (is_bool t = true → a = 0 ∨ a = 1) →
  shape (var_numeric t (wrap_u 64 a)) k a.
Proof. intros Ht Ha Hb. by split. Qed.

(** ** Results of operators *)

(** An expression: a variable, or an operation still to be committed. *)
Record eshape (e : expression) (k : ity) (a : Z) : Prop := Eshape {
  es_type : int_type (ex_type e) k;
  es_range : in_range k a = true;
  es_bool : is_bool (ex_type e) = true → a = 0 ∨ a = 1;
  es_form : (∃ v, e = as_expr v ∧ shape v k a) ∨ (is_identity depth ts e = Ok false ∧ ¬ K)
}.

(** The value of an expression behind the code emitted so far. *)
Definition yields (U : list symref) (m : mem) (e : expression) (bs : list Z) : Prop :=
  (∀ v, e = as_expr v → steady U m v bs) ∧
  ∀ m', off U m m' → compute (m', []) e = Some ((m', []), bs).

Lemma identity_as_expr v : is_identity depth ts (as_expr v) = Ok true.
Proof. unfold is_identity, as_expr. cbn [ex_op ex_type ex_l]. by apply type_equal_same. Qed.

Lemma eshape_var v k a : shape v k a → eshape (as_expr v) k a.
Proof. intros Hv. split; [apply Hv|apply Hv|apply (sh_bool _ _ _ Hv)|]. left. by exists v. Qed.

(** ** Triples *)

Lemma exec_code_app σ c c' : exec_code σ (c ++ c') = (σ' ← exec_code σ c; exec_code σ' c').
Proof. revert σ. induction c as [|s c IH]; intros σ; cbn; [done|]. destruct (exec depth ts ys M σ s); cbn; [apply IH|done]. Qed.

(** [Rd n] says of the parser that it can make [n] temporaries, [R] what it
    may change when it makes the temporaries [l] and emits the code [c]. *)
Record emission (Rd : Z → parser → Prop) (R : parser → parser → list symref → list statement → Prop) : Prop := Emission {
  em_none n p : Rd n p → R p p [] [];
  em_then n p q r l l' c c' : Rd n p → R p q l c → R q r l' c' → R p r (l ++ l') (c ++ c');
  em_left n n' p q l c : Rd n p → R p q l c → n' + Z.of_nat (length l) ≤ n → Rd n' q;
  em_less n n' p : Rd n p → n' ≤ n → Rd n' p
}.

(** Room for [n] temporaries is enough for [G] to return; [St] holds of the
    result, and if [Pre] holds of memory before the emitted code, [Post] holds
    behind it. *)
Definition triple {A} Rd (R : parser → parser → list symref → list statement → Prop) (n : Z) (G : E A) (St : A → Prop)
    (Pre : mem → list symref → Prop) (Post : A → mem → list symref → Prop) : Prop :=
  ∀ p, Rd n p → ∃ q a l c, G p = Ok (q, a) ∧ R p q l c ∧ Z.of_nat (length l) ≤ n ∧ St a ∧
    ∀ m U, layout m (l ++ U) → Pre m (l ++ U) →
    ∃ m', exec_code (m, []) c = Some (m', []) ∧ off l m m' ∧ Post a m' U.

Section triple.
Context {Rd : Z → parser → Prop} {R : parser → parser → list symref → list statement → Prop} (HR : emission Rd R).
Abbreviation triple := (triple Rd R).

Lemma triple_ret {A} n (a : A) (St : A → Prop) (Pre : mem → list symref → Prop) (Post : A → mem → list symref → Prop) :
  0 ≤ n → St a → (∀ m U, Pre m U → Post a m U) → triple n (mret a) St Pre Post.
Proof.
  intros Hn Ha Hp p Hp'. exists p, a, [], []. split; [done|]. split; [by eapply em_none|]. split; [done|].
  split; [done|]. intros m U _ Hpre. exists m. split; [done|]. split; [apply off_refl|]. by apply Hp.
Qed.

Lemma triple_bind {A B} n1 n2 n (G : E A) (F : A → E B) (St1 : A → Prop) (St : B → Prop) Pre1 Post1 (Pre : mem → list symref → Prop)
    (Pre2 : A → mem → list symref → Prop) Post :
  triple n1 G St1 Pre1 Post1 → (∀ a, St1 a → triple n2 (F a) St (Pre2 a) Post) → 0 ≤ n1 → 0 ≤ n2 → n1 + n2 ≤ n →
  (∀ m U, Pre m U → Pre1 m U) →
  (∀ a l U m m', St1 a → Pre m (l ++ U) → off l m m' → Post1 a m' U → Pre2 a m' U) →
  triple n (G ≫= F) St Pre Post.
Proof.
  intros HG HF H1 H2 Hn Hpre Hmid p Hp.
  destruct (HG p) as (q & a & l & c & Eg & Em & Hl & Ha & Hrun); [eapply em_less; [done|exact Hp|lia]|].
  destruct (HF a Ha q) as (r & a' & l' & c' & Ef & Em' & Hl' & Ha' & Hrun').
  { eapply em_left; [done|exact Hp|exact Em|lia]. }
  exists r, a', (l ++ l'), (c ++ c'). split; [by rewrite (E_step _ _ _ _ _ Eg)|].
  split; [by eapply em_then|]. split; [rewrite length_app; lia|]. split; [done|].
  intros m U Hlay HP. rewrite <-app_assoc in Hlay, HP.
  destruct (Hrun m (l' ++ U) Hlay (Hpre _ _ HP)) as (m1 & Hx & Ho & Hpost).
  destruct (Hrun' m1 U) as (m2 & Hx' & Ho' & Hpost').
  { by eapply layout_next. }
  { by eapply Hmid. }
  exists m2. split; [rewrite exec_code_app, Hx; cbn; done|]. split; [|done].
  apply (off_trans _ _ m1); [by apply (off_mono l); [set_solver|]|by apply (off_mono l'); [set_solver|]].
Qed.

(** A computation that only looks, in front of another. *)
Lemma triple_look {A B} n (G : E A) (F : A → E B) a (St : B → Prop) Pre Post :
  (∀ p, Rd n p → G p = Ok (p, a)) → triple n (F a) St Pre Post → triple n (G ≫= F) St Pre Post.
Proof.
  intros HG HF p Hp. destruct (HF p Hp) as (q & a' & l & c & He & Hr). exists q, a', l, c. split; [|done].
  by rewrite (E_step _ _ _ _ _ (HG p Hp)).
Qed.

Lemma triple_ext {A} n (G G' : E A) (St : A → Prop) Pre Post : (∀ p, G p = G' p) → triple n G' St Pre Post → triple n G St Pre Post.
Proof.
  intros HG HG' p Hp. destruct (HG' p Hp) as (q & a & l & c & He & Hr). exists q, a, l, c. by rewrite HG.
Qed.

Lemma triple_weaken {A} n n' (G : E A) (St St' : A → Prop) (Pre Pre' : mem → list symref → Prop)
    (Post Post' : A → mem → list symref → Prop) :
  triple n G St Pre Post → n ≤ n' → (∀ a, St a → St' a) → (∀ m U, Pre' m U → Pre m U) →
  (∀ a m U, St a → Post a m U → Post' a m U) → triple n' G St' Pre' Post'.
Proof.
  intros HG Hn HSt HPre HPost p Hp. destruct (HG p) as (q & a & l & c & He & Hem & Hl & Ha & Hrun).
  { by eapply em_less. }
  exists q, a, l, c. split; [done|]. split; [done|]. split; [lia|]. split; [auto|].
  intros m U Hlay HP. destruct (Hrun m U Hlay (HPre _ _ HP)) as (m' & ? & ? & ?). exists m'. auto.
Qed.
End triple.

(** Triples about evaluation; with [K] nothing at all changes. *)
Definition changes (p q : parser) (l : list symref) (c : list statement) : Prop :=
  emitted d b p q l c ∧ (K → q = p ∧ l = [] ∧ c = []).
Definition gives {A} (n : Z) (G : E A) (St : A → Prop) (Pre : mem → list symref → Prop)
    (Post : A → mem → list symref → Prop) : Prop :=
  triple (ready d b ts) changes n G St Pre Post.

Lemma changes_emission : emission (ready d b ts) changes.
Proof.
  split.
  - intros n p Hp. split; [by apply emitted_refl; apply Hp|done].
  - intros n p q r l l' c c' Hp [Em HK] [Em' HK']. split; [by eapply emitted_trans; [apply Hp|apply Hp| |]|].
    intros H. destruct (HK H) as (-> & -> & ->), (HK' H) as (-> & -> & ->). done.
  - intros n n' p q l c Hp [Em _] Hn. by eapply ready_emitted.
  - intros n n' p Hp Hn. by eapply ready_le.
Qed.

Lemma gives_ret {A} n (a : A) (St : A → Prop) (Pre : mem → list symref → Prop) (Post : A → mem → list symref → Prop) :
  0 ≤ n → St a → (∀ m U, Pre m U → Post a m U) → gives n (mret a) St Pre Post.
Proof. apply triple_ret, changes_emission. Qed.

(** A computation that changes nothing. *)
Lemma gives_pure {A} n (G : E A) a (St : A → Prop) (Pre : mem → list symref → Prop) (Post : A → mem → list symref → Prop) :
  0 ≤ n → (∀ p, ready d b ts n p → G p = Ok (p, a)) → St a → (∀ m U, Pre m U → Post a m U) → gives n G St Pre Post.
Proof.
  intros Hn HG Ha Hp p Hp'. destruct (gives_ret n a St Pre Post Hn Ha Hp p Hp') as (q & a' & l & c & He & Hr).
  injection He as <- <-. exists p, a, l, c. split; [by apply HG|done].
Qed.

Lemma gives_bind {A B} n1 n2 n (G : E A) (F : A → E B) (St1 : A → Prop) (St : B → Prop) Pre1 Post1 (Pre : mem → list symref → Prop)
    (Pre2 : A → mem → list symref → Prop) Post :
  gives n1 G St1 Pre1 Post1 → (∀ a, St1 a → gives n2 (F a) St (Pre2 a) Post) → 0 ≤ n1 → 0 ≤ n2 → n1 + n2 ≤ n →
  (∀ m U, Pre m U → Pre1 m U) →
  (∀ a l U m m', St1 a → Pre m (l ++ U) → off l m m' → Post1 a m' U → Pre2 a m' U) →
  gives n (G ≫= F) St Pre Post.
Proof. apply triple_bind, changes_emission. Qed.

Lemma gives_look {A B} n (G : E A) (F : A → E B) a (St : B → Prop) Pre Post :
  (∀ p, ready d b ts n p → G p = Ok (p, a)) → gives n (F a) St Pre Post → gives n (G ≫= F) St Pre Post.
Proof. apply triple_look. Qed.

Lemma gives_weaken {A} n n' (G : E A) (St St' : A → Prop) (Pre Pre' : mem → list symref → Prop)
    (Post Post' : A → mem → list symref → Prop) :
  gives n G St Pre Post → n ≤ n' → (∀ a, St a → St' a) → (∀ m U, Pre' m U → Pre m U) →
  (∀ a m U, St a → Post a m U → Post' a m U) → gives n' G St' Pre' Post'.
Proof. apply triple_weaken, changes_emission. Qed.

Lemma gives_ext {A} n (G G' : E A) (St : A → Prop) Pre Post : (∀ p, G p = G' p) → gives n G' St Pre Post → gives n G St Pre Post.
Proof. apply triple_ext. Qed.

(** ** Variables *)

Hypothesis Hop : ∀ e l r, operate M e l r = c_operate e l r.

Lemma yields_var U m v k a : shape v k a → steady U m v (le_enc (isize k) a) →
  yields U m (as_expr v) (le_enc (isize k) a).
Proof.
  intros Hv Hs. split.
  { intros v' He. by assert (v' = v) as -> by (unfold as_expr in He; congruence). }
  intros m' Ho. unfold IrSem.compute, as_expr. cbn [ex_op ex_l ex_r ex_type binary]. rewrite (Hs m' Ho). cbn [mbind option_bind].
  rewrite Hop. unfold c_operate. cbn [ex_op ex_l ex_type]. rewrite (it_ity _ _ (sh_type _ _ _ Hv)). cbn [mbind option_bind].
  rewrite (le_dec_value k a (sh_range _ _ _ Hv)).
  destruct (is_bool (v_type v)) eqn:Eb; [done|]. unfold c_int_cast. rewrite Eb, (it_ity _ _ (sh_type _ _ _ Hv)). cbn.
  by rewrite bytes_conv.
Qed.
End semantics.
