(* ===== verification/EvalOps.v ===== *)
(** * Operators on integers

    Each operator of eval.c, on operands of integer types, gives an expression
    with the value of the C operator, whether it is folded or emitted. *)

From stdpp Require Import base list gmap numbers strings.
From Stdlib Require Import ZArith Lia.
From S2P Require Import Prelude Memory CType Floats CArith Strings Symbol Typetree TypetreeSpec Symtab Immediate Ir IrSem Cfg Eval Assign EvalProps EvalSem VmMove VmGenSem.

Local Open Scope Z_scope.

(** ** Common types *)

Record common (t : ctype) (k : ity) : Prop := Common {
  cm_int : int_type t k;
  cm_bool : is_bool t = false;
  cm_promoted : promoted k
}.

Lemma common_promote k1 k2 : promoted (common_type (promote k1) (promote k2)).
Proof. by destruct k1, k2. Qed.

(** The integer type of an enumerator of types, and back. *)
Ltac int_cases H :=
  let Hp := fresh in let Hr := fresh in let Hc := fresh in
  apply int_type_cases in H as (Hp & Hr & Hc);
  match type of Hp with t_pointer ?t = _ => destruct t as [? [] ? ? ? ? ? ? ? ?]; cbn in Hp, Hr, Hc; subst end;
  repeat (apply elem_of_cons in Hc as [[= -> ->]|Hc]); try (by apply elem_of_nil in Hc).

Lemma promote_int t k : int_type t k → ∃ t', promote_integer t = Ok t' ∧ common t' (promote k).
Proof. intros H. int_cases H; (eexists; split; [reflexivity|]; repeat split). Qed.

Lemma conversion_int t1 k1 t2 k2 : int_type t1 k1 → int_type t2 k2 →
  ∃ t, usual_arithmetic_conversion t1 t2 = Ok t ∧ common t (common_type (promote k1) (promote k2)).
Proof.
  intros H1 H2. int_cases H1; int_cases H2; (eexists; split; [reflexivity|]; repeat split).
Qed.

Lemma cast_bit t k a : int_type t k → a = 0 ∨ a = 1 → c_int_cast t a = a.
Proof.
  intros Ht Ha. unfold c_int_cast. destruct (is_bool t); [by destruct Ha as [->| ->]|].
  rewrite (it_ity _ _ Ht). cbn. by destruct Ha as [->| ->], k.
Qed.
Lemma cast_same t k a : int_type t k → in_range k a = true → (is_bool t = true → a = 0 ∨ a = 1) → c_int_cast t a = a.
Proof.
  intros Ht Ha Hb. destruct (is_bool t) eqn:E; [by apply (cast_bit t k); auto|].
  unfold c_int_cast. rewrite E, (it_ity _ _ Ht). by apply conv_small.
Qed.
Lemma cast_common t k a : common t k → c_int_cast t a = conv k a.
Proof. intros [Ht Hb _]. unfold c_int_cast. by rewrite Hb, (it_ity _ _ Ht). Qed.
Lemma cast_range t k a : int_type t k → in_range k (c_int_cast t a) = true.
Proof.
  intros Ht. unfold c_int_cast. rewrite (it_ity _ _ Ht). destruct (is_bool t); [|apply conv_range].
  by destruct (a =? 0), k.
Qed.
Lemma cast_is_bool t a : is_bool t = true → c_int_cast t a = 0 ∨ c_int_cast t a = 1.
Proof. intros Hb. unfold c_int_cast. rewrite Hb. destruct (a =? 0); auto. Qed.

Lemma to_option_inv {A} (o : outcome A) a : to_option o = Some a → o = Ok a.
Proof. destruct o; cbn; congruence. Qed.

Lemma promoted_not_bool t k : int_type t k → promoted k → is_bool t = false.
Proof.
  intros Ht Hk. destruct (is_bool t) eqn:Hb; [|done]. pose proof (it_ity _ _ Ht) as Hi.
  unfold is_bool, type_is in Hb. apply bool_decide_eq_true in Hb. unfold ity_of in Hi. rewrite Hb in Hi.
  injection Hi as <-. discriminate Hk.
Qed.

Lemma int_basic_int : int_type basic_type__int I32.
Proof. done. Qed.
Lemma common_int : common basic_type__int I32.
Proof. done. Qed.

Section operators.
Context (K : Prop) `{FA : FloatArith} (d0 : nat) (ts : typetab) (ys : symbols) (M : machine) (d : defref) (b : bref).
Abbreviation depth := (S d0).
Hypothesis Hop : ∀ e l r, operate M e l r = c_operate e l r.
Context (k k0 : knot).
Hypothesis Hknot : ∀ D B op v a p, k_eval_expr k D B op v a p = eval_expr depth k0 D B op v a p.

Abbreviation gives := (gives K d0 ts ys M d b).
Abbreviation shape := (shape K).
Abbreviation steady := (steady d0 ts ys M).
Abbreviation yields := (yields d0 ts ys M).
Abbreviation eshape := (eshape K d0 ts).
Abbreviation bytes k a := (le_enc (isize k) a).

(** ** Committing an expression *)

Lemma yields_op U m e bs : is_identity depth ts e = Ok false →
  (∀ m', off M U m m' → IrSem.compute depth ts ys M (m', []) e = Some ((m', []), bs)) → yields U m e bs.
Proof.
  intros Hi Hc. split; [|done]. intros v ->. by rewrite identity_as_expr in Hi.
Qed.

Lemma identity_ok e p n : ready d b ts n p → identity depth e p = (i ← is_identity depth ts e; Ok (p, i)).
Proof. intros Hp. unfold identity, on_types. by rewrite (rd_types _ _ _ _ _ Hp). Qed.

(** A temporary holds what is stored in it. *)
Lemma store_temp m r t ka (bs : list Z) U : layout M m (r :: U) → int_type t ka → length bs = isize ka →
  ∃ m', IrSem.store depth ts M m (temp r t) bs = Some m' ∧ off M [r] m m' ∧
    steady U m' (v_set_lvalue false (temp r t)) bs.
Proof.
  intros (Hnd & Hmap & Hdis) Ht Hl. pose proof (iwidth_pos ka) as Hw. rewrite iwidth_isize in Hw.
  assert (Hm : mapped m (addr M r) (isize ka)). { intros x Hx. apply (Hmap r); [by left|lia]. }
  destruct (proj1 (mread_mapped _ _ _) Hm) as [old Hold].
  destruct (mwrite_mapped m (addr M r) bs) as [m' Hw']; [by rewrite Hl|]. exists m'. split.
  { unfold IrSem.store. cbn [IrSem.location temp v_kind v_symbol v_offset v_type]. cbn [mbind option_bind]. rewrite Z.add_0_r.
    rewrite (bytes_of_int _ _ _ _ Ht). cbn [mbind option_bind]. rewrite Hold. cbn. by rewrite decide_True. }
  split.
  { split; [by apply mwrite_dom in Hw'|]. intros a Ha. apply (mwrite_outside _ _ _ _ _ Hw').
    specialize (Ha r ltac:(by left)). rewrite Hl. lia. }
  intros m'' [_ Ho]. unfold IrSem.eval. cbn [temp v_set_lvalue v_kind v_symbol IrSem.location v_offset mbind option_bind].
  unfold IrSem.fetch. cbn [v_type is_field v_field_width]. rewrite (bytes_of_int _ _ _ _ Ht). cbn [mbind option_bind]. rewrite Z.add_0_r.
  rewrite (mread_ext _ m').
  - rewrite <-Hl, (mread_mwrite_same _ _ _ _ Hw'). done.
  - intros x Hx. apply Ho. intros r' Hr' Hin. apply NoDup_cons in Hnd as [Hni _].
    assert (r ≠ r') as Hne by (by intros ->). specialize (Hdis r r' ltac:(by left) ltac:(by right) Hne). lia.
Qed.

Lemma eval_gives e ka a : eshape e ka a →
  gives 1 (eval depth (Some d) (Some b) e) (λ v, shape v ka a ∧ v_type v = ex_type e)
    (λ m U, yields U m e (bytes ka a)) (λ v m U, steady U m v (bytes ka a)).
Proof.
  intros [Ht Hr Hb Hf]. unfold eval.
  destruct Hf as [(v & -> & Hv)|[Hi HnK]].
  { apply (gives_look _ _ _ _ _ _ _ _ _ _ true).
    { intros p Hp. rewrite (identity_ok _ _ _ Hp). by rewrite identity_as_expr. }
    apply gives_ret; [lia|by split|]. intros m U [Hs _]. by apply Hs. }
  apply (gives_look _ _ _ _ _ _ _ _ _ _ false).
  { intros p Hp. rewrite (identity_ok _ _ _ Hp). by rewrite Hi. }
  rewrite (if_void _ _ (int_type_facts _ _ Ht)). intros p Hp.
  destruct (create_var_ok d b ts (ex_type e) p Hp) as (q & r & Hc & Hem); [apply (int_type_facts _ _ Ht)|].
  rewrite (E_step _ _ _ _ _ Hc).
  assert (Hq : ready d b ts 0 q) by (eapply ready_emitted; [exact Hp|exact Hem|done]).
  destruct (emit_ok d b IR_ASSIGN (temp r (ex_type e)) e q) as (q' & He & Hem'); [apply Hq|apply Hq|].
  rewrite (E_step _ _ _ _ _ He). eexists q', _, [r], _. split; [done|].
  split; [split; [apply (emitted_trans d b _ _ _ _ _ _ _ (rd_block _ _ _ _ _ Hp) (rd_def _ _ _ _ _ Hp) Hem Hem')|done]|].
  split; [done|]. split. { split; [|done]. by split. }
  intros m U Hlay [_ Hy]. destruct (store_temp m r (ex_type e) ka (bytes ka a) U Hlay Ht (length_le_enc _ _)) as (m' & Hs & Ho & Hst).
  exists m'. split; [|by split]. cbn [app IrSem.exec_code IrSem.exec st_st st_expr st_t].
  rewrite (Hy m (off_refl _ _ _)). cbn [mbind option_bind fst snd]. by rewrite Hs.
Qed.

(** ** Conversions *)

Lemma rvalue_int v ka a k' p : shape v ka a → rvalue depth k' (Some d) (Some b) v p = Ok (p, v).
Proof.
  intros [Ht _ _ Hf _]. pose proof (int_type_facts _ _ Ht) as F. unfold rvalue.
  by rewrite (if_function _ _ F), (if_array _ _ F), Hf.
Qed.

Lemma size_ok t ka p n : int_type t ka → ready d b ts n p → size_of_type depth t p = Ok (p, Z.of_nat (isize ka)).
Proof.
  intros Ht Hp. unfold size_of_type, on_types. by rewrite (if_size _ _ (int_type_facts _ _ Ht)).
Qed.
Lemma same_type_ok t t' ka ka' p : int_type t ka → int_type t' ka' → same_type depth t t' p = Ok (p, same_int t t').
Proof. intros Ht Ht'. unfold same_type, on_types. by rewrite (int_type_equal _ _ _ _ _ _ Ht Ht'). Qed.
Lemma same_int_refl t : same_int t t = true.
Proof. unfold same_int. by rewrite bool_decide_true, eqb_reflx. Qed.

(** The value of an operation that is neither folded nor a conversion. *)
Definition op_value (op : optype) (kl kr : ity) (a c : Z) : option Z :=
  match op with
  | IR_OP_NOT => to_option (c_not kl a)
  | IR_OP_NEG => to_option (c_neg kl a)
  | IR_OP_SHL => to_option (c_shl kl a c)
  | IR_OP_SHR => to_option (c_shr kl a c)
  | o => match ir_binop o with Some o => to_option (c_binop o kl a c) | None => None end
  end.

Lemma computes_op U m op t l r kl kr kd a c z : int_type t kd → shape l kl a → shape r kr c → binary op = true →
  (op_value op kl kr a c = Some z) → (∀ o, ir_binop op = Some o → kr = kl) → 
  steady U m l (bytes kl a) → steady U m r (bytes kr c) →
  ∀ m', off M U m m' → IrSem.compute depth ts ys M (m', []) (Expression op t l r) = Some ((m', []), bytes kd z).
Proof.
  intros Ht Hl Hr Hb Hv Hkr Hsl Hsr m' Ho. unfold IrSem.compute. cbn [ex_op ex_l ex_r ex_type].
  rewrite (Hsl m' Ho). cbn [mbind option_bind]. rewrite Hb, (Hsr m' Ho). cbn [mbind option_bind]. rewrite Hop.
  assert (Hco : c_operate (Expression op t l r) (bytes kl a) (bytes kr c) = Some (bytes kd z)).
  { unfold c_operate. cbn [ex_op ex_l ex_r ex_type].
    rewrite (it_ity _ _ (sh_type _ _ _ _ Hl)), (it_ity _ _ (sh_type _ _ _ _ Hr)), (it_ity _ _ Ht). cbn [mbind option_bind].
    rewrite (le_dec_value kl a (sh_range _ _ _ _ Hl)). pose proof (le_dec_value kr c (sh_range _ _ _ _ Hr)) as Hc.
    destruct op; try discriminate Hb; cbn [ir_binop op_value mbind option_bind] in *;
      try (rewrite (Hkr _ eq_refl) in Hc |- *); rewrite Hc; try rewrite Hv; done. }
  rewrite Hco. by destruct op.
Qed.

Lemma eshape_op op t l r kd z : int_type t kd → in_range kd z = true → (is_bool t = true → z = 0 ∨ z = 1) →
  op ≠ IR_OP_CAST → ¬ K → eshape (Expression op t l r) kd z.
Proof. intros Ht Hz Hb Ho HK. split; try done. right. split; [|done]. unfold is_identity. cbn [ex_op]. by rewrite bool_decide_false. Qed.

(** [cast] of a constant whose lower bits count. *)
Lemma cast_numeric t ka n p : common t ka → cast depth (var_numeric t n) t p = Ok (p, as_expr (var_numeric t (wrap_u 64 (conv ka n)))).
Proof.
  intros [Ht Hb _]. pose proof (int_type_facts _ _ Ht) as F. unfold cast. cbn [v_type var_numeric].
  rewrite (if_void _ _ F), (if_scalar _ _ F). cbn [negb orb].
  rewrite (E_step _ _ p p (as_expr (var_numeric t (wrap_u 64 (conv ka n))))).
  { rewrite (E_step _ _ p p true); [done|]. unfold same_type, on_types. cbn [as_expr ex_type var_numeric v_type].
    by rewrite type_equal_same. }
  unfold cast_of. cbn [v_kind var_numeric]. rewrite bool_decide_true by done. unfold cast_immediate_var. cbn [v_symbol is_string_symbol].
  rewrite (E_step _ _ p p false) by done. rewrite (E_step _ _ p p tt) by done.
  rewrite (E_step _ _ p p (wrap_u 64 (conv ka n))); [done|]. apply lift_ok.
  rewrite (convert_int t ka t ka) by done. by rewrite conv_member.
Qed.

Lemma cast_gives v ka a t kt : shape v ka a → int_type t kt →
  gives 0 (cast depth v t) (λ e, eshape e kt (c_int_cast t a))
    (λ m U, steady U m v (bytes ka a)) (λ e m U, yields U m e (bytes kt (c_int_cast t a))).
Proof.
  intros Hv Ht. pose proof (sh_type _ _ _ _ Hv) as Htv. pose proof (int_type_facts _ _ Htv) as Fv. pose proof (int_type_facts _ _ Ht) as F.
  assert (Hz : in_range kt (c_int_cast t a) = true) by (by apply cast_range).
  unfold cast. rewrite (if_void _ _ F), (if_scalar _ _ F), (if_scalar _ _ Fv). cbn [negb orb].
  destruct (decide (v_kind v = IMMEDIATE)) as [Hk|Hk].
  { destruct (sh_imm _ _ _ _ Hv Hk) as (Hs & Hof & Him).
    set (w := var_numeric t (wrap_u 64 (c_int_cast t a))).
    assert (Hw : shape w kt (c_int_cast t a)) by (apply shape_numeric; [done|done|apply cast_is_bool]).
    apply (gives_pure _ _ _ _ _ _ _ _ _ (as_expr w)); [done| |by apply eshape_var|].
    - intros p Hp. rewrite (E_step _ _ p p (as_expr w)).
      + rewrite (E_step _ _ p p true); [done|]. unfold same_type, on_types. by rewrite type_equal_same.
      + unfold cast_of. rewrite bool_decide_true by done. unfold cast_immediate_var. rewrite Hs.
        rewrite (E_step _ _ p p false) by done. rewrite Hof, Him. rewrite (E_step _ _ p p tt) by done.
        rewrite (E_step _ _ p p (wrap_u 64 (c_int_cast t a))); [done|].
        apply lift_ok. apply (convert_value _ ka _ kt); [done|done|apply Hv].
    - intros m U _. apply (yields_var K); [done|done|]. by apply (steady_imm K). }
  destruct (same_int (v_type v) t) eqn:Es.
  - destruct (same_int_true _ _ _ _ Htv Ht Es) as [<- Hbb].
    assert (Hca : c_int_cast t a = a).
    { apply (cast_same t ka); [done|apply Hv|]. rewrite <-Hbb. apply Hv. }
    rewrite Hca. apply (gives_pure _ _ _ _ _ _ _ _ _ (as_expr v)); [done| |by apply eshape_var|].
    + intros p Hp. rewrite (E_step _ _ p p (as_expr v)).
      * rewrite (E_step _ _ p p true); [done|]. cbn [as_expr ex_type]. by rewrite (same_type_ok _ _ _ _ p Htv Ht), Es.
      * unfold cast_of. rewrite bool_decide_false by done.
        rewrite (E_step _ _ p p _ (size_ok _ _ p _ Htv Hp)), (E_step _ _ p p _ (size_ok _ _ p _ Ht Hp)).
        rewrite (if_pointer _ _ F), (if_pointer _ _ Fv), andb_false_r.
        rewrite (E_step _ _ p p _ (same_type_ok _ _ _ _ p Htv Ht)). by rewrite Es.
    + intros m U Hs. by apply (yields_var K).
  - set (e := Expression IR_OP_CAST t v var_zero).
    assert (Hi : is_identity depth ts e = Ok false).
    { unfold is_identity. cbn [e ex_op ex_type ex_l]. rewrite bool_decide_true by done.
      rewrite (int_type_equal _ _ _ _ _ _ Ht Htv). by rewrite same_int_sym, Es. }
    apply (gives_pure _ _ _ _ _ _ _ _ _ e); [done| | |].
    + intros p Hp. rewrite (E_step _ _ p p e).
      * rewrite (E_step _ _ p p true); [done|]. cbn [e ex_type]. by rewrite (same_type_ok _ _ _ _ p Ht Ht), same_int_refl.
      * unfold cast_of. rewrite bool_decide_false by done.
        rewrite (E_step _ _ p p _ (size_ok _ _ p _ Htv Hp)), (E_step _ _ p p _ (size_ok _ _ p _ Ht Hp)).
        rewrite (if_pointer _ _ F), (if_pointer _ _ Fv), andb_false_r.
        rewrite (E_step _ _ p p _ (same_type_ok _ _ _ _ p Htv Ht)). by rewrite Es.
    + split; [done|done|apply cast_is_bool|]. right. split; [done|]. intros HK. by apply Hk, (sh_const _ _ _ _ Hv).
    + intros m U Hs. apply yields_op; [done|]. intros m' Ho. unfold IrSem.compute. cbn [e ex_op ex_l ex_r ex_type binary].
      rewrite (Hs m' Ho). cbn [mbind option_bind]. rewrite Hop. unfold c_operate, e. cbn [ex_op ex_l ex_type].
      rewrite (it_ity _ _ Htv), (it_ity _ _ Ht). cbn [mbind option_bind]. rewrite (le_dec_value ka a (sh_range _ _ _ _ Hv)).
      destruct (is_bool (v_type v)) eqn:Eb; [|done]. rewrite (cast_bit t kt); [done|done|]. by apply (sh_bool _ _ _ _ Hv).
Qed.

Lemma eval_cast_gives v ka a t kt : shape v ka a → int_type t kt →
  gives 1 (eval_cast depth k (Some d) (Some b) v t) (λ v', shape v' kt (c_int_cast t a))
    (λ m U, steady U m v (bytes ka a)) (λ v' m U, steady U m v' (bytes kt (c_int_cast t a))).
Proof.
  intros Hv Ht. unfold eval_cast.
  eapply (gives_bind _ _ _ _ _ _ _ 0 1 _ _ _ _ _ _ _ _ (λ e m U, yields U m e (bytes kt (c_int_cast t a)))).
  - eapply gives_ext; [|by apply (cast_gives v ka a t kt)]. intros p. rewrite Hknot. unfold eval_expr.
    rewrite (E_step _ _ p p v (rvalue_int v ka a k0 p Hv)). by rewrite (E_step _ _ p p t).
  - intros e He. eapply gives_weaken; [by apply (eval_gives e kt (c_int_cast t a))|done|by intros v' [? _]|done|done].
  - done.
  - done.
  - done.
  - done.
  - done.
Qed.

(** Both operands in their common type. *)
Lemma operands_gives {A} n (F : var → var → E A) St Post l r kl kr a c t kt :
  shape l kl a → shape r kr c → common t kt → 0 ≤ n →
  (∀ l' r', shape l' kt (conv kt a) → shape r' kt (conv kt c) →
    gives n (F l' r') St (λ m U, steady U m l' (bytes kt (conv kt a)) ∧ steady U m r' (bytes kt (conv kt c))) Post) →
  gives (2 + n) (l ← eval_cast depth k (Some d) (Some b) l t; r ← eval_cast depth k (Some d) (Some b) r t; F l r) St
    (λ m U, steady U m l (bytes kl a) ∧ steady U m r (bytes kr c)) Post.
Proof.
  intros Hl Hr Hc Hn HF. pose proof (eval_cast_gives l kl a t kt Hl (cm_int _ _ Hc)) as HL.
  pose proof (eval_cast_gives r kr c t kt Hr (cm_int _ _ Hc)) as HR. rewrite (cast_common t kt) in HL, HR by done.
  eapply (gives_bind _ _ _ _ _ _ _ 1 (1 + n) _ _ _ _ _ _ _ _
    (λ l' m U, steady U m l' (bytes kt (conv kt a)) ∧ steady U m r (bytes kr c))); [exact HL| |lia..|by intros m U [? _]|].
  - intros l' Hl'. eapply (gives_bind _ _ _ _ _ _ _ 1 n _ _ _ _ _ _ _ _
      (λ r' m U, steady U m l' (bytes kt (conv kt a)) ∧ steady U m r' (bytes kt (conv kt c)))); [exact HR| |lia..|by intros m U [_ ?]|].
    + intros r' Hr'. by apply HF.
    + intros r' L U m m' _ [Hs _] Ho Hp. split; [by eapply steady_next|done].
  - intros l' L U m m' _ [_ Hs] Ho Hp. split; [done|by eapply steady_next].
Qed.

(** ** Emission *)

Definition compares (op : optype) : bool :=
  match op with IR_OP_EQ | IR_OP_NE | IR_OP_GE | IR_OP_GT => true | _ => false end.

Lemma create_binary op l r p : binary op = true → is_integer (v_type l) = true →
  create_expr op l (OperandVar r) p = Ok (p, Expression op (if compares op then basic_type__int else v_type l) l r).
Proof. intros Hb Hi. destruct op; try discriminate Hb; cbn [create_expr compares arg_var]; rewrite ?Hi; done. Qed.

Lemma rem_in_range kt x y : in_range kt x = true → in_range kt y = true → y ≠ 0 → in_range kt (Z.rem x y) = true.
Proof.
  rewrite !in_range_spec. intros Hx Hy Hn. pose proof (Z.rem_bound_abs x y Hn) as H0.
  destruct (isigned kt); [lia|]. pose proof (Z.rem_bound_pos x y). lia.
Qed.

Lemma shiftr_in_range kt x n : in_range kt x = true → 0 ≤ n → in_range kt (Z.shiftr x n) = true.
Proof.
  rewrite !in_range_spec. intros Hx Hn. rewrite Z.shiftr_div_pow2 by done. pose proof (pow2_pos n Hn) as Hp.
  pose proof (Z.div_mod x (2 ^ n) ltac:(lia)) as Hd. pose proof (Z.mod_pos_bound x (2 ^ n) Hp) as Hm.
  pose proof (pow2_pos (iwidth kt - 1)). pose proof (iwidth_pos kt). destruct (isigned kt); nia.
Qed.

Lemma op_value_range op kt kr a c z : promoted kt → in_range kt a = true → (∀ o, ir_binop op = Some o → in_range kt c = true) →
  op_value op kt kr a c = Some z → in_range (if compares op then I32 else kt) z = true.
Proof.
  intros Hk Ha Hc. unfold promoted in Hk.
  assert (Harith : ∀ o, to_option (c_binop (IArith o) kt a c) = Some z → in_range kt z = true).
  { intros o. cbn [c_binop]. rewrite Hk. destruct o; cbn [c_arith]; try destruct (c =? 0); try done;
      destruct (c_result kt _) eqn:E; cbn; try done; intros [= <-]; by eapply c_result_in_range. }
  assert (Hcmp : ∀ o, to_option (c_binop (ICmp o) kt a c) = Some z → in_range I32 z = true).
  { intros o. cbn. intros [= <-]. by destruct (z_cmp o a c). }
  assert (Hbit : ∀ o x, ir_binop op = Some x → to_option (c_binop (IBit o) kt a c) = Some z → in_range kt z = true).
  { intros o x Hx. cbn. intros [= <-]. apply z_bit_in_range; [done|by eapply Hc]. }
  destruct op; cbn [op_value ir_binop compares] in *; try done; try apply Harith; try apply Hcmp; try (by eapply Hbit).
  - unfold c_not. cbn. intros [= <-]. rewrite Hk. apply conv_range.
  - unfold c_neg. destruct (c_result _ _) eqn:E; cbn; try done. intros [= <-]. rewrite Hk in E. by eapply c_result_in_range.
  - cbn [c_binop]. destruct (c =? 0) eqn:E; [done|]. apply Z.eqb_neq in E. destruct (c_result _ _); try done. cbn. intros [= <-].
    by apply rem_in_range; [|eapply Hc|].
  - unfold c_shl. rewrite Hk. destruct (_ && _); [|done]. cbn. intros [= <-]. apply conv_range.
  - unfold c_shr. destruct (_ && _) eqn:E; [|done]. cbn. intros [= <-]. apply andb_prop in E as [E%Z.leb_le _]. by apply shiftr_in_range.
Qed.

Lemma emit_gives op l r kl kr a c z : shape l kl a → shape r kr c → promoted kl → binary op = true →
  (∀ o, ir_binop op = Some o → kr = kl) → op_value op kl kr a c = Some z → ¬ K →
  gives 0 (create_expr op l (OperandVar r)) (λ e, eshape e (if compares op then I32 else kl) z)
    (λ m U, steady U m l (bytes kl a) ∧ steady U m r (bytes kr c))
    (λ e m U, yields U m e (bytes (if compares op then I32 else kl) z)).
Proof.
  intros Hl Hr Hk Hb Hkr Hv HnK. pose proof (sh_type _ _ _ _ Hl) as Htl. pose proof (promoted_not_bool _ _ Htl Hk) as Hnb.
  set (T := if compares op then basic_type__int else v_type l).
  assert (HT : int_type T (if compares op then I32 else kl)) by (unfold T; by destruct (compares op)).
  assert (HTb : is_bool T = false) by (unfold T; by destruct (compares op)).
  assert (He : eshape (Expression op T l r) (if compares op then I32 else kl) z).
  { apply eshape_op; [done| |by rewrite HTb|by intros ->|done].
    apply (op_value_range op kl kr a c); [done|apply Hl| |done]. intros o Ho. rewrite <-(Hkr o Ho). apply Hr. }
  eapply gives_pure; [done| |exact He|].
  - intros p _. apply create_binary; [done|apply Htl].
  - intros m U [Hsl Hsr]. apply yields_op.
    + unfold is_identity. cbn [ex_op]. by rewrite bool_decide_false by (by intros ->).
    + intros m' Ho. by apply (computes_op U m op T l r kl kr _ a c).
Qed.

(** ** Folding *)

Lemma numeric_gives v t kt z : common t kt → v = var_numeric t (wrap_u 64 z) → in_range kt z = true →
  ∀ (Pre : mem → list symref → Prop), gives 0 (mret (as_expr v)) (λ e, eshape e kt z) Pre (λ e m U, yields U m e (bytes kt z)).
Proof.
  intros [Ht Hb _] -> Hz Pre. assert (Hs : shape (var_numeric t (wrap_u 64 z)) kt z) by (apply shape_numeric; [done|done|by rewrite Hb]).
  apply gives_ret; [done|by apply eshape_var|]. intros m U _. apply (yields_var K); [done|done|]. by apply (steady_imm K).
Qed.

Lemma cast_folded_gives t kt n z : common t kt → conv kt n = z → in_range kt z = true →
  ∀ (Pre : mem → list symref → Prop), gives 0 (cast depth (var_numeric t n) t) (λ e, eshape e kt z) Pre (λ e m U, yields U m e (bytes kt z)).
Proof.
  intros Hc Hn Hz Pre. eapply gives_ext; [|by apply (numeric_gives (var_numeric t (wrap_u 64 z)) t kt z)].
  intros p. by rewrite (cast_numeric t kt n p Hc), Hn.
Qed.

Lemma imm_value v ka a : shape v ka a → v_kind v = IMMEDIATE → v_imm v = wrap_u 64 a.
Proof. intros Hv Hk. by destruct (sh_imm _ _ _ _ Hv Hk) as (_ & _ & ?). Qed.

Lemma both_immediate_true l r : both_immediate l r = true → v_kind l = IMMEDIATE ∧ v_kind r = IMMEDIATE.
Proof. unfold both_immediate. intros [H1 H2]%andb_prop. by apply bool_decide_eq_true in H1, H2. Qed.
(** Folded or emitted: the value [z] of a binary operator on two operands in
    their common type. *)
Lemma folded_or_emitted_gives op (fold : outcome var) (fin : var → E expression) t kt l r kr a c z :
  common t kt → shape l kt a → shape r kr c → binary op = true →
  (∀ o, ir_binop op = Some o → kr = kt) → op_value op kt kr a c = Some z →
  (v_kind l = IMMEDIATE → v_kind r = IMMEDIATE → ∃ v, fold = Ok v ∧
     ∀ Pre : mem → list symref → Prop, gives 0 (fin v) (λ e, eshape e (if compares op then I32 else kt) z) Pre
       (λ e m U, yields U m e (bytes (if compares op then I32 else kt) z))) →
  gives 0 (if both_immediate l r then v ← lift fold; fin v else create_expr op l (OperandVar r))
    (λ e, eshape e (if compares op then I32 else kt) z)
    (λ m U, steady U m l (bytes kt a) ∧ steady U m r (bytes kr c))
    (λ e m U, yields U m e (bytes (if compares op then I32 else kt) z)).
Proof.
  intros Hc Hl Hr Hb Hkr Hv Hfold. destruct (both_immediate l r) eqn:Ei.
  - apply both_immediate_true in Ei as [H1 H2]. destruct (Hfold H1 H2) as (v & -> & Hfin).
    eapply gives_look; [intros p _; by apply lift_ok|]. apply Hfin.
  - apply emit_gives; try done; [apply Hc|]. intros HK. unfold both_immediate in Ei.
    by rewrite !bool_decide_true in Ei by (by apply (sh_const _ _ _ _ Hl) || by apply (sh_const _ _ _ _ Hr)).
Qed.

(** ** The operators *)

(** The operators whose operands are converted to their common type. *)
Definition converts (op : optype) : bool :=
  match ir_binop op with Some _ => true | None => false end.

(** The value of a binary operator of C on operands of the types [k1] and
    [k2], with the type of the result. *)
Definition binary_value (op : optype) (k1 k2 : ity) (a c : Z) : option (ity * Z) :=
  if converts op then
    let kt := common_type (promote k1) (promote k2) in
    z ← op_value op kt kt (conv kt a) (conv kt c); Some (if compares op then I32 else kt, z)
  else z ← op_value op k1 k2 a c; Some (promote k1, z).

Lemma arithmetic_gives op o t kt l r kl kr a c z : ir_binop op = Some (IArith o) → common t kt →
  shape l kl a → shape r kr c → op_value op kt kt (conv kt a) (conv kt c) = Some z →
  gives 2 (arithmetic_or depth k (Some d) (Some b) op o t l r) (λ e, eshape e kt z)
    (λ m U, steady U m l (bytes kl a) ∧ steady U m r (bytes kr c)) (λ e m U, yields U m e (bytes kt z)).
Proof.
  intros Ho Hc Hl Hr Hv. unfold arithmetic_or. apply (operands_gives 0 (λ l r, if both_immediate l r then
    l ← lift (eval_arithmetic_immediate t l o r); cast depth l t else create_expr op l (OperandVar r)) _ _ l r kl kr a c t kt);
    [done|done|done|done|]. intros l' r' Hl' Hr'.
  assert (Hcmp : compares op = false) by (by destruct op).
  pose proof (folded_or_emitted_gives op (eval_arithmetic_immediate t l' o r') (λ v, cast depth v t) t kt l' r' kt _ _ z
    Hc Hl' Hr') as H. rewrite Hcmp in H. apply H; [by destruct op|done|done|]. clear H.
  intros H1 H2. assert (Hz : c_arith o kt (conv kt a) (conv kt c) = Ok z).
  { pose proof (cm_promoted _ _ Hc) as Hp. unfold promoted in Hp. destruct op; try discriminate Ho; injection Ho as <-;
      cbn [op_value ir_binop c_binop] in Hv; rewrite Hp in Hv; destruct (c_arith _ _ _ _); try done; by injection Hv as <-. }
  destruct (fold_arith t kt o l' r' (conv kt a) (conv kt c) z) as (n & Hn & Hcn); try apply Hc; try apply conv_range; try done.
  { by apply (imm_value _ _ _ Hl'). } { by apply (imm_value _ _ _ Hr'). }
  exists (var_numeric t n). split; [done|]. apply cast_folded_gives; [done|done|].
  rewrite <-Hcn. apply conv_range.
Qed.

Lemma integer_fold_ok t kt o l r a c z : common t kt → shape l kt a → shape r kt c →
  v_kind l = IMMEDIATE → v_kind r = IMMEDIATE → int_op_value o kt a c = Ok z →
  ∃ n, eval_integer_immediate t l o r = Ok (var_numeric t n) ∧ conv kt n = conv kt z ∧ (∀ x, o = OBit x → n = wrap_u 64 z).
Proof.
  intros Hc Hl Hr H1 H2 Hz. destruct (fold_int_op t kt o l r a c z) as (n & Hn & Hcn & Hb); try apply Hc; try done.
  - by apply (imm_value _ _ _ Hl).
  - rewrite (imm_value _ _ _ Hr H2). apply member_value. apply Hr.
  - apply Hl.
  - exists n. split; [done|]. split; [done|]. intros x Hx. apply (Hb x Hx). apply Hr.
Qed.

Lemma mod_gives t kt l r kl kr a c z : usual_arithmetic_conversion (v_type l) (v_type r) = Ok t → common t kt →
  shape l kl a → shape r kr c → op_value IR_OP_MOD kt kt (conv kt a) (conv kt c) = Some z →
  gives 2 (mod_ depth k (Some d) (Some b) l r) (λ e, eshape e kt z)
    (λ m U, steady U m l (bytes kl a) ∧ steady U m r (bytes kr c)) (λ e m U, yields U m e (bytes kt z)).
Proof.
  intros Ht Hc Hl Hr Hv. unfold mod_. eapply gives_look; [intros p _; by apply lift_ok|].
  rewrite (it_integer _ _ (cm_int _ _ Hc)). cbn [negb].
  apply (operands_gives 0 (λ l r, if both_immediate l r then
    l ← lift (eval_integer_immediate t l OMod r); cast depth l t else create_expr IR_OP_MOD l (OperandVar r)) _ _ l r kl kr a c t kt);
    [done|done|done|done|]. intros l' r' Hl' Hr'.
  apply (folded_or_emitted_gives IR_OP_MOD (eval_integer_immediate t l' OMod r') (λ v, cast depth v t) t kt l' r' kt _ _ z
    Hc Hl' Hr'); [done|done|done|]. intros H1 H2.
  assert (Hz : int_op_value OMod kt (conv kt a) (conv kt c) = Ok z).
  { cbn [op_value ir_binop] in Hv. cbn [int_op_value]. destruct (c_binop IMod kt _ _); try done. by injection Hv as <-. }
  destruct (integer_fold_ok t kt OMod l' r' _ _ z Hc Hl' Hr' H1 H2 Hz) as (n & Hn & Hcn & _).
  exists (var_numeric t n). split; [done|]. apply (cast_folded_gives t kt n z); [done| |].
  - rewrite Hcn. apply conv_small. apply (op_value_range IR_OP_MOD kt kt (conv kt a) (conv kt c) z (cm_promoted _ _ Hc));
      [apply conv_range|intros; apply conv_range|done].
  - apply (op_value_range IR_OP_MOD kt kt (conv kt a) (conv kt c) z (cm_promoted _ _ Hc));
      [apply conv_range|intros; apply conv_range|done].
Qed.

Lemma bitwise_gives op o t kt l r kl kr a c z : ir_binop op = Some (IBit o) →
  usual_arithmetic_conversion (v_type l) (v_type r) = Ok t → common t kt →
  shape l kl a → shape r kr c → op_value op kt kt (conv kt a) (conv kt c) = Some z →
  gives 2 (bitwise depth k (Some d) (Some b) op o l r) (λ e, eshape e kt z)
    (λ m U, steady U m l (bytes kl a) ∧ steady U m r (bytes kr c)) (λ e m U, yields U m e (bytes kt z)).
Proof.
  intros Ho Ht Hc Hl Hr Hv. unfold bitwise.
  rewrite (it_integer _ _ (sh_type _ _ _ _ Hl)), (it_integer _ _ (sh_type _ _ _ _ Hr)). cbn [negb orb].
  eapply gives_look; [intros p _; by apply lift_ok|].
  apply (operands_gives 0 (λ l r, if both_immediate l r then
      v ← lift (eval_integer_immediate t l (OBit o) r); (match op with IR_OP_AND => mret (as_expr v) | _ => cast depth v t end)
    else create_expr op l (OperandVar r)) _ _ l r kl kr a c t kt); [done|done|done|done|]. intros l' r' Hl' Hr'.
  assert (Hcmp : compares op = false) by (by destruct op).
  pose proof (folded_or_emitted_gives op (eval_integer_immediate t l' (OBit o) r')
    (λ v, match op with IR_OP_AND => mret (as_expr v) | _ => cast depth v t end) t kt l' r' kt _ _ z Hc Hl' Hr') as H.
  rewrite Hcmp in H. apply H; [by destruct op|done|done|]. clear H. intros H1 H2.
  assert (Hz : int_op_value (OBit o) kt (conv kt a) (conv kt c) = Ok z).
  { destruct op; try discriminate Ho; injection Ho as <-; cbn in Hv |- *; by injection Hv as <-. }
  destruct (integer_fold_ok t kt (OBit o) l' r' _ _ z Hc Hl' Hr' H1 H2 Hz) as (n & Hn & Hcn & Hb).
  exists (var_numeric t n). split; [done|]. rewrite (Hb o eq_refl).
  assert (Hzr : in_range kt z = true).
  { pose proof (op_value_range op kt kt (conv kt a) (conv kt c) z (cm_promoted _ _ Hc)) as H. rewrite Hcmp in H.
    apply H; [apply conv_range|intros; apply conv_range|done]. }
  assert (Hcz : conv kt (wrap_u 64 z) = z) by (rewrite conv_u64; by apply conv_small).
  intros Pre. destruct op; try discriminate Ho; try by apply cast_folded_gives. by apply (numeric_gives _ t kt z).
Qed.

Lemma compare_gives op o t kt l r a c z : ir_binop op = Some (ICmp o) → common t kt →
  shape l kt a → shape r kt c → op_value op kt kt a c = Some z →
  gives 0 (compare_or op o t l r) (λ e, eshape e I32 z)
    (λ m U, steady U m l (bytes kt a) ∧ steady U m r (bytes kt c)) (λ e m U, yields U m e (bytes I32 z)).
Proof.
  intros Ho Hc Hl Hr Hv. unfold compare_or. assert (Hcmp : compares op = true) by (by destruct op).
  destruct (both_immediate l r) eqn:Ei.
  - apply both_immediate_true in Ei as [H1 H2].
    rewrite (fold_compare t kt o l r a c); [|apply Hc|by apply (imm_value _ _ _ Hl)|by apply (imm_value _ _ _ Hr)|apply Hl|apply Hr].
    assert (z = Z.b2z (z_cmp o a c)) as ->.
    { destruct op; try discriminate Ho; injection Ho as <-; cbn in Hv; by injection Hv as <-. }
    apply (numeric_gives _ basic_type__int I32); [done|done|]. by destruct (z_cmp o a c).
  - pose proof (emit_gives op l r kt kt a c z Hl Hr (cm_promoted _ _ Hc)) as H. rewrite Hcmp in H. apply H; try (by destruct op). intros HK. unfold both_immediate in Ei.
    by rewrite !bool_decide_true in Ei by (by apply (sh_const _ _ _ _ Hl) || by apply (sh_const _ _ _ _ Hr)).
Qed.
Lemma in_common v t kt a : common t kt → shape v kt a → common (v_type v) kt.
Proof. intros Hc Hv. pose proof (sh_type _ _ _ _ Hv) as Ht. split; [done|apply (promoted_not_bool _ kt Ht), Hc|apply Hc]. Qed.

Lemma compared_operands_gives l r kl kr a c t kt : usual_arithmetic_conversion (v_type l) (v_type r) = Ok t → common t kt →
  shape l kl a → shape r kr c →
  gives 2 (prepare_comparison_operands depth k (Some d) (Some b) l r)
    (λ lr, shape lr.1 kt (conv kt a) ∧ shape lr.2 kt (conv kt c))
    (λ m U, steady U m l (bytes kl a) ∧ steady U m r (bytes kr c))
    (λ lr m U, steady U m lr.1 (bytes kt (conv kt a)) ∧ steady U m lr.2 (bytes kt (conv kt c))).
Proof.
  intros Ht Hc Hl Hr. pose proof (int_type_facts _ _ (sh_type _ _ _ _ Hl)) as Fl. pose proof (int_type_facts _ _ (sh_type _ _ _ _ Hr)) as Fr.
  unfold prepare_comparison_operands, swapped. rewrite (if_pointer _ _ Fr). cbn [negb].
  eapply gives_look; [done|]. cbv beta iota. unfold comparison_operands.
  rewrite (if_arithmetic _ _ Fl), (if_arithmetic _ _ Fr). cbn [andb].
  eapply gives_look; [intros p _; by apply lift_ok|].
  apply (operands_gives 0 (λ l r, mret (l, r)) _ _ l r kl kr a c t kt); [done|done|done|done|]. intros l' r' Hl' Hr'.
  by apply gives_ret.
Qed.

Lemma equality_gives op o t kt l r kl kr a c z : ir_binop op = Some (ICmp o) →
  usual_arithmetic_conversion (v_type l) (v_type r) = Ok t → common t kt →
  shape l kl a → shape r kr c → op_value op kt kt (conv kt a) (conv kt c) = Some z →
  gives 2 ('(l, r) ← prepare_comparison_operands depth k (Some d) (Some b) l r; compare_or op o (v_type l) l r)
    (λ e, eshape e I32 z) (λ m U, steady U m l (bytes kl a) ∧ steady U m r (bytes kr c)) (λ e m U, yields U m e (bytes I32 z)).
Proof.
  intros Ho Ht Hc Hl Hr Hv.
  eapply (gives_bind _ _ _ _ _ _ _ 2 0 _ _ _ _ _ _ _ _
    (λ lr m U, steady U m lr.1 (bytes kt (conv kt a)) ∧ steady U m lr.2 (bytes kt (conv kt c))));
    [by apply (compared_operands_gives l r kl kr a c t kt)| |done|done|done|done|done].
  intros [l' r'] [Hl' Hr']. cbn [fst snd] in *.
  apply (compare_gives op o (v_type l') kt l' r' _ _ z Ho); [by apply (in_common l' t kt (conv kt a))|done|done|done].
Qed.

Lemma order_gives op o t kt l r kl kr a c z : ir_binop op = Some (ICmp o) →
  usual_arithmetic_conversion (v_type l) (v_type r) = Ok t → common t kt →
  shape l kl a → shape r kr c → op_value op kt kt (conv kt a) (conv kt c) = Some z →
  gives 2 (cmp_order depth k (Some d) (Some b) op o l r) (λ e, eshape e I32 z)
    (λ m U, steady U m l (bytes kl a) ∧ steady U m r (bytes kr c)) (λ e m U, yields U m e (bytes I32 z)).
Proof.
  intros Ho Ht Hc Hl Hr Hv. unfold cmp_order, common_compare_type.
  rewrite (if_arithmetic _ _ (int_type_facts _ _ (sh_type _ _ _ _ Hl))), (if_arithmetic _ _ (int_type_facts _ _ (sh_type _ _ _ _ Hr))).
  cbn [andb]. eapply gives_look; [intros p _; by apply lift_ok|].
  apply (operands_gives 0 (compare_or op o t) _ _ l r kl kr a c t kt); [done|done|done|done|]. intros l' r' Hl' Hr'.
  by apply (compare_gives op o t kt).
Qed.

(** The count of a shift that is defined. *)
Lemma count_value kr c x : in_range kr c = true → 0 ≤ c < 64 → (if x : bool then val_i (wrap_u 64 c) else val_u (wrap_u 64 c)) = c.
Proof.
  intros _ Hc. destruct x.
  - change (conv I64 (wrap_u 64 c) = c). rewrite conv_u64. apply conv_small, in_range_spec. cbn. lia.
  - change (conv U64 (wrap_u 64 c) = c). rewrite conv_u64. apply conv_small, in_range_spec. cbn. lia.
Qed.

Lemma promote_idem kt : promote (promote kt) = promote kt.
Proof. by destruct kt. Qed.
Lemma conv_promote kt a : in_range kt a = true → conv (promote kt) a = a.
Proof. intros Ha. by apply conv_small, promote_range. Qed.

Lemma shift_value op kl kr a c z : op = IR_OP_SHL ∨ op = IR_OP_SHR → in_range kl a = true → op_value op kl kr a c = Some z →
  op_value op (promote kl) kr (conv (promote kl) a) c = Some z ∧ 0 ≤ c < 64.
Proof.
  intros Ho Ha. rewrite conv_promote by done. pose proof (iwidth_pos (promote kl)).
  destruct Ho as [->| ->]; cbn [op_value]; unfold c_shl, c_shr; rewrite promote_idem;
    (destruct (_ && _) eqn:E; [|done]; intros [= <-]; apply andb_prop in E as [E1%Z.leb_le E2%Z.ltb_lt]; split; [done|lia]).
Qed.

Lemma shift_gives op o l r kl kr a c z : (op = IR_OP_SHL ∧ o = OShl) ∨ (op = IR_OP_SHR ∧ o = OShr) →
  shape l kl a → shape r kr c → op_value op kl kr a c = Some z →
  gives 2 (shift depth k (Some d) (Some b) op o l r) (λ e, eshape e (promote kl) z)
    (λ m U, steady U m l (bytes kl a) ∧ steady U m r (bytes kr c)) (λ e m U, yields U m e (bytes (promote kl) z)).
Proof.
  intros Ho Hl Hr Hv. set (kt := promote kl) in *. assert (Hcmp : compares op = false) by (by destruct Ho as [[-> _]|[-> _]]).
  destruct (shift_value op kl kr a c z) as [Hv' Hcount]; [naive_solver|apply Hl|done|]. fold kt in Hv'.
  destruct (promote_int _ _ (sh_type _ _ _ _ Hl)) as (t & Ht & Hc). fold kt in Hc. unfold shift.
  rewrite (it_integer _ _ (sh_type _ _ _ _ Hl)), (it_integer _ _ (sh_type _ _ _ _ Hr)). cbn [negb orb].
  eapply gives_look; [intros p _; by apply lift_ok|].
  pose proof (eval_cast_gives l kl a t kt Hl (cm_int _ _ Hc)) as HL. rewrite (cast_common t kt) in HL by done.
  eapply (gives_bind _ _ _ _ _ _ _ 1 0 _ _ _ _ _ _ _ _
    (λ l' m U, steady U m l' (bytes kt (conv kt a)) ∧ steady U m r (bytes kr c))); [exact HL| |done|done|done|by intros m U [? _]|].
  2:{ intros l' L U m m' _ [_ Hs] Hoff Hp. split; [done|by eapply steady_next]. }
  intros l' Hl'.
  pose proof (folded_or_emitted_gives op (eval_integer_immediate t l' o r) (λ v, cast depth v t) t kt l' r kr _ c z Hc Hl' Hr) as H.
  rewrite Hcmp in H. apply H; [by destruct Ho as [[-> _]|[-> _]]|by destruct Ho as [[-> _]|[-> _]]|done|]. clear H. intros H1 H2.
  assert (Hz : int_op_value o kt (conv kt a) c = Ok z).
  { destruct Ho as [[-> ->]|[-> ->]]; cbn [op_value int_op_value] in *; by apply to_option_inv. }
  destruct (fold_int_op t kt o l' r (conv kt a) c z) as (n & Hn & Hcn & _); try apply Hc; try apply conv_range; try done.
  { by apply (imm_value _ _ _ Hl'). }
  { rewrite (imm_value _ _ _ Hr H2). by apply (count_value kr); [apply Hr|]. }
  assert (Hzr : in_range kt z = true).
  { pose proof (op_value_range op kt kr (conv kt a) c z (cm_promoted _ _ Hc)) as H. rewrite Hcmp in H.
    apply H; [apply conv_range| |done]. intros x Hx. destruct Ho as [[-> _]|[-> _]]; discriminate Hx. }
  exists (var_numeric t n). split; [done|]. apply (cast_folded_gives t kt n z); [done| |done]. rewrite Hcn. by apply conv_small.
Qed.

(** ** Any binary operator *)

Lemma binary_type l r kl kr a c : shape l kl a → shape r kr c →
  ∃ t, usual_arithmetic_conversion (v_type l) (v_type r) = Ok t ∧ common t (common_type (promote kl) (promote kr)).
Proof. intros Hl Hr. apply conversion_int; [apply Hl|apply Hr]. Qed.

Lemma add_sub_gives (op : optype) (o : arith) t kt l r kl kr a c z (G : E expression) :
  ir_binop op = Some (IArith o) → usual_arithmetic_conversion (v_type l) (v_type r) = Ok t → common t kt →
  (∀ p, G p = (t ← lift (usual_arithmetic_conversion (v_type l) (v_type r)); arithmetic_or depth k (Some d) (Some b) op o t l r) p) →
  shape l kl a → shape r kr c → op_value op kt kt (conv kt a) (conv kt c) = Some z →
  gives 2 G (λ e, eshape e kt z) (λ m U, steady U m l (bytes kl a) ∧ steady U m r (bytes kr c)) (λ e m U, yields U m e (bytes kt z)).
Proof.
  intros Ho Ht Hc HG Hl Hr Hv. eapply gives_ext; [exact HG|]. eapply gives_look; [intros p _; by apply lift_ok|].
  by apply arithmetic_gives.
Qed.

Lemma eval_binary_gives op l r kl kr a c kz z : binary op = true → shape l kl a → shape r kr c →
  binary_value op kl kr a c = Some (kz, z) →
  gives 2 (eval_expr depth k (Some d) (Some b) op l (OperandVar r)) (λ e, eshape e kz z)
    (λ m U, steady U m l (bytes kl a) ∧ steady U m r (bytes kr c)) (λ e m U, yields U m e (bytes kz z)).
Proof.
  intros Hb Hl Hr Hv. pose proof (int_type_facts _ _ (sh_type _ _ _ _ Hl)) as Fl. pose proof (int_type_facts _ _ (sh_type _ _ _ _ Hr)) as Fr.
  destruct (binary_type l r kl kr a c Hl Hr) as (t & Ht & Hc). unfold binary_value in Hv.
  eapply gives_ext.
  { intros p. unfold eval_expr. rewrite (E_step _ _ p p l) by (by apply (rvalue_int l kl a)).
    transitivity ((match op with
      | IR_OP_MOD => mod_ depth k (Some d) (Some b) l r | IR_OP_MUL => mul depth k (Some d) (Some b) l r
      | IR_OP_DIV => ediv depth k (Some d) (Some b) l r | IR_OP_ADD => add depth k (Some d) (Some b) l r
      | IR_OP_SUB => sub depth k (Some d) (Some b) l r | IR_OP_EQ => cmp_eq depth k (Some d) (Some b) l r
      | IR_OP_NE => cmp_ne depth k (Some d) (Some b) l r | IR_OP_GE => cmp_ge depth k (Some d) (Some b) l r
      | IR_OP_GT => cmp_gt depth k (Some d) (Some b) l r | IR_OP_AND => and_ depth k (Some d) (Some b) l r
      | IR_OP_XOR => xor_ depth k (Some d) (Some b) l r | IR_OP_OR => or_ depth k (Some d) (Some b) l r
      | IR_OP_SHL => shiftl depth k (Some d) (Some b) l r | IR_OP_SHR => shiftr depth k (Some d) (Some b) l r
      | _ => fail "assertion failed" end) p).
    { destruct op; try discriminate Hb; cbn [arg_var];
        (rewrite (E_step _ _ p p r) by done; rewrite (E_step _ _ p p r) by (by apply (rvalue_int r kr c)); reflexivity). }
    reflexivity. }
  destruct op; try discriminate Hb; cbn [converts ir_binop compares] in Hv; apply bind_Some in Hv as (z' & Hz & [= <- <-]).
  - eapply (add_sub_gives IR_OP_ADD AAdd t); try done. intros p. unfold add, add_operands.
    by rewrite (if_pointer _ _ Fr), andb_false_r, (if_arithmetic _ _ Fl), (if_arithmetic _ _ Fr).
  - eapply (add_sub_gives IR_OP_SUB ASub t); try done. intros p. unfold sub.
    by rewrite (if_arithmetic _ _ Fl), (if_arithmetic _ _ Fr).
  - by eapply (add_sub_gives IR_OP_MUL AMul t).
  - by eapply (add_sub_gives IR_OP_DIV ADiv t).
  - by apply (mod_gives t).
  - by apply (bitwise_gives IR_OP_AND BAnd t).
  - by apply (bitwise_gives IR_OP_OR BOr t).
  - by apply (bitwise_gives IR_OP_XOR BXor t).
  - apply (shift_gives IR_OP_SHL OShl); auto.
  - apply (shift_gives IR_OP_SHR OShr); auto.
  - by apply (equality_gives IR_OP_EQ CEq t (common_type (promote kl) (promote kr))).
  - by apply (equality_gives IR_OP_NE CNe t (common_type (promote kl) (promote kr))).
  - by apply (order_gives IR_OP_GE CGe t (common_type (promote kl) (promote kr))).
  - by apply (order_gives IR_OP_GT CGt t (common_type (promote kl) (promote kr))).
Qed.
(** ** Unary operators *)

Lemma eval_not_gives v kv a : shape v kv a →
  gives 1 (eval_expr depth k (Some d) (Some b) IR_OP_NOT v NoOperand) (λ e, eshape e (promote kv) (conv (promote kv) (Z.lnot a)))
    (λ m U, steady U m v (bytes kv a)) (λ e m U, yields U m e (bytes (promote kv) (conv (promote kv) (Z.lnot a)))).
Proof.
  intros Hv. set (kt := promote kv). set (z := conv kt (Z.lnot a)).
  assert (Hca : conv kt a = a) by (apply conv_promote, Hv).
  destruct (promote_int _ _ (sh_type _ _ _ _ Hv)) as (t & Ht & Hc). fold kt in Hc.
  eapply gives_ext. { intros p. unfold eval_expr. by rewrite (E_step _ _ p p v (rvalue_int v kv a k p Hv)). }
  unfold not_. rewrite (it_integer _ _ (sh_type _ _ _ _ Hv)). cbn [negb].
  eapply gives_look; [intros p _; by apply lift_ok|].
  pose proof (eval_cast_gives v kv a t kt Hv (cm_int _ _ Hc)) as HV. rewrite (cast_common t kt) in HV by done.
  rewrite Hca in HV.
  eapply (gives_bind _ _ _ _ _ _ _ 1 0 _ _ _ _ _ _ _ _ (λ v' m U, steady U m v' (bytes kt a)));
    [exact HV| |done..].
  intros v' Hv'. pose proof (sh_type _ _ _ _ Hv') as Htv'. pose proof (in_common v' t kt a Hc Hv') as Hcv'.
  assert (Hz : in_range kt z = true) by apply conv_range.
  destruct (bool_decide (v_kind v' = IMMEDIATE)) eqn:Ei.
  - apply bool_decide_eq_true in Ei.
    eapply gives_look; [intros p _; apply lift_ok; apply (fold_not t kt v' a); [apply Hc|apply Hc|by apply (imm_value v' kt a)|apply Hv']|].
    by apply (numeric_gives _ t kt z).
  - apply bool_decide_eq_false in Ei.
    eapply (gives_pure _ _ _ _ _ _ _ _ _ (Expression IR_OP_NOT (v_type v') v' var_zero)); [done| | |].
    + intros p _. cbn [create_expr]. by rewrite (it_integer _ _ Htv').
    + apply eshape_op; [done|done|by rewrite (cm_bool _ _ Hcv')|done|]. intros HK. by apply Ei, (sh_const _ _ _ _ Hv').
    + intros m U Hs. apply yields_op; [unfold is_identity; cbn [ex_op]; by rewrite bool_decide_false|].
      intros m' Ho. unfold IrSem.compute. cbn [ex_op ex_l ex_r ex_type binary]. rewrite (Hs m' Ho). cbn [mbind option_bind].
      rewrite Hop. unfold c_operate. cbn [ex_op ex_l ex_type]. rewrite (it_ity _ _ Htv'). cbn [mbind option_bind].
      rewrite (le_dec_value kt a (sh_range _ _ _ _ Hv')).
      unfold c_not. cbn [to_option mbind option_bind]. by rewrite (cm_promoted _ _ Hc).
Qed.

Lemma common_with_int kv : common_type I32 (promote kv) = promote kv.
Proof. by destruct kv. Qed.

Lemma eval_neg_gives v kv a z : shape v kv a → c_neg kv a = Ok z →
  gives 2 (eval_expr depth k (Some d) (Some b) IR_OP_NEG v NoOperand) (λ e, eshape e (promote kv) z)
    (λ m U, steady U m v (bytes kv a)) (λ e m U, yields U m e (bytes (promote kv) z)).
Proof.
  intros Hv Hz. pose proof (int_type_facts _ _ (sh_type _ _ _ _ Hv)) as Fv.
  assert (H0 : shape (var_int 0) I32 0) by (by apply (shape_numeric K basic_type__int I32 0)).
  destruct (binary_type (var_int 0) v I32 kv 0 a H0 Hv) as (t & Ht & Hc).
  change (promote I32) with I32 in Hc. rewrite common_with_int in Hc.
  eapply gives_weaken; [eapply (add_sub_gives IR_OP_SUB ASub t (promote kv) (var_int 0) v I32 kv 0 a z
    (eval_expr depth k (Some d) (Some b) IR_OP_NEG v NoOperand)); try done|done|done| |done].
  - intros p. unfold eval_expr. rewrite (E_step _ _ p p v (rvalue_int v kv a k p Hv)). unfold neg.
    rewrite (if_arithmetic _ _ Fv), (if_float _ _ Fv), (if_double _ _ Fv). cbn [negb]. unfold sub.
    by rewrite (if_arithmetic _ _ Fv).
  - cbn [op_value ir_binop c_binop c_arith]. rewrite promote_idem, (conv_promote kv a) by apply Hv.
    replace (conv (promote kv) 0) with 0 by (by destruct kv).
    change (0 - a) with (- a). unfold c_neg in Hz. by rewrite Hz.
  - intros m U Hs. split; [|done]. by apply (steady_imm K).
Qed.

Lemma eval_unary_plus_gives v kv a : shape v kv a →
  gives 0 (eval_unary_plus depth v) (λ e, eshape e (promote kv) a)
    (λ m U, steady U m v (bytes kv a)) (λ e m U, yields U m e (bytes (promote kv) a)).
Proof.
  intros Hv. pose proof (int_type_facts _ _ (sh_type _ _ _ _ Hv)) as Fv. unfold eval_unary_plus.
  rewrite (if_arithmetic _ _ Fv), (it_integer _ _ (sh_type _ _ _ _ Hv)). cbn [negb].
  destruct (promote_int _ _ (sh_type _ _ _ _ Hv)) as (t & Ht & Hc).
  eapply gives_look; [intros p _; by apply lift_ok|].
  pose proof (cast_gives v kv a t _ Hv (cm_int _ _ Hc)) as H. rewrite (cast_common t (promote kv)) in H by done.
  by rewrite conv_promote in H by apply Hv.
Qed.

Lemma eval_conversion_gives v kv a t kt : shape v kv a → int_type t kt →
  gives 0 (eval_expr depth k (Some d) (Some b) IR_OP_CAST v (OperandType t)) (λ e, eshape e kt (c_int_cast t a))
    (λ m U, steady U m v (bytes kv a)) (λ e m U, yields U m e (bytes kt (c_int_cast t a))).
Proof.
  intros Hv Ht. eapply gives_ext; [|by apply (cast_gives v kv a t kt)]. intros p. unfold eval_expr.
  rewrite (E_step _ _ p p v (rvalue_int v kv a k p Hv)). by rewrite (E_step _ _ p p t).
Qed.
End operators.
