(* ===== verification/EvalSpec.v ===== *)
(** * Integer expressions

    Trees of C operators on integers, the calls of eval.c by which the grammar
    of src/parser/expression.c evaluates them, and their value by the rules of
    C; the code that is emitted has that value. *)

From stdpp Require Import base list gmap numbers strings.
From Stdlib Require Import ZArith Lia.
From S2P Require Import Prelude Memory CType Floats CArith Strings Symbol Typetree TypetreeSpec Symtab SymtabProps Immediate Ir IrSem OptimizeRuns Cfg Eval Assign EvalProps EvalSem EvalOps VmMove VmGenSem Hash.
From S2P Require Import SymtabSpec.

Local Open Scope Z_scope.

(** Operands are variables; [Convert] is a cast.  A binary operator may take
    its operands in the opposite order of their evaluation, as [<] is [>]. *)
Inductive unary_op : Set := UPlus | UMinus | UNot.
Inductive tree : Set :=
  | Leaf (v : var)
  | Unary (o : unary_op) (e : tree)
  | Convert (t : ctype) (e : tree)
  | Binary (swap : bool) (op : optype) (l r : tree).

Fixpoint leaves (e : tree) : list var :=
  match e with
  | Leaf v => [v]
  | Unary _ e | Convert _ e => leaves e
  | Binary _ _ l r => leaves l ++ leaves r
  end.

(** Operators with two operands, and integer types. *)
Fixpoint well_formed (e : tree) : Prop :=
  match e with
  | Leaf _ => True
  | Unary _ e => well_formed e
  | Convert t e => (∃ k, int_type t k) ∧ well_formed e
  | Binary _ op l r => binary op = true ∧ well_formed l ∧ well_formed r
  end.

(** Temporaries that are enough. *)
Fixpoint room (e : tree) : Z :=
  match e with
  | Leaf _ => 0
  | Unary _ e => room e + 3
  | Convert _ e => room e + 1
  | Binary _ _ l r => room l + room r + 4
  end.

Section trees.
Context `{FA : FloatArith} (d0 : nat) (ts : typetab) (ys : symbols) (M : machine) (d : defref) (b : bref) (fuel : nat).
Abbreviation depth := (S d0).
Abbreviation knot_at := (evaluator depth (S fuel)).
Abbreviation ir_eval := (IrSem.eval depth ts ys M).

(** The evaluation of a tree: every operand is committed before the next one
    is evaluated. *)
Fixpoint gen_tree (e : tree) : E expression :=
  match e with
  | Leaf v => mret (as_expr v)
  | Unary o e =>
    x ← gen_tree e;
    v ← eval depth (Some d) (Some b) x;
    match o with
    | UPlus => eval_unary_plus depth v
    | UMinus => eval_expr depth knot_at (Some d) (Some b) IR_OP_NEG v NoOperand
    | UNot => eval_expr depth knot_at (Some d) (Some b) IR_OP_NOT v NoOperand
    end
  | Convert t e =>
    x ← gen_tree e;
    v ← eval depth (Some d) (Some b) x;
    eval_expr depth knot_at (Some d) (Some b) IR_OP_CAST v (OperandType t)
  | Binary swap op l r =>
    x ← gen_tree l;
    v ← eval depth (Some d) (Some b) x;
    y ← gen_tree r;
    w ← eval depth (Some d) (Some b) y;
    eval_expr depth knot_at (Some d) (Some b) op (if swap then w else v) (OperandVar (if swap then v else w))
  end.

(** The value by the rules of C, with its type. *)
Fixpoint tree_value (m : mem) (e : tree) : option (ity * Z) :=
  match e with
  | Leaf v => k ← ity_of (v_type v); bs ← ir_eval m v; Some (k, conv k (le_dec bs))
  | Unary o e =>
    '(k, a) ← tree_value m e;
    match o with
    | UPlus => Some (promote k, a)
    | UMinus => z ← to_option (c_neg k a); Some (promote k, z)
    | UNot => z ← to_option (c_not k a); Some (promote k, z)
    end
  | Convert t e => '(_, a) ← tree_value m e; k ← ity_of t; Some (k, c_int_cast t a)
  | Binary swap op l r =>
    '(kl, a) ← tree_value m l;
    '(kr, c) ← tree_value m r;
    if swap then binary_value op kr kl c a else binary_value op kl kr a c
  end.

(** Integer variables and constants, with their bytes in [m]. *)
Definition leaf_ok (K : Prop) (m : mem) (v : var) : Prop :=
  ∃ k a, shape K v k a ∧ ir_eval m v = Some (le_enc (isize k) a).

(** The operands keep their values while the temporaries [U] change. *)
Definition undisturbed (m0 : mem) (e : tree) (m : mem) (U : list symref) : Prop :=
  ∀ v bs, v ∈ leaves e → ir_eval m0 v = Some bs → steady d0 ts ys M U m v bs.

Hypothesis Hop : ∀ e l r, operate M e l r = c_operate e l r.

Lemma knot_unfold D B op v a p :
  k_eval_expr knot_at D B op v a p = eval_expr depth (evaluator depth fuel) D B op v a p.
Proof. reflexivity. Qed.

Lemma undisturbed_next m0 e m m' l U : undisturbed m0 e m (l ++ U) → off M l m m' → undisturbed m0 e m' U.
Proof. intros H Ho v bs Hv Hb. eapply steady_next; [by apply H|done]. Qed.

Section gives.
Context (K : Prop) (m0 : mem).

(** A subtree, evaluated and committed to a variable. *)
Lemma committed_gives e k a :
  gives K d0 ts ys M d b (room e) (gen_tree e) (λ x, eshape K d0 ts x k a) (undisturbed m0 e)
    (λ x m U, yields d0 ts ys M U m x (le_enc (isize k) a)) → 0 ≤ room e →
  gives K d0 ts ys M d b (room e + 1) (x ← gen_tree e; eval depth (Some d) (Some b) x) (λ v, shape K v k a) (undisturbed m0 e)
    (λ v m U, steady d0 ts ys M U m v (le_enc (isize k) a)).
Proof.
  intros He Hr. eapply (gives_bind _ _ _ _ _ _ _ (room e) 1 _ _ _ _ _ _ _ _
    (λ x m U, yields d0 ts ys M U m x (le_enc (isize k) a))); [exact He| |done|done|done|done|done].
  intros x Hx. eapply gives_weaken; [exact (eval_gives K d0 ts ys M d b x k a Hx)|done|by intros v [? _]|done|done].
Qed.

Lemma room_nonneg e : 0 ≤ room e.
Proof. induction e; cbn; lia. Qed.

Lemma gen_tree_gives e k z : well_formed e → (∀ v, v ∈ leaves e → leaf_ok K m0 v) → tree_value m0 e = Some (k, z) →
  gives K d0 ts ys M d b (room e) (gen_tree e) (λ x, eshape K d0 ts x k z) (undisturbed m0 e)
    (λ x m U, yields d0 ts ys M U m x (le_enc (isize k) z)).
Proof.
  revert k z. induction e as [v|o e IH|t e IH|swap op l IHl r IHr]; intros k z Hwf Hleaf Hv; cbn [tree_value gen_tree room] in *.
  - destruct (Hleaf v) as (k' & a & Hs & Hb); [by left|].
    rewrite (it_ity _ _ (sh_type _ _ _ _ Hs)), Hb in Hv. cbn [mbind option_bind] in Hv.
    rewrite (le_dec_value k' a (sh_range _ _ _ _ Hs)) in Hv. injection Hv as <- <-.
    apply gives_ret; [done|by apply eshape_var|]. intros m U H. apply (yields_var K); [done|done|]. apply H; [by left|done].
  - apply bind_Some in Hv as ([ke a] & He & Hv). specialize (IH ke a Hwf Hleaf He).
    pose proof (committed_gives e ke a IH (room_nonneg e)) as Hc. eapply gives_ext; [intros p; symmetry; apply E_unbracket|].
    eapply (gives_bind _ _ _ _ _ _ _ (room e + 1) 2 _ _ _ _ _ _ _ _
      (λ v m U, steady d0 ts ys M U m v (le_enc (isize ke) a))); [exact Hc| |pose proof (room_nonneg e); lia|done|lia|done|done].
    intros v Hs. destruct o.
    + injection Hv as <- <-. eapply gives_weaken; [exact (eval_unary_plus_gives K d0 ts ys M d b Hop v ke a Hs)|done..].
    + apply bind_Some in Hv as (z' & Hz%to_option_inv & [= <- <-]).
      apply (eval_neg_gives K d0 ts ys M d b Hop _ _ (knot_unfold)); done.
    + unfold c_not in Hv. cbn in Hv. injection Hv as <- <-.
      eapply gives_weaken; [exact (eval_not_gives K d0 ts ys M d b Hop _ _ knot_unfold v ke a Hs)|done..].
  - apply bind_Some in Hv as ([ke a] & He & Hv). destruct Hwf as [[kt Ht] Hwf]. rewrite (it_ity _ _ Ht) in Hv. injection Hv as <- <-.
    pose proof (committed_gives e ke a (IH ke a Hwf Hleaf He) (room_nonneg e)) as Hc. eapply gives_ext; [intros p; symmetry; apply E_unbracket|].
    eapply (gives_bind _ _ _ _ _ _ _ (room e + 1) 0 _ _ _ _ _ _ _ _
      (λ v m U, steady d0 ts ys M U m v (le_enc (isize ke) a))); [exact Hc| |pose proof (room_nonneg e); lia|done|lia|done|done].
    intros v Hs. exact (eval_conversion_gives K d0 ts ys M d b Hop _ v ke a t kt Hs Ht).
  - apply bind_Some in Hv as ([kl a] & Hl & Hv). apply bind_Some in Hv as ([kr c] & Hr & Hv). destruct Hwf as (Hb & Hwl & Hwr).
    pose proof (room_nonneg l). pose proof (room_nonneg r).
    assert (Hll : ∀ v, v ∈ leaves l → leaf_ok K m0 v) by (intros v Hvl; apply Hleaf; apply elem_of_app; auto).
    assert (Hlr : ∀ v, v ∈ leaves r → leaf_ok K m0 v) by (intros v Hvl; apply Hleaf; apply elem_of_app; auto).
    pose proof (committed_gives l kl a (IHl kl a Hwl Hll Hl) (room_nonneg l)) as Hcl.
    pose proof (committed_gives r kr c (IHr kr c Hwr Hlr Hr) (room_nonneg r)) as Hcr.
    eapply gives_ext; [intros p; symmetry; apply E_unbracket|].
    eapply (gives_bind _ _ _ _ _ _ _ (room l + 1) (room r + 3) _ _ _ _ _ _ _ _
      (λ v m U, steady d0 ts ys M U m v (le_enc (isize kl) a) ∧ undisturbed m0 r m U)); [exact Hcl| |lia..| |].
    + intros v Hsv. eapply gives_ext; [intros p; symmetry; apply E_unbracket|].
      eapply (gives_bind _ _ _ _ _ _ _ (room r + 1) 2 _ _ _ _ _ _ _ _
        (λ w m U, steady d0 ts ys M U m v (le_enc (isize kl) a) ∧ steady d0 ts ys M U m w (le_enc (isize kr) c)));
        [exact Hcr| |lia..|by intros m U [_ ?]|].
      * intros w Hsw. destruct swap.
        { eapply gives_weaken; [by apply (eval_binary_gives K d0 ts ys M d b Hop _ _ (knot_unfold) op w v kr kl c a k z)|done|done| |done].
          by intros m U [? ?]. }
        by apply (eval_binary_gives K d0 ts ys M d b Hop _ _ (knot_unfold) op v w kl kr a c k z).
      * intros w L U m m' _ [Hst _] Ho Hp. split; [by eapply steady_next|done].
    + intros m U Hu v bs Hvl. apply Hu, elem_of_app. auto.
    + intros v L U m m' _ Hu Ho Hp. split; [done|]. apply (undisturbed_next _ _ m m' L); [|done].
      intros w bs Hw. apply Hu, elem_of_app. auto.
Qed.
End gives.
End trees.

(** * Theorems on the evaluation of expressions

    The code emitted for an integer expression, run by the meaning of the
    intermediate representation, computes the value that C gives it; constant
    expressions are computed without code; and what eval.c gets wrong. *)

(** C8: Compiling integer expressions.  From any state of the parser with room
    for temporaries, the evaluation of a tree returns; it has appended code to
    its block and made temporaries, and nothing else has changed.  Where the
    temporaries have storage of their own that the operands do not lie in,
    that code runs, changes no other memory, and leaves an expression whose
    value is the value of the tree by the rules of C, in its type: promotions,
    common types, comparisons as [int], shifts by counts of any type. *)
Theorem integer_code_correct `{FA : FloatArith} d0 ts ys M d b fuel p e m k z :
  (∀ e l r, operate M e l r = c_operate e l r) →
  ready d b ts (room e) p → well_formed e → (∀ v, v ∈ leaves e → leaf_ok d0 ts ys M False m v) →
  tree_value d0 ts ys M m e = Some (k, z) →
  ∃ q x l c, gen_tree d0 d b fuel e p = Ok (q, x) ∧ emitted d b p q l c ∧ Z.of_nat (length l) ≤ room e ∧
    ity_of (ex_type x) = Some k ∧
    (layout M m l → undisturbed d0 ts ys M m e m l → ∃ m',
       IrSem.exec_code (S d0) ts ys M (m, []) c = Some (m', []) ∧ off M l m m' ∧
       IrSem.compute (S d0) ts ys M (m', []) x = Some ((m', []), le_enc (isize k) z)).
Proof.
  intros Hop Hp Hwf Hl Hv.
  destruct (gen_tree_gives d0 ts ys M d b fuel Hop False m e k z Hwf Hl Hv p Hp) as (q & x & l & c & He & [Hem _] & Hlen & Hx & Hrun).
  exists q, x, l, c. split; [done|]. split; [done|]. split; [done|]. split; [apply Hx|]. intros Hlay Hu.
  destruct (Hrun m []) as (m' & Hex & Ho & _ & Hc); [by rewrite app_nil_r|by rewrite app_nil_r|].
  exists m'. split; [done|]. split; [done|]. apply Hc, off_refl.
Qed.

(** No variables. *)
Definition constant_machine : machine :=
  Machine (λ _, 0) c_operate (λ _ bs, bs) (λ _ _ bs, bs) (λ _ _, false) (λ _ _ _ _, None).

(** C9: Constant expressions.  A tree of constants whose value is defined in C
    is folded to that value: the result is an immediate of the right type, kept
    sign- or zero-extended, no code is emitted, and the state of the parser is
    as before. *)
Theorem constants_folded `{FA : FloatArith} d0 d b fuel p e k z :
  ready d b (sb_types (ps_tab p)) (room e) p → well_formed e →
  (∀ v, v ∈ leaves e → leaf_ok d0 (sb_types (ps_tab p)) ∅ constant_machine True ∅ v) →
  tree_value d0 (sb_types (ps_tab p)) ∅ constant_machine ∅ e = Some (k, z) →
  ∃ v, gen_tree d0 d b fuel e p = Ok (p, as_expr v) ∧ v_kind v = IMMEDIATE ∧ v_symbol v = None ∧
    ity_of (v_type v) = Some k ∧ v_imm v = wrap_u 64 z.
Proof.
  intros Hp Hwf Hl Hv.
  destruct (gen_tree_gives d0 _ _ constant_machine d b fuel ltac:(done) True ∅ e k z Hwf Hl Hv p Hp) as (q & x & l & c & He & [_ HK] & _ & Hx & _).
  destruct (HK I) as (-> & -> & ->). destruct (es_form _ _ _ _ _ _ Hx) as [(v & -> & Hs)|[_ Hf]]; [|by destruct Hf].
  exists v. pose proof (sh_const _ _ _ _ Hs I) as Hi. destruct (sh_imm _ _ _ _ Hs Hi) as (? & _ & ?).
  split; [done|]. split; [done|]. split; [done|]. split; [apply Hs|done].
Qed.

(** ** Instances *)

(** [int x; unsigned char y;] in the function that is being parsed. *)
Definition demo_variable (name : list Z) (t : ctype) : symbol :=
  Symbol (str_of name) t SYM_DEFINITION LINK_NONE 0 0 0 0 1 0 (-1) NoValue.
Definition demo_tab : symtab :=
  put_sym 2%N (demo_variable (cstr "y") basic_type__unsigned_char)
    (put_sym 1%N (demo_variable (cstr "x") basic_type__int) symtab_start).
Definition demo_parser : parser :=
  Parser demo_tab {[1%N := definition_zero]} {[1%N := block_zero]} [] [] [] [].

Definition dx : var := Var DIRECT basic_type__int (Some 1%N) 0 0 0 true 0.
Definition dy : var := Var DIRECT basic_type__unsigned_char (Some 2%N) 0 0 0 true 0.
Definition number (z : Z) : tree := Leaf (var_int z).

(** [(x + y) * 3 - (x < y)] and [(~5 << 2) / -3 + (200 > 'a')]. *)
Definition demo_tree : tree :=
  Binary false IR_OP_SUB
    (Binary false IR_OP_MUL (Binary false IR_OP_ADD (Leaf dx) (Leaf dy)) (number 3))
    (Binary true IR_OP_GT (Leaf dx) (Leaf dy)).
Definition demo_constant : tree :=
  Binary false IR_OP_ADD
    (Binary false IR_OP_DIV (Binary false IR_OP_SHL (Unary UNot (number 5)) (number 2)) (Unary UMinus (number 3)))
    (Binary false IR_OP_GT (number 200) (Convert basic_type__char (number 97))).

(** Symbol [r] is at [4096 + 16 * r]; [x = 7] and [y = 200]. *)
Definition demo_machine : machine :=
  Machine (λ r, 4096 + 16 * Z.of_N r) c_operate (λ _ bs, bs) (λ _ _ bs, bs) (λ _ _, false) (λ _ _ _ _, None).
Definition demo_memory : mem := mblock 4112 (le_enc 16 7 ++ le_enc 16 200 ++ replicate 160 0).

(** The statements and the operation that is left. *)
Example demo_code :
  (λ '(q, x), ((λ B, (λ s, ex_op (st_expr s)) <$> b_code B) <$> ps_blocks q !! 1%N, ex_op x)) <$>
    to_option (gen_tree 0 1%N 1%N 0 demo_tree demo_parser) =
  Some (Some [IR_OP_CAST; IR_OP_ADD; IR_OP_MUL; IR_OP_CAST; IR_OP_GT], IR_OP_SUB).
Proof. vm_compute. reflexivity. Qed.

Lemma demo_tab_ok : symtab_ok demo_tab (λ _, []).
Proof.
  assert (H : ∀ n, Forall is_byte n → (length n < 14)%nat → wf_string (str_of n)) by apply prefix_wf.
  apply put_unowned_ok; [apply put_unowned_ok; [apply symtab_start_ok| |]| |].
  - intros Hr. by apply elem_of_nil in Hr.
  - apply H; [repeat constructor; done|cbn; lia].
  - intros Hr. by apply elem_of_nil in Hr.
  - apply H; [repeat constructor; done|cbn; lia].
Qed.

Lemma demo_parser_ready n : 0 ≤ n < 1000 → ready 1%N 1%N [] n demo_parser.
Proof.
  intros Hn. split; [exists (λ _, []); apply demo_tab_ok|done|done|done|]. cbn. lia.
Qed.

Lemma demo_leaf (K : Prop) (M : machine) ts ys m z : in_range I32 z = true → leaf_ok 0 ts ys M K m (var_int z).
Proof.
  intros Hz. exists I32, z. split; [by apply (shape_numeric K basic_type__int I32)|].
  cbn. f_equal. apply (le_enc_wrap I32).
Qed.

Definition locals_of (o : outcome (parser * expression)) : option (list symref) :=
  match o with Ok (q, _) => d_locals <$> ps_defs q !! 1%N | _ => None end.
Lemma demo_locals : locals_of (gen_tree 0 1%N 1%N 0 demo_tree demo_parser) = Some [3; 4; 5; 6; 7]%N.
Proof. vm_compute. reflexivity. Qed.

Lemma emitted_locals p q x l c : emitted 1%N 1%N p q l c → ps_defs p !! 1%N = Some definition_zero →
  locals_of (Ok (q, x)) = Some l.
Proof.
  intros Hem Hd. unfold locals_of. rewrite (em_def _ _ _ _ _ _ Hem _ Hd), lookup_insert_eq. done.
Qed.

Lemma demo_layout : layout demo_machine demo_memory [3; 4; 5; 6; 7]%N.
Proof.
  split; [apply (bool_decide_eq_true_1 _); vm_compute; reflexivity|]. split.
  - intros r Hr. apply mread_mapped. apply (bool_decide_eq_true_1 _).
    repeat (apply elem_of_cons in Hr as [->|Hr]; [vm_compute; reflexivity|]). by apply elem_of_nil in Hr.
  - intros r r' _ _ Hne. cbn. lia.
Qed.

Lemma demo_leaves v : v ∈ leaves demo_tree → v = dx ∨ v = dy ∨ v = var_int 3.
Proof.
  change (leaves demo_tree) with [dx; dy; var_int 3; dx; dy]. intros Hv.
  repeat (apply elem_of_cons in Hv as [->|Hv]; [auto|]). by apply elem_of_nil in Hv.
Qed.

Lemma demo_leaves_ok v : v ∈ leaves demo_tree → leaf_ok 0 [] ∅ demo_machine False demo_memory v.
Proof.
  assert (Hx : leaf_ok 0 [] ∅ demo_machine False demo_memory dx) by (exists I32, 7; by repeat split).
  assert (Hy : leaf_ok 0 [] ∅ demo_machine False demo_memory dy) by (exists U8, 200; by repeat split).
  intros Hv. destruct (demo_leaves v Hv) as [->|[->| ->]]; [exact Hx|exact Hy|by apply demo_leaf].
Qed.

Lemma demo_undisturbed : undisturbed 0 [] ∅ demo_machine demo_memory demo_tree demo_memory [3; 4; 5; 6; 7]%N.
Proof.
  intros v bs Hv Hb.
  assert (Hr : ∀ r, r ∈ [3; 4; 5; 6; 7]%N → 4144 ≤ addr demo_machine r).
  { intros r Hr. assert (3 ≤ r)%N by (repeat (apply elem_of_cons in Hr as [->|Hr]; [done|]); by apply elem_of_nil in Hr).
    cbn [addr demo_machine]. lia. }
  assert (Hx : ∀ bs, IrSem.eval 1 [] ∅ demo_machine demo_memory dx = Some bs →
    steady 0 [] ∅ demo_machine [3; 4; 5; 6; 7]%N demo_memory dx bs).
  { intros bs' Hb'. apply (steady_direct 0 [] ∅ demo_machine _ demo_memory dx 1%N 4); [done|done|done| |done].
    intros r H%Hr. left. cbn [addr demo_machine v_offset dx]. cbn [addr demo_machine] in H. lia. }
  assert (Hy : ∀ bs, IrSem.eval 1 [] ∅ demo_machine demo_memory dy = Some bs →
    steady 0 [] ∅ demo_machine [3; 4; 5; 6; 7]%N demo_memory dy bs).
  { intros bs' Hb'. apply (steady_direct 0 [] ∅ demo_machine _ demo_memory dy 2%N 1); [done|done|done| |done].
    intros r H%Hr. left. cbn [addr demo_machine v_offset dy]. cbn [addr demo_machine] in H. lia. }
  destruct (demo_leaves v Hv) as [->|[->| ->]]; [by apply Hx|by apply Hy|]. intros m' _. exact Hb.
Qed.

Lemma integer_code_correct_witness : ∃ q x c m',
  gen_tree 0 1%N 1%N 0 demo_tree demo_parser = Ok (q, x) ∧
  IrSem.exec_code 1 [] ∅ demo_machine (demo_memory, []) c = Some (m', []) ∧
  IrSem.compute 1 [] ∅ demo_machine (m', []) x = Some ((m', []), le_enc 4 620).
Proof.
  destruct (integer_code_correct 0 [] ∅ demo_machine 1%N 1%N 0 demo_parser demo_tree demo_memory I32 620)
    as (q & x & l & c & He & Hem & _ & _ & Hrun).
  - done.
  - apply demo_parser_ready. cbn. lia.
  - repeat split.
  - exact demo_leaves_ok.
  - vm_compute. reflexivity.
  - pose proof demo_locals as Hl. rewrite He, (emitted_locals _ q x l c Hem eq_refl) in Hl. apply (inj Some) in Hl.
    subst l. destruct Hrun as (m' & Hex & _ & Hc); [exact demo_layout|exact demo_undisturbed|].
    exists q, x, c, m'. split; [exact He|]. split; [exact Hex|exact Hc].
Defined.

Lemma constant_leaves v : v ∈ leaves demo_constant → ∃ z, v = var_int z ∧ in_range I32 z = true.
Proof.
  change (leaves demo_constant) with (var_int <$> [5; 2; 3; 200; 97]). intros (z & -> & Hz)%list_elem_of_fmap. exists z. split; [done|].
  repeat (apply elem_of_cons in Hz as [->|Hz]; [done|]). by apply elem_of_nil in Hz.
Qed.

Lemma constants_folded_witness : ∃ v, gen_tree 0 1%N 1%N 0 demo_constant demo_parser = Ok (demo_parser, as_expr v) ∧
  v_imm v = wrap_u 64 9.
Proof.
  destruct (constants_folded 0 1%N 1%N 0 demo_parser demo_constant I32 9) as (v & Hg & _ & _ & _ & Hi).
  - apply demo_parser_ready. cbn. lia.
  - split; [done|]. split; [repeat split|]. split; [done|]. split; [done|]. split; [by exists I8|done].
  - intros v Hv. destruct (constant_leaves v Hv) as (z & -> & Hz). by apply demo_leaf.
  - vm_compute. reflexivity.
  - exists v. split; [exact Hg|exact Hi].
Defined.

(** ** What evaluation gets wrong *)

(** [char s[4]], the literal ["abc"], a [struct { long a; }], [long double e]
    and [char c], beside [x] and [y]. *)
Definition bad_types : typetab * ctype * ctype :=
  match type_create_array 3 [] basic_type__char 4 with
  | Ok (ts, a) => let '(ts, s) := type_create ts T_STRUCT in (ts, a, s)
  | _ => ([], type_zero, type_zero)
  end.
Definition array_4 : ctype := bad_types.1.2.
Definition struct_s : ctype := bad_types.2.
Definition bad_parser : parser :=
  Parser (set_types bad_types.1.1
    (put_sym 3%N (Symbol (str_of (cstr ".LC")) array_4 SYM_STRING_VALUE LINK_INTERN 0 0 0 0 1 0 (-1) (StringValue (str_of (cstr "abc"))))
      (put_sym 4%N (demo_variable (cstr "s") struct_s)
        (put_sym 5%N (demo_variable (cstr "e") basic_type__long_double) demo_tab))))
    {[1%N := definition_zero]} {[1%N := block_zero]} [] [] [] [].

Definition evaluated (op : optype) (l : var) (a : operand) : option expression :=
  match eval_expr 4 (evaluator 4 6) (Some 1%N) (Some 1%N) op l a bad_parser with Ok (_, e) => Some e | _ => None end.
Definition literal : var := Var IMMEDIATE array_4 (Some 3%N) 0 0 0 false 0.

(** The address of a string literal is taken for the constant 0: ["abc" == 0]
    is 1. *)
Theorem literal_equals_null : evaluated IR_OP_EQ literal (OperandVar (var_int 0)) = Some (as_expr (var_int 1)).
Proof. vm_compute. reflexivity. Qed.

(** So ["abc"] is false as a condition; it is what [x && "message"] tests. *)
Theorem literal_is_false :
  match rvalue 4 (evaluator 4 6) (Some 1%N) (Some 1%N) literal bad_parser with
  | Ok (p, v) => match is_immediate_false 4 (as_expr v) p with Ok (_, b) => Some b | _ => None end
  | _ => None
  end = Some true.
Proof. vm_compute. reflexivity. Qed.

(** [(long) "abc" + 1] is the number 1. *)
Theorem literal_loses_address :
  match evaluated IR_OP_CAST literal (OperandType basic_type__long) with
  | Some e => evaluated IR_OP_ADD (ex_l e) (OperandVar (var_int 1))
  | None => None
  end = Some (as_expr (var_numeric basic_type__long 1)).
Proof. vm_compute. reflexivity. Qed.

(** A pointer stored at a constant address, [*(char * * )1000]: adding 1 to it
    yields the object at the address 1001 instead. *)
Definition at_1000 : var :=
  Var DEREF (set_pointer basic_type__char true) None 0 0 0 true 1000.
Theorem pointer_at_constant_address :
  evaluated IR_OP_ADD at_1000 (OperandVar (var_int 1)) = Some (as_expr (v_set_imm 1001 at_1000)).
Proof. vm_compute. reflexivity. Qed.

(** The compiler divides by zero itself on [1 / 0], even where the expression
    is never evaluated. *)
Theorem division_while_folding :
  eval_expr 4 (evaluator 4 6) None None IR_OP_DIV (var_int 1) (OperandVar (var_int 0)) bad_parser = Undef "division by zero".
Proof. vm_compute. reflexivity. Qed.

(** A [long double] is negated by subtraction from zero: the result for 0.0 is
    0.0, not -0.0. *)
Theorem long_double_zero_not_negated :
  evaluated IR_OP_NEG (var_numeric basic_type__long_double 0) NoOperand =
    Some (as_expr (var_numeric basic_type__long_double 0)) ∧
  evaluated IR_OP_NEG (var_numeric basic_type__double 0) NoOperand =
    Some (as_expr (var_numeric basic_type__double (2 ^ 63))).
Proof. split; vm_compute; reflexivity. Qed.

(** A struct cannot be converted to its own type, which is how the value of
    [1 ? s : s] is read: a valid program is rejected. *)
Theorem struct_conversion_rejected :
  eval_expr 4 (evaluator 4 6) (Some 1%N) (Some 1%N) IR_OP_CAST (Var DIRECT struct_s (Some 4%N) 0 0 0 true 0)
    (OperandType struct_s) bad_parser = Exit "Invalid type parameters to cast expression.".
Proof. vm_compute. reflexivity. Qed.

(** A bit-field of one byte is assigned as if it were [_Bool]: from a variable
    it gets 0 or 1. *)
Definition field_target : var := Var DIRECT basic_type__char (Some 4%N) 0 4 0 true 0.
Theorem char_field_becomes_bool :
  match eval_assign 4 (evaluator 4 6) (Some 1%N) (Some 1%N) field_target (as_expr dx) bad_parser with
  | Ok (q, _) => (λ B, (λ s, (v_field_width (st_t s), ex_op (st_expr s), ex_type (st_expr s))) <$> b_code B) <$> ps_blocks q !! 1%N
  | _ => None
  end = Some [(4, IR_OP_CAST, basic_type__bool)].
Proof. vm_compute. reflexivity. Qed.

(** A constant cannot be assigned to a bit-field of 64 bits: the mask is
    computed by a shift of 64. *)
Theorem wide_field_constant :
  eval_assign 4 (evaluator 4 6) (Some 1%N) (Some 1%N) (Var DIRECT basic_type__long (Some 4%N) 0 64 0 true 0)
    (as_expr (var_int 1)) bad_parser = Undef "shift count".
Proof. vm_compute. reflexivity. Qed.

(** Outside of a function there is no definition to make a temporary for: the
    operand of [sizeof (y + 1)] aborts the compiler. *)
Theorem temporary_without_definition :
  eval_expr 4 (evaluator 4 6) None (Some 1%N) IR_OP_ADD dy (OperandVar (var_int 1)) bad_parser = Exit "assertion failed".
Proof. vm_compute. reflexivity. Qed.
