(* ===== verification/Parser.v ===== *)
(** * The state of the parser (the static variables of src/parser/*.c)

    A grammar rule consumes tokens, changes the symbols, types and flow graphs
    ([parser] of Cfg), and uses a few variables of its file.  Where the tokens
    come from is an interface that the preprocessor implements. *)

From stdpp Require Import base list gmap numbers strings.
From Stdlib Require Import ZArith Lia.
From S2P Require Import Prelude VmInstr CType CArith Strings Symbol Typetree Symtab Token Ir Cfg.

Local Open Scope Z_scope.

(** ** Tokens *)

(** [next] and [peekn] of preprocess.c. *)
Class TokenSource (T : Type) : Type := {
  src_next : T → outcome (T * token);
  src_peekn : T → nat → outcome (T * token)
}.

(** What the grammar relies on: while the tokens [l] are served, [next] and
    [peekn] return them. *)
Class TokensServed (T : Type) `{TokenSource T} : Type := {
  serves : T → list token → Prop;
  next_served s t l : serves s (t :: l) → ∃ s', src_next s = Ok (s', t) ∧ serves s' l;
  peekn_served s l n t : serves s l → l !! n = Some t → ∃ s', src_peekn s (S n) = Ok (s', t) ∧ serves s' l
}.

(** A list of tokens, [END] behind its last. *)
#[export] Instance list_source : TokenSource (list token) := {
  src_next l := match l with t :: l => Ok (l, t) | [] => Ok ([], basic END) end;
  src_peekn l n := Ok (l, default (basic END) (l !! (n - 1)%nat))
}.
#[export] Program Instance list_served : TokensServed (list token) := {
  serves s l := l `prefix_of` s
}.
Next Obligation. intros s t l [k ->]. exists (l ++ k). split; [done|by exists k]. Qed.
Next Obligation.
  intros s l n t Hs Hl. exists s. split; [|done]. cbn [src_peekn list_source].
  replace (S n - 1)%nat with n by lia. by rewrite (prefix_lookup_Some l s n t Hl Hs).
Qed.

(** ** The state *)

(** [struct switch_case] without its link, and [struct switch_context]. *)
Record switch_case : Set := SwitchCase { sc_label : bref; sc_value : var }.
Record switch_context : Set := SwitchContext {
  default_label : option bref;
  sw_cases : list switch_case;
  sw_sorted : list switch_case
}.

(** [args] and [max_depth] of expression.c: the lists that were allocated and
    how many are in use; [break_target], [continue_target] and
    [switch_context] of statement.c; [inititializer_blocks]; [global_offset]
    of symtab.c; the number of errors; the [def] of [parse]. *)
Record statics : Type := Statics {
  args_lists : list (list expression);
  args_length : nat;
  max_depth : nat;
  break_target : option bref;
  continue_target : option bref;
  current_switch : option switch_context;
  initializer_blocks : list bref;
  global_offset : Z;
  context_errors : Z;
  parsed : option defref
}.
Definition statics_start : statics := Statics [] 0 0 None None None [] 0 0 None.

Definition st_set_args (l : list (list expression)) (n m : nat) (s : statics) : statics :=
  Statics l n m (break_target s) (continue_target s) (current_switch s) (initializer_blocks s)
    (global_offset s) (context_errors s) (parsed s).
Definition st_set_break (b : option bref) (s : statics) : statics :=
  Statics (args_lists s) (args_length s) (max_depth s) b (continue_target s) (current_switch s)
    (initializer_blocks s) (global_offset s) (context_errors s) (parsed s).
Definition st_set_continue (b : option bref) (s : statics) : statics :=
  Statics (args_lists s) (args_length s) (max_depth s) (break_target s) b (current_switch s)
    (initializer_blocks s) (global_offset s) (context_errors s) (parsed s).
Definition st_set_switch (c : option switch_context) (s : statics) : statics :=
  Statics (args_lists s) (args_length s) (max_depth s) (break_target s) (continue_target s) c
    (initializer_blocks s) (global_offset s) (context_errors s) (parsed s).
Definition st_set_initializers (l : list bref) (s : statics) : statics :=
  Statics (args_lists s) (args_length s) (max_depth s) (break_target s) (continue_target s)
    (current_switch s) l (global_offset s) (context_errors s) (parsed s).
Definition st_set_global (o : Z) (s : statics) : statics :=
  Statics (args_lists s) (args_length s) (max_depth s) (break_target s) (continue_target s)
    (current_switch s) (initializer_blocks s) o (context_errors s) (parsed s).
Definition st_add_error (s : statics) : statics :=
  Statics (args_lists s) (args_length s) (max_depth s) (break_target s) (continue_target s)
    (current_switch s) (initializer_blocks s) (global_offset s) (context_errors s + 1) (parsed s).
Definition st_set_parsed (d : option defref) (s : statics) : statics :=
  Statics (args_lists s) (args_length s) (max_depth s) (break_target s) (continue_target s)
    (current_switch s) (initializer_blocks s) (global_offset s) (context_errors s) d.

Record front (T : Type) : Type := Front { fr_source : T; fr_parser : parser; fr_statics : statics }.
Arguments Front {T} _ _ _.
Arguments fr_source {T} _.
Arguments fr_parser {T} _.
Arguments fr_statics {T} _.

(** ** Computations of the grammar *)

Definition P (T A : Type) : Type := front T → outcome (front T * A).
#[export] Instance P_ret {T} : MRet (P T) := λ A a s, Ok (s, a).
#[export] Instance P_bind {T} : MBind (P T) := λ A B f m s, '(s, a) ← m s; f a s.

(** A computation on the graphs, symbols and types. *)
Definition ev {T A} (m : E A) : P T A := λ s,
  '(p, a) ← m (fr_parser s); Ok (Front (fr_source s) p (fr_statics s), a).
Definition get_statics {T} : P T statics := λ s, Ok (s, fr_statics s).
Definition change_statics {T} (f : statics → statics) : P T unit := λ s,
  Ok (Front (fr_source s) (fr_parser s) (f (fr_statics s)), tt).
(** [error] without [exit]. *)
Definition report_error {T} : P T unit := change_statics st_add_error.
Definition stop {T A} (msg : string) : P T A := ev (fail msg).
Definition stuck {T A} : P T A := ev (lift (Undef "not enough fuel")).
Definition ensure {T} (b : bool) : P T unit := ev (assert b).

Section tokens.
Context {T : Type} `{TokenSource T}.

Definition next : P T token := λ s,
  '(x, t) ← src_next (fr_source s); Ok (Front x (fr_parser s) (fr_statics s), t).
Definition peekn (n : nat) : P T token := λ s,
  '(x, t) ← src_peekn (fr_source s) n; Ok (Front x (fr_parser s) (fr_statics s), t).
Definition peek : P T token := peekn 1.
(** [peek().token] and [peekn(2).token]. *)
Definition peek_type : P T token_type := t ← peek; mret (tk_token t).
Definition peek2_type : P T token_type := t ← peekn 2; mret (tk_token t).
Definition at_type (ty : token_type) : P T bool := t ← peek; mret (is_tok ty t).

Definition consume (ty : token_type) : P T token :=
  t ← next; if is_tok ty t then mret t else stop "Unexpected token.".
Definition skip (ty : token_type) : P T unit := _ ← consume ty; mret tt.
(** The name of a token. *)
Definition name_of (t : token) : P T kstring := ev (lift (tok_string t)).

End tokens.

(** ** Symbols *)

Section symbols.
Context (depth : nat).

Definition lookup_symbol (id : nsid) (name : kstring) : E (option symref) := on_symbols (λ s, sym_lookup s id name).
Definition add_symbol (id : nsid) (name : kstring) (t : ctype) (st : symtype) (lk : linkage) (dt : decltype) : E symref :=
  on_symbols (λ s, sym_add depth s id name t st lk dt).
Definition on_scopes (f : symtab → outcome symtab) : E unit := on_symbols (λ s, s ← f s; Ok (s, tt)).
Definition open_scope (id : nsid) : E unit := on_scopes (λ s, push_scope s id).
Definition close_scope (id : nsid) : E unit := on_scopes (λ s, pop_scope s id).
Definition scope_depth (id : nsid) : E Z := λ p, d ← current_scope_depth (ns_of (ps_tab p) id); Ok (p, d).
Definition change_symbol (r : symref) (f : symbol → symbol) : E unit :=
  y ← the_symbol (Some r); update (λ p, ps_set_tab (put_sym r (f y) (ps_tab p)) p).
Definition change_types (f : typetab → outcome typetab) : E unit := new_type (λ ts, ts ← f ts; Ok (ts, tt)).

(** The symbol of a name, if it is a type. *)
Definition get_typedef (name : kstring) : E (option ctype) :=
  tag ← lookup_symbol NS_IDENT name;
  match tag with
  | None => mret None
  | Some _ =>
    y ← the_symbol tag;
    mret (if bool_decide (sym_symtype y = SYM_TYPEDEF) then Some (sym_type y) else None)
  end.

End symbols.

Definition with_value (v : symvalue) (y : symbol) : symbol :=
  Symbol (Symbol.sym_name y) (sym_type y) (sym_symtype y) (sym_linkage y) (sym_referenced y) (sym_slot y)
    (sym_index y) (sym_n y) (sym_depth y) (sym_stack_offset y) (sym_global_offset y) v.
Definition with_global_offset (o : Z) (y : symbol) : symbol :=
  Symbol (Symbol.sym_name y) (sym_type y) (sym_symtype y) (sym_linkage y) (sym_referenced y) (sym_slot y)
    (sym_index y) (sym_n y) (sym_depth y) (sym_stack_offset y) o (sym_value y).
(** [value.constant.i] and [value.label]; a new symbol is all zero. *)
Definition constant_value (y : symbol) : outcome Z :=
  match sym_value y with
  | NoValue => Ok 0
  | ConstantValue c => Ok (wrap_s 64 c)
  | _ => Undef "inactive member of a union"
  end.
Definition label_value (y : symbol) : outcome (option bref) :=
  match sym_value y with
  | NoValue => Ok None
  | LabelValue b => Ok (Some b)
  | _ => Undef "inactive member of a union"
  end.

(** [get_global_variable_size] and [add_global_variable_size]. *)
Definition allocate_global {T} (depth : nat) (r : symref) : P T unit :=
  y ← ev (the_symbol (Some r));
  if sym_global_offset y <? 0 then
    st ← get_statics;
    _ ← ev (change_symbol r (with_global_offset (global_offset st)));
    n ← ev (on_types (λ ts, size_of depth ts (sym_type y)));
    let size := wrap_s 32 n in
    if 0 <? size then
      o ← ev (lift (c_result I32 (global_offset st + pad8 size)));
      change_statics (st_set_global o)
    else mret tt
  else mret tt.

(** ** The rules that call each other

    A rule calls those of the files before it and its own helpers directly;
    the calls that close a cycle go through this record, which Grammar ties.
    [option] stands for a pointer that may be [NULL]: a definition, a block, the
    place for a name, or for the length of a [static] array parameter; a place
    is passed with its contents and returned with the new ones. *)

(** What [declaration_specifiers] returns: the type, the storage class ([None]
    for ['$']), and the other two flags. *)
Record specifiers : Set := Specifiers {
  sp_type : ctype;
  sp_storage : option token_type;
  sp_inline : bool;
  sp_register : bool
}.
Record declared : Set := Declared {
  dc_block : option bref;
  dc_type : ctype;
  dc_name : option kstring;
  dc_length : option Z
}.

Record grammar (T : Type) : Type := Grammar {
  g_cast_expression : option defref → bref → P T bref;
  g_unary_expression : option defref → bref → P T bref;
  g_logical_and_expression : option defref → bref → P T bref;
  g_logical_or_expression : option defref → bref → P T bref;
  g_conditional_expression : option defref → bref → P T bref;
  g_assignment_expression : option defref → bref → P T bref;
  g_expression : option defref → bref → P T bref;
  g_initializer : option defref → bref → symref → P T bref;
  g_initialize_member : option defref → bref → bref → var → P T bref;
  g_initialize_object : option defref → bref → bref → var → P T bref;
  g_declaration_specifiers : bool → bool → bool → P T specifiers;
  g_array_declarator : option defref → option bref → ctype → option Z → P T declared;
  g_parameter_declarator : option defref → option bref → ctype → option kstring → option Z → P T declared;
  g_declaration : option defref → option bref → P T (option bref);
  g_statement : option defref → bref → P T bref;
  g_block : option defref → bref → P T bref
}.
Arguments Grammar {T}.
Arguments g_cast_expression {T} _ _ _.
Arguments g_unary_expression {T} _ _ _.
Arguments g_logical_and_expression {T} _ _ _.
Arguments g_logical_or_expression {T} _ _ _.
Arguments g_conditional_expression {T} _ _ _.
Arguments g_assignment_expression {T} _ _ _.
Arguments g_expression {T} _ _ _.
Arguments g_initializer {T} _ _ _ _.
Arguments g_initialize_member {T} _ _ _ _ _.
Arguments g_initialize_object {T} _ _ _ _ _.
Arguments g_declaration_specifiers {T} _ _ _ _.
Arguments g_array_declarator {T} _ _ _ _ _.
Arguments g_parameter_declarator {T} _ _ _ _ _ _.
Arguments g_declaration {T} _ _ _.
Arguments g_statement {T} _ _ _.
Arguments g_block {T} _ _ _.

Definition stuck_grammar {T} : grammar T :=
  Grammar (λ _ _, stuck) (λ _ _, stuck) (λ _ _, stuck) (λ _ _, stuck) (λ _ _, stuck) (λ _ _, stuck)
    (λ _ _, stuck) (λ _ _ _, stuck) (λ _ _ _ _, stuck) (λ _ _ _ _, stuck) (λ _ _ _, stuck)
    (λ _ _ _ _, stuck) (λ _ _ _ _ _, stuck) (λ _ _, stuck) (λ _ _, stuck) (λ _ _, stuck).

(** A pointer that is dereferenced. *)
Definition non_null {T A} (o : option A) : P T A :=
  ev (lift (match o with Some a => Ok a | None => Undef "null pointer" end)).

(** The first tokens of a type name: [FIRST(type_qualifier)] and
    [FIRST(type_specifier)]. *)
Definition first_type_qualifier (t : token_type) : bool :=
  match t with CONST | VOLATILE => true | _ => false end.
Definition first_type_specifier (t : token_type) : bool :=
  match t with
  | VOID | BOOL | CHAR | SHORT | INT | LONG | FLOAT | DOUBLE | SIGNED | UNSIGNED | STRUCT | UNION | ENUM => true
  | _ => false
  end.
Definition first_type_name (t : token_type) : bool := first_type_qualifier t || first_type_specifier t.
