(* ===== verification/Expression.v ===== *)
(** * Expressions (src/parser/expression.c)

    Recursive descent over the grammar of expressions.  A rule takes the
    current block and returns the block where evaluation goes on; the value of
    what was read is [block->expr].  [fuel] bounds the turns of one loop and the
    calls of the evaluator inside each other. *)

From stdpp Require Import base list gmap numbers strings.
From Stdlib Require Import ZArith Lia.
From S2P Require Import Prelude VmInstr Token Macro CType CArith Floats Strings Symbol Typetree Symtab Immediate Ir Cfg Eval Assign Parser.

Local Open Scope Z_scope.

Section expression.
Context `{FA : FloatArith} {T : Type} `{TS : TokenSource T} (depth fuel : nat) (standard : cstd) (g : grammar T).
Abbreviation G := (P T).
Abbreviation knot_at := (evaluator depth fuel).

(** [eval(def, block, block->expr)], and [eval_expr] in a block. *)
Definition value_of (def : option defref) (block : bref) : E var :=
  e ← block_expr block; eval depth def (Some block) e.
Definition apply_op (def : option defref) (block : bref) (op : optype) (l : var) (a : operand) : E expression :=
  eval_expr depth knot_at def (Some block) op l a.
Definition assign_to (def : option defref) (block : bref) (target : var) (e : expression) : E var :=
  eval_assign depth knot_at def (Some block) target e.

Definition find_symbol (name : kstring) : E symref :=
  s ← lookup_symbol NS_IDENT name;
  match s with Some s => mret s | None => fail "Undefined symbol." end.

(** A type in parentheses, behind the first: a name may not be declared. *)
Definition type_name (def : option defref) (block : bref) : G (bref * ctype) :=
  sp ← g_declaration_specifiers g false false false;
  close ← at_type CLOSE_PAREN;
  if close : bool then mret (block, sp_type sp)
  else
    d ← g_parameter_declarator g def (Some block) (sp_type sp) None None;
    b ← non_null (dc_block d);
    mret (b, dc_type d).

(** ** Builtin functions *)

Definition parse__builtin_va_start (def : option defref) (block : bref) : G bref :=
  _ ← skip OPEN_PAREN;
  block ← g_assignment_expression g def block;
  _ ← skip COMMA;
  param ← consume IDENTIFIER;
  name ← name_of param;
  sym ← ev (find_symbol name);
  y ← ev (the_symbol (Some sym));
  d ← ev (the_def def);
  f ← ev (the_symbol (d_symbol d));
  vararg ← ev (on_types (λ ts, is_vararg ts (sym_type f)));
  if negb vararg then stop "Function must be vararg to use va_start."
  else
    n ← ev (on_types (λ ts, nmembers ts (sym_type f)));
    mb ← ev (on_types (λ ts, get_member ts (sym_type f) (n - 1)));
    if negb (str_cmp (m_name mb) (Symbol.sym_name y) =? 0) || negb (sym_depth y =? 1) then
      stop "Expected last function argument as va_start argument."
    else
      _ ← skip CLOSE_PAREN;
      e ← ev (block_expr block);
      _ ← ev (eval__builtin_va_start (Some block) e);
      mret block.

Definition parse__builtin_va_arg (def : option defref) (block : bref) : G bref :=
  _ ← skip OPEN_PAREN;
  block ← g_assignment_expression g def block;
  value ← ev (value_of def block);
  _ ← skip COMMA;
  '(block, t) ← type_name def block;
  _ ← skip CLOSE_PAREN;
  e ← ev (apply_op def block IR_OP_VA_ARG value (OperandType t));
  _ ← ev (put_expr block e);
  mret block.

(** [declare_vla] of declaration.c. *)
Definition declare_vla (def : option defref) (block : bref) (sym : symref) : E unit :=
  y ← the_symbol (Some sym);
  vla ← vla_type depth (sym_type y);
  _ ← assert vla;
  n ← next_type (sym_type y);
  t ← pointer_to n;
  addr ← on_symbols (λ s, sym_create_temporary s t);
  _ ← change_def def (add_local addr);
  _ ← change_symbol sym (with_value (VlaAddress addr));
  eval_vla_alloc depth knot_at def block sym.

Definition parse__builtin_alloca (def : option defref) (block : bref) : G bref :=
  _ ← skip OPEN_PAREN;
  block ← g_assignment_expression g def block;
  _ ← skip CLOSE_PAREN;
  t1 ← ev (create_var def basic_type__unsigned_long);
  e ← ev (block_expr block);
  _ ← ev (assign_to def block t1 e);
  len ← non_null (v_symbol t1);
  t ← ev (new_type (λ ts, type_create_vla depth ts basic_type__char len));
  sym ← ev (on_symbols (λ s, sym_create_temporary s t));
  _ ← ev (change_def def (add_local sym));
  _ ← ev (declare_vla def block sym);
  v ← ev (var_direct (Some sym));
  void ← ev (pointer_to basic_type__void);
  e ← ev (apply_op def block IR_OP_CAST v (OperandType void));
  _ ← ev (put_expr block e);
  mret block.

(** ** Primary expressions *)

Definition is_named (y : symbol) (name : list Z) : bool := bool_decide (str_raw (Symbol.sym_name y) = name).

(** A variable as the value of a block. *)
Definition put_var (block : bref) (v : var) : E unit := put_expr block (as_expr v).

Definition primary_expression (def : option defref) (block : bref) : G bref :=
  tok ← next;
  match tk_token tok with
  | IDENTIFIER =>
    name ← name_of tok;
    sym ← ev (find_symbol name);
    y ← ev (the_symbol (Some sym));
    if is_named y (cstr "__builtin_va_start") then parse__builtin_va_start def block
    else if is_named y (cstr "__builtin_va_arg") then parse__builtin_va_arg def block
    else if is_named y (cstr "__builtin_alloca") then parse__builtin_alloca def block
    else v ← ev (var_direct (Some sym)); _ ← ev (put_var block v); mret block
  | NUMBER =>
    u ← ev (lift (tok_val tok));
    let e := as_expr (var_numeric (tk_type tok) u) in
    _ ← ev (put_expr block e);
    i ← ev (identity depth e);
    _ ← ensure i;
    mret block
  | OPEN_PAREN =>
    block ← g_expression g def block;
    _ ← skip CLOSE_PAREN;
    mret block
  | STRING =>
    str ← name_of tok;
    sym ← ev (on_symbols (λ s, sym_create_string depth s str));
    v ← ev (var_direct (Some sym));
    _ ← ev (put_var block v);
    i ← ev (identity depth (as_expr v));
    _ ← ensure i;
    _ ← ensure (bool_decide (v_kind v = IMMEDIATE));
    mret block
  | _ => stop "Unexpected token, not a valid primary expression."
  end.

(** ** Arguments *)

(** [clear_argument_lists]; [max_depth] keeps its value. *)
Definition clear_argument_lists : G unit :=
  change_statics (λ s, st_set_args [] 0 (Parser.max_depth s) s).

(** [push_argument_list]: the number of the list. *)
Definition push_argument_list : G nat :=
  s ← get_statics;
  let len := args_length s in
  if (len =? Parser.max_depth s)%nat then
    _ ← change_statics (λ s, st_set_args (take len (args_lists s) ++ [[]]) (S len) (S len) s);
    mret len
  else
    _ ← ev (lift (defined "no argument list" (args_lists s !! len)));
    _ ← change_statics (λ s, st_set_args (args_lists s) (S len) (Parser.max_depth s) s);
    mret len.

Definition push_argument (i : nat) (e : expression) : G unit :=
  change_statics (λ s, st_set_args (alter (λ l, l ++ [e]) i (args_lists s)) (args_length s) (Parser.max_depth s) s).
Definition argument_list (i : nat) : G (list expression) :=
  s ← get_statics; ev (lift (defined "no argument list" (args_lists s !! i))).

Definition pop_argument_list : G unit :=
  s ← get_statics;
  _ ← ensure (negb (args_length s =? 0)%nat);
  let n := (args_length s - 1)%nat in
  change_statics (λ s, st_set_args (alter (λ _, []) n (args_lists s)) n (Parser.max_depth s) s).

(** The argument that was read, stored in the list. *)
Definition store_argument (def : option defref) (block : bref) (args : nat) : G unit :=
  e ← ev (block_expr block);
  e ← ev (eval_param depth knot_at def (Some block) e);
  _ ← ev (put_expr block e);
  push_argument args e.

(** The value of the block, converted. *)
Definition convert_value (def : option defref) (block : bref) (t : ctype) : E unit :=
  value ← value_of def block;
  e ← apply_op def block IR_OP_CAST value (OperandType t);
  put_expr block e.

(** The arguments for parameters [i] and up; [n] is fuel. *)
Fixpoint fixed_arguments (n : nat) (def : option defref) (block : bref) (t : ctype) (args : nat) (i : Z) : G bref :=
  match n with
  | O => stuck
  | S n =>
    m ← ev (on_types (λ ts, nmembers ts t));
    if negb (i <? m) then mret block
    else
      close ← at_type CLOSE_PAREN;
      if close : bool then stop "Too few arguments."
      else
        _ ← ev (on_types (λ ts, get_member ts t i));
        block ← g_assignment_expression g def block;
        mbr ← ev (on_types (λ ts, get_member ts t i));
        e ← ev (block_expr block);
        same ← ev (same_type depth (ex_type e) (m_type mbr));
        _ ← (if negb same then ev (convert_value def block (m_type mbr)) else mret tt);
        _ ← store_argument def block args;
        m ← ev (on_types (λ ts, nmembers ts t));
        _ ← (if i <? m - 1 then skip COMMA else mret tt);
        fixed_arguments n def block t args (i + 1)
  end.

Fixpoint variable_arguments (n : nat) (def : option defref) (block : bref) (t : ctype) (args : nat) : G bref :=
  match n with
  | O => stuck
  | S n =>
    vararg ← ev (on_types (λ ts, is_vararg ts t));
    if negb vararg then mret block
    else
      close ← at_type CLOSE_PAREN;
      if close : bool then mret block
      else
        _ ← skip COMMA;
        block ← g_assignment_expression g def block;
        e ← ev (block_expr block);
        _ ← (if is_float (ex_type e) then ev (convert_value def block basic_type__double) else mret tt);
        _ ← store_argument def block args;
        variable_arguments n def block t args
  end.

(** The function type behind an expression that is called. *)
Definition called_type (t : ctype) : E ctype :=
  if is_pointer t then
    f ← deref_type t;
    if is_function f then mret f else fail "Expression must have type pointer to function."
  else if is_function t then mret t
  else fail "Expression must have type pointer to function.".

Definition function_call (def : option defref) (block : bref) (root : expression) : G (bref * expression) :=
  t ← ev (called_type (ex_type root));
  _ ← skip OPEN_PAREN;
  args ← push_argument_list;
  block ← fixed_arguments fuel def block t args 0;
  block ← variable_arguments fuel def block t args;
  _ ← skip CLOSE_PAREN;
  l ← argument_list args;
  _ ← ev (each (Assign.param (Some block)) l);
  value ← ev (eval depth def (Some block) root);
  e ← ev (apply_op def block IR_OP_CALL value NoOperand);
  _ ← ev (put_expr block e);
  _ ← pop_argument_list;
  mret (block, e).

(** ** Postfix expressions *)

(** A member of an object. *)
Definition member_of (value : var) (m : member) : var :=
  Var (v_kind value) (m_type m) (v_symbol value) (addz (v_offset value) (m_offset m)) (m_field_width m)
    (m_field_offset m) (v_lvalue value) (v_imm value).
Definition named_member (t : ctype) (name : kstring) : E member :=
  m ← on_types (λ ts, find_type_member ts t name);
  match m with Some (_, m) => mret m | None => fail "Invalid access, no member named so." end.

Definition subscript (def : option defref) (block : bref) : G (bref * expression) :=
  _ ← skip OPEN_BRACKET;
  value ← ev (value_of def block);
  block ← g_expression g def block;
  w ← ev (value_of def block);
  e ← ev (apply_op def block IR_OP_ADD value (OperandVar w));
  _ ← ev (put_expr block e);
  v ← ev (value_of def block);
  v ← ev (eval_deref depth knot_at def (Some block) v);
  _ ← ev (put_var block v);
  _ ← skip CLOSE_BRACKET;
  mret (block, as_expr v).

Definition member_access (def : option defref) (block : bref) (root : expression) : G (bref * expression) :=
  _ ← skip DOT;
  tok ← consume IDENTIFIER;
  name ← name_of tok;
  m ← ev (named_member (ex_type root) name);
  value ← ev (eval depth def (Some block) root);
  let v := member_of value m in
  _ ← ev (put_var block v);
  mret (block, as_expr v).

Definition arrow_access (def : option defref) (block : bref) (root : expression) : G (bref * expression) :=
  _ ← skip ARROW;
  tok ← consume IDENTIFIER;
  value ← ev (eval depth def (Some block) root);
  value ← ev (eval_deref depth knot_at def (Some block) value);
  if is_struct_or_union (v_type value) then
    name ← name_of tok;
    m ← ev (named_member (v_type value) name);
    let v := member_of value m in
    _ ← ev (put_var block v);
    mret (block, as_expr v)
  else stop "Invalid member access.".

(** [root++] and [root--]. *)
Definition post_step (def : option defref) (block : bref) (root : expression) (op : optype) : E (bref * expression) :=
  value ← eval depth def (Some block) root;
  copy ← eval_copy depth knot_at def (Some block) value;
  e ← apply_op def block op value (OperandVar (var_int 1));
  _ ← assign_to def block value e;
  _ ← put_var block copy;
  mret (block, as_expr copy).

(** The inner loop over subscripts is a turn of the outer one: both look for
    the same token, and [root] is [block->expr] at the head of each. *)
Fixpoint postfix_loop (n : nat) (def : option defref) (block : bref) (root : expression) : G bref :=
  match n with
  | O => stuck
  | S n =>
    t ← peek_type;
    match t with
    | OPEN_BRACKET => '(block, root) ← subscript def block; postfix_loop n def block root
    | OPEN_PAREN => '(block, root) ← function_call def block root; postfix_loop n def block root
    | DOT => '(block, root) ← member_access def block root; postfix_loop n def block root
    | ARROW => '(block, root) ← arrow_access def block root; postfix_loop n def block root
    | INCREMENT =>
      _ ← skip INCREMENT;
      '(block, root) ← ev (post_step def block root IR_OP_ADD);
      postfix_loop n def block root
    | DECREMENT =>
      _ ← skip DECREMENT;
      '(block, root) ← ev (post_step def block root IR_OP_SUB);
      postfix_loop n def block root
    | _ => _ ← ev (put_expr block root); mret block
    end
  end.
Definition postfix (def : option defref) (block : bref) : G bref :=
  root ← ev (block_expr block); postfix_loop fuel def block root.

(** The declaration of a function that is called before it is declared. *)
Definition declare_implicitly : G unit :=
  tok ← peek;
  if negb (is_tok IDENTIFIER tok) then mret tt
  else
    t2 ← peek2_type;
    if negb (bool_decide (t2 = OPEN_PAREN)) then mret tt
    else
      name ← name_of tok;
      sym ← ev (lookup_symbol NS_IDENT name);
      match sym with
      | Some _ => mret tt
      | None =>
        t ← ev (new_type (λ ts, type_create_function ts basic_type__int));
        _ ← ev (add_symbol depth NS_IDENT name t SYM_DECLARATION LINK_EXTERN DECL_NORMAL);
        mret tt
      end.

Definition postfix_expression (def : option defref) (block : bref) : G bref :=
  _ ← (match standard with STD_C89 => declare_implicitly | _ => mret tt end);
  block ← primary_expression def block;
  postfix def block.

(** ** Unary expressions *)

(** [sizeof] and the operand of it, when it is an expression. *)
Definition sizeof_expression (def : option defref) : G ctype :=
  head ← ev (cfg_block_init def);
  tail ← g_unary_expression g def head;
  e ← ev (block_expr tail);
  mret (ex_type e).

(** Behind a parenthesis: whether the token begins a type name. *)
Definition starts_type_name (tok : token) : G bool :=
  match tk_token tok with
  | IDENTIFIER =>
    name ← name_of tok;
    t ← ev (get_typedef name);
    mret (match t with Some _ => true | None => false end)
  | t => mret (first_type_name t)
  end.

Definition sizeof_operand (def : option defref) (block : bref) : G (bref * ctype) :=
  open ← at_type OPEN_PAREN;
  typed ← (if open : bool then tok ← peekn 2; starts_type_name tok else mret false);
  if typed : bool then
    _ ← skip OPEN_PAREN;
    '(block, t) ← type_name def block;
    _ ← skip CLOSE_PAREN;
    mret (block, t)
  else t ← sizeof_expression def; mret (block, t).

(** An array without length that has elements gets its length. *)
Definition complete_array (t : ctype) : E unit :=
  c ← on_types (λ ts, is_complete ts t);
  if negb c && is_array t then
    n ← size_of_type depth t;
    if negb (n =? 0) then
      len ← on_types (λ ts, type_array_len ts t);
      change_types (λ ts, set_array_length ts t len)
    else mret tt
  else mret tt.

Definition size_expression (def : option defref) (block : bref) (t : ctype) : E expression :=
  _ ← complete_array t;
  c ← on_types (λ ts, is_complete ts t);
  if c : bool then
    vla ← vla_type depth t;
    if vla : bool then eval_vla_size depth knot_at def (Some block) t
    else n ← size_of_type depth t; v ← lift (imm_unsigned basic_type__unsigned_long n); mret (as_expr v)
  else fail "Cannot apply 'sizeof' to incomplete type.".

Definition sizeof_rule (def : option defref) (block : bref) : G bref :=
  _ ← skip SIZEOF;
  '(block, t) ← sizeof_operand def block;
  e ← ev (size_expression def block t);
  _ ← ev (put_expr block e);
  mret block.

Definition alignof_rule (def : option defref) (block : bref) : G bref :=
  _ ← next;
  _ ← skip OPEN_PAREN;
  '(block, t) ← type_name def block;
  _ ← (if is_function t then report_error else mret tt);
  n ← ev (size_of_type depth t);
  _ ← (if n =? 0 then report_error else mret tt);
  a ← ev (on_types (λ ts, type_alignment depth ts t));
  v ← ev (lift (imm_unsigned basic_type__unsigned_long a));
  _ ← ev (put_var block v);
  _ ← skip CLOSE_PAREN;
  mret block.

(** [!]: a comparison is turned round. *)
Definition logical_not (def : option defref) (block : bref) : E unit :=
  e ← block_expr block;
  match ex_op e with
  | IR_OP_EQ => put_expr block (Expression IR_OP_NE (ex_type e) (ex_l e) (ex_r e))
  | IR_OP_NE => put_expr block (Expression IR_OP_EQ (ex_type e) (ex_l e) (ex_r e))
  | IR_OP_GE => put_expr block (Expression IR_OP_GT (ex_type e) (ex_r e) (ex_l e))
  | IR_OP_GT => put_expr block (Expression IR_OP_GE (ex_type e) (ex_r e) (ex_l e))
  | _ =>
    value ← eval depth def (Some block) e;
    e ← apply_op def block IR_OP_EQ (var_int 0) (OperandVar value);
    put_expr block e
  end.

(** [++] and [--] in front of their operand. *)
Definition pre_step (def : option defref) (block : bref) (op : optype) : E unit :=
  value ← value_of def block;
  e ← apply_op def block op value (OperandVar (var_int 1));
  _ ← put_expr block e;
  v ← assign_to def block value e;
  put_var block v.

(** A unary operator, its operand a cast expression. *)
Definition unary (ty : token_type) (def : option defref) (block : bref) (op : bref → E unit) : G bref :=
  _ ← skip ty;
  block ← g_cast_expression g def block;
  _ ← ev (op block);
  mret block.

Definition unary_expression (def : option defref) (block : bref) : G bref :=
  t ← peek_type;
  match t with
  | AND => unary AND def block (λ b,
      value ← value_of def b; v ← eval_addr depth knot_at def (Some b) value; put_var b v)
  | STAR => unary STAR def block (λ b,
      value ← value_of def b; v ← eval_deref depth knot_at def (Some b) value; put_var b v)
  | NOT => unary NOT def block (logical_not def)
  | NEG => unary NEG def block (λ b,
      value ← value_of def b; e ← apply_op def b IR_OP_NOT value NoOperand; put_expr b e)
  | PLUS => unary PLUS def block (λ b, value ← value_of def b; e ← eval_unary_plus depth value; put_expr b e)
  | MINUS => unary MINUS def block (λ b,
      value ← value_of def b; e ← apply_op def b IR_OP_NEG value NoOperand; put_expr b e)
  | SIZEOF => sizeof_rule def block
  | ALIGNOF => alignof_rule def block
  | INCREMENT =>
    _ ← skip INCREMENT;
    block ← g_unary_expression g def block;
    _ ← ev (pre_step def block IR_OP_ADD);
    mret block
  | DECREMENT =>
    _ ← skip DECREMENT;
    block ← g_unary_expression g def block;
    _ ← ev (pre_step def block IR_OP_SUB);
    mret block
  | _ => postfix_expression def block
  end.

(** ** Casts and compound literals *)

Definition compound_literal (def : option defref) (block : bref) (t : ctype) : G bref :=
  sym ← ev (on_symbols (λ s, sym_create_unnamed s t));
  y ← ev (the_symbol (Some sym));
  block ← (if bool_decide (sym_linkage y = LINK_INTERN) then
             def ← ev cfg_init;
             d ← ev (the_def (Some def));
             body ← non_null (d_body d);
             _ ← g_initializer g (Some def) body sym;
             _ ← ev (cfg_define def sym);
             _ ← allocate_global depth sym;
             mret block
           else
             _ ← ev (change_def def (add_local sym));
             g_initializer g def block sym);
  v ← ev (var_direct (Some sym));
  _ ← ev (put_var block v);
  mret block.

Definition cast_expression (def : option defref) (block : bref) : G bref :=
  open ← at_type OPEN_PAREN;
  typed ← (if open : bool then tok ← peekn 2; starts_type_name tok else mret false);
  if typed : bool then
    _ ← next;
    '(block, t) ← type_name def block;
    _ ← skip CLOSE_PAREN;
    curly ← at_type OPEN_CURLY;
    if curly : bool then block ← compound_literal def block t; postfix def block
    else
      block ← g_cast_expression g def block;
      _ ← ev (convert_value def block t);
      mret block
  else unary_expression def block.

(** ** Binary operators *)

(** One operator: the value so far, then the operand that [rest] reads. *)
Definition binary_step (def : option defref) (block : bref) (swap : bool) (op : optype)
    (rest : bref → G bref) : G bref :=
  value ← ev (value_of def block);
  block ← rest block;
  w ← ev (value_of def block);
  e ← ev (apply_op def block op (if swap then w else value) (OperandVar (if swap then value else w)));
  _ ← ev (put_expr block e);
  mret block.

(** A level: operators of [ops] between operands of [rest], from left to
    right; an operator may take its operands in the opposite order. *)
Fixpoint level_loop (n : nat) (ops : token_type → option (bool * optype)) (rest : bref → G bref)
    (def : option defref) (block : bref) : G bref :=
  match n with
  | O => stuck
  | S n =>
    t ← peek_type;
    match ops t with
    | Some (swap, op) =>
      _ ← skip t;
      block ← binary_step def block swap op rest;
      level_loop n ops rest def block
    | None => mret block
    end
  end.
Definition level (ops : token_type → option (bool * optype)) (rest : option defref → bref → G bref)
    (def : option defref) (block : bref) : G bref :=
  block ← rest def block; level_loop fuel ops (rest def) def block.

Definition multiplicative_ops (t : token_type) : option (bool * optype) :=
  match t with STAR => Some (false, IR_OP_MUL) | SLASH => Some (false, IR_OP_DIV) | MODULO => Some (false, IR_OP_MOD) | _ => None end.
Definition additive_ops (t : token_type) : option (bool * optype) :=
  match t with PLUS => Some (false, IR_OP_ADD) | MINUS => Some (false, IR_OP_SUB) | _ => None end.
Definition shift_ops (t : token_type) : option (bool * optype) :=
  match t with LSHIFT => Some (false, IR_OP_SHL) | RSHIFT => Some (false, IR_OP_SHR) | _ => None end.
Definition relational_ops (t : token_type) : option (bool * optype) :=
  match t with
  | LT => Some (true, IR_OP_GT) | GT => Some (false, IR_OP_GT)
  | LEQ => Some (true, IR_OP_GE) | GEQ => Some (false, IR_OP_GE)
  | _ => None
  end.
Definition equality_ops (t : token_type) : option (bool * optype) :=
  match t with EQ => Some (false, IR_OP_EQ) | NEQ => Some (false, IR_OP_NE) | _ => None end.
Definition and_ops (t : token_type) : option (bool * optype) := match t with AND => Some (false, IR_OP_AND) | _ => None end.
Definition xor_ops (t : token_type) : option (bool * optype) := match t with XOR => Some (false, IR_OP_XOR) | _ => None end.
Definition or_ops (t : token_type) : option (bool * optype) := match t with OR => Some (false, IR_OP_OR) | _ => None end.

Definition multiplicative_expression := level multiplicative_ops cast_expression.
Definition additive_expression := level additive_ops multiplicative_expression.
Definition shift_expression := level shift_ops additive_expression.
Definition relational_expression := level relational_ops shift_expression.
Definition equality_expression := level equality_ops relational_expression.
Definition and_expression := level and_ops equality_expression.
Definition exclusive_or_expression := level xor_ops and_expression.
Definition inclusive_or_expression := level or_ops exclusive_or_expression.

(** ** Logical operators and the conditional *)

Definition logical_and_expression (def : option defref) (block : bref) : G bref :=
  block ← inclusive_or_expression def block;
  more ← at_type LOGICAL_AND;
  if more : bool then
    _ ← skip LOGICAL_AND;
    right ← ev (cfg_block_init def);
    bottom ← g_logical_and_expression g def right;
    ev (eval_logical_and depth knot_at def block right bottom)
  else mret block.

Definition logical_or_expression (def : option defref) (block : bref) : G bref :=
  block ← logical_and_expression def block;
  more ← at_type LOGICAL_OR;
  if more : bool then
    _ ← skip LOGICAL_OR;
    right ← ev (cfg_block_init def);
    bottom ← g_logical_or_expression g def right;
    ev (eval_logical_or depth knot_at def block right bottom)
  else mret block.

(** A conditional whose condition is constant: the arm that is taken is
    evaluated in the current block. *)
Definition constant_conditional (def : option defref) (block : bref) : G bref :=
  e ← ev (block_expr block);
  yes ← ev (is_immediate_true depth e);
  '(block, larm, rarm) ←
    (if yes : bool then
       block ← g_expression g def block;
       _ ← skip COLON;
       right ← ev (cfg_block_init def);
       right ← g_conditional_expression g def right;
       mret (block, block, right)
     else
       no ← ev (is_immediate_false depth e);
       _ ← ensure no;
       left ← ev (cfg_block_init def);
       left ← g_expression g def left;
       _ ← skip COLON;
       block ← g_conditional_expression g def block;
       mret (block, left, block));
  t ← ev (eval_conditional depth knot_at def larm rarm);
  if is_void t then _ ← ev (put_var block var_void); mret block
  else _ ← ev (convert_value def block t); mret block.

(** The value of an arm, stored where both leave it. *)
Definition assign_arm (def : option defref) (arm : bref) (temp : var) : E unit :=
  e ← block_expr arm; v ← assign_to def arm temp e; put_var arm v.

Definition branching_conditional (def : option defref) (block : bref) : G bref :=
  left ← ev (cfg_block_init def);
  right ← ev (cfg_block_init def);
  _ ← ev (put_jump block false right);
  _ ← ev (put_jump block true left);
  block ← ev (cfg_block_init def);
  left ← g_expression g def left;
  _ ← ev (put_jump left false block);
  _ ← skip COLON;
  right ← g_conditional_expression g def right;
  _ ← ev (put_jump right false block);
  t ← ev (eval_conditional depth knot_at def left right);
  if is_void t then _ ← ev (put_var block var_void); mret block
  else
    temp ← ev (create_var def t);
    _ ← ev (assign_arm def left temp);
    _ ← ev (assign_arm def right temp);
    _ ← ev (put_var block temp);
    mret block.

Definition conditional_expression (def : option defref) (block : bref) : G bref :=
  block ← logical_or_expression def block;
  q ← at_type QUESTION;
  if negb q then mret block
  else
    e ← ev (block_expr block);
    if negb (is_scalar (ex_type e)) then stop "Conditional must be of scalar type."
    else
      _ ← next;
      i ← ev (is_immediate depth e);
      if i : bool then constant_conditional def block else branching_conditional def block.

(** ** Assignments *)

Definition assignment_op (t : token_type) : option optype :=
  match t with
  | ASSIGN => Some IR_OP_CAST
  | MUL_ASSIGN => Some IR_OP_MUL
  | DIV_ASSIGN => Some IR_OP_DIV
  | MOD_ASSIGN => Some IR_OP_MOD
  | PLUS_ASSIGN => Some IR_OP_ADD
  | MINUS_ASSIGN => Some IR_OP_SUB
  | AND_ASSIGN => Some IR_OP_AND
  | OR_ASSIGN => Some IR_OP_OR
  | XOR_ASSIGN => Some IR_OP_XOR
  | RSHIFT_ASSIGN => Some IR_OP_SHR
  | LSHIFT_ASSIGN => Some IR_OP_SHL
  | _ => None
  end.

(** The assignment to [target] of what the block holds. *)
Definition assign_value (def : option defref) (block : bref) (op : optype) (target : var) : E unit :=
  _ ← (match op with
       | IR_OP_CAST => mret tt
       | _ =>
         value ← value_of def block;
         e ← apply_op def block op target (OperandVar value);
         put_expr block e
       end);
  e ← block_expr block;
  v ← assign_to def block target e;
  put_var block v.

Definition assignment_expression (def : option defref) (block : bref) : G bref :=
  block ← conditional_expression def block;
  t ← peek_type;
  match assignment_op t with
  | None => mret block
  | Some op =>
    _ ← skip t;
    target ← ev (value_of def block);
    block ← g_assignment_expression g def block;
    _ ← ev (assign_value def block op target);
    mret block
  end.

Definition constant_expression : G var :=
  head ← ev (cfg_block_init None);
  tail ← conditional_expression None head;
  e ← ev (block_expr tail);
  i ← ev (is_immediate depth e);
  if negb (bool_decide (tail = head)) || negb i then
    stop "Constant expression must be computable at compile time."
  else ev (eval depth None (Some tail) e).

Fixpoint comma_loop (n : nat) (def : option defref) (block : bref) : G bref :=
  match n with
  | O => stuck
  | S n =>
    more ← at_type COMMA;
    if more : bool then
      _ ← skip COMMA;
      e ← ev (block_expr block);
      _ ← (if has_side_effects e then _ ← ev (eval depth def (Some block) e); mret tt else mret tt);
      block ← assignment_expression def block;
      comma_loop n def block
    else mret block
  end.
Definition expression_rule (def : option defref) (block : bref) : G bref :=
  block ← assignment_expression def block; comma_loop fuel def block.

End expression.
