(* ===== verification/Initializer.v ===== *)
(** * Initializers (src/parser/initializer.c)

    The elements of an initializer become assignments in a block of their own,
    which are then put in the order of their offsets, with zeros for what was
    left out, and appended to the current block. *)

From stdpp Require Import base list gmap numbers strings.
From Stdlib Require Import ZArith Lia.
From S2P Require Import Prelude VmInstr Token Macro CType CArith Floats Strings Symbol Typetree Symtab Immediate Ir Cfg Eval Assign Parser Expression.

Local Open Scope Z_scope.

(** ** Assignments to members *)

Definition v_set_field (offset field_offset field_width : Z) (v : var) : var :=
  Var (v_kind v) (v_type v) (v_symbol v) offset field_width field_offset (v_lvalue v) (v_imm v).
Definition set_init_value (i : bool) (b : block) : block :=
  Block (b_label b) (b_code b) (b_expr b) (b_jump0 b) (b_jump1 b) (b_has_jump_table b) (b_table_offset b)
    (b_jump_table b) (b_body b) (b_has_return_value b) i (b_color b) (b_in b) (b_out b).

(** ** The order of assignments

    These functions only rearrange the statements of one block. *)

Definition st_offset (s : statement) : Z := v_offset (st_t s).
Definition st_field_offset (s : statement) : Z := v_field_offset (st_t s).

Definition code_at (l : list statement) (i : nat) : outcome statement := defined "outside of the array" (l !! i).

(** The inner loop of [sort_and_trim]: statement [j + 1] moves towards the
    front; the result is the [j] it ends with. *)
Fixpoint sink (j : nat) (code : list statement) : outcome (nat * list statement) :=
  a ← code_at code j;
  b ← code_at code (S j);
  if st_offset b <? st_offset a then
    let code := <[S j := a]> (<[j := b]> code) in
    match j with O => Ok (O, code) | S j => sink j code end
  else Ok (j, code).

(** The statement moved, and the one before it dropped when it assigns the
    same element. *)
Definition insert_step (i : nat) (code : list statement) : outcome (list statement * bool) :=
  '(j, code) ← sink (i - 1) code;
  a ← code_at code j;
  b ← code_at code (S j);
  if (st_offset a =? st_offset b) && (st_field_offset a =? st_field_offset b) then
    _ ← c_assert (v_field_width (st_t a) =? v_field_width (st_t b));
    Ok (take j code ++ drop (S j) code, true)
  else Ok (code, false).

(** [sort_and_trim] from statement [i] on; [n] is fuel. *)
Fixpoint sort_loop (n i : nat) (code : list statement) : outcome (list statement) :=
  match n with
  | O => Undef "not enough fuel"
  | S n =>
    if (i <? length code)%nat then
      '(code, dropped) ← insert_step i code;
      sort_loop n (if dropped : bool then i else S i) code
    else Ok code
  end.
Definition sort_and_trim (code : list statement) : outcome (list statement) :=
  sort_loop (S (length code)) 1 code.

Section initializer.
Context `{FA : FloatArith} {T : Type} `{TS : TokenSource T} (depth fuel : nat) (standard : cstd) (g : grammar T).
Abbreviation G := (P T).
Abbreviation knot_at := (evaluator depth fuel).

(** ** Blocks for initializers *)

Definition get_initializer_block : G bref :=
  s ← get_statics;
  match last (initializer_blocks s) with
  | Some b => _ ← change_statics (st_set_initializers (removelast (initializer_blocks s))); mret b
  | None => ev (cfg_block_init None)
  end.
Definition release_initializer_block (b : bref) : G unit :=
  x ← ev (the_block (Some b));
  _ ← ensure (bool_decide (b_label x = None));
  _ ← ensure (negb (b_has_init_value x));
  _ ← ev (change_block (Some b) (λ x, set_code x []));
  change_statics (λ s, st_set_initializers (initializer_blocks s ++ [b]) s).
Definition initializer_finalize : G unit := change_statics (st_set_initializers []).

Definition code_of (b : bref) : E (list statement) := x ← the_block (Some b); mret (b_code x).
Definition put_code (b : bref) (l : list statement) : E unit := change_block (Some b) (λ x, set_code x l).
Definition array_concat (a b : bref) : E unit :=
  l ← code_of b; change_block (Some a) (λ x, set_code x (b_code x ++ l)).
Definition has_init_value (b : bref) : E bool := x ← the_block (Some b); mret (b_has_init_value x).
Definition clear_init_value (b : bref) : E unit := change_block (Some b) (set_init_value false).

(** ** Elements *)

Definition is_loadtime_constant (e : expression) : E bool :=
  i ← identity depth e;
  if negb i then mret false
  else
    let linked := y ← the_symbol (v_symbol (ex_l e)); mret (negb (bool_decide (sym_linkage y = LINK_NONE))) in
    match v_kind (ex_l e) with
    | IMMEDIATE => mret true
    | DIRECT => if negb (is_array (ex_type e)) && negb (is_function (ex_type e)) then mret false else linked
    | ADDRESS => linked
    | DEREF => mret false
    end.

(** Nothing was evaluated to read [e] but a constant. *)
Definition check_loadtime (top block : bref) (ops : nat) : E unit :=
  x ← the_block (Some block);
  if negb (bool_decide (block = top)) || negb (length (b_code x) =? ops)%nat then
    fail "Initializer must be computable at load time."
  else
    i ← identity depth (b_expr x);
    c ← is_loadtime_constant (b_expr x);
    if negb i || negb c then fail "Initializer must be computable at load time." else mret tt.

Definition read_initializer_element (def : option defref) (block : bref) (sym : option symref) : G bref :=
  h ← ev (has_init_value block);
  _ ← ensure (negb h);
  code ← ev (code_of block);
  let top := block in
  block ← assignment_expression depth fuel standard g def block;
  e ← ev (block_expr block);
  if is_void (ex_type e) then stop "Cannot initialize with void value."
  else
    y ← ev (the_symbol sym);
    _ ← (if negb (bool_decide (sym_linkage y = LINK_NONE)) then ev (check_loadtime top block (length code))
         else
           match ex_op e with
           | IR_OP_CALL => ev (
               tmp ← create_var def (ex_type e);
               _ ← assign_to depth fuel def block tmp e;
               put_var block tmp)
           | _ => mret tt
           end);
    _ ← ev (change_block (Some block) (set_init_value true));
    mret block.

Inductive current_object_state : Set := CURRENT | DESIGNATOR | MEMBER.
Definition is_current (s : current_object_state) : bool := match s with CURRENT => true | _ => false end.

(** Whether another element follows; its comma is consumed. *)
Definition next_element (state : current_object_state) : G bool :=
  comma ← at_type COMMA;
  if negb comma then mret false
  else
    t ← peek2_type;
    match t with
    | CLOSE_CURLY => mret false
    | DOT => if is_current state then _ ← next; mret true else mret false
    | _ => _ ← next; mret true
    end.

Definition access_member (target : var) (m : member) (offset : Z) : var :=
  v_set_field (addz offset (m_offset m)) (m_field_offset m) (m_field_width m) (v_set_type (m_type m) target).

(** The member of a name, with its index. *)
Definition get_named_member (t : ctype) (name : kstring) : E (Z * member) :=
  m ← on_types (λ ts, find_type_member ts t name);
  match m with Some m => mret m | None => fail "No such member." end.

(** [. name] and [=], if it is there. *)
Definition designator (t : ctype) : G (Z * member) :=
  _ ← next;
  tok ← consume IDENTIFIER;
  name ← name_of tok;
  m ← ev (get_named_member t name);
  eq ← at_type ASSIGN;
  _ ← (if eq : bool then _ ← next; mret tt else mret tt);
  mret m.

(** ** Unions *)

Fixpoint union_loop (n : nat) (def : option defref) (block init : bref) (target : var) (t : ctype) (filled : Z)
    (state : current_object_state) (done : bool) : G bref :=
  match n with
  | O => stuck
  | S n =>
    dot ← at_type DOT;
    chosen ← (if dot : bool then '(_, m) ← designator t; mret (Some m)
              else if negb done then m ← ev (on_types (λ ts, get_member ts t 0)); mret (Some m)
              else mret None);
    match chosen with
    | None => mret block
    | Some m =>
      let target := access_member target m filled in
      _ ← ev (put_code init []);
      block ← g_initialize_member g def block init target;
      more ← next_element state;
      if more : bool then union_loop n def block init target t filled state true else mret block
    end
  end.

Definition initialize_union (def : option defref) (block values : bref) (target : var)
    (state : current_object_state) : G bref :=
  init ← get_initializer_block;
  _ ← ensure (is_union (v_type target));
  m ← ev (on_types (λ ts, nmembers ts (v_type target)));
  _ ← ensure (0 <? m);
  block ← union_loop fuel def block init target (v_type target) (v_offset target) state false;
  _ ← ev (array_concat values init);
  _ ← release_initializer_block init;
  mret block.

(** ** Structs *)

Definition same_place (a b : member) : bool :=
  (m_offset a =? m_offset b) && (m_field_offset a =? m_field_offset b).

(** The first member from [i] on that is not at the place of [prev], and the
    index behind it. *)
Fixpoint next_member (n : nat) (t : ctype) (prev : option member) (i : Z) : E (member * Z) :=
  match n with
  | O => lift (Undef "not enough fuel")
  | S n =>
    m ← on_types (λ ts, get_member ts t i);
    if match prev with Some p => same_place p m | None => false end then next_member n t prev (i + 1)
    else mret (m, i + 1)
  end.

(** Whether a designator follows behind a comma. *)
Definition designator_follows : G bool :=
  comma ← at_type COMMA;
  if comma : bool then t ← peek2_type; mret (bool_decide (t = DOT)) else mret false.

Fixpoint struct_loop (n : nat) (def : option defref) (block values : bref) (target : var) (t : ctype) (filled : Z)
    (state : current_object_state) (prev : option member) (i m : Z) : G bref :=
  match n with
  | O => stuck
  | S n =>
    h ← ev (has_init_value block);
    dot ← (if h : bool then mret false else at_type DOT);
    '(mem, i) ← (if dot : bool then '(i, mem) ← designator t; mret (mem, i + 1)
                 else ev (next_member fuel t prev i));
    let target := access_member target mem filled in
    block ← g_initialize_member g def block values target;
    d ← designator_follows;
    if negb d && (m <=? i) then mret block
    else
      more ← next_element state;
      if more : bool then struct_loop n def block values target t filled state (Some mem) i m else mret block
  end.

Definition initialize_struct (def : option defref) (block values : bref) (target : var)
    (state : current_object_state) : G bref :=
  let target := v_set_lvalue true target in
  _ ← ensure (is_struct (v_type target));
  m ← ev (on_types (λ ts, nmembers ts (v_type target)));
  _ ← ensure (0 <? m);
  struct_loop fuel def block values target (v_type target) (v_offset target) state None 0 m.

(** The first element, read unless a brace or designator follows. *)
Definition read_first (def : option defref) (block : bref) (sym : option symref) : G bref :=
  h ← ev (has_init_value block);
  if h : bool then mret block
  else
    t ← peek_type;
    match t with
    | DOT | OPEN_CURLY | OPEN_BRACKET => mret block
    | _ => read_initializer_element def block sym
    end.

Definition initialize_struct_or_union (def : option defref) (block values : bref) (target : var)
    (state : current_object_state) : G bref :=
  _ ← ensure (is_struct_or_union (v_type target));
  m ← ev (on_types (λ ts, nmembers ts (v_type target)));
  _ ← ensure (0 <? m);
  block ← read_first def block (v_symbol target);
  h ← ev (has_init_value block);
  e ← ev (block_expr block);
  whole ← (if h : bool then ev (compatible depth (v_type target) (ex_type e)) else mret false);
  if whole : bool then
    _ ← ev (assign_to depth fuel def values target e);
    _ ← ev (clear_init_value block);
    mret block
  else if is_union (v_type target) then initialize_union def block values target state
  else initialize_struct def block values target state.

(** ** Arrays *)

(** Whether another element follows, and whether it is an index. *)
Definition has_next_array_element (state : current_object_state) : G (bool * bool) :=
  comma ← at_type COMMA;
  if negb comma then mret (false, false)
  else
    t ← peek2_type;
    match t with
    | CLOSE_CURLY | DOT => mret (false, false)
    | OPEN_BRACKET => if is_current state then mret (true, true) else mret (false, false)
    | _ => mret (true, false)
    end.

Definition try_parse_index (index : Z) : G (bool * Z) :=
  open ← at_type OPEN_BRACKET;
  if open : bool then
    _ ← next;
    num ← constant_expression depth fuel standard g;
    if negb (is_integer (v_type num)) then stop "Array designator must have integer value."
    else _ ← skip CLOSE_BRACKET; mret (true, wrap_u 64 (v_imm num))
  else mret (false, index).

(** The elements from index [i] on; [c] is the largest length so far. *)
Fixpoint array_loop (n : nat) (def : option defref) (block values : bref) (target : var) (initial width count : Z)
    (state : current_object_state) (i c : Z) : G (bref * Z) :=
  match n with
  | O => stuck
  | S n =>
    '(index, i) ← try_parse_index i;
    eq ← (if index : bool then at_type ASSIGN else mret false);
    _ ← (if eq : bool then _ ← next; mret tt else mret tt);
    let target := v_set_offset (addz initial (mulz i width)) target in
    block ← g_initialize_member g def block values target;
    let i := addz i 1 in
    let c := if c <? i then i else c in
    '(more, index) ← has_next_array_element state;
    if more : bool then
      if negb index && negb (count =? 0) && (count <=? c) then mret (block, c)
      else _ ← skip COMMA; array_loop n def block values target initial width count state i c
    else mret (block, c)
  end.

(** Elements that are too many are skipped. *)
Fixpoint skip_excess (n : nat) : G unit :=
  match n with
  | O => stuck
  | S n =>
    t ← peek_type;
    match t with CLOSE_CURLY | END => mret tt | _ => _ ← next; skip_excess n end
  end.

Definition is_string_element (elem : ctype) (block : bref) : E bool :=
  h ← has_init_value block;
  if negb h || negb (is_char elem) then mret false
  else
    e ← block_expr block;
    i ← identity depth e;
    if negb i || negb (is_array (ex_type e)) then mret false else is_string (ex_l e).

Definition initialize_array (def : option defref) (block values : bref) (target : var)
    (state : current_object_state) : G bref :=
  _ ← ensure (is_array (v_type target));
  _ ← ensure (bool_decide (v_kind target = DIRECT));
  let t := v_type target in
  c ← ev (on_types (λ ts, is_complete ts t));
  count ← (if c : bool then ev (on_types (λ ts, type_array_len ts t)) else mret 0);
  elem ← ev (next_type t);
  width ← ev (size_of_type depth elem);
  block ← read_first def block (v_symbol target);
  str ← ev (is_string_element elem block);
  '(block, target, c) ←
    (if str : bool then
       e ← ev (block_expr block);
       target ← ev (assign_to depth fuel def values target e);
       _ ← ev (clear_init_value block);
       mret (block, target, 0)
     else
       '(block, c) ← array_loop fuel def block values (v_set_type elem target) (v_offset target) width count state 0 0;
       mret (block, target, c));
  _ ← (if is_current state then
         comma ← at_type COMMA;
         _ ← (if comma : bool then _ ← next; _ ← peek; mret tt else mret tt);
         skip_excess fuel
       else mret tt);
  complete ← ev (on_types (λ ts, is_complete ts t));
  size ← ev (if complete : bool then size_of_type depth t else mret 0);
  _ ← (if size =? 0 then ev (
         y ← the_symbol (v_symbol target);
         _ ← assert (is_array (sym_type y));
         change_types (λ ts, set_array_length ts (sym_type y) c))
       else mret tt);
  mret block.

(** ** Objects *)

(** The assignment that [eval_assign] emits is moved to the block of values. *)
Definition assign_initializer_element (def : option defref) (block values : bref) (target : var) : E unit :=
  _ ← assert (bool_decide (v_kind target = DIRECT));
  h ← has_init_value block;
  _ ← assert h;
  e ← block_expr block;
  _ ← assign_to depth fuel def block target e;
  code ← code_of block;
  st ← lift (defined "last of an empty array" (last code));
  _ ← put_code block (removelast code);
  _ ← assert (bool_decide (st_st st = IR_ASSIGN));
  _ ← change_block (Some values) (λ x, set_code x (b_code x ++ [st]));
  clear_init_value block.

(** A brace that is opened here, unless an element was read already. *)
Definition open_brace (block : bref) : G bool :=
  h ← ev (has_init_value block);
  curly ← (if h : bool then mret false else at_type OPEN_CURLY);
  if curly : bool then _ ← next; mret true else mret false.
(** The end of a list in braces. *)
Definition close_brace : G unit :=
  comma ← at_type COMMA;
  _ ← (if comma : bool then _ ← next; mret tt else mret tt);
  skip CLOSE_CURLY.

Definition initialize_member (def : option defref) (block values : bref) (target : var) : G bref :=
  _ ← ensure (bool_decide (v_kind target = DIRECT));
  if is_struct_or_union (v_type target) then
    open ← open_brace block;
    if open : bool then
      block ← initialize_struct_or_union def block values target CURRENT; _ ← close_brace; mret block
    else initialize_struct_or_union def block values target DESIGNATOR
  else if is_array (v_type target) then
    n ← ev (size_of_type depth (v_type target));
    if n =? 0 then stop "Invalid initialization of flexible array member."
    else
      open ← open_brace block;
      if open : bool then
        block ← initialize_array def block values target CURRENT; _ ← close_brace; mret block
      else initialize_array def block values target DESIGNATOR
  else
    h ← ev (has_init_value block);
    block ← (if h : bool then mret block
             else
               open ← open_brace block;
               block ← read_initializer_element def block (v_symbol target);
               _ ← (if open : bool then skip CLOSE_CURLY else mret tt);
               mret block);
    _ ← ev (assign_initializer_element def block values target);
    mret block.

Definition initialize_object (def : option defref) (block values : bref) (target : var) : G bref :=
  _ ← ensure (bool_decide (v_kind target = DIRECT));
  h ← ev (has_init_value block);
  _ ← ensure (negb h);
  open ← at_type OPEN_CURLY;
  if open : bool then
    _ ← next;
    block ← (if is_struct_or_union (v_type target) then initialize_struct_or_union def block values target CURRENT
             else if is_array (v_type target) then initialize_array def block values target CURRENT
             else g_initialize_object g def block values target);
    _ ← close_brace;
    mret block
  else if is_array (v_type target) then initialize_array def block values target MEMBER
  else
    block ← read_initializer_element def block (v_symbol target);
    _ ← ev (assign_initializer_element def block values target);
    mret block.

(** ** Padding *)

(** [var__immediate_zero] with a type. *)
Definition immediate_zero (t : ctype) : var := Var IMMEDIATE t None 0 0 0 false 0.

(** The [n] elements of [target], from the one at [offset] on. *)
Fixpoint zero_elements (zero : var → E unit) (n : nat) (target : var) (offset size : Z) : E unit :=
  match n with
  | O => mret tt
  | S n =>
    _ ← zero (v_set_offset offset target);
    zero_elements zero n target (addz offset size) size
  end.

(** [zero_initialize]; [n] is the depth of arrays inside each other. *)
Fixpoint zero_initialize (n : nat) (def : option defref) (values : bref) (target : var) : E unit :=
  match n with
  | O => lift (Undef "not enough fuel")
  | S n =>
    _ ← assert (bool_decide (v_kind target = DIRECT));
    h ← has_init_value values;
    _ ← assert (negb h);
    size ← size_of_type depth (v_type target);
    let elements (t : ctype) : E unit :=
      elem ← next_type t;
      w ← size_of_type depth elem;
      if w =? 0 then lift (Undef "division by zero")
      else zero_elements (zero_initialize n def values) (Z.to_nat (size / w)) (v_set_type elem target) (v_offset target) w in
    match type_of (v_type target) with
    | T_STRUCT | T_UNION =>
      _ ← assert (negb (size =? 0));
      t ← new_type (λ ts, if negb (size mod 8 =? 0) then type_create_array depth ts basic_type__char size
                          else type_create_array depth ts basic_type__long (size / 8));
      elements t
    | T_ARRAY => elements (v_type target)
    | T_BOOL | T_CHAR | T_SHORT | T_INT | T_LONG | T_FLOAT | T_DOUBLE | T_LDOUBLE | T_POINTER =>
      _ ← assign_to depth fuel def values target (as_expr (immediate_zero (v_type target)));
      mret tt
    | _ => fail "Cannot zero-initialize object."
    end
  end.

(** The widest integer that the next zeros are written with. *)
Definition zero_chunk (bytes : Z) : Z * ctype :=
  let size := if bytes mod 8 =? 0 then 8 else bytes mod 8 in
  if size =? 8 then (8, basic_type__long)
  else if size =? 4 then (4, basic_type__int)
  else if size =? 2 then (2, basic_type__short)
  else (1, basic_type__char).

Fixpoint zero_bytes_loop (n : nat) (def : option defref) (values : bref) (target : var) (bytes : Z) : E unit :=
  if bytes =? 0 then mret tt
  else
    match n with
    | O => lift (Undef "not enough fuel")
    | S n =>
      let '(size, t) := zero_chunk bytes in
      let target := v_set_type t target in
      _ ← zero_initialize fuel def values target;
      w ← size_of_type depth t;
      zero_bytes_loop n def values (v_set_offset (addz (v_offset target) w) target) (subz bytes size)
    end.
Definition zero_initialize_bytes (def : option defref) (values : bref) (target : var) (bytes : Z) : E unit :=
  zero_bytes_loop (Z.to_nat bytes) def values (v_set_field (v_offset target) 0 0 target) bytes.

Definition initialize_padding (def : option defref) (block : bref) (target field : var) : E unit :=
  if v_offset target <? v_offset field then
    target ← (if negb (v_field_offset target =? 0) then
                n ← size_of_type depth (v_type target);
                let target := v_set_field (v_offset target) (v_field_offset target)
                                (wrap_s 16 (n * 8 - v_field_offset target)) target in
                _ ← zero_initialize fuel def block target;
                n ← size_of_type depth (v_type target);
                mret (v_set_field (Z.min (addz (v_offset target) n) (v_offset field)) 0 0 target)
              else mret target);
    _ ← assert (v_offset target <=? v_offset field);
    zero_initialize_bytes def block target (subz (v_offset field) (v_offset target))
  else if v_field_offset target <? v_field_offset field then
    zero_initialize fuel def block
      (v_set_field (v_offset target) (v_field_offset target) (v_field_offset field - v_field_offset target) target)
  else mret tt.

(** The rest of the unit of a bit-field. *)
Definition trailing_field (target : var) (bitfield_size : Z) : outcome var :=
  t ← (if bitfield_size =? 1 then Ok basic_type__char
       else if bitfield_size =? 2 then Ok basic_type__short
       else if bitfield_size =? 4 then Ok basic_type__int
       else _ ← c_assert (bitfield_size =? 8); Ok basic_type__long);
  let width := bitfield_size * 8 - v_field_offset target in
  _ ← c_assert (0 <? width);
  Ok (v_set_field (v_offset target) (v_field_offset target) width (v_set_type t target)).

Definition initialize_trailing_padding (def : option defref) (block : bref) (target : var)
    (size bitfield_size : Z) : E unit :=
  if size <=? v_offset target then mret tt
  else
    target ← (if negb (v_field_offset target =? 0) then
                target ← lift (trailing_field target bitfield_size);
                _ ← zero_initialize fuel def block target;
                n ← size_of_type depth (v_type target);
                mret (v_set_offset (addz (v_offset target) n) target)
              else mret target);
    _ ← assert (v_offset target <=? size);
    if v_offset target <? size then zero_initialize_bytes def block target (subz size (v_offset target))
    else mret tt.

(** [validate_initializer_block] behind the assignment to [target]. *)
Fixpoint validate_initializer (target : var) (code : list statement) : E unit :=
  match code with
  | [] => mret tt
  | st :: code =>
    let field := st_t st in
    _ ← assert (bool_decide (st_st st = IR_ASSIGN));
    _ ← assert (v_offset target <=? v_offset field);
    _ ← (if v_offset target <? v_offset field then
           n ← size_of_type depth (v_type target);
           assert (subz (v_offset field) (v_offset target) <=? n)
         else
           _ ← assert (v_offset target =? v_offset field);
           assert (v_field_offset target + v_field_width target =? v_field_offset field));
    validate_initializer field code
  end.

(** Where the next element may begin, behind the assignment to [field]. *)
Definition behind (field : var) (target : var) (bitfield_size : Z) : E (var * Z) :=
  let target := v_set_type (v_type field) target in
  n ← size_of_type depth (v_type field);
  if negb (v_field_width field =? 0) then
    let bitfield_size := if bitfield_size <? n then wrap_s 32 n else bitfield_size in
    let o := wrap_s 16 (v_field_offset field + v_field_width field) in
    if o =? bitfield_size * 8 then
      mret (v_set_field (addz (v_offset field) bitfield_size) 0 0 target, bitfield_size)
    else mret (v_set_field (v_offset field) o 0 target, bitfield_size)
  else mret (v_set_field (addz (v_offset field) n) 0 0 target, 0).

(** The loop of [postprocess_object_initialization] behind the first [i]
    statements. *)
Fixpoint postprocess_loop (def : option defref) (block : bref) (first : bool) (target : var) (bitfield_size : Z)
    (code : list statement) : E (var * Z) :=
  match code with
  | [] => mret (target, bitfield_size)
  | st :: code =>
    let field := st_t st in
    let target := if first then v_set_type (v_type field) target else target in
    _ ← assert (bool_decide (st_st st = IR_ASSIGN));
    _ ← assert (negb (bool_decide (ex_op (st_expr st) = IR_OP_CALL)));
    _ ← assert (v_offset target <=? v_offset field);
    _ ← initialize_padding def block target field;
    _ ← change_block (Some block) (λ x, set_code x (b_code x ++ [st]));
    '(target, bitfield_size) ← behind field target bitfield_size;
    postprocess_loop def block false target bitfield_size code
  end.

Definition postprocess_object_initialization (def : option defref) (values : bref) (target : var) : G bref :=
  _ ← ensure (v_offset target =? 0);
  code ← ev (code_of values);
  code ← ev (lift (sort_and_trim code));
  _ ← ev (put_code values code);
  block ← get_initializer_block;
  total_size ← ev (size_of_type depth (v_type target));
  '(target, bitfield_size) ← ev (postprocess_loop def block true target 0 code);
  _ ← ev (initialize_trailing_padding def block target total_size bitfield_size);
  _ ← release_initializer_block values;
  code ← ev (code_of block);
  _ ← ev (validate_initializer var_zero code);
  mret block.

Definition initializer (def : option defref) (block : bref) (sym : symref) : G bref :=
  target ← ev (var_direct (Some sym));
  curly ← at_type OPEN_CURLY;
  y ← ev (the_symbol (Some sym));
  block ←
    (if curly || is_array (sym_type y) then
       values ← get_initializer_block;
       block ← initialize_object def block values target;
       values ← postprocess_object_initialization def values target;
       _ ← ev (array_concat block values);
       _ ← release_initializer_block values;
       mret block
     else
       block ← read_initializer_element def block (v_symbol target);
       e ← ev (block_expr block);
       _ ← ev (assign_to depth fuel def block target e);
       _ ← ev (clear_init_value block);
       mret block);
  h ← ev (has_init_value block);
  _ ← ensure (negb h);
  mret block.

End initializer.
