(* ===== verification/Declaration.v ===== *)
(** * Declarations (src/parser/declaration.c)

    Specifiers, declarators and the declarations made of them: they build types
    in the table, add symbols to the scopes, and hand function bodies and
    initializers to their rules. *)

From stdpp Require Import base list gmap numbers strings.
From Stdlib Require Import ZArith Lia.
From S2P Require Import Prelude VmInstr Token Macro CType CArith Floats Strings Symbol Typetree Symtab Immediate Ir Cfg Eval Assign Parser Expression Initializer.

Local Open Scope Z_scope.

(** Assignment to a member of a function type. *)
Definition set_member (ts : typetab) (t : ctype) (i : nat) (f : member → member) : outcome typetab :=
  h ← get_typetree_handle ts (t_ref t);
  m ← defined "no member" (tt_members h !! i);
  Ok (put ts (t_ref t) (tt_set_members h (<[i := f m]> (tt_members h)))).
Definition m_set_type (t : ctype) (m : member) : member :=
  Member (m_name m) t (m_offset m) (m_field_width m) (m_field_offset m) (m_field_backing m) (m_sym m).
Definition m_set_offset (o : Z) (m : member) : member :=
  Member (m_name m) (m_type m) o (m_field_width m) (m_field_offset m) (m_field_backing m) (m_sym m).
Definition m_set_sym (s : option symref) (m : member) : member :=
  Member (m_name m) (m_type m) (m_offset m) (m_field_width m) (m_field_offset m) (m_field_backing m) s.

Definition add_param (r : symref) (x : definition) : definition :=
  Define (d_symbol x) (d_body x) (d_params x ++ [r]) (d_locals x) (d_labels x) (d_nodes x).

(** ** Specifiers *)

Inductive base_spec : Set := B_NONE | B_VOID | B_BOOL | B_CHAR | B_INT | B_FLOAT | B_DOUBLE | B_ENUM | B_AGGREGATE.
Inductive modifier : Set := M_NONE | M_SHORT | M_LONG | M_LONG_LONG.
Inductive sign : Set := S_NONE | S_SIGNED | S_UNSIGNED.
#[export] Instance base_spec_eq_dec : EqDecision base_spec.
Proof. solve_decision. Defined.
#[export] Instance modifier_eq_dec : EqDecision modifier.
Proof. solve_decision. Defined.
#[export] Instance sign_eq_dec : EqDecision sign.
Proof. solve_decision. Defined.

(** The variables of [declaration_specifiers]. *)
Record spec_state : Set := SpecState {
  ss_type : ctype;
  ss_base : base_spec;
  ss_modifier : modifier;
  ss_sign : sign;
  ss_const : bool;
  ss_volatile : bool;
  ss_storage : option token_type;
  ss_inline : bool;
  ss_register : bool
}.
Definition spec_start : spec_state := SpecState type_zero B_NONE M_NONE S_NONE false false None false false.
Definition ss_set_base (t : ctype) (b : base_spec) (s : spec_state) : spec_state :=
  SpecState t b (ss_modifier s) (ss_sign s) (ss_const s) (ss_volatile s) (ss_storage s) (ss_inline s) (ss_register s).
Definition ss_set_modifier (m : modifier) (s : spec_state) : spec_state :=
  SpecState (ss_type s) (ss_base s) m (ss_sign s) (ss_const s) (ss_volatile s) (ss_storage s) (ss_inline s) (ss_register s).
Definition ss_set_sign (x : sign) (s : spec_state) : spec_state :=
  SpecState (ss_type s) (ss_base s) (ss_modifier s) x (ss_const s) (ss_volatile s) (ss_storage s) (ss_inline s) (ss_register s).
Definition ss_set_quals (c v : bool) (s : spec_state) : spec_state :=
  SpecState (ss_type s) (ss_base s) (ss_modifier s) (ss_sign s) c v (ss_storage s) (ss_inline s) (ss_register s).
Definition ss_set_flags (o : option token_type) (i r : bool) (s : spec_state) : spec_state :=
  SpecState (ss_type s) (ss_base s) (ss_modifier s) (ss_sign s) (ss_const s) (ss_volatile s) o i r.

Definition has_base (s : spec_state) : bool := negb (bool_decide (ss_base s = B_NONE)).
Definition has_modifier (s : spec_state) : bool := negb (bool_decide (ss_modifier s = M_NONE)).
Definition has_sign (s : spec_state) : bool := negb (bool_decide (ss_sign s = S_NONE)).

(** The conditions under which a specifier is taken. *)
Definition takes_short (s : spec_state) : bool :=
  negb (has_modifier s || (has_base s && negb (bool_decide (ss_base s = B_INT)))).
(** [base != B_INT || base != B_DOUBLE] is true of every base. *)
Definition takes_long (s : spec_state) : bool :=
  negb ((has_base s && (negb (bool_decide (ss_base s = B_INT)) || negb (bool_decide (ss_base s = B_DOUBLE))))
        || (has_modifier s && negb (bool_decide (ss_modifier s = M_LONG)))).
Definition takes_double (s : spec_state) : bool :=
  negb (has_base s || (has_modifier s && negb (bool_decide (ss_modifier s = M_LONG))) || has_sign s).

(** The type behind the last specifier. *)
Definition basic_spec (s : spec_state) : ctype :=
  let unsigned := bool_decide (ss_sign s = S_UNSIGNED) in
  match ss_base s with
  | B_AGGREGATE => ss_type s
  | B_VOID => basic_type T_VOID false
  | B_BOOL => basic_type T_BOOL false
  | B_CHAR => basic_type T_CHAR unsigned
  | B_ENUM | B_NONE | B_INT =>
    basic_type (match ss_modifier s with M_SHORT => T_SHORT | M_LONG | M_LONG_LONG => T_LONG | M_NONE => T_INT end) unsigned
  | B_FLOAT => basic_type T_FLOAT false
  | B_DOUBLE => basic_type T_DOUBLE false
  end.
Definition finish_specifiers (s : spec_state) : specifiers :=
  let t := basic_spec s in
  let t := if ss_const s then type_set_const t else t in
  let t := if ss_volatile s then type_set_volatile t else t in
  Specifiers t (ss_storage s) (ss_inline s) (ss_register s).

Section declaration.
Context `{FA : FloatArith} {T : Type} `{TS : TokenSource T} (depth fuel : nat) (standard : cstd) (g : grammar T).
Abbreviation G := (P T).
Abbreviation knot_at := (evaluator depth fuel).

(** ** Arrays *)

(** [cvrs]: the qualifiers, and [static]. *)
Record array_param : Set := ArrayParam { ap_const : bool; ap_volatile : bool; ap_restrict : bool; ap_static : bool }.

Fixpoint array_quals (n : nat) (a : array_param) : G array_param :=
  match n with
  | O => stuck
  | S n =>
    t ← peek_type;
    match t with
    | CONST => _ ← next; array_quals n (ArrayParam true (ap_volatile a) (ap_restrict a) (ap_static a))
    | VOLATILE => _ ← next; array_quals n (ArrayParam (ap_const a) true (ap_restrict a) (ap_static a))
    | RESTRICT => _ ← next; array_quals n (ArrayParam (ap_const a) (ap_volatile a) true (ap_static a))
    | _ => mret a
    end
  end.
Definition array_param_qualifiers : G array_param :=
  let read_static a :=
    s ← at_type STATIC;
    if s && negb (ap_static a) then _ ← next; mret (ArrayParam (ap_const a) (ap_volatile a) (ap_restrict a) true)
    else mret a in
  a ← read_static (ArrayParam false false false false);
  a ← array_quals fuel a;
  read_static a.

(** What stands between the brackets: the block, the length if there is one,
    and the qualifiers of a parameter. *)
Definition array_length (def : option defref) (block : option bref) (is_param : bool) :
    G (option bref * option var * array_param) :=
  let none := ArrayParam false false false false in
  close ← at_type CLOSE_BRACKET;
  if close : bool then mret (block, None, none)
  else
    match def with
    | None =>
      val ← constant_expression depth fuel standard g;
      b ← ev (cfg_block_init None);
      mret (Some b, Some val, none)
    | Some _ =>
      _ ← ensure (bool_decide (block ≠ None));
      cvrs ← (if is_param then
                a ← array_param_qualifiers;
                close ← at_type CLOSE_BRACKET;
                if ap_static a && close then stop "Missing array length." else mret a
              else mret none);
      close ← at_type CLOSE_BRACKET;
      if close : bool then mret (block, None, cvrs)
      else
        b ← non_null block;
        b ← assignment_expression depth fuel standard g def b;
        val ← ev (value_of depth def b);
        mret (Some b, Some val, cvrs)
    end.

(** A length as an [unsigned long] of its own. *)
Definition length_value (def : option defref) (block : bref) (val : var) : E var :=
  if negb (is_integer (v_type val)) then fail "Array dimension must be of integer type."
  else if bool_decide (v_kind val = IMMEDIATE) && is_signed (v_type val) && (val_i (v_imm val) <? 0) then
    fail "Array dimension must be a positive number."
  else
    same ← same_type depth (v_type val) basic_type__unsigned_long;
    val ← (if negb same then
             e ← apply_op depth fuel def block IR_OP_CAST val (OperandType basic_type__unsigned_long);
             eval depth def (Some block) e
           else if bool_decide (v_kind val = DIRECT) then
             y ← the_symbol (v_symbol val);
             if negb (is_temporary y) then eval_copy depth knot_at def (Some block) val else mret val
           else mret val);
    _ ← assert (is_unsigned (v_type val));
    same ← same_type depth (v_type val) basic_type__unsigned_long;
    _ ← assert same;
    _ ← put_var block val;
    _ ← (if bool_decide (v_kind val = IMMEDIATE) then mret tt
         else
           _ ← assert (bool_decide (v_kind val = DIRECT));
           assert (bool_decide (v_symbol val ≠ None)));
    mret val.

(** The type of an array that is declared as a parameter: a pointer. *)
Definition array_parameter (base : ctype) (cvrs : array_param) : E ctype :=
  t ← pointer_to base;
  let t := if ap_const cvrs then type_set_const t else t in
  let t := if ap_volatile cvrs then type_set_volatile t else t in
  if ap_restrict cvrs then lift (type_set_restrict t) else mret t.

(** [length] is [Some] for the outermost dimension of a parameter. *)
Definition array_type (base : ctype) (val : option var) (cvrs : array_param) (length : option Z) :
    E (ctype * option Z) :=
  let len := match val with
             | Some v => if bool_decide (v_kind v = IMMEDIATE) then val_u (v_imm v) else 0
             | None => 0
             end in
  match length, val with
  | Some _, _ => t ← array_parameter base cvrs; mret (t, Some len)
  | None, None => t ← new_type (λ ts, type_create_incomplete ts base); mret (t, None)
  | None, Some v =>
    match v_kind v, v_symbol v with
    | IMMEDIATE, _ => t ← new_type (λ ts, type_create_array depth ts base len); mret (t, None)
    | _, Some s => t ← new_type (λ ts, type_create_vla depth ts base s); mret (t, None)
    | _, None => fail "assertion failed"
    end
  end.

Definition array_declarator (def : option defref) (block : option bref) (base : ctype) (length : option Z) :
    G declared :=
  _ ← skip OPEN_BRACKET;
  '(block, val, cvrs) ← array_length def block (bool_decide (length ≠ None));
  val ← (match val with
         | Some v => b ← non_null block; v ← ev (length_value def b v); mret (Some v)
         | None => mret None
         end);
  _ ← skip CLOSE_BRACKET;
  open ← at_type OPEN_BRACKET;
  '(block, base) ← (if open : bool then
                      d ← g_array_declarator g def block base None; mret (dc_block d, dc_type d)
                    else mret (block, base));
  c ← ev (on_types (λ ts, is_complete ts base));
  if negb c then stop "Array has incomplete element type."
  else
    '(t, length) ← ev (array_type base val cvrs length);
    mret (Declared block t None length).

(** ** Parameters *)

(** The last member of a function type gets the length of an array and the
    symbol of its name. *)
Definition note_parameter (func : ctype) (name : kstring) (t : ctype) (length : Z) : E unit :=
  n ← on_types (λ ts, nmembers ts func);
  let i := Z.to_nat (n - 1) in
  _ ← change_types (λ ts, set_member ts func i (m_set_offset length));
  if negb (s_len name =? 0) then
    s ← add_symbol depth NS_IDENT name t SYM_DEFINITION LINK_NONE DECL_NORMAL;
    change_types (λ ts, set_member ts func i (m_set_sym (Some s)))
  else mret tt.

Definition add_ellipsis (func : ctype) : E unit :=
  v ← on_types (λ ts, is_vararg ts func);
  _ ← assert (negb v);
  _ ← new_type (λ ts, type_add_member depth ts func dots basic_type__void);
  v ← on_types (λ ts, is_vararg ts func);
  assert v.

(** A parameter of type [t]; the result is whether the list may go on. *)
Definition add_parameter (func : ctype) (name : kstring) (t : ctype) (length : Z) : E bool :=
  if is_void t then
    n ← on_types (λ ts, nmembers ts func);
    if negb (n =? 0) then fail "Incomplete type in parameter list."
    else _ ← change_types (λ ts, type_seal depth ts func); mret false
  else
    t ← (if is_array t then n ← next_type t; pointer_to n
         else if is_function t then pointer_to t
         else mret t);
    added ← new_type (λ ts, type_add_member depth ts func name t);
    _ ← lift (if added : bool then Ok tt else Undef "null pointer");
    _ ← note_parameter func name t length;
    mret true.

Fixpoint parameters (n : nat) (def : option defref) (block : option bref) (func : ctype) : G (option bref) :=
  match n with
  | O => stuck
  | S n =>
    close ← at_type CLOSE_PAREN;
    if close : bool then mret block
    else
      sp ← g_declaration_specifiers g false false true;
      d ← g_parameter_declarator g def block (sp_type sp) (Some str_zero) (Some 0);
      more ← ev (add_parameter func (default str_zero (dc_name d)) (dc_type d) (default 0 (dc_length d)));
      comma ← (if more : bool then at_type COMMA else mret false);
      if negb comma then mret (dc_block d)
      else
        _ ← skip COMMA;
        ellipsis ← at_type DOTS;
        if ellipsis : bool then _ ← skip DOTS; _ ← ev (add_ellipsis func); mret (dc_block d)
        else parameters n def (dc_block d) func
  end.

Definition parameter_list (def : option defref) (parent : option bref) (base : ctype) : G (option bref * ctype) :=
  func ← ev (new_type (λ ts, type_create_function ts base));
  d ← ev (scope_depth NS_IDENT);
  block ← (if d =? 1 then mret parent else b ← ev (cfg_block_init def); mret (Some b));
  block ← parameters fuel def block func;
  d ← ev (scope_depth NS_IDENT);
  mret (if d =? 1 then block else parent, func).

(** The names of an old-style definition. *)
Fixpoint identifiers (n : nat) (func : ctype) : G unit :=
  match n with
  | O => stuck
  | S n =>
    t ← consume IDENTIFIER;
    name ← name_of t;
    tag ← ev (get_typedef name);
    match tag with
    | Some _ => stop "Unexpected type in identifier list."
    | None =>
      _ ← ev (new_type (λ ts, type_add_member depth ts func name get_type_placeholder));
      comma ← at_type COMMA;
      if comma : bool then _ ← next; identifiers n func else mret tt
    end
  end.
Definition identifier_list (base : ctype) : G ctype :=
  func ← ev (new_type (λ ts, type_create_function ts base));
  close ← at_type CLOSE_PAREN;
  _ ← (if close : bool then mret tt else identifiers fuel func);
  mret func.

(** ** Declarators *)

(** An identifier that is no type. *)
Definition is_plain_name (t : token) : G bool :=
  if is_tok IDENTIFIER t then
    name ← name_of t;
    tag ← ev (get_typedef name);
    mret (match tag with Some _ => false | None => true end)
  else mret false.

(** The name, or the declarator in parentheses with the type it makes of
    [void]. *)
Definition inner_declarator (def : option defref) (block : option bref) (name : option kstring) :
    G (option bref * ctype * option kstring) :=
  t ← peek_type;
  match t with
  | IDENTIFIER =>
    tok ← next;
    match name with
    | None => stop "Unexpected identifier in abstract declarator."
    | Some _ => s ← name_of tok; mret (block, basic_type__void, Some s)
    end
  | OPEN_PAREN =>
    tok ← peekn 2;
    plain ← is_plain_name tok;
    if plain || is_tok OPEN_PAREN tok || is_tok STAR tok then
      _ ← next;
      d ← g_parameter_declarator g def block basic_type__void name None;
      _ ← skip CLOSE_PAREN;
      mret (dc_block d, dc_type d, dc_name d)
    else mret (block, basic_type__void, name)
  | _ => mret (block, basic_type__void, name)
  end.

Definition function_declarator (def : option defref) (block : option bref) (base : ctype) : G (option bref * ctype) :=
  _ ← next;
  t ← peek;
  _ ← ev (open_scope NS_TAG);
  _ ← ev (open_scope NS_IDENT);
  plain ← is_plain_name t;
  r ← (if plain : bool then f ← identifier_list base; mret (block, f) else parameter_list def block base);
  _ ← ev (close_scope NS_IDENT);
  _ ← ev (close_scope NS_TAG);
  _ ← skip CLOSE_PAREN;
  mret r.

Definition direct_declarator (def : option defref) (block : option bref) (base : ctype) (name : option kstring)
    (length : option Z) : G declared :=
  '(block, head, name) ← inner_declarator def block name;
  let place := if negb (is_void head) then None else length in
  t ← peek_type;
  d ← (match t with
       | OPEN_BRACKET =>
         d ← array_declarator def block base place;
         mret (Declared (dc_block d) (dc_type d) name (match place with Some _ => dc_length d | None => length end))
       | OPEN_PAREN =>
         '(block, f) ← function_declarator def block base;
         mret (Declared block f name length)
       | _ =>
         c ← (if bool_decide (t_type base = T_ARRAY) then ev (on_types (λ ts, is_complete ts base)) else mret false);
         t ← (if c : bool then ev (new_type (λ ts, type_copy_incomplete ts base)) else mret base);
         mret (Declared block t name length)
       end);
  if negb (is_void head) then
    t ← ev (new_type (λ ts, type_patch_declarator depth ts head (dc_type d)));
    mret (Declared (dc_block d) t (dc_name d) (dc_length d))
  else mret d.

(** The qualifiers behind a [*]. *)
Fixpoint pointer_quals (n : nat) (t : ctype) : G ctype :=
  match n with
  | O => stuck
  | S n =>
    _ ← next;
    q ← peek_type;
    match q with
    | CONST => pointer_quals n (type_set_const t)
    | VOLATILE => pointer_quals n (type_set_volatile t)
    | RESTRICT => t ← ev (lift (type_set_restrict t)); pointer_quals n t
    | _ => mret t
    end
  end.
Definition pointer (t : ctype) : G ctype := t ← ev (pointer_to t); pointer_quals fuel t.

Fixpoint pointers (n : nat) (base : ctype) : G ctype :=
  match n with
  | O => stuck
  | S n =>
    star ← at_type STAR;
    if star : bool then base ← pointer base; pointers n base else mret base
  end.

Definition parameter_declarator (def : option defref) (block : option bref) (base : ctype) (name : option kstring)
    (length : option Z) : G declared :=
  base ← pointers fuel base;
  direct_declarator def block base name length.

Definition declarator (def : option defref) (block : option bref) (base : ctype) (name : option kstring) : G declared :=
  parameter_declarator def block base name None.

(** ** Structs, unions and enumerations *)

(** A member behind its declarator. *)
Definition add_declared_member (t : ctype) (name : kstring) (decl : ctype) : G unit :=
  colon ← (if is_struct_or_union t then at_type COLON else mret false);
  if colon : bool then
    if negb (is_integer decl) then stop "Unsupported type for bit-field."
    else
      _ ← skip COLON;
      e ← constant_expression depth fuel standard g;
      if is_signed (v_type e) && (val_i (v_imm e) <? 0) then stop "Negative width in bit-field."
      else ev (change_types (λ ts, type_add_field fuel depth ts t name decl (val_u (v_imm e))))
  else if s_len name =? 0 then
    if is_struct_or_union decl then ev (change_types (λ ts, type_add_anonymous_member depth ts t decl))
    else stop "Missing name in member declarator."
  else _ ← ev (new_type (λ ts, type_add_member depth ts t name decl)); mret tt.

Fixpoint member_declarators (n : nat) (t base : ctype) : G unit :=
  match n with
  | O => stuck
  | S n =>
    d ← declarator None None base (Some str_zero);
    _ ← add_declared_member t (default str_zero (dc_name d)) (dc_type d);
    comma ← at_type COMMA;
    if comma : bool then _ ← skip COMMA; member_declarators n t base else mret tt
  end.

Fixpoint member_declarations (n : nat) (t : ctype) : G unit :=
  match n with
  | O => stuck
  | S n =>
    sp ← g_declaration_specifiers g false false false;
    _ ← member_declarators fuel t (sp_type sp);
    _ ← skip SEMICOLON;
    close ← at_type CLOSE_CURLY;
    if close : bool then mret tt else member_declarations n t
  end.
Definition member_declaration_list (t : ctype) : G unit :=
  _ ← member_declarations fuel t;
  ev (change_types (λ ts, type_seal depth ts t)).

(** A new type for a tag. *)
Definition declare_tag (kind : etype) (name : kstring) : E (symref * ctype) :=
  t ← new_type (λ ts, Ok (type_create ts kind));
  s ← add_symbol depth NS_TAG name t SYM_TAG LINK_NONE DECL_NORMAL;
  mret (s, t).

(** The type of a tag that is named, before the members. *)
Definition tagged_type (kind : etype) : G ctype :=
  tok ← consume IDENTIFIER;
  name ← name_of tok;
  sym ← ev (lookup_symbol NS_TAG name);
  sym ← (match sym with
         | None => '(s, _) ← ev (declare_tag kind name); mret s
         | Some s =>
           y ← ev (the_symbol (Some s));
           if is_integer (sym_type y) then stop "Tag was previously declared as enum."
           else if negb (bool_decide (type_of (sym_type y) = kind)) then
             stop "Tag was previously declared as the other kind."
           else mret s
         end);
  y ← ev (the_symbol (Some sym));
  let t := sym_type y in
  curly ← at_type OPEN_CURLY;
  n ← (if curly : bool then ev (size_of_type depth t) else mret 0);
  if negb (n =? 0) then
    d ← ev (scope_depth NS_TAG);
    if negb (wrap_u 32 (sym_depth y) =? d) then '(_, t) ← ev (declare_tag kind name); mret t
    else stop "Redefinition of a tag."
  else mret t.

Definition struct_or_union_declaration (kind : etype) : G ctype :=
  named ← at_type IDENTIFIER;
  t ← (if named : bool then t ← tagged_type kind; mret (Some t) else mret None);
  curly ← at_type OPEN_CURLY;
  if curly : bool then
    t ← (match t with Some t => mret t | None => ev (new_type (λ ts, Ok (type_create ts kind))) end);
    _ ← next;
    _ ← member_declaration_list t;
    _ ← skip CLOSE_CURLY;
    mret t
  else match t with Some t => mret t | None => stop "Invalid declaration." end.

(** The enumerators; [count] is the value of the next. *)
Fixpoint enumerators (n : nat) (count : Z) : G unit :=
  match n with
  | O => stuck
  | S n =>
    tok ← consume IDENTIFIER;
    name ← name_of tok;
    eq ← at_type ASSIGN;
    count ← (if eq : bool then
               _ ← skip ASSIGN;
               val ← constant_expression depth fuel standard g;
               _ ← (if negb (is_integer (v_type val)) then report_error else mret tt);
               mret (wrap_s 32 (v_imm val))
             else mret count);
    sym ← ev (add_symbol depth NS_IDENT name basic_type__int SYM_CONSTANT LINK_NONE DECL_NORMAL);
    _ ← ev (change_symbol sym (with_value (ConstantValue (wrap_u 64 count))));
    count ← ev (lift (c_result I32 (count + 1)));
    comma ← at_type COMMA;
    if negb comma then mret tt
    else
      _ ← skip COMMA;
      close ← at_type CLOSE_CURLY;
      if close : bool then mret tt else enumerators n count
  end.
Definition enumerator_list : G unit :=
  _ ← skip OPEN_CURLY;
  _ ← enumerators fuel 0;
  skip CLOSE_CURLY.

(** The tag of an enumeration. *)
Definition enum_tag (name : kstring) : E symref :=
  tag ← lookup_symbol NS_TAG name;
  let declare := add_symbol depth NS_TAG name basic_type__int SYM_TAG LINK_NONE DECL_NORMAL in
  match tag with
  | None => declare
  | Some r =>
    y ← the_symbol tag;
    d ← scope_depth NS_TAG;
    if wrap_u 32 (sym_depth y) <? d then declare
    else if negb (is_integer (sym_type y)) then fail "Tag was previously defined as aggregate type."
    else mret r
  end.

Definition enum_declaration : G unit :=
  t ← peek;
  if is_tok IDENTIFIER t then
    _ ← next;
    name ← name_of t;
    tag ← ev (enum_tag name);
    curly ← at_type OPEN_CURLY;
    if curly : bool then
      y ← ev (the_symbol (Some tag));
      c ← ev (lift (constant_value y));
      if negb (c =? 0) then stop "Redefinition of enum."
      else
        _ ← enumerator_list;
        ev (change_symbol tag (with_value (ConstantValue 1)))
    else mret tt
  else enumerator_list.

(** ** The specifiers of a declaration *)

(** A specifier that is one token. *)
Definition take_spec (s : spec_state) : G (option spec_state) := _ ← next; mret (Some s).
(** The token is no specifier here: [goto done]. *)
Definition spec_done : G (option spec_state) := mret None.

Definition sign_spec (x other : sign) (s : spec_state) : G (option spec_state) :=
  _ ← next;
  if bool_decide (ss_sign s = x) || bool_decide (ss_sign s = other) then _ ← report_error; mret (Some s)
  else mret (Some (ss_set_sign x s)).

(** The tag or type name behind the token, of an aggregate. *)
Definition aggregate_spec (kind : etype) (s : spec_state) : G (option spec_state) :=
  if has_base s || has_modifier s || has_sign s then spec_done
  else
    _ ← next;
    t ← struct_or_union_declaration kind;
    mret (Some (ss_set_base t B_AGGREGATE s)).
Definition typedef_spec (tok : token) (s : spec_state) : G (option spec_state) :=
  name ← name_of tok;
  tagged ← ev (get_typedef name);
  match tagged with
  | Some t =>
    if has_base s || has_modifier s || has_sign s then spec_done
    else _ ← next; mret (Some (ss_set_base t B_AGGREGATE s))
  | None => spec_done
  end.
Definition enum_spec (s : spec_state) : G (option spec_state) :=
  if has_base s || has_modifier s || has_sign s then spec_done
  else
    _ ← next;
    _ ← enum_declaration;
    mret (Some (ss_set_base (ss_type s) B_ENUM s)).

(** [inline], [register] and storage classes: an error where the caller has no
    place for them, or behind another. *)
Definition flag_spec (wanted given : bool) (s s' : spec_state) : G (option spec_state) :=
  _ ← next;
  if negb wanted || given then _ ← report_error; mret (Some s) else mret (Some s').

Definition specifier_step (storage inline register : bool) (tok : token) (s : spec_state) : G (option spec_state) :=
  let base := has_base s in
  let any := has_base s || has_modifier s || has_sign s in
  let set b := ss_set_base (ss_type s) b s in
  match tk_token tok with
  | VOID => if any then spec_done else take_spec (set B_VOID)
  | BOOL => if any then spec_done else take_spec (set B_BOOL)
  | CHAR => if base || has_modifier s then spec_done else take_spec (set B_CHAR)
  | SHORT => if takes_short s then take_spec (ss_set_modifier M_SHORT s) else spec_done
  | INT => if base then spec_done else take_spec (set B_INT)
  | LONG =>
    if takes_long s then
      take_spec (ss_set_modifier (if bool_decide (ss_modifier s = M_LONG) then M_LONG_LONG else M_LONG) s)
    else spec_done
  | SIGNED => sign_spec S_SIGNED S_UNSIGNED s
  | UNSIGNED => sign_spec S_UNSIGNED S_SIGNED s
  | FLOAT => if any then spec_done else take_spec (set B_FLOAT)
  | DOUBLE => if takes_double s then take_spec (set B_DOUBLE) else spec_done
  | CONST => take_spec (ss_set_quals true (ss_volatile s) s)
  | VOLATILE => take_spec (ss_set_quals (ss_const s) true s)
  | IDENTIFIER => typedef_spec tok s
  | UNION => aggregate_spec T_UNION s
  | STRUCT => aggregate_spec T_STRUCT s
  | ENUM => enum_spec s
  | INLINE => flag_spec inline (ss_inline s) s (ss_set_flags (ss_storage s) true (ss_register s) s)
  | REGISTER => flag_spec register (ss_register s) s (ss_set_flags (ss_storage s) (ss_inline s) true s)
  | AUTO | STATIC | EXTERN | TYPEDEF =>
    flag_spec storage (bool_decide (ss_storage s ≠ None)) s
      (ss_set_flags (Some (tk_token tok)) (ss_inline s) (ss_register s) s)
  | _ => spec_done
  end.

Fixpoint specifiers_loop (n : nat) (storage inline register : bool) (s : spec_state) : G spec_state :=
  match n with
  | O => stuck
  | S n =>
    tok ← peek;
    r ← specifier_step storage inline register tok s;
    match r with Some s => specifiers_loop n storage inline register s | None => mret s end
  end.
Definition declaration_specifiers (storage inline register : bool) : G specifiers :=
  s ← specifiers_loop fuel storage inline register spec_start;
  mret (finish_specifiers s).

(** ** Functions *)

Definition define_builtin__func__ (name : kstring) : E unit :=
  d ← scope_depth NS_IDENT;
  _ ← assert (d =? 1);
  _ ← assert (is_c99 standard);
  t ← new_type (λ ts, type_create_array depth ts basic_type__char (s_len name + 1));
  sym ← add_symbol depth NS_IDENT (str_of (cstr "__func__")) t SYM_STRING_VALUE LINK_INTERN DECL_NORMAL;
  change_symbol sym (with_value (StringValue name)).

(** The declarations between the parameters and the body. *)
Fixpoint old_declarations (n : nat) (def : option defref) (block : option bref) : G (option bref) :=
  match n with
  | O => stuck
  | S n =>
    curly ← at_type OPEN_CURLY;
    if curly : bool then mret block
    else block ← g_declaration g def block; old_declarations n def block
  end.

(** The parameters from [i] on get their symbols; those without declaration
    are [int]. *)
Fixpoint old_parameters (n : nat) (i : Z) (t : ctype) : E unit :=
  match n with
  | O => lift (Undef "not enough fuel")
  | S n =>
    m ← on_types (λ ts, nmembers ts t);
    if negb (i <? m) then mret tt
    else
      param ← on_types (λ ts, get_member ts t i);
      if s_len (m_name param) =? 0 then fail "Missing parameter name."
      else
        _ ← assert (bool_decide (m_sym param = None));
        sym ← lookup_symbol NS_IDENT (m_name param);
        _ ← change_types (λ ts, set_member ts t (Z.to_nat i) (m_set_sym sym));
        declared ← (match sym with
                    | Some _ => y ← the_symbol sym; mret (sym_depth y =? 1)
                    | None => mret false
                    end);
        _ ← (if declared : bool then mret tt
             else
               _ ← assert (is_type_placeholder (m_type param));
               _ ← change_types (λ ts, set_member ts t (Z.to_nat i) (m_set_type basic_type__int));
               s ← add_symbol depth NS_IDENT (m_name param) basic_type__int SYM_DEFINITION LINK_NONE DECL_NORMAL;
               change_types (λ ts, set_member ts t (Z.to_nat i) (m_set_sym (Some s))));
        old_parameters n (i + 1) t
  end.

(** A symbol on the stack of [parameter_declaration_list]. *)
Definition stack_symbol (t : ctype) : E symref := λ p,
  let tab := ps_tab p in
  let r := fresh (dom (sb_symbols tab)) in
  Ok (ps_set_tab (put_sym r (Symbol str_zero t SYM_DEFINITION LINK_NONE 0 0 0 0 0 0 0 NoValue) tab) p, r).
Definition drop_symbol (r : symref) : E unit :=
  update (λ p, ps_set_tab (set_store (delete r (sb_symbols (ps_tab p))) (ps_tab p)) p).

Definition parameter_declaration_list (def : option defref) (block : option bref) (t : ctype) : G (option bref) :=
  _ ← ensure (is_function t);
  d ← ev (scope_depth NS_IDENT);
  _ ← ensure (d =? 1);
  x ← ev (the_def def);
  _ ← ensure (bool_decide (d_symbol x = None));
  sym ← ev (stack_symbol t);
  _ ← ev (change_def def (set_symbol (Some sym)));
  block ← old_declarations fuel def block;
  _ ← ev (change_def def (set_symbol None));
  _ ← ev (drop_symbol sym);
  _ ← ev (old_parameters fuel 0 t);
  _ ← ev (change_types (λ ts, type_seal depth ts t));
  c ← ev (on_types (λ ts, is_complete ts t));
  _ ← ensure c;
  mret block.

Fixpoint visible_parameters (n : nat) (i : Z) (def : option defref) (t : ctype) : E unit :=
  match n with
  | O => lift (Undef "not enough fuel")
  | S n =>
    m ← on_types (λ ts, nmembers ts t);
    if negb (i <? m) then mret tt
    else
      param ← on_types (λ ts, get_member ts t i);
      if s_len (m_name param) =? 0 then fail "Missing parameter."
      else
        s ← (match m_sym param with Some s => mret s | None => fail "assertion failed" end);
        y ← the_symbol (Some s);
        _ ← assert (sym_depth y =? 1);
        _ ← assert (negb (is_type_placeholder (m_type param)));
        _ ← assert (negb (is_array (m_type param)));
        _ ← on_scopes (λ st, sym_make_visible st NS_IDENT s);
        _ ← change_def def (add_param s);
        visible_parameters n (i + 1) def t
  end.
Definition make_parameters_visible (def : option defref) : E unit :=
  x ← the_def def;
  _ ← assert (bool_decide (d_symbol x ≠ None));
  y ← the_symbol (d_symbol x);
  _ ← assert (is_function (sym_type y));
  d ← scope_depth NS_IDENT;
  _ ← assert (d =? 1);
  visible_parameters fuel 0 def (sym_type y).

(** The body of the function [sym]. *)
Definition function_body (def : option defref) (parent : option bref) (sym : symref) : G (option bref) :=
  _ ← ev (change_symbol sym (with_symtype SYM_DEFINITION));
  d ← non_null def;
  _ ← ev (cfg_define d sym);
  _ ← ev (open_scope NS_LABEL);
  _ ← ev (open_scope NS_IDENT);
  _ ← ev (make_parameters_visible def);
  y ← ev (the_symbol (Some sym));
  _ ← (if is_c99 standard then ev (define_builtin__func__ (Symbol.sym_name y)) else mret tt);
  b ← non_null parent;
  b ← g_block g def b;
  _ ← ev (close_scope NS_LABEL);
  _ ← ev (close_scope NS_IDENT);
  mret (Some b).

(** ** Declarators with their initializers *)

(** The kind and linkage of a symbol of type [t]. *)
Definition adjust_linkage (t : ctype) (st : symtype) (lk : linkage) : E (symtype * linkage) :=
  d ← scope_depth NS_IDENT;
  if bool_decide (st = SYM_TYPEDEF) then mret (st, lk)
  else if is_function t then
    let lk := if bool_decide (lk = LINK_NONE) then LINK_EXTERN else lk in
    if bool_decide (lk = LINK_INTERN) && negb (d =? 0) then fail "Cannot declare static function in block scope."
    else mret (SYM_DECLARATION, lk)
  else
    vm ← on_types (λ ts, is_variably_modified depth ts t);
    if vm : bool then
      if d =? 0 then fail "Invalid variably modified type at file scope."
      else if negb (bool_decide (lk = LINK_NONE)) && negb (is_pointer t && bool_decide (lk = LINK_INTERN)) then
        fail "Invalid linkage for block scoped variably modified type."
      else mret (st, lk)
    else mret (st, lk).

(** A parameter declared between the declarator and the body of an old-style
    definition. *)
Definition old_parameter (def : option defref) (sym : symref) (name : kstring) (t : ctype) : E unit :=
  x ← the_def def;
  _ ← assert (bool_decide (d_symbol x ≠ None));
  f ← the_symbol (d_symbol x);
  param ← on_types (λ ts, find_type_member ts (sym_type f) name);
  _ ← (if is_array t then
         n ← next_type t;
         p ← pointer_to n;
         change_symbol sym (with_type p)
       else mret tt);
  match param with
  | Some (i, m) =>
    if is_type_placeholder (m_type m) then
      y ← the_symbol (Some sym);
      change_types (λ ts, set_member ts (sym_type f) (Z.to_nat i) (m_set_type (sym_type y)))
    else fail "Invalid parameter declaration."
  | None => fail "Invalid parameter declaration."
  end.

(** What depends on the scope of a new symbol. *)
Definition place_symbol (def : option defref) (parent : option bref) (sym : symref) (name : kstring) (t : ctype)
    (st : symtype) (lk : linkage) : G unit :=
  d ← ev (scope_depth NS_IDENT);
  if d =? 0 then mret tt
  else if d =? 1 then ev (old_parameter def sym name t)
  else if bool_decide (st = SYM_DEFINITION) then
    _ ← ensure (bool_decide (lk = LINK_NONE));
    _ ← ev (change_def def (add_local sym));
    vla ← ev (vla_type depth t);
    if vla : bool then b ← non_null parent; ev (declare_vla depth fuel def b sym) else mret tt
  else mret tt.

(** [= initializer]. *)
Definition initialized (def : option defref) (parent : option bref) (sym : symref) : G (option bref) :=
  y ← ev (the_symbol (Some sym));
  if bool_decide (sym_symtype y = SYM_DECLARATION) then stop "Extern symbol cannot be initialized."
  else if (sym_depth y =? 0) && bool_decide (sym_symtype y = SYM_DEFINITION) then stop "Symbol was already defined."
  else
    vla ← ev (vla_type depth (sym_type y));
    if vla : bool then stop "Variable length array cannot be initialized."
    else
      _ ← skip ASSIGN;
      _ ← ev (change_symbol sym (with_symtype SYM_DEFINITION));
      b ← non_null parent;
      b ← initializer depth fuel standard g def b sym;
      y ← ev (the_symbol (Some sym));
      n ← ev (size_of_type depth (sym_type y));
      _ ← ensure (0 <? n);
      _ ← (if negb (bool_decide (sym_linkage y = LINK_NONE)) then d ← non_null def; ev (cfg_define d sym) else mret tt);
      mret (Some b).

(** The end of [init_declarator]. *)
Definition finish_declarator (sym : symref) (st : symtype) (lk : linkage) : G unit :=
  y ← ev (the_symbol (Some sym));
  _ ← ev (complete_array depth (sym_type y));
  _ ← (if bool_decide (lk = LINK_INTERN)
          || (is_function (sym_type y) && negb (bool_decide (sym_symtype y = SYM_DEFINITION)))
       then ev (change_types (λ ts, type_clean_prototype depth ts (sym_type y))) else mret tt);
  if bool_decide (st = SYM_TENTATIVE) || (bool_decide (st = SYM_DECLARATION) && bool_decide (lk = LINK_EXTERN))
  then allocate_global depth sym else mret tt.

(** Whether the token begins a function body or the declarations before it. *)
Definition starts_body (t : token_type) : bool :=
  match t with
  | IDENTIFIER | REGISTER | OPEN_CURLY => true
  | _ => first_type_specifier t || first_type_qualifier t
  end.

(** A declarator with its name: the symbol. *)
Definition declare_symbol (def : option defref) (parent : option bref) (name : kstring) (t : ctype) (st : symtype)
    (lk : linkage) : G (option bref * symref) :=
  after ← peek_type;
  let defined_here := is_function t && negb (bool_decide (after = SEMICOLON)) in
  c ← ev (if is_function t then on_types (λ ts, is_complete ts t) else mret true);
  parent ← (if negb c && negb (bool_decide (after = SEMICOLON)) then
              _ ← ev (open_scope NS_IDENT);
              b ← parameter_declaration_list def parent t;
              _ ← ev (close_scope NS_IDENT);
              mret b
            else mret parent);
  sym ← ev (add_symbol depth NS_IDENT name t st lk (if defined_here then DECL_FUNCBODY else DECL_NORMAL));
  mret (parent, sym).

Definition init_declarator (def : option defref) (parent : option bref) (base : ctype) (st : symtype) (lk : linkage) :
    G (option bref) :=
  d ← ev (scope_depth NS_IDENT);
  '(parent, t, name) ←
    (if bool_decide (lk = LINK_INTERN) && negb (d =? 0) then
       b ← ev (cfg_block_init def);
       x ← declarator def (Some b) base (Some str_zero);
       mret (parent, dc_type x, default str_zero (dc_name x))
     else
       x ← declarator def parent base (Some str_zero);
       mret (dc_block x, dc_type x, default str_zero (dc_name x)));
  if s_len name =? 0 then mret parent
  else
    '(st, lk) ← ev (adjust_linkage t st lk);
    '(parent, sym) ← declare_symbol def parent name t st lk;
    _ ← place_symbol def parent sym name t st lk;
    after ← peek_type;
    y ← ev (the_symbol (Some sym));
    if bool_decide (after = ASSIGN) then
      parent ← initialized def parent sym;
      _ ← finish_declarator sym st lk;
      mret parent
    else
      _ ← (if starts_body after then ensure (negb (bool_decide (sym_linkage y = LINK_NONE))) else mret tt);
      if starts_body after && is_function (sym_type y) then function_body def parent sym
      else _ ← finish_declarator sym st lk; mret parent.

(** ** Declarations *)

Definition static_assertion : G unit :=
  _ ← skip STATIC_ASSERT;
  _ ← skip OPEN_PAREN;
  val ← constant_expression depth fuel standard g;
  _ ← skip COMMA;
  tok ← consume STRING;
  _ ← name_of tok;
  if negb (bool_decide (v_kind val = IMMEDIATE)) || negb (is_integer (v_type val)) then
    stop "Expression in static assertion must be an integer constant."
  else if v_imm val =? 0 then stop "Static assertion failed."
  else skip CLOSE_PAREN.

(** The kind and linkage that a storage class gives. *)
Definition storage_of (storage : option token_type) (d : Z) : symtype * linkage :=
  match storage with
  | Some EXTERN => (SYM_DECLARATION, LINK_EXTERN)
  | Some STATIC => (SYM_TENTATIVE, LINK_INTERN)
  | Some TYPEDEF => (SYM_TYPEDEF, LINK_NONE)
  | _ => if d =? 0 then (SYM_TENTATIVE, LINK_EXTERN) else (SYM_DEFINITION, LINK_NONE)
  end.

(** A declarator with linkage gets a definition of its own; the result is
    whether that became a function. *)
Definition declare_linked (base : ctype) (st : symtype) (lk : linkage) : G bool :=
  decl ← ev cfg_init;
  x ← ev (the_def (Some decl));
  _ ← init_declarator (Some decl) (d_body x) base st lk;
  x ← ev (the_def (Some decl));
  match d_symbol x with
  | None => _ ← ev (cfg_discard decl); mret false
  | Some s => y ← ev (the_symbol (Some s)); mret (is_function (sym_type y))
  end.

Fixpoint declarators (n : nat) (def : option defref) (parent : option bref) (base : ctype) (st : symtype)
    (lk : linkage) : G (option bref) :=
  match n with
  | O => stuck
  | S n =>
    '(parent, body) ← (match lk with
                       | LINK_NONE => b ← init_declarator def parent base st lk; mret (b, false)
                       | _ => f ← declare_linked base st lk; mret (parent, f)
                       end);
    if body : bool then mret parent
    else
      comma ← at_type COMMA;
      if comma : bool then _ ← next; declarators n def parent base st lk
      else _ ← skip SEMICOLON; mret parent
  end.

Definition declaration_rule (def : option defref) (parent : option bref) : G (option bref) :=
  assertion ← at_type STATIC_ASSERT;
  if assertion : bool then _ ← static_assertion; _ ← skip SEMICOLON; mret parent
  else
    noreturn ← at_type NORETURN;
    _ ← (if noreturn : bool then _ ← next; mret tt else mret tt);
    sp ← declaration_specifiers true true true;
    d ← ev (scope_depth NS_IDENT);
    let '(st, lk) := storage_of (sp_storage sp) d in
    t ← peek_type;
    match t with
    | STAR | OPEN_PAREN | IDENTIFIER => declarators fuel def parent (sp_type sp) st lk
    | _ => _ ← skip SEMICOLON; mret parent
    end.

End declaration.
