(* ===== verification/Statement.v ===== *)
(** * Statements (src/parser/statement.c)

    Statements become blocks joined by jumps: [jump[0]] is taken when the value
    of the block is zero or when it is the only one, [jump[1]] otherwise.  A
    rule takes the block to continue and returns the one behind the statement. *)

From stdpp Require Import base list gmap numbers strings.
From Stdlib Require Import ZArith Lia.
From S2P Require Import Prelude VmInstr Token Macro CType CArith Floats Strings Symbol Typetree Symtab Immediate Ir Cfg Eval Assign Parser Expression Initializer Declaration.

Local Open Scope Z_scope.

Definition JUMPTABLE_THRESHOLD : Z := 16.

(** ** The blocks of a switch *)

Definition set_loop_body (b : bref) (x : block) : block :=
  Block (b_label x) (b_code x) (b_expr x) (b_jump0 x) (b_jump1 x) (b_has_jump_table x) (b_table_offset x)
    (b_jump_table x) (Some b) (b_has_return_value x) (b_has_init_value x) (b_color x) (b_in x) (b_out x).
Definition set_jump0 (j : option bref) (x : block) : block :=
  Block (b_label x) (b_code x) (b_expr x) j (b_jump1 x) (b_has_jump_table x) (b_table_offset x)
    (b_jump_table x) (b_body x) (b_has_return_value x) (b_has_init_value x) (b_color x) (b_in x) (b_out x).
Definition set_table (offset : var) (x : block) : block :=
  Block (b_label x) (b_code x) (b_expr x) (b_jump0 x) (b_jump1 x) true offset
    (b_jump_table x) (b_body x) (b_has_return_value x) (b_has_init_value x) (b_color x) (b_in x) (b_out x).
Definition add_jump_pair (j : jump_pair) (x : block) : block :=
  Block (b_label x) (b_code x) (b_expr x) (b_jump0 x) (b_jump1 x) (b_has_jump_table x) (b_table_offset x)
    (b_jump_table x ++ [j]) (b_body x) (b_has_return_value x) (b_has_init_value x) (b_color x) (b_in x) (b_out x).

(** The value of a case, as [int64_t] and as the [int] it is assigned to. *)
Definition case_value (c : switch_case) : Z := val_i (v_imm (sc_value c)).
Definition case_int (c : switch_case) : Z := wrap_s 32 (case_value c).

(** A case is put behind those that are not greater. *)
Fixpoint insert_case (c : switch_case) (l : list switch_case) : list switch_case :=
  match l with
  | [] => [c]
  | d :: l => if case_value c <? case_value d then c :: d :: l else d :: insert_case c l
  end.
Fixpoint sort_cases (cases sorted : list switch_case) : outcome (list switch_case) :=
  match cases with
  | [] => Ok sorted
  | c :: cases =>
    _ ← c_assert (bool_decide (v_kind (sc_value c) = IMMEDIATE));
    if negb (is_integer (v_type (sc_value c))) then Exit "Switch expression must have integer type."
    else sort_cases cases (insert_case c sorted)
  end.

(** The largest distance of two neighbours behind [prev]. *)
Fixpoint largest_gap (prev maxdiff : Z) (l : list switch_case) : outcome Z :=
  match l with
  | [] => Ok maxdiff
  | c :: l =>
    d ← c_result I32 (case_int c - prev);
    largest_gap (case_int c) (Z.max maxdiff d) l
  end.

(** [use_jump_table_for_switch_case]: the range of the values, if a table is
    to be used. *)
Definition use_jump_table_for_switch_case (sorted : list switch_case) : outcome (option (Z * Z)) :=
  match sorted with
  | [] => Ok None
  | c :: rest =>
    let maxv := case_int (List.last sorted c) in
    gap ← largest_gap (case_int c) 0 rest;
    Ok (if gap <? JUMPTABLE_THRESHOLD then Some (case_int c, maxv) else None)
  end.

Section switch.
Context `{FA : FloatArith} (depth fuel : nat).
Abbreviation knot_at := (evaluator depth fuel).
Context (def : option defref).

(** Where values without a case go. *)
Definition last_label (ctx : switch_context) (next : bref) : bref := default next (default_label ctx).

(** A block that compares the value with that of a case. *)
Definition compare_case (op : optype) (c : switch_case) (value : var) : E bref :=
  comp ← cfg_block_init def;
  e ← apply_op depth fuel def comp op (sc_value c) (OperandVar value);
  _ ← put_expr comp e;
  mret comp.

(** A single case between its two neighbours needs no comparison. *)
Definition between_neighbours (sorted : list switch_case) (c : switch_case) (start fin : nat) : outcome bool :=
  if (0 <? start)%nat && (fin <? length sorted)%nat then
    p ← defined "outside of the array" (sorted !! (start - 1)%nat);
    n ← defined "outside of the array" (sorted !! fin);
    below ← c_result I32 (case_int n - 2);
    if case_int p =? below then
      _ ← c_assert (case_int p + 1 =? case_value c);
      _ ← c_assert (case_int n - 1 =? case_value c);
      Ok true
    else Ok false
  else Ok false.

(** [link_switch_case_bsearch_item] from [start] up to [fin]; [n] is fuel. *)
Fixpoint link_switch_case_bsearch_item (n : nat) (ctx : switch_context) (value : var) (next : bref)
    (start fin : nat) : E bref :=
  match n with
  | O => lift (Undef "not enough fuel")
  | S n =>
    if (fin <=? start)%nat then mret (last_label ctx next)
    else
      let count := (fin - start)%nat in
      let center := Nat.div2 (start + fin) in
      sc ← lift (defined "outside of the array" (sw_sorted ctx !! center));
      direct ← (if (count =? 1)%nat then lift (between_neighbours (sw_sorted ctx) sc start fin) else mret false);
      if direct : bool then mret (sc_label sc)
      else
        comp ← compare_case IR_OP_EQ sc value;
        _ ← put_jump comp true (sc_label sc);
        if (count =? 1)%nat then
          _ ← put_jump comp false (last_label ctx next);
          mret comp
        else if (count =? 2)%nat then
          l ← link_switch_case_bsearch_item n ctx value next start center;
          _ ← put_jump comp false l;
          mret comp
        else
          left ← cfg_block_init def;
          _ ← put_jump comp false left;
          e ← apply_op depth fuel def left IR_OP_GT (sc_value sc) (OperandVar value);
          _ ← put_expr left e;
          l ← link_switch_case_bsearch_item n ctx value next start center;
          _ ← put_jump left true l;
          r ← link_switch_case_bsearch_item n ctx value next (S center) fin;
          _ ← put_jump left false r;
          mret comp
  end.

Definition link_switch_context_bsearch (ctx : switch_context) (parent next : bref) : E unit :=
  value ← value_of depth def parent;
  let len := length (sw_sorted ctx) in
  b ← link_switch_case_bsearch_item (S len) ctx value next 0 len;
  put_jump parent false b.

(** An entry of a jump table for the block [label]. *)
Definition push_entry (jtbl : bref) (value : Z) (label : bref) : E unit :=
  x ← the_block (Some label);
  base ← (match b_label x with Some s => mret s | None => lift (Undef "null pointer") end);
  s ← on_symbols (λ st, sym_create_table_entry st base);
  change_block (Some jtbl) (add_jump_pair (JumpPair value label s)).

(** Entries without a case, from the value [v] on. *)
Fixpoint push_gap (n : nat) (jtbl last : bref) (minv v : Z) : E unit :=
  match n with
  | O => mret tt
  | S n => _ ← push_entry jtbl (v - minv) last; push_gap n jtbl last minv (v + 1)
  end.
Fixpoint push_entries (jtbl last : bref) (minv v : Z) (l : list switch_case) : E unit :=
  match l with
  | [] => mret tt
  | c :: l =>
    let value := case_int c in
    _ ← push_gap (Z.to_nat (value - v)) jtbl last minv v;
    _ ← push_entry jtbl (value - minv) (sc_label c);
    v ← lift (c_result I32 (Z.max v value + 1));
    push_entries jtbl last minv v l
  end.

(** The value counted from the least case, and the greatest of those. *)
Definition table_index (parent : bref) (value : var) (minv maxv : Z) : E (var * var) :=
  if minv =? 0 then mret (value, var_int maxv)
  else
    width ← lift (c_result I32 (maxv - minv));
    e ← (if 0 <? minv then apply_op depth fuel def parent IR_OP_SUB value (OperandVar (var_int minv))
         else m ← lift (c_result I32 (- minv)); apply_op depth fuel def parent IR_OP_ADD value (OperandVar (var_int m)));
    check ← eval depth def (Some parent) e;
    mret (check, var_int width).

Definition link_switch_context_jump_table (ctx : switch_context) (parent next : bref) (minv maxv : Z) : E unit :=
  let last := last_label ctx next in
  value ← value_of depth def parent;
  '(check, maxval) ← table_index parent value minv maxv;
  comp1 ← cfg_block_init def;
  comp2 ← cfg_block_init def;
  jtbl ← cfg_block_init def;
  _ ← put_jump parent false comp1;
  e ← apply_op depth fuel def comp1 IR_OP_GT (var_int 0) (OperandVar check);
  _ ← put_expr comp1 e;
  _ ← put_jump comp1 false comp2;
  _ ← put_jump comp1 true last;
  e ← apply_op depth fuel def comp2 IR_OP_GT check (OperandVar maxval);
  _ ← put_expr comp2 e;
  _ ← put_jump comp2 false jtbl;
  _ ← put_jump comp2 true last;
  _ ← put_expr jtbl (as_expr check);
  table ← on_symbols sym_create_table;
  v ← var_direct (Some table);
  _ ← change_block (Some jtbl) (set_table v);
  push_entries jtbl last minv minv (sw_sorted ctx).

Definition link_switch_context_bsearch_or_jump_table (ctx : switch_context) (parent next : bref) : E unit :=
  sorted ← lift (sort_cases (sw_cases ctx) []);
  let ctx := SwitchContext (default_label ctx) (sw_cases ctx) sorted in
  range ← lift (use_jump_table_for_switch_case sorted);
  match range with
  | Some (minv, maxv) => link_switch_context_jump_table ctx parent next minv maxv
  | None => link_switch_context_bsearch ctx parent next
  end.

(** Few cases are compared one after the other, behind [cond]. *)
Fixpoint link_cases (cases : list switch_case) (parent cond : bref) : E bref :=
  match cases with
  | [] => mret cond
  | c :: cases =>
    b ← cfg_block_init def;
    value ← value_of depth def parent;
    e ← apply_op depth fuel def b IR_OP_EQ (sc_value c) (OperandVar value);
    _ ← put_expr b e;
    _ ← put_jump b true (sc_label c);
    _ ← put_jump cond false b;
    link_cases cases parent b
  end.

Definition link_switch_context (ctx : switch_context) (parent next : bref) : E unit :=
  if (4 <? length (sw_cases ctx))%nat then link_switch_context_bsearch_or_jump_table ctx parent next
  else
    cond ← link_cases (sw_cases ctx) parent parent;
    put_jump cond false (last_label ctx next).

End switch.

Section statement.
Context `{FA : FloatArith} {T : Type} `{TS : TokenSource T} (depth fuel : nat) (standard : cstd) (g : grammar T).
Abbreviation G := (P T).

(** ** Conditions *)

(** The jumps of a block that decides between [no] and [yes]. *)
Definition branch (cond no yes : bref) : E unit :=
  e ← block_expr cond;
  t ← is_immediate_true depth e;
  if t : bool then put_jump cond false yes
  else
    f ← is_immediate_false depth e;
    if f : bool then put_jump cond false no
    else _ ← put_jump cond false no; put_jump cond true yes.

Definition scalar_condition (cond : bref) (msg : string) : E unit :=
  e ← block_expr cond;
  if negb (is_scalar (ex_type e)) then fail msg else mret tt.

(** [(expression)] that decides something. *)
Definition condition (def : option defref) (block : bref) (msg : string) : G bref :=
  cond ← expression_rule depth fuel standard g def block;
  _ ← ev (scalar_condition cond msg);
  mret cond.

Definition if_statement (def : option defref) (parent : bref) : G bref :=
  right ← ev (cfg_block_init def);
  next ← ev (cfg_block_init def);
  _ ← skip IF;
  _ ← skip OPEN_PAREN;
  parent ← condition def parent "If expression must have scalar type.";
  _ ← skip CLOSE_PAREN;
  _ ← ev (branch parent next right);
  right ← g_statement g def right;
  _ ← ev (put_jump right false next);
  other ← at_type ELSE;
  _ ← (if other : bool then
         _ ← skip ELSE;
         left ← ev (cfg_block_init def);
         e ← ev (block_expr parent);
         t ← ev (is_immediate_true depth e);
         _ ← (if t : bool then mret tt else ev (put_jump parent false left));
         left ← g_statement g def left;
         ev (put_jump left false next)
       else mret tt);
  mret next.

(** ** Loops *)

(** A statement inside a loop. *)
Definition in_loop {A} (brk cont : option bref) (body : G A) : G A :=
  s ← get_statics;
  _ ← change_statics (λ s, st_set_continue cont (st_set_break brk s));
  a ← body;
  _ ← change_statics (λ x, st_set_continue (continue_target s) (st_set_break (break_target s) x));
  mret a.

Definition do_statement (def : option defref) (parent : bref) : G bref :=
  top ← ev (cfg_block_init def);
  cond ← ev (cfg_block_init def);
  next ← ev (cfg_block_init def);
  in_loop (Some next) (Some cond) (
    _ ← ev (put_jump parent false top);
    _ ← skip DO;
    body ← g_statement g def top;
    _ ← ev (put_jump body false cond);
    _ ← skip WHILE;
    _ ← skip OPEN_PAREN;
    tail ← condition def cond "While expression must have scalar type.";
    _ ← skip CLOSE_PAREN;
    _ ← ev (branch tail next top);
    mret next).

Definition while_statement (def : option defref) (parent : bref) : G bref :=
  head ← ev (cfg_block_init def);
  top ← ev (cfg_block_init def);
  body ← ev (cfg_block_init def);
  next ← ev (cfg_block_init def);
  in_loop (Some next) (Some top) (
    _ ← ev (put_jump parent false head);
    _ ← ev (put_jump head false top);
    _ ← ev (change_block (Some head) (set_loop_body body));
    _ ← skip WHILE;
    _ ← skip OPEN_PAREN;
    cond ← condition def top "While expression must have scalar type.";
    _ ← skip CLOSE_PAREN;
    _ ← ev (branch cond next body);
    body ← g_statement g def body;
    _ ← ev (put_jump body false top);
    mret next).

(** The first clause of a [for]; the result says whether it opened a scope. *)
Definition for_clause (def : option defref) (parent : bref) : G (bref * bool) :=
  tok ← peek;
  typed ← starts_type_name tok;
  if typed : bool then
    _ ← ev (open_scope NS_IDENT);
    b ← declaration_rule depth fuel standard g def (Some parent);
    b ← non_null b;
    mret (b, true)
  else
    b ← (if is_tok SEMICOLON tok then mret parent else expression_rule depth fuel standard g def parent);
    _ ← skip SEMICOLON;
    mret (b, false).

(** The controlling expression; the result is the block a turn begins with. *)
Definition for_condition (def : option defref) (parent head top body next : bref) : G bref :=
  semi ← at_type SEMICOLON;
  if negb semi then
    _ ← ev (put_jump parent false head);
    _ ← ev (put_jump head false top);
    _ ← ev (change_block (Some head) (set_loop_body body));
    cond ← condition def top "Controlling expression must have scalar type.";
    _ ← ev (branch cond next body);
    mret top
  else _ ← ev (put_jump parent false body); mret body.

(** The increment and the body. *)
Definition for_body (def : option defref) (body increment top next : bref) : G unit :=
  close ← at_type CLOSE_PAREN;
  again ← (if negb close then
             b ← expression_rule depth fuel standard g def increment;
             _ ← ev (put_jump b false top);
             mret increment
           else mret top);
  _ ← skip CLOSE_PAREN;
  in_loop (Some next) (Some again) (
    body ← g_statement g def body;
    ev (put_jump body false again)).

Definition for_statement (def : option defref) (parent : bref) : G bref :=
  head ← ev (cfg_block_init def);
  top ← ev (cfg_block_init def);
  body ← ev (cfg_block_init def);
  increment ← ev (cfg_block_init def);
  next ← ev (cfg_block_init def);
  s ← get_statics;
  _ ← change_statics (st_set_break (Some next));
  _ ← skip FOR;
  _ ← skip OPEN_PAREN;
  '(parent, declared) ← for_clause def parent;
  top ← for_condition def parent head top body next;
  _ ← skip SEMICOLON;
  _ ← for_body def body increment top next;
  _ ← change_statics (st_set_break (break_target s));
  _ ← (if declared : bool then ev (close_scope NS_IDENT) else mret tt);
  mret next.

(** ** Switch *)

Definition add_switch_case (label : bref) (value : var) : G unit :=
  change_statics (λ s, st_set_switch
    (match current_switch s with
     | Some c => Some (SwitchContext (default_label c) (sw_cases c ++ [SwitchCase label value]) (sw_sorted c))
     | None => None
     end) s).
Definition set_default (label : bref) : G unit :=
  change_statics (λ s, st_set_switch
    (match current_switch s with
     | Some c => Some (SwitchContext (Some label) (sw_cases c) (sw_sorted c))
     | None => None
     end) s).

Definition switch_statement (def : option defref) (parent : bref) : G bref :=
  body ← ev (cfg_block_init def);
  next ← ev (cfg_block_init def);
  s ← get_statics;
  _ ← change_statics (λ s, st_set_switch (Some (SwitchContext None [] [])) (st_set_break (Some next) s));
  _ ← skip SWITCH;
  _ ← skip OPEN_PAREN;
  parent ← expression_rule depth fuel standard g def parent;
  e ← ev (block_expr parent);
  if negb (is_integer (ex_type e)) then stop "Switch expression must have integer type."
  else
    _ ← skip CLOSE_PAREN;
    last ← g_statement g def body;
    _ ← ev (put_jump last false next);
    s' ← get_statics;
    ctx ← non_null (current_switch s');
    _ ← ev (match sw_cases ctx, default_label ctx with
            | [], None => put_jump parent false next
            | _, _ => link_switch_context depth fuel def ctx parent next
            end);
    _ ← change_statics (λ x, st_set_switch (current_switch s) (st_set_break (break_target s) x));
    mret next.

(** ** Jumps and labels *)

(** The block of a label, made when it is first named. *)
Definition label_block (def : option defref) (sym : symref) : E bref :=
  y ← the_symbol (Some sym);
  b ← lift (label_value y);
  match b with
  | Some b => mret b
  | None =>
    b ← cfg_block_init def;
    _ ← change_symbol sym (with_value (LabelValue b));
    mret b
  end.

Definition goto_statement (def : option defref) (parent : bref) : G bref :=
  _ ← skip GOTO;
  tok ← consume IDENTIFIER;
  name ← name_of tok;
  sym ← ev (add_symbol depth NS_LABEL name basic_type__void SYM_TENTATIVE LINK_INTERN DECL_NORMAL);
  b ← ev (label_block def sym);
  _ ← ev (put_jump parent false b);
  orphan ← ev (cfg_block_init def);
  _ ← skip SEMICOLON;
  mret orphan.

Definition leave_loop (def : option defref) (parent : bref) (target : statics → option bref) : G bref :=
  _ ← next;
  s ← get_statics;
  _ ← ev (change_block (Some parent) (set_jump0 (target s)));
  _ ← skip SEMICOLON;
  ev (cfg_block_init def).

Definition return_statement (def : option defref) (parent : bref) : G bref :=
  _ ← skip RETURN;
  d ← ev (the_def def);
  f ← ev (the_symbol (d_symbol d));
  t ← ev (next_type (sym_type f));
  _ ← (if negb (is_void t) then
         parent ← expression_rule depth fuel standard g def parent;
         dr ← non_null def;
         e ← ev (eval_return depth (evaluator depth fuel) dr parent);
         ev (put_expr parent e)
       else mret tt);
  _ ← skip SEMICOLON;
  ev (cfg_block_init def).

(** A block that the one before continues with. *)
Definition labeled_statement (def : option defref) (parent label : bref) : G bref :=
  _ ← ev (put_jump parent false label);
  g_statement g def label.

Definition case_statement (def : option defref) (parent : bref) : G bref :=
  _ ← skip CASE;
  s ← get_statics;
  match current_switch s with
  | None => _ ← report_error; mret parent
  | Some _ =>
    next ← ev (cfg_block_init def);
    v ← constant_expression depth fuel standard g;
    _ ← skip COLON;
    _ ← add_switch_case next v;
    labeled_statement def parent next
  end.

Definition default_statement (def : option defref) (parent : bref) : G bref :=
  _ ← skip DEFAULT;
  _ ← skip COLON;
  s ← get_statics;
  match current_switch s with
  | None => _ ← report_error; mret parent
  | Some c =>
    match default_label c with
    | Some _ => _ ← report_error; mret parent
    | None =>
      next ← ev (cfg_block_init def);
      _ ← ev (put_jump parent false next);
      _ ← set_default next;
      g_statement g def next
    end
  end.

(** [name : statement]. *)
Definition label_definition (def : option defref) (parent : bref) (tok : token) : G bref :=
  _ ← skip IDENTIFIER;
  name ← name_of tok;
  sym ← ev (lookup_symbol NS_LABEL name);
  defined ← (match sym with
             | Some s => y ← ev (the_symbol (Some s)); mret (bool_decide (sym_symtype y = SYM_DEFINITION))
             | None => mret false
             end);
  parent ← (if defined : bool then _ ← report_error; mret parent
            else
              sym ← ev (add_symbol depth NS_LABEL name basic_type__void SYM_DEFINITION LINK_INTERN DECL_NORMAL);
              y ← ev (the_symbol (Some sym));
              l ← ev (lift (label_value y));
              _ ← ensure (bool_decide (l ≠ None) || (sym_referenced y =? 0));
              b ← ev (label_block def sym);
              _ ← ev (put_jump parent false b);
              mret b);
  _ ← skip COLON;
  g_statement g def parent.

(** ** Statements *)

Definition expression_statement (def : option defref) (parent : bref) : G bref :=
  parent ← expression_rule depth fuel standard g def parent;
  e ← ev (block_expr parent);
  e ← ev (eval_expression_statement def (Some parent) e);
  _ ← ev (put_expr parent e);
  _ ← skip SEMICOLON;
  mret parent.
Definition declaration_statement (def : option defref) (parent : bref) : G bref :=
  b ← declaration_rule depth fuel standard g def (Some parent); non_null b.

(** A statement that begins with an identifier. *)
Definition identifier_statement (def : option defref) (parent : bref) (tok : token) : G bref :=
  t2 ← peek2_type;
  if bool_decide (t2 = COLON) then label_definition def parent tok
  else
    name ← name_of tok;
    tag ← ev (get_typedef name);
    match tag with
    | Some _ => declaration_statement def parent
    | None => expression_statement def parent
    end.

Definition statement_rule (def : option defref) (parent : bref) : G bref :=
  tok ← peek;
  match tk_token tok with
  | SEMICOLON => _ ← skip SEMICOLON; mret parent
  | OPEN_CURLY => g_block g def parent
  | IF => if_statement def parent
  | DO => b ← do_statement def parent; _ ← skip SEMICOLON; mret b
  | WHILE => while_statement def parent
  | FOR => for_statement def parent
  | GOTO => goto_statement def parent
  | CONTINUE => leave_loop def parent continue_target
  | BREAK => leave_loop def parent break_target
  | RETURN => return_statement def parent
  | SWITCH => switch_statement def parent
  | CASE => case_statement def parent
  | DEFAULT => default_statement def parent
  | IDENTIFIER => identifier_statement def parent tok
  | NUMBER | STRING | STAR | OPEN_PAREN | INCREMENT | DECREMENT => expression_statement def parent
  | _ => declaration_statement def parent
  end.

Fixpoint statements (n : nat) (def : option defref) (parent : bref) : G bref :=
  match n with
  | O => stuck
  | S n =>
    close ← at_type CLOSE_CURLY;
    if close : bool then mret parent
    else parent ← g_statement g def parent; statements n def parent
  end.
Definition block_rule (def : option defref) (parent : bref) : G bref :=
  _ ← skip OPEN_CURLY;
  _ ← ev (open_scope NS_IDENT);
  _ ← ev (open_scope NS_TAG);
  parent ← statements fuel def parent;
  _ ← skip CLOSE_CURLY;
  _ ← ev (close_scope NS_TAG);
  _ ← ev (close_scope NS_IDENT);
  mret parent.

End statement.
