(* ===== verification/Grammar.v ===== *)
(** * The grammar as a whole (src/parser/parse.c)

    The rules tied together, and the loop that hands one definition after the
    other to the back end. *)

From stdpp Require Import base list gmap numbers strings.
From Stdlib Require Import ZArith Lia.
From S2P Require Import Prelude Token Macro CType Floats Strings Symbol Typetree Symtab Immediate Ir Cfg Eval Assign Parser Expression Initializer Declaration Statement.

Local Open Scope Z_scope.

Section grammar.
Context `{FA : FloatArith} {T : Type} `{TS : TokenSource T} (depth fuel : nat) (standard : cstd).
Abbreviation G := (P T).

(** The rules with those that they call. *)
Definition rules (g : grammar T) : grammar T :=
  Grammar (cast_expression depth fuel standard g) (unary_expression depth fuel standard g)
    (logical_and_expression depth fuel standard g) (logical_or_expression depth fuel standard g)
    (conditional_expression depth fuel standard g) (assignment_expression depth fuel standard g)
    (expression_rule depth fuel standard g) (initializer depth fuel standard g)
    (initialize_member depth fuel standard g) (initialize_object depth fuel standard g)
    (declaration_specifiers depth fuel standard g) (array_declarator depth fuel standard g)
    (parameter_declarator depth fuel standard g) (declaration_rule depth fuel standard g)
    (statement_rule depth fuel standard g) (block_rule fuel g).

(** [n] bounds the rules inside each other. *)
Fixpoint grammar_of (n : nat) : grammar T :=
  match n with O => stuck_grammar | S n => rules (grammar_of n) end.

Context (nesting : nat).
Definition declaration (def : option defref) (parent : option bref) : G (option bref) :=
  declaration_rule depth fuel standard (grammar_of nesting) def parent.

(** ** Definitions *)

Definition no_definition : G bool := λ s, Ok (s, bool_decide (ps_definitions (fr_parser s) = [])).

(** Declarations until one of them is a definition. *)
Fixpoint parse_declarations (n : nat) : G unit :=
  match n with
  | O => stuck
  | S n =>
    none ← no_definition;
    last ← (if none : bool then at_type END else mret true);
    if last : bool then mret tt else _ ← declaration None None; parse_declarations n
  end.

(** The first definition of the queue. *)
Definition pop_definition : E (option defref) := λ p,
  match ps_definitions p with
  | [] => Ok (p, None)
  | d :: l => Ok (ps_set_definitions l p, Some d)
  end.

Definition recycle_expressions : E unit := λ p,
  (_ ← each recycle_block (ps_expressions p); update (ps_set_expressions [])) p.

Definition parse : G (option defref) :=
  s ← get_statics;
  _ ← (match parsed s with Some d => ev (cfg_discard d) | None => mret tt end);
  _ ← parse_declarations fuel;
  d ← ev pop_definition;
  _ ← (match d with
       | None => last ← at_type END; _ ← ensure last; ev recycle_expressions
       | Some _ => mret tt
       end);
  _ ← change_statics (st_set_parsed d);
  mret d.

(** ** The end *)

Definition ps_set_blocks (b : blocks) (p : parser) : parser :=
  Cfg.Parser (ps_tab p) (ps_defs p) b (ps_free p) (ps_expressions p) (ps_prototypes p) (ps_definitions p).
Definition ps_set_defs (d : gmap defref definition) (p : parser) : parser :=
  Cfg.Parser (ps_tab p) d (ps_blocks p) (ps_free p) (ps_expressions p) (ps_prototypes p) (ps_definitions p).
Definition free_block (b : bref) : E unit :=
  _ ← the_block (Some b); update (λ p, ps_set_blocks (delete b (ps_blocks p)) p).
Definition free_definition (d : defref) : E unit :=
  _ ← cfg_empty d; update (λ p, ps_set_defs (delete d (ps_defs p)) p).

Definition parse_finalize : G unit :=
  _ ← ev (λ p, each free_block (ps_expressions p) p);
  _ ← ev (λ p, each free_definition (ps_prototypes p) p);
  _ ← ev (λ p, each free_block (ps_free p) p);
  _ ← ev (update (λ p, ps_set_definitions [] (ps_set_free [] (ps_set_prototypes [] (ps_set_expressions [] p)))));
  _ ← initializer_finalize;
  _ ← clear_argument_lists;
  ev (on_scopes symtab_finalize).

End grammar.
