(* ===== verification/Syntax.v ===== *)
(** * Expressions as trees (src/parser/expression.c)

    The expressions of C that stand for themselves, with their tokens and their
    precedence, and the calls of the evaluator that belong to each operator.
    Left out are calls, compound literals, [_Alignof] and [sizeof] of a type. *)

From stdpp Require Import base list gmap numbers strings.
From Stdlib Require Import ZArith Lia.
From S2P Require Import Prelude Token Macro CType CArith Floats Strings Symbol Typetree Symtab Immediate Ir Cfg Eval Assign Parser Expression Declaration.

Local Open Scope Z_scope.

(** ** Trees *)

(** Every node has its tokens.  A chain is a primary expression with what
    follows it. *)
Inductive expr : Set :=
  | Post (c : chain)
  | Prefix (t : token) (e : expr)
  | Step (t : token) (e : expr)
  | Sizeof (t : token) (e : expr)
  | Cast (o : token) (ws : list token) (c : token) (e : expr)
  | Infix (l : expr) (t : token) (r : expr)
  | Logic (l : expr) (t : token) (r : expr)
  | Cond (c : expr) (q : token) (a : expr) (k : token) (b : expr)
  | Assignment (l : expr) (t : token) (r : expr)
  | Comma (l : expr) (t : token) (r : expr)
with chain : Set :=
  | Name (t : token)
  | Number (t : token)
  | Literal (t : token)
  | Paren (o : token) (e : expr) (c : token)
  | Index (a : chain) (o : token) (e : expr) (c : token)
  | Dot (a : chain) (t n : token)
  | Arrow (a : chain) (t n : token)
  | PostStep (a : chain) (t : token).

Fixpoint tokens (e : expr) : list token :=
  match e with
  | Post c => chain_tokens c
  | Prefix t e | Step t e | Sizeof t e => t :: tokens e
  | Cast o ws c e => o :: ws ++ c :: tokens e
  | Infix l t r | Logic l t r | Assignment l t r | Comma l t r => tokens l ++ t :: tokens r
  | Cond c q a k b => tokens c ++ q :: tokens a ++ k :: tokens b
  end
with chain_tokens (c : chain) : list token :=
  match c with
  | Name t | Number t | Literal t => [t]
  | Paren o e c => o :: tokens e ++ [c]
  | Index a o e c => chain_tokens a ++ o :: tokens e ++ [c]
  | Dot a t n | Arrow a t n => chain_tokens a ++ [t; n]
  | PostStep a t => chain_tokens a ++ [t]
  end.

(** ** Precedence *)

(** 0 postfix, 1 unary, 2 cast, 3 to 10 binary from [*] to [|], 11 [&&],
    12 [||], 13 conditional, 14 assignment, 15 comma. *)
Definition infix (t : token_type) : option (nat * (bool * optype)) :=
  match t with
  | STAR => Some (3%nat, (false, IR_OP_MUL))
  | SLASH => Some (3%nat, (false, IR_OP_DIV))
  | MODULO => Some (3%nat, (false, IR_OP_MOD))
  | PLUS => Some (4%nat, (false, IR_OP_ADD))
  | MINUS => Some (4%nat, (false, IR_OP_SUB))
  | LSHIFT => Some (5%nat, (false, IR_OP_SHL))
  | RSHIFT => Some (5%nat, (false, IR_OP_SHR))
  | LT => Some (6%nat, (true, IR_OP_GT))
  | GT => Some (6%nat, (false, IR_OP_GT))
  | LEQ => Some (6%nat, (true, IR_OP_GE))
  | GEQ => Some (6%nat, (false, IR_OP_GE))
  | EQ => Some (7%nat, (false, IR_OP_EQ))
  | NEQ => Some (7%nat, (false, IR_OP_NE))
  | AND => Some (8%nat, (false, IR_OP_AND))
  | XOR => Some (9%nat, (false, IR_OP_XOR))
  | OR => Some (10%nat, (false, IR_OP_OR))
  | _ => None
  end.

Definition level_of (e : expr) : nat :=
  match e with
  | Post _ => 0
  | Prefix _ _ | Step _ _ | Sizeof _ _ => 1
  | Cast _ _ _ _ => 2
  | Infix _ t _ => match infix (tk_token t) with Some (k, _) => k | None => 3 end
  | Logic _ t _ => if bool_decide (tk_token t = LOGICAL_AND) then 11 else 12
  | Cond _ _ _ _ _ => 13
  | Assignment _ _ _ => 14
  | Comma _ _ _ => 15
  end%nat.

Definition is_prefix (t : token_type) : bool :=
  match t with AND | STAR | NOT | NEG | PLUS | MINUS => true | _ => false end.
Definition is_step (t : token_type) : bool := match t with INCREMENT | DECREMENT => true | _ => false end.

(** The words of a type, from left to right. *)
Definition word (t : token_type) (s : spec_state) : option spec_state :=
  let base := has_base s in
  let any := has_base s || has_modifier s || has_sign s in
  let set b := ss_set_base (ss_type s) b s in
  match t with
  | VOID => if any then None else Some (set B_VOID)
  | BOOL => if any then None else Some (set B_BOOL)
  | CHAR => if base || has_modifier s then None else Some (set B_CHAR)
  | SHORT => if takes_short s then Some (ss_set_modifier M_SHORT s) else None
  | INT => if base then None else Some (set B_INT)
  | LONG =>
    if takes_long s then
      Some (ss_set_modifier (if bool_decide (ss_modifier s = M_LONG) then M_LONG_LONG else M_LONG) s)
    else None
  | SIGNED => if has_sign s then None else Some (ss_set_sign S_SIGNED s)
  | UNSIGNED => if has_sign s then None else Some (ss_set_sign S_UNSIGNED s)
  | FLOAT => if any then None else Some (set B_FLOAT)
  | DOUBLE => if takes_double s then Some (set B_DOUBLE) else None
  | CONST => Some (ss_set_quals true (ss_volatile s) s)
  | VOLATILE => Some (ss_set_quals (ss_const s) true s)
  | _ => None
  end.
Fixpoint words (l : list token) (s : spec_state) : option spec_state :=
  match l with [] => Some s | t :: l => s ← word (tk_token t) s; words l s end.
Definition words_type (l : list token) : option ctype :=
  s ← words l spec_start; Some (sp_type (finish_specifiers s)).

(** The tokens are those of the construct, and the operands bind at least as
    tightly as the grammar wants. *)
Fixpoint good (e : expr) : Prop :=
  match e with
  | Post c => good_chain c
  | Prefix t e => is_prefix (tk_token t) = true ∧ good e ∧ (level_of e ≤ 2)%nat
  | Step t e => is_step (tk_token t) = true ∧ good e ∧ (level_of e ≤ 1)%nat
  | Sizeof t e => tk_token t = SIZEOF ∧ good e ∧ (level_of e ≤ 1)%nat
  | Cast o ws c e =>
    tk_token o = OPEN_PAREN ∧ ws ≠ [] ∧ is_Some (words_type ws) ∧ tk_token c = CLOSE_PAREN ∧ good e ∧ (level_of e ≤ 2)%nat
  | Infix l t r => ∃ k o, infix (tk_token t) = Some (k, o) ∧ good l ∧ (level_of l ≤ k)%nat ∧ good r ∧ (level_of r < k)%nat
  | Logic l t r =>
    (tk_token t = LOGICAL_AND ∧ (level_of l ≤ 10)%nat ∧ (level_of r ≤ 11)%nat ∨
     tk_token t = LOGICAL_OR ∧ (level_of l ≤ 11)%nat ∧ (level_of r ≤ 12)%nat) ∧ good l ∧ good r
  | Cond c q a k b =>
    tk_token q = QUESTION ∧ tk_token k = COLON ∧ good c ∧ (level_of c ≤ 12)%nat ∧ good a ∧ good b ∧ (level_of b ≤ 13)%nat
  | Assignment l t r =>
    is_Some (assignment_op (tk_token t)) ∧ good l ∧ (level_of l ≤ 13)%nat ∧ good r ∧ (level_of r ≤ 14)%nat
  | Comma l t r => tk_token t = COMMA ∧ good l ∧ good r ∧ (level_of r ≤ 14)%nat
  end
with good_chain (c : chain) : Prop :=
  match c with
  | Name t => tk_token t = IDENTIFIER
  | Number t => tk_token t = NUMBER
  | Literal t => tk_token t = STRING
  | Paren o e c => tk_token o = OPEN_PAREN ∧ good e ∧ tk_token c = CLOSE_PAREN
  | Index a o e c => good_chain a ∧ tk_token o = OPEN_BRACKET ∧ good e ∧ tk_token c = CLOSE_BRACKET
  | Dot a t n => good_chain a ∧ tk_token t = DOT ∧ tk_token n = IDENTIFIER
  | Arrow a t n => good_chain a ∧ tk_token t = ARROW ∧ tk_token n = IDENTIFIER
  | PostStep a t => good_chain a ∧ is_step (tk_token t) = true
  end.

(** ** Translation *)

Section translation.
Context `{FA : FloatArith} (depth fuel : nat).
Abbreviation knot_at := (evaluator depth fuel).

(** What is not covered: builtin functions, and names of types as
    expressions. *)
Definition uncovered {A} : E A := lift (Undef "not an expression of this file").

(** Behind a parenthesis the parser looks a name up to see whether it is a
    type. *)
Definition not_a_type (t : token) : E unit :=
  if bool_decide (tk_token t = IDENTIFIER) then
    name ← lift (tok_string t);
    t ← get_typedef name;
    match t with Some _ => uncovered | None => mret tt end
  else mret tt.
Definition enter (e : expr) : E unit :=
  if (level_of e <=? 1)%nat then
    match tokens e with
    | o :: t :: _ => if is_tok OPEN_PAREN o then not_a_type t else mret tt
    | _ => mret tt
    end
  else mret tt.

Definition variable (t : token) (block : bref) : E unit :=
  name ← lift (tok_string t);
  sym ← find_symbol name;
  y ← the_symbol (Some sym);
  if is_named y (cstr "__builtin_va_start") || is_named y (cstr "__builtin_va_arg")
     || is_named y (cstr "__builtin_alloca") then uncovered
  else v ← Eval.var_direct (Some sym); put_var block v.
Definition number (t : token) (block : bref) : E unit :=
  u ← lift (tok_val t);
  let e := Eval.as_expr (var_numeric (tk_type t) u) in
  _ ← put_expr block e;
  i ← identity depth e;
  assert i.
Definition literal (t : token) (block : bref) : E unit :=
  str ← lift (tok_string t);
  sym ← on_symbols (λ s, sym_create_string depth s str);
  v ← Eval.var_direct (Some sym);
  _ ← put_var block v;
  i ← identity depth (Eval.as_expr v);
  _ ← assert i;
  assert (bool_decide (v_kind v = IMMEDIATE)).

(** [value] is what stands in front of the bracket. *)
Definition element (def : option defref) (block : bref) (value : var) : E (bref * expression) :=
  w ← value_of depth def block;
  e ← apply_op depth fuel def block IR_OP_ADD value (OperandVar w);
  _ ← put_expr block e;
  v ← value_of depth def block;
  v ← eval_deref depth knot_at def (Some block) v;
  _ ← put_var block v;
  mret (block, Eval.as_expr v).
Definition member (def : option defref) (block : bref) (root : expression) (n : token) : E (bref * expression) :=
  name ← lift (tok_string n);
  m ← named_member (ex_type root) name;
  value ← Eval.eval depth def (Some block) root;
  let v := member_of value m in
  _ ← put_var block v;
  mret (block, Eval.as_expr v).
Definition pointed_member (def : option defref) (block : bref) (root : expression) (n : token) : E (bref * expression) :=
  value ← Eval.eval depth def (Some block) root;
  value ← eval_deref depth knot_at def (Some block) value;
  if is_struct_or_union (v_type value) then
    name ← lift (tok_string n);
    m ← named_member (v_type value) name;
    let v := member_of value m in
    _ ← put_var block v;
    mret (block, Eval.as_expr v)
  else fail "Invalid member access.".

Definition prefix_action (t : token_type) (def : option defref) (b : bref) : E unit :=
  match t with
  | AND => value ← value_of depth def b; v ← eval_addr depth knot_at def (Some b) value; put_var b v
  | STAR => value ← value_of depth def b; v ← eval_deref depth knot_at def (Some b) value; put_var b v
  | NOT => logical_not depth fuel def b
  | NEG => value ← value_of depth def b; e ← apply_op depth fuel def b IR_OP_NOT value NoOperand; put_expr b e
  | PLUS => value ← value_of depth def b; e ← eval_unary_plus depth value; put_expr b e
  | MINUS => value ← value_of depth def b; e ← apply_op depth fuel def b IR_OP_NEG value NoOperand; put_expr b e
  | _ => uncovered
  end.
Definition step_op (t : token_type) : optype := match t with INCREMENT => IR_OP_ADD | _ => IR_OP_SUB end.

(** A conditional with the translations of its arms. *)
Definition constant_arms (def : option defref) (a b : bref → E bref) (block : bref) : E bref :=
  e ← block_expr block;
  yes ← is_immediate_true depth e;
  '(block, larm, rarm) ←
    (if yes : bool then
       block ← a block;
       right ← cfg_block_init def;
       right ← b right;
       mret (block, block, right)
     else
       no ← is_immediate_false depth e;
       _ ← assert no;
       left ← cfg_block_init def;
       left ← a left;
       block ← b block;
       mret (block, left, block));
  t ← eval_conditional depth knot_at def larm rarm;
  if is_void t then _ ← put_var block Eval.var_void; mret block
  else _ ← convert_value depth fuel def block t; mret block.
Definition branching_arms (def : option defref) (a b : bref → E bref) (block : bref) : E bref :=
  left ← cfg_block_init def;
  right ← cfg_block_init def;
  _ ← put_jump block false right;
  _ ← put_jump block true left;
  block ← cfg_block_init def;
  left ← a left;
  _ ← put_jump left false block;
  right ← b right;
  _ ← put_jump right false block;
  t ← eval_conditional depth knot_at def left right;
  if is_void t then _ ← put_var block Eval.var_void; mret block
  else
    temp ← create_var def t;
    _ ← assign_arm depth fuel def left temp;
    _ ← assign_arm depth fuel def right temp;
    _ ← put_var block temp;
    mret block.
Definition conditional (def : option defref) (a b : bref → E bref) (block : bref) : E bref :=
  e ← block_expr block;
  if negb (is_scalar (ex_type e)) then fail "Conditional must be of scalar type."
  else
    i ← is_immediate depth e;
    if i : bool then constant_arms def a b block else branching_arms def a b block.

(** The evaluation of the tree: from the left to the right, an operator
    behind its operands; the value is left in the block that is returned. *)
Fixpoint translate (e : expr) (def : option defref) (block : bref) : E bref :=
  match e with
  | Post c => '(block, root) ← walk c def block; _ ← put_expr block root; mret block
  | Prefix t e =>
    _ ← enter e; block ← translate e def block;
    _ ← prefix_action (tk_token t) def block; mret block
  | Step t e =>
    block ← translate e def block;
    _ ← pre_step depth fuel def block (step_op (tk_token t)); mret block
  | Sizeof t e =>
    '(block, t) ← (_ ← enter e;
                   head ← cfg_block_init def;
                   tail ← translate e def head;
                   x ← block_expr tail;
                   mret (block, ex_type x));
    s ← size_expression depth fuel def block t;
    _ ← put_expr block s;
    mret block
  | Cast _ ws _ e =>
    _ ← enter e; block ← translate e def block;
    _ ← convert_value depth fuel def block (default type_zero (words_type ws)); mret block
  | Infix l t r =>
    match infix (tk_token t) with
    | Some (_, (swap, op)) =>
      _ ← enter l; block ← translate l def block;
      value ← value_of depth def block;
      _ ← enter r; block ← translate r def block;
      w ← value_of depth def block;
      x ← apply_op depth fuel def block op (if swap : bool then w else value) (OperandVar (if swap : bool then value else w));
      _ ← put_expr block x;
      mret block
    | None => uncovered
    end
  | Logic l t r =>
    _ ← enter l; block ← translate l def block;
    right ← cfg_block_init def;
    _ ← enter r; bottom ← translate r def right;
    if bool_decide (tk_token t = LOGICAL_AND) then eval_logical_and depth knot_at def block right bottom
    else eval_logical_or depth knot_at def block right bottom
  | Cond c _ a _ b =>
    _ ← enter c; block ← translate c def block;
    conditional def (λ x, _ ← enter a; translate a def x) (λ x, _ ← enter b; translate b def x) block
  | Assignment l t r =>
    _ ← enter l; block ← translate l def block;
    match assignment_op (tk_token t) with
    | Some op =>
      target ← value_of depth def block;
      _ ← enter r; block ← translate r def block;
      _ ← assign_value depth fuel def block op target;
      mret block
    | None => uncovered
    end
  | Comma l _ r =>
    _ ← enter l; block ← translate l def block;
    x ← block_expr block;
    _ ← (if has_side_effects x then _ ← Eval.eval depth def (Some block) x; mret tt else mret tt);
    _ ← enter r; translate r def block
  end
with walk (c : chain) (def : option defref) (block : bref) : E (bref * expression) :=
  match c with
  | Name t => _ ← variable t block; root ← block_expr block; mret (block, root)
  | Number t => _ ← number t block; root ← block_expr block; mret (block, root)
  | Literal t => _ ← literal t block; root ← block_expr block; mret (block, root)
  | Paren _ e _ =>
    _ ← enter e; block ← translate e def block; root ← block_expr block; mret (block, root)
  | Index a _ e _ =>
    '(block, _) ← walk a def block;
    value ← value_of depth def block;
    _ ← enter e; block ← translate e def block;
    element def block value
  | Dot a _ n => '(block, root) ← walk a def block; member def block root n
  | Arrow a _ n => '(block, root) ← walk a def block; pointed_member def block root n
  | PostStep a t => '(block, root) ← walk a def block; post_step depth fuel def block root (step_op (tk_token t))
  end.
End translation.
