(* ===== verification/ParseProps.v ===== *)
(** * Rules and what they read

    [parses R R' m m'] says of a computation of the grammar that it takes the
    tokens [R] up to [R'] and changes the state of the parser as the
    computation [m'] of the evaluator does, which it fails with. *)

From stdpp Require Import base list gmap numbers strings.
From Stdlib Require Import ZArith Lia.
From S2P Require Import Prelude Token Macro CType CArith Floats Strings Symbol Typetree Symtab Immediate Ir Cfg Eval Assign EvalProps Parser.
From S2P Require Import Expression Initializer Declaration Statement Grammar Syntax.

Local Open Scope Z_scope.

(** ** Rules as computations *)

Section parses.
Context {T : Type} `{TS : TokensServed T}.

Definition parses {A} (R R' : list token) (m : P T A) (m' : E A) : Prop :=
  ∀ s p st, serves s R →
    match m' p with
    | Ok (p', a) => ∃ s', m (Front s p st) = Ok (Front s' p' st, a) ∧ serves s' R'
    | Exit x => m (Front s p st) = Exit x
    | Undef _ => True
    end.

(** A computation that only takes or looks at tokens. *)
Definition passes {A} (R R' : list token) (m : P T A) (a : A) : Prop := parses R R' m (mret a).

Lemma parses_ret {A} R (a : A) : parses R R (mret a) (mret a).
Proof. intros s p st Hs. by exists s. Qed.

Lemma parses_ev {A} R (m : E A) : parses R R (ev m) m.
Proof.
  intros s p st Hs. unfold ev. cbn [fr_parser fr_source fr_statics].
  destruct (m p) as [[p' a]| |]; cbn; [by exists s|done|done].
Qed.

Lemma parses_fail {A} R R' msg : parses (A := A) R R' (stop msg) (fail msg).
Proof. intros s p st Hs. done. Qed.

Lemma parses_bind {A B} R R1 R2 (m : P T A) (f : A → P T B) (m' : E A) (f' : A → E B) :
  parses R R1 m m' → (∀ a, parses R1 R2 (f a) (f' a)) → parses R R2 (m ≫= f) (m' ≫= f').
Proof.
  intros Hm Hf s p st Hs. specialize (Hm s p st Hs). unfold mbind, P_bind, E_bind.
  destruct (m' p) as [[p1 a]| |]; cbn.
  - destruct Hm as (s1 & -> & Hs1). cbn. apply (Hf a s1 p1 st Hs1).
  - by rewrite Hm.
  - done.
Qed.

Lemma parses_ext {A} R R' (m n : P T A) (m' n' : E A) :
  (∀ s, m s = n s) → (∀ p, m' p = n' p) → parses R R' n n' → parses R R' m m'.
Proof. intros Hm Hm' Hr s p st Hs. rewrite Hm, Hm'. by apply Hr. Qed.

Lemma parses_as {A} R R' (m : P T A) (m' n' : E A) : parses R R' m n' → (∀ p, m' p = n' p) → parses R R' m m'.
Proof. intros Hm Hm'. by apply (parses_ext R R' m m m' n'). Qed.

Lemma parses_assoc {A B C} R R' (m : P T A) (f : A → P T B) (g : B → P T C) (m' : E C) :
  parses R R' (m ≫= λ a, f a ≫= g) m' → parses R R' ((m ≫= f) ≫= g) m'.
Proof.
  apply parses_ext; [|done]. intros s. unfold mbind, P_bind. by destruct (m s) as [[s' a]| |].
Qed.
Lemma parses_assoc' {A B C} R R' (m : P T C) (m' : E A) (f : A → E B) (g : B → E C) :
  parses R R' m (m' ≫= λ a, f a ≫= g) → parses R R' m ((m' ≫= f) ≫= g).
Proof.
  apply parses_ext; [done|]. intros p. unfold mbind, E_bind. by destruct (m' p) as [[p' a]| |].
Qed.

Lemma parses_group {A B C} R R' (m : P T C) (m' : E A) (f : A → E B) (h : B → E C) :
  parses R R' m ((m' ≫= f) ≫= h) → parses R R' m (m' ≫= λ a, f a ≫= h).
Proof.
  apply parses_ext; [done|]. intros p. unfold mbind, E_bind. by destruct (m' p) as [[p' a]| |].
Qed.

Lemma parses_ret_bind {A B} R R' (m : P T B) (a : A) (f : A → E B) : parses R R' m (f a) → parses R R' m (mret a ≫= f).
Proof. apply parses_ext; done. Qed.

(** A look behind a computation. *)
Lemma parses_then {A} R R1 R2 (m : P T A) (f : A → P T A) (m' : E A) :
  parses R R1 m m' → (∀ a, parses R1 R2 (f a) (mret a)) → parses R R2 (m ≫= f) m'.
Proof.
  intros Hm Hf s p st Hs. specialize (Hm s p st Hs). unfold mbind, P_bind. destruct (m' p) as [[p1 a]| |].
  - destruct Hm as (s1 & -> & Hs1). cbn. apply (Hf a s1 p1 st Hs1).
  - by rewrite Hm.
  - done.
Qed.

(** A step that the evaluator does not see, and one that only it does. *)
Lemma passes_bind {A B} R R1 R2 (m : P T A) a (f : A → P T B) (m' : E B) :
  passes R R1 m a → parses R1 R2 (f a) m' → parses R R2 (m ≫= f) m'.
Proof.
  intros Hm Hf s p st Hs. destruct (Hm s p st Hs) as (s1 & Hm1 & Hs1). unfold mbind, P_bind. rewrite Hm1.
  apply (Hf s1 p st Hs1).
Qed.
(** The result is known. *)
Lemma parses_known {A B C} R R1 R2 (m : P T A) (f : A → P T B) (m0 : E C) a (m' : E B) :
  parses R R1 m (_ ← m0; mret a) → parses R1 R2 (f a) m' → parses R R2 (m ≫= f) (_ ← m0; m').
Proof.
  intros Hm Hf s p st Hs. specialize (Hm s p st Hs). unfold mbind, P_bind, E_bind in *. destruct (m0 p) as [[p1 c]| |]; cbn in *.
  - destruct Hm as (s1 & -> & Hs1). apply (Hf s1 p1 st Hs1).
  - by rewrite Hm.
  - done.
Qed.
Lemma parses_ev_bind {A B} R R' (m : E A) (f : A → P T B) (f' : A → E B) :
  (∀ a, parses R R' (f a) (f' a)) → parses R R' (ev m ≫= f) (m ≫= f').
Proof. apply parses_bind, parses_ev. Qed.
Lemma parses_undef {A} R R' (m : P T A) why : parses R R' m (lift (Undef why)).
Proof. intros s p st _. exact I. Qed.
Lemma parses_undef_bind {A B} R R' (m : P T A) why (f : B → E A) : parses R R' m (lift (Undef why) ≫= f).
Proof. intros s p st _. exact I. Qed.

(** *** Tokens *)

Lemma passes_next t R : passes (t :: R) R next t.
Proof.
  intros s p st Hs. destruct (next_served s t R Hs) as (s' & He & Hs'). exists s'. split; [|done].
  unfold next. cbn [fr_source fr_parser fr_statics]. by rewrite He.
Qed.
Lemma passes_peekn R n t : R !! n = Some t → passes R R (peekn (S n)) t.
Proof.
  intros Hn s p st Hs. destruct (peekn_served s R n t Hs Hn) as (s' & He & Hs'). exists s'. split; [|done].
  unfold peekn. cbn [fr_source fr_parser fr_statics]. by rewrite He.
Qed.
Lemma passes_peek t R : passes (t :: R) (t :: R) peek t.
Proof. by apply passes_peekn. Qed.
Lemma passes_ret {A} R (a : A) : passes R R (mret a) a.
Proof. apply parses_ret. Qed.
Lemma passes_peek_type t R : passes (t :: R) (t :: R) peek_type (tk_token t).
Proof. eapply passes_bind; [apply passes_peek|apply passes_ret]. Qed.
Lemma passes_peek2_type t u R : passes (t :: u :: R) (t :: u :: R) peek2_type (tk_token u).
Proof. eapply passes_bind; [by apply passes_peekn|apply passes_ret]. Qed.
Lemma passes_at_type ty t R : passes (t :: R) (t :: R) (at_type ty) (is_tok ty t).
Proof. eapply passes_bind; [apply passes_peek|apply passes_ret]. Qed.
Lemma passes_consume ty t R : tk_token t = ty → passes (t :: R) R (consume ty) t.
Proof.
  intros Ht. eapply passes_bind; [apply passes_next|]. rewrite (proj2 (is_tok_spec ty t) Ht). apply passes_ret.
Qed.
Lemma passes_skip ty t R : tk_token t = ty → passes (t :: R) R (skip ty) tt.
Proof. intros Ht. eapply passes_bind; [by apply passes_consume|apply passes_ret]. Qed.
End parses.

Lemma is_tok_decide ty t : is_tok ty t = bool_decide (tk_token t = ty).
Proof. apply eq_bool_prop_intro. rewrite bool_decide_spec. split; [intros H%Is_true_true%is_tok_spec|intros H; apply Is_true_true, is_tok_spec]; done. Qed.
