(* ===== verification/ParseRules.v ===== *)
(** * The rules of expressions, construct by construct *)

From stdpp Require Import base list gmap numbers strings.
From Stdlib Require Import ZArith Lia.
From S2P Require Import Prelude Token Macro CType CArith Floats Strings Symbol Typetree Symtab Immediate Ir Cfg Eval Assign EvalProps Parser.
From S2P Require Import Expression Initializer Declaration Statement Grammar Syntax ParseProps.

Local Open Scope Z_scope.

(** ** Where an expression ends *)

Definition continues (k : nat) (t : token_type) : bool :=
  match k with
  | 0 => match t with OPEN_BRACKET | OPEN_PAREN | DOT | ARROW | INCREMENT | DECREMENT => true | _ => false end
  | 1 | 2 => false
  | 11 => bool_decide (t = LOGICAL_AND)
  | 12 => bool_decide (t = LOGICAL_OR)
  | 13 => bool_decide (t = QUESTION)
  | 14 => match assignment_op t with Some _ => true | None => false end
  | 15 => bool_decide (t = COMMA)
  | k => match infix t with Some (j, _) => (j =? k)%nat | None => false end
  end%nat.

(** The token goes on with no expression of level [k]. *)
Definition stops (k : nat) (t : token_type) : bool := forallb (λ j, negb (continues j t)) (seq 0 (S k)).
Definition stop_at (k : nat) (R : list token) : Prop :=
  match R with t :: _ => stops k (tk_token t) = true | [] => False end.

Lemma stops_spec k t : stops k t = true ↔ ∀ j, (j ≤ k)%nat → continues j t = false.
Proof.
  unfold stops. rewrite forallb_forall. split.
  - intros H j Hj. specialize (H j). rewrite in_seq in H. specialize (H ltac:(lia)). by apply negb_true_iff in H.
  - intros H j Hj%in_seq. apply negb_true_iff, H. lia.
Qed.
Lemma stop_le j k R : (j ≤ k)%nat → stop_at k R → stop_at j R.
Proof.
  destruct R as [|t R]; [done|]. unfold stop_at. rewrite !stops_spec. intros Hj Hs i Hi. apply Hs. lia.
Qed.
Lemma stop_cons k R : stop_at k R → ∃ t R', R = t :: R' ∧ ∀ j, (j ≤ k)%nat → continues j (tk_token t) = false.
Proof. destruct R as [|t R]; [done|]. intros H. exists t, R. split; [done|]. by apply stops_spec. Qed.

(** ** Where an expression begins *)

Scheme expr_mind := Induction for expr Sort Prop
  with chain_mind := Induction for chain Sort Prop.
Combined Scheme expr_chain_ind from expr_mind, chain_mind.

Definition begins_chain (t : token_type) : bool :=
  match t with IDENTIFIER | NUMBER | STRING | OPEN_PAREN => true | _ => false end.
Definition begins (t : token_type) : bool :=
  begins_chain t || is_prefix t || is_step t || bool_decide (t = SIZEOF).

Lemma begins_no_type t : begins t = true → first_type_name t = false.
Proof. by destruct t. Qed.

Lemma begins_app (f : token_type → bool) l l' : (∃ t k, l = t :: k ∧ f (tk_token t) = true) →
  ∃ t k, l ++ l' = t :: k ∧ f (tk_token t) = true.
Proof. intros (t & k & -> & Hf). by exists t, (k ++ l'). Qed.
Lemma begins_cons (f : token_type → bool) t l : f (tk_token t) = true →
  ∃ u k, t :: l = u :: k ∧ f (tk_token u) = true.
Proof. intros Hf. by exists t, l. Qed.

Lemma chain_begins c : good_chain c → ∃ t l, chain_tokens c = t :: l ∧ begins_chain (tk_token t) = true.
Proof.
  induction c; cbn [good_chain chain_tokens]; intros Hg.
  1-3: apply begins_cons; by rewrite Hg.
  1: apply begins_cons; by rewrite (proj1 Hg).
  all: apply begins_app; tauto.
Qed.
Lemma expr_begins e : good e → ∃ t l, tokens e = t :: l ∧ begins (tk_token t) = true.
Proof.
  induction e; cbn [good tokens]; intros Hg.
  - destruct (chain_begins _ Hg) as (t & l & -> & Ht). apply begins_cons. unfold begins. by rewrite Ht.
  - apply begins_cons. unfold begins. rewrite (proj1 Hg). by rewrite orb_true_r.
  - apply begins_cons. unfold begins. rewrite (proj1 Hg). by rewrite !orb_true_r.
  - apply begins_cons. by rewrite (proj1 Hg).
  - apply begins_cons. by rewrite (proj1 Hg).
  - destruct Hg as (k & o & _ & Hl & _). by apply begins_app, IHe1.
  - apply begins_app, IHe1; tauto.
  - apply begins_app, IHe1; tauto.
  - apply begins_app, IHe1; tauto.
  - apply begins_app, IHe1; tauto.
Qed.

(** Behind a parenthesis at the head of a chain there is an expression. *)
Lemma chain_paren c o l : good_chain c → chain_tokens c = o :: l → tk_token o = OPEN_PAREN →
  ∃ u l', l = u :: l' ∧ begins (tk_token u) = true.
Proof.
  revert o l. induction c as [t|t|t|o' e c|a IH o' e c|a IH t n|a IH t n|a IH t];
    intros o l Hg Hl Ho; cbn [good_chain chain_tokens] in *.
  1-3: injection Hl as -> <-; by rewrite Ho in Hg.
  { injection Hl as _ <-. apply begins_app, expr_begins; tauto. }
  all: destruct Hg as [Hg _]; destruct (chain_begins _ Hg) as (t0 & l0 & Ha & _); specialize (IH t0 l0 Hg Ha);
    rewrite Ha in Hl; injection Hl as -> <-; by apply begins_app, IH.
Qed.

Section rules.
Context {T : Type} `{TS : TokensServed T} `{FA : FloatArith} (depth fuel : nat) (standard : cstd) (g : grammar T).

Definition enter_at (k : nat) (e : expr) : E unit := if (k <? 2)%nat then mret tt else enter e.
Definition accepts (r : option defref → bref → P T bref) (k : nat) (e : expr) : Prop :=
  ∀ def b R, stop_at k R → parses (tokens e ++ R) R (r def b) (_ ← enter_at k e; translate depth fuel e def b).

Definition ops_at (k : nat) : token_type → option (bool * optype) :=
  match k with
  | 3 => multiplicative_ops | 4 => additive_ops | 5 => shift_ops | 6 => relational_ops
  | 7 => equality_ops | 8 => and_ops | 9 => xor_ops | _ => or_ops
  end%nat.
Definition rule (k : nat) : option defref → bref → P T bref :=
  match k with
  | 0 => postfix_expression depth fuel standard g
  | 1 => unary_expression depth fuel standard g
  | 2 => cast_expression depth fuel standard g
  | 3 => multiplicative_expression depth fuel standard g
  | 4 => additive_expression depth fuel standard g
  | 5 => shift_expression depth fuel standard g
  | 6 => relational_expression depth fuel standard g
  | 7 => equality_expression depth fuel standard g
  | 8 => and_expression depth fuel standard g
  | 9 => exclusive_or_expression depth fuel standard g
  | 10 => inclusive_or_expression depth fuel standard g
  | 11 => logical_and_expression depth fuel standard g
  | 12 => logical_or_expression depth fuel standard g
  | 13 => conditional_expression depth fuel standard g
  | 14 => assignment_expression depth fuel standard g
  | _ => expression_rule depth fuel standard g
  end%nat.
(** The rules that are called through the grammar. *)
Definition back (k : nat) : option (option defref → bref → P T bref) :=
  match k with
  | 1 => Some (g_unary_expression g)
  | 2 => Some (g_cast_expression g)
  | 11 => Some (g_logical_and_expression g)
  | 12 => Some (g_logical_or_expression g)
  | 13 => Some (g_conditional_expression g)
  | 14 => Some (g_assignment_expression g)
  | 15 => Some (g_expression g)
  | _ => None
  end%nat.
Definition knows (N : nat) : Prop :=
  ∀ e k r, good e → (level_of e ≤ k)%nat → (length (tokens e) ≤ N)%nat → back k = Some r → accepts r k e.

Lemma enter_at_high k e : (2 ≤ k)%nat → enter_at k e = enter e.
Proof. intros Hk. unfold enter_at. by rewrite (proj2 (Nat.ltb_ge k 2)). Qed.

Lemma rule_binary k def b : (3 ≤ k ≤ 10)%nat → rule k def b = level depth fuel (ops_at k) (rule (k - 1)) def b.
Proof. intros Hk. do 11 (destruct k as [|k]; [try lia; done|]). lia. Qed.
Lemma ops_infix k t : (3 ≤ k ≤ 10)%nat →
  ops_at k t = match infix t with Some (j, o) => if (j =? k)%nat then Some o else None | None => None end.
Proof. intros Hk. do 11 (destruct k as [|k]; [try lia; by destruct t|]). lia. Qed.
Lemma continues_infix k t : (3 ≤ k ≤ 10)%nat →
  continues k t = match infix t with Some (j, _) => (j =? k)%nat | None => false end.
Proof. intros Hk. do 11 (destruct k as [|k]; [try lia; done|]). lia. Qed.
Lemma infix_level t k o : infix t = Some (k, o) → (3 ≤ k ≤ 10)%nat.
Proof. destruct t; intros [= <- <-]; lia. Qed.

Lemma level_max e : (level_of e ≤ 15)%nat.
Proof.
  destruct e; cbn [level_of]; try lia; [|case_match; lia].
  destruct (infix _) as [[k o]|] eqn:Hi; [apply infix_level in Hi|]; lia.
Qed.

Lemma enter_high e : (2 ≤ level_of e)%nat → enter e = mret tt.
Proof. intros Hl. unfold enter. by rewrite (proj2 (Nat.leb_gt _ 1)) by lia. Qed.

(** ** One level up *)

Lemma operators_stop n k R def b : (3 ≤ k ≤ 10)%nat → (0 < n)%nat → stop_at k R →
  passes R R (level_loop depth fuel n (ops_at k) (rule (k - 1) def) def b) b.
Proof.
  intros Hk Hn (t & R' & -> & HR)%stop_cons. destruct n as [|n]; [lia|]. cbn [level_loop].
  eapply passes_bind; [apply passes_peek_type|].
  specialize (HR k ltac:(lia)). rewrite continues_infix in HR by done. rewrite ops_infix by done.
  destruct (infix (tk_token t)) as [[j o]|]; [|apply passes_ret]. rewrite HR. apply passes_ret.
Qed.

Lemma accepts_binary k e : (3 ≤ k ≤ 10)%nat → (0 < fuel)%nat → accepts (rule (k - 1)) (k - 1) e → accepts (rule k) k e.
Proof.
  intros Hk Hf He def b R HR. rewrite rule_binary by done. unfold level.
  apply (parses_then _ R); [|intros b'; by apply operators_stop].
  specialize (He def b R). rewrite enter_at_high in He |- * by lia. apply He. eapply stop_le; [|exact HR]. lia.
Qed.

Lemma accepts_and e : accepts (rule 10) 10 e → accepts (rule 11) 11 e.
Proof.
  intros He def b R HR. destruct (stop_cons _ _ HR) as (t & R' & -> & Hs). specialize (Hs 11%nat ltac:(lia)).
  apply (parses_then _ (t :: R')); [apply He; eapply stop_le; [|exact HR]; lia|]. intros b'.
  eapply passes_bind; [apply passes_at_type|]. rewrite is_tok_decide. cbn [continues] in Hs. rewrite Hs. apply passes_ret.
Qed.
Lemma accepts_or e : accepts (rule 11) 11 e → accepts (rule 12) 12 e.
Proof.
  intros He def b R HR. destruct (stop_cons _ _ HR) as (t & R' & -> & Hs). specialize (Hs 12%nat ltac:(lia)).
  apply (parses_then _ (t :: R')); [apply He; eapply stop_le; [|exact HR]; lia|]. intros b'.
  eapply passes_bind; [apply passes_at_type|]. rewrite is_tok_decide. cbn [continues] in Hs. rewrite Hs. apply passes_ret.
Qed.
Lemma accepts_conditional e : accepts (rule 12) 12 e → accepts (rule 13) 13 e.
Proof.
  intros He def b R HR. destruct (stop_cons _ _ HR) as (t & R' & -> & Hs). specialize (Hs 13%nat ltac:(lia)).
  apply (parses_then _ (t :: R')); [apply He; eapply stop_le; [|exact HR]; lia|]. intros b'.
  eapply passes_bind; [apply passes_at_type|]. rewrite is_tok_decide. cbn [continues] in Hs. rewrite Hs. apply passes_ret.
Qed.
Lemma accepts_assignment e : accepts (rule 13) 13 e → accepts (rule 14) 14 e.
Proof.
  intros He def b R HR. destruct (stop_cons _ _ HR) as (t & R' & -> & Hs). specialize (Hs 14%nat ltac:(lia)).
  apply (parses_then _ (t :: R')); [apply He; eapply stop_le; [|exact HR]; lia|]. intros b'.
  eapply passes_bind; [apply passes_peek_type|]. cbn [continues] in Hs. destruct (assignment_op (tk_token t)); [done|]. apply passes_ret.
Qed.
Lemma comma_loop_stops n R def b : (0 < n)%nat → stop_at 15 R →
  passes R R (comma_loop depth fuel standard g n def b) b.
Proof.
  intros Hn (t & R' & -> & HR)%stop_cons. destruct n as [|n]; [lia|]. cbn [comma_loop]. specialize (HR 15%nat ltac:(lia)).
  eapply passes_bind; [apply passes_at_type|]. rewrite is_tok_decide. cbn [continues] in HR. rewrite HR. apply passes_ret.
Qed.
Lemma accepts_comma e : (0 < fuel)%nat → accepts (rule 14) 14 e → accepts (rule 15) 15 e.
Proof.
  intros Hf He def b R HR. apply (parses_then _ R); [apply He; eapply stop_le; [|exact HR]; lia|]. intros b'.
  by apply comma_loop_stops.
Qed.

Lemma accepts_unary c : good_chain c → accepts (rule 0) 0 (Post c) → accepts (rule 1) 1 (Post c).
Proof.
  intros Hg He def b R HR. specialize (He def b R (stop_le 0 1 R ltac:(lia) HR)).
  destruct (chain_begins c Hg) as (t & l & Ht & Hb). cbn [tokens] in *. rewrite Ht in *.
  eapply passes_bind; [apply passes_peek_type|]. revert Hb. by destruct (tk_token t).
Qed.

Lemma parses_type_name_test u R : begins (tk_token u) = true →
  parses R R (starts_type_name u) (_ ← not_a_type u; mret false).
Proof.
  intros Hb. unfold starts_type_name, not_a_type. destruct (decide (tk_token u = IDENTIFIER)) as [Hu|Hu].
  - rewrite Hu, bool_decide_true by done. apply parses_assoc'. apply parses_ev_bind. intros name.
    apply parses_assoc'. apply parses_ev_bind. intros [t|]; [apply parses_undef_bind|apply parses_ret].
  - rewrite bool_decide_false by done. pose proof (begins_no_type _ Hb) as Ht.
    destruct (tk_token u); cbn in Ht; try discriminate Ht; try done; apply parses_ret.
Qed.

Lemma accepts_cast e : good e → (level_of e ≤ 1)%nat → accepts (rule 1) 1 e → accepts (rule 2) 2 e.
Proof.
  intros Hg Hl He def b R HR. specialize (He def b R (stop_le 1 2 R ltac:(lia) HR)).
  destruct (expr_begins e Hg) as (t & l & Ht & Hb). change (enter_at 2 e) with (enter e). unfold enter.
  rewrite (proj2 (Nat.leb_le _ 1)) by done. rewrite Ht in He |- *.
  eapply passes_bind; [apply passes_at_type|]. destruct (is_tok OPEN_PAREN t) eqn:Eo.
  2:{ eapply passes_bind; [apply passes_ret|]. by destruct l. }
  apply is_tok_spec in Eo.
  assert (∃ u l', l = u :: l' ∧ begins (tk_token u) = true) as (u & l' & -> & Hu).
  { clear He. destruct e; cbn [level_of] in Hl; cbn [tokens good] in *; try lia.
    - by eapply chain_paren.
    - injection Ht as -> _. rewrite Eo in Hg. by destruct Hg as [Hg _].
    - injection Ht as -> _. rewrite Eo in Hg. by destruct Hg as [Hg _].
    - injection Ht as -> _. rewrite Eo in Hg. by destruct Hg as [Hg _].
    - destruct Hg as (k & o & Hi & _). rewrite Hi in Hl. apply infix_level in Hi. lia.
    - case_match; lia. }
  eapply (parses_known _ _ _ _ _ _ false); [|exact He]. eapply passes_bind; [by apply passes_peekn|by apply parses_type_name_test].
Qed.


Lemma infix_stops t k o j : infix t = Some (k, o) → (j < k)%nat → continues j t = false.
Proof. intros Hi Hj. do 11 (destruct j as [|j]; [destruct t; try done; injection Hi as <- _; try lia; done|]). apply infix_level in Hi. lia. Qed.

(** ** Unary operators *)

Lemma stop_unary R : stop_at 0 R → stop_at 2 R.
Proof.
  intros (t & R' & -> & HR)%stop_cons. unfold stop_at. apply stops_spec. intros j Hj.
  do 3 (destruct j as [|j]; [done || by apply HR|]). lia.
Qed.

Lemma parses_unary t ty e def b op R : accepts (g_cast_expression g) 2 e → tk_token t = ty → stop_at 0 R →
  parses (t :: tokens e ++ R) R (unary g ty def b op)
    (_ ← enter e; b ← translate depth fuel e def b; _ ← op b; mret b).
Proof.
  intros He Ht HR. unfold unary. eapply passes_bind; [by apply passes_skip|].
  apply (parses_group _ _ _ (enter e) (λ _, translate depth fuel e def b)).
  eapply parses_bind; [apply He; by apply stop_unary|]. intros b'. apply parses_ev_bind. intros _. apply parses_ret.
Qed.

Lemma accepts_prefix N t e : knows N → (length (tokens e) ≤ N)%nat → good (Prefix t e) → accepts (rule 1) 1 (Prefix t e).
Proof.
  intros HN Hle (Ht & Hg & Hl) def b R HR. apply parses_ret_bind. cbn [tokens app rule translate]. unfold unary_expression.
  assert (He : accepts (g_cast_expression g) 2 e) by by apply HN.
  eapply passes_bind; [apply passes_peek_type|]. apply (stop_le 0) in HR; [|lia].
  destruct (tk_token t) eqn:E; try discriminate Ht; by apply parses_unary.
Qed.

Lemma accepts_step N t e : knows N → (length (tokens e) ≤ N)%nat → good (Step t e) → accepts (rule 1) 1 (Step t e).
Proof.
  intros HN Hle (Ht & Hg & Hl) def b R HR. apply parses_ret_bind. cbn [tokens app rule translate]. unfold unary_expression.
  assert (He : accepts (g_unary_expression g) 1 e) by by apply HN.
  eapply passes_bind; [apply passes_peek_type|].
  destruct (tk_token t) eqn:E; try discriminate Ht; (eapply passes_bind; [by apply passes_skip|]);
    (eapply parses_bind; [by apply (He def b R)|]); intros b'; apply parses_ev_bind; intros _; apply parses_ret.
Qed.

(** A look behind a parenthesis that no type follows. *)
Lemma parses_no_type {A} e R R' (f : bool → P T A) (m : E A) : good e → (level_of e ≤ 1)%nat →
  parses (tokens e ++ R) R' (f false) m →
  parses (tokens e ++ R) R' (open ← at_type OPEN_PAREN;
    typed ← (if open : bool then tok ← peekn 2; starts_type_name tok else mret false); f typed) (_ ← enter e; m).
Proof.
  intros Hg Hl Hf. destruct (expr_begins e Hg) as (t & l & Ht & Hb). unfold enter.
  rewrite (proj2 (Nat.leb_le _ 1)) by done. rewrite Ht in Hf |- *.
  eapply passes_bind; [apply passes_at_type|]. destruct (is_tok OPEN_PAREN t) eqn:Eo.
  2:{ eapply passes_bind; [apply passes_ret|]. by destruct l. }
  apply is_tok_spec in Eo.
  assert (∃ u l', l = u :: l' ∧ begins (tk_token u) = true) as (u & l' & -> & Hu).
  { clear Hf. destruct e; cbn [level_of] in Hl; cbn [tokens good] in *; try lia.
    - by eapply chain_paren.
    - injection Ht as -> _. rewrite Eo in Hg. by destruct Hg as [Hg _].
    - injection Ht as -> _. rewrite Eo in Hg. by destruct Hg as [Hg _].
    - injection Ht as -> _. rewrite Eo in Hg. by destruct Hg as [Hg _].
    - destruct Hg as (k & o & Hi & _). rewrite Hi in Hl. apply infix_level in Hi. lia.
    - case_match; lia. }
  eapply (parses_known _ _ _ _ _ _ false); [|exact Hf].
  eapply passes_bind; [by apply passes_peekn|by apply parses_type_name_test].
Qed.

Lemma accepts_sizeof N t e : knows N → (length (tokens e) ≤ N)%nat → good (Sizeof t e) → accepts (rule 1) 1 (Sizeof t e).
Proof.
  intros HN Hle (Ht & Hg & Hl) def b R HR. apply parses_ret_bind. cbn [tokens app rule translate]. unfold unary_expression.
  assert (He : accepts (g_unary_expression g) 1 e) by by apply HN.
  eapply passes_bind; [apply passes_peek_type|]. rewrite Ht. unfold sizeof_rule.
  eapply passes_bind; [by apply passes_skip|].
  eapply parses_bind.
  { unfold sizeof_operand. apply parses_no_type; [done|done|]. unfold sizeof_expression.
    apply parses_assoc. apply parses_ev_bind. intros head. apply parses_assoc.
    eapply (parses_bind _ R); [apply (He def head R HR)|]. intros tail. apply parses_assoc, parses_ev_bind. intros x. apply parses_ret. }
  intros [block x]. apply parses_ev_bind. intros s. apply parses_ev_bind. intros _. apply parses_ret.
Qed.

(** ** Casts *)

(** The rule of specifiers reads the words of a type. *)
Definition reads_words (N : nat) : Prop := ∀ ws c R s, (length ws < N)%nat → words ws spec_start = Some s →
  tk_token c = CLOSE_PAREN → passes (ws ++ c :: R) (c :: R) (g_declaration_specifiers g false false false) (finish_specifiers s).

Lemma accepts_cast_to N o ws c e : knows N → reads_words N → (length (tokens (Cast o ws c e)) ≤ S N)%nat →
  good (Cast o ws c e) → accepts (rule 2) 2 (Cast o ws c e).
Proof.
  intros HN HW Hle (Ho & Hws & [ty Hty] & Hc & Hg & Hl) def b R HR. cbn [tokens app rule translate] in *.
  cbn [length] in Hle. rewrite length_app in Hle. cbn [length] in Hle.
  assert (He : accepts (g_cast_expression g) 2 e) by (apply HN; [done|done|lia|done]).
  destruct ws as [|w ws]; [done|]. unfold words_type in *. destruct (words (w :: ws) spec_start) as [s|] eqn:Es; [|done].
  injection Hty as <-. cbn [mbind option_bind default from_option id]. unfold cast_expression.
  eapply passes_bind; [apply passes_at_type|]. rewrite (proj2 (is_tok_spec OPEN_PAREN o) Ho).
  assert (Hw : first_type_name (tk_token w) = true).
  { cbn [words] in Es. destruct (tk_token w); try done. }
  eapply passes_bind.
  { eapply passes_bind; [by apply passes_peekn|]. unfold starts_type_name. destruct (tk_token w); try discriminate Hw; apply passes_ret. }
  eapply passes_bind; [apply passes_next|].
  eapply (passes_bind _ (c :: tokens e ++ R)).
  { unfold type_name. eapply passes_bind.
    - rewrite <-app_assoc. apply HW; [|exact Es|done].
      destruct (expr_begins e Hg) as (t & l & Ht & _). rewrite Ht in Hle. cbn [length] in *. lia.
    - eapply passes_bind; [apply passes_at_type|]. rewrite (proj2 (is_tok_spec CLOSE_PAREN c) Hc). apply passes_ret. }
  eapply passes_bind; [by apply passes_skip|].
  destruct (expr_begins e Hg) as (t & l & Ht & Hb). specialize (He def b R HR). rewrite Ht in He |- *.
  eapply passes_bind; [apply passes_at_type|].
  replace (is_tok OPEN_CURLY t) with false.
  2:{ rewrite is_tok_decide, bool_decide_false; [done|]. intros E. by rewrite E in Hb. }
  apply (parses_group _ _ _ (enter e) (λ _, translate depth fuel e def b)).
  eapply parses_bind; [exact He|]. intros b'. apply parses_ev_bind. intros _. apply parses_ret.
Qed.

(** ** Binary operators *)

Definition below (L : nat) : Prop :=
  ∀ e k, (length (tokens e) < L)%nat → good e → (level_of e ≤ k ≤ 15)%nat → accepts (rule k) k e.

Lemma below_le L L' : (L' ≤ L)%nat → below L → below L'.
Proof. intros Hle HL e k He. apply HL. lia. Qed.

(** An operator and its right operand, behind the left one. *)
Lemma level_step k n t swap op r def b R R' (X : bref → E bref) : (3 ≤ k ≤ 10)%nat →
  infix (tk_token t) = Some (k, (swap, op)) → accepts (rule (k - 1)) (k - 1) r → stop_at (k - 1) R →
  (∀ b, parses R R' (level_loop depth fuel n (ops_at k) (rule (k - 1) def) def b) (X b)) →
  parses (t :: tokens r ++ R) R' (level_loop depth fuel (S n) (ops_at k) (rule (k - 1) def) def b)
    (value ← value_of depth def b; _ ← enter r; b ← translate depth fuel r def b;
     w ← value_of depth def b;
     x ← apply_op depth fuel def b op (if swap then w else value) (OperandVar (if swap then value else w));
     _ ← put_expr b x; X b).
Proof.
  intros Hk Ht Hr HR HX. cbn [level_loop]. eapply passes_bind; [apply passes_peek_type|].
  rewrite ops_infix, Ht, Nat.eqb_refl by done. eapply passes_bind; [by apply passes_skip|].
  unfold binary_step. apply parses_assoc, parses_ev_bind. intros value. apply parses_assoc.
  apply (parses_group _ _ _ (enter r) (λ _, translate depth fuel r def b)).
  specialize (Hr def b R HR). rewrite enter_at_high in Hr by lia. eapply parses_bind; [exact Hr|].
  intros b'. apply parses_assoc, parses_ev_bind. intros w.
  apply parses_assoc, parses_ev_bind. intros x. apply parses_assoc, parses_ev_bind. intros _. apply HX.
Qed.

(** What binds more tightly is read by the rule below. *)
Lemma spine_end k e n def b R R' (X : bref → E bref) : (3 ≤ k ≤ 10)%nat → accepts (rule (k - 1)) (k - 1) e → stop_at (k - 1) R →
  (∀ b, parses R R' (level_loop depth fuel n (ops_at k) (rule (k - 1) def) def b) (X b)) →
  parses (tokens e ++ R) R' (b ← rule (k - 1) def b; level_loop depth fuel n (ops_at k) (rule (k - 1) def) def b)
    (_ ← enter e; b ← translate depth fuel e def b; X b).
Proof.
  intros Hk He HR HX. apply (parses_group _ _ _ (enter e) (λ _, translate depth fuel e def b)).
  eapply parses_bind; [|exact HX]. specialize (He def b R HR). rewrite enter_at_high in He by lia. exact He.
Qed.

Definition spine_of (k c : nat) (e : expr) : Prop :=
  ∀ n def b R R' (X : bref → E bref), stop_at (k - 1) R →
    (∀ b, parses R R' (level_loop depth fuel n (ops_at k) (rule (k - 1) def) def b) (X b)) →
    parses (tokens e ++ R) R' (b ← rule (k - 1) def b; level_loop depth fuel (c + n) (ops_at k) (rule (k - 1) def) def b)
      (_ ← enter e; b ← translate depth fuel e def b; X b).

Lemma spine k e : (3 ≤ k ≤ 10)%nat → good e → (level_of e ≤ k)%nat → below (S (length (tokens e))) →
  ∃ c, (c < length (tokens e))%nat ∧ spine_of k c e.
Proof.
  intros Hk.
  assert (Hlow : ∀ e, good e → (level_of e ≤ k - 1)%nat → below (S (length (tokens e))) →
    ∃ c, (c < length (tokens e))%nat ∧ spine_of k c e).
  { intros e' Hg Hl HB. exists 0%nat. split; [destruct (expr_begins e' Hg) as (t & l & -> & _); cbn; lia|].
    intros n def b R R' X HR HX. apply spine_end; [done|apply HB; [lia|done|lia]|done|done]. }
  induction e as [c|t e IH|t e IH|t e IH|o ws c e IH|l IHl t r IHr|l IHl t r IHr|c IHc q a IHa j b IHb|l IHl t r IHr|l IHl t r IHr];
    intros Hg Hl HB;
    match goal with |- context [spine_of k _ ?e] => destruct (decide (level_of e ≤ k - 1)%nat) as [H1|H1]; [by apply Hlow|] end;
    try (cbn [level_of] in *; lia).
  - assert (Heq : level_of (Infix l t r) = k) by lia. clear H1.
    clear IHr. cbn [level_of good tokens] in *. destruct Hg as (k' & [swap op] & Hi & Hgl & Hll & Hgr & Hlr).
    rewrite Hi in Heq, Hl. subst k'. rewrite length_app in *. cbn [length] in *.
    destruct IHl as (c & Hc & Hrec); [done|done|by eapply below_le; [|exact HB]; lia|].
    assert (Hr : accepts (rule (k - 1)) (k - 1) r) by (apply HB; [lia|done|lia]).
    exists (S c). split; [lia|]. intros n def b R R' X HR HX. cbn [tokens]. rewrite <-app_assoc. cbn [app].
    replace (S c + n)%nat with (c + S n)%nat by lia. rewrite enter_high by (cbn [level_of]; rewrite Hi; lia).
    apply parses_ret_bind. cbn [translate]. rewrite Hi.
    assert (Ht : stop_at (k - 1) (t :: tokens r ++ R)).
    { unfold stop_at. apply stops_spec. intros j Hj. eapply infix_stops; [exact Hi|lia]. }
    eapply parses_as; [exact (Hrec (S n) def b _ R' _ Ht (λ b, level_step k n t swap op r def b R R' X Hk Hi Hr HR HX))|].
    intros p. unbracket.
  - cbn [level_of] in *. case_match; lia.
Qed.

Lemma accepts_infix N l t r : below (length (tokens (Infix l t r))) → (length (tokens (Infix l t r)) ≤ fuel)%nat →
  N = level_of (Infix l t r) → good (Infix l t r) → accepts (rule N) N (Infix l t r).
Proof.
  intros HB Hf -> Hg def b R HR. pose proof Hg as (k & [swap op] & Hi & Hgl & Hll & Hgr & Hlr).
  pose proof (infix_level _ _ _ Hi) as Hk. cbn [level_of tokens] in *. rewrite Hi in *.
  rewrite length_app in *. cbn [length] in *. rewrite <-app_assoc. cbn [app].
  destruct (spine k l Hk Hgl Hll) as (c & Hc & Hrec); [by eapply below_le; [|exact HB]; lia|].
  assert (Hr : accepts (rule (k - 1)) (k - 1) r) by (apply HB; [lia|done|lia]).
  rewrite enter_at_high, enter_high, rule_binary by (done || (cbn [level_of]; rewrite Hi; lia) || lia).
  apply parses_ret_bind. cbn [translate]. rewrite Hi.
  assert (Ht : stop_at (k - 1) (t :: tokens r ++ R)).
  { unfold stop_at. apply stops_spec. intros j Hj. eapply infix_stops; [exact Hi|lia]. }
  assert (HR' : stop_at (k - 1) R) by (eapply stop_le; [|exact HR]; lia).
  assert (Hend : ∀ b, parses R R (level_loop depth fuel (fuel - c - 1) (ops_at k) (rule (k - 1) def) def b) (mret b)).
  { intros b'. apply operators_stop; [done|lia|done]. }
  pose proof (Hrec (S (fuel - c - 1)) def b _ R _ Ht
    (λ b, level_step k (fuel - c - 1) t swap op r def b R R mret Hk Hi Hr HR' Hend)) as Hp.
  replace (c + S (fuel - c - 1))%nat with fuel in Hp by lia. exact Hp.
Qed.

(** ** Logical operators, conditionals and assignments *)

Lemma accepts_logic N l t r : knows N → below (length (tokens (Logic l t r))) → (length (tokens (Logic l t r)) ≤ S N)%nat →
  good (Logic l t r) → accepts (rule (level_of (Logic l t r))) (level_of (Logic l t r)) (Logic l t r).
Proof.
  intros HN HB Hle (Hc & Hgl & Hgr) def b R HR. cbn [level_of tokens] in *. rewrite length_app in *. cbn [length] in *.
  rewrite <-app_assoc, enter_at_high by (case_match; lia). rewrite enter_high by (cbn [level_of]; case_match; lia).
  apply parses_ret_bind. cbn [app translate].
  destruct Hc as [(Ht & Hll & Hlr)|(Ht & Hll & Hlr)]; rewrite Ht in *;
    [rewrite bool_decide_true in * by done|rewrite bool_decide_false in * by done].
  - assert (Hl : accepts (rule 10) 10 l) by (apply HB; [lia|done|lia]).
    assert (Hr : accepts (g_logical_and_expression g) 11 r) by (by apply HN; [done|done|lia|]).
    cbn [rule]. unfold logical_and_expression.
    apply (parses_group _ _ _ (enter l) (λ _, translate depth fuel l def b)).
    eapply parses_bind; [apply Hl; unfold stop_at; by rewrite Ht|]. intros b1.
    eapply passes_bind; [apply passes_at_type|]. rewrite (proj2 (is_tok_spec _ t) Ht).
    eapply passes_bind; [by apply passes_skip|]. apply parses_ev_bind. intros right.
    apply (parses_group _ _ _ (enter r) (λ _, translate depth fuel r def right)).
    eapply parses_bind; [by apply Hr|]. intros bottom. apply parses_ev.
  - assert (Hl : accepts (rule 11) 11 l) by (apply HB; [lia|done|lia]).
    assert (Hr : accepts (g_logical_or_expression g) 12 r) by (by apply HN; [done|done|lia|]).
    cbn [rule]. unfold logical_or_expression.
    apply (parses_group _ _ _ (enter l) (λ _, translate depth fuel l def b)).
    eapply parses_bind; [apply Hl; unfold stop_at; by rewrite Ht|]. intros b1.
    eapply passes_bind; [apply passes_at_type|]. rewrite (proj2 (is_tok_spec _ t) Ht).
    eapply passes_bind; [by apply passes_skip|]. apply parses_ev_bind. intros right.
    apply (parses_group _ _ _ (enter r) (λ _, translate depth fuel r def right)).
    eapply parses_bind; [by apply Hr|]. intros bottom. apply parses_ev.
Qed.

Section arms.
Context (def : option defref) (A B : bref → E bref) (la lb R : list token) (k : token).
Hypothesis Hk : tk_token k = COLON.
Hypothesis HA : ∀ x, parses (la ++ k :: lb ++ R) (k :: lb ++ R) (g_expression g def x) (A x).
Hypothesis HB : ∀ x, parses (lb ++ R) R (g_conditional_expression g def x) (B x).

Lemma parses_constant_arms block :
  parses (la ++ k :: lb ++ R) R (constant_conditional depth fuel g def block) (constant_arms depth fuel def A B block).
Proof.
  apply parses_ev_bind. intros e. apply parses_ev_bind. intros yes. eapply (parses_bind _ R).
  - destruct yes.
    + eapply parses_bind; [apply HA|]. intros b1. eapply passes_bind; [by apply passes_skip|].
      apply parses_ev_bind. intros right. eapply parses_bind; [apply HB|]. intros r. apply parses_ret.
    + apply parses_ev_bind. intros no. eapply parses_bind; [apply parses_ev|]. intros _. apply parses_ev_bind. intros left.
      eapply parses_bind; [apply HA|]. intros left'. eapply passes_bind; [by apply passes_skip|].
      eapply parses_bind; [apply HB|]. intros b1. apply parses_ret.
  - intros [[b1 larm] rarm]. apply parses_ev_bind. intros t. destruct (is_void t);
      (apply parses_ev_bind; intros _; apply parses_ret).
Qed.

Lemma parses_branching_arms block :
  parses (la ++ k :: lb ++ R) R (branching_conditional depth fuel g def block) (branching_arms depth fuel def A B block).
Proof.
  apply parses_ev_bind. intros left. apply parses_ev_bind. intros right. apply parses_ev_bind. intros _.
  apply parses_ev_bind. intros _. apply parses_ev_bind. intros b1. eapply parses_bind; [apply HA|]. intros left'.
  apply parses_ev_bind. intros _. eapply passes_bind; [by apply passes_skip|]. eapply parses_bind; [apply HB|]. intros right'.
  apply parses_ev_bind. intros _. apply parses_ev_bind. intros t. destruct (is_void t).
  - apply parses_ev_bind. intros _. apply parses_ret.
  - apply parses_ev_bind. intros temp. do 3 (apply parses_ev_bind; intros _). apply parses_ret.
Qed.
End arms.

Lemma accepts_cond N c q a k b0 : knows N → below (length (tokens (Cond c q a k b0))) →
  (length (tokens (Cond c q a k b0)) ≤ S N)%nat → good (Cond c q a k b0) → accepts (rule 13) 13 (Cond c q a k b0).
Proof.
  intros HN HB Hle (Hq & Hk & Hgc & Hlc & Hga & Hgb & Hlb) def b R HR. cbn [tokens] in *.
  rewrite length_app in *. cbn [length] in *. rewrite length_app in *. cbn [length] in *.
  rewrite <-app_assoc, enter_at_high, enter_high by (cbn [level_of]; lia). apply parses_ret_bind. cbn [app translate rule].
  rewrite <-app_assoc. cbn [app].
  assert (Hc : accepts (rule 12) 12 c) by (apply HB; [lia|done|lia]).
  unfold conditional_expression. apply (parses_group _ _ _ (enter c) (λ _, translate depth fuel c def b)).
  eapply parses_bind; [apply Hc; unfold stop_at; by rewrite Hq|]. intros b1.
  eapply passes_bind; [apply passes_at_type|]. rewrite (proj2 (is_tok_spec _ q) Hq). cbn [negb].
  unfold conditional. apply parses_ev_bind. intros e. destruct (negb _); [apply parses_fail|].
  eapply passes_bind; [apply passes_next|]. apply parses_ev_bind. intros i.
  assert (HA : accepts (g_expression g) 15 a).
  { apply HN; [done|apply level_max|lia|done]. }
  assert (HB' : accepts (g_conditional_expression g) 13 b0) by (apply HN; [done|lia|lia|done]).
  destruct i; [apply parses_constant_arms|apply parses_branching_arms]; try done; intros x; try (by apply HB').
  all: apply HA; unfold stop_at; by rewrite Hk.
Qed.

Lemma assignment_stops t o j : assignment_op t = Some o → (j < 14)%nat → continues j t = false.
Proof. intros Hi Hj. do 14 (destruct j as [|j]; [by destruct t|]). lia. Qed.

Lemma accepts_assign N l t r : knows N → below (length (tokens (Assignment l t r))) →
  (length (tokens (Assignment l t r)) ≤ S N)%nat → good (Assignment l t r) → accepts (rule 14) 14 (Assignment l t r).
Proof.
  intros HN HB Hle ([op Ht] & Hgl & Hll & Hgr & Hlr) def b R HR. cbn [tokens] in *.
  rewrite length_app in *. cbn [length] in *.
  rewrite <-app_assoc, enter_at_high, enter_high by (cbn [level_of]; lia). apply parses_ret_bind. cbn [app translate rule].
  rewrite Ht. assert (Hl : accepts (rule 13) 13 l) by (apply HB; [lia|done|lia]).
  assert (Hr : accepts (g_assignment_expression g) 14 r) by (apply HN; [done|lia|lia|done]).
  unfold assignment_expression. apply (parses_group _ _ _ (enter l) (λ _, translate depth fuel l def b)).
  eapply parses_bind.
  { apply Hl. unfold stop_at. apply stops_spec. intros j Hj. eapply assignment_stops; [exact Ht|lia]. }
  intros b1. eapply passes_bind; [apply passes_peek_type|]. rewrite Ht. eapply passes_bind; [by apply passes_skip|].
  apply parses_ev_bind. intros target. apply (parses_group _ _ _ (enter r) (λ _, translate depth fuel r def b1)).
  eapply parses_bind; [by apply Hr|]. intros b2. apply parses_ev_bind. intros _. apply parses_ret.
Qed.

(** ** Commas *)

Lemma comma_step n t r def b R R' (X : bref → E bref) : tk_token t = COMMA →
  accepts (rule 14) 14 r → stop_at 14 R →
  (∀ b, parses R R' (comma_loop depth fuel standard g n def b) (X b)) →
  parses (t :: tokens r ++ R) R' (comma_loop depth fuel standard g (S n) def b)
    (x ← block_expr b; _ ← (if has_side_effects x then _ ← Eval.eval depth def (Some b) x; mret tt else mret tt);
     _ ← enter r; b ← translate depth fuel r def b; X b).
Proof.
  intros Ht Hr HR HX. cbn [comma_loop]. eapply passes_bind; [apply passes_at_type|]. rewrite (proj2 (is_tok_spec _ t) Ht).
  eapply passes_bind; [by apply passes_skip|]. apply parses_ev_bind. intros x. eapply (parses_bind _ (tokens r ++ R)).
  - destruct (has_side_effects x); [|apply parses_ret]. apply parses_ev_bind. intros v. apply parses_ret.
  - intros _. apply (parses_group _ _ _ (enter r) (λ _, translate depth fuel r def b)). eapply parses_bind; [by apply Hr|done].
Qed.

Definition comma_of (c : nat) (e : expr) : Prop :=
  ∀ n def b R R' (X : bref → E bref), stop_at 14 R →
    (∀ b, parses R R' (comma_loop depth fuel standard g n def b) (X b)) →
    parses (tokens e ++ R) R' (b ← rule 14 def b; comma_loop depth fuel standard g (c + n) def b)
      (_ ← enter e; b ← translate depth fuel e def b; X b).

Lemma commas e : good e → below (S (length (tokens e))) → ∃ c, (c < length (tokens e))%nat ∧ comma_of c e.
Proof.
  assert (Hlow : ∀ e, good e → (level_of e ≤ 14)%nat → below (S (length (tokens e))) →
    ∃ c, (c < length (tokens e))%nat ∧ comma_of c e).
  { intros e' Hg Hl HB. exists 0%nat. split; [destruct (expr_begins e' Hg) as (t & l & -> & _); cbn; lia|].
    intros n def b R R' X HR HX. apply (parses_group _ _ _ (enter e') (λ _, translate depth fuel e' def b)).
    assert (He : accepts (rule 14) 14 e') by (apply HB; [lia|done|lia]).
    eapply parses_bind; [by apply (He def b R)|done]. }
  induction e as [c|t e IH|t e IH|t e IH|o ws c e IH|l IHl t r IHr|l IHl t r IHr|c IHc q a IHa j b IHb|l IHl t r IHr|l IHl t r IHr];
    intros Hg HB;
    match goal with |- context [comma_of _ ?e] => destruct (decide (level_of e ≤ 14)%nat) as [H1|H1]; [by apply Hlow|] end;
    try (cbn [level_of] in *; lia).
  - pose proof Hg as (k & o & Hi & _). apply infix_level in Hi as Hk. cbn [level_of] in H1. rewrite Hi in H1. lia.
  - cbn [level_of] in *. case_match; lia.
  - clear IHr H1. cbn [good tokens] in *. destruct Hg as (Ht & Hgl & Hgr & Hlr).
    rewrite length_app in *. cbn [length] in *.
    destruct IHl as (c & Hc & Hrec); [done|by eapply below_le; [|exact HB]; lia|].
    assert (Hr : accepts (rule 14) 14 r) by (apply HB; [lia|done|lia]).
    exists (S c). split; [lia|]. intros n def b R R' X HR HX. cbn [tokens]. rewrite <-app_assoc. cbn [app].
    replace (S c + n)%nat with (c + S n)%nat by lia. rewrite enter_high by (cbn [level_of]; lia).
    apply parses_ret_bind. cbn [translate].
    assert (Hs : stop_at 14 (t :: tokens r ++ R)) by (unfold stop_at; by rewrite Ht).
    eapply parses_as; [exact (Hrec (S n) def b _ R' _ Hs (λ b, comma_step n t r def b R R' X Ht Hr HR HX))|].
    intros p. unbracket.
Qed.

Lemma accepts_commas l t r : below (length (tokens (Comma l t r))) → (length (tokens (Comma l t r)) ≤ fuel)%nat →
  good (Comma l t r) → accepts (rule 15) 15 (Comma l t r).
Proof.
  intros HB Hf (Ht & Hgl & Hgr & Hlr) def b R HR. cbn [tokens] in *.
  rewrite length_app in *. cbn [length] in *. rewrite <-app_assoc. cbn [app].
  destruct (commas l Hgl) as (c & Hc & Hrec); [by eapply below_le; [|exact HB]; lia|].
  assert (Hr : accepts (rule 14) 14 r) by (apply HB; [lia|done|lia]).
  rewrite enter_at_high, enter_high by (cbn [level_of]; lia). apply parses_ret_bind. cbn [translate rule].
  assert (Hs : stop_at 14 (t :: tokens r ++ R)) by (unfold stop_at; by rewrite Ht).
  assert (Hend : ∀ b, parses R R (comma_loop depth fuel standard g (fuel - c - 1) def b) (mret b)).
  { intros b'. apply comma_loop_stops; [lia|done]. }
  assert (HR' : stop_at 14 R) by (eapply stop_le; [|exact HR]; lia).
  pose proof (Hrec (S (fuel - c - 1)) def b _ R _ Hs (λ b, comma_step (fuel - c - 1) t r def b R R mret Ht Hr HR' Hend)) as Hp.
  replace (c + S (fuel - c - 1))%nat with fuel in Hp by lia. eapply parses_as; [exact Hp|]. intros p. unbracket. symmetry. apply E_ret_r.
Qed.

(** ** Chains *)

Definition start (def : option defref) (b : bref) : P T bref :=
  _ ← (match standard with STD_C89 => declare_implicitly depth | _ => mret tt end);
  primary_expression depth fuel g def b.
Definition no_call (R : list token) : Prop := match R with t :: _ => tk_token t ≠ OPEN_PAREN | [] => False end.

Lemma implicit_passes t R : tk_token t ≠ IDENTIFIER ∨ no_call R →
  passes (t :: R) (t :: R) (match standard with STD_C89 => declare_implicitly depth | _ => mret tt end) tt.
Proof.
  intros Ht. destruct standard; try apply passes_ret. unfold declare_implicitly.
  eapply passes_bind; [apply passes_peek|]. destruct (is_tok IDENTIFIER t) eqn:E; [|apply passes_ret]. cbn [negb].
  apply is_tok_spec in E. destruct Ht as [Ht|Ht]; [done|]. destruct R as [|u R]; [done|].
  eapply passes_bind; [apply passes_peek2_type|]. rewrite bool_decide_false by done. apply passes_ret.
Qed.

Lemma starts_name t def b R : tk_token t = IDENTIFIER → no_call R →
  parses (t :: R) R (start def b) (_ ← variable t b; mret b).
Proof.
  intros Ht HR. unfold start. eapply passes_bind; [apply implicit_passes; by right|]. unfold primary_expression.
  eapply passes_bind; [apply passes_next|]. rewrite Ht. unfold variable.
  eapply parses_as.
  2:{ intros p. etrans; [apply E_unbracket|]. apply E_cong. intros name q. etrans; [apply E_unbracket|].
      apply E_cong. intros sym q'. apply E_unbracket. }
  apply parses_ev_bind. intros name. apply parses_ev_bind. intros sym. apply parses_ev_bind. intros y.
  destruct (is_named y _); [apply parses_undef_bind|]. destruct (is_named y _); [apply parses_undef_bind|].
  destruct (is_named y _); [apply parses_undef_bind|]. cbn [orb]. apply parses_assoc', parses_ev_bind. intros v.
  apply parses_ev_bind. intros _. apply parses_ret.
Qed.
Lemma starts_number t def b R : tk_token t = NUMBER → parses (t :: R) R (start def b) (_ ← number depth t b; mret b).
Proof.
  intros Ht. unfold start. eapply passes_bind; [apply implicit_passes; left; by rewrite Ht|]. unfold primary_expression.
  eapply passes_bind; [apply passes_next|]. rewrite Ht. unfold number. apply parses_assoc', parses_ev_bind. intros u.
  apply parses_assoc', parses_ev_bind. intros _. apply parses_assoc', parses_ev_bind. intros i.
  apply parses_ev_bind. intros _. apply parses_ret.
Qed.
Lemma starts_literal t def b R : tk_token t = STRING → parses (t :: R) R (start def b) (_ ← literal depth t b; mret b).
Proof.
  intros Ht. unfold start. eapply passes_bind; [apply implicit_passes; left; by rewrite Ht|]. unfold primary_expression.
  eapply passes_bind; [apply passes_next|]. rewrite Ht. unfold literal. do 6 (apply parses_assoc', parses_ev_bind; intros ?).
  apply parses_ev_bind. intros _. apply parses_ret.
Qed.
Lemma starts_paren o e c def b R : tk_token o = OPEN_PAREN → tk_token c = CLOSE_PAREN → accepts (g_expression g) 15 e →
  parses (o :: (tokens e ++ [c]) ++ R) R (start def b) (_ ← enter e; translate depth fuel e def b).
Proof.
  intros Ho Hc He. unfold start. eapply passes_bind; [apply implicit_passes; left; by rewrite Ho|]. unfold primary_expression.
  eapply passes_bind; [apply passes_next|]. rewrite Ho, <-app_assoc. cbn [app].
  eapply parses_then; [apply He; unfold stop_at; by rewrite Hc|]. intros b'. eapply passes_bind; [by apply passes_skip|]. apply parses_ret.
Qed.

(** What follows a primary expression. *)
Definition chain_of (k : nat) (c : chain) : Prop :=
  ∀ n def b R R' (X : bref → expression → E bref), no_call R →
    (∀ b root, parses R R' (postfix_loop depth fuel g n def b root) (X b root)) →
    parses (chain_tokens c ++ R) R' (b ← start def b; root ← ev (block_expr b); postfix_loop depth fuel g (k + n) def b root)
      ('(b, root) ← walk depth fuel c def b; X b root).

Lemma chain_base c (m : option defref → bref → E bref) :
  (∀ def b R, no_call R → parses (chain_tokens c ++ R) R (start def b) (m def b)) →
  (∀ def b p, walk depth fuel c def b p = (b ← m def b; root ← block_expr b; mret (b, root)) p) → chain_of 0 c.
Proof.
  intros Hm Hw n def b R R' X HR HX.
  eapply (parses_as _ _ _ _ (b ← m def b; root ← block_expr b; X b root)).
  - eapply parses_bind; [by apply Hm|]. intros b1. apply parses_ev_bind. intros root. apply HX.
  - intros p. unfold mbind at 1, E_bind at 1. rewrite Hw. change (((b ← m def b; root ← block_expr b; mret (b, root)) ≫= (λ '(b, root), X b root)) p = (b ← m def b; root ← block_expr b; X b root) p).
    unbracket.
Qed.

(** One more suffix, read by one more turn of the loop. *)
Definition suffix_of (l : list token) (step : option defref → bref → expression → E (bref * expression)) : Prop :=
  ∀ n def b root R R' (X : bref → expression → E bref),
    (∀ b root, parses R R' (postfix_loop depth fuel g n def b root) (X b root)) →
    parses (l ++ R) R' (postfix_loop depth fuel g (S n) def b root) ('(b, root) ← step def b root; X b root).

Lemma chain_more k a c l step : chain_of k a → suffix_of l step → chain_tokens c = chain_tokens a ++ l → no_call l →
  (∀ def b p, walk depth fuel c def b p = ('(b, root) ← walk depth fuel a def b; step def b root) p) → chain_of (S k) c.
Proof.
  intros Ha Hl Hc Hh Hw n def b R R' X HR HX. rewrite Hc, <-app_assoc.
  replace (S k + n)%nat with (k + S n)%nat by lia.
  assert (HR' : no_call (l ++ R)) by by destruct l.
  eapply parses_as; [exact (Ha (S n) def b (l ++ R) R' _ HR' (λ b root, Hl n def b root R R' X HX))|].
  intros p. unfold mbind at 1, E_bind at 1. rewrite Hw. unfold mbind, E_bind.
  by destruct (walk depth fuel a def b p) as [[q [b1 root]]| |].
Qed.

Lemma suffix_index o e c : tk_token o = OPEN_BRACKET → tk_token c = CLOSE_BRACKET → accepts (g_expression g) 15 e →
  suffix_of (o :: tokens e ++ [c]) (λ def b _, value ← value_of depth def b; _ ← enter e;
    b ← translate depth fuel e def b; element depth fuel def b value).
Proof.
  intros Ho Hc He n def b root R R' X HX. cbn [app postfix_loop]. rewrite <-app_assoc. cbn [app].
  eapply passes_bind; [apply passes_peek_type|]. rewrite Ho. eapply (parses_bind _ R); [|intros [b1 r1]; apply HX].
  unfold subscript. eapply passes_bind; [by apply passes_skip|]. apply parses_ev_bind. intros value.
  apply (parses_group _ _ _ (enter e) (λ _, translate depth fuel e def b)).
  eapply parses_bind; [apply He; unfold stop_at; by rewrite Hc|]. intros b1. unfold element.
  do 6 (apply parses_ev_bind; intros ?). eapply passes_bind; [by apply passes_skip|]. apply parses_ret.
Qed.
Lemma suffix_dot t m : tk_token t = DOT → tk_token m = IDENTIFIER →
  suffix_of [t; m] (λ def b root, member depth def b root m).
Proof.
  intros Ht Hm n def b root R R' X HX. cbn [app postfix_loop].
  eapply passes_bind; [apply passes_peek_type|]. rewrite Ht. eapply (parses_bind _ R); [|intros [b1 r1]; apply HX].
  unfold member_access, member. eapply passes_bind; [by apply passes_skip|]. eapply passes_bind; [by apply passes_consume|].
  do 4 (apply parses_ev_bind; intros ?). apply parses_ret.
Qed.
Lemma suffix_arrow t m : tk_token t = ARROW → tk_token m = IDENTIFIER →
  suffix_of [t; m] (λ def b root, pointed_member depth fuel def b root m).
Proof.
  intros Ht Hm n def b root R R' X HX. cbn [app postfix_loop].
  eapply passes_bind; [apply passes_peek_type|]. rewrite Ht. eapply (parses_bind _ R); [|intros [b1 r1]; apply HX].
  unfold arrow_access, pointed_member. eapply passes_bind; [by apply passes_skip|].
  eapply passes_bind; [by apply passes_consume|]. do 2 (apply parses_ev_bind; intros ?).
  destruct (is_struct_or_union _); [|apply parses_fail]. do 3 (apply parses_ev_bind; intros ?). apply parses_ret.
Qed.
Lemma suffix_step t : is_step (tk_token t) = true →
  suffix_of [t] (λ def b root, post_step depth fuel def b root (step_op (tk_token t))).
Proof.
  intros Ht n def b root R R' X HX. cbn [app postfix_loop].
  eapply passes_bind; [apply passes_peek_type|]. destruct (tk_token t) eqn:E; try discriminate Ht;
    (eapply passes_bind; [by apply passes_skip|]); apply parses_ev_bind; intros [b1 r1]; apply HX.
Qed.

Lemma chains N c : knows N → (length (chain_tokens c) ≤ S N)%nat → good_chain c →
  ∃ k, (k < length (chain_tokens c))%nat ∧ chain_of k c.
Proof.
  intros HN. induction c as [t|t|t|o e c|a IH o e c|a IH t m|a IH t m|a IH t]; cbn [good_chain chain_tokens]; intros Hle Hg.
  - exists 0%nat. split; [cbn; lia|]. apply (chain_base _ (λ def b, _ ← variable t b; mret b)).
    + intros def b R HR. by apply starts_name.
    + intros def b p. cbn [walk]. symmetry. unbracket.
  - exists 0%nat. split; [cbn; lia|]. apply (chain_base _ (λ def b, _ ← number depth t b; mret b)).
    + intros def b R HR. by apply starts_number.
    + intros def b p. cbn [walk]. symmetry. unbracket.
  - exists 0%nat. split; [cbn; lia|]. apply (chain_base _ (λ def b, _ ← literal depth t b; mret b)).
    + intros def b R HR. by apply starts_literal.
    + intros def b p. cbn [walk]. symmetry. unbracket.
  - destruct Hg as (Ho & Hge & Hc). cbn [length] in *. rewrite length_app in *. cbn [length] in *.
    exists 0%nat. split; [cbn; lia|]. apply (chain_base _ (λ def b, _ ← enter e; translate depth fuel e def b)).
    + intros def b R HR. apply starts_paren; [done|done|]. apply HN; [done|apply level_max|lia|done].
    + intros def b p. cbn [walk]. symmetry. unbracket.
  - destruct Hg as (Hga & Ho & Hge & Hc). rewrite length_app in *. cbn [length] in *. rewrite length_app in *. cbn [length] in *.
    destruct IH as (k & Hk & Hch); [lia|done|]. exists (S k). split; [lia|].
    eapply chain_more; [exact Hch| |reflexivity| |intros def b p; reflexivity].
    + apply suffix_index; [done|done|]. apply HN; [done|apply level_max|lia|done].
    + cbn. by rewrite Ho.
  - destruct Hg as (Hga & Ht & Hm). rewrite length_app in *. cbn [length] in *.
    destruct IH as (k & Hk & Hch); [lia|done|]. exists (S k). split; [lia|].
    eapply chain_more; [exact Hch|by apply suffix_dot|reflexivity| |intros def b p; reflexivity]. cbn. by rewrite Ht.
  - destruct Hg as (Hga & Ht & Hm). rewrite length_app in *. cbn [length] in *.
    destruct IH as (k & Hk & Hch); [lia|done|]. exists (S k). split; [lia|].
    eapply chain_more; [exact Hch|by apply suffix_arrow|reflexivity| |intros def b p; reflexivity]. cbn. by rewrite Ht.
  - destruct Hg as (Hga & Ht). rewrite length_app in *. cbn [length] in *.
    destruct IH as (k & Hk & Hch); [lia|done|]. exists (S k). split; [lia|].
    eapply chain_more; [exact Hch|by apply suffix_step|reflexivity| |intros def b p; reflexivity]. cbn. by destruct (tk_token t).
Qed.

Lemma postfix_loop_stops n R def b root : (0 < n)%nat → stop_at 0 R →
  parses R R (postfix_loop depth fuel g n def b root) (_ ← put_expr b root; mret b).
Proof.
  intros Hn (t & R' & -> & HR)%stop_cons. destruct n as [|n]; [lia|]. cbn [postfix_loop]. specialize (HR 0%nat ltac:(lia)).
  eapply passes_bind; [apply passes_peek_type|]. cbn [continues] in HR.
  destruct (tk_token t); try discriminate HR; (apply parses_ev_bind; intros _; apply parses_ret).
Qed.

Lemma accepts_chain N c : knows N → (length (chain_tokens c) ≤ S N)%nat → (length (chain_tokens c) ≤ fuel)%nat →
  good_chain c → accepts (rule 0) 0 (Post c).
Proof.
  intros HN Hle Hf Hg def b R HR. apply parses_ret_bind. cbn [tokens rule translate].
  destruct (chains N c HN Hle Hg) as (k & Hk & Hc).
  assert (Hn : no_call R).
  { destruct (stop_cons _ _ HR) as (t & R' & -> & Hs). cbn. intros E. specialize (Hs 0%nat ltac:(lia)). by rewrite E in Hs. }
  assert (Hend : ∀ b root, parses R R (postfix_loop depth fuel g (fuel - k) def b root) (_ ← put_expr b root; mret b)).
  { intros b1 root. apply postfix_loop_stops; [lia|done]. }
  pose proof (Hc (fuel - k)%nat def b R R _ Hn Hend) as Hp. replace (k + (fuel - k))%nat with fuel in Hp by lia.
  unfold postfix_expression, postfix. eapply parses_ext; [|intros p; reflexivity|exact Hp].
  intros s. unfold start, mbind, P_bind. by destruct (_ s) as [[s1 x]| |].
Qed.

(** ** All of it *)

Lemma accepts_up e k : good e → (0 < fuel)%nat → (level_of e ≤ k < 15)%nat → accepts (rule k) k e → accepts (rule (S k)) (S k) e.
Proof.
  intros Hg Hf [Hl Hk] He. destruct (decide (2 ≤ k ≤ 9)%nat) as [H1|H1].
  { apply accepts_binary; [lia|done|]. by replace (S k - 1)%nat with k by lia. }
  assert (k = 0 ∨ k = 1 ∨ k = 10 ∨ k = 11 ∨ k = 12 ∨ k = 13 ∨ k = 14)%nat as Hc by lia.
  destruct Hc as [->|[->|[->|[->|[->|[->| ->]]]]]].
  - destruct e; cbn [level_of good] in *; try lia; [by apply accepts_unary| |case_match; lia].
    destruct Hg as (k & o & Hi & _). rewrite Hi in Hl. apply infix_level in Hi. lia.
  - by apply accepts_cast.
  - by apply accepts_and.
  - by apply accepts_or.
  - by apply accepts_conditional.
  - by apply accepts_assignment.
  - by apply accepts_comma.
Qed.

(** An expression is accepted by the rule of its level. *)
Lemma accepts_level N e : knows N → reads_words N → (length (tokens e) ≤ S N)%nat → (length (tokens e) ≤ fuel)%nat →
  below (length (tokens e)) → good e → accepts (rule (level_of e)) (level_of e) e.
Proof.
  intros HN HW Hle Hf HB Hg.
  destruct e as [c|t e|t e|t e|o ws c e|l t r|l t r|c q a k b|l t r|l t r].
  - by apply (accepts_chain N).
  - apply (accepts_prefix N); [done| |done]. cbn [tokens length] in Hle. lia.
  - apply (accepts_step N); [done| |done]. cbn [tokens length] in Hle. lia.
  - apply (accepts_sizeof N); [done| |done]. cbn [tokens length] in Hle. lia.
  - by apply (accepts_cast_to N).
  - by apply accepts_infix.
  - by apply (accepts_logic N).
  - by apply (accepts_cond N).
  - by apply (accepts_assign N).
  - by apply accepts_commas.
Qed.

Lemma accepts_all N : knows N → reads_words N → below (S (S N `min` fuel)).
Proof.
  intros HN HW. assert (HL : ∀ L, (L ≤ S (S N `min` fuel))%nat → below L); [|by apply HL].
  induction L as [|L IH]; intros HL e k He Hg Hk; [lia|].
  destruct (decide (length (tokens e) = L)) as [Heq|Hne]; [|apply IH; [lia|lia|done|done]].
  assert (Hlev : accepts (rule (level_of e)) (level_of e) e).
  { apply (accepts_level N); [done|done|lia|lia| |done]. rewrite Heq. apply IH. lia. }
  assert (Hf : (0 < fuel)%nat). { destruct (expr_begins e Hg) as (t & l & Ht & _). rewrite Ht in *. cbn [length] in *. lia. }
  destruct Hk as [Hk1 Hk2]. remember (k - level_of e)%nat as n eqn:En. revert k Hk1 Hk2 En.
  induction n as [|n IHn]; intros k Hk1 Hk2 En.
  - by replace k with (level_of e) by lia.
  - destruct k as [|k]; [lia|]. apply accepts_up; [done|done|lia|]. apply IHn; lia.
Qed.
End rules.

(** ** Words of types *)

Section grammar.
Context {T : Type} `{TS : TokensServed T} `{FA : FloatArith} (depth fuel : nat) (standard : cstd).
Abbreviation gr := (grammar_of (T := T) depth fuel standard).

Lemma sign_passes x y t s R : has_sign s = false → x ≠ S_NONE → y ≠ S_NONE →
  passes (t :: R) R (sign_spec x y s) (Some (ss_set_sign x s)).
Proof.
  intros Hs%negb_false_iff%bool_decide_eq_true Hx Hy. unfold sign_spec. eapply passes_bind; [apply passes_next|].
  rewrite !bool_decide_false by congruence. apply passes_ret.
Qed.
Lemma take_passes t s R : passes (t :: R) R (take_spec s) (Some s).
Proof. eapply passes_bind; [apply passes_next|apply passes_ret]. Qed.

Lemma word_step g t s s' R : word (tk_token t) s = Some s' →
  passes (t :: R) R (specifier_step depth fuel standard g false false false t s) (Some s').
Proof.
  unfold word, specifier_step. intros Hw.
  destruct (tk_token t); try discriminate Hw; try (case_match; [discriminate Hw|]); try (case_match; [|discriminate Hw]);
    injection Hw as <-; try apply take_passes; by apply sign_passes.
Qed.

Lemma words_loop g ws c R s s' n : words ws s = Some s' → tk_token c = CLOSE_PAREN → (length ws < n)%nat →
  passes (ws ++ c :: R) (c :: R) (specifiers_loop depth fuel standard g n false false false s) s'.
Proof.
  intros Hw Hc. revert s n Hw. induction ws as [|w ws IH]; intros s n Hw Hn; (destruct n as [|n]; [cbn in Hn; lia|]);
    cbn [app words specifiers_loop length] in *; (eapply passes_bind; [apply passes_peek|]).
  - injection Hw as ->. unfold specifier_step. rewrite Hc. eapply passes_bind; [apply passes_ret|apply passes_ret].
  - apply bind_Some in Hw as (s1 & Hw1 & Hw). eapply passes_bind; [by apply word_step|]. apply IH; [done|lia].
Qed.

(** ** The grammar as a whole *)

Lemma grammar_knows n : knows depth fuel (gr n) (n `min` fuel) ∧ reads_words (gr n) (n `min` fuel).
Proof.
  induction n as [|n [IH IHw]].
  - split; [|intros ws c R s Hle; cbn in Hle; lia].
    intros e k r Hg _ Hle _. destruct (expr_begins e Hg) as (t & l & Ht & _). rewrite Ht in Hle. cbn in Hle. lia.
  - split.
    + intros e k r Hg Hl Hle Hr.
      assert (Hk : (k ≤ 15)%nat) by (destruct (decide (k ≤ 15)%nat); [done|]; do 16 (destruct k as [|k]; [lia|]); discriminate Hr).
      assert (Ha : accepts depth fuel (rule depth fuel standard (gr n) k) k e).
      { apply (accepts_all depth fuel standard (gr n) _ IH IHw); [lia|done|done]. }
      destruct k as [|[|[|k]]]; try discriminate Hr; [injection Hr as <-; exact Ha|injection Hr as <-; exact Ha|].
      do 8 (destruct k as [|k]; [discriminate Hr|]).
      do 5 (destruct k as [|k]; [injection Hr as <-; exact Ha|]). discriminate Hr.
    + intros ws c R s Hle Hw Hc. cbn [grammar_of g_declaration_specifiers rules]. unfold declaration_specifiers.
      eapply passes_bind; [eapply words_loop; [exact Hw|exact Hc|lia]|apply passes_ret].
Qed.

(** The rule of a level, in the grammar of nesting [n], reads every expression
    of at most [n + 1] and [fuel] tokens. *)
Lemma rule_accepts n k e : good e → (level_of e ≤ k ≤ 15)%nat → (length (tokens e) ≤ S n)%nat → (length (tokens e) ≤ fuel)%nat →
  accepts depth fuel (rule depth fuel standard (gr n) k) k e.
Proof.
  intros Hg Hk Hn Hf. destruct (grammar_knows n) as [HN HW].
  apply (accepts_all depth fuel standard (gr n) _ HN HW); [lia|done|done].
Qed.
End grammar.
