(* ===== verification/ParseSpec.v ===== *)
(** * From the tokens of an expression to its value

    An expression is parsed as the tree it stands for; where it is an integer
    expression over visible variables, the code that is emitted for it computes
    its value.  The instances read the expression from a text, through the
    preprocessor. *)

From stdpp Require Import base list gmap numbers strings.
From Stdlib Require Import ZArith Lia.
From S2P Require Import Prelude Memory Token Lexer Macro MacroProps Preproc PreprocSpec CType Floats CArith Strings Symbol Typetree TypetreeSpec Symtab Hash SymtabProps SymtabSpec.
From S2P Require Import Immediate Ir IrSem Cfg Eval Assign EvalProps EvalSem EvalOps EvalSpec VmMove VmGenSem.
From S2P Require Import Parser Expression Initializer Declaration Statement Grammar Syntax ParseProps ParseRules.

Local Open Scope Z_scope.

(** ** Integer expressions *)

Section integers.
(** The variables that names stand for. *)
Context (names : list Z → option var).

Fixpoint int_tree (e : expr) : option tree :=
  match e with
  | Post c => chain_tree c
  | Prefix t e =>
    x ← int_tree e;
    match tk_token t with
    | PLUS => Some (Unary UPlus x) | MINUS => Some (Unary UMinus x) | NEG => Some (Unary UNot x)
    | _ => None
    end
  | Cast _ ws _ e => t ← words_type ws; x ← int_tree e; Some (Convert t x)
  | Infix l t r =>
    '(_, (swap, op)) ← infix (tk_token t); x ← int_tree l; y ← int_tree r; Some (Binary swap op x y)
  | _ => None
  end
with chain_tree (c : chain) : option tree :=
  match c with
  | Name t => match tk_d t with D_string s => v ← names (str_raw s); Some (Leaf v) | _ => None end
  | Number t => match tk_d t with D_val u => Some (Leaf (var_numeric (tk_type t) u)) | _ => None end
  | Paren _ e _ => int_tree e
  | _ => None
  end.
End integers.

(** The strings of tokens are as the tokenizer makes them. *)
Definition token_wf (t : token) : Prop :=
  match tk_d t with D_string s => wf_string s | D_val _ => True end.

Definition builtin_names : list (list Z) :=
  [cstr "__builtin_va_start"; cstr "__builtin_va_arg"; cstr "__builtin_alloca"].
(** The variable of a symbol that is no constant, type or label. *)
Definition variable_of (r : symref) (y : symbol) : option var :=
  match sym_symtype y with
  | SYM_DEFINITION | SYM_TENTATIVE | SYM_DECLARATION =>
    Some (Var DIRECT (sym_type y) (Some r) 0 0 0 (negb (is_temporary y)) 0)
  | _ => None
  end.

(** The names stand for variables that are visible. *)
Record visible (names : list Z → option var) (envs : nsid → list bindings) (p : parser) : Prop := Visible {
  vi_tab : symtab_ok (ps_tab p) envs;
  vi_name x v : names x = Some v → (x ∉ builtin_names) ∧ (∃ r y, env_lookup (envs NS_IDENT) x = Some r ∧
    sb_symbols (ps_tab p) !! r = Some y ∧ variable_of r y = Some v)
}.

Lemma marked_same y y' r : marked y y' → variable_of r y' = variable_of r y ∧ sym_symtype y' = sym_symtype y ∧
  Symbol.sym_name y' = Symbol.sym_name y.
Proof. by intros [->| ->]. Qed.

(** A symbol with a name is in use. *)
Lemma bound_not_idle s envs id x r : symtab_ok s envs → env_lookup (envs id) x = Some r → ¬ idle s r ∧ named s r x.
Proof.
  intros Hok (m & Hin & Hm)%env_lookup_elem. destruct (so_bound _ _ Hok id m x r Hin Hm) as [Hr Hn]. split; [|done].
  destruct Hn as (y & Hy & _). intros [Ht|Ht]; [|congruence].
  pose proof (so_owned _ _ Hok) as Hnd. unfold owned in Hnd. rewrite !app_assoc in Hnd.
  apply NoDup_app in Hnd as (_ & Hdis & _). apply (Hdis r); [|done]. rewrite !elem_of_app. destruct id; auto.
Qed.

Section values.
Context `{FA : FloatArith} (d0 : nat) (ts : typetab) (ys : symbols) (M : machine) (d : defref) (b : bref) (fuel : nat).
Context (names : list Z → option var) (envs : nsid → list bindings).
Abbreviation depth := (S d0).
Abbreviation knot_at := (evaluator depth (S fuel)).
Hypothesis Hop : ∀ e l r, operate M e l r = c_operate e l r.

Definition scope_ready (n : Z) (p : parser) : Prop := ready d b ts n p ∧ visible names envs p.

Lemma visible_emitted p q l c : visible names envs p → emitted d b p q l c → visible names envs q.
Proof.
  intros [Ht Hn] Hem. split; [by apply (em_tab _ _ _ _ _ _ Hem)|]. intros x v Hx.
  destruct (Hn x v Hx) as (Hb & r & y & Hr & Hy & Hv). split; [done|].
  destruct (em_kept _ _ _ _ _ _ Hem r y) as (y' & Hy' & Hm); [by eapply bound_not_idle|done|].
  exists r, y'. split; [done|]. split; [done|]. by rewrite (proj1 (marked_same _ _ r Hm)).
Qed.

Lemma scope_emission : emission scope_ready (emitted d b).
Proof.
  split.
  - intros n p [Hp _]. apply emitted_refl; apply Hp.
  - intros n p q r l l' c c' [Hp _]. apply emitted_trans; apply Hp.
  - intros n n' p q l c [Hp Hv] Hem Hn. split; [by eapply ready_emitted|by eapply visible_emitted].
  - intros n n' p [Hp Hv] Hn. split; [by eapply ready_le|done].
Qed.

Abbreviation writes := (triple d0 ts ys M scope_ready (emitted d b)).

Lemma gives_writes {A} n (G : E A) (St : A → Prop) Pre Post : gives False d0 ts ys M d b n G St Pre Post → writes n G St Pre Post.
Proof.
  intros HG p [Hp _]. destruct (HG p Hp) as (q & a & l & c & He & [Hem _] & Hr). by exists q, a, l, c.
Qed.

(** The value of a block, stored and read again. *)
Lemma put_expr_ok e p : is_Some (ps_blocks p !! b) → is_Some (ps_defs p !! d) →
  ∃ q, put_expr b e p = Ok (q, tt) ∧ block_expr b q = Ok (q, e) ∧ emitted d b p q [] [].
Proof.
  intros [x Hx] [y Hy]. exists (ps_set_block b (set_expr e x) p). split; [|split].
  - unfold put_expr, change_block. rewrite (E_step _ _ p p x); [done|]. unfold the_block, get_block. by rewrite Hx.
  - unfold block_expr. rewrite (E_step _ _ _ (ps_set_block b (set_expr e x) p) (set_expr e x)); [done|].
    unfold the_block, get_block. cbn. by rewrite lookup_insert_eq.
  - split; try done.
    + intros x' Hx'. exists e. assert (x' = x) as -> by congruence. cbn. f_equal. destruct x. unfold add_code, set_code, set_expr. cbn.
      by rewrite app_nil_r.
    + intros y' Hy'. cbn. rewrite insert_id; [done|]. rewrite Hy'. f_equal. destruct y'. unfold add_locals. cbn. by rewrite app_nil_r.
    + split; [constructor|]. intros r Hr. by apply elem_of_nil in Hr.
    + intros r z _ Hz. exists z. split; [done|by left].
    + cbn. lia.
Qed.
Lemma writes_put {A} n e (F : expression → E A) (St : A → Prop) Pre Post : writes n (F e) St Pre Post →
  writes n (_ ← put_expr b e; x ← block_expr b; F x) St Pre Post.
Proof.
  intros HF p Hp. destruct (put_expr_ok e p) as (q & Hput & Hget & Hem); [apply Hp|apply Hp|].
  destruct (HF q) as (r & a & l & c & He & Hem' & Hr).
  { eapply em_left; [apply scope_emission|exact Hp|exact Hem|cbn; lia]. }
  exists r, a, l, c. split; [by rewrite (E_step _ _ _ _ _ Hput), (E_step _ _ _ _ _ Hget)|]. split; [|done].
  by apply (em_then _ _ scope_emission n p q r [] l [] c).
Qed.

(** ** Names *)

Lemma lookup_marks s x name r y : symtab_ok s envs → wf_string name → str_raw name = x →
  env_lookup (envs NS_IDENT) x = Some r → sb_symbols s !! r = Some y →
  sym_lookup s NS_IDENT name = Ok (put_sym r (with_referenced y) s, Some r) ∧ touched s (put_sym r (with_referenced y) s).
Proof.
  intros Hok Hw Hx Hr Hy. destruct (sym_lookup_ok s envs NS_IDENT name Hok Hw) as (s' & Hl & Ht). rewrite Hx, Hr in Hl.
  assert (s' = put_sym r (with_referenced y) s) as ->; [|done].
  unfold sym_lookup in Hl. apply bind_ok_inv in Hl as ([e|] & _ & Hl); [|discriminate Hl].
  apply bind_ok_inv in Hl as (y' & Hy' & Hl). injection Hl as <- Hr'. rewrite Hr' in *.
  unfold get_sym in Hy'. rewrite Hy in Hy'. by injection Hy' as <-.
Qed.

Lemma mark_emitted p r y : is_Some (ps_blocks p !! b) → is_Some (ps_defs p !! d) → sb_symbols (ps_tab p) !! r = Some y →
  touched (ps_tab p) (put_sym r (with_referenced y) (ps_tab p)) →
  emitted d b p (ps_set_tab (put_sym r (with_referenced y) (ps_tab p)) p) [] [].
Proof.
  intros Hb Hd Hy Ht. destruct (emitted_refl d b p Hb Hd) as [A1 A2 A3 A4 A5 A6 A7 A8 A9].
  assert (Hi : ∀ x, idle (put_sym r (with_referenced y) (ps_tab p)) x → idle (ps_tab p) x).
  { intros x [Hx|Hx]; [by left|]. right. cbn in Hx. apply lookup_insert_None in Hx. tauto. }
  split; try done.
  - split; [constructor|]. intros x Hx. by apply elem_of_nil in Hx.
  - intros x z _ Hz. cbn. destruct (decide (x = r)) as [->|Hx].
    + exists (with_referenced y). rewrite lookup_insert_eq. split; [done|]. right. congruence.
    + exists z. rewrite lookup_insert_ne by done. split; [done|by left].
  - intros envs' Henvs. by apply (touched_ok (ps_tab p)).
Qed.

Lemma lookup_writes name x v p n : wf_string name → str_raw name = x → names x = Some v → scope_ready n p →
  ∃ q r y, lookup_symbol NS_IDENT name p = Ok (q, Some r) ∧ emitted d b p q [] [] ∧ sb_symbols (ps_tab q) !! r = Some y ∧
    variable_of r y = Some v ∧ str_raw (Symbol.sym_name y) = x.
Proof.
  intros Hw Hx Hv [Hp [Ht Hn]]. destruct (Hn x v Hv) as (_ & r & y & Hr & Hy & Hvar).
  destruct (bound_not_idle _ _ _ _ _ Ht Hr) as [Hidle (y0 & Hy0 & Hname)]. assert (y0 = y) as -> by congruence.
  destruct (lookup_marks _ _ _ _ _ Ht Hw Hx Hr Hy) as [Hl Htou].
  exists (ps_set_tab (put_sym r (with_referenced y) (ps_tab p)) p), r, (with_referenced y).
  split; [unfold lookup_symbol, on_symbols; by rewrite Hl|]. split; [apply mark_emitted; [apply Hp|apply Hp|done|done]|].
  split; [cbn; by rewrite lookup_insert_eq|]. done.
Qed.

Lemma variable_ok t name x v p n : tk_d t = D_string name → wf_string name → str_raw name = x → names x = Some v → scope_ready n p →
  ∃ q, variable t b p = put_expr b (Eval.as_expr v) q ∧ emitted d b p q [] [].
Proof.
  intros Ht Hw Hx Hv Hp. destruct (lookup_writes name x v p n Hw Hx Hv Hp) as (q & r & y & Hl & Hem & Hy & Hvar & Hname).
  exists q. split; [|done]. unfold variable. rewrite (E_step _ _ p p name) by (apply lift_ok; unfold tok_string; by rewrite Ht).
  rewrite (E_step _ _ p q r) by (unfold find_symbol; rewrite (E_step _ _ _ _ _ Hl); done).
  assert (Hg : the_symbol (Some r) q = Ok (q, y)) by (unfold the_symbol, get_sym; by rewrite Hy).
  rewrite (E_step _ _ _ _ _ Hg). destruct Hp as [_ [_ Hn]]. pose proof (proj1 (Hn x v Hv)) as Hb. clear Hn.
  unfold is_named. rewrite Hname, !bool_decide_false by (intros ->; apply Hb; unfold builtin_names; set_solver). cbn [orb].
  rewrite (E_step _ _ q q v); [done|]. unfold Eval.var_direct. rewrite (E_step _ _ _ _ _ Hg). unfold variable_of in Hvar.
  destruct (sym_symtype y); try discriminate Hvar; by injection Hvar as <-.
Qed.

(** The variable of a name, in front of what uses it. *)
Lemma writes_name {A} n t name x v (F : expression → E A) (St : A → Prop) Pre Post :
  tk_d t = D_string name → wf_string name → str_raw name = x → names x = Some v →
  writes n (F (Eval.as_expr v)) St Pre Post →
  writes n (_ ← variable t b; x ← block_expr b; F x) St Pre Post.
Proof.
  intros Ht Hw Hx Hv HF p Hp. destruct (variable_ok t name x v p n Ht Hw Hx Hv Hp) as (q & Hq & Hem).
  destruct (writes_put n (Eval.as_expr v) F St Pre Post HF q) as (r & a & l & c & He & Hem' & Hr).
  { eapply em_left; [apply scope_emission|exact Hp|exact Hem|cbn; lia]. }
  exists r, a, l, c. split; [|split; [by apply (em_then _ _ scope_emission n p q r [] l [] c)|done]].
  rewrite <-He. unfold mbind, E_bind. by rewrite Hq.
Qed.

(** Looking whether a name is a type. *)
Lemma writes_not_a_type {A} n t (G : E A) (St : A → Prop) Pre Post :
  (tk_token t = IDENTIFIER → ∃ name v, tk_d t = D_string name ∧ wf_string name ∧ names (str_raw name) = Some v) →
  writes n G St Pre Post → writes n (_ ← not_a_type t; G) St Pre Post.
Proof.
  intros Ht HG p Hp. unfold not_a_type. case_bool_decide as Hid; [|by apply HG].
  destruct (Ht Hid) as (name & v & Hd & Hw & Hv).
  destruct (lookup_writes name _ v p n Hw eq_refl Hv Hp) as (q & r & y & Hl & Hem & Hy & Hvar & _).
  destruct (HG q) as (q' & a & l & c & He & Hem' & Hr).
  { eapply em_left; [apply scope_emission|exact Hp|exact Hem|cbn; lia]. }
  exists q', a, l, c. split; [|split; [by apply (em_then _ _ scope_emission n p q q' [] l [] c)|done]].
  rewrite <-He. rewrite (E_step _ _ p q tt); [done|].
  rewrite (E_step _ _ p p name) by (apply lift_ok; unfold tok_string; by rewrite Hd).
  rewrite (E_step _ _ p q None); [done|]. unfold get_typedef. rewrite (E_step _ _ _ _ _ Hl).
  rewrite (E_step _ _ q q y) by (unfold the_symbol, get_sym; by rewrite Hy).
  rewrite bool_decide_false; [done|]. intros Hs. unfold variable_of in Hvar. by rewrite Hs in Hvar.
Qed.

Lemma first_name e T t l : good e → Forall token_wf (tokens e) → int_tree names e = Some T → tokens e = t :: l →
  tk_token t = IDENTIFIER → ∃ name v, tk_d t = D_string name ∧ wf_string name ∧ names (str_raw name) = Some v.
Proof.
  revert T l. induction e as [c|u e IH|u e IH|u e IH|o ws c e IH|e1 IH1 u e2 IH2|e1 IH1 u e2 IH2|c IHc q a IHa j e IHe|e1 IH1 u e2 IH2|e1 IH1 u e2 IH2];
    intros T l Hg Hwf HT Ht Hid; try discriminate HT.
  - destruct c as [u|u|u|o e c|a o e c|a u n|a u n|a u]; cbn [tokens chain_tokens good good_chain int_tree chain_tree] in *; try discriminate HT.
    + injection Ht as -> _. apply Forall_cons in Hwf as [Hwf _]. unfold token_wf in Hwf.
      destruct (tk_d t) as [name|]; [|discriminate HT]. apply bind_Some in HT as (v & Hv & _). by exists name, v.
    + injection Ht as -> _. congruence.
    + injection Ht as -> _. destruct Hg as [Hg _]. congruence.
  - cbn [tokens good] in *. injection Ht as -> _. destruct Hg as [Hg _]. by rewrite Hid in Hg.
  - cbn [tokens good] in *. injection Ht as -> _. destruct Hg as [Hg _]. congruence.
  - cbn [tokens good int_tree] in *. destruct Hg as (k & o & _ & Hg & _). apply bind_Some in HT as ([k' [sw op]] & _ & HT).
    apply bind_Some in HT as (x & HT & _). apply Forall_app in Hwf as [Hwf _].
    destruct (expr_begins e1 Hg) as (t' & l' & He1 & _). rewrite He1 in Ht. injection Ht as -> _. by eapply (IH1 x l').
Qed.

Lemma writes_enter {A} n e T (G : E A) (St : A → Prop) Pre Post : good e → Forall token_wf (tokens e) → int_tree names e = Some T →
  writes n G St Pre Post → writes n (_ ← enter e; G) St Pre Post.
Proof.
  intros Hg Hwf HT HG. unfold enter. destruct (level_of e <=? 1)%nat eqn:El; [|exact HG].
  destruct (tokens e) as [|o [|t l]] eqn:Et; [exact HG|exact HG|]. destruct (is_tok OPEN_PAREN o) eqn:Eo; [|exact HG].
  apply is_tok_spec in Eo. apply writes_not_a_type; [|exact HG]. intros Hid.
  assert (∃ e' x l', good e' ∧ Forall token_wf (tokens e') ∧ int_tree names e' = Some x ∧ tokens e' = t :: l') as (e' & x & l' & ? & ? & ? & ?).
  2:{ by eapply first_name. }
  destruct e as [c|u e|u e|u e|o' ws c e|e1 u e2|e1 u e2|c q a j e|e1 u e2|e1 u e2]; try discriminate HT.
  - destruct c as [u|u|u|o' e c|a o' e c|a u m|a u m|a u]; cbn [tokens chain_tokens good good_chain int_tree chain_tree] in *; try discriminate HT; try discriminate Et.
    injection Et as -> Et. destruct Hg as (_ & Hg & _). destruct (expr_begins e Hg) as (t' & l' & He & _).
    apply Forall_cons in Hwf as [_ Hwf]. rewrite <-Et in Hwf. apply Forall_app in Hwf as [Hwf _].
    exists e, T, l'. rewrite He in Et |- *. injection Et as -> Et. by rewrite <-He.
  - cbn [tokens good] in *. injection Et as -> _. rewrite Eo in Hg. by destruct Hg as [Hg _].
  - discriminate El.
  - pose proof Hg as (k & op & Hi & _). cbn [level_of] in El. rewrite Hi in El. apply infix_level in Hi. apply Nat.leb_le in El. lia.
Qed.

(** *** The code for a tree *)

Context (m0 : mem).
Definition computed (b0 : bref) (e : expr) : E (bref * expression) :=
  _ ← enter e; b' ← translate depth (S fuel) e (Some d) b0; x ← block_expr b'; mret (b', x).

Definition holds_value (k : ity) (z : Z) (r : bref * expression) : Prop := r.1 = b ∧ eshape False d0 ts r.2 k z.
Definition yields_value (k : ity) (z : Z) (r : bref * expression) (m : mem) (U : list symref) : Prop :=
  yields d0 ts ys M U m r.2 (le_enc (isize k) z).
Definition writes_tree (G : E (bref * expression)) (T : tree) (k : ity) (z : Z) : Prop :=
  writes (room T) G (holds_value k z) (undisturbed d0 ts ys M m0 T) (yields_value k z).

(** A subtree, committed to a variable. *)
Lemma committed_writes e T k a : writes_tree (computed b e) T k a →
  writes (room T + 1) ('(b', x) ← computed b e; v ← Eval.eval depth (Some d) (Some b') x; mret (b', v))
    (λ '(b', v), b' = b ∧ shape False v k a) (undisturbed d0 ts ys M m0 T)
    (λ '(b', v) m U, steady d0 ts ys M U m v (le_enc (isize k) a)).
Proof.
  intros He. pose proof (room_nonneg T).
  eapply (triple_bind d0 ts ys M scope_emission (room T) 1 _ _ _ _ _ _ _ _ (yields_value k a)); [exact He| |done|done|done|done|done].
  intros [b' x] [Hb Hx]. cbn [fst snd] in Hb, Hx. subst b'.
  eapply (triple_bind d0 ts ys M scope_emission 1 0 _ _ _ _ _ _ _ _
    (λ v m U, steady d0 ts ys M U m v (le_enc (isize k) a)));
    [exact (gives_writes _ _ _ _ _ (eval_gives False d0 ts ys M d b x k a Hx))| |done|done|done|done|by intros v l U m m' _ _ _ Hp].
  intros v [Hv _]. apply triple_ret; [apply scope_emission|done|done|]. intros m U Hs. exact Hs.
Qed.

Definition committed (b0 : bref) (e : expr) : E (bref * var) :=
  '(b', x) ← computed b0 e; v ← Eval.eval depth (Some d) (Some b') x; mret (b', v).
Definition stored (b' : bref) (G : E expression) : E (bref * expression) :=
  y ← G; _ ← put_expr b' y; x ← block_expr b'; mret (b', x).

Lemma stored_writes n (G : E expression) k z Pre : 0 ≤ n →
  writes n G (λ x, eshape False d0 ts x k z) Pre (λ x m U, yields d0 ts ys M U m x (le_enc (isize k) z)) →
  writes n (stored b G) (holds_value k z) Pre (yields_value k z).
Proof.
  intros Hn HG. eapply (triple_bind d0 ts ys M scope_emission n 0 _ _ _ _ _ _ _ _
    (λ y m U, yields d0 ts ys M U m y (le_enc (isize k) z))); [exact HG| |done|done|lia|done|done].
  intros y Hy. apply writes_put. apply triple_ret; [apply scope_emission|done|done|]. intros m U Hs. exact Hs.
Qed.

Lemma unary_writes e T k a n (op : bref → var → E expression) k' z (G : E (bref * expression)) : 0 ≤ n →
  writes_tree (computed b e) T k a →
  (∀ v, shape False v k a → gives False d0 ts ys M d b n (op b v) (λ x, eshape False d0 ts x k' z)
    (λ m U, steady d0 ts ys M U m v (le_enc (isize k) a)) (λ x m U, yields d0 ts ys M U m x (le_enc (isize k') z))) →
  (∀ p, G p = ('(b1, v) ← committed b e; stored b1 (op b1 v)) p) →
  writes (room T + 1 + n) G (holds_value k' z) (undisturbed d0 ts ys M m0 T) (yields_value k' z).
Proof.
  intros Hn He Hop' HG. eapply triple_ext; [exact HG|]. pose proof (room_nonneg T).
  eapply (triple_bind d0 ts ys M scope_emission (room T + 1) n _ _ _ _ _ _ _ _
    (λ '(b', v) m U, steady d0 ts ys M U m v (le_enc (isize k) a))); [exact (committed_writes e T k a He)| |lia|done|lia|done|].
  - intros [b1 v] [-> Hv]. apply stored_writes; [done|]. apply gives_writes. by apply Hop'.
  - by intros [b1 v] l U m m' _ _ _ Hp.
Qed.

Lemma binary_writes e1 e2 T1 T2 kl kr a c (op : bref → var → var → E expression) k z (G : E (bref * expression)) :
  writes_tree (computed b e1) T1 kl a → writes_tree (computed b e2) T2 kr c →
  (∀ v w, shape False v kl a → shape False w kr c → gives False d0 ts ys M d b 2 (op b v w) (λ x, eshape False d0 ts x k z)
    (λ m U, steady d0 ts ys M U m v (le_enc (isize kl) a) ∧ steady d0 ts ys M U m w (le_enc (isize kr) c))
    (λ x m U, yields d0 ts ys M U m x (le_enc (isize k) z))) →
  (∀ p, G p = ('(b1, v) ← committed b e1; '(b2, w) ← committed b1 e2; stored b2 (op b2 v w)) p) →
  writes (room T1 + room T2 + 4) G (holds_value k z)
    (λ m U, undisturbed d0 ts ys M m0 T1 m U ∧ undisturbed d0 ts ys M m0 T2 m U) (yields_value k z).
Proof.
  intros H1 H2 Hop' HG. eapply triple_ext; [exact HG|]. pose proof (room_nonneg T1). pose proof (room_nonneg T2).
  eapply (triple_bind d0 ts ys M scope_emission (room T1 + 1) (room T2 + 3) _ _ _ _ _ _ _ _
    (λ '(b', v) m U, steady d0 ts ys M U m v (le_enc (isize kl) a) ∧ undisturbed d0 ts ys M m0 T2 m U));
    [exact (committed_writes e1 T1 kl a H1)| |lia|lia|lia|by intros m U [? _]|].
  - intros [b1 v] [-> Hv].
    eapply (triple_bind d0 ts ys M scope_emission (room T2 + 1) 2 _ _ _ _ _ _ _ _
      (λ '(b', w) m U, steady d0 ts ys M U m v (le_enc (isize kl) a) ∧ steady d0 ts ys M U m w (le_enc (isize kr) c)));
      [exact (committed_writes e2 T2 kr c H2)| |lia|lia|lia|by intros m U [_ ?]|].
    + intros [b2 w] [-> Hw]. apply stored_writes; [done|]. apply gives_writes. by apply Hop'.
    + intros [b2 w] l U m m' _ [Hs _] Ho Hp. split; [by eapply steady_next|done].
  - intros [b1 v] l U m m' _ [_ Hu] Ho Hp. split; [done|]. by eapply undisturbed_next.
Qed.

Definition expr_writes (e : expr) : Prop := ∀ T k z, good e → Forall token_wf (tokens e) → int_tree names e = Some T → well_formed T →
  (∀ v, v ∈ leaves T → leaf_ok d0 ts ys M False m0 v) → tree_value d0 ts ys M m0 T = Some (k, z) → writes_tree (computed b e) T k z.
Definition chain_writes (c : chain) : Prop := ∀ T k z, good_chain c → Forall token_wf (chain_tokens c) → chain_tree names c = Some T →
  well_formed T → (∀ v, v ∈ leaves T → leaf_ok d0 ts ys M False m0 v) → tree_value d0 ts ys M m0 T = Some (k, z) →
  writes_tree (walk depth (S fuel) c (Some d) b) T k z.

Lemma leaf_writes v T k z (G : E (bref * expression)) : T = Leaf v → (∀ v, v ∈ leaves T → leaf_ok d0 ts ys M False m0 v) →
  tree_value d0 ts ys M m0 T = Some (k, z) →
  (∀ Pre Post St, writes 0 (mret (b, Eval.as_expr v)) St Pre Post → writes 0 G St Pre Post) → writes_tree G T k z.
Proof.
  intros -> Hl Hv HG. destruct (Hl v) as (k' & a & Hs & Hb); [by left|]. cbn [tree_value] in Hv.
  rewrite (it_ity _ _ (sh_type _ _ _ _ Hs)), Hb in Hv. cbn [mbind option_bind] in Hv.
  rewrite (le_dec_value k' a (sh_range _ _ _ _ Hs)) in Hv. injection Hv as <- <-.
  apply HG. apply triple_ret; [apply scope_emission|done| |].
  - split; [done|]. by apply eshape_var.
  - intros m U Hu. apply (yields_var False); [done|done|]. apply Hu; [by left|done].
Qed.

Lemma name_writes t : chain_writes (Name t).
Proof.
  intros T k z Hg Hwf HT _ Hl Hv. cbn [chain_tree chain_tokens] in *. apply Forall_cons in Hwf as [Hwf _]. unfold token_wf in Hwf.
  destruct (tk_d t) as [name|] eqn:Hd; [|discriminate HT]. apply bind_Some in HT as (v & Hn & [= <-]).
  apply (leaf_writes v _ _ _ _ eq_refl Hl Hv). intros Pre Post St HF. cbn [walk].
  by apply (writes_name 0 t name (str_raw name) v (λ root, mret (b, root))).
Qed.

Lemma number_writes t : chain_writes (Number t).
Proof.
  intros T k z Hg Hwf HT _ Hl Hv. cbn [chain_tree chain_tokens] in *.
  destruct (tk_d t) as [|u] eqn:Hd; [discriminate HT|]. injection HT as <-.
  apply (leaf_writes _ _ _ _ _ eq_refl Hl Hv). intros Pre Post St HF. cbn [walk].
  intros p Hp. destruct (put_expr_ok (Eval.as_expr (var_numeric (tk_type t) u)) p) as (q & Hput & Hget & Hem); [apply Hp|apply Hp|].
  destruct (HF q) as (r & a & l & c & He & Hem' & Hr); [eapply em_left; [apply scope_emission|exact Hp|exact Hem|cbn; lia]|].
  exists r, a, l, c. split; [|split; [by apply (em_then _ _ scope_emission 0 p q r [] l [] c)|done]].
  rewrite <-He. rewrite (E_step _ _ p q tt); [by rewrite (E_step _ _ _ _ _ Hget)|].
  unfold number. rewrite (E_step _ _ p p u) by (apply lift_ok; unfold tok_val; by rewrite Hd).
  rewrite (E_step _ _ _ _ _ Hput). rewrite (E_step _ _ q q true); [done|].
  unfold identity, on_types. by rewrite identity_as_expr.
Qed.

Lemma enter_prefix t e : is_prefix (tk_token t) = true → enter (Prefix t e) = mret tt.
Proof.
  intros Ht. unfold enter. cbn [level_of Nat.leb tokens]. destruct (tokens e) as [|u l]; [done|].
  rewrite is_tok_decide, bool_decide_false; [done|]. intros E. by rewrite E in Ht.
Qed.

Lemma post_writes c : chain_writes c → expr_writes (Post c).
Proof.
  intros IH T k z Hg Hwf HT HwT Hl Hv. unfold writes_tree, computed. eapply writes_enter; [done|done|exact HT|].
  specialize (IH T k z Hg Hwf HT HwT Hl Hv). pose proof (room_nonneg T).
  assert (HG : ∀ p, (b' ← translate depth (S fuel) (Post c) (Some d) b; x ← block_expr b'; mret (b', x)) p =
    ('(b', x) ← walk depth (S fuel) c (Some d) b; stored b' (mret x)) p).
  { intros p. cbn [translate]. unfold stored. unbracket. }
  eapply triple_ext; [exact HG|]. eapply (triple_bind d0 ts ys M scope_emission (room T) 0 _ _ _ _ _ _ _ _ (yields_value k z));
    [exact IH| |done|done|lia|done|done].
  intros [b' x] [Hb Hx]. cbn [fst snd] in Hb, Hx. subst b'. apply stored_writes; [done|].
  apply triple_ret; [apply scope_emission|done|done|]. intros m U Hs. exact Hs.
Qed.
Definition unary_action (o : unary_op) (b' : bref) (v : var) : E expression :=
  match o with
  | UPlus => eval_unary_plus depth v
  | UMinus => apply_op depth (S fuel) (Some d) b' IR_OP_NEG v NoOperand
  | UNot => apply_op depth (S fuel) (Some d) b' IR_OP_NOT v NoOperand
  end.
Lemma prefix_unary t o x : is_prefix (tk_token t) = true →
  match tk_token t with PLUS => Some (Unary UPlus x) | MINUS => Some (Unary UMinus x) | NEG => Some (Unary UNot x) | _ => None end
    = Some (Unary o x) →
  ∀ b', prefix_action depth (S fuel) (tk_token t) (Some d) b' =
    (value ← value_of depth (Some d) b'; y ← unary_action o b' value; put_expr b' y).
Proof. intros Ht Ho b'. by destruct (tk_token t); try discriminate Ho; injection Ho as <-. Qed.

Lemma prefix_writes t e : expr_writes e → expr_writes (Prefix t e).
Proof.
  intros IH T k z Hg Hwf HT HwT Hl Hv. cbn [int_tree good tokens] in *. destruct Hg as (Ht & Hg & Hlev).
  apply bind_Some in HT as (x & Hx & HT). apply Forall_cons in Hwf as [_ Hwf].
  assert (∃ o, T = Unary o x) as [o ->]. { destruct (tk_token t); try discriminate HT; injection HT as <-; eauto. }
  pose proof (prefix_unary t o x Ht HT) as Ho.
  cbn [tree_value well_formed leaves] in *. apply bind_Some in Hv as ([ke a] & He & Hv).
  specialize (IH x ke a Hg Hwf Hx HwT Hl He). unfold writes_tree. cbn [room].
  replace (room x + 3) with (room x + 1 + 2) by lia.
  apply (unary_writes e x ke a 2 (unary_action o)); [done|exact IH| |].
  - intros v Hs. destruct o.
    + injection Hv as <- <-. eapply gives_weaken; [exact (eval_unary_plus_gives False d0 ts ys M d b Hop v ke a Hs)|done..].
    + apply bind_Some in Hv as (z' & Hz%to_option_inv & [= <- <-]).
      apply (eval_neg_gives False d0 ts ys M d b Hop _ _ (knot_unfold d0 fuel)); done.
    + unfold c_not in Hv. cbn in Hv. injection Hv as <- <-.
      eapply gives_weaken; [exact (eval_not_gives False d0 ts ys M d b Hop _ _ (knot_unfold d0 fuel) v ke a Hs)|done..].
  - intros p. unfold computed at 1, committed, stored, computed. rewrite enter_prefix by done. cbn [translate].
    unbracket. rewrite Ho. unfold value_of. unbracket.
Qed.

Lemma cast_writes o ws c e : expr_writes e → expr_writes (Cast o ws c e).
Proof.
  intros IH T k z Hg Hwf HT HwT Hl Hv. cbn [int_tree good tokens] in *. destruct Hg as (_ & _ & _ & _ & Hg & _).
  apply bind_Some in HT as (t & Ht & HT). apply bind_Some in HT as (x & Hx & [= <-]).
  apply Forall_cons in Hwf as [_ Hwf]. apply Forall_app in Hwf as [_ Hwf]. apply Forall_cons in Hwf as [_ Hwf].
  cbn [tree_value well_formed leaves] in *. apply bind_Some in Hv as ([ke a] & He & Hv). destruct HwT as [[kt Hk] HwT].
  rewrite (it_ity _ _ Hk) in Hv. injection Hv as <- <-.
  specialize (IH x ke a Hg Hwf Hx HwT Hl He). unfold writes_tree. cbn [room].
  replace (room x + 1) with (room x + 1 + 0) by lia.
  apply (unary_writes e x ke a 0 (λ b' v, apply_op depth (S fuel) (Some d) b' IR_OP_CAST v (OperandType t))); [done|exact IH| |].
  - intros v Hs. exact (eval_conversion_gives False d0 ts ys M d b Hop _ v ke a t kt Hs Hk).
  - intros p. unfold computed at 1, committed, stored, computed. rewrite enter_high by (cbn; lia). cbn [translate].
    rewrite Ht. cbn [default from_option id]. unfold convert_value, value_of. unbracket.
Qed.

Lemma infix_writes l t r : expr_writes l → expr_writes r → expr_writes (Infix l t r).
Proof.
  intros IHl IHr T k z Hg Hwf HT HwT Hl Hv. cbn [int_tree good tokens] in *. destruct Hg as (j & [swap op] & Hi & Hgl & _ & Hgr & _).
  rewrite Hi in HT. cbn [mbind option_bind] in HT. apply bind_Some in HT as (x & Hx & HT). apply bind_Some in HT as (y & Hy & [= <-]).
  apply Forall_app in Hwf as [Hwl Hwr]. apply Forall_cons in Hwr as [_ Hwr].
  cbn [tree_value well_formed leaves] in *. apply bind_Some in Hv as ([kl a] & Ha & Hv). apply bind_Some in Hv as ([kr c] & Hc & Hv).
  destruct HwT as (Hb & HwTl & HwTr).
  assert (Hll : ∀ v, v ∈ leaves x → leaf_ok d0 ts ys M False m0 v) by (intros v Hvl; apply Hl, elem_of_app; auto).
  assert (Hlr : ∀ v, v ∈ leaves y → leaf_ok d0 ts ys M False m0 v) by (intros v Hvl; apply Hl, elem_of_app; auto).
  specialize (IHl x kl a Hgl Hwl Hx HwTl Hll Ha). specialize (IHr y kr c Hgr Hwr Hy HwTr Hlr Hc).
  unfold writes_tree. cbn [room].
  eapply triple_weaken; [apply scope_emission| |done|done| |done].
  - apply (binary_writes l r x y kl kr a c (λ b' v w, apply_op depth (S fuel) (Some d) b' op
      (if swap then w else v) (OperandVar (if swap then v else w))) k z); [exact IHl|exact IHr| |].
    + intros v w Hsv Hsw. destruct swap.
      { eapply gives_weaken; [exact (eval_binary_gives False d0 ts ys M d b Hop _ _ (knot_unfold d0 fuel) op w v kr kl c a k z Hb Hsw Hsv Hv)|done|done| |done].
        by intros m U [? ?]. }
      exact (eval_binary_gives False d0 ts ys M d b Hop _ _ (knot_unfold d0 fuel) op v w kl kr a c k z Hb Hsv Hsw Hv).
    + intros p. unfold computed at 1, committed, stored, computed.
      rewrite enter_high by (cbn [level_of]; rewrite Hi; apply infix_level in Hi; lia). cbn [translate]. rewrite Hi.
      unfold value_of. unbracket.
  - intros m U Hu. split; intros v bs Hvl; apply Hu, elem_of_app; auto.
Qed.

Lemma paren_writes o e c : expr_writes e → chain_writes (Paren o e c).
Proof.
  intros IH T k z Hg Hwf HT HwT Hl Hv. cbn [chain_tree good_chain chain_tokens walk] in *. destruct Hg as (_ & Hg & _).
  apply Forall_cons in Hwf as [_ Hwf]. apply Forall_app in Hwf as [Hwf _]. by apply IH.
Qed.

Lemma translate_writes e : expr_writes e.
Proof.
  revert e. apply (expr_mind expr_writes chain_writes);
    try (intros; intros ? ? ? ? ? HT; cbn in HT; discriminate HT).
  - apply post_writes.
  - apply prefix_writes.
  - intros o ws c e. apply cast_writes.
  - intros l Hl t r Hr. by apply infix_writes.
  - apply name_writes.
  - apply number_writes.
  - intros o e He c. by apply paren_writes.
Qed.
End values.

Lemma block_expr_inv b p q y : block_expr b p = Ok (q, y) → q = p.
Proof.
  unfold block_expr. intros H. apply E_inv in H as (q' & x & Hx & H). injection H as <- _.
  unfold the_block in Hx. apply bind_ok_inv in Hx as (B & _ & Hx). by injection Hx as <- _.
Qed.
Lemma computed_inv `{FA : FloatArith} d0 d fuel b e p q b' y : computed d0 d fuel b e p = Ok (q, (b', y)) →
  (_ ← enter e; translate (S d0) (S fuel) e (Some d) b) p = Ok (q, b') ∧ block_expr b' q = Ok (q, y).
Proof.
  unfold computed. intros H. apply E_inv in H as (p1 & u & H1 & H). apply E_inv in H as (p2 & b1 & H2 & H).
  apply E_inv in H as (p3 & x & H3 & H). injection H as -> -> ->. pose proof (block_expr_inv _ _ _ _ H3) as ->.
  split; [|exact H3]. by rewrite (E_step _ _ _ _ _ H1).
Qed.

(** ** Theorems *)

(** C6: the parser reads expressions as the grammar of C has them: whatever tree of
    expressions fits the precedence and associativity of its operators, in front
    of a token that does not go on with it, its tokens are consumed, no more and
    no less, and the effect on symbols, types and flow graph, and the errors, are
    those of the calls of the evaluator that belong to the tree, from the left to
    the right.  Fuel and nesting of the number of tokens are enough. *)
Theorem expression_parsed `{TS : TokensServed T} `{FA : FloatArith} depth fuel standard n e def b s p st t R :
  good e → (length (tokens e) ≤ S n)%nat → (length (tokens e) ≤ fuel)%nat → stops 15 (tk_token t) = true →
  serves s (tokens e ++ t :: R) →
  match (_ ← enter e; translate depth fuel e def b) p with
  | Ok (p', b') => ∃ s', expression_rule depth fuel standard (grammar_of depth fuel standard n) def b (Front s p st) =
      Ok (Front s' p' st, b') ∧ serves s' (t :: R)
  | Exit msg => expression_rule depth fuel standard (grammar_of depth fuel standard n) def b (Front s p st) = Exit msg
  | Undef _ => True
  end.
Proof.
  intros Hg Hn Hf Ht Hs.
  exact (rule_accepts depth fuel standard n 15 e Hg (conj (level_max e) (le_n _)) Hn Hf def b (t :: R) Ht s p st Hs).
Qed.

(** C5: from tokens to values: an integer expression over visible variables,
    constants, casts, parentheses and operators is parsed to the code of its tree:
    the parser takes its tokens, appends code to the block and makes temporaries,
    and where these have storage of their own, the code runs, changes no other
    memory, and the value of the block is then the value of the expression by the
    rules of C, in its type. *)
Theorem expression_compiled `{TS : TokensServed T} `{FA : FloatArith} d0 ts ys M d b fuel standard n names envs e x s p st t R m k z :
  (∀ e l r, operate M e l r = c_operate e l r) →
  good e → (length (tokens e) ≤ S n)%nat → (length (tokens e) ≤ S fuel)%nat → stops 15 (tk_token t) = true →
  serves s (tokens e ++ t :: R) → Forall token_wf (tokens e) →
  ready d b ts (room x) p → visible names envs p →
  int_tree names e = Some x → well_formed x → (∀ v, v ∈ leaves x → leaf_ok d0 ts ys M False m v) →
  tree_value d0 ts ys M m x = Some (k, z) →
  ∃ s' q l c y, expression_rule (S d0) (S fuel) standard (grammar_of (S d0) (S fuel) standard n) (Some d) b (Front s p st) =
      Ok (Front s' q st, b) ∧ serves s' (t :: R) ∧ emitted d b p q l c ∧ Z.of_nat (length l) ≤ room x ∧
    block_expr b q = Ok (q, y) ∧ ity_of (ex_type y) = Some k ∧
    (layout M m l → undisturbed d0 ts ys M m x m l → ∃ m',
       IrSem.exec_code (S d0) ts ys M (m, []) c = Some (m', []) ∧ off M l m m' ∧
       IrSem.compute (S d0) ts ys M (m', []) y = Some ((m', []), le_enc (isize k) z)).
Proof.
  intros Hop Hg Hn Hf Ht Hs Hwf Hp Hvis Hx HwT Hl Hv.
  destruct (translate_writes d0 ts ys M d b fuel names envs Hop m e x k z Hg Hwf Hx HwT Hl Hv p (conj Hp Hvis))
    as (q & [b' y] & l & c & He & Hem & Hlen & [Hb Hy] & Hrun). cbn [fst snd] in Hb, Hy. subst b'.
  pose proof (rule_accepts (S d0) (S fuel) standard n 15 e Hg (conj (level_max e) (le_n _)) Hn Hf (Some d) b (t :: R) Ht s p st Hs) as Hpar.
  destruct (computed_inv d0 d fuel b e p q b y He) as [Htr Hbl]. change (enter_at 15 e) with (enter e) in Hpar. rewrite Htr in Hpar. destruct Hpar as (s' & Hr & Hs').
  exists s', q, l, c, y. split; [exact Hr|]. split; [exact Hs'|]. split; [exact Hem|]. split; [exact Hlen|]. split; [exact Hbl|].
  split; [apply Hy|]. intros Hlay Hu. destruct (Hrun m []) as (m' & Hex & Ho & _ & Hc); [by rewrite app_nil_r|by rewrite app_nil_r|].
  exists m'. split; [exact Hex|]. split; [exact Ho|]. apply Hc, off_refl.
Qed.

(** ** The preprocessor as the source *)

(** The parser is served by the functions of preprocess.c: the tokens that wait
    in the queue are the ones it will get. *)
Section preprocessor.
Context `{FA : FloatArith} (bits : Z) (c99 : bool) (depth fuel : nat) (fopen : list Z → option (list Z)).

Definition preprocessor : TokenSource pp := {|
  src_next := Preproc.next bits c99 depth fuel fopen;
  src_peekn := Preproc.peekn bits c99 depth fuel fopen
|}.
Program Definition queue_served : @TokensServed pp preprocessor := {|
  serves p l := l `prefix_of` Macro.lookahead p
|}.
Next Obligation.
  intros p t l [k Hk]. cbn [src_next preprocessor]. unfold Preproc.next. rewrite Hk.
  cbn [length Nat.ltb Nat.leb app mbind outcome_bind]. rewrite Hk. eexists. split; [done|]. by exists k.
Qed.
Next Obligation.
  intros p l n t Hl Ht. cbn [src_peekn preprocessor]. exists p. split; [|done]. unfold Preproc.peekn.
  pose proof (prefix_lookup_Some _ _ _ _ Ht Hl) as Hq. pose proof (lookup_lt_Some _ _ _ Hq) as Hlt.
  rewrite (proj2 (Nat.ltb_ge _ _)) by lia. cbn. by rewrite Nat.sub_0_r, Hq.
Qed.
End preprocessor.

(** *** [(x + y) * 3 - (x < y);] *)

Definition demo_line : list Z := cstr "(x + y) * 3 - (x < y);".
Definition spaced (t : token) : token := set_leading_whitespace t 1.
Definition x_token : token := ident (cstr "x").
Definition y_token : token := ident (cstr "y").
Definition three_token : token :=
  Token.Token NUMBER 1 false false basic_type__int (D_val 3).
Definition demo_expr : expr :=
  Infix
    (Infix
      (Post (Paren (basic OPEN_PAREN) (Infix (Post (Name x_token)) (spaced (basic PLUS)) (Post (Name (spaced y_token))))
        (basic CLOSE_PAREN)))
      (spaced (basic STAR)) (Post (Number three_token)))
    (spaced (basic MINUS))
    (Post (Paren (spaced (basic OPEN_PAREN)) (Infix (Post (Name x_token)) (spaced (basic LT)) (Post (Name (spaced y_token))))
      (basic CLOSE_PAREN))).

(** The preprocessor after it has read the line. *)
Definition demo_source : pp :=
  match (p ← text_start (demo_line ++ [10]); Preproc.peekn 64 true 20 100 (λ _, None) p 1) with
  | Ok (p, _) => p
  | _ => pp_start
  end.
#[local] Instance demo_preprocessor : TokenSource pp := preprocessor 64 true 20 100 (λ _, None).
#[local] Instance demo_preprocessor_served : TokensServed pp := queue_served 64 true 20 100 (λ _, None).

Lemma demo_queue : serves demo_source (tokens demo_expr ++ basic SEMICOLON :: []).
Proof.
  assert (H : Macro.lookahead demo_source = tokens demo_expr ++ [basic SEMICOLON]) by (vm_compute; reflexivity).
  cbn [serves demo_preprocessor_served queue_served]. by rewrite H.
Qed.
Lemma good_infix k o l t r : infix (tk_token t) = Some (k, o) → good l → good r →
  (level_of l <=? k)%nat && (level_of r <? k)%nat = true → good (Infix l t r).
Proof. intros Ht Hl Hr [Hk%Nat.leb_le Hj%Nat.ltb_lt]%andb_prop. cbn [good]. by exists k, o. Qed.
Lemma demo_good : good demo_expr.
Proof.
  assert (Hp : ∀ o c t, tk_token o = OPEN_PAREN → tk_token c = CLOSE_PAREN → is_Some (infix (tk_token t)) →
    good (Post (Paren o (Infix (Post (Name x_token)) t (Post (Name (spaced y_token)))) c))).
  { intros o c t Ho Hc [[k p] Ht]. split; [exact Ho|]. split; [|exact Hc]. pose proof (infix_level _ _ _ Ht).
    apply (good_infix k p); [exact Ht|reflexivity..|]. apply andb_true_intro. split; [reflexivity|].
    apply Nat.ltb_lt. cbn [level_of]. lia. }
  apply (good_infix 4 (false, IR_OP_SUB)); [reflexivity| | |reflexivity].
  - apply (good_infix 3 (false, IR_OP_MUL)); [reflexivity| |reflexivity|reflexivity]. apply Hp; [reflexivity..|by eexists].
  - apply Hp; [reflexivity..|by eexists].
Qed.

(** [x] and [y] in a scope, in which [x_symbol] is [int] and [y_symbol] is
    [unsigned char]. *)
Definition scope_tab : symtab := add_listed NS_IDENT 2%N (add_listed NS_IDENT 1%N demo_tab).
Definition scope_commands : list scope_cmd := [K_push; K_visible 1%N (cstr "x"); K_visible 2%N (cstr "y")].
Definition scope_env : list bindings := [{[cstr "x" := 1%N; cstr "y" := 2%N]}].
Definition scoped : symtab := match scope_run scope_tab NS_IDENT scope_commands with Ok (s, _) => s | _ => symtab_start end.

Lemma scope_tab_ok : symtab_ok scope_tab (λ _, []).
Proof.
  apply add_listed_ok; [|change (2%N ∉ [1%N]); by rewrite list_elem_of_singleton|by eexists].
  apply add_listed_ok; [apply demo_tab_ok|apply not_elem_of_nil|by eexists].
Qed.

Lemma scoped_ok : symtab_ok scoped (env_set (λ _, []) NS_IDENT scope_env).
Proof.
  destruct (scope_run_ok scope_tab (λ _, []) NS_IDENT scope_commands scope_env []) as (s & Hs & Hok).
  - exact scope_tab_ok.
  - unfold scope_commands. repeat apply Forall_cons_2; [done| | |done].
    + split; [by apply list_elem_of_lookup; exists 0%nat|by eexists].
    + split; [by apply list_elem_of_lookup; exists 1%nat|by eexists].
  - vm_compute. reflexivity.
  - unfold scoped. by rewrite Hs.
Qed.

Definition demo_names (name : list Z) : option var :=
  if decide (name = cstr "x") then Some dx else if decide (name = cstr "y") then Some dy else None.
Definition scoped_parser : parser := Parser scoped {[1%N := definition_zero]} {[1%N := block_zero]} [] [] [] [].

Lemma scoped_symbols : sb_symbols scoped !! 1%N = Some (demo_variable (cstr "x") basic_type__int) ∧
  sb_symbols scoped !! 2%N = Some (demo_variable (cstr "y") basic_type__unsigned_char).
Proof. vm_compute. done. Qed.
Lemma scoped_visible : visible demo_names (env_set (λ _, []) NS_IDENT scope_env) scoped_parser.
Proof.
  split; [exact scoped_ok|]. intros name v Hv. unfold demo_names in Hv. rewrite env_set_eq. destruct scoped_symbols as [Hx Hy].
  destruct (decide (name = cstr "x")) as [->|]; [|destruct (decide (name = cstr "y")) as [->|]; [|discriminate Hv]];
    injection Hv as <-; (split; [apply (bool_decide_eq_true_1 _); vm_compute; reflexivity|]).
  - exists 1%N. eexists. split; [reflexivity|]. split; [exact Hx|reflexivity].
  - exists 2%N. eexists. split; [reflexivity|]. split; [exact Hy|reflexivity].
Qed.

Abbreviation demo_parse :=
  (expression_rule 1 20 STD_C99 (grammar_of 1 20 STD_C99 19) (@Some defref 1%N) 1%N (Front demo_source scoped_parser statics_start)) (only parsing).
Definition parsed_locals (o : outcome (front pp * bref)) : option (list symref) :=
  match o with Ok (f, _) => d_locals <$> ps_defs (fr_parser f) !! 1%N | _ => None end.
Definition parsed_code (o : outcome (front pp * bref)) : option (list optype) :=
  match o with Ok (f, _) => (λ B, map (λ s, ex_op (st_expr s)) (b_code B)) <$> ps_blocks (fr_parser f) !! 1%N | _ => None end.
Lemma demo_parse_locals : parsed_locals demo_parse = Some [3; 4; 5; 6; 7]%N.
Proof. vm_compute. reflexivity. Qed.

Lemma demo_wf : Forall token_wf (tokens demo_expr).
Proof.
  cbn [tokens demo_expr chain_tokens app].
  repeat apply Forall_cons_2; try apply Forall_nil_2; vm_compute; repeat constructor; discriminate.
Qed.

Lemma scoped_ready n : 0 ≤ n < 1000 → ready 1%N 1%N [] n scoped_parser.
Proof.
  intros Hn. split; [eexists; exact scoped_ok|done|done|done|]. change (ps_tab scoped_parser) with scoped.
  assert (sb_n scoped N_TEMPORARY = 0) as -> by (vm_compute; reflexivity). lia.
Qed.

Lemma demo_int_tree : int_tree demo_names demo_expr = Some demo_tree.
Proof. vm_compute. reflexivity. Qed.

Lemma emitted_parsed_locals q l c (s : pp) st r : emitted 1%N 1%N scoped_parser q l c →
  parsed_locals (Ok (Front s q st, r)) = Some l.
Proof.
  intros Hem. unfold parsed_locals. cbn [fr_parser].
  by rewrite (em_def _ _ _ _ _ _ Hem definition_zero eq_refl), lookup_insert_eq.
Qed.

(** The expression is read from the text, and the code of its tokens computes
    620 where [x] is 7 and [y] is 200. *)
Lemma expression_compiled_witness : ∃ s q c y m',
  demo_parse = Ok (Front s q statics_start, 1%N) ∧ serves s [basic SEMICOLON] ∧ block_expr 1%N q = Ok (q, y) ∧
  IrSem.exec_code 1 [] ∅ demo_machine (demo_memory, []) c = Some (m', []) ∧
  IrSem.compute 1 [] ∅ demo_machine (m', []) y = Some ((m', []), le_enc 4 620).
Proof.
  destruct (expression_compiled 0 [] ∅ demo_machine 1%N 1%N 19 STD_C99 19 demo_names (env_set (λ _, []) NS_IDENT scope_env) demo_expr demo_tree demo_source scoped_parser
    statics_start (basic SEMICOLON) [] demo_memory I32 620) as (s & q & l & c & y & Hr & Hs & Hem & _ & Hb & _ & Hrun).
  - done.
  - exact demo_good.
  - apply Nat.leb_le. reflexivity.
  - apply Nat.leb_le. reflexivity.
  - reflexivity.
  - exact demo_queue.
  - exact demo_wf.
  - apply scoped_ready. cbn. lia.
  - exact scoped_visible.
  - exact demo_int_tree.
  - repeat split.
  - exact demo_leaves_ok.
  - vm_compute. reflexivity.
  - pose proof demo_parse_locals as Hl. rewrite Hr, (emitted_parsed_locals q l c s _ _ Hem) in Hl.
    apply (inj Some) in Hl. subst l. destruct Hrun as (m' & Hex & _ & Hc); [exact demo_layout|exact demo_undisturbed|].
    exists s, q, c, y, m'. split; [exact Hr|]. split; [exact Hs|]. split; [exact Hb|]. split; [exact Hex|exact Hc].
Defined.

(** [x += y ? -x : (long) 3, x++], from a list of tokens. *)
Definition long_expr : expr :=
  Comma
    (Assignment (Post (Name x_token)) (basic PLUS_ASSIGN)
      (Cond (Post (Name y_token)) (basic QUESTION) (Prefix (basic MINUS) (Post (Name x_token)))
        (basic COLON) (Cast (basic OPEN_PAREN) [basic LONG] (basic CLOSE_PAREN) (Post (Number three_token)))))
    (basic COMMA) (Post (PostStep (Name x_token) (basic INCREMENT))).

Lemma long_good : good long_expr.
Proof.
  repeat first [lia|reflexivity|(split; [reflexivity|])|(split; [by eexists|])|(split; [discriminate|])|(split; [cbn; lia|])|split];
    cbn; lia.
Qed.

Abbreviation translated :=
  ((_ ← enter long_expr; translate 1 20 long_expr (@Some defref 1%N) 1%N) scoped_parser) (only parsing).
Definition block_of {A} (o : outcome (A * bref)) : option bref := match o with Ok (_, b) => Some b | _ => None end.
Lemma block_of_inv {A} (o : outcome (A * bref)) b : block_of o = Some b → ∃ p, o = Ok (p, b).
Proof. destruct o as [[p b']| |]; [|discriminate..]. intros [= ->]. by exists p. Qed.
Lemma long_translated : block_of translated = Some 4%N.
Proof. vm_compute. reflexivity. Qed.

Lemma expression_parsed_witness : ∃ p s, expression_rule 1 20 STD_C99 (grammar_of 1 20 STD_C99 19) (@Some defref 1%N) 1%N
    (Front (tokens long_expr ++ [basic SEMICOLON]) scoped_parser statics_start) = Ok (Front s p statics_start, 4%N) ∧
  serves s [basic SEMICOLON].
Proof.
  destruct (block_of_inv _ _ long_translated) as [p Ht].
  pose proof (expression_parsed 1 20 STD_C99 19 long_expr (@Some defref 1%N) 1%N (tokens long_expr ++ [basic SEMICOLON]) scoped_parser
    statics_start (basic SEMICOLON) [] long_good) as H. rewrite Ht in H.
  destruct H as (s & Hr & Hs).
  - apply Nat.leb_le. reflexivity.
  - apply Nat.leb_le. reflexivity.
  - reflexivity.
  - by exists [].
  - exists p, s. split; [exact Hr|exact Hs].
Defined.
