(* ===== verification/GrammarSpec.v ===== *)
(** * Whole programs, from their text

    Texts are read through the preprocessor and parsed by the whole grammar.  The
    flow graph of a function is run by the meaning of the intermediate
    representation; programs are optimized, generated, linked and interpreted as
    well.  Instances compute what C says; others show what the grammar gets
    wrong. *)

From stdpp Require Import base list gmap numbers strings.
From Stdlib Require Import ZArith Lia.
From S2P Require Import Optimize VmInstr VmImage VmGen VmLink VmRun.
From S2P Require Import Prelude Memory Token Lexer Macro MacroProps Preproc PreprocSpec CType Floats CArith Strings Symbol Typetree Symtab.
From S2P Require Import Immediate Ir IrSem Cfg Eval Assign VmGenSem Parser Expression Initializer Declaration Statement Grammar ParseSpec.

Local Open Scope Z_scope.

(** ** Reading and running *)

Section texts.
#[local] Instance text_source : TokenSource pp := preprocessor 64 true 20 1000 (λ _, None).

(** The state in which the driver starts to parse. *)
Definition start_front (ls : list (list Z)) : outcome (front pp) :=
  p ← text_start (text_of ls);
  s ← push_scope symtab_start NS_IDENT;
  s ← push_scope s NS_TAG;
  Ok (Front p (Cfg.Parser s ∅ ∅ [] [] [] []) statics_start).
(** The first definition of a text. *)
Definition parsed (ls : list (list Z)) : outcome (front pp * option defref) :=
  f ← start_front ls; Grammar.parse 6 60 STD_C99 60 f.
End texts.

(** What the parser says of a text, and why it stops. *)
Inductive verdict : Set := Accepted | Rejected (msg : string) | Undefined (why : string).
Definition verdict_on (ls : list (list Z)) : verdict :=
  match parsed ls with Ok _ => Accepted | Exit msg => Rejected msg | Undef why => Undefined why end.

(** The operations of the statements of each block, in the order in which the
    blocks were made, and the values of their jump tables. *)
Definition block_summary (b : block) : list optype * list Z := (map (λ s, ex_op (st_expr s)) (b_code b), map jp_value (b_jump_table b)).
Definition summary (ls : list (list Z)) : option (list (list optype * list Z)) :=
  match parsed ls with
  | Ok (f, Some d) =>
    D ← ps_defs (fr_parser f) !! d;
    mapM (λ b, block_summary <$> ps_blocks (fr_parser f) !! b) (d_nodes D)
  | _ => None
  end.

(** Symbol [r] is at [4096 + 16 * r]; a value is true when it is not zero; no
    function can be called. *)
Definition word_machine : machine :=
  Machine (λ r, 4096 + 16 * Z.of_N r) c_operate (λ _ bs, bs) (λ _ _ bs, bs) (λ _ bs, negb (le_dec bs =? 0)) (λ _ _ _ _, None).
Fixpoint with_arguments (rs : list symref) (zs : list Z) (m : mem) : option mem :=
  match rs, zs with
  | r :: rs, z :: zs => m ← mstore m (addr word_machine r) I32 z; with_arguments rs zs m
  | _, _ => Some m
  end.
(** The [int] that the first function of the text returns, for each list of
    arguments. *)
Definition returns (n : nat) (ls : list (list Z)) (args : list (list Z)) : option (list Z) :=
  match parsed ls with
  | Ok (f, Some d) =>
    D ← ps_defs (fr_parser f) !! d;
    body ← d_body D;
    let s := ps_tab (fr_parser f) in
    mapM (λ zs,
      m ← with_arguments (d_params D) zs (mblock 4096 (replicate 1600 0));
      '(_, v) ← IrSem.run 6 (sb_types s) (sb_symbols s) word_machine n (ps_blocks (fr_parser f)) body m;
      wrap_s 32 ∘ le_dec <$> v) args
  | _ => None
  end.

(** ** Functions that compute what they should *)

Definition gcd_text : list (list Z) :=
  [cstr "int gcd(int a, int b) {";
   cstr "  while (b) { int t = a % b; a = b; b = t; }";
   cstr "  return a;";
   cstr "}"].
(** Euclid's algorithm: a loop, a scope of its own, an initialized variable. *)
Example gcd_runs : returns 100 gcd_text [[84; 60]; [17; 5]; [0; 9]; [-84; 60]] = Some [12; 1; 9; 12].
Proof. vm_compute. reflexivity. Qed.

(** An array that is filled and summed through a pointer, [for], [continue],
    compound assignment, macros. *)
Definition sum_text : list (list Z) :=
  [cstr "#define N 4";
   cstr "int sum(int skip) {";
   cstr "  int a[N], i, s = 0, *p = a;";
   cstr "  for (i = 0; i < N; ++i) a[i] = i * i;";
   cstr "  for (i = 0; i < N; i++) { if (i == skip) continue; s += *(p + i); }";
   cstr "  return s;";
   cstr "}"].
Example sum_runs : returns 200 sum_text [[0]; [2]; [3]; [9]] = Some [14; 10; 5; 14].
Proof. vm_compute. reflexivity. Qed.

(** A struct with an initializer, a nested conditional, [do], [break] and
    [goto]. *)
Definition mixed_text : list (list Z) :=
  [cstr "typedef struct { char c; int v[2]; } pair;";
   cstr "int mixed(int n) {";
   cstr "  pair p = { 1, { 10, 20 } }, *q = &p;";
   cstr "again:";
   cstr "  do { q->v[1] += n ? n > 0 ? 1 : -1 : 100; if (q->v[1] > 50) break; } while (0);";
   cstr "  if (n-- > 0) goto again;";
   cstr "  return p.v[0] + p.v[1] + p.c;";
   cstr "}"].
Example mixed_runs : returns 200 mixed_text [[0]; [2]; [-1]] = Some [131; 133; 30].
Proof. vm_compute. reflexivity. Qed.

(** A [switch] by comparisons, with [default] and a case that falls through. *)
Definition switch_text : list (list Z) :=
  [cstr "int f(int a) {";
   cstr "  int r = 0;";
   cstr "  switch (a) { case -1000: r = 1; case 5: r += 2; break; default: r = 7; break;";
   cstr "    case 40: return 4; case 2000: r = 9; case 100: ; }";
   cstr "  return r;";
   cstr "}"].
Example switch_runs : returns 200 switch_text [[-1000]; [5]; [40]; [2000]; [100]; [6]] = Some [3; 2; 4; 9; 0; 7].
Proof. vm_compute. reflexivity. Qed.

(** ** Programs, from the text to the exit status *)

(** The functions of the runtime that the start code calls: they do nothing. *)
Definition builtins : list (list Z) := [cstr "__kcc_builtin_onstart"; cstr "__kcc_call_atexit_funcs"; cstr "__kcc_builtin_onexit"].
Definition with_symbols (x : gmap symref symbol) (s : symtab) : symtab :=
  Symtab x (sb_types s) (temporaries s) (string_types s) (decl_memcpy s) (functions s) (functions_init s) (ns_of s) (sb_n s) (sb_errors s).

Section programs.
#[local] Instance program_source : TokenSource pp := preprocessor 64 true 20 1000 (λ _, None).

(** The loop of the driver: definitions are parsed, optimized at [level] and
    generated, one after the other. *)
Fixpoint compile_all (n : nat) (level : Z) (f : front pp) (g : genstate) : outcome genstate :=
  match n with
  | O => Undef "not enough fuel"
  | S n =>
    '(f, d) ← Grammar.parse 6 60 STD_C99 60 f;
    match d with
    | None => Ok g
    | Some d =>
      let p := fr_parser f in
      let ts := sb_types (ps_tab p) in
      D ← defined "definition" (ps_defs p !! d);
      body ← defined "body" (d_body D);
      '(ys, bs) ← Optimize.optimize 6 ts level 200 (sb_symbols (ps_tab p)) (ps_blocks p) (d_symbol D) body;
      g ← VmGen.vm_gen_lir 6 ts 200 (MkDefinition (d_symbol D) body (d_params D) (d_locals D)) (VmGen.set_blocks bs (VmGen.set_symbols ys g));
      let p := ps_set_blocks (g_blocks g) (ps_set_tab (with_symbols (g_symbols g) (ps_tab p)) p) in
      compile_all n level (Front (fr_source f) p (fr_statics f)) g
    end
  end.
End programs.

(** The program is closed with its start code and linked; the interpreter runs
    it on a stack of 2000 bytes. *)
Definition execute (level : Z) (ls : list (list Z)) : option (outcome Z) :=
  let linked :=
    f ← start_front ls;
    g ← VmGen.vm_init false builtins (sb_symbols (ps_tab (fr_parser f))) (ps_blocks (fr_parser f));
    g ← compile_all 20 level f g;
    code ← VmGen.close_program 0 0 0 g;
    Ok (reassign_label_index 1000 (g_labels g) [] Some code) in
  match linked with
  | Ok (Some (Ok (labels, code))) =>
    l ← get_vm_label labels (cstr "_startup");
    VmRun.run (VmEnv (exec_of code) 4096 0 (λ _ m _, Ok (m, 0)) (λ f, f)) 5000
      (start_state (mblock 4096 (replicate 2000 0)) (l_index l) (stack_base 0))
  | _ => None
  end.

Definition factorial_program : list (list Z) :=
  [cstr "int fact(int n) { return n < 2 ? 1 : n * fact(n - 1); }";
   cstr "int main(void) { return fact(5); }"].
(** Recursion and calls, with and without optimization. *)
Example factorial_executes :
  execute 0 factorial_program = Some (Ok 120) ∧ execute 1 factorial_program = Some (Ok 120).
Proof. vm_compute. split; reflexivity. Qed.

(** Pointers to locals, arrays, a struct passed by value, a function that
    returns through a pointer. *)
Definition sort_program : list (list Z) :=
  [cstr "#define SWAP(T, x, y) do { T t = x; x = y; y = t; } while (0)";
   cstr "struct span { int *first; long n; };";
   cstr "static void sort(struct span s) {";
   cstr "  for (int i = 1; i < s.n; i++)";
   cstr "    for (int j = i; j > 0 && s.first[j - 1] > s.first[j]; --j) SWAP(int, s.first[j], s.first[j - 1]);";
   cstr "}";
   cstr "int main(void) {";
   cstr "  int a[] = { 3, -1, 4, 1, -5 };";
   cstr "  struct span s = { a, sizeof(a) / sizeof(a[0]) };";
   cstr "  sort(s);";
   cstr "  return (a[4] - a[0]) * 10 + a[3];";
   cstr "}"].
Example sort_executes : execute 0 sort_program = Some (Ok 93) ∧ execute 1 sort_program = Some (Ok 93).
Proof. vm_compute. split; reflexivity. Qed.

(** ** What the grammar gets wrong *)

(** With at most four cases the controlling expression is evaluated for each of
    them: here the function is called twice. *)
Theorem switch_calls_again :
  hd_error <$> summary [cstr "int g(void);";
    cstr "int f(void) { switch (g()) { case 1: return 2; case 2: return 3; } return 0; }"] = Some (Some ([IR_OP_CALL; IR_OP_CALL], [])).
Proof. vm_compute. reflexivity. Qed.

(** The calls that follow get no arguments: this program, which should return
    1, stops. *)
Theorem switch_repeats_effects :
  execute 0 [cstr "int next(int *p) { return ++*p; }";
    cstr "int main(void) { int k = 0; switch (next(&k)) { case 5: break; case 6: break; case 7: break; } return k; }"] =
    Some (Exit "Oops, null-pointer access.").
Proof. vm_compute. reflexivity. Qed.

(** With more of them they are sorted as they are written but compared in the
    common type: [case -1] of an unsigned expression is not found. *)
Theorem unsigned_case_missed :
  let f t := [cstr "int f(" ++ cstr t ++ cstr " a) {";
    cstr "  switch (a) { case -1: return 1; case 100: return 2; case 200: return 3; case 300: return 4; case 400: return 5; }";
    cstr "  return 0; }"] in
  returns 100 (f "int"%string) [[-1]] = Some [1] ∧ returns 100 (f "unsigned"%string) [[-1]] = Some [0].
Proof. vm_compute. split; reflexivity. Qed.

(** The entries of a jump table are taken modulo the width of [int]: cases of
    a [long] expression above it are those of small numbers. *)
Theorem long_cases_truncated :
  let f a b c d e := [cstr "int f(long a) {";
    cstr "  switch (a) { case " ++ cstr a ++ cstr ": return 1; case " ++ cstr b ++ cstr ": return 2; case " ++ cstr c
      ++ cstr ": return 3; case " ++ cstr d ++ cstr ": return 4; case " ++ cstr e ++ cstr ": return 5; }";
    cstr "  return 0; }"] in
  let small := f "0" "1" "2" "3" "4" in
  summary (f "4294967296" "4294967297" "4294967298" "4294967299" "4294967300") = summary small ∧
  map snd <$> summary small ≠ map (λ _, []) <$> summary small.
Proof. vm_compute. split; [reflexivity|discriminate]. Qed.

(** The distance of two cases is computed in [int]. *)
Theorem far_cases_overflow :
  verdict_on [cstr "int f(int a) {";
    cstr "  switch (a) { case -2147483647: return 1; case 1: return 2; case 2: return 3; case 3: return 4; case 2147483647: return 5; }";
    cstr "  return 0; }"] = Undefined "signed overflow".
Proof. vm_compute. reflexivity. Qed.

(** Constraints that are not checked: a case given twice, [break] and
    [continue] without a loop, a label that is not there, an enumerator declared
    twice, an assignment to a conditional expression, elements of an initializer
    without a comma between them, and one behind the end of an array. *)
Theorem constraints_not_checked :
  map (λ l, verdict_on [cstr l])
    ["int f(int a) { switch (a) { case 1: return 2; case 1: return 3; } return 0; }";
     "int f(void) { break; return 0; }";
     "int f(void) { continue; return 0; }";
     "int f(void) { goto x; return 0; }";
     "enum { A, B, A }; int x = A;";
     "int f(int a) { (a ? a : a) = 5; return a; }";
     "int a[] = { 1 2 3 };";
     "int x[2] = { [2] = 3 };"]%string = replicate 8 Accepted.
Proof. vm_compute. reflexivity. Qed.

(** Valid programs that are rejected: two functions in one declaration, [long]
    behind [int] or [double], a call with arguments of a function without a
    prototype, members of a union without braces in front of another member. *)
Theorem valid_programs_rejected :
  map (λ l, verdict_on [cstr l])
    ["int f(), g();";
     "int long x;";
     "double long x;";
     "int g(); int f(int a) { return g(a); }";
     "struct { union { int a; int b; } u; int c; } s = { 1, 2 };"]%string = replicate 5 (Rejected "Unexpected token.").
Proof. vm_compute. reflexivity. Qed.

(** Designators of bit-fields in another order than their declaration abort
    the compiler. *)
Theorem fields_out_of_order :
  verdict_on [cstr "struct { int a : 3; int b : 4; } s = { .b = 1, .a = 2 };"] = Rejected "assertion failed" ∧
  verdict_on [cstr "struct { int a : 3; int b : 4; } s = { .a = 2, .b = 1 };"] = Accepted.
Proof. vm_compute. split; reflexivity. Qed.
